(* ===== verification/_CoqProject ===== *)
-Q . S2P
Prelude.v
Bits.v
Bytes.v
Abi.v
Interleave.v
DList.v
Cred.v
CredProps.v
Signal.v
SignalFacts.v
SignalProps.v
FileTable.v
FileSpec.v
FileFacts.v
FileOps.v
FileCalls.v
FileDup.v
FileProps.v
Pipe.v
PipeFacts.v
PipeProps.v
Bootmem.v
BootmemProps.v
PageAlloc.v
PageFacts.v
PageRuns.v
PageProps.v
WavlTree.v
Wavl.v
WavlHeap.v
WavlOps.v
WavlCalls.v
WavlProps.v
Frames.v
VmObject.v
VmObjectFacts.v
VmObjectOps.v
VmObjectLife.v
VmObjectPurge.v
VmObjectProps.v
VmBacking.v
Vm.v
VmLayout.v
VmPrivate.v
VmSpace.v
VmUnmap.v
VmProtect.v
VmMap.v
VmLife.v
VmProps.v
PageTable.v
PageTableFacts.v
PageTableUnmap.v
PageTableProps.v
VmDestroy.v
Mutex.v
MutexProps.v
Rwlock.v
RwlockProps.v
Semaphore.v
SemaphoreProps.v
Sched.v
SchedProps.v
Futex.v
FutexProps.v
Checksum.v
Qsort.v
Cstring.v
CstringProps.v
Ext2.v
Ext2Facts.v
Ext2Tree.v
Ext2File.v
Ext2Trunc.v
Ext2Props.v
FileCache.v
FileCacheProps.v
Ext2Dir.v
Ext2DirFacts.v
Ext2DirProps.v
