(* ===== verification/Prelude.v ===== *)
(** * A verification library for the Onyx kernel

    Onyx is a POSIX-like operating system kernel in C++.  This library is a shallow
    embedding of its core: every modelled function of the source is a Rocq function of
    the same name, executable, with its early returns, error codes and machine-word
    arithmetic, and the theorems are about those functions.  Paths below are relative
    to [src/kernel].

    ** The program and its model

    System calls enter with the current process and thread.  A process owns
    credentials, limits, a descriptor table and signal state; descriptors refer to
    reference-counted files; two of the file kinds are the ends of a pipe, whose readers
    and writers block on wait queues.  The address space of a process is a tree of regions,
    each backed by an object that holds pages, possibly shared with other address spaces or
    copied on write.  Underneath, the page allocator hands out physical pages; it is fed
    from the ranges that boot memory collects.

    - [Prelude] (this file): machine integers, the state monad with faults [M], its
      total-correctness predicate [wp] with symbolic-execution tactics ([wp_step],
      [wp_steps]), and C arrays with bounds ([aget], [aset]).  A null dereference, an
      access out of bounds, a use after free, a failed assertion, a panic and a
      deadlock are [Fault]s; a theorem stated with [wp] excludes all of them.
    - [Bits]: 64-bit words and arrays of words as bit sets, with the C expressions for
      test, set, clear and count-trailing-zeroes, and their meaning bit by bit.
    - [Bytes]: numbers stored as bytes, lowest first.
    - [Abi]: error numbers, open flags and the like.
    - [Cred]: [kernel/cred.cpp] (ids, groups, the set*id calls, inheritance),
      [kernel/rlimit.cpp], [inode_can_access] of [kernel/fs/vfs.cpp], chown and chmod of
      [kernel/fs/file.cpp].  State: the [creds] record, the limit array, the inode.
    - [Signal]: [include/onyx/signal.h] and [kernel/signal.cpp]: signal sets as words,
      [signal_info] per thread, actions per process, generation ([kernel_tkill],
      [kernel_raise_signal]), [route_signal] of [kernel/process.cpp], frame set-up of
      [arch/x86_64/signal.cpp], delivery ([handle_signal]), and the system calls on masks,
      actions, alternate stacks and queued signals.
    - [FileTable]: the descriptor half of [kernel/fs/file.cpp] and [include/onyx/ioctx.h]:
      the array of file pointers with its two bitmaps, file objects on a heap with
      reference counts, the table lock, allocation failure as an input.
    - [Pipe]: [kernel/fs/pipe.cpp] with the wait macro of [include/onyx/wait_queue.h] and
      [kernel/wait_queue.cpp].  One iteration of the copy loops is a function on the
      pipe; [step] interleaves any number of threads at explicit program points.
    - [Bootmem]: [kernel/mm/bootmem.cpp].
    - [PageAlloc]: [kernel/mm/pagealloc.cpp], [kernel/mm/page.cpp], [include/onyx/page.h].
    - [Wavl]: [lib/binary_search_tree/binary_search_tree.c], the rank-balanced tree with
      parent pointers, as a heap of nodes.
    - [Frames]: the page allocator as the layers above use it, a class of operations
      with laws; a simple memory is an instance.
    - [VmObject]: [kernel/mm/vm_object.cpp]: objects by address, with their pages,
      reference counts and the object they were copied from, over any [Frames].
    - [Vm]: [kernel/mm/vm.cpp] for the address space of a process: regions in a [Wavl]
      tree, their objects, mmap, munmap, mprotect and brk.
    - [PageTable]: [arch/x86_64/mmu.cpp] with [pat.cpp]: four levels of tables, mapping a page,
      changing its protection, unmapping a range with the accounting of resident pages and
      tables, and what the TLB is told to forget.
    - [VmDestroy]: [vm_destroy_addr_space] of [kernel/mm/vm.cpp], on [Vm] and [PageTable]
      together.
    - [Interleave]: threads that take turns at atomic accesses to shared memory, executions
      under any schedule, and counting threads by where they are.  [DList]: doubly linked
      lists as two maps of links.
    - [Mutex], [Rwlock]: [kernel/sched/mutex.cpp] and [kernel/sched/rwlock.cpp], one program
      point per access to shared memory, over [Interleave].
    - [Semaphore]: the semaphores of [kernel/sched/scheduler.cpp] with the thread queue of
      [kernel/sched/primitive_generic.h].
    - [Sched]: the run queues of a processor in [kernel/sched/scheduler.cpp], with choosing,
      switching, preemption, waking and removal of threads.
    - [Futex]: [kernel/futex.cpp] with the hash of [include/onyx/fnv.h] and the wait macros
      of [include/onyx/wait_queue.h], over [Interleave]: buckets with their locks, waiters
      with their entries, and the words in user memory.
    - [Checksum]: [kernel/net/checksum.cpp] and [include/onyx/net/inet_csum.h].
    - [Qsort], [Cstring]: [lib/libk/stdlib/qsort.c], and the functions on strings, blocks of
      bytes and numbers of [lib/libk/string], [ctype] and [misc], over a memory of bytes.
    - [Ext2]: [kernel/fs/ext2]: the bitmaps and counters of the block groups
      ([block_groups.cpp], [alloc.cpp]), the inode table ([ext2_ll.cpp]), the map of a file
      and its truncation ([inode.cpp]), on a disk of blocks of bytes.
    - [FileCache]: reading and writing a file through its cached pages in [kernel/fs/inode.cpp],
      filled by [vmo_inode_commit] of [kernel/fs/vfs.cpp]; the operations of the file system are
      parameters.
    - [Ext2Dir]: the directories of [kernel/fs/ext2/ext2_ll.cpp], over [FileCache]: adding,
      finding and unlinking entries.

    Beside each model stands its theory: [*Facts] files hold the invariant and one
    specification per operation, [*Props] files the theorems about the component; the small files
    [Checksum], [Qsort] and [VmDestroy] hold both model and theory
    ([FileSpec], [FileOps], [FileCalls] and [FileDup] split the theory of the
    descriptor table, [PageRuns] holds contiguous allocation).  For the tree, [WavlTree] is
    the abstract tree with its rank rules, [WavlHeap] relates it to the nodes in memory, and
    [WavlOps] and [WavlCalls] verify rotations and calls.  [VmObjectFacts], [VmObjectOps],
    [VmObjectLife] and [VmObjectPurge] are the theory of objects; [VmBacking] restates it as
    the contracts address spaces rely on, and follows runs in which no allocation fails.  For address spaces, [VmLayout] is the order of the regions,
    [VmPrivate] who owns which object, [VmSpace] the invariant, and [VmUnmap], [VmProtect],
    [VmMap] and [VmLife] the calls.  [PageTableFacts] is the tree of tables, in which a map gives each table its level
    and the part of the address space it is for, and the walks down it, and [PageTableUnmap] how a range
    of it goes.  [Ext2Facts] holds the invariant of the bitmaps,
    [Ext2Tree] and [Ext2File] the tree of tables below an inode and how it grows, and
    [Ext2Trunc] how it shrinks; [Ext2DirFacts] the records in a block of a directory.

    ** What is shown

    - Descriptors ([FileProps]): [FileSpec] states the contract of the calls over an
      abstract view (a finite map from descriptors to open files) and the code refines
      it: any sequence of the calls it covers (no dup2 onto itself or just past the table)
      runs without fault or deadlock and changes the view as the contract says ([fd_refinement]).  Reference counts are exact: a file exists
      iff something refers to it ([refcounts_exact]).  Allocation terminates with the
      lowest free descriptor; fork shares, exit releases, exec closes what it must.
    - Credentials ([CredProps]): a process without user id 0 never gains an id it did not
      have, the permission check is the POSIX one but for one case, hard limits stay.
    - Signals ([SignalProps]): while frames can be written and no signal is forced, a pending bit has a
      queued entry and SIGKILL and SIGSTOP are unblocked; delivery ends, within one turn per entry.
    - Pipes ([PipeProps]): under every interleaving the bytes form a queue, small writes
      are atomic, a successful call moved what it reports, and no wake-up is lost.
    - Boot memory ([BootmemProps]): reserving removes exactly the reserved bytes, boot
      allocation takes its block from one range; each with its side conditions.
    - Pages ([PageProps]): the free list is exactly the free pages, allocation and
      freeing are inverse, contiguous allocation is sound and complete, and legal
      operations never trip an assertion.
    - The tree ([WavlProps]): insertion and deletion keep the order and the rank rules,
      searching is logarithmic, iteration may delete the entry it stands on.
    - Objects ([VmObjectProps]): a fault yields a page with the right contents, writes after
      a fork are private, page counts are exact, and truncation cuts where it must.
    - Address spaces ([VmProps]): mmap, munmap, mprotect and brk change the mapping of
      exactly the bytes they are about; counters, reference counts and the private list stay
      exact.
    - Page tables ([PageTableProps]): mapping a page sets its entry and no other, a page that is
      write-protected until it is copied stays so, and unmapping a range takes out the pages of the
      range and no others and gives back the tables that become empty; the counters are exact.
      Regions and page tables together ([VmDestroy]): destruction releases everything and
      trips none of its four assertions.
    - Locks ([MutexProps], [RwlockProps], [SemaphoreProps]): under every interleaving the
      locks exclude whom they must, the word of a reader/writer lock counts its readers, and where all callers are uninterruptible nobody sleeps
      on a free lock; a semaphore counts its signals, and its queue keeps its links.
    - Scheduling ([SchedProps]): the threads of the highest priority take turns, a woken
      thread is queued, and preemption spares a thread that is about to sleep.
    - Futexes ([FutexProps]): the bucket locks do not deadlock, a sleeper is where a wake
      finds it, and waiters are woken in the order in which they came.
    - Checksum ([Checksum]): the blocked computation equals the definition, and what a
      sender fills in a receiver accepts.
    - C library ([Qsort], [CstringProps]): sorting ends with a sorted permutation;
      lengths and copies by words agree with strings as lists of bytes, overlapping moves are
      right, numbers are read as their digits say, and tokens are the fields of a string.
    - ext2 ([Ext2Props]): an allocated block was free and is the only one taken; making the
      path to a block maps that block and leaves every other block and file alone; truncating
      to nothing frees exactly the blocks of the file; all counters stay exact.
    - Files ([FileCacheProps]): what is written through the page cache is what is read back.
      Directories ([Ext2DirProps]): a name that is added is found, unlinking removes that
      entry and keeps the others, and every loop over records ends.

    Some theorems state behaviour that contradicts the intent of the code: [dup2] onto
    the first descriptor past the table or onto itself, a forked child's saved ids,
    [sigsuspend], forced and routed signals, default stops, unwritable signal frames,
    small writes into a nearly full pipe, non-blocking large writes, the used-page count
    after contiguous allocation, neighbouring reserved ranges, splitting an object, the
    placement, unmapping and protection of ranges that overlap regions in part, the wake-up
    of an interrupted waiter, the removal of the first thread of a run queue, requeued and
    timed futex waits, checksums at odd addresses, several string functions, truncation
    to the first block of an indirect table, contiguous memory below 4 GiB where the arenas are not
    sorted, and unmapping a range that begins or ends inside a table it otherwise covers.

    ** Bounds and fuel

    Loops over arrays recurse on the number of entries and need no fuel.  The retry loop
    of [alloc_fd] has one unit per possible enlargement; [handle_loop] one per queued
    signal; [deliver_signal] bounds the recursion of forced SIGSEGV, and the theorem on
    it shows that no bound is enough.  [scan], [add_region_loop] and [free_pages] get one
    unit per page, [reserve_loop] the 128 entries of its table; walks up and down the tree and
    loops over regions get one unit per node and one more ([walk_bound]), and walks along a
    run queue one per thread.  Loops over strings get one unit per byte of memory and one more
    ([bound]), the recursion of [qsort] one per element and one more.
    Loops over the blocks of a directory and the records of a block ([dir_fuel], [block_fuel]) get one unit
    per block and per smallest record, those over the pages of a file ([cache_fuel]) one per page;
    the walks of the page tables recurse on the level and on the number of entries.  For each of them a theorem shows that the fuel suffices.
    Machine words are integers with explicit wrap-around ([u32], [u64], [i32], [i64]); where
    a theorem needs an absence of overflow it is a hypothesis or part of the invariant.

    ** What is not modelled

    Locks taken and released inside one operation make that operation atomic; the table
    lock (double locking is a fault), the pipe mutex and the spinlocks inside the locks of
    [Mutex], [Rwlock] and [Semaphore] are explicit, and memory is sequentially consistent.
    Memory allocation failure and faulting user pointers are inputs of the operations.  User
    memory is the data passed in and out; page contents are one bit, "all zero", in [PageAlloc], and any
    contents in [Frames].  Of virtual memory, page faults, the
    kernel's own address space, the fork of an address space and mremap are not modelled;
    munmap and mprotect are modelled without their calls into the page tables,
    huge pages do not occur in user memory, and the theorems on mmap are about anonymous memory.  Of the scheduler,
    context switching, thread creation and exit, and condition variables are not modelled,
    nor is the spinning reader/writer lock.  Of ext2, the connection of the page cache to the disk
    ([ext2_readpage], [ext2_prepare_write]: parameters of [Ext2Dir]), listing a directory, links
    and mounting are not modelled, and files have no extended attributes in the theorem on
    truncation.  The VFS proper, the network stack above the checksum, drivers and
    the other architecture code are not modelled.  The order of further work is: page faults and fork of
    address spaces, poll on the wait-queue model, the slab allocator, dentries and path
    walking, TCP, and terminals. *)

From stdpp Require Export base tactics numbers list gmap option.
From stdpp Require Import sorting.
#[global] Open Scope Z_scope.
#[global] Set Warnings "-clear-no-such-hyp".

(** ** Machine integers *)

Definition INT_MAX : Z := 2 ^ 31 - 1.
Definition UINT_MAX : Z := 2 ^ 32 - 1.
Definition ULONG_MAX : Z := 2 ^ 64 - 1.

Definition u16 (x : Z) : Z := x mod 2 ^ 16.
Definition u32 (x : Z) : Z := x mod 2 ^ 32.
Definition u64 (x : Z) : Z := x mod 2 ^ 64.
Definition i32 (x : Z) : Z := (x + 2 ^ 31) mod 2 ^ 32 - 2 ^ 31.
Definition i64 (x : Z) : Z := (x + 2 ^ 63) mod 2 ^ 64 - 2 ^ 63.

(** A value of type [int]. *)
Definition is_int (x : Z) : Prop := - 2 ^ 31 <= x <= INT_MAX.

Lemma u16_small z : 0 <= z < 2 ^ 16 → u16 z = z.
Proof. apply Z.mod_small. Qed.
Lemma u32_small z : 0 <= z < 2 ^ 32 → u32 z = z.
Proof. apply Z.mod_small. Qed.

Lemma i64_small x : - 2 ^ 63 <= x < 2 ^ 63 → i64 x = x.
Proof. intros. unfold i64. rewrite Z.mod_small by lia. lia. Qed.

Lemma i64_idem a : i64 (i64 a) = i64 a.
Proof. unfold i64. f_equal. by rewrite Z.sub_add, Z.mod_mod. Qed.

Lemma i64_add a b c : i64 a = i64 b → i64 (a + c) = i64 (b + c).
Proof.
  unfold i64. intros H. assert ((a + 2 ^ 63) mod 2 ^ 64 = (b + 2 ^ 63) mod 2 ^ 64) as H' by lia.
  f_equal. replace (a + c + 2 ^ 63) with ((a + 2 ^ 63) + c) by lia. replace (b + c + 2 ^ 63) with ((b + 2 ^ 63) + c) by lia.
  by rewrite <-Z.add_mod_idemp_l, H', Z.add_mod_idemp_l.
Qed.

(** A set of numbers between two bounds. *)
Lemma size_range (S : gset Z) lo hi : (∀ a, a ∈ S → lo <= a < hi) → Z.of_nat (size S) <= Z.max 0 (hi - lo).
Proof.
  intros H. assert (Hs : S ⊆ list_to_set (seqZ lo (hi - lo))).
  { intros a Ha. rewrite elem_of_list_to_set, elem_of_seqZ. specialize (H a Ha). lia. }
  apply subseteq_size in Hs. rewrite size_list_to_set, length_seqZ in Hs by apply NoDup_seqZ. lia.
Qed.

(** ** Outcomes and the state monad with faults *)

Inductive fault : Type :=
  | NullDeref
  | OutOfBounds
  | UseAfterFree
  | AssertFailed
  | KernelPanic
  | Deadlock
  | Unreachable
  | OutOfFuel.

Inductive outcome (A : Type) : Type :=
  | Done (a : A)
  | Fault (why : fault).
Arguments Done {A} _.
Arguments Fault {A} _.

Definition M (S A : Type) : Type := S → outcome (A * S).

#[export] Instance M_ret S : MRet (M S) := λ A a s, Done (a, s).
#[export] Instance M_bind S : MBind (M S) := λ A B k m s,
  match m s with
  | Done (a, s') => k a s'
  | Fault why => Fault why
  end.

Section operations.
Context {S : Type}.
Definition gets {A} (f : S → A) : M S A := λ s, Done (f s, s).
Definition modify (f : S → S) : M S unit := λ s, Done (tt, f s).
Definition crash {A} (why : fault) : M S A := λ _, Fault why.
Definition check (b : bool) (why : fault) : M S unit :=
  if b then mret tt else crash why.
Definition from_opt {A} (o : option A) (why : fault) : M S A :=
  match o with Some a => mret a | None => crash why end.
End operations.

(** ** Total correctness

    [wp m Q s] says that running [m] from [s] does not fault and that its result
    and final state satisfy [Q]. *)

Definition wp {S A} (m : M S A) (Q : A → S → Prop) (s : S) : Prop :=
  match m s with
  | Done (a, s') => Q a s'
  | Fault _ => False
  end.

Section wp.
Context {S A B : Type}.
Implicit Types (m : M S A) (k : A → M S B) (s : S).

Lemma wp_ret (a : A) (Q : A → S → Prop) s : Q a s → wp (mret a) Q s.
Proof. done. Qed.

Lemma wp_bind m k (Q : B → S → Prop) s :
  wp m (λ a, wp (k a) Q) s → wp (mbind k m) Q s.
Proof. unfold wp, mbind, M_bind. destruct (m s) as [[a s']|]; done. Qed.

Lemma wp_bind_inv m k (Q : B → S → Prop) s :
  wp (mbind k m) Q s → wp m (λ a, wp (k a) Q) s.
Proof. unfold wp, mbind, M_bind. destruct (m s) as [[a s']|]; done. Qed.

Lemma wp_mono m (Q Q' : A → S → Prop) s :
  wp m Q s → (∀ a s', Q a s' → Q' a s') → wp m Q' s.
Proof. unfold wp. destruct (m s) as [[a s']|]; auto. Qed.

Lemma wp_and m (Q Q' : A → S → Prop) s :
  wp m Q s → wp m Q' s → wp m (λ a s', Q a s' ∧ Q' a s') s.
Proof. unfold wp. destruct (m s) as [[a s']|]; auto. Qed.

Lemma wp_done m (Q : A → S → Prop) s :
  wp m Q s ↔ ∃ a s', m s = Done (a, s') ∧ Q a s'.
Proof.
  unfold wp. destruct (m s) as [[a s']|]; split; try done.
  - intros H. by exists a, s'.
  - by intros (? & ? & [= -> ->] & ?).
  - by intros (? & ? & ? & ?).
Qed.

Lemma wp_if (b : bool) m1 m2 (Q : A → S → Prop) s :
  (b = true → wp m1 Q s) → (b = false → wp m2 Q s) →
  wp (if b then m1 else m2) Q s.
Proof. destruct b; auto. Qed.
End wp.

Lemma wp_assoc {S A B C} (m : M S A) (k : A → M S B) (k' : B → M S C) (Q : C → S → Prop) s :
  wp (mbind k' (mbind k m)) Q s → wp (mbind (λ a, mbind k' (k a)) m) Q s.
Proof. unfold wp, mbind, M_bind. destruct (m s) as [[a s']|]; done. Qed.

Lemma wp_gets {S A} (f : S → A) (Q : A → S → Prop) s : Q (f s) s → wp (gets f) Q s.
Proof. done. Qed.

Lemma wp_modify {S} (f : S → S) (Q : unit → S → Prop) s : Q tt (f s) → wp (modify f) Q s.
Proof. done. Qed.

Lemma wp_check {S} (b : bool) why (Q : unit → S → Prop) s :
  b = true → Q tt s → wp (check b why) Q s.
Proof. by intros ->. Qed.

Lemma wp_from_opt {S A} (o : option A) why (a : A) (Q : A → S → Prop) s :
  o = Some a → Q a s → wp (from_opt o why) Q s.
Proof. by intros ->. Qed.

(** One symbolic-execution step of a monadic program. *)
Ltac wp_step :=
  lazymatch goal with
  | |- wp (mbind _ _) _ _ => apply wp_bind
  | |- wp (mret _) _ _ => apply wp_ret
  | |- wp (gets _) _ _ => apply wp_gets
  | |- wp (modify _) _ _ => apply wp_modify
  | |- wp (check _ _) _ _ => apply wp_check
  | |- wp (from_opt _ _) _ _ => eapply wp_from_opt
  | |- wp (if _ then _ else _) _ _ => apply wp_if; intros ?
  end; cbn beta iota.
Ltac wp_steps := repeat wp_step.

(** ** Arrays: C indexing with its bounds *)

Definition aget {A} (l : list A) (i : Z) : option A :=
  if 0 <=? i then l !! Z.to_nat i else None.

Definition aset {A} (l : list A) (i : Z) (v : A) : option (list A) :=
  if (0 <=? i) && (i <? Z.of_nat (length l)) then Some (<[Z.to_nat i := v]> l) else None.

Section arrays.
Context {A : Type}.
Implicit Types (l : list A) (i j : Z).

Lemma aget_Some_lt l i v : aget l i = Some v → 0 <= i < Z.of_nat (length l).
Proof.
  unfold aget. case_match eqn:E; [|done]. apply Z.leb_le in E.
  intros H%lookup_lt_Some. lia.
Qed.

Lemma aget_is_Some l i : 0 <= i < Z.of_nat (length l) → is_Some (aget l i).
Proof.
  intros ?. unfold aget. rewrite (proj2 (Z.leb_le _ _)) by lia.
  apply lookup_lt_is_Some. lia.
Qed.

Lemma aset_is_Some l i v :
  0 <= i < Z.of_nat (length l) → aset l i v = Some (<[Z.to_nat i := v]> l).
Proof. intros ?. unfold aset. case_match eqn:E; [done|]. lia. Qed.

Lemma aset_Some_lt l i v l' : aset l i v = Some l' → 0 <= i < Z.of_nat (length l).
Proof. unfold aset. case_match eqn:E; [|done]. lia. Qed.

Lemma length_aset l i v l' : aset l i v = Some l' → length l' = length l.
Proof. unfold aset. case_match; [|done]. intros [= <-]. apply length_insert. Qed.

Lemma aget_aset l i v l' j :
  aset l i v = Some l' → aget l' j = if decide (i = j) then Some v else aget l j.
Proof.
  intros H. pose proof (aset_Some_lt _ _ _ _ H) as Hb.
  rewrite aset_is_Some in H by done. injection H as <-.
  unfold aget. case_match eqn:E.
  - rewrite Z.leb_le in E. case_decide.
    + subst. apply list_lookup_insert_eq. lia.
    + apply list_lookup_insert_ne. lia.
  - rewrite Z.leb_gt in E. case_decide; [lia|done].
Qed.

Lemma aget_app_l l l' i :
  i < Z.of_nat (length l) → aget (l ++ l') i = aget l i.
Proof.
  intros ?. unfold aget. case_match; [|done]. apply lookup_app_l. lia.
Qed.

Lemma aget_app_r l l' i :
  Z.of_nat (length l) <= i → aget (l ++ l') i = aget l' (i - Z.of_nat (length l)).
Proof.
  intros ?. unfold aget. rewrite !(proj2 (Z.leb_le _ _)) by lia.
  rewrite lookup_app_r by lia. f_equal. lia.
Qed.

Lemma aget_replicate n (v : A) i :
  0 <= i < Z.of_nat n → aget (replicate n v) i = Some v.
Proof.
  intros ?. unfold aget. rewrite (proj2 (Z.leb_le _ _)) by lia.
  apply lookup_replicate_2. lia.
Qed.

Lemma aget_fmap {B} (f : A → B) l i : aget (f <$> l) i = f <$> aget l i.
Proof. unfold aget. case_match; [|done]. apply list_lookup_fmap. Qed.
End arrays.
