(* ===== verification/Bits.v ===== *)
(** * Bits: 64-bit words as bit sets, and arrays of words as bit maps.

    The idiom [map[i / 64] & (1UL << (i % 64))] is used throughout the kernel
    (descriptor tables, bitmaps, signal sets).  This file gives the three word
    operations as the C expressions spell them, and their meaning in terms of
    [Z.testbit]; then the same for arrays of words. *)

From S2P Require Import Prelude.

Definition bits_per_long : Z := 64.

(** A value of type [unsigned long]. *)
Definition is_u64 (w : Z) : Prop := 0 <= w < 2 ^ 64.

(** [w & (1UL << b)] used as a condition. *)
Definition word_test (w b : Z) : bool := negb (Z.land w (u64 (Z.shiftl 1 b)) =? 0).
(** [w | (1UL << b)] *)
Definition word_set (w b : Z) : Z := Z.lor w (u64 (Z.shiftl 1 b)).
(** [w & ~(1UL << b)] *)
Definition word_clear (w b : Z) : Z := Z.land w (u64 (Z.lnot (u64 (Z.shiftl 1 b)))).

Lemma u64_small x : 0 <= x < 2 ^ 64 → u64 x = x.
Proof. apply Z.mod_small. Qed.

Lemma u64_range x : is_u64 (u64 x).
Proof. apply Z.mod_pos_bound. lia. Qed.

Lemma shiftl_one b : 0 <= b < 64 → u64 (Z.shiftl 1 b) = 2 ^ b.
Proof.
  intros ?. rewrite Z.shiftl_1_l. apply u64_small.
  split; [lia|]. apply Z.pow_lt_mono_r; lia.
Qed.

Lemma testbit_u64 x i : Z.testbit (u64 x) i = (i <? 64) && Z.testbit x i.
Proof.
  unfold u64. destruct (Z.ltb_spec i 64).
  - destruct (Z.neg_nonneg_cases i).
    + by rewrite !Z.testbit_neg_r.
    + by rewrite Z.mod_pow2_bits_low.
  - by rewrite Z.mod_pow2_bits_high by lia.
Qed.

Lemma is_u64_high w i : is_u64 w → 64 <= i → Z.testbit w i = false.
Proof.
  intros Hw Hi. rewrite <- (u64_small w) by done. rewrite testbit_u64.
  destruct (Z.ltb_spec i 64); [lia|done].
Qed.

Lemma is_u64_intro w :
  0 <= w → (∀ i, 64 <= i → Z.testbit w i = false) → is_u64 w.
Proof.
  intros H0 Hhi. rewrite <- (Z.mod_small w (2 ^ 64)); [apply u64_range|].
  split; [done|]. destruct (Z.eq_dec w 0) as [->|]; [done|].
  apply Z.log2_lt_pow2; [lia|].
  destruct (Z.lt_ge_cases (Z.log2 w) 64) as [|Hge]; [done|].
  specialize (Hhi _ Hge). rewrite Z.bit_log2 in Hhi; [done|lia].
Qed.

Section words.
Context (w b : Z) (Hw : is_u64 w) (Hb : 0 <= b < 64).

Lemma word_test_spec : word_test w b = Z.testbit w b.
Proof.
  unfold word_test. rewrite shiftl_one by done.
  destruct (Z.testbit w b) eqn:E.
  - apply negb_true_iff, Z.eqb_neq. intros H0.
    apply (f_equal (λ z, Z.testbit z b)) in H0. revert H0.
    by rewrite Z.land_spec, E, Z.pow2_bits_true, Z.testbit_0_l by lia.
  - apply negb_false_iff, Z.eqb_eq. apply Z.bits_inj'. intros i Hi.
    rewrite Z.land_spec, Z.testbit_0_l.
    destruct (Z.eq_dec i b) as [->|Hne]; [by rewrite E|].
    rewrite Z.pow2_bits_false by lia. apply andb_false_r.
Qed.

Lemma testbit_word_set i : 0 <= i → Z.testbit (word_set w b) i = (i =? b) || Z.testbit w i.
Proof.
  intros ?. unfold word_set. rewrite shiftl_one by done.
  rewrite Z.lor_spec, Z.pow2_bits_eqb by lia. rewrite (Z.eqb_sym b i). apply orb_comm.
Qed.

Lemma testbit_word_clear i :
  0 <= i → Z.testbit (word_clear w b) i = negb (i =? b) && Z.testbit w i.
Proof.
  intros ?. unfold word_clear. rewrite shiftl_one by done.
  rewrite Z.land_spec, testbit_u64, Z.lnot_spec, Z.pow2_bits_eqb by lia.
  rewrite (Z.eqb_sym b i). destruct (Z.ltb_spec i 64).
  - apply andb_comm.
  - rewrite (is_u64_high w) by (done || lia). by destruct (i =? b).
Qed.

Lemma word_set_range : is_u64 (word_set w b).
Proof.
  apply is_u64_intro.
  - apply Z.lor_nonneg. split; [apply Hw|apply u64_range].
  - intros i Hi. rewrite testbit_word_set by lia.
    rewrite (is_u64_high w) by (done || lia). destruct (Z.eqb_spec i b); [lia|done].
Qed.

Lemma word_clear_range : is_u64 (word_clear w b).
Proof.
  apply is_u64_intro.
  - apply Z.land_nonneg. left. apply Hw.
  - intros i Hi. rewrite testbit_word_clear by lia.
    rewrite (is_u64_high w) by (done || lia). apply andb_false_r.
Qed.
End words.

(** ** Count trailing zeros: [__builtin_ctzl], undefined on 0. *)

Fixpoint ctz_from (n : nat) (i w : Z) : Z :=
  match n with
  | O => i
  | S n' => if Z.testbit w i then i else ctz_from n' (i + 1) w
  end.
Definition ctzl (w : Z) : Z := ctz_from 64 0 w.

Lemma ctz_from_spec n i w :
  0 <= i → (∃ j, i <= j < i + Z.of_nat n ∧ Z.testbit w j = true) →
  i <= ctz_from n i w < i + Z.of_nat n ∧
  Z.testbit w (ctz_from n i w) = true ∧
  ∀ j, i <= j < ctz_from n i w → Z.testbit w j = false.
Proof.
  revert i. induction n as [|n IH]; intros i Hi (j & Hj & Hbit); [lia|]. simpl.
  destruct (Z.testbit w i) eqn:E.
  - split; [lia|]. split; [done|]. lia.
  - assert (j ≠ i) by congruence.
    destruct (IH (i + 1)) as (H1 & H2 & H3); [lia|exists j; split; [lia|done]|].
    split; [lia|]. split; [done|]. intros k Hk.
    destruct (Z.eq_dec k i) as [->|]; [done|]. apply H3. lia.
Qed.

Lemma u64_nonzero_bit w : is_u64 w → w ≠ 0 → ∃ j, 0 <= j < 64 ∧ Z.testbit w j = true.
Proof.
  intros Hw Hnz. exists (Z.log2 w). split.
  - split; [apply Z.log2_nonneg|]. apply Z.log2_lt_pow2; unfold is_u64 in Hw; lia.
  - apply Z.bit_log2. unfold is_u64 in Hw; lia.
Qed.

(** The first clear bit of a word that is not all ones: [__builtin_ctzl(~w)]. *)
Lemma ctzl_lnot_spec w :
  is_u64 w → w ≠ ULONG_MAX →
  0 <= ctzl (u64 (Z.lnot w)) < 64 ∧
  Z.testbit w (ctzl (u64 (Z.lnot w))) = false ∧
  ∀ j, 0 <= j < ctzl (u64 (Z.lnot w)) → Z.testbit w j = true.
Proof.
  intros Hw Hne. set (v := u64 (Z.lnot w)).
  assert (Hvbit : ∀ j, 0 <= j < 64 → Z.testbit v j = negb (Z.testbit w j)).
  { intros j Hj. unfold v. rewrite testbit_u64, Z.lnot_spec by lia.
    by destruct (Z.ltb_spec j 64); [|lia]. }
  assert (Hvnz : v ≠ 0).
  { intros H0. apply Hne. apply Z.bits_inj'. intros j Hj.
    change ULONG_MAX with (Z.ones 64).
    destruct (Z.lt_ge_cases j 64).
    - rewrite Z.ones_spec_low by lia. specialize (Hvbit j ltac:(lia)).
      rewrite H0, Z.testbit_0_l in Hvbit. by destruct (Z.testbit w j).
    - rewrite Z.ones_spec_high by lia. by apply is_u64_high. }
  destruct (u64_nonzero_bit v (u64_range _) Hvnz) as (j & Hj & Hbit).
  destruct (ctz_from_spec 64 0 v) as (H1 & H2 & H3); [lia|exists j; split; [lia|done]|].
  change (ctz_from 64 0 v) with (ctzl v) in *.
  rewrite Hvbit in H2 by lia. split; [lia|]. split; [by destruct (Z.testbit w _)|].
  intros k Hk. specialize (H3 k Hk). rewrite Hvbit in H3 by lia.
  by destruct (Z.testbit w k).
Qed.

(** ** Arrays of words *)

Definition words_ok (ws : list Z) : Prop := Forall is_u64 ws.

(** [ws[i / 64] & (1UL << (i % 64))] *)
Definition bit_get (ws : list Z) (i : Z) : option bool :=
  w ← aget ws (i / bits_per_long); Some (word_test w (i mod bits_per_long)).
(** [ws[i / 64] |= 1UL << (i % 64)] *)
Definition bit_set (ws : list Z) (i : Z) : option (list Z) :=
  w ← aget ws (i / bits_per_long);
  aset ws (i / bits_per_long) (word_set w (i mod bits_per_long)).
(** [ws[i / 64] &= ~(1UL << (i % 64))] *)
Definition bit_clear (ws : list Z) (i : Z) : option (list Z) :=
  w ← aget ws (i / bits_per_long);
  aset ws (i / bits_per_long) (word_clear w (i mod bits_per_long)).

(** The bit map denoted by an array: bits outside the array are clear. *)
Definition bit_at (ws : list Z) (i : Z) : bool := default false (bit_get ws i).

Lemma index_mod i : 0 <= i mod bits_per_long < 64.
Proof. apply Z.mod_pos_bound. done. Qed.

Lemma index_eq i j :
  i / bits_per_long = j / bits_per_long → i mod bits_per_long = j mod bits_per_long → i = j.
Proof.
  intros Hd Hm. unfold bits_per_long in *.
  rewrite (Z.div_mod i 64), (Z.div_mod j 64) by lia. congruence.
Qed.

Lemma index_range (ws : list Z) i :
  0 <= i < 64 * Z.of_nat (length ws) → 0 <= i / bits_per_long < Z.of_nat (length ws).
Proof.
  intros ?. unfold bits_per_long. split; [apply Z.div_pos; lia|].
  apply Z.div_lt_upper_bound; lia.
Qed.

Lemma words_ok_aget ws i w : words_ok ws → aget ws i = Some w → is_u64 w.
Proof.
  unfold aget. case_match; [|done]. intros Hok Hl.
  by apply (Forall_lookup_1 _ _ _ _ Hok Hl).
Qed.

Lemma words_ok_aset ws i w ws' : words_ok ws → is_u64 w → aset ws i w = Some ws' → words_ok ws'.
Proof.
  unfold aset. case_match; [|done]. intros ? ? [= <-]. by apply Forall_insert.
Qed.

Section bitmaps.
Context (ws : list Z) (Hok : words_ok ws).

Lemma bit_get_Some i :
  0 <= i < 64 * Z.of_nat (length ws) → bit_get ws i = Some (bit_at ws i).
Proof.
  intros Hi. unfold bit_at, bit_get.
  destruct (aget_is_Some ws (i / bits_per_long)) as [w Hw]; [by apply index_range|].
  by rewrite Hw.
Qed.

Lemma bit_at_word i w :
  aget ws (i / bits_per_long) = Some w → bit_at ws i = Z.testbit w (i mod bits_per_long).
Proof.
  intros Hw. unfold bit_at, bit_get. rewrite Hw. simpl.
  apply word_test_spec, index_mod.
Qed.

Lemma bit_at_None i : aget ws (i / bits_per_long) = None → bit_at ws i = false.
Proof. intros H. unfold bit_at, bit_get. by rewrite H. Qed.

Lemma bit_at_out i : ¬ 0 <= i < 64 * Z.of_nat (length ws) → bit_at ws i = false.
Proof.
  intros Hi. destruct (aget ws (i / bits_per_long)) as [w|] eqn:E.
  - exfalso. apply Hi. apply aget_Some_lt in E. unfold bits_per_long in E.
    pose proof (Z.div_mod i 64 ltac:(lia)). pose proof (Z.mod_pos_bound i 64 ltac:(lia)). lia.
  - by apply bit_at_None.
Qed.

Lemma bit_set_spec i :
  0 <= i < 64 * Z.of_nat (length ws) →
  ∃ ws', bit_set ws i = Some ws' ∧ length ws' = length ws ∧ words_ok ws' ∧
         ∀ j, bit_at ws' j = (j =? i) || bit_at ws j.
Proof.
  intros Hi. pose proof (index_range _ _ Hi) as Hr. pose proof (index_mod i) as Hm.
  destruct (aget_is_Some ws _ Hr) as [w Hw]. pose proof (words_ok_aget _ _ _ Hok Hw) as Hwr.
  unfold bit_set. rewrite Hw. simpl.
  destruct (aset ws (i / bits_per_long) (word_set w (i mod bits_per_long))) as [ws'|] eqn:E;
    [|by rewrite aset_is_Some in E].
  assert (Hok' : words_ok ws').
  { eapply words_ok_aset; [exact Hok| |exact E]. by apply word_set_range. }
  exists ws'. split; [done|]. split; [by eapply length_aset|]. split; [done|].
  intros j. unfold bit_at at 1, bit_get. rewrite (aget_aset _ _ _ _ _ E).
  case_decide as Hd; simpl.
  - rewrite word_test_spec by apply index_mod.
    rewrite testbit_word_set by (done || apply index_mod).
    rewrite (bit_at_word j w) by congruence. f_equal.
    destruct (Z.eqb_spec j i) as [->|Hji]; [by rewrite Z.eqb_refl|].
    apply Z.eqb_neq. intros Hmm. apply Hji. symmetry. apply index_eq; congruence.
  - change (default false _) with (bit_at ws j).
    destruct (Z.eqb_spec j i) as [->|]; done.
Qed.

Lemma bit_clear_spec i :
  0 <= i < 64 * Z.of_nat (length ws) →
  ∃ ws', bit_clear ws i = Some ws' ∧ length ws' = length ws ∧ words_ok ws' ∧
         ∀ j, bit_at ws' j = negb (j =? i) && bit_at ws j.
Proof.
  intros Hi. pose proof (index_range _ _ Hi) as Hr. pose proof (index_mod i) as Hm.
  destruct (aget_is_Some ws _ Hr) as [w Hw]. pose proof (words_ok_aget _ _ _ Hok Hw) as Hwr.
  unfold bit_clear. rewrite Hw. simpl.
  destruct (aset ws (i / bits_per_long) (word_clear w (i mod bits_per_long))) as [ws'|] eqn:E;
    [|by rewrite aset_is_Some in E].
  assert (Hok' : words_ok ws').
  { eapply words_ok_aset; [exact Hok| |exact E]. by apply word_clear_range. }
  exists ws'. split; [done|]. split; [by eapply length_aset|]. split; [done|].
  intros j. unfold bit_at at 1, bit_get. rewrite (aget_aset _ _ _ _ _ E).
  case_decide as Hd; simpl.
  - rewrite word_test_spec by apply index_mod.
    rewrite testbit_word_clear by (done || apply index_mod).
    rewrite (bit_at_word j w) by congruence. f_equal. f_equal.
    destruct (Z.eqb_spec j i) as [->|Hji]; [by rewrite Z.eqb_refl|].
    apply Z.eqb_neq. intros Hmm. apply Hji. symmetry. apply index_eq; congruence.
  - change (default false _) with (bit_at ws j).
    destruct (Z.eqb_spec j i) as [->|]; done.
Qed.
End bitmaps.

Lemma bit_at_replicate_0 n i : bit_at (replicate n 0) i = false.
Proof.
  unfold bit_at, bit_get. destruct (aget _ _) as [w|] eqn:E; [|done].
  pose proof (aget_Some_lt _ _ _ E) as Hb. rewrite length_replicate in Hb.
  rewrite aget_replicate in E by done. injection E as <-. done.
Qed.

Lemma bit_at_app ws ws' i :
  i < 64 * Z.of_nat (length ws) → bit_at (ws ++ ws') i = bit_at ws i.
Proof.
  intros ?. unfold bit_at, bit_get, bits_per_long. rewrite aget_app_l; [done|].
  apply Z.div_lt_upper_bound; lia.
Qed.

Lemma bit_at_app_r ws ws' i :
  64 * Z.of_nat (length ws) <= i →
  bit_at (ws ++ ws') i = bit_at ws' (i - 64 * Z.of_nat (length ws)).
Proof.
  intros ?. unfold bit_at, bit_get, bits_per_long.
  rewrite aget_app_r; [|apply Z.div_le_lower_bound; lia].
  replace (i - 64 * Z.of_nat (length ws)) with (i + (- Z.of_nat (length ws)) * 64) by lia.
  rewrite Z.div_add, Z.mod_add by lia. done.
Qed.

(** ** Page masks *)

Lemma land_low_page x : Z.land x 4095 = x mod 4096.
Proof. change 4095 with (Z.ones 12). by rewrite Z.land_ones. Qed.

Lemma land_page_mask x : 0 <= x < 2 ^ 64 → Z.land x (2 ^ 64 - 4096) = x - x mod 4096.
Proof.
  intros Hx. change (2 ^ 64 - 4096) with (Z.land (Z.lnot (Z.ones 12)) (Z.ones 64)).
  rewrite (Z.land_comm (Z.lnot _)), Z.land_assoc, (Z.land_ones x) by done.
  rewrite Z.mod_small by done.
  rewrite <- Z.ldiff_land, Z.ldiff_ones_r by done.
  rewrite Z.shiftl_mul_pow2, Z.shiftr_div_pow2 by done. change (2 ^ 12) with 4096.
  pose proof (Z.div_mod x 4096). lia.
Qed.
