(* ===== verification/Bytes.v ===== *)
(** * Bytes: memory and disk blocks as lists of bytes

    Little-endian words of bytes, reading and writing them at an offset of a block, and the bits
    of a block as a bitmap: the same bit whether it is reached through bytes or through
    64-bit words. *)

From S2P Require Import Prelude Bits.

Definition byte (b : Z) : Prop := 0 <= b < 256.
(** The word of bytes. *)
Fixpoint word (l : list Z) : Z := match l with [] => 0 | b :: l => b + 256 * word l end.

Lemma testbit_low a x i : 0 <= a < 256 → 0 <= i →
  Z.testbit (a + 256 * x) i = if i <? 8 then Z.testbit a i else Z.testbit x (i - 8).
Proof.
  intros Ha Hi. change 256 with (2 ^ 8). destruct (Z.ltb_spec i 8) as [H|H].
  - rewrite <-(Z.mod_pow2_bits_low (a + 2 ^ 8 * x) 8 i), <-(Z.mod_pow2_bits_low a 8 i) by lia.
    f_equal. rewrite Z.mul_comm, Z_mod_plus_full. done.
  - replace i with (i - 8 + 8) at 1 by lia. rewrite <-Z.div_pow2_bits by lia.
    f_equal. rewrite Z.mul_comm, Z.div_add by lia. rewrite Z.div_small by lia. done.
Qed.

Lemma byte_bits a : byte a ↔ ∀ i, 8 <= i → Z.testbit a i = false.
Proof.
  assert (Hm : byte a ↔ a mod 2 ^ 8 = a).
  { change (2 ^ 8) with 256. unfold byte. Z.to_euclidean_division_equations; lia. }
  rewrite Hm. split.
  - intros <- i Hi. by apply Z.mod_pow2_bits_high.
  - intros H. apply Z.bits_inj'. intros i Hi. destruct (Z.ltb_spec i 8).
    + by apply Z.mod_pow2_bits_low.
    + rewrite H by done. by apply Z.mod_pow2_bits_high.
Qed.

Lemma land_byte a b x y : byte a → byte b →
  Z.land (a + 256 * x) (b + 256 * y) = Z.land a b + 256 * Z.land x y.
Proof.
  intros Ha Hb. assert (Hab : byte (Z.land a b)).
  { apply byte_bits. intros i Hi. by rewrite Z.land_spec, (proj1 (byte_bits a)). }
  apply Z.bits_inj'. intros i Hi. rewrite Z.land_spec, !testbit_low by done.
  case_match; by rewrite Z.land_spec.
Qed.

Lemma lxor_byte a b x y : byte a → byte b →
  Z.lxor (a + 256 * x) (b + 256 * y) = Z.lxor a b + 256 * Z.lxor x y.
Proof.
  intros Ha Hb. assert (Hab : byte (Z.lxor a b)).
  { apply byte_bits. intros i Hi. by rewrite Z.lxor_spec, (proj1 (byte_bits a)), (proj1 (byte_bits b)). }
  apply Z.bits_inj'. intros i Hi. rewrite Z.lxor_spec, !testbit_low by done.
  case_match; by rewrite Z.lxor_spec.
Qed.

Lemma word_nonneg l : Forall byte l → 0 <= word l < 256 ^ Z.of_nat (length l).
Proof.
  induction 1 as [|b l Hb _ IH]; cbn [word length]; [lia|].
  rewrite Nat2Z.inj_succ, Z.pow_succ_r by lia. unfold byte in Hb. nia.
Qed.


(** ** Words in a block *)

(** The [n] bytes of [x], least significant first. *)
Fixpoint unword (n : nat) (x : Z) : list Z :=
  match n with O => [] | S n => x mod 256 :: unword n (x / 256) end.

(** The word of [n] bytes at an offset; out of range is [None]. *)
Definition get_le (n off : nat) (l : list Z) : option Z :=
  if (off + n <=? length l)%nat then Some (word (take n (drop off l))) else None.
Definition put_le (n off : nat) (x : Z) (l : list Z) : option (list Z) :=
  if (off + n <=? length l)%nat then Some (take off l ++ unword n x ++ drop (off + n) l) else None.

Lemma length_unword n x : length (unword n x) = n.
Proof. revert x; induction n as [|n IH]; intros x; [done|]. cbn. by rewrite IH. Qed.

Lemma unword_bytes n x : Forall byte (unword n x).
Proof.
  revert x; induction n as [|n IH]; intros x; [constructor|]. constructor; [|apply IH].
  apply Z.mod_pos_bound. done.
Qed.

Lemma word_unword n x : 0 <= x < 256 ^ Z.of_nat n → word (unword n x) = x.
Proof.
  revert x; induction n as [|n IH]; intros x Hx; cbn [unword word]; [cbn in Hx; lia|].
  rewrite Nat2Z.inj_succ, Z.pow_succ_r in Hx by lia. rewrite IH.
  - rewrite Z.add_comm. symmetry. apply Z.div_mod. done.
  - split; [apply Z.div_pos; lia|]. apply Z.div_lt_upper_bound; lia.
Qed.

Lemma get_le_Some n off l : (off + n <= length l)%nat → get_le n off l = Some (word (take n (drop off l))).
Proof. intros H. unfold get_le. by rewrite (proj2 (Nat.leb_le _ _) H). Qed.

Lemma put_le_Some n off x l :
  (off + n <= length l)%nat → put_le n off x l = Some (take off l ++ unword n x ++ drop (off + n) l).
Proof. intros H. unfold put_le. by rewrite (proj2 (Nat.leb_le _ _) H). Qed.

Lemma length_put_le n off x l l' : put_le n off x l = Some l' → length l' = length l.
Proof.
  unfold put_le. case_match eqn:E; [|done]. intros [= <-]. apply Nat.leb_le in E.
  rewrite !length_app, length_take, length_unword, length_drop. lia.
Qed.

Lemma put_le_bytes n off x l l' : put_le n off x l = Some l' → Forall byte l → Forall byte l'.
Proof.
  unfold put_le. case_match; [|done]. intros [= <-] H'.
  repeat apply Forall_app_2; [by apply Forall_take|apply unword_bytes|by apply Forall_drop].
Qed.

Lemma get_put_le n off x l l' :
  put_le n off x l = Some l' → 0 <= x < 256 ^ Z.of_nat n → get_le n off l' = Some x.
Proof.
  intros H Hx. pose proof (length_put_le _ _ _ _ _ H) as Hl. unfold put_le in H. case_match eqn:E; [|done].
  injection H as <-. apply Nat.leb_le in E. rewrite get_le_Some by lia. f_equal.
  rewrite drop_app_length' by (rewrite length_take; lia).
  rewrite take_app_length' by (symmetry; apply length_unword). by apply word_unword.
Qed.

(** Bytes outside of the word stay. *)
Lemma lookup_put_le n off x l l' i :
  put_le n off x l = Some l' → (i < off)%nat ∨ (off + n <= i)%nat → l' !! i = l !! i.
Proof.
  unfold put_le. case_match eqn:E; [|done]. intros [= <-] Hi. apply Nat.leb_le in E. destruct Hi.
  - rewrite lookup_app_l by (rewrite length_take; lia). by apply lookup_take_lt.
  - rewrite !lookup_app_r by (rewrite ?length_unword, length_take; lia).
    rewrite length_unword, length_take, lookup_drop. f_equal. lia.
Qed.

(** Words that do not overlap are independent. *)
Lemma get_put_le_ne n off x l l' n' off' :
  put_le n off x l = Some l' → (off' + n' <= off)%nat ∨ (off + n <= off')%nat → get_le n' off' l' = get_le n' off' l.
Proof.
  intros H Hd. unfold get_le. rewrite (length_put_le _ _ _ _ _ H). case_match; [|done]. do 2 f_equal.
  apply list_eq. intros i. destruct (decide (i < n')%nat).
  - rewrite !lookup_take_lt, !lookup_drop by done. eapply lookup_put_le; [done|lia].
  - by rewrite !lookup_take_ge by lia.
Qed.

(** ** Bits of a block *)

Definition bit_of (l : list Z) (i : Z) : bool :=
  match aget l (i / 8) with Some b => Z.testbit b (i mod 8) | None => false end.

Lemma bit_of_cons b l j : 0 <= j → bit_of (b :: l) j = if j <? 8 then Z.testbit b j else bit_of l (j - 8).
Proof.
  intros Hj. unfold bit_of. destruct (Z.ltb_spec j 8).
  - rewrite Z.div_small, Z.mod_small by lia. done.
  - assert (j / 8 = (j - 8) / 8 + 1 ∧ j mod 8 = (j - 8) mod 8) as [-> ->] by (Z.to_euclidean_division_equations; lia).
    change (b :: l) with ([b] ++ l). assert (0 <= (j - 8) / 8) by (apply Z.div_pos; lia).
    rewrite aget_app_r by (cbn; lia). cbn [length]. by replace ((j - 8) / 8 + 1 - Z.of_nat 1) with ((j - 8) / 8) by lia.
Qed.

Lemma testbit_word l j : Forall byte l → 0 <= j → Z.testbit (word l) j = bit_of l j.
Proof.
  intros Hl. revert j; induction Hl as [|b l Hb _ IH]; intros j Hj; cbn [word].
  - rewrite Z.testbit_0_l. unfold bit_of, aget. by destruct (0 <=? j / 8).
  - rewrite testbit_low, bit_of_cons by done. destruct (Z.ltb_spec j 8); [done|]. apply IH. lia.
Qed.

(** The bits of the word at index [i]. *)
Lemma word_bits l i w j : Forall byte l → get_le 8 (8 * i) l = Some w → 0 <= j < 64 →
  Z.testbit w j = bit_of l (64 * Z.of_nat i + j).
Proof.
  unfold get_le. case_match eqn:E; [|done]. intros Hl [= <-] Hj. apply Nat.leb_le in E.
  rewrite testbit_word by (try lia; by apply Forall_take, Forall_drop). unfold bit_of.
  assert ((64 * Z.of_nat i + j) / 8 = 8 * Z.of_nat i + j / 8 ∧ (64 * Z.of_nat i + j) mod 8 = j mod 8) as [-> ->]
    by (Z.to_euclidean_division_equations; lia).
  assert (0 <= j / 8 < 8) by (Z.to_euclidean_division_equations; lia).
  unfold aget. rewrite !(proj2 (Z.leb_le 0 _)) by lia.
  rewrite lookup_take_lt, lookup_drop by lia. by replace (8 * i + _)%nat with (Z.to_nat (8 * Z.of_nat i + j / 8)) by lia.
Qed.
