(* ===== verification/Interleave.v ===== *)
(** * Interleave: threads that take turns over a shared state

    A thread is at a program point of type [L] and shares a state of type [G] with the
    others.  One turn of a thread is one access to memory that others can see, so that
    any order of turns is an execution under sequential consistency.  A turn may not be
    possible at the moment (a spinning or sleeping thread), and it may be a fault. *)

From S2P Require Import Prelude.

Inductive turn (L G : Type) : Type :=
  | Blocked
  | Next (l : L) (g : G)
  | Crash (why : fault).
Arguments Blocked {L G}.
Arguments Next {L G} _ _.
Arguments Crash {L G} _.

Record system (L G : Type) : Type := System {
  shared : G;
  points : gmap Z L
}.
Arguments System {L G} _ _.
Arguments shared {L G} _.
Arguments points {L G} _.

Section interleave.
Context {E L G : Type}.
(** What thread [t] does at its point when event [e] happens. *)
Context (act : E → Z → L → G → turn L G).

Definition move (t : Z) (e : E) (s : system L G) : option (outcome (system L G)) :=
  match points s !! t with
  | None => None
  | Some l =>
      match act e t l (shared s) with
      | Blocked => None
      | Next l' g' => Some (Done (System g' (<[t := l']> (points s))))
      | Crash why => Some (Fault why)
      end
  end.

(** A schedule: who has a turn, and what happens. *)
Fixpoint execute (sched : list (Z * E)) (s : system L G) : option (outcome (system L G)) :=
  match sched with
  | [] => Some (Done s)
  | (t, e) :: sched =>
      match move t e s with
      | Some (Done s') => execute sched s'
      | r => r
      end
  end.

(** An invariant that every turn of a kind keeps, and that excludes faults. *)
Lemma execute_inv (Ok : E → Prop) (Inv : system L G → Prop) sched s r :
  (∀ s t e l, Ok e → Inv s → points s !! t = Some l →
    match act e t l (shared s) with
    | Blocked => True
    | Next l' g' => Inv (System g' (<[t := l']> (points s)))
    | Crash _ => False
    end) →
  Forall Ok sched.*2 → Inv s → execute sched s = Some r → ∃ s', r = Done s' ∧ Inv s'.
Proof.
  intros Hact. revert s. induction sched as [|[t e] sched IH]; simpl; intros s Hok Hs.
  { intros [= <-]. by exists s. }
  apply list.Forall_cons in Hok as [He Hok].
  unfold move. destruct (points s !! t) as [l|] eqn:Hl; [|done].
  specialize (Hact s t e l He Hs Hl). destruct (act e t l (shared s)); [done| |done]. by apply IH.
Qed.

(** An invariant that counts the turns that are left. *)
Lemma execute_count (Inv : Z → system L G → Prop) sched n s r :
  (∀ n s t e l, 0 < n → Inv n s → points s !! t = Some l →
    match act e t l (shared s) with
    | Blocked => True
    | Next l' g' => Inv (n - 1) (System g' (<[t := l']> (points s)))
    | Crash _ => False
    end) →
  Z.of_nat (length sched) <= n → Inv n s → execute sched s = Some r →
  ∃ s', r = Done s' ∧ Inv (n - Z.of_nat (length sched)) s'.
Proof.
  intros Hact. revert n s. induction sched as [|[t e] sched IH]; simpl; intros n s Hn Hs.
  { intros [= <-]. exists s. by rewrite Z.sub_0_r. }
  unfold move. destruct (points s !! t) as [l|] eqn:Hl; [|done].
  specialize (Hact n s t e l ltac:(lia) Hs Hl). destruct (act e t l (shared s)); [done| |done].
  intros (s' & -> & HI)%(IH (n - 1)); [|lia|done]. exists s'. split; [done|].
  replace (n - Z.of_nat (S (length sched))) with (n - 1 - Z.of_nat (length sched)) by lia. done.
Qed.

Lemma execute_always (Inv : system L G → Prop) sched s r :
  (∀ s t e l, Inv s → points s !! t = Some l →
    match act e t l (shared s) with
    | Blocked => True
    | Next l' g' => Inv (System g' (<[t := l']> (points s)))
    | Crash _ => False
    end) →
  Inv s → execute sched s = Some r → ∃ s', r = Done s' ∧ Inv s'.
Proof.
  intros Hact Hs He. eapply (execute_inv (λ _, True)); [|by apply list.Forall_forall|exact Hs|exact He].
  intros s0 t e l _. apply Hact.
Qed.

End interleave.

(** ** Counting threads *)

Definition add_one {L} (P : Z → L → bool) (t : Z) (l : L) (n : Z) : Z := (if P t l then 1 else 0) + n.

(** The number of threads with [P], by address and point. *)
Definition tally {L} (P : Z → L → bool) (m : gmap Z L) : Z := map_fold (add_one P) 0 m.

Section tally.
Context {L : Type}.
Implicit Types (P : Z → L → bool) (m : gmap Z L).

Lemma tally_empty P : tally P ∅ = 0.
Proof. apply map_fold_empty. Qed.

Lemma tally_insert_new P m t l :
  m !! t = None → tally P (<[t := l]> m) = (if P t l then 1 else 0) + tally P m.
Proof. intros. apply (map_fold_insert_L (add_one P)); [unfold add_one; intros; lia|done]. Qed.

Lemma tally_delete P m t l :
  m !! t = Some l → tally P m = (if P t l then 1 else 0) + tally P (delete t m).
Proof. intros. apply (map_fold_delete_L (add_one P)); [unfold add_one; intros; lia|done]. Qed.

Lemma tally_insert P m t l l' :
  m !! t = Some l →
  tally P (<[t := l']> m) = tally P m - (if P t l then 1 else 0) + (if P t l' then 1 else 0).
Proof.
  intros Hl. rewrite (tally_delete P m t l Hl), <-insert_delete_eq, tally_insert_new by apply lookup_delete_eq. lia.
Qed.

Lemma tally_ext P P' m : (∀ t l, m !! t = Some l → P t l = P' t l) → tally P m = tally P' m.
Proof.
  induction m as [|t l m Hm IH] using map_ind; intros He; [by rewrite !tally_empty|].
  rewrite !tally_insert_new, (He t l), IH; [done| |apply lookup_insert_eq|done..].
  intros u k Hu. apply He. rewrite lookup_insert_ne; [done|]. intros ->. congruence.
Qed.

(** The count when [P] changes for one thread. *)
Lemma tally_change P P' m t l :
  m !! t = Some l → (∀ u k, u ≠ t → P u k = P' u k) →
  tally P' m = tally P m - (if P t l then 1 else 0) + (if P' t l then 1 else 0).
Proof.
  intros Hl He. rewrite (tally_delete P m t l Hl), (tally_delete P' m t l Hl).
  rewrite (tally_ext P P' (delete t m)); [lia|]. intros u k Hu. apply He. intros ->. by rewrite lookup_delete_eq in Hu.
Qed.

Lemma tally_nonneg P m : 0 <= tally P m.
Proof.
  induction m as [|t l m Hm IH] using map_ind; [by rewrite tally_empty|].
  rewrite tally_insert_new by done. destruct (P t l); lia.
Qed.

Lemma tally_pos P m : 0 < tally P m ↔ ∃ t l, m !! t = Some l ∧ P t l = true.
Proof.
  split.
  - induction m as [|t l m Hm IH] using map_ind; [rewrite tally_empty; lia|].
    rewrite tally_insert_new by done. destruct (P t l) eqn:Hp.
    + intros _. exists t, l. by rewrite lookup_insert_eq.
    + intros (u & l' & Hu & Hl')%IH. exists u, l'. split; [|done].
      rewrite lookup_insert_ne; [done|]. intros ->. congruence.
  - intros (t & l & Ht & Hp). rewrite (tally_delete P m t l Ht), Hp.
    pose proof (tally_nonneg P (delete t m)). lia.
Qed.

Lemma tally_zero P m : tally P m = 0 ↔ ∀ t l, m !! t = Some l → P t l = false.
Proof.
  split.
  - intros H0 t l Ht. destruct (P t l) eqn:E; [|done].
    assert (0 < tally P m) by (apply tally_pos; eauto). lia.
  - intros H. destruct (decide (tally P m = 0)); [done|].
    assert (0 < tally P m) as (t & l & Ht & Hp)%tally_pos by (pose proof (tally_nonneg P m); lia).
    by rewrite (H t l Ht) in Hp.
Qed.

Lemma tally_size P m : tally P m <= Z.of_nat (size m).
Proof.
  induction m as [|t l m Hm IH] using map_ind; [by rewrite tally_empty|].
  rewrite tally_insert_new, map_size_insert_None by done. destruct (P t l); lia.
Qed.
End tally.

(** Case analysis on the conditions of a turn. *)
Ltac split_ifs := repeat match goal with |- context [if ?b then _ else _] => destruct b eqn:? end.
