(* ===== verification/DList.v ===== *)
(** * DList: lists of linked records

    A list through the records of a heap: [nx] and [pv] are the links forward and
    backward, by address, a null link has no entry.  [chain nx pv l]: following the links
    gives [l].  The lemmas say which links have to change when the list does. *)

From S2P Require Import Prelude.

Lemma split_app {A} (L1 L2 X Y : list A) x : L1 ++ L2 = X ++ x :: Y →
  (∃ Z, L1 = X ++ x :: Z ∧ Y = Z ++ L2) ∨ (∃ Z, L2 = Z ++ x :: Y ∧ X = L1 ++ Z).
Proof.
  intros E. destruct (app_eq_app _ _ _ _ E) as [L [[-> E2]|[-> E2]]].
  - destruct L as [|y L]; simpl in E2; [right; exists []; split; [done|by rewrite !app_nil_r]|].
    injection E2 as -> ->. left. by exists L.
  - right. by exists L.
Qed.

Lemma last_cons_ne {A} (l : list A) x : l ≠ [] → list.last (x :: l) = list.last l.
Proof. by destruct l. Qed.

Lemma exists_last_or {A} (l : list A) : l = [] ∨ ∃ k x, l = k ++ [x].
Proof. destruct l as [|y l]; [by left|right]. destruct (exists_last (l := y :: l)) as (k & x & ->); [done|]. eauto. Qed.

Lemma nodup_remove {A} (L1 L2 : list A) x : NoDup (L1 ++ x :: L2) → NoDup (L1 ++ L2).
Proof.
  intros (N1 & N12 & [_ N2]%list.NoDup_cons)%list.NoDup_app. apply list.NoDup_app. split_and!; [done| |done].
  intros u Hu Hu'. apply (N12 u Hu). by right.
Qed.

Section chain.
Implicit Types (nx pv : gmap Z Z) (l : list Z).

(** The links forward. *)
Definition forward nx l : Prop := ∀ L1 v L2, l = L1 ++ v :: L2 → nx !! v = head L2.
Definition backward pv l : Prop := ∀ L1 v L2, l = L1 ++ v :: L2 → pv !! v = list.last L1.

Record chain nx pv l : Prop := {
  chain_nodup : NoDup l;
  chain_next : forward nx l;
  chain_prev : backward pv l
}.

Lemma forward_nil nx : forward nx [].
Proof. intros [] ? ? [=]. Qed.

Lemma forward_one nx v : nx !! v = None → forward nx [v].
Proof. intros H [|? []] u L2 [=]. by subst. Qed.

Lemma backward_one pv v : pv !! v = None → backward pv [v].
Proof. intros H [|? []] u L2 [=]. by subst. Qed.

Lemma forward_cons nx v l : forward nx (v :: l) ↔ nx !! v = head l ∧ forward nx l.
Proof.
  split.
  - intros H. split; [by apply (H [])|]. intros L1 u L2 ->. by apply (H (v :: L1)).
  - intros [H1 H2] [|w L1] u L2 [=]; subst; [done|]. by eapply H2.
Qed.

Lemma forward_ext nx nx' l : (∀ u, u ∈ l → nx' !! u = nx !! u) → forward nx l → forward nx' l.
Proof.
  intros He H L1 v L2 ->. rewrite He; [by eapply H|].
  apply list.elem_of_app. right. by left.
Qed.

Lemma backward_ext pv pv' l : (∀ u, u ∈ l → pv' !! u = pv !! u) → backward pv l → backward pv' l.
Proof.
  intros He H L1 v L2 ->. rewrite He; [by eapply H|].
  apply list.elem_of_app. right. by left.
Qed.

(** Appending [v] behind the last element [t]. *)
Lemma forward_snoc nx nx' l t v :
  NoDup (l ++ [t]) → v ∉ l ++ [t] → forward nx (l ++ [t]) →
  nx' !! v = None → nx' !! t = Some v → (∀ u, u ∈ l → nx' !! u = nx !! u) →
  forward nx' ((l ++ [t]) ++ [v]).
Proof.
  intros Hn Hv H Hnv Hnt He L1 u L2 E. destruct (split_app _ _ _ _ _ E) as [(Y & EY & ->)|(Y & EY & ->)].
  - destruct (split_app _ _ _ _ _ EY) as [(X & -> & ->)|(X & EX & ->)].
    + rewrite He by (apply list.elem_of_app; right; by left). rewrite (H _ _ _ EY). by destruct X.
    + destruct X as [|? []]; [|done..]. by injection EX as -> <-.
  - destruct Y as [|? []]; [|done..]. by injection EY as -> <-.
Qed.

Lemma backward_snoc pv pv' l t v :
  v ∉ l ++ [t] → backward pv (l ++ [t]) →
  pv' !! v = Some t → (∀ u, u ∈ l ++ [t] → pv' !! u = pv !! u) →
  backward pv' ((l ++ [t]) ++ [v]).
Proof.
  intros Hv H Hpv He L1 u L2 E. destruct (split_app _ _ _ _ _ E) as [(Y & EY & ->)|(Y & EY & ->)].
  - rewrite He; [by rewrite (H _ _ _ EY)|]. rewrite EY. apply list.elem_of_app. right. by left.
  - destruct Y as [|? []]; [|done..]. injection EY as -> <-. by rewrite app_nil_r, last_snoc.
Qed.

(** Taking out [v]. *)
Lemma forward_remove nx nx' L1 v L2 :
  NoDup (L1 ++ v :: L2) → forward nx (L1 ++ v :: L2) →
  (∀ u, u ∈ L1 ++ L2 → nx' !! u = if decide (list.last L1 = Some u) then head L2 else nx !! u) →
  forward nx' (L1 ++ L2).
Proof.
  intros (N1 & N12 & [Nv N2]%list.NoDup_cons)%list.NoDup_app H He A u B E. rewrite He by (rewrite E; apply list.elem_of_app; right; by left).
  destruct (split_app _ _ _ _ _ E) as [(C & -> & ->)|(C & -> & ->)].
  - rewrite (H A u (C ++ v :: L2)) by by rewrite <-app_assoc. destruct C as [|c C].
    + by rewrite last_snoc, decide_True.
    + rewrite decide_False; [done|]. rewrite last_app_cons, last_cons_ne by done. intros Eu%last_Some_elem_of.
      by apply list.NoDup_app in N1 as (_ & _ & [N1 _]%list.NoDup_cons).
  - rewrite (H (L1 ++ v :: C) u B) by by rewrite <-app_assoc. rewrite decide_False; [done|].
    intros Eu%last_Some_elem_of. apply (N12 u Eu). right. apply list.elem_of_app. right. by left.
Qed.

Lemma backward_remove pv pv' L1 v L2 :
  NoDup (L1 ++ v :: L2) → backward pv (L1 ++ v :: L2) →
  (∀ u, u ∈ L1 ++ L2 → pv' !! u = if decide (head L2 = Some u) then list.last L1 else pv !! u) →
  backward pv' (L1 ++ L2).
Proof.
  intros (N1 & N12 & [Nv N2]%list.NoDup_cons)%list.NoDup_app H He A u B E. rewrite He by (rewrite E; apply list.elem_of_app; right; by left).
  destruct (split_app _ _ _ _ _ E) as [(C & -> & ->)|(C & -> & ->)].
  - rewrite (H A u (C ++ v :: L2)) by by rewrite <-app_assoc. rewrite decide_False; [done|].
    intros Eu%head_Some_elem_of. apply (N12 u); [apply list.elem_of_app; right; by left|by right].
  - rewrite (H (L1 ++ v :: C) u B) by by rewrite <-app_assoc. destruct C as [|c C].
    + by rewrite app_nil_r, decide_True.
    + rewrite decide_False.
      * rewrite !last_app_cons. by rewrite last_cons_ne.
      * intros [= ->]. apply list.NoDup_cons in N2 as [N2 _]. apply N2, list.elem_of_app. right. by left.
Qed.
End chain.
