(* ===== verification/Cred.v ===== *)
(** * Cred: credentials, resource limits and file permissions.

    Models kernel/kernel/cred.cpp (user and group ids and the calls that change
    them), kernel/kernel/rlimit.cpp (resource limits), the permission check of
    kernel/kernel/fs/vfs.cpp ([inode_can_access]), the ownership and mode changes
    of kernel/kernel/fs/file.cpp ([chmod_vfs], [chown_vfs]) and the permission
    test of kill(2) ([may_kill] of kernel/kernel/signal.cpp).

    The credential locks are not part of the state: every modelled function takes
    the lock once and holds it for its whole body. *)

From S2P Require Import Prelude Abi.

(** ** Credentials: [struct creds] *)

Record creds : Type := MkCreds {
  ruid : Z; euid : Z; rgid : Z; egid : Z; suid : Z; sgid : Z;
  groups : option (list Z)  (* the supp_groups object, or a null pointer *)
}.

Definition set_uids3 (c : creds) (r e s : Z) : creds :=
  MkCreds r e (rgid c) (egid c) s (sgid c) (groups c).
Definition set_gids3 (c : creds) (r e s : Z) : creds :=
  MkCreds (ruid c) (euid c) r e (suid c) s (groups c).
Definition set_groups_ptr (c : creds) (g : option (list Z)) : creds :=
  MkCreds (ruid c) (euid c) (rgid c) (egid c) (suid c) (sgid c) g.

(** [(uid_t) -1] *)
Definition ID_NONE : Z := u32 (-1).

Definition is_root_user (c : creds) : bool := euid c =? 0.

(** [new_child]'s group list is left as it was. *)
Definition process_inherit_creds (new_child parent : creds) : Z * creds :=
  (0, MkCreds (ruid parent) (euid parent) (rgid parent) (egid parent) 0 0 (groups new_child)).

Definition sys_setuid (uid : Z) (c : creds) : Z * creds :=
  if negb (euid c =? 0) && (negb (uid =? ruid c) && negb (uid =? suid c)) then (- EPERM, c)
  else if euid c =? 0 then (0, set_uids3 c uid uid uid)
  else if negb (uid =? ruid c) && negb (uid =? suid c) then (- EPERM, c)
  else (0, set_uids3 c (ruid c) uid (suid c)).

Definition sys_setgid (gid : Z) (c : creds) : Z * creds :=
  if negb (egid c =? 0) && (negb (gid =? rgid c) && negb (gid =? sgid c)) then (- EPERM, c)
  else if egid c =? 0 then (0, set_gids3 c gid gid gid)
  else if negb (gid =? rgid c) && negb (gid =? sgid c) then (- EPERM, c)
  else (0, set_gids3 c (rgid c) gid (sgid c)).

Definition sys_getuid (c : creds) : Z := euid c.
Definition sys_getgid (c : creds) : Z := egid c.

Definition may_switch_to_uid (id : Z) (c : creds) : bool :=
  (id =? euid c) || (id =? ruid c) || (id =? suid c).

Definition SET_UIDS_RUID_VALID : Z := 1.
Definition SET_UIDS_EUID_VALID : Z := 2.
Definition SET_UIDS_SUID_VALID : Z := 4.

Definition sys_set_uids (flags r e s : Z) (c : creds) : Z * creds :=
  let euid_valid := has flags SET_UIDS_EUID_VALID && negb (e =? ID_NONE) in
  let ruid_valid := has flags SET_UIDS_RUID_VALID && negb (r =? ID_NONE) in
  let suid_valid := has flags SET_UIDS_SUID_VALID && negb (s =? ID_NONE) in
  if negb (euid c =? 0) &&
     ((euid_valid && negb (may_switch_to_uid e c)) ||
      (ruid_valid && negb (may_switch_to_uid r c)) ||
      (suid_valid && negb (may_switch_to_uid s c))) then (- EPERM, c)
  else (0, set_uids3 c (if ruid_valid then r else ruid c)
                       (if euid_valid then e else euid c)
                       (if suid_valid then s else suid c)).

Definition may_switch_to_gid (id : Z) (c : creds) : bool :=
  (id =? egid c) || (id =? rgid c) || (id =? sgid c).

Definition SET_GIDS_RGID_VALID : Z := 1.
Definition SET_GIDS_EGID_VALID : Z := 2.
Definition SET_GIDS_SGID_VALID : Z := 4.

Definition sys_set_gids (flags r e s : Z) (c : creds) : Z * creds :=
  let egid_valid := has flags SET_GIDS_EGID_VALID && negb (e =? ID_NONE) in
  let rgid_valid := has flags SET_GIDS_RGID_VALID && negb (r =? ID_NONE) in
  let sgid_valid := has flags SET_GIDS_SGID_VALID && negb (s =? ID_NONE) in
  if negb (euid c =? 0) &&
     ((egid_valid && negb (may_switch_to_gid e c)) ||
      (rgid_valid && negb (may_switch_to_gid r c)) ||
      (sgid_valid && negb (may_switch_to_gid s c))) then (- EPERM, c)
  else (0, set_gids3 c (if rgid_valid then r else rgid c)
                       (if egid_valid then e else egid c)
                       (if sgid_valid then s else sgid c)).

Definition cred_is_in_group (c : creds) (gid : Z) : bool :=
  match groups c with
  | None => false
  | Some ids => existsb (λ g, g =? gid) ids
  end.

(** A pointer argument of a system call: null, not mapped, or the values it
    points to. *)
Inductive uptr (A : Type) : Type :=
  | UNull
  | UBad
  | UBuf (a : A).
Arguments UNull {A}.
Arguments UBad {A}.
Arguments UBuf {A} _.

(** [supp_groups::set_groups] after a successful resize: the list read from user
    space, or the error. *)
Definition set_groups (ugids : uptr (list Z)) (size : Z) : Z + list Z :=
  match ugids with
  | UBuf l => if Z.of_nat (length l) <? size then inl (- EFAULT)
              else inr (take (Z.to_nat size) l)
  | _ => inl (- EFAULT)
  end.

(** [oom] says whether one of the allocations of the call fails. *)
Definition sys_setgroups (oom : bool) (size : Z) (ugids : uptr (list Z)) (c : creds)
  : outcome (Z * creds) :=
  if negb (euid c =? 0) then Done (- EPERM, c)
  else if INT_MAX <? size then Done (- EINVAL, c)
  else match ugids with
  | UNull =>
      match groups c with
      | None => Fault NullDeref
      | Some _ => Done (0, set_groups_ptr c None)
      end
  | _ =>
      if oom then Done (- ENOMEM, c)
      else match set_groups ugids size with
      | inl st => Done (st, c)
      | inr ids => Done (0, set_groups_ptr c (Some ids))
      end
  end.

(** [supp_groups::get_groups]; [fault_out] says that the user buffer is not
    writable.  The result is the return value and what is copied out. *)
Definition get_groups (ids : list Z) (size : Z) (fault_out : bool) : Z * list Z :=
  if size =? 0 then (Z.of_nat (length ids), [])
  else if negb (size =? Z.of_nat (length ids)) then (- EINVAL, [])
  else if fault_out then (- EFAULT, [])
  else (0, ids).

Definition sys_getgroups (size : Z) (fault_out : bool) (c : creds) : Z * list Z :=
  if size <? 0 then (- EINVAL, [])
  else match groups c with
  | None => (0, [])
  | Some ids => get_groups ids size fault_out
  end.

(** ** Resource limits *)

Record rlimit : Type := MkRlimit { rlim_cur : Z; rlim_max : Z }.

Definition RLIM_INFINITY : Z := 2 ^ 64 - 1.
Definition RLIMIT_NOFILE : Z := 7.
Definition nlimits : Z := 16.

(** [process::rlimit]: the limits are an array indexed by resource; [old] is the
    value stored through the [old] pointer when there is one. *)
Definition process_rlimit (rlimits : list rlimit) (rsrc : Z) (want_old : bool)
    (new_lim : option rlimit) (c : creds) : outcome (Z * option rlimit * list rlimit) :=
  match aget rlimits rsrc with
  | None => Fault OutOfBounds
  | Some lim =>
      let old := if want_old then Some lim else None in
      match new_lim with
      | None => Done (0, old, rlimits)
      | Some nl =>
          if negb (is_root_user c) && negb (rlim_max nl =? rlim_max lim)
          then Done (- EPERM, old, rlimits)
          else if negb (is_root_user c) && (rlim_max lim <? rlim_cur nl)
          then Done (- EPERM, old, rlimits)
          else match aset rlimits rsrc nl with
               | None => Fault OutOfBounds
               | Some rl => Done (0, old, rl)
               end
      end
  end.

Definition get_rlimit (rlimits : list rlimit) (rsrc : Z) : outcome rlimit :=
  match aget rlimits rsrc with Some l => Done l | None => Fault OutOfBounds end.

(** [process::init_default_limits]: RLIM_NLIMITS + 1 entries. *)
Definition init_default_limits : list rlimit :=
  <[Z.to_nat RLIMIT_NOFILE := MkRlimit 1024 4096]>
    (replicate 17 (MkRlimit RLIM_INFINITY RLIM_INFINITY)).

(** [process::inherit_limits]: the first [nlimits] entries are copied. *)
Definition inherit_limits (child parent : list rlimit) : list rlimit :=
  take (Z.to_nat nlimits) parent ++ drop (Z.to_nat nlimits) child.

(** [sys_rlimit] on the process that the pid names ([None]: no such process). *)
Definition sys_rlimit (proc : option (list rlimit)) (resource : Z) (uold : uptr unit)
    (unew : uptr rlimit) (flags : Z) (c : creds) : outcome (Z * option rlimit * option (list rlimit)) :=
  if negb (flags =? 0) then Done (- EINVAL, None, proc)
  else if (resource <? 0) || (nlimits <=? resource) then Done (- EINVAL, None, proc)
  else match proc with
  | None => Done (- ESRCH, None, proc)
  | Some rl =>
      match unew with
      | UBad => Done (- EFAULT, None, proc)
      | _ =>
          let new_lim := match unew with UBuf nl => Some nl | _ => None end in
          let want_old := match uold with UNull => false | _ => true end in
          match process_rlimit rl resource want_old new_lim c with
          | Fault why => Fault why
          | Done (st, old, rl') =>
              if (st =? 0) && match uold with UBad => true | _ => false end
              then Done (- EFAULT, None, Some rl')
              else Done (st, (if st =? 0 then old else None), Some rl')
          end
      end
  end.

(** ** Inodes: the ownership and mode part of [struct inode] *)

Record inode : Type := MkInode {
  i_uid : Z; i_gid : Z; i_mode : Z; i_type : Z; i_flags : Z; i_size : Z; i_ctime : Z
}.

Definition set_mode (i : inode) (m : Z) : inode :=
  MkInode (i_uid i) (i_gid i) m (i_type i) (i_flags i) (i_size i) (i_ctime i).
Definition set_owner (i : inode) (u : Z) : inode :=
  MkInode u (i_gid i) (i_mode i) (i_type i) (i_flags i) (i_size i) (i_ctime i).
Definition set_group (i : inode) (g : Z) : inode :=
  MkInode (i_uid i) g (i_mode i) (i_type i) (i_flags i) (i_size i) (i_ctime i).

Definition S_IFMT : Z := 0xf000.
Definition S_IFDIR : Z := 0x4000.
Definition S_ISUID : Z := 0x800.
Definition S_ISGID : Z := 0x400.
Definition S_IXGRP : Z := 0x8.
Definition S_ISDIR (mode : Z) : bool := Z.land mode S_IFMT =? S_IFDIR.

Definition FILE_ACCESS_READ : Z := 1.
Definition FILE_ACCESS_WRITE : Z := 2.
Definition FILE_ACCESS_EXECUTE : Z := 4.

(** The three branches of [inode_can_access] differ in the permission bits they
    use for read, write and execute. *)
Definition perm_mask (perms r w x : Z) : Z :=
  Z.lor (Z.lor (if has perms FILE_ACCESS_READ then r else 0)
               (if has perms FILE_ACCESS_WRITE then w else 0))
        (if has perms FILE_ACCESS_EXECUTE then x else 0).

Definition inode_can_access (file : inode) (perms : Z) (c : creds) : bool :=
  if (euid c =? 0) &&
     (S_ISDIR (i_mode file) || (negb (perms =? FILE_ACCESS_EXECUTE) || has (i_mode file) 0x49))
  then true
  else
    let ino_perms :=
      if i_uid file =? euid c then perm_mask perms 0x100 0x80 0x40
      else if (i_gid file =? egid c) || cred_is_in_group c (i_gid file)
      then perm_mask perms 0x20 0x10 0x8
      else perm_mask perms 0x4 0x2 0x1 in
    Z.land (i_mode file) ino_perms =? ino_perms.

Definition may_noatime (file : inode) (c : creds) : bool :=
  (euid c =? 0) || (i_uid file =? euid c).

(** [inode_update_ctime]: [now] is the value of [clock_get_posix_time]. *)
Definition inode_update_ctime (now : Z) (i : inode) : inode :=
  MkInode (i_uid i) (i_gid i) (i_mode i) (i_type i) (i_flags i) (i_size i) now.

Definition chmod_vfs (now : Z) (ino : inode) (mode : Z) : Z * inode :=
  (0, inode_update_ctime now
        (set_mode ino (Z.lor (Z.land (i_mode ino) S_IFMT) (Z.land mode 0xfff)))).

Definition may_change_owner (ino : inode) (c : creds) : bool := is_root_user c.

Definition may_change_group (ino : inode) (group : Z) (c : creds) : bool :=
  if euid c =? 0 then true
  else (i_uid ino =? euid c) && ((egid c =? group) || cred_is_in_group c group).

Definition chown_vfs (now : Z) (ino : inode) (owner group : Z) (c : creds) : Z * inode :=
  let change_owner := negb (owner =? ID_NONE) && negb (i_uid ino =? owner) in
  if change_owner && negb (may_change_owner ino c) then (- EPERM, ino)
  else
    let ino1 := if change_owner then set_owner ino owner else ino in
    let change_group := negb (group =? ID_NONE) && negb (i_gid ino1 =? group) in
    if change_group && negb (may_change_group ino1 group c) then (- EPERM, ino1)
    else
      let ino2 := if change_group then set_group ino1 group else ino1 in
      if change_owner || change_group then
        let m1 := Z.land (i_mode ino2) (Z.lnot S_ISUID) in
        let m2 := if has m1 S_IXGRP then Z.land m1 (Z.lnot S_ISGID) else m1 in
        (0, inode_update_ctime now (set_mode ino2 m2))
      else (0, ino2).

(** ** kill(2)'s permission test: [may_kill], with [si_code] of the signal
    information when there is one. *)
Definition may_kill (si_code : option Z) (c other : creds) : Z :=
  let is_kernel := match si_code with None => true | Some code => 0 <? code end in
  if is_kernel then 0
  else if euid c =? 0 then 0
  else if (euid c =? ruid other) || (euid c =? suid other) || (ruid c =? ruid other) ||
          (ruid c =? suid other) then 0
  else -1.
