(* ===== verification/CredProps.v ===== *)
(** * CredProps: the properties of credentials, limits and permissions. *)

From S2P Require Import Prelude Bits Abi Cred.

(** ** The calls that change credentials, as steps of a process *)

Inductive cred_call : Type :=
  | CSetuid (uid : Z)
  | CSetgid (gid : Z)
  | CSetUids (flags r e s : Z)
  | CSetGids (flags r e s : Z)
  | CSetgroups (oom : bool) (size : Z) (ugids : uptr (list Z)).

Definition cred_exec (k : cred_call) (c : creds) : outcome (Z * creds) :=
  match k with
  | CSetuid uid => Done (sys_setuid uid c)
  | CSetgid gid => Done (sys_setgid gid c)
  | CSetUids flags r e s => Done (sys_set_uids flags r e s c)
  | CSetGids flags r e s => Done (sys_set_gids flags r e s c)
  | CSetgroups oom size ugids => sys_setgroups oom size ugids c
  end.

Inductive cred_reach (c : creds) : creds → Prop :=
  | reach_refl : cred_reach c c
  | reach_step c1 k r c2 : cred_reach c c1 → cred_exec k c1 = Done (r, c2) → cred_reach c c2.

(** The user and group ids a process may use, and its supplementary groups. *)
Record within (U G : Z → Prop) (gs : option (list Z)) (c : creds) : Prop := {
  w_uid : U (ruid c) ∧ U (euid c) ∧ U (suid c);
  w_gid : G (rgid c) ∧ G (egid c) ∧ G (sgid c);
  w_groups : groups c = gs;
}.

Section unprivileged.
Context (U G : Z → Prop) (gs : option (list Z)).
Hypothesis HU : ¬ U 0.
(** With group id 0 a process may take any group by setgid: then [G] must have them all. *)
Hypothesis HG : ¬ G 0 ∨ ∀ g, G g.

Lemma within_euid c : within U G gs c → (euid c =? 0) = false.
Proof using HU. intros [(_ & He & _) _ _]. apply Z.eqb_neq. intros E. by rewrite E in He. Qed.

Lemma within_egid c : within U G gs c → (egid c =? 0) = true → ∀ g, G g.
Proof using HG. intros [_ (_ & He & _) _] E%Z.eqb_eq. rewrite E in He. by destruct HG. Qed.

Lemma pick_uid (valid : bool) id old c :
  within U G gs c → (valid && negb (may_switch_to_uid id c)) = false → U old →
  U (if valid then id else old).
Proof.
  intros [(Hr & He & Hs) _ _]. destruct valid; [|done]. simpl. intros Hm _.
  unfold may_switch_to_uid in Hm.
  destruct (Z.eqb_spec id (euid c)), (Z.eqb_spec id (ruid c)), (Z.eqb_spec id (suid c)); by subst.
Qed.

Lemma pick_gid (valid : bool) id old c :
  within U G gs c → (valid && negb (may_switch_to_gid id c)) = false → G old →
  G (if valid then id else old).
Proof.
  intros [_ (Hr & He & Hs) _]. destruct valid; [|done]. simpl. intros Hm _.
  unfold may_switch_to_gid in Hm.
  destruct (Z.eqb_spec id (egid c)), (Z.eqb_spec id (rgid c)), (Z.eqb_spec id (sgid c)); by subst.
Qed.

Lemma within_exec k c r c' :
  within U G gs c → cred_exec k c = Done (r, c') → within U G gs c'.
Proof using HU HG.
  intros Hw. pose proof (within_euid _ Hw) as He. pose proof (within_egid _ Hw) as Hg.
  pose proof Hw as [(Hu1 & Hu2 & Hu3) (Hg1 & Hg2 & Hg3) _].
  destruct k as [uid|gid|flags r0 e s|flags r0 e s|oom size ugids]; simpl; intros [= Hx].
  - unfold sys_setuid in Hx. rewrite He in Hx. simpl in Hx.
    destruct (Z.eqb_spec uid (ruid c)), (Z.eqb_spec uid (suid c)); simplify_eq/=; (done || (split; [done|done|apply Hw])).
  - unfold sys_setgid in Hx. destruct (egid c =? 0); simpl in Hx.
    { simplify_eq/=. pose proof (Hg eq_refl). split; [apply Hw|simpl; auto|apply Hw]. }
    destruct (Z.eqb_spec gid (rgid c)), (Z.eqb_spec gid (sgid c)); simplify_eq/=; (done || (split; [done|done|apply Hw])).
  - unfold sys_set_uids in Hx. rewrite He in Hx. simpl in Hx.
    destruct (_ || _ || _) eqn:E in Hx; simplify_eq/=; [done|].
    apply orb_false_iff in E as [[E1 E2]%orb_false_iff E3].
    split; [|apply Hw|apply Hw]. simpl. split_and!; (eapply pick_uid; [exact Hw|done|done]).
  - unfold sys_set_gids in Hx. rewrite He in Hx. simpl in Hx.
    destruct (_ || _ || _) eqn:E in Hx; simplify_eq/=; [done|].
    apply orb_false_iff in E as [[E1 E2]%orb_false_iff E3].
    split; [apply Hw| |apply Hw]. simpl. split_and!; (eapply pick_gid; [exact Hw|done|done]).
  - unfold sys_setgroups in Hx. rewrite He in Hx. by simplify_eq/=.
Qed.

Lemma within_reach c c' : within U G gs c → cred_reach c c' → within U G gs c'.
Proof using HU HG. intros Hw Hr. induction Hr; [done|]. by eapply within_exec. Qed.
End unprivileged.

(** C15: A process none of whose user ids is 0 cannot acquire an identity.  From such
    credentials no sequence of setuid, setgid, setresuid-like, setresgid-like and setgroups
    calls yields a real, effective or saved user id that the process did not have at the
    start, nor a change of its supplementary groups, and it never becomes root; if its
    group ids are not 0 either, it gets no new group id.  (With effective group id 0,
    setgid grants any group; a child made by fork starts with saved user id 0.) *)
Theorem no_privilege_escalation c c' :
  0 ∉ [ruid c; euid c; suid c] → cred_reach c c' →
  (∀ id, id ∈ [ruid c'; euid c'; suid c'] → id ∈ [ruid c; euid c; suid c]) ∧
  groups c' = groups c ∧ is_root_user c' = false ∧
  (0 ∉ [rgid c; egid c; sgid c] →
   ∀ id, id ∈ [rgid c'; egid c'; sgid c'] → id ∈ [rgid c; egid c; sgid c]).
Proof.
  intros Hu Hr.
  assert (Hall : ∀ G : Z → Prop, (¬ G 0 ∨ ∀ g, G g) → G (rgid c) → G (egid c) → G (sgid c) →
    within (λ id, id ∈ [ruid c; euid c; suid c]) G (groups c) c').
  { intros G HG H1 H2 H3. eapply within_reach; [done|done| |done]. split; [set_solver|done|done]. }
  pose proof (Hall (λ _, True) (or_intror (λ _, I)) I I I) as Hw.
  pose proof (within_euid (λ id, id ∈ [ruid c; euid c; suid c]) _ _ Hu _ Hw) as He. destruct Hw as [H1 _ H3]. split_and!; [set_solver|done|done|].
  intros Hg id Hid. destruct (Hall (λ id, id ∈ [rgid c; egid c; sgid c])) as [_ H2 _]; [by left|set_solver..].
Qed.

Definition user_creds : creds := MkCreds 1000 1001 100 100 1002 101 (Some [24; 27]).

Lemma no_privilege_escalation_witness :
  let c' := set_uids3 user_creds 1000 1002 1002 in
  (∀ id, id ∈ [ruid c'; euid c'; suid c'] → id ∈ [1000; 1001; 1002]) ∧
  groups c' = Some [24; 27] ∧ is_root_user c' = false ∧
  (∀ id, id ∈ [rgid c'; egid c'; sgid c'] → id ∈ [100; 100; 101]).
Proof.
  destruct (no_privilege_escalation user_creds (set_uids3 user_creds 1000 1002 1002)) as (H1 & H2 & H3 & H4).
  - set_solver by lia.
  - eapply (reach_step _ user_creds (CSetuid 1002) 0); [constructor|reflexivity].
  - split_and!; [exact H1|exact H2|exact H3|]. apply H4. set_solver by lia.
Defined.

(** fork gives an unprivileged process a saved uid of 0.  Whatever the parent's
    credentials, the child made by [process_inherit_creds] may call setuid(0) and has
    effective uid 0 afterwards. *)
Theorem fork_then_setuid_is_root child parent :
  let c := (process_inherit_creds child parent).2 in
  (sys_setuid 0 c).1 = 0 ∧ is_root_user (sys_setuid 0 c).2 = true.
Proof.
  simpl. unfold sys_setuid; simpl. destruct (euid parent =? 0); simpl; [done|].
  rewrite andb_false_r. done.
Qed.

(** ** Access to files *)

(** The permission triple that applies to the caller: its position in the mode. *)
Definition class_shift (file : inode) (c : creds) : Z :=
  if i_uid file =? euid c then 6
  else if (i_gid file =? egid c) || cred_is_in_group c (i_gid file) then 3
  else 0.

(** The decision of POSIX: every requested permission is in the triple; root needs
    nothing, except that executing a file that is not a directory takes one of its
    three execute bits. *)
Definition posix_access (file : inode) (perms : Z) (c : creds) : bool :=
  if euid c =? 0 then
    negb (Z.testbit perms 2) || S_ISDIR (i_mode file)
    || Z.testbit (i_mode file) 6 || Z.testbit (i_mode file) 3 || Z.testbit (i_mode file) 0
  else
    let sh := class_shift file c in
    (negb (Z.testbit perms 0) || Z.testbit (i_mode file) (sh + 2)) &&
    (negb (Z.testbit perms 1) || Z.testbit (i_mode file) (sh + 1)) &&
    (negb (Z.testbit perms 2) || Z.testbit (i_mode file) sh).

(** Root asks to execute and for something else besides. *)
Definition root_mixed (perms : Z) (c : creds) : bool :=
  (euid c =? 0) && Z.testbit perms 2 && negb (perms =? FILE_ACCESS_EXECUTE).

Lemma land_bit_test m (b : bool) k : 0 <= k →
  (Z.land m (if b then 2 ^ k else 0) =? (if b then 2 ^ k else 0)) = negb b || Z.testbit m k.
Proof.
  intros Hk. destruct b; simpl; [|by rewrite Z.land_0_r].
  pose proof (has_pow2 m k Hk) as Hh. destruct (Z.testbit m k) eqn:E.
  - apply Z.eqb_eq. apply Z.bits_inj'. intros i Hi. rewrite Z.land_spec, Z.pow2_bits_eqb by done.
    destruct (Z.eqb_spec k i); [subst; by rewrite E|by rewrite andb_false_r].
  - apply Z.eqb_neq. intros H0. pose proof (f_equal (λ z, Z.testbit z k) H0) as Hb.
    simpl in Hb. rewrite Z.land_spec, Z.pow2_bits_true, E in Hb by done. done.
Qed.

Lemma land_lor_test m a b :
  (Z.land m (Z.lor a b) =? Z.lor a b) = (Z.land m a =? a) && (Z.land m b =? b).
Proof.
  apply eq_true_iff_eq. rewrite andb_true_iff, !Z.eqb_eq. split.
  - intros H. split; apply Z.bits_inj'; intros i Hi;
      pose proof (f_equal (λ z, Z.testbit z i) H) as Hb; simpl in Hb;
      rewrite Z.land_spec, Z.lor_spec in Hb; rewrite Z.land_spec;
      destruct (Z.testbit m i), (Z.testbit a i), (Z.testbit b i); done.
  - intros [Ha Hb]. apply Z.bits_inj'. intros i Hi. rewrite <- Ha, <- Hb at 2.
    rewrite !Z.land_spec, !Z.lor_spec, !Z.land_spec. destruct (Z.testbit m i); done.
Qed.

Lemma perm_mask_test m perms sh :
  0 <= sh →
  let q := perm_mask perms (2 ^ (sh + 2)) (2 ^ (sh + 1)) (2 ^ sh) in
  (Z.land m q =? q) =
  (negb (Z.testbit perms 0) || Z.testbit m (sh + 2)) &&
  (negb (Z.testbit perms 1) || Z.testbit m (sh + 1)) &&
  (negb (Z.testbit perms 2) || Z.testbit m sh).
Proof.
  intros Hsh q. unfold q, perm_mask. rewrite !land_lor_test, !land_bit_test by lia.
  by rewrite <- !(has_pow2 perms).
Qed.

Lemma any_exec_bit m :
  has m 0x49 = Z.testbit m 6 || Z.testbit m 3 || Z.testbit m 0.
Proof.
  apply eq_true_iff_eq. unfold has, truthy. rewrite negb_true_iff, Z.eqb_neq, !orb_true_iff. split.
  - intros Hne. destruct (Z.testbit m 6) eqn:E6; [tauto|]. destruct (Z.testbit m 3) eqn:E3; [tauto|].
    right. destruct (Z.testbit m 0) eqn:E0; [done|]. destruct Hne.
    change 73 with (Z.lor (2 ^ 6) (Z.lor (2 ^ 3) (2 ^ 0))).
    apply Z.bits_inj'. intros i Hi. rewrite Z.land_spec, !Z.lor_spec, !Z.pow2_bits_eqb, Z.bits_0 by done.
    destruct (Z.eqb_spec 6 i), (Z.eqb_spec 3 i), (Z.eqb_spec 0 i); subst; rewrite ?E6, ?E3, ?E0;
      try done; by rewrite andb_false_r.
  - intros Hb H0. assert (∀ k, Z.testbit m k && Z.testbit 73 k = false) as Hk.
    { intros k. by rewrite <- Z.land_spec, H0, Z.bits_0. }
    pose proof (Hk 6) as K6. pose proof (Hk 3) as K3. pose proof (Hk 0) as K0.
    change (Z.testbit 73 6) with true in K6. change (Z.testbit 73 3) with true in K3.
    change (Z.testbit 73 0) with true in K0. rewrite !andb_true_r in *. naive_solver congruence.
Qed.

Lemma access_triple file perms r w x sh : 0 <= sh → r = 2 ^ (sh + 2) → w = 2 ^ (sh + 1) → x = 2 ^ sh →
  (Z.land (i_mode file) (perm_mask perms r w x) =? perm_mask perms r w x) =
  (negb (Z.testbit perms 0) || Z.testbit (i_mode file) (sh + 2)) &&
  (negb (Z.testbit perms 1) || Z.testbit (i_mode file) (sh + 1)) &&
  (negb (Z.testbit perms 2) || Z.testbit (i_mode file) sh).
Proof. intros Hsh -> -> ->. by apply perm_mask_test. Qed.

Lemma access_root file perms c : euid c = 0 →
  inode_can_access file perms c = posix_access file perms c || root_mixed perms c.
Proof.
  intros Er. unfold inode_can_access, posix_access, root_mixed. rewrite any_exec_bit, Er, Z.eqb_refl. cbn [andb].
  destruct (Z.eqb_spec perms FILE_ACCESS_EXECUTE) as [->|Hne]; cbn [negb orb andb].
  - change (Z.testbit FILE_ACCESS_EXECUTE 2) with true. cbn [negb orb andb]. rewrite ?andb_false_r, ?orb_false_r.
    destruct (S_ISDIR (i_mode file)); [done|]. destruct (Z.testbit (i_mode file) 6) eqn:E6, (Z.testbit (i_mode file) 3) eqn:E3,
      (Z.testbit (i_mode file) 0) eqn:E0; cbn [negb orb andb]; try done.
    destruct (i_uid file =? 0); [|destruct (_ || _)];
      [rewrite (access_triple _ _ _ _ _ 6)|rewrite (access_triple _ _ _ _ _ 3)|rewrite (access_triple _ _ _ _ _ 0)]; try done;
      rewrite ?E6, ?E3, ?E0; apply andb_false_r.
  - rewrite orb_true_r, andb_true_r. by destruct (Z.testbit perms 2); rewrite ?orb_true_r.
Qed.

(** The permission check is the POSIX one but for one case.  For every inode, request and
    credentials [inode_can_access] grants what the owner, group or other triple of the
    mode, chosen in this order and with the supplementary groups, grants in full; root is
    granted everything, but executing what is not a directory only with an execute bit.  The
    one difference: root is also granted a request to execute that asks for more than that. *)
Theorem inode_can_access_posix file perms c :
  inode_can_access file perms c = posix_access file perms c || root_mixed perms c.
Proof.
  destruct (Z.eqb_spec (euid c) 0) as [Er|Er]; [by apply access_root|].
  unfold inode_can_access, posix_access, root_mixed, class_shift. rewrite (proj2 (Z.eqb_neq _ _)) by done. cbn [andb]. rewrite orb_false_r.
  destruct (i_uid file =? euid c); [|destruct (_ || _)];
    [apply (access_triple _ _ _ _ _ 6)|apply (access_triple _ _ _ _ _ 3)|apply (access_triple _ _ _ _ _ 0)]; done.
Qed.

(** ** Resource limits *)

Definition limits_ok (rl : list rlimit) : Prop := Forall (λ l, rlim_cur l <= rlim_max l) rl.

(** Calls of sys_rlimit on one process by unprivileged callers. *)
Inductive rlimit_reach (rl : list rlimit) : list rlimit → Prop :=
  | rl_refl : rlimit_reach rl rl
  | rl_step rl1 rl2 resource uold unew flags c r old :
      rlimit_reach rl rl1 → is_root_user c = false →
      sys_rlimit (Some rl1) resource uold unew flags c = Done (r, old, Some rl2) →
      rlimit_reach rl rl2.

Lemma process_rlimit_user rl rsrc want_old nl c r old rl' :
  is_root_user c = false → process_rlimit rl rsrc want_old nl c = Done (r, old, rl') →
  rl' = rl ∨ ∃ lim n, nl = Some n ∧ aget rl rsrc = Some lim ∧ aset rl rsrc n = Some rl' ∧
                      rlim_max n = rlim_max lim ∧ rlim_cur n <= rlim_max lim.
Proof.
  intros Hu. unfold process_rlimit. destruct (aget rl rsrc) as [lim|] eqn:El; [|done].
  destruct nl as [n|]; [|intros; simplify_eq; by left]. rewrite Hu. simpl.
  destruct (Z.eqb_spec (rlim_max n) (rlim_max lim)) as [Hm|]; simpl; [|intros; simplify_eq; by left].
  destruct (Z.ltb_spec (rlim_max lim) (rlim_cur n)); [intros; simplify_eq; by left|].
  destruct (aset rl rsrc n) as [rl1|] eqn:Es; [|done]. intros; simplify_eq. right. by exists lim, n.
Qed.

Lemma sys_rlimit_user rl resource uold unew flags c r old rl' :
  is_root_user c = false →
  sys_rlimit (Some rl) resource uold unew flags c = Done (r, old, Some rl') →
  rl' = rl ∨ ∃ lim n, aget rl resource = Some lim ∧ aset rl resource n = Some rl' ∧
                      rlim_max n = rlim_max lim ∧ rlim_cur n <= rlim_max lim.
Proof.
  intros Hu. unfold sys_rlimit.
  destruct (negb (flags =? 0)); [intros; simplify_eq; by left|].
  destruct ((resource <? 0) || (nlimits <=? resource)); [intros; simplify_eq; by left|].
  destruct unew as [| |nl]; [|intros; simplify_eq; by left|];
    (destruct (process_rlimit _ _ _ _ _) as [[[st o] rl1]|] eqn:E; [|done]);
    apply process_rlimit_user in E; try done;
    intros; case_match; simplify_eq; naive_solver.
Qed.

Lemma rlimit_set rl rsrc lim n rl' :
  aget rl rsrc = Some lim → aset rl rsrc n = Some rl' → rlim_max n = rlim_max lim →
  rlim_max <$> rl' = rlim_max <$> rl.
Proof.
  intros Hg Hs Hm. pose proof (aset_Some_lt _ _ _ _ Hs) as Hr.
  rewrite aset_is_Some in Hs by done. injection Hs as <-. rewrite list_fmap_insert, Hm.
  apply list_insert_id. rewrite list_lookup_fmap. unfold aget in Hg.
  rewrite (proj2 (Z.leb_le _ _)) in Hg by lia. by rewrite Hg.
Qed.

(** Unprivileged processes cannot raise their limits.  After any sequence of
    sys_rlimit calls made without root privileges every hard limit is what it was, and
    soft limits that were within their hard limits still are. *)
Theorem rlimit_hard_limits_fixed rl rl' :
  rlimit_reach rl rl' →
  rlim_max <$> rl' = rlim_max <$> rl ∧ (limits_ok rl → limits_ok rl').
Proof.
  induction 1 as [|rl1 rl2 resource uold unew flags c r old Hr [IHm IHl] Hu Hx]; [done|].
  apply sys_rlimit_user in Hx as [->|(lim & n & Hg & Hs & Hm & Hc)]; [done| |done].
  split; [by rewrite (rlimit_set _ _ _ _ _ Hg Hs Hm)|]. intros Hok. specialize (IHl Hok).
  rewrite aset_is_Some in Hs by (by eapply aset_Some_lt). injection Hs as <-.
  apply Forall_insert; [done|]. by rewrite Hm.
Qed.

Lemma rlimit_hard_limits_fixed_witness :
  let rl' := <[7%nat := MkRlimit 2048 4096]> init_default_limits in
  rlim_max <$> rl' = rlim_max <$> init_default_limits ∧ (limits_ok init_default_limits → limits_ok rl').
Proof.
  apply (rlimit_hard_limits_fixed init_default_limits).
  eapply (rl_step _ init_default_limits _ 7 UNull (UBuf (MkRlimit 2048 4096)) 0 user_creds 0 None);
    [constructor|reflexivity|vm_compute; reflexivity].
Defined.

(** ** Ownership *)

(** The mode after the set-id bits are dropped. *)
Definition drop_ids (m : Z) : Z :=
  let m1 := Z.land m (Z.lnot S_ISUID) in
  if has m1 S_IXGRP then Z.land m1 (Z.lnot S_ISGID) else m1.

Lemma testbit_clear m k i : 0 <= k → 0 <= i →
  Z.testbit (Z.land m (Z.lnot (2 ^ k))) i = Z.testbit m i && negb (k =? i).
Proof. intros. by rewrite Z.land_spec, Z.lnot_spec, Z.pow2_bits_eqb. Qed.

Lemma drop_ids_bits m :
  Z.testbit (drop_ids m) 11 = false ∧
  (Z.testbit m 3 = true → Z.testbit (drop_ids m) 10 = false) ∧
  (∀ k, 0 <= k → k ≠ 11 → k ≠ 10 → Z.testbit (drop_ids m) k = Z.testbit m k).
Proof.
  unfold drop_ids, S_ISUID, S_ISGID, S_IXGRP.
  change 0x8 with (2 ^ 3). change 0x800 with (2 ^ 11). change 0x400 with (2 ^ 10).
  rewrite has_pow2, testbit_clear by done. change (negb (11 =? 3)) with true. rewrite andb_true_r.
  destruct (Z.testbit m 3); (split; [|split]).
  - rewrite !testbit_clear by done. by destruct (Z.testbit m 11).
  - intros _. rewrite testbit_clear by done. apply andb_false_r.
  - intros k Hk H1 H2. rewrite !testbit_clear by done.
    rewrite (proj2 (Z.eqb_neq 11 k)), (proj2 (Z.eqb_neq 10 k)) by lia. by rewrite !andb_true_r.
  - rewrite testbit_clear by done. apply andb_false_r.
  - done.
  - intros k Hk H1 H2. rewrite testbit_clear by done.
    rewrite (proj2 (Z.eqb_neq 11 k)) by lia. by rewrite andb_true_r.
Qed.

(** chown(2).  An error is EPERM and leaves the inode as it was.  A success gives the
    inode the requested owner and group (all ones keep the old one); without root
    privileges the owner is unchanged, and a new group is one the caller belongs to, on
    an inode it owns.  When something changed the set-user-id bit is cleared, and the
    set-group-id bit too if the group may execute; the other mode bits stay. *)
Theorem chown_vfs_ok now ino owner group c :
  let '(r, ino') := chown_vfs now ino owner group c in
  (r = - EPERM ∧ ino' = ino) ∨
  (r = 0 ∧
   i_uid ino' = (if owner =? ID_NONE then i_uid ino else owner) ∧
   i_gid ino' = (if group =? ID_NONE then i_gid ino else group) ∧
   (is_root_user c = false → i_uid ino' = i_uid ino ∧
      (i_gid ino' = i_gid ino ∨
       (i_uid ino = euid c ∧ (egid c = i_gid ino' ∨ cred_is_in_group c (i_gid ino') = true)))) ∧
   ((i_uid ino', i_gid ino') ≠ (i_uid ino, i_gid ino) →
      Z.testbit (i_mode ino') 11 = false ∧
      (Z.testbit (i_mode ino) 3 = true → Z.testbit (i_mode ino') 10 = false)) ∧
   (∀ k, 0 <= k → k ≠ 11 → k ≠ 10 → Z.testbit (i_mode ino') k = Z.testbit (i_mode ino) k)).
Proof.
  pose proof (drop_ids_bits (i_mode ino)) as (Hb1 & Hb2 & Hb3). unfold drop_ids in *.
  unfold chown_vfs, may_change_owner, may_change_group, is_root_user.
  destruct (Z.eqb_spec owner ID_NONE), (Z.eqb_spec (i_uid ino) owner); simpl;
    destruct (Z.eqb_spec (euid c) 0); simpl; try (by left);
    destruct (Z.eqb_spec group ID_NONE), (Z.eqb_spec (i_gid ino) group); simpl;
    try (right; split_and!; naive_solver);
    destruct (Z.eqb_spec (i_uid ino) (euid c)), (Z.eqb_spec (egid c) group),
      (cred_is_in_group c group) eqn:Eg; simpl; try (by left);
    right; split_and!; naive_solver.
Qed.

(** ** Supplementary groups *)

(** setgroups and getgroups agree.  A list of up to INT_MAX ids that root installs with
    [sys_setgroups] is the one membership tests see, its length is what a getgroups
    call of size 0 returns, and a call of that size copies exactly the list out. *)
Theorem setgroups_getgroups l c :
  euid c = 0 → Z.of_nat (length l) <= INT_MAX →
  ∃ c', sys_setgroups false (Z.of_nat (length l)) (UBuf l) c = Done (0, c') ∧
        (∀ g, cred_is_in_group c' g = bool_decide (g ∈ l)) ∧
        sys_getgroups 0 false c' = (Z.of_nat (length l), []) ∧
        (l ≠ [] → (sys_getgroups (Z.of_nat (length l)) false c').2 = l).
Proof.
  intros He Hl. exists (set_groups_ptr c (Some l)). split_and!.
  - unfold sys_setgroups, set_groups. rewrite He. simpl.
    rewrite (proj2 (Z.ltb_ge INT_MAX _)) by done. rewrite Z.ltb_irrefl, Nat2Z.id.
    by rewrite firstn_all.
  - intros g. unfold cred_is_in_group. simpl. apply eq_true_iff_eq.
    rewrite existsb_exists, bool_decide_eq_true. split.
    + intros (x & Hx & ->%Z.eqb_eq). by apply list_elem_of_In.
    + intros Hg%list_elem_of_In. exists g. split; [done|]. apply Z.eqb_refl.
  - done.
  - intros Hne. unfold sys_getgroups, get_groups. simpl.
    rewrite (proj2 (Z.ltb_ge _ 0)) by lia. rewrite (proj2 (Z.eqb_neq _ 0)).
    + by rewrite Z.eqb_refl.
    + destruct l; simpl; [done|lia].
Qed.

Definition root_creds : creds := MkCreds 0 0 0 0 0 0 None.

Lemma setgroups_getgroups_witness :
  ∃ c', sys_setgroups false 3 (UBuf [4; 24; 27]) root_creds = Done (0, c') ∧
        (∀ g, cred_is_in_group c' g = bool_decide (g ∈ [4; 24; 27])) ∧
        sys_getgroups 0 false c' = (3, []) ∧
        ([4; 24; 27] ≠ [] → (sys_getgroups 3 false c').2 = [4; 24; 27]).
Proof. apply (setgroups_getgroups [4; 24; 27] root_creds); [reflexivity|simpl; unfold INT_MAX; lia]. Defined.

(** Dropping the groups of a process that has none dereferences a null pointer. *)
Lemma setgroups_null_faults oom size c :
  euid c = 0 → groups c = None → size <= INT_MAX →
  sys_setgroups oom size UNull c = Fault NullDeref.
Proof.
  intros He Hg Hs. unfold sys_setgroups. rewrite He, Hg. simpl.
  by rewrite (proj2 (Z.ltb_ge INT_MAX _)).
Qed.
