(* ===== verification/Signal.v ===== *)
(** * Signal: signal sets, queues, generation and delivery.

    Models kernel/kernel/signal.cpp, include/onyx/signal.h ([struct signal_info]),
    the signal set operations of lib/libk/include/signal.h, [process::route_signal]
    of kernel/kernel/process.cpp and the frame set-up of arch/x86_64/signal.cpp.

    The state is one process: its action table, its threads in the order of the
    thread list, its group flags and credentials.  A signal set is a 64-bit word
    whose bit [n - 1] is signal [n].  [pending_head] is the intrusive list of queued
    signals, newest first.  The locks are taken in a fixed order by every function
    and are left out; waking a thread sets its state to runnable. *)

From S2P Require Import Prelude Bits Abi Cred.

(** ** Constants *)

Definition SIGKILL : Z := 9.
Definition SIGSEGV : Z := 11.
Definition SIGCHLD : Z := 17.
Definition SIGCONT : Z := 18.
Definition SIGSTOP : Z := 19.
Definition SIGTSTP : Z := 20.
Definition SIGTTIN : Z := 21.
Definition SIGTTOU : Z := 22.
Definition NSIG : Z := 65.
Definition KERNEL_SIGRTMIN : Z := 32.
Definition SIG_DFL : Z := 0.
Definition SIG_IGN : Z := 1.
Definition SIG_ERR : Z := ULONG_MAX.
Definition SA_SIGINFO : Z := 4.
Definition SA_ONSTACK : Z := 0x08000000.
Definition SA_NODEFER : Z := 0x40000000.
Definition SA_RESETHAND : Z := 0x80000000.
Definition SIG_BLOCK : Z := 0.
Definition SIG_UNBLOCK : Z := 1.
Definition SIG_SETMASK : Z := 2.
Definition SI_TKILL : Z := -6.
Definition SI_USER : Z := 0.
Definition SI_KERNEL : Z := 128.
Definition SS_ONSTACK : Z := 1.
Definition SS_DISABLE : Z := 2.
Definition SS_AUTODISARM : Z := 2 ^ 31.
Definition MINSIGSTKSZ : Z := 2048.
Definition THREAD_SIGNAL_STOPPING : Z := 1.
Definition THREAD_SIGNAL_EXITING : Z := 2.
Definition THREAD_SIGNAL_ORIGINAL_SIGSET : Z := 4.
Definition SIGNAL_GROUP_STOPPED : Z := 1.
Definition SIGNAL_GROUP_CONT : Z := 2.
Definition SIGNAL_FORCE : Z := 1.
Definition THREAD_RUNNABLE : Z := 0.
Definition THREAD_INTERRUPTIBLE : Z := 1.
Definition THREAD_STOPPED : Z := 6.
Definition THREAD_KERNEL : Z := 1.

(** ** Signal sets; the signal number is between 1 and 64 in every use *)

Definition sigbit (sig : Z) : Z := u32 (sig - 1) mod 64.
Definition sigaddset (set sig : Z) : Z := word_set set (sigbit sig).
Definition sigdelset (set sig : Z) : Z := word_clear set (sigbit sig).
Definition sigismember (set sig : Z) : bool := word_test set (sigbit sig).
Definition sigisemptyset (set : Z) : bool := set =? 0.
Definition sigorset (l r : Z) : Z := Z.lor l r.
Definition sigandset (l r : Z) : Z := Z.land l r.
Definition signotset (set : Z) : Z := u64 (Z.lnot set).

Definition signal_is_realtime (sig : Z) : bool := KERNEL_SIGRTMIN <=? sig.
Definition signal_is_standard (sig : Z) : bool := negb (signal_is_realtime sig).
Definition signal_is_stopping (sig : Z) : bool :=
  (sig =? SIGSTOP) || (sig =? SIGTSTP) || (sig =? SIGTTIN) || (sig =? SIGTTOU).
Definition signal_is_unblockable (signum : Z) : bool := (signum =? SIGSTOP) || (signum =? SIGKILL).
Definition signal_uncatcheable (signum : Z) : bool := signal_is_stopping signum || (signum =? SIGKILL).
Definition signal_may_wake (signum : Z) : bool := (signum =? SIGCONT) || (signum =? SIGKILL).
Definition is_valid_signal (sig : Z) : bool := (0 <? sig) && (sig <? NSIG).

(** ** Data *)

Record siginfo : Type := MkInfo { si_signo : Z; si_code : Z; si_pid : Z; si_uid : Z; si_addr : Z }.

(** A queued signal; [p_id] is the identity of the list node. *)
Record sigpending : Type := MkPend { p_id : Z; p_info : siginfo; signum : Z }.

Record stack_t : Type := MkStack { ss_sp : Z; ss_size : Z; ss_flags : Z }.

Record signal_info : Type := MkSi {
  sigmask : Z;
  pending_set : Z;
  pending_head : list sigpending;
  s_flags : Z;
  times_interrupted : Z;
  signal_pending : bool;
  altstack : stack_t;
  original_sigset : Z
}.

Record k_sigaction : Type := MkSa { sa_handler : Z; sa_flags : Z; sa_mask : Z; sa_restorer : Z }.

Record sthread : Type := MkThread { t_tid : Z; t_status : Z; t_flags : Z; sinfo : signal_info }.

(** [notified]: the stop and continue notifications sent to the parent. *)
Record sproc : Type := MkProc {
  p_pid : Z;
  sigtable : list k_sigaction;
  thread_list : list sthread;
  signal_group_flags : Z;
  p_cred : creds;
  notified : list Z;
  next_id : Z
}.

Definition set_sigmask (s : signal_info) (v : Z) : signal_info :=
  MkSi v (pending_set s) (pending_head s) (s_flags s) (times_interrupted s) (signal_pending s)
       (altstack s) (original_sigset s).
Definition set_pending_set (s : signal_info) (v : Z) : signal_info :=
  MkSi (sigmask s) v (pending_head s) (s_flags s) (times_interrupted s) (signal_pending s)
       (altstack s) (original_sigset s).
Definition set_pending_head (s : signal_info) (v : list sigpending) : signal_info :=
  MkSi (sigmask s) (pending_set s) v (s_flags s) (times_interrupted s) (signal_pending s)
       (altstack s) (original_sigset s).
Definition set_s_flags (s : signal_info) (v : Z) : signal_info :=
  MkSi (sigmask s) (pending_set s) (pending_head s) v (times_interrupted s) (signal_pending s)
       (altstack s) (original_sigset s).
Definition set_times_interrupted (s : signal_info) (v : Z) : signal_info :=
  MkSi (sigmask s) (pending_set s) (pending_head s) (s_flags s) v (signal_pending s)
       (altstack s) (original_sigset s).
Definition set_signal_pending (s : signal_info) (v : bool) : signal_info :=
  MkSi (sigmask s) (pending_set s) (pending_head s) (s_flags s) (times_interrupted s) v
       (altstack s) (original_sigset s).
Definition set_altstack (s : signal_info) (v : stack_t) : signal_info :=
  MkSi (sigmask s) (pending_set s) (pending_head s) (s_flags s) (times_interrupted s) (signal_pending s)
       v (original_sigset s).
Definition set_original_sigset (s : signal_info) (v : Z) : signal_info :=
  MkSi (sigmask s) (pending_set s) (pending_head s) (s_flags s) (times_interrupted s) (signal_pending s)
       (altstack s) v.

Definition set_status (t : sthread) (v : Z) : sthread := MkThread (t_tid t) v (t_flags t) (sinfo t).
Definition set_sinfo (t : sthread) (v : signal_info) : sthread :=
  MkThread (t_tid t) (t_status t) (t_flags t) v.

Definition set_sigtable (p : sproc) (v : list k_sigaction) : sproc :=
  MkProc (p_pid p) v (thread_list p) (signal_group_flags p) (p_cred p) (notified p) (next_id p).
Definition set_thread_list (p : sproc) (v : list sthread) : sproc :=
  MkProc (p_pid p) (sigtable p) v (signal_group_flags p) (p_cred p) (notified p) (next_id p).
Definition set_group_flags (p : sproc) (v : Z) : sproc :=
  MkProc (p_pid p) (sigtable p) (thread_list p) v (p_cred p) (notified p) (next_id p).
Definition set_notified (p : sproc) (v : list Z) : sproc :=
  MkProc (p_pid p) (sigtable p) (thread_list p) (signal_group_flags p) (p_cred p) v (next_id p).
Definition set_next_id (p : sproc) (v : Z) : sproc :=
  MkProc (p_pid p) (sigtable p) (thread_list p) (signal_group_flags p) (p_cred p) (notified p) v.

(** ** [struct signal_info] *)

Definition is_signal_pending_internal (s : signal_info) : bool :=
  negb (sigisemptyset (sigandset (pending_set s) (signotset (sigmask s)))).

Definition __update_pending (s : signal_info) : signal_info :=
  set_signal_pending s (negb (s_flags s =? 0) || is_signal_pending_internal s).

(** [update] is the [update_pending] argument; the result is the old mask. *)
Definition maybe_update (update : bool) (s : signal_info) : signal_info :=
  if update then __update_pending s else s.

Definition __add_blocked (blocked : Z) (update : bool) (s : signal_info) : Z * signal_info :=
  let s1 := set_sigmask s (sigdelset (sigdelset (sigorset (sigmask s) blocked) SIGKILL) SIGSTOP) in
  (sigmask s, maybe_update update s1).
Definition add_blocked := __add_blocked.

Definition set_blocked (blocked : Z) (update : bool) (s : signal_info) : Z * signal_info :=
  let s1 := set_sigmask s (sigdelset (sigdelset blocked SIGKILL) SIGSTOP) in
  (sigmask s, maybe_update update s1).

Definition unblock (mask : Z) (update : bool) (s : signal_info) : Z * signal_info :=
  let s1 := set_sigmask s (sigandset (sigmask s) (signotset mask)) in
  (sigmask s, maybe_update update s1).

Definition add_pending (pend : sigpending) (s : signal_info) : bool * signal_info :=
  if signal_is_standard (signum pend) && sigismember (pending_set s) (signum pend) then (false, s)
  else
    let s1 := set_pending_head s (pend :: pending_head s) in
    let s2 := set_pending_set s1 (sigaddset (pending_set s1) (signum pend)) in
    (true, if negb (sigismember (sigmask s2) (signum pend)) then set_signal_pending s2 true else s2).

Definition try_to_route (pend : sigpending) (s : signal_info) : bool * signal_info :=
  if sigismember (sigmask s) (signum pend) then (false, s)
  else if signal_is_standard (signum pend) && sigismember (pending_set s) (signum pend) then (false, s)
  else
    let s1 := set_pending_head s (pend :: pending_head s) in
    let s2 := set_pending_set s1 (sigaddset (pending_set s1) (signum pend)) in
    (true, set_signal_pending s2 true).

(** The constructor. *)
Definition signal_info_init : signal_info :=
  MkSi 0 0 [] 0 0 false (MkStack 0 0 SS_DISABLE) 0.

(** ** Searching and unqueueing *)

(** The loop of [signal_find] from signal [i], over [n] signals. *)
Fixpoint signal_find_from (n : nat) (i : Z) (s : signal_info) : Z :=
  match n with
  | O => -1
  | S n' =>
      if sigismember (pending_set s) i && negb (sigismember (sigmask s) i) then i
      else signal_find_from n' (i + 1) s
  end.
Definition signal_find (s : signal_info) : Z := signal_find_from (Z.to_nat (NSIG - 1)) 1 s.

Fixpoint signal_is_empty_from (n : nat) (i : Z) (s : signal_info) : bool :=
  match n with
  | O => true
  | S n' =>
      if sigismember (pending_set s) i && negb (sigismember (sigmask s) i) then false
      else signal_is_empty_from n' (i + 1) s
  end.
Definition signal_is_empty (s : signal_info) : bool := signal_is_empty_from (Z.to_nat (NSIG - 1)) 1 s.

(** The first queued entry for [sig] and the list without it. *)
Fixpoint pop_pending (sig : Z) (l : list sigpending) : option (sigpending * list sigpending) :=
  match l with
  | [] => None
  | p :: l' =>
      if signum p =? sig then Some (p, l')
      else match pop_pending sig l' with
           | Some (q, r) => Some (q, p :: r)
           | None => None
           end
  end.

Definition SIGNAL_QUERY_POP : Z := 1.

Definition signal_query_pending (sig flags : Z) (s : signal_info) : option sigpending * signal_info :=
  match pop_pending sig (pending_head s) with
  | Some (p, l) => (Some p, if has flags SIGNAL_QUERY_POP then set_pending_head s l else s)
  | None => (None, s)
  end.

Definition signal_unqueue (sig : Z) (s : signal_info) : signal_info :=
  let should_delete :=
    if KERNEL_SIGRTMIN <=? sig then
      match (signal_query_pending sig 0 s).1 with None => true | Some _ => false end
    else true in
  let s1 := if should_delete then set_pending_set s (sigdelset (pending_set s) sig) else s in
  __update_pending s1.

(** ** Default actions *)

Inductive dfl_action : Type := DflTerm | DflCore | DflIgnore | DflStop.

Definition dfl_signal_handlers : list dfl_action :=
  [DflTerm; DflTerm; DflTerm; DflCore; DflCore; DflCore; DflCore; DflCore; DflCore; DflTerm;
   DflTerm; DflCore; DflTerm; DflTerm; DflTerm; DflTerm; DflTerm; DflIgnore; DflIgnore; DflStop;
   DflStop; DflStop; DflStop; DflIgnore; DflCore; DflCore; DflTerm; DflTerm; DflIgnore; DflIgnore;
   DflIgnore; DflCore].

(** ** Operations on the process *)

Abbreviation PM := (M sproc).

Definition get_thread (i : Z) : PM sthread :=
  o ← gets (λ p, aget (thread_list p) i);
  from_opt o UseAfterFree.
Definition put_thread (i : Z) (t : sthread) : PM unit :=
  o ← gets (λ p, aset (thread_list p) i t);
  l ← from_opt o UseAfterFree;
  modify (λ p, set_thread_list p l).
Definition upd_sinfo (i : Z) (f : signal_info → signal_info) : PM unit :=
  t ← get_thread i;
  put_thread i (set_sinfo t (f (sinfo t))).

(** [proc->sigtable[sig]] *)
Definition get_action (sig : Z) : PM k_sigaction :=
  o ← gets (λ p, aget (sigtable p) sig);
  from_opt o OutOfBounds.
Definition put_action (sig : Z) (a : k_sigaction) : PM unit :=
  o ← gets (λ p, aset (sigtable p) sig a);
  l ← from_opt o OutOfBounds;
  modify (λ p, set_sigtable p l).

Definition dfl_handler (sig : Z) : PM dfl_action :=
  from_opt (aget dfl_signal_handlers sig) OutOfBounds.

Definition is_default_ignored (sig : Z) : PM bool :=
  d ← dfl_handler sig;
  mret (match d with DflIgnore => true | _ => false end).

Definition is_signal_ignored (sig : Z) : PM bool :=
  a ← get_action sig;
  if sa_handler a =? SIG_IGN then mret true
  else if sa_handler a =? SIG_DFL then is_default_ignored sig
  else mret false.

Definition thread_wake_up (t : sthread) : sthread := set_status t THREAD_RUNNABLE.

(** The body of the loops over the threads in [signal_do_special_behaviour]. *)
Definition wake_stopped (t : sthread) : sthread :=
  let t1 := if has (s_flags (sinfo t)) THREAD_SIGNAL_STOPPING then thread_wake_up t else t in
  set_sinfo t1 (__update_pending
    (set_s_flags (sinfo t1) (Z.land (s_flags (sinfo t1)) (Z.lnot THREAD_SIGNAL_STOPPING)))).

Definition unqueue_stops (s : signal_info) : signal_info :=
  signal_unqueue SIGTTOU (signal_unqueue SIGTTIN (signal_unqueue SIGTSTP (signal_unqueue SIGSTOP s))).

Definition signal_do_special_behaviour (sig : Z) (i : Z) : PM unit :=
  if sig =? SIGCONT then
    _ ← upd_sinfo i unqueue_stops;
    _ ← modify (λ p, set_thread_list p (wake_stopped <$> thread_list p));
    was ← gets (λ p, has (signal_group_flags p) SIGNAL_GROUP_STOPPED);
    _ ← modify (λ p, set_group_flags p (Z.land (signal_group_flags p) (Z.lnot SIGNAL_GROUP_STOPPED)));
    if was : bool then
      _ ← modify (λ p, set_group_flags p (Z.lor (signal_group_flags p) SIGNAL_GROUP_CONT));
      modify (λ p, set_notified p (notified p ++ [SIGCONT]))
    else mret tt
  else if signal_is_stopping sig then
    a ← get_action sig;
    if sa_handler a =? SIG_DFL then upd_sinfo i (signal_unqueue SIGCONT) else mret tt
  else if sig =? SIGKILL then
    _ ← upd_sinfo i unqueue_stops;
    modify (λ p, set_thread_list p (wake_stopped <$> thread_list p))
  else mret tt.

Definition do_signal_force_unblock (sig : Z) (i : Z) : PM unit :=
  a ← get_action sig;
  _ ← put_action sig (MkSa SIG_DFL (sa_flags a) (sa_mask a) (sa_restorer a));
  upd_sinfo i (λ s, set_sigmask s (sigdelset (sigmask s) sig)).

(** The queueing part of [kernel_tkill], once the entry is allocated. *)
Definition queue_signal (sig : Z) (i : Z) (info : option siginfo) : PM unit :=
  n ← gets next_id;
  _ ← modify (λ p, set_next_id p (n + 1));
  let inf := match info with
             | Some f => MkInfo sig (si_code f) (si_pid f) (si_uid f) (si_addr f)
             | None => MkInfo sig SI_KERNEL 0 0 0
             end in
  t ← get_thread i;
  let s1 := set_pending_head (sinfo t) (MkPend n inf sig :: pending_head (sinfo t)) in
  let s2 := set_pending_set s1 (sigaddset (pending_set s1) sig) in
  if negb (sigismember (sigmask s2) sig) then
    let t1 := set_sinfo t (set_signal_pending s2 true) in
    if (t_status t1 =? THREAD_INTERRUPTIBLE) ||
       ((t_status t1 =? THREAD_STOPPED) && signal_may_wake sig)
    then put_thread i (thread_wake_up t1)
    else put_thread i t1
  else put_thread i (set_sinfo t s2).

(** [kernel_tkill(signal, thread, flags, info)]: [c] are the credentials of the
    sender, [oom] says that one of the two allocations fails. *)
Definition kernel_tkill (oom : bool) (c : creds) (sig i flags : Z) (info : option siginfo) : PM Z :=
  other ← gets p_cred;
  if may_kill (si_code <$> info) c other <? 0 then mret (- EPERM)
  else
    _ ← signal_do_special_behaviour sig i;
    ign ← is_signal_ignored sig;
    let is_signal_ign := ign && negb (signal_is_unblockable sig) in
    t ← get_thread i;
    let is_masked := sigismember (sigmask (sinfo t)) sig in
    let signal_delivery_blocked := is_signal_ign || is_masked in
    let forced := has flags SIGNAL_FORCE && signal_delivery_blocked in
    _ ← (if forced then do_signal_force_unblock sig i else mret tt);
    if negb forced && is_signal_ign then mret 0
    else
      t ← get_thread i;
      if (sig <? KERNEL_SIGRTMIN) && sigismember (pending_set (sinfo t)) sig then mret 0
      else if oom then
        if has flags SIGNAL_FORCE then crash KernelPanic else mret (- ENOMEM)
      else
        _ ← queue_signal sig i info;
        mret 0.

(** The thread [kernel_raise_signal] chooses: the first that does not block the
    signal, or else the first. *)
Fixpoint first_unblocked (sig : Z) (i : Z) (l : list sthread) : option Z :=
  match l with
  | [] => None
  | t :: l' => if negb (sigismember (sigmask (sinfo t)) sig) then Some i
               else first_unblocked sig (i + 1) l'
  end.

Definition kernel_raise_signal (oom : bool) (c : creds) (sig flags : Z) (info : option siginfo) : PM Z :=
  l ← gets thread_list;
  i ← (match first_unblocked sig 0 l with
       | Some i => mret i
       | None => _ ← check (negb (bool_decide (l = []))) NullDeref; mret 0
       end);
  kernel_tkill oom c sig i flags info.

(** [process::route_signal] and the two ways a thread gives its queue away. *)
Fixpoint route_first (pend : sigpending) (l : list sthread) : list sthread :=
  match l with
  | [] => []
  | t :: l' =>
      let r := try_to_route pend (sinfo t) in
      if r.1 then set_sinfo t r.2 :: l' else set_sinfo t r.2 :: route_first pend l'
  end.

Definition route_signal (pend : sigpending) : PM bool :=
  l ← gets thread_list;
  match l with
  | [] => mret false
  | _ =>
      _ ← modify (λ p, set_thread_list p (route_first pend (thread_list p)));
      t ← get_thread 0;
      let r := add_pending pend (sinfo t) in
      _ ← put_thread 0 (set_sinfo t r.2);
      mret r.1
  end.

(** ** Delivery *)

(** What a default action does to the thread that takes it. *)
Inductive delivery : Type :=
  | Exited (sig : Z)        (* the process is terminated by the signal *)
  | Continue                (* deliver_signal returned false *)
  | Deferred.               (* deliver_signal returned true: back to user space *)

(** Effect of [copy_to_user] on the signal frame: it fails before the saved mask is
    chosen, after it, or not at all. *)
Inductive frame_write : Type := FailsEarly | FailsLate | Written.

Definition signal_setup_context (w : frame_write) (a : k_sigaction) (s : signal_info)
  : Z * signal_info :=
  let onstack := has (sa_flags a) SA_ONSTACK && negb (has (ss_flags (altstack s)) SS_DISABLE) in
  let s1 := if onstack && has (ss_flags (altstack s)) SS_AUTODISARM
            then set_altstack s (MkStack 0 0 SS_DISABLE) else s in
  match w with
  | FailsEarly => (- EFAULT, s1)
  | _ =>
      let s2 := set_s_flags s1 (Z.land (s_flags s1) (Z.lnot THREAD_SIGNAL_ORIGINAL_SIGSET)) in
      (match w with Written => 0 | _ => - EFAULT end, s2)
  end.

(** The mask the frame saves. *)
Definition saved_mask (s : signal_info) : Z :=
  if has (s_flags s) THREAD_SIGNAL_ORIGINAL_SIGSET then original_sigset s else sigmask s.

(** The address of the frame: [sp] is the user stack pointer, [size] the size of
    [struct sigframe] and [fpu] that of the FPU state. *)
Definition sframe_location (s : signal_info) (a : k_sigaction) (rsp size fpu : Z) : Z :=
  let sp := if has (sa_flags a) SA_ONSTACK && negb (has (ss_flags (altstack s)) SS_DISABLE)
            then u64 (ss_sp (altstack s) + ss_size (altstack s))
            else u64 (rsp - 128) in
  u64 (Z.land (u64 (sp - size - fpu)) (u64 (-16)) - 8).

Section delivery.
(** Whether the signal frame can be written, given the action and the thread. *)
Context (fw : k_sigaction → signal_info → frame_write).
(** What the rest of the system does to the process while the thread is stopped. *)
Context (resume : sproc → sproc).

Definition stop_other (t : sthread) : sthread :=
  let s := sinfo t in
  let t1 := set_sinfo t (set_signal_pending
              (set_s_flags s (Z.lor (s_flags s) THREAD_SIGNAL_STOPPING)) true) in
  if t_status t1 =? THREAD_INTERRUPTIBLE then thread_wake_up t1 else t1.

Definition signal_do_stop (sig : Z) (i : Z) : PM unit :=
  t ← get_thread i;
  _ ← (if negb (has (s_flags (sinfo t)) THREAD_SIGNAL_STOPPING) then
         _ ← modify (λ p, set_thread_list p
               (imap (λ k t, if Z.of_nat k =? i then t else stop_other t) (thread_list p)));
         _ ← upd_sinfo i (λ s, set_s_flags s (Z.lor (s_flags s) THREAD_SIGNAL_STOPPING));
         _ ← modify (λ p, set_group_flags p
               (Z.land (Z.lor (signal_group_flags p) SIGNAL_GROUP_STOPPED) (Z.lnot SIGNAL_GROUP_CONT)));
         modify (λ p, set_notified p (notified p ++ [sig]))
       else mret tt);
  t ← get_thread i;
  _ ← put_thread i (set_status t THREAD_STOPPED);
  modify resume.

Definition do_default_signal (sig : Z) (i : Z) : PM delivery :=
  d ← dfl_handler sig;
  match d with
  | DflTerm | DflCore => mret (Exited sig)
  | DflIgnore => mret Continue
  | DflStop => _ ← signal_do_stop sig i; mret Continue
  end.

(** The end of [deliver_signal]: the action's mask is added and the signal leaves
    the pending set. *)
Definition finish_delivery (sig : Z) (i : Z) : PM unit :=
  a ← get_action sig;
  _ ← (if has (sa_flags a) SA_RESETHAND then
         put_action sig (MkSa SIG_DFL (Z.land (sa_flags a) (Z.lnot SA_SIGINFO)) (sa_mask a) (sa_restorer a))
       else mret tt);
  let new_blocked := if has (sa_flags a) SA_NODEFER then sa_mask a else sigaddset (sa_mask a) sig in
  _ ← upd_sinfo i (λ s, (__add_blocked new_blocked true s).2);
  upd_sinfo i (signal_unqueue sig).

(** [fuel] bounds the recursion through [force_sigsegv]. *)
Fixpoint deliver_signal (fuel : nat) (sig : Z) (pend : sigpending) (i : Z) : PM delivery :=
  match fuel with
  | O => crash OutOfFuel
  | S fuel' =>
      a ← get_action sig;
      if negb (sa_handler a =? SIG_DFL) && negb (signal_uncatcheable sig) then
        t ← get_thread i;
        let r := signal_setup_context (fw a (sinfo t)) a (sinfo t) in
        _ ← put_thread i (set_sinfo t r.2);
        if r.1 <? 0 then
          (* force_sigsegv *)
          let pend' := MkPend (p_id pend)
                         (MkInfo SIGSEGV SI_KERNEL (si_pid (p_info pend)) (si_uid (p_info pend)) 0)
                         (signum pend) in
          if signum pend =? SIGSEGV then
            d ← do_default_signal SIGSEGV i;
            match d with
            | Exited s => mret (Exited s)
            | _ => _ ← finish_delivery sig i; mret Deferred
            end
          else
            d ← deliver_signal fuel' SIGSEGV pend' i;
            mret (match d with Exited s => Exited s | _ => Deferred end)
        else
          _ ← finish_delivery sig i;
          mret Deferred
      else
        d ← do_default_signal sig i;
        match d with
        | Exited s => mret (Exited s)
        | _ => _ ← finish_delivery sig i; mret Continue
        end
  end.

Inductive handled : Type :=
  | HExited (sig : Z)
  | HThreadExit
  | HReturn.

Fixpoint handle_loop (fuel depth : nat) (i : Z) : PM handled :=
  match fuel with
  | O => crash OutOfFuel
  | S fuel' =>
      t ← get_thread i;
      if has (s_flags (sinfo t)) THREAD_SIGNAL_EXITING then mret HThreadExit
      else if has (s_flags (sinfo t)) THREAD_SIGNAL_STOPPING then
        _ ← signal_do_stop 0 i;
        handle_loop fuel' depth i
      else
        let sig := signal_find (sinfo t) in
        if sig <? 0 then mret HReturn
        else
          let q := signal_query_pending sig SIGNAL_QUERY_POP (sinfo t) in
          pend ← from_opt q.1 AssertFailed;
          _ ← put_thread i (set_sinfo t q.2);
          d ← deliver_signal depth sig pend i;
          match d with
          | Exited s => mret (HExited s)
          | Deferred => mret HReturn
          | Continue => handle_loop fuel' depth i
          end
  end.

Definition handle_signal (fuel depth : nat) (in_kernel : bool) (i : Z) : PM handled :=
  if in_kernel then mret HReturn
  else
    _ ← upd_sinfo i (λ s, set_times_interrupted s (u64 (times_interrupted s + 1)));
    handle_loop fuel depth i.
End delivery.

(** ** System calls of the current thread, whose index is [i] *)

(** The result is the return value and the old action copied out. *)
Definition sys_sigaction (sig : Z) (act : uptr k_sigaction) (oldact : uptr unit)
  : PM (Z * option k_sigaction) :=
  if negb (is_valid_signal sig) then mret (- EINVAL, None)
  else match act, oldact with
  | UNull, UNull => mret (0, None)
  | UBad, _ => mret (- EFAULT, None)
  | _, _ =>
      let bad := match act with
                 | UBuf news => (sa_handler news =? SIG_ERR) || (sig =? SIGKILL) || (sig =? SIGSTOP)
                 | _ => false
                 end in
      if bad then mret (- EINVAL, None)
      else
        old ← get_action sig;
        _ ← (match act with UBuf news => put_action sig news | _ => mret tt end);
        match oldact with
        | UNull => mret (0, None)
        | UBad => mret (- EFAULT, None)
        | UBuf _ => mret (0, Some old)
        end
  end.

Definition sys_sigprocmask (i how : Z) (set : uptr Z) (oldset : uptr unit) (sigset_size : Z)
  : PM (Z * option Z) :=
  if negb (sigset_size =? 8) then mret (- EINVAL, None)
  else
    t ← get_thread i;
    let koldset := sigmask (sinfo t) in
    r ← (match set with
         | UNull => mret 0
         | UBad => mret (- EFAULT)
         | UBuf kset =>
             if how =? SIG_BLOCK then
               _ ← upd_sinfo i (λ s, (add_blocked kset true s).2); mret 0
             else if how =? SIG_UNBLOCK then
               _ ← upd_sinfo i (λ s, (unblock kset true s).2); mret 0
             else if how =? SIG_SETMASK then
               _ ← upd_sinfo i (λ s, (set_blocked kset true s).2); mret 0
             else mret (- EINVAL)
         end);
    if r <? 0 then mret (r, None)
    else match oldset with
    | UNull => mret (0, None)
    | UBad => mret (- EFAULT, None)
    | UBuf _ => mret (0, Some koldset)
    end.

(** [sys_sigsuspend] up to the wait, and the test the wait starts with: the call
    sleeps only when no signal is pending. *)
Definition sigsuspend_prepare (set : Z) (s : signal_info) : signal_info :=
  let s1 := set_original_sigset s (sigmask s) in
  let s2 := set_s_flags s1 (Z.lor (s_flags s1) THREAD_SIGNAL_ORIGINAL_SIGSET) in
  (set_blocked set true s2).2.
Definition wait_would_sleep (s : signal_info) : bool := negb (signal_pending s).

Definition execve_action (a : k_sigaction) : k_sigaction :=
  MkSa (if negb (sa_handler a =? SIG_IGN) then 0 else sa_handler a) 0 0 0.
Definition signal_do_execve (i : Z) : PM unit :=
  _ ← modify (λ p, set_sigtable p (execve_action <$> sigtable p));
  upd_sinfo i (λ s, set_altstack s (MkStack 0 0 SS_DISABLE)).

Definition executing_in_altstack (sp : Z) (stack : stack_t) : bool :=
  (ss_sp stack <=? sp) && (sp <? u64 (ss_sp stack + ss_size stack)).
Definition alt_stack_sp_flags (sp : Z) (stack : stack_t) : Z :=
  if executing_in_altstack sp stack then SS_ONSTACK else 0.

Definition sys_sigaltstack (sp : Z) (new_stack : uptr stack_t) (old_stack : uptr unit) (s : signal_info)
  : Z * option stack_t * signal_info :=
  let kold := MkStack (ss_sp (altstack s)) (ss_size (altstack s))
                (Z.lor (alt_stack_sp_flags sp (altstack s)) (ss_flags (altstack s))) in
  match old_stack with
  | UBad => (- EFAULT, None, s)
  | _ =>
      let out := match old_stack with UBuf _ => Some kold | _ => None end in
      match new_stack with
      | UNull => (0, out, s)
      | UBad => (- EFAULT, out, s)
      | UBuf stk =>
          if truthy (Z.land (ss_flags stk) (Z.lnot (Z.lor SS_AUTODISARM SS_DISABLE)))
          then (- EINVAL, out, s)
          else if executing_in_altstack sp (altstack s) then (- EPERM, out, s)
          else if has (ss_flags stk) SS_DISABLE then (0, out, set_altstack s (MkStack 0 0 SS_DISABLE))
          else if ss_size stk <? MINSIGSTKSZ then (- ENOMEM, out, s)
          else (0, out, set_altstack s stk)
      end
  end.

Definition sys_rt_sigpending (i : Z) (uset : uptr unit) (sigsetlen : Z) : PM (Z * option Z) :=
  t ← get_thread i;
  if negb (sigsetlen =? 8) then mret (- EINVAL, None)
  else match uset with
  | UBuf _ => mret (0, Some (pending_set (sinfo t)))
  | _ => mret (- EFAULT, None)
  end.

(** [sys_rt_sigtimedwait] after the wait was interrupted by a signal. *)
Definition sigtimedwait_take (i kset : Z) (info : uptr unit) : PM (Z * option siginfo) :=
  t ← get_thread i;
  let sig := signal_find (sinfo t) in
  _ ← check (0 <? sig) AssertFailed;
  if negb (sigismember kset sig) then mret (- EINTR, None)
  else
    let q := signal_query_pending sig SIGNAL_QUERY_POP (sinfo t) in
    pend ← from_opt q.1 AssertFailed;
    _ ← put_thread i (set_sinfo t (signal_unqueue sig q.2));
    match info with
    | UBuf _ => mret (signum pend, Some (p_info pend))
    | _ => mret (- EFAULT, None)
    end.

(** Sending to a thread of this process by its thread id. *)
Fixpoint find_tid (tid i : Z) (l : list sthread) : option Z :=
  match l with
  | [] => None
  | t :: l' => if t_tid t =? tid then Some i else find_tid tid (i + 1) l'
  end.

Definition TGKILL_CHECK_PID : Z := 1.
Definition TGKILL_SIGQUEUE : Z := 2.

(** [sender_pid] and [c] are those of the calling process; the target thread is one
    of the process' threads. *)
Definition do_tgkill (oom : bool) (c : creds) (sender_pid pid tid sig flags : Z)
    (kinfo : option siginfo) : PM Z :=
  if tid <? 0 then mret (- EINVAL)
  else
    o ← gets (λ p, find_tid tid 0 (thread_list p));
    match o with
    | None => mret (- ESRCH)
    | Some i =>
        t ← get_thread i;
        own ← gets p_pid;
        if has (t_flags t) THREAD_KERNEL then mret (- EINVAL)
        else if has flags TGKILL_CHECK_PID && negb (own =? pid) then mret (- ESRCH)
        else if negb (is_valid_signal sig) then mret (- EINVAL)
        else
          info ← (if negb (has flags TGKILL_SIGQUEUE)
                  then mret (MkInfo sig SI_TKILL sender_pid (euid c) 0)
                  else from_opt kinfo NullDeref);
          kernel_tkill oom c sig i 0 (Some info)
    end.

Definition sys_tkill (oom : bool) (c : creds) (sender_pid tid sig : Z) : PM Z :=
  do_tgkill oom c sender_pid (-1) tid sig 0 None.
Definition sys_tgkill (oom : bool) (c : creds) (sender_pid pid tid sig : Z) : PM Z :=
  do_tgkill oom c sender_pid pid tid sig TGKILL_CHECK_PID None.

Definition sanitize_rt_sigqueueinfo (info : siginfo) (current_pid pid : Z) : Z :=
  if current_pid =? pid then 0
  else if 0 <=? si_code info then -1
  else if si_code info =? SI_TKILL then -1
  else 0.

(** The calls that name a process by pid; [exists_p] says that the lookup finds the
    process of the state. *)
Definition sys_rt_sigqueueinfo (oom : bool) (c : creds) (current_pid : Z) (exists_p : bool)
    (pid sig : Z) (uinfo : uptr siginfo) : PM Z :=
  match uinfo with
  | UBuf info =>
      if sanitize_rt_sigqueueinfo info current_pid pid <? 0 then mret (- EPERM)
      else if negb exists_p then mret (- ESRCH)
      else if sig =? 0 then mret 0
      else if negb (is_valid_signal sig) then mret (- EINVAL)
      else kernel_raise_signal oom c sig 0 (Some info)
  | _ => mret (- EFAULT)
  end.

Definition sys_rt_tgsigqueueinfo (oom : bool) (c : creds) (current_pid pid tid sig : Z)
    (uinfo : uptr siginfo) : PM Z :=
  match uinfo with
  | UBuf info =>
      if sanitize_rt_sigqueueinfo info current_pid pid <? 0 then mret (- EPERM)
      else do_tgkill oom c current_pid pid tid sig (Z.lor TGKILL_CHECK_PID TGKILL_SIGQUEUE) (Some info)
  | _ => mret (- EFAULT)
  end.

(** [sys_kill] with a positive pid. *)
Definition sys_kill_one (oom : bool) (c : creds) (current_pid : Z) (exists_p : bool) (sig : Z) : PM Z :=
  if negb exists_p then mret (- ESRCH)
  else if sig =? 0 then mret 0
  else if negb (is_valid_signal sig) then mret (- EINVAL)
  else kernel_raise_signal oom c sig 0 (Some (MkInfo sig SI_USER current_pid (euid c) 0)).

(** [signal_info::reroute_signals]: the queue of a dying thread is routed, in list
    order, to the other threads; entries nobody takes are freed. *)
Fixpoint reroute_list (l : list sigpending) : PM (list sigpending) :=
  match l with
  | [] => mret []
  | pend :: l' =>
      ok ← route_signal pend;
      freed ← reroute_list l';
      mret (if ok : bool then freed else pend :: freed)
  end.
