(* ===== verification/SignalFacts.v ===== *)
(** * SignalFacts: the invariant of a thread's signal state.

    [si_ok] says that every signal of the pending set has a queued entry, that
    SIGKILL and SIGSTOP are never blocked, and that [signal_pending] is set when an
    unblocked signal is pending. *)

From S2P Require Import Prelude Bits Abi Cred Signal.

(** ** Signal sets *)

Definition valid_sig (n : Z) : Prop := 1 <= n <= 64.

Lemma sigbit_valid n : valid_sig n → sigbit n = n - 1 ∧ 0 <= sigbit n < 64.
Proof.
  intros Hn. unfold valid_sig, sigbit, u32 in *.
  rewrite (Z.mod_small (n - 1) (2 ^ 32)), Z.mod_small by lia. lia.
Qed.

Lemma sigbit_inj m n : valid_sig m → valid_sig n → (sigbit m =? sigbit n) = (m =? n).
Proof.
  intros Hm Hn. destruct (sigbit_valid m Hm) as [-> _], (sigbit_valid n Hn) as [-> _].
  destruct (Z.eqb_spec m n); lia.
Qed.

Lemma is_valid_signal_spec n : is_valid_signal n = true ↔ valid_sig n.
Proof. unfold is_valid_signal, valid_sig, NSIG. lia. Qed.

Section sets.
Context (s : Z) (Hs : is_u64 s).

Lemma sigismember_testbit n : valid_sig n → sigismember s n = Z.testbit s (n - 1).
Proof.
  intros Hn. destruct (sigbit_valid n Hn) as [<- Hb]. by apply word_test_spec.
Qed.

Lemma sigaddset_u64 n : valid_sig n → is_u64 (sigaddset s n).
Proof. intros Hn. apply word_set_range; [done|by apply sigbit_valid]. Qed.

Lemma sigdelset_u64 n : valid_sig n → is_u64 (sigdelset s n).
Proof. intros Hn. apply word_clear_range; [done|by apply sigbit_valid]. Qed.
End sets.

Lemma member_add s n m :
  is_u64 s → valid_sig n → valid_sig m →
  sigismember (sigaddset s n) m = (m =? n) || sigismember s m.
Proof.
  intros Hs Hn Hm. rewrite <- (sigbit_inj m n) by done. unfold sigismember, sigaddset.
  destruct (sigbit_valid n Hn) as [_ Hbn], (sigbit_valid m Hm) as [_ Hbm].
  rewrite !word_test_spec by (done || by apply word_set_range).
  apply testbit_word_set; [done|lia].
Qed.

Lemma member_del s n m :
  is_u64 s → valid_sig n → valid_sig m →
  sigismember (sigdelset s n) m = negb (m =? n) && sigismember s m.
Proof.
  intros Hs Hn Hm. rewrite <- (sigbit_inj m n) by done. unfold sigismember, sigdelset.
  destruct (sigbit_valid n Hn) as [_ Hbn], (sigbit_valid m Hm) as [_ Hbm].
  rewrite !word_test_spec by (done || by apply word_clear_range).
  apply testbit_word_clear; [done..|lia].
Qed.

Lemma member_or a b m :
  valid_sig m → sigismember (sigorset a b) m = sigismember a m || sigismember b m.
Proof.
  intros Hm. destruct (sigbit_valid m Hm) as [_ Hb]. unfold sigismember, sigorset.
  rewrite !word_test_spec by done. apply Z.lor_spec.
Qed.

Lemma member_and_not a b m :
  valid_sig m → sigismember (sigandset a (signotset b)) m = sigismember a m && negb (sigismember b m).
Proof.
  intros Hm. destruct (sigbit_valid m Hm) as [_ Hb]. unfold sigismember, sigandset, signotset.
  rewrite !word_test_spec by done. rewrite Z.land_spec, testbit_u64, Z.lnot_spec by lia.
  by rewrite (proj2 (Z.ltb_lt _ _)) by lia.
Qed.

Lemma sigor_u64 a b : is_u64 a → is_u64 b → is_u64 (sigorset a b).
Proof.
  intros Ha Hb. apply is_u64_intro; [apply Z.lor_nonneg; split; [apply Ha|apply Hb]|].
  intros i Hi. unfold sigorset. by rewrite Z.lor_spec, !is_u64_high.
Qed.

Lemma sigand_u64 a b : is_u64 a → is_u64 (sigandset a b).
Proof.
  intros Ha. apply is_u64_intro; [apply Z.land_nonneg; left; apply Ha|].
  intros i Hi. unfold sigandset. by rewrite Z.land_spec, (is_u64_high a).
Qed.

Lemma valid_kill : valid_sig SIGKILL. Proof. done. Qed.
Lemma valid_stop : valid_sig SIGSTOP. Proof. done. Qed.

Create HintDb signals.
#[export] Hint Resolve sigaddset_u64 sigdelset_u64 sigor_u64 sigand_u64 valid_kill valid_stop : signals.

(** A pending set is empty when no signal is a member. *)
Lemma sigisempty_spec s : is_u64 s → sigisemptyset s = false ↔ ∃ n, valid_sig n ∧ sigismember s n = true.
Proof.
  intros Hs. unfold sigisemptyset. rewrite Z.eqb_neq. split.
  - intros Hne. destruct (u64_nonzero_bit s Hs Hne) as (j & Hj & Hb).
    exists (j + 1). assert (Hv : valid_sig (j + 1)) by (unfold valid_sig; lia). split; [done|].
    rewrite sigismember_testbit by done. by replace (j + 1 - 1) with j by lia.
  - intros (n & Hn & Hm) ->. by rewrite sigismember_testbit, Z.bits_0 in Hm.
Qed.

(** ** The invariant *)

(** Some unblocked signal is pending. *)
Definition deliverable (s : signal_info) (n : Z) : Prop :=
  valid_sig n ∧ sigismember (pending_set s) n = true ∧ sigismember (sigmask s) n = false.

Record sets_ok (s : signal_info) : Prop := {
  ok_mask : is_u64 (sigmask s);
  ok_pset : is_u64 (pending_set s);
  ok_kill : sigismember (sigmask s) SIGKILL = false;
  ok_stop : sigismember (sigmask s) SIGSTOP = false;
}.

Record queue_ok (s : signal_info) : Prop := {
  ok_queue : ∀ n, valid_sig n → sigismember (pending_set s) n = true →
               ∃ p, p ∈ pending_head s ∧ signum p = n;
  ok_valid : ∀ p, p ∈ pending_head s → valid_sig (signum p);
}.

(** No signal is lost: a deliverable signal raises the flag that is tested on every
    return to user space. *)
Definition flag_ok (s : signal_info) : Prop :=
  s_flags s ≠ 0 ∨ (∃ n, deliverable s n) → signal_pending s = true.

Record si_ok (s : signal_info) : Prop := {
  ok_sets : sets_ok s;
  ok_q : queue_ok s;
  ok_flag : flag_ok s;
}.

Lemma pending_internal s :
  sets_ok s → is_signal_pending_internal s = true ↔ ∃ n, deliverable s n.
Proof.
  intros [Hm Hp _ _]. unfold is_signal_pending_internal. rewrite negb_true_iff.
  rewrite sigisempty_spec by (by apply sigand_u64). unfold deliverable. split.
  - intros (n & Hn & H). rewrite member_and_not, andb_true_iff, negb_true_iff in H by done. eauto.
  - intros (n & Hn & H1 & H2). exists n. split; [done|]. by rewrite member_and_not, H1, H2.
Qed.

Lemma update_pending_flag s : sets_ok s → flag_ok (__update_pending s).
Proof.
  intros Hs [Hf|Hd]; unfold __update_pending; simpl.
  - simpl in Hf. by rewrite (proj2 (Z.eqb_neq _ 0)).
  - apply orb_true_iff. right. by apply pending_internal.
Qed.

Lemma update_pending_ok s : sets_ok s → queue_ok s → si_ok (__update_pending s).
Proof.
  intros Hs Hq. split; [destruct Hs; by split|destruct Hq; by split|by apply update_pending_flag].
Qed.

(** ** The operations of [struct signal_info] *)

Lemma mask_ok s m :
  sets_ok s → is_u64 m → sigismember m SIGKILL = false → sigismember m SIGSTOP = false →
  sets_ok (set_sigmask s m).
Proof. intros []. by split. Qed.

Lemma del_kill_stop m :
  is_u64 m → let m' := sigdelset (sigdelset m SIGKILL) SIGSTOP in
  is_u64 m' ∧ sigismember m' SIGKILL = false ∧ sigismember m' SIGSTOP = false.
Proof.
  intros Hm m'. unfold m'. split; [auto with signals|].
  rewrite !member_del by auto with signals. done.
Qed.

Lemma add_blocked_ok s b : si_ok s → is_u64 b → si_ok (__add_blocked b true s).2.
Proof.
  intros [Hs Hq _] Hb. apply update_pending_ok; [|destruct Hq; by split].
  destruct (del_kill_stop (sigorset (sigmask s) b)) as (? & ? & ?).
  { apply sigor_u64; [apply Hs|done]. }
  by apply mask_ok.
Qed.

Lemma set_blocked_ok s b : si_ok s → is_u64 b → si_ok (set_blocked b true s).2.
Proof.
  intros [Hs Hq _] Hb. apply update_pending_ok; [|destruct Hq; by split].
  destruct (del_kill_stop b Hb) as (? & ? & ?). by apply mask_ok.
Qed.

Lemma unblock_ok s b : si_ok s → si_ok (unblock b true s).2.
Proof.
  intros [Hs Hq _]. apply update_pending_ok; [|destruct Hq; by split].
  apply mask_ok; [done|apply sigand_u64, Hs|..]; rewrite member_and_not by done.
  - by rewrite (ok_kill _ Hs).
  - by rewrite (ok_stop _ Hs).
Qed.

(** Adding an entry together with its bit. *)
Lemma enqueue_ok s p :
  sets_ok s → queue_ok s → valid_sig (signum p) →
  let s' := set_pending_set (set_pending_head s (p :: pending_head s)) (sigaddset (pending_set s) (signum p)) in
  sets_ok s' ∧ queue_ok s'.
Proof.
  intros Hs [Hq Hv] Hp s'. split.
  - destruct Hs. split; simpl; auto with signals.
  - split; simpl.
    + intros n Hn. rewrite member_add by (done || apply Hs). intros [->%Z.eqb_eq|Hm]%orb_true_iff.
      * exists p. split; [set_solver|done].
      * destruct (Hq n Hn Hm) as (q & ? & ?). exists q. split; [set_solver|done].
    + intros q [->|Hin]%elem_of_cons; [done|by apply Hv].
Qed.

Lemma add_pending_ok s p : si_ok s → valid_sig (signum p) → si_ok (add_pending p s).2.
Proof.
  intros Hs Hp. unfold add_pending. destruct (_ && _); [done|].
  destruct (enqueue_ok s p (ok_sets _ Hs) (ok_q _ Hs) Hp) as [Hs' Hq']. simpl.
  destruct (sigismember (sigmask s) (signum p)) eqn:Em; simpl; (split; [destruct Hs'; by split|destruct Hq'; by split|]);
    [|by intros _]. intros [Hf|(n & Hn & H1 & H2)]; simpl in *; apply (ok_flag _ Hs); [by left|].
  right. exists n. split; [done|]. split; [|done].
  rewrite member_add in H1 by (done || apply (ok_pset _ (ok_sets _ Hs))).
  apply orb_true_iff in H1 as [->%Z.eqb_eq|?]; [congruence|done].
Qed.

Lemma try_to_route_ok s p : si_ok s → valid_sig (signum p) → si_ok (try_to_route p s).2.
Proof.
  intros Hs Hp. unfold try_to_route. destruct (sigismember (sigmask s) (signum p)); [done|].
  destruct (_ && _); [done|].
  destruct (enqueue_ok s p (ok_sets _ Hs) (ok_q _ Hs) Hp) as [Hs' Hq']. simpl.
  split; [destruct Hs'; by split|destruct Hq'; by split|by intros _].
Qed.

Lemma pop_pending_Some sig l p r :
  pop_pending sig l = Some (p, r) → signum p = sig ∧ p ∈ l ∧ (∀ q, q ∈ r → q ∈ l) ∧
  (∀ q, q ∈ l → signum q ≠ sig → q ∈ r) ∧ length l = S (length r).
Proof.
  revert p r. induction l as [|x l IH]; intros p r; simpl; [done|].
  destruct (Z.eqb_spec (signum x) sig) as [Hx|Hx].
  - intros [= <- <-]. split_and!; [done|set_solver|set_solver| |done].
    intros q [->|?]%elem_of_cons; done.
  - destruct (pop_pending sig l) as [[q r']|]; [|done]. intros [= <- <-].
    destruct (IH q r' eq_refl) as (? & ? & ? & Hk & ->). split_and!; [done|set_solver|set_solver| |done].
    intros y [->|Hy]%elem_of_cons Hne; [set_solver|]. apply elem_of_cons. right. by apply Hk.
Qed.

Lemma pop_pending_None sig l : pop_pending sig l = None ↔ ∀ p, p ∈ l → signum p ≠ sig.
Proof.
  induction l as [|x l IH]; simpl; [set_solver|].
  destruct (Z.eqb_spec (signum x) sig) as [Hx|Hx].
  - split; [done|]. intros H. by destruct (H x); [set_solver|].
  - destruct (pop_pending sig l) as [[q r]|].
    + split; [done|]. intros H. assert (∀ p, p ∈ l → signum p ≠ sig) as H' by set_solver.
      by apply IH in H'.
    + split; [|done]. intros _ p [->|?]%elem_of_cons; [done|]. by apply IH.
Qed.

(** Entries may be left without a bit; a bit is never left without its entry. *)
Lemma signal_unqueue_ok s sig :
  sets_ok s → valid_sig sig → (∀ p, p ∈ pending_head s → valid_sig (signum p)) →
  (∀ n, valid_sig n → n ≠ sig → sigismember (pending_set s) n = true →
     ∃ p, p ∈ pending_head s ∧ signum p = n) →
  si_ok (signal_unqueue sig s).
Proof.
  intros Hs Hv Hval Hq. unfold signal_unqueue, signal_query_pending.
  assert (Hdel : si_ok (__update_pending (set_pending_set s (sigdelset (pending_set s) sig)))).
  { apply update_pending_ok.
    - destruct Hs. split; simpl; auto with signals.
    - split; simpl; [|done]. intros n Hn. rewrite member_del by (done || apply Hs).
      rewrite andb_true_iff, negb_true_iff, Z.eqb_neq. naive_solver. }
  destruct (KERNEL_SIGRTMIN <=? sig); [|done].
  destruct (pop_pending sig (pending_head s)) as [[p r]|] eqn:E; simpl; [|done].
  apply update_pending_ok; [done|]. split; [|done]. intros n Hn Hm.
  destruct (Z.eq_dec n sig) as [->|Hne]; [|by apply Hq].
  apply pop_pending_Some in E as (? & ? & _). eauto.
Qed.

Lemma unqueue_ok s sig : si_ok s → valid_sig sig → si_ok (signal_unqueue sig s).
Proof. intros [Hs [Hq Hv] _] Hsig. apply signal_unqueue_ok; auto. Qed.

Lemma unqueue_stops_ok s : si_ok s → si_ok (unqueue_stops s).
Proof. intros Hs. unfold unqueue_stops. by repeat (apply unqueue_ok; [|done]). Qed.

(** ** The process *)

Record proc_ok (p : sproc) : Prop := {
  po_table : Z.of_nat (length (sigtable p)) = NSIG;
  po_masks : Forall (λ a, is_u64 (sa_mask a)) (sigtable p);
  po_threads : Forall (λ t, si_ok (sinfo t)) (thread_list p);
}.

Definition is_thread (p : sproc) (i : Z) : Prop := 0 <= i < Z.of_nat (length (thread_list p)).

Lemma Forall_aget {A} (P : A → Prop) l i x : Forall P l → aget l i = Some x → P x.
Proof.
  intros Hl. unfold aget. case_match; [|done]. by apply Forall_lookup_1.
Qed.

Lemma Forall_aset {A} (P : A → Prop) l i x l' : Forall P l → P x → aset l i x = Some l' → Forall P l'.
Proof.
  intros Hl Hx. unfold aset. case_match; [|done]. intros [= <-]. by apply Forall_insert.
Qed.

Section rules.
Context (p : sproc).

Lemma wp_get_thread i (Q : sthread → sproc → Prop) :
  is_thread p i → (∀ t, aget (thread_list p) i = Some t → Q t p) → wp (get_thread i) Q p.
Proof.
  intros Hi HQ. unfold get_thread. destruct (aget_is_Some _ _ Hi) as [t Ht].
  wp_steps; [done|by apply HQ].
Qed.

Lemma wp_put_thread i t (Q : unit → sproc → Prop) :
  is_thread p i → (∀ l, aset (thread_list p) i t = Some l → Q tt (set_thread_list p l)) →
  wp (put_thread i t) Q p.
Proof.
  intros Hi HQ. unfold put_thread. do 3 wp_step. wp_step; [by apply aset_is_Some|].
  apply HQ. by apply aset_is_Some.
Qed.

Lemma wp_upd_sinfo i f (Q : unit → sproc → Prop) :
  is_thread p i →
  (∀ t l, aget (thread_list p) i = Some t →
     aset (thread_list p) i (set_sinfo t (f (sinfo t))) = Some l → Q tt (set_thread_list p l)) →
  wp (upd_sinfo i f) Q p.
Proof.
  intros Hi HQ. unfold upd_sinfo. wp_step. apply wp_get_thread; [done|]. intros t Ht.
  apply wp_put_thread; [done|]. intros l Hl. by eapply HQ.
Qed.

Lemma wp_get_action sig (Q : k_sigaction → sproc → Prop) :
  proc_ok p → 0 <= sig < NSIG → (∀ a, aget (sigtable p) sig = Some a → is_u64 (sa_mask a) → Q a p) →
  wp (get_action sig) Q p.
Proof.
  intros Hp Hs HQ. unfold get_action. destruct (aget_is_Some (sigtable p) sig) as [a Ha].
  { rewrite (po_table _ Hp). lia. }
  do 2 wp_step. wp_step; [done|]. apply HQ; [done|].
  by apply (Forall_aget _ _ _ _ (po_masks _ Hp) Ha).
Qed.

Lemma wp_put_action sig a (Q : unit → sproc → Prop) :
  proc_ok p → 0 <= sig < NSIG → is_u64 (sa_mask a) →
  (∀ l, aset (sigtable p) sig a = Some l → proc_ok (set_sigtable p l) → Q tt (set_sigtable p l)) →
  wp (put_action sig a) Q p.
Proof.
  intros Hp Hs Ha HQ. unfold put_action. do 3 wp_step.
  assert (Hset : aset (sigtable p) sig a = Some (<[Z.to_nat sig := a]> (sigtable p))).
  { apply aset_is_Some. rewrite (po_table _ Hp). lia. }
  wp_step; [exact Hset|]. apply HQ; [done|]. destruct Hp as [Ht Hm Hth]. split; simpl; [|..|done].
  - by rewrite length_insert.
  - by apply Forall_insert.
Qed.
End rules.

Lemma proc_ok_put p i t l :
  proc_ok p → si_ok (sinfo t) → aset (thread_list p) i t = Some l → proc_ok (set_thread_list p l).
Proof.
  intros [] Ht Hl. split; simpl; [done|done|]. by eapply Forall_aset.
Qed.

Lemma is_thread_put p i t l j :
  aset (thread_list p) i t = Some l → is_thread (set_thread_list p l) j ↔ is_thread p j.
Proof. intros Hl. unfold is_thread. simpl. by rewrite (length_aset _ _ _ _ Hl). Qed.

Lemma proc_ok_thread p i t : proc_ok p → aget (thread_list p) i = Some t → si_ok (sinfo t).
Proof. intros Hp Ht. by apply (Forall_aget _ _ _ _ (po_threads _ Hp) Ht). Qed.

(** An update of one thread's signal state that keeps its invariant. *)
Lemma wp_upd_ok p i f (Q : unit → sproc → Prop) :
  proc_ok p → is_thread p i → (∀ s, si_ok s → si_ok (f s)) →
  (∀ p', proc_ok p' → sigtable p' = sigtable p → p_cred p' = p_cred p →
     length (thread_list p') = length (thread_list p) → Q tt p') →
  wp (upd_sinfo i f) Q p.
Proof.
  intros Hp Hi Hf HQ. apply wp_upd_sinfo; [done|]. intros t l Ht Hl. apply HQ; [|done|done|].
  - eapply proc_ok_put; [done| |done]. simpl. apply Hf. by eapply proc_ok_thread.
  - simpl. by eapply length_aset.
Qed.

Lemma wake_stopped_ok t : si_ok (sinfo t) → si_ok (sinfo (wake_stopped t)).
Proof.
  intros [Hs Hq _]. unfold wake_stopped.
  destruct (has _ _); simpl; apply update_pending_ok; (destruct Hs, Hq; by split).
Qed.

Lemma wake_all_ok p : proc_ok p → proc_ok (set_thread_list p (wake_stopped <$> thread_list p)).
Proof.
  intros [Ht Hm Hth]. split; simpl; [done|done|]. apply Forall_fmap.
  eapply Forall_impl; [|exact Hth]. intros t. apply wake_stopped_ok.
Qed.

(** Stop, continue and kill signals adjust the threads first. *)
Lemma wp_special p sig i (Q : unit → sproc → Prop) :
  proc_ok p → is_thread p i → valid_sig sig →
  (∀ p', proc_ok p' → sigtable p' = sigtable p → p_cred p' = p_cred p →
     length (thread_list p') = length (thread_list p) → Q tt p') →
  wp (signal_do_special_behaviour sig i) Q p.
Proof.
  intros Hp Hi Hv HQ. unfold signal_do_special_behaviour. wp_step.
  { wp_step. apply wp_upd_ok; [done|done|apply unqueue_stops_ok|]. intros p1 Hp1 Ht1 Hc1 Hl1.
    pose proof (wake_all_ok p1 Hp1) as [H1 H2 H3].
    do 6 wp_step. destruct (has _ _); wp_steps; (apply HQ; [by split|done|done|]);
      simpl; by rewrite length_fmap. }
  wp_step.
  { wp_step. apply wp_get_action; [done|unfold valid_sig, NSIG in *; lia|]. intros a Ha _.
    wp_step; [|by wp_step; apply HQ]. apply wp_upd_ok; [done|done| |done].
    intros s Hs. by apply unqueue_ok. }
  wp_step; [|by wp_step; apply HQ].
  wp_step. apply wp_upd_ok; [done|done|apply unqueue_stops_ok|]. intros p1 Hp1 Ht1 Hc1 Hl1.
  wp_step. apply HQ; [by apply wake_all_ok|done|done|]. simpl. by rewrite length_fmap.
Qed.

Lemma wp_queue_signal p sig i info (Q : unit → sproc → Prop) :
  proc_ok p → is_thread p i → valid_sig sig →
  (∀ p', proc_ok p' → length (thread_list p') = length (thread_list p) → Q tt p') →
  wp (queue_signal sig i info) Q p.
Proof.
  intros Hp Hi Hv HQ. unfold queue_signal. do 4 wp_step.
  set (p1 := set_next_id p (next_id p + 1)).
  assert (Hp1 : proc_ok p1) by (destruct Hp; by split).
  wp_step. apply wp_get_thread; [done|]. intros t Ht.
  pose proof (proc_ok_thread _ _ _ Hp1 Ht) as Hst.
  set (pend := MkPend (next_id p) _ sig).
  destruct (enqueue_ok (sinfo t) pend (ok_sets _ Hst) (ok_q _ Hst) Hv) as [Hs' Hq'].
  simpl. destruct (sigismember (sigmask (sinfo t)) sig) eqn:Em; simpl.
  - apply wp_put_thread; [done|]. intros l Hl. apply HQ; [|simpl; by rewrite (length_aset _ _ _ _ Hl)].
    eapply proc_ok_put; [done| |done]. simpl. split; [done|done|].
    intros [Hf|(n & Hn & H1 & H2)]; simpl in *; apply (ok_flag _ Hst); [by left|].
    right. exists n. split; [done|]. split; [|done].
    rewrite member_add in H1 by (done || apply (ok_pset _ (ok_sets _ Hst))).
    apply orb_true_iff in H1 as [->%Z.eqb_eq|?]; [congruence|done].
  - assert (Hok : ∀ st, proc_ok p1 → ∀ l, aset (thread_list p1) i st = Some l →
      (sinfo st = set_signal_pending (set_pending_set (set_pending_head (sinfo t) (pend :: pending_head (sinfo t)))
         (sigaddset (pending_set (sinfo t)) sig)) true) → Q tt (set_thread_list p1 l)).
    { intros st _ l Hl Hst'. apply HQ; [|simpl; by rewrite (length_aset _ _ _ _ Hl)].
      eapply proc_ok_put; [done| |done]. rewrite Hst'.
      split; [destruct Hs'; by split|destruct Hq'; by split|by intros _]. }
    destruct (_ || _); (apply wp_put_thread; [done|]); intros l Hl; by eapply Hok.
Qed.

(** The default action of the signal can be looked up. *)
Definition dfl_safe (p : sproc) (sig : Z) : Prop :=
  sig < 32 ∨ ∀ a, aget (sigtable p) sig = Some a → sa_handler a ≠ SIG_DFL.

Lemma wp_is_signal_ignored p sig (Q : bool → sproc → Prop) :
  proc_ok p → valid_sig sig → dfl_safe p sig → (∀ b, Q b p) → wp (is_signal_ignored sig) Q p.
Proof.
  intros Hp Hv Hd HQ. unfold is_signal_ignored. wp_step.
  apply wp_get_action; [done|unfold valid_sig, NSIG in *; lia|]. intros a Ha _.
  wp_step; [by wp_step|]. wp_step; [|by wp_step].
  unfold is_default_ignored, dfl_handler. wp_step.
  destruct (aget_is_Some dfl_signal_handlers sig) as [d Hdf].
  { destruct Hd as [Hd|Hd]; [unfold valid_sig in Hv; simpl; lia|].
    specialize (Hd a Ha). apply Z.eqb_neq in Hd. congruence. }
  wp_step; [exact Hdf|]. by wp_step.
Qed.

(** Sending a signal that is not forced never faults and keeps the invariant. *)
Lemma wp_tkill p oom c sig i flags info (Q : Z → sproc → Prop) :
  proc_ok p → is_thread p i → valid_sig sig → dfl_safe p sig → has flags SIGNAL_FORCE = false →
  (∀ r p', proc_ok p' → length (thread_list p') = length (thread_list p) →
     r = 0 ∨ r = - EPERM ∨ r = - ENOMEM → Q r p') →
  wp (kernel_tkill oom c sig i flags info) Q p.
Proof.
  intros Hp Hi Hv Hd Hnf HQ. unfold kernel_tkill. do 2 wp_step.
  wp_step; [wp_step; apply HQ; auto|].
  wp_step. apply wp_special; [done..|]. intros p1 Hp1 Ht1 Hc1 Hl1.
  assert (Hi1 : is_thread p1 i) by (unfold is_thread in *; by rewrite Hl1).
  wp_step. apply wp_is_signal_ignored; [done|done|unfold dfl_safe; by rewrite Ht1|]. intros ign.
  wp_step. apply wp_get_thread; [done|]. intros t Ht. rewrite Hnf. simpl. do 2 wp_step.
  wp_step; [wp_step; apply HQ; auto; congruence|].
  wp_step. apply wp_get_thread; [done|]. intros t' Ht'.
  wp_step; [wp_step; apply HQ; auto; congruence|].
  wp_step; [wp_step; apply HQ; auto; congruence|].
  wp_step. apply wp_queue_signal; [done..|]. intros p2 Hp2 Hl2. wp_step. apply HQ; auto; congruence.
Qed.

(** ** Finding a signal *)

Lemma signal_find_from_spec n : ∀ i s,
  1 <= i → i + Z.of_nat n <= 65 →
  let r := signal_find_from n i s in
  (r = -1 ∧ ∀ k, i <= k < i + Z.of_nat n → ¬ deliverable s k) ∨
  (i <= r < i + Z.of_nat n ∧ deliverable s r ∧ ∀ k, i <= k < r → ¬ deliverable s k).
Proof.
  induction n as [|n IH]; intros i s Hi Hn; simpl.
  { left. split; [done|]. intros k Hk. lia. }
  destruct (sigismember (pending_set s) i && negb (sigismember (sigmask s) i)) eqn:E.
  - apply andb_true_iff in E as [E1 E2%negb_true_iff]. right. split; [lia|].
    split; [|intros k Hk; lia]. split; [unfold valid_sig; lia|done].
  - assert (Hnot : ¬ deliverable s i).
    { intros (_ & H1 & H2). rewrite H1, H2 in E. done. }
    assert (Hcase : ∀ k, i <= k → k = i ∨ i + 1 <= k) by lia.
    destruct (IH (i + 1) s ltac:(lia) ltac:(lia)) as [[-> Hnone]|(Hr & Hd & Hlow)].
    + left. split; [done|]. intros k [Hk1 Hk2].
      destruct (Hcase k Hk1) as [->|]; [done|]. apply Hnone. lia.
    + right. split; [lia|]. split; [done|]. intros k [Hk1 Hk2].
      destruct (Hcase k Hk1) as [->|]; [done|]. apply Hlow. lia.
Qed.

Lemma signal_find_spec s :
  (signal_find s = -1 ∧ ∀ n, ¬ deliverable s n) ∨
  (deliverable s (signal_find s) ∧ ∀ n, n < signal_find s → ¬ deliverable s n).
Proof.
  destruct (signal_find_from_spec (Z.to_nat (NSIG - 1)) 1 s) as [[Hr Hn]|(Hr & Hd & Hl)]; try done.
  - left. split; [done|]. intros n Hd. apply (Hn n); [|done]. destruct Hd as [Hv _].
    unfold valid_sig, NSIG in *. lia.
  - right. split; [done|]. intros n Hlt Hd'. apply (Hl n); [|done]. destruct Hd' as [Hv _].
    unfold valid_sig, signal_find in *. lia.
Qed.

(** ** Delivery *)

(** The state between the removal of an entry for [sig] and the end of its delivery. *)
Record mid_ok (sig : Z) (s : signal_info) : Prop := {
  mid_sets : sets_ok s;
  mid_valid : ∀ p, p ∈ pending_head s → valid_sig (signum p);
  mid_queue : ∀ n, valid_sig n → n ≠ sig → sigismember (pending_set s) n = true →
                ∃ p, p ∈ pending_head s ∧ signum p = n;
}.

Record proc_mid (p : sproc) (i sig : Z) : Prop := {
  pm_table : Z.of_nat (length (sigtable p)) = NSIG;
  pm_masks : Forall (λ a, is_u64 (sa_mask a)) (sigtable p);
  pm_threads : ∀ k t, aget (thread_list p) k = Some t →
                 if decide (k = i) then mid_ok sig (sinfo t) else si_ok (sinfo t);
}.

Lemma si_ok_mid sig s : si_ok s → mid_ok sig s.
Proof. intros [Hs [Hq Hv] _]. split; auto. Qed.

Lemma Forall_of_aget {A} (P : A → Prop) l : (∀ k x, aget l k = Some x → P x) → Forall P l.
Proof.
  intros H. apply Forall_lookup. intros k x Hk. apply (H (Z.of_nat k)). unfold aget.
  rewrite (proj2 (Z.leb_le _ _)) by lia. by rewrite Nat2Z.id.
Qed.

(** Updates of thread [i] in the middle of a delivery, and at its end. *)
Lemma proc_mid_put p i sig t l :
  proc_mid p i sig → mid_ok sig (sinfo t) → aset (thread_list p) i t = Some l →
  proc_mid (set_thread_list p l) i sig.
Proof.
  intros [] Ht Hl. split; simpl; [done|done|]. intros k x. rewrite (aget_aset _ _ _ _ _ Hl).
  case_decide; [subst|apply pm_threads0]. intros [= <-]. by rewrite decide_True.
Qed.

Lemma proc_mid_end p i sig t l :
  proc_mid p i sig → si_ok (sinfo t) → aset (thread_list p) i t = Some l →
  proc_ok (set_thread_list p l).
Proof.
  intros [Hlen Hm Hth] Ht Hl. split; simpl; [done|done|]. apply Forall_of_aget. intros k x.
  rewrite (aget_aset _ _ _ _ _ Hl). case_decide; [by intros [= <-]|]. intros Hx.
  specialize (Hth k x Hx). by rewrite decide_False in Hth.
Qed.

Lemma proc_ok_mid_put p i sig t l :
  proc_ok p → mid_ok sig (sinfo t) → aset (thread_list p) i t = Some l →
  proc_mid (set_thread_list p l) i sig.
Proof.
  intros Hp Ht Hl. eapply proc_mid_put; [|done|done]. split; [apply Hp|apply Hp|].
  intros k x Hx. pose proof (proc_ok_thread _ _ _ Hp Hx). case_decide; [by apply si_ok_mid|done].
Qed.

Lemma mid_thread p i sig t : proc_mid p i sig → aget (thread_list p) i = Some t → mid_ok sig (sinfo t).
Proof. intros Hp Ht. pose proof (pm_threads _ _ _ Hp i t Ht) as H. by rewrite decide_True in H. Qed.

Lemma wp_get_action_mid p i sig sig' (Q : k_sigaction → sproc → Prop) :
  proc_mid p i sig → 0 <= sig' < NSIG →
  (∀ a, aget (sigtable p) sig' = Some a → is_u64 (sa_mask a) → Q a p) → wp (get_action sig') Q p.
Proof.
  intros [Hlen Hm Hth] Hs HQ. unfold get_action. destruct (aget_is_Some (sigtable p) sig') as [a Ha].
  { rewrite Hlen. lia. }
  do 2 wp_step. wp_step; [done|]. apply HQ; [done|]. by apply (Forall_aget _ _ _ _ Hm Ha).
Qed.

Lemma wp_reset_action p i sig a (b : bool) (Q : unit → sproc → Prop) :
  proc_mid p i sig → valid_sig sig → is_u64 (sa_mask a) →
  (∀ p', proc_mid p' i sig → thread_list p' = thread_list p →
     (∀ k, k ≠ sig → aget (sigtable p') k = aget (sigtable p) k) → Q tt p') →
  wp (if b then put_action sig a else mret tt) Q p.
Proof.
  intros Hp Hv Ha HQ. destruct b; [|by wp_step; apply HQ]. destruct Hp as [Hlen Hm Hth].
  assert (Hset : aset (sigtable p) sig a = Some (<[Z.to_nat sig := a]> (sigtable p))).
  { apply aset_is_Some. rewrite Hlen. unfold valid_sig, NSIG in *. lia. }
  unfold put_action. do 3 wp_step. wp_step; [exact Hset|]. wp_step. apply HQ; [|done|].
  - split; simpl; [by rewrite length_insert|by apply Forall_insert|done].
  - intros k Hk. simpl. rewrite (aget_aset _ _ _ _ _ Hset). by rewrite decide_False.
Qed.

Lemma add_blocked_mid sig s b :
  mid_ok sig s → is_u64 b → mid_ok sig (__add_blocked b true s).2 ∧
  pending_head (__add_blocked b true s).2 = pending_head s ∧
  s_flags (__add_blocked b true s).2 = s_flags s.
Proof.
  intros [Hs Hv Hq] Hb. split; [|done]. simpl.
  destruct (del_kill_stop (sigorset (sigmask s) b)) as (? & ? & ?).
  { apply sigor_u64; [apply Hs|done]. }
  destruct (mask_ok s _ Hs H H0 H1) as []. split; [by split|done|done].
Qed.

(** The end of a delivery restores the invariant. *)
Lemma wp_finish p i sig (Q : unit → sproc → Prop) :
  proc_mid p i sig → is_thread p i → valid_sig sig →
  (∀ p' t t', proc_ok p' → length (thread_list p') = length (thread_list p) →
     aget (thread_list p) i = Some t → aget (thread_list p') i = Some t' →
     pending_head (sinfo t') = pending_head (sinfo t) → s_flags (sinfo t') = s_flags (sinfo t) →
     (∀ k, k ≠ sig → aget (sigtable p') k = aget (sigtable p) k) → Q tt p') →
  wp (finish_delivery sig i) Q p.
Proof.
  intros Hp Hi Hv HQ. unfold finish_delivery. wp_step.
  eapply wp_get_action_mid; [done|unfold valid_sig, NSIG in *; lia|]. intros a Ha Hma. wp_step.
  eapply wp_reset_action; [done|done|done|]. intros p1 Hp1 Hth1 Htab1.
  assert (Hi1 : is_thread p1 i) by (unfold is_thread in *; by rewrite Hth1).
  wp_step. apply wp_upd_sinfo; [done|]. intros t l Ht Hl.
  pose proof (mid_thread _ _ _ _ Hp1 Ht) as Hmid.
  set (nb := if has (sa_flags a) SA_NODEFER then sa_mask a else sigaddset (sa_mask a) sig).
  assert (Hnb : is_u64 nb) by (unfold nb; destruct (has _ _); auto with signals).
  destruct (add_blocked_mid sig (sinfo t) nb Hmid Hnb) as (Hmid2 & Hhead2 & Hfl2).
  pose proof (proc_mid_put _ _ _ (set_sinfo t (__add_blocked nb true (sinfo t)).2) _ Hp1 Hmid2 Hl) as Hp2.
  apply wp_upd_sinfo; [by apply (is_thread_put _ _ _ _ _ Hl)|]. intros t2 l2 Ht2 Hl2.
  simpl in Ht2. rewrite (aget_aset _ _ _ _ _ Hl), decide_True in Ht2 by done. injection Ht2 as <-.
  destruct Hmid2 as [Hs2 Hv2 Hq2].
  assert (Hok : si_ok (signal_unqueue sig (__add_blocked nb true (sinfo t)).2)).
  { by apply signal_unqueue_ok. }
  eapply (HQ _ t (set_sinfo t (signal_unqueue sig (__add_blocked nb true (sinfo t)).2))).
  - eapply (proc_mid_end _ i sig _ l2 Hp2); [|exact Hl2]. exact Hok.
  - simpl. rewrite (length_aset _ _ _ _ Hl2). simpl. by rewrite (length_aset _ _ _ _ Hl), Hth1.
  - by rewrite <- Hth1.
  - simpl. rewrite (aget_aset _ _ _ _ _ Hl2). by rewrite decide_True.
  - simpl. unfold signal_unqueue. by repeat case_match.
  - simpl. unfold signal_unqueue. by repeat case_match.
  - done.
Qed.

Lemma dfl_stop_only (n : nat) :
  dfl_signal_handlers !! n = Some DflStop → (19 <= n <= 22)%nat.
Proof. intros H. do 32 (destruct n as [|n]; [simpl in H; first [discriminate|lia]|]). done. Qed.

Lemma dfl_stop_stopping sig : aget dfl_signal_handlers sig = Some DflStop → signal_is_stopping sig = true.
Proof.
  unfold aget. destruct (Z.leb_spec 0 sig); [|done]. intros Hd%dfl_stop_only.
  unfold signal_is_stopping, SIGSTOP, SIGTSTP, SIGTTIN, SIGTTOU.
  rewrite !orb_true_iff, !Z.eqb_eq. lia.
Qed.

(** The default action of [sig] ends the process. *)
Definition terminates (sig : Z) : Prop :=
  aget dfl_signal_handlers sig = Some DflTerm ∨ aget dfl_signal_handlers sig = Some DflCore.

(** Real-time signals, which the table of default actions does not have, have a
    handler or are ignored. *)
Definition rt_handled (p : sproc) : Prop :=
  ∀ n a, 32 <= n → aget (sigtable p) n = Some a → sa_handler a ≠ SIG_DFL.

Definition always_written : k_sigaction → signal_info → frame_write := λ _ _, Written.

Lemma setup_mid sig a s :
  mid_ok sig s →
  let r := signal_setup_context Written a s in
  r.1 = 0 ∧ mid_ok sig r.2.
Proof.
  intros [[] Hv Hq]. unfold signal_setup_context. simpl. split; [done|].
  destruct (_ && _); split; try done; by split.
Qed.

Section handling.
Context (resume : sproc → sproc).

Lemma wp_deliver p i sig pend depth (Q : delivery → sproc → Prop) :
  proc_mid p i sig → is_thread p i → valid_sig sig → signal_is_stopping sig = false →
  rt_handled p →
  (∀ s p', terminates s → Q (Exited s) p') →
  (∀ p', proc_ok p' → Q Deferred p') →
  (∀ p' t t', proc_ok p' → is_thread p' i → rt_handled p' →
     aget (thread_list p) i = Some t → aget (thread_list p') i = Some t' →
     pending_head (sinfo t') = pending_head (sinfo t) → s_flags (sinfo t') = s_flags (sinfo t) →
     Q Continue p') →
  wp (deliver_signal always_written resume (S depth) sig pend i) Q p.
Proof.
  intros Hp Hi Hv Hns Hrt HE HD HC. cbn [deliver_signal]. wp_step.
  eapply wp_get_action_mid; [done|unfold valid_sig, NSIG in *; lia|]. intros a Ha Hma.
  wp_step.
  - wp_step. apply wp_get_thread; [done|]. intros t Ht.
    destruct (setup_mid sig a (sinfo t) (mid_thread _ _ _ _ Hp Ht)) as [Hr Hmid].
    unfold always_written. set (r := signal_setup_context Written a (sinfo t)) in *.
    wp_step. apply wp_put_thread; [done|]. intros l Hl. rewrite Hr. simpl.
    wp_step. eapply wp_finish; [eapply proc_mid_put; [exact Hp| |exact Hl]; exact Hmid|by apply (is_thread_put _ _ _ _ _ Hl)|done|].
    intros p' t1 t2 Hp' _ _ _ _ _ _. wp_step. by apply HD.
  - apply andb_false_iff in H. unfold signal_uncatcheable in H. rewrite Hns in H.
    wp_step. unfold do_default_signal, dfl_handler. wp_step.
    assert (Hstd : sig < 32).
    { destruct (Z.lt_ge_cases sig 32); [done|]. specialize (Hrt sig a ltac:(lia) Ha).
      destruct H as [H%negb_false_iff%Z.eqb_eq|H]; [done|].
      apply negb_false_iff, Z.eqb_eq in H. unfold SIGKILL in H. lia. }
    destruct (aget_is_Some dfl_signal_handlers sig) as [d Hd]; [unfold valid_sig in *; simpl; lia|].
    wp_step; [exact Hd|]. destruct d; simpl.
    + do 2 wp_step. apply HE. by left.
    + do 2 wp_step. apply HE. by right.
    + wp_step. wp_step. eapply wp_finish; [done..|]. intros p' t1 t2 Hp' Hlen Ht1 Ht2 Hh Hf Htab.
      wp_step. eapply HC; [done| | |done..].
      * unfold is_thread in *. by rewrite Hlen.
      * intros n a' Hn. rewrite Htab by lia. by apply Hrt.
    + apply dfl_stop_stopping in Hd. congruence.
Qed.

(** One thread handles its signals: every turn removes an entry of the queue. *)
Lemma wp_handle_loop fuel : ∀ p i t depth (Q : handled → sproc → Prop),
  proc_ok p → rt_handled p → is_thread p i → aget (thread_list p) i = Some t →
  has (s_flags (sinfo t)) THREAD_SIGNAL_STOPPING = false →
  (∀ q, q ∈ pending_head (sinfo t) → signal_is_stopping (signum q) = false) →
  (length (pending_head (sinfo t)) < fuel)%nat →
  (∀ s p', terminates s → Q (HExited s) p') → (∀ p', Q HThreadExit p') →
  (∀ p', proc_ok p' → Q HReturn p') →
  wp (handle_loop always_written resume fuel (S depth) i) Q p.
Proof.
  induction fuel as [|fuel IH]; intros p i t depth Q Hp Hrt Hi Ht Hns Hq Hf HE HX HR; [lia|].
  cbn [handle_loop]. wp_step. apply wp_get_thread; [done|]. intros t0 Ht0.
  rewrite Ht in Ht0. injection Ht0 as <-. rewrite Hns. wp_step; [by wp_step|].
  pose proof (proc_ok_thread _ _ _ Hp Ht) as Hok.
  destruct (signal_find_spec (sinfo t)) as [[-> _]|[Hd _]]; [simpl; wp_step; by apply HR|].
  destruct Hd as (Hv & Hm & _). rewrite (proj2 (Z.ltb_ge _ 0)) by (unfold valid_sig in Hv; lia).
  set (sig := signal_find (sinfo t)) in *. unfold signal_query_pending.
  destruct (pop_pending sig (pending_head (sinfo t))) as [[q l]|] eqn:Epop; simpl; cycle 1.
  { exfalso. destruct (ok_queue _ (ok_q _ Hok) sig Hv Hm) as (q & Hin & Hsig).
    by apply (proj1 (pop_pending_None _ _) Epop q). }
  pose proof (pop_pending_Some _ _ _ _ Epop) as (Hqs & Hqin & Hsub & Hkeep & Hlen).
  wp_step. wp_step. wp_step. apply wp_put_thread; [done|]. intros ts Hts.
  assert (Hmid : mid_ok sig (set_pending_head (sinfo t) l)).
  { destruct Hok as [[] [Hoq Hov] _]. split; simpl; [by split|by auto|].
    intros n Hn Hne Hmem. destruct (Hoq n Hn Hmem) as (x & Hx & Hxs). exists x.
    split; [apply Hkeep; congruence|done]. }
  assert (Hget : aget ts i = Some (set_sinfo t (set_pending_head (sinfo t) l))).
  { rewrite (aget_aset _ _ _ _ _ Hts). by rewrite decide_True. }
  wp_step. eapply (wp_deliver _ i sig q depth).
  - eapply proc_ok_mid_put; [exact Hp| |exact Hts]. exact Hmid.
  - by apply (is_thread_put _ _ _ _ _ Hts).
  - done.
  - rewrite <- Hqs. by apply Hq.
  - done.
  - intros s p' Hs. wp_step. by apply HE.
  - intros p' Hp'. wp_step. by apply HR.
  - intros p' t1 t2 Hp' Hi' Hrt' Ht1 Ht2 Hh Hfl. simpl in Ht1. rewrite Hget in Ht1. injection Ht1 as <-.
    simpl in Hh, Hfl. eapply (IH p' i t2); try done.
    + by rewrite Hfl.
    + rewrite Hh. intros x Hx. apply Hq. by apply Hsub.
    + rewrite Hh. lia.
Qed.
End handling.
