(* ===== verification/SignalProps.v ===== *)
(** * SignalProps: the properties of signals. *)

From S2P Require Import Prelude Bits Abi Cred Signal SignalFacts.

(** ** Runs of a process *)

Inductive sig_op : Type :=
  | SoTkill (oom : bool) (c : creds) (sig i flags : Z) (info : option siginfo)
  | SoRaise (oom : bool) (c : creds) (sig flags : Z) (info : option siginfo)
  | SoAction (sig : Z) (act : uptr k_sigaction) (oldact : uptr unit)
  | SoMask (i how : Z) (set : uptr Z) (oldset : uptr unit) (size : Z)
  | SoExec (i : Z)
  | SoHandle (fuel depth : nat) (i : Z).

Definition run_sig (op : sig_op) : PM unit :=
  match op with
  | SoTkill oom c sig i flags info => _ ← kernel_tkill oom c sig i flags info; mret tt
  | SoRaise oom c sig flags info => _ ← kernel_raise_signal oom c sig flags info; mret tt
  | SoAction sig act oldact => _ ← sys_sigaction sig act oldact; mret tt
  | SoMask i how set oldset size => _ ← sys_sigprocmask i how set oldset size; mret tt
  | SoExec i => signal_do_execve i
  | SoHandle fuel depth i =>
      r ← handle_signal always_written id fuel (S depth) false i;
      match r with HReturn => mret tt | _ => crash Unreachable end
  end.

(** The arguments the callers give, and what delivery needs: frames can be written,
    and the thread has no stop signal to take. *)
Definition sig_op_ok (p : sproc) (op : sig_op) : Prop :=
  match op with
  | SoTkill _ _ sig i flags _ =>
      is_thread p i ∧ valid_sig sig ∧ dfl_safe p sig ∧ has flags SIGNAL_FORCE = false
  | SoRaise _ _ sig flags _ =>
      thread_list p ≠ [] ∧ valid_sig sig ∧ dfl_safe p sig ∧ has flags SIGNAL_FORCE = false
  | SoAction _ act _ => match act with UBuf a => is_u64 (sa_mask a) | _ => True end
  | SoMask i _ set _ _ => is_thread p i ∧ match set with UBuf k => is_u64 k | _ => True end
  | SoExec i => is_thread p i
  | SoHandle fuel _ i =>
      rt_handled p ∧ ∃ t, aget (thread_list p) i = Some t ∧
        has (s_flags (sinfo t)) THREAD_SIGNAL_STOPPING = false ∧
        (∀ q, q ∈ pending_head (sinfo t) → signal_is_stopping (signum q) = false) ∧
        (length (pending_head (sinfo t)) < fuel)%nat
  end.

Inductive sig_reach (p : sproc) : sproc → Prop :=
  | sr_refl : sig_reach p p
  | sr_step p1 op p2 : sig_reach p p1 → sig_op_ok p1 op → run_sig op p1 = Done (tt, p2) →
      sig_reach p p2.

Lemma first_unblocked_range sig l : ∀ i k,
  first_unblocked sig i l = Some k → i <= k < i + Z.of_nat (length l).
Proof.
  induction l as [|t l IH]; intros i k; simpl; [done|].
  destruct (negb _); [intros [= <-]; lia|]. intros H%IH. lia.
Qed.

Lemma wp_raise p oom c sig flags info (Q : Z → sproc → Prop) :
  proc_ok p → thread_list p ≠ [] → valid_sig sig → dfl_safe p sig → has flags SIGNAL_FORCE = false →
  (∀ r p', proc_ok p' → r = 0 ∨ r = - EPERM ∨ r = - ENOMEM → Q r p') →
  wp (kernel_raise_signal oom c sig flags info) Q p.
Proof.
  intros Hp Hne Hv Hd Hnf HQ. unfold kernel_raise_signal. do 2 wp_step.
  assert (Hlen : 0 < Z.of_nat (length (thread_list p))) by (destruct (thread_list p); simpl; [done|lia]).
  destruct (first_unblocked sig 0 (thread_list p)) as [k|] eqn:E.
  - do 2 wp_step. apply first_unblocked_range in E.
    apply wp_tkill; auto; unfold is_thread; lia.
  - do 2 wp_step. wp_step; [by rewrite bool_decide_false|]. wp_step.
    apply wp_tkill; auto; unfold is_thread; lia.
Qed.

Lemma sigaction_ok p sig act oldact :
  proc_ok p → match act with UBuf a => is_u64 (sa_mask a) | _ => True end →
  wp (sys_sigaction sig act oldact) (λ _, proc_ok) p.
Proof.
  intros Hp Hact. unfold sys_sigaction. destruct (is_valid_signal sig) eqn:Ev; simpl; [|by wp_steps].
  apply is_valid_signal_spec in Ev. assert (Hr : 0 <= sig < NSIG) by (unfold valid_sig, NSIG in *; lia).
  assert (Hget : ∀ k : k_sigaction → PM (Z * option k_sigaction), (∀ old, wp (k old) (λ _, proc_ok) p) → wp (get_action sig ≫= k) (λ _, proc_ok) p).
  { intros k Hk. wp_step. apply wp_get_action; [done|done|]. intros old _ _. apply Hk. }
  destruct act as [| |news], oldact; try (by wp_steps); simpl;
    try (wp_step; [by wp_step|]); apply Hget; intros old; wp_step;
    try (wp_step; by wp_steps); (apply wp_put_action; [done..|]); intros l _ Hp2; by wp_steps.
Qed.

Lemma sigprocmask_ok p i how set oldset size :
  proc_ok p → is_thread p i → match set with UBuf k => is_u64 k | _ => True end →
  wp (sys_sigprocmask i how set oldset size) (λ _, proc_ok) p.
Proof.
  intros Hp Hi Hset. unfold sys_sigprocmask. destruct (negb _); [by wp_steps|].
  wp_step. apply wp_get_thread; [done|]. intros t Ht. wp_step.
  assert (Hupd : ∀ f, (∀ s, si_ok s → si_ok (f s)) →
            wp (_ ← upd_sinfo i f; mret 0) (λ _, proc_ok) p).
  { intros f Hf. wp_step. apply wp_upd_ok; [done..|]. intros p1 Hp1 _ _ _. by wp_step. }
  apply (wp_mono _ (λ _, proc_ok)).
  - destruct set as [| |k]; [by wp_step..|].
    wp_step; [apply Hupd; intros; by apply add_blocked_ok|].
    wp_step; [apply Hupd; intros; by apply unblock_ok|].
    wp_step; [apply Hupd; intros; by apply set_blocked_ok|]. by wp_step.
  - intros r p1 Hp1. destruct (r <? 0); [by wp_steps|]. destruct oldset; by wp_steps.
Qed.

Lemma execve_ok p i : proc_ok p → is_thread p i → wp (signal_do_execve i) (λ _, proc_ok) p.
Proof.
  intros Hp Hi. unfold signal_do_execve. do 2 wp_step. apply wp_upd_ok; [|done|..|by intros].
  - destruct Hp as [Hl Hm Ht]. split; simpl; [by rewrite length_fmap| |done].
    apply Forall_fmap. eapply Forall_impl; [|exact Hm]. done.
  - intros s0 [[] [] Hfl]. split; [by split|by split|exact Hfl].
Qed.

Lemma wp_handle_signal resume p i t fuel depth (Q : handled → sproc → Prop) :
  proc_ok p → rt_handled p → aget (thread_list p) i = Some t →
  has (s_flags (sinfo t)) THREAD_SIGNAL_STOPPING = false →
  (∀ q, q ∈ pending_head (sinfo t) → signal_is_stopping (signum q) = false) →
  (length (pending_head (sinfo t)) < fuel)%nat →
  (∀ s p', terminates s → Q (HExited s) p') → (∀ p', Q HThreadExit p') →
  (∀ p', proc_ok p' → Q HReturn p') →
  wp (handle_signal always_written resume fuel (S depth) false i) Q p.
Proof.
  intros Hp Hrt Ht Hns Hq Hf HE HX HR. pose proof (aget_Some_lt _ _ _ Ht) as Hi.
  unfold handle_signal. wp_step. apply wp_upd_sinfo; [done|]. intros t0 l Ht0 Hl.
  rewrite Ht in Ht0. injection Ht0 as <-.
  eapply (wp_handle_loop resume fuel _ i (set_sinfo t (set_times_interrupted (sinfo t) (u64 (times_interrupted (sinfo t) + 1)))) depth).
  - eapply proc_ok_put; [done| |exact Hl]. destruct (proc_ok_thread _ _ _ Hp Ht) as [[] [] Hfl].
    split; [by split|by split|exact Hfl].
  - done.
  - by apply (is_thread_put _ _ _ _ _ Hl).
  - simpl. rewrite (aget_aset _ _ _ _ _ Hl). by rewrite decide_True.
  - done.
  - done.
  - done.
  - done.
  - done.
  - done.
Qed.

Lemma run_sig_ok p op :
  proc_ok p → sig_op_ok p op → ∀ p', run_sig op p = Done (tt, p') → proc_ok p'.
Proof.
  intros Hp Hop p' Hrun.
  assert (Hw : wp (run_sig op) (λ _, proc_ok) p ∨ run_sig op p = Fault Unreachable).
  { destruct op as [oom c sig i flags info|oom c sig flags info|sig act oldact|i how set oldset size|i|fuel depth i];
      cbn [run_sig sig_op_ok] in Hop |- *.
    - left. destruct Hop as (? & ? & ? & ?). wp_step. apply wp_tkill; auto.
    - left. destruct Hop as (? & ? & ? & ?). wp_step. apply wp_raise; auto.
    - left. wp_step. eapply wp_mono; [by apply sigaction_ok|]. intros. by wp_step.
    - left. destruct Hop. wp_step. eapply wp_mono; [by apply sigprocmask_ok|]. intros. by wp_step.
    - left. by apply execve_ok.
    - destruct Hop as (Hrt & t & Ht & Hns & Hq & Hf).
      assert (Hh : wp (handle_signal always_written id fuel (S depth) false i)
                     (λ r p', r = HReturn → proc_ok p') p).
      { eapply wp_handle_signal; eauto; done. }
      rewrite wp_done in Hh. destruct Hh as (r & p1 & E & Hr). unfold mbind, M_bind, wp. rewrite E.
      destruct r; [by right|by right|left; by apply Hr]. }
  destruct Hw as [Hw|Hw]; [|congruence]. unfold wp in Hw. by rewrite Hrun in Hw.
Qed.

(** ** A concrete process *)

Definition demo_info : siginfo := MkInfo 10 SI_USER 7 1000 0.
(** One thread that blocks SIGUSR1 and has SIGCHLD and SIGUSR2 pending, with a handler
    for SIGUSR2. *)
Definition demo_thread : sthread :=
  MkThread 3 THREAD_INTERRUPTIBLE 0
    (MkSi 0x200 0x10800 [MkPend 2 demo_info 17; MkPend 1 demo_info 12] 0 0 true
       (MkStack 0 0 SS_DISABLE) 0).
Definition demo_table : list k_sigaction :=
  <[34%nat := MkSa 0x400000 0 0 0]> (<[12%nat := MkSa 0x400000 SA_SIGINFO 0x4000 0x500000]>
    (replicate 65 (MkSa SIG_IGN 0 0 0))).
Definition demo_proc : sproc :=
  MkProc 7 demo_table [demo_thread] 0 (MkCreds 1000 1000 100 100 1000 100 None) [] 3.

Lemma demo_proc_ok : proc_ok demo_proc.
Proof.
  split; [done| |].
  - unfold demo_proc, demo_table. cbn [sigtable].
    by apply Forall_insert; [apply Forall_insert; [apply Forall_replicate|]|].
  - constructor; [|constructor]. simpl. split.
    + by split.
    + split; simpl.
      * intros n Hn Hm. rewrite sigismember_testbit in Hm by done.
        assert (Hc : n = 12 ∨ n = 17).
        { unfold valid_sig in Hn. assert (Hnat : ∃ k, n = Z.of_nat k ∧ (1 <= k <= 64)%nat).
          { exists (Z.to_nat n). lia. }
          destruct Hnat as (k & -> & Hk). do 65 (destruct k as [|k]; [by (vm_compute in Hm; first [discriminate|tauto|lia])|]). lia. }
        destruct Hc as [->| ->]; [exists (MkPend 1 demo_info 12)|exists (MkPend 2 demo_info 17)];
          (split; [set_solver|done]).
      * intros q Hq. apply elem_of_cons in Hq as [->|Hq]; [done|]. apply list_elem_of_singleton in Hq as ->. done.
    + done.
Qed.

(** C28: The signal state stays consistent.  In every state a process reaches by sending
    signals without SIGNAL_FORCE (real-time signals only where they have a handler), by
    sigaction, sigprocmask and execve, and by handling signals where frames can be written,
    no stop signal is queued and the thread is not stopping: a pending signal has a queued
    entry, SIGKILL and SIGSTOP are not blocked, and no signal is lost, since a thread with a
    deliverable signal has [signal_pending] set. *)
Theorem signal_state_consistent p p' t :
  proc_ok p → sig_reach p p' → t ∈ thread_list p' →
  (∀ n, valid_sig n → sigismember (pending_set (sinfo t)) n = true →
     ∃ q, q ∈ pending_head (sinfo t) ∧ signum q = n) ∧
  sigismember (sigmask (sinfo t)) SIGKILL = false ∧
  sigismember (sigmask (sinfo t)) SIGSTOP = false ∧
  (∀ n, deliverable (sinfo t) n → signal_pending (sinfo t) = true).
Proof.
  intros Hp Hr Ht. assert (Hp' : proc_ok p').
  { clear Ht. induction Hr as [|p1 op p2 Hr IH Hop Hx]; [done|].
    by eapply run_sig_ok; [exact IH|..]. }
  pose proof (proj1 (Forall_forall _ _) (po_threads _ Hp') t (proj1 (list_elem_of_In _ _) Ht)) as [[] [] Hfl].
  split_and!; try done. intros n Hn. apply Hfl. right. by exists n.
Qed.

(** The process is sent a real-time signal it handles, and then blocks SIGUSR2. *)
Definition demo_sent : sproc :=
  match run_sig (SoTkill false (p_cred demo_proc) 34 0 0 None) demo_proc with Done (_, p) => p | Fault _ => demo_proc end.
Definition demo_masked : sproc :=
  match run_sig (SoMask 0 SIG_BLOCK (UBuf 0x800) UNull 8) demo_sent with Done (_, p) => p | Fault _ => demo_sent end.

Lemma demo_masked_reached : sig_reach demo_proc demo_masked.
Proof.
  eapply (sr_step _ demo_sent (SoMask 0 SIG_BLOCK (UBuf 0x800) UNull 8)); [|by split|by vm_compute].
  eapply (sr_step _ demo_proc (SoTkill false (p_cred demo_proc) 34 0 0 None)); [constructor| |by vm_compute].
  split_and!; [by vm_compute|by unfold valid_sig|right|done]. intros a Ha. vm_compute in Ha. by injection Ha as <-.
Qed.

Lemma signal_state_consistent_witness :
  ∃ t, thread_list demo_masked = [t] ∧ signum <$> pending_head (sinfo t) = [34; 17; 12] ∧
    sigismember (sigmask (sinfo t)) 12 = true ∧ sigismember (sigmask (sinfo t)) SIGKILL = false ∧
    signal_pending (sinfo t) = true.
Proof.
  destruct (thread_list demo_masked) as [|t l] eqn:E; [by vm_compute in E|]. exists t.
  destruct (signal_state_consistent demo_proc demo_masked t) as (_ & Hk & _ & Hd);
    [apply demo_proc_ok|apply demo_masked_reached|rewrite E; by left|].
  assert (l = []) as -> by (vm_compute in E; by injection E as _ <-).
  vm_compute in E. injection E as E. split; [done|]. subst t. split; [reflexivity|]. split; [reflexivity|]. split; [exact Hk|].
  apply (Hd 34). split_and!; [by unfold valid_sig|reflexivity|reflexivity].
Defined.

(** C30: Handling signals always ends.  A thread whose process has no default action to look
    up for a real-time signal, that is not stopped and has no stop signal queued, and
    whose signal frames can be written, gets out of [handle_signal] after at most one
    turn per queued entry; the assertion that a pending signal has an entry holds in each
    turn, the process is terminated only by a signal whose default action says so, and
    the signal state is consistent on return to user space. *)
Theorem handle_signal_total resume p i t fuel depth :
  proc_ok p → rt_handled p → aget (thread_list p) i = Some t →
  has (s_flags (sinfo t)) THREAD_SIGNAL_STOPPING = false →
  (∀ q, q ∈ pending_head (sinfo t) → signal_is_stopping (signum q) = false) →
  (length (pending_head (sinfo t)) < fuel)%nat →
  wp (handle_signal always_written resume fuel (S depth) false i)
     (λ r p', match r with
              | HExited s => terminates s
              | HThreadExit => True
              | HReturn => proc_ok p'
              end) p.
Proof. intros. by eapply wp_handle_signal. Qed.

Lemma demo_rt_handled : rt_handled demo_proc.
Proof.
  intros n a Hn Ha. pose proof (aget_Some_lt _ _ _ Ha) as Hr. unfold aget in Ha.
  rewrite (proj2 (Z.leb_le _ _)) in Ha by lia. unfold demo_proc, demo_table in Ha. cbn [sigtable] in Ha.
  rewrite list_lookup_insert in Ha. case_decide; [by simplify_eq|].
  rewrite list_lookup_insert_ne in Ha by lia. by apply lookup_replicate in Ha as [-> _].
Qed.

Lemma handle_signal_total_witness :
  wp (handle_signal always_written id 3 1 false 0)
     (λ r p', match r with
              | HExited s => terminates s
              | HThreadExit => True
              | HReturn => proc_ok p'
              end) demo_proc.
Proof.
  apply (handle_signal_total id demo_proc 0 demo_thread 3 0);
    [apply demo_proc_ok|apply demo_rt_handled|reflexivity|reflexivity| |simpl; lia].
  intros q Hq. apply elem_of_cons in Hq as [->|Hq]; [reflexivity|].
  apply list_elem_of_singleton in Hq as ->. reflexivity.
Defined.

(** [signal_find] returns the lowest-numbered signal that is pending and not blocked, or
    -1 when there is none. *)
Theorem signal_find_lowest s :
  (signal_find s = -1 ∧ ∀ n, ¬ deliverable s n) ∨
  (deliverable s (signal_find s) ∧ ∀ n, n < signal_find s → ¬ deliverable s n).
Proof. apply signal_find_spec. Qed.

(** ** Masks *)

Lemma mask_word_eq a b :
  is_u64 a → is_u64 b → (∀ n, valid_sig n → sigismember a n = sigismember b n) → a = b.
Proof.
  intros Ha Hb H. apply Z.bits_inj'. intros i Hi. destruct (Z.lt_ge_cases i 64).
  - specialize (H (i + 1) ltac:(unfold valid_sig; lia)).
    rewrite !sigismember_testbit in H by (done || unfold valid_sig; lia).
    by replace (i + 1 - 1) with i in H by lia.
  - by rewrite !is_u64_high.
Qed.

(** A mask is restored.  Blocking any set and then setting the mask that the call
    returned gives back the original signal mask; in between, exactly the signals of the
    old mask and of the set are blocked, without SIGKILL and SIGSTOP. *)
Theorem block_then_restore s kset :
  sets_ok s → is_u64 kset →
  let r := __add_blocked kset true s in
  (∀ n, valid_sig n → sigismember (sigmask r.2) n =
     negb (signal_is_unblockable n) && (sigismember (sigmask s) n || sigismember kset n)) ∧
  sigmask (set_blocked r.1 true r.2).2 = sigmask s.
Proof.
  intros [Hm Hp Hk Hst] Hset. simpl. split.
  - intros n Hn. rewrite !member_del by auto with signals. rewrite member_or by done.
    unfold signal_is_unblockable. rewrite negb_orb. by rewrite <- andb_assoc.
  - apply mask_word_eq; [auto with signals|done|]. intros n Hn.
    rewrite !member_del by auto with signals.
    destruct (Z.eqb_spec n SIGSTOP) as [->|]; [done|]. destruct (Z.eqb_spec n SIGKILL) as [->|]; done.
Qed.

Lemma block_then_restore_witness :
  let s := sinfo demo_thread in
  let r := __add_blocked ULONG_MAX true s in
  (∀ n, valid_sig n → sigismember (sigmask r.2) n =
     negb (signal_is_unblockable n) && (sigismember (sigmask s) n || sigismember ULONG_MAX n)) ∧
  sigmask (set_blocked r.1 true r.2).2 = sigmask s.
Proof.
  apply (block_then_restore (sinfo demo_thread) ULONG_MAX);
    [split; [split; vm_compute; congruence|split; vm_compute; congruence|reflexivity|reflexivity]|].
  split; vm_compute; congruence.
Defined.

(** sigsuspend does not wait.  Its preparation marks the thread in a way that the
    pending flag counts as a pending signal, so the wait that follows returns at once
    with EINTR, whatever the mask and the pending signals are. *)
Theorem sigsuspend_never_sleeps set s : wait_would_sleep (sigsuspend_prepare set s) = false.
Proof.
  unfold wait_would_sleep, sigsuspend_prepare, set_blocked, maybe_update, __update_pending. simpl.
  rewrite (proj2 (Z.eqb_neq _ 0)); [done|]. intros [_ H]%Z.lor_eq_0_iff. done.
Qed.

(** ** Delivery when the frame cannot be written *)

Definition never_written : k_sigaction → signal_info → frame_write := λ _ _, FailsEarly.

Lemma deliver_unwritable resume fuel : ∀ p sig i pend t a b,
  aget (thread_list p) i = Some t →
  aget (sigtable p) sig = Some a → sa_handler a ≠ SIG_DFL → signal_uncatcheable sig = false →
  aget (sigtable p) SIGSEGV = Some b → sa_handler b ≠ SIG_DFL → signum pend ≠ SIGSEGV →
  deliver_signal never_written resume fuel sig pend i p = Fault OutOfFuel.
Proof.
  induction fuel as [|fuel IH]; intros p sig i pend t a b Ht Ha Hha Hu Hb Hhb Hne; [done|].
  cbn [deliver_signal]. unfold mbind, M_bind, get_action, get_thread, put_thread, gets, from_opt, mret, M_ret.
  unfold mbind, M_bind, gets, modify. rewrite Ha, Hu, (proj2 (Z.eqb_neq _ _) Hha). cbn [negb andb]. rewrite Ht.
  rewrite aset_is_Some by (by eapply aget_Some_lt). cbn [signal_setup_context never_written fst].
  rewrite (proj2 (Z.eqb_neq _ _) Hne).
  change (- EFAULT <? 0) with true. cbn iota.
  cbn beta.   erewrite (IH _ SIGSEGV i _ _ b b); [done|..]; try done.
  simpl. unfold aget. pose proof (aget_Some_lt _ _ _ Ht). rewrite (proj2 (Z.leb_le _ _)) by lia.
  apply list_lookup_insert_eq. lia.
Qed.

(** An unwritable signal frame makes delivery recurse forever.  When the frame of a
    caught signal other than SIGSEGV cannot be written and SIGSEGV is caught too,
    [deliver_signal] and [force_sigsegv] call each other without end: no depth of
    recursion is enough, because the entry keeps its original signal number. *)
Theorem unwritable_frame_recurses resume fuel p sig i pend t a b :
  aget (thread_list p) i = Some t →
  aget (sigtable p) sig = Some a → sa_handler a ≠ SIG_DFL → signal_uncatcheable sig = false →
  aget (sigtable p) SIGSEGV = Some b → sa_handler b ≠ SIG_DFL → signum pend ≠ SIGSEGV →
  deliver_signal never_written resume fuel sig pend i p = Fault OutOfFuel.
Proof. apply deliver_unwritable. Qed.

Definition segv_proc : sproc :=
  set_sigtable demo_proc (<[11%nat := MkSa 0x400100 0 0 0]> demo_table).

Lemma unwritable_frame_recurses_witness :
  deliver_signal never_written id 50 12 (MkPend 1 demo_info 12) 0 segv_proc = Fault OutOfFuel.
Proof.
  apply (unwritable_frame_recurses id 50 segv_proc 12 0 (MkPend 1 demo_info 12) demo_thread
           (MkSa 0x400000 SA_SIGINFO 0x4000 0x500000) (MkSa 0x400100 0 0 0));
    try reflexivity; discriminate.
Defined.

(** ** Forced signals *)

(** A forced signal can get lost.  If a blocked signal is already pending when the kernel
    forces it, [kernel_tkill] unblocks it and returns success without raising
    [signal_pending]: the signal is deliverable but the thread does not notice. *)
Theorem forced_signal_lost oom c p i t sig :
  proc_ok p → aget (thread_list p) i = Some t → valid_sig sig → sig < 32 →
  signal_is_stopping sig = false → sig ≠ SIGCONT → sig ≠ SIGKILL →
  sigismember (pending_set (sinfo t)) sig = true → sigismember (sigmask (sinfo t)) sig = true →
  signal_pending (sinfo t) = false →
  wp (kernel_tkill oom c sig i SIGNAL_FORCE None)
     (λ r p', r = 0 ∧ ∃ t', aget (thread_list p') i = Some t' ∧
        deliverable (sinfo t') sig ∧ signal_pending (sinfo t') = false) p.
Proof.
  intros Hp Ht Hv Hstd Hst Hcont Hkill Hpend Hmask Hflag. pose proof (aget_Some_lt _ _ _ Ht) as Hi.
  assert (Hr : 0 <= sig < NSIG) by (unfold valid_sig, NSIG in *; lia).
  unfold kernel_tkill. do 2 wp_step. simpl.
  unfold signal_do_special_behaviour. rewrite Hst.
  rewrite (proj2 (Z.eqb_neq _ _) Hcont), (proj2 (Z.eqb_neq _ _) Hkill). do 2 wp_step.
  wp_step. apply wp_is_signal_ignored; [done|done|by left|]. intros ign. wp_step.
  apply wp_get_thread; [done|]. intros t0 Ht0. rewrite Ht in Ht0. injection Ht0 as <-. rewrite Hmask.
  rewrite orb_true_r. cbn [has SIGNAL_FORCE truthy andb negb]. change (has SIGNAL_FORCE SIGNAL_FORCE) with true.
  cbn [andb negb]. wp_step. unfold do_signal_force_unblock. wp_step.
  apply wp_get_action; [done|done|]. intros a Ha Hma. wp_step.
  apply wp_put_action; [done|done|done|]. intros tab Htab Hp1.
  apply wp_upd_sinfo; [done|]. intros t0 l Ht0 Hl. simpl in Ht0, Hl. rewrite Ht in Ht0. injection Ht0 as <-.
  wp_step. apply wp_get_thread; [by apply (is_thread_put _ _ _ _ _ Hl)|]. intros t1 Ht1.
  simpl in Ht1. rewrite (aget_aset _ _ _ _ _ Hl), decide_True in Ht1 by done. injection Ht1 as <-.
  simpl. rewrite Hpend, (proj2 (Z.ltb_lt sig KERNEL_SIGRTMIN)) by done. cbn [andb]. wp_step.
  split; [done|]. eexists. split; [rewrite (aget_aset _ _ _ _ _ Hl); by rewrite decide_True|].
  split; [|done]. split; [done|]. split; [done|]. simpl.
  rewrite member_del by (done || apply (ok_mask _ (ok_sets _ (proc_ok_thread _ _ _ Hp Ht)))).
  by rewrite Z.eqb_refl.
Qed.

Definition lost_thread : sthread :=
  MkThread 3 THREAD_RUNNABLE 0
    (MkSi 0x400 0x400 [MkPend 1 demo_info 11] 0 0 false (MkStack 0 0 SS_DISABLE) 0).
Definition lost_proc : sproc := set_thread_list segv_proc [lost_thread].

Lemma lost_proc_ok : proc_ok lost_proc.
Proof.
  destruct demo_proc_ok as [Hl Hm _]. split.
  - done.
  - unfold lost_proc, segv_proc. cbn [sigtable set_thread_list set_sigtable]. by apply Forall_insert.
  - constructor; [|constructor]. simpl. split; [by split|split; simpl|].
    + intros n Hn Hmem. rewrite sigismember_testbit in Hmem by done.
      change 0x400 with (2 ^ 10) in Hmem. rewrite Z.pow2_bits_eqb in Hmem by done.
      apply Z.eqb_eq in Hmem. assert (n = 11) as -> by lia.
      exists (MkPend 1 demo_info 11). split; [set_solver|done].
    + intros q Hq. apply list_elem_of_singleton in Hq as ->. done.
    + intros [Hf|(n & Hn & H1 & H2)]; simpl in *; [done|]. congruence.
Qed.

Lemma forced_signal_lost_witness :
  wp (kernel_tkill false (p_cred demo_proc) 11 0 SIGNAL_FORCE None)
     (λ r p', r = 0 ∧ ∃ t', aget (thread_list p') 0 = Some t' ∧
        deliverable (sinfo t') 11 ∧ signal_pending (sinfo t') = false) lost_proc.
Proof.
  apply (forced_signal_lost false (p_cred demo_proc) lost_proc 0 lost_thread 11);
    [apply lost_proc_ok|reflexivity|unfold valid_sig; lia|lia|reflexivity|discriminate|discriminate
    |reflexivity|reflexivity|reflexivity].
Defined.

(** ** Default actions and the signal mask *)

Lemma finish_blocks p i sig a :
  proc_mid p i sig → is_thread p i → valid_sig sig → signal_is_unblockable sig = false →
  aget (sigtable p) sig = Some a → has (sa_flags a) SA_NODEFER = false →
  wp (finish_delivery sig i)
     (λ _ p', ∃ t, aget (thread_list p') i = Some t ∧ sigismember (sigmask (sinfo t)) sig = true) p.
Proof.
  intros Hp Hi Hv Hub Ha Hnd. unfold finish_delivery. wp_step.
  eapply wp_get_action_mid; [done|unfold valid_sig, NSIG in *; lia|]. intros a' Ha' Hma. wp_step.
  rewrite Ha in Ha'. injection Ha' as <-.
  eapply wp_reset_action; [done|done|done|]. intros p1 Hp1 Hth1 _.
  assert (Hi1 : is_thread p1 i) by (unfold is_thread in *; by rewrite Hth1).
  rewrite Hnd. wp_step. apply wp_upd_sinfo; [done|]. intros t l Ht Hl.
  pose proof (ok_mask _ (mid_sets _ _ (mid_thread _ _ _ _ Hp1 Ht))) as Hum.
  apply wp_upd_sinfo; [by apply (is_thread_put _ _ _ _ _ Hl)|]. intros t2 l2 Ht2 Hl2.
  simpl in Ht2. rewrite (aget_aset _ _ _ _ _ Hl), decide_True in Ht2 by done. injection Ht2 as <-.
  eexists. split; [simpl; rewrite (aget_aset _ _ _ _ _ Hl2); by rewrite decide_True|].
  unfold signal_unqueue. simpl. unfold signal_is_unblockable in Hub. apply orb_false_iff in Hub as [H1 H2].
  assert (Hmem : sigismember (sigdelset (sigdelset (sigorset (sigmask (sinfo t)) (sigaddset (sa_mask a) sig)) SIGKILL) SIGSTOP) sig = true).
  { rewrite !member_del by auto with signals. rewrite H1, H2. simpl.
    rewrite member_or, member_add by auto with signals. by rewrite Z.eqb_refl, orb_true_r. }
  by repeat case_match.
Qed.

Lemma aget_imap {A} (f : nat → A → A) l k :
  aget (imap f l) k = f (Z.to_nat k) <$> aget l k.
Proof. unfold aget. case_match; [|done]. by rewrite list_lookup_imap. Qed.

Lemma stop_other_ok t : si_ok (sinfo t) → si_ok (sinfo (stop_other t)).
Proof.
  intros [[] [] _]. unfold stop_other. simpl.
  destruct (t_status t =? THREAD_INTERRUPTIBLE); simpl; (split; [by split|by split|by intros _]).
Qed.

(** Stopping the threads keeps the state that a delivery has. *)
Lemma wp_do_stop resume p i sig n (Q : unit → sproc → Prop) :
  proc_mid p i sig → is_thread p i →
  (∀ q, proc_mid q i sig → is_thread q i →
     proc_mid (resume q) i sig ∧ is_thread (resume q) i ∧ sigtable (resume q) = sigtable q) →
  (∀ p', proc_mid p' i sig → is_thread p' i → sigtable p' = sigtable p → Q tt p') →
  wp (signal_do_stop resume n i) Q p.
Proof.
  intros Hp Hi Hres HQ. unfold signal_do_stop. wp_step. apply wp_get_thread; [done|]. intros t Ht.
  wp_step. apply (wp_mono _ (λ _ q, proc_mid q i sig ∧ is_thread q i ∧ sigtable q = sigtable p)).
  - wp_step; [|by wp_step]. do 2 wp_step.
    set (q := set_thread_list p (imap _ _)).
    assert (Hq : proc_mid q i sig).
    { destruct Hp as [Hl Hm Hth]. split; simpl; [done|done|]. intros k x. rewrite aget_imap.
      destruct (aget (thread_list p) k) as [y|] eqn:Ey; [|done]. intros [= <-].
      specialize (Hth k y Ey). apply aget_Some_lt in Ey. rewrite Z2Nat.id by lia.
      case_decide; [subst; by rewrite Z.eqb_refl|].
      rewrite (proj2 (Z.eqb_neq k i)) by done. by apply stop_other_ok. }
    assert (Hqi : is_thread q i) by (unfold q, is_thread in *; simpl; by rewrite length_imap).
    wp_step. apply wp_upd_sinfo; [done|]. intros t1 l Ht1 Hl. do 3 wp_step.
    assert (Hmid : proc_mid (set_thread_list q l) i sig).
    { eapply proc_mid_put; [exact Hq| |exact Hl].
      destruct (mid_thread _ _ _ _ Hq Ht1) as [[] Hv Hqq]. split; [by split|done|done]. }
    assert (Hi' : is_thread (set_thread_list q l) i) by (by apply (is_thread_put _ _ _ _ _ Hl)).
    split; [|by split]. destruct Hmid. by split.
  - intros [] q (Hq & Hqi & Hqt). wp_step. apply wp_get_thread; [done|]. intros t1 Ht1.
    wp_step. apply wp_put_thread; [done|]. intros l Hl. wp_step.
    destruct (Hres (set_thread_list q l)) as (H1 & H2 & H3).
    { eapply proc_mid_put; [exact Hq| |exact Hl]. exact (mid_thread _ _ _ _ Hq Ht1). }
    { by apply (is_thread_put _ _ _ _ _ Hl). }
    apply HQ; [done|done|]. by rewrite H3.
Qed.

(** A job-control stop can happen only once.  After SIGTSTP, SIGTTIN or SIGTTOU with its
    default action has stopped a thread and the thread runs again, delivery leaves the
    signal in the thread's mask, as if a handler were running: later stop signals of the
    same number stay blocked.  [resume] is any behaviour of the rest of the system that
    keeps the signal state and the action table while the thread is stopped. *)
Theorem stop_leaves_signal_blocked fw resume p i sig pend a depth :
  proc_mid p i sig → is_thread p i → sig ∈ [SIGTSTP; SIGTTIN; SIGTTOU] →
  aget (sigtable p) sig = Some a → has (sa_flags a) SA_NODEFER = false →
  (∀ q, proc_mid q i sig → is_thread q i →
     proc_mid (resume q) i sig ∧ is_thread (resume q) i ∧ sigtable (resume q) = sigtable q) →
  wp (deliver_signal fw resume (S depth) sig pend i)
     (λ r p', r = Continue ∧
        ∃ t, aget (thread_list p') i = Some t ∧ sigismember (sigmask (sinfo t)) sig = true) p.
Proof.
  intros Hp Hi Hsig Ha Hnd Hres. 
  assert (Hfacts : valid_sig sig ∧ signal_uncatcheable sig = true ∧ signal_is_unblockable sig = false ∧
            aget dfl_signal_handlers sig = Some DflStop).
  { rewrite !elem_of_cons, elem_of_nil in Hsig. destruct Hsig as [->|[->|[->|[]]]]; done. }
  destruct Hfacts as (Hv & Hunc & Hunb & Hdfl).
  cbn [deliver_signal]. wp_step. eapply wp_get_action_mid; [done|unfold valid_sig, NSIG in *; lia|].
  intros a' Ha' _. rewrite Ha in Ha'. injection Ha' as <-. rewrite Hunc, andb_false_r. wp_step.
  unfold do_default_signal, dfl_handler. wp_step. wp_step; [exact Hdfl|]. cbn iota. wp_step.
  eapply wp_do_stop; [done|done|done|]. intros p' Hp' Hi' Htab. wp_step. wp_step.
  eapply wp_mono; [eapply (finish_blocks p' i sig a); [done|done|done|done|by rewrite Htab|done]|].
  intros [] p2 Ht2. by wp_step.
Qed.

Definition stop_proc : sproc :=
  set_sigtable demo_proc (<[20%nat := MkSa SIG_DFL 0 0 0]> demo_table).

Lemma stop_leaves_signal_blocked_witness :
  wp (deliver_signal always_written id 1 20 (MkPend 9 demo_info 20) 0)
     (λ r p', r = Continue ∧
        ∃ t, aget (thread_list p') 0 = Some t ∧ sigismember (sigmask (sinfo t)) 20 = true) stop_proc.
Proof.
  apply (stop_leaves_signal_blocked always_written id stop_proc 0 20 (MkPend 9 demo_info 20)
           (MkSa SIG_DFL 0 0 0) 0).
  - destruct demo_proc_ok as [Hl Hm Ht]. split.
    + exact Hl.
    + unfold stop_proc. cbn [sigtable set_sigtable]. apply Forall_insert; [exact Hm|].
      split; vm_compute; congruence.
    + intros k t Hk. pose proof (Forall_aget _ _ _ _ Ht Hk) as Hok.
      destruct (decide (k = 0)); [apply si_ok_mid|]; exact Hok.
  - unfold is_thread. simpl. lia.
  - set_solver.
  - reflexivity.
  - reflexivity.
  - intros q Hq Hqi. split; [exact Hq|split; [exact Hqi|reflexivity]].
Defined.

(** ** Rerouting *)

(** Rerouting frees entries that are queued.  When a dying thread's standard signal is
    routed to a process whose first thread accepts it, [route_signal] queues the entry
    and then reports failure, upon which [reroute_signals] deletes the entry that is now
    on the first thread's list. *)
Theorem route_reports_failure p t ts pend :
  thread_list p = t :: ts → sets_ok (sinfo t) → valid_sig (signum pend) → signum pend < 32 →
  sigismember (sigmask (sinfo t)) (signum pend) = false →
  sigismember (pending_set (sinfo t)) (signum pend) = false →
  wp (route_signal pend)
     (λ r p', r = false ∧ ∃ t', aget (thread_list p') 0 = Some t' ∧ pend ∈ pending_head (sinfo t')) p.
Proof.
  intros Hl Hs Hv Hstd Hm Hp. unfold route_signal. do 2 wp_step. rewrite Hl.
  assert (Hst : signal_is_standard (signum pend) = true).
  { unfold signal_is_standard, signal_is_realtime, KERNEL_SIGRTMIN. lia. }
  do 2 wp_step. rewrite Hl. simpl. unfold try_to_route. rewrite Hm, Hp, andb_false_r. simpl.
  set (t1 := set_sinfo t _). wp_step. apply wp_get_thread; [unfold is_thread; simpl; lia|].
  intros t0 Ht0. simpl in Ht0. injection Ht0 as <-. unfold add_pending. rewrite Hst. simpl.
  rewrite member_add by (done || apply Hs). rewrite Z.eqb_refl. simpl. wp_step.
  apply wp_put_thread; [unfold is_thread; simpl; lia|]. intros l Hset. wp_step. split; [done|].
  exists t1. simpl. rewrite (aget_aset _ _ _ _ _ Hset), decide_True by done.
  split; [reflexivity|]. simpl. set_solver.
Qed.

Lemma route_reports_failure_witness :
  wp (route_signal (MkPend 9 demo_info 15))
     (λ r p', r = false ∧ ∃ t', aget (thread_list p') 0 = Some t' ∧
        MkPend 9 demo_info 15 ∈ pending_head (sinfo t')) demo_proc.
Proof.
  apply (route_reports_failure demo_proc demo_thread [] (MkPend 9 demo_info 15));
    [reflexivity| |unfold valid_sig; simpl; lia|simpl; lia|reflexivity|reflexivity].
  split; [split; vm_compute; congruence|split; vm_compute; congruence|reflexivity|reflexivity].
Defined.
