(* ===== verification/FileTable.v ===== *)
(** * FileTable: open file descriptions and the per-process descriptor table.

    Models kernel/kernel/fs/file.cpp: [struct file] reference counting, the
    descriptor table [struct ioctx] with its two bit maps (open descriptors and
    close-on-exec flags), growth of the table, and the system calls on it.

    The state holds the live [struct file] objects (an address is bound when the
    object is allocated), the inodes they refer to, the current process' table
    and the kernel heap.  The heap is an oracle: the [k]th allocation either fails
    or returns a block whose initial contents the oracle chooses, so memory that
    the code does not initialise has arbitrary contents.  [fd_put] of the last
    reference records the inode and the dentry it releases. *)

From S2P Require Import Prelude Bits Abi Cred.

Definition FDS_PER_LONG : Z := 64.
Definition FILE_DESCRIPTOR_GROW_NR : Z := FDS_PER_LONG.

Record file : Type := MkFile {
  f_refcount : Z; f_seek : Z; f_ino : Z; f_flags : Z; f_dentry : Z
}.

(** [file_desc] is the array of pointers (0 is the null pointer). *)
Record ioctx : Type := MkIoctx {
  cwd : Z;
  fdlock : bool;
  file_desc : list Z;
  file_desc_entries : Z;
  cloexec_fds : list Z;
  open_fds : list Z;
  umask : Z
}.

Record kstate : Type := MkK {
  files : gmap Z file;
  inodes : gmap Z inode;
  ctx : ioctx;
  nofile_cur : Z;              (* get_rlimit(RLIMIT_NOFILE).rlim_cur *)
  cred : creds;
  errno : Z;
  allocs : nat;
  heap : nat → option (nat → Z);
  released : list (Z * Z)      (* close_vfs and dentry_put calls made by fd_put *)
}.

(** ** Field updates *)

Definition set_files (s : kstate) (f : gmap Z file) : kstate :=
  MkK f (inodes s) (ctx s) (nofile_cur s) (cred s) (errno s) (allocs s) (heap s) (released s).
Definition set_inodes (s : kstate) (i : gmap Z inode) : kstate :=
  MkK (files s) i (ctx s) (nofile_cur s) (cred s) (errno s) (allocs s) (heap s) (released s).
Definition set_ctx (s : kstate) (c : ioctx) : kstate :=
  MkK (files s) (inodes s) c (nofile_cur s) (cred s) (errno s) (allocs s) (heap s) (released s).
Definition set_errno (s : kstate) (e : Z) : kstate :=
  MkK (files s) (inodes s) (ctx s) (nofile_cur s) (cred s) e (allocs s) (heap s) (released s).
Definition set_allocs (s : kstate) (n : nat) : kstate :=
  MkK (files s) (inodes s) (ctx s) (nofile_cur s) (cred s) (errno s) n (heap s) (released s).
Definition set_released (s : kstate) (r : list (Z * Z)) : kstate :=
  MkK (files s) (inodes s) (ctx s) (nofile_cur s) (cred s) (errno s) (allocs s) (heap s) r.

Definition with_lock (c : ioctx) (b : bool) : ioctx :=
  MkIoctx (cwd c) b (file_desc c) (file_desc_entries c) (cloexec_fds c) (open_fds c) (umask c).
Definition with_file_desc (c : ioctx) (l : list Z) : ioctx :=
  MkIoctx (cwd c) (fdlock c) l (file_desc_entries c) (cloexec_fds c) (open_fds c) (umask c).
Definition with_entries (c : ioctx) (n : Z) : ioctx :=
  MkIoctx (cwd c) (fdlock c) (file_desc c) n (cloexec_fds c) (open_fds c) (umask c).
Definition with_cloexec (c : ioctx) (l : list Z) : ioctx :=
  MkIoctx (cwd c) (fdlock c) (file_desc c) (file_desc_entries c) l (open_fds c) (umask c).
Definition with_open (c : ioctx) (l : list Z) : ioctx :=
  MkIoctx (cwd c) (fdlock c) (file_desc c) (file_desc_entries c) (cloexec_fds c) l (umask c).
Definition with_cwd (c : ioctx) (p : Z) : ioctx :=
  MkIoctx p (fdlock c) (file_desc c) (file_desc_entries c) (cloexec_fds c) (open_fds c) (umask c).
Definition with_umask (c : ioctx) (m : Z) : ioctx :=
  MkIoctx (cwd c) (fdlock c) (file_desc c) (file_desc_entries c) (cloexec_fds c) (open_fds c) m.

Definition with_ref (f : file) (n : Z) : file :=
  MkFile n (f_seek f) (f_ino f) (f_flags f) (f_dentry f).
Definition with_seek (f : file) (n : Z) : file :=
  MkFile (f_refcount f) n (f_ino f) (f_flags f) (f_dentry f).
Definition with_flags (f : file) (n : Z) : file :=
  MkFile (f_refcount f) (f_seek f) (f_ino f) n (f_dentry f).

Abbreviation KM := (M kstate).

Definition upd_ctx (g : ioctx → ioctx) : KM unit := modify (λ s, set_ctx s (g (ctx s))).
Definition put_errno (e : Z) : KM unit := modify (λ s, set_errno s e).

(** ** Locks, allocation and memory *)

Definition fd_lock : KM unit :=
  b ← gets (λ s, fdlock (ctx s));
  _ ← check (negb b) Deadlock;
  upd_ctx (λ c, with_lock c true).
Definition fd_unlock : KM unit := upd_ctx (λ c, with_lock c false).

(** [malloc] of [n] words: the block's contents, or a null pointer. *)
Definition malloc (n : Z) : KM (option (list Z)) :=
  r ← gets (λ s, heap s (allocs s));
  _ ← modify (λ s, set_allocs s (S (allocs s)));
  mret ((λ junk, junk <$> seq 0 (Z.to_nat n)) <$> r).
Definition zalloc (n : Z) : KM (option (list Z)) :=
  r ← gets (λ s, heap s (allocs s));
  _ ← modify (λ s, set_allocs s (S (allocs s)));
  mret ((λ _, replicate (Z.to_nat n) 0) <$> r).

(** [memcpy] of [n] words between two blocks. *)
Definition memcpy_words (dst src : list Z) (n : Z) : option (list Z) :=
  if (n <=? Z.of_nat (length dst)) && (n <=? Z.of_nat (length src))
  then Some (take (Z.to_nat n) src ++ drop (Z.to_nat n) dst)
  else None.

(** ** Files: [fd_get], [fd_put] *)

Definition get_file (p : Z) : KM file :=
  _ ← check (negb (p =? 0)) NullDeref;
  o ← gets (λ s, files s !! p);
  from_opt o UseAfterFree.
Definition put_file (p : Z) (f : file) : KM unit := modify (λ s, set_files s (<[p := f]> (files s))).
Definition get_inode (i : Z) : KM inode :=
  o ← gets (λ s, inodes s !! i);
  from_opt o UseAfterFree.

Definition fd_get (p : Z) : KM unit :=
  f ← get_file p;
  put_file p (with_ref f (u64 (f_refcount f + 1))).

Definition fd_put (p : Z) : KM unit :=
  f ← get_file p;
  let n := u64 (f_refcount f - 1) in
  if n =? 0 then
    _ ← modify (λ s, set_released s (released s ++ [(f_ino f, f_dentry f)]));
    modify (λ s, set_files s (delete p (files s)))
  else put_file p (with_ref f n).

(** ** The descriptor bit maps *)

Definition fd_is_open (fd : Z) : KM bool :=
  o ← gets (λ s, bit_get (open_fds (ctx s)) fd);
  from_opt o OutOfBounds.

Definition validate_fd_number (fd : Z) : KM bool :=
  if fd <? 0 then mret false
  else
    n ← gets (λ s, file_desc_entries (ctx s));
    if n <=? u32 fd then mret false
    else
      b ← fd_is_open fd;
      if negb b then mret false else mret true.

Definition fd_close_bit (fd : Z) : KM unit :=
  o ← gets (λ s, bit_clear (open_fds (ctx s)) fd);
  l ← from_opt o OutOfBounds;
  upd_ctx (λ c, with_open c l).

Definition fd_set_cloexec (fd : Z) (toggle : bool) : KM unit :=
  o ← gets (λ s, (if toggle then bit_set else bit_clear) (cloexec_fds (ctx s)) fd);
  l ← from_opt o OutOfBounds;
  upd_ctx (λ c, with_cloexec c l).

Definition fd_set_open (fd : Z) (toggle : bool) : KM unit :=
  o ← gets (λ s, (if toggle then bit_set else bit_clear) (open_fds (ctx s)) fd);
  l ← from_opt o OutOfBounds;
  upd_ctx (λ c, with_open c l).

Definition fd_is_cloexec (fd : Z) : KM bool :=
  o ← gets (λ s, bit_get (cloexec_fds (ctx s)) fd);
  from_opt o OutOfBounds.

(** [ctx->file_desc[fd]] and its assignment *)
Definition desc_get (fd : Z) : KM Z :=
  o ← gets (λ s, aget (file_desc (ctx s)) fd);
  from_opt o OutOfBounds.
Definition desc_set (fd p : Z) : KM unit :=
  o ← gets (λ s, aset (file_desc (ctx s)) fd p);
  l ← from_opt o OutOfBounds;
  upd_ctx (λ c, with_file_desc c l).

(** ** Looking up and closing descriptors *)

Definition __get_file_description_unlocked (fd : Z) : KM Z :=
  ok ← validate_fd_number fd;
  if negb ok then
    _ ← put_errno EBADF;
    mret 0
  else
    f ← desc_get fd;
    _ ← fd_get f;
    mret f.

Definition __get_file_description (fd : Z) : KM Z :=
  _ ← fd_lock;
  f ← __get_file_description_unlocked fd;
  _ ← fd_unlock;
  mret f.
Definition get_file_description (fd : Z) : KM Z := __get_file_description fd.

Definition __file_close_unlocked (fd : Z) : KM Z :=
  ok ← validate_fd_number fd;
  if negb ok then mret (- EBADF)
  else
    f ← desc_get fd;
    _ ← fd_put f;
    _ ← desc_set fd 0;
    _ ← fd_close_bit fd;
    mret 0.

Definition __file_close (fd : Z) : KM Z :=
  _ ← fd_lock;
  ret ← __file_close_unlocked fd;
  _ ← fd_unlock;
  mret ret.
Definition file_close (fd : Z) : KM Z := __file_close fd.
Definition sys_close (fd : Z) : KM Z := file_close fd.

(** ** Creating, copying, growing and destroying tables *)

Definition FD_ENTRIES_TO_FDSET_SIZE (x : Z) : Z := x / 8.

(** [copy_file_descriptors(process, ctx)] where [ctx] is the table of the current
    process and [child] the new process' one. *)
Fixpoint copy_descs (n : nat) (i : Z) (child : ioctx) : KM ioctx :=
  match n with
  | O => mret child
  | S n' =>
      f ← desc_get i;
      l ← from_opt (aset (file_desc child) i f) OutOfBounds;
      let child := with_file_desc child l in
      b ← from_opt (bit_get (open_fds child) i) OutOfBounds;
      _ ← (if b : bool then fd_get f else mret tt);
      copy_descs n' (i + 1) child
  end.

Definition copy_file_descriptors (child : ioctx) : KM (Z * ioctx) :=
  _ ← fd_lock;
  entries ← gets (λ s, file_desc_entries (ctx s));
  t ← malloc entries;
  let child := with_entries child entries in
  match t with
  | None => _ ← fd_unlock; mret (- ENOMEM, with_file_desc child [])
  | Some table =>
      let child := with_file_desc child table in
      ce ← malloc (FD_ENTRIES_TO_FDSET_SIZE entries / 8);
      match ce with
      | None => _ ← fd_unlock; mret (- ENOMEM, with_cloexec (with_file_desc child []) [])
      | Some cloexec =>
          op ← malloc (FD_ENTRIES_TO_FDSET_SIZE entries / 8);
          match op with
          | None =>
              _ ← fd_unlock;
              mret (- ENOMEM, with_open (with_cloexec (with_file_desc child []) []) [])
          | Some open =>
              pc ← gets ctx;
              cloexec ← from_opt (memcpy_words cloexec (cloexec_fds pc)
                                    (FD_ENTRIES_TO_FDSET_SIZE entries / 8)) OutOfBounds;
              open ← from_opt (memcpy_words open (open_fds pc)
                                 (FD_ENTRIES_TO_FDSET_SIZE entries / 8)) OutOfBounds;
              child ← copy_descs (Z.to_nat entries) 0
                        (with_open (with_cloexec child cloexec) open);
              _ ← fd_unlock;
              mret (0, child)
          end
      end
  end.

(** [allocate_file_descriptor_table(process)]: the new table is [process]' one. *)
Definition allocate_file_descriptor_table (process : ioctx) : KM (Z * ioctx) :=
  t ← zalloc FILE_DESCRIPTOR_GROW_NR;
  match t with
  | None => mret (- ENOMEM, with_file_desc process [])
  | Some table =>
      let process := with_entries (with_file_desc process table) FILE_DESCRIPTOR_GROW_NR in
      ce ← zalloc (FD_ENTRIES_TO_FDSET_SIZE FILE_DESCRIPTOR_GROW_NR / 8);
      match ce with
      | None => mret (- ENOMEM, with_cloexec (with_file_desc process []) [])
      | Some cloexec =>
          let process := with_cloexec process cloexec in
          op ← zalloc (FD_ENTRIES_TO_FDSET_SIZE FILE_DESCRIPTOR_GROW_NR / 8);
          match op with
          | None => mret (-1, with_open (with_cloexec (with_file_desc process []) []) [])
          | Some open => mret (0, with_open process open)
          end
      end
  end.

Definition ALIGN_TO (x y : Z) : Z := Z.land (u64 (u64 x + (y - 1))) (u64 (- y)).

Definition enlarge_file_descriptor_table (new_size : Z) : KM Z :=
  old_nr_fds ← gets (λ s, file_desc_entries (ctx s));
  let new_size := u32 (ALIGN_TO new_size FILE_DESCRIPTOR_GROW_NR) in
  rlim_cur ← gets nofile_cur;
  if (INT_MAX <? new_size) || (rlim_cur <=? new_size) then mret (- EBADF)
  else
    let new_nr_fds := new_size in
    t ← malloc new_nr_fds;
    ce ← malloc (FD_ENTRIES_TO_FDSET_SIZE new_nr_fds / 8);
    op ← zalloc (FD_ENTRIES_TO_FDSET_SIZE new_nr_fds / 8);
    match t, ce, op with
    | Some table, Some cloexec, Some open =>
        c ← gets ctx;
        table ← from_opt (memcpy_words table (file_desc c) old_nr_fds) OutOfBounds;
        cloexec ← from_opt (memcpy_words cloexec (cloexec_fds c)
                              (FD_ENTRIES_TO_FDSET_SIZE old_nr_fds / 8)) OutOfBounds;
        open ← from_opt (memcpy_words open (open_fds c)
                           (FD_ENTRIES_TO_FDSET_SIZE old_nr_fds / 8)) OutOfBounds;
        _ ← upd_ctx (λ c, with_entries (with_open (with_cloexec (with_file_desc c table) cloexec) open)
                            new_nr_fds);
        mret 0
    | _, _, _ =>
        _ ← upd_ctx (λ c, with_entries c old_nr_fds);
        mret (- ENOMEM)
    end.

Fixpoint put_descs (n : nat) (i : Z) (table : list Z) : KM unit :=
  match n with
  | O => mret tt
  | S n' =>
      b ← fd_is_open i;
      _ ← (if negb b then mret tt
           else f ← from_opt (aget table i) OutOfBounds; fd_put f);
      put_descs n' (i + 1) table
  end.

Definition process_destroy_file_descriptors : KM unit :=
  table ← gets (λ s, file_desc (ctx s));
  _ ← fd_lock;
  n ← gets (λ s, file_desc_entries (ctx s));
  _ ← put_descs (Z.to_nat n) 0 table;
  _ ← upd_ctx (λ c, with_file_desc c []);
  _ ← upd_ctx (λ c, with_entries c 0);
  fd_unlock.

(** ** Allocating a descriptor *)

(** The loop over the bits [j .. 63] of word [i]. *)
Fixpoint alloc_fd_bits (n : nat) (i j fdbase w : Z) : option Z :=
  match n with
  | O => None
  | S n' =>
      let fd := i32 (FDS_PER_LONG * i + j) in
      if word_test w j then alloc_fd_bits n' i (j + 1) fdbase w
      else if fd <? fdbase then alloc_fd_bits n' i (j + 1) fdbase w
      else Some j
  end.

(** The loop over the words [i, i + 1, ..]: the position of the first descriptor
    that is free and not below [fdbase]. *)
Fixpoint alloc_fd_longs (n : nat) (i fdbase : Z) (open : list Z) : outcome (option (Z * Z)) :=
  match n with
  | O => Done None
  | S n' =>
      match aget open i with
      | None => Fault OutOfBounds
      | Some w =>
          if w =? ULONG_MAX then alloc_fd_longs n' (i + 1) fdbase open
          else
            let first_free := ctzl (u64 (Z.lnot w)) in
            match alloc_fd_bits (Z.to_nat (FDS_PER_LONG - first_free)) i first_free fdbase w with
            | Some j => Done (Some (i, j))
            | None => alloc_fd_longs n' (i + 1) fdbase open
            end
      end
  end.

Fixpoint alloc_fd_loop (fuel : nat) (starting_long fdbase : Z) : KM Z :=
  match fuel with
  | O => crash OutOfFuel
  | S fuel' =>
      c ← gets ctx;
      let nr_longs := file_desc_entries c / FDS_PER_LONG in
      match alloc_fd_longs (Z.to_nat (nr_longs - starting_long)) starting_long fdbase (open_fds c) with
      | Fault why => crash why
      | Done (Some (i, j)) =>
          let fd := i32 (FDS_PER_LONG * i + j) in
          rlim_cur ← gets nofile_cur;
          if rlim_cur <? u64 fd then
            _ ← fd_unlock;
            mret (- EMFILE)
          else
            w ← from_opt (aget (open_fds c) i) OutOfBounds;
            l ← from_opt (aset (open_fds c) i (word_set w j)) OutOfBounds;
            _ ← upd_ctx (λ c, with_open c l);
            _ ← fd_set_cloexec fd false;
            mret fd
      | Done None =>
          let new_entries := i32 (file_desc_entries c + FILE_DESCRIPTOR_GROW_NR) in
          r ← enlarge_file_descriptor_table (u32 new_entries);
          if r <? 0 then
            _ ← fd_unlock;
            mret (- ENOMEM)
          else alloc_fd_loop fuel' starting_long fdbase
      end
  end.

(** Each turn of the [while (true)] loop that finds nothing adds one word to the
    table, so [fdbase / 64 + 2] turns reach a word with room. *)
Definition alloc_fd_fuel (fdbase : Z) : nat := S (S (Z.to_nat (fdbase / FDS_PER_LONG))).

(** On success the function returns with the lock held. *)
Definition alloc_fd (fdbase : Z) : KM Z :=
  rlim_cur ← gets nofile_cur;
  if (fdbase <? 0) || (fdbase =? INT_MAX) || (rlim_cur <=? u32 fdbase) then mret (- EBADF)
  else
    _ ← fd_lock;
    alloc_fd_loop (alloc_fd_fuel fdbase) (fdbase / FDS_PER_LONG) fdbase.

Definition file_alloc (f : Z) : KM Z :=
  filedesc ← alloc_fd 0;
  if filedesc <? 0 then
    _ ← put_errno (- filedesc);
    mret filedesc
  else
    _ ← desc_set filedesc f;
    _ ← fd_get f;
    mret filedesc.

(** ** Opening and duplicating *)

Definition handle_open_flags (fd flags : Z) : KM unit :=
  if has flags O_APPEND then
    f ← get_file fd;
    i ← get_inode (f_ino f);
    put_file fd (with_seek f (i64 (i_size i)))
  else mret tt.

Definition open_with_vnode (node flags : Z) : KM Z :=
  fd_num ← file_alloc node;
  if fd_num <? 0 then
    e ← gets errno;
    mret (- e)
  else
    f ← get_file node;
    _ ← put_file node (with_flags (with_seek f 0) (u32 flags));
    _ ← handle_open_flags node flags;
    _ ← fd_set_cloexec fd_num (has flags O_CLOEXEC);
    _ ← fd_unlock;
    mret fd_num.

Definition sys_dup (fd : Z) : KM Z :=
  f ← get_file_description fd;
  if f =? 0 then
    e ← gets errno;
    mret (- e)
  else
    new_fd ← alloc_fd 0;
    if new_fd <? 0 then
      _ ← fd_put f;
      mret new_fd
    else
      _ ← desc_set new_fd f;
      _ ← fd_unlock;
      mret new_fd.

Definition sys_dup2 (oldfd newfd : Z) : KM Z :=
  if (newfd <? 0) || (oldfd <? 0) then mret (- EBADF)
  else
    _ ← fd_lock;
    f ← __get_file_description_unlocked oldfd;
    if f =? 0 then
      e ← gets errno;
      _ ← fd_unlock;
      mret (- e)
    else
      n ← gets (λ s, file_desc_entries (ctx s));
      st ← (if n <? u32 newfd then enlarge_file_descriptor_table (u32 newfd + 1) else mret 0);
      if st <? 0 then
        _ ← fd_put f;
        _ ← fd_unlock;
        mret st
      else if oldfd =? newfd then
        _ ← fd_unlock;
        mret newfd
      else
        old ← desc_get newfd;
        _ ← (if truthy old then __file_close_unlocked newfd else mret 0);
        p ← desc_get oldfd;
        _ ← desc_set newfd p;
        _ ← fd_set_cloexec newfd false;
        _ ← fd_set_open newfd true;
        _ ← fd_unlock;
        mret newfd.

Definition sys_dup3 (oldfd newfd flags : Z) : KM Z :=
  if (newfd <? 0) || (oldfd <? 0) then mret (- EINVAL)
  else if truthy (Z.land flags (Z.lnot O_CLOEXEC)) then mret (- EINVAL)
  else
    _ ← fd_lock;
    f ← __get_file_description_unlocked oldfd;
    if f =? 0 then
      e ← gets errno;
      _ ← fd_unlock;
      mret (- e)
    else
      n ← gets (λ s, file_desc_entries (ctx s));
      st ← (if n <? u32 newfd then enlarge_file_descriptor_table (u32 (newfd + 1)) else mret 0);
      if st <? 0 then
        _ ← fd_put f;
        _ ← fd_unlock;
        mret st
      else if oldfd =? newfd then
        _ ← fd_unlock;
        mret (- EINVAL)
      else
        old ← desc_get newfd;
        _ ← (if truthy old then __file_close_unlocked newfd else mret 0);
        p ← desc_get oldfd;
        _ ← desc_set newfd p;
        _ ← fd_set_cloexec newfd (has flags O_CLOEXEC);
        _ ← fd_set_open newfd true;
        _ ← fd_unlock;
        mret newfd.

Definition OPEN_FLAGS_ACCESS_MODE (flags : Z) : Z := Z.land flags 3.

Definition fd_may_access (f : file) (access : Z) : bool :=
  if access =? FILE_ACCESS_READ then negb (OPEN_FLAGS_ACCESS_MODE (f_flags f) =? O_WRONLY)
  else if access =? FILE_ACCESS_WRITE then negb (OPEN_FLAGS_ACCESS_MODE (f_flags f) =? O_RDONLY)
  else true.

Definition VFS_TYPE_FIFO : Z := 64.
Definition INODE_FLAG_NO_SEEK : Z := 4.

Definition sys_lseek (fd offset whence : Z) : KM Z :=
  p ← get_file_description fd;
  if p =? 0 then
    e ← gets errno;
    mret (- e)
  else
    f ← get_file p;
    i ← get_inode (f_ino f);
    ret ← (if (i_type i =? VFS_TYPE_FIFO) || has (i_flags i) INODE_FLAG_NO_SEEK then mret (- ESPIPE)
           else if whence =? SEEK_CUR then
             let n := i64 (f_seek f + offset) in
             _ ← put_file p (with_seek f n); mret n
           else if whence =? SEEK_SET then
             _ ← put_file p (with_seek f offset); mret offset
           else if whence =? SEEK_END then
             let n := i64 (i_size i + offset) in
             _ ← put_file p (with_seek f n); mret n
           else mret (- EINVAL));
    _ ← fd_put p;
    mret ret.

(** ** fcntl(2) *)

Definition do_dupfd (f fdbase : Z) (cloexec : bool) : KM Z :=
  if fdbase <? 0 then mret (- EBADF)
  else
    new_fd ← alloc_fd fdbase;
    if new_fd <? 0 then mret new_fd
    else
      _ ← desc_set new_fd f;
      _ ← fd_get f;
      _ ← fd_set_cloexec new_fd cloexec;
      _ ← fd_unlock;
      mret new_fd.

Definition fcntl_f_getfd (fd : Z) : KM Z :=
  _ ← fd_lock;
  ok ← validate_fd_number fd;
  if negb ok then
    _ ← fd_unlock;
    mret (- EBADF)
  else
    b ← fd_is_cloexec fd;
    _ ← fd_unlock;
    mret (if b : bool then FD_CLOEXEC else 0).

Definition fcntl_f_setfd (fd arg : Z) : KM Z :=
  _ ← fd_lock;
  ok ← validate_fd_number fd;
  if negb ok then
    _ ← fd_unlock;
    mret (- EBADF)
  else
    _ ← fd_set_cloexec fd (has arg FD_CLOEXEC);
    _ ← fd_unlock;
    mret 0.

Definition fcntl_f_getfl (fd : Z) : KM Z :=
  _ ← fd_lock;
  ok ← validate_fd_number fd;
  if negb ok then
    _ ← fd_unlock;
    mret (- EBADF)
  else
    is_cloexec ← fd_is_cloexec fd;
    _ ← fd_unlock;
    p ← get_file_description fd;
    if p =? 0 then
      e ← gets errno;
      mret (- e)
    else
      f ← get_file p;
      let result := Z.lor (f_flags f) (if is_cloexec : bool then O_CLOEXEC else 0) in
      _ ← fd_put p;
      mret (i32 result).

Definition SETFL_MASK : Z := Z.lor O_APPEND (Z.lor O_ASYNC (Z.lor O_DIRECT (Z.lor O_NOATIME O_NONBLOCK))).

Definition fcntl_f_setfl (fd arg : Z) : KM Z :=
  p ← get_file_description fd;
  if p =? 0 then
    e ← gets errno;
    mret (- e)
  else
    let arg := Z.land arg SETFL_MASK in
    f ← get_file p;
    denied ← (if has arg O_NOATIME then
                i ← get_inode (f_ino f);
                c ← gets cred;
                mret (negb (may_noatime i c))
              else mret false);
    if denied : bool then
      _ ← fd_put p;
      mret (- EPERM)
    else
      _ ← put_file p (with_flags f (u32 (Z.lor arg (Z.land (f_flags f) (Z.lnot SETFL_MASK)))));
      _ ← fd_put p;
      mret 0.

Definition sys_fcntl (fd cmd arg : Z) : KM Z :=
  if (cmd =? F_DUPFD) || (cmd =? F_DUPFD_CLOEXEC) then
    f ← get_file_description fd;
    if f =? 0 then
      e ← gets errno;
      mret (- e)
    else
      r ← do_dupfd f (i32 arg) (cmd =? F_DUPFD_CLOEXEC);
      _ ← fd_put f;
      mret r
  else if cmd =? F_GETFD then fcntl_f_getfd fd
  else if cmd =? F_SETFD then fcntl_f_setfd fd arg
  else if cmd =? F_GETFL then fcntl_f_getfl fd
  else if cmd =? F_SETFL then fcntl_f_setfl fd arg
  else mret (- EINVAL).

(** ** execve: closing the close-on-exec descriptors *)

Fixpoint cloexec_descs (n : nat) (i : Z) : KM unit :=
  match n with
  | O => mret tt
  | S n' =>
      p ← desc_get i;
      _ ← (if p =? 0 then mret tt
           else
             b ← fd_is_cloexec i;
             if b : bool then
               _ ← __file_close_unlocked i; mret tt
             else mret tt);
      cloexec_descs n' (i + 1)
  end.

Definition file_do_cloexec : KM unit :=
  _ ← fd_lock;
  n ← gets (λ s, file_desc_entries (ctx s));
  _ ← cloexec_descs (Z.to_nat n) 0;
  fd_unlock.

(** ** umask and the working directory *)

Definition sys_umask (mask : Z) : KM Z :=
  old ← gets (λ s, umask (ctx s));
  _ ← upd_ctx (λ c, with_umask c (Z.land mask 0x1ff));
  mret old.

Definition get_current_directory : KM Z :=
  p ← gets (λ s, cwd (ctx s));
  if p =? 0 then mret 0
  else
    _ ← fd_get p;
    mret p.

Definition AT_FDCWD : Z := -100.

Definition get_dirfd_file (dirfd : Z) : KM Z :=
  if negb (dirfd =? AT_FDCWD) then get_file_description dirfd
  else get_current_directory.

Definition sys_fchdir (fildes : Z) : KM Z :=
  f ← get_file_description fildes;
  if f =? 0 then
    e ← gets errno;
    mret (- e)
  else
    fl ← get_file f;
    i ← get_inode (f_ino fl);
    if negb (S_ISDIR (i_mode i)) then
      _ ← fd_put f;
      mret (- ENOTDIR)
    else
      old ← gets (λ s, cwd (ctx s));
      _ ← upd_ctx (λ c, with_cwd c f);
      _ ← fd_put old;
      mret 0.

Definition sys_fchmod (now fd mode : Z) : KM Z :=
  p ← get_file_description fd;
  if p =? 0 then
    e ← gets errno;
    mret (- e)
  else
    f ← get_file p;
    i ← get_inode (f_ino f);
    let r := chmod_vfs now i mode in
    _ ← modify (λ s, set_inodes s (<[f_ino f := r.2]> (inodes s)));
    _ ← fd_put p;
    mret r.1.
