(* ===== verification/FileSpec.v ===== *)
(** * FileSpec: what the descriptor table promises, and its invariant.

    The contract of the descriptor table is a finite map from descriptors to the
    open file description and the close-on-exec flag ([desc_map]).  The invariant
    [inv] says that the arrays and bit maps have matching sizes and that every
    reference count is the number of references: one per descriptor, one for the
    working directory, and those held by callers ([held]). *)

From S2P Require Import Prelude Bits Abi Cred FileTable.

(** ** The abstract table *)

Definition desc_entry (c : ioctx) (i : Z) : option (Z * bool) :=
  if bit_at (open_fds c) i
  then p ← aget (file_desc c) i; Some (p, bit_at (cloexec_fds c) i)
  else None.

Definition desc_map (c : ioctx) : gmap Z (Z * bool) :=
  omap (M := gmap Z) id (map_seqZ 0 (desc_entry c <$> seqZ 0 (file_desc_entries c))).

Lemma lookup_desc_map c i :
  desc_map c !! i = if decide (0 <= i < file_desc_entries c) then desc_entry c i else None.
Proof.
  unfold desc_map. rewrite lookup_omap.
  destruct (map_seqZ 0 _ !! i) as [o|] eqn:E; simpl.
  - apply lookup_map_seqZ_Some in E as [H0 E].
    rewrite list_lookup_fmap_Some in E. destruct E as (j & Hj & E).
    apply lookup_seqZ in E as [-> E]. subst o.
    rewrite decide_True by lia. f_equal. lia.
  - case_decide as Hd; [|done]. exfalso.
    apply lookup_map_seqZ_None in E as [|E]; [lia|].
    rewrite length_fmap, length_seqZ in E. lia.
Qed.

(** The number of descriptors that refer to a file. *)
Definition refs (m : gmap Z (Z * bool)) (p : Z) : Z :=
  Z.of_nat (size (filter (λ kv : Z * (Z * bool), kv.2.1 = p) m)).

Lemma refs_nonneg m p : 0 <= refs m p.
Proof. unfold refs. lia. Qed.

Lemma refs_insert m i p b q :
  m !! i = None → refs (<[i := (p, b)]> m) q = (if decide (p = q) then 1 else 0) + refs m q.
Proof.
  intros Hi. unfold refs. case_decide as Hd.
  - rewrite map_filter_insert_True by done.
    rewrite map_size_insert_None; [lia|]. rewrite map_lookup_filter_None. by left.
  - rewrite map_filter_insert_False by done. rewrite delete_id by done. lia.
Qed.

Lemma refs_delete m i p b q :
  m !! i = Some (p, b) → refs (delete i m) q = refs m q - (if decide (p = q) then 1 else 0).
Proof.
  intros Hi. rewrite <- (insert_delete_id m i (p, b) Hi) at 2.
  rewrite refs_insert by apply lookup_delete_eq. lia.
Qed.

Lemma refs_pos m i p b : m !! i = Some (p, b) → 1 <= refs m p.
Proof.
  intros Hi. rewrite <- (insert_delete_id m i (p, b) Hi).
  rewrite refs_insert by apply lookup_delete_eq. rewrite decide_True by done.
  pose proof (refs_nonneg (delete i m) p). lia.
Qed.

Lemma refs_empty p : refs ∅ p = 0.
Proof. unfold refs. by rewrite map_filter_empty, map_size_empty. Qed.

Lemma refs_singleton i p b q : refs {[i := (p, b)]} q = if decide (p = q) then 1 else 0.
Proof. rewrite <- insert_empty, refs_insert, refs_empty by done. lia. Qed.

Lemma refs_flag m i p b b' q :
  m !! i = Some (p, b) → refs (<[i := (p, b')]> m) q = refs m q.
Proof.
  intros Hi. rewrite <- (insert_delete_eq m).
  rewrite refs_insert by apply lookup_delete_eq.
  rewrite (refs_delete _ _ _ _ _ Hi). lia.
Qed.

Lemma refs_size m p : refs m p <= Z.of_nat (size m).
Proof. unfold refs. apply inj_le. apply map_subseteq_size, map_filter_subseteq. Qed.

(** ** Reference counts *)

Definition bump (own : Z → Z) (p k : Z) : Z → Z := λ q, if decide (p = q) then own q + k else own q.

Definition counts_ok (own : Z → Z) (fs : gmap Z file) : Prop :=
  fs !! 0 = None ∧
  ∀ p, match fs !! p with
       | Some f => f_refcount f = own p ∧ 0 < own p < 2 ^ 64
       | None => own p = 0
       end.

Lemma counts_ok_ext own own' fs :
  (∀ p, own p = own' p) → counts_ok own fs → counts_ok own' fs.
Proof.
  intros Heq [H0 H]. split; [done|]. intros p. specialize (H p). by rewrite <- Heq.
Qed.

Lemma counts_ok_live own fs p :
  counts_ok own fs → own p ≠ 0 → p ≠ 0 ∧ ∃ f, fs !! p = Some f ∧ f_refcount f = own p ∧ 0 < own p < 2 ^ 64.
Proof.
  intros [H0 H] Hp. pose proof (H p) as Hp'. destruct (fs !! p) as [f|] eqn:E; [|done].
  split; [congruence|]. by exists f.
Qed.

Lemma counts_ok_get own fs p f :
  counts_ok own fs → fs !! p = Some f → own p + 1 < 2 ^ 64 →
  counts_ok (bump own p 1) (<[p := with_ref f (u64 (f_refcount f + 1))]> fs).
Proof.
  intros [H0 H] Hp Hb. pose proof (H p) as Hc. rewrite Hp in Hc. destruct Hc as [Hc1 Hc2].
  split.
  - rewrite lookup_insert_ne; [done|]. congruence.
  - intros q. unfold bump. rewrite lookup_insert. case_decide as Hd.
    + subst q. simpl. rewrite Hc1, u64_small by lia. lia.
    + apply H.
Qed.

Lemma counts_ok_update own fs p f f' :
  counts_ok own fs → fs !! p = Some f → f_refcount f' = f_refcount f →
  counts_ok own (<[p := f']> fs).
Proof.
  intros [H0 H] Hp Hr. split.
  - rewrite lookup_insert_ne; [done|]. congruence.
  - intros q. rewrite lookup_insert. case_decide as Hd; [|apply H].
    subst q. specialize (H p). rewrite Hp in H. by rewrite Hr.
Qed.

(** ** The invariant *)

Record table_ok (c : ioctx) : Prop := {
  t_entries : 0 <= file_desc_entries c <= INT_MAX;
  t_desc : Z.of_nat (length (file_desc c)) = file_desc_entries c;
  t_open : 64 * Z.of_nat (length (open_fds c)) = file_desc_entries c;
  t_cloexec : 64 * Z.of_nat (length (cloexec_fds c)) = file_desc_entries c;
  t_open_words : words_ok (open_fds c);
  t_cloexec_words : words_ok (cloexec_fds c);
}.

(** A fresh block of memory holds 64-bit words. *)
Definition heap_ok (s : kstate) : Prop :=
  ∀ k junk n, heap s k = Some junk → is_u64 (junk n).

(** The references to [p] when the descriptors are [m] and the working directory [w]. *)
Definition uses (held : Z → Z) (m : gmap Z (Z * bool)) (w p : Z) : Z :=
  refs m p + (if decide (w = p ∧ p ≠ 0) then 1 else 0) + held p.

Definition owned (held : Z → Z) (c : ioctx) (p : Z) : Z := uses held (desc_map c) (cwd c) p.

Record inv (held : Z → Z) (s : kstate) : Prop := {
  inv_table : table_ok (ctx s);
  inv_heap : heap_ok s;
  inv_nofile : 0 <= nofile_cur s < 2 ^ 64;
  inv_held : ∀ p, 0 <= held p < 2 ^ 32;
  inv_counts : counts_ok (owned held (ctx s)) (files s);
  inv_inodes : ∀ p f, files s !! p = Some f → is_Some (inodes s !! f_ino f);
}.

Definition unlocked (s : kstate) : Prop := fdlock (ctx s) = false.

Lemma size_desc_map c : table_ok c → Z.of_nat (size (desc_map c)) <= file_desc_entries c.
Proof.
  intros [Hn _ _ _ _ _].
  pose proof (size_range (dom (desc_map c)) 0 (file_desc_entries c)) as Hs. rewrite size_dom, Z.sub_0_r in Hs.
  etrans; [apply Hs|lia]. intros i. rewrite elem_of_dom, lookup_desc_map. case_decide; [lia|]. by intros [? ?].
Qed.

Lemma owned_bound held s p : inv held s → 0 <= owned held (ctx s) p < 2 ^ 34.
Proof.
  intros [Ht _ _ Hh _ _]. unfold owned, uses. pose proof (refs_nonneg (desc_map (ctx s)) p).
  pose proof (refs_size (desc_map (ctx s)) p). pose proof (size_desc_map _ Ht).
  destruct Ht as [Hn _ _ _ _ _]. unfold INT_MAX in Hn. specialize (Hh p).
  case_decide; lia.
Qed.

(** ** The view of the state the contract is about

    The descriptors, the open file descriptions without their reference counts,
    the working directory and the mask. *)

Record view : Type := MkView {
  v_fds : gmap Z (Z * bool); v_files : gmap Z file; v_cwd : Z; v_umask : Z
}.

Definition no_ref (f : file) : file := with_ref f 0.
Definition view_of (s : kstate) : view :=
  MkView (desc_map (ctx s)) (no_ref <$> files s) (cwd (ctx s)) (umask (ctx s)).

Definition v_set_fds (v : view) (m : gmap Z (Z * bool)) : view :=
  MkView m (v_files v) (v_cwd v) (v_umask v).
Definition v_set_cwd (v : view) (p : Z) : view := MkView (v_fds v) (v_files v) p (v_umask v).
Definition v_set_umask (v : view) (m : Z) : view := MkView (v_fds v) (v_files v) (v_cwd v) m.
Definition v_set_file (v : view) (p : Z) (f : file) : view :=
  MkView (v_fds v) (<[p := f]> (v_files v)) (v_cwd v) (v_umask v).

(** The files nothing refers to any more are gone. *)
Definition sweep (own : Z → Z) (fs : gmap Z file) : gmap Z file :=
  filter (λ kv : Z * file, own kv.1 ≠ 0) fs.
Definition collect (held : Z → Z) (v : view) : view :=
  MkView (v_fds v) (sweep (uses held (v_fds v) (v_cwd v)) (v_files v)) (v_cwd v) (v_umask v).

(** [r] is the least descriptor not below [base] that is free in [m]. *)
Definition lowest_free (m : gmap Z (Z * bool)) (base r : Z) : Prop :=
  base <= r ∧ m !! r = None ∧ ∀ k, base <= k < r → is_Some (m !! k).

(** ** The contract of the system calls *)

Record fd_env : Type := MkEnv { e_lim : Z; e_ino : gmap Z inode; e_creds : creds }.
Definition env_of (s : kstate) : fd_env := MkEnv (nofile_cur s) (inodes s) (cred s).

Inductive fdop : Type :=
  | OpClose (fd : Z)
  | OpDup (fd : Z)
  | OpDup2 (oldfd newfd : Z)
  | OpDup3 (oldfd newfd flags : Z)
  | OpFcntl (fd cmd arg : Z)
  | OpLseek (fd offset whence : Z)
  | OpUmask (mask : Z)
  | OpFchdir (fd : Z)
  | OpExec.

Definition run_op (op : fdop) : KM Z :=
  match op with
  | OpClose fd => sys_close fd
  | OpDup fd => sys_dup fd
  | OpDup2 oldfd newfd => sys_dup2 oldfd newfd
  | OpDup3 oldfd newfd flags => sys_dup3 oldfd newfd flags
  | OpFcntl fd cmd arg => sys_fcntl fd cmd arg
  | OpLseek fd offset whence => sys_lseek fd offset whence
  | OpUmask mask => sys_umask mask
  | OpFchdir fd => sys_fchdir fd
  | OpExec => _ ← file_do_cloexec; mret 0
  end.

(** A new descriptor for [p]: the lowest free one, or an error and no change. *)
Definition dup_spec (lim base : Z) (cloexec : bool) (p : Z) (v : view) (r : Z) (v' : view) : Prop :=
  (0 <= r <= lim ∧ lowest_free (v_fds v) base r ∧
   v' = v_set_fds v (<[r := (p, cloexec)]> (v_fds v))) ∨
  (v' = v ∧ ((r = - EBADF ∧ (base < 0 ∨ base = INT_MAX ∨ lim <= base)) ∨
             (r = - EMFILE ∧ ∃ fd, lowest_free (v_fds v) base fd ∧ lim < fd) ∨
             r = - ENOMEM)).

(** [newfd] is made to refer to [p], whatever it was before. *)
Definition redirect_spec (held : Z → Z) (newfd : Z) (cloexec : bool) (p : Z)
    (v : view) (r : Z) (v' : view) : Prop :=
  (r = newfd ∧ v' = collect held (v_set_fds v (<[newfd := (p, cloexec)]> (v_fds v)))) ∨
  (v' = v ∧ (r = - EBADF ∨ r = - ENOMEM)).

Definition lseek_spec (E : fd_env) (p offset whence : Z) (v : view) (r : Z) (v' : view) : Prop :=
  ∃ f i, v_files v !! p = Some f ∧ e_ino E !! f_ino f = Some i ∧
    if (i_type i =? VFS_TYPE_FIFO) || has (i_flags i) INODE_FLAG_NO_SEEK
    then r = - ESPIPE ∧ v' = v
    else
      if (whence =? SEEK_CUR) || (whence =? SEEK_SET) || (whence =? SEEK_END) then
        r = (if whence =? SEEK_CUR then i64 (f_seek f + offset)
             else if whence =? SEEK_SET then offset else i64 (i_size i + offset)) ∧
        v' = v_set_file v p (with_seek f r)
      else r = - EINVAL ∧ v' = v.

Definition setfl_spec (E : fd_env) (p arg : Z) (v : view) (r : Z) (v' : view) : Prop :=
  ∃ f i, v_files v !! p = Some f ∧ e_ino E !! f_ino f = Some i ∧
    if has (Z.land arg SETFL_MASK) O_NOATIME && negb (may_noatime i (e_creds E))
    then r = - EPERM ∧ v' = v
    else r = 0 ∧ v' = v_set_file v p
           (with_flags f (u32 (Z.lor (Z.land arg SETFL_MASK) (Z.land (f_flags f) (Z.lnot SETFL_MASK))))).

Definition fcntl_spec (E : fd_env) (fd cmd arg p : Z) (b : bool) (v : view) (r : Z) (v' : view) : Prop :=
  if (cmd =? F_DUPFD) || (cmd =? F_DUPFD_CLOEXEC)
  then dup_spec (e_lim E) (i32 arg) (cmd =? F_DUPFD_CLOEXEC) p v r v'
  else if cmd =? F_GETFD then r = (if b then FD_CLOEXEC else 0) ∧ v' = v
  else if cmd =? F_SETFD
  then r = 0 ∧ v' = v_set_fds v (<[fd := (p, has arg FD_CLOEXEC)]> (v_fds v))
  else if cmd =? F_GETFL
  then ∃ f, v_files v !! p = Some f ∧
         r = i32 (Z.lor (f_flags f) (if b then O_CLOEXEC else 0)) ∧ v' = v
  else if cmd =? F_SETFL then setfl_spec E p arg v r v'
  else r = - EINVAL ∧ v' = v.

Definition fchdir_spec (held : Z → Z) (E : fd_env) (p : Z) (v : view) (r : Z) (v' : view) : Prop :=
  ∃ f i, v_files v !! p = Some f ∧ e_ino E !! f_ino f = Some i ∧
    if S_ISDIR (i_mode i) then r = 0 ∧ v' = collect held (v_set_cwd v p)
    else r = - ENOTDIR ∧ v' = v.

(** What a call with descriptor [fd] does when [fd] is open, and the error when not. *)
Definition on_fd (v : view) (fd : Z) (k : Z → bool → Z → view → Prop) (r : Z) (v' : view) : Prop :=
  match v_fds v !! fd with
  | Some (p, b) => k p b r v'
  | None => r = - EBADF ∧ v' = v
  end.

Definition fcntl_known (cmd : Z) : bool :=
  existsb (Z.eqb cmd) [F_DUPFD; F_DUPFD_CLOEXEC; F_GETFD; F_SETFD; F_GETFL; F_SETFL].

Definition spec_op (held : Z → Z) (E : fd_env) (op : fdop) (v : view) (r : Z) (v' : view) : Prop :=
  match op with
  | OpClose fd =>
      on_fd v fd (λ _ _ r v', r = 0 ∧
        v' = collect held (v_set_fds v (delete fd (v_fds v)))) r v'
  | OpDup fd => on_fd v fd (λ p _, dup_spec (e_lim E) 0 false p v) r v'
  | OpDup2 oldfd newfd =>
      if (newfd <? 0) || (oldfd <? 0) then r = - EBADF ∧ v' = v
      else on_fd v oldfd (λ p _, redirect_spec held newfd false p v) r v'
  | OpDup3 oldfd newfd flags =>
      if (newfd <? 0) || (oldfd <? 0) || truthy (Z.land flags (Z.lnot O_CLOEXEC))
      then r = - EINVAL ∧ v' = v
      else on_fd v oldfd (λ p _, redirect_spec held newfd (has flags O_CLOEXEC) p v) r v'
  | OpFcntl fd cmd arg =>
      if fcntl_known cmd then on_fd v fd (λ p b, fcntl_spec E fd cmd arg p b v) r v'
      else r = - EINVAL ∧ v' = v
  | OpLseek fd offset whence => on_fd v fd (λ p _, lseek_spec E p offset whence v) r v'
  | OpUmask mask => r = v_umask v ∧ v' = v_set_umask v (Z.land mask 0x1ff)
  | OpFchdir fd => on_fd v fd (λ p _, fchdir_spec held E p v) r v'
  | OpExec =>
      r = 0 ∧ v' = collect held (v_set_fds v (filter (λ kv : Z * (Z * bool), kv.2.2 = false) (v_fds v)))
  end.

(** The calls the contract covers: descriptor arguments have type [int], [dup2] and
    [dup3] have two different descriptors and do not name the first one past the
    table, and [fchdir] has a working directory to leave. *)
Definition op_ok (s : kstate) (op : fdop) : Prop :=
  match op with
  | OpClose fd | OpDup fd | OpFcntl fd _ _ | OpLseek fd _ _ => is_int fd
  | OpDup2 oldfd newfd | OpDup3 oldfd newfd _ =>
      is_int oldfd ∧ is_int newfd ∧ oldfd ≠ newfd ∧ newfd ≠ file_desc_entries (ctx s)
  | OpUmask _ | OpExec => True
  | OpFchdir fd => is_int fd ∧ cwd (ctx s) ≠ 0
  end.
