(* ===== verification/FileFacts.v ===== *)
(** * FileFacts: lemmas on the operations of the descriptor table.

    Each primitive of FileTable gets a rule for symbolic execution and its effect
    on the abstract map; then the growth of the table and the search for a free
    descriptor are proved once, for all the calls that use them. *)

From S2P Require Import Prelude Bits Abi Cred FileTable FileSpec.

Lemma i32_small x : is_int x → i32 x = x.
Proof. intros ?. unfold i32, is_int, INT_MAX in *. rewrite Z.mod_small; lia. Qed.

Lemma u32_i32 x : 0 <= x < 2 ^ 32 → u32 (i32 x) = x.
Proof.
  intros ?. unfold u32, i32. rewrite Zminus_mod_idemp_l.
  replace (x + 2 ^ 31 - 2 ^ 31) with x by lia. by apply Z.mod_small.
Qed.

Lemma ALIGN_TO_64 x : 0 <= x < 2 ^ 63 → ALIGN_TO x 64 = 64 * ((x + 63) / 64).
Proof.
  intros Hx. unfold ALIGN_TO. rewrite (u64_small x) by lia.
  rewrite (u64_small (x + _)) by lia. change (64 - 1) with 63.
  set (a := x + 63). assert (Ha : 0 <= a < 2 ^ 64) by (unfold a; lia).
  rewrite (Z.mul_comm 64). change 64 with (2 ^ 6) at 2 3.
  rewrite <- Z.shiftr_div_pow2, <- Z.shiftl_mul_pow2, <- Z.ldiff_ones_r by lia.
  apply Z.bits_inj'. intros i Hi.
  rewrite Z.land_spec, Z.ldiff_spec, testbit_u64.
  destruct (Z.ltb_spec i 64).
  - rewrite <- Z.lnot_spec by done. done.
  - by rewrite (is_u64_high a) by done.
Qed.

(** ** The abstract map under updates of the arrays *)

Lemma desc_map_ext c c' :
  file_desc_entries c' = file_desc_entries c →
  (∀ i, 0 <= i < file_desc_entries c → desc_entry c' i = desc_entry c i) →
  desc_map c' = desc_map c.
Proof.
  intros Hn He. apply map_eq. intros i. rewrite !lookup_desc_map, Hn.
  case_decide; [by apply He|done].
Qed.

Lemma desc_map_clear_open c fd o :
  (∀ j, bit_at o j = negb (j =? fd) && bit_at (open_fds c) j) →
  desc_map (with_open c o) = delete fd (desc_map c).
Proof.
  intros Ho. apply map_eq. intros i. rewrite lookup_delete, !lookup_desc_map. simpl.
  unfold desc_entry; simpl. rewrite Ho.
  repeat case_decide; try done; subst.
  - by rewrite Z.eqb_refl.
  - by rewrite (proj2 (Z.eqb_neq i fd)) by done.
Qed.

Lemma desc_map_set_open c fd o p :
  table_ok c → aget (file_desc c) fd = Some p →
  (∀ j, bit_at o j = (j =? fd) || bit_at (open_fds c) j) →
  desc_map (with_open c o) = <[fd := (p, bit_at (cloexec_fds c) fd)]> (desc_map c).
Proof.
  intros Ht Hp Ho. pose proof (aget_Some_lt _ _ _ Hp) as Hr. rewrite (t_desc _ Ht) in Hr.
  apply map_eq. intros i. rewrite lookup_insert, !lookup_desc_map. simpl.
  unfold desc_entry; simpl. rewrite Ho.
  repeat case_decide; try done; subst; try lia.
  - by rewrite Z.eqb_refl, Hp.
  - by rewrite (proj2 (Z.eqb_neq i fd)) by done.
Qed.

Lemma desc_map_set_desc c fd p l :
  aset (file_desc c) fd p = Some l → bit_at (open_fds c) fd = true → table_ok c →
  desc_map (with_file_desc c l) = <[fd := (p, bit_at (cloexec_fds c) fd)]> (desc_map c).
Proof.
  intros Hl Hb Ht. pose proof (aset_Some_lt _ _ _ _ Hl) as Hr. rewrite (t_desc _ Ht) in Hr.
  apply map_eq. intros i. rewrite lookup_insert, !lookup_desc_map. simpl.
  unfold desc_entry; simpl. rewrite (aget_aset _ _ _ _ _ Hl).
  repeat case_decide; try done; subst; try lia. by rewrite Hb.
Qed.

Lemma desc_map_set_desc_closed c fd p l :
  aset (file_desc c) fd p = Some l → bit_at (open_fds c) fd = false →
  desc_map (with_file_desc c l) = desc_map c.
Proof.
  intros Hl Hb. apply desc_map_ext; [done|]. intros i Hi. unfold desc_entry; simpl.
  rewrite (aget_aset _ _ _ _ _ Hl). case_decide; [subst; by rewrite Hb|done].
Qed.

Lemma desc_map_cloexec c fd b l :
  (∀ j, bit_at l j = if decide (j = fd) then b else bit_at (cloexec_fds c) j) →
  desc_map (with_cloexec c l) = alter (λ e, (e.1, b)) fd (desc_map c).
Proof.
  intros Hl. apply map_eq. intros i. rewrite lookup_alter, !lookup_desc_map. simpl.
  unfold desc_entry; simpl. rewrite Hl. repeat case_decide; subst; try done.
  destruct (bit_at (open_fds c) fd); [|done]. by destruct (aget (file_desc c) fd).
Qed.

Lemma desc_map_Some c i p b :
  table_ok c →
  desc_map c !! i = Some (p, b) ↔
  0 <= i < file_desc_entries c ∧ bit_at (open_fds c) i = true ∧
  aget (file_desc c) i = Some p ∧ bit_at (cloexec_fds c) i = b.
Proof.
  intros Ht. rewrite lookup_desc_map. unfold desc_entry. case_decide as Hd; [|naive_solver].
  destruct (bit_at (open_fds c) i); [|naive_solver].
  destruct (aget (file_desc c) i); naive_solver.
Qed.

Lemma desc_map_None c i :
  table_ok c → 0 <= i < file_desc_entries c →
  desc_map c !! i = None ↔ bit_at (open_fds c) i = false.
Proof.
  intros Ht Hi. rewrite lookup_desc_map, decide_True by done. unfold desc_entry.
  destruct (bit_at (open_fds c) i); [|done].
  destruct (aget_is_Some (file_desc c) i) as [p Hp]; [rewrite (t_desc _ Ht); lia|].
  by rewrite Hp.
Qed.

Lemma desc_map_is_Some c i :
  table_ok c →
  is_Some (desc_map c !! i) ↔ 0 <= i < file_desc_entries c ∧ bit_at (open_fds c) i = true.
Proof.
  intros Ht. rewrite lookup_desc_map. case_decide as Hd.
  - rewrite <- not_eq_None_Some.
    assert (Hdm := desc_map_None c i Ht Hd). rewrite lookup_desc_map, decide_True in Hdm by done.
    rewrite Hdm. destruct (bit_at (open_fds c) i); naive_solver.
  - rewrite is_Some_alt. naive_solver.
Qed.

(** [table_ok] depends on the sizes and the words only. *)
Lemma table_ok_update c c' :
  table_ok c → file_desc_entries c' = file_desc_entries c →
  length (file_desc c') = length (file_desc c) →
  length (open_fds c') = length (open_fds c) → words_ok (open_fds c') →
  length (cloexec_fds c') = length (cloexec_fds c) → words_ok (cloexec_fds c') →
  table_ok c'.
Proof. intros [] He Hd Ho ? Hc ?. split; rewrite ?He, ?Hd, ?Ho, ?Hc; done. Qed.

Create HintDb fdtable.
#[export] Hint Resolve t_open_words t_cloexec_words inv_table inv_heap inv_counts : fdtable.

Ltac table_solver :=
  eapply table_ok_update; [eassumption|..]; simpl; eauto using length_aset with fdtable.

(** ** Symbolic execution of the primitives *)

Section rules.
Context (s : kstate).

Lemma wp_fd_lock (Q : unit → kstate → Prop) :
  unlocked s → Q tt (set_ctx s (with_lock (ctx s) true)) → wp fd_lock Q s.
Proof. intros Hu HQ. unfold fd_lock. wp_steps; [by rewrite Hu|done]. Qed.

Lemma wp_fd_unlock (Q : unit → kstate → Prop) :
  Q tt (set_ctx s (with_lock (ctx s) false)) → wp fd_unlock Q s.
Proof. done. Qed.

Lemma wp_get_file p f (Q : file → kstate → Prop) :
  p ≠ 0 → files s !! p = Some f → Q f s → wp (get_file p) Q s.
Proof.
  intros Hp Hf HQ. unfold get_file. wp_steps; [|done|done].
  by rewrite (proj2 (Z.eqb_neq p 0)).
Qed.

Lemma wp_fd_get p f (Q : unit → kstate → Prop) :
  p ≠ 0 → files s !! p = Some f →
  Q tt (set_files s (<[p := with_ref f (u64 (f_refcount f + 1))]> (files s))) →
  wp (fd_get p) Q s.
Proof. intros ? ? HQ. unfold fd_get. wp_step. by eapply wp_get_file. Qed.

Lemma wp_validate fd (Q : bool → kstate → Prop) :
  table_ok (ctx s) → is_int fd →
  Q (bool_decide (is_Some (desc_map (ctx s) !! fd))) s → wp (validate_fd_number fd) Q s.
Proof.
  intros Ht Hi HQ. unfold validate_fd_number.
  pose proof (desc_map_is_Some _ fd Ht) as Hiff. unfold is_int, INT_MAX in Hi.
  wp_step; [wp_step; rewrite bool_decide_false in HQ; [done|rewrite Hiff; lia]|].
  do 2 wp_step. rewrite u32_small by lia. wp_step.
  { wp_step. rewrite bool_decide_false in HQ; [done|]. rewrite Hiff. lia. }
  unfold fd_is_open. do 3 wp_step. wp_step.
  { apply bit_get_Some. rewrite (t_open _ Ht). lia. }
  destruct (bit_at (open_fds (ctx s)) fd) eqn:Eb; simpl; apply wp_ret.
  - rewrite bool_decide_true in HQ; [done|]. apply Hiff. split; [lia|done].
  - rewrite bool_decide_false in HQ; [done|]. by intros [_ ?]%Hiff.
Qed.

Lemma wp_desc_get fd p (Q : Z → kstate → Prop) :
  aget (file_desc (ctx s)) fd = Some p → Q p s → wp (desc_get fd) Q s.
Proof. intros Hp HQ. unfold desc_get. wp_steps; done. Qed.

Lemma wp_desc_set fd p (Q : unit → kstate → Prop) :
  table_ok (ctx s) → 0 <= fd < file_desc_entries (ctx s) →
  (∀ l, aset (file_desc (ctx s)) fd p = Some l →
        table_ok (with_file_desc (ctx s) l) →
        Q tt (set_ctx s (with_file_desc (ctx s) l))) →
  wp (desc_set fd p) Q s.
Proof.
  intros Ht Hi HQ. unfold desc_set. do 3 wp_step. pose proof (t_desc _ Ht).
  destruct (aset (file_desc (ctx s)) fd p) as [l|] eqn:E; [|by rewrite aset_is_Some in E by lia].
  wp_step; [done|]. apply HQ; [done|].
  table_solver.
Qed.

Lemma wp_set_open fd (Q : unit → kstate → Prop) :
  table_ok (ctx s) → 0 <= fd < file_desc_entries (ctx s) →
  (∀ l, (∀ j, bit_at l j = (j =? fd) || bit_at (open_fds (ctx s)) j) →
        table_ok (with_open (ctx s) l) → Q tt (set_ctx s (with_open (ctx s) l))) →
  wp (fd_set_open fd true) Q s.
Proof.
  intros Ht Hi HQ. unfold fd_set_open.
  destruct (bit_set_spec (open_fds (ctx s)) (t_open_words _ Ht) fd) as (l & Hl & Hlen & Hok & Hb).
  { rewrite (t_open _ Ht). lia. }
  do 3 wp_step. wp_step; [exact Hl|]. apply HQ; [done|].
  table_solver.
Qed.

Lemma wp_fd_close_bit fd (Q : unit → kstate → Prop) :
  table_ok (ctx s) → 0 <= fd < file_desc_entries (ctx s) →
  (∀ l, (∀ j, bit_at l j = negb (j =? fd) && bit_at (open_fds (ctx s)) j) →
        table_ok (with_open (ctx s) l) → Q tt (set_ctx s (with_open (ctx s) l))) →
  wp (fd_close_bit fd) Q s.
Proof.
  intros Ht Hi HQ. unfold fd_close_bit.
  destruct (bit_clear_spec (open_fds (ctx s)) (t_open_words _ Ht) fd) as (l & Hl & Hlen & Hok & Hb).
  { rewrite (t_open _ Ht). lia. }
  do 3 wp_step. wp_step; [exact Hl|]. apply HQ; [done|].
  table_solver.
Qed.

Lemma wp_set_cloexec fd b (Q : unit → kstate → Prop) :
  table_ok (ctx s) → 0 <= fd < file_desc_entries (ctx s) →
  (∀ l, (∀ j, bit_at l j = if decide (j = fd) then b else bit_at (cloexec_fds (ctx s)) j) →
        table_ok (with_cloexec (ctx s) l) → Q tt (set_ctx s (with_cloexec (ctx s) l))) →
  wp (fd_set_cloexec fd b) Q s.
Proof.
  intros Ht Hi HQ. unfold fd_set_cloexec.
  assert (Hr : 0 <= fd < 64 * Z.of_nat (length (cloexec_fds (ctx s)))).
  { rewrite (t_cloexec _ Ht). lia. }
  destruct (bit_set_spec _ (t_cloexec_words _ Ht) fd Hr) as (l & Hl & Hlen & Hok & Hb).
  destruct (bit_clear_spec _ (t_cloexec_words _ Ht) fd Hr) as (l' & Hl' & Hlen' & Hok' & Hb').
  do 3 wp_step. destruct b.
  - wp_step; [exact Hl|]. apply HQ.
    + intros j. rewrite Hb. case_decide; [subst; by rewrite Z.eqb_refl|].
      by rewrite (proj2 (Z.eqb_neq j fd)).
    + table_solver.
  - wp_step; [exact Hl'|]. apply HQ.
    + intros j. rewrite Hb'. case_decide; [subst; by rewrite Z.eqb_refl|].
      by rewrite (proj2 (Z.eqb_neq j fd)).
    + table_solver.
Qed.
End rules.

(** [fd_put] drops one reference, and frees the file with the last one. *)
Lemma wp_fd_put s own p (Q : unit → kstate → Prop) :
  counts_ok own (files s) → own p ≠ 0 →
  (∀ fs rel, counts_ok (bump own p (-1)) fs →
     (∀ q, q ≠ p → fs !! q = files s !! q) →
     (fs !! p = None ↔ own p = 1) →
     (∃ f, files s !! p = Some f ∧
        (own p ≠ 1 → rel = released s ∧ fs !! p = Some (with_ref f (own p - 1))) ∧
        (own p = 1 → rel = released s ++ [(f_ino f, f_dentry f)])) →
     Q tt (set_files (set_released s rel) fs)) →
  wp (fd_put p) Q s.
Proof.
  intros Hc Hp HQ. destruct (counts_ok_live _ _ _ Hc Hp) as (Hp0 & f & Hf & Hr & Hb).
  unfold fd_put. wp_step. eapply wp_get_file; [done..|].
  rewrite Hr, u64_small by lia. destruct Hc as [H0 H].
  wp_step.
  - wp_steps.
    apply (HQ (delete p (files s)) (released s ++ [(f_ino f, f_dentry f)])).
    + split.
      * rewrite lookup_delete. by case_decide.
      * intros q. unfold bump. rewrite lookup_delete. case_decide; [subst; lia|apply H].
    + intros q Hq. by apply lookup_delete_ne.
    + rewrite lookup_delete_eq. split; [lia|done].
    + exists f. split; [done|]. split; [lia|done].
  - change (MkK _ _ _ _ _ _ _ _ _) with s.
    apply (HQ (<[p := with_ref f (own p - 1)]> (files s)) (released s)).
    + split.
      * by rewrite lookup_insert_ne.
      * intros q. unfold bump. rewrite lookup_insert. case_decide; [subst; simpl; lia|apply H].
    + intros q Hq. by apply lookup_insert_ne.
    + rewrite lookup_insert_eq. split; [done|lia].
    + exists f. split; [done|]. split; [|lia]. intros _. split; [done|]. apply lookup_insert_eq.
Qed.

(** ** Growing the table *)

(** What the operations on the arrays alone leave unchanged. *)
Record env_eq (s s' : kstate) : Prop := {
  e_files : files s' = files s;
  e_inodes : inodes s' = inodes s;
  e_nofile : nofile_cur s' = nofile_cur s;
  e_cred : cred s' = cred s;
  e_heap : heap s' = heap s;
  e_released : released s' = released s;
  e_cwd : cwd (ctx s') = cwd (ctx s);
  e_umask : umask (ctx s') = umask (ctx s);
}.

#[export] Instance env_eq_refl : Reflexive env_eq.
Proof. by intros s. Qed.
#[export] Instance env_eq_trans : Transitive env_eq.
Proof. intros s1 s2 s3 [] []. split; congruence. Qed.

Lemma env_eq_heap_ok s s' : env_eq s s' → heap_ok s → heap_ok s'.
Proof. intros He H k junk n. rewrite (e_heap _ _ He). apply H. Qed.

Lemma memcpy_words_spec dst src n :
  0 <= n → n = Z.of_nat (length src) → n <= Z.of_nat (length dst) →
  memcpy_words dst src n = Some (src ++ drop (length src) dst).
Proof.
  intros H0 -> Hd. unfold memcpy_words.
  rewrite (proj2 (Z.leb_le _ _)) by done. rewrite (proj2 (Z.leb_le _ _)) by lia.
  simpl. by rewrite Nat2Z.id, firstn_all.
Qed.

Lemma fresh_words_ok (s : kstate) k junk n :
  heap_ok s → heap s k = Some junk → words_ok (junk <$> seq 0 n).
Proof.
  intros Hh Hk. unfold words_ok. rewrite Forall_fmap. apply Forall_true.
  intros x. by apply (Hh k).
Qed.

(** The table after a successful growth to [n'] entries: the old descriptors are
    kept and the new ones are closed, whatever the new memory holds. *)
Record grown (c c' : ioctx) (n' : Z) : Prop := {
  g_table : table_ok c';
  g_entries : file_desc_entries c' = n';
  g_map : desc_map c' = desc_map c;
  g_lock : fdlock c' = fdlock c;
  g_open : ∀ i, bit_at (open_fds c') i = bit_at (open_fds c) i;
}.

Lemma grown_intro c table cloexec open n' :
  table_ok c → 64 * (n' / 64) = n' → file_desc_entries c <= n' <= INT_MAX →
  length table = Z.to_nat n' →
  length cloexec = Z.to_nat (n' / 64) → words_ok cloexec →
  open = replicate (Z.to_nat (n' / 64)) 0 →
  grown c (with_entries (with_open (with_cloexec
              (with_file_desc c (file_desc c ++ drop (length (file_desc c)) table))
              (cloexec_fds c ++ drop (length (cloexec_fds c)) cloexec))
              (open_fds c ++ drop (length (open_fds c)) open)) n') n'.
Proof.
  intros Ht Hm Hn Hlt Hlc Hwc ->. pose proof Ht as [Hn0 Hd Ho Hc How Hcw].
  assert (Hbit : ∀ i, bit_at (open_fds c ++
             drop (length (open_fds c)) (replicate (Z.to_nat (n' / 64)) 0)) i = bit_at (open_fds c) i).
  { intros i. rewrite drop_replicate.
    destruct (Z.lt_ge_cases i (64 * Z.of_nat (length (open_fds c)))) as [|Hge].
    - by rewrite bit_at_app.
    - rewrite bit_at_app_r, bit_at_replicate_0 by done.
      symmetry. apply bit_at_out. lia. }
  split; [split|done|..|done|done]; simpl.
  - lia.
  - rewrite length_app, length_drop. lia.
  - rewrite length_app, length_drop, length_replicate. lia.
  - rewrite length_app, length_drop. lia.
  - apply Forall_app_2; [done|]. rewrite drop_replicate. apply Forall_replicate. done.
  - apply Forall_app_2; [done|]. by apply Forall_drop.
  - apply map_eq. intros i. rewrite !lookup_desc_map. simpl. unfold desc_entry; simpl.
    rewrite Hbit. destruct (decide (0 <= i < file_desc_entries c)) as [Hi|Hi].
    + rewrite decide_True by lia. rewrite aget_app_l by lia. by rewrite bit_at_app by lia.
    + case_decide; [|done]. by rewrite (bit_at_out (open_fds c)) by lia.
Qed.

Lemma wp_enlarge s new_size (Q : Z → kstate → Prop) :
  let n' := 64 * ((new_size + 63) / 64) in
  table_ok (ctx s) → heap_ok s → 0 <= new_size <= 2 ^ 31 → file_desc_entries (ctx s) <= new_size →
  (∀ s', env_eq s s' → ctx s' = ctx s → errno s' = errno s →
         ((∃ k, heap s k = None) → Q (- ENOMEM) s') ∧
         ((INT_MAX < n' ∨ nofile_cur s <= n') → Q (- EBADF) s')) →
  (∀ s', env_eq s s' → grown (ctx s) (ctx s') n' → n' < nofile_cur s →
         errno s' = errno s → Q 0 s') →
  wp (enlarge_file_descriptor_table new_size) Q s.
Proof.
  intros n' Ht Hh Hb Hle Hfail HQ.
  assert (Hdiv : 64 * ((new_size + 63) / 64) <= new_size + 63 < 64 * ((new_size + 63) / 64) + 64).
  { pose proof (Z.div_mod (new_size + 63) 64 ltac:(lia)).
    pose proof (Z.mod_pos_bound (new_size + 63) 64 ltac:(lia)). lia. }
  unfold enlarge_file_descriptor_table, FILE_DESCRIPTOR_GROW_NR, FDS_PER_LONG.
  rewrite ALIGN_TO_64 by lia. fold n'. rewrite u32_small by (unfold n'; lia).
  assert (Hnn : n' / 8 / 8 = n' / 64) by (rewrite Z.div_div by lia; done).
  assert (Hm64 : 64 * (n' / 64) = n').
  { unfold n'. rewrite (Z.mul_comm 64 ((new_size + 63) / 64)), Z.div_mul by lia. lia. }
  do 2 wp_step. do 2 wp_step. wp_step.
  { wp_step. apply (Hfail s); [done..|]. unfold INT_MAX in *. lia. }
  unfold malloc, zalloc, FD_ENTRIES_TO_FDSET_SIZE. rewrite Hnn.
  wp_steps. simpl.
  destruct (heap s (allocs s)) as [j1|] eqn:E1; simpl;
    [destruct (heap s (S (allocs s))) as [j2|] eqn:E2; simpl;
     [destruct (heap s (S (S (allocs s)))) as [j3|] eqn:E3; simpl|]|];
    try (unfold upd_ctx; wp_steps; apply Hfail; [by split|by destruct s as [? ? []]|done|by eexists]).
  pose proof Ht as [Hn0 Hd Ho Hc How Hcw].
  assert (Hold : file_desc_entries (ctx s) / 8 / 8 = Z.of_nat (length (open_fds (ctx s)))).
  { rewrite Z.div_div, <- Ho, Z.mul_comm, Z.div_mul by lia. done. }
  do 2 wp_step. simpl. wp_step. wp_step.
  { apply memcpy_words_spec; [lia..|]. rewrite length_fmap, length_seq. unfold n'. lia. }
  wp_step. rewrite Hold. wp_step.
  { apply memcpy_words_spec; [lia..|]. rewrite length_fmap, length_seq. unfold n' in *. lia. }
  wp_step. wp_step.
  { apply memcpy_words_spec; [lia..|]. rewrite length_replicate. unfold n' in *. lia. }
  unfold upd_ctx. wp_steps. simpl.
  apply HQ; [done| |unfold INT_MAX in *; lia|done].
  apply grown_intro; rewrite ?length_fmap, ?length_seq, ?length_replicate; try done.
  - unfold n', INT_MAX in *. lia.
  - by eapply fresh_words_ok.
Qed.

(** ** Finding a free descriptor *)

Section search.
Context (open : list Z) (fdbase : Z).
Hypothesis Hok : words_ok open.
Hypothesis Hint : 64 * Z.of_nat (length open) <= INT_MAX.

Lemma alloc_fd_bits_spec n i j w :
  aget open i = Some w → 0 <= j → j + Z.of_nat n = 64 →
  match alloc_fd_bits n i j fdbase w with
  | Some j' =>
      j <= j' < 64 ∧ fdbase <= 64 * i + j' ∧ bit_at open (64 * i + j') = false ∧
      ∀ k, 64 * i + j <= k < 64 * i + j' → fdbase <= k → bit_at open k = true
  | None =>
      ∀ k, 64 * i + j <= k < 64 * i + 64 → fdbase <= k → bit_at open k = true
  end.
Proof.
  intros Hw. pose proof (aget_Some_lt _ _ _ Hw) as Hi.
  assert (Hbit : ∀ j', 0 <= j' < 64 → bit_at open (64 * i + j') = word_test w j').
  { intros j' Hj'. rewrite (bit_at_word open _ w).
    - rewrite word_test_spec by done. f_equal. unfold bits_per_long.
      rewrite Z.add_comm, Z.mul_comm, Z.mod_add, Z.mod_small by lia. done.
    - rewrite <- Hw. f_equal. unfold bits_per_long.
      rewrite Z.add_comm, Z.mul_comm, Z.div_add, Z.div_small by lia. lia. }
  revert j. induction n as [|n IH]; intros j Hj Hn; simpl; [lia|].
  specialize (IH (j + 1) ltac:(lia) ltac:(lia)).
  assert (Hstep : word_test w j = true ∨ 64 * i + j < fdbase →
    match alloc_fd_bits n i (j + 1) fdbase w with
    | Some j' =>
        j <= j' < 64 ∧ fdbase <= 64 * i + j' ∧ bit_at open (64 * i + j') = false ∧
        ∀ k, 64 * i + j <= k < 64 * i + j' → fdbase <= k → bit_at open k = true
    | None =>
        ∀ k, 64 * i + j <= k < 64 * i + 64 → fdbase <= k → bit_at open k = true
    end).
  { intros Hskip.
    assert (Hj0 : ∀ k, k = 64 * i + j → fdbase <= k → bit_at open k = true).
    { intros k -> ?. rewrite Hbit by lia. destruct Hskip; [done|lia]. }
    destruct (alloc_fd_bits n i (j + 1) fdbase w) as [j'|].
    - destruct IH as (? & ? & ? & Hall). repeat split; try lia; try done.
      intros k Hk ?. destruct (Z.eq_dec k (64 * i + j)); [by apply Hj0|].
      apply Hall; lia.
    - intros k Hk ?. destruct (Z.eq_dec k (64 * i + j)); [by apply Hj0|]. apply IH; lia. }
  destruct (word_test w j) eqn:Et; [by apply Hstep; left|].
  unfold FDS_PER_LONG. rewrite i32_small by (unfold is_int, INT_MAX in *; lia).
  destruct (Z.ltb_spec (64 * i + j) fdbase); [by apply Hstep; right|].
  repeat split; try lia. by rewrite Hbit by lia.
Qed.

Lemma alloc_fd_longs_spec n i :
  0 <= i → i + Z.of_nat n = Z.of_nat (length open) ∨ n = 0%nat →
  match alloc_fd_longs n i fdbase open with
  | Fault _ => False
  | Done (Some (i', j')) =>
      let fd := 64 * i' + j' in
      i <= i' < Z.of_nat (length open) ∧ 0 <= j' < 64 ∧
      fdbase <= fd ∧ bit_at open fd = false ∧
      ∀ k, 64 * i <= k < fd → fdbase <= k → bit_at open k = true
  | Done None =>
      ∀ k, 64 * i <= k < 64 * (i + Z.of_nat n) → fdbase <= k → bit_at open k = true
  end.
Proof.
  revert i. induction n as [|n IH]; intros i Hi Hn; simpl; [lia|].
  destruct Hn as [Hn|]; [|done].
  destruct (aget_is_Some open i) as [w Hw]; [lia|]. rewrite Hw.
  pose proof (words_ok_aget _ _ _ Hok Hw) as Hwr.
  specialize (IH (i + 1) ltac:(lia) ltac:(left; lia)).
  assert (Hskip : (∀ k, 64 * i <= k < 64 * i + 64 → fdbase <= k → bit_at open k = true) →
    match alloc_fd_longs n (i + 1) fdbase open with
    | Fault _ => False
    | Done (Some (i', j')) =>
        let fd := 64 * i' + j' in
        i <= i' < Z.of_nat (length open) ∧ 0 <= j' < 64 ∧
        fdbase <= fd ∧ bit_at open fd = false ∧
        ∀ k, 64 * i <= k < fd → fdbase <= k → bit_at open k = true
    | Done None =>
        ∀ k, 64 * i <= k < 64 * (i + Z.of_nat (S n)) → fdbase <= k → bit_at open k = true
    end).
  { intros Hword. destruct (alloc_fd_longs n (i + 1) fdbase open) as [[[i' j']|]|]; [..|done].
    - destruct IH as (? & ? & ? & ? & Hall). repeat split; try lia; try done.
      intros k Hk ?. destruct (Z.lt_ge_cases k (64 * i + 64)); [apply Hword; lia|apply Hall; lia].
    - intros k Hk ?. destruct (Z.lt_ge_cases k (64 * i + 64)); [apply Hword; lia|apply IH; lia]. }
  assert (Hbit : ∀ j', 0 <= j' < 64 → bit_at open (64 * i + j') = Z.testbit w j').
  { intros j' Hj'. rewrite (bit_at_word open _ w).
    - f_equal. unfold bits_per_long. rewrite Z.add_comm, Z.mul_comm, Z.mod_add, Z.mod_small by lia. done.
    - rewrite <- Hw. f_equal. unfold bits_per_long.
      rewrite Z.add_comm, Z.mul_comm, Z.div_add, Z.div_small by lia. lia. }
  destruct (Z.eqb_spec w ULONG_MAX) as [Hw1|Hw1].
  { apply Hskip. intros k Hk _. replace k with (64 * i + (k - 64 * i)) by lia.
    rewrite Hbit by lia. rewrite Hw1. change ULONG_MAX with (Z.ones 64).
    apply Z.ones_spec_low. lia. }
  destruct (ctzl_lnot_spec w Hwr Hw1) as (Hz & Hz0 & Hz1).
  set (z := ctzl (u64 (Z.lnot w))) in *.
  assert (Hlow : ∀ k, 64 * i <= k < 64 * i + z → bit_at open k = true).
  { intros k Hk. replace k with (64 * i + (k - 64 * i)) by lia.
    rewrite Hbit by lia. apply Hz1. lia. }
  pose proof (alloc_fd_bits_spec (Z.to_nat (FDS_PER_LONG - z)) i z w Hw ltac:(lia)
                ltac:(unfold FDS_PER_LONG; lia)) as Hbs.
  destruct (alloc_fd_bits _ i z fdbase w) as [j'|].
  - destruct Hbs as (? & ? & ? & Hall). repeat split; try lia; try done.
    intros k Hk ?. destruct (Z.lt_ge_cases k (64 * i + z)); [apply Hlow; lia|apply Hall; lia].
  - apply Hskip. intros k Hk ?.
    destruct (Z.lt_ge_cases k (64 * i + z)); [apply Hlow; lia|apply Hbs; lia].
Qed.
End search.

(** What a search for a descriptor that ends in an error leaves. *)
Record alloc_err (s : kstate) (fdbase r : Z) (s' : kstate) : Prop := {
  ae_env : env_eq s s';
  ae_errno : errno s' = errno s;
  ae_table : table_ok (ctx s');
  ae_map : desc_map (ctx s') = desc_map (ctx s);
  ae_unlocked : unlocked s';
  ae_why :
    (r = - EBADF ∧ (fdbase < 0 ∨ fdbase = INT_MAX ∨ nofile_cur s <= fdbase)) ∨
    (r = - EMFILE ∧ ∃ fd, lowest_free (desc_map (ctx s)) fdbase fd ∧ nofile_cur s < fd) ∨
    (r = - ENOMEM ∧
       (∀ k, fdbase <= k < file_desc_entries (ctx s') → is_Some (desc_map (ctx s) !! k)) ∧
       ((∃ k, heap s k = None) ∨ INT_MAX < file_desc_entries (ctx s') + 64
        ∨ nofile_cur s <= file_desc_entries (ctx s') + 64));
}.

(** What a successful search leaves: the descriptor is marked as open, without the
    close-on-exec flag, and its pointer is still to be written. *)
Record alloc_ok (s : kstate) (fdbase r : Z) (s' : kstate) : Prop := {
  ao_env : env_eq s s';
  ao_errno : errno s' = errno s;
  ao_table : table_ok (ctx s');
  ao_range : 0 <= r < file_desc_entries (ctx s');
  ao_free : lowest_free (desc_map (ctx s)) fdbase r;
  ao_limit : r <= nofile_cur s;
  ao_map : ∃ junk, desc_map (ctx s') = <[r := (junk, false)]> (desc_map (ctx s));
  ao_locked : fdlock (ctx s') = true;
}.

Definition alloc_post (s : kstate) (fdbase r : Z) (s' : kstate) : Prop :=
  (r < 0 ∧ alloc_err s fdbase r s') ∨ (0 <= r ∧ alloc_ok s fdbase r s').

Lemma alloc_post_grown s s1 fdbase r s' n :
  env_eq s s1 → errno s1 = errno s → grown (ctx s) (ctx s1) n →
  alloc_post s1 fdbase r s' → alloc_post s fdbase r s'.
Proof.
  intros He Herr Hg [[Hr H]|[Hr H]]; [left|right]; (split; [done|]); destruct H;
    rewrite ?(g_map _ _ _ Hg), ?(e_nofile _ _ He), ?(e_heap _ _ He) in *;
    split; try done; try congruence; by etrans.
Qed.

(** The free descriptor the two loops find is the lowest one. *)
Lemma alloc_fd_longs_lowest c fdbase i j :
  table_ok c → 0 <= fdbase →
  alloc_fd_longs (Z.to_nat (file_desc_entries c / 64 - fdbase / 64)) (fdbase / 64) fdbase (open_fds c)
    = Done (Some (i, j)) →
  lowest_free (desc_map c) fdbase (64 * i + j) ∧ 0 <= 64 * i + j < file_desc_entries c ∧
  0 <= j < 64 ∧ 0 <= i.
Proof.
  intros Ht Hb E. pose proof Ht as [Hn Hd Ho Hc How Hcw].
  assert (Hlen : file_desc_entries c / 64 = Z.of_nat (length (open_fds c))).
  { rewrite <- Ho, Z.mul_comm, Z.div_mul by lia. done. }
  pose proof (Z.div_pos fdbase 64 Hb ltac:(lia)) as Hs.
  pose proof (alloc_fd_longs_spec (open_fds c) fdbase How ltac:(lia)
                (Z.to_nat (file_desc_entries c / 64 - fdbase / 64)) (fdbase / 64) Hs ltac:(lia)) as H.
  rewrite E in H. destruct H as (Hi & Hj & Hge & Hfree & Hall).
  pose proof (Z.mul_div_le fdbase 64 ltac:(lia)).
  split; [|lia]. split; [done|]. split.
  - apply desc_map_None; [done|lia|done].
  - intros k Hk. apply desc_map_is_Some; [done|]. split; [lia|]. apply Hall; lia.
Qed.

Lemma alloc_fd_longs_full c fdbase :
  table_ok c → 0 <= fdbase →
  match alloc_fd_longs (Z.to_nat (file_desc_entries c / 64 - fdbase / 64)) (fdbase / 64)
          fdbase (open_fds c) with
  | Done None => ∀ k, fdbase <= k < file_desc_entries c → bit_at (open_fds c) k = true
  | Done (Some _) => True
  | Fault _ => False
  end.
Proof.
  intros Ht Hb. pose proof Ht as [Hn Hd Ho Hc How Hcw].
  assert (Hlen : file_desc_entries c / 64 = Z.of_nat (length (open_fds c))).
  { rewrite <- Ho, Z.mul_comm, Z.div_mul by lia. done. }
  pose proof (Z.div_pos fdbase 64 Hb ltac:(lia)) as Hs.
  pose proof (alloc_fd_longs_spec (open_fds c) fdbase How ltac:(lia)
                (Z.to_nat (file_desc_entries c / 64 - fdbase / 64)) (fdbase / 64) Hs ltac:(lia)) as H.
  destruct (alloc_fd_longs _ _ _ _) as [[[i j]|]|]; [done| |done].
  pose proof (Z.mul_div_le fdbase 64 ltac:(lia)).
  pose proof (Z.mul_succ_div_gt fdbase 64 ltac:(lia)).
  intros k Hk. apply H; lia.
Qed.

(** The found descriptor is marked. *)
Lemma wp_alloc_mark s fdbase i j :
  table_ok (ctx s) → fdlock (ctx s) = true → 0 <= j < 64 → 0 <= i →
  0 <= 64 * i + j < file_desc_entries (ctx s) →
  lowest_free (desc_map (ctx s)) fdbase (64 * i + j) → 64 * i + j <= nofile_cur s →
  wp (w ← from_opt (aget (open_fds (ctx s)) i) OutOfBounds;
      l ← from_opt (aset (open_fds (ctx s)) i (word_set w j)) OutOfBounds;
      _ ← upd_ctx (λ c, with_open c l);
      _ ← fd_set_cloexec (64 * i + j) false;
      mret (64 * i + j)) (alloc_post s fdbase) s.
Proof.
  intros Ht Hl Hj Hi Hr Hlf Hlim.
  destruct (bit_set_spec (open_fds (ctx s)) (t_open_words _ Ht) (64 * i + j)) as (l & Hset & Hlen & Hok & Hb).
  { rewrite (t_open _ Ht). lia. }
  assert (Hq : (64 * i + j) / bits_per_long = i).
  { unfold bits_per_long. rewrite Z.add_comm, Z.mul_comm, Z.div_add, Z.div_small by lia. lia. }
  assert (Hm : (64 * i + j) mod bits_per_long = j).
  { unfold bits_per_long. rewrite Z.add_comm, Z.mul_comm, Z.mod_add, Z.mod_small by lia. done. }
  unfold bit_set in Hset. rewrite Hq, Hm in Hset.
  destruct (aget (open_fds (ctx s)) i) as [w|] eqn:Ew; [|done]. simpl in Hset.
  do 2 wp_step; [done|]. do 2 wp_step; [done|].
  wp_step. unfold upd_ctx. do 2 wp_step.
  assert (Ht' : table_ok (with_open (ctx s) l)) by table_solver.
  apply wp_set_cloexec; [done|done|]. intros ce Hce Hte. wp_step. right. split; [lia|].
  split; try done. simpl.
  destruct (aget_is_Some (file_desc (ctx s)) (64 * i + j)) as [junk Hjunk].
  { rewrite (t_desc _ Ht). lia. }
  exists junk. rewrite (desc_map_cloexec (with_open (ctx s) l) (64 * i + j) false) by done.
  rewrite (desc_map_set_open _ _ _ _ Ht Hjunk Hb). by rewrite alter_insert_eq.
Qed.

Lemma wp_alloc_fd_loop fuel s fdbase :
  table_ok (ctx s) → heap_ok s → fdlock (ctx s) = true → 0 <= fdbase < INT_MAX → (0 < fuel)%nat →
  fdbase < file_desc_entries (ctx s) + 64 * (Z.of_nat fuel - 1) →
  (fuel = 1%nat → bit_at (open_fds (ctx s)) (file_desc_entries (ctx s) - 1) = false) →
  0 <= nofile_cur s →
  wp (alloc_fd_loop fuel (fdbase / 64) fdbase) (alloc_post s fdbase) s.
Proof.
  revert s. induction fuel as [|fuel IH]; intros s Ht Hh Hl Hb Hf Hreach Hfresh Hlim; [lia|].
  simpl. do 2 wp_step. unfold FDS_PER_LONG at 1 2.
  pose proof (alloc_fd_longs_full (ctx s) fdbase Ht ltac:(lia)) as Hfull.
  destruct (alloc_fd_longs _ _ _ _) as [[[i j]|]|] eqn:E; [..|done].
  - destruct (alloc_fd_longs_lowest (ctx s) fdbase i j Ht ltac:(lia) E) as (Hlf & Hr & Hj & Hi).
    pose proof (t_entries _ Ht). unfold FDS_PER_LONG.
    rewrite i32_small by (unfold is_int, INT_MAX in *; lia).
    rewrite u64_small by (unfold INT_MAX in *; lia).
    do 3 wp_step; [|apply wp_alloc_mark; auto; lia].
    wp_step. apply wp_fd_unlock. wp_step. left. split; [done|]. split; try done.
    + table_solver.
    + right; left. split; [done|]. exists (64 * i + j). split; [done|lia].
  - assert (Hused : ∀ k, fdbase <= k < file_desc_entries (ctx s) → is_Some (desc_map (ctx s) !! k)).
    { intros k Hk. apply desc_map_is_Some; [done|]. split; [lia|by apply Hfull]. }
    pose proof (t_entries _ Ht) as Hn. pose proof (t_open _ Ht) as Ho. unfold INT_MAX in Hn.
    unfold FILE_DESCRIPTOR_GROW_NR, FDS_PER_LONG. rewrite u32_i32 by lia.
    set (n := file_desc_entries (ctx s)) in *.
    assert (Hal : 64 * ((n + 64 + 63) / 64) = n + 64).
    { replace (n + 64 + 63) with (63 + (Z.of_nat (length (open_fds (ctx s))) + 1) * 64) by lia.
      rewrite Z.div_add by lia. change (63 / 64) with 0. lia. }
    wp_step. apply wp_enlarge; [done|done|lia|fold n; lia|..]; rewrite Hal.
    + intros s' He Hc Herr.
      assert (Herrs : (∃ k, heap s k = None) ∨ INT_MAX < n + 64 ∨ nofile_cur s <= n + 64 →
                alloc_err s fdbase (- ENOMEM) (set_ctx s' (with_lock (ctx s') false))).
      { intros Hwhy. split; try done; simpl; rewrite ?Hc; try done.
        - destruct He. split; try done; simpl; by rewrite Hc.
        - table_solver.
        - right; right. done. }
      split; intros Hwhy; simpl; wp_step; apply wp_fd_unlock; wp_step; left; (split; [done|]); apply Herrs; tauto.
    + intros s1 He Hg Hlt Herr. simpl. eapply wp_mono; [|intros r s'; by eapply alloc_post_grown].
      destruct fuel as [|fuel].
      { exfalso. specialize (Hfresh eq_refl). rewrite Hfull in Hfresh; [done|lia]. }
      pose proof (g_entries _ _ _ Hg) as Hge.
      apply IH; [apply Hg|by eapply env_eq_heap_ok| |done|lia| | |].
      * by rewrite (g_lock _ _ _ Hg).
      * rewrite Hge. lia.
      * intros _. rewrite (g_open _ _ _ Hg), Hge. apply bit_at_out. lia.
      * by rewrite (e_nofile _ _ He).
Qed.

(** [alloc_fd] neither faults nor runs out of turns. *)
Lemma wp_alloc_fd s fdbase :
  table_ok (ctx s) → heap_ok s → unlocked s → is_int fdbase → 0 <= nofile_cur s →
  wp (alloc_fd fdbase) (alloc_post s fdbase) s.
Proof.
  intros Ht Hh Hu Hb Hlim. unfold alloc_fd. do 2 wp_step.
  assert (Hu32 : 0 <= fdbase → u32 fdbase = fdbase).
  { intros. apply u32_small. unfold is_int, INT_MAX in *. lia. }
  wp_step.
  { wp_step. left. split; [done|]. split; try done. left. split; [done|].
    destruct (Z.ltb_spec fdbase 0); [by left|]. rewrite Hu32 in * by done. right.
    lia. }
  unfold is_int, INT_MAX in *.
  wp_step. apply wp_fd_lock; [done|]. rewrite Hu32 in * by lia.
  set (s1 := set_ctx s (with_lock (ctx s) true)).
  eapply wp_mono.
  - apply (wp_alloc_fd_loop (alloc_fd_fuel fdbase) s1); try done; try table_solver.
    + unfold INT_MAX. lia.
    + unfold alloc_fd_fuel. lia.
    + unfold alloc_fd_fuel, FDS_PER_LONG. pose proof (Z.mul_succ_div_gt fdbase 64 ltac:(lia)).
      pose proof (Z.div_pos fdbase 64 ltac:(lia) ltac:(lia)). pose proof (t_entries _ Ht). simpl. lia.
  - intros r s' [[Hr Hp]|[Hr Hp]]; [left|right]; (split; [done|]); destruct Hp; split; try done;
      (etrans; [|eassumption]); by split.
Qed.
