(* ===== verification/FileOps.v ===== *)
(** * FileOps: the system calls on descriptors implement their contract.

    The reference-counting lemmas relate [fd_get] and [fd_put] to the view of
    FileSpec; each system call then gets one lemma that it does not fault, keeps
    the invariant, releases the lock and meets [spec_op]. *)

From S2P Require Import Prelude Bits Abi Cred FileTable FileSpec FileFacts.

(** ** The view and the reference counts *)

Lemma no_ref_with_ref f n : no_ref (with_ref f n) = no_ref f.
Proof. done. Qed.

Lemma view_files_get (fs : gmap Z file) p f n :
  fs !! p = Some f → no_ref <$> <[p := with_ref f n]> fs = no_ref <$> fs.
Proof.
  intros Hp. rewrite fmap_insert, no_ref_with_ref. apply insert_id.
  by rewrite lookup_fmap, Hp.
Qed.

Lemma sweep_counts own fs : counts_ok own fs → sweep own (no_ref <$> fs) = no_ref <$> fs.
Proof.
  intros [_ H]. apply map_filter_id. intros p f Hp. simpl.
  rewrite lookup_fmap in Hp. specialize (H p). destruct (fs !! p); [lia|done].
Qed.

Lemma sweep_ext own own' fs : (∀ p, own p = own' p) → sweep own fs = sweep own' fs.
Proof. intros He. apply map_filter_ext. intros p f _. simpl. by rewrite He. Qed.

Lemma bump_bump own p q : bump (bump own p 1) p (-1) q = own q.
Proof. unfold bump. case_decide; lia. Qed.

Lemma uses_bump held m w p k q : uses (bump held p k) m w q = bump (uses held m w) p k q.
Proof. unfold uses, bump. repeat case_decide; lia. Qed.

(** What a call that works on files only leaves unchanged. *)
Record keep (s s' : kstate) : Prop := {
  k_ctx : ctx s' = ctx s;
  k_env : env_of s' = env_of s;
  k_heap : heap s' = heap s;
  k_errno : errno s' = errno s;
}.

#[export] Instance keep_refl : Reflexive keep.
Proof. by intros s. Qed.
#[export] Instance keep_trans : Transitive keep.
Proof. intros s1 s2 s3 [] []. split; congruence. Qed.

Definition room (held : Z → Z) : Prop := ∀ p, 0 <= held p < 2 ^ 31.

Lemma room_bump held p : room held → ∀ q, 0 <= bump held p 1 q < 2 ^ 32.
Proof. intros H q. specialize (H q). unfold bump. case_decide; lia. Qed.

(** The invariant after a change of the files or of the table. *)
Lemma inv_change held held' s s' :
  inv held s → env_of s' = env_of s → heap s' = heap s → table_ok (ctx s') →
  (∀ p, 0 <= held' p < 2 ^ 32) → counts_ok (owned held' (ctx s')) (files s') →
  (∀ p f, files s' !! p = Some f → is_Some (inodes s' !! f_ino f)) →
  inv held' s'.
Proof.
  intros [] [= He _ _] Hh Ht Hb Hc Hi. split; try done.
  - intros k junk n. rewrite Hh. apply inv_heap.
  - by rewrite He.
Qed.

Lemma inv_set_lock held s b : inv held s → inv held (set_ctx s (with_lock (ctx s) b)).
Proof. intros Hi. eapply inv_change; eauto; try apply Hi. pose proof (inv_table _ _ Hi). table_solver. Qed.

Lemma inv_set_errno held s e : inv held s → inv held (set_errno s e).
Proof. intros Hi. eapply inv_change; eauto; apply Hi. Qed.

Lemma relock s : unlocked s → set_ctx s (with_lock (ctx s) false) = s.
Proof. destruct s as [? ? []]; simpl. by intros [= ->]. Qed.

(** [fd_put] in terms of the counts it is justified by. *)
Lemma wp_put_counts s own p (Q : unit → kstate → Prop) :
  counts_ok own (files s) → own p ≠ 0 →
  (∀ fs rel, counts_ok (bump own p (-1)) fs →
     no_ref <$> fs = sweep (bump own p (-1)) (no_ref <$> files s) →
     Q tt (set_files (set_released s rel) fs)) →
  wp (fd_put p) Q s.
Proof.
  intros Hc Hp HQ. eapply wp_fd_put; [done..|].
  intros fs rel Hc' Hne Hnone (f & Hf & Hmore & Hlast). apply HQ; [done|].
  rewrite <- (sweep_counts _ _ Hc'). apply map_eq. intros q. unfold sweep.
  rewrite !map_lookup_filter, !lookup_fmap.
  destruct (decide (q = p)) as [->|Hq]; [|by rewrite Hne].
  destruct (decide (own p = 1)) as [E|E].
  - rewrite (proj2 Hnone E), Hf. simpl. rewrite (option_guard_False (bump own p (-1) p ≠ 0)); [done|].
    unfold bump. rewrite decide_True by done. lia.
  - destruct (Hmore E) as [_ ->]. by rewrite Hf.
Qed.

(** Every file that is left after a sweep has a live inode if it had one before. *)
Lemma sweep_inodes own s (fs : gmap Z file) p f :
  (∀ p f, files s !! p = Some f → is_Some (inodes s !! f_ino f)) →
  no_ref <$> fs = sweep own (no_ref <$> files s) →
  fs !! p = Some f → is_Some (inodes s !! f_ino f).
Proof.
  intros Hi Hsw Hp.
  assert (Hn : (no_ref <$> fs) !! p = Some (no_ref f)) by (by rewrite lookup_fmap, Hp).
  rewrite Hsw in Hn. unfold sweep in Hn. apply map_lookup_filter_Some in Hn as [Hn _].
  rewrite lookup_fmap in Hn. destruct (files s !! p) as [g|] eqn:Eg; [|done].
  injection Hn as Hs1 Hs2 Hs3 Hs4. simpl in *. rewrite <- Hs2. by apply (Hi p g).
Qed.

Section references.
Context (held : Z → Z) (s : kstate).
Hypothesis Hroom : room held.

Lemma wp_get_ref p (Q : unit → kstate → Prop) :
  inv held s → owned held (ctx s) p ≠ 0 →
  (∀ s', inv (bump held p 1) s' → keep s s' → no_ref <$> files s' = no_ref <$> files s → Q tt s') →
  wp (fd_get p) Q s.
Proof.
  intros Hi Hp HQ. pose proof (inv_counts _ _ Hi) as Hc. pose proof (owned_bound _ _ p Hi).
  destruct (counts_ok_live _ _ _ Hc Hp) as (Hp0 & f & Hf & Hr & Hb).
  eapply wp_fd_get; [done..|]. apply HQ; [|done|by apply view_files_get].
  eapply inv_change; try done; try apply Hi.
  - by apply room_bump.
  - simpl. eapply counts_ok_ext; [|apply counts_ok_get; try done; lia].
    intros q. symmetry. apply uses_bump.
  - intros q g. simpl. rewrite lookup_insert. case_decide; [|apply Hi].
    intros [= <-]. subst. by apply (inv_inodes _ _ Hi q f).
Qed.

(** Dropping the extra reference to [p] frees what nothing else refers to. *)
Lemma wp_put_ref p (Q : unit → kstate → Prop) :
  inv (bump held p 1) s →
  (∀ s', inv held s' → keep s s' →
     no_ref <$> files s' = sweep (owned held (ctx s)) (no_ref <$> files s) → Q tt s') →
  wp (fd_put p) Q s.
Proof.
  intros Hi HQ. pose proof (inv_counts _ _ Hi) as Hc.
  assert (Hown : ∀ q, bump (owned (bump held p 1) (ctx s)) p (-1) q = owned held (ctx s) q).
  { intros q. unfold owned. etrans; [|apply (bump_bump _ p)].
    unfold bump at 1 3. by rewrite !uses_bump. }
  assert (Hpos : 0 <= owned held (ctx s) p).
  { unfold owned, uses. pose proof (refs_nonneg (desc_map (ctx s)) p). specialize (Hroom p).
    case_decide; lia. }
  pose proof (Hown p) as Hown1. unfold bump at 1 in Hown1. rewrite decide_True in Hown1 by done.
  eapply wp_put_counts; [done|lia|]. intros fs rel Hc' Hsw.
  apply HQ; [|done|by rewrite <- (sweep_ext _ _ _ Hown)].
  eapply inv_change; try done; try apply Hi.
  - intros q. specialize (Hroom q). lia.
  - simpl. by eapply counts_ok_ext.
  - intros q g. simpl. eapply (sweep_inodes _ s); [apply Hi|done].
Qed.
End references.

(** The same view, with possibly different reference counts. *)
Record same (s s' : kstate) : Prop := {
  s_keep : keep s s';
  s_files : no_ref <$> files s' = no_ref <$> files s;
}.

#[export] Instance same_refl : Reflexive same.
Proof. by intros s. Qed.
#[export] Instance same_trans : Transitive same.
Proof. intros s1 s2 s3 [] []. split; [by etrans|congruence]. Qed.

Lemma same_view s s' : same s s' → view_of s' = view_of s.
Proof. intros [[Hc _ _ _] Hf]. unfold view_of. by rewrite Hc, Hf. Qed.

Lemma same_unlocked s s' : same s s' → unlocked s → unlocked s'.
Proof. intros [[Hc _ _ _] _]. unfold unlocked. by rewrite Hc. Qed.

Lemma desc_owned held c fd p b :
  0 <= held p → desc_map c !! fd = Some (p, b) → owned held c p ≠ 0.
Proof.
  intros Hr Hm. pose proof (refs_pos _ _ _ _ Hm).
  unfold owned, uses. case_decide; lia.
Qed.

Lemma unlock_same s s' :
  unlocked s → same (set_ctx s (with_lock (ctx s) true)) s' →
  same s (set_ctx s' (with_lock (ctx s') false)).
Proof.
  intros Hu [[Hc [= He1 He2 He3] Hh Hr] Hf]. split; [split|]; simpl in *; try done.
  - rewrite Hc. by apply (f_equal ctx (relock s Hu)).
  - unfold env_of. simpl. congruence.
Qed.

Section lookups.
Context (held : Z → Z) (s : kstate).
Hypothesis Hroom : room held.

(** Dropping a reference to a file that a descriptor still refers to. *)
Lemma wp_put_live p (Q : unit → kstate → Prop) :
  inv (bump held p 1) s → owned held (ctx s) p ≠ 0 →
  (∀ s', inv held s' → same s s' → Q tt s') → wp (fd_put p) Q s.
Proof.
  intros Hi Hp HQ. eapply wp_put_ref; [done..|]. intros s' Hi' Hk Hf.
  apply HQ; [done|]. split; [done|]. rewrite Hf. apply map_filter_id.
  intros q g Hq. simpl. rewrite lookup_fmap in Hq. destruct (inv_counts _ _ Hi) as [_ Hc].
  specialize (Hc q). destruct (files s !! q) as [g'|]; [|done].
  unfold owned in Hc. rewrite uses_bump in Hc. unfold bump in Hc. fold (owned held (ctx s) q) in Hc.
  case_decide; [by subst|lia].
Qed.

Lemma wp_lookup_unlocked fd (Q : Z → kstate → Prop) :
  inv held s → is_int fd →
  (∀ p b s', desc_map (ctx s) !! fd = Some (p, b) → p ≠ 0 →
     inv (bump held p 1) s' → same s s' → Q p s') →
  (desc_map (ctx s) !! fd = None → Q 0 (set_errno s EBADF)) →
  wp (__get_file_description_unlocked fd) Q s.
Proof.
  intros Hi Hfd HS HN. pose proof (inv_table _ _ Hi) as Ht.
  unfold __get_file_description_unlocked. wp_step. apply wp_validate; [done..|].
  destruct (desc_map (ctx s) !! fd) as [[p b]|] eqn:E.
  - rewrite bool_decide_true by done. simpl.
    pose proof (desc_owned held _ _ _ _ (proj1 (Hroom p)) E) as Ho.
    apply desc_map_Some in E as E'; [|done]. destruct E' as (_ & _ & Hp & _).
    wp_step. eapply wp_desc_get; [done|]. wp_step. eapply wp_get_ref; [done..|].
    intros s' Hi' Hk Hf. wp_step. eapply HS; [done| |done|done].
    by apply (counts_ok_live _ _ _ (inv_counts _ _ Hi) Ho).
  - rewrite bool_decide_false by (by intros [? ?]). simpl.
    unfold put_errno. wp_steps. by apply HN.
Qed.

End lookups.

Lemma wp_get_file_description held s fd (Q : Z → kstate → Prop) :
  room held → inv held s → unlocked s → is_int fd →
  (∀ p b s', desc_map (ctx s) !! fd = Some (p, b) → p ≠ 0 →
     inv (bump held p 1) s' → same s s' → Q p s') →
  (desc_map (ctx s) !! fd = None → Q 0 (set_errno s EBADF)) →
  wp (get_file_description fd) Q s.
Proof.
  intros Hroom Hi Hu Hfd HS HN. unfold get_file_description, __get_file_description.
  wp_step. apply wp_fd_lock; [done|]. wp_step.
  eapply wp_lookup_unlocked; [done|by apply inv_set_lock|done|..].
  - intros p b s' Hp Hp0 Hi' Hs. wp_step. apply wp_fd_unlock. wp_step.
    eapply HS; [done|done|by apply inv_set_lock|by apply unlock_same].
  - intros Hn. wp_step. apply wp_fd_unlock. wp_step. specialize (HN Hn).
    rewrite <- (relock s Hu) in HN. exact HN.
Qed.

(** ** Changes of the table *)

(** The descriptors of [s'] are [m], the files nothing refers to are gone, and the
    rest is as in [s]. *)
Record moved (held : Z → Z) (m : gmap Z (Z * bool)) (s s' : kstate) : Prop := {
  m_map : desc_map (ctx s') = m;
  m_files : no_ref <$> files s' = sweep (owned held (ctx s')) (no_ref <$> files s);
  m_env : env_of s' = env_of s;
  m_cwd : cwd (ctx s') = cwd (ctx s);
  m_umask : umask (ctx s') = umask (ctx s);
  m_lock : fdlock (ctx s') = fdlock (ctx s);
  m_errno : errno s' = errno s;
}.

Lemma moved_view held m s s' :
  moved held m s s' → view_of s' = collect held (v_set_fds (view_of s) m).
Proof.
  intros [Hm Hf _ Hc Hu _ _]. unfold view_of, collect, v_set_fds; simpl.
  rewrite Hf, Hc, Hu. unfold owned. by rewrite Hm, Hc.
Qed.

Lemma uses_delete held m w fd p b q :
  m !! fd = Some (p, b) → uses held (delete fd m) w q = bump (uses held m w) p (-1) q.
Proof.
  intros Hm. unfold uses, bump. rewrite (refs_delete _ _ _ _ _ Hm). repeat case_decide; lia.
Qed.

Lemma uses_insert held m w fd p b q :
  m !! fd = None → uses held (<[fd := (p, b)]> m) w q = bump (uses held m w) p 1 q.
Proof.
  intros Hm. unfold uses, bump. rewrite refs_insert by done. repeat case_decide; lia.
Qed.

Lemma wp_close_unlocked held s fd (Q : Z → kstate → Prop) :
  inv held s → is_int fd →
  (∀ p b s', desc_map (ctx s) !! fd = Some (p, b) → inv held s' →
     moved held (delete fd (desc_map (ctx s))) s s' →
     file_desc_entries (ctx s') = file_desc_entries (ctx s) → Q 0 s') →
  (desc_map (ctx s) !! fd = None → Q (- EBADF) s) →
  wp (__file_close_unlocked fd) Q s.
Proof.
  intros Hi Hfd HS HN. pose proof (inv_table _ _ Hi) as Ht.
  unfold __file_close_unlocked. wp_step. apply wp_validate; [done..|].
  destruct (desc_map (ctx s) !! fd) as [[p b]|] eqn:E; cycle 1.
  { rewrite bool_decide_false by (by intros [? ?]). simpl. wp_step. by apply HN. }
  rewrite bool_decide_true by done. simpl.
  pose proof (desc_owned held _ _ _ _ (proj1 (inv_held _ _ Hi p)) E) as Ho.
  apply desc_map_Some in E as E'; [|done]. destruct E' as (Hr & Hbit & Hp & _).
  wp_step. eapply wp_desc_get; [done|]. wp_step.
  eapply wp_put_counts; [apply Hi|done|]. intros fs rel Hc Hsw. wp_step.
  apply wp_desc_set; [done|done|]. intros l Hl Htl. simpl in Hl, Htl. wp_step.
  apply wp_fd_close_bit; [done|done|]. intros o Hbo Hto. simpl in Hbo, Hto. wp_step.
  assert (Hm : desc_map (with_open (with_file_desc (ctx s) l) o) = delete fd (desc_map (ctx s))).
  { rewrite (desc_map_clear_open (with_file_desc (ctx s) l) fd) by done.
    rewrite (desc_map_set_desc _ _ _ _ Hl Hbit Ht). apply delete_insert_eq. }
  assert (Hown : ∀ q, owned held (with_open (with_file_desc (ctx s) l) o) q
                 = bump (owned held (ctx s)) p (-1) q).
  { intros q. unfold owned. rewrite Hm. simpl. by apply (uses_delete _ _ _ _ _ b). }
  eapply HS; [done| | |done].
  - eapply inv_change; try done; try apply Hi; simpl.
    + eapply counts_ok_ext; [|exact Hc]. done.
    + intros q g. eapply (sweep_inodes _ s); [apply Hi|done].
  - split; try done. simpl. rewrite Hsw. by apply sweep_ext.
Qed.

(** A reference held for [p] becomes the reference of the new descriptor [r]. *)
Lemma inv_new_desc held s s' r p b :
  room held → inv (bump held p 1) s → desc_map (ctx s) !! r = None →
  files s' = files s → env_of s' = env_of s → heap s' = heap s → errno s' = errno s →
  table_ok (ctx s') → desc_map (ctx s') = <[r := (p, b)]> (desc_map (ctx s)) →
  cwd (ctx s') = cwd (ctx s) → umask (ctx s') = umask (ctx s) → fdlock (ctx s') = fdlock (ctx s) →
  inv held s' ∧ moved held (<[r := (p, b)]> (desc_map (ctx s))) s s'.
Proof.
  intros Hroom Hi Hr Hf He Hh Herr Ht Hm Hw Hu Hl.
  assert (Hc : counts_ok (owned held (ctx s')) (files s)).
  { eapply counts_ok_ext; [|apply (inv_counts _ _ Hi)]. intros q. unfold owned.
    rewrite Hm, Hw, uses_insert by done. by rewrite uses_bump. }
  split.
  - eapply inv_change; try done.
    + intros q. specialize (Hroom q). lia.
    + by rewrite Hf.
    + injection He as _ -> _. rewrite Hf. apply Hi.
  - split; try done. by rewrite Hf, sweep_counts.
Qed.

(** A new descriptor leaves every file in place. *)
Lemma moved_insert_view held s s' r p b :
  inv held s' → moved held (<[r := (p, b)]> (desc_map (ctx s))) s s' →
  files s' = files s →
  view_of s' = v_set_fds (view_of s) (<[r := (p, b)]> (desc_map (ctx s))).
Proof.
  intros Hi [Hm _ _ Hc Hu _ _] Hf. unfold view_of, v_set_fds; simpl. by rewrite Hf, Hm, Hc, Hu.
Qed.

(** A call ends with the invariant, the lock released and the environment as it
    was, and its result and the new view satisfy [R]. *)
Definition call_post (held : Z → Z) (s : kstate) (R : Z → view → Prop) (r : Z) (s' : kstate) : Prop :=
  inv held s' ∧ unlocked s' ∧ env_of s' = env_of s ∧ R r (view_of s').

Lemma alloc_err_same s fdbase r s' :
  alloc_err s fdbase r s' → unlocked s →
  env_of s' = env_of s ∧ view_of s' = view_of s.
Proof.
  intros [[] _ _ Hm _ _] Hu. split.
  - unfold env_of. congruence.
  - unfold view_of. congruence.
Qed.

Lemma alloc_err_inv held s fdbase r s' : inv held s → alloc_err s fdbase r s' → inv held s'.
Proof.
  intros Hi [He _ Ht Hm _ _]. pose proof He as []. eapply inv_change; try done.
  - unfold env_of. congruence.
  - apply Hi.
  - rewrite e_files. eapply counts_ok_ext; [|apply Hi]. intros q. unfold owned. congruence.
  - rewrite e_files, e_inodes. apply Hi.
Qed.

Lemma alloc_err_spec s fdbase cloexec p r s' :
  alloc_err s fdbase r s' →
  dup_spec (nofile_cur s) fdbase cloexec p (view_of s) r (view_of s).
Proof. intros H. right. split; [done|]. destruct (ae_why _ _ _ _ H) as [?|[?|?]]; naive_solver. Qed.

Lemma dup_spec_view lim base cloexec p v r v' w :
  v = w → dup_spec lim base cloexec p v r v' → dup_spec lim base cloexec p w r v'.
Proof. by intros ->. Qed.

Lemma same_nofile s s' : same s s' → nofile_cur s' = nofile_cur s.
Proof. intros Hs. exact (f_equal e_lim (k_env _ _ (s_keep _ _ Hs))). Qed.

(** Writing the pointer of a descriptor that [alloc_fd] returned. *)
Lemma wp_fill s base r s' p (Q : unit → kstate → Prop) :
  alloc_ok s base r s' →
  (∀ s'', env_eq s s'' → errno s'' = errno s → table_ok (ctx s'') → fdlock (ctx s'') = true →
     0 <= r < file_desc_entries (ctx s'') →
     desc_map (ctx s'') = <[r := (p, false)]> (desc_map (ctx s)) → Q tt s'') →
  wp (desc_set r p) Q s'.
Proof.
  intros [He Herr Ht Hrange Hfree Hlim [junk Hm] Hlock] HQ.
  apply wp_desc_set; [done|done|]. intros l Hl Htl.
  assert (Hr : is_Some (desc_map (ctx s') !! r)) by (by rewrite Hm, lookup_insert_eq).
  pose proof Hr as [[q b] Hq]. apply desc_map_is_Some in Hr as [_ Hbit]; [|done].
  apply desc_map_Some in Hq as Hq'; [|done]. destruct Hq' as (_ & _ & _ & Hce).
  rewrite Hm, lookup_insert_eq in Hq. injection Hq as -> <-.
  apply HQ; simpl; try done.
  - destruct He. by split.
  - rewrite (desc_map_set_desc _ _ _ _ Hl Hbit Ht), Hce, Hm. apply insert_insert_eq.
Qed.

Lemma env_eq_env s s' : env_eq s s' → env_of s' = env_of s.
Proof. intros []. unfold env_of. congruence. Qed.

Section calls.
Context (held : Z → Z) (s : kstate).
Hypothesis Hroom : room held.
Hypothesis Hinv : inv held s.
Hypothesis Hunlocked : unlocked s.

(** Calls that look a descriptor up first. *)
Lemma wp_with_fd fd (k : Z → KM Z) (Q : Z → kstate → Prop) :
  is_int fd →
  (∀ p b s', desc_map (ctx s) !! fd = Some (p, b) → p ≠ 0 →
     inv (bump held p 1) s' → same s s' → wp (k p) Q s') →
  (desc_map (ctx s) !! fd = None → Q (- EBADF) (set_errno s EBADF)) →
  wp (f ← get_file_description fd;
      if f =? 0 then e ← gets errno; mret (- e) else k f) Q s.
Proof.
  intros Hfd HS HN. wp_step. eapply wp_get_file_description; [done..| |].
  - intros p b s' Hp Hp0 Hi Hs. rewrite (proj2 (Z.eqb_neq p 0) Hp0). by eapply HS.
  - intros Hn. simpl. wp_steps. by apply HN.
Qed.

Lemma no_fd_post fd (k : Z → bool → Z → view → Prop) :
  desc_map (ctx s) !! fd = None →
  call_post held s (on_fd (view_of s) fd k) (- EBADF) (set_errno s EBADF).
Proof.
  intros Hn. split; [by apply inv_set_errno|]. split; [done|]. split; [done|].
  unfold on_fd. simpl. by rewrite Hn.
Qed.

Lemma on_fd_post fd p b (k : Z → bool → Z → view → Prop) r s' :
  desc_map (ctx s) !! fd = Some (p, b) → call_post held s (k p b) r s' →
  call_post held s (on_fd (view_of s) fd k) r s'.
Proof.
  intros Hm (? & ? & ? & ?). split; [done|]. split; [done|]. split; [done|].
  unfold on_fd. simpl. by rewrite Hm.
Qed.

Lemma sys_close_post fd : is_int fd → wp (sys_close fd) (call_post held s (spec_op held (env_of s) (OpClose fd) (view_of s))) s.
Proof.
  intros Hfd. unfold sys_close, file_close, __file_close. wp_step. apply wp_fd_lock; [done|]. wp_step.
  eapply wp_close_unlocked; [by apply inv_set_lock|done|..].
  - intros p b s' Hp Hi Hm _. wp_step. apply wp_fd_unlock. wp_step.
    split; [by apply inv_set_lock|]. split; [done|]. split; [apply (m_env _ _ _ _ Hm)|].
    simpl. unfold on_fd. simpl. change (desc_map (ctx s) !! fd = Some (p, b)) in Hp. rewrite Hp.
    split; [done|]. exact (moved_view _ _ _ _ Hm).
  - intros Hn. wp_step. apply wp_fd_unlock. wp_step. rewrite <- (relock s Hunlocked) at 2.
    split; [by do 2 apply inv_set_lock|]. split; [done|]. split; [done|].
    simpl. unfold on_fd. simpl. change (desc_map (ctx s) !! fd = None) in Hn. by rewrite Hn.
Qed.

Lemma sys_dup_post fd : is_int fd → wp (sys_dup fd) (call_post held s (spec_op held (env_of s) (OpDup fd) (view_of s))) s.
Proof.
  intros Hfd. unfold sys_dup. apply wp_with_fd; [done| |by eapply no_fd_post].
  intros p b s1 Hp Hp0 Hi Hs. wp_step.
  assert (Hu : unlocked s1) by (by eapply same_unlocked).
  eapply wp_mono; [apply wp_alloc_fd; [apply Hi|apply Hi|done|done|apply Hi]|].
  intros r s2 [[Hr He]|[Hr Ho]]; cbn beta.
  - rewrite (proj2 (Z.ltb_lt r 0)) by done. wp_step.
    pose proof (alloc_err_inv _ _ _ _ _ Hi He) as Hi2.
    destruct (alloc_err_same _ _ _ _ He Hu) as [Henv Hv].
    eapply wp_put_live; [done|done| |].
    { eapply (desc_owned _ _ fd p b); [apply Hroom|].
      by rewrite (ae_map _ _ _ _ He), (k_ctx _ _ (s_keep _ _ Hs)). }
    intros s3 Hi3 Hs3. wp_step. split; [done|]. split; [eapply same_unlocked; [done|apply He]|].
    split; [by rewrite (k_env _ _ (s_keep _ _ Hs3)), Henv, (k_env _ _ (s_keep _ _ Hs))|].
    simpl. unfold on_fd. simpl. rewrite Hp.
    rewrite (same_view _ _ Hs3), Hv, (same_view _ _ Hs).
    rewrite <- (same_nofile _ _ Hs), <- (same_view _ _ Hs).
    by eapply alloc_err_spec.
  - rewrite (proj2 (Z.ltb_ge r 0)) by done. wp_step. pose proof Ho as [_ _ _ _ Hfree Hlim _ _].
    eapply wp_fill; [done|]. intros s3 He Herr Ht Hlock _ Hm. wp_step. apply wp_fd_unlock. wp_step.
    pose proof He as [Hef _ _ _ Heh _ Hew Heu].
    destruct (inv_new_desc held s1 (set_ctx s3 (with_lock (ctx s3) false)) r p false) as [Hi3 Hmv];
      try done; [apply (proj1 (proj2 Hfree))|exact (env_eq_env _ _ He)|table_solver|].
    split; [done|]. split; [done|]. split; [exact (eq_trans (env_eq_env _ _ He) (k_env _ _ (s_keep _ _ Hs)))|].
    simpl. unfold on_fd. simpl. rewrite Hp. left.
    rewrite (moved_insert_view _ _ _ _ _ _ Hi3 Hmv Hef), (same_view _ _ Hs).
    rewrite (k_ctx _ _ (s_keep _ _ Hs)) in *. rewrite (same_nofile _ _ Hs) in *. done.
Qed.
End calls.

Lemma dup_spec_mono lim base cloexec p v r v' k e :
  dup_spec lim base cloexec p v r v' → v_fds v !! k = Some e → v_fds v' !! k = Some e.
Proof.
  intros [(_ & (_ & Hfree & _) & ->)|[-> _]] Hk; [|done]. simpl.
  rewrite lookup_insert_ne; [done|]. congruence.
Qed.

Lemma inv_get_new held s s' f r p b :
  inv held s → desc_map (ctx s) !! r = None → files s !! p = Some f →
  files s' = <[p := with_ref f (u64 (f_refcount f + 1))]> (files s) →
  env_of s' = env_of s → heap s' = heap s → table_ok (ctx s') →
  desc_map (ctx s') = <[r := (p, b)]> (desc_map (ctx s)) → cwd (ctx s') = cwd (ctx s) →
  inv held s'.
Proof.
  intros Hi Hr Hp Hf He Hh Ht Hm Hw. pose proof (owned_bound _ _ p Hi).
  eapply inv_change; try done; [apply Hi| |].
  - rewrite Hf. eapply counts_ok_ext; [|apply counts_ok_get; [apply Hi|done|lia]].
    intros q. unfold owned. by rewrite Hm, Hw, uses_insert.
  - injection He as _ -> _. rewrite Hf. intros q g. rewrite lookup_insert. case_decide; [|apply Hi].
    intros [= <-]. by apply (inv_inodes _ _ Hi p f).
Qed.

Lemma wp_do_dupfd held s fd p b base cloexec (Q : Z → kstate → Prop) :
  inv held s → unlocked s → is_int base → files s !! p ≠ None → p ≠ 0 →
  desc_map (ctx s) !! fd = Some (p, b) →
  (∀ r s', inv held s' → unlocked s' → env_of s' = env_of s →
     dup_spec (nofile_cur s) base cloexec p (view_of s) r (view_of s') → Q r s') →
  wp (do_dupfd p base cloexec) Q s.
Proof.
  intros Hi Hu Hb Hp Hp0 Hfd HQ. unfold do_dupfd. wp_step.
  { wp_step. apply HQ; try done. right. split; [done|]. left. split; [done|]. lia. }
  wp_step. eapply wp_mono; [apply wp_alloc_fd; [apply Hi|apply Hi|done|done|apply Hi]|].
  intros r s2 [[Hr He]|[Hr Ho]]; cbn beta.
  - rewrite (proj2 (Z.ltb_lt r 0)) by done. wp_step.
    destruct (alloc_err_same _ _ _ _ He Hu) as [Henv Hv].
    apply HQ; [by eapply alloc_err_inv|apply He|done|]. rewrite Hv. by eapply alloc_err_spec.
  - rewrite (proj2 (Z.ltb_ge r 0)) by done. wp_step. pose proof Ho as [_ _ _ _ Hfree Hlim _ _].
    eapply wp_fill; [done|]. intros s3 He Herr Ht Hlock Hrange Hm. wp_step.
    pose proof He as [Hef _ _ _ Heh _ Hew Heu].
    destruct (files s !! p) as [f|] eqn:Ef; [|done].
    eapply wp_fd_get; [done|by rewrite Hef|]. wp_step.
    apply wp_set_cloexec; [done|done|]. intros l Hl Htl. simpl in Hl, Htl. wp_step.
    apply wp_fd_unlock. wp_step. rewrite Hef.
    assert (Hm' : desc_map (with_cloexec (ctx s3) l) = <[r := (p, cloexec)]> (desc_map (ctx s))).
    { rewrite (desc_map_cloexec _ r cloexec) by done. rewrite Hm. by rewrite alter_insert_eq. }
    apply HQ; [|done|exact (env_eq_env _ _ He)|].
    + eapply (inv_get_new held s); try done; [apply (proj1 (proj2 Hfree))|exact (env_eq_env _ _ He)|].
      apply (table_ok_update _ _ Htl); try done; apply Htl.
    + left. split; [done|]. split; [done|]. unfold view_of, v_set_fds; simpl.
      rewrite Hew, Heu. f_equal; [exact Hm'|by apply view_files_get].
Qed.

Lemma i32_int x : is_int (i32 x).
Proof.
  unfold is_int, i32, INT_MAX. pose proof (Z.mod_pos_bound (x + 2 ^ 31) (2 ^ 32) ltac:(lia)). lia.
Qed.

(** A file that is modified while a reference to it is held. *)
Lemma inv_put_file held s p f f' :
  inv held s → files s !! p = Some f → f_refcount f' = f_refcount f → f_ino f' = f_ino f →
  inv held (set_files s (<[p := f']> (files s))).
Proof.
  intros Hi Hf Hr Hino. eapply inv_change; try done; try apply Hi.
  - simpl. eapply counts_ok_update; [apply Hi|done|done].
  - intros q g. simpl. rewrite lookup_insert. case_decide; [|apply Hi].
    intros [= <-]. rewrite Hino. by apply (inv_inodes _ _ Hi p f).
Qed.

Lemma view_put_file s p f' :
  view_of (set_files s (<[p := f']> (files s))) = v_set_file (view_of s) p (no_ref f').
Proof. unfold view_of, v_set_file; simpl. by rewrite fmap_insert. Qed.

(** The file a held reference points to. *)
Lemma held_file held s fd p b :
  room held → inv (bump held p 1) s → desc_map (ctx s) !! fd = Some (p, b) →
  p ≠ 0 ∧ ∃ f i, files s !! p = Some f ∧ inodes s !! f_ino f = Some i ∧
    v_files (view_of s) !! p = Some (no_ref f).
Proof.
  intros Hroom Hi Hfd.
  destruct (counts_ok_live _ _ p (inv_counts _ _ Hi)) as (Hp0 & f & Hf & _).
  { unfold owned. rewrite uses_bump. unfold bump. rewrite decide_True by done.
    pose proof (refs_pos _ _ _ _ Hfd). specialize (Hroom p). unfold uses. case_decide; lia. }
  split; [done|]. destruct (inv_inodes _ _ Hi p f Hf) as [i Hino].
  exists f, i. split; [done|]. split; [done|]. simpl. by rewrite lookup_fmap, Hf.
Qed.
