(* ===== verification/FileCalls.v ===== *)
(** * FileCalls: the remaining system calls on descriptors meet their contract. *)

From S2P Require Import Prelude Bits Abi Cred FileTable FileSpec FileFacts FileOps.

Lemma wp_get_inode s n i (Q : inode → kstate → Prop) :
  inodes s !! n = Some i → Q i s → wp (get_inode n) Q s.
Proof. intros Hi HQ. unfold get_inode. wp_steps; done. Qed.

Section calls.
Context (held : Z → Z) (s : kstate).
Hypothesis Hroom : room held.
Hypothesis Hinv : inv held s.
Hypothesis Hunlocked : unlocked s.

(** Dropping the reference that [get_file_description] took, after [s1] became
    [s2]. *)
Lemma put_back_post s2 fd p b (R : Z → view → Prop) r :
  desc_map (ctx s) !! fd = Some (p, b) → ctx s2 = ctx s → env_of s2 = env_of s →
  inv (bump held p 1) s2 → R r (view_of s2) →
  wp (_ ← fd_put p; mret r) (call_post held s R) s2.
Proof.
  intros Hfd Hc He Hi HR. wp_step. eapply wp_put_live; [done|done| |].
  { eapply (desc_owned _ _ fd p b); [apply Hroom|]. by rewrite Hc. }
  intros s3 Hi3 Hs3. wp_step. split; [done|].
  split; [unfold unlocked; by rewrite (k_ctx _ _ (s_keep _ _ Hs3)), Hc|].
  split; [by rewrite (k_env _ _ (s_keep _ _ Hs3))|]. by rewrite (same_view _ _ Hs3).
Qed.

Lemma sys_lseek_post fd offset whence :
  is_int fd →
  wp (sys_lseek fd offset whence)
     (call_post held s (spec_op held (env_of s) (OpLseek fd offset whence) (view_of s))) s.
Proof.
  intros Hfd. unfold sys_lseek. eapply wp_with_fd; [done..| |by apply no_fd_post].
  intros p b s1 Hp Hp0 Hi Hs. pose proof (k_ctx _ _ (s_keep _ _ Hs)) as Hc.
  pose proof (k_env _ _ (s_keep _ _ Hs)) as He.
  destruct (held_file held s1 fd p b) as (_ & f & i & Hf & Hino & Hv); [done|done|by rewrite Hc|].
  wp_step. eapply wp_get_file; [done..|]. wp_step. eapply wp_get_inode; [done|].
  rewrite (same_view _ _ Hs) in Hv.
  assert (Hino' : e_ino (env_of s) !! f_ino (no_ref f) = Some i) by (by rewrite <- He).
  eapply wp_mono; [|intros r s'; by apply (on_fd_post held s fd p b)].
  wp_step.
  destruct ((i_type i =? VFS_TYPE_FIFO) || has (i_flags i) INODE_FLAG_NO_SEEK) eqn:Eseek.
  { wp_step. eapply put_back_post; [done..|]. exists (no_ref f), i. rewrite Eseek.
    by rewrite (same_view _ _ Hs). }
  assert (Hset : ∀ n, (whence =? SEEK_CUR) || (whence =? SEEK_SET) || (whence =? SEEK_END) = true →
    n = (if whence =? SEEK_CUR then i64 (f_seek f + offset)
         else if whence =? SEEK_SET then offset else i64 (i_size i + offset)) →
    wp (_ ← fd_put p; mret n)
      (call_post held s (lseek_spec (env_of s) p offset whence (view_of s)))
      (set_files s1 (<[p := with_seek f n]> (files s1)))).
  { intros n Hw ->. eapply put_back_post; [done|done|done|by eapply inv_put_file|].
    exists (no_ref f), i. rewrite Eseek, Hw. split; [done|]. split; [done|].
    split; [done|]. by rewrite view_put_file, (same_view _ _ Hs). }
  unfold put_file. destruct (whence =? SEEK_CUR) eqn:E1; [wp_step; do 2 wp_step; by apply Hset|].
  destruct (whence =? SEEK_SET) eqn:E2; [wp_step; do 2 wp_step; by apply Hset|].
  destruct (whence =? SEEK_END) eqn:E3; [wp_step; do 2 wp_step; by apply Hset|].
  wp_step. eapply put_back_post; [done..|]. exists (no_ref f), i. rewrite Eseek, E1, E2, E3.
  by rewrite (same_view _ _ Hs).
Qed.

Lemma sys_umask_post mask :
  wp (sys_umask mask) (call_post held s (spec_op held (env_of s) (OpUmask mask) (view_of s))) s.
Proof.
  unfold sys_umask, upd_ctx. wp_steps. split; [|done].
  eapply inv_change; try done; try apply Hinv. pose proof (inv_table _ _ Hinv). table_solver.
Qed.

(** *** fcntl *)

(** The calls that hold the lock around a check of the descriptor. *)
Lemma wp_locked_fd fd (k : KM Z) (kk : Z → bool → Z → view → Prop) :
  is_int fd →
  (∀ p b, desc_map (ctx s) !! fd = Some (p, b) →
     wp k (call_post held s (kk p b)) (set_ctx s (with_lock (ctx s) true))) →
  wp (_ ← fd_lock;
      ok ← validate_fd_number fd;
      if negb ok then _ ← fd_unlock; mret (- EBADF) else k)
     (call_post held s (on_fd (view_of s) fd kk)) s.
Proof.
  intros Hfd HS. wp_step. apply wp_fd_lock; [done|]. wp_step.
  apply wp_validate; [by apply (inv_table held), inv_set_lock|done|].
  change (desc_map (ctx (set_ctx s (with_lock (ctx s) true)))) with (desc_map (ctx s)).
  destruct (desc_map (ctx s) !! fd) as [[p b]|] eqn:E.
  - rewrite bool_decide_true by done. simpl.
    eapply wp_mono; [by apply HS|]. intros r s'. by eapply on_fd_post.
  - rewrite bool_decide_false by (by intros [? ?]). simpl. wp_step. apply wp_fd_unlock. wp_step.
    split; [by do 2 apply inv_set_lock|]. split; [done|]. split; [done|].
    unfold on_fd. simpl. by rewrite E.
Qed.

Lemma wp_is_cloexec s1 fd (Q : bool → kstate → Prop) :
  table_ok (ctx s1) → 0 <= fd < file_desc_entries (ctx s1) →
  Q (bit_at (cloexec_fds (ctx s1)) fd) s1 → wp (fd_is_cloexec fd) Q s1.
Proof.
  intros Ht Hr HQ. unfold fd_is_cloexec. do 2 wp_step. wp_step; [|done].
  apply bit_get_Some. rewrite (t_cloexec _ Ht). lia.
Qed.

Lemma fcntl_getfd_post fd :
  is_int fd →
  wp (fcntl_f_getfd fd) (call_post held s (on_fd (view_of s) fd
    (λ p b r v', r = (if b then FD_CLOEXEC else 0) ∧ v' = view_of s))) s.
Proof.
  intros Hfd. apply wp_locked_fd; [done|]. intros p b Hp.
  pose proof (inv_table _ _ Hinv) as Ht. apply desc_map_Some in Hp as (Hr & _ & _ & Hb); [|done].
  wp_step. apply wp_is_cloexec; [by apply (inv_table held), inv_set_lock|done|].
  wp_step. apply wp_fd_unlock. wp_step. simpl. rewrite Hb.
  split; [by do 2 apply inv_set_lock|]. split; [done|]. by split.
Qed.

Lemma fcntl_setfd_post fd arg :
  is_int fd →
  wp (fcntl_f_setfd fd arg) (call_post held s (on_fd (view_of s) fd
    (λ p b r v', r = 0 ∧
       v' = v_set_fds (view_of s) (<[fd := (p, has arg FD_CLOEXEC)]> (v_fds (view_of s)))))) s.
Proof.
  intros Hfd. apply wp_locked_fd; [done|]. intros p b Hp.
  pose proof (inv_table _ _ Hinv) as Ht. apply desc_map_Some in Hp as Hp'; [|done].
  destruct Hp' as (Hr & _ & _ & Hb).
  wp_step. apply wp_set_cloexec; [by apply (inv_table held), inv_set_lock|done|].
  intros l Hl Htl. wp_step. apply wp_fd_unlock. wp_step. simpl in Hl, Htl.
  assert (Hm : desc_map (with_cloexec (ctx s) l) = <[fd := (p, has arg FD_CLOEXEC)]> (desc_map (ctx s))).
  { rewrite (desc_map_cloexec _ fd (has arg FD_CLOEXEC)) by done.
    rewrite <- (insert_id _ _ _ Hp) at 1. by rewrite alter_insert_eq. }
  split.
  - eapply inv_change; try done; try apply Hinv; simpl.
    + apply (table_ok_update _ _ Htl); try done; apply Htl.
    + eapply counts_ok_ext; [|apply Hinv]. intros q. unfold owned, uses.
      change (desc_map (with_lock _ _)) with (desc_map (with_cloexec (ctx s) l)).
      by rewrite Hm, (refs_flag _ _ _ _ _ _ Hp).
  - split; [done|]. split; [done|]. split; [done|]. unfold view_of, v_set_fds; simpl.
    by f_equal.
Qed.

Lemma fcntl_getfl_post fd :
  is_int fd →
  wp (fcntl_f_getfl fd) (call_post held s (on_fd (view_of s) fd
    (λ p b r v', ∃ f, v_files (view_of s) !! p = Some f ∧
       r = i32 (Z.lor (f_flags f) (if b then O_CLOEXEC else 0)) ∧ v' = view_of s))) s.
Proof.
  intros Hfd. apply wp_locked_fd; [done|]. intros p b Hp.
  pose proof (inv_table _ _ Hinv) as Ht. apply desc_map_Some in Hp as Hp'; [|done].
  destruct Hp' as (Hr & _ & _ & Hb).
  wp_step. apply wp_is_cloexec; [by apply (inv_table held), inv_set_lock|done|].
  wp_step. apply wp_fd_unlock. simpl. rewrite Hb.
  replace (set_ctx _ _) with s by (symmetry; apply (relock s Hunlocked)).
  eapply wp_with_fd; [done..| |congruence]. intros p' b' s1 Hp' Hp0 Hi Hs.
  rewrite Hp in Hp'. injection Hp' as <- <-. pose proof (k_ctx _ _ (s_keep _ _ Hs)) as Hc.
  destruct (held_file held s1 fd p b) as (_ & f & i & Hf & Hino & Hv); [done|done|by rewrite Hc|].
  wp_step. eapply wp_get_file; [done..|].
  eapply put_back_post; [done|done|apply Hs|done|].
  rewrite (same_view _ _ Hs) in *. by exists (no_ref f).
Qed.

Lemma fcntl_setfl_post fd arg :
  is_int fd →
  wp (fcntl_f_setfl fd arg) (call_post held s (on_fd (view_of s) fd
    (λ p b, setfl_spec (env_of s) p arg (view_of s)))) s.
Proof.
  intros Hfd. unfold fcntl_f_setfl. eapply wp_with_fd; [done..| |by apply no_fd_post].
  intros p b s1 Hp Hp0 Hi Hs. pose proof (k_ctx _ _ (s_keep _ _ Hs)) as Hc.
  pose proof (k_env _ _ (s_keep _ _ Hs)) as He.
  destruct (held_file held s1 fd p b) as (_ & f & i & Hf & Hino & Hv); [done|done|by rewrite Hc|].
  eapply wp_mono; [|intros r s'; by apply (on_fd_post held s fd p b)].
  rewrite (same_view _ _ Hs) in Hv.
  assert (Hino' : e_ino (env_of s) !! f_ino (no_ref f) = Some i) by (by rewrite <- He).
  assert (Hcred : e_creds (env_of s) = cred s1) by (by rewrite <- He).
  wp_step. eapply wp_get_file; [done..|]. wp_step.
  apply (wp_mono _ (λ d s', s' = s1 ∧
    d = has (Z.land arg SETFL_MASK) O_NOATIME && negb (may_noatime i (cred s1)))).
  { destruct (has (Z.land arg SETFL_MASK) O_NOATIME); [|by wp_step].
    wp_step. eapply wp_get_inode; [done|]. by wp_steps. }
  intros d s' [-> Hd]. destruct d.
  - eapply put_back_post; [done..|]. exists (no_ref f), i. rewrite Hcred, <- Hd.
    by rewrite (same_view _ _ Hs).
  - unfold put_file. do 2 wp_step. eapply put_back_post; [done|done|done|by eapply inv_put_file|].
    exists (no_ref f), i. rewrite Hcred, <- Hd. split; [done|]. split; [done|]. split; [done|].
    by rewrite view_put_file, (same_view _ _ Hs).
Qed.

Lemma fcntl_dupfd_post fd arg cloexec :
  is_int fd →
  wp (f ← get_file_description fd;
      if f =? 0 then e ← gets errno; mret (- e)
      else r ← do_dupfd f (i32 arg) cloexec; _ ← fd_put f; mret r)
    (call_post held s (on_fd (view_of s) fd
       (λ p _, dup_spec (nofile_cur s) (i32 arg) cloexec p (view_of s)))) s.
Proof.
  intros Hfd. eapply wp_with_fd; [done..| |by apply no_fd_post].
  intros p b s1 Hp Hp0 Hi Hs. pose proof (k_ctx _ _ (s_keep _ _ Hs)) as Hc.
  destruct (held_file held s1 fd p b) as (_ & f & i & Hf & _ & _); [done|done|by rewrite Hc|].
  eapply wp_mono; [|intros r s'; by apply (on_fd_post held s fd p b)].
  wp_step. eapply (wp_do_dupfd (bump held p 1) s1 fd p b); try done.
  - by eapply same_unlocked.
  - apply i32_int.
  - by rewrite Hf.
  - by rewrite Hc.
  - intros r s2 Hi2 Hu2 He2 Hd. wp_step.
    assert (Hp2 : desc_map (ctx s2) !! fd = Some (p, b)).
    { eapply (dup_spec_mono _ _ _ _ _ _ _ fd) in Hd; [exact Hd|]. simpl. by rewrite Hc. }
    eapply wp_put_live; [done|done|eapply desc_owned; [apply Hroom|done]|].
    intros s3 Hi3 Hs3. wp_step. split; [done|]. split; [by eapply same_unlocked|].
    split; [by rewrite (k_env _ _ (s_keep _ _ Hs3)), He2, (k_env _ _ (s_keep _ _ Hs))|].
    rewrite (same_view _ _ Hs3), <- (same_nofile _ _ Hs), <- (same_view _ _ Hs). done.
Qed.

Lemma sys_fcntl_post fd cmd arg :
  is_int fd →
  wp (sys_fcntl fd cmd arg)
     (call_post held s (spec_op held (env_of s) (OpFcntl fd cmd arg) (view_of s))) s.
Proof.
  intros Hfd. unfold sys_fcntl, spec_op, fcntl_known, fcntl_spec. simpl.
  destruct (cmd =? F_DUPFD) eqn:E1; simpl.
  { rewrite (proj1 (Z.eqb_eq _ _) E1). by apply fcntl_dupfd_post. }
  destruct (cmd =? F_DUPFD_CLOEXEC) eqn:E2; simpl; [by apply fcntl_dupfd_post|].
  destruct (cmd =? F_GETFD) eqn:E3; simpl; [by apply fcntl_getfd_post|].
  destruct (cmd =? F_SETFD) eqn:E4; simpl; [by apply fcntl_setfd_post|].
  destruct (cmd =? F_GETFL) eqn:E5; simpl; [by apply fcntl_getfl_post|].
  destruct (cmd =? F_SETFL) eqn:E6; simpl; [by apply fcntl_setfl_post|].
  by wp_step.
Qed.

(** *** fchdir *)

Lemma sys_fchdir_post fd :
  is_int fd → cwd (ctx s) ≠ 0 →
  wp (sys_fchdir fd) (call_post held s (spec_op held (env_of s) (OpFchdir fd) (view_of s))) s.
Proof.
  intros Hfd Hw. unfold sys_fchdir. eapply wp_with_fd; [done..| |by apply no_fd_post].
  intros p b s1 Hp Hp0 Hi Hs. pose proof (k_ctx _ _ (s_keep _ _ Hs)) as Hc.
  pose proof (k_env _ _ (s_keep _ _ Hs)) as He.
  destruct (held_file held s1 fd p b) as (_ & f & i & Hf & Hino & Hv); [done|done|by rewrite Hc|].
  eapply wp_mono; [|intros r s'; by apply (on_fd_post held s fd p b)].
  rewrite (same_view _ _ Hs) in Hv.
  assert (Hino' : e_ino (env_of s) !! f_ino (no_ref f) = Some i) by (by rewrite <- He).
  wp_step. eapply wp_get_file; [done..|]. wp_step. eapply wp_get_inode; [done|].
  destruct (S_ISDIR (i_mode i)) eqn:Ed; simpl; cycle 1.
  { eapply put_back_post; [done..|]. exists (no_ref f), i. rewrite Ed.
    by rewrite (same_view _ _ Hs). }
  unfold upd_ctx. wp_step. do 2 wp_step. wp_step. rewrite Hc. wp_step.
  set (own := uses (bump held p 1) (desc_map (ctx s)) (cwd (ctx s))).
  assert (Hown : ∀ q, bump own (cwd (ctx s)) (-1) q = uses held (desc_map (ctx s)) p q).
  { intros q. unfold own, bump, uses. repeat case_decide; naive_solver lia. }
  assert (Hpos : own (cwd (ctx s)) ≠ 0).
  { unfold own, uses. pose proof (refs_nonneg (desc_map (ctx s)) (cwd (ctx s))).
    pose proof (inv_held _ _ Hi (cwd (ctx s))). rewrite decide_True by done. lia. }
  eapply (wp_put_counts _ own); [|done|].
  { simpl. pose proof (inv_counts _ _ Hi) as Hcs. unfold owned in Hcs. by rewrite Hc in Hcs. }
  intros fs rel Hc' Hsw. wp_step. simpl in Hsw. pose proof (inv_table _ _ Hinv) as Ht.
  split; [|split; [done|split; [done|]]].
  - eapply inv_change; try done; try apply Hinv; simpl.
    + table_solver.
    + eapply counts_ok_ext; [|exact Hc']. intros q. unfold owned. simpl. by rewrite Hown.
    + intros q g. eapply (sweep_inodes _ s1); [apply Hi|done].
  - exists (no_ref f), i. rewrite Ed. split; [done|]. split; [done|]. split; [done|].
    unfold view_of, collect, v_set_cwd; simpl. f_equal.
    rewrite Hsw, (s_files _ _ Hs). by apply sweep_ext.
Qed.
End calls.

(** ** Closing on exec *)

Lemma refs_mono m m' p : m' ⊆ m → refs m' p <= refs m p.
Proof.
  intros Hsub. unfold refs. apply inj_le, map_subseteq_size.
  rewrite map_subseteq_spec in *. intros i e He.
  rewrite map_lookup_filter_Some in *. naive_solver.
Qed.

Lemma sweep_sweep own own' fs :
  (∀ p, own' p ≠ 0 → own p ≠ 0) → sweep own' (sweep own fs) = sweep own' fs.
Proof.
  intros H. unfold sweep. rewrite map_filter_filter. apply map_filter_ext. simpl. naive_solver.
Qed.

Lemma moved_refl held s : inv held s → moved held (desc_map (ctx s)) s s.
Proof. intros Hi. split; try done. symmetry. apply sweep_counts, Hi. Qed.

Lemma moved_trans held m m' s s1 s2 :
  (∀ p, 0 <= held p) → m' ⊆ m → moved held m s s1 → moved held m' s1 s2 → moved held m' s s2.
Proof.
  intros Hh Hsub [Hm1 Hf1 He1 Hc1 Hu1 Hl1 Hr1] [Hm2 Hf2 He2 Hc2 Hu2 Hl2 Hr2].
  split; try congruence. rewrite Hf2, Hf1. apply sweep_sweep.
  intros p. unfold owned, uses. rewrite Hm1, Hm2, Hc2. pose proof (refs_mono _ _ p Hsub).
  pose proof (refs_nonneg m' p). specialize (Hh p). case_decide; lia.
Qed.

(** The descriptors that survive when those in [[i, j)] with the flag are closed. *)
Definition survive (i j : Z) (kv : Z * (Z * bool)) : Prop := i <= kv.1 < j → kv.2.2 = false.
#[export] Instance survive_dec i j kv : Decision (survive i j kv).
Proof. unfold survive. apply _. Defined.

Lemma filter_survive_ne (m : gmap Z (Z * bool)) i :
  (∀ p, m !! i ≠ Some (p, true)) → filter (survive i (i + 1)) m = m.
Proof.
  intros H. apply map_filter_id. intros k [p b] Hk Hr. simpl in *. assert (k = i) as -> by lia.
  destruct b; [|done]. by destruct (H p).
Qed.

Lemma filter_survive_delete (m : gmap Z (Z * bool)) i p :
  m !! i = Some (p, true) → filter (survive i (i + 1)) m = delete i m.
Proof.
  intros H. apply map_eq. intros k. rewrite map_lookup_filter, lookup_delete.
  destruct (m !! k) as [[q b]|] eqn:Ek; simpl; [|by case_decide].
  case_decide as Hd.
  - subst. rewrite H in Ek. injection Ek as <- <-.
    rewrite option_guard_False; [done|]. intros Hs. by specialize (Hs ltac:(simpl; lia)).
  - rewrite option_guard_True; [done|]. intros Hr. simpl in Hr. lia.
Qed.

Lemma filter_survive_app (m : gmap Z (Z * bool)) i j :
  i + 1 <= j →
  filter (survive (i + 1) j) (filter (survive i (i + 1)) m) = filter (survive i j) m.
Proof.
  intros Hj. rewrite map_filter_filter. apply map_filter_ext.
  intros k e _. unfold survive. simpl. split; [|split; intros; naive_solver lia].
  intros [H1 H2] Hk. destruct (Z.eq_dec k i); [apply H2; lia|apply H1; lia].
Qed.

Section exec.
Context (held : Z → Z).

Lemma wp_cloexec_step s i (Q : unit → kstate → Prop) :
  inv held s → 0 <= i < file_desc_entries (ctx s) →
  (∀ s', inv held s' → moved held (filter (survive i (i + 1)) (desc_map (ctx s))) s s' →
     file_desc_entries (ctx s') = file_desc_entries (ctx s) → Q tt s') →
  wp (p ← desc_get i;
      if p =? 0 then mret tt
      else b ← fd_is_cloexec i;
           if b : bool then _ ← __file_close_unlocked i; mret tt else mret tt) Q s.
Proof.
  intros Hi Hr HQ. pose proof (inv_table _ _ Hi) as Ht.
  pose proof (t_entries _ Ht) as Hn.
  destruct (aget_is_Some (file_desc (ctx s)) i) as [p Hp]; [rewrite (t_desc _ Ht); lia|].
  assert (Hstay : (∀ q, desc_map (ctx s) !! i ≠ Some (q, true)) → Q tt s).
  { intros H. apply HQ; [done| |done]. rewrite filter_survive_ne by done. by apply moved_refl. }
  wp_step. eapply wp_desc_get; [done|]. destruct (Z.eqb_spec p 0) as [->|Hp0].
  { wp_step. apply Hstay. intros q Hq.
    pose proof (desc_owned held _ _ _ _ (proj1 (inv_held _ _ Hi q)) Hq) as Ho.
    apply desc_map_Some in Hq as (_ & _ & Hq & _); [|done].
    destruct (counts_ok_live _ _ _ (inv_counts _ _ Hi) Ho) as [Hq0 _]. congruence. }
  wp_step. apply wp_is_cloexec; [done..|].
  destruct (bit_at (cloexec_fds (ctx s)) i) eqn:Eb; cycle 1.
  { wp_step. apply Hstay. intros q (_ & _ & _ & Hb)%desc_map_Some; [|done]. congruence. }
  wp_step. apply (wp_close_unlocked held); [done|unfold is_int, INT_MAX in *; lia| |].
  - intros q b s' Hq Hi' Hm Hent. wp_step. apply HQ; [done| |done].
    apply desc_map_Some in Hq as Hq'; [|done]. destruct Hq' as (_ & _ & _ & Hb).
    rewrite Eb in Hb. subst b. by rewrite (filter_survive_delete _ _ _ Hq).
  - intros Hnone. wp_step. apply Hstay. intros q. by rewrite Hnone.
Qed.

Lemma wp_cloexec_descs n : ∀ s i (Q : unit → kstate → Prop),
  inv held s → 0 <= i → i + Z.of_nat n = file_desc_entries (ctx s) →
  (∀ s', inv held s' →
     moved held (filter (survive i (i + Z.of_nat n)) (desc_map (ctx s))) s s' → Q tt s') →
  wp (cloexec_descs n i) Q s.
Proof.
  induction n as [|n IH]; intros s i Q Hi H0 Hn HQ; simpl.
  - wp_step. apply HQ; [done|]. rewrite map_filter_id; [by apply moved_refl|].
    intros k e _ Hk. simpl in Hk. lia.
  - apply wp_assoc. wp_step. apply wp_cloexec_step; [done|lia|]. intros s1 Hi1 Hm1 Hn1.
    apply IH; [done|lia|lia|]. intros s2 Hi2 Hm2. apply HQ; [done|].
    replace (i + 1 + Z.of_nat n) with (i + Z.of_nat (S n)) in Hm2 by lia.
    rewrite (m_map _ _ _ _ Hm1), filter_survive_app in Hm2 by lia.
    eapply moved_trans; [|..|exact Hm1|exact Hm2]; [apply Hi|].
    apply map_subseteq_spec. intros k e. rewrite !map_lookup_filter_Some.
    intros [? Hs]. split; [done|]. intros Hk. apply Hs. simpl in *. lia.
Qed.
End exec.

Lemma file_do_cloexec_post held s :
  inv held s → unlocked s →
  wp (run_op OpExec) (call_post held s (spec_op held (env_of s) OpExec (view_of s))) s.
Proof.
  intros Hi Hu. unfold run_op, file_do_cloexec. wp_step. wp_step. apply wp_fd_lock; [done|].
  wp_step. wp_step. wp_step. pose proof (t_entries _ (inv_table _ _ Hi)) as Hn.
  apply (wp_cloexec_descs held); [by apply inv_set_lock|done|simpl; lia|].
  intros s1 Hi1 Hm1. apply wp_fd_unlock. wp_step.
  split; [by apply inv_set_lock|]. split; [done|]. split; [apply (m_env _ _ _ _ Hm1)|].
  split; [done|]. etrans; [exact (moved_view _ _ _ _ Hm1)|]. simpl. f_equal.
  unfold v_set_fds. simpl. f_equal. apply map_filter_ext.
  intros k e Hk. unfold survive. simpl. rewrite lookup_desc_map in Hk. simpl in Hk.
  case_decide; [|done]. split; [intros H1; apply H1; lia|done].
Qed.
