(* ===== verification/FileDup.v ===== *)
(** * FileDup: dup2 and dup3, the refinement theorem's assembly, and the table across fork and exit

    [copy_file_descriptors] gives the child the same descriptors and one reference
    for each of them; [process_destroy_file_descriptors] drops every reference of
    the table; [allocate_file_descriptor_table] starts with no descriptor. *)

From S2P Require Import Prelude Bits Abi Cred FileTable FileSpec FileFacts FileOps FileCalls.

(** The part that [sys_dup2] and [sys_dup3] share: [newfd] is closed if it is open
    and then refers to the file of [oldfd]. *)
Definition redirect (oldfd newfd : Z) (cloexec : bool) : KM Z :=
  old ← desc_get newfd;
  _ ← (if truthy old then __file_close_unlocked newfd else mret 0);
  p ← desc_get oldfd;
  _ ← desc_set newfd p;
  _ ← fd_set_cloexec newfd cloexec;
  _ ← fd_set_open newfd true;
  _ ← fd_unlock;
  mret newfd.

(** Closing [newfd] if its slot is not null leaves it closed. *)
Lemma wp_clear_slot held s newfd (Q : Z → kstate → Prop) :
  inv held s → 0 <= newfd < file_desc_entries (ctx s) →
  (∀ r s', inv held s' → moved held (delete newfd (desc_map (ctx s))) s s' →
     file_desc_entries (ctx s') = file_desc_entries (ctx s) → Q r s') →
  wp (old ← desc_get newfd; if truthy old then __file_close_unlocked newfd else mret 0) Q s.
Proof.
  intros Hi Hr HQ. pose proof (inv_table _ _ Hi) as Ht. pose proof (t_entries _ Ht) as Hn.
  destruct (aget_is_Some (file_desc (ctx s)) newfd) as [q Hq]; [rewrite (t_desc _ Ht); lia|].
  assert (Hstay : ∀ r, desc_map (ctx s) !! newfd = None → Q r s).
  { intros r Hnone. apply HQ; [done| |done]. rewrite delete_id by done. by apply moved_refl. }
  wp_step. eapply wp_desc_get; [done|]. unfold truthy. destruct (Z.eqb_spec q 0) as [->|Hq0]; simpl.
  - wp_step. apply Hstay. destruct (desc_map (ctx s) !! newfd) as [[q b]|] eqn:E; [|done]. exfalso.
    pose proof (desc_owned held _ _ _ _ (proj1 (inv_held _ _ Hi q)) E) as Ho.
    apply desc_map_Some in E as (_ & _ & E & _); [|done].
    destruct (counts_ok_live _ _ _ (inv_counts _ _ Hi) Ho) as [? _]. congruence.
  - apply (wp_close_unlocked held); [done|unfold is_int, INT_MAX in *; lia|naive_solver|naive_solver].
Qed.

(** A descriptor that is closed is opened on [p]. *)
Lemma wp_open_slot s newfd p cloexec (Q : unit → kstate → Prop) :
  table_ok (ctx s) → 0 <= newfd < file_desc_entries (ctx s) → desc_map (ctx s) !! newfd = None →
  (∀ c, table_ok c → desc_map c = <[newfd := (p, cloexec)]> (desc_map (ctx s)) →
     cwd c = cwd (ctx s) → umask c = umask (ctx s) → fdlock c = fdlock (ctx s) → Q tt (set_ctx s c)) →
  wp (_ ← (_ ← desc_set newfd p; fd_set_cloexec newfd cloexec); fd_set_open newfd true) Q s.
Proof.
  intros Ht Hr Hnone HQ. do 2 wp_step. apply wp_desc_set; [done|done|]. intros l Hl Htl.
  apply wp_set_cloexec; [done|done|]. intros ce Hce Htce. simpl in Hce, Htce.
  apply wp_set_open; [done|done|]. intros o Ho Hto. simpl in Ho, Hto.
  apply HQ; try done.
  etrans; [apply (desc_map_set_open (with_cloexec (with_file_desc (ctx s) l) ce) newfd o p)|].
  - done.
  - simpl. rewrite (aget_aset _ _ _ _ _ Hl). by rewrite decide_True.
  - done.
  - simpl. rewrite Hce, decide_True by done. f_equal.
    rewrite (desc_map_cloexec (with_file_desc (ctx s) l) newfd cloexec) by done.
    rewrite (desc_map_set_desc_closed _ _ _ _ Hl) by (by apply desc_map_None).
    apply map_eq. intros i. rewrite lookup_alter. case_decide; [subst; by rewrite Hnone|done].
Qed.

Lemma redirect_post held s oldfd newfd cloexec p b :
  room held → inv (bump held p 1) s → oldfd ≠ newfd → 0 <= newfd < file_desc_entries (ctx s) →
  desc_map (ctx s) !! oldfd = Some (p, b) →
  wp (redirect oldfd newfd cloexec)
     (call_post held s (λ r v', r = newfd ∧
        v' = collect held (v_set_fds (view_of s) (<[newfd := (p, cloexec)]> (desc_map (ctx s)))))) s.
Proof.
  intros Hroom Hi Hne Hr Hold. unfold redirect. apply wp_assoc. wp_step.
  eapply wp_clear_slot; [done..|]. intros _ s1 Hi1 Hm1 Hn1. pose proof (inv_table _ _ Hi1) as Ht1.
  assert (Hold1 : aget (file_desc (ctx s1)) oldfd = Some p).
  { apply (desc_map_Some _ _ p b Ht1). by rewrite (m_map _ _ _ _ Hm1), lookup_delete_ne. }
  wp_step. eapply wp_desc_get; [done|].
  apply wp_assoc, wp_assoc. wp_step. apply wp_open_slot; [done|lia| |].
  { by rewrite (m_map _ _ _ _ Hm1), lookup_delete_eq. }
  intros c Htc Hmc Hc Hu Hl. wp_step. apply wp_fd_unlock. wp_step.
  assert (Hnone : desc_map (ctx s1) !! newfd = None) by (by rewrite (m_map _ _ _ _ Hm1), lookup_delete_eq).
  destruct (inv_new_desc held s1 (set_ctx s1 c) newfd p cloexec) as [Hi2 Hm2]; try done.
  split; [exact (inv_set_lock _ _ false Hi2)|]. split; [done|]. split; [apply (m_env _ _ _ _ Hm1)|].
  split; [done|]. rewrite (m_map _ _ _ _ Hm1), insert_delete_eq in Hmc.
  unfold view_of, collect, v_set_fds; simpl. change (desc_map (with_lock c false)) with (desc_map c).
  rewrite Hc, Hu, (m_cwd _ _ _ _ Hm1), (m_umask _ _ _ _ Hm1), Hmc. f_equal.
  rewrite (m_files _ _ _ _ Hm1). apply sweep_ext. intros q. unfold owned.
  rewrite (m_map _ _ _ _ Hm1), (m_cwd _ _ _ _ Hm1).
  rewrite <- (insert_delete_eq (desc_map (ctx s))), uses_insert by apply lookup_delete_eq.
  by rewrite uses_bump.
Qed.

(** The table grows so that it has a slot for [newfd]. *)
Lemma wp_grow_for held s newfd (Q : Z → kstate → Prop) :
  inv held s → 0 <= newfd <= INT_MAX → newfd ≠ file_desc_entries (ctx s) →
  (∀ r s', inv held s' → env_of s' = env_of s → view_of s' = view_of s →
     fdlock (ctx s') = fdlock (ctx s) →
     (r = 0 ∧ newfd < file_desc_entries (ctx s')) ∨ r = - EBADF ∨ r = - ENOMEM → Q r s') →
  wp (if file_desc_entries (ctx s) <? newfd then enlarge_file_descriptor_table (newfd + 1) else mret 0) Q s.
Proof.
  intros Hi Hr Hne HQ. pose proof (inv_table _ _ Hi) as Ht. wp_step; cycle 1.
  { wp_step. apply HQ; try done. left. split; [done|lia]. }
  apply wp_enlarge; [done|apply Hi|unfold INT_MAX in *; lia|lia|..].
  - intros s' He Hc Herr. pose proof He as [Hef Hei _ _ Heh _ _ _].
    assert (Hi' : inv held s').
    { eapply inv_change; try done; [by apply env_eq_env|by rewrite Hc|apply Hi|..].
      - rewrite Hc, Hef. apply Hi.
      - rewrite Hef, Hei. apply Hi. }
    assert (Hv : view_of s' = view_of s) by (unfold view_of; by rewrite Hc, Hef).
    split; intros _; (apply HQ; [done|by apply env_eq_env|done|by rewrite Hc|]); tauto.
  - intros s' He [Htg Hge Hgm Hgl _] Hlt Herr. pose proof He as [Hef Hei _ _ Heh _ Hew Heu].
    apply HQ; [|by apply env_eq_env| |done|].
    + eapply inv_change; try done; [by apply env_eq_env|apply Hi|..].
      * rewrite Hef. eapply counts_ok_ext; [|apply Hi]. intros q. unfold owned. by rewrite Hgm, Hew.
      * rewrite Hef, Hei. apply Hi.
    + unfold view_of. congruence.
    + left. split; [done|]. rewrite Hge.
      pose proof (Z.div_mod (newfd + 1 + 63) 64 ltac:(lia)).
      pose proof (Z.mod_pos_bound (newfd + 1 + 63) 64 ltac:(lia)). lia.
Qed.

(** The body of [sys_dup2] and [sys_dup3] after the checks of their arguments. *)
Definition dup_body (oldfd newfd : Z) (cloexec : bool) (clash : Z) (size : Z) : KM Z :=
  _ ← fd_lock;
  f ← __get_file_description_unlocked oldfd;
  if f =? 0 then
    e ← gets errno;
    _ ← fd_unlock;
    mret (- e)
  else
    n ← gets (λ s, file_desc_entries (ctx s));
    st ← (if n <? u32 newfd then enlarge_file_descriptor_table size else mret 0);
    if st <? 0 then
      _ ← fd_put f;
      _ ← fd_unlock;
      mret st
    else if oldfd =? newfd then
      _ ← fd_unlock;
      mret clash
    else redirect oldfd newfd cloexec.

Lemma sys_dup2_body oldfd newfd :
  sys_dup2 oldfd newfd =
  if (newfd <? 0) || (oldfd <? 0) then mret (- EBADF)
  else dup_body oldfd newfd false newfd (u32 newfd + 1).
Proof. done. Qed.

Lemma sys_dup3_body oldfd newfd flags :
  sys_dup3 oldfd newfd flags =
  if (newfd <? 0) || (oldfd <? 0) then mret (- EINVAL)
  else if truthy (Z.land flags (Z.lnot O_CLOEXEC)) then mret (- EINVAL)
  else dup_body oldfd newfd (has flags O_CLOEXEC) (- EINVAL) (u32 (newfd + 1)).
Proof. done. Qed.

Lemma dup_body_post held s oldfd newfd cloexec clash :
  room held → inv held s → unlocked s →
  0 <= oldfd <= INT_MAX → 0 <= newfd <= INT_MAX → oldfd ≠ newfd →
  newfd ≠ file_desc_entries (ctx s) →
  wp (dup_body oldfd newfd cloexec clash (newfd + 1))
     (call_post held s (on_fd (view_of s) oldfd
        (λ p _, redirect_spec held newfd cloexec p (view_of s)))) s.
Proof.
  intros Hroom Hi Hu Hold Hnew Hne Hsz. unfold dup_body. wp_step. apply wp_fd_lock; [done|]. wp_step.
  eapply wp_lookup_unlocked; [done|by apply inv_set_lock|unfold is_int, INT_MAX in *; lia|..]; simpl; cycle 1.
  { intros Hn. simpl. do 3 wp_step. apply wp_fd_unlock. wp_step.
    split; [by apply inv_set_lock, inv_set_errno, inv_set_lock|]. split; [done|]. split; [done|].
    unfold on_fd. simpl. change (desc_map (ctx s) !! oldfd = None) in Hn. by rewrite Hn. }
  intros p b s1 Hp Hp0 Hi1 Hs1. change (desc_map (ctx s) !! oldfd = Some (p, b)) in Hp.
  pose proof (k_ctx _ _ (s_keep _ _ Hs1)) as Hc. pose proof (same_view _ _ Hs1) as Hv1.
  pose proof (k_env _ _ (s_keep _ _ Hs1)) as He1.
  change (view_of s1 = view_of s) in Hv1. change (env_of s1 = env_of s) in He1.
  rewrite (proj2 (Z.eqb_neq p 0) Hp0). do 2 wp_step. rewrite u32_small by (unfold INT_MAX in *; lia).
  wp_step. eapply (wp_grow_for (bump held p 1)); [done|done|by rewrite Hc|].
  intros r s2 Hi2 He2 Hv2 Hl2 Hr.
  assert (Hp2 : desc_map (ctx s2) !! oldfd = Some (p, b)).
  { change (v_fds (view_of s2) !! oldfd = Some (p, b)). by rewrite Hv2, Hv1. }
  eapply wp_mono; [|intros r' s'; by apply (on_fd_post held s oldfd p b)].
  destruct Hr as [[-> Hr]|Hr]; simpl; cycle 1.
  - rewrite (proj2 (Z.ltb_lt r 0)) by (destruct Hr as [-> | ->]; done). wp_step.
    eapply wp_put_live; [done|done|eapply desc_owned; [apply Hroom|done]|].
    intros s3 Hi3 Hs3. wp_step. apply wp_fd_unlock. wp_step.
    split; [by apply inv_set_lock|]. split; [done|].
    split; [exact (eq_trans (k_env _ _ (s_keep _ _ Hs3)) (eq_trans He2 He1))|].
    right. split; [|done]. exact (eq_trans (same_view _ _ Hs3) (eq_trans Hv2 Hv1)).
  - rewrite (proj2 (Z.eqb_neq oldfd newfd) Hne).
    eapply wp_mono; [eapply redirect_post; [done|done|done|lia|done]|].
    intros r s' (Hi' & Hu' & He' & -> & Hv'). split; [done|]. split; [done|].
    split; [congruence|]. left. split; [done|]. rewrite Hv', Hv2, Hv1.
    change (desc_map (ctx s2)) with (v_fds (view_of s2)). by rewrite Hv2, Hv1.
Qed.

Lemma sys_dup2_post held s oldfd newfd :
  room held → inv held s → unlocked s → op_ok s (OpDup2 oldfd newfd) →
  wp (sys_dup2 oldfd newfd)
     (call_post held s (spec_op held (env_of s) (OpDup2 oldfd newfd) (view_of s))) s.
Proof.
  intros Hroom Hi Hu (Ho & Hn & Hne & Hsz). rewrite sys_dup2_body. unfold spec_op, is_int in *.
  destruct ((newfd <? 0) || (oldfd <? 0)) eqn:E; [by wp_step|].
  rewrite u32_small by (unfold INT_MAX in *; lia). apply dup_body_post; done || lia.
Qed.

Lemma sys_dup3_post held s oldfd newfd flags :
  room held → inv held s → unlocked s → op_ok s (OpDup3 oldfd newfd flags) →
  wp (sys_dup3 oldfd newfd flags)
     (call_post held s (spec_op held (env_of s) (OpDup3 oldfd newfd flags) (view_of s))) s.
Proof.
  intros Hroom Hi Hu (Ho & Hn & Hne & Hsz). rewrite sys_dup3_body. unfold spec_op, is_int in *.
  destruct ((newfd <? 0) || (oldfd <? 0)) eqn:E; [by wp_step|].
  destruct (truthy _) eqn:Ef; simpl; [by wp_step|].
  rewrite u32_small by (unfold INT_MAX in *; lia). apply dup_body_post; done || lia.
Qed.

(** Every call meets its contract. *)
Lemma run_op_post held s op :
  room held → inv held s → unlocked s → op_ok s op →
  wp (run_op op) (call_post held s (spec_op held (env_of s) op (view_of s))) s.
Proof.
  intros Hroom Hi Hu Hok. destruct op; simpl run_op.
  - by apply sys_close_post.
  - by apply sys_dup_post.
  - by apply sys_dup2_post.
  - by apply sys_dup3_post.
  - by apply sys_fcntl_post.
  - by apply sys_lseek_post.
  - by apply sys_umask_post.
  - destruct Hok. by apply sys_fchdir_post.
  - by apply file_do_cloexec_post.
Qed.

(** ** Fork and exit *)

(** The descriptors from [i] on. *)
Definition from (i : Z) (m : gmap Z (Z * bool)) : gmap Z (Z * bool) :=
  filter (λ kv : Z * (Z * bool), i <= kv.1) m.

Lemma from_succ i m : from (i + 1) m = delete i (from i m).
Proof.
  apply map_eq. intros k. unfold from. rewrite lookup_delete, !map_lookup_filter.
  destruct (m !! k) as [e|] eqn:Ek; simpl; [|by case_decide].
  case_decide; subst.
  - by rewrite option_guard_False by lia.
  - destruct (decide (i <= k)).
    + rewrite !option_guard_True by lia. done.
    + rewrite !option_guard_False by lia. done.
Qed.

Lemma from_lookup i m : from i m !! i = m !! i.
Proof.
  unfold from. rewrite map_lookup_filter. destruct (m !! i); [|done]. simpl.
  by rewrite option_guard_True by lia.
Qed.

Lemma from_all c : from 0 (desc_map c) = desc_map c.
Proof.
  apply map_filter_id. intros k e Hk. simpl. rewrite lookup_desc_map in Hk. case_decide; [lia|done].
Qed.

Lemma from_none c : from (file_desc_entries c) (desc_map c) = ∅.
Proof.
  apply map_empty. intros k. unfold from. rewrite map_lookup_filter, lookup_desc_map.
  case_decide; [|done]. destruct (desc_entry c k); [|done]. simpl.
  by rewrite option_guard_False by (simpl; lia).
Qed.

(** A file whose count is bumped stays as it is otherwise. *)
Lemma get_counts (s : kstate) own p f :
  counts_ok own (files s) → files s !! p = Some f → own p + 1 < 2 ^ 64 →
  let fs := <[p := with_ref f (u64 (f_refcount f + 1))]> (files s) in
  counts_ok (bump own p 1) fs ∧ no_ref <$> fs = no_ref <$> files s.
Proof.
  intros Hc Hf Hb. split; [by apply counts_ok_get|by apply view_files_get].
Qed.

Section fork.
Context (held : Z → Z) (s0 : kstate).
Hypothesis Hroom : room held.
Hypothesis Hinv : inv held s0.
Abbreviation m := (desc_map (ctx s0)).

(** The references when the child has those of the descriptors below [i]. *)
Definition shared (i q : Z) : Z := owned held (ctx s0) q + (refs m q - refs (from i m) q).

Lemma shared_bound i q : shared i q < 2 ^ 35.
Proof using Hinv.
  unfold shared. pose proof (owned_bound _ _ q Hinv). pose proof (refs_size m q).
  pose proof (size_desc_map _ (inv_table _ _ Hinv)). pose proof (t_entries _ (inv_table _ _ Hinv)).
  pose proof (refs_nonneg (from i m) q). unfold INT_MAX in *. lia.
Qed.

Lemma shared_step_open i p b q :
  m !! i = Some (p, b) → shared (i + 1) q = bump (shared i) p 1 q.
Proof.
  intros Hp. unfold shared, bump. rewrite from_succ, (refs_delete _ _ p b) by (by rewrite from_lookup).
  repeat case_decide; lia.
Qed.

Lemma shared_step_closed i q : m !! i = None → shared (i + 1) q = shared i q.
Proof.
  intros Hp. unfold shared. rewrite from_succ, delete_id; [done|]. by rewrite from_lookup.
Qed.

(** The loop of [copy_file_descriptors]: slots below [i] are copied. *)
Record copying (i : Z) (child : ioctx) (s : kstate) : Prop := {
  c_ctx : ctx s = with_lock (ctx s0) true;
  c_rest : env_of s = env_of s0 ∧ heap s = heap s0 ∧ errno s = errno s0;
  c_counts : counts_ok (shared i) (files s);
  c_view : no_ref <$> files s = no_ref <$> files s0;
  c_table : table_ok child;
  c_size : file_desc_entries child = file_desc_entries (ctx s0);
  c_open : open_fds child = open_fds (ctx s0);
  c_cloexec : cloexec_fds child = cloexec_fds (ctx s0);
  c_slots : ∀ k, 0 <= k < i → aget (file_desc child) k = aget (file_desc (ctx s0)) k;
}.

Lemma copying_step i child s l p :
  copying i child s → 0 <= i < file_desc_entries (ctx s0) →
  aget (file_desc (ctx s0)) i = Some p → aset (file_desc child) i p = Some l →
  wp (if bit_at (open_fds child) i then fd_get p else mret tt)
     (λ _, copying (i + 1) (with_file_desc child l)) s.
Proof using Hinv Hroom.
  intros [Hc Hrest Hcnt Hv Ht Hsz Ho Hce Hsl] Hr Hp Hl.
  pose proof (inv_table _ _ Hinv) as Ht0.
  assert (Hslots : ∀ k, 0 <= k < i + 1 → aget l k = aget (file_desc (ctx s0)) k).
  { intros k Hk. rewrite (aget_aset _ _ _ _ _ Hl). case_decide; [by subst|]. apply Hsl. lia. }
  assert (Htl : table_ok (with_file_desc child l)) by (apply (table_ok_update child); try done; simpl; eauto using length_aset; apply Ht).
  rewrite Ho. destruct (bit_at (open_fds (ctx s0)) i) eqn:Eb.
  - assert (Hm : m !! i = Some (p, bit_at (cloexec_fds (ctx s0)) i)).
    { by apply desc_map_Some. }
    pose proof (refs_pos _ _ _ _ Hm) as Hpos. pose proof (owned_bound _ _ p Hinv).
    assert (Hsh : shared i p ≠ 0).
    { unfold shared. pose proof (refs_mono m (from i m) p (map_filter_subseteq _ _)).
      unfold owned, uses. specialize (Hroom p). case_decide; lia. }
    destruct (counts_ok_live _ _ _ Hcnt Hsh) as (Hp0 & f & Hf & _).
    pose proof (shared_bound i p).
    destruct (get_counts s (shared i) p f Hcnt Hf ltac:(lia)) as [Hcnt' Hv'].
    eapply wp_fd_get; [done..|]. split; try done.
    + simpl. eapply counts_ok_ext; [|exact Hcnt']. intros q. symmetry. by eapply shared_step_open.
    + simpl. congruence.
  - wp_step. split; try done. eapply counts_ok_ext; [|exact Hcnt]. intros q. symmetry.
    apply shared_step_closed. by apply desc_map_None.
Qed.

Lemma copying_loop n : ∀ i child s,
  copying i child s → 0 <= i → i + Z.of_nat n = file_desc_entries (ctx s0) →
  wp (copy_descs n i child) (λ child', copying (file_desc_entries (ctx s0)) child') s.
Proof using Hinv Hroom.
  induction n as [|n IH]; intros i child s Hcp H0 Hn; simpl.
  { wp_step. by replace (file_desc_entries (ctx s0)) with i by lia. }
  pose proof (inv_table _ _ Hinv) as Ht0. pose proof Hcp as [Hc _ _ _ Ht Hsz Ho _ _].
  destruct (aget_is_Some (file_desc (ctx s0)) i) as [p Hp]; [rewrite (t_desc _ Ht0); lia|].
  wp_step. eapply wp_desc_get; [by rewrite Hc|].
  wp_step. wp_step.
  { apply aset_is_Some. rewrite (t_desc _ Ht). lia. }
  wp_step. wp_step.
  { apply bit_get_Some. rewrite (t_open _ Ht). simpl. lia. }
  wp_step. eapply wp_mono.
  { simpl. eapply copying_step; [done|lia|done|]. apply aset_is_Some. rewrite (t_desc _ Ht). lia. }
  intros [] s' Hcp'. apply IH; [done|lia|lia].
Qed.

Lemma copying_done child s :
  copying (file_desc_entries (ctx s0)) child s →
  desc_map child = m ∧ inv (λ q, held q + refs m q) s ∧ view_of s = view_of s0.
Proof using Hinv Hroom.
  intros [Hc [He [Hh _]] Hcnt Hv Ht Hsz Ho Hce Hsl]. pose proof (inv_table _ _ Hinv) as Ht0.
  split; [|split].
  - apply desc_map_ext; [done|]. intros i Hi. unfold desc_entry. by rewrite Ho, Hce, Hsl by lia.
  - eapply inv_change; try done; rewrite ?Hc.
    + table_solver.
    + intros q. specialize (Hroom q). pose proof (refs_nonneg m q). pose proof (refs_size m q).
      pose proof (size_desc_map _ Ht0). pose proof (t_entries _ Ht0). unfold INT_MAX in *. lia.
    + eapply counts_ok_ext; [|exact Hcnt]. intros q. unfold shared. rewrite from_none, refs_empty.
      unfold owned, uses. simpl. change (desc_map (with_lock _ _)) with m. lia.
    + injection He as _ -> _. intros p f Hp.
      eapply (sweep_inodes (λ _, 1) s0); [apply Hinv| |exact Hp]. rewrite Hv.
      symmetry. by apply map_filter_id.
  - unfold view_of. rewrite Hc, Hv. done.
Qed.
End fork.

Definition fork_post (held : Z → Z) (s : kstate) (r : Z * ioctx) (s' : kstate) : Prop :=
  unlocked s' ∧ env_of s' = env_of s ∧ view_of s' = view_of s ∧
  ((r.1 = 0 ∧ table_ok r.2 ∧ desc_map r.2 = desc_map (ctx s) ∧
    inv (λ q, held q + refs (desc_map (ctx s)) q) s') ∨
   (r.1 = - ENOMEM ∧ inv held s' ∧ ∃ k, heap s k = None)).

Lemma copy_file_descriptors_post held s child :
  room held → inv held s → unlocked s →
  wp (copy_file_descriptors child) (fork_post held s) s.
Proof.
  intros Hroom Hi Hu. pose proof (inv_table _ _ Hi) as Ht. pose proof Ht as [Hn Hd Ho Hc How Hcw].
  assert (Hfail : ∀ r n, r.1 = - ENOMEM → (∃ k, heap s k = None) →
            fork_post held s r (set_ctx (set_allocs (set_ctx s (with_lock (ctx s) true)) n)
                                  (with_lock (with_lock (ctx s) true) false))).
  { intros r n Hr Hk. split; [done|]. split; [done|]. split; [done|]. right. split; [done|].
    split; [|done]. eapply inv_change; try done; try apply Hi. }
  assert (Hw : file_desc_entries (ctx s) / 8 / 8 = Z.of_nat (length (open_fds (ctx s)))).
  { rewrite Z.div_div, <- Ho, Z.mul_comm, Z.div_mul by lia. done. }
  unfold copy_file_descriptors, malloc, FD_ENTRIES_TO_FDSET_SIZE.
  wp_step. apply wp_fd_lock; [done|]. wp_steps. simpl.
  destruct (heap s (allocs s)) as [j1|] eqn:E1; simpl; [|wp_step; apply wp_fd_unlock; wp_step; eauto].
  wp_steps. simpl.
  destruct (heap s (S (allocs s))) as [j2|] eqn:E2; simpl; [|wp_step; apply wp_fd_unlock; wp_step; eauto].
  wp_steps. simpl.
  destruct (heap s (S (S (allocs s)))) as [j3|] eqn:E3; simpl; [|wp_step; apply wp_fd_unlock; wp_step; eauto].
  do 3 wp_step. simpl. rewrite Hw. wp_step.
  { apply memcpy_words_spec; [lia..|]. rewrite length_fmap, length_seq. lia. }
  wp_step. wp_step.
  { apply memcpy_words_spec; [lia..|]. rewrite length_fmap, length_seq. lia. }
  rewrite !drop_ge by (rewrite length_fmap, length_seq; lia). rewrite !app_nil_r.
  wp_step. eapply wp_mono; [apply (copying_loop held s Hroom Hi)|]; [|lia|lia|].
  - split; try done; simpl.
    + eapply counts_ok_ext; [|apply Hi]. intros q. unfold shared. rewrite from_all. lia.
    + split; simpl; rewrite ?length_fmap, ?length_seq; try done; lia.
    + intros k Hk. lia.
  - intros child' s' Hcp. cbn beta. destruct (copying_done held s Hroom Hi _ _ Hcp) as (Hm & Hi' & Hv).
    wp_step. apply wp_fd_unlock. wp_step. split; [done|].
    split; [apply Hcp|]. split; [exact Hv|]. left. split; [done|]. split; [apply Hcp|].
    split; [done|]. by apply inv_set_lock.
Qed.

(** ** Exit *)

Section exit.
Context (held : Z → Z) (s0 : kstate).
Hypothesis Hinv : inv held s0.
Abbreviation m := (desc_map (ctx s0)).

Definition left_at (i q : Z) : Z := uses held (from i m) (cwd (ctx s0)) q.

Record closing (i : Z) (s : kstate) : Prop := {
  d_ctx : ctx s = with_lock (ctx s0) true;
  d_env : env_of s = env_of s0;
  d_counts : counts_ok (left_at i) (files s);
  d_view : no_ref <$> files s = sweep (left_at i) (no_ref <$> files s0);
}.

Lemma closing_step i s p b :
  closing i s → m !! i = Some (p, b) → wp (fd_put p) (λ _, closing (i + 1)) s.
Proof using Hinv.
  intros [Hc He Hcnt Hv] Hp.
  assert (Hnext : ∀ q, bump (left_at i) p (-1) q = left_at (i + 1) q).
  { intros q. unfold left_at. rewrite from_succ. symmetry. eapply uses_delete. by rewrite from_lookup. }
  eapply wp_put_counts; [done| |].
  { unfold left_at, uses. pose proof (refs_pos (from i m) i p b ltac:(by rewrite from_lookup)).
    pose proof (inv_held _ _ Hinv p). case_decide; lia. }
  intros fs rel Hcnt' Hv'. split; try done; simpl.
  - by eapply counts_ok_ext.
  - rewrite Hv', Hv, (sweep_ext _ _ _ Hnext). apply sweep_sweep. intros q.
    rewrite <- Hnext. unfold bump. case_decide; [|done]. subst q.
    unfold left_at, uses. pose proof (refs_nonneg (from i m) p). pose proof (inv_held _ _ Hinv p).
    pose proof (refs_pos (from i m) i p b ltac:(by rewrite from_lookup)). case_decide; lia.
Qed.

Lemma closing_loop n : ∀ i s,
  closing i s → 0 <= i → i + Z.of_nat n = file_desc_entries (ctx s0) →
  wp (put_descs n i (file_desc (ctx s0))) (λ _, closing (file_desc_entries (ctx s0))) s.
Proof using Hinv.
  induction n as [|n IH]; intros i s Hcl H0 Hn; simpl.
  { wp_step. by replace (file_desc_entries (ctx s0)) with i by lia. }
  pose proof (inv_table _ _ Hinv) as Ht. pose proof Hcl as [Hc He Hcnt Hv].
  destruct (aget_is_Some (file_desc (ctx s0)) i) as [p Hp]; [rewrite (t_desc _ Ht); lia|].
  unfold fd_is_open. do 3 wp_step. wp_step.
  { rewrite Hc. apply bit_get_Some. simpl. rewrite (t_open _ Ht). lia. }
  simpl. wp_step. apply (wp_mono _ (λ _, closing (i + 1))).
  - destruct (bit_at (open_fds (ctx s0)) i) eqn:Eb; simpl.
    + wp_step. wp_step; [done|]. eapply (closing_step _ _ _ (bit_at (cloexec_fds (ctx s0)) i)); [done|].
      apply desc_map_Some; [done|]. split; [lia|done].
    + wp_step. assert (Hnone : m !! i = None) by (apply desc_map_None; [done|lia|done]).
      assert (Heq : ∀ q, left_at i q = left_at (i + 1) q).
      { intros q. unfold left_at. rewrite from_succ, delete_id; [done|by rewrite from_lookup]. }
      split; [done|done|by eapply counts_ok_ext|]. rewrite Hv. by apply sweep_ext.
  - intros [] s' Hcl'. apply IH; [done|lia|lia].
Qed.
End exit.

(** After [process_destroy_file_descriptors] the table is empty and every reference
    it had is dropped. *)
Lemma destroy_post held s :
  inv held s → unlocked s →
  wp process_destroy_file_descriptors
     (λ _ s', unlocked s' ∧ env_of s' = env_of s ∧
        counts_ok (owned held (ctx s')) (files s') ∧
        view_of s' = collect held (v_set_fds (view_of s) ∅)) s.
Proof.
  intros Hi Hu. pose proof (t_entries _ (inv_table _ _ Hi)). unfold process_destroy_file_descriptors.
  do 3 wp_step. apply wp_fd_lock; [done|]. do 3 wp_step.
  eapply wp_mono; [apply (closing_loop held s Hi)|]; [|done|simpl; lia|].
  { split; try done; simpl.
    - eapply counts_ok_ext; [|apply Hi]. intros q. unfold left_at. by rewrite from_all.
    - rewrite sweep_ext with (own' := owned held (ctx s)); [symmetry; apply sweep_counts, Hi|].
      intros q. unfold left_at. by rewrite from_all. }
  intros [] s' [Hc He Hcnt Hv]. unfold upd_ctx. do 2 wp_step. do 2 wp_step. apply wp_fd_unlock. simpl.
  rewrite Hc. simpl.
  assert (Hm : ∀ c, file_desc_entries c = 0 → desc_map c = ∅).
  { intros c Hz. apply map_empty. intros k. rewrite lookup_desc_map, Hz. case_decide; [lia|done]. }
  assert (Hl : ∀ q, left_at held s (file_desc_entries (ctx s)) q = uses held ∅ (cwd (ctx s)) q).
  { intros q. unfold left_at. by rewrite from_none. }
  split; [done|]. split; [exact He|]. split.
  - eapply counts_ok_ext; [|exact Hcnt]. intros q. rewrite Hl. unfold owned. simpl. by rewrite Hm.
  - unfold view_of, collect, v_set_fds. simpl. rewrite Hm by done. f_equal.
    rewrite Hv. by apply sweep_ext.
Qed.
