(* ===== verification/FileProps.v ===== *)
(** * FileProps: the properties of the descriptor table.

    The theorems are applied to [demo], a table of 64 entries with two descriptors
    of one file (the second one close-on-exec) and a working directory. *)

From S2P Require Import Prelude Bits Abi Cred FileTable FileSpec FileFacts FileOps FileCalls FileDup.

(** ** Sequences of calls *)

Fixpoint run_ops (ops : list fdop) : KM (list Z) :=
  match ops with
  | [] => mret []
  | op :: ops =>
      r ← run_op op;
      rs ← run_ops ops;
      mret (r :: rs)
  end.

Inductive spec_run (held : Z → Z) (E : fd_env) : list fdop → view → list Z → view → Prop :=
  | spec_nil v : spec_run held E [] v [] v
  | spec_cons op ops v r v1 rs v2 :
      spec_op held E op v r v1 → spec_run held E ops v1 rs v2 →
      spec_run held E (op :: ops) v (r :: rs) v2.

(** Each call of the sequence is one the contract covers, in the state it is made. *)
Fixpoint trace_ok (ops : list fdop) (s : kstate) : Prop :=
  match ops with
  | [] => True
  | op :: ops =>
      op_ok s op ∧ match run_op op s with Done (_, s') => trace_ok ops s' | Fault _ => True end
  end.

(** ** A concrete table *)

Definition demo_creds : creds := MkCreds 1000 1000 100 100 1000 100 None.
Definition demo : kstate :=
  MkK {[1 := MkFile 2 0 7 O_RDWR 0; 2 := MkFile 1 0 8 O_RDONLY 0]}
      {[7 := MkInode 1000 100 0x81a4 1 0 10 0; 8 := MkInode 0 0 0x41ed 2 0 0 0]}
      (MkIoctx 2 false ([1; 1] ++ replicate 62 0) 64 [2] [3] 18)
      1024 demo_creds 0 0 (λ _, Some (λ _, 5)) [].

Definition no_held : Z → Z := λ _, 0.

Lemma demo_map : desc_map (ctx demo) = {[0 := (1, false); 1 := (1, true)]}.
Proof. by vm_compute. Qed.

Lemma room_no_held : room no_held.
Proof. intros p. unfold no_held. lia. Qed.

Lemma demo_inv : inv no_held demo.
Proof.
  split.
  - split; simpl; try done; by repeat constructor.
  - intros k junk n. simpl. intros [= <-]. done.
  - done.
  - intros p. unfold no_held. lia.
  - split; [done|]. intros p. unfold owned. rewrite demo_map. unfold uses, no_held. simpl.
    rewrite refs_insert, refs_singleton by done.
    rewrite lookup_insert, lookup_singleton. repeat case_decide; subst; simpl; try done; try lia; naive_solver.
  - intros p f. simpl. rewrite lookup_insert, lookup_singleton.
    repeat case_decide; naive_solver.
Qed.

Lemma demo_unlocked : unlocked demo.
Proof. done. Qed.

Lemma demo_fd0 : desc_map (ctx demo) !! 0 = Some (1, false).
Proof. by rewrite demo_map. Qed.

Lemma run_ops_post held s ops :
  room held → inv held s → unlocked s → trace_ok ops s →
  wp (run_ops ops)
     (λ rs s', inv held s' ∧ unlocked s' ∧ spec_run held (env_of s) ops (view_of s) rs (view_of s')) s.
Proof.
  intros Hroom. revert s. induction ops as [|op ops IH]; intros s Hi Hu Hok; simpl.
  { wp_step. split; [done|]. split; [done|]. constructor. }
  destruct Hok as [Hop Hrest]. wp_step.
  pose proof (run_op_post held s op Hroom Hi Hu Hop) as Hrun. rewrite wp_done in Hrun.
  destruct Hrun as (r & s1 & E & Hi1 & Hu1 & He1 & Hs1). rewrite E in Hrest.
  unfold wp at 1. rewrite E. wp_step. eapply wp_mono; [by apply IH|].
  intros rs s2 (Hi2 & Hu2 & Hs2). wp_step. split; [done|]. split; [done|].
  econstructor; [done|]. by rewrite <- He1.
Qed.

(** C1: The descriptor table refines its contract.  Take any sequence of close, dup, dup2,
    dup3, fcntl, lseek, umask, fchdir and exec calls that starts in a state with exact
    reference counts and the table unlocked, and in which no dup2 or dup3 has two equal
    descriptors or names the first descriptor past the table, and fchdir is called with a
    working directory to leave.  It runs without a fault and without deadlock; its
    results and the final descriptors, open files, working directory and mask are those
    that the abstract contract (a finite map of descriptors whose files disappear with
    their last reference) allows, the invariant still holds and the lock is released. *)
Theorem fd_refinement held s ops :
  room held → inv held s → unlocked s → trace_ok ops s →
  wp (run_ops ops)
     (λ rs s', inv held s' ∧ unlocked s' ∧
        spec_run held (env_of s) ops (view_of s) rs (view_of s')) s.
Proof. apply run_ops_post. Qed.

Definition demo_ops : list fdop :=
  [OpDup 0; OpDup2 0 70; OpFcntl 0 F_DUPFD_CLOEXEC 100; OpLseek 70 5 SEEK_SET;
   OpFcntl 70 F_SETFD 1; OpClose 0; OpUmask 63; OpExec; OpClose 0].

Lemma fd_refinement_witness :
  run_ops demo_ops demo = Done ([2; 70; 100; 5; 0; 0; 18; 0; -9],
    match run_ops demo_ops demo with Done (_, s') => s' | Fault _ => demo end) ∧
  wp (run_ops demo_ops)
     (λ rs s', inv no_held s' ∧ unlocked s' ∧
        spec_run no_held (env_of demo) demo_ops (view_of demo) rs (view_of s')) demo.
Proof.
  split; [vm_compute; reflexivity|].
  apply (fd_refinement no_held demo demo_ops); [apply room_no_held|apply demo_inv|reflexivity|].
  vm_compute. intuition congruence.
Defined.

(** C5: Reference counts are exact.  After any sequence of descriptor calls from a state
    with exact counts and the table unlocked, in which no dup2 or dup3 has two equal
    descriptors or names the first descriptor past the table, and fchdir is called with a
    working directory to leave, a file object is allocated exactly when something refers to
    it, and its count is the number of descriptors, plus the working directory, plus the
    references held elsewhere: nothing is freed while in use and nothing is kept after its
    last use. *)
Theorem refcounts_exact held s ops p :
  room held → inv held s → unlocked s → trace_ok ops s →
  wp (run_ops ops)
     (λ _ s', match files s' !! p with
              | Some f => f_refcount f = uses held (desc_map (ctx s')) (cwd (ctx s')) p ∧ 0 < f_refcount f
              | None => uses held (desc_map (ctx s')) (cwd (ctx s')) p = 0
              end) s.
Proof.
  intros Hroom Hi Hu Hok. eapply wp_mono; [by apply run_ops_post|].
  intros rs s' (Hi' & _ & _). destruct (inv_counts _ _ Hi') as [_ Hc]. specialize (Hc p).
  unfold owned in Hc. destruct (files s' !! p); [|done]. destruct Hc as [-> ?]. split; [done|lia].
Qed.

Lemma refcounts_exact_witness :
  wp (run_ops demo_ops)
     (λ _ s', match files s' !! 1 with
              | Some f => f_refcount f = uses no_held (desc_map (ctx s')) (cwd (ctx s')) 1 ∧ 0 < f_refcount f
              | None => uses no_held (desc_map (ctx s')) (cwd (ctx s')) 1 = 0
              end) demo.
Proof.
  apply (refcounts_exact no_held demo demo_ops 1); [apply room_no_held|apply demo_inv|reflexivity|].
  vm_compute. intuition congruence.
Defined.

(** C40: [alloc_fd] finds the lowest free descriptor not below its argument.  It always
    returns: with the lock held and that descriptor marked open, without the
    close-on-exec flag, or with the lock released, the descriptors unchanged and an
    error that has its cause (EBADF for an argument out of range or not below the
    limit, EMFILE when the lowest free descriptor is above the limit, ENOMEM when every
    descriptor of the table is in use and it cannot grow). *)
Theorem alloc_fd_lowest s fdbase :
  table_ok (ctx s) → heap_ok s → unlocked s → is_int fdbase → 0 <= nofile_cur s →
  wp (alloc_fd fdbase) (alloc_post s fdbase) s.
Proof. apply wp_alloc_fd. Qed.

Lemma alloc_fd_lowest_witness : wp (alloc_fd 200) (alloc_post demo 200) demo.
Proof.
  apply (alloc_fd_lowest demo 200);
    [apply demo_inv|apply demo_inv|reflexivity|unfold is_int, INT_MAX; lia|apply demo_inv].
Defined.

(** Fork duplicates the table.  [copy_file_descriptors] returns 0 and gives the child
    the same descriptors with the same flags, every file gaining one reference per
    descriptor of the child; or it returns ENOMEM because an allocation failed, with no
    reference taken.  The parent's view does not change and its lock is released. *)
Theorem fork_shares_descriptors held s child :
  room held → inv held s → unlocked s →
  wp (copy_file_descriptors child) (fork_post held s) s.
Proof. apply copy_file_descriptors_post. Qed.

Lemma fork_shares_descriptors_witness :
  wp (copy_file_descriptors (MkIoctx 0 false [] 0 [] [] 0)) (fork_post no_held demo) demo.
Proof.
  apply (fork_shares_descriptors no_held demo); [apply room_no_held|apply demo_inv|reflexivity].
Defined.

(** Exit drops every reference.  [process_destroy_file_descriptors] leaves no
    descriptor, the counts are exact for what is left, and exactly the files that
    nothing else refers to are freed. *)
Theorem exit_releases_descriptors held s :
  inv held s → unlocked s →
  wp process_destroy_file_descriptors
     (λ _ s', unlocked s' ∧ env_of s' = env_of s ∧
        counts_ok (owned held (ctx s')) (files s') ∧
        view_of s' = collect held (v_set_fds (view_of s) ∅)) s.
Proof. apply destroy_post. Qed.

Lemma exit_releases_descriptors_witness :
  wp process_destroy_file_descriptors
     (λ _ s', unlocked s' ∧ env_of s' = env_of demo ∧
        counts_ok (owned no_held (ctx s')) (files s') ∧
        view_of s' = collect no_held (v_set_fds (view_of demo) ∅)) demo.
Proof. apply (exit_releases_descriptors no_held demo); [apply demo_inv|reflexivity]. Defined.

(** ** execve and the close-on-exec flag *)

(** exec closes exactly the close-on-exec descriptors.  After [file_do_cloexec] a
    descriptor is open if and only if it was open without the flag, and it refers to the
    same file. *)
Theorem exec_closes_cloexec held s :
  inv held s → unlocked s →
  wp file_do_cloexec
     (λ _ s', inv held s' ∧ unlocked s' ∧
        ∀ fd, desc_map (ctx s') !! fd =
              match desc_map (ctx s) !! fd with
              | Some (p, false) => Some (p, false)
              | _ => None
              end) s.
Proof.
  intros Hi Hu. pose proof (file_do_cloexec_post held s Hi Hu) as Hx. apply wp_bind_inv in Hx.
  eapply wp_mono; [exact Hx|]. intros [] s' (Hi' & Hu' & _ & _ & Hv). split; [done|]. split; [done|]. intros fd.
  change (v_fds (view_of s') !! fd = match v_fds (view_of s) !! fd with
                                     | Some (p, false) => Some (p, false) | _ => None end).
  rewrite Hv. simpl. rewrite map_lookup_filter.
  destruct (desc_map (ctx s) !! fd) as [[p []]|]; done.
Qed.

Lemma exec_closes_cloexec_witness :
  wp file_do_cloexec
     (λ _ s', inv no_held s' ∧ unlocked s' ∧
        ∀ fd, desc_map (ctx s') !! fd =
              match desc_map (ctx demo) !! fd with
              | Some (p, false) => Some (p, false)
              | _ => None
              end) demo.
Proof. apply (exec_closes_cloexec no_held demo); [apply demo_inv|reflexivity]. Defined.

(** F_SETFD and F_GETFD agree.  On an open descriptor, F_GETFD after F_SETFD returns
    the close-on-exec bit of the argument. *)
Theorem setfd_getfd held s fd arg arg' :
  room held → inv held s → unlocked s → is_int fd → desc_map (ctx s) !! fd ≠ None →
  wp (_ ← sys_fcntl fd F_SETFD arg; sys_fcntl fd F_GETFD arg')
     (λ r s', r = (if has arg FD_CLOEXEC then FD_CLOEXEC else 0) ∧ inv held s' ∧ unlocked s') s.
Proof.
  intros Hroom Hi Hu Hfd Hopen. wp_step.
  eapply wp_mono; [by apply (sys_fcntl_post held s)|]. intros r s1 (Hi1 & Hu1 & He1 & Hs1).
  eapply wp_mono; [by apply (sys_fcntl_post held s1)|]. intros r' s2 (Hi2 & Hu2 & He2 & Hs2).
  simpl in Hs1, Hs2. unfold on_fd, fcntl_spec in Hs1, Hs2. simpl in Hs1, Hs2.
  destruct (desc_map (ctx s) !! fd) as [[p b]|]; [|done]. destruct Hs1 as [-> Hv1].
  change (desc_map (ctx s1)) with (v_fds (view_of s1)) in Hs2. rewrite Hv1 in Hs2. simpl in Hs2.
  rewrite lookup_insert_eq in Hs2. naive_solver.
Qed.

Lemma setfd_getfd_witness :
  wp (_ ← sys_fcntl 0 F_SETFD 1; sys_fcntl 0 F_GETFD 0)
     (λ r s', r = FD_CLOEXEC ∧ inv no_held s' ∧ unlocked s') demo.
Proof.
  apply (setfd_getfd no_held demo 0 1 0);
    [apply room_no_held|apply demo_inv|reflexivity|unfold is_int, INT_MAX; lia|].
  rewrite demo_fd0. discriminate.
Defined.

(** ** The two corner cases of dup2 that the contract leaves out *)

(** dup2 onto the first descriptor past the table reads outside of it.  With an open
    source and [newfd] equal to the number of entries, the table is not enlarged and the
    call indexes it out of bounds. *)
Theorem dup2_past_end_faults held s oldfd p b :
  room held → inv held s → unlocked s → desc_map (ctx s) !! oldfd = Some (p, b) →
  sys_dup2 oldfd (file_desc_entries (ctx s)) s = Fault OutOfBounds.
Proof.
  intros Hroom Hi Hu Hp. pose proof (inv_table _ _ Hi) as Ht. pose proof (t_entries _ Ht) as Hn.
  apply desc_map_Some in Hp as Hp'; [|done]. destruct Hp' as (Hr & _).
  rewrite sys_dup2_body.
  destruct ((file_desc_entries (ctx s) <? 0) || (oldfd <? 0)) eqn:E; [lia|].
  assert (Hl : wp (_ ← fd_lock; __get_file_description_unlocked oldfd)
                 (λ f s1, f = p ∧ p ≠ 0 ∧ ctx s1 = with_lock (ctx s) true) s).
  { wp_step. apply wp_fd_lock; [done|].
    apply (wp_lookup_unlocked held); [done|by apply inv_set_lock|unfold is_int, INT_MAX in *; lia| |].
    - intros q b' s1 Hq Hq0 _ Hs. change (desc_map (ctx s) !! oldfd = Some (q, b')) in Hq.
      rewrite Hp in Hq. injection Hq as <- <-. split; [done|]. split; [done|]. apply Hs.
    - intros Hnone. change (desc_map (ctx s) !! oldfd = None) in Hnone. congruence. }
  rewrite wp_done in Hl. destruct Hl as (f & s1 & E1 & -> & Hp0 & Hc1).
  unfold dup_body. unfold mbind, M_bind in E1 |- *.
  destruct (fd_lock s) as [[[] s0]|]; [|done]. rewrite E1.
  rewrite (proj2 (Z.eqb_neq p 0) Hp0). unfold gets at 1. rewrite Hc1. simpl.
  rewrite u32_small by (unfold INT_MAX in *; lia). rewrite Z.ltb_irrefl. simpl.
  rewrite (proj2 (Z.eqb_neq _ _)) by lia. unfold redirect, desc_get, mbind, M_bind, gets. rewrite Hc1. simpl.
  destruct (aget (file_desc (ctx s)) (file_desc_entries (ctx s))) as [q|] eqn:Eq; [|done].
  apply aget_Some_lt in Eq. rewrite (t_desc _ Ht) in Eq. lia.
Qed.

Lemma dup2_past_end_faults_witness : sys_dup2 0 64 demo = Fault OutOfBounds.
Proof.
  apply (dup2_past_end_faults no_held demo 0 1 false);
    [apply room_no_held|apply demo_inv|reflexivity|apply demo_fd0].
Defined.

(** dup2 of a descriptor onto itself leaks a reference.  The call returns the
    descriptor and changes nothing that is visible, but the file keeps one reference
    that no descriptor accounts for. *)
Theorem dup2_same_leaks held s fd p b :
  room held → inv held s → unlocked s → desc_map (ctx s) !! fd = Some (p, b) →
  wp (sys_dup2 fd fd)
     (λ r s', r = fd ∧ view_of s' = view_of s ∧ unlocked s' ∧ inv (bump held p 1) s') s.
Proof.
  intros Hroom Hi Hu Hp. pose proof (inv_table _ _ Hi) as Ht. pose proof (t_entries _ Ht) as Hn.
  apply desc_map_Some in Hp as Hp'; [|done]. destruct Hp' as (Hr & _).
  rewrite sys_dup2_body. destruct ((fd <? 0) || (fd <? 0)) eqn:E; [lia|].
  unfold dup_body. wp_step. apply wp_fd_lock; [done|]. wp_step.
  apply (wp_lookup_unlocked held); [done|by apply inv_set_lock|unfold is_int, INT_MAX in *; lia|..].
  - intros q b' s1 Hq Hq0 Hi1 Hs1. change (desc_map (ctx s) !! fd = Some (q, b')) in Hq.
    rewrite Hp in Hq. injection Hq as <- <-. rewrite (proj2 (Z.eqb_neq p 0) Hq0).
    do 2 wp_step. rewrite (k_ctx _ _ (s_keep _ _ Hs1)). simpl. rewrite u32_small by (unfold INT_MAX in *; lia).
    rewrite (proj2 (Z.ltb_ge _ _)) by lia. do 2 wp_step. simpl. rewrite Z.eqb_refl.
    wp_step. apply wp_fd_unlock. wp_step. split; [done|]. split; [exact (same_view _ _ Hs1)|].
    split; [done|]. by apply inv_set_lock.
  - intros Hnone. change (desc_map (ctx s) !! fd = None) in Hnone. congruence.
Qed.

Lemma dup2_same_leaks_witness :
  wp (sys_dup2 0 0)
     (λ r s', r = 0 ∧ view_of s' = view_of demo ∧ unlocked s' ∧ inv (bump no_held 1 1) s') demo.
Proof.
  apply (dup2_same_leaks no_held demo 0 1 false);
    [apply room_no_held|apply demo_inv|reflexivity|apply demo_fd0].
Defined.
