(* ===== verification/Pipe.v ===== *)
(** * Pipe: anonymous pipes and the threads that use them

    The pipe object of [kernel/fs/pipe.cpp] with its read, write, close and poll
    operations, and the wait-queue protocol of [onyx/wait_queue.h] through which
    readers and writers block.  One iteration of the copy loops is a function on
    the pipe ([read_iter], [write_iter]); [step] interleaves any number of threads,
    each at an explicit program point, under the pipe's mutex. *)

From S2P Require Import Prelude Abi.

Definition PIPE_BUF : Z := 4096.
Definition default_pipe_size : Z := 65535.
Definition POLLIN : Z := 1.
Definition POLLOUT : Z := 4.

(** ** The pipe object *)

Record pipe : Type := Pipe {
  buffer : list Z;
  buf_size : Z;
  pos : Z;
  eof : bool;
  broken : bool;
  reader_count : Z;
  writer_count : Z;
  refcount : Z
}.

(** The constructor followed by a successful [allocate_pipe_buffer] of [size] bytes. *)
Definition new_pipe (size : Z) : pipe :=
  {| buffer := replicate (Z.to_nat size) 0; buf_size := size; pos := 0; eof := false;
     broken := false; reader_count := 1; writer_count := 1; refcount := 2 |}.

Definition can_read (p : pipe) : bool := negb (pos p =? 0).
Definition can_read_or_eof (p : pipe) : bool := can_read p || eof p.
Definition can_write (p : pipe) : bool := pos p <? buf_size p.
Definition is_full (p : pipe) : bool := buf_size p =? pos p.
Definition available_space (p : pipe) : Z := u64 (buf_size p - pos p).

Definition set_data (b : list Z) (n : Z) (p : pipe) : pipe :=
  {| buffer := b; buf_size := buf_size p; pos := n; eof := eof p; broken := broken p;
     reader_count := reader_count p; writer_count := writer_count p;
     refcount := refcount p |}.

(** Bytes [d] stored at offset [off] of a memory block. *)
Definition mem_write (b : list Z) (off : nat) (d : list Z) : list Z :=
  take off b ++ d ++ drop (off + length d) b.

(** ** One iteration of the copy loops *)

Inductive next : Type :=
  | Again (n : Z)
  | Block (n : Z)
  | Return (r : Z).

(** What an iteration does besides changing the pipe: the bytes it moves between the
    pipe and user memory, the queues it wakes, and where control goes. *)
Record effect : Type := Effect {
  e_pipe : pipe;
  e_wake_readers : bool;
  e_wake_writers : bool;
  e_sent : list Z;
  e_received : list Z;
  e_sigpipe : bool;
  e_next : next
}.

Definition stay (p : pipe) (n : next) : effect := Effect p false false [] [] false n.

(** [fault] tells whether the copy to user memory fails. *)
Definition read_iter (flags len : Z) (fault : bool) (been_read : Z) (p : pipe) : effect :=
  if been_read =? i64 len then stay p (Return been_read)
  else if can_read p then
    let to_read := Z.min (u64 (len - been_read)) (pos p) in
    if fault then Effect p false (truthy been_read) [] [] false (Return (- EFAULT))
    else
      let rest := pos p - to_read in
      let data := take (Z.to_nat to_read) (buffer p) in
      let b := if truthy rest
               then mem_write (buffer p) 0
                      (take (Z.to_nat rest) (drop (Z.to_nat to_read) (buffer p)))
               else buffer p in
      Effect (set_data b rest p) false true [] data false (Again (been_read + to_read))
  else if truthy been_read || eof p then stay p (Return been_read)
  else if has flags O_NONBLOCK then stay p (Return (- EAGAIN))
  else stay p (Block been_read).

Definition is_atomic_write (len : Z) : bool := len <=? PIPE_BUF.

Definition write_blocks (len written : Z) (p : pipe) : bool :=
  ((available_space p <? u64 (len - written)) && is_atomic_write len) || is_full p.

Definition write_iter (flags : Z) (data : list Z) (fault : bool) (written : Z) (p : pipe)
    : effect :=
  let len := Z.of_nat (length data) in
  if written =? i64 len then Effect p true false [] [] false (Return written)
  else if broken p then Effect p false false [] [] true (Return (- EPIPE))
  else if write_blocks len written p then
    let woken := truthy written in
    if has flags O_NONBLOCK then Effect p woken false [] [] false (Return (- EAGAIN))
    else Effect p woken false [] [] false (Block written)
  else
    let to_write := Z.min (u64 (len - written)) (available_space p) in
    if fault then Effect p (truthy written) false [] [] false (Return (- EFAULT))
    else
      let d := take (Z.to_nat to_write) (drop (Z.to_nat written) data) in
      Effect (set_data (mem_write (buffer p) (Z.to_nat (pos p)) d) (pos p + to_write) p)
             false false d [] false (Again (written + to_write)).

(** The condition a blocked writer waits for. *)
Definition write_wait_cond (len written : Z) (p : pipe) : bool :=
  (is_atomic_write len && (u64 (len - written) <=? available_space p))
  || negb (is_full p) || broken p.

(** ** Closing an end, polling *)

Definition dec_count (writer : bool) (p : pipe) : pipe :=
  {| buffer := buffer p; buf_size := buf_size p; pos := pos p; eof := eof p;
     broken := broken p;
     reader_count := if writer then reader_count p else u64 (reader_count p - 1);
     writer_count := if writer then u64 (writer_count p - 1) else writer_count p;
     refcount := refcount p |}.

Definition set_flag (writer : bool) (p : pipe) : pipe :=
  {| buffer := buffer p; buf_size := buf_size p; pos := pos p;
     eof := if writer then true else eof p;
     broken := if writer then broken p else true;
     reader_count := reader_count p; writer_count := writer_count p;
     refcount := refcount p |}.

Definition unref (p : pipe) : pipe :=
  {| buffer := buffer p; buf_size := buf_size p; pos := pos p; eof := eof p;
     broken := broken p; reader_count := reader_count p; writer_count := writer_count p;
     refcount := refcount p - 1 |}.

(** [pipe::poll]: the returned events, and whether the poller was registered on the
    read queue and on the write queue. *)
Definition poll (events : Z) (p : pipe) : Z * bool * bool :=
  let want_in := has events POLLIN in
  let want_out := has events POLLOUT in
  let r := if want_in && can_read p then Z.lor 0 POLLIN else 0 in
  let r := if want_out && can_write p then Z.lor r POLLOUT else r in
  (r, want_in && negb (can_read p), want_out && negb (can_write p)).

(** ** Threads *)

Inductive call : Type :=
  | CRead (flags len : Z)
  | CWrite (flags : Z) (data : list Z)
  | CClose (writer : bool).

(** Program points.  The mutex is held at [Loop], [WaitTest], [WaitAdd] and
    [WaitCheck]; [WaitYield] is the [sched_yield] of the wait macro and [WaitLock] the
    [mutex_lock] behind it. *)
Inductive point : Type :=
  | Idle
  | Lock
  | Loop (n : Z)
  | WaitTest (n : Z)
  | WaitAdd (n : Z)
  | WaitCheck (n : Z)
  | WaitYield (n : Z)
  | WaitLock (n : Z)
  | CloseDec
  | CloseFlag
  | CloseWake
  | CloseUnref.

Record thread : Type := Thread {
  t_call : call;
  t_point : point;
  t_runnable : bool
}.

Record machine : Type := Machine {
  m_pipe : pipe;
  m_lock : option nat;
  m_threads : gmap nat thread;
  m_readq : list nat;
  m_writeq : list nat
}.

(** What a thread shows to the outside: bytes accepted from a writer, bytes handed to
    a reader, a [SIGPIPE], and the value its call returns. *)
Inductive obs : Type :=
  | Sent (t : nat) (d : list Z)
  | Received (t : nat) (d : list Z)
  | Sigpipe (t : nat)
  | Ret (t : nat) (r : Z).

Definition goto (pt : point) (th : thread) : thread :=
  Thread (t_call th) pt (t_runnable th).
Definition set_state (r : bool) (th : thread) : thread :=
  Thread (t_call th) (t_point th) r.

Definition upd_thread (t : nat) (f : thread → thread) (m : machine) : machine :=
  Machine (m_pipe m) (m_lock m) (alter f t (m_threads m)) (m_readq m) (m_writeq m).
Definition upd_pipe (f : pipe → pipe) (m : machine) : machine :=
  Machine (f (m_pipe m)) (m_lock m) (m_threads m) (m_readq m) (m_writeq m).
Definition set_lock (l : option nat) (m : machine) : machine :=
  Machine (m_pipe m) l (m_threads m) (m_readq m) (m_writeq m).

(** ** Wait queues *)

Definition wake_threads (q : list nat) (thr : gmap nat thread) : gmap nat thread :=
  foldr (λ t thr, alter (set_state true) t thr) thr q.

(** [wait_queue_wake_all]: every token is unlinked and its thread made runnable. *)
Definition wake_readers (m : machine) : machine :=
  Machine (m_pipe m) (m_lock m) (wake_threads (m_readq m) (m_threads m)) [] (m_writeq m).
Definition wake_writers (m : machine) : machine :=
  Machine (m_pipe m) (m_lock m) (wake_threads (m_writeq m) (m_threads m)) (m_readq m) [].

Definition is_reader (c : call) : bool :=
  match c with CRead _ _ => true | _ => false end.

(** [wait_queue_add] and [wait_queue_remove] on the queue the call waits on. *)
Definition queue_add (c : call) (t : nat) (m : machine) : machine :=
  if is_reader c
  then Machine (m_pipe m) (m_lock m) (m_threads m) (m_readq m ++ [t]) (m_writeq m)
  else Machine (m_pipe m) (m_lock m) (m_threads m) (m_readq m) (m_writeq m ++ [t]).
Definition unlink (t : nat) (q : list nat) : list nat := filter (λ u, u ≠ t) q.
Definition queue_remove (c : call) (t : nat) (m : machine) : machine :=
  if is_reader c
  then Machine (m_pipe m) (m_lock m) (m_threads m) (unlink t (m_readq m)) (m_writeq m)
  else Machine (m_pipe m) (m_lock m) (m_threads m) (m_readq m) (unlink t (m_writeq m)).

Definition wait_cond (c : call) (n : Z) (p : pipe) : bool :=
  match c with
  | CRead _ _ => can_read_or_eof p
  | CWrite _ data => write_wait_cond (Z.of_nat (length data)) n p
  | CClose _ => true
  end.

Definition iter (c : call) (fault : bool) (n : Z) (p : pipe) : effect :=
  match c with
  | CRead flags len => read_iter flags len fault n p
  | CWrite flags data => write_iter flags data fault n p
  | CClose _ => stay p (Return 0)
  end.

(** ** Steps *)

(** A thread starts a call; a thread runs to its next program point, with the outcome
    of the user copy and of [signal_is_pending] chosen by the environment; a signal
    makes a thread runnable. *)
Inductive event : Type :=
  | Begin (t : nat) (c : call)
  | Run (t : nat) (fault sig : bool)
  | Interrupt (t : nat).

Definition obs_of (t : nat) (e : effect) : list obs :=
  (match e_sent e with [] => [] | d => [Sent t d] end) ++
  (match e_received e with [] => [] | d => [Received t d] end) ++
  (if e_sigpipe e then [Sigpipe t] else []) ++
  (match e_next e with Return r => [Ret t r] | _ => [] end).

Definition apply_effect (t : nat) (e : effect) (m : machine) : machine :=
  let m := upd_pipe (λ _, e_pipe e) m in
  let m := if e_wake_readers e then wake_readers m else m in
  let m := if e_wake_writers e then wake_writers m else m in
  match e_next e with
  | Again n => upd_thread t (goto (Loop n)) m
  | Block n => upd_thread t (goto (WaitTest n)) m
  | Return _ => upd_thread t (goto Idle) (set_lock None m)
  end.

Definition run_thread (t : nat) (th : thread) (fault sig : bool) (m : machine)
    : option (list obs * machine) :=
  let c := t_call th in
  match t_point th with
  | Idle => None
  | Lock =>
      if m_lock m is None
      then Some ([], upd_thread t (goto (Loop 0)) (set_lock (Some t) m)) else None
  | Loop n => let e := iter c fault n (m_pipe m) in Some (obs_of t e, apply_effect t e m)
  | WaitTest n =>
      if wait_cond c n (m_pipe m) then Some ([], upd_thread t (goto (Loop n)) m)
      else Some ([], upd_thread t (set_state false ∘ goto (WaitAdd n)) m)
  | WaitAdd n => Some ([], upd_thread t (goto (WaitCheck n)) (queue_add c t m))
  | WaitCheck n =>
      if wait_cond c n (m_pipe m) then
        Some ([], upd_thread t (set_state true ∘ goto (Loop n)) (queue_remove c t m))
      else if sig then
        Some ([Ret t (- EINTR)],
              upd_thread t (set_state true ∘ goto Idle)
                (set_lock None (queue_remove c t m)))
      else Some ([], upd_thread t (goto (WaitYield n)) (set_lock None m))
  | WaitYield n =>
      if t_runnable th then Some ([], upd_thread t (goto (WaitLock n)) m) else None
  | WaitLock n =>
      if m_lock m is None
      then Some ([], upd_thread t (goto (WaitAdd n))
                       (queue_remove c t (set_lock (Some t) m)))
      else None
  | CloseDec =>
      if c is CClose w then
        let m' := upd_pipe (dec_count w) m in
        let count := if w then writer_count (m_pipe m') else reader_count (m_pipe m') in
        Some ([], upd_thread t (goto (if count =? 0 then CloseFlag else CloseUnref)) m')
      else None
  | CloseFlag =>
      if c is CClose w
      then Some ([], upd_thread t (goto CloseWake) (upd_pipe (set_flag w) m)) else None
  | CloseWake =>
      if c is CClose w
      then Some ([], upd_thread t (goto CloseUnref)
                       (if w then wake_readers m else wake_writers m))
      else None
  | CloseUnref => Some ([Ret t 0], upd_thread t (goto Idle) (upd_pipe unref m))
  end.

Definition begin_call (t : nat) (c : call) (m : machine) : machine :=
  let pt := if c is CClose _ then CloseDec else Lock in
  Machine (m_pipe m) (m_lock m) (<[t := Thread c pt true]> (m_threads m))
          (m_readq m) (m_writeq m).

Definition step (e : event) (m : machine) : option (list obs * machine) :=
  match e with
  | Begin t c =>
      match m_threads m !! t with
      | Some th => if t_point th is Idle then Some ([], begin_call t c m) else None
      | None => Some ([], begin_call t c m)
      end
  | Run t fault sig => th ← m_threads m !! t; run_thread t th fault sig m
  | Interrupt t => Some ([], upd_thread t (set_state true) m)
  end.

Fixpoint run (es : list event) (m : machine) : option (list obs * machine) :=
  match es with
  | [] => Some ([], m)
  | e :: es =>
      '(o, m') ← step e m;
      '(o', m'') ← run es m';
      Some (o ++ o', m'')
  end.

Definition boot (size : Z) : machine := Machine (new_pipe size) None ∅ [] [].
