(* ===== verification/PipeFacts.v ===== *)
(** * PipeFacts: what one loop iteration does, and the invariant of the pipe machine

    [contents] is the queue of bytes a pipe holds.  [iter_ok] describes every iteration
    of the copy loops by its effect on [contents]; [machine_ok] is the invariant that
    every step of every thread preserves ([step_ok]): buffer bounds, mutual exclusion,
    queue membership of waiting threads, and the reason each sleeping thread has for
    not being woken. *)

From S2P Require Import Prelude Bits Abi Pipe.

Definition contents (p : pipe) : list Z := take (Z.to_nat (pos p)) (buffer p).

Record pipe_ok (p : pipe) : Prop := {
  pipe_len : length (buffer p) = Z.to_nat (buf_size p);
  pipe_pos : 0 <= pos p <= buf_size p;
  pipe_size : buf_size p < 2 ^ 63
}.

Definition call_len (c : call) : Z :=
  match c with
  | CRead _ len => len
  | CWrite _ data => Z.of_nat (length data)
  | CClose _ => 0
  end.

Definition is_writer (c : call) : bool :=
  match c with CWrite _ _ => true | _ => false end.

(** How far a call may have got: a write of at most [PIPE_BUF] bytes has moved all of
    its data or none. *)
Definition progress_ok (c : call) (n : Z) : Prop :=
  0 <= n <= call_len c ∧ call_len c < 2 ^ 63 ∧
  (is_writer c = true → call_len c <= PIPE_BUF → n = 0 ∨ n = call_len c).

Lemma i64_id x : - 2 ^ 63 <= x < 2 ^ 63 → i64 x = x.
Proof. intros ?. unfold i64. rewrite Z.mod_small; lia. Qed.

Lemma truthy_spec x : truthy x = true ↔ x ≠ 0.
Proof. unfold truthy. rewrite negb_true_iff, Z.eqb_neq. done. Qed.

Lemma space_ok p : pipe_ok p → available_space p = buf_size p - pos p.
Proof. intros [? ? ?]. apply u64_small. lia. Qed.

(** ** Moving bytes *)

Lemma length_mem_write b off d :
  (off + length d <= length b)%nat → length (mem_write b off d) = length b.
Proof. intros ?. unfold mem_write. rewrite !length_app, length_take, length_drop. lia. Qed.

Lemma take_mem_write b off d :
  (off + length d <= length b)%nat → take (off + length d) (mem_write b off d) = take off b ++ d.
Proof.
  intros ?. unfold mem_write. rewrite app_assoc. apply take_app_length'.
  rewrite length_app, length_take. lia.
Qed.

(** Taking [k] bytes out and moving the rest to the front removes a prefix. *)
Lemma contents_shift p k :
  pipe_ok p → 0 < k <= pos p →
  let b := if truthy (pos p - k)
           then mem_write (buffer p) 0
                  (take (Z.to_nat (pos p - k)) (drop (Z.to_nat k) (buffer p)))
           else buffer p in
  pipe_ok (set_data b (pos p - k) p) ∧
  contents p = take (Z.to_nat k) (buffer p) ++ contents (set_data b (pos p - k) p).
Proof.
  intros [Hl Hp Hs] Hk b.
  set (r := take (Z.to_nat (pos p - k)) (drop (Z.to_nat k) (buffer p))) in *.
  assert (length r = Z.to_nat (pos p - k)) as Hr.
  { unfold r. rewrite length_take, length_drop. lia. }
  assert (length b = length (buffer p)) as Hb.
  { unfold b. case_match; [|done]. apply length_mem_write. lia. }
  assert (take (Z.to_nat (pos p - k)) b = r) as Htake.
  { unfold b. case_match eqn:E.
    - rewrite <- Hr. apply (take_mem_write (buffer p) 0 r). lia.
    - unfold r. unfold truthy in E. apply negb_false_iff, Z.eqb_eq in E.
      by replace (pos p - k) with 0 by lia. }
  split; [split; simpl; lia|].
  unfold contents. cbn [pos buffer set_data]. rewrite Htake. unfold r.
  rewrite take_take_drop. f_equal. lia.
Qed.

(** Storing bytes behind the occupied part appends them. *)
Lemma contents_append p d :
  pipe_ok p → pos p + Z.of_nat (length d) <= buf_size p →
  let p' := set_data (mem_write (buffer p) (Z.to_nat (pos p)) d)
                     (pos p + Z.of_nat (length d)) p in
  pipe_ok p' ∧ contents p' = contents p ++ d.
Proof.
  intros [Hl Hp Hs] Hd. split.
  - split; simpl; [rewrite length_mem_write; lia|lia|lia].
  - unfold contents; simpl.
    replace (Z.to_nat (pos p + Z.of_nat (length d)))
      with (Z.to_nat (pos p) + length d)%nat by lia.
    apply take_mem_write. lia.
Qed.

(** ** One iteration *)

Definition same_flags (p p' : pipe) : Prop :=
  eof p' = eof p ∧ broken p' = broken p ∧ buf_size p' = buf_size p.

(** The contract of an iteration at progress [n]. *)
Record iter_post (c : call) (n : Z) (p : pipe) (e : effect) : Prop := {
  it_pipe : pipe_ok (e_pipe e);
  it_flags : same_flags p (e_pipe e);
  it_queue : contents p ++ e_sent e = e_received e ++ contents (e_pipe e);
  it_next : ∀ k, e_next e = Again k ∨ e_next e = Block k → progress_ok c k;
  it_atomic : ∀ f data, c = CWrite f data → call_len c <= PIPE_BUF →
    e_sent e = [] ∨ e_sent e = data;
  it_sent : is_writer c = false → e_sent e = [];
  it_received : is_reader c = false → e_received e = [];
  (** bytes taken out of the pipe wake the writers *)
  it_wake_w : pos (e_pipe e) < pos p → e_wake_writers e = true;
  (** bytes put into the pipe are announced by the time the writer leaves the loop *)
  it_wake_r : is_writer c = true → n ≠ 0 ∨ pos (e_pipe e) ≠ pos p →
    broken p = true ∨ e_wake_readers e = true ∨ ∃ k, e_next e = Again k ∧ k ≠ 0;
  it_grow : is_reader c = true → pos (e_pipe e) <= pos p;
  it_full : is_full p = true → pos (e_pipe e) <= pos p
}.

Lemma iter_post_stay c n p wr ww sp nx :
  pipe_ok p →
  (∀ k, nx = Again k ∨ nx = Block k → progress_ok c k) →
  (is_writer c = true → n ≠ 0 → broken p = true ∨ wr = true ∨ ∃ k, nx = Again k ∧ k ≠ 0) →
  iter_post c n p (Effect p wr ww [] [] sp nx).
Proof.
  intros Hp Hn Hw. split; simpl; try done; try lia; auto.
  - by rewrite app_nil_r.
  - intros ? [?|?]; [auto|lia].
Qed.

Lemma read_iter_ok flags len fault n p :
  pipe_ok p → progress_ok (CRead flags len) n →
  iter_post (CRead flags len) n p (read_iter flags len fault n p).
Proof.
  intros Hp (Hn & Hlen & _). unfold read_iter, stay. simpl in Hn, Hlen.
  rewrite i64_id by lia.
  destruct (Z.eqb_spec n len). { apply iter_post_stay; [done|naive_solver|done]. }
  unfold can_read. destruct (Z.eqb_spec (pos p) 0); simpl.
  { repeat case_match; apply iter_post_stay; try done; try naive_solver.
    intros k [?|[= <-]]; [done|]. by split_and!; simpl; try lia. }
  destruct fault. { apply iter_post_stay; [done|naive_solver|done]. }
  rewrite u64_small by lia. pose proof (pipe_pos _ Hp).
  destruct (contents_shift p (Z.min (len - n) (pos p)) Hp ltac:(lia)) as [Hp' Hc].
  split; simpl; try done; try lia.
  - by rewrite app_nil_r.
  - intros k [[= <-]|?]; [|done]. by split_and!; simpl; try lia.
Qed.

Lemma write_iter_ok flags data fault n p :
  pipe_ok p → progress_ok (CWrite flags data) n →
  iter_post (CWrite flags data) n p (write_iter flags data fault n p).
Proof.
  intros Hp (Hn & Hlen & Hat). unfold write_iter. simpl in Hn, Hlen, Hat.
  pose proof (pipe_pos _ Hp). set (len := Z.of_nat (length data)) in *.
  rewrite i64_id by lia.
  destruct (Z.eqb_spec n len). { apply iter_post_stay; [done|naive_solver|auto]. }
  destruct (broken p) eqn:Hb. { apply iter_post_stay; [done|naive_solver|auto]. }
  destruct (write_blocks len n p) eqn:Hblk.
  { case_match; (apply iter_post_stay; [done| |rewrite truthy_spec; auto]); [naive_solver|].
    intros k [?|[= <-]]; [done|]. by split_and!; simpl; try lia. }
  destruct fault. { apply iter_post_stay; [done|naive_solver|]. rewrite truthy_spec; auto. }
  unfold write_blocks, is_full in Hblk. rewrite space_ok, u64_small in * by (done || lia).
  apply orb_false_iff in Hblk as [Hblk Hfull%Z.eqb_neq].
  set (k := Z.min (len - n) (buf_size p - pos p)).
  set (d := take (Z.to_nat k) (drop (Z.to_nat n) data)).
  assert (length d = Z.to_nat k) as Hd. { unfold d. rewrite length_take, length_drop. lia. }
  destruct (contents_append p d Hp ltac:(lia)) as [Hp' Hc].
  replace (Z.of_nat (length d)) with k in * by lia.
  assert (len <= PIPE_BUF → n = 0 ∧ k = len) as Hall.
  { intros Hle. unfold is_atomic_write in Hblk. rewrite (proj2 (Z.leb_le _ _) Hle) in Hblk.
    rewrite andb_true_r in Hblk. apply Z.ltb_ge in Hblk. destruct (Hat eq_refl Hle); lia. }
  split; simpl; try done; try lia.
  - intros ? [[= <-]|?]; [|done]. split_and!; simpl; fold len; lia.
  - intros ?? [= <- <-] Hle. right. destruct (Hall Hle) as [-> Hk].
    unfold d. rewrite drop_0, take_ge; [done|lia].
  - intros _ _. right; right. exists (n + k). split; [done|lia].
  - unfold is_full. intros ?%Z.eqb_eq. done.
Qed.

Lemma iter_ok c fault n p :
  pipe_ok p → progress_ok c n → iter_post c n p (iter c fault n p).
Proof.
  destruct c; [apply read_iter_ok|apply write_iter_ok|].
  intros ? ?. apply iter_post_stay; [done|naive_solver|done].
Qed.

(** ** The invariant of the machine *)

Definition holds (pt : point) : bool :=
  match pt with Loop _ | WaitTest _ | WaitAdd _ | WaitCheck _ => true | _ => false end.

Definition waits (pt : point) : bool :=
  match pt with WaitCheck _ | WaitYield _ => true | _ => false end.

Definition is_close (c : call) : bool :=
  match c with CClose _ => true | _ => false end.

Definition local_ok (th : thread) : Prop :=
  match t_point th with
  | Idle => True
  | Lock => is_close (t_call th) = false ∧ progress_ok (t_call th) 0
  | Loop n | WaitTest n | WaitAdd n | WaitCheck n | WaitYield n | WaitLock n =>
      is_close (t_call th) = false ∧ progress_ok (t_call th) n
  | CloseDec | CloseFlag | CloseWake | CloseUnref => is_close (t_call th) = true
  end.

Definition queue_of (c : call) (m : machine) : list nat :=
  if is_reader c then m_readq m else m_writeq m.

(** A writer that has put bytes into the pipe and is still in its loop. *)
Definition will_announce (th : thread) : Prop :=
  is_writer (t_call th) = true ∧ ∃ n, t_point th = Loop n ∧ n ≠ 0.

(** A closer that has set its flag and not yet woken the other side. *)
Definition will_hang_up (writer : bool) (th : thread) : Prop :=
  t_call th = CClose writer ∧ t_point th = CloseWake.

Definition some_thread (P : thread → Prop) (m : machine) : Prop :=
  ∃ t th, m_threads m !! t = Some th ∧ P th.

(** Why a call asleep in its wait queue need not be woken yet. *)
Definition sleep_ok (c : call) (m : machine) : Prop :=
  let p := m_pipe m in
  if is_reader c
  then (pos p ≠ 0 → broken p = true ∨ some_thread will_announce m)
       ∧ (eof p = true → some_thread (will_hang_up true) m)
  else is_full p = true ∧ (broken p = true → some_thread (will_hang_up false) m).

Record machine_ok (m : machine) : Prop := {
  ok_pipe : pipe_ok (m_pipe m);
  ok_local : ∀ t th, m_threads m !! t = Some th → local_ok th;
  ok_lock : ∀ t th, m_threads m !! t = Some th →
    holds (t_point th) = bool_decide (m_lock m = Some t);
  ok_holder : ∀ t, m_lock m = Some t → is_Some (m_threads m !! t);
  ok_queued : ∀ t th, m_threads m !! t = Some th → t_runnable th = false →
    waits (t_point th) = true → t ∈ queue_of (t_call th) m;
  ok_sleep : ∀ t th n, m_threads m !! t = Some th → t_runnable th = false →
    t_point th = WaitYield n → sleep_ok (t_call th) m
}.

(** A step of one thread changes another at most by making it runnable. *)
Definition th_le (th th' : thread) : Prop :=
  t_call th' = t_call th ∧ t_point th' = t_point th ∧
  (t_runnable th' = false → t_runnable th = false).

Definition others_le (t : nat) (m m' : machine) : Prop :=
  ∀ u, u ≠ t → option_Forall2 th_le (m_threads m !! u) (m_threads m' !! u).

#[export] Instance th_le_refl : Reflexive th_le.
Proof. done. Qed.

#[export] Instance th_le_trans : Transitive th_le.
Proof. intros ??? (? & ? & ?) (? & ? & ?). split_and!; [congruence..|auto]. Qed.

(** The part of a step that concerns the threads other than [t]. *)
Record frame (t : nat) (m m' : machine) : Prop := {
  fr_threads : others_le t m m';
  fr_lock : ∀ u, u ≠ t → m_lock m' = Some u ↔ m_lock m = Some u;
  fr_queue : ∀ u th', u ≠ t → m_threads m' !! u = Some th' → t_runnable th' = false →
    u ∈ queue_of (t_call th') m → u ∈ queue_of (t_call th') m'
}.

Lemma some_thread_frame (P : thread → Prop) t m m' :
  others_le t m m' →
  (∀ th th', th_le th th' → P th → P th') →
  (∀ th, m_threads m !! t = Some th → ¬ P th) →
  some_thread P m → some_thread P m'.
Proof.
  intros Hle HP Ht (u & th & Hu & Hth).
  assert (u ≠ t) by naive_solver. specialize (Hle u ltac:(done)). rewrite Hu in Hle.
  inversion Hle as [? th' Hle' e1 e2|]; subst. exists u, th'. eauto.
Qed.

Lemma will_announce_le th th' : th_le th th' → will_announce th → will_announce th'.
Proof. intros (Hc & Hp & _). unfold will_announce. by rewrite Hc, Hp. Qed.

Lemma will_hang_up_le w th th' : th_le th th' → will_hang_up w th → will_hang_up w th'.
Proof. intros (Hc & Hp & _). unfold will_hang_up. by rewrite Hc, Hp. Qed.

(** Establishing the invariant after a step of [t]. *)
Lemma machine_ok_step t m m' :
  machine_ok m → frame t m m' → pipe_ok (m_pipe m') →
  (m_lock m' = Some t → is_Some (m_threads m' !! t)) →
  (∀ th', m_threads m' !! t = Some th' →
     local_ok th' ∧ holds (t_point th') = bool_decide (m_lock m' = Some t) ∧
     (t_runnable th' = false → waits (t_point th') = true → t ∈ queue_of (t_call th') m') ∧
     (t_runnable th' = false → ∀ n, t_point th' = WaitYield n → sleep_ok (t_call th') m')) →
  (∀ u th' n, u ≠ t → m_threads m' !! u = Some th' → t_runnable th' = false →
     t_point th' = WaitYield n → u ∈ queue_of (t_call th') m →
     sleep_ok (t_call th') m → sleep_ok (t_call th') m') →
  machine_ok m'.
Proof.
  intros Hm Hf Hp Hh Ht Hs.
  assert (∀ u th', u ≠ t → m_threads m' !! u = Some th' →
    ∃ th, m_threads m !! u = Some th ∧ th_le th th') as Hback.
  { intros u th' Hu Hth'. pose proof (fr_threads _ _ _ Hf u Hu) as H.
    rewrite Hth' in H. inversion H; subst; eauto. }
  split; [done|..]; intros u; destruct (decide (u = t)) as [->|Hu].
  - intros. naive_solver.
  - intros th' Hth'. destruct (Hback _ _ Hu Hth') as (th & Hth & Hc & Hpt & _).
    pose proof (ok_local _ Hm _ _ Hth) as H. unfold local_ok in *. by rewrite Hc, Hpt.
  - intros. naive_solver.
  - intros th' Hth'. destruct (Hback _ _ Hu Hth') as (th & Hth & _ & Hpt & _).
    rewrite Hpt, (ok_lock _ Hm _ _ Hth). apply bool_decide_ext.
    symmetry. by apply (fr_lock _ _ _ Hf).
  - done.
  - intros Hl%(fr_lock _ _ _ Hf); [|done]. destruct (ok_holder _ Hm _ Hl) as [th Hth].
    pose proof (fr_threads _ _ _ Hf u Hu) as H. rewrite Hth in H. inversion H; eauto.
  - intros. naive_solver.
  - intros th' Hth' Hr Hw. destruct (Hback _ _ Hu Hth') as (th & Hth & Hc & Hpt & Hrr).
    apply (fr_queue _ _ _ Hf _ _ Hu Hth' Hr). rewrite Hc. rewrite Hpt in Hw.
    by apply (ok_queued _ Hm); auto.
  - intros. naive_solver.
  - intros th' n Hth' Hr Hw. destruct (Hback _ _ Hu Hth') as (th & Hth & Hc & Hpt & Hrr).
    apply (Hs u _ n); auto; rewrite Hc; rewrite Hpt in Hw.
    + apply (ok_queued _ Hm _ _ Hth (Hrr Hr)). by rewrite Hw.
    + by apply (ok_sleep _ Hm _ _ n Hth (Hrr Hr)).
Qed.

(** The two pipes differ at most in their counters. *)
Definition same_data (p p' : pipe) : Prop :=
  buffer p' = buffer p ∧ pos p' = pos p ∧ same_flags p p'.

#[export] Instance same_data_refl : Reflexive same_data.
Proof. done. Qed.

Lemma same_data_ok p p' : same_data p p' → pipe_ok p → pipe_ok p'.
Proof. intros (Hb & Hp & _ & _ & Hs) []. split; congruence. Qed.

(** A step that leaves the pipe's data alone, of a thread nobody relies on. *)
Lemma sleep_ok_frame t m m' c :
  others_le t m m' → same_data (m_pipe m) (m_pipe m') →
  (∀ th, m_threads m !! t = Some th → ¬ will_announce th ∧ ∀ w, ¬ will_hang_up w th) →
  sleep_ok c m → sleep_ok c m'.
Proof.
  intros Hle (_ & Hp & He & Hb & Hs) Ht. unfold sleep_ok, is_full. rewrite Hp, He, Hb, Hs.
  case_match; intros [H1 H2]; split; try done.
  - intros Hpos. destruct (H1 Hpos) as [?|Ha]; [auto|right].
    apply (some_thread_frame _ t m m'); try done; [apply will_announce_le|naive_solver].
  - intros Heof. apply (some_thread_frame _ t m m'); auto; [apply will_hang_up_le|naive_solver].
  - intros Hbr. apply (some_thread_frame _ t m m'); auto; [apply will_hang_up_le|naive_solver].
Qed.

(** ** Frames of the primitive updates *)

#[export] Instance frame_refl t : Reflexive (frame t).
Proof. split; [|done|auto]. intros u _. destruct (_ !! u); by constructor. Qed.

#[export] Instance frame_trans t : Transitive (frame t).
Proof.
  intros m1 m2 m3 F G. split.
  - intros u Hu. pose proof (fr_threads _ _ _ F u Hu) as H1.
    pose proof (fr_threads _ _ _ G u Hu) as H2.
    inversion H1 as [??? e1 e2|e1 e2]; rewrite <- e2 in H2; inversion H2; subst;
      constructor. by etrans.
  - intros u Hu. by rewrite (fr_lock _ _ _ G u Hu), (fr_lock _ _ _ F u Hu).
  - intros u th Hu Hth Hr Hq. apply (fr_queue _ _ _ G u th Hu Hth Hr).
    pose proof (fr_threads _ _ _ G u Hu) as H2. rewrite Hth in H2.
    inversion H2 as [th2 ? (Hc & _ & Hrr) e1|]; subst. rewrite Hc in Hq |- *.
    apply (fr_queue _ _ _ F u th2); auto.
Qed.

Lemma frame_upd_thread t f m : frame t m (upd_thread t f m).
Proof.
  split; [|done|auto]. intros u Hu. unfold upd_thread; simpl.
  rewrite lookup_alter_ne by done. destruct (_ !! u); by constructor.
Qed.

Lemma frame_upd_pipe t f m : frame t m (upd_pipe f m).
Proof. split; [|done|auto]. intros u _. simpl. destruct (_ !! u); by constructor. Qed.

Lemma frame_set_lock t l m :
  (l = None ∨ l = Some t) → (m_lock m = None ∨ m_lock m = Some t) → frame t m (set_lock l m).
Proof.
  intros Hl Hm. split; [intros u _; simpl; destruct (_ !! u); by constructor| |auto].
  intros u Hu. simpl. naive_solver.
Qed.

Lemma frame_queue_add t c m : frame t m (queue_add c t m).
Proof.
  unfold queue_add. split.
  - intros u _. case_match; simpl; destruct (_ !! u); by constructor.
  - by case_match.
  - intros u th Hu _ _. unfold queue_of. repeat case_match; simpl; set_solver.
Qed.

Lemma frame_queue_remove t c m : frame t m (queue_remove c t m).
Proof.
  unfold queue_remove, unlink. split.
  - intros u _. case_match; simpl; destruct (_ !! u); by constructor.
  - by case_match.
  - intros u th Hu _ _ Hq. unfold queue_of in *.
    repeat case_match; simpl; try done; by apply list_elem_of_filter.
Qed.

Lemma lookup_wake_threads q thr u :
  wake_threads q thr !! u
  = (if bool_decide (u ∈ q) then set_state true <$> thr !! u else thr !! u).
Proof.
  induction q as [|v q IH]; [done|]. simpl. rewrite lookup_alter.
  destruct (decide (v = u)) as [->|Hv].
  - rewrite (bool_decide_true (u ∈ u :: q)) by set_solver.
    rewrite IH. case_bool_decide; [|done]. by destruct (thr !! u).
  - rewrite (bool_decide_ext (u ∈ v :: q) (u ∈ q)) by set_solver. apply IH.
Qed.

Lemma wake_threads_le q thr u : option_Forall2 th_le (thr !! u) (wake_threads q thr !! u).
Proof.
  rewrite lookup_wake_threads. case_bool_decide; destruct (thr !! u); by constructor.
Qed.

Lemma wake_threads_sleeper q thr u th :
  wake_threads q thr !! u = Some th → t_runnable th = false → u ∉ q.
Proof.
  rewrite lookup_wake_threads. case_bool_decide; [|done].
  destruct (thr !! u); simpl; [|done]. by intros [= <-].
Qed.

Lemma frame_wake_readers t m : frame t m (wake_readers m).
Proof.
  split; [intros u _; apply wake_threads_le|done|].
  intros u th Hu Hth Hr. unfold queue_of. case_match; simpl; [|done].
  intros Hq. by destruct (wake_threads_sleeper _ _ _ _ Hth Hr).
Qed.

Lemma frame_wake_writers t m : frame t m (wake_writers m).
Proof.
  split; [intros u _; apply wake_threads_le|done|].
  intros u th Hu Hth Hr. unfold queue_of. case_match; simpl; [done|].
  intros Hq. by destruct (wake_threads_sleeper _ _ _ _ Hth Hr).
Qed.

Create HintDb pipe.
Create Rewrite HintDb pipe.
#[export] Hint Resolve frame_refl frame_upd_thread frame_upd_pipe frame_queue_add
  frame_queue_remove frame_wake_readers frame_wake_writers : pipe.
#[export] Hint Resolve fr_threads : pipe.

(** Splits the frame of a composite update into the frames of its parts. *)
Ltac frame_solve :=
  repeat first
    [ eapply frame_trans; [|apply frame_upd_thread]
    | eapply frame_trans; [|apply frame_queue_remove]
    | eapply frame_trans; [|apply frame_queue_add]
    | eapply frame_trans; [|apply frame_wake_readers]
    | eapply frame_trans; [|apply frame_wake_writers]
    | eapply frame_trans; [|apply frame_upd_pipe]
    | eapply frame_trans; [|apply frame_set_lock; [by auto|autorewrite with pipe; by auto]]
    | reflexivity ].

Lemma threads_queue_add c t m : m_threads (queue_add c t m) = m_threads m.
Proof. unfold queue_add. by case_match. Qed.
Lemma threads_queue_remove c t m : m_threads (queue_remove c t m) = m_threads m.
Proof. unfold queue_remove. by case_match. Qed.
Lemma pipe_queue_add c t m : m_pipe (queue_add c t m) = m_pipe m.
Proof. unfold queue_add. by case_match. Qed.
Lemma pipe_queue_remove c t m : m_pipe (queue_remove c t m) = m_pipe m.
Proof. unfold queue_remove. by case_match. Qed.
Lemma lock_queue_add c t m : m_lock (queue_add c t m) = m_lock m.
Proof. unfold queue_add. by case_match. Qed.
Lemma lock_queue_remove c t m : m_lock (queue_remove c t m) = m_lock m.
Proof. unfold queue_remove. by case_match. Qed.
#[export] Hint Rewrite threads_queue_add threads_queue_remove pipe_queue_add
  pipe_queue_remove lock_queue_add lock_queue_remove : pipe.

Lemma queue_add_elem c t m : t ∈ queue_of c (queue_add c t m).
Proof. unfold queue_of, queue_add. case_match; simpl; set_solver. Qed.

Lemma queue_of_upd_thread c t f m : queue_of c (upd_thread t f m) = queue_of c m.
Proof. done. Qed.

(** A failed wait condition is a reason to sleep. *)
Lemma wait_cond_sleep c n m :
  is_close c = false → wait_cond c n (m_pipe m) = false → sleep_ok c m.
Proof.
  destruct c as [| |]; simpl; try done; intros _.
  - unfold can_read_or_eof, can_read, sleep_ok. simpl.
    rewrite orb_false_iff, negb_false_iff, Z.eqb_eq. intros [-> ->]. done.
  - unfold write_wait_cond, sleep_ok. simpl. rewrite !orb_false_iff, negb_false_iff.
    intros [[_ ->] ->]. done.
Qed.

(** A step that changes only threads, lock and queues. *)
Lemma quiet_ok t c pt r c' pt' r' m m' :
  machine_ok m → m_threads m !! t = Some (Thread c pt r) →
  m_threads m' !! t = Some (Thread c' pt' r') →
  frame t m m' → same_data (m_pipe m) (m_pipe m') →
  (∀ n, pt = Loop n → False) → (pt = CloseWake → False) →
  local_ok (Thread c' pt' r') → holds pt' = bool_decide (m_lock m' = Some t) →
  (r' = false → waits pt' = true → t ∈ queue_of c' m') →
  (r' = false → ∀ n, pt' = WaitYield n → sleep_ok c' m') →
  machine_ok m'.
Proof.
  intros Hm Ht Ht' Hf Hp Hl1 Hl2 Hloc Hlock Hq Hs.
  apply (machine_ok_step t m m'); try done.
  - eapply same_data_ok; [exact Hp|apply Hm].
  - intros th. rewrite Ht'. intros [= <-]. done.
  - intros u th n _ _ _ _ _. apply (sleep_ok_frame t m m'); [apply Hf|done|].
    intros th0. rewrite Ht. intros [= <-]. unfold will_announce, will_hang_up. simpl.
    naive_solver.
Qed.

(** The points of the locking and waiting protocol. *)
Definition protocol_point (pt : point) : bool :=
  match pt with
  | Lock | WaitTest _ | WaitAdd _ | WaitCheck _ | WaitYield _ | WaitLock _ => true
  | _ => false
  end.

Ltac quiet :=
  eapply quiet_ok; [eassumption|eassumption|
    cbn [upd_thread m_threads set_lock upd_pipe]; rewrite lookup_alter_eq;
    autorewrite with pipe; cbn [m_threads set_lock upd_pipe];
    match goal with H : m_threads _ !! _ = Some _ |- _ => rewrite H end; reflexivity
  |frame_solve
  |cbn [upd_thread m_pipe set_lock upd_pipe]; autorewrite with pipe; by repeat split
  |try done|try done|..].

Lemma protocol_step_ok t c pt r fault sig m o m' :
  machine_ok m → m_threads m !! t = Some (Thread c pt r) → protocol_point pt = true →
  run_thread t (Thread c pt r) fault sig m = Some (o, m') → machine_ok m'.
Proof.
  intros Hm Ht Hpt. pose proof (ok_local _ Hm _ _ Ht) as Hloc.
  pose proof (ok_lock _ Hm _ _ Ht) as Hlk. unfold local_ok in Hloc. simpl in Hlk.
  unfold run_thread. cbn [t_call t_point t_runnable].
  destruct pt; try done; simpl in Hloc, Hlk; try (symmetry in Hlk; apply bool_decide_eq_true in Hlk).
  - destruct (m_lock m) eqn:El; [done|]. intros [= <- <-]. quiet; try done.
    + simpl. by rewrite bool_decide_true.
  - case_match eqn:E; intros [= <- <-]; quiet; try done; simpl; by rewrite bool_decide_true.
  - intros [= <- <-]; quiet; try done.
    + simpl. autorewrite with pipe. by rewrite bool_decide_true.
    + intros _ _. rewrite queue_of_upd_thread. apply queue_add_elem.
  - case_match eqn:E; [|destruct sig]; intros [= <- <-]; quiet; try done.
    + simpl. autorewrite with pipe. by rewrite bool_decide_true.
    + simpl. intros -> _. rewrite queue_of_upd_thread. apply (ok_queued _ Hm _ _ Ht); done.
    + intros _ k _. apply (wait_cond_sleep c n); [apply Hloc|done].
  - destruct r; [|done]. intros [= <- <-]; quiet; try done.
  - destruct (m_lock m) eqn:El; [done|]. intros [= <- <-]. quiet; try done.
    + simpl. autorewrite with pipe. by rewrite bool_decide_true.
Qed.

(** ** Iterations of the copy loops *)

Definition woken (e : effect) (m : machine) : machine :=
  let m := upd_pipe (λ _, e_pipe e) m in
  let m := if e_wake_readers e then wake_readers m else m in
  if e_wake_writers e then wake_writers m else m.

Lemma woken_fields e m : m_pipe (woken e m) = e_pipe e ∧ m_lock (woken e m) = m_lock m.
Proof. unfold woken. by repeat case_match. Qed.

Lemma frame_woken t e m : frame t m (woken e m).
Proof. unfold woken. repeat case_match; frame_solve. Qed.

Lemma frame_apply_effect t e m :
  m_lock m = Some t → frame t m (apply_effect t e m).
Proof.
  intros Hl. unfold apply_effect. fold (woken e m). destruct (woken_fields e m) as [_ Hl'].
  destruct (e_next e); (eapply frame_trans; [|apply frame_upd_thread]);
    try apply frame_woken.
  eapply frame_trans; [apply frame_woken|]. apply frame_set_lock; rewrite ?Hl'; auto.
Qed.

Lemma pipe_apply_effect t e m : m_pipe (apply_effect t e m) = e_pipe e.
Proof.
  unfold apply_effect. fold (woken e m). destruct (woken_fields e m).
  by destruct (e_next e).
Qed.

Lemma woken_sleeper e m u th :
  m_threads (woken e m) !! u = Some th → t_runnable th = false →
  (e_wake_readers e = true → u ∉ m_readq m) ∧ (e_wake_writers e = true → u ∉ m_writeq m).
Proof.
  unfold woken. intros Hu Hr. destruct (e_wake_writers e), (e_wake_readers e); simpl in *.
  - split; intros _; [|by eapply wake_threads_sleeper].
    pose proof (wake_threads_le (m_writeq m) (wake_threads (m_readq m) (m_threads m)) u) as Hle.
    rewrite Hu in Hle. inversion Hle as [th0 ? (_ & _ & Hrr) e1|]; subst.
    symmetry in e1. eapply wake_threads_sleeper; eauto.
  - split; [done|]. intros _. by eapply wake_threads_sleeper.
  - split; [|done]. intros _. by eapply wake_threads_sleeper.
  - done.
Qed.

Lemma apply_effect_sleeper t e m u th :
  u ≠ t → m_threads (apply_effect t e m) !! u = Some th → t_runnable th = false →
  (e_wake_readers e = true → u ∉ m_readq m) ∧ (e_wake_writers e = true → u ∉ m_writeq m).
Proof.
  intros Hu Hth. apply woken_sleeper. revert Hth.
  unfold apply_effect. fold (woken e m).
  destruct (e_next e); simpl; by rewrite lookup_alter_ne by done.
Qed.

Definition next_point (nx : next) : point :=
  match nx with Again n => Loop n | Block n => WaitTest n | Return _ => Idle end.

Lemma apply_effect_self t e m th :
  m_threads m !! t = Some th →
  ∃ r, m_threads (apply_effect t e m) !! t = Some (Thread (t_call th) (next_point (e_next e)) r)
       ∧ m_lock (apply_effect t e m) = (if e_next e is Return _ then None else m_lock m).
Proof.
  intros Ht. unfold apply_effect. fold (woken e m). destruct (woken_fields e m) as [_ Hl].
  assert (∃ r, m_threads (woken e m) !! t = Some (Thread (t_call th) (t_point th) r)) as [r Hr].
  { unfold woken. repeat case_match; simpl; rewrite ?lookup_wake_threads;
      repeat case_bool_decide; rewrite Ht; destruct th; simpl; eauto. }
  exists r. destruct (e_next e); simpl; by rewrite lookup_alter_eq, Hr.
Qed.

Lemma loop_sleep_ok t th n fault u th' m :
  let e := iter (t_call th) fault n (m_pipe m) in
  let m' := apply_effect t e m in
  machine_ok m → m_threads m !! t = Some th → t_point th = Loop n → u ≠ t →
  m_threads m' !! u = Some th' → t_runnable th' = false →
  u ∈ queue_of (t_call th') m → sleep_ok (t_call th') m → sleep_ok (t_call th') m'.
Proof.
  intros e m' Hm Ht Hpt Hu Hth' Hr Hq Hs.
  pose proof (ok_local _ Hm _ _ Ht) as Hloc. unfold local_ok in Hloc. rewrite Hpt in Hloc.
  destruct Hloc as [Hcl Hprog].
  pose proof (iter_ok _ fault _ _ (ok_pipe _ Hm) Hprog) as HI. fold e in HI.
  pose proof (ok_lock _ Hm _ _ Ht) as Hlk. rewrite Hpt in Hlk.
  symmetry in Hlk. apply bool_decide_eq_true in Hlk.
  pose proof (fr_threads _ _ _ (frame_apply_effect t e m Hlk)) as Hle. fold m' in Hle.
  destruct (apply_effect_sleeper t e m u th' Hu Hth' Hr) as [Hnr Hnw].
  destruct (it_flags _ _ _ _ HI) as (Heof & Hbrk & Hsz).
  assert (∀ w, some_thread (will_hang_up w) m → some_thread (will_hang_up w) m') as Hhang.
  { intros w. apply (some_thread_frame _ t); [done|apply will_hang_up_le|].
    intros th0. rewrite Ht. intros [= <-] [_ ?]. congruence. }
  pose proof (pipe_pos _ (ok_pipe _ Hm)) as Hp. pose proof (pipe_pos _ (it_pipe _ _ _ _ HI)).
  assert (m_pipe m' = e_pipe e) as Hpe by apply pipe_apply_effect.
  unfold sleep_ok, queue_of in *. rewrite Hpe, Heof, Hbrk.
  destruct (is_reader (t_call th')); destruct Hs as [Hs1 Hs2]; split; auto.
  - intros Hpos. destruct (decide (is_writer (t_call th) = true ∧ (n ≠ 0 ∨ pos (e_pipe e) ≠ pos (m_pipe m))))
      as [[Hw Hn]|Hno].
    + destruct (it_wake_r _ _ _ _ HI Hw Hn) as [?|[?|(k & Hk & Hk0)]]; [auto|naive_solver|right].
      destruct (apply_effect_self t e m _ Ht) as (r & Ht' & _). rewrite Hk in Ht'.
      eexists t, _. split; [exact Ht'|]. split; [done|]. by exists k.
    + assert (pos (m_pipe m) ≠ 0) as Hpos0.
      { destruct (is_writer (t_call th)) eqn:E; [intros ?; apply Hno; split; [done|right; lia]|].
        destruct (t_call th) eqn:Ec; try done.
        pose proof (it_grow _ _ _ _ HI ltac:(by rewrite ?Ec)). lia. }
      destruct (Hs1 Hpos0) as [?|Ha]; [auto|right]. revert Ha.
      apply (some_thread_frame _ t); [done|apply will_announce_le|].
      intros th0. rewrite Ht. intros [= <-] [? (k & Hk & ?)]. apply Hno. split; [done|]. left. congruence.
  - pose proof (it_full _ _ _ _ HI Hs1). unfold is_full in *. rewrite Hsz. apply Z.eqb_eq in Hs1.
    apply Z.eqb_eq. destruct (decide (pos (e_pipe e) < pos (m_pipe m))) as [Hlt|]; [|lia].
    by destruct (Hnw (it_wake_w _ _ _ _ HI Hlt)).
Qed.

Lemma loop_step_ok t c n r fault m :
  machine_ok m → m_threads m !! t = Some (Thread c (Loop n) r) →
  machine_ok (apply_effect t (iter c fault n (m_pipe m)) m).
Proof.
  intros Hm Ht. pose proof (ok_local _ Hm _ _ Ht) as [Hcl Hprog].
  pose proof (iter_ok _ fault _ _ (ok_pipe _ Hm) Hprog) as HI. simpl in Hcl, HI.
  pose proof (ok_lock _ Hm _ _ Ht) as Hlk. symmetry in Hlk. apply bool_decide_eq_true in Hlk.
  set (e := iter c fault n (m_pipe m)) in *.
  apply (machine_ok_step t m); [done|by apply frame_apply_effect|..].
  - rewrite pipe_apply_effect. apply HI.
  - destruct (apply_effect_self t e m _ Ht) as (r' & -> & _). intros _. by eexists.
  - destruct (apply_effect_self t e m _ Ht) as (r' & -> & ->). intros th' [= <-].
    pose proof (it_next _ _ _ _ HI) as Hn.
    destruct (e_next e); simpl; rewrite ?bool_decide_true by done; unfold local_ok; simpl;
      (split_and!; [auto..|done|done|done]).
  - intros u th' k Hu Hth' Hr _. by apply (loop_sleep_ok t (Thread c (Loop n) r) n fault u).
Qed.

(** ** Closing, starting a call, interrupting *)

Lemma close_flag_ok t w r m :
  machine_ok m → m_threads m !! t = Some (Thread (CClose w) CloseFlag r) →
  machine_ok (upd_thread t (goto CloseWake) (upd_pipe (set_flag w) m)).
Proof.
  intros Hm Ht. pose proof (ok_lock _ Hm _ _ Ht) as Hlk. simpl in Hlk.
  set (m' := upd_thread _ _ _). assert (frame t m m') as Hf by (unfold m'; frame_solve).
  assert (some_thread (will_hang_up w) m') as Hself.
  { eexists t, _. split; [unfold m'; simpl; by rewrite lookup_alter_eq, Ht|done]. }
  apply (machine_ok_step t m); [done..|destruct Hm as [[]]; by split| | |].
  - unfold m'. simpl. rewrite lookup_alter_eq, Ht. intros _. by eexists.
  - unfold m'. simpl. rewrite lookup_alter_eq, Ht. intros ? [= <-]. done.
  - intros u th n Hu _ _ _ _.
    assert (∀ P, (∀ th th', th_le th th' → P th → P th') → (¬ P (Thread (CClose w) CloseFlag r)) →
      some_thread P m → some_thread P m') as Hfr.
    { intros P HP Hn. apply (some_thread_frame _ t); [apply Hf|done|].
      intros th0. rewrite Ht. by intros [= <-]. }
    unfold sleep_ok, is_full. destruct w; simpl; case_match; intros [H1 H2]; split; auto.
    + intros Hp. destruct (H1 Hp) as [?|Ha]; [auto|right].
      revert Ha. apply Hfr; [apply will_announce_le|by intros [? _]].
    + intros Hb. apply (Hfr (will_hang_up false)); [apply will_hang_up_le|by intros [? _]|auto].
    + intros He. apply (Hfr (will_hang_up true)); [apply will_hang_up_le|by intros [? _]|auto].
Qed.

Lemma close_wake_ok t w r m :
  machine_ok m → m_threads m !! t = Some (Thread (CClose w) CloseWake r) →
  machine_ok (upd_thread t (goto CloseUnref) (if w then wake_readers m else wake_writers m)).
Proof.
  intros Hm Ht. pose proof (ok_lock _ Hm _ _ Ht) as Hlk. simpl in Hlk.
  set (m' := upd_thread _ _ _).
  assert (frame t m m') as Hf by (unfold m'; case_match; frame_solve).
  assert (m_pipe m' = m_pipe m ∧ m_lock m' = m_lock m) as [Hp Hl]
    by (unfold m'; by case_match).
  assert (∃ r', m_threads m' !! t = Some (Thread (CClose w) CloseUnref r')) as [r' Ht'].
  { unfold m'. simpl. rewrite lookup_alter_eq.
    destruct w; simpl; rewrite lookup_wake_threads, Ht;
      destruct (bool_decide (t ∈ _)); by eexists. }
  assert (∀ u th, u ≠ t → m_threads m' !! u = Some th → t_runnable th = false →
    u ∉ queue_of (if w then CRead 0 0 else CClose false) m) as Hout.
  { intros u th Hu. unfold m'. simpl. rewrite lookup_alter_ne by done.
    case_match; apply wake_threads_sleeper. }
  apply (machine_ok_step t m); [done..|rewrite Hp; apply Hm|intros _; rewrite Ht'; by eexists| |].
  - intros th. rewrite Ht', Hl. by intros [= <-].
  - intros u th n Hu Hth Hr _ Hq. pose proof (Hout u th Hu Hth Hr) as Hn.
    assert (∀ P, (∀ th th', th_le th th' → P th → P th') → ¬ P (Thread (CClose w) CloseWake r) →
      some_thread P m → some_thread P m') as Hfr.
    { intros P HP Hn'. apply (some_thread_frame _ t); [apply Hf|done|].
      intros th0. rewrite Ht. by intros [= <-]. }
    unfold sleep_ok, queue_of in *. rewrite Hp.
    destruct w, (is_reader (t_call th)); simpl in Hn; try done; intros [H1 H2]; split; auto.
    + intros Hb. apply (Hfr (will_hang_up false)); [apply will_hang_up_le|by intros [? _]|auto].
    + intros Hps. destruct (H1 Hps) as [?|Ha]; [auto|right].
      revert Ha. apply Hfr; [apply will_announce_le|by intros [? _]].
    + intros He. apply (Hfr (will_hang_up true)); [apply will_hang_up_le|by intros [? _]|auto].
Qed.

Lemma close_step_ok t c pt r fault sig m o m' :
  machine_ok m → m_threads m !! t = Some (Thread c pt r) → is_close c = true →
  run_thread t (Thread c pt r) fault sig m = Some (o, m') → machine_ok m'.
Proof.
  intros Hm Ht Hc. destruct c as [| |w]; try done. clear Hc.
  pose proof (ok_local _ Hm _ _ Ht) as Hloc. unfold local_ok in Hloc. simpl in Hloc.
  pose proof (ok_lock _ Hm _ _ Ht) as Hlk. simpl in Hlk.
  unfold run_thread. cbn [t_call t_point t_runnable].
  destruct pt; try (by destruct Hloc); try done; intros [= <- <-].
  - quiet; case_match; try done.
  - by apply (close_flag_ok t w r).
  - by apply (close_wake_ok t w r).
  - quiet; try done.
Qed.

Definition call_ok (c : call) : Prop := 0 <= call_len c < 2 ^ 63.

Definition event_ok (e : event) : Prop :=
  match e with Begin _ c => call_ok c | _ => True end.

Lemma begin_ok t c m :
  machine_ok m → call_ok c →
  (∀ th, m_threads m !! t = Some th → t_point th = Idle) → machine_ok (begin_call t c m).
Proof.
  intros Hm Hc Hidle. set (m' := begin_call t c m).
  assert (frame t m m') as Hf.
  { split; [|done|auto]. intros u Hu. simpl. rewrite lookup_insert_ne by done.
    destruct (_ !! u); by constructor. }
  assert (m_lock m ≠ Some t) as Hnl.
  { intros Hl. destruct (ok_holder _ Hm _ Hl) as [th Hth].
    pose proof (ok_lock _ Hm _ _ Hth) as H.
    rewrite (Hidle _ Hth), bool_decide_true in H by done. done. }
  apply (machine_ok_step t m); [done..|apply Hm|done| |].
  - simpl. rewrite lookup_insert_eq. intros th [= <-]. simpl.
    rewrite bool_decide_false by done. unfold local_ok, call_ok, progress_ok in *.
    destruct c; simpl in *; split_and!; try done; try lia; auto.
  - intros u th n Hu _ _ _ _. apply (sleep_ok_frame t m m'); [apply Hf|done|].
    intros th0 Hth0%Hidle. unfold will_announce, will_hang_up. rewrite Hth0.
    split; [by intros (_ & ? & ? & _)|by intros ? [_ ?]].
Qed.

Lemma interrupt_ok t m : machine_ok m → machine_ok (upd_thread t (set_state true) m).
Proof.
  intros Hm. set (m' := upd_thread _ _ _). set (v := fresh (dom (m_threads m))).
  assert (m_threads m !! v = None) as Hv by apply not_elem_of_dom, is_fresh.
  assert (m_threads m' !! v = None) as Hv'.
  { simpl. destruct (decide (t = v)) as [->|].
    - by rewrite lookup_alter_eq, Hv.
    - by rewrite lookup_alter_ne. }
  assert (frame v m m') as Hf.
  { split; [|done|auto]. intros u _. simpl. destruct (decide (t = u)) as [->|].
    - rewrite lookup_alter_eq. destruct (m_threads m !! u); by constructor.
    - rewrite lookup_alter_ne by done. destruct (m_threads m !! u); by constructor. }
  apply (machine_ok_step v m); [done..|apply Hm| | |].
  - intros Hl. destruct (ok_holder _ Hm v Hl). congruence.
  - intros th. by rewrite Hv'.
  - intros u th n _ _ _ _ _. apply (sleep_ok_frame v m m'); [apply Hf|done|].
    intros th0. by rewrite Hv.
Qed.

(** Every step preserves the invariant. *)
Lemma step_ok e m o m' :
  machine_ok m → event_ok e → step e m = Some (o, m') → machine_ok m'.
Proof.
  intros Hm He. destruct e as [t c|t fault sig|t]; simpl.
  - destruct (m_threads m !! t) as [[c0 pt r]|] eqn:Ht; simpl.
    + destruct pt; try done. intros [= <- <-]. apply begin_ok; [done..|].
      rewrite Ht. by intros ? [= <-].
    + intros [= <- <-]. apply begin_ok; [done..|]. by rewrite Ht.
  - destruct (m_threads m !! t) as [[c pt r]|] eqn:Ht; [|done]. simpl.
    destruct (is_close c) eqn:Hc; [by apply close_step_ok|].
    destruct (protocol_point pt) eqn:Hpp; [by apply protocol_step_ok|].
    pose proof (ok_local _ Hm _ _ Ht) as Hloc. unfold local_ok in Hloc. simpl in Hloc.
    destruct pt; try done; try congruence. intros [= <- <-]. by apply (loop_step_ok t c n r).
  - intros [= <- <-]. by apply interrupt_ok.
Qed.

Lemma boot_ok size : 0 <= size < 2 ^ 63 → machine_ok (boot size).
Proof.
  intros ?. split; simpl; try (intros ??; rewrite lookup_empty; done); try done.
  - split; simpl; [by rewrite length_replicate|lia|lia].
Qed.

(** ** The byte stream *)

Definition sent_of (o : obs) : list Z := if o is Sent _ d then d else [].
Definition received_of (o : obs) : list Z := if o is Received _ d then d else [].
Definition sent (os : list obs) : list Z := os ≫= sent_of.
Definition received (os : list obs) : list Z := os ≫= received_of.

Lemma sent_app o o' : sent (o ++ o') = sent o ++ sent o'.
Proof. apply bind_app. Qed.
Lemma received_app o o' : received (o ++ o') = received o ++ received o'.
Proof. apply bind_app. Qed.

Lemma obs_of_sent t e : sent (obs_of t e) = e_sent e ∧ received (obs_of t e) = e_received e.
Proof.
  unfold obs_of. rewrite !sent_app, !received_app.
  destruct (e_sent e), (e_received e), (e_sigpipe e), (e_next e); simpl; by rewrite ?app_nil_r.
Qed.

Lemma step_stream e m o m' :
  machine_ok m → step e m = Some (o, m') →
  contents (m_pipe m) ++ sent o = received o ++ contents (m_pipe m').
Proof.
  intros Hm. destruct e as [t c|t fault sig|t]; simpl.
  - destruct (m_threads m !! t) as [[c0 pt r]|] eqn:Ht; simpl; [destruct pt; try done|];
      intros [= <- <-]; apply app_nil_r.
  - destruct (m_threads m !! t) as [[c pt r]|] eqn:Ht; [|done]. simpl.
    pose proof (ok_local _ Hm _ _ Ht) as Hloc. unfold local_ok in Hloc. simpl in Hloc.
    unfold run_thread. simpl.
    destruct pt; repeat case_match; intros; simplify_eq/=; autorewrite with pipe;
      rewrite ?app_nil_r; try done.
    destruct (obs_of_sent t (iter c fault n (m_pipe m))) as [-> ->].
    rewrite pipe_apply_effect. eapply it_queue, iter_ok; [apply Hm|apply Hloc].
  - intros [= <- <-]. apply app_nil_r.
Qed.
