(* ===== verification/PipeProps.v ===== *)
(** * PipeProps: what the pipe promises to its users

    Runs of the pipe machine from a fresh pipe, under every interleaving of any number
    of readers, writers and closers: the byte stream is a queue, small writes are
    atomic, a successful call moved exactly the bytes it reports, nobody sleeps while
    their condition holds.  Also the two situations in which the code falls short of
    the interface it implements. *)

From S2P Require Import Prelude Bits Abi Pipe PipeFacts.

(** ** Runs *)

Lemma run_cons e es m o m' :
  run (e :: es) m = Some (o, m') ↔
  ∃ o1 m1 o2, step e m = Some (o1, m1) ∧ run es m1 = Some (o2, m') ∧ o = o1 ++ o2.
Proof.
  simpl. destruct (step e m) as [[o1 m1]|]; simpl; [|naive_solver].
  destruct (run es m1) as [[o2 m2]|] eqn:E; simpl; naive_solver.
Qed.

Lemma run_ok es m o m' :
  machine_ok m → Forall event_ok es → run es m = Some (o, m') → machine_ok m'.
Proof.
  intros Hm Hes. revert m o Hm. induction Hes as [|e es He _ IH]; intros m o Hm.
  - by intros [= <- <-].
  - intros (o1 & m1 & o2 & H1 & H2 & ->)%run_cons. eauto using step_ok.
Qed.

Lemma run_stream es m o m' :
  machine_ok m → Forall event_ok es → run es m = Some (o, m') →
  contents (m_pipe m) ++ sent o = received o ++ contents (m_pipe m').
Proof.
  intros Hm Hes. revert m o Hm. induction Hes as [|e es He _ IH]; intros m o Hm.
  - intros [= <- <-]. simpl. by rewrite app_nil_r.
  - intros (o1 & m1 & o2 & H1 & H2 & ->)%run_cons.
    rewrite sent_app, received_app, app_assoc, (step_stream e m o1 m1) by done.
    rewrite <- !app_assoc. f_equal. eauto using step_ok.
Qed.

Lemma step_size e m o m' :
  machine_ok m → step e m = Some (o, m') → buf_size (m_pipe m') = buf_size (m_pipe m).
Proof.
  intros Hm. destruct e as [t c|t fault sig|t]; simpl.
  - destruct (m_threads m !! t) as [[c0 pt r]|] eqn:Ht; simpl; [destruct pt; try done|];
      by intros [= <- <-].
  - destruct (m_threads m !! t) as [[c pt r]|] eqn:Ht; [|done]. simpl.
    pose proof (ok_local _ Hm _ _ Ht) as Hloc. unfold local_ok in Hloc. simpl in Hloc.
    unfold run_thread. simpl.
    destruct pt; repeat case_match; intros; simplify_eq/=; autorewrite with pipe; try done.
    rewrite pipe_apply_effect. eapply it_flags, iter_ok; [apply Hm|apply Hloc].
  - by intros [= <- <-].
Qed.

Lemma run_size es m o m' :
  machine_ok m → Forall event_ok es → run es m = Some (o, m') →
  buf_size (m_pipe m') = buf_size (m_pipe m).
Proof.
  intros Hm Hes. revert m o Hm. induction Hes as [|e es He _ IH]; intros m o Hm.
  - by intros [= <- <-].
  - intros (o1 & m1 & o2 & H1 & H2 & ->)%run_cons.
    rewrite (IH m1 o2) by eauto using step_ok. eauto using step_size.
Qed.

(** ** Steps of other threads *)

Definition actor (e : event) : nat :=
  match e with Begin t _ | Run t _ _ | Interrupt t => t end.

Lemma step_frame e m o m' :
  machine_ok m → step e m = Some (o, m') → frame (actor e) m m'.
Proof.
  intros Hm. destruct e as [t c|t fault sig|t]; simpl.
  - assert (frame t m (begin_call t c m)).
    { split; [|done|auto]. intros u Hu. simpl. rewrite lookup_insert_ne by done.
      destruct (m_threads m !! u); by constructor. }
    destruct (m_threads m !! t) as [[c0 pt r]|]; simpl; [destruct pt; try done|];
      by intros [= <- <-].
  - destruct (m_threads m !! t) as [[c pt r]|] eqn:Ht; [|done]. simpl.
    pose proof (ok_lock _ Hm _ _ Ht) as Hlk. simpl in Hlk.
    unfold run_thread. simpl.
    destruct pt; try (symmetry in Hlk; apply bool_decide_eq_true in Hlk);
      repeat case_match; intros; simplify_eq/=;
      try apply frame_apply_effect; frame_solve; done.
  - intros [= <- <-]. apply frame_upd_thread.
Qed.

Definition obs_thread (o : obs) : nat :=
  match o with Sent t _ | Received t _ | Sigpipe t | Ret t _ => t end.

Lemma step_obs_thread e m o m' x :
  step e m = Some (o, m') → x ∈ o → obs_thread x = actor e.
Proof.
  destruct e as [t c|t fault sig|t]; simpl.
  - destruct (m_threads m !! t) as [[c0 pt r]|]; simpl; [destruct pt; try done|];
      intros [= <- <-]; set_solver.
  - destruct (m_threads m !! t) as [[c pt r]|] eqn:Ht; [|done]. simpl.
    unfold run_thread. simpl. destruct pt; repeat case_match; intros; simplify_eq/=;
      try set_solver.
    unfold obs_of in *. repeat case_match; set_solver.
  - intros [= <- <-]. set_solver.
Qed.

(** ** The bytes a call has moved *)

Definition moved_of (t : nat) (c : call) (o : obs) : list Z :=
  match o, c with
  | Sent u d, CWrite _ _ => if decide (u = t) then d else []
  | Received u d, CRead _ _ => if decide (u = t) then d else []
  | _, _ => []
  end.
Definition moved (t : nat) (c : call) (os : list obs) : list Z := os ≫= moved_of t c.

(** The bytes [d] are those a call that has got to [n] must have moved. *)
Definition exact (c : call) (n : Z) (d : list Z) : Prop :=
  match c with
  | CRead _ _ => Z.of_nat (length d) = n
  | CWrite _ data => d = take (Z.to_nat n) data
  | CClose _ => True
  end.

(** What a return value says about the bytes moved: a write that does not fail has
    moved all of its data, a read reports the number of bytes it delivered. *)
Definition returns (c : call) (r : Z) (d : list Z) : Prop :=
  r < 0 ∨ exact c r d ∧ (is_writer c = true → r = call_len c).

Definition effect_moved (c : call) (e : effect) : list Z :=
  match c with CRead _ _ => e_received e | CWrite _ _ => e_sent e | CClose _ => [] end.

Definition next_exact (c : call) (nx : next) (d : list Z) : Prop :=
  match nx with
  | Again k | Block k => exact c k d
  | Return r => returns c r d
  end.

Lemma iter_exact c fault n d p :
  pipe_ok p → progress_ok c n → is_close c = false → exact c n d →
  let e := iter c fault n p in next_exact c (e_next e) (d ++ effect_moved c e).
Proof.
  intros Hp (Hn & Hlen & _) Hc Hd. pose proof (pipe_pos _ Hp). pose proof (pipe_len _ Hp).
  destruct c as [flags len|flags data|]; simpl in Hn, Hlen, Hd; [| |done]; simpl.
  - unfold read_iter, stay. rewrite i64_id by lia. unfold can_read.
    destruct (Z.eqb_spec n len); simpl; [right; simpl; rewrite app_nil_r; by split|].
    destruct (Z.eqb_spec (pos p) 0); simpl.
    { destruct (truthy n || eof p); simpl; [right; simpl; rewrite app_nil_r; by split|].
      destruct (has flags O_NONBLOCK); simpl; [by left|by rewrite app_nil_r]. }
    destruct fault; simpl; [by left|]. rewrite u64_small by lia.
    rewrite length_app, length_take. lia.
  - unfold write_iter. rewrite i64_id by lia. set (len := Z.of_nat (length data)) in *.
    destruct (Z.eqb_spec n len); simpl; [right; simpl; rewrite app_nil_r; by split|].
    destruct (broken p); simpl; [by left|].
    destruct (write_blocks len n p); [destruct (has flags O_NONBLOCK)|]; simpl;
      [by left|by rewrite app_nil_r|].
    destruct fault; simpl; [by left|]. rewrite space_ok, u64_small by (done || lia).
    rewrite Hd, take_take_drop. f_equal. lia.
Qed.

Definition point_progress (pt : point) : option Z :=
  match pt with
  | Lock => Some 0
  | Loop n | WaitTest n | WaitAdd n | WaitCheck n | WaitYield n | WaitLock n => Some n
  | _ => None
  end.

(** Thread [t] runs call [c] and [o] was observed since the call began. *)
Definition call_state (t : nat) (c : call) (m : machine) (o : list obs) : Prop :=
  ∃ th, m_threads m !! t = Some th ∧ t_call th = c ∧
  match point_progress (t_point th) with
  | Some n => exact c n (moved t c o) ∧ ∀ r, Ret t r ∉ o
  | None => t_point th = Idle ∧ ∀ r, Ret t r ∈ o → returns c r (moved t c o)
  end.

Lemma moved_app t c o o' : moved t c (o ++ o') = moved t c o ++ moved t c o'.
Proof. apply bind_app. Qed.

Lemma moved_other t c os : (∀ x, x ∈ os → obs_thread x ≠ t) → moved t c os = [].
Proof.
  induction os as [|x os IH]; intros H; [done|]. unfold moved. cbn [mbind list_bind].
  fold (moved t c os). rewrite IH by set_solver. rewrite app_nil_r.
  specialize (H x ltac:(set_solver)). destruct x, c; simpl in *; try done; by case_decide.
Qed.

Lemma moved_obs_of t c fault n p :
  pipe_ok p → progress_ok c n →
  moved t c (obs_of t (iter c fault n p)) = effect_moved c (iter c fault n p).
Proof.
  intros Hp Hn. pose proof (iter_ok c fault n p Hp Hn) as HI. set (e := iter c fault n p) in *.
  unfold obs_of. rewrite !moved_app.
  assert (moved t c (if e_sigpipe e then [Sigpipe t] else []) = []) as ->
    by (destruct (e_sigpipe e), c; done).
  assert (moved t c (if e_next e is Return r then [Ret t r] else []) = []) as ->
    by (destruct (e_next e), c; done).
  rewrite !app_nil_r.
  pose proof (it_sent _ _ _ _ HI) as Hs. pose proof (it_received _ _ _ _ HI) as Hr.
  clearbody e. destruct c as [| |]; cbn [is_writer is_reader effect_moved] in *.
  - rewrite (Hs eq_refl). destruct (e_received e) as [|z l]; [done|].
    unfold moved; simpl. by rewrite decide_True, app_nil_r.
  - rewrite (Hr eq_refl). destruct (e_sent e) as [|z l]; [done|].
    unfold moved; simpl. by rewrite decide_True, !app_nil_r.
  - by rewrite (Hs eq_refl), (Hr eq_refl).
Qed.

(** A step that neither shows anything of [t] nor changes its progress. *)
Lemma call_state_quiet t c m o m' o1 th th' :
  m_threads m !! t = Some th → m_threads m' !! t = Some th' → t_call th' = t_call th →
  point_progress (t_point th') = point_progress (t_point th) →
  (t_point th = Idle → t_point th' = Idle) →
  (∀ x, x ∈ o1 → obs_thread x ≠ t) →
  call_state t c m o → call_state t c m' (o ++ o1).
Proof.
  intros Ht Ht' Hc Hp Hi Ho (th0 & Hth0 & Hcall & Hst).
  rewrite Ht in Hth0. injection Hth0 as <-. exists th'. split; [done|].
  split; [congruence|]. rewrite moved_app, (moved_other t c o1 Ho), app_nil_r, Hp.
  assert (∀ r, Ret t r ∈ o ++ o1 → Ret t r ∈ o) as Hret.
  { intros r [?|Hr%Ho]%elem_of_app; [done|]. by simpl in Hr. }
  destruct (point_progress (t_point th)); naive_solver.
Qed.

Lemma call_state_loop t c n r fault m o :
  machine_ok m → m_threads m !! t = Some (Thread c (Loop n) r) →
  call_state t c m o →
  let e := iter c fault n (m_pipe m) in
  call_state t c (apply_effect t e m) (o ++ obs_of t e).
Proof.
  intros Hm Ht (th & Hth & _ & Hst) e. rewrite Ht in Hth. injection Hth as <-.
  simpl in Hst. destruct Hst as [Hex Hno].
  pose proof (ok_local _ Hm _ _ Ht) as [Hcl Hprog]. simpl in Hcl, Hprog.
  pose proof (iter_exact c fault n _ _ (ok_pipe _ Hm) Hprog Hcl Hex) as Hnx.
  fold e in Hnx. cbv zeta in Hnx.
  destruct (apply_effect_self t e m _ Ht) as (r' & Ht' & _).
  assert (moved t c (o ++ obs_of t e) = moved t c o ++ effect_moved c e) as Hmv.
  { rewrite moved_app. f_equal. by apply moved_obs_of; [apply Hm|]. }
  exists (Thread c (next_point (e_next e)) r'). split; [done|]. split; [done|].
  rewrite Hmv. assert (∀ q, Ret t q ∈ o ++ obs_of t e → e_next e = Return q) as Hq.
  { intros q [[]%Hno|Hq]%elem_of_app. unfold obs_of in Hq. revert Hq.
    destruct (e_sent e), (e_received e), (e_sigpipe e), (e_next e); set_solver. }
  destruct (e_next e) eqn:En; simpl in *; split; try done.
  - intros q Hq'. by specialize (Hq q Hq').
  - intros q Hq'. by specialize (Hq q Hq').
  - intros q Hq'. by specialize (Hq q Hq') as [= <-].
Qed.

Lemma call_state_step t c e m o o1 m' :
  machine_ok m → is_close c = false → (∀ c', e ≠ Begin t c') → call_state t c m o →
  step e m = Some (o1, m') → call_state t c m' (o ++ o1).
Proof.
  intros Hm Hcl Hnb Hst Hstep. pose proof Hst as (th & Ht & Hc & Hpt).
  destruct (decide (actor e = t)) as [Ha|Ha].
  - destruct e as [u c0|u fault sig|u]; simpl in Ha; subst u; [by destruct (Hnb c0)| |].
    + simpl in Hstep. rewrite Ht in Hstep. simpl in Hstep.
      destruct th as [c' pt r]. simpl in Hc. subst c'.
      destruct pt; try (by destruct Hpt as [? _]); unfold run_thread in Hstep; simpl in Hstep;
        try (by injection Hstep as <- <-; apply (call_state_loop t c n r));
        try (destruct (m_lock m); [done|]); repeat case_match; simplify_eq/=;
        try (eapply call_state_quiet; [exact Ht| | | | | |exact Hst];
             [simpl; autorewrite with pipe; rewrite lookup_alter_eq; simpl;
              autorewrite with pipe; simpl; rewrite Ht; done|done..|set_solver]).
      eexists. split; [simpl; rewrite lookup_alter_eq; simpl; autorewrite with pipe;
        simpl; rewrite Ht; done|]. split; [done|]. simpl. split; [done|].
      intros q [[]%(proj2 Hpt)|Hq]%elem_of_app. apply list_elem_of_singleton in Hq.
      injection Hq as ->. by left.
    + injection Hstep as <- <-. eapply call_state_quiet; [exact Ht| | | | | |exact Hst].
      * simpl. rewrite lookup_alter_eq, Ht. done.
      * done.
      * done.
      * done.
      * set_solver.
  - pose proof (fr_threads _ _ _ (step_frame _ _ _ _ Hm Hstep) t ltac:(congruence)) as Hle.
    rewrite Ht in Hle. inversion Hle as [? th' (Hc' & Hp' & _) e1 e2|]; subst.
    eapply call_state_quiet; [exact Ht|by rewrite <- e2|done|by rewrite Hp'|by rewrite Hp'| |exact Hst].
    intros x Hx. by rewrite (step_obs_thread _ _ _ _ _ Hstep Hx).
Qed.

Lemma call_state_run t c es m o o1 m' :
  machine_ok m → Forall event_ok es → is_close c = false → (∀ c', Begin t c' ∉ es) →
  call_state t c m o → run es m = Some (o1, m') → call_state t c m' (o ++ o1).
Proof.
  intros Hm Hes Hcl. revert m o o1 Hm. induction Hes as [|e es He _ IH]; intros m o o1 Hm Hb Hst.
  - intros [= <- <-]. by rewrite app_nil_r.
  - intros (o2 & m1 & o3 & H1 & H2 & ->)%run_cons. rewrite app_assoc.
    apply (IH m1); [by eauto using step_ok|set_solver| |done].
    apply (call_state_step t c e m); [done..| |done|done].
    intros c' ->. apply (Hb c'). set_solver.
Qed.

(** ** Properties *)

(** C16: In every interleaving of readers, writers and closers of a pipe, the bytes
    handed to readers followed by the bytes still buffered are the bytes accepted from
    writers, in order: no byte is lost, duplicated or reordered; and the pipe never
    holds more than its capacity. *)
Theorem pipe_fifo size es o m :
  0 <= size < 2 ^ 63 → Forall event_ok es → run es (boot size) = Some (o, m) →
  sent o = received o ++ contents (m_pipe m) ∧
  Z.of_nat (length (contents (m_pipe m))) <= size.
Proof.
  intros Hs Hes Hr. pose proof (boot_ok size Hs) as Hb. split.
  - pose proof (run_stream _ _ _ _ Hb Hes Hr) as H. unfold contents in H at 1. simpl in H.
    exact H.
  - pose proof (ok_pipe _ (run_ok _ _ _ _ Hb Hes Hr)) as [Hl Hp _].
    rewrite (run_size _ _ _ _ Hb Hes Hr) in *. unfold contents. rewrite length_take.
    simpl in *. lia.
Qed.

Definition two_writers : list event :=
  [Begin 1 (CWrite 0 [10; 11; 12]); Begin 2 (CWrite 0 [20; 21]); Begin 3 (CRead 0 4);
   Run 3 false false; Run 3 false false; Run 3 false false; Run 3 false false;
   Run 3 false false; Run 2 false false; Run 2 false false; Run 2 false false;
   Run 1 false false; Run 1 false false; Run 1 false false;
   Run 3 false false; Run 3 false false; Run 3 false false; Run 3 false false;
   Run 3 false false; Run 3 false false].

Lemma pipe_fifo_witness :
  ∃ o m, run two_writers (boot 8) = Some (o, m) ∧ received o = [20; 21; 10; 11] ∧
         sent o = received o ++ contents (m_pipe m).
Proof.
  eexists _, _. split; [vm_compute; reflexivity|]. split; [reflexivity|].
  apply (pipe_fifo 8 two_writers); [lia|repeat constructor; vm_compute; congruence|].
  vm_compute. reflexivity.
Defined.

(** Whatever the other threads do meanwhile, a [write] that returns a non-negative
    value has put exactly its whole buffer into the pipe, and a [read] that returns a
    non-negative value has delivered exactly that many bytes. *)
Theorem pipe_call_exact t c size es1 es2 o1 o2 m1 m2 r :
  0 <= size < 2 ^ 63 → Forall event_ok (es1 ++ Begin t c :: es2) →
  is_close c = false → (∀ c', Begin t c' ∉ es2) →
  run (es1 ++ [Begin t c]) (boot size) = Some (o1, m1) →
  run es2 m1 = Some (o2, m2) → Ret t r ∈ o2 → 0 <= r →
  match c with
  | CRead _ _ => Z.of_nat (length (moved t c o2)) = r
  | CWrite _ data => moved t c o2 = data ∧ r = Z.of_nat (length data)
  | CClose _ => False
  end.
Proof.
  intros Hs Hes Hc Hb H1 H2 Hr Hpos.
  apply Forall_app in Hes as [Hes1 Hes']. inversion Hes' as [|? ? Hbe Hes2]; subst.
  assert (machine_ok m1) as Hm1.
  { eapply run_ok; [by apply (boot_ok size)| |exact H1]. apply Forall_app; auto. }
  assert (m_threads m1 !! t = Some (Thread c Lock true)) as Ht.
  { revert H1. generalize (boot size). clear -Hc. revert o1. induction es1 as [|e es IH]; intros o1 m.
    - intros (o' & m' & ? & Hst & [= <- <-] & ->)%run_cons. revert Hst. simpl.
      destruct (m_threads m !! t) as [[? pt ?]|]; simpl; [destruct pt; try done|];
        intros [= <- <-]; simpl; rewrite lookup_insert_eq; by destruct c.
    - intros (o' & m' & ? & _ & H & _)%run_cons. eauto. }
  assert (call_state t c m1 []) as Hst0.
  { exists (Thread c Lock true). split; [done|]. split; [done|]. simpl.
    split; [by destruct c|]. intros ? []%not_elem_of_nil. }
  destruct (call_state_run t c es2 m1 [] o2 m2 Hm1 Hes2 Hc Hb Hst0 H2) as (th & _ & _ & Hst).
  simpl in Hst. destruct (point_progress _); [by destruct (proj2 Hst r Hr)|].
  destruct (proj2 Hst r Hr) as [?|[Hex Hw]]; [lia|]. destruct c; simpl in *; try done.
  rewrite Hw in Hex by done. rewrite Nat2Z.id, take_ge in Hex by lia. auto.
Qed.

Lemma pipe_call_exact_witness :
  moved 2 (CWrite 0 [20; 21]) [Sent 2 [20; 21]; Ret 2 2] = [20; 21] ∧
  2 = Z.of_nat (length [20; 21]).
Proof.
  assert (∃ m1 m2, run ([] ++ [Begin 2 (CWrite 0 [20; 21])]) (boot 8) = Some ([], m1) ∧
    run [Run 2 false false; Run 2 false false; Run 2 false false] m1
    = Some ([Sent 2 [20; 21]; Ret 2 2], m2)) as (m1 & m2 & H1 & H2).
  { eexists _, _. split; [vm_compute; reflexivity|]. vm_compute. reflexivity. }
  apply (pipe_call_exact 2 (CWrite 0 [20; 21]) 8 []
           [Run 2 false false; Run 2 false false; Run 2 false false] [] _ m1 m2).
  - lia.
  - repeat constructor; vm_compute; congruence.
  - reflexivity.
  - intros c'. set_solver.
  - exact H1.
  - exact H2.
  - set_solver.
  - lia.
Defined.

(** A write of at most [PIPE_BUF] bytes is atomic: every transfer it makes into the
    pipe is its whole buffer, so its bytes are adjacent in the stream. *)
Theorem pipe_write_atomic size es o m t f data pt r fault sig o' m' d :
  0 <= size < 2 ^ 63 → Forall event_ok es → run es (boot size) = Some (o, m) →
  m_threads m !! t = Some (Thread (CWrite f data) pt r) →
  Z.of_nat (length data) <= PIPE_BUF →
  step (Run t fault sig) m = Some (o', m') → Sent t d ∈ o' → d = data.
Proof.
  intros Hs Hes Hr Ht Hle Hst Hd.
  pose proof (run_ok _ _ _ _ (boot_ok size Hs) Hes Hr) as Hm.
  pose proof (ok_local _ Hm _ _ Ht) as Hloc. unfold local_ok in Hloc. simpl in Hloc.
  simpl in Hst. rewrite Ht in Hst. simpl in Hst. unfold run_thread in Hst. simpl in Hst.
  destruct pt; repeat case_match; simplify_eq/=; try set_solver.
  pose proof (iter_ok _ fault _ _ (ok_pipe _ Hm) (proj2 Hloc)) as HI. simpl in HI.
  pose proof (it_atomic _ _ _ _ HI f data eq_refl Hle) as [E|E];
    unfold obs_of in Hd; rewrite E in Hd; destruct data; repeat case_match; set_solver.
Qed.

Lemma pipe_write_atomic_witness : [20; 21] = [20; 21].
Proof.
  eapply (pipe_write_atomic 8 [Begin 2 (CWrite 0 [20; 21]); Run 2 false false] [] _ 2 0
           [20; 21] (Loop 0) true false false).
  - lia.
  - repeat constructor; vm_compute; congruence.
  - vm_compute. reflexivity.
  - reflexivity.
  - vm_compute. congruence.
  - vm_compute. reflexivity.
  - set_solver.
Defined.

(** Every thread is between calls or asleep in a wait queue. *)
Definition at_rest (th : thread) : bool :=
  match t_point th with
  | Idle => true
  | WaitYield _ => negb (t_runnable th)
  | _ => false
  end.
Definition quiescent (m : machine) : Prop :=
  map_Forall (λ _ th, at_rest th = true) (m_threads m).

Lemma at_rest_spec th :
  at_rest th = true →
  t_point th = Idle ∨ t_runnable th = false ∧ ∃ n, t_point th = WaitYield n.
Proof. unfold at_rest. destruct (t_point th); destruct (t_runnable th); simpl; eauto; done. Qed.

(** C39: No wake-up is lost: when nothing can run, every thread that is asleep waits for
    a condition that does not hold.  A sleeping writer faces a full pipe whose read end
    is open; a sleeping reader faces an open write end, and a pipe that is empty unless the
    read end has been closed under it. *)
Theorem pipe_no_lost_wakeup size es o m t th n :
  0 <= size < 2 ^ 63 → Forall event_ok es → run es (boot size) = Some (o, m) →
  quiescent m → m_threads m !! t = Some th → t_point th = WaitYield n →
  let p := m_pipe m in
  if is_reader (t_call th)
  then eof p = false ∧ (pos p = 0 ∨ broken p = true)
  else is_full p = true ∧ broken p = false.
Proof.
  intros Hs Hes Hr Hq Ht Hpt.
  pose proof (run_ok _ _ _ _ (boot_ok size Hs) Hes Hr) as Hm.
  destruct (at_rest_spec _ (Hq _ _ Ht)) as [?|[Hrun _]]; [congruence|].
  pose proof (ok_sleep _ Hm _ _ _ Ht Hrun Hpt) as Hsl.
  assert (∀ P, some_thread P m → (∀ th, P th → ∃ k, t_point th = Loop k ∨ t_point th = CloseWake) →
    False) as Hno.
  { intros P (u & thu & Hu & HP) Hpts. destruct (Hpts _ HP) as [k Hk].
    destruct (at_rest_spec _ (Hq _ _ Hu)) as [?|(_ & ? & ?)]; destruct Hk; congruence. }
  assert (∀ w, some_thread (will_hang_up w) m → False) as Hnh.
  { intros w H. apply (Hno _ H). intros ? [_ ->]. by exists 0; right. }
  intros p. unfold sleep_ok in Hsl. fold p in Hsl.
  destruct (is_reader (t_call th)), Hsl as [H1 H2]; split; try done.
  - apply not_true_is_false. eauto.
  - destruct (decide (pos p = 0)) as [|Hp]; [by left|right].
    destruct (H1 Hp) as [?|H]; [done|]. exfalso. apply (Hno _ H).
    intros ? (_ & k & -> & _). exists k. by left.
  - apply not_true_is_false. eauto.
Qed.

Definition full_pipe : list event :=
  [Begin 1 (CWrite 0 [1; 2]); Run 1 false false; Run 1 false false; Run 1 false false;
   Begin 1 (CWrite 0 [3]); Run 1 false false; Run 1 false false; Run 1 false false;
   Run 1 false false; Run 1 false false].

Lemma pipe_no_lost_wakeup_witness :
  ∃ o m, run full_pipe (boot 2) = Some (o, m) ∧
         is_full (m_pipe m) = true ∧ broken (m_pipe m) = false.
Proof.
  eexists _, _. split; [vm_compute; reflexivity|].
  eapply (pipe_no_lost_wakeup 2 full_pipe _ _ 1 (Thread (CWrite 0 [3]) (WaitYield 0) false) 0).
  - lia.
  - repeat constructor; vm_compute; congruence.
  - vm_compute. reflexivity.
  - apply (bool_decide_unpack _). vm_compute. exact I.
  - reflexivity.
  - reflexivity.
Defined.

(** ** Where the code falls short of its interface *)

(** The two pipes agree on everything a writer looks at. *)
Definition same_room (p p' : pipe) : Prop :=
  buffer p' = buffer p ∧ pos p' = pos p ∧ buf_size p' = buf_size p ∧ broken p' = broken p.

(** A blocking write of at most [PIPE_BUF] bytes that do not fit, into a pipe that is
    neither full nor closed for reading. *)
Definition does_not_fit (flags : Z) (data : list Z) (p : pipe) : Prop :=
  has flags O_NONBLOCK = false ∧ broken p = false ∧
  0 < buf_size p - pos p < Z.of_nat (length data) ∧ Z.of_nat (length data) <= PIPE_BUF.

(** Thread [t] is in the loop of such a write, and nobody is closing the read end. *)
Record stuck (t : nat) (flags : Z) (data : list Z) (p : pipe) (m : machine) : Prop := {
  st_lock : m_lock m = Some t;
  st_pipe : same_room p (m_pipe m);
  st_self : ∃ r pt, m_threads m !! t = Some (Thread (CWrite flags data) pt r) ∧
              (pt = Loop 0 ∨ pt = WaitTest 0);
  st_open : map_Forall (λ _ th, t_call th = CClose false → t_point th = Idle) (m_threads m)
}.

Lemma write_iter_spins flags data fault p p' :
  pipe_ok p' → does_not_fit flags data p → same_room p p' →
  write_iter flags data fault 0 p' = stay p' (Block 0) ∧
  write_wait_cond (Z.of_nat (length data)) 0 p' = true.
Proof.
  intros Hp (Hnb & Hbr & Hfit & Hat) (_ & Hpos & Hsz & Hb).
  unfold write_iter, write_blocks, write_wait_cond, is_atomic_write, PIPE_BUF in *.
  rewrite (space_ok p' Hp), i64_id, Hb, Hbr, Hnb, u64_small by lia.
  rewrite (proj2 (Z.eqb_neq 0 _)), (proj2 (Z.leb_le _ 4096)), (proj2 (Z.ltb_lt _ _)) by lia.
  unfold is_full. rewrite (proj2 (Z.eqb_neq _ _)) by lia. simpl. by rewrite orb_true_r.
Qed.

Lemma stuck_self t flags data p fault sig m o m' :
  machine_ok m → does_not_fit flags data p → stuck t flags data p m →
  step (Run t fault sig) m = Some (o, m') → stuck t flags data p m' ∧ o = [].
Proof.
  intros Hm Hfit [Hl Hp (r & pt & Ht & Hpt) Hop] Hst.
  destruct (write_iter_spins flags data fault p (m_pipe m) (ok_pipe _ Hm) Hfit Hp) as [Hit Hw].
  simpl in Hst. rewrite Ht in Hst. simpl in Hst. unfold run_thread in Hst.
  assert (∀ pt', pt' = Loop 0 ∨ pt' = WaitTest 0 →
    stuck t flags data p (upd_thread t (goto pt') m)) as Hmove.
  { intros pt' Hpt'. split; [done|done| |].
    - exists r, pt'. split; [|done]. simpl. by rewrite lookup_alter_eq, Ht.
    - intros u th. simpl. destruct (decide (u = t)) as [->|Hu].
      + rewrite lookup_alter_eq, Ht. by intros [= <-].
      + rewrite lookup_alter_ne by done. apply Hop. }
  destruct Hpt as [-> | ->]; simpl in Hst.
  - rewrite Hit in Hst. injection Hst as <- <-. split; [|done].
    destruct (Hmove (WaitTest 0)) as []; [by right|]. by split.
  - rewrite Hw in Hst. injection Hst as <- <-. split; [|done]. auto.
Qed.

(** What a thread without the mutex can do to the pipe and to its own call. *)
Lemma unlocked_step u th fault sig m o m' :
  m_threads m !! u = Some th → holds (t_point th) = false → m_lock m ≠ None →
  (t_call th = CClose false → t_point th = Idle) →
  run_thread u th fault sig m = Some (o, m') →
  same_room (m_pipe m) (m_pipe m') ∧
  ∃ th', m_threads m' !! u = Some th' ∧ t_call th' = t_call th.
Proof.
  intros Hu Hh Hl Hop. destruct th as [c pt r]. simpl in *.
  assert (∀ f m1, m_threads m1 !! u = Some (Thread c pt r) →
    (∀ th, t_call (f th) = t_call th) →
    ∃ th', m_threads (upd_thread u f m1) !! u = Some th' ∧ t_call th' = c) as Hupd.
  { intros f m1 H1 Hf. exists (f (Thread c pt r)). split; [|by rewrite Hf].
    simpl. by rewrite lookup_alter_eq, H1. }
  assert (c = CClose false → pt = Idle) as Hop' by done. unfold run_thread. simpl.
  destruct pt; try done; try (by destruct (m_lock m)).
  - case_match; [|done]. intros [= <- <-]. split; [done|]. by apply Hupd.
  - destruct c as [| |[]]; try done; [|by discriminate Hop']. intros [= <- <-].
    split; [done|]. by apply Hupd.
  - destruct c as [| |[]]; try done; [|by discriminate Hop']. intros [= <- <-].
    split; [done|]. by apply Hupd.
  - destruct c as [| |[]]; try done; [|by discriminate Hop']. intros [= <- <-].
    split; [done|]. simpl. rewrite lookup_alter_eq, lookup_wake_threads, Hu.
    case_bool_decide; by eexists.
  - intros [= <- <-]. split; [done|]. by apply Hupd.
Qed.

Lemma stuck_other t flags data p e m o m' :
  machine_ok m → stuck t flags data p m → actor e ≠ t → (∀ u, e ≠ Begin u (CClose false)) →
  step e m = Some (o, m') → stuck t flags data p m'.
Proof.
  intros Hm [Hl Hp (r & pt & Ht & Hpt) Hop] Ha Hb Hst.
  pose proof (step_frame _ _ _ _ Hm Hst) as [Hle Hlk _].
  assert (same_room (m_pipe m) (m_pipe m') ∧
          (∀ th', m_threads m' !! actor e = Some th' → t_call th' = CClose false →
             t_point th' = Idle)) as [Hp' Hself].
  { destruct e as [u c|u fault sig|u]; simpl in *.
    - assert (m' = begin_call u c m) as -> by (repeat case_match; congruence).
      split; [done|]. simpl. rewrite lookup_insert_eq. intros th' [= <-]. simpl.
      intros ->. by destruct (Hb u).
    - destruct (m_threads m !! u) as [th|] eqn:Hu; [|done]. simpl in Hst.
      assert (holds (t_point th) = false) as Hh.
      { rewrite (ok_lock _ Hm _ _ Hu). apply bool_decide_false. congruence. }
      destruct (unlocked_step u th fault sig m o m' Hu Hh ltac:(congruence) (Hop _ _ Hu) Hst)
        as (Hp' & th' & Hu' & Hc). split; [done|].
      intros th''. rewrite Hu'. intros [= <-]. rewrite Hc. intros Hcc.
      pose proof (Hop _ _ Hu Hcc) as Hi. unfold run_thread in Hst. by rewrite Hi in Hst.
    - injection Hst as <- <-. split; [done|]. simpl. rewrite lookup_alter_eq.
      destruct (m_threads m !! u) as [th|] eqn:Hu; [|done]. simpl. intros ? [= <-].
      apply (Hop _ _ Hu). }
  split.
  - by apply Hlk.
  - destruct Hp as (? & ? & ? & ?), Hp' as (? & ? & ? & ?). split_and!; congruence.
  - pose proof (Hle t ltac:(done)) as H. rewrite Ht in H.
    destruct (m_threads m' !! t) as [[c' pt' r']|]; [|by inversion H].
    inversion H as [? ? (Hc & Hpt' & _)|]. simpl in Hc, Hpt'. subst. by exists r', pt.
  - intros u th' Hu'. destruct (decide (u = actor e)) as [->|Hu]; [by apply Hself|].
    pose proof (Hle u ltac:(done)) as H. rewrite Hu' in H.
    inversion H as [th ? (Hc & Hpt' & _) e1 e2|]; subst. rewrite Hc, Hpt'.
    symmetry in e1. apply (Hop _ _ e1).
Qed.

(** A blocking write of at most [PIPE_BUF] bytes into a pipe that has some room but
    not enough never sleeps and never lets go of the mutex: whatever any thread does,
    and whatever signals arrive, the writer stays in its loop, no byte moves and no
    reader can get in, until someone starts closing the read end. *)
Theorem atomic_write_spins t flags data m es o m' :
  machine_ok m → does_not_fit flags data (m_pipe m) →
  stuck t flags data (m_pipe m) m →
  Forall event_ok es → (∀ u, Begin u (CClose false) ∉ es) →
  run es m = Some (o, m') →
  stuck t flags data (m_pipe m) m' ∧ ∀ r, Ret t r ∉ o.
Proof.
  intros Hm Hfit. generalize (m_pipe m) as p, Hfit. clear Hfit. intros p Hfit Hst Hes.
  revert m o Hm Hst. induction Hes as [|e es He _ IH]; intros m o Hm Hst Hb.
  - intros [= <- <-]. split; [done|]. set_solver.
  - intros (o1 & m1 & o2 & H1 & H2 & ->)%run_cons.
    assert (stuck t flags data p m1 ∧ ∀ r, Ret t r ∉ o1) as [Hst1 Ho1].
    { destruct (decide (actor e = t)) as [Ha|Ha].
      - destruct e as [u c|u fault sig|u]; simpl in Ha; subst u.
        + destruct Hst as [_ _ (r & pt & Ht & Hpt) _]. simpl in H1. rewrite Ht in H1.
          by destruct Hpt as [-> | ->].
        + destruct (stuck_self _ _ _ _ _ _ _ _ _ Hm Hfit Hst H1) as [? ->]. set_solver.
        + injection H1 as <- <-. split; [|set_solver].
          destruct Hst as [? ? (r & pt & Ht & Hpt) Hop]. split; [done..| |].
          * exists true, pt. simpl. by rewrite lookup_alter_eq, Ht.
          * intros u th. simpl. rewrite lookup_alter_Some.
            intros [(-> & th0 & H0 & ->)|[_ H0]]; apply (Hop _ _ H0).
      - split; [eapply stuck_other; eauto; intros u ->; apply (Hb u); set_solver|].
        intros r Hr. by apply (step_obs_thread _ _ _ _ _ H1) in Hr. }
    destruct (IH m1 o2) as [? Ho2]; [eauto using step_ok|done|set_solver|done|].
    split; [done|]. set_solver.
Qed.

Definition room_for_two : list event :=
  [Begin 1 (CWrite 0 [1; 2]); Run 1 false false; Run 1 false false; Run 1 false false;
   Begin 2 (CWrite 0 [3; 4; 5]); Run 2 false false].
Definition reader_comes : list event :=
  [Begin 3 (CRead 0 1); Run 2 false true; Interrupt 2; Run 2 false true; Run 2 false true].

Lemma atomic_write_spins_witness :
  ∃ o m o' m', run room_for_two (boot 4) = Some (o, m) ∧
    run reader_comes m = Some (o', m') ∧ stuck 2 0 [3; 4; 5] (m_pipe m) m'.
Proof.
  eexists _, _, _, _. split; [vm_compute; reflexivity|].
  split; [vm_compute; reflexivity|].
  eapply (atomic_write_spins 2 0 [3; 4; 5] _ reader_comes).
  - apply (run_ok room_for_two (boot 4) [Sent 1 [1; 2]; Ret 1 2]).
    + apply boot_ok. lia.
    + repeat constructor; vm_compute; congruence.
    + vm_compute. reflexivity.
  - split_and!; vm_compute; congruence.
  - split; [reflexivity|done|by exists true, (Loop 0); split; [|left]|].
    assert (map_Forall (λ _ th, is_close (t_call th) = false)
      (<[1%nat := Thread (CWrite 0 [1; 2]) Idle true]>
        (<[2%nat := Thread (CWrite 0 [3; 4; 5]) (Loop 0) true]> (∅ : gmap nat thread)))) as H.
    { apply (bool_decide_unpack _). vm_compute. exact I. }
    intros u th Hu Hc. pose proof (H u th Hu) as H'. simpl in H'. by rewrite Hc in H'.
  - repeat constructor; vm_compute; congruence.
  - intros u. unfold reader_comes. set_solver.
  - vm_compute. reflexivity.
Defined.

(** Running [t] alone for [k] steps, with accessible user memory and no signal. *)
Definition alone (t : nat) (k : nat) : list event := replicate k (Run t false false).

(** A thread that starts a call on a free pipe gets to the loop in two steps. *)
Lemma enter_loop t c es m :
  is_close c = false → m_lock m = None →
  (∀ th, m_threads m !! t = Some th → t_point th = Idle) →
  run (Begin t c :: Run t false false :: es) m
  = run es (Machine (m_pipe m) (Some t) (<[t := Thread c (Loop 0) true]> (m_threads m))
                    (m_readq m) (m_writeq m)).
Proof.
  intros Hc Hl Hi.
  assert (step (Begin t c) m = Some ([], begin_call t c m)) as E1.
  { simpl. destruct (m_threads m !! t) as [th|]; [|done]. by rewrite (Hi th). }
  set (m2 := Machine _ _ _ _ _).
  assert (step (Run t false false) (begin_call t c m) = Some ([], m2)) as E2.
  { unfold step, begin_call. cbn [m_threads]. rewrite lookup_insert_eq.
    destruct c; try done; unfold run_thread; simpl; rewrite Hl;
      unfold upd_thread, set_lock; simpl; by rewrite alter_insert_eq. }
  cbn [run]. rewrite E1. cbn [mbind option_bind run]. rewrite E2. simpl.
  by destruct (run es m2) as [[]|].
Qed.

(** One iteration of a thread that is in the loop. *)
Lemma run_loop t c n r e es m :
  m_threads m !! t = Some (Thread c (Loop n) r) → iter c false n (m_pipe m) = e →
  run (Run t false false :: es) m
  = '(o, m') ← run es (apply_effect t e m); Some (obs_of t e ++ o, m').
Proof. intros Ht <-. simpl. by rewrite Ht. Qed.

(** A thread that returns from its first or second iteration. *)
Lemma run_two_iterations t c k e1 e2 m :
  is_close c = false → m_lock m = None →
  (∀ th, m_threads m !! t = Some th → t_point th = Idle) →
  iter c false 0 (m_pipe m) = e1 → e_next e1 = Again k →
  iter c false k (e_pipe e1) = e2 →
  ∃ m', run (Begin t c :: alone t 3) m = Some (obs_of t e1 ++ obs_of t e2, m') ∧
        m_pipe m' = e_pipe e2 ∧
        (∀ r, e_next e2 = Return r → m_lock m' = None).
Proof.
  intros Hc Hl Hi H1 Hk H2. change (alone t 3) with (Run t false false :: alone t 2).
  rewrite enter_loop by done. set (m1 := Machine _ _ _ _ _).
  assert (m_threads m1 !! t = Some (Thread c (Loop 0) true)) as Ht1 by apply lookup_insert_eq.
  destruct (apply_effect_self t e1 m1 _ Ht1) as (r2 & Ht2 & Hl2). rewrite Hk in Ht2. simpl in Ht2.
  set (m2 := apply_effect t e1 m1) in *.
  assert (m_pipe m2 = e_pipe e1) as Hp2 by apply pipe_apply_effect.
  destruct (apply_effect_self t e2 m2 _ Ht2) as (r3 & Ht3 & Hl3).
  exists (apply_effect t e2 m2). split; [|split; [apply pipe_apply_effect|by intros r Hr; rewrite Hl3, Hr]].
  change (alone t 2) with [Run t false false; Run t false false].
  rewrite (run_loop t c 0 true e1 _ m1 Ht1 H1). fold m2.
  rewrite (run_loop t c k r2 e2 _ m2 Ht2) by (by rewrite Hp2).
  simpl. by rewrite app_nil_r.
Qed.

(** A non-blocking write of more than [PIPE_BUF] bytes that only partly fits puts
    the part that fits into the pipe and then reports [EAGAIN], as if nothing had been
    written: the caller is not told that the pipe has accepted bytes. *)
Theorem nonblocking_write_loses_count t flags data m :
  machine_ok m → m_lock m = None →
  (∀ th, m_threads m !! t = Some th → t_point th = Idle) →
  has flags O_NONBLOCK = true → broken (m_pipe m) = false →
  PIPE_BUF < Z.of_nat (length data) < 2 ^ 63 →
  let space := buf_size (m_pipe m) - pos (m_pipe m) in
  0 < space < Z.of_nat (length data) →
  ∃ m', run (Begin t (CWrite flags data) :: alone t 3) m
        = Some ([Sent t (take (Z.to_nat space) data); Ret t (- EAGAIN)], m').
Proof.
  intros Hm Hl Hi Hnb Hbr Hlen space Hsp.
  pose proof (ok_pipe _ Hm) as Hp. pose proof (pipe_pos _ Hp). set (p := m_pipe m) in *.
  set (d := take (Z.to_nat space) data). set (len := Z.of_nat (length data)) in *.
  set (p' := set_data (mem_write (buffer p) (Z.to_nat (pos p)) d) (buf_size p) p).
  destruct (run_two_iterations t (CWrite flags data) space
    (Effect p' false false d [] false (Again space))
    (Effect p' true false [] [] false (Return (- EAGAIN))) m) as (m' & Hr & _); try done.
  - simpl. fold p. unfold write_iter, write_blocks, is_full, is_atomic_write. fold len.
    rewrite (space_ok p Hp), i64_id, u64_small, Hbr by lia.
    rewrite (proj2 (Z.eqb_neq 0 _)), (proj2 (Z.leb_gt _ PIPE_BUF)),
      (proj2 (Z.eqb_neq (buf_size _) _)), andb_false_r by lia.
    simpl. rewrite Z.sub_0_r, Z.min_r by lia. fold space d.
    replace (pos p + space) with (buf_size p) by (unfold space; lia). done.
  - simpl. unfold write_iter, write_blocks, is_full. fold len.
    rewrite i64_id by lia. rewrite (proj2 (Z.eqb_neq space _)) by lia. unfold p'. simpl.
    rewrite Hbr, Z.eqb_refl, orb_true_r, Hnb.
    by rewrite (proj2 (truthy_spec space)) by lia.
  - exists m'. rewrite Hr. unfold obs_of. simpl. destruct d eqn:Ed; [|done].
    apply (f_equal length) in Ed. unfold d in Ed. rewrite length_take in Ed. simpl in Ed. lia.
Qed.

(** Threads that do not act keep their calls and program points. *)
Lemma run_frame t es m o m' :
  machine_ok m → Forall event_ok es → Forall (λ e, actor e = t) es →
  run es m = Some (o, m') → frame t m m'.
Proof.
  intros Hm Hes. revert m o Hm. induction Hes as [|e es He _ IH]; intros m o Hm Ha.
  - by intros [= <- <-].
  - intros (o1 & m1 & o2 & H1 & H2 & ->)%run_cons. inversion Ha as [|? ? Hae Haes]; subst.
    transitivity m1; [by apply (step_frame _ _ _ _ Hm H1)|]. eauto using step_ok.
Qed.

(** The two iterations of a write that fits. *)
Lemma write_fits f data p :
  pipe_ok p → broken p = false →
  0 < Z.of_nat (length data) <= buf_size p - pos p →
  let len := Z.of_nat (length data) in
  let p' := set_data (mem_write (buffer p) (Z.to_nat (pos p)) data) (pos p + len) p in
  write_iter f data false 0 p = Effect p' false false data [] false (Again len) ∧
  write_iter f data false len p' = Effect p' true false [] [] false (Return len).
Proof.
  intros Hp Hbr Hfit len p'. pose proof (pipe_pos _ Hp). pose proof (pipe_size _ Hp).
  unfold write_iter, write_blocks, is_full. fold len. rewrite !i64_id, Z.eqb_refl by lia.
  split; [|done]. rewrite (space_ok p Hp), u64_small, Hbr by lia.
  rewrite (proj2 (Z.eqb_neq 0 _)), (proj2 (Z.ltb_ge _ _)), (proj2 (Z.eqb_neq _ (pos p))) by lia.
  simpl. rewrite Z.sub_0_r, Z.min_l by lia. rewrite drop_0, take_ge by lia. done.
Qed.

(** The two iterations of a read that finds data. *)
Lemma read_finds g len p :
  pipe_ok p → 0 < pos p → 0 < len < 2 ^ 63 →
  let k := Z.min len (pos p) in
  ∃ p', pipe_ok p' ∧ contents p = take (Z.to_nat k) (contents p) ++ contents p' ∧
  read_iter g len false 0 p
    = Effect p' false true [] (take (Z.to_nat k) (contents p)) false (Again k) ∧
  read_iter g len false k p' = stay p' (Return k).
Proof.
  intros Hp Hpos Hlen k. pose proof (pipe_pos _ Hp). pose proof (pipe_size _ Hp).
  destruct (contents_shift p k Hp ltac:(lia)) as [Hp' Hc]. eexists.
  assert (take (Z.to_nat k) (contents p) = take (Z.to_nat k) (buffer p)) as ->.
  { unfold contents. rewrite take_take. f_equal. lia. }
  split; [exact Hp'|]. split; [exact Hc|].
  unfold read_iter, can_read. rewrite i64_id by lia.
  rewrite (proj2 (Z.eqb_neq 0 len)), (proj2 (Z.eqb_neq (pos p) 0)), u64_small by lia. simpl.
  rewrite Z.sub_0_r. fold k. split; [done|].
  destruct (Z.eqb_spec k len); [done|]. rewrite (proj2 (Z.eqb_eq (pos p - k) 0)) by lia. simpl.
  by rewrite (proj2 (truthy_spec k)) by lia.
Qed.

(** A write that fits into an empty pipe followed by a read, each running alone,
    both complete: the write accepts everything, the read delivers the first bytes of
    it, as many as it asked for, and the rest stays in the pipe. *)
Theorem write_then_read w r f g data len m :
  machine_ok m → m_lock m = None → pos (m_pipe m) = 0 → broken (m_pipe m) = false →
  (∀ th, m_threads m !! w = Some th → t_point th = Idle) →
  (∀ th, m_threads m !! r = Some th → t_point th = Idle) → w ≠ r →
  0 < Z.of_nat (length data) <= buf_size (m_pipe m) →
  0 < len < 2 ^ 63 →
  let k := Z.min len (Z.of_nat (length data)) in
  ∃ m1 m2,
    run (Begin w (CWrite f data) :: alone w 3) m
      = Some ([Sent w data; Ret w (Z.of_nat (length data))], m1) ∧
    run (Begin r (CRead g len) :: alone r 3) m1
      = Some ([Received r (take (Z.to_nat k) data); Ret r k], m2) ∧
    contents (m_pipe m2) = drop (Z.to_nat k) data.
Proof.
  intros Hm Hl Hpos Hbr Hw Hr Hwr Hfit Hlen k.
  pose proof (ok_pipe _ Hm) as Hp. set (p := m_pipe m) in *.
  destruct (write_fits f data p Hp Hbr ltac:(lia)) as [E1 E2].
  destruct (contents_append p data Hp ltac:(lia)) as [Hp1 Hc1].
  set (p1 := set_data _ _ p) in *.
  destruct (run_two_iterations w (CWrite f data) _ _ _ m eq_refl Hl Hw E1 eq_refl E2)
    as (m1 & R1 & Hm1 & Hl1). simpl in Hm1. specialize (Hl1 _ eq_refl).
  assert (contents p = []) as Hc0 by (unfold contents; by rewrite Hpos).
  rewrite Hc0 in Hc1. simpl in Hc1.
  assert (pos p1 = Z.of_nat (length data)) as Hpos1 by (simpl; lia).
  destruct (read_finds g len p1 Hp1 ltac:(lia) Hlen) as (p2 & _ & Hc2 & E3 & E4).
  rewrite Hpos1, Hc1 in *. fold k in Hc2, E3, E4.
  assert (frame w m m1) as Hf.
  { pose proof (pipe_size _ Hp).
    eapply run_frame; [exact Hm| | |exact R1]; (constructor; [|by apply Forall_replicate]);
      unfold event_ok, call_ok; simpl; [lia|done]. }
  assert (∀ th, m_threads m1 !! r = Some th → t_point th = Idle) as Hr1.
  { intros th Hth. pose proof (fr_threads _ _ _ Hf r ltac:(done)) as H. rewrite Hth in H.
    inversion H as [th0 ? (_ & Hpt & _) e|]. rewrite Hpt. by apply Hr. }
  rewrite <- Hm1 in E3.
  destruct (run_two_iterations r (CRead g len) k _ _ m1 eq_refl Hl1 Hr1 E3 eq_refl E4)
    as (m2 & R2 & Hm2 & _).
  exists m1, m2. rewrite R1, R2, Hm2. simpl.
  assert (length (take (Z.to_nat k) data) = Z.to_nat k) as Hk by (rewrite length_take; lia).
  split_and!.
  - unfold obs_of; simpl. by destruct data.
  - unfold obs_of; simpl. destruct (take (Z.to_nat k) data); [simpl in Hk; lia|done].
  - apply (app_inv_head (take (Z.to_nat k) data)). rewrite <- Hc2. by rewrite take_drop.
Qed.

Lemma write_then_read_witness :
  ∃ m1 m2,
    run (Begin 1 (CWrite 0 [7; 8; 9]) :: alone 1 3) (boot 16)
      = Some ([Sent 1 [7; 8; 9]; Ret 1 3], m1) ∧
    run (Begin 2 (CRead 0 2) :: alone 2 3) m1 = Some ([Received 2 [7; 8]; Ret 2 2], m2) ∧
    contents (m_pipe m2) = [9].
Proof.
  apply (write_then_read 1 2 0 0 [7; 8; 9] 2 (boot 16)); try done; simpl; lia.
Defined.

Lemma nonblocking_write_loses_count_witness :
  ∃ m', run (Begin 1 (CWrite O_NONBLOCK (replicate 5000 7)) :: alone 1 3) (boot 10)
        = Some ([Sent 1 (take 10 (replicate 5000 7)); Ret 1 (- EAGAIN)], m').
Proof.
  apply (nonblocking_write_loses_count 1 O_NONBLOCK (replicate 5000 7) (boot 10));
    try done; rewrite ?length_replicate; unfold PIPE_BUF; simpl; lia.
Defined.

(** [poll] looks only at the buffer: at end of file it reports nothing and registers
    the caller, although a read would return at once. *)
Lemma poll_misses_hangup p flags len fault :
  pos p = 0 → eof p = true →
  poll POLLIN p = (0, true, false) ∧
  e_next (read_iter flags len fault 0 p) = Return 0.
Proof.
  intros Hp He. unfold poll, read_iter, can_read. rewrite Hp, He.
  split; [done|]. by destruct (0 =? i64 len).
Qed.
