(* ===== verification/Bootmem.v ===== *)
(** * Bootmem: memory ranges before the page allocator exists

    [kernel/mm/bootmem.cpp] keeps the usable physical ranges and the reserved ones in
    two tables of 128 entries, cuts reservations out of the usable ranges, and hands out
    whole pages from the front of a range. *)

From S2P Require Import Prelude Abi.

Definition DEFAULT_NR_MEMORY_RANGES : Z := 128.
Definition BOOT_PAGE_SHIFT : Z := 12.
Definition BOOT_PAGE_SIZE : Z := 4096.

Record memory_range : Type := Range { r_start : Z; r_size : Z }.

(** The first [nr_phys_ranges] and [nr_resv_ranges] entries of the tables. *)
Record bootmem : Type := Bootmem {
  phys_ranges : list memory_range;
  resv_ranges : list memory_range
}.

Abbreviation BM := (M bootmem).

Definition set_phys (l : list memory_range) (s : bootmem) : bootmem :=
  Bootmem l (resv_ranges s).

Definition check_for_overlap (x1 x2 y1 y2 : Z) : bool := (x1 <=? y2) && (y1 <=? x2).

Definition __bootmem_add_range (start size : Z) : BM unit :=
  l ← gets phys_ranges;
  check (negb (Z.of_nat (length l) =? DEFAULT_NR_MEMORY_RANGES)) KernelPanic;;
  modify (set_phys (l ++ [Range start size])).

Definition bootmem_remove_range (index : nat) : BM unit :=
  modify (λ s, set_phys (delete index (phys_ranges s)) s).

Definition bootmem_add_reserve (start size : Z) : BM unit :=
  l ← gets resv_ranges;
  check (negb (Z.of_nat (length l) =? DEFAULT_NR_MEMORY_RANGES)) KernelPanic;;
  modify (λ s, Bootmem (phys_ranges s) (l ++ [Range start size])).

(** The body of the loop of [bootmem_reserve_memory_ranges] on entry [i]. *)
Definition reserve_one (start size : Z) (i : nat) (range : memory_range) : BM unit :=
  let overlaps := check_for_overlap start (u64 (start + size - 1)) (r_start range)
                    (u64 (r_start range + r_size range - 1)) in
  if negb overlaps then mret tt
  else if start <=? r_start range then
    let offset := u64 (r_start range - start) in
    let tail_size := if r_size range <? u64 (size - offset) then 0
                     else u64 (r_size range - u64 (size - offset)) in
    if tail_size =? 0 then bootmem_remove_range i
    else modify (λ s, set_phys (<[i := Range (u64 (r_start range + u64 (size - offset)))
                                             tail_size]> (phys_ranges s)) s)
  else
    let offset := u64 (start - r_start range) in
    let remainder := u64 (r_size range - offset) in
    let to_shave_off := if size <? remainder then size else remainder in
    if to_shave_off =? r_size range then
      modify (λ s, set_phys (<[i := Range (r_start range)
                                          (u64 (r_size range - to_shave_off))]>
                               (phys_ranges s)) s)
    else
      modify (λ s, set_phys (<[i := Range (r_start range) offset]> (phys_ranges s)) s);;
      __bootmem_add_range (u64 (start + to_shave_off)) (u64 (remainder - to_shave_off)).

(** The loop; the index grows at every turn and the table has 128 entries. *)
Fixpoint reserve_loop (fuel : nat) (start size : Z) (i : nat) : BM unit :=
  l ← gets phys_ranges;
  match l !! i with
  | None => mret tt
  | Some range =>
      match fuel with
      | O => crash OutOfFuel
      | S fuel => reserve_one start size i range;; reserve_loop fuel start size (S i)
      end
  end.
Definition bootmem_reserve_memory_ranges (start size : Z) : BM unit :=
  reserve_loop (Z.to_nat DEFAULT_NR_MEMORY_RANGES) start size 0.

Fixpoint re_reserve (l : list memory_range) : BM unit :=
  match l with
  | [] => mret tt
  | r :: l => bootmem_reserve_memory_ranges (r_start r) (r_size r);; re_reserve l
  end.
Definition bootmem_re_reserve_memory : BM unit :=
  l ← gets resv_ranges; re_reserve l.

Definition bootmem_add_range (start size : Z) : BM unit :=
  __bootmem_add_range start size;; bootmem_re_reserve_memory.

Definition page_align_down (x : Z) : Z := Z.land x (u64 (- BOOT_PAGE_SIZE)).
Definition page_align_up (x : Z) : Z :=
  Z.land (u64 (x + BOOT_PAGE_SIZE - 1)) (u64 (- BOOT_PAGE_SIZE)).

Definition bootmem_reserve (start size : Z) : BM unit :=
  let start := page_align_down start in
  let size := page_align_up size in
  bootmem_add_reserve start size;;
  bootmem_reserve_memory_ranges start size.

Fixpoint alloc_boot_loop (l : list memory_range) (i : nat) (size : Z) : BM Z :=
  match l with
  | [] => crash KernelPanic
  | range :: l =>
      if size <=? r_size range then
        let ret := r_start range in
        let range' := Range (u64 (r_start range + size)) (u64 (r_size range - size)) in
        modify (λ s, set_phys (<[i := range']> (phys_ranges s)) s);;
        (if r_size range' =? 0 then bootmem_remove_range i else mret tt);;
        mret ret
      else alloc_boot_loop l (S i) size
  end.
Definition alloc_boot_page (nr_pages : Z) : BM Z :=
  l ← gets phys_ranges;
  alloc_boot_loop l 0 (u64 (Z.shiftl nr_pages BOOT_PAGE_SHIFT)).
