(* ===== verification/BootmemProps.v ===== *)
(** * BootmemProps: cutting reservations out of memory, and handing memory out

    [count l a] is the number of ranges of [l] that contain address [a].  Reserving sets
    it to zero inside the reservation and leaves it alone outside; allocating lowers it
    by one inside the block that is handed out.  Reserving does so only when no range
    that lies entirely inside the reservation is followed by another one it overlaps:
    [reserve_skips_range] shows what happens otherwise. *)

From S2P Require Import Prelude Bits Abi Bootmem.

Definition r_end (r : memory_range) : Z := r_start r + r_size r.

Definition in_range (r : memory_range) (a : Z) : bool := (r_start r <=? a) && (a <? r_end r).

Fixpoint count (l : list memory_range) (a : Z) : Z :=
  match l with
  | [] => 0
  | r :: l => (if in_range r a then 1 else 0) + count l a
  end.

(** No wrap-around; an empty range does not start at address zero. *)
Definition range_ok (r : memory_range) : Prop :=
  0 <= r_start r ∧ 0 <= r_size r ∧ r_end r < 2 ^ 64 ∧ (r_size r = 0 → 0 < r_start r).

Lemma count_app l l' a : count (l ++ l') a = count l a + count l' a.
Proof. induction l as [|r l IH]; simpl; [done|]. rewrite IH. lia. Qed.

Section reserve.
Context (start size : Z) (Hstart : 0 <= start) (Hsize : 0 < size).
Context (Htop : start + size < 2 ^ 64).

Definition resv_end : Z := start + size.
Definition reserved (a : Z) : bool := (start <=? a) && (a <? resv_end).
Definition meets (r : memory_range) : bool :=
  (start <=? r_end r - 1) && (r_start r <=? resv_end - 1).

(** What becomes of a range: its entry in the table (or none), and the piece behind the
    reservation when the range sticks out on both sides. *)
Definition cut (r : memory_range) : option memory_range * option memory_range :=
  if negb (meets r) then (Some r, None)
  else if start <=? r_start r then
    if r_end r <=? resv_end then (None, None)
    else (Some (Range resv_end (r_end r - resv_end)), None)
  else let e := Z.min resv_end (r_end r) in
       (Some (Range (r_start r) (start - r_start r)), Some (Range e (r_end r - e))).

Definition olist (o : option memory_range) : list memory_range :=
  match o with Some r => [r] | None => [] end.

Lemma cut_count r a :
  range_ok r →
  count (olist (fst (cut r))) a + count (olist (snd (cut r))) a
  = if reserved a then 0 else count [r] a.
Proof.
  intros (H0 & H1 & H2 & H3). unfold cut, meets, reserved, resv_end.
  destruct (Z.leb_spec start (r_end r - 1)), (Z.leb_spec (r_start r) (start + size - 1)); simpl.
  1: destruct (Z.leb_spec start (r_start r)); [destruct (Z.leb_spec (r_end r) (start + size))|].
  all: simpl; unfold in_range, r_end in *; simpl; repeat case_match; lia.
Qed.

Lemma cut_ok r :
  range_ok r → Forall range_ok (olist (fst (cut r)) ++ olist (snd (cut r))).
Proof.
  intros Hr. pose proof Hr as (H0 & H1 & H2 & H3). unfold cut, meets, resv_end.
  destruct (Z.leb_spec start (r_end r - 1)), (Z.leb_spec (r_start r) (start + size - 1)); simpl;
    try by constructor.
  destruct (Z.leb_spec start (r_start r)); [destruct (Z.leb_spec (r_end r) (start + size))|];
    simpl; repeat constructor; unfold range_ok, r_end in *; simpl; lia.
Qed.

(** A range with no byte in the reservation. *)
Definition clear (r : memory_range) : bool := negb (meets r) || (r_size r =? 0).

Lemma clear_count r a : range_ok r → clear r = true → reserved a = true → in_range r a = false.
Proof.
  intros (H0 & H1 & H2 & H3). unfold clear, meets, reserved, in_range, resv_end, r_end. lia.
Qed.

Lemma cut_clear r :
  range_ok r → clear r = true →
  cut r = (Some r, None) ∨ cut r = (None, None) ∧ r_size r = 0.
Proof.
  intros (H0 & H1 & H2 & H3). unfold clear, cut. destruct (meets r) eqn:Hm; simpl; [|by left].
  unfold meets, resv_end, r_end in *. intros E%Z.eqb_eq. right. split; [|done].
  rewrite (proj2 (Z.leb_le start _)), (proj2 (Z.leb_le _ (start + size))) by lia. done.
Qed.

Lemma cut_snd_clear r x : range_ok r → snd (cut r) = Some x → clear x = true.
Proof.
  intros (H0 & H1 & H2 & H3). unfold cut, clear, meets, resv_end, r_end in *.
  repeat case_match; simpl; try done; intros [= <-]; simpl in *; lia.
Qed.

(** ** The loop body *)

Lemma insert_mid (l1 l2 : list memory_range) r r' :
  <[length l1 := r']> (l1 ++ r :: l2) = l1 ++ r' :: l2.
Proof. induction l1; simpl; congruence. Qed.

Lemma delete_mid (l1 l2 : list memory_range) r : delete (length l1) (l1 ++ r :: l2) = l1 ++ l2.
Proof. induction l1; simpl; [done|]. f_equal. done. Qed.

Lemma wp_reserve_one l1 r l2 s (Q : unit → bootmem → Prop) :
  range_ok r → phys_ranges s = l1 ++ r :: l2 →
  (length (l1 ++ r :: l2) < 128)%nat ∨ snd (cut r) = None →
  Q tt (set_phys (l1 ++ olist (fst (cut r)) ++ l2 ++ olist (snd (cut r))) s) →
  wp (reserve_one start size (length l1) r) Q s.
Proof.
  intros (H0 & H1 & H2 & H3) Hs Hroom. unfold reserve_one, check_for_overlap, cut, meets, resv_end.
  unfold r_end in *.
  assert (u64 (r_start r + r_size r - 1) = r_start r + r_size r - 1) as ->
    by (apply u64_small; lia).
  rewrite (u64_small (start + size - 1)) by lia.
  destruct ((start <=? r_start r + r_size r - 1) && (r_start r <=? start + size - 1)) eqn:Em;
    cbn [negb].
  2:{ intros HQ. wp_step. simpl in HQ. rewrite app_nil_r, <- Hs in HQ. by destruct s. }
  destruct (Z.leb_spec start (r_start r)) as [Hle|Hgt].
  - rewrite (u64_small (r_start r - start)), (u64_small (size - _)) by lia.
    replace (size - (r_start r - start)) with (start + size - r_start r) by lia.
    destruct (Z.leb_spec (r_start r + r_size r) (start + size)) as [Hc|Hc].
    + assert ((if r_size r <? start + size - r_start r then 0
               else u64 (r_size r - (start + size - r_start r))) = 0) as ->.
      { destruct (Z.ltb_spec (r_size r) (start + size - r_start r)); [done|].
        rewrite u64_small; lia. }
      simpl. rewrite app_nil_r. intros HQ. unfold bootmem_remove_range. wp_step.
      by rewrite Hs, delete_mid.
    + rewrite (proj2 (Z.ltb_ge _ _)), (u64_small (r_size r - _)), u64_small by lia.
      rewrite (proj2 (Z.eqb_neq _ 0)) by lia. simpl. intros HQ. wp_step.
      rewrite Hs, insert_mid. rewrite app_nil_r in HQ.
      replace (r_start r + (start + size - r_start r)) with (start + size) by lia.
      replace (r_size r - (start + size - r_start r))
        with (r_start r + r_size r - (start + size)) by lia. done.
  - rewrite (u64_small (start - _)), (u64_small (r_size r - _)) by lia.
    set (rem := r_size r - (start - r_start r)).
    set (shave := if size <? rem then size else rem).
    assert (shave = Z.min size rem) as Hsh by (unfold shave; case_match; lia).
    rewrite (proj2 (Z.eqb_neq shave _)) by lia. simpl. intros HQ.
    wp_step. wp_step. unfold __bootmem_add_range. wp_step. wp_step. wp_step. simpl.
    rewrite Hs, insert_mid. wp_step.
    { destruct Hroom as [Hroom|Hno]; [|revert Hno; unfold cut, meets, resv_end, r_end].
      - rewrite length_app in *. simpl in *. unfold DEFAULT_NR_MEMORY_RANGES.
        apply negb_true_iff, Z.eqb_neq. lia.
      - rewrite Em. simpl. rewrite (proj2 (Z.leb_gt start (r_start r))) by lia. done. }
    wp_step. rewrite !u64_small by lia. rewrite Hsh.
    replace (Z.min (start + size) (r_start r + r_size r)) with (start + Z.min size rem) in HQ by lia.
    replace (r_start r + r_size r - (start + Z.min size rem)) with (rem - Z.min size rem) in HQ by lia.
    rewrite <- app_assoc. simpl. done.
Qed.

(** ** The loop *)

Definition kept_post (s : bootmem) (_ : unit) (s' : bootmem) : Prop :=
  Forall range_ok (phys_ranges s') ∧ resv_ranges s' = resv_ranges s ∧
  ∀ a, count (phys_ranges s') a = count (phys_ranges s) a.

(** Over entries without a byte in the reservation the loop changes no count. *)
Lemma wp_tail fuel i s :
  Forall range_ok (phys_ranges s) →
  (∀ j r, (i <= j)%nat → phys_ranges s !! j = Some r → clear r = true) →
  (length (phys_ranges s) - i <= fuel)%nat →
  wp (reserve_loop fuel start size i) (kept_post s) s.
Proof.
  revert i s. induction fuel as [|fuel IH]; intros i s Hok Hcl Hf; cbn [reserve_loop];
    wp_step; wp_step; destruct (phys_ranges s !! i) as [r|] eqn:Hi; try (by wp_step).
  { apply lookup_lt_Some in Hi. lia. }
  pose proof (lookup_lt_Some _ _ _ Hi) as Hlt.
  assert (range_ok r) as Hr by (eapply Forall_lookup_1; eauto).
  pose proof (take_drop_middle _ _ _ Hi) as Hs.
  assert (length (take i (phys_ranges s)) = i) as Hlen by (rewrite length_take; lia).
  set (l1 := take i (phys_ranges s)) in *. set (l2 := drop (S i) (phys_ranges s)) in *.
  wp_step. rewrite <- Hlen at 1.
  destruct (cut_clear r Hr (Hcl i r ltac:(lia) Hi)) as [Hc|[Hc Hz]];
    apply (wp_reserve_one l1 r l2); try done; rewrite ?Hc; try (by right); simpl.
  - rewrite app_nil_r, Hs. replace (set_phys (phys_ranges s) s) with s by (by destruct s).
    apply IH; [done| |lia]. intros j x Hj. apply Hcl. lia.
  - rewrite app_nil_r. eapply wp_mono; [apply (IH (S i))|].
    + simpl. rewrite <- Hs in Hok. apply Forall_app in Hok as [? H].
      apply Forall_inv_tail in H. by apply Forall_app.
    + simpl. intros j x Hj Hx. apply (Hcl (S j)); [lia|]. rewrite <- Hs.
      rewrite lookup_app_r in * by lia. rewrite Hlen in *.
      replace (S j - i)%nat with (S (j - i)) by lia. done.
    + simpl. assert (length (phys_ranges s) = length l1 + S (length l2))%nat
        by (rewrite <- Hs at 1; rewrite length_app; done).
      rewrite length_app. lia.
    + intros [] s' (H1 & H2 & H3). split; [done|]. split; [done|]. intros a. rewrite H3. simpl.
      rewrite <- Hs, !count_app. simpl. unfold in_range, r_end. rewrite Hz.
      destruct (Z.leb_spec (r_start r) a), (Z.ltb_spec a (r_start r + 0)); simpl; lia.
Qed.

(** Entries that lie inside the reservation are followed by one that does not meet it. *)
Fixpoint no_skip (l : list memory_range) : bool :=
  match l with
  | [] => true
  | r :: l' =>
      (match fst (cut r), l' with None, x :: _ => clear x | _, _ => true end) && no_skip l'
  end.

(** Entries that stick out on both sides and take a second entry. *)
Fixpoint nsplits (l : list memory_range) : nat :=
  match l with
  | [] => 0
  | r :: l => length (olist (snd (cut r))) + nsplits l
  end.

Definition cut_post (l1 rest added : list memory_range) (s : bootmem) (_ : unit)
    (s' : bootmem) : Prop :=
  Forall range_ok (phys_ranges s') ∧ resv_ranges s' = resv_ranges s ∧
  ∀ a, count (phys_ranges s') a
       = count l1 a + (if reserved a then 0 else count rest a) + count added a.

(** Nothing of the original table is left to look at. *)
Lemma wp_tail_added fuel i l1 added s :
  phys_ranges s = l1 ++ added → Forall range_ok (l1 ++ added) →
  Forall (λ r, clear r = true) added → (length l1 <= i)%nat → (length added <= fuel)%nat →
  wp (reserve_loop fuel start size i) (cut_post l1 [] added s) s.
Proof.
  intros Hs Hok Hadd Hi Hf. eapply wp_mono; [apply wp_tail|].
  - by rewrite Hs.
  - intros j r Hj. rewrite Hs, lookup_app_r by lia. intros Hx.
    by apply (Forall_lookup_1 _ _ _ _ Hadd Hx).
  - rewrite Hs, length_app. lia.
  - intros [] s' (? & ? & H). split; [done|]. split; [done|]. intros a.
    rewrite H, Hs, count_app. simpl. case_match; lia.
Qed.

Lemma wp_reserve_loop n fuel l1 rest added s :
  (length rest <= n)%nat → phys_ranges s = l1 ++ rest ++ added →
  Forall range_ok (l1 ++ rest ++ added) → Forall (λ r, clear r = true) added →
  no_skip rest = true →
  (length l1 + length rest + length added + nsplits rest <= 128)%nat →
  (length rest + length added + nsplits rest <= fuel)%nat →
  wp (reserve_loop fuel start size (length l1)) (cut_post l1 rest added s) s.
Proof.
  revert fuel l1 rest added s. induction n as [|n IH];
    intros fuel l1 rest added s Hn Hs Hok Hadd Hskip H128 Hfuel.
  - destruct rest; [|simpl in Hn; lia]. apply wp_tail_added; try done; simpl in *; lia.
  - destruct rest as [|r rest]; [apply wp_tail_added; try done; simpl in *; lia|].
    apply Forall_app in Hok as [Hok1 Hok2]. pose proof (Forall_inv Hok2) as Hr.
    apply Forall_inv_tail in Hok2. cbn [length nsplits no_skip] in *.
    apply andb_true_iff in Hskip as [Hnext Hskip].
    assert (phys_ranges s !! length l1 = Some r) as Hi
      by (rewrite Hs, lookup_app_r, Nat.sub_diag by lia; done).
    destruct fuel as [|fuel]; [lia|]. cbn [reserve_loop]. wp_step. wp_step. rewrite Hi. wp_step.
    pose proof (cut_count r) as Hcc. pose proof (cut_ok r Hr) as Hcok.
    pose proof (cut_snd_clear r) as Hsc.
    apply (wp_reserve_one l1 r (rest ++ added)); try done.
    { destruct (snd (cut r)); [left|by right]. rewrite !length_app in *. simpl in *.
      rewrite length_app. lia. }
    destruct (cut r) as [[r1|] sn] eqn:Ec; simpl in *.
    + replace (S (length l1)) with (length (l1 ++ [r1])) by (rewrite length_app; simpl; lia).
      eapply wp_mono; [apply (IH fuel (l1 ++ [r1]) rest (added ++ olist sn))|];
        rewrite ?length_app; simpl; try done; try lia.
      * by rewrite <- !app_assoc.
      * apply Forall_app in Hok2 as [? ?]. inversion Hcok; subst.
        rewrite !Forall_app. split_and!; try done. by constructor.
      * apply Forall_app. split; [done|]. destruct sn; simpl; [|done]. constructor; [auto|done].
      * intros [] s' (? & ? & H). split; [done|]. split; [done|]. intros a. rewrite H.
        specialize (Hcc a Hr). rewrite !count_app. simpl in *. destruct (reserved a); lia.
    + assert (sn = None) as ->.
      { revert Ec. unfold cut. repeat case_match; congruence. }
      simpl in *. rewrite !app_nil_r in *.
      destruct rest as [|x rest]; simpl in *.
      * eapply wp_mono; [apply (wp_tail_added fuel _ l1 added)|]; try done; try lia.
        { by apply Forall_app. }
        intros [] s' (? & ? & H). split; [done|]. split; [done|]. intros a. rewrite H.
        specialize (Hcc a Hr). simpl in *. destruct (reserved a); lia.
      * replace (S (length l1)) with (length (l1 ++ [x])) by (rewrite length_app; simpl; lia).
        apply andb_true_iff in Hskip as [_ Hskip].
        eapply wp_mono; [apply (IH fuel (l1 ++ [x]) rest added)|];
          rewrite ?length_app; simpl; try done; try lia.
        { by rewrite <- app_assoc. }
        { rewrite <- app_assoc. by apply Forall_app. }
        intros [] s' (? & ? & H). split; [done|]. split; [done|]. intros a. rewrite H.
        specialize (Hcc a Hr). rewrite count_app. simpl in *.
        pose proof (clear_count x a (Forall_inv Hok2) Hnext) as Hx.
        destruct (reserved a); [rewrite Hx by done|]; lia.
Qed.
End reserve.

(** ** Properties *)

(** Cutting a reservation out of the usable ranges removes exactly its bytes: no
    range contains a byte of it afterwards, and every other byte is in as many ranges as
    before.  This needs room in the table, and that no entry inside the reservation is
    directly followed by one that meets it. *)
Theorem bootmem_reserve_exact start size s :
  0 <= start → 0 < size → start + size < 2 ^ 64 →
  Forall range_ok (phys_ranges s) → no_skip start size (phys_ranges s) = true →
  (length (phys_ranges s) + nsplits start size (phys_ranges s) <= 128)%nat →
  ∃ s', bootmem_reserve_memory_ranges start size s = Done (tt, s') ∧
    Forall range_ok (phys_ranges s') ∧ resv_ranges s' = resv_ranges s ∧
    ∀ a, count (phys_ranges s') a
         = if (start <=? a) && (a <? start + size) then 0 else count (phys_ranges s) a.
Proof.
  intros H0 H1 H2 Hok Hskip Hroom.
  assert (wp (bootmem_reserve_memory_ranges start size)
             (cut_post start size [] (phys_ranges s) [] s) s) as H.
  { apply (wp_reserve_loop start size H0 H1 H2 (length (phys_ranges s)) 128 [] (phys_ranges s) [] s);
      rewrite ?app_nil_r; try done; simpl; lia. }
  apply wp_done in H as ([] & s' & Hrun & Hok' & Hresv & Hc). exists s'.
  split_and!; try done. intros a. rewrite Hc. unfold reserved, resv_end. simpl. lia.
Qed.

Definition two_banks : bootmem :=
  Bootmem [Range 0x1000 0x9000; Range 0x100000 0x700000] [].

Lemma bootmem_reserve_exact_witness :
  ∃ s', bootmem_reserve_memory_ranges 0x200000 0x3000 two_banks = Done (tt, s') ∧
    ∀ a, count (phys_ranges s') a
         = if (0x200000 <=? a) && (a <? 0x200000 + 0x3000) then 0
           else count (phys_ranges two_banks) a.
Proof.
  destruct (bootmem_reserve_exact 0x200000 0x3000 two_banks) as (s' & Hrun & _ & _ & Hc);
    [lia|lia|lia| |reflexivity|vm_compute; lia|].
  - repeat constructor; vm_compute; congruence.
  - exists s'. split; [exact Hrun|exact Hc].
Defined.

Lemma wp_alloc_boot_loop l1 l2 size s :
  phys_ranges s = l1 ++ l2 → Forall range_ok (l1 ++ l2) → 0 < size →
  match list_find (λ r, size <= r_size r) l2 with
  | None => alloc_boot_loop l2 (length l1) size s = Fault KernelPanic
  | Some (_, r) => wp (alloc_boot_loop l2 (length l1) size) (λ ret s',
      ret = r_start r ∧ Forall range_ok (phys_ranges s') ∧
      ∀ a, count (phys_ranges s') a
           = count (l1 ++ l2) a - (if in_range (Range ret size) a then 1 else 0)) s
  end.
Proof.
  revert l1. induction l2 as [|r l2 IH]; intros l1 Hs Hok Hsize; [done|].
  apply Forall_app in Hok as [Hok1 Hok2]. pose proof (Forall_inv Hok2) as (H0 & H1 & H2 & H3).
  apply Forall_inv_tail in Hok2. cbn [list_find alloc_boot_loop].
  destruct (decide (size <= r_size r)) as [Hle|Hgt].
  - rewrite (proj2 (Z.leb_le _ _) Hle). unfold r_end in *.
    rewrite (u64_small (r_size r - size)) by lia. simpl.
    wp_step. wp_step. rewrite Hs, insert_mid. wp_step.
    destruct (Z.eqb_spec (r_size r - size) 0) as [Hz|Hz].
    + unfold bootmem_remove_range. wp_step. simpl. wp_step. rewrite delete_mid. split; [done|].
      split; [by apply Forall_app|]. intros a. cbn [set_phys phys_ranges].
      rewrite !count_app. cbn [count].
      assert (in_range (Range (r_start r) size) a = in_range r a) as ->
        by (unfold in_range, r_end; simpl; by replace size with (r_size r) by lia). lia.
    + wp_step. wp_step. rewrite u64_small by lia. split; [done|]. split.
      * apply Forall_app. split; [done|]. constructor; [|done].
        unfold range_ok, r_end. simpl. lia.
      * intros a. cbn [set_phys phys_ranges]. rewrite !count_app. cbn [count].
        unfold in_range, r_end. cbn [r_start r_size]. repeat case_match; lia.
  - rewrite (proj2 (Z.leb_gt _ _)) by lia. simpl.
    specialize (IH (l1 ++ [r])). rewrite length_app in IH. simpl in IH.
    rewrite Nat.add_1_r, <- app_assoc in IH. simpl in IH.
    assert (Forall range_ok (l1 ++ r :: l2)) as Hall.
    { apply Forall_app. split; [done|]. constructor; [|done]. by split_and!. }
    specialize (IH Hs Hall Hsize).
    destruct (list_find (λ r0, size <= r_size r0) l2) as [[i r']|]; simpl; done.
Qed.

(** [alloc_boot_page] takes the pages from the front of the first range that is
    large enough: the block lies in that range, every byte of it is in one range less
    than before and all other bytes are unaffected; it panics exactly when no range is
    large enough. *)
Theorem alloc_boot_page_spec nr s :
  Forall range_ok (phys_ranges s) → 0 < nr * 4096 < 2 ^ 64 →
  match list_find (λ r, nr * 4096 <= r_size r) (phys_ranges s) with
  | Some (_, r) =>
      ∃ s', alloc_boot_page nr s = Done (r_start r, s') ∧ Forall range_ok (phys_ranges s') ∧
        ∀ a, count (phys_ranges s') a = count (phys_ranges s) a
             - (if (r_start r <=? a) && (a <? r_start r + nr * 4096) then 1 else 0)
  | None => alloc_boot_page nr s = Fault KernelPanic
  end.
Proof.
  intros Hok Hnr. pose proof (wp_alloc_boot_loop [] (phys_ranges s) (nr * 4096) s eq_refl Hok) as H.
  unfold alloc_boot_page, BOOT_PAGE_SHIFT. unfold mbind, M_bind, gets.
  rewrite Z.shiftl_mul_pow2, u64_small by lia. specialize (H ltac:(lia)).
  destruct (list_find (λ r, nr * 4096 <= r_size r) (phys_ranges s)) as [[i r]|].
  - apply wp_done in H as (ret & s' & Hrun & -> & Hok' & Hc). exists s'. by split_and!.
  - exact H.
Qed.

Lemma alloc_boot_page_spec_witness :
  ∃ s', alloc_boot_page 16 two_banks = Done (0x100000, s') ∧ Forall range_ok (phys_ranges s').
Proof.
  destruct (alloc_boot_page_spec 16 two_banks) as (s' & Hrun & Hok & _).
  - repeat constructor; vm_compute; congruence.
  - lia.
  - exists s'. split; [exact Hrun|exact Hok].
Defined.

(** Removing an entry shifts its successor into the place the loop has just left: of
    two neighbouring ranges inside a reservation only the first is removed, and memory
    of the reservation is then handed out as free. *)
Theorem reserve_skips_range start size r1 r2 s :
  0 <= start → start + size < 2 ^ 64 → range_ok r1 → range_ok r2 →
  start <= r_start r1 → r_end r1 <= start + size → 0 < r_size r1 →
  start <= r_start r2 → r_end r2 <= start + size → 4096 <= r_size r2 →
  phys_ranges s = [r1; r2] →
  ∃ s' s'', bootmem_reserve_memory_ranges start size s = Done (tt, s') ∧
    phys_ranges s' = [r2] ∧ alloc_boot_page 1 s' = Done (r_start r2, s'').
Proof.
  intros H0 Htop Hr1 Hr2 Ha Hb Hc Hd He Hf Hs.
  assert (0 < size) as Hsize by (unfold r_end in *; lia).
  assert (cut start size r1 = (None, None)) as Hcut.
  { unfold cut, meets, resv_end, r_end in *.
    by rewrite !(proj2 (Z.leb_le _ _)) by lia. }
  assert (wp (bootmem_reserve_memory_ranges start size) (λ _ s', phys_ranges s' = [r2]) s) as H.
  { unfold bootmem_reserve_memory_ranges. cbn [Z.to_nat DEFAULT_NR_MEMORY_RANGES].
    change (Z.to_nat DEFAULT_NR_MEMORY_RANGES) with 128%nat. cbn [reserve_loop].
    wp_step. wp_step. rewrite Hs. simpl.
    wp_step. apply (wp_reserve_one start size H0 Hsize Htop [] r1 [r2]); try done.
    - right. by rewrite Hcut.
    - rewrite Hcut. simpl. unfold reserve_loop. wp_step. wp_step. simpl. wp_step. done. }
  apply wp_done in H as ([] & s' & Hrun & Hs').
  assert (alloc_boot_page 1 s' = alloc_boot_loop [r2] 0 4096 s') as Halloc.
  { unfold alloc_boot_page, mbind, M_bind, gets. by rewrite Hs'. }
  pose proof (wp_alloc_boot_loop [] [r2] 4096 s' Hs') as H.
  cbn [list_find] in H. rewrite decide_True in H by done.
  destruct (wp_done (alloc_boot_loop [r2] 0 4096)
    (λ ret _, ret = r_start r2) s') as [Hdone _].
  destruct Hdone as (ret & s'' & Hret & ->).
  { eapply wp_mono; [apply H; [by constructor|lia]|]. by intros ret s'' [-> _]. }
  exists s', s''. split; [done|]. split; [done|]. by rewrite Halloc.
Qed.

Lemma reserve_skips_range_witness :
  ∃ s' s'', bootmem_reserve_memory_ranges 0x1000 0x8000
      (Bootmem [Range 0x2000 0x1000; Range 0x4000 0x2000] []) = Done (tt, s') ∧
    phys_ranges s' = [Range 0x4000 0x2000] ∧ alloc_boot_page 1 s' = Done (0x4000, s'').
Proof.
  apply (reserve_skips_range 0x1000 0x8000 (Range 0x2000 0x1000) (Range 0x4000 0x2000));
    try reflexivity; unfold range_ok, r_end; simpl; lia.
Defined.

(** The start of a reservation is rounded down but its length is rounded up on its own:
    an unaligned reservation loses its last bytes. *)
Lemma reserve_misses_tail :
  match bootmem_reserve 0x1800 0x1000 (Bootmem [Range 0x1000 0x3000] []) with
  | Done (_, s) => count (phys_ranges s) 0x2700 = 1
  | Fault _ => False
  end.
Proof. by vm_compute. Qed.
