(* ===== verification/PageAlloc.v ===== *)
(** * PageAlloc: the physical page allocator

    The page array of [kernel/mm/page.cpp] and the allocator of
    [kernel/mm/pagealloc.cpp].  A [struct page *] is an index into the page array.  The
    free list links nodes that live in the free pages themselves, so it is a list of
    physical addresses, and [nodes] is what those nodes record ([page_list::page]).
    The spinlock of the node is taken and released inside every operation, so each
    operation is one atomic state transformer.  What the memory of a page contains is
    kept as one bit: whether it is known to be all zeroes. *)

From S2P Require Import Prelude Abi.

Definition PAGE_SHIFT : Z := 12.
Definition PAGE_SIZE : Z := 4096.
Definition PAGE_FLAG_FREE : Z := 8.
Definition PAGE_ALLOC_CONTIGUOUS : Z := 1.
Definition PAGE_ALLOC_NO_ZERO : Z := 2.
Definition PAGE_ALLOC_4GB_LIMIT : Z := 4.
Definition ADDRESS_4GB_MARK : Z := 0x100000000.
Definition arena_default_size : Z := 0x200000.
Definition sizeof_page_arena : Z := 32.
Definition base_pfn : Z := 0.

Record page : Type := Page {
  ref : Z;
  flags : Z;
  cache : Z;
  next_allocation : option Z;
  priv : Z;
  zeroed : bool
}.

Record page_arena : Type := Arena { start_arena : Z; end_arena : Z }.

(** [main_node] together with the globals of the two files. *)
Record mem : Type := Mem {
  page_map : gmap Z page;
  maxpfn : Z;
  num_pages : Z;
  nodes : gmap Z Z;
  arena_list : list page_arena;
  page_list : list Z;
  node_used_pages : Z;
  total_pages : Z;
  used_pages : Z;
  nr_global_pages : Z;
  kernel_break : Z;
  kernel_break_limit : Z
}.

Abbreviation PM := (M mem).

Definition set_page_map (f : gmap Z page → gmap Z page) (s : mem) : mem :=
  Mem (f (page_map s)) (maxpfn s) (num_pages s) (nodes s) (arena_list s) (page_list s)
      (node_used_pages s) (total_pages s) (used_pages s) (nr_global_pages s)
      (kernel_break s) (kernel_break_limit s).
Definition set_num_pages (n : Z) (s : mem) : mem :=
  Mem (page_map s) (maxpfn s) n (nodes s) (arena_list s) (page_list s)
      (node_used_pages s) (total_pages s) (used_pages s) (nr_global_pages s)
      (kernel_break s) (kernel_break_limit s).
Definition set_free (n : gmap Z Z) (l : list Z) (s : mem) : mem :=
  Mem (page_map s) (maxpfn s) (num_pages s) n (arena_list s) l
      (node_used_pages s) (total_pages s) (used_pages s) (nr_global_pages s)
      (kernel_break s) (kernel_break_limit s).
Definition set_used (n g : Z) (s : mem) : mem :=
  Mem (page_map s) (maxpfn s) (num_pages s) (nodes s) (arena_list s) (page_list s)
      n (total_pages s) g (nr_global_pages s) (kernel_break s) (kernel_break_limit s).
Definition set_total (t g : Z) (s : mem) : mem :=
  Mem (page_map s) (maxpfn s) (num_pages s) (nodes s) (arena_list s) (page_list s)
      (node_used_pages s) t (used_pages s) g (kernel_break s) (kernel_break_limit s).
Definition set_arenas (l : list page_arena) (s : mem) : mem :=
  Mem (page_map s) (maxpfn s) (num_pages s) (nodes s) l (page_list s)
      (node_used_pages s) (total_pages s) (used_pages s) (nr_global_pages s)
      (kernel_break s) (kernel_break_limit s).
Definition set_break (b : Z) (s : mem) : mem :=
  Mem (page_map s) (maxpfn s) (num_pages s) (nodes s) (arena_list s) (page_list s)
      (node_used_pages s) (total_pages s) (used_pages s) (nr_global_pages s)
      b (kernel_break_limit s).

(** ** The page array *)

Definition page_at (i : Z) : PM page :=
  o ← gets (λ s, page_map s !! i); from_opt o OutOfBounds.
Definition upd_page (i : Z) (f : page → page) : PM unit :=
  p ← page_at i; modify (set_page_map (<[i := f p]>)).

Definition set_ref (r : Z) (p : page) : page :=
  Page r (flags p) (cache p) (next_allocation p) (priv p) (zeroed p).
Definition set_flags (f : Z) (p : page) : page :=
  Page (ref p) f (cache p) (next_allocation p) (priv p) (zeroed p).
Definition set_next (n : option Z) (p : page) : page :=
  Page (ref p) (flags p) (cache p) n (priv p) (zeroed p).
Definition set_zeroed (b : bool) (p : page) : page :=
  Page (ref p) (flags p) (cache p) (next_allocation p) (priv p) b.
Definition set_free_flag (p : page) : page := set_flags (Z.lor (flags p) PAGE_FLAG_FREE) p.
Definition clear_free_flag (p : page) : page :=
  set_flags (Z.land (flags p) (Z.lnot PAGE_FLAG_FREE)) p.
Definition is_free (p : page) : bool := has (flags p) PAGE_FLAG_FREE.

Definition phys_to_page (phys : Z) : PM Z :=
  let pfn := Z.shiftr phys PAGE_SHIFT in
  top ← gets maxpfn;
  check (pfn <=? top) AssertFailed;;
  mret (pfn - base_pfn).

Definition page_to_pfn (p : Z) : Z := p - base_pfn.
Definition pfn_to_paddr (pfn : Z) : Z := Z.shiftl pfn PAGE_SHIFT.
Definition page_to_phys (p : Z) : Z := pfn_to_paddr (page_to_pfn p).

(** [page_add_page]: the entry must lie inside the array of [maxpfn - base_pfn]. *)
Definition page_add_page (paddr : Z) : PM Z :=
  p ← phys_to_page paddr;
  top ← gets maxpfn;
  check ((0 <=? p) && (p <? top - base_pfn)) OutOfBounds;;
  modify (set_page_map (<[p := Page 0 0 0 None 0 false]>));;
  modify (λ s, set_num_pages (num_pages s + 1) s);;
  mret p.

(** [page_ref] and [__page_unref] return the new count. *)
Definition page_ref (p : Z) : PM Z :=
  pg ← page_at p;
  let r := u64 (ref pg + 1) in
  modify (set_page_map (<[p := set_ref r pg]>));; mret r.
Definition __page_unref (p : Z) : PM Z :=
  pg ← page_at p;
  let r := u64 (ref pg - 1) in
  modify (set_page_map (<[p := set_ref r pg]>));; mret r.

(** ** Adding memory *)

Definition ksbrk (inc : Z) : PM Z :=
  ret ← gets kernel_break;
  modify (set_break (u64 (ret + inc)));;
  new ← gets kernel_break; limit ← gets kernel_break_limit;
  check (new <=? limit) AssertFailed;;
  mret ret.

Definition page_add (paddr : Z) : PM unit :=
  modify (λ s, set_total (u64 (total_pages s + 1)) (u64 (nr_global_pages s + 1)) s);;
  p ← page_add_page paddr;
  upd_page p set_free_flag;;
  modify (λ s, set_free (<[paddr := p]> (nodes s)) (paddr :: page_list s) s).

(** The [for] loop over the pages of one arena, [n] of them. *)
Fixpoint page_add_loop (base : Z) (n : nat) : PM unit :=
  match n with
  | O => mret tt
  | S n => page_add base;; page_add_loop (base + PAGE_SIZE) n
  end.

Fixpoint add_region_loop (fuel : nat) (base size : Z) : PM unit :=
  if size =? 0 then mret tt
  else match fuel with
  | O => crash OutOfFuel
  | S fuel =>
      let area_size := Z.min size arena_default_size in
      ksbrk sizeof_page_arena;;
      page_add_loop base (Z.to_nat ((area_size + PAGE_SIZE - 1) / PAGE_SIZE));;
      modify (λ s, set_arenas (arena_list s ++ [Arena base (base + area_size)]) s);;
      add_region_loop fuel (base + area_size) (size - area_size)
  end.
Definition add_region (base size : Z) : PM unit :=
  add_region_loop (Z.to_nat size) base size.

(** ** Freeing *)

(** [page_node::free_page] *)
Definition node_free_page (p : Z) : PM unit :=
  pg ← page_at p;
  modify (set_page_map (<[p := Page 0 (Z.lor 0 PAGE_FLAG_FREE) 0 None (priv pg) false]>));;
  let a := page_to_phys p in
  modify (λ s, set_free (<[a := p]> (nodes s)) (a :: page_list s) s);;
  modify (λ s, set_used (u64 (node_used_pages s - 1)) (u64 (used_pages s - 1)) s).

Definition free_page (p : Z) : PM unit :=
  pg ← page_at p;
  check (truthy (ref pg)) AssertFailed;;
  r ← __page_unref p;
  if r =? 0 then upd_page p (set_next None);; node_free_page p else mret tt.

(** [free_pages] follows the chain of [next_allocation]; [fuel] bounds its length. *)
Fixpoint free_pages (fuel : nat) (p : Z) : PM unit :=
  match fuel with
  | O => crash OutOfFuel
  | S fuel =>
      pg ← page_at p;
      let next := next_allocation pg in
      free_page p;;
      match next with Some q => free_pages fuel q | None => mret tt end
  end.

(** [__reclaim_page] *)
Definition reclaim_page (p : Z) : PM unit :=
  modify (λ s, set_total (total_pages s) (u64 (nr_global_pages s + 1)) s);;
  upd_page p (set_ref 1);;
  free_page p.

(** ** Contiguous allocation *)

Definition page_should_zero (fl : Z) : bool := negb (has fl PAGE_ALLOC_NO_ZERO).

(** [list_remove] of the node that lives in page [p]. *)
Definition unlink_page (p : Z) : PM unit :=
  let a := page_to_phys p in
  l ← gets page_list;
  check (bool_decide (a ∈ l)) UseAfterFree;;
  modify (λ s, set_free (nodes s) (filter (λ b, b ≠ a) l) s).

(** The search loop: the run found, or nothing. *)
Fixpoint scan (fuel : nat) (nr_pgs fl current end_ contig : Z) (first : option Z)
    : PM (option Z) :=
  let finish contig first := mret (if contig =? nr_pgs then first else None) in
  if current =? end_ then finish contig first
  else match fuel with
  | O => crash OutOfFuel
  | S fuel =>
      p ← phys_to_page current;
      if has fl PAGE_ALLOC_4GB_LIMIT && (ADDRESS_4GB_MARK <=? current) then mret None
      else
        pg ← page_at p;
        if negb (is_free pg) then
          if 0 =? nr_pgs then finish 0 None
          else scan fuel nr_pgs fl (current + PAGE_SIZE) end_ 0 None
        else
          check (ref pg =? 0) AssertFailed;;
          let first := match first with None => Some p | f => f end in
          if contig + 1 =? nr_pgs then finish (contig + 1) first
          else scan fuel nr_pgs fl (current + PAGE_SIZE) end_ (contig + 1) first
  end.

(** The loop that takes the pages of the run. *)
Fixpoint take_run (p : Z) (n : nat) (before : option Z) : PM unit :=
  match n with
  | O => mret tt
  | S n =>
      unlink_page p;;
      upd_page p clear_free_flag;;
      page_ref p;;
      (if before is Some b then upd_page b (set_next (Some p)) else mret tt);;
      take_run (p + 1) n (Some p)
  end.

(** [set_non_temporal] over [n] pages. *)
Fixpoint zero_pages (p : Z) (n : nat) : PM unit :=
  match n with
  | O => mret tt
  | S n => upd_page p (set_zeroed true);; zero_pages (p + 1) n
  end.

(** [page_arena::alloc_contiguous].  [page_arena] has no member [used_pages], so both
    updates of the source go to the global counter. *)
Definition arena_alloc_contiguous (a : page_arena) (nr_pgs fl : Z) : PM (option Z) :=
  let start := start_arena a in
  let end_ := Z.land (end_arena a) (u64 (- (PAGE_SIZE - 1))) in
  r ← scan (Z.to_nat (end_ - start)) nr_pgs fl start end_ 0 None;
  match r with
  | None => mret None
  | Some first =>
      take_run first (Z.to_nat nr_pgs) None;;
      modify (λ s, set_used (node_used_pages s) (u64 (used_pages s + nr_pgs)) s);;
      modify (λ s, set_used (node_used_pages s) (u64 (used_pages s + nr_pgs)) s);;
      (if page_should_zero fl then zero_pages first (Z.to_nat nr_pgs) else mret tt);;
      mret (Some first)
  end.

Fixpoint contiguous_loop (arenas : list page_arena) (nr_pgs fl : Z) : PM (option Z) :=
  match arenas with
  | [] => mret None
  | a :: arenas =>
      if has fl PAGE_ALLOC_4GB_LIMIT && (ADDRESS_4GB_MARK <=? start_arena a) then mret None
      else
        r ← arena_alloc_contiguous a nr_pgs fl;
        match r with Some p => mret (Some p) | None => contiguous_loop arenas nr_pgs fl end
  end.
Definition alloc_contiguous (nr_pgs fl : Z) : PM (option Z) :=
  arenas ← gets arena_list; contiguous_loop arenas nr_pgs fl.

(** ** Allocation page by page *)

Definition alloc_page (fl : Z) : PM (option Z) :=
  if has fl PAGE_ALLOC_4GB_LIMIT then alloc_contiguous 1 fl
  else
    l ← gets page_list;
    match l with
    | [] =>
        used ← gets node_used_pages; total ← gets total_pages;
        check (used =? total) AssertFailed;; mret None
    | a :: l =>
        o ← gets (λ s, nodes s !! a);
        p ← from_opt o UseAfterFree;
        modify (λ s, set_free (nodes s) l s);;
        pg ← page_at p;
        check (is_free pg) AssertFailed;;
        upd_page p (set_ref 1);;
        upd_page p clear_free_flag;;
        modify (λ s, set_used (u64 (node_used_pages s + 1)) (u64 (used_pages s + 1)) s);;
        mret (Some p)
    end.

(** The loop of [allocate_pages], [n] pages to go; [count] pages are on the list from
    [plist] to [ptail]. *)
Fixpoint allocate_loop (n : nat) (fl : Z) (count : nat) (chain : option (Z * Z))
    : PM (option Z) :=
  match n with
  | O => mret (fst <$> chain)
  | S n =>
      r ← alloc_page fl;
      match r with
      | None =>
          match chain with
          | Some (plist, _) => free_pages count plist
          | None => mret tt
          end;; mret None
      | Some p =>
          (if page_should_zero fl then upd_page p (set_zeroed true) else mret tt);;
          match chain with
          | None => allocate_loop n fl (S count) (Some (p, p))
          | Some (plist, ptail) =>
              upd_page ptail (set_next (Some p));;
              allocate_loop n fl (S count) (Some (plist, p))
          end
      end
  end.
Definition allocate_pages (nr_pgs fl : Z) : PM (option Z) :=
  allocate_loop (Z.to_nat nr_pgs) fl 0 None.

Definition alloc_pages (nr_pgs fl : Z) : PM (option Z) :=
  if has fl PAGE_ALLOC_CONTIGUOUS && (1 <? nr_pgs) then alloc_contiguous nr_pgs fl
  else allocate_pages nr_pgs fl.

(** Memory before any region has been added. *)
Definition empty_mem (top break limit : Z) : mem :=
  Mem ∅ top 0 ∅ [] [] 0 0 0 0 break limit.
