(* ===== verification/PageFacts.v ===== *)
(** * PageFacts: the representation invariant of the page allocator and its lemmas

    [rep s ps] says that the free list of [s] is the list of pages [ps], that those are
    exactly the pages marked free, and that free pages are unreferenced while the others
    are referenced.  [counted] is the accounting the allocator asserts.  The lemmas give
    the total-correctness specification of every operation that works page by page. *)

From S2P Require Import Prelude Bits Abi PageAlloc.

Lemma page_to_phys_eq p : page_to_phys p = p * 4096.
Proof.
  unfold page_to_phys, pfn_to_paddr, page_to_pfn, base_pfn, PAGE_SHIFT.
  rewrite Z.shiftl_mul_pow2 by lia. lia.
Qed.

#[export] Instance page_to_phys_inj : Inj (=) (=) page_to_phys.
Proof. intros p q. rewrite !page_to_phys_eq. lia. Qed.

Lemma phys_to_pfn p : Z.shiftr (page_to_phys p) PAGE_SHIFT = p.
Proof.
  rewrite page_to_phys_eq, Z.shiftr_div_pow2 by (unfold PAGE_SHIFT; lia).
  unfold PAGE_SHIFT. by rewrite Z.div_mul.
Qed.

(** ** Invariant *)

Record rep (s : mem) (ps : list Z) : Prop := {
  rep_list : page_list s = page_to_phys <$> ps;
  rep_nodup : NoDup ps;
  rep_nodes : ∀ p, p ∈ ps → nodes s !! page_to_phys p = Some p;
  rep_in : ∀ p, p ∈ ps → is_Some (page_map s !! p);
  rep_free : ∀ p pg, page_map s !! p = Some pg → is_free pg = true ↔ p ∈ ps;
  rep_state : ∀ p pg, page_map s !! p = Some pg →
    if is_free pg then ref pg = 0 ∧ next_allocation pg = None else 0 < ref pg < 2 ^ 64;
  rep_range : ∀ p, is_Some (page_map s !! p) → 0 <= p < maxpfn s
}.

Record counted (s : mem) (ps : list Z) : Prop := {
  cnt_used : node_used_pages s + Z.of_nat (length ps) = total_pages s;
  cnt_size : Z.of_nat (size (page_map s)) = total_pages s;
  cnt_range : 0 <= total_pages s < 2 ^ 64
}.

(** What allocation and freeing leave alone. *)
Definition same_layout (s s' : mem) : Prop :=
  maxpfn s' = maxpfn s ∧ arena_list s' = arena_list s ∧ total_pages s' = total_pages s ∧
  dom (page_map s') = dom (page_map s).

#[export] Instance same_layout_refl : Reflexive same_layout.
Proof. done. Qed.
#[export] Instance same_layout_trans : Transitive same_layout.
Proof. intros ??? (?&?&?&?) (?&?&?&?). split_and!; congruence. Qed.

(** Pages outside [l] are the same in both states. *)
Definition same_pages (l : list Z) (s s' : mem) : Prop :=
  ∀ q, q ∉ l → page_map s' !! q = page_map s !! q.

Lemma same_pages_trans l l' l'' s1 s2 s3 :
  same_pages l s1 s2 → same_pages l' s2 s3 → (∀ q, q ∈ l ∨ q ∈ l' → q ∈ l'') →
  same_pages l'' s1 s3.
Proof. intros H1 H2 Hs q Hq. rewrite H2, H1; naive_solver. Qed.

Lemma size_same_dom {A B} (m : gmap Z A) (m' : gmap Z B) : dom m' = dom m → size m' = size m.
Proof. intros H. by rewrite <- !size_dom, H. Qed.

Lemma length_le_size {A} (l : list Z) (m : gmap Z A) :
  NoDup l → (∀ p, p ∈ l → is_Some (m !! p)) → (length l <= size m)%nat.
Proof.
  intros Hnd Hin. rewrite <- size_dom.
  rewrite <- (size_list_to_set (C := gset Z) l) by done. apply subseteq_size.
  intros p. rewrite elem_of_list_to_set, elem_of_dom. auto.
Qed.

(** ** Chains of pages *)

(** The pages [l], linked in this order through [next_allocation], each allocated with
    one reference, and zeroed if [z]. *)
Fixpoint chain (z : bool) (s : mem) (l : list Z) : Prop :=
  match l with
  | [] => True
  | p :: l' =>
      (∃ pg, page_map s !! p = Some pg ∧ is_free pg = false ∧ ref pg = 1 ∧
             next_allocation pg = head l' ∧ (z = true → zeroed pg = true)) ∧
      chain z s l'
  end.

Lemma chain_same z s s' l :
  (∀ p, p ∈ l → page_map s' !! p = page_map s !! p) → chain z s l → chain z s' l.
Proof.
  induction l as [|p l IH]; intros Hs; [done|]. simpl. intros [H ?]. split.
  - rewrite Hs by set_solver. done.
  - apply IH; [set_solver|done].
Qed.

(** Linking a fresh page behind the last one. *)
Lemma chain_snoc z s s' l t pt p :
  chain z s (l ++ [t]) → NoDup (l ++ [t]) → p ∉ l ++ [t] →
  page_map s !! t = Some pt →
  page_map s' = <[t := set_next (Some p) pt]> (page_map s) →
  (∃ pg, page_map s !! p = Some pg ∧ is_free pg = false ∧ ref pg = 1 ∧
         next_allocation pg = None ∧ (z = true → zeroed pg = true)) →
  chain z s' (l ++ [t; p]).
Proof.
  intros Hc Hnd Hp Ht Hs' Hnew. induction l as [|q l IH]; simpl in *.
  - destruct Hc as [(pg & E & ? & ? & ? & ?) _]. rewrite Ht in E. injection E as <-.
    assert (t ≠ p) by set_solver. split_and!; [|by rewrite Hs', lookup_insert_ne|done].
    exists (set_next (Some p) pt). by rewrite Hs', lookup_insert_eq.
  - inversion Hnd as [|? ? Hq Hnd']; subst. destruct Hc as [Hq' Hc]. split.
    + rewrite Hs', lookup_insert_ne by set_solver. by destruct l.
    + apply IH; [done..|set_solver].
Qed.

(** ** Changing one page *)

Lemma is_free_clear p : is_free (clear_free_flag p) = false.
Proof.
  unfold is_free, has, clear_free_flag, PAGE_FLAG_FREE. simpl.
  rewrite <- Z.land_assoc. change (Z.land (Z.lnot 8) 8) with 0. by rewrite Z.land_0_r.
Qed.

Definition page_ok (pg : page) : Prop :=
  if is_free pg then ref pg = 0 ∧ next_allocation pg = None else 0 < ref pg < 2 ^ 64.

Lemma rep_change s ps s' ps' p pg' :
  rep s ps → is_Some (page_map s !! p) →
  page_map s' = <[p := pg']> (page_map s) → maxpfn s' = maxpfn s →
  page_list s' = page_to_phys <$> ps' → NoDup ps' →
  (∀ q, q ∈ ps' → nodes s' !! page_to_phys q = Some q) →
  (∀ q, q ≠ p → q ∈ ps' ↔ q ∈ ps) →
  (is_free pg' = true ↔ p ∈ ps') → page_ok pg' → rep s' ps'.
Proof.
  intros Hr Hp Hm Hx Hl Hnd Hn Hq Hf Hok.
  assert (∀ q, is_Some (page_map s' !! q) ↔ is_Some (page_map s !! q)) as Hdom.
  { intros q. rewrite Hm. destruct (decide (p = q)) as [->|];
      [rewrite lookup_insert_eq|rewrite lookup_insert_ne by done]; naive_solver. }
  split; [done..| | | |].
  - intros q Hin. apply Hdom. destruct (decide (q = p)) as [->|]; [done|].
    apply (rep_in _ _ Hr), Hq; done.
  - intros q pg. rewrite Hm. destruct (decide (p = q)) as [->|].
    + rewrite lookup_insert_eq. by intros [= <-].
    + rewrite lookup_insert_ne by done. intros H. rewrite (rep_free _ _ Hr _ _ H), Hq; done.
  - intros q pg. rewrite Hm. destruct (decide (p = q)) as [->|].
    + rewrite lookup_insert_eq. by intros [= <-].
    + rewrite lookup_insert_ne by done. apply (rep_state _ _ Hr).
  - intros q Hs%Hdom. rewrite Hx. by apply (rep_range _ _ Hr).
Qed.

(** Changing a page that stays allocated. *)
Lemma rep_live s ps s' p pg pg' :
  rep s ps → page_map s !! p = Some pg → is_free pg = false →
  is_free pg' = false → page_ok pg' →
  page_map s' = <[p := pg']> (page_map s) → maxpfn s' = maxpfn s →
  page_list s' = page_list s → nodes s' = nodes s → rep s' ps.
Proof.
  intros Hr Hp Hf Hf' Hok Hm Hx Hl Hn. pose proof (rep_free _ _ Hr _ _ Hp) as Hin.
  eapply (rep_change s ps s' ps p pg'); try done.
  - by rewrite Hl, (rep_list _ _ Hr).
  - apply (rep_nodup _ _ Hr).
  - rewrite Hn. apply (rep_nodes _ _ Hr).
  - rewrite Hf', <- Hin, Hf. done.
Qed.

Lemma dom_insert_same (m : gmap Z page) p pg :
  is_Some (m !! p) → dom (<[p := pg]> m) = dom m.
Proof. intros H%elem_of_dom. rewrite dom_insert_L. set_solver. Qed.

Lemma counted_same s ps s' ps' :
  counted s ps → same_layout s s' →
  node_used_pages s' + Z.of_nat (length ps') = node_used_pages s + Z.of_nat (length ps) →
  counted s' ps'.
Proof.
  intros [] (_ & _ & Ht & Hd) Hu. split; rewrite Ht; try done; [lia|].
  by rewrite (size_same_dom _ _ Hd).
Qed.

(** ** Operations *)

Lemma wp_page_at i pg (Q : page → mem → Prop) s :
  page_map s !! i = Some pg → Q pg s → wp (page_at i) Q s.
Proof. intros Hi HQ. unfold page_at. wp_step. wp_step. by eapply wp_from_opt. Qed.

Lemma wp_upd_page i pg f (Q : unit → mem → Prop) s :
  page_map s !! i = Some pg → Q tt (set_page_map <[i := f pg]> s) → wp (upd_page i f) Q s.
Proof.
  intros Hi HQ. unfold upd_page. wp_step. eapply wp_page_at; [done|]. by wp_step.
Qed.

(** The state after [alloc_page] has taken page [p] off the list, [l] remaining. *)
Definition taken (p : Z) (pg : page) (l : list Z) (s : mem) : mem :=
  set_used (u64 (node_used_pages s + 1)) (u64 (used_pages s + 1))
    (set_page_map <[p := clear_free_flag (set_ref 1 pg)]>
      (set_page_map <[p := set_ref 1 pg]> (set_free (nodes s) l s))).

Lemma wp_alloc_page_cons fl p ps s :
  rep s (p :: ps) → has fl PAGE_ALLOC_4GB_LIMIT = false →
  wp (alloc_page fl) (λ r s',
    r = Some p ∧ rep s' ps ∧ same_layout s s' ∧ same_pages [p] s s' ∧
    used_pages s' = u64 (used_pages s + 1) ∧
    node_used_pages s' = u64 (node_used_pages s + 1) ∧
    ∃ pg, page_map s' !! p = Some pg ∧ is_free pg = false ∧ ref pg = 1 ∧
          next_allocation pg = None) s.
Proof.
  intros Hr Hfl. unfold alloc_page. rewrite Hfl. wp_step. wp_step.
  rewrite (rep_list _ _ Hr). simpl.
  destruct (rep_in _ _ Hr p) as [pg Hpg]; [set_solver|].
  assert (is_free pg = true) as Hf by (apply (rep_free _ _ Hr _ _ Hpg); set_solver).
  pose proof (rep_state _ _ Hr _ _ Hpg) as Hst. rewrite Hf in Hst. destruct Hst as [Href Hnx].
  pose proof (rep_nodup _ _ Hr) as Hnd. inversion Hnd as [|? ? Hni Hnd']; subst.
  wp_step. wp_step. wp_step. eapply wp_from_opt; [apply (rep_nodes _ _ Hr); set_solver|].
  wp_step. wp_step. wp_step. eapply wp_page_at; [done|]. wp_step. wp_step; [done|].
  wp_step. eapply wp_upd_page; [done|].
  wp_step. eapply wp_upd_page; [apply lookup_insert_eq|]. wp_step. wp_step. wp_step.
  change (set_used _ _ _) with (taken p pg (page_to_phys <$> ps) s).
  set (s' := taken p pg (page_to_phys <$> ps) s).
  assert (page_map s' = <[p := clear_free_flag (set_ref 1 pg)]> (page_map s)) as Hm
    by apply insert_insert_eq.
  assert (same_layout s s') as Hlay.
  { split_and!; [done..|]. rewrite Hm. by apply dom_insert_same. }
  split; [done|]. split; [|split; [done|split; [|split; [done|split; [done|]]]]].
  - eapply (rep_change s (p :: ps) s' ps p); try done.
    + intros q Hq. apply (rep_nodes _ _ Hr). set_solver.
    + set_solver.
    + by rewrite is_free_clear.
    + unfold page_ok. rewrite is_free_clear. done.
  - intros q Hq. rewrite Hm, lookup_insert_ne by set_solver. done.
  - exists (clear_free_flag (set_ref 1 pg)). rewrite Hm, lookup_insert_eq.
    by rewrite is_free_clear.
Qed.

Lemma wp_alloc_page fl ps s :
  rep s ps → counted s ps → has fl PAGE_ALLOC_4GB_LIMIT = false →
  wp (alloc_page fl) (λ r s',
    match ps with
    | [] => r = None ∧ s' = s
    | p :: ps' =>
        r = Some p ∧ rep s' ps' ∧ counted s' ps' ∧ same_layout s s' ∧ same_pages [p] s s' ∧
        used_pages s' = u64 (used_pages s + 1) ∧
        ∃ pg, page_map s' !! p = Some pg ∧ is_free pg = false ∧ ref pg = 1 ∧
              next_allocation pg = None
    end) s.
Proof.
  intros Hr Hc Hfl. destruct ps as [|p ps].
  - unfold alloc_page. rewrite Hfl. wp_step. wp_step. rewrite (rep_list _ _ Hr). simpl.
    wp_steps; [|done]. apply Z.eqb_eq. destruct Hc as [H _ _]. simpl in H. lia.
  - eapply wp_mono; [by apply (wp_alloc_page_cons fl p ps s)|].
    cbn beta. intros r s' (-> & Hr' & Hlay & Hs & Hu & Hn & Hpg).
    split_and!; try done; try apply Hlay. eapply counted_same; [done..|].
    pose proof (cnt_used _ _ Hc) as Hcu. pose proof (cnt_range _ _ Hc).
    pose proof (cnt_size _ _ Hc). simpl in *.
    pose proof (length_le_size (p :: ps) (page_map s) (rep_nodup _ _ Hr) (rep_in _ _ Hr)) as Hsz.
    simpl in Hsz. rewrite Hn, u64_small; lia.
Qed.

(** The page record [free_page] leaves behind. *)
Definition freed (pg : page) : page := Page 0 PAGE_FLAG_FREE 0 None (priv pg) false.

Lemma rep_put s ps s' p pg :
  rep s ps → page_map s !! p = Some pg → is_free pg = false →
  page_map s' = <[p := freed pg]> (page_map s) → maxpfn s' = maxpfn s →
  page_list s' = page_to_phys p :: page_list s →
  nodes s' = <[page_to_phys p := p]> (nodes s) → rep s' (p :: ps).
Proof.
  intros Hr Hp Hf Hm Hx Hl Hn. pose proof (rep_free _ _ Hr _ _ Hp) as Hin.
  assert (p ∉ ps) by (rewrite <- Hin; congruence).
  eapply (rep_change s ps s' (p :: ps) p); try done.
  - by rewrite Hl, (rep_list _ _ Hr).
  - constructor; [done|]. apply (rep_nodup _ _ Hr).
  - intros q Hq. rewrite Hn. destruct (decide (q = p)) as [->|].
    + by rewrite lookup_insert_eq.
    + rewrite lookup_insert_ne by (intros ?%(inj page_to_phys); congruence).
      apply (rep_nodes _ _ Hr). set_solver.
  - set_solver.
  - split; [set_solver|done].
Qed.

Lemma wp_node_free_page p pg (Q : unit → mem → Prop) s :
  page_map s !! p = Some pg →
  Q tt (set_used (u64 (node_used_pages s - 1)) (u64 (used_pages s - 1))
         (set_free (<[page_to_phys p := p]> (nodes s)) (page_to_phys p :: page_list s)
           (set_page_map <[p := freed pg]> s))) →
  wp (node_free_page p) Q s.
Proof.
  intros Hp HQ. unfold node_free_page. wp_step. eapply wp_page_at; [done|].
  wp_steps. exact HQ.
Qed.

(** Dropping the last reference puts the page back on the list; otherwise only the
    count changes. *)
Lemma wp_free_page p pg ps s :
  rep s ps → page_map s !! p = Some pg → is_free pg = false →
  wp (free_page p) (λ _ s',
    same_layout s s' ∧ same_pages [p] s s' ∧
    if ref pg =? 1
    then rep s' (p :: ps) ∧ node_used_pages s' = u64 (node_used_pages s - 1) ∧
         used_pages s' = u64 (used_pages s - 1)
    else rep s' ps ∧ node_used_pages s' = node_used_pages s ∧
         used_pages s' = used_pages s ∧
         page_map s' !! p = Some (set_ref (ref pg - 1) pg)) s.
Proof.
  intros Hr Hp Hf. pose proof (rep_state _ _ Hr _ _ Hp) as Hst. rewrite Hf in Hst.
  unfold free_page. wp_step. eapply wp_page_at; [done|].
  wp_step. wp_step. { unfold truthy. apply negb_true_iff, Z.eqb_neq. lia. }
  wp_step. unfold __page_unref. wp_step. eapply wp_page_at; [done|]. wp_steps;
    rewrite u64_small in * by lia.
  - rename H into E. apply Z.eqb_eq in E.
    eapply wp_upd_page; [apply lookup_insert_eq|].
    eapply wp_node_free_page; [apply lookup_insert_eq|].
    set (s' := set_used _ _ _).
    assert (page_map s' = <[p := freed pg]> (page_map s)) as Hm.
    { unfold s'. simpl. rewrite !insert_insert_eq. done. }
    rewrite (proj2 (Z.eqb_eq (ref pg) 1)) by lia.
    split; [|split; [|split; [by eapply rep_put|done]]].
    + split_and!; [done..|]. rewrite Hm. by apply dom_insert_same.
    + intros q Hq. rewrite Hm, lookup_insert_ne by set_solver. done.
  - rename H into E. apply Z.eqb_neq in E. set (s' := set_page_map _ _).
    rewrite (proj2 (Z.eqb_neq (ref pg) 1)) by lia.
    split; [|split; [|split; [|split_and!; [done..|apply lookup_insert_eq]]]].
    + split_and!; [done..|]. by apply dom_insert_same.
    + intros q Hq. unfold s'. simpl. rewrite lookup_insert_ne by set_solver. done.
    + eapply (rep_live s ps s' p pg (set_ref (ref pg - 1) pg)); try done.
      unfold page_ok. change (is_free (set_ref (ref pg - 1) pg)) with (is_free pg).
      rewrite Hf. simpl. lia.
Qed.

Lemma chain_in z s l p :
  chain z s l → p ∈ l →
  ∃ pg, page_map s !! p = Some pg ∧ is_free pg = false ∧ ref pg = 1 ∧
        (z = true → zeroed pg = true).
Proof.
  induction l as [|q l IH]; intros Hc Hp; [set_solver|]. destruct Hc as [Hq Hc].
  apply elem_of_cons in Hp as [->|Hp]; [naive_solver|auto].
Qed.

(** Freeing a chain returns its pages to the list, the last one first. *)
Lemma wp_free_pages z fuel l p ps s :
  rep s ps → counted s ps → NoDup (p :: l) → chain z s (p :: l) → (length l < fuel)%nat →
  wp (free_pages fuel p) (λ _ s',
    let ps' := rev (p :: l) ++ ps in
    rep s' ps' ∧ counted s' ps' ∧ same_layout s s' ∧ same_pages (p :: l) s s') s.
Proof.
  revert p l ps s. induction fuel as [|fuel IH]; intros p l ps s Hr Hc Hnd Hch Hlen; [lia|].
  pose proof Hch as [(pg & Hp & Hf & Href & Hnx & _) Hl].
  inversion Hnd as [|? ? Hni Hnd']; subst.
  cbn [free_pages]. wp_step. eapply wp_page_at; [done|]. wp_step.
  eapply wp_mono; [by apply (wp_free_page p pg ps)|]. cbn beta.
  intros [] s1 (Hlay & Hsame & Hpost). rewrite Href in Hpost. simpl in Hpost.
  destruct Hpost as (Hr1 & Hu1 & _).
  assert (counted s1 (p :: ps)) as Hc1.
  { eapply counted_same; [done..|]. rewrite Hu1, u64_small; [simpl; lia|].
    pose proof (cnt_used _ _ Hc) as Hu. pose proof (cnt_size _ _ Hc).
    pose proof (cnt_range _ _ Hc).
    assert (length (p :: ps) <= size (page_map s))%nat; [|simpl in *; lia].
    apply length_le_size.
    - constructor; [rewrite <- (rep_free _ _ Hr _ _ Hp); congruence|apply (rep_nodup _ _ Hr)].
    - intros q [->|Hq]%elem_of_cons; [done|]. by apply (rep_in _ _ Hr). }
  rewrite Hnx. destruct l as [|q l]; simpl.
  - wp_step. by split_and!.
  - assert (chain z s1 (q :: l)) as Hch1.
    { apply (chain_same z s s1); [|done]. intros r Hr'. apply Hsame. set_solver. }
    eapply wp_mono; [by apply (IH q l (p :: ps) s1); simpl in *; [..|lia]|].
    cbn beta zeta. intros [] s2 (Hr2 & Hc2 & Hlay2 & Hsame2). simpl in *. rewrite <- !app_assoc in *. simpl in *. split_and!; try done.
    + by etrans.
    + eapply same_pages_trans; [exact Hsame|exact Hsame2|]. set_solver.
Qed.

(** Changing the link or the contents of an allocated page. *)
Lemma wp_upd_live p pg f ps s :
  rep s ps → page_map s !! p = Some pg → is_free pg = false →
  flags (f pg) = flags pg → ref (f pg) = ref pg →
  wp (upd_page p f) (λ _ s',
    rep s' ps ∧ same_layout s s' ∧ used_pages s' = used_pages s ∧
    node_used_pages s' = node_used_pages s ∧ page_map s' = <[p := f pg]> (page_map s)) s.
Proof.
  intros Hr Hp Hf Hfl Href. eapply wp_upd_page; [done|].
  pose proof (rep_state _ _ Hr _ _ Hp) as Hst. rewrite Hf in Hst.
  assert (is_free (f pg) = false) as Hf' by (unfold is_free in *; congruence).
  assert (same_layout s (set_page_map <[p := f pg]> s)) as Hlay.
  { split_and!; [done..|]. by apply dom_insert_same. }
  split_and!; try done.
  eapply (rep_live s ps _ p pg (f pg)); try done. unfold page_ok. by rewrite Hf', Href.
Qed.

Lemma same_pages_insert p pg s s' :
  page_map s' = <[p := pg]> (page_map s) → same_pages [p] s s'.
Proof. intros Hm q Hq. rewrite Hm, lookup_insert_ne by set_solver. done. Qed.

(** First and last page of a chain, as [allocate_pages] keeps them. *)
Definition ends (got : list Z) : option (Z * Z) :=
  match got with [] => None | p :: _ => Some (p, List.last got p) end.

Lemma ends_snoc l t : ends (l ++ [t]) = Some (default t (head l), t).
Proof. destruct l as [|p l]; [done|]. unfold ends. cbn [app head default]. do 2 f_equal. exact (List.last_last (p :: l) t p). Qed.

(** Appending a fresh page to the chain. *)
Lemma wp_link {A} z got p ps s (k : option (Z * Z) → PM A) Q :
  rep s ps → chain z s got → NoDup (got ++ [p]) →
  (∃ pg, page_map s !! p = Some pg ∧ is_free pg = false ∧ ref pg = 1 ∧
         next_allocation pg = None ∧ (z = true → zeroed pg = true)) →
  (∀ s', rep s' ps → chain z s' (got ++ [p]) → same_layout s s' → same_pages got s s' →
     used_pages s' = used_pages s → node_used_pages s' = node_used_pages s →
     wp (k (ends (got ++ [p]))) Q s') →
  wp (match ends got with
      | None => k (Some (p, p))
      | Some (plist, ptail) => upd_page ptail (set_next (Some p));; k (Some (plist, p))
      end) Q s.
Proof.
  intros Hr Hch Hnd Hnew Hk.
  destruct (decide (got = [])) as [->|Hne].
  { simpl in *. by apply Hk. }
  destruct (exists_last Hne) as (l & t & ->). rewrite ends_snoc.
  apply list.NoDup_app in Hnd as (Hnd & Hdis & _).
  destruct (chain_in z s _ t Hch) as (pt & Ht & Hft & _); [set_solver|].
  wp_step. eapply wp_mono; [by apply (wp_upd_live t pt _ ps s)|].
  cbn beta. intros [] s' (Hr' & Hlay & Hu & Hn & Hm).
  assert (Some (default t (head l), p) = ends ((l ++ [t]) ++ [p])) as ->.
  { rewrite ends_snoc. by destruct l. }
  apply Hk; try done.
  - rewrite <- app_assoc. eapply chain_snoc; try done. intros Hp. by apply (Hdis p); set_solver.
  - intros q Hq. apply (same_pages_insert _ _ _ _ Hm). set_solver.
Qed.

Definition allocated_post (fl : Z) (n : nat) (got ps : list Z) (s : mem)
    (r : option Z) (s' : mem) : Prop :=
  same_layout s s' ∧
  if bool_decide (n <= length ps)%nat
  then let l := got ++ take n ps in
       r = head l ∧ rep s' (drop n ps) ∧ counted s' (drop n ps) ∧
       chain (page_should_zero fl) s' l ∧ same_pages l s s' ∧
       u64 (used_pages s') = u64 (used_pages s + Z.of_nat n)
  else r = None ∧ rep s' (rev (got ++ ps)) ∧ counted s' (rev (got ++ ps)) ∧
       same_pages (got ++ ps) s s'.

Lemma u64_add x y : u64 (u64 x + y) = u64 (x + y).
Proof. unfold u64. by rewrite Zplus_mod_idemp_l. Qed.

(** One more page: from the rest of the loop to the whole of it. *)
Lemma allocated_post_step fl n got ps p s s1 r s' :
  same_layout s s1 → same_pages (got ++ [p]) s s1 →
  used_pages s1 = u64 (used_pages s + 1) →
  allocated_post fl n (got ++ [p]) ps s1 r s' →
  allocated_post fl (S n) got (p :: ps) s r s'.
Proof.
  intros Hlay Hs Hu [Hlay' Hpost]. split; [by etrans|].
  rewrite (bool_decide_ext (S n <= length (p :: ps))%nat (n <= length ps)%nat)
    by (simpl; lia).
  case_bool_decide; cbn [take drop]; rewrite <- app_assoc in Hpost; simpl in Hpost.
  - destruct Hpost as (Hr & Hrep & Hc & Hch & Hsp & Hus). split_and!; try done.
    + eapply same_pages_trans; [exact Hs|exact Hsp|]. set_solver.
    + rewrite Hus, Hu, u64_add. f_equal. lia.
  - destruct Hpost as (Hr & Hrep & Hc & Hsp). split_and!; try done.
    eapply same_pages_trans; [exact Hs|exact Hsp|]. set_solver.
Qed.

(** The part of an iteration behind the zeroing: linking the new page and looping. *)
Lemma allocate_continue fl n got p ps s s1 s2 pg2 :
  (∀ s3, rep s3 ps → counted s3 ps →
     chain (page_should_zero fl) s3 (got ++ [p]) →
     wp (allocate_loop n fl (length (got ++ [p])) (ends (got ++ [p])))
        (allocated_post fl n (got ++ [p]) ps s3) s3) →
  NoDup (got ++ [p]) → chain (page_should_zero fl) s got →
  same_layout s s1 → same_pages [p] s s1 → used_pages s1 = u64 (used_pages s + 1) →
  rep s2 ps → counted s2 ps → same_layout s1 s2 → same_pages [p] s1 s2 →
  used_pages s2 = used_pages s1 → page_map s2 !! p = Some pg2 → is_free pg2 = false →
  ref pg2 = 1 → next_allocation pg2 = None →
  (page_should_zero fl = true → zeroed pg2 = true) →
  wp (match ends got with
      | Some (plist, ptail) =>
          upd_page ptail (set_next (Some p));;
          allocate_loop n fl (S (length got)) (Some (plist, p))
      | None => allocate_loop n fl (S (length got)) (Some (p, p))
      end) (allocated_post fl (S n) got (p :: ps) s) s2.
Proof.
  intros Hnext Hnd Hch Hlay1 Hs1 Hu1 Hr2 Hc2 Hlay2 Hs2 Hu2 Hp2 Hf2 Href2 Hnx2 Hz2.
  pose proof Hnd as (_ & Hdis & _)%list.NoDup_app.
  assert (chain (page_should_zero fl) s2 got) as Hch2.
  { eapply chain_same; [|exact Hch]. intros q Hq. assert (q ≠ p) by set_solver.
    rewrite Hs2, Hs1 by set_solver. done. }
  apply (wp_link (page_should_zero fl) got p ps s2 (allocate_loop n fl (S (length got))));
    [done..|by exists pg2|].
  intros s3 Hr3 Hch3 Hlay3 Hs3 Hu3 Hn3.
  assert (counted s3 ps) as Hc3 by (eapply counted_same; [done..|by rewrite Hn3]).
  replace (S (length got)) with (length (got ++ [p])) by (rewrite length_app; simpl; lia).
  eapply wp_mono; [by apply (Hnext s3)|].
  intros r s4. apply (allocated_post_step fl n got ps p s s3 r s4).
  - by do 2 etrans.
  - intros q Hq. rewrite (Hs3 q), (Hs2 q), (Hs1 q) by set_solver. done.
  - by rewrite Hu3, Hu2, Hu1.
Qed.

Lemma wp_allocate_loop n fl got ps s :
  rep s ps → counted s ps → has fl PAGE_ALLOC_4GB_LIMIT = false →
  chain (page_should_zero fl) s got → NoDup got →
  wp (allocate_loop n fl (length got) (ends got)) (allocated_post fl n got ps s) s.
Proof.
  revert got ps s. induction n as [|n IH]; intros got ps s Hr Hc Hfl Hch Hnd.
  { simpl. wp_step. split; [done|]. rewrite bool_decide_true by lia. rewrite drop_0, app_nil_r.
    split_and!; try done; [by destruct got|]. by rewrite Z.add_0_r. }
  cbn [allocate_loop]. wp_step. eapply wp_mono; [by apply (wp_alloc_page fl ps s)|].
  cbn beta. destruct ps as [|p ps].
  { intros r s1 [-> ->]. unfold allocated_post. rewrite app_nil_r.
    destruct got as [|g got]; cbn [ends].
    - wp_steps. split; [done|]. rewrite bool_decide_false by (simpl; lia). by split_and!.
    - wp_step. eapply wp_mono;
        [apply (wp_free_pages (page_should_zero fl) (length (g :: got)) got g [] s); try done; simpl; lia|].
      cbn beta zeta. rewrite app_nil_r. intros [] s1 (? & ? & ? & ?). wp_step.
      split; [done|]. rewrite bool_decide_false, !app_nil_r by (simpl; lia). by split_and!. }
  intros r s1 (-> & Hr1 & Hc1 & Hlay1 & Hs1 & Hu1 & pg & Hp & Hf & Href & Hnx).
  cbn beta iota.
  assert (p ∉ got) as Hpg.
  { intros Hin. destruct (chain_in _ _ _ _ Hch Hin) as (pg0 & Hpg0 & Hf0 & _).
    pose proof (proj2 (rep_free _ _ Hr _ _ Hpg0)) as H. rewrite Hf0 in H.
    discriminate H. set_solver. }
  assert (NoDup (got ++ [p])) as Hnd1.
  { apply list.NoDup_app. split_and!; [done|set_solver|apply NoDup_singleton]. }
  assert (∀ s3, rep s3 ps → counted s3 ps →
    chain (page_should_zero fl) s3 (got ++ [p]) →
    wp (allocate_loop n fl (length (got ++ [p])) (ends (got ++ [p])))
       (allocated_post fl n (got ++ [p]) ps s3) s3) as Hnext by auto.
  wp_step. destruct (page_should_zero fl) eqn:Hz.
  - eapply wp_mono; [by apply (wp_upd_live p pg _ ps s1)|].
    cbn beta. intros [] s2 (Hr2 & Hlay2 & Hu2 & Hn2 & Hm2).
    assert (counted s2 ps) as Hc2 by (eapply counted_same; [done..|by rewrite Hn2]).
    apply (allocate_continue fl n got p ps s s1 s2 (set_zeroed true pg)); rewrite ?Hz; try done.
    + by apply (same_pages_insert _ _ _ _ Hm2).
    + by rewrite Hm2, lookup_insert_eq.
  - wp_step. apply (allocate_continue fl n got p ps s s1 s1 pg); rewrite ?Hz; done.
Qed.
