(* ===== verification/PageRuns.v ===== *)
(** * PageRuns: contiguous allocation

    The search for a run of free pages inside an arena is shown to return a run exactly
    when there is one below the limit, and taking the run is shown to remove exactly
    those pages from the free list. *)

From S2P Require Import Prelude Bits Abi PageAlloc PageFacts.

(** The [n] pages from [p] on. *)
Fixpoint run (p : Z) (n : nat) : list Z :=
  match n with O => [] | S n => p :: run (p + 1) n end.

Lemma elem_of_run q p n : q ∈ run p n ↔ p <= q < p + Z.of_nat n.
Proof.
  revert p. induction n as [|n IH]; intros p; cbn [run]; [rewrite elem_of_nil; lia|].
  rewrite elem_of_cons, IH. lia.
Qed.

Lemma NoDup_run p n : NoDup (run p n).
Proof.
  revert p. induction n as [|n IH]; intros p; constructor; [|apply IH].
  rewrite elem_of_run. lia.
Qed.

Lemma run_snoc p n : run p (S n) = run p n ++ [p + Z.of_nat n].
Proof.
  revert p. induction n as [|n IH]; intros p; [simpl; by rewrite Z.add_0_r|].
  change (run p (S (S n))) with (p :: run (p + 1) (S n)). rewrite IH. simpl.
  do 3 f_equal. lia.
Qed.

Lemma length_run p n : length (run p n) = n.
Proof. revert p. induction n; intros; simpl; auto. Qed.

(** ** Arenas *)

Definition arena_first (a : page_arena) : Z := start_arena a / PAGE_SIZE.
Definition arena_end (a : page_arena) : Z := end_arena a / PAGE_SIZE.

(** An arena covers whole pages, all of which are in the page array. *)
Record arena_ok (s : mem) (a : page_arena) : Prop := {
  ar_start : start_arena a = page_to_phys (arena_first a);
  ar_end : end_arena a = page_to_phys (arena_end a);
  ar_order : 0 <= start_arena a <= end_arena a;
  ar_top : end_arena a < 2 ^ 64;
  ar_pages : ∀ p, arena_first a <= p < arena_end a → is_Some (page_map s !! p)
}.

(** First page number the flags exclude. *)
Definition limit (fl : Z) (e : Z) : Z :=
  if has fl PAGE_ALLOC_4GB_LIMIT then Z.min e (ADDRESS_4GB_MARK / PAGE_SIZE) else e.

(** The mask [-(PAGE_SIZE - 1)] leaves page-aligned addresses alone. *)
Lemma mask_aligned e :
  0 <= page_to_phys e < 2 ^ 64 →
  Z.land (page_to_phys e) (u64 (- (PAGE_SIZE - 1))) = page_to_phys e.
Proof.
  intros He. apply Z.bits_inj'. intros i Hi. rewrite Z.land_spec, testbit_u64.
  destruct (Z.ltb_spec i 12) as [Hlo|Hhi].
  - replace (Z.testbit (page_to_phys e) i) with false; [done|].
    rewrite page_to_phys_eq. change 4096 with (2 ^ 12). by rewrite Z.mul_pow2_bits_low.
  - destruct (Z.ltb_spec i 64) as [Hlt|Hge]; simpl.
    + change (- (PAGE_SIZE - 1)) with (Z.lnot 4094). rewrite Z.lnot_spec by done.
      replace (Z.testbit 4094 i) with false; [by rewrite andb_true_r|].
      symmetry. apply Z.bits_above_log2; [lia|]. change (Z.log2 4094) with 11. lia.
    + by rewrite (is_u64_high _ i He Hge).
Qed.

(** ** The search *)

Section scan.
Context (s : mem) (ps : list Z) (Hr : rep s ps) (fl nr lo e : Z) (Hnr : 1 <= nr).
Context (Hpages : ∀ p, lo <= p < e → is_Some (page_map s !! p)).

Definition free_run (f n : Z) : Prop := ∀ q, f <= q < f + n → q ∈ ps.

(** State of the loop at page [c] with [k] free pages behind it. *)
Record scan_ok (c k : Z) (first : option Z) : Prop := {
  sc_run : free_run (c - k) k;
  sc_bounds : 0 <= k < nr ∧ lo <= c - k ∧ c <= limit fl e;
  sc_first : first = if k =? 0 then None else Some (c - k);
  sc_max : lo < c - k → c - k - 1 ∉ ps;
  sc_none : ∀ f, lo <= f → f + nr <= c → ¬ free_run f nr
}.

Definition scan_post (r : option Z) (s' : mem) : Prop :=
  s' = s ∧
  match r with
  | Some f => lo <= f ∧ f + nr <= limit fl e ∧ free_run f nr
  | None => ∀ f, lo <= f → f + nr <= limit fl e → ¬ free_run f nr
  end.

Lemma limit_le : limit fl e <= e.
Proof. unfold limit. case_match; lia. Qed.

Lemma wp_phys_to_page c (Q : Z → mem → Prop) :
  is_Some (page_map s !! c) → Q c s → wp (phys_to_page (page_to_phys c)) Q s.
Proof.
  intros Hc HQ. pose proof (rep_range _ _ Hr _ Hc). unfold phys_to_page.
  rewrite phys_to_pfn. wp_step. wp_step. wp_step. wp_step; [apply Z.leb_le; lia|].
  wp_step. unfold base_pfn. by rewrite Z.sub_0_r.
Qed.

(** Page [c] is free: the run grows. *)
Lemma scan_grow c k first :
  scan_ok c k first → c < limit fl e → c ∈ ps → k + 1 ≠ nr →
  scan_ok (c + 1) (k + 1) (match first with None => Some c | f => f end).
Proof.
  intros [Hrun (Hk & Hlo & Hle) Hfirst Hmax Hnone] Hc Hin Hn.
  replace (c + 1 - (k + 1)) with (c - k) by lia. split.
  - intros q Hq. destruct (decide (q = c)) as [->|]; [done|]. apply Hrun. lia.
  - lia.
  - rewrite Hfirst. rewrite (proj2 (Z.eqb_neq (k + 1) 0)) by lia.
    destruct (Z.eqb_spec k 0); f_equal; lia.
  - replace (c + 1 - (k + 1)) with (c - k) by lia. done.
  - intros f Hf Hfn Hfr. destruct (decide (f + nr <= c)); [by apply (Hnone f)|].
    destruct (decide (lo < c - k)) as [Hlt|]; [|lia]. apply (Hmax Hlt), Hfr. lia.
Qed.

(** Page [c] is in use: the run starts afresh. *)
Lemma scan_reset c k first :
  scan_ok c k first → c < limit fl e → c ∉ ps → scan_ok (c + 1) 0 None.
Proof.
  intros [Hrun (Hk & Hlo & Hle) Hfirst Hmax Hnone] Hc Hin. split; try done; try lia.
  - intros q Hq. lia.
  - intros _. by replace (c + 1 - 0 - 1) with c by lia.
  - intros f Hf Hfn Hfr. destruct (decide (f + nr <= c)); [by apply (Hnone f)|].
    apply Hin, Hfr. lia.
Qed.

Lemma wp_scan fuel c k first :
  scan_ok c k first → e - c <= Z.of_nat fuel →
  wp (scan fuel nr fl (page_to_phys c) (page_to_phys e) k first) scan_post s.
Proof.
  revert c k first. induction fuel as [|fuel IH]; intros c k first Hok Hfuel.
  all: pose proof (sc_bounds _ _ _ Hok) as (Hk & Hlo & Hle); pose proof limit_le.
  all: cbn [scan]; destruct (Z.eqb_spec (page_to_phys c) (page_to_phys e)) as [He|He].
  1, 3: wp_step; rewrite (proj2 (Z.eqb_neq k nr)) by lia; split; [done|];
    apply (inj page_to_phys) in He; intros f Hf Hfn; apply (sc_none _ _ _ Hok); lia.
  - destruct He. f_equal. lia.
  - assert (c < e) as Hce by (destruct (decide (c = e)); [by subst|lia]).
    destruct (Hpages c) as [pg Hpg]; [lia|].
    wp_step. apply wp_phys_to_page; [done|].
    replace (has fl PAGE_ALLOC_4GB_LIMIT && (ADDRESS_4GB_MARK <=? page_to_phys c))
      with (limit fl e <=? c).
    2:{ unfold limit, ADDRESS_4GB_MARK, PAGE_SIZE. rewrite page_to_phys_eq.
        change (0x100000000 / 4096) with 1048576.
        case_match; simpl; [|by apply Z.leb_gt].
        apply eq_iff_eq_true. rewrite !Z.leb_le. lia. }
    destruct (Z.leb_spec (limit fl e) c) as [Hlim|Hlim].
    { wp_step. split; [done|]. intros f Hf Hfn. apply (sc_none _ _ _ Hok); lia. }
    wp_step. eapply wp_page_at; [done|].
    replace (page_to_phys c + PAGE_SIZE) with (page_to_phys (c + 1))
      by (rewrite !page_to_phys_eq; unfold PAGE_SIZE; lia).
    pose proof (rep_free _ _ Hr _ _ Hpg) as Hfree.
    destruct (is_free pg) eqn:Hf; cbn [negb].
    + pose proof (rep_state _ _ Hr _ _ Hpg) as Hst. rewrite Hf in Hst. destruct Hst as [Href _].
      wp_step. wp_step; [by rewrite Href|].
      destruct (Z.eqb_spec (k + 1) nr) as [Hn|Hn].
      * wp_step. split; [done|].
        rewrite (sc_first _ _ _ Hok).
        assert (free_run (c - k) nr) as Hfr.
        { intros q Hq. destruct (decide (q = c)) as [->|]; [by apply Hfree|].
          apply (sc_run _ _ _ Hok). lia. }
        destruct (Z.eqb_spec k 0) as [->|]; [rewrite Z.sub_0_r in *|]; split_and!; try done; lia.
      * apply IH; [|lia]. apply scan_grow; [done..|by apply Hfree|done].
    + rewrite (proj2 (Z.eqb_neq 0 nr)) by lia. apply IH; [|lia].
      apply (scan_reset c k first); [done..|]. rewrite <- Hfree. done.
Qed.
End scan.

(** ** Taking the run *)

(** The pages of [ps] outside [l]. *)
Definition without (l ps : list Z) : list Z := filter (λ q, q ∉ l) ps.

Lemma elem_of_without q l ps : q ∈ without l ps ↔ (q ∉ l) ∧ q ∈ ps.
Proof. unfold without. by rewrite list_elem_of_filter. Qed.

Lemma without_nil ps : without [] ps = ps.
Proof.
  unfold without. induction ps as [|p ps IH]; [done|].
  rewrite filter_cons_True by set_solver. by rewrite IH.
Qed.

Lemma without_cons p l ps : without l (filter (λ q, q ≠ p) ps) = without (p :: l) ps.
Proof. unfold without. rewrite list_filter_filter. apply list_filter_iff. set_solver. Qed.

Lemma filter_phys p (ps : list Z) :
  filter (λ b, b ≠ page_to_phys p) (page_to_phys <$> ps)
  = page_to_phys <$> filter (λ q, q ≠ p) ps.
Proof.
  induction ps as [|q ps IH]; [done|]. rewrite fmap_cons.
  destruct (decide (q = p)) as [->|Hq].
  - rewrite !filter_cons_False by auto. apply IH.
  - rewrite !filter_cons_True; [by rewrite fmap_cons, <- IH|done|].
    by intros ?%(inj page_to_phys).
Qed.

(** Unlinking, unmarking and referencing one free page. *)
Lemma wp_take_page p ps s (k : PM unit) Q :
  rep s ps → p ∈ ps →
  (∀ s' pg, rep s' (filter (λ q, q ≠ p) ps) → page_map s' !! p = Some pg →
     is_free pg = false → ref pg = 1 → next_allocation pg = None →
     same_layout s s' → same_pages [p] s s' → used_pages s' = used_pages s →
     node_used_pages s' = node_used_pages s → wp k Q s') →
  wp (unlink_page p;; upd_page p clear_free_flag;; page_ref p;; k) Q s.
Proof.
  intros Hr Hp Hk. destruct (rep_in _ _ Hr _ Hp) as [pg Hpg].
  pose proof (proj2 (rep_free _ _ Hr _ _ Hpg) Hp) as Hf.
  pose proof (rep_state _ _ Hr _ _ Hpg) as Hst. rewrite Hf in Hst. destruct Hst as [Href Hnx].
  wp_step. unfold unlink_page. wp_step. wp_step. wp_step. wp_step.
  { apply bool_decide_eq_true. rewrite (rep_list _ _ Hr). by apply list_elem_of_fmap_2. }
  wp_step. wp_step. eapply wp_upd_page; [done|].
  wp_step. unfold page_ref. wp_step. eapply wp_page_at; [apply lookup_insert_eq|].
  wp_step. wp_step. wp_step. set (s' := set_page_map _ _).
  set (pg' := set_ref (u64 (ref (clear_free_flag pg) + 1)) (clear_free_flag pg)) in *.
  assert (page_map s' = <[p := pg']> (page_map s)) as Hm by apply insert_insert_eq.
  assert (ref pg' = 1) as Href' by (simpl; by rewrite Href).
  assert (is_free pg' = false) as Hf' by apply (is_free_clear pg).
  apply (Hk s' pg'); try done.
  - eapply (rep_change s ps s' _ p pg'); try done.
    + simpl. rewrite (rep_list _ _ Hr). apply filter_phys.
    + apply list.NoDup_filter, (rep_nodup _ _ Hr).
    + intros q [_ Hq]%list_elem_of_filter. by apply (rep_nodes _ _ Hr).
    + intros q Hq. rewrite list_elem_of_filter. naive_solver.
    + rewrite Hf', list_elem_of_filter. naive_solver.
    + unfold page_ok. rewrite Hf', Href'. done.
  - rewrite Hm. apply lookup_insert_eq.
  - split_and!; [done..|]. rewrite Hm. by apply dom_insert_same.
  - by apply (same_pages_insert p pg').
Qed.

Definition taken_post (got : list Z) (p : Z) (n : nat) (ps : list Z) (s s' : mem) : Prop :=
  rep s' (without (run p n) ps) ∧ chain false s' (got ++ run p n) ∧ same_layout s s' ∧
  same_pages (got ++ run p n) s s' ∧ used_pages s' = used_pages s ∧
  node_used_pages s' = node_used_pages s.

Lemma wp_take_run n p got ps s :
  rep s ps → (∀ q, q ∈ run p n → q ∈ ps) → chain false s got → NoDup (got ++ run p n) →
  wp (take_run p n (snd <$> ends got)) (λ _ s', taken_post got p n ps s s') s.
Proof.
  revert p got ps s. induction n as [|n IH]; intros p got ps s Hr Hin Hch Hnd.
  { simpl. wp_step. unfold taken_post. simpl. by rewrite without_nil, app_nil_r. }
  cbn [take_run]. apply (wp_take_page p ps s); [done|apply Hin; cbn [run]; set_solver|].
  intros s1 pg Hr1 Hpg Hf Href Hnx Hlay1 Hs1 Hu1 Hn1. cbn [run] in *.
  apply list.NoDup_app in Hnd as (Hnd & Hdis & Hndr).
  inversion Hndr as [|? ? Hpn Hndn]; subst.
  assert (chain false s1 got) as Hch1.
  { eapply chain_same; [|exact Hch]. intros q Hq. apply Hs1. specialize (Hdis q Hq). set_solver. }
  assert (NoDup ((got ++ [p]) ++ run (p + 1) n)) as Hnd1.
  { rewrite <- app_assoc. apply list.NoDup_app. split_and!; done. }
  assert (∀ s2, rep s2 (filter (λ q, q ≠ p) ps) → chain false s2 (got ++ [p]) →
    same_layout s1 s2 → same_pages got s1 s2 → used_pages s2 = used_pages s1 →
    node_used_pages s2 = node_used_pages s1 →
    wp (take_run (p + 1) n (snd <$> ends (got ++ [p])))
       (λ _ s', taken_post got p (S n) ps s s') s2) as Hnext.
  { intros s2 Hr2 Hch2 Hlay2 Hs2 Hu2 Hn2. eapply wp_mono; [apply (IH (p + 1) (got ++ [p])); try done|].
    - intros q Hq. apply list_elem_of_filter. split; [by intros ->|]. apply Hin. set_solver.
    - cbn beta. intros [] s3 (Hr3 & Hch3 & Hlay3 & Hs3 & Hu3 & Hn3).
      rewrite <- app_assoc in *. rewrite without_cons in Hr3.
      split_and!; try done; [by do 2 etrans| |congruence|congruence].
      intros q Hq. rewrite Hs3, Hs2, Hs1; [done|cbn [run app] in *; set_solver..]. }
  assert (wp (match ends got with
              | None => take_run (p + 1) n (snd <$> Some (p, p))
              | Some (plist, ptail) =>
                  upd_page ptail (set_next (Some p));;
                  take_run (p + 1) n (snd <$> Some (plist, p))
              end) (λ _ s', taken_post got p (S n) ps s s') s1) as Hlink.
  { apply (wp_link false got p (filter (λ q, q ≠ p) ps) s1
             (λ e, take_run (p + 1) n (snd <$> e))); [done|done| |by exists pg|auto].
    apply list.NoDup_app in Hnd1 as [? _]. done. }
  destruct (ends got) as [[a b]|]; exact Hlink.
Qed.

(** Zeroing the run. *)
Lemma wp_zero_pages n p ps s (l : list Z) :
  rep s ps → chain false s l → (∀ q, q ∈ run p n → q ∈ l) →
  wp (zero_pages p n) (λ _ s',
    rep s' ps ∧ chain false s' l ∧ same_layout s s' ∧ same_pages (run p n) s s' ∧
    used_pages s' = used_pages s ∧ node_used_pages s' = node_used_pages s ∧
    (∀ q pg, q ∈ run p n → page_map s' !! q = Some pg → zeroed pg = true)) s.
Proof.
  revert p s. induction n as [|n IH]; intros p s Hr Hch Hin; cbn [zero_pages run].
  { wp_step. split_and!; try done. set_solver. }
  cbn [run] in Hin.
  destruct (chain_in _ _ _ p Hch) as (pg & Hp & Hf & _); [set_solver|].
  wp_step. eapply wp_mono; [by apply (wp_upd_live p pg _ ps s)|].
  cbn beta. intros [] s1 (Hr1 & Hlay1 & Hu1 & Hn1 & Hm1).
  assert (chain false s1 l) as Hch1.
  { clear -Hch Hm1 Hp. induction l as [|q l IH]; [done|]. destruct Hch as [Hq Hch].
    split; [|auto]. rewrite Hm1. destruct (decide (p = q)) as [->|].
    - destruct Hq as (pq & Hq & ?). rewrite Hp in Hq. injection Hq as <-.
      exists (set_zeroed true pg). rewrite lookup_insert_eq. split; [done|]. naive_solver.
    - by rewrite lookup_insert_ne. }
  eapply wp_mono; [apply (IH (p + 1) s1 Hr1 Hch1); set_solver|].
  cbn beta. intros [] s2 (Hr2 & Hch2 & Hlay2 & Hs2 & Hu2 & Hn2 & Hz2).
  split_and!; try done; try congruence.
  - by etrans.
  - intros q Hq. rewrite Hs2, Hm1, lookup_insert_ne by set_solver. done.
  - intros q pq [->|Hq]%elem_of_cons; [|by apply Hz2].
    assert (p ∉ run (p + 1) n) by (rewrite elem_of_run; lia).
    rewrite Hs2, Hm1, lookup_insert_eq by done. by intros [= <-].
Qed.

Lemma chain_zeroed z s l :
  chain false s l → (∀ q pg, q ∈ l → page_map s !! q = Some pg → zeroed pg = true) →
  chain z s l.
Proof.
  induction l as [|p l IH]; [done|]. intros [(pg & Hp & Hf & Href & Hn & _) Hch] Hz. split.
  - exists pg. split_and!; try done. intros _. apply (Hz p); [set_solver|done].
  - apply IH; [done|]. intros q pq Hq. apply Hz. set_solver.
Qed.

(** ** Allocation from an arena and from the node *)

(** The run of [nr] pages at [f] lies in arena [a], below the limit. *)
Definition fits (fl nr : Z) (a : page_arena) (f : Z) : Prop :=
  arena_first a <= f ∧ f + nr <= limit fl (arena_end a).

(** The run at [f] was free and has been handed out. *)
Record handed_out (fl nr : Z) (ps : list Z) (s : mem) (f : Z) (s' : mem) : Prop := {
  ho_free : ∀ q, q ∈ run f (Z.to_nat nr) → q ∈ ps;
  ho_rep : rep s' (without (run f (Z.to_nat nr)) ps);
  ho_chain : chain (page_should_zero fl) s' (run f (Z.to_nat nr));
  ho_layout : same_layout s s';
  ho_same : same_pages (run f (Z.to_nat nr)) s s';
  ho_node : node_used_pages s' = node_used_pages s;
  ho_used : used_pages s' = u64 (used_pages s + 2 * nr)
}.

Lemma wp_arena_alloc a nr fl ps s :
  rep s ps → arena_ok s a → 1 <= nr →
  has fl PAGE_ALLOC_4GB_LIMIT && (ADDRESS_4GB_MARK <=? start_arena a) = false →
  wp (arena_alloc_contiguous a nr fl) (λ r s',
    match r with
    | Some f => fits fl nr a f ∧ handed_out fl nr ps s f s'
    | None => s' = s ∧ ∀ f, fits fl nr a f → ¬ (∀ q, q ∈ run f (Z.to_nat nr) → q ∈ ps)
    end) s.
Proof.
  intros Hr [Hst Hen Hord Htop Hpg] Hnr Hlim. unfold arena_alloc_contiguous.
  assert (∀ f, (∀ q, q ∈ run f (Z.to_nat nr) → q ∈ ps) ↔ free_run ps f nr) as Hfr.
  { intros f. unfold free_run. split; intros H q Hq; apply H; rewrite elem_of_run in *; lia. }
  rewrite Hen, mask_aligned by (rewrite <- Hen; lia). rewrite Hst.
  set (lo := arena_first a) in *. set (e := arena_end a) in *.
  rewrite page_to_phys_eq in Hst, Hen.
  wp_step. eapply wp_mono; [apply (wp_scan s ps Hr fl nr lo e Hnr Hpg)|].
  - split; try done; [intros q ?; lia| |lia|intros f ? ?; lia].
    split; [lia|]. split; [lia|]. unfold limit.
    destruct (has fl PAGE_ALLOC_4GB_LIMIT); [|lia]. simpl in Hlim. apply Z.leb_gt in Hlim.
    change (ADDRESS_4GB_MARK / PAGE_SIZE) with 1048576. unfold ADDRESS_4GB_MARK in Hlim. lia.
  - rewrite !page_to_phys_eq. lia.
  - cbn beta. intros [f|] s0 [-> Hpost].
    2:{ wp_step. split; [done|]. intros f [? ?]. rewrite Hfr. by apply Hpost. }
    destruct Hpost as (Hlo & Hhi & Hrun). pose proof (proj2 (Hfr f) Hrun) as Hin.
    wp_step. eapply wp_mono;
      [apply (wp_take_run (Z.to_nat nr) f [] ps s Hr Hin I (NoDup_run f _))|].
    cbn beta. intros [] s1 (Hr1 & Hch1 & Hlay1 & Hs1 & Hu1 & Hn1). simpl in Hch1, Hs1.
    wp_step. wp_step. wp_step. wp_step. set (s2 := set_used _ _ _).
    assert (rep s2 (without (run f (Z.to_nat nr)) ps)) as Hr2 by (destruct Hr1; by split).
    assert (chain false s2 (run f (Z.to_nat nr))) as Hch2
      by (eapply chain_same; [|exact Hch1]; done).
    assert (used_pages s2 = u64 (used_pages s + 2 * nr)) as Hu2.
    { unfold s2. simpl. rewrite Hu1, u64_add. f_equal. lia. }
    assert (node_used_pages s2 = node_used_pages s) as Hn2 by exact Hn1.
    wp_step. destruct (page_should_zero fl) eqn:Hz.
    + eapply wp_mono; [by apply (wp_zero_pages (Z.to_nat nr) f (without (run f (Z.to_nat nr)) ps) s2
                                (run f (Z.to_nat nr)))|].
      cbn beta. intros [] s3 (Hr3 & Hch3 & Hlay3 & Hs3 & Hu3 & Hn3 & Hz3). wp_step.
      split; [done|]. split; try done; try congruence.
      * by apply chain_zeroed.
      * by etrans.
      * intros q Hq. rewrite Hs3 by done. by apply Hs1.
    + wp_step. wp_step. split; [done|]. split; try done; by rewrite ?Hz.
Qed.

(** The arenas [contiguous_loop] gets to if none of them has a run. *)
Fixpoint eligible (fl : Z) (arenas : list page_arena) : list page_arena :=
  match arenas with
  | [] => []
  | a :: arenas =>
      if has fl PAGE_ALLOC_4GB_LIMIT && (ADDRESS_4GB_MARK <=? start_arena a) then []
      else a :: eligible fl arenas
  end.

Definition contiguous_post (fl nr : Z) (arenas : list page_arena) (ps : list Z) (s : mem)
    (r : option Z) (s' : mem) : Prop :=
  match r with
  | Some f => (∃ a, a ∈ eligible fl arenas ∧ fits fl nr a f) ∧ handed_out fl nr ps s f s'
  | None => s' = s ∧ ∀ a f, a ∈ eligible fl arenas → fits fl nr a f →
                       ¬ (∀ q, q ∈ run f (Z.to_nat nr) → q ∈ ps)
  end.

Lemma wp_contiguous_loop arenas nr fl ps s :
  rep s ps → Forall (arena_ok s) arenas → 1 <= nr →
  wp (contiguous_loop arenas nr fl) (contiguous_post fl nr arenas ps s) s.
Proof.
  intros Hr Ha Hnr. induction Ha as [|a arenas Ha _ IH]; cbn [contiguous_loop].
  { wp_step. split; [done|]. intros a f []%not_elem_of_nil. }
  unfold contiguous_post. cbn [eligible].
  destruct (has fl PAGE_ALLOC_4GB_LIMIT && (ADDRESS_4GB_MARK <=? start_arena a)) eqn:E.
  { wp_step. split; [done|]. intros ? ? []%not_elem_of_nil. }
  wp_step. eapply wp_mono; [by apply (wp_arena_alloc a nr fl ps s)|].
  cbn beta. intros [f|] s1.
  - intros [Hf Hh]. wp_step. split; [exists a; set_solver|done].
  - intros [-> Hno]. eapply wp_mono; [exact IH|]. intros [f|] s2.
    + intros [(a' & ? & ?) ?]. split; [exists a'; set_solver|done].
    + intros [-> Hno']. split; [done|]. intros a' f [->|Ha']%elem_of_cons; eauto.
Qed.

Lemma wp_alloc_contiguous nr fl ps s :
  rep s ps → Forall (arena_ok s) (arena_list s) → 1 <= nr →
  wp (alloc_contiguous nr fl) (contiguous_post fl nr (arena_list s) ps s) s.
Proof.
  intros. unfold alloc_contiguous. wp_step. wp_step. by apply wp_contiguous_loop.
Qed.

(** ** Adding memory *)

Lemma rep_add s ps s' p :
  rep s ps → page_map s !! p = None → 0 <= p < maxpfn s →
  page_map s' = <[p := set_free_flag (Page 0 0 0 None 0 false)]> (page_map s) →
  maxpfn s' = maxpfn s → page_list s' = page_to_phys p :: page_list s →
  nodes s' = <[page_to_phys p := p]> (nodes s) → rep s' (p :: ps).
Proof.
  intros Hr Hp Hrange Hm Hx Hl Hn.
  assert (p ∉ ps) as Hni by (intros [? ?]%(rep_in _ _ Hr); congruence).
  assert (∀ q pg, page_map s' !! q = Some pg →
    (q = p ∧ pg = set_free_flag (Page 0 0 0 None 0 false)) ∨
    q ≠ p ∧ page_map s !! q = Some pg) as Hinv.
  { intros q pg. rewrite Hm, lookup_insert_Some. naive_solver. }
  split.
  - by rewrite Hl, (rep_list _ _ Hr).
  - constructor; [done|apply (rep_nodup _ _ Hr)].
  - intros q Hq. rewrite Hn. destruct (decide (q = p)) as [->|]; [by rewrite lookup_insert_eq|].
    rewrite lookup_insert_ne by (intros ?%(inj page_to_phys); congruence).
    apply (rep_nodes _ _ Hr). set_solver.
  - intros q Hq. rewrite Hm. destruct (decide (q = p)) as [->|]; [rewrite lookup_insert_eq; eauto|].
    rewrite lookup_insert_ne by done. apply (rep_in _ _ Hr). set_solver.
  - intros q pg [[-> ->]|[Hq H]]%Hinv; [split; [set_solver|done]|].
    rewrite (rep_free _ _ Hr _ _ H). set_solver.
  - intros q pg [[-> ->]|[Hq H]]%Hinv; [done|]. by apply (rep_state _ _ Hr _ _ H).
  - intros q [pg [[-> _]|[Hq H]]%Hinv]; rewrite Hx; [done|]. apply (rep_range _ _ Hr). eauto.
Qed.

(** Pages [p .. p + n) are in the array and were not before. *)
Definition fresh_pages (s : mem) (p : Z) (n : nat) : Prop :=
  0 <= p ∧ p + Z.of_nat n <= maxpfn s ∧ ∀ q, q ∈ run p n → page_map s !! q = None.

Definition added_post (p : Z) (n : nat) (ps : list Z) (s s' : mem) : Prop :=
  let ps' := rev (run p n) ++ ps in
  rep s' ps' ∧ counted s' ps' ∧ maxpfn s' = maxpfn s ∧ arena_list s' = arena_list s ∧
  kernel_break s' = kernel_break s ∧ kernel_break_limit s' = kernel_break_limit s ∧
  total_pages s' = total_pages s + Z.of_nat n ∧
  (∀ q, is_Some (page_map s' !! q) ↔ q ∈ run p n ∨ is_Some (page_map s !! q)).

Lemma wp_page_add_loop n p ps s :
  rep s ps → counted s ps → fresh_pages s p n → total_pages s + Z.of_nat n < 2 ^ 64 →
  wp (page_add_loop (page_to_phys p) n) (λ _ s', added_post p n ps s s') s.
Proof.
  revert p ps s. induction n as [|n IH]; intros p ps s Hr Hc (Hp0 & Hp1 & Hfr) Htot.
  { simpl. wp_step. unfold added_post. simpl. split_and!; try done; [lia|].
    intros q. rewrite elem_of_nil. naive_solver. }
  cbn [page_add_loop run] in *. wp_step. unfold page_add. wp_step. wp_step.
  unfold page_add_page, phys_to_page. rewrite phys_to_pfn.
  wp_step. wp_step. wp_step. wp_step. wp_step. wp_step; [apply Z.leb_le; simpl; lia|].
  wp_step. unfold base_pfn. rewrite !Z.sub_0_r.
  wp_step. wp_step. wp_step. wp_step; [simpl; lia|]. wp_steps.
  eapply wp_upd_page; [apply lookup_insert_eq|]. wp_step.
  set (s1 := set_free _ _ _).
  pose proof (cnt_used _ _ Hc). pose proof (cnt_size _ _ Hc). pose proof (cnt_range _ _ Hc).
  assert (page_map s1 = <[p := set_free_flag (Page 0 0 0 None 0 false)]> (page_map s)) as Hm
    by apply insert_insert_eq.
  assert (page_map s !! p = None) as Hnp by (apply Hfr; set_solver).
  assert (total_pages s1 = total_pages s + 1) as Ht by (apply u64_small; lia).
  assert (counted s1 (p :: ps)) as Hc1.
  { split; rewrite ?Ht; [simpl in *; lia| |lia]. rewrite Hm, map_size_insert_None by done. lia. }
  assert (rep s1 (p :: ps)) as Hr1 by (apply (rep_add s ps s1 p); try done; lia).
  assert (∀ q, is_Some (page_map s1 !! q) ↔ q = p ∨ is_Some (page_map s !! q)) as Hd.
  { intros q. rewrite Hm, lookup_insert_is_Some'. naive_solver. }
  replace (page_to_phys p + PAGE_SIZE) with (page_to_phys (p + 1))
    by (rewrite !page_to_phys_eq; unfold PAGE_SIZE; lia).
  eapply wp_mono; [apply (IH (p + 1) (p :: ps) s1 Hr1 Hc1)|].
  - split_and!; [lia|simpl; lia|]. intros q Hq. pose proof Hq as Hq'%elem_of_run.
    rewrite Hm, lookup_insert_ne by lia. apply Hfr. set_solver.
  - lia.
  - cbn beta. intros [] s2 (Hr2 & Hc2 & Hx & Ha & Hb & Hbl & Ht2 & Hd2).
    unfold added_post. cbn [rev run]. rewrite <- app_assoc. split_and!; try done; [lia|].
    intros q. rewrite Hd2, Hd. set_solver.
Qed.

Lemma run_app p a b : run p (a + b) = run p a ++ run (p + Z.of_nat a) b.
Proof.
  revert p. induction a as [|a IH]; intros p; [simpl; by rewrite Z.add_0_r|].
  simpl. rewrite IH. do 3 f_equal. lia.
Qed.

Lemma arena_ok_mono s s' a :
  (∀ q, is_Some (page_map s !! q) → is_Some (page_map s' !! q)) → arena_ok s a → arena_ok s' a.
Proof. intros H []. split; auto. Qed.

(** Space the bookkeeping of [n] more pages takes from the kernel break. *)
Definition break_room (n : Z) : Z := sizeof_page_arena * ((n + 511) / 512).

Definition region_post (p : Z) (n : nat) (ps : list Z) (s s' : mem) : Prop :=
  let ps' := rev (run p n) ++ ps in
  rep s' ps' ∧ counted s' ps' ∧ Forall (arena_ok s') (arena_list s') ∧
  maxpfn s' = maxpfn s ∧ total_pages s' = total_pages s + Z.of_nat n ∧
  ∀ q, is_Some (page_map s' !! q) ↔ q ∈ run p n ∨ is_Some (page_map s !! q).

(** One arena: its header is taken from the break, its pages are added. *)
Lemma wp_one_arena p k ps s (cont : PM unit) Q :
  rep s ps → counted s ps → Forall (arena_ok s) (arena_list s) → fresh_pages s p k →
  page_to_phys (p + Z.of_nat k) < 2 ^ 64 →
  0 <= kernel_break s → kernel_break s + sizeof_page_arena <= kernel_break_limit s < 2 ^ 64 →
  total_pages s + Z.of_nat k < 2 ^ 64 →
  (∀ s', region_post p k ps s s' → kernel_break s' = kernel_break s + sizeof_page_arena →
     kernel_break_limit s' = kernel_break_limit s → wp cont Q s') →
  wp (ksbrk sizeof_page_arena;;
      page_add_loop (page_to_phys p) k;;
      modify (λ s, set_arenas (arena_list s ++
        [Arena (page_to_phys p) (page_to_phys (p + Z.of_nat k))]) s);;
      cont) Q s.
Proof.
  intros Hr Hc Ha Hfr Htop Hb Hbl Htot Hk. unfold ksbrk, sizeof_page_arena in *.
  wp_step. wp_step. wp_step. wp_step. wp_step. wp_step. wp_step. wp_step. wp_step.
  wp_step. wp_step; [simpl; rewrite u64_small by lia; apply Z.leb_le; lia|]. wp_step.
  rewrite u64_small by lia. set (s0 := set_break _ s).
  assert (rep s0 ps) as Hr0 by (destruct Hr; by split).
  assert (counted s0 ps) as Hc0 by (destruct Hc; by split).
  wp_step. eapply wp_mono; [by apply (wp_page_add_loop k p ps s0)|].
  cbn beta. intros [] s1 (Hr1 & Hc1 & Hx & Ha1 & Hb1 & Hbl1 & Ht1 & Hd1).
  wp_step. wp_step. set (s2 := set_arenas _ s1).
  destruct Hfr as (Hp0 & _). apply Hk; [|done|done].
  split; [destruct Hr1; by split|]. split; [destruct Hc1; by split|].
  split; [|by split_and!]. unfold s2. cbn [set_arenas arena_list]. rewrite Ha1. apply Forall_app.
  split.
  - eapply Forall_impl; [|exact Ha]. intros a. apply arena_ok_mono.
    intros q Hq. simpl. apply Hd1. by right.
  - apply Forall_singleton.
    split; unfold arena_first, arena_end; simpl; rewrite ?page_to_phys_eq in *;
      unfold PAGE_SIZE; rewrite ?Z.div_mul by lia; try lia.
    intros q Hq. apply Hd1. left. apply elem_of_run. lia.
Qed.

Lemma wp_add_region_loop fuel p n ps s :
  rep s ps → counted s ps → Forall (arena_ok s) (arena_list s) → fresh_pages s p n →
  page_to_phys (p + Z.of_nat n) < 2 ^ 64 →
  0 <= kernel_break s →
  kernel_break s + break_room (Z.of_nat n) <= kernel_break_limit s < 2 ^ 64 →
  total_pages s + Z.of_nat n < 2 ^ 64 → (n <= fuel)%nat →
  wp (add_region_loop fuel (page_to_phys p) (page_to_phys (Z.of_nat n)))
     (λ _ s', region_post p n ps s s') s.
Proof.
  revert p n ps s. induction fuel as [|fuel IH]; intros p n ps s Hr Hc Ha Hfr Htop Hb Hbl Htot Hf;
    cbn [add_region_loop]; destruct (Z.eqb_spec (page_to_phys (Z.of_nat n)) 0) as [E|E];
    rewrite page_to_phys_eq in E; try lia.
  1, 2: assert (n = O) as -> by lia; wp_step; unfold region_post; simpl; split_and!; try done;
    [lia|]; intros q; rewrite elem_of_nil; naive_solver.
  pose proof Hfr as (Hp0 & Hp1 & Hfresh).
  set (k := Nat.min n 512). unfold arena_default_size.
  assert (Z.min (page_to_phys (Z.of_nat n)) 0x200000 = page_to_phys (Z.of_nat k)) as ->.
  { rewrite !page_to_phys_eq. lia. }
  assert (Z.to_nat ((page_to_phys (Z.of_nat k) + PAGE_SIZE - 1) / PAGE_SIZE) = k) as ->.
  { rewrite page_to_phys_eq. unfold PAGE_SIZE.
    replace (Z.of_nat k * 4096 + 4096 - 1) with (4095 + Z.of_nat k * 4096) by lia.
    rewrite Z.div_add by lia. change (4095 / 4096) with 0. lia. }
  assert (page_to_phys p + page_to_phys (Z.of_nat k) = page_to_phys (p + Z.of_nat k)) as ->.
  { rewrite !page_to_phys_eq. lia. }
  assert (page_to_phys (Z.of_nat n) - page_to_phys (Z.of_nat k)
          = page_to_phys (Z.of_nat (n - k))) as ->.
  { rewrite !page_to_phys_eq. lia. }
  assert (n = k + (n - k))%nat as Hn by lia.
  assert (break_room (Z.of_nat n) = 32 + break_room (Z.of_nat (n - k))) as Hroom.
  { unfold break_room, sizeof_page_arena. Z.to_euclidean_division_equations. lia. }
  assert (0 <= break_room (Z.of_nat (n - k))) as Hroom0.
  { unfold break_room, sizeof_page_arena. Z.to_euclidean_division_equations. lia. }
  apply (wp_one_arena p k ps s); try done; rewrite ?page_to_phys_eq in *;
    unfold sizeof_page_arena in *; try lia.
  { split_and!; [lia..|]. intros q Hq. apply Hfresh. rewrite elem_of_run in *. lia. }
  intros s1 (Hr1 & Hc1 & Ha1 & Hx1 & Ht1 & Hd1) Hb1 Hbl1. rewrite <- !page_to_phys_eq.
  eapply wp_mono; [apply (IH (p + Z.of_nat k) (n - k)%nat _ s1 Hr1 Hc1 Ha1)|];
    rewrite ?page_to_phys_eq; try lia.
  - split_and!; [lia..|]. intros q Hq%elem_of_run. apply eq_None_not_Some. rewrite Hd1.
    intros [Hq'%elem_of_run|Hq']; [lia|]. rewrite (Hfresh q) in Hq' by (apply elem_of_run; lia).
    by destruct Hq'.
  - cbn beta. intros [] s2 (Hr2 & Hc2 & Ha2 & Hx2 & Ht2 & Hd2).
    assert (run p n = run p k ++ run (p + Z.of_nat k) (n - k)) as Hrun
      by (rewrite <- run_app; f_equal; done).
    unfold region_post. rewrite Hrun, rev_app_distr, <- app_assoc.
    split_and!; try done; try lia. intros q. rewrite Hd2, Hd1, elem_of_app. naive_solver.
Qed.

Lemma wp_add_region p n ps s :
  rep s ps → counted s ps → Forall (arena_ok s) (arena_list s) → fresh_pages s p n →
  page_to_phys (p + Z.of_nat n) < 2 ^ 64 → 0 <= kernel_break s →
  kernel_break s + break_room (Z.of_nat n) <= kernel_break_limit s < 2 ^ 64 →
  total_pages s + Z.of_nat n < 2 ^ 64 →
  wp (add_region (page_to_phys p) (page_to_phys (Z.of_nat n)))
     (λ _ s', region_post p n ps s s') s.
Proof. intros. apply wp_add_region_loop; try done. rewrite page_to_phys_eq. lia. Qed.

Lemma empty_mem_ok top break lim :
  rep (empty_mem top break lim) [] ∧ counted (empty_mem top break lim) [] ∧
  Forall (arena_ok (empty_mem top break lim)) (arena_list (empty_mem top break lim)).
Proof.
  split_and!; [|by split|constructor]. split; simpl; try done.
  - constructor.
  - intros p []%not_elem_of_nil.
  - intros p []%not_elem_of_nil.
  - intros p [? ?]. by rewrite lookup_empty in *.
Qed.
