(* ===== verification/PageProps.v ===== *)
(** * PageProps: what the page allocator promises *)

From S2P Require Import Prelude Bits Abi PageAlloc PageFacts PageRuns.

(** ** Sequences of operations *)

Inductive page_op : Type :=
  | OpAddRegion (first : Z) (n : nat)
  | OpAlloc (nr fl : Z)
  | OpRef (p : Z)
  | OpFree (p : Z).

Definition run_page_op (op : page_op) : PM (option Z) :=
  match op with
  | OpAddRegion p n => add_region (page_to_phys p) (page_to_phys (Z.of_nat n));; mret None
  | OpAlloc nr fl => alloc_pages nr fl
  | OpRef p => r ← page_ref p; mret (Some r)
  | OpFree p => free_page p;; mret None
  end.

Definition live (s : mem) (p : Z) : Prop :=
  ∃ pg, page_map s !! p = Some pg ∧ is_free pg = false ∧ ref pg + 1 < 2 ^ 64.

(** What the callers owe: regions are new memory with room for their bookkeeping, only
    allocated pages are referenced and freed.  Page-by-page allocation only. *)
Definition page_op_pre (s : mem) (op : page_op) : Prop :=
  match op with
  | OpAddRegion p n =>
      fresh_pages s p n ∧ page_to_phys (p + Z.of_nat n) < 2 ^ 64 ∧ 0 <= kernel_break s ∧
      kernel_break s + break_room (Z.of_nat n) <= kernel_break_limit s < 2 ^ 64 ∧
      total_pages s + Z.of_nat n < 2 ^ 64
  | OpAlloc nr fl =>
      has fl PAGE_ALLOC_4GB_LIMIT = false ∧ has fl PAGE_ALLOC_CONTIGUOUS && (1 <? nr) = false
  | OpRef p | OpFree p => live s p
  end.

Inductive page_reach : mem → Prop :=
  | reach_boot top break lim : page_reach (empty_mem top break lim)
  | reach_step s op r s' :
      page_reach s → page_op_pre s op → run_page_op op s = Done (r, s') → page_reach s'.

(** The invariant of the allocator. *)
Definition page_inv (s : mem) : Prop :=
  ∃ ps, rep s ps ∧ counted s ps ∧ Forall (arena_ok s) (arena_list s).

Lemma arenas_same s s' :
  same_layout s s' → Forall (arena_ok s) (arena_list s) → Forall (arena_ok s') (arena_list s').
Proof.
  intros (_ & -> & _ & Hd) Ha. eapply Forall_impl; [|exact Ha]. intros a. apply arena_ok_mono.
  intros q. by rewrite <- !elem_of_dom, Hd.
Qed.

Lemma wp_alloc_pages nr fl ps s :
  rep s ps → counted s ps → has fl PAGE_ALLOC_4GB_LIMIT = false →
  has fl PAGE_ALLOC_CONTIGUOUS && (1 <? nr) = false →
  wp (alloc_pages nr fl) (allocated_post fl (Z.to_nat nr) [] ps s) s.
Proof.
  intros Hr Hc Hl Hcont. unfold alloc_pages. rewrite Hcont.
  apply (wp_allocate_loop (Z.to_nat nr) fl [] ps s); try done. constructor.
Qed.

Lemma wp_page_ref p ps s :
  rep s ps → live s p →
  wp (page_ref p) (λ _ s', rep s' ps ∧ same_layout s s' ∧
    node_used_pages s' = node_used_pages s) s.
Proof.
  intros Hr (pg & Hp & Hf & Hb). pose proof (rep_state _ _ Hr _ _ Hp) as Hst.
  rewrite Hf in Hst. unfold page_ref. wp_step. eapply wp_page_at; [done|]. wp_steps.
  rewrite u64_small by lia. split_and!; try done.
  - eapply (rep_live s ps _ p pg (set_ref (ref pg + 1) pg)); try done.
    unfold page_ok. change (is_free (set_ref (ref pg + 1) pg)) with (is_free pg).
    rewrite Hf. simpl. lia.
  - split_and!; [done..|]. by apply dom_insert_same.
Qed.

Lemma counted_put p ps s s' :
  rep s ps → live s p → counted s ps → same_layout s s' →
  node_used_pages s' = u64 (node_used_pages s - 1) → counted s' (p :: ps).
Proof.
  intros Hr (pg & Hp & Hf & _) Hc Hlay Hn. eapply counted_same; [done..|].
  pose proof (cnt_used _ _ Hc). pose proof (cnt_range _ _ Hc). pose proof (cnt_size _ _ Hc).
  assert (length (p :: ps) <= size (page_map s))%nat as Hsz.
  { apply length_le_size.
    - constructor; [rewrite <- (rep_free _ _ Hr _ _ Hp); congruence|apply (rep_nodup _ _ Hr)].
    - intros q [->|Hq]%elem_of_cons; [done|]. by apply (rep_in _ _ Hr). }
  simpl in *. rewrite Hn, u64_small; lia.
Qed.

Lemma page_op_ok op s :
  page_inv s → page_op_pre s op → wp (run_page_op op) (λ _ s', page_inv s') s.
Proof.
  intros (ps & Hr & Hc & Ha) Hpre. destruct op as [p n|nr fl|p|p]; simpl in *.
  - destruct Hpre as (Hfr & Htop & Hb & Hbl & Htot). wp_step.
    eapply wp_mono; [by apply (wp_add_region p n ps s)|].
    cbn beta. intros [] s' (Hr' & Hc' & Ha' & _). wp_step. eexists; eauto.
  - destruct Hpre as [Hl Hcont]. eapply wp_mono; [by apply (wp_alloc_pages nr fl ps s)|].
    intros r s' [Hlay Hpost]. pose proof (arenas_same _ _ Hlay Ha).
    case_bool_decide; [destruct Hpost as (_ & ? & ? & _)|destruct Hpost as (_ & ? & ? & _)];
      eexists; eauto.
  - wp_step. eapply wp_mono; [by apply (wp_page_ref p ps s)|].
    cbn beta. intros r s' (Hr' & Hlay & Hn). wp_step.
    exists ps. split; [done|]. split; [by eapply counted_same; [..|by rewrite Hn]|].
    by eapply arenas_same.
  - pose proof Hpre as (pg & Hp & Hf & _). wp_step.
    eapply wp_mono; [by apply (wp_free_page p pg ps s)|].
    cbn beta. intros [] s' (Hlay & _ & Hpost). wp_step. pose proof (arenas_same _ _ Hlay Ha).
    case_match.
    + destruct Hpost as (Hr' & Hn & _). exists (p :: ps). split_and!; try done.
      by eapply counted_put.
    + destruct Hpost as (Hr' & Hn & _). exists ps. split_and!; try done.
      by eapply counted_same; [..|by rewrite Hn].
Qed.

Lemma page_reach_inv s : page_reach s → page_inv s.
Proof.
  induction 1 as [top break lim|s op r s' _ IH Hpre Hrun].
  - exists []. apply empty_mem_ok.
  - pose proof (page_op_ok op s IH Hpre) as H. unfold wp in H. by rewrite Hrun in H.
Qed.

Lemma eligible_in fl arenas a : a ∈ eligible fl arenas → a ∈ arenas.
Proof.
  induction arenas as [|b l IH]; simpl; [done|].
  case_match; [by intros ?%elem_of_nil|]. rewrite !elem_of_cons. naive_solver.
Qed.

(** The arenas that start below 4 GiB come first. *)
Definition low_first (arenas : list page_arena) : Prop :=
  ∀ i j a b, (i < j)%nat → arenas !! i = Some a → arenas !! j = Some b →
    ADDRESS_4GB_MARK <= start_arena a → ADDRESS_4GB_MARK <= start_arena b.

Lemma eligible_all fl arenas a :
  (has fl PAGE_ALLOC_4GB_LIMIT = true → low_first arenas ∧ start_arena a < ADDRESS_4GB_MARK) →
  a ∈ arenas → a ∈ eligible fl arenas.
Proof.
  destruct (has fl PAGE_ALLOC_4GB_LIMIT) eqn:Hl; [intros H|intros _].
  - destruct (H eq_refl) as [Hlow Ha]. clear H. induction arenas as [|b arenas IH]; [done|]. cbn [eligible].
    rewrite Hl. intros Hin. apply list_elem_of_lookup in Hin as [j Hj].
    destruct (Z.leb_spec ADDRESS_4GB_MARK (start_arena b)) as [Hb|Hb]; cbn [andb].
    + destruct j as [|j]; [injection Hj as ->; lia|]. pose proof (Hlow 0%nat (S j) b a ltac:(lia) eq_refl Hj Hb). lia.
    + destruct j as [|j]; [injection Hj as ->; set_solver|]. apply elem_of_cons. right. apply IH.
      * intros i k x y Hik Hx Hy. apply (Hlow (S i) (S k)); [lia|done..].
      * by eapply list_elem_of_lookup_2.
  - induction arenas as [|b arenas IH]; [done|]. cbn [eligible]. rewrite Hl. cbn [andb]. set_solver.
Qed.

Lemma not_all_free (l ps : list Z) : ¬ (∀ q, q ∈ l → q ∈ ps) → ∃ q, q ∈ l ∧ q ∉ ps.
Proof.
  intros Hno. destruct (decide (Forall (λ q, q ∈ ps) l)) as [Hall|Hex].
  - destruct Hno. by apply list.Forall_forall.
  - apply not_Forall_Exists in Hex; [|apply _]. by apply list.Exists_exists in Hex.
Qed.

(** ** Properties *)

(** C17: In every state reached by adding regions of new memory with room for their bookkeeping,
    by allocating page by page (not contiguously and not below 4 GiB), and by referencing and freeing
    pages in use, the free list holds exactly the pages marked free, without repetition
    and with no reference left to them, every other page is referenced, and used plus
    free pages are all pages; and every further such operation completes without
    tripping an assertion. *)
Theorem page_allocator_safe s :
  page_reach s →
  (∃ ps, page_list s = page_to_phys <$> ps ∧ NoDup ps ∧
     (∀ p pg, page_map s !! p = Some pg →
        if is_free pg then p ∈ ps ∧ ref pg = 0 else (p ∉ ps) ∧ 0 < ref pg) ∧
     node_used_pages s + Z.of_nat (length ps) = total_pages s) ∧
  ∀ op, page_op_pre s op → ∃ r s', run_page_op op s = Done (r, s').
Proof.
  intros Hs%page_reach_inv. split.
  - destruct Hs as (ps & Hr & Hc & _). exists ps.
    split; [apply Hr|]. split; [apply Hr|]. split; [|apply Hc].
    intros p pg Hp. pose proof (rep_free _ _ Hr _ _ Hp) as Hf.
    pose proof (rep_state _ _ Hr _ _ Hp) as Hst.
    destruct (is_free pg); [split; [by apply Hf|apply Hst]|].
    split; [rewrite <- Hf; done|apply Hst].
  - intros op Hpre. pose proof (page_op_ok op s Hs Hpre) as H.
    apply wp_done in H as (r & s' & ? & _). eauto.
Qed.

(** Four pages of memory, from page 1 on. *)
Definition four_pages : mem :=
  match run_page_op (OpAddRegion 1 4) (empty_mem 16 0 4096) with
  | Done (_, s) => s
  | Fault _ => empty_mem 16 0 4096
  end.

Lemma four_pages_reach : page_reach four_pages.
Proof.
  apply (reach_step (empty_mem 16 0 4096) (OpAddRegion 1 4) None).
  - apply reach_boot.
  - split_and!; try (vm_compute; congruence).
    split; [done|]. split; [done|]. intros q _. apply lookup_empty.
  - vm_compute. reflexivity.
Qed.

Lemma four_pages_rep : rep four_pages [4; 3; 2; 1] ∧ counted four_pages [4; 3; 2; 1] ∧
  Forall (arena_ok four_pages) (arena_list four_pages).
Proof.
  destruct (page_reach_inv _ four_pages_reach) as (ps & Hr & Hc & Ha).
  pose proof (rep_list _ _ Hr) as Hl.
  change (page_list four_pages) with (page_to_phys <$> [4; 3; 2; 1]) in Hl.
  apply (inj (fmap page_to_phys)) in Hl. by subst ps.
Qed.

Lemma page_allocator_safe_witness :
  page_reach four_pages ∧ ∃ r s', run_page_op (OpAlloc 2 0) four_pages = Done (r, s').
Proof.
  split; [apply four_pages_reach|].
  apply (page_allocator_safe four_pages four_pages_reach). split; reflexivity.
Defined.

(** [alloc_pages] (page by page) of [nr] pages: if that many are free it returns the
    first [nr] pages of the free list, linked in order, each with one reference, no
    longer free, and zeroed unless the caller declined; otherwise it returns nothing and
    every page it had taken is free again.  Pages it does not return keep their state. *)
Theorem alloc_pages_spec s ps nr fl :
  rep s ps → counted s ps → 0 <= nr →
  has fl PAGE_ALLOC_4GB_LIMIT = false → has fl PAGE_ALLOC_CONTIGUOUS && (1 <? nr) = false →
  ∃ r s', alloc_pages nr fl s = Done (r, s') ∧
  if nr <=? Z.of_nat (length ps)
  then let got := take (Z.to_nat nr) ps in
       r = head got ∧ chain (page_should_zero fl) s' got ∧
       rep s' (drop (Z.to_nat nr) ps) ∧ counted s' (drop (Z.to_nat nr) ps) ∧
       same_pages got s s'
  else r = None ∧ ∃ ps', ps' ≡ₚ ps ∧ rep s' ps' ∧ counted s' ps'.
Proof.
  intros Hr Hc Hnr Hl Hcont. pose proof (wp_alloc_pages nr fl ps s Hr Hc Hl Hcont) as H.
  apply wp_done in H as (r & s' & Hrun & Hlay & Hpost). exists r, s'. split; [done|].
  destruct (Z.leb_spec nr (Z.of_nat (length ps))).
  - rewrite bool_decide_true in Hpost by lia.
    destruct Hpost as (? & ? & ? & ? & ? & _). by split_and!.
  - rewrite bool_decide_false in Hpost by lia. destruct Hpost as (-> & ? & ? & _).
    split; [done|]. exists (rev ps). split_and!; try done. symmetry. apply Permutation_rev.
Qed.

Lemma alloc_pages_spec_witness :
  ∃ r s', alloc_pages 3 0 four_pages = Done (r, s') ∧ r = Some 4 ∧ chain true s' [4; 3; 2].
Proof.
  destruct (alloc_pages_spec four_pages [4; 3; 2; 1] 3 0) as (r & s' & Hrun & Hpost);
    [apply four_pages_rep|apply four_pages_rep|lia|reflexivity|reflexivity|].
  exists r, s'. split; [exact Hrun|]. split; apply Hpost.
Defined.

(** Contiguous allocation is sound and complete: a run it returns consists of [nr]
    consecutive free pages of one arena, entirely below 4 GiB when the caller asks for
    it, now linked, referenced once and off the free list; and it returns nothing only
    when every such run of every arena has a page in use.  When the caller asks for memory
    below 4 GiB this takes that the arenas that start there come first in the list, since
    the search ends at the first one that does not. *)
Theorem alloc_contiguous_spec s ps nr fl :
  rep s ps → Forall (arena_ok s) (arena_list s) → 1 <= nr →
  ∃ r s', alloc_contiguous nr fl s = Done (r, s') ∧
  match r with
  | Some f =>
      let got := run f (Z.to_nat nr) in
      (∃ a, a ∈ arena_list s ∧ start_arena a <= page_to_phys f ∧
            page_to_phys (f + nr) <= end_arena a) ∧
      (has fl PAGE_ALLOC_4GB_LIMIT = true → page_to_phys (f + nr) <= ADDRESS_4GB_MARK) ∧
      (∀ q, q ∈ got → q ∈ ps) ∧ chain (page_should_zero fl) s' got ∧
      rep s' (without got ps) ∧ same_pages got s s'
  | None =>
      s' = s ∧ ((has fl PAGE_ALLOC_4GB_LIMIT = true → low_first (arena_list s)) →
        ∀ a f, a ∈ arena_list s → start_arena a <= page_to_phys f → page_to_phys (f + nr) <= end_arena a →
          (has fl PAGE_ALLOC_4GB_LIMIT = true → page_to_phys (f + nr) <= ADDRESS_4GB_MARK) →
          ∃ q, q ∈ run f (Z.to_nat nr) ∧ q ∉ ps)
  end.
Proof.
  intros Hr Ha Hnr. pose proof (wp_alloc_contiguous nr fl ps s Hr Ha Hnr) as H.
  apply wp_done in H as (r & s' & Hrun & Hpost). exists r, s'. split; [done|].
  destruct r as [f|].
  - destruct Hpost as [(a & Hin & Hlo & Hhi) []].
    pose proof (eligible_in _ _ _ Hin) as Hin'.
    pose proof (proj1 (Forall_forall _ _) Ha a) as Hok.
    rewrite <- list_elem_of_In in Hok. specialize (Hok Hin').
    assert (f + nr <= arena_end a) by (unfold limit in Hhi; case_match; lia).
    split; [exists a; split; [done|]; rewrite (ar_start _ _ Hok), (ar_end _ _ Hok),
      !page_to_phys_eq; lia|].
    split; [|by split_and!]. intros Hl. unfold limit in Hhi. rewrite Hl in Hhi.
    change (ADDRESS_4GB_MARK / PAGE_SIZE) with 1048576 in Hhi.
    rewrite page_to_phys_eq. unfold ADDRESS_4GB_MARK. lia.
  - destruct Hpost as [-> Hno]. split; [done|]. intros Hlow a f Hin Hlo Hhi Hmark.
    pose proof (proj1 (Forall_forall _ _) Ha a (proj1 (list_elem_of_In _ _) Hin)) as Hok.
    rewrite page_to_phys_eq in Hlo, Hhi, Hmark. pose proof (ar_order _ _ Hok).
    rewrite (ar_end _ _ Hok), page_to_phys_eq in Hhi. pose proof Hlo as Hlo'. rewrite (ar_start _ _ Hok), page_to_phys_eq in Hlo'.
    apply not_all_free. apply (Hno a f).
    + apply eligible_all; [|done]. intros Hl. split; [by apply Hlow|]. specialize (Hmark Hl). unfold ADDRESS_4GB_MARK in *. lia.
    + split; [lia|]. unfold limit. destruct (has fl PAGE_ALLOC_4GB_LIMIT); [|lia]. specialize (Hmark eq_refl).
      change (ADDRESS_4GB_MARK / PAGE_SIZE) with 1048576. unfold ADDRESS_4GB_MARK in Hmark. lia.
Qed.

Lemma alloc_contiguous_spec_witness :
  ∃ s', alloc_contiguous 2 PAGE_ALLOC_4GB_LIMIT four_pages = Done (Some 1, s') ∧
        chain true s' [1; 2] ∧ rep s' [4; 3].
Proof.
  destruct (alloc_contiguous_spec four_pages [4; 3; 2; 1] 2 PAGE_ALLOC_4GB_LIMIT)
    as (r & s' & Hrun & Hpost); [apply four_pages_rep|apply four_pages_rep|lia|].
  pose proof Hrun as Hr'. vm_compute in Hr'. injection Hr' as <- _.
  exists s'. split; [exact Hrun|].
  destruct Hpost as (_ & _ & _ & Hch & Hrep & _). split; [exact Hch|exact Hrep].
Defined.

(** Freeing what [alloc_pages] returned undoes it: the same pages are free again,
    and the count of used pages is what it was. *)
Theorem alloc_free_roundtrip s ps nr fl :
  rep s ps → counted s ps → 0 < nr <= Z.of_nat (length ps) →
  has fl PAGE_ALLOC_4GB_LIMIT = false → has fl PAGE_ALLOC_CONTIGUOUS && (1 <? nr) = false →
  ∃ p s1 s2, alloc_pages nr fl s = Done (Some p, s1) ∧
    free_pages (Z.to_nat nr) p s1 = Done (tt, s2) ∧
    (∃ ps', ps' ≡ₚ ps ∧ rep s2 ps' ∧ counted s2 ps') ∧
    node_used_pages s2 = node_used_pages s.
Proof.
  intros Hr Hc Hnr Hl Hcont. pose proof (wp_alloc_pages nr fl ps s Hr Hc Hl Hcont) as H.
  apply wp_done in H as (r & s1 & Hrun & Hlay & Hpost).
  rewrite bool_decide_true in Hpost by lia. destruct Hpost as (-> & Hr1 & Hc1 & Hch & _). simpl in *.
  set (got := take (Z.to_nat nr) ps) in *.
  assert (length got = Z.to_nat nr) as Hlen by (unfold got; rewrite length_take; lia).
  assert (NoDup got) as Hnd.
  { eapply sublist_NoDup; [apply (rep_nodup _ _ Hr)|apply sublist_take]. }
  destruct got as [|p l] eqn:Eg; [simpl in Hlen; lia|].
  pose proof (wp_free_pages _ (Z.to_nat nr) l p _ s1 Hr1 Hc1 Hnd Hch ltac:(simpl in Hlen; lia)) as H.
  apply wp_done in H as ([] & s2 & Hfree & Hr2 & Hc2 & Hlay2 & _).
  exists p, s1, s2. split; [done|]. split; [done|].
  set (ps' := rev (p :: l) ++ drop (Z.to_nat nr) ps) in *.
  assert (ps' ≡ₚ ps) as Hperm.
  { unfold ps'. rewrite <- Permutation_rev, <- Eg. unfold got. by rewrite take_drop. }
  split; [by exists ps'|].
  pose proof (cnt_used _ _ Hc). pose proof (cnt_used _ _ Hc2).
  destruct Hlay as (_ & _ & Ht & _), Hlay2 as (_ & _ & Ht2 & _).
  pose proof (Permutation_length Hperm). lia.
Qed.

Lemma alloc_free_roundtrip_witness :
  ∃ p s1 s2, alloc_pages 2 0 four_pages = Done (Some p, s1) ∧
    free_pages 2 p s1 = Done (tt, s2) ∧ node_used_pages s2 = 0.
Proof.
  destruct (alloc_free_roundtrip four_pages [4; 3; 2; 1] 2 0)
    as (p & s1 & s2 & H1 & H2 & _ & H3);
    [apply four_pages_rep|apply four_pages_rep|simpl; lia|reflexivity|reflexivity|].
  exists p, s1, s2. split; [exact H1|]. split; [exact H2|]. exact H3.
Defined.

(** ** Accounting *)

Lemma without_run f n ps :
  NoDup ps → (∀ q, q ∈ run f n → q ∈ ps) → run f n ++ without (run f n) ps ≡ₚ ps.
Proof.
  intros Hnd Hin. apply NoDup_Permutation; [|done|].
  - apply list.NoDup_app. split; [apply NoDup_run|]. split.
    + intros q Hq. rewrite elem_of_without. tauto.
    + by apply list.NoDup_filter.
  - intros q. rewrite elem_of_app, elem_of_without. split; [naive_solver|].
    intros Hq. destruct (decide (q ∈ run f n)); auto.
Qed.

(** [n] single-page allocations in a row. *)
Fixpoint alloc_many (n : nat) (fl : Z) : PM unit :=
  match n with O => mret tt | S n => alloc_page fl;; alloc_many n fl end.

Lemma wp_alloc_many ps s fl :
  rep s ps → has fl PAGE_ALLOC_4GB_LIMIT = false →
  0 <= node_used_pages s → node_used_pages s + Z.of_nat (length ps) < 2 ^ 64 →
  wp (alloc_many (length ps) fl) (λ _ s', rep s' [] ∧
    node_used_pages s' = node_used_pages s + Z.of_nat (length ps) ∧
    total_pages s' = total_pages s) s.
Proof.
  intros Hr Hl. revert s Hr. induction ps as [|p ps IH]; intros s Hr H0 Hb.
  { simpl. wp_step. split_and!; try done. lia. }
  cbn [length alloc_many] in *. wp_step.
  eapply wp_mono; [by apply (wp_alloc_page_cons fl p ps s)|].
  cbn beta. intros r s1 (-> & Hr1 & (_ & _ & Ht1 & _) & _ & _ & Hn1 & _).
  rewrite u64_small in Hn1 by lia.
  eapply wp_mono; [apply (IH s1 Hr1); lia|].
  cbn beta. intros [] s2 (Hr2 & Hn2 & Ht2). split_and!; [done|lia|lia].
Qed.

(** A contiguous allocation (also the single page that any allocation below 4 GiB
    takes) is added twice to the global count and not to the node's own: if memory is
    later exhausted, the allocator does not report it but fails its assertion that all
    pages are used. *)
Theorem contiguous_breaks_accounting s ps nr fl fl' f s1 :
  rep s ps → counted s ps → Forall (arena_ok s) (arena_list s) → 1 <= nr →
  alloc_contiguous nr fl s = Done (Some f, s1) →
  has fl' PAGE_ALLOC_4GB_LIMIT = false →
  used_pages s1 = u64 (used_pages s + 2 * nr) ∧ node_used_pages s1 = node_used_pages s ∧
  ∃ s2, alloc_many (length ps - Z.to_nat nr) fl' s1 = Done (tt, s2) ∧ page_list s2 = [] ∧
        alloc_page fl' s2 = Fault AssertFailed.
Proof.
  intros Hr Hc Ha Hnr Hrun Hl.
  pose proof (wp_alloc_contiguous nr fl ps s Hr Ha Hnr) as H. unfold wp in H.
  rewrite Hrun in H. destruct H as [_ [Hin Hrep _ (_ & _ & Ht & _) _ Hn Hu]].
  split; [done|]. split; [done|].
  assert (length (without (run f (Z.to_nat nr)) ps) = length ps - Z.to_nat nr)%nat as Hlen.
  { rewrite <- (Permutation_length (without_run f (Z.to_nat nr) ps (rep_nodup _ _ Hr) Hin)).
    rewrite length_app, length_run. lia. }
  assert (Z.to_nat nr <= length ps)%nat as Hle.
  { rewrite <- (Permutation_length (without_run f (Z.to_nat nr) ps (rep_nodup _ _ Hr) Hin)).
    rewrite length_app, length_run. lia. }
  pose proof (cnt_used _ _ Hc). pose proof (cnt_range _ _ Hc). pose proof (cnt_size _ _ Hc).
  pose proof (length_le_size ps (page_map s) (rep_nodup _ _ Hr) (rep_in _ _ Hr)).
  pose proof (wp_alloc_many _ s1 fl' Hrep Hl ltac:(lia) ltac:(lia)) as H'.
  rewrite Hlen in H'. apply wp_done in H' as ([] & s2 & Hmany & Hr2 & Hn2 & Ht2).
  exists s2. split; [done|]. pose proof (rep_list _ _ Hr2) as Hpl. split; [done|].
  unfold alloc_page. rewrite Hl. unfold mbind, M_bind, gets. simpl. rewrite Hpl. simpl.
  unfold check. rewrite (proj2 (Z.eqb_neq _ _)) by lia. done.
Qed.

Lemma contiguous_breaks_accounting_witness :
  ∃ s1 s2, alloc_contiguous 1 PAGE_ALLOC_4GB_LIMIT four_pages = Done (Some 1, s1) ∧
    alloc_many 3 0 s1 = Done (tt, s2) ∧ alloc_page 0 s2 = Fault AssertFailed.
Proof.
  destruct (alloc_contiguous 1 PAGE_ALLOC_4GB_LIMIT four_pages) as [[r s1]|] eqn:E;
    [|vm_compute in E; discriminate E].
  assert (r = Some 1) as Hr1 by (vm_compute in E; by injection E as <- _).
  subst r. exists s1.
  destruct (contiguous_breaks_accounting four_pages [4; 3; 2; 1] 1 PAGE_ALLOC_4GB_LIMIT 0 1 s1)
    as (_ & _ & s2 & H1 & _ & H2);
    [apply four_pages_rep|apply four_pages_rep|apply four_pages_rep|lia|exact E|reflexivity|].
  exists s2. split; [reflexivity|]. split; [exact H1|exact H2].
Defined.

(** With an arena above 4 GiB in front, free memory below 4 GiB is not found. *)
Lemma low_run_refused :
  match (run_page_op (OpAddRegion 1048576 1);; run_page_op (OpAddRegion 1 4);; alloc_contiguous 1 PAGE_ALLOC_4GB_LIMIT)
      (empty_mem (2 ^ 21) 0 4096) with
  | Done (r, s) => r = None ∧ page_to_phys 1 ∈ page_list s
  | Fault _ => False
  end.
Proof. vm_compute. split; [done|]. set_solver. Qed.

(** Memory handed over by [reclaim_pages] was never counted as used, yet freeing it
    takes it off that count: with nothing allocated the count wraps around. *)
Lemma reclaim_underflows :
  match (page_add_page (page_to_phys 6);; reclaim_page 6) four_pages with
  | Done (_, s) => used_pages s = 2 ^ 64 - 1 ∧ total_pages s = total_pages four_pages
  | Fault _ => False
  end.
Proof. by vm_compute. Qed.
