(* ===== verification/WavlTree.v ===== *)
(** * WavlTree: the trees that the heap of [Wavl] represents.

    A tree of node addresses and ranks, the paths from a position up to the root,
    the weak AVL rank rule, and the facts about elements, ranks and heights that
    do not mention the heap. *)

From S2P Require Import Prelude.

Inductive tree : Type :=
  | Leaf
  | Node (l : tree) (a k : Z) (r : tree).

(** The node [a] of rank [k] with [x] as its child on side [d], [y] on the other. *)
Definition mk (d : bool) (a k : Z) (x y : tree) : tree :=
  if d then Node y a k x else Node x a k y.

(** One step of the way up: the hole is the child of [fr_addr] on side [fr_dir]. *)
Record frame : Type := Frame {
  fr_dir : bool;
  fr_addr : Z;
  fr_rank : Z;
  fr_sib : tree;
}.

Fixpoint plug (π : list frame) (t : tree) : tree :=
  match π with
  | [] => t
  | Frame d a k y :: π => plug π (mk d a k t y)
  end.

(** The addresses of a tree in order. *)
Fixpoint elems (t : tree) : list Z :=
  match t with
  | Leaf => []
  | Node l a _ r => elems l ++ a :: elems r
  end.

Fixpoint before (π : list frame) : list Z :=
  match π with
  | [] => []
  | Frame true a _ y :: π => before π ++ elems y ++ [a]
  | Frame false _ _ _ :: π => before π
  end.

Fixpoint after (π : list frame) : list Z :=
  match π with
  | [] => []
  | Frame true _ _ _ :: π => after π
  | Frame false a _ y :: π => a :: elems y ++ after π
  end.

(** The addresses of a path, in no particular order. *)
Fixpoint pelems (π : list frame) : list Z :=
  match π with
  | [] => []
  | Frame _ a _ y :: π => a :: elems y ++ pelems π
  end.

Definition tsize (t : tree) : Z := Z.of_nat (length (elems t)).

Definition rk (t : tree) : Z := match t with Leaf => 0 | Node _ _ k _ => k end.

Fixpoint height (t : tree) : Z :=
  match t with
  | Leaf => 0
  | Node l _ _ r => 1 + Z.max (height l) (height r)
  end.

(** The rank of a node whose children have ranks [i] and [j]: every rank
    difference is 1 or 2, and a node without children has rank 1. *)
Definition rank_ok (k i j : Z) : Prop :=
  i < k <= i + 2 ∧ j < k <= j + 2 ∧ (i = 0 → j = 0 → k = 1).

Fixpoint wavl (t : tree) : Prop :=
  match t with
  | Leaf => True
  | Node l _ k r => wavl l ∧ wavl r ∧ rank_ok k (rk l) (rk r)
  end.

(** The frames of [π] obey the rule when the tree in the hole has rank [i]. *)
Fixpoint pwavl (π : list frame) (i : Z) : Prop :=
  match π with
  | [] => True
  | Frame _ _ k y :: π => wavl y ∧ rank_ok k i (rk y) ∧ pwavl π k
  end.

(** ** Directions *)

Lemma mk_negb d a k x y : mk (negb d) a k x y = mk d a k y x.
Proof. by destruct d. Qed.

Lemma Node_mk d l a k r : Node l a k r = mk d a k (if d then r else l) (if d then l else r).
Proof. by destruct d. Qed.

Lemma mk_Node d a k x y : mk d a k x y = Node (if d then y else x) a k (if d then x else y).
Proof. by destruct d. Qed.

Lemma mk_not_Leaf d a k x y : mk d a k x y ≠ Leaf.
Proof. by destruct d. Qed.

Lemma rk_mk d a k x y : rk (mk d a k x y) = k.
Proof. by destruct d. Qed.

Lemma rank_ok_comm k i j : rank_ok k i j → rank_ok k j i.
Proof. unfold rank_ok. tauto. Qed.

Lemma wavl_mk d a k x y :
  wavl (mk d a k x y) ↔ wavl x ∧ wavl y ∧ rank_ok k (rk x) (rk y).
Proof. destruct d; simpl; [|done]. split; intros (?&?&?%rank_ok_comm); done. Qed.

(** ** Elements *)

Lemma elems_mk d a k x y :
  elems (mk d a k x y) =
    (if d then elems y else elems x) ++ a :: (if d then elems x else elems y).
Proof. by destruct d. Qed.

Lemma elems_mk_perm d a k x y : elems (mk d a k x y) ≡ₚ a :: elems x ++ elems y.
Proof. rewrite elems_mk. destruct d; solve_Permutation. Qed.

Lemma elems_Node_perm l a k r : elems (Node l a k r) ≡ₚ a :: elems l ++ elems r.
Proof. apply (elems_mk_perm false). Qed.

Lemma elems_mk_rank d a k k' x y : elems (mk d a k x y) = elems (mk d a k' x y).
Proof. by destruct d. Qed.

Lemma elems_rotate d a b k k' j j' x y z :
  elems (mk d a k (mk d b j x y) z) = elems (mk d b k' x (mk d a j' y z)).
Proof. destruct d; simpl; by rewrite <- !app_assoc. Qed.

Lemma elems_plug π t : elems (plug π t) = before π ++ elems t ++ after π.
Proof.
  revert t. induction π as [|[d a k y] π IH]; intros t; simpl; [by rewrite app_nil_r|].
  rewrite IH, elems_mk. destruct d; by rewrite <- !app_assoc.
Qed.

Lemma elems_plug_cong π t t' : elems t = elems t' → elems (plug π t) = elems (plug π t').
Proof. rewrite !elems_plug. by intros ->. Qed.

Lemma elems_plug_perm π t : elems (plug π t) ≡ₚ elems t ++ pelems π.
Proof.
  revert t. induction π as [|[d a k y] π IH]; intros t; simpl; [by rewrite app_nil_r|].
  rewrite IH, elems_mk_perm. solve_Permutation.
Qed.

Lemma pelems_app π π' : pelems (π ++ π') = pelems π ++ pelems π'.
Proof.
  induction π as [|[d a k y] π IH]; simpl; [done|]. by rewrite IH, <- app_assoc.
Qed.

Lemma plug_app π π' t : plug (π ++ π') t = plug π' (plug π t).
Proof. revert t. induction π as [|[d a k y] π IH]; intros t; simpl; auto. Qed.

Lemma length_pelems π : (length π <= length (pelems π))%nat.
Proof.
  induction π as [|[d a k y] π IH]; simpl; [lia|]. rewrite length_app. lia.
Qed.

(** Every element is the root of a subtree. *)
Lemma elem_of_plug t b : b ∈ elems t → ∃ π l k r, t = plug π (Node l b k r).
Proof.
  induction t as [|l IHl a k r IHr]; simpl; [by intros ?%not_elem_of_nil|].
  rewrite list.elem_of_app, elem_of_cons. intros [Hb|[->|Hb]].
  - destruct (IHl Hb) as (π & l' & k' & r' & ->).
    exists (π ++ [Frame false a k r]), l', k', r'. by rewrite plug_app.
  - by exists [], l, k, r.
  - destruct (IHr Hb) as (π & l' & k' & r' & ->).
    exists (π ++ [Frame true a k l]), l', k', r'. by rewrite plug_app.
Qed.

(** The last node on side [d]. *)
Lemma edge_plug d t : t ≠ Leaf →
  ∃ π a k x, t = plug π (mk d a k Leaf x) ∧ Forall (λ f, fr_dir f = d) π.
Proof.
  assert (∀ a k x y, (x ≠ Leaf → ∃ π b j z, x = plug π (mk d b j Leaf z) ∧
      Forall (λ f, fr_dir f = d) π) →
    ∃ π b j z, mk d a k x y = plug π (mk d b j Leaf z) ∧ Forall (λ f, fr_dir f = d) π) as Hstep.
  { intros a k [|l c j r] y IH; [by exists [], a, k, y|].
    destruct IH as (π & b & i & z & -> & Hd); [done|].
    exists (π ++ [Frame d a k y]), b, i, z. rewrite plug_app. split; [done|].
    apply Forall_app. split; [done|]. by constructor. }
  induction t as [|l IHl a k r IHr]; [done|]. intros _. rewrite (Node_mk d).
  apply Hstep. by destruct d.
Qed.

(** ** Ranks *)

Lemma wavl_rk t : wavl t → 0 <= rk t.
Proof.
  induction t as [|l IHl a k r IHr]; simpl; [lia|]. intros (?&?&?&?). specialize (IHl ltac:(done)). lia.
Qed.

Lemma wavl_rk_0 t : wavl t → rk t = 0 → t = Leaf.
Proof.
  destruct t as [|l a k r]; simpl; [done|]. intros (Hl&?&?&?) ->. apply wavl_rk in Hl. lia.
Qed.

Lemma wavl_plug π t : wavl (plug π t) ↔ wavl t ∧ pwavl π (rk t).
Proof.
  revert t. induction π as [|[d a k y] π IH]; intros t; simpl; [tauto|].
  rewrite IH, wavl_mk, rk_mk. tauto.
Qed.

(** Which node carries a rank does not matter. *)
Lemma pwavl_readdress π d a b k y π' i :
  pwavl (π ++ Frame d a k y :: π') i → pwavl (π ++ Frame d b k y :: π') i.
Proof. revert i. induction π as [|[e c j z] π IH]; intros i; simpl; naive_solver. Qed.

Lemma tsize_Node l a k r : tsize (Node l a k r) = 1 + tsize l + tsize r.
Proof. unfold tsize. simpl. rewrite length_app. simpl. lia. Qed.

Lemma height_nonneg t : 0 <= height t.
Proof. induction t; simpl; lia. Qed.

Lemma height_elems t : height t <= tsize t.
Proof. induction t; [done|]. rewrite tsize_Node. simpl. unfold tsize in *. lia. Qed.

Lemma height_rk t : wavl t → height t <= rk t.
Proof.
  induction t as [|l IHl a k r IHr]; simpl; [lia|].
  intros (Hl & Hr & ? & ? & _). specialize (IHl Hl). specialize (IHr Hr). lia.
Qed.

(** A tree of rank [k] has at least [2 ^ (k / 2) - 1] nodes. *)
Lemma rk_size t : wavl t → 2 ^ rk t <= (tsize t + 1) ^ 2.
Proof.
  induction t as [|l IHl a k r IHr]; [done|].
  intros (Hl & Hr & Hk1 & Hk2 & _). specialize (IHl Hl). specialize (IHr Hr).
  rewrite tsize_Node. cbn [rk]. pose proof (wavl_rk _ Hl). pose proof (wavl_rk _ Hr).
  assert (0 <= tsize l) by (unfold tsize; lia). assert (0 <= tsize r) by (unfold tsize; lia).
  destruct (decide (k = 1)) as [->|]; [nia|].
  assert (2 ^ k = 4 * 2 ^ (k - 2)) as ->.
  { replace k with (2 + (k - 2)) at 1 by lia. rewrite Z.pow_add_r by lia. lia. }
  assert (2 ^ (k - 2) <= 2 ^ rk l) by (apply Z.pow_le_mono_r; lia).
  assert (2 ^ (k - 2) <= 2 ^ rk r) by (apply Z.pow_le_mono_r; lia).
  nia.
Qed.

(** Distinct 64-bit addresses: no rank comes near the limit of [size_t]. *)
Lemma rk_bound t : wavl t → tsize t < 2 ^ 64 → rk t <= 128.
Proof.
  intros Ht Hs. pose proof (rk_size _ Ht) as H. assert (0 <= tsize t) by (unfold tsize; lia).
  destruct (Z.le_gt_cases (rk t) 128) as [|Hgt]; [done|].
  assert (2 ^ 129 <= 2 ^ rk t) by (apply Z.pow_le_mono_r; lia).
  assert ((tsize t + 1) ^ 2 <= (2 ^ 64) ^ 2) by (apply Z.pow_le_mono_l; lia).
  change ((2 ^ 64) ^ 2) with (2 ^ 128) in *. lia.
Qed.

Lemma pwavl_rk_le π t k : wavl (plug π t) → rk (plug π t) <= k → rk t <= k.
Proof.
  revert t. induction π as [|[d a j y] π IH]; intros t; simpl; [done|].
  intros H1 H2. specialize (IH _ H1 H2). rewrite rk_mk in IH.
  apply wavl_plug in H1 as [H1 _]. apply wavl_mk in H1 as (_ & _ & ? & _). lia.
Qed.
