(* ===== verification/Wavl.v ===== *)
(** * Wavl: the weak AVL tree of lib/binary_search_tree.

    The tree that orders the regions of an address space and of vmalloc.  It is
    modelled at the level of its pointers: a heap of nodes by address, each with
    its rank, its parent pointer and its two children, and the root pointer.
    Every function of binary_search_tree.c and every inline function of its
    header is one definition over that heap.  A dereference of a null or unknown
    pointer and a failed [DEBUG_ASSERT] are faults.

    The loops that walk along parent or child pointers take a bound on their
    number of iterations; the functions start them with the number of nodes in
    the heap plus one, and the theorems show that this is always enough. *)

From S2P Require Import Prelude.

(** A pointer to a node: its address, or [NULL]. *)
Definition ptr : Type := option Z.

Record bst_node : Type := BstNode {
  rank : Z;
  parent : ptr;
  child0 : ptr;
  child1 : ptr;
}.

(** [struct bst_root] together with the memory that holds the nodes. *)
Record bst : Type := Bst {
  root : ptr;
  nodes : gmap Z bst_node;
}.

#[export] Instance bst_node_eq_dec : EqDecision bst_node.
Proof. solve_decision. Defined.

(** [node->child[d]] *)
Definition child (n : bst_node) (d : bool) : ptr := if d then child1 n else child0 n.

Definition with_rank (k : Z) (n : bst_node) : bst_node :=
  BstNode k (parent n) (child0 n) (child1 n).
Definition with_parent (p : ptr) (n : bst_node) : bst_node :=
  BstNode (rank n) p (child0 n) (child1 n).
Definition with_child (d : bool) (c : ptr) (n : bst_node) : bst_node :=
  if d then BstNode (rank n) (parent n) (child0 n) c
  else BstNode (rank n) (parent n) c (child1 n).

(** ** Memory accesses *)

Definition load (a : Z) : M bst bst_node :=
  o ← gets (λ s, nodes s !! a);
  from_opt o UseAfterFree.

Definition deref (p : ptr) : M bst Z := from_opt p NullDeref.

Definition update (a : Z) (f : bst_node → bst_node) : M bst unit :=
  _ ← load a;
  modify (λ s, Bst (root s) (alter f a (nodes s))).

Definition DEBUG_ASSERT (b : bool) : M bst unit := check b AssertFailed.

(** Where a node is linked: [&root->root] or [&p->child[d]]. *)
Inductive link : Type :=
  | RootLink
  | ChildLink (p : Z) (d : bool).

Definition read_link (l : link) : M bst ptr :=
  match l with
  | RootLink => gets root
  | ChildLink p d => n ← load p; mret (child n d)
  end.

Definition write_link (l : link) (c : ptr) : M bst unit :=
  match l with
  | RootLink => modify (λ s, Bst c (nodes s))
  | ChildLink p d => update p (with_child d c)
  end.

(** A bound on the length of any walk along the pointers of the tree. *)
Definition walk_bound (s : bst) : nat := S (size (nodes s)).

(** ** binary_search_tree.c *)

Definition bst_node_rank (p : ptr) : M bst Z :=
  match p with
  | Some a => n ← load a; mret (rank n)
  | None => mret 0
  end.

Definition bst_is_right_child (node : Z) : M bst bool :=
  n ← load node;
  match parent n with
  | Some p =>
      pn ← load p;
      _ ← DEBUG_ASSERT (bool_decide (child pn false = Some node) ||
                        bool_decide (child pn true = Some node));
      mret (bool_decide (child pn true = Some node))
  | None => mret false
  end.

Definition bst_parent_ptr (node : Z) : M bst link :=
  n ← load node;
  l ← match parent n with
      | Some p => d ← bst_is_right_child node; mret (ChildLink p d)
      | None => mret RootLink
      end;
  v ← read_link l;
  _ ← DEBUG_ASSERT (bool_decide (v = Some node));
  mret l.

Definition bst_link_node (parent : Z) (is_right_child : bool) (child : ptr) : M bst unit :=
  _ ← update parent (with_child is_right_child child);
  match child with
  | Some c => update c (with_parent (Some parent))
  | None => mret tt
  end.

Definition bst_move_node (old_node : Z) (new_node : ptr) : M bst unit :=
  l ← bst_parent_ptr old_node;
  _ ← write_link l new_node;
  _ ← match new_node with
      | Some c => o ← load old_node; update c (with_parent (parent o))
      | None => mret tt
      end;
  update old_node (with_parent None).

Definition bst_rotate (up down : Z) (up_was_right_child : bool) : M bst unit :=
  dn ← load down;
  _ ← DEBUG_ASSERT (bool_decide (child dn up_was_right_child = Some up));
  un ← load up;
  let move_subtree := child un (negb up_was_right_child) in
  _ ← bst_move_node down (Some up);
  _ ← bst_link_node down up_was_right_child move_subtree;
  bst_link_node up (negb up_was_right_child) (Some down).

(** [node->rank += z] on the 64-bit rank. *)
Definition add_rank (a z : Z) : M bst unit :=
  update a (λ n, with_rank (u64 (rank n + z)) n).

Definition bst_rotate_insert (up1 down : Z) (up_was_right_child : bool) : M bst unit :=
  dn ← load down;
  _ ← DEBUG_ASSERT (bool_decide (child dn up_was_right_child = Some up1));
  un ← load up1;
  _ ← DEBUG_ASSERT (rank un =? rank dn);
  r ← bst_node_rank (child dn (negb up_was_right_child));
  _ ← DEBUG_ASSERT (u64 (r + 2) <=? rank dn);
  let up2 := child un (negb up_was_right_child) in
  r2 ← bst_node_rank up2;
  if u64 (rank dn - 1) <=? r2 then
    _ ← DEBUG_ASSERT (r2 =? u64 (rank dn - 1));
    up2 ← deref up2;
    _ ← add_rank up2 1;
    un ← load up1;
    u2 ← load up2;
    _ ← DEBUG_ASSERT (rank un =? rank u2);
    _ ← bst_rotate up2 up1 (negb up_was_right_child);
    _ ← add_rank up1 (-1);
    _ ← bst_rotate up2 down up_was_right_child;
    add_rank down (-1)
  else
    _ ← bst_rotate up1 down up_was_right_child;
    add_rank down (-1).

(** The loop of [bst_update_rank_insert]. *)
Fixpoint update_rank_insert_loop (fuel : nat) (node : Z) : M bst unit :=
  match fuel with
  | O => crash OutOfFuel
  | S fuel =>
      is_right_child ← bst_is_right_child node;
      n ← load node;
      let rk := u64 (rank n + 1) in
      match parent n with
      | None => mret tt
      | Some p =>
          pn ← load p;
          if rk <=? rank pn then DEBUG_ASSERT (rank pn =? rk)
          else
            _ ← DEBUG_ASSERT (u64 (rank pn + 1) =? rk);
            r ← bst_node_rank (child pn (negb is_right_child));
            if u64 (r + 2) <? rk then
              up1 ← deref (child pn is_right_child);
              bst_rotate_insert up1 p is_right_child
            else
              _ ← update p (with_rank rk);
              update_rank_insert_loop fuel p
      end
  end.

Definition bst_update_rank_insert (node : Z) : M bst unit :=
  n ← load node;
  _ ← DEBUG_ASSERT (rank n =? 1);
  bound ← gets walk_bound;
  update_rank_insert_loop bound node.

Definition bst_rotate_delete (up1 down : Z) (up_was_right_child : bool) : M bst unit :=
  dn ← load down;
  _ ← DEBUG_ASSERT (bool_decide (child dn up_was_right_child = Some up1));
  un ← load up1;
  _ ← DEBUG_ASSERT (rank un =? u64 (rank dn - 1));
  r ← bst_node_rank (child dn (negb up_was_right_child));
  _ ← DEBUG_ASSERT (rank dn =? u64 (r + 3));
  let up2 := child un (negb up_was_right_child) in
  ro ← bst_node_rank (child un up_was_right_child);
  if ro <=? u64 (rank dn - 3) then
    r2 ← bst_node_rank up2;
    _ ← DEBUG_ASSERT (r2 =? u64 (rank dn - 2));
    _ ← DEBUG_ASSERT (rank un =? u64 (rank dn - 1));
    up2 ← deref up2;
    u2 ← load up2;
    _ ← DEBUG_ASSERT (rank u2 =? u64 (rank dn - 2));
    _ ← bst_rotate up2 up1 (negb up_was_right_child);
    _ ← bst_rotate up2 down up_was_right_child;
    _ ← add_rank up2 2;
    _ ← add_rank up1 (-1);
    add_rank down (-2)
  else
    _ ← bst_rotate up1 down up_was_right_child;
    _ ← add_rank up1 1;
    _ ← add_rank down (-1);
    dn ← load down;
    r0 ← bst_node_rank (child dn false);
    r1 ← bst_node_rank (child dn true);
    if (r0 =? u64 (rank dn - 2)) && (r1 =? u64 (rank dn - 2))
    then add_rank down (-1) else mret tt.

(** The loop of [bst_update_rank_delete]. *)
Fixpoint update_rank_delete_loop (fuel : nat) (node : ptr) (is_right_child : bool) : M bst unit :=
  match fuel with
  | O => crash OutOfFuel
  | S fuel =>
      match node with
      | None => mret tt
      | Some node =>
          n ← load node;
          let other := child n (negb is_right_child) in
          ro ← bst_node_rank other;
          r ← bst_node_rank (child n is_right_child);
          _ ← DEBUG_ASSERT (ro <? rank n);
          _ ← DEBUG_ASSERT (r <? u64 (rank n - 1));
          _ ← DEBUG_ASSERT (rank n <=? u64 (ro + 2));
          let leaf := bool_decide (child n false = None) && bool_decide (child n true = None) in
          _ ← (if leaf then DEBUG_ASSERT (rank n =? 2) else mret tt);
          if negb leaf && (rank n <=? u64 (r + 2)) then mret tt
          else
            _ ← DEBUG_ASSERT (1 <? rank n);
            _ ← add_rank node (-1);
            n ← load node;
            let up :=
              d ← bst_is_right_child node;
              update_rank_delete_loop fuel (parent n) d in
            if rank n <=? ro then
              _ ← DEBUG_ASSERT (rank n =? ro);
              other ← deref other;
              on ← load other;
              r0 ← bst_node_rank (child on false);
              r1 ← bst_node_rank (child on true);
              if (r0 =? u64 (rank n - 2)) && (r1 =? u64 (rank n - 2)) then
                _ ← add_rank other (-1);
                up
              else
                _ ← add_rank node 1;
                bst_rotate_delete other node (negb is_right_child)
            else up
      end
  end.

Definition bst_update_rank_delete (node : Z) (is_right_child : bool) : M bst unit :=
  n ← load node;
  r ← bst_node_rank (child n is_right_child);
  ro ← bst_node_rank (child n (negb is_right_child));
  _ ← DEBUG_ASSERT (r <=? ro);
  bound ← gets walk_bound;
  update_rank_delete_loop bound (Some node) is_right_child.

Fixpoint find_edge_loop (fuel : nat) (node : Z) (edge : bool) : M bst Z :=
  match fuel with
  | O => crash OutOfFuel
  | S fuel =>
      n ← load node;
      match child n edge with
      | Some c => find_edge_loop fuel c edge
      | None => mret node
      end
  end.

Definition bst_find_edge (node : Z) (edge : bool) : M bst Z :=
  bound ← gets walk_bound;
  find_edge_loop bound node edge.

Definition bst_delete_all_helper (node : Z) : M bst unit :=
  n ← load node;
  _ ← DEBUG_ASSERT (bool_decide (child n false = None));
  bst_move_node node (child n true).

Definition bst_delete (node : Z) : M bst unit :=
  node_is_right_child ← bst_is_right_child node;
  n ← load node;
  '(new_child, update_rank_start, update_rank_is_right_child) ←
    match child n false, child n true with
    | None, c1 => mret (c1, parent n, node_is_right_child)
    | Some c0, None => mret (Some c0, parent n, node_is_right_child)
    | Some _, Some _ =>
        first ← deref (child n (negb node_is_right_child));
        edge_node ← bst_find_edge first node_is_right_child;
        en ← load edge_node;
        let edge_child := child en (negb node_is_right_child) in
        edge_is_right ← bst_is_right_child edge_node;
        let '(start, right_child) :=
          if bool_decide (parent en = Some node)
          then (Some edge_node, negb node_is_right_child)
          else (parent en, edge_is_right) in
        _ ← DEBUG_ASSERT (bool_decide (start ≠ None));
        _ ← bst_move_node edge_node edge_child;
        n ← load node;
        _ ← bst_link_node edge_node false (child n false);
        n ← load node;
        _ ← bst_link_node edge_node true (child n true);
        n ← load node;
        _ ← update edge_node (with_rank (rank n));
        mret (Some edge_node, start, right_child)
    end;
  _ ← bst_move_node node new_child;
  _ ← update node (with_rank 0);
  match update_rank_start with
  | Some start => bst_update_rank_delete start update_rank_is_right_child
  | None => mret tt
  end.

(** The climb of [bst_prev_next]: to the first ancestor that is entered from the
    other side. *)
Fixpoint prev_next_climb (fuel : nat) (next_parent : Z) (dir_next : bool) : M bst ptr :=
  match fuel with
  | O => crash OutOfFuel
  | S fuel =>
      d ← bst_is_right_child next_parent;
      n ← load next_parent;
      if eqb d dir_next then
        match parent n with
        | None => mret None
        | Some p => prev_next_climb fuel p dir_next
        end
      else mret (parent n)
  end.

Definition bst_prev_next (node : ptr) (dir_next : bool) : M bst ptr :=
  next_child ← match node with
               | Some a => n ← load a; mret (child n dir_next)
               | None => gets root
               end;
  match next_child, node with
  | Some c, _ => e ← bst_find_edge c (negb dir_next); mret (Some e)
  | None, None => mret None
  | None, Some a => bound ← gets walk_bound; prev_next_climb bound a dir_next
  end.

Definition bst_prev (node : ptr) : M bst ptr := bst_prev_next node false.
Definition bst_next (node : ptr) : M bst ptr := bst_prev_next node true.

Definition bst_min (node : ptr) : M bst ptr :=
  r ← gets root;
  match (match node with Some a => Some a | None => r end) with
  | None => mret None
  | Some c => e ← bst_find_edge c false; mret (Some e)
  end.

(** ** The inline functions of binary_search_tree.h

    [compare] is the caller's comparison: it is given the address of a node of
    the tree and the key of the search, and may itself fault. *)

Definition from_outcome {A} (o : outcome A) : M bst A :=
  match o with Done a => mret a | Fault why => crash why end.

Section search.
Context {K : Type} (compare : Z → K → outcome Z).

Fixpoint search_loop (fuel : nat) (tree_node : ptr) (node : K) : M bst ptr :=
  match fuel with
  | O => crash OutOfFuel
  | S fuel =>
      match tree_node with
      | None => mret None
      | Some a =>
          cmp ← from_outcome (compare a node);
          if cmp =? 0 then mret (Some a)
          else n ← load a; search_loop fuel (child n (0 <? cmp)) node
      end
  end.

Definition bst_search (node : K) : M bst ptr :=
  r ← gets root;
  bound ← gets walk_bound;
  search_loop bound r node.
End search.

Section insert.
Context (compare : Z → Z → outcome Z).

Fixpoint insert_loop (fuel : nat) (parent : ptr) (parent_ptr : link) (node : Z) : M bst bool :=
  match fuel with
  | O => crash OutOfFuel
  | S fuel =>
      tree_node ← read_link parent_ptr;
      match tree_node with
      | None =>
          _ ← update node (λ _, BstNode 1 parent None None);
          _ ← write_link parent_ptr (Some node);
          _ ← bst_update_rank_insert node;
          mret true
      | Some a =>
          diff ← from_outcome (compare a node);
          if diff =? 0 then mret false
          else insert_loop fuel (Some a) (ChildLink a (0 <? diff)) node
      end
  end.

Definition bst_insert (node : Z) : M bst bool :=
  n ← load node;
  _ ← DEBUG_ASSERT (rank n =? 0);
  bound ← gets walk_bound;
  insert_loop bound None RootLink node.
End insert.

Definition bst_node_initialize (node : Z) : M bst unit := update node (with_rank 0).

Definition bst_root_initialize : M bst unit := modify (λ s, Bst None (nodes s)).

(** [bst_for_every_entry]: [body] is run on every entry; the result is the list
    of entries it was given. *)
Section iteration.
Context (body : Z → M bst unit).

Fixpoint for_every_entry_loop (fuel : nat) (cursor : ptr) : M bst (list Z) :=
  match fuel with
  | O => crash OutOfFuel
  | S fuel =>
      match cursor with
      | None => mret []
      | Some entry =>
          cursor ← bst_next (Some entry);
          _ ← body entry;
          rest ← for_every_entry_loop fuel cursor;
          mret (entry :: rest)
      end
  end.

Definition bst_for_every_entry : M bst (list Z) :=
  cursor ← bst_next None;
  bound ← gets walk_bound;
  for_every_entry_loop bound cursor.
End iteration.

(** [bst_for_every_entry_delete] is the same loop; it unlinks the entry before
    the body runs. *)
Definition bst_for_every_entry_delete (body : Z → M bst unit) : M bst (list Z) :=
  bst_for_every_entry (λ entry, _ ← bst_delete_all_helper entry; body entry).
