(* ===== verification/WavlHeap.v ===== *)
(** * WavlHeap: heaps that represent a tree.

    [focus s π t] says that the heap of [s] holds the tree [t] at the end of the
    path [π], all at distinct addresses.  The lemmas execute the pointer
    operations of [Wavl] on such heaps: linking, moving, rotating, replacing a
    node by another. *)

From S2P Require Import Prelude Wavl WavlTree.

Definition addr (t : tree) : ptr := match t with Leaf => None | Node _ a _ _ => Some a end.

Definition paddr (π : list frame) : ptr :=
  match π with [] => None | f :: _ => Some (fr_addr f) end.

(** The node of rank [k] under [p] with child [x] on side [d] and [y] on the other. *)
Definition node_of (d : bool) (k : Z) (p x y : ptr) : bst_node :=
  if d then BstNode k p y x else BstNode k p x y.

Fixpoint tree_at (h : gmap Z bst_node) (p : ptr) (t : tree) : Prop :=
  match t with
  | Leaf => True
  | Node l a k r =>
      h !! a = Some (BstNode k p (addr l) (addr r)) ∧
      tree_at h (Some a) l ∧ tree_at h (Some a) r
  end.

Fixpoint path_at (s : bst) (π : list frame) (c : ptr) : Prop :=
  match π with
  | [] => root s = c
  | Frame d a k y :: π =>
      nodes s !! a = Some (node_of d k (paddr π) c (addr y)) ∧
      tree_at (nodes s) (Some a) y ∧ path_at s π (Some a)
  end.

Definition focus (s : bst) (π : list frame) (t : tree) : Prop :=
  path_at s π (addr t) ∧ tree_at (nodes s) (paddr π) t ∧ NoDup (elems t ++ pelems π).

(** [s] is the tree [t]. *)
Definition rep (s : bst) (t : tree) : Prop := focus s [] t.

(** Nodes outside [L] are not touched, and no node appears or vanishes. *)
Definition same_off (L : list Z) (s s' : bst) : Prop :=
  (∀ b, b ∉ L → nodes s' !! b = nodes s !! b) ∧ dom (nodes s') = dom (nodes s).

(** The heap after the pointer to the hole of [π] is set to [c]. *)
Definition relink (π : list frame) (c : ptr) (s : bst) : bst :=
  match π with
  | [] => Bst c (nodes s)
  | f :: _ => Bst (root s) (alter (with_child (fr_dir f) c) (fr_addr f) (nodes s))
  end.

Definition reparent (c p : ptr) (h : gmap Z bst_node) : gmap Z bst_node :=
  match c with Some a => alter (with_parent p) a h | None => h end.

(** ** Nodes seen from a side *)

Section node_of.
Context (d : bool) (k : Z) (p x y c : ptr).

Lemma child_node_of : child (node_of d k p x y) d = x.
Proof. by destruct d. Qed.
Lemma child_node_of_negb : child (node_of d k p x y) (negb d) = y.
Proof. by destruct d. Qed.
Lemma with_child_node_of : with_child d c (node_of d k p x y) = node_of d k p c y.
Proof. by destruct d. Qed.
Lemma with_child_node_of_negb : with_child (negb d) c (node_of d k p x y) = node_of d k p x c.
Proof. by destruct d. Qed.
Lemma with_parent_node_of : with_parent c (node_of d k p x y) = node_of d k c x y.
Proof. by destruct d. Qed.
Lemma with_rank_node_of j : with_rank j (node_of d k p x y) = node_of d j p x y.
Proof. by destruct d. Qed.
Lemma rank_node_of : rank (node_of d k p x y) = k.
Proof. by destruct d. Qed.
Lemma parent_node_of : parent (node_of d k p x y) = p.
Proof. by destruct d. Qed.
Lemma node_of_negb : node_of (negb d) k p x y = node_of d k p y x.
Proof. by destruct d. Qed.
End node_of.

Create Rewrite HintDb node.
#[export] Hint Rewrite child_node_of child_node_of_negb with_child_node_of
  with_child_node_of_negb with_parent_node_of with_rank_node_of rank_node_of
  parent_node_of negb_involutive : node.

Lemma addr_mk d a k x y : addr (mk d a k x y) = Some a.
Proof. by destruct d. Qed.

Lemma tree_at_mk h p d a k x y :
  tree_at h p (mk d a k x y) ↔
  h !! a = Some (node_of d k p (addr x) (addr y)) ∧ tree_at h (Some a) x ∧ tree_at h (Some a) y.
Proof. destruct d; simpl; tauto. Qed.

Lemma addr_elem t a : addr t = Some a → a ∈ elems t.
Proof.
  destruct t; simpl; [done|]. intros [= ->]. apply list.elem_of_app. right. by left.
Qed.

Lemma paddr_elem π a : paddr π = Some a → a ∈ pelems π.
Proof. destruct π as [|[]]; simpl; [done|]. intros [= ->]. by left. Qed.

(** ** Frames *)

Lemma tree_at_frame h h' p t :
  (∀ b, b ∈ elems t → h' !! b = h !! b) → tree_at h p t → tree_at h' p t.
Proof.
  revert p. induction t as [|l IHl a k r IHr]; intros p Heq; simpl; [done|].
  simpl in Heq. intros (Ha & Hl & Hr). split_and!.
  - rewrite Heq by set_solver. done.
  - apply IHl; [set_solver|done].
  - apply IHr; [set_solver|done].
Qed.

(** A subtree that is hung under another parent. *)
Lemma tree_at_reparent h h' p q t :
  NoDup (elems t) → (∀ b, b ∈ elems t → h' !! b = reparent (addr t) p h !! b) →
  tree_at h q t → tree_at h' p t.
Proof.
  destruct t as [|l a k r]; simpl; [done|]. rewrite list.NoDup_app, list.NoDup_cons.
  intros (_ & Hl & Hr & _) Heq (Ha & Hl' & Hr'). split_and!.
  - rewrite Heq by set_solver. by rewrite lookup_alter_eq, Ha.
  - eapply tree_at_frame; [|done]. intros b Hb. rewrite Heq by set_solver.
    apply lookup_alter_ne. set_solver.
  - eapply tree_at_frame; [|done]. intros b Hb. rewrite Heq by set_solver.
    apply lookup_alter_ne. set_solver.
Qed.

Lemma path_at_frame s s' π c :
  root s' = root s → (∀ b, b ∈ pelems π → nodes s' !! b = nodes s !! b) →
  path_at s π c → path_at s' π c.
Proof.
  intros Hr. revert c. induction π as [|[d a k y] π IH]; intros c Heq; simpl; [by rewrite Hr|].
  simpl in Heq. intros (Ha & Hy & Hp). split_and!.
  - rewrite Heq by set_solver. done.
  - eapply tree_at_frame; [|done]. set_solver.
  - apply IH; [set_solver|done].
Qed.

Lemma path_at_relink s s' π c c' :
  NoDup (pelems π) → root s' = root (relink π c' s) →
  (∀ b, b ∈ pelems π → nodes s' !! b = nodes (relink π c' s) !! b) →
  path_at s π c → path_at s' π c'.
Proof.
  destruct π as [|[d a k y] π]; simpl; [by intros _ ->|].
  rewrite list.NoDup_cons. intros [Ha _] Hr Heq (H1 & H2 & H3). split_and!.
  - rewrite Heq by set_solver. rewrite lookup_alter_eq, H1. simpl.
    by rewrite with_child_node_of.
  - eapply tree_at_frame; [|done]. intros b Hb. rewrite Heq by set_solver.
    apply lookup_alter_ne. set_solver.
  - eapply path_at_frame; [done| |done]. intros b Hb. rewrite Heq by set_solver.
    apply lookup_alter_ne. set_solver.
Qed.

(** ** Moving the focus *)

Lemma focus_up s d a k y π t :
  focus s (Frame d a k y :: π) t ↔ focus s π (mk d a k t y).
Proof.
  unfold focus. simpl. rewrite tree_at_mk, addr_mk.
  assert (elems (mk d a k t y) ++ pelems π ≡ₚ elems t ++ a :: elems y ++ pelems π) as ->.
  { rewrite elems_mk_perm. solve_Permutation. }
  naive_solver.
Qed.

Lemma focus_app s π π' t : focus s (π ++ π') t ↔ focus s π' (plug π t).
Proof.
  revert t. induction π as [|[d a k y] π IH]; intros t; simpl; [done|].
  by rewrite focus_up, IH.
Qed.

Lemma focus_rep s π t : focus s π t ↔ rep s (plug π t).
Proof. unfold rep. rewrite <- focus_app. by rewrite app_nil_r. Qed.

Lemma focus_node s π d a k x y :
  focus s π (mk d a k x y) → nodes s !! a = Some (node_of d k (paddr π) (addr x) (addr y)).
Proof. intros (_ & H & _). by apply tree_at_mk in H as [? _]. Qed.

Lemma focus_nodup s π d a k x y :
  focus s π (mk d a k x y) → NoDup (a :: elems x ++ elems y ++ pelems π).
Proof.
  intros (_ & _ & H). rewrite elems_mk_perm in H. simpl in H. by rewrite <- app_assoc in H.
Qed.

(** ** Executing the pointer operations *)

Definition pdir (π : list frame) : bool := match π with [] => false | f :: _ => fr_dir f end.

Lemma wp_load s a n (Q : bst_node → bst → Prop) :
  nodes s !! a = Some n → Q n s → wp (load a) Q s.
Proof. intros H HQ. unfold load. do 2 wp_step. by eapply wp_from_opt. Qed.

Lemma wp_update s a n f (Q : unit → bst → Prop) :
  nodes s !! a = Some n → Q tt (Bst (root s) (alter f a (nodes s))) → wp (update a f) Q s.
Proof. intros H HQ. unfold update. wp_step. by eapply wp_load. Qed.

Lemma wp_deref s a (Q : Z → bst → Prop) : Q a s → wp (deref (Some a)) Q s.
Proof. done. Qed.

Lemma wp_assert s b (Q : unit → bst → Prop) : b = true → Q tt s → wp (DEBUG_ASSERT b) Q s.
Proof. by intros ->. Qed.

Lemma wp_node_rank s p t (Q : Z → bst → Prop) :
  tree_at (nodes s) p t → Q (rk t) s → wp (bst_node_rank (addr t)) Q s.
Proof.
  destruct t as [|l a k r]; simpl; [done|]. intros [H _] HQ. wp_step. by eapply wp_load.
Qed.

Lemma wp_is_right_child s a n π (Q : bool → bst → Prop) :
  path_at s π (Some a) → a ∉ pelems π → nodes s !! a = Some n → parent n = paddr π →
  Q (pdir π) s → wp (bst_is_right_child a) Q s.
Proof.
  intros Hp Ha Hn Hpar HQ. unfold bst_is_right_child. wp_step. eapply wp_load; [done|].
  rewrite Hpar. destruct π as [|[d p k y] π]; simpl in *; [done|].
  destruct Hp as (Hp & _). wp_step. eapply wp_load; [done|].
  assert (addr y ≠ Some a) as Hy by (intros ?%addr_elem; set_solver).
  destruct d; simpl in *.
  - rewrite (bool_decide_true (Some a = Some a)) by done. rewrite orb_true_r. exact HQ.
  - rewrite (bool_decide_true (Some a = Some a)), (bool_decide_false (addr y = _)) by done.
    exact HQ.
Qed.

Lemma wp_parent_ptr s a n π (Q : link → bst → Prop) :
  path_at s π (Some a) → a ∉ pelems π → nodes s !! a = Some n → parent n = paddr π →
  Q (match π with [] => RootLink | f :: _ => ChildLink (fr_addr f) (fr_dir f) end) s →
  wp (bst_parent_ptr a) Q s.
Proof.
  intros Hp Ha Hn Hpar HQ. unfold bst_parent_ptr. wp_step. eapply wp_load; [done|].
  wp_step. rewrite Hpar. destruct π as [|[d p k y] π]; simpl in *.
  - do 2 wp_step. apply wp_gets. rewrite Hp. wp_step. apply wp_assert; [|done].
    by apply bool_decide_true.
  - wp_step. eapply (wp_is_right_child s a n (Frame d p k y :: π)); try done.
    wp_step. wp_step. destruct Hp as (Hp & _). cbn [read_link]. wp_step. eapply wp_load; [done|].
    wp_step. wp_step. apply wp_assert; [|done].
    apply bool_decide_true. simpl. apply child_node_of.
Qed.

Lemma wp_link_node s p n d c (Q : unit → bst → Prop) :
  nodes s !! p = Some n → (∀ b, c = Some b → is_Some (nodes s !! b)) →
  Q tt (Bst (root s) (reparent c (Some p) (alter (with_child d c) p (nodes s)))) →
  wp (bst_link_node p d c) Q s.
Proof.
  intros Hn Hc HQ. unfold bst_link_node. wp_step. eapply wp_update; [done|].
  destruct c as [b|]; [|done]. destruct (Hc b eq_refl) as [m Hm].
  assert (is_Some (alter (with_child d (Some b)) p (nodes s) !! b)) as [m' Hm'].
  { apply lookup_alter_is_Some. by exists m. }
  eapply wp_update; [exact Hm'|]. exact HQ.
Qed.

Lemma wp_move_node s a n π c (Q : unit → bst → Prop) :
  path_at s π (Some a) → a ∉ pelems π → nodes s !! a = Some n → parent n = paddr π →
  (∀ b, c = Some b → is_Some (nodes s !! b)) →
  Q tt (Bst (root (relink π c s))
         (alter (with_parent None) a (reparent c (paddr π) (nodes (relink π c s))))) →
  wp (bst_move_node a c) Q s.
Proof.
  intros Hp Ha Hn Hpar Hc HQ. unfold bst_move_node. wp_step. eapply wp_parent_ptr; try done.
  wp_step.
  assert (nodes (relink π c s) !! a = Some n) as Hn'.
  { destruct π as [|[d p k y] π]; simpl in *; [done|].
    rewrite lookup_alter_ne; [done|]. set_solver. }
  assert (∀ b, c = Some b → is_Some (nodes (relink π c s) !! b)) as Hc'.
  { intros b ->. destruct π; simpl; [by apply Hc|]. by apply lookup_alter_is_Some, Hc. }
  assert (wp (write_link (match π with [] => RootLink | f :: _ => ChildLink (fr_addr f) (fr_dir f) end) c)
    (λ _ s', s' = relink π c s) s) as Hw.
  { destruct π as [|[d p k y] π]; simpl in *; [done|]. destruct Hp as [Hp _].
    by eapply wp_update. }
  eapply wp_mono; [exact Hw|]. intros _ ? ->. wp_step.
  assert (is_Some (reparent c (paddr π) (nodes (relink π c s)) !! a)) as [m Hm].
  { destruct c; simpl; [|by exists n]. apply lookup_alter_is_Some. by exists n. }
  destruct c as [b|].
  - wp_step. eapply wp_load; [done|]. rewrite Hpar. destruct (Hc' b eq_refl) as [mb Hmb].
    eapply wp_update; [done|]. eapply wp_update; [exact Hm|]. done.
  - wp_step. by eapply wp_update.
Qed.

(** ** Rotations *)

(** Disjoint lists of addresses, and tactics that take the parts of a [NoDup]
    apart and refute an address that lies in two of them. *)
Definition disj (l l' : list Z) : Prop := ∀ x, x ∈ l → x ∉ l'.

Lemma nodup_app l l' : NoDup (l ++ l') ↔ NoDup l ∧ NoDup l' ∧ disj l l'.
Proof. rewrite list.NoDup_app. unfold disj. tauto. Qed.
Lemma nodup_perm (l l' : list Z) : l ≡ₚ l' → NoDup l → NoDup l'.
Proof. by intros ->. Qed.
Lemma disj_app_l l1 l2 l : disj (l1 ++ l2) l ↔ disj l1 l ∧ disj l2 l.
Proof. unfold disj. set_solver. Qed.
Lemma disj_app_r l1 l2 l : disj l (l1 ++ l2) ↔ disj l l1 ∧ disj l l2.
Proof. unfold disj. set_solver. Qed.
Lemma disj_cons_l a l1 l : disj (a :: l1) l ↔ (a ∉ l) ∧ disj l1 l.
Proof. unfold disj. set_solver. Qed.
Lemma disj_cons_r a l1 l : disj l (a :: l1) ↔ (a ∉ l) ∧ disj l l1.
Proof. unfold disj. set_solver. Qed.

Ltac apart :=
  repeat match goal with
  | H : NoDup (_ :: _) |- _ => apply list.NoDup_cons in H as [? H]
  | H : NoDup (_ ++ _) |- _ => apply nodup_app in H as (? & ? & ?)
  | H : _ ∉ _ :: _ |- _ => apply not_elem_of_cons in H as [? ?]
  | H : _ ∉ _ ++ _ |- _ => apply not_elem_of_app in H as [? ?]
  | H : disj (_ ++ _) _ |- _ => apply disj_app_l in H as [? ?]
  | H : disj _ (_ ++ _) |- _ => apply disj_app_r in H as [? ?]
  | H : disj (_ :: _) _ |- _ => apply disj_cons_l in H as [? ?]
  | H : disj _ (_ :: _) |- _ => apply disj_cons_r in H as [? ?]
  end.

Ltac clash :=
  match goal with
  | H : ?x ≠ ?x |- _ => exact (False_ind _ (H eq_refl))
  | H : ?x ∉ ?l, H' : ?x ∈ ?l |- _ => exact (False_ind _ (H H'))
  | H : disj ?l ?l', H1 : ?x ∈ ?l, H2 : ?x ∈ ?l' |- _ => exact (False_ind _ (H _ H1 H2))
  end.
Ltac diff := first [assumption | intros ->; clash | intros <-; clash].

Lemma lookup_reparent_ne c p h b : c ≠ Some b → reparent c p h !! b = h !! b.
Proof. destruct c; simpl; [|done]. intros. apply lookup_alter_ne. congruence. Qed.

Lemma reparent_is_Some c p h b : is_Some (reparent c p h !! b) ↔ is_Some (h !! b).
Proof. destruct c; simpl; [apply lookup_alter_is_Some|done]. Qed.

Lemma dom_reparent c p h : dom (reparent c p h) = dom h.
Proof. destruct c; simpl; [apply dom_alter_L|done]. Qed.

Lemma dom_relink π c s : dom (nodes (relink π c s)) = dom (nodes s).
Proof. destruct π; simpl; [done|apply dom_alter_L]. Qed.

Lemma lookup_relink_ne π c s b : paddr π ≠ Some b → nodes (relink π c s) !! b = nodes s !! b.
Proof. destruct π; simpl; [done|]. intros. apply lookup_alter_ne. congruence. Qed.

Lemma tree_at_is_Some h p t b : tree_at h p t → addr t = Some b → is_Some (h !! b).
Proof. destruct t; simpl; [done|]. intros [H _] [= <-]. by eexists. Qed.

(** Reads a heap after a sequence of updates at other addresses. *)
Ltac heap_ne :=
  repeat first
    [ rewrite lookup_alter_ne by diff
    | rewrite lookup_reparent_ne by (first [assumption | intros ?%addr_elem; clash])
    | rewrite lookup_relink_ne by (intros ?%paddr_elem; clash) ].
Ltac heap_dom := repeat first [rewrite dom_alter_L | rewrite dom_reparent | rewrite dom_relink].
Ltac heap_in := simpl; apply elem_of_dom; heap_dom; apply elem_of_dom.

Lemma wp_rotate s π d up ku down kd A B C (Q : unit → bst → Prop) :
  focus s π (mk d down kd (mk d up ku A B) C) →
  (∀ s', focus s' π (mk d up ku A (mk d down kd B C)) →
    same_off (elems (mk d down kd (mk d up ku A B) C) ++ pelems π) s s' → Q tt s') →
  wp (bst_rotate up down d) Q s.
Proof.
  intros Hf HQ. pose proof (focus_nodup _ _ _ _ _ _ _ Hf) as HN.
  pose proof Hf as (Hp & Ht & _). rewrite addr_mk in Hp.
  apply tree_at_mk in Ht as (Hd & Ht & HC). apply tree_at_mk in Ht as (Hu & HA & HB).
  rewrite addr_mk in Hd. rewrite elems_mk_perm in HN. simpl in HN.
  unfold bst_rotate. wp_step. eapply wp_load; [done|]. wp_step. apply wp_assert.
  { apply bool_decide_true. apply child_node_of. }
  wp_step. eapply wp_load; [done|]. wp_step. autorewrite with node.
  apart.
  eapply (wp_move_node _ down _ π (Some up)); try done.
  { by rewrite parent_node_of. }
  { intros ? [= <-]. by eexists. }
  wp_step. eapply (wp_link_node _ down); simpl.
  { rewrite lookup_alter_eq. heap_ne. by rewrite Hd. }
  { intros b Hb. heap_in. exact (tree_at_is_Some _ _ _ _ HB Hb). }
  eapply (wp_link_node _ up); simpl.
  { heap_ne. rewrite lookup_alter_eq. heap_ne. by rewrite Hu. }
  { intros b [= <-]. heap_in. by eexists. }
  apply HQ; [split_and!|split].
  - rewrite addr_mk. eapply path_at_relink; [| | |exact Hp]; simpl; [done|done|].
    intros b Hb. heap_ne. done.
  - apply tree_at_mk. simpl. split_and!.
    + heap_ne. rewrite lookup_alter_eq. heap_ne. rewrite lookup_alter_eq. heap_ne.
      rewrite Hu. simpl. autorewrite with node. by rewrite addr_mk.
    + eapply tree_at_frame; [|exact HA]. intros b Hb. heap_ne. done.
    + apply tree_at_mk. split_and!.
      * rewrite lookup_alter_eq. heap_ne. rewrite !lookup_alter_eq. heap_ne.
        rewrite Hd. simpl. by autorewrite with node.
      * eapply tree_at_reparent; [done| |exact HB]. intros b Hb. heap_ne.
        destruct (addr B) as [b'|] eqn:Hb'; simpl; [|by heap_ne].
        apply addr_elem in Hb'. heap_ne. destruct (decide (b' = b)) as [->|].
        { rewrite !lookup_alter_eq. by heap_ne. }
        by heap_ne.
      * eapply tree_at_frame; [|exact HC]. intros b Hb. heap_ne. done.
  - destruct Hf as (_ & _ & HN'). rewrite !elems_mk_perm in HN'. rewrite !elems_mk_perm.
    eapply nodup_perm; [|exact HN']. solve_Permutation.
  - intros b Hb. simpl. rewrite !elems_mk_perm in Hb. apart. heap_ne. done.
  - simpl. heap_dom. done.
Qed.

Lemma same_off_refl L s : same_off L s s.
Proof. done. Qed.

Lemma same_off_trans L s1 s2 s3 : same_off L s1 s2 → same_off L s2 s3 → same_off L s1 s3.
Proof. intros [H1 D1] [H2 D2]. split; [|by rewrite D2]. intros b Hb. by rewrite H2, H1. Qed.

Lemma same_off_mono L L' s s' : (∀ x, x ∈ L → x ∈ L') → same_off L s s' → same_off L' s s'.
Proof. intros HL [H D]. split; [|done]. intros b Hb. apply H. auto. Qed.

#[export] Instance same_off_perm : Proper ((≡ₚ) ==> (=) ==> (=) ==> iff) same_off.
Proof.
  intros L L' HL s ? <- s' ? <-. split; apply same_off_mono; intros x; by rewrite HL.
Qed.

(** ** Changing a rank *)

Lemma wp_rerank s π d a k k' x y f (Q : unit → bst → Prop) :
  focus s π (mk d a k x y) → (∀ p c e, f (node_of d k p c e) = node_of d k' p c e) →
  (∀ s', focus s' π (mk d a k' x y) → same_off (elems (mk d a k x y) ++ pelems π) s s' → Q tt s') →
  wp (update a f) Q s.
Proof.
  intros Hf Hk HQ. pose proof (focus_nodup _ _ _ _ _ _ _ Hf) as HN. apart.
  pose proof Hf as (Hp & Ht & _). rewrite addr_mk in Hp.
  apply tree_at_mk in Ht as (Ha & Hx & Hy). eapply wp_update; [done|].
  apply HQ; [split_and!|split]; simpl.
  - rewrite addr_mk. eapply path_at_frame; [| |exact Hp]; [done|]. intros b Hb. simpl. by heap_ne.
  - apply tree_at_mk. split_and!.
    + rewrite lookup_alter_eq, Ha. simpl. by rewrite Hk.
    + eapply tree_at_frame; [|exact Hx]. intros b Hb. by heap_ne.
    + eapply tree_at_frame; [|exact Hy]. intros b Hb. by heap_ne.
  - rewrite <- (elems_mk_rank d a k k'). apply Hf.
  - intros b Hb. rewrite !elems_mk_perm in Hb. apart. by heap_ne.
  - by heap_dom.
Qed.

Lemma wp_add_rank s π d a k z x y (Q : unit → bst → Prop) :
  focus s π (mk d a k x y) → 0 <= k + z < 2 ^ 64 →
  (∀ s', focus s' π (mk d a (k + z) x y) →
    same_off (elems (mk d a k x y) ++ pelems π) s s' → Q tt s') →
  wp (add_rank a z) Q s.
Proof.
  intros Hf Hz HQ. eapply wp_rerank; [done| |done]. intros p c e.
  rewrite rank_node_of, with_rank_node_of. unfold u64. by rewrite Z.mod_small.
Qed.

(** ** Unlinking a node that has one child at most *)

Lemma wp_unlink s π d a k c (Q : unit → bst → Prop) :
  focus s π (mk d a k Leaf c) →
  (∀ s', focus s' π c → nodes s' !! a = Some (node_of d k None None (addr c)) →
    same_off (a :: elems c ++ pelems π) s s' → Q tt s') →
  wp (bst_move_node a (addr c)) Q s.
Proof.
  intros Hf HQ. pose proof (focus_nodup _ _ _ _ _ _ _ Hf) as HN. simpl in HN.
  apart.
  pose proof Hf as (Hp & Ht & _). rewrite addr_mk in Hp.
  apply tree_at_mk in Ht as (Ha & _ & Hc). eapply (wp_move_node _ a _ π); try done.
  { apply parent_node_of. }
  { intros b Hb. exact (tree_at_is_Some _ _ _ _ Hc Hb). }
  apply HQ; [split_and!| |split]; simpl.
  - eapply path_at_relink; [| | |exact Hp]; simpl; [done|done|]. intros b Hb. by heap_ne.
  - eapply tree_at_reparent; [done| |exact Hc]. intros b Hb. heap_ne.
    destruct (addr c) as [b'|] eqn:Hb'; simpl; [|by heap_ne]. apply addr_elem in Hb'.
    destruct (decide (b' = b)) as [->|]; [rewrite !lookup_alter_eq|]; by heap_ne.
  - apply focus_nodup, list.NoDup_cons in Hf. by destruct Hf.
  - rewrite lookup_alter_eq. heap_ne. rewrite Ha. simpl. by autorewrite with node.
  - intros b Hb. apart. by heap_ne.
  - by heap_dom.
Qed.

(** ** Putting a node of the heap in the place of another *)

(** [b] takes over the children and the rank of [a]. *)
Definition take_over (l r : tree) (b k : Z) (s s1 : bst) : Prop :=
  root s1 = root s ∧
  nodes s1 = alter (with_rank k) b (reparent (addr r) (Some b) (alter (with_child true (addr r)) b
    (reparent (addr l) (Some b) (alter (with_child false (addr l)) b (nodes s))))).

Lemma wp_take_over {A} (K : M bst A) s π l a k r b nb (Q : A → bst → Prop) :
  focus s π (Node l a k r) → b ∉ elems (Node l a k r) ++ pelems π → nodes s !! b = Some nb →
  (∀ s1, take_over l r b k s s1 → wp K Q s1) →
  wp (n ← load a; _ ← bst_link_node b false (child n false);
      n ← load a; _ ← bst_link_node b true (child n true);
      n ← load a; _ ← update b (with_rank (rank n)); K) Q s.
Proof.
  intros Hf Hb Hnb HQ. pose proof (focus_nodup _ _ false _ _ _ _ Hf) as HN.
  rewrite elems_Node_perm in Hb. apart.
  pose proof Hf as (_ & (Ha & Hl & Hr) & _).
  wp_step. eapply wp_load; [done|]. wp_step. simpl. eapply wp_link_node; [done| |].
  { intros c Hc. exact (tree_at_is_Some _ _ _ _ Hl Hc). }
  wp_step. eapply wp_load; [simpl; heap_ne; exact Ha|]. wp_step. simpl.
  eapply wp_link_node; simpl.
  { heap_ne. by rewrite lookup_alter_eq, Hnb. }
  { intros c Hc. heap_in. exact (tree_at_is_Some _ _ _ _ Hr Hc). }
  wp_step. eapply wp_load; [simpl; heap_ne; exact Ha|]. wp_step. simpl. eapply wp_update; simpl.
  { heap_ne. rewrite lookup_alter_eq. heap_ne. by rewrite lookup_alter_eq, Hnb. }
  apply HQ. done.
Qed.

Lemma wp_replace s s1 π l a k r b nb (Q : unit → bst → Prop) :
  focus s π (Node l a k r) → b ∉ elems (Node l a k r) ++ pelems π → nodes s !! b = Some nb →
  take_over l r b k s s1 →
  (∀ s', focus s' π (Node l b k r) → (∃ n, nodes s' !! a = Some n ∧ parent n = None) →
    same_off (b :: elems (Node l a k r) ++ pelems π) s s' → Q tt s') →
  wp (bst_move_node a (Some b)) Q s1.
Proof.
  intros Hf Hb Hnb [Hroot Hs1] HQ. pose proof (focus_nodup _ _ false _ _ _ _ Hf) as HN.
  rewrite elems_Node_perm in Hb. apart.
  pose proof Hf as (Hp & (Ha & Hl & Hr) & _). simpl in Hp.
  assert (path_at s1 π (Some a)) as Hp1.
  { eapply path_at_frame; [done| |exact Hp]. intros c Hc. rewrite Hs1. by heap_ne. }
  eapply (wp_move_node _ a _ π); try done.
  { rewrite Hs1. heap_ne. exact Ha. }
  { done. }
  { intros ? [= <-]. rewrite Hs1. heap_in. by eexists. }
  apply HQ; [split; [|split; [simpl; split_and!|]]| |split]; simpl.
  - eapply path_at_relink; [| | |exact Hp1]; simpl; [done|done|]. intros c Hc. by heap_ne.
  - heap_ne. rewrite lookup_alter_eq. heap_ne. rewrite Hs1, lookup_alter_eq. heap_ne.
    rewrite lookup_alter_eq. heap_ne. by rewrite lookup_alter_eq, Hnb.
  - eapply tree_at_reparent; [done| |exact Hl]. intros c Hc. heap_ne. rewrite Hs1. heap_ne.
    destruct (addr l) as [c'|] eqn:Hc'; simpl; [|by heap_ne]. apply addr_elem in Hc'.
    destruct (decide (c' = c)) as [->|]; [rewrite !lookup_alter_eq|]; by heap_ne.
  - eapply tree_at_reparent; [done| |exact Hr]. intros c Hc. heap_ne. rewrite Hs1. heap_ne.
    destruct (addr r) as [c'|] eqn:Hc'; simpl; [|by heap_ne]. apply addr_elem in Hc'.
    destruct (decide (c' = c)) as [->|]; [rewrite !lookup_alter_eq|]; by heap_ne.
  - eapply (nodup_perm (b :: elems l ++ elems r ++ pelems π)).
    { solve_Permutation. }
    apply (focus_nodup _ _ false), list.NoDup_cons in Hf as [_ Hf].
    apply list.NoDup_cons. split; [by rewrite !not_elem_of_app|done].
  - rewrite lookup_alter_eq. heap_ne. rewrite Hs1. heap_ne. rewrite Ha. by eexists.
  - intros c Hc. apart. heap_ne. rewrite Hs1. by heap_ne.
  - heap_dom. rewrite Hs1. by heap_dom.
Qed.

(** ** Linking a new node *)

Definition link_of (π : list frame) : link :=
  match π with [] => RootLink | f :: _ => ChildLink (fr_addr f) (fr_dir f) end.

Lemma wp_read_link s π t (Q : ptr → bst → Prop) :
  focus s π t → Q (addr t) s → wp (read_link (link_of π)) Q s.
Proof.
  intros (Hp & _) HQ. destruct π as [|[d a k y] π]; simpl in *.
  - apply wp_gets. by rewrite Hp.
  - destruct Hp as [Hp _]. wp_step. eapply wp_load; [done|]. rewrite child_node_of. done.
Qed.

Lemma wp_attach s π a n (Q : unit → bst → Prop) :
  focus s π Leaf → a ∉ pelems π → nodes s !! a = Some n →
  (∀ s', focus s' π (Node Leaf a 1 Leaf) → same_off (a :: pelems π) s s' → Q tt s') →
  wp (_ ← update a (λ _, BstNode 1 (paddr π) None None); write_link (link_of π) (Some a)) Q s.
Proof.
  intros (Hp & _ & HN) Ha Hn HQ. simpl in *. wp_step. eapply wp_update; [done|].
  set (s1 := Bst _ _).
  assert (wp (write_link (link_of π) (Some a)) (λ _ s', s' = relink π (Some a) s1) s1) as Hw.
  { destruct π as [|[d p k y] π]; simpl in *; [done|]. destruct Hp as [Hp _]. apart.
    by eapply wp_update; [simpl; heap_ne; exact Hp|]. }
  eapply wp_mono; [exact Hw|]. intros [] ? ->. apply HQ; [split_and!|split].
  - eapply path_at_relink; [done|done|done|]. eapply path_at_frame; [| |exact Hp]; [done|].
    intros b Hb. simpl. by heap_ne.
  - simpl. rewrite lookup_relink_ne by (intros ?%paddr_elem; clash). simpl.
    by rewrite lookup_alter_eq, Hn.
  - simpl. apply list.NoDup_cons. done.
  - intros b Hb. apart. heap_ne. simpl. by heap_ne.
  - heap_dom. simpl. by heap_dom.
Qed.
