(* ===== verification/WavlOps.v ===== *)
(** * WavlOps: rebalancing keeps the order and restores the rank rule.

    The operations are run on heaps that represent a tree.  [tracks] records,
    along a run that started in [s0], the current focus, the order of the
    elements and the nodes that may have been written. *)

From S2P Require Import Prelude Wavl WavlTree WavlHeap.

Definition tracks (F L : list Z) (s0 s : bst) (π : list frame) (t : tree) : Prop :=
  focus s π t ∧ elems (plug π t) = L ∧ same_off F s0 s ∧ (∀ x, x ∈ L → x ∈ F).

(** The run ends in a valid tree with elements [L]. *)
Definition balanced (F L : list Z) (s0 s : bst) : Prop :=
  ∃ t, tracks F L s0 s [] t ∧ wavl t.

Section tracks.
Context {F L : list Z} {s0 : bst}.
Implicit Types (s : bst) (π : list frame) (t : tree) (Q : unit → bst → Prop).

Lemma tracks_up s d a k y π t :
  tracks F L s0 s (Frame d a k y :: π) t ↔ tracks F L s0 s π (mk d a k t y).
Proof. unfold tracks. by rewrite focus_up. Qed.

Lemma tracks_app s π π' t : tracks F L s0 s (π ++ π') t ↔ tracks F L s0 s π' (plug π t).
Proof. unfold tracks. by rewrite focus_app, plug_app. Qed.

Lemma tracks_root s π t : tracks F L s0 s π t ↔ tracks F L s0 s [] (plug π t).
Proof. rewrite <- tracks_app. by rewrite app_nil_r. Qed.

Lemma tracks_balanced s π t :
  tracks F L s0 s π t → wavl t → pwavl π (rk t) → balanced F L s0 s.
Proof.
  intros H%tracks_root Ht Hp. exists (plug π t). split; [done|]. by apply wavl_plug.
Qed.

(** A write inside the tree. *)
Lemma tracks_step s s' π t t' :
  tracks F L s0 s π t → focus s' π t' → elems t = elems t' →
  same_off (elems t ++ pelems π) s s' → tracks F L s0 s' π t'.
Proof.
  intros (Hf & HL & Ho & Hsub) Hf' He Hs. split_and!; [done| | |done].
  - by rewrite <- (elems_plug_cong π _ _ He).
  - eapply same_off_trans; [done|]. eapply same_off_mono; [|done].
    intros x. rewrite <- elems_plug_perm, HL. apply Hsub.
Qed.

Lemma tr_rotate s π d up ku down kd A B C Q :
  tracks F L s0 s π (mk d down kd (mk d up ku A B) C) →
  (∀ s', tracks F L s0 s' π (mk d up ku A (mk d down kd B C)) → Q tt s') →
  wp (bst_rotate up down d) Q s.
Proof.
  intros H HQ. eapply wp_rotate; [apply H|]. intros s' Hf Hs. apply HQ.
  eapply tracks_step; try done. apply elems_rotate.
Qed.

Lemma tr_add_rank s π d a k z x y Q :
  tracks F L s0 s π (mk d a k x y) → 0 <= k + z < 2 ^ 64 →
  (∀ s', tracks F L s0 s' π (mk d a (k + z) x y) → Q tt s') →
  wp (add_rank a z) Q s.
Proof.
  intros H Hz HQ. eapply wp_add_rank; [apply H|done|]. intros s' Hf Hs. apply HQ.
  eapply tracks_step; try done. apply elems_mk_rank.
Qed.

Lemma tr_set_rank s π d a k k' x y Q :
  tracks F L s0 s π (mk d a k x y) →
  (∀ s', tracks F L s0 s' π (mk d a k' x y) → Q tt s') →
  wp (update a (with_rank k')) Q s.
Proof.
  intros H HQ. eapply wp_rerank; [apply H|intros; apply with_rank_node_of|].
  intros s' Hf Hs. apply HQ. eapply tracks_step; try done. apply elems_mk_rank.
Qed.

Lemma tr_load s π d a k x y (Q : bst_node → bst → Prop) :
  tracks F L s0 s π (mk d a k x y) →
  Q (node_of d k (paddr π) (addr x) (addr y)) s → wp (load a) Q s.
Proof. intros [H _]. eapply wp_load. by eapply focus_node. Qed.

Lemma tr_rank_l s π d a k x y (Q : Z → bst → Prop) :
  tracks F L s0 s π (mk d a k x y) → Q (rk x) s → wp (bst_node_rank (addr x)) Q s.
Proof. intros [(_ & H & _) _]. apply tree_at_mk in H as (_ & ? & _). by eapply wp_node_rank. Qed.

Lemma tr_rank_r s π d a k x y (Q : Z → bst → Prop) :
  tracks F L s0 s π (mk d a k x y) → Q (rk y) s → wp (bst_node_rank (addr y)) Q s.
Proof. intros [(_ & H & _) _]. apply tree_at_mk in H as (_ & _ & ?). by eapply wp_node_rank. Qed.

(** Both children in the order of their index. *)
Lemma tr_ranks s π d a k k' p x y (K : Z → Z → M bst unit) Q :
  tracks F L s0 s π (mk d a k x y) →
  wp (K (if d then rk y else rk x) (if d then rk x else rk y)) Q s →
  wp (r0 ← bst_node_rank (child (node_of d k' p (addr x) (addr y)) false);
      r1 ← bst_node_rank (child (node_of d k' p (addr x) (addr y)) true); K r0 r1) Q s.
Proof.
  intros H HQ. destruct d; cbn [child node_of child0 child1].
  - wp_step. eapply tr_rank_r; [exact H|]. wp_step. by eapply tr_rank_l.
  - wp_step. eapply tr_rank_l; [exact H|]. wp_step. by eapply tr_rank_r.
Qed.

Lemma tr_is_right s π d a k x y (Q : bool → bst → Prop) :
  tracks F L s0 s π (mk d a k x y) → Q (pdir π) s → wp (bst_is_right_child a) Q s.
Proof.
  intros [Hf _]. pose proof (focus_nodup _ _ _ _ _ _ _ Hf) as HN. apart.
  pose proof (focus_node _ _ _ _ _ _ _ Hf) as Hn. destruct Hf as (Hp & _).
  rewrite addr_mk in Hp. eapply wp_is_right_child; [done|done|done|]. apply parent_node_of.
Qed.
End tracks.

Lemma balanced_cast F F' L L' s0 s :
  (∀ x, x ∈ F → x ∈ F') → L = L' → balanced F L s0 s → balanced F' L' s0 s.
Proof.
  intros HF <- (t & (Hf & HL & Ho & Hs) & Hw). exists t. split; [|done]. split_and!; auto.
  by eapply same_off_mono.
Qed.

Ltac u64_small := unfold u64; rewrite ?Z.mod_small by lia.
Ltac asserts := wp_step; apply wp_assert; [u64_small; try lia|].

(** ** After an insertion *)

Section insert.
Context {F L : list Z} {s0 : bst}.
Implicit Types (Q : unit → bst → Prop).

(** [up] has the rank of its parent [down]; its promotion left it with one rank
    difference of 2. *)
Lemma tr_rotate_insert s π d up down k A B C Q :
  tracks F L s0 s π (mk d down k (mk d up k A B) C) →
  wavl (mk d up k A B) → wavl C → rk C + 2 = k → k = rk A + 2 ∨ k = rk B + 2 → k < 2 ^ 63 →
  (∀ s' t', tracks F L s0 s' π t' → wavl t' → rk t' = k → Q tt s') →
  wp (bst_rotate_insert up down d) Q s.
Proof.
  intros H (HA & HB & Hk1 & Hk2 & Hk3)%wavl_mk HC HkC H12 Hlt HQ.
  pose proof (wavl_rk _ HA). pose proof (wavl_rk _ HB). pose proof (wavl_rk _ HC).
  unfold bst_rotate_insert.
  wp_step. eapply tr_load; [done|]. rewrite addr_mk. wp_step. apply wp_assert.
  { apply bool_decide_true. apply child_node_of. }
  wp_step. eapply (tr_load _ (Frame d down k C :: π)); [by apply tracks_up|].
  autorewrite with node. asserts. wp_step. eapply tr_rank_r; [done|]. asserts.
  wp_step. eapply (tr_rank_r _ (Frame d down k C :: π)); [by apply tracks_up|].
  u64_small. apply wp_if; intros Hb.
  - asserts. assert (rk B = k - 1) as HkB by lia.
    destruct B as [|bl up2 k2 br]; [simpl in *; lia|]. rewrite (Node_mk (negb d)) in *.
    set (X := if negb d then br else bl) in *. set (Y := if negb d then bl else br) in *.
    rewrite rk_mk in *. subst k2. apply wavl_mk in HB as (HX & HY & HkX & HkY & _).
    pose proof (wavl_rk _ HX). pose proof (wavl_rk _ HY).
    rewrite addr_mk. wp_step. apply wp_deref.
    rewrite <- tracks_up in H. rewrite <- (mk_negb d up) in H. rewrite <- tracks_up in H.
    wp_step. eapply tr_add_rank; [exact H|lia|]. intros s1 T1.
    pose proof T1 as T1'. rewrite tracks_up in T1'.
    wp_step. eapply tr_load; [exact T1'|]. wp_step. eapply tr_load; [exact T1|].
    autorewrite with node. asserts. wp_step. eapply tr_rotate; [exact T1'|]. intros s2 T2.
    rewrite !mk_negb in T2. rewrite <- tracks_up in T2.
    wp_step. eapply tr_add_rank; [exact T2|lia|]. intros s3 T3. rewrite !tracks_up in T3.
    wp_step. eapply tr_rotate; [exact T3|]. intros s4 T4.
    rewrite <- (mk_negb d up2), <- tracks_up in T4.
    eapply tr_add_rank; [exact T4|lia|]. intros s5 T5. rewrite tracks_up in T5.
    eapply HQ; [exact T5| |by rewrite rk_mk; lia].
    rewrite !wavl_mk, !rk_mk. unfold rank_ok. split_and!; (done || lia).
  - wp_step. eapply tr_rotate; [exact H|]. intros s1 T1.
    rewrite <- (mk_negb d up), <- tracks_up in T1.
    eapply tr_add_rank; [exact T1|lia|]. intros s2 T2. rewrite tracks_up in T2.
    eapply HQ; [exact T2| |by rewrite rk_mk; lia].
    rewrite !wavl_mk, !rk_mk. unfold rank_ok. split_and!; (done || lia).
Qed.

(** The tree in focus has just grown by one rank. *)
Lemma tr_rank_insert fuel s π d a k x y Q :
  (length π < fuel)%nat →
  tracks F L s0 s π (mk d a k x y) → wavl (mk d a k x y) → pwavl π (k - 1) →
  k = 1 ∨ k = rk x + 2 ∨ k = rk y + 2 → k < 2 ^ 62 → Forall (λ f, fr_rank f < 2 ^ 62 - 1) π →
  (∀ s', balanced F L s0 s' → Q tt s') →
  wp (update_rank_insert_loop fuel a) Q s.
Proof.
  revert s π d a k x y. induction fuel as [|fuel IH]; intros s π d a k x y Hlen H Hw Hp Hk Hlt Hsm HQ;
    [lia|].
  pose proof Hw as (Hx & Hy & Hk1 & Hk2 & _)%wavl_mk.
  pose proof (wavl_rk _ Hx). pose proof (wavl_rk _ Hy).
  cbn [update_rank_insert_loop]. wp_step. eapply tr_is_right; [done|].
  wp_step. eapply tr_load; [done|]. autorewrite with node. u64_small.
  destruct π as [|[e p kp z] π]; simpl.
  { apply wp_ret, HQ. eapply tracks_balanced; [exact H|exact Hw|done]. }
  destruct Hp as (Hz & (Hp1 & Hp2 & Hp3) & Hp). pose proof (wavl_rk _ Hz).
  pose proof (Forall_inv Hsm) as Hkp. apply Forall_inv_tail in Hsm. simpl in Hkp, Hlen.
  pose proof H as H'. rewrite tracks_up in H'.
  wp_step. eapply tr_load; [exact H'|]. autorewrite with node. apply wp_if; intros Hb.
  - apply wp_assert; [lia|]. apply HQ. eapply tracks_balanced; [exact H|exact Hw|].
    rewrite rk_mk. simpl. unfold rank_ok. split_and!; (done || lia).
  - assert (kp = k) as -> by lia. asserts. wp_step. eapply tr_rank_r; [exact H'|].
    u64_small. apply wp_if; intros Hb2.
    + rewrite addr_mk. wp_step. apply wp_deref.
      assert (∃ A B, mk d a k x y = mk e a k A B ∧ (k = rk A + 2 ∨ k = rk B + 2)) as (A & B & E & HAB).
      { destruct (decide (d = e)) as [->|Hne]; [by exists x, y; split; [|lia]|].
        exists y, x. split; [|lia]. rewrite <- mk_negb. f_equal. by destruct d, e. }
      rewrite E in H', Hw. eapply tr_rotate_insert; [exact H'|done|done|lia|done|lia|].
      intros s' t' T2 Ht' Hr. apply HQ. eapply tracks_balanced; [exact T2|exact Ht'|]. by rewrite Hr.
    + wp_step. eapply tr_set_rank; [exact H'|]. intros s1 T1.
      eapply IH; [|exact T1| | | |lia|done|done]; [lia| | |].
      * rewrite wavl_mk, rk_mk. unfold rank_ok. split_and!; (done || lia).
      * by replace (k + 1 - 1) with k by lia.
      * rewrite rk_mk. lia.
Qed.
End insert.

(** ** After a deletion *)

Section delete.
Context {F L : list Z} {s0 : bst}.
Implicit Types (Q : unit → bst → Prop).

Lemma no_children d k p x y : wavl x → wavl y →
  bool_decide (child (node_of d k p (addr x) (addr y)) false = None) &&
  bool_decide (child (node_of d k p (addr x) (addr y)) true = None) = (rk x =? 0) && (rk y =? 0).
Proof.
  assert (∀ t, wavl t → bool_decide (addr t = None) = (rk t =? 0)) as Hb.
  { intros t Ht. apply eq_true_iff_eq. rewrite bool_decide_eq_true, Z.eqb_eq.
    split; [by destruct t|]. by intros ->%wavl_rk_0. }
  intros Hx Hy. destruct d; simpl; rewrite !Hb by done; [apply andb_comm|done].
Qed.

(** [up] is the taller child of [down], whose other child is 3 ranks below it. *)
Lemma tr_rotate_delete s π d up down k A B C Q :
  tracks F L s0 s π (mk d down k (mk d up (k - 1) A B) C) →
  wavl (mk d up (k - 1) A B) → wavl C → rk C + 3 = k →
  ¬ (rk A = k - 3 ∧ rk B = k - 3) → k < 2 ^ 63 →
  (∀ s' t', tracks F L s0 s' π t' → wavl t' → rk t' = k → Q tt s') →
  wp (bst_rotate_delete up down d) Q s.
Proof.
  intros H (HA & HB & Hk1 & Hk2 & Hk3)%wavl_mk HC HkC Hn Hlt HQ.
  pose proof (wavl_rk _ HA). pose proof (wavl_rk _ HB). pose proof (wavl_rk _ HC).
  unfold bst_rotate_delete.
  wp_step. eapply tr_load; [done|]. rewrite addr_mk. wp_step. apply wp_assert.
  { apply bool_decide_true. apply child_node_of. }
  pose proof H as H'. rewrite <- tracks_up in H'.
  wp_step. eapply tr_load; [exact H'|].
  autorewrite with node. asserts. wp_step. eapply tr_rank_r; [done|]. asserts.
  wp_step. eapply tr_rank_l; [exact H'|]. u64_small. apply wp_if; intros Hb.
  - wp_step. eapply tr_rank_r; [exact H'|]. assert (rk B = k - 2) as HkB by lia.
    asserts. asserts.
    destruct B as [|bl up2 k2 br]; [simpl in *; lia|]. rewrite (Node_mk (negb d)) in *.
    set (X := if negb d then br else bl) in *. set (Y := if negb d then bl else br) in *.
    rewrite rk_mk in *. subst k2. apply wavl_mk in HB as (HX & HY & HkX & HkY & _).
    pose proof (wavl_rk _ HX). pose proof (wavl_rk _ HY).
    rewrite addr_mk. wp_step. apply wp_deref.
    rewrite <- (mk_negb d up) in H'. pose proof H' as T0. rewrite <- tracks_up in T0.
    wp_step. eapply tr_load; [exact T0|]. autorewrite with node. asserts.
    wp_step. eapply tr_rotate; [exact H'|]. intros s1 T1. rewrite !mk_negb in T1.
    rewrite tracks_up in T1. wp_step. eapply tr_rotate; [exact T1|]. intros s2 T2.
    wp_step. eapply tr_add_rank; [exact T2|lia|]. intros s3 T3. rewrite <- tracks_up in T3.
    wp_step. eapply tr_add_rank; [exact T3|lia|]. intros s4 T4.
    rewrite tracks_up, <- (mk_negb d up2), <- tracks_up in T4.
    eapply tr_add_rank; [exact T4|lia|]. intros s5 T5. rewrite tracks_up in T5.
    eapply HQ; [exact T5| |by rewrite rk_mk; lia].
    rewrite !wavl_mk, !rk_mk. unfold rank_ok. split_and!; (done || lia).
  - wp_step. eapply tr_rotate; [exact H|]. intros s1 T1.
    wp_step. eapply tr_add_rank; [exact T1|lia|]. intros s2 T2.
    rewrite <- (mk_negb d up), <- tracks_up in T2.
    wp_step. eapply tr_add_rank; [exact T2|lia|]. intros s3 T3.
    wp_step. eapply tr_load; [exact T3|]. eapply tr_ranks; [exact T3|].
    autorewrite with node. u64_small. apply wp_if; intros Hb2.
    + assert (rk B = k - 3) by (destruct d; lia).
      eapply tr_add_rank; [exact T3|lia|]. intros s4 T4. rewrite tracks_up in T4.
      eapply HQ; [exact T4| |by rewrite rk_mk; lia].
      rewrite !wavl_mk, !rk_mk. unfold rank_ok. split_and!; (done || lia).
    + assert (rk B ≠ k - 3) by (destruct d; lia).
      rewrite tracks_up in T3. apply wp_ret. eapply HQ; [exact T3| |by rewrite rk_mk; lia].
      rewrite !wavl_mk, !rk_mk. unfold rank_ok. split_and!; (done || lia).
Qed.

(** The child of [a] on side [d] has just lost one rank. *)
Lemma tr_rank_delete fuel s π d a k x y Q :
  (length π + 1 < fuel)%nat →
  tracks F L s0 s π (mk d a k x y) → wavl x → wavl y → pwavl π k →
  rk y < k <= rk y + 2 → rk x + 1 < k <= rk x + 3 → (rk x = 0 → rk y = 0 → k = 2) →
  k < 2 ^ 62 → Forall (λ f, fr_rank f < 2 ^ 62) π →
  (∀ s', balanced F L s0 s' → Q tt s') →
  wp (update_rank_delete_loop fuel (Some a) d) Q s.
Proof.
  revert s π d a k x y. induction fuel as [|fuel IH];
    intros s π d a k x y Hlen H Hx Hy Hp Hky Hkx Hlf Hlt Hsm HQ; [lia|].
  pose proof (wavl_rk _ Hx). pose proof (wavl_rk _ Hy).
  assert (∀ s' y', tracks F L s0 s' π (mk d a (k - 1) x y') → wavl y' →
    rank_ok (k - 1) (rk x) (rk y') →
    wp (e ← bst_is_right_child a; update_rank_delete_loop fuel (paddr π) e) Q s') as Hup.
  { intros s' y' T Hy' Hk'. assert (wavl (mk d a (k - 1) x y')) by by apply wavl_mk.
    wp_step. eapply tr_is_right; [exact T|]. destruct π as [|[e p kp z] π]; simpl.
    - destruct fuel; [simpl in Hlen; lia|]. apply HQ. by eapply tracks_balanced; [exact T| |].
    - destruct Hp as (Hz & (Hp1 & Hp2 & Hp3) & Hp). rewrite tracks_up in T.
      pose proof (Forall_inv Hsm). apply Forall_inv_tail in Hsm. simpl in *.
      eapply IH; [|exact T|..]; rewrite ?rk_mk; try done; lia. }
  cbn [update_rank_delete_loop]. wp_step. eapply tr_load; [done|]. autorewrite with node.
  wp_step. eapply tr_rank_r; [exact H|]. wp_step. eapply tr_rank_l; [exact H|].
  asserts. asserts. asserts. rewrite no_children by done. wp_step.
  assert (∀ P : unit → bst → Prop, P tt s → wp (if (rk x =? 0) && (rk y =? 0)
    then DEBUG_ASSERT (k =? 2) else mret tt) P s) as Hleaf.
  { intros P HP. apply wp_if; intros Hb; [|done]. apply wp_assert; [lia|done]. }
  apply Hleaf. u64_small. apply wp_if; intros Hb.
  { apply wp_ret, HQ. eapply tracks_balanced; [exact H| |by rewrite rk_mk].
    rewrite wavl_mk. unfold rank_ok. split_and!; (done || lia). }
  asserts. wp_step. eapply tr_add_rank; [exact H|lia|]. intros s1 T1.
  wp_step. eapply tr_load; [exact T1|]. autorewrite with node.
  replace (k + -1) with (k - 1) in * by lia. apply wp_if; intros Hb2.
  2: { eapply Hup; [exact T1|done|]. unfold rank_ok. lia. }
  asserts. destruct y as [|l b j r]; [simpl in *; lia|]. rewrite (Node_mk (negb d)) in *.
  set (A := if negb d then r else l) in *. set (B := if negb d then l else r) in *.
  rewrite rk_mk in *. assert (j = k - 1) as -> by lia.
  pose proof Hy as (HA & HB & HkA & HkB & HkL)%wavl_mk. rewrite addr_mk.
  wp_step. apply wp_deref. pose proof T1 as T1'. rewrite <- (mk_negb d a), <- tracks_up in T1'.
  wp_step. eapply tr_load; [exact T1'|]. eapply tr_ranks; [exact T1'|]. u64_small.
  apply wp_if; intros Hb3.
  - assert (rk A = k - 1 - 2 ∧ rk B = k - 1 - 2) by (destruct (negb d); lia).
    wp_step. eapply tr_add_rank; [exact T1'|lia|]. intros s2 T2.
    rewrite tracks_up, mk_negb in T2. eapply Hup; [exact T2| |].
    + rewrite wavl_mk. unfold rank_ok. split_and!; (done || lia).
    + rewrite rk_mk. unfold rank_ok. lia.
  - assert (¬ (rk A = k - 3 ∧ rk B = k - 3)) by (destruct (negb d); lia).
    wp_step. eapply tr_add_rank; [exact T1|lia|]. intros s2 T2.
    replace (k - 1 + 1) with k in T2 by lia. rewrite <- (mk_negb d a) in T2.
    eapply tr_rotate_delete; [exact T2|done|done|lia|done|lia|].
    intros s3 t' T3 Ht' Hr. apply HQ. eapply tracks_balanced; [exact T3|exact Ht'|by rewrite Hr].
Qed.
End delete.
