(* ===== verification/WavlCalls.v ===== *)
(** * WavlCalls: the public operations of the tree on heaps that represent one. *)

From S2P Require Import Prelude Wavl WavlTree WavlHeap WavlOps.

(** ** The bound of the walks *)

Lemma tree_at_dom h p t x : tree_at h p t → x ∈ elems t → x ∈ dom h.
Proof.
  revert p. induction t as [|l IHl a k r IHr]; intros p; simpl; [by intros _ ?%not_elem_of_nil|].
  intros (Ha & Hl & Hr). rewrite list.elem_of_app, elem_of_cons. intros [?|[->|?]]; eauto.
  apply elem_of_dom. by eexists.
Qed.

Lemma rep_dom s t x : rep s t → x ∈ elems t → x ∈ dom (nodes s).
Proof. intros (_ & H & _). by eapply tree_at_dom. Qed.

Lemma rep_size s t : rep s t → (length (elems t) <= size (nodes s))%nat.
Proof.
  intros H. rewrite <- size_dom. destruct (H) as (_ & _ & HN). simpl in HN.
  rewrite app_nil_r in HN.
  replace (length (elems t)) with (size (list_to_set (elems t) : gset Z)) by by apply size_list_to_set.
  apply subseteq_size. intros x. rewrite elem_of_list_to_set. by eapply rep_dom.
Qed.

Lemma focus_bound s π t :
  focus s π t → (length π + length (elems t) <= size (nodes s))%nat.
Proof.
  intros H%focus_rep. apply rep_size in H. rewrite elems_plug_perm, length_app in H.
  pose proof (length_pelems π). lia.
Qed.

Lemma ranks_le π t : wavl (plug π t) → Forall (λ f, fr_rank f <= rk (plug π t)) π.
Proof.
  revert t. induction π as [|[d a k y] π IH]; intros t H; simpl in *; [done|].
  constructor; [|by apply IH]. simpl. pose proof (pwavl_rk_le π _ _ H (Z.le_refl _)) as Hk.
  by rewrite rk_mk in Hk.
Qed.

Lemma ranks_small π t :
  wavl (plug π t) → tsize (plug π t) < 2 ^ 64 → Forall (λ f, fr_rank f < 2 ^ 62 - 1) π.
Proof.
  intros H Hs. pose proof (rk_bound _ H Hs). eapply Forall_impl; [|by apply ranks_le].
  intros f Hf. simpl in Hf. lia.
Qed.

(** ** Searching *)

(** [compare] with key [q] puts the key after [L1], before [L2] and matches [M]. *)
Definition parts {K} (compare : Z → K → outcome Z) (q : K) (L1 M L2 : list Z) : Prop :=
  Forall (λ a, ∃ c, compare a q = Done c ∧ 0 < c) L1 ∧
  Forall (λ a, compare a q = Done 0) M ∧
  Forall (λ a, ∃ c, compare a q = Done c ∧ c < 0) L2.

Section parts.
Context {K : Type} {compare : Z → K → outcome Z} {q : K}.

Lemma parts_here L1 M L2 l a r :
  parts compare q L1 M L2 → l ++ a :: r = L1 ++ M ++ L2 →
  ∃ c, compare a q = Done c ∧
    (c = 0 → a ∈ M) ∧
    (0 < c → ∃ L1', L1 = l ++ a :: L1' ∧ r = L1' ++ M ++ L2) ∧
    (c < 0 → ∃ L2', L2 = L2' ++ a :: r ∧ l = L1 ++ M ++ L2').
Proof.
  intros (H1 & HM & H2) E.
  destruct (app_eq_app _ _ _ _ E) as [L [[-> E2]|[-> E2]]].
  - destruct (app_eq_app _ _ _ _ (eq_sym E2)) as [L' [[-> ->]|[-> E3]]].
    + apply Forall_app in H2 as [_ H2]. pose proof (Forall_inv H2) as (c & Hc & ?).
      exists c. split_and!; [done|lia|lia|]. intros _. by exists L'.
    + destruct L' as [|b L'].
      * simpl in E3. subst L2. rewrite app_nil_r in *. pose proof (Forall_inv H2) as (c & Hc & ?).
        exists c. split_and!; [done|lia|lia|]. intros _. exists []. by rewrite app_nil_r.
      * injection E3 as -> ->. apply Forall_app in HM as [_ HM]. pose proof (Forall_inv HM).
        exists 0. split_and!; [done| |lia|lia]. intros _. set_solver.
  - destruct L as [|b L].
    + simpl in E2. rewrite app_nil_r in *.
      destruct M as [|b M]; simpl in E2.
      * subst L2. pose proof (Forall_inv H2) as (c & Hc & ?).
        exists c. split_and!; [done|lia|lia|]. intros _. exists []. by rewrite !app_nil_r.
      * injection E2 as -> ->. pose proof (Forall_inv HM).
        exists 0. split_and!; [done| |lia|lia]. intros _. set_solver.
    + injection E2 as -> ->. apply Forall_app in H1 as [_ H1].
      pose proof (Forall_inv H1) as (c & Hc & ?).
      exists c. split_and!; [done|lia| |lia]. intros _. exists L. done.
Qed.

Lemma parts_right L1 M L2 l : parts compare q (l ++ L1) M L2 → parts compare q L1 M L2.
Proof. intros (H1 & ?). apply Forall_app in H1 as [_ ?]. done. Qed.

Lemma parts_left L1 M L2 l : parts compare q L1 M (L2 ++ l) → parts compare q L1 M L2.
Proof. intros (? & ? & H1). apply Forall_app in H1 as [? _]. done. Qed.
End parts.

Lemma wp_from_outcome {A} s (a : A) o (Q : A → bst → Prop) :
  o = Done a → Q a s → wp (from_outcome o) Q s.
Proof. by intros ->. Qed.

Section search.
Context {K : Type} (compare : Z → K → outcome Z) (q : K).

Lemma wp_search_loop fuel s p t L1 M L2 (Q : ptr → bst → Prop) :
  height t < Z.of_nat fuel → tree_at (nodes s) p t →
  elems t = L1 ++ M ++ L2 → parts compare q L1 M L2 →
  (M = [] → Q None s) → (∀ a, a ∈ M → Q (Some a) s) →
  wp (search_loop compare fuel (addr t) q) Q s.
Proof.
  revert p t L1 L2. induction fuel as [|fuel IH]; intros p t L1 L2 Hlen Ht HL Hp Q0 Q1.
  { pose proof (height_nonneg t). lia. }
  cbn [search_loop]. destruct t as [|l a k r]; simpl in *.
  { apply wp_ret, Q0. destruct L1, M; done. }
  destruct Ht as (Ha & Hl & Hr).
  destruct (parts_here _ _ _ _ _ _ Hp HL) as (c & Hc & C0 & C1 & C2).
  wp_step. eapply wp_from_outcome; [exact Hc|]. apply wp_if; intros E.
  { apply wp_ret, Q1, C0. lia. }
  wp_step. eapply wp_load; [exact Ha|]. destruct (Z.ltb_spec 0 c).
  - destruct C1 as (L1' & -> & E'); [done|]. simpl. eapply IH; try done; [lia|].
    apply (parts_right _ _ _ [a]). by eapply (parts_right _ _ _ (elems l)).
  - destruct C2 as (L2' & -> & E'); [lia|]. simpl. eapply IH; try done; [lia|].
    by eapply parts_left.
Qed.
End search.

(** ** Inserting *)

Section insert.
Context (compare : Z → Z → outcome Z) (q : Z).

Lemma wp_insert_leaf s π n (Q : bool → bst → Prop) :
  focus s π Leaf → wavl (plug π Leaf) → tsize (plug π Leaf) < 2 ^ 64 →
  q ∉ pelems π → nodes s !! q = Some n →
  (∀ s', balanced (q :: pelems π) (before π ++ q :: after π) s s' → Q true s') →
  wp (_ ← update q (λ _, BstNode 1 (paddr π) None None);
      _ ← write_link (link_of π) (Some q); _ ← bst_update_rank_insert q; mret true) Q s.
Proof.
  intros Hf Hw Hs Hq Hn HQ.
  apply wp_assoc, wp_bind. eapply wp_attach; [done|done|done|]. intros s1 Hf1 Ho.
  assert (tracks (q :: pelems π) (before π ++ q :: after π) s s1 π (Node Leaf q 1 Leaf)) as T.
  { split_and!; [done|by rewrite elems_plug|done|]. intros x.
    pose proof (elems_plug_perm π (Node Leaf q 1 Leaf)) as HP. rewrite elems_plug in HP.
    simpl in HP. by rewrite HP. }
  wp_step. unfold bst_update_rank_insert. wp_step. eapply (tr_load _ _ false); [exact T|].
  rewrite rank_node_of. asserts. wp_step. wp_step. pose proof (focus_bound _ _ _ Hf1) as Hb. simpl in Hb.
  pose proof (ranks_small _ _ Hw Hs). apply wavl_plug in Hw as [_ Hw].
  eapply (tr_rank_insert _ _ _ false); [|exact T|..]; try done.
  - unfold walk_bound. lia.
  - by left.
Qed.

Lemma wp_insert_loop fuel s π t L1 M L2 n (Q : bool → bst → Prop) :
  (length (elems t) < fuel)%nat → focus s π t → wavl (plug π t) → tsize (plug π t) < 2 ^ 64 →
  q ∉ elems t ++ pelems π → nodes s !! q = Some n →
  elems t = L1 ++ M ++ L2 → parts compare q L1 M L2 →
  (M ≠ [] → Q false s) →
  (∀ s', M = [] → balanced (q :: elems t ++ pelems π)
    ((before π ++ L1) ++ q :: L2 ++ after π) s s' → Q true s') →
  wp (insert_loop compare fuel (paddr π) (link_of π) q) Q s.
Proof.
  revert π t L1 L2. induction fuel as [|fuel IH];
    intros π t L1 L2 Hlen Hf Hw Hs Hq Hn HL Hp Q0 Q1; [lia|].
  cbn [insert_loop]. wp_step. eapply wp_read_link; [exact Hf|].
  destruct t as [|l a k r]; cbn [addr].
  - assert (L1 = [] ∧ M = [] ∧ L2 = []) as (-> & -> & ->) by (destruct L1, M, L2; done).
    eapply wp_insert_leaf; try done. intros s' Hb. apply Q1; [done|]. by rewrite app_nil_r.
  - cbn [elems] in *. rewrite length_app in Hlen. simpl in Hlen.
    destruct (parts_here _ _ _ _ _ _ Hp HL) as (c & Hc & C0 & C1 & C2).
    wp_step. eapply wp_from_outcome; [exact Hc|]. apply wp_if; intros E.
    { apply wp_ret, Q0. specialize (C0 ltac:(lia)). intros ->. by apply not_elem_of_nil in C0. }
    destruct (Z.ltb_spec 0 c).
    + destruct C1 as (L1' & -> & E'); [done|].
      eapply (IH (Frame true a k l :: π) r); try done; [lia|by apply focus_up|set_solver| |].
      { apply (parts_right _ _ _ [a]). by eapply (parts_right _ _ _ (elems l)). }
      intros s' HM. intros Hb. apply Q1; [done|]. eapply balanced_cast; [| |exact Hb]; simpl.
      * set_solver.
      * by rewrite <- !app_assoc.
    + destruct C2 as (L2' & -> & E'); [lia|].
      eapply (IH (Frame false a k r :: π) l); try done; [lia|by apply focus_up|set_solver| |].
      { by eapply parts_left. }
      intros s' HM. intros Hb. apply Q1; [done|]. eapply balanced_cast; [| |exact Hb]; simpl.
      * set_solver.
      * by rewrite <- !app_assoc.
Qed.
End insert.

(** ** The edge of a subtree *)

Lemma wp_find_edge_loop fuel s p t a d (Q : Z → bst → Prop) :
  (length (elems t) <= fuel)%nat → tree_at (nodes s) p t → addr t = Some a →
  (∀ π b k x, t = plug π (mk d b k Leaf x) → Forall (λ f, fr_dir f = d) π → Q b s) →
  wp (find_edge_loop fuel a d) Q s.
Proof.
  revert p t a Q. induction fuel as [|fuel IH]; intros p t a Q Hlen Ht Ha HQ.
  { apply addr_elem in Ha. destruct (elems t); [by apply not_elem_of_nil in Ha|simpl in *; lia]. }
  destruct t as [|l b k r]; [done|]. injection Ha as ->. rewrite (Node_mk d) in *.
  set (x := if d then r else l) in *. set (y := if d then l else r) in *.
  apply tree_at_mk in Ht as (Hn & Hx & Hy). rewrite elems_mk_perm in Hlen. simpl in Hlen.
  rewrite length_app in Hlen.
  cbn [find_edge_loop]. wp_step. eapply wp_load; [exact Hn|]. rewrite child_node_of.
  destruct (addr x) as [c|] eqn:Hc.
  - eapply IH; [|exact Hx|done|]; [lia|]. intros π b j z -> Hd.
    apply (HQ (π ++ [Frame d a k y]) b j z).
    + by rewrite plug_app.
    + apply Forall_app. split; [done|]. by constructor.
  - destruct x; [|done]. apply wp_ret. by apply (HQ [] a k y).
Qed.

Lemma wp_find_edge s p t a d (Q : Z → bst → Prop) :
  (length (elems t) <= size (nodes s))%nat → tree_at (nodes s) p t → addr t = Some a →
  (∀ π b k x, t = plug π (mk d b k Leaf x) → Forall (λ f, fr_dir f = d) π → Q b s) →
  wp (bst_find_edge a d) Q s.
Proof.
  intros Hlen Ht Ha HQ. unfold bst_find_edge. wp_step. wp_step.
  eapply wp_find_edge_loop; try done. unfold walk_bound. lia.
Qed.

(** ** Deleting *)

Lemma focus_off s π t a f :
  focus s π t → a ∉ elems t ++ pelems π →
  focus (Bst (root s) (alter f a (nodes s))) π t.
Proof.
  intros (Hp & Ht & HN) Ha. split; [|split; [|exact HN]]; apart.
  - eapply path_at_frame; [| |exact Hp]; [done|]. intros b Hb. simpl. by heap_ne.
  - eapply tree_at_frame; [|exact Ht]. intros b Hb. simpl. by heap_ne.
Qed.

Lemma focus_tracks s π t :
  focus s π t → tracks (elems (plug π t)) (elems (plug π t)) s s π t.
Proof. intros H. split; [done|]. split; [done|]. split; [apply same_off_refl|auto]. Qed.

(** The result of deleting [a] with elements [L] left. *)
Definition deleted (a : Z) (L : list Z) (s' : bst) : Prop :=
  (∃ t, rep s' t ∧ wavl t ∧ elems t = L) ∧
  (∃ n, nodes s' !! a = Some n ∧ rank n = 0 ∧ parent n = None).

(** The end of [bst_delete]: the subtree [c] in the hole has lost one rank. *)
Lemma wp_delete_finish s π c a n (Q : unit → bst → Prop) :
  focus s π c → a ∉ elems c ++ pelems π → nodes s !! a = Some n → parent n = None →
  wavl c → pwavl π (rk c + 1) → Forall (λ f, fr_rank f < 2 ^ 62 - 1) π →
  (∀ s', deleted a (elems (plug π c)) s' → same_off (a :: elems c ++ pelems π) s s' → Q tt s') →
  wp (_ ← update a (with_rank 0);
      match paddr π with
      | Some start => bst_update_rank_delete start (pdir π)
      | None => mret tt
      end) Q s.
Proof.
  intros Hf Ha Hn Hpar Hc Hw Hsm HQ. wp_step. eapply wp_update; [done|]. set (s1 := Bst _ _).
  assert (focus s1 π c) as Hf1 by by apply focus_off.
  assert (same_off (a :: elems c ++ pelems π) s s1) as Ho1.
  { split; [|apply dom_alter_L]. intros b Hb. simpl. apart. by heap_ne. }
  assert (∀ s', balanced (elems (plug π c)) (elems (plug π c)) s1 s' → Q tt s') as HQ'.
  { intros s' (t & (Hft & HL & [Ho Hd] & _) & Hwt). apply HQ; [split|].
    - exists t. done.
    - exists (with_rank 0 n). split; [|done]. rewrite Ho.
      + simpl. by rewrite lookup_alter_eq, Hn.
      + by rewrite elems_plug_perm.
    - eapply same_off_trans; [done|]. eapply same_off_mono; [|by split].
      intros x. rewrite elems_plug_perm. set_solver. }
  destruct π as [|[d p kp y] π]; simpl.
  { apply HQ'. exists c. split; [by apply focus_tracks|done]. }
  destruct Hw as (Hy & (Hp1 & Hp2 & _) & Hw). pose proof (Forall_inv Hsm) as Hkp.
  apply Forall_inv_tail in Hsm. simpl in Hkp.
  pose proof (wavl_rk _ Hc). pose proof (wavl_rk _ Hy).
  apply focus_tracks in Hf1 as T. rewrite tracks_up in T.
  unfold bst_update_rank_delete. wp_step. eapply tr_load; [exact T|]. autorewrite with node.
  wp_step. eapply tr_rank_l; [exact T|]. wp_step. eapply tr_rank_r; [exact T|]. asserts.
  wp_step. wp_step. apply focus_bound in Hf1. cbn [length] in Hf1.
  eapply tr_rank_delete; [|exact T|..]; try done; try lia.
  - unfold walk_bound. lia.
  - eapply Forall_impl; [|exact Hsm]. intros f Hfr. simpl in *. lia.
Qed.

(** A node without a child on side [d]. *)
Lemma wp_delete_one s π d a k c (Q : unit → bst → Prop) :
  focus s π (mk d a k Leaf c) → wavl (plug π (mk d a k Leaf c)) →
  tsize (plug π (mk d a k Leaf c)) < 2 ^ 64 →
  (∀ s', deleted a (elems (plug π c)) s' → same_off (a :: elems c ++ pelems π) s s' → Q tt s') →
  wp (_ ← bst_move_node a (addr c); _ ← update a (with_rank 0);
      match paddr π with
      | Some start => bst_update_rank_delete start (pdir π)
      | None => mret tt
      end) Q s.
Proof.
  intros Hf Hw Hs HQ. pose proof (ranks_small _ _ Hw Hs) as Hsm.
  apply wavl_plug in Hw as [Hw Hp]. apply wavl_mk in Hw as (_ & Hc & Hk1 & Hk2 & Hk3).
  rewrite rk_mk in Hp. pose proof (wavl_rk _ Hc). cbn [rk] in *.
  assert (k = rk c + 1) as -> by lia.
  pose proof (focus_nodup _ _ _ _ _ _ _ Hf) as HN. simpl in HN. apply list.NoDup_cons in HN as [Ha _].
  wp_step. eapply wp_unlink; [exact Hf|]. intros s1 Hf1 Hn Ho.
  eapply wp_delete_finish; try done; [apply parent_node_of|].
  intros s' Hd Ho'. apply HQ; [done|]. by eapply same_off_trans.
Qed.

Lemma elems_edge d π b k c : Forall (λ f, fr_dir f = d) π →
  elems (plug π (mk d b k Leaf c)) =
    if d then elems (plug π c) ++ [b] else b :: elems (plug π c).
Proof.
  intros Hd. rewrite !elems_plug, elems_mk. destruct d; simpl.
  - assert (after π = []) as ->; [|by rewrite !app_nil_r, <- app_assoc].
    induction Hd as [|[[] ? ? ?] π Hf Hd IH]; simpl in *; done.
  - assert (before π = []) as ->; [|done].
    induction Hd as [|[[] ? ? ?] π Hf Hd IH]; simpl in *; done.
Qed.

Lemma split_unique (a : Z) l1 l2 m1 m2 :
  NoDup (l1 ++ a :: l2) → l1 ++ a :: l2 = m1 ++ a :: m2 → l1 = m1 ∧ l2 = m2.
Proof.
  revert m1. induction l1 as [|x l1 IH]; intros [|y m1] HN E; simpl in *.
  - by injection E as ->.
  - injection E as <- ->. apply list.NoDup_cons in HN as [HN _]. set_solver.
  - injection E as -> <-. apply list.NoDup_cons in HN as [HN _]. set_solver.
  - injection E as -> E. apply list.NoDup_cons in HN as [_ HN].
    by destruct (IH _ HN E) as [-> ->].
Qed.

Lemma replaced_start d a b k X πe π :
  NoDup (pelems (πe ++ Frame d a k X :: π)) →
  (if bool_decide (paddr (πe ++ Frame d a k X :: π) = Some a)
   then (Some b, d)
   else (paddr (πe ++ Frame d a k X :: π), pdir (πe ++ Frame d a k X :: π))) =
  (paddr (πe ++ Frame d b k X :: π), pdir (πe ++ Frame d b k X :: π)).
Proof.
  destruct πe as [|f πe]; simpl; [by rewrite bool_decide_true|]. destruct f as [e p j Y]; simpl.
  intros HN. rewrite pelems_app in HN. simpl in HN. apart.
  rewrite bool_decide_false; [done|]. congruence.
Qed.

(** The neighbour [b] leaves its place and takes over the children of [a]. *)
Lemma wp_swap {A} (K : M bst A) s π πe d e a k X b j c (Q : A → bst → Prop) :
  focus s (πe ++ Frame e a k X :: π) (mk d b j Leaf c) →
  (∀ s1 s2 l r, mk e a k (plug πe c) X = Node l a k r → mk e b k (plug πe c) X = Node l b k r →
    focus s1 π (Node l a k r) → b ∉ elems (Node l a k r) ++ pelems π →
    is_Some (nodes s1 !! b) → same_off (b :: elems (Node l a k r) ++ pelems π) s s1 →
    take_over l r b k s1 s2 → wp K Q s2) →
  wp (_ ← bst_move_node b (addr c);
      n ← load a; _ ← bst_link_node b false (child n false);
      n ← load a; _ ← bst_link_node b true (child n true);
      n ← load a; _ ← update b (with_rank (rank n)); K) Q s.
Proof.
  intros Hf HQ. pose proof (focus_nodup _ _ _ _ _ _ _ Hf) as HN.
  rewrite pelems_app in HN. simpl in HN.
  assert (elems (mk e a k (plug πe c) X) ++ pelems π ≡ₚ
    elems c ++ pelems πe ++ a :: elems X ++ pelems π) as HP.
  { rewrite elems_mk_perm, elems_plug_perm. solve_Permutation. }
  wp_step. eapply wp_unlink; [exact Hf|].
  intros s1 Hf1 Hb1 Ho1. apply focus_app, focus_up in Hf1. rewrite pelems_app in Ho1.
  simpl in Ho1. rewrite <- HP in Ho1.
  assert (b ∉ elems (mk e a k (plug πe c) X) ++ pelems π) as Hb.
  { rewrite HP. by apply list.NoDup_cons in HN as [? _]. }
  rewrite mk_Node in *.
  eapply wp_take_over; [exact Hf1|exact Hb|exact Hb1|]. intros s2 Ht2.
  eapply HQ; try done. by rewrite mk_Node.
Qed.

(** [a] gives its place to [b]; the ranks are repaired from the old place of [b]. *)
Lemma wp_delete_swapped s s1 π πe e a k X b c l r (Q : unit → bst → Prop) :
  mk e a k (plug πe c) X = Node l a k r → mk e b k (plug πe c) X = Node l b k r →
  focus s π (Node l a k r) → b ∉ elems (Node l a k r) ++ pelems π →
  is_Some (nodes s !! b) → take_over l r b k s s1 →
  wavl c → pwavl (πe ++ Frame e b k X :: π) (rk c + 1) →
  Forall (λ f, fr_rank f < 2 ^ 62 - 1) (πe ++ Frame e b k X :: π) →
  (∀ s', deleted a (elems (plug (πe ++ Frame e b k X :: π) c)) s' →
    same_off (b :: elems (Node l a k r) ++ pelems π) s s' → Q tt s') →
  wp (_ ← bst_move_node a (Some b); _ ← update a (with_rank 0);
      match paddr (πe ++ Frame e b k X :: π) with
      | Some start => bst_update_rank_delete start (pdir (πe ++ Frame e b k X :: π))
      | None => mret tt
      end) Q s1.
Proof.
  intros Ea Eb Hf Hb [nb Hnb] Ht Hc Hw Hsm HQ. pose proof (focus_nodup _ _ false _ _ _ _ Hf) as HN.
  wp_step. eapply wp_replace; [exact Hf|exact Hb|exact Hnb|exact Ht|].
  intros s2 Hf2 (n & Hn & Hp) Ho. rewrite <- Eb, <- focus_up, <- focus_app in Hf2.
  assert (elems c ++ pelems (πe ++ Frame e b k X :: π) ≡ₚ b :: elems l ++ elems r ++ pelems π) as HP.
  { rewrite <- elems_plug_perm, plug_app. simpl. rewrite Eb, elems_plug_perm. simpl.
    solve_Permutation. }
  eapply wp_delete_finish; try done.
  { rewrite HP. rewrite elems_Node_perm in Hb. apart. set_solver. }
  intros s' Hd Ho'. apply HQ; [done|]. eapply same_off_trans; [exact Ho|].
  rewrite HP in Ho'. eapply same_off_mono; [|exact Ho']. intros x. rewrite elems_Node_perm.
  set_solver.
Qed.

(** A node with two children: the neighbour [b] on side [negb d] takes its place. *)
Lemma wp_delete_two s π a k X Y (Q : unit → bst → Prop) :
  focus s π (mk (negb (pdir π)) a k Y X) → wavl (plug π (mk (negb (pdir π)) a k Y X)) →
  tsize (plug π (mk (negb (pdir π)) a k Y X)) < 2 ^ 64 → X ≠ Leaf → Y ≠ Leaf →
  (∀ s', deleted a (before π ++ (if pdir π then elems Y ++ elems X else elems X ++ elems Y)
           ++ after π) s' →
    same_off (elems (plug π (mk (negb (pdir π)) a k Y X))) s s' → Q tt s') →
  wp (bst_delete a) Q s.
Proof.
  intros Hf Hw Hs HX HY HQ. set (d := pdir π) in *. apply focus_tracks in Hf as T.
  unfold bst_delete. wp_step. eapply tr_is_right; [exact T|]. fold d.
  wp_step. eapply tr_load; [exact T|]. set (n := node_of _ _ _ _ _).
  assert (∃ c0 c1, child n false = Some c0 ∧ child n true = Some c1) as (c0 & c1 & -> & ->).
  { subst n. destruct X, Y; try done. destruct d; simpl; by eexists _, _. }
  wp_step. wp_step. subst n. rewrite child_node_of.
  destruct (addr Y) as [y|] eqn:Ey; [|by destruct Y]. apply wp_deref.
  pose proof (focus_nodup _ _ _ _ _ _ _ Hf) as HN.
  pose proof Hf as (_ & HtY & _). apply tree_at_mk in HtY as (_ & HtY & _).
  wp_step. eapply wp_find_edge; [|exact HtY|exact Ey|].
  { apply focus_bound in Hf. rewrite elems_mk_perm in Hf. simpl in Hf.
    rewrite length_app in Hf. lia. }
  intros πe b j c -> Hdir.
  set (Π := πe ++ Frame (negb d) a k X :: π).
  assert (focus s Π (mk d b j Leaf c)) as HfE by by apply focus_app, focus_up.
  apply focus_tracks in HfE as TE.
  wp_step. eapply tr_load; [exact TE|]. autorewrite with node.
  wp_step. eapply tr_is_right; [exact TE|].
  set (Π' := πe ++ Frame (negb d) b k X :: π).
  pose proof (focus_nodup _ _ _ _ _ _ _ HfE) as HNE. simpl in HNE.
  assert ((if bool_decide (paddr Π = Some a) then (Some b, negb d) else (paddr Π, pdir Π)) =
    (paddr Π', pdir Π')) as -> by (apply replaced_start; fold Π; by apart).
  wp_step. apply wp_assert; [by destruct πe|].
  assert (wavl (plug Π (mk d b j Leaf c)) ∧ tsize (plug Π (mk d b j Leaf c)) < 2 ^ 64) as [Hw' Hs'].
  { unfold Π. rewrite plug_app. done. }
  pose proof (ranks_small _ _ Hw' Hs') as Hsm. apply wavl_plug in Hw' as [Hwb Hwp].
  apply wavl_mk in Hwb as (_ & Hc & Hk1 & Hk2 & Hk3). rewrite rk_mk in Hwp. cbn [rk] in *.
  pose proof (wavl_rk _ Hc). assert (j = rk c + 1) as -> by lia.
  eapply wp_swap; [exact HfE|]. intros s1 s2 l r El Er Hf1 Hb Hs1 Ho1 Ht. apply wp_ret.
  eapply wp_delete_swapped; try done.
  { by eapply pwavl_readdress. }
  { unfold Π in Hsm. apply Forall_app in Hsm as [Hsm1 Hsm2]. apply Forall_app. split; [done|].
    constructor; [by apply Forall_inv in Hsm2|by apply Forall_inv_tail in Hsm2]. }
  intros s' Hd Ho'. apply HQ.
  - rewrite elems_edge by done. rewrite plug_app in Hd. cbn [plug] in Hd.
    rewrite elems_plug, elems_mk in Hd. destruct d; simpl in *; by rewrite <- ?app_assoc in *.
  - eapply same_off_mono; [|eapply same_off_trans; [exact Ho1|exact Ho']].
    intros x. rewrite <- El, elems_plug_perm, !elems_mk_perm, !elems_plug_perm, elems_mk_perm.
    set_solver.
Qed.

Lemma rep_nodup s t : rep s t → NoDup (elems t).
Proof. intros (_ & _ & H). simpl in H. by rewrite app_nil_r in H. Qed.

(** The position of an element of a represented tree. *)
Lemma rep_at s t a L1 L2 :
  rep s t → elems t = L1 ++ a :: L2 →
  ∃ π l k r, t = plug π (Node l a k r) ∧ focus s π (Node l a k r) ∧
    L1 = before π ++ elems l ∧ L2 = elems r ++ after π.
Proof.
  intros Hr HL. destruct (elem_of_plug t a) as (π & l & k & r & ->).
  { rewrite HL. apply list.elem_of_app. right. by left. }
  exists π, l, k, r. pose proof (rep_nodup _ _ Hr) as HN. rewrite elems_plug in HL, HN.
  simpl in HL, HN. rewrite <- app_assoc, app_assoc in HL, HN. simpl in HL, HN.
  apply split_unique in HL as [-> ->]; [|done]. split_and!; try done. by apply focus_rep.
Qed.

Lemma wp_delete s t a L1 L2 (Q : unit → bst → Prop) :
  rep s t → wavl t → tsize t < 2 ^ 64 → elems t = L1 ++ a :: L2 →
  (∀ s', deleted a (L1 ++ L2) s' → same_off (elems t) s s' → Q tt s') →
  wp (bst_delete a) Q s.
Proof.
  intros Hr Hw Hs HL HQ. destruct (rep_at _ _ _ _ _ Hr HL) as (π & l & k & r & -> & Hf & -> & ->).
  rewrite <- (app_assoc (before π)), (app_assoc (elems l)) in HQ.
  assert (l = Leaf ∨ (l ≠ Leaf ∧ r = Leaf) ∨ (l ≠ Leaf ∧ r ≠ Leaf)) as [->|[[Hl ->]|[Hl Hr']]].
  { destruct l, r; auto. }
  - unfold bst_delete. apply focus_tracks in Hf as T.
    wp_step. eapply (tr_is_right _ _ false); [exact T|].
    wp_step. eapply (tr_load _ _ false); [exact T|]. simpl. do 2 wp_step.
    eapply (wp_delete_one _ _ false); try done. intros s' Hd Ho. apply HQ.
    + simpl. by rewrite <- elems_plug.
    + rewrite elems_plug_perm. done.
  - unfold bst_delete. apply focus_tracks in Hf as T.
    wp_step. eapply (tr_is_right _ _ false); [exact T|].
    wp_step. eapply (tr_load _ _ false); [exact T|]. simpl.
    destruct (addr l) as [c|] eqn:E; [|by destruct l]. do 2 wp_step. rewrite <- E.
    eapply (wp_delete_one _ _ true); try done. intros s' Hd Ho. apply HQ.
    + simpl. rewrite app_nil_r. by rewrite <- elems_plug.
    + rewrite elems_plug_perm. simpl. eapply same_off_mono; [|exact Ho]. set_solver.
  - rewrite (Node_mk (negb (pdir π))) in *. eapply wp_delete_two; try done.
    1-2: by destruct (pdir π).
    intros s' Hd Ho. apply HQ; [|done]. by destruct (pdir π).
Qed.

(** ** The next and the previous entry *)

Lemma wp_climb_next fuel s π t a (Q : ptr → bst → Prop) :
  (length π < fuel)%nat → focus s π t → addr t = Some a →
  Q (head (after π)) s → wp (prev_next_climb fuel a true) Q s.
Proof.
  revert π t a. induction fuel as [|fuel IH]; intros π t a Hlen Hf Ha HQ; [lia|].
  destruct t as [|l b k r]; [done|]. injection Ha as ->. apply focus_tracks in Hf as T.
  cbn [prev_next_climb]. wp_step. eapply (tr_is_right _ _ false); [exact T|].
  wp_step. eapply (tr_load _ _ false); [exact T|]. rewrite parent_node_of.
  destruct π as [|[[] p j y] π]; simpl in *; [done| |done].
  apply focus_up in Hf. eapply IH; [|exact Hf|done|done]. lia.
Qed.

Lemma wp_climb_prev fuel s π t a (Q : ptr → bst → Prop) :
  (length π < fuel)%nat → focus s π t → addr t = Some a →
  Q (list.last (before π)) s → wp (prev_next_climb fuel a false) Q s.
Proof.
  revert π t a. induction fuel as [|fuel IH]; intros π t a Hlen Hf Ha HQ; [lia|].
  destruct t as [|l b k r]; [done|]. injection Ha as ->. apply focus_tracks in Hf as T.
  cbn [prev_next_climb]. wp_step. eapply (tr_is_right _ _ false); [exact T|].
  wp_step. eapply (tr_load _ _ false); [exact T|]. rewrite parent_node_of.
  destruct π as [|[[] p j y] π]; simpl in *; [done| |].
  - rewrite app_assoc, last_snoc in HQ. done.
  - apply focus_up in Hf. eapply IH; [|exact Hf|done|done]. lia.
Qed.

Lemma wp_edge_first s p t a (Q : Z → bst → Prop) :
  (length (elems t) <= size (nodes s))%nat → tree_at (nodes s) p t → addr t = Some a →
  (∀ b, head (elems t) = Some b → Q b s) → wp (bst_find_edge a false) Q s.
Proof.
  intros Hlen Ht Ha HQ. eapply wp_find_edge; try done. intros π b k x -> Hd. apply HQ.
  by rewrite (elems_edge false).
Qed.

Lemma wp_edge_last s p t a (Q : Z → bst → Prop) :
  (length (elems t) <= size (nodes s))%nat → tree_at (nodes s) p t → addr t = Some a →
  (∀ b, list.last (elems t) = Some b → Q b s) → wp (bst_find_edge a true) Q s.
Proof.
  intros Hlen Ht Ha HQ. eapply wp_find_edge; try done. intros π b k x -> Hd. apply HQ.
  rewrite (elems_edge true) by done. by rewrite last_snoc.
Qed.

Lemma addr_None t : addr t = None → t = Leaf.
Proof. by destruct t. Qed.

Lemma wp_next s t a L1 L2 (Q : ptr → bst → Prop) :
  rep s t → elems t = L1 ++ a :: L2 → Q (head L2) s → wp (bst_next (Some a)) Q s.
Proof.
  intros Hr HL HQ. destruct (rep_at _ _ _ _ _ Hr HL) as (π & l & k & r & -> & Hf & -> & ->).
  unfold bst_next, bst_prev_next. apply focus_tracks in Hf as T. wp_step. wp_step.
  eapply (tr_load _ _ false); [exact T|]. wp_step. simpl.
  pose proof Hf as (_ & (_ & _ & Htr) & _). apply focus_bound in Hf as Hb. cbn [elems] in Hb.
  rewrite length_app in Hb. cbn [length] in Hb. destruct (addr r) as [c|] eqn:Ec.
  - wp_step. eapply wp_edge_first; [|exact Htr|exact Ec|]; [lia|]. intros b Hh. apply wp_ret.
    destruct (elems r); [done|]. simpl in *. by injection Hh as ->.
  - apply addr_None in Ec as ->. simpl in HQ. do 2 wp_step.
    eapply wp_climb_next; [|exact Hf|done|done]. unfold walk_bound. lia.
Qed.

Lemma wp_prev s t a L1 L2 (Q : ptr → bst → Prop) :
  rep s t → elems t = L1 ++ a :: L2 → Q (list.last L1) s → wp (bst_prev (Some a)) Q s.
Proof.
  intros Hr HL HQ. destruct (rep_at _ _ _ _ _ Hr HL) as (π & l & k & r & -> & Hf & -> & ->).
  unfold bst_prev, bst_prev_next. apply focus_tracks in Hf as T. wp_step. wp_step.
  eapply (tr_load _ _ false); [exact T|]. wp_step. simpl.
  pose proof Hf as (_ & (_ & Htl & _) & _). apply focus_bound in Hf as Hb. cbn [elems] in Hb.
  rewrite length_app in Hb. cbn [length] in Hb. destruct (addr l) as [c|] eqn:Ec.
  - wp_step. eapply wp_edge_last; [|exact Htl|exact Ec|]; [lia|]. intros b Hh. apply wp_ret.
    by rewrite last_app, Hh in HQ.
  - apply addr_None in Ec as ->. rewrite app_nil_r in HQ. do 2 wp_step.
    eapply wp_climb_prev; [|exact Hf|done|done]. unfold walk_bound. lia.
Qed.

Lemma wp_first s t (Q : ptr → bst → Prop) :
  rep s t → Q (head (elems t)) s → wp (bst_next None) Q s.
Proof.
  intros Hr HQ. unfold bst_next, bst_prev_next. pose proof (rep_size _ _ Hr).
  destruct Hr as (Hroot & Ht & _). simpl in Hroot. wp_step. apply wp_gets. rewrite Hroot.
  destruct (addr t) as [c|] eqn:Ec; [|by apply addr_None in Ec as ->].
  wp_step. eapply wp_edge_first; [|exact Ht|exact Ec|]; [done|]. intros b Hh. apply wp_ret.
  by rewrite <- Hh.
Qed.

Lemma wp_min s t (Q : ptr → bst → Prop) :
  rep s t → Q (head (elems t)) s → wp (bst_min None) Q s.
Proof.
  intros Hr HQ. unfold bst_min. pose proof (rep_size _ _ Hr).
  destruct Hr as (Hroot & Ht & _). simpl in Hroot. wp_step. apply wp_gets. rewrite Hroot.
  destruct (addr t) as [c|] eqn:Ec; [|by apply addr_None in Ec as ->].
  wp_step. eapply wp_edge_first; [|exact Ht|exact Ec|]; [done|]. intros b Hh. apply wp_ret.
  by rewrite <- Hh.
Qed.

(** ** Iterating *)

Lemma wp_for_every (body : Z → M bst unit) (I : list Z → bst → Prop) L fuel s
    (Q : list Z → bst → Prop) :
  (∀ a rest s (P : ptr → bst → Prop), I (a :: rest) s → P (head rest) s → wp (bst_next (Some a)) P s) →
  (∀ a rest s, I (a :: rest) s → wp (body a) (λ _ s', I rest s') s) →
  (length L < fuel)%nat → I L s → (∀ s', I [] s' → Q L s') →
  wp (for_every_entry_loop body fuel (head L)) Q s.
Proof.
  intros Hnext Hbody. revert L s Q.
  induction fuel as [|fuel IH]; intros L s Q Hlen HI HQ; [lia|].
  cbn [for_every_entry_loop]. destruct L as [|a rest]; simpl in *; [by apply wp_ret, HQ|].
  wp_step. eapply Hnext; [exact HI|]. wp_step. eapply wp_mono; [by eapply Hbody|].
  intros [] s' HI'. wp_step. eapply IH; [lia|exact HI'|]. intros s2 H2. by apply wp_ret, HQ.
Qed.

(** Iteration over a tree that [I] keeps for the remaining entries. *)
Lemma wp_for_every_entry (body : Z → M bst unit) (I : list Z → bst → Prop) t s
    (Q : list Z → bst → Prop) :
  (∀ a rest s (P : ptr → bst → Prop), I (a :: rest) s → P (head rest) s → wp (bst_next (Some a)) P s) →
  (∀ a rest s, I (a :: rest) s → wp (body a) (λ _ s', I rest s') s) →
  rep s t → I (elems t) s → (∀ s', I [] s' → Q (elems t) s') →
  wp (bst_for_every_entry body) Q s.
Proof.
  intros Hnext Hbody Hr HI HQ. unfold bst_for_every_entry. wp_step.
  eapply wp_first; [exact Hr|]. do 2 wp_step. apply rep_size in Hr as Hsz.
  eapply wp_for_every; try done. unfold walk_bound. lia.
Qed.

Lemma elems_nil t : elems t = [] → t = Leaf.
Proof. destruct t as [|l a k r]; simpl; [done|]. by destruct (elems l). Qed.

Lemma wp_delete_all_helper s t a rest (Q : unit → bst → Prop) :
  rep s t → elems t = a :: rest →
  (∀ s' t', rep s' t' → elems t' = rest → same_off (elems t) s s' → Q tt s') →
  wp (bst_delete_all_helper a) Q s.
Proof.
  intros Hr HL HQ. destruct (rep_at s t a [] rest Hr HL) as (π & l & k & r & -> & Hf & E & ->).
  symmetry in E. apply app_eq_nil in E as [Eb ->%elems_nil]. unfold bst_delete_all_helper.
  apply focus_tracks in Hf as T. wp_step. eapply (tr_load _ _ false); [exact T|].
  wp_step. apply wp_assert; [done|]. simpl. eapply (wp_unlink _ _ false); [exact Hf|].
  intros s' Hf' _ Ho. apply (HQ s' (plug π r)); [exact (proj1 (focus_rep _ _ _) Hf')| |].
  - by rewrite elems_plug, Eb.
  - rewrite elems_plug_perm. done.
Qed.
