(* ===== verification/WavlProps.v ===== *)
(** * WavlProps: correctness of the weak AVL tree.

    Insertion, deletion, search and iteration, each on every heap that holds a
    valid tree: no assertion of the source fails, no walk runs out of its bound,
    the rank rule is kept and the elements are the expected ones in order. *)

From S2P Require Import Prelude Wavl WavlTree WavlHeap WavlOps WavlCalls.

(** ** Contracts used by the clients of the tree *)

(** A heap that holds a valid tree with elements [L]. *)
Definition holds (s : bst) (L : list Z) : Prop :=
  ∃ t, rep s t ∧ wavl t ∧ elems t = L ∧ Z.of_nat (length L) < 2 ^ 64.

Lemma holds_nodup s L : holds s L → NoDup L.
Proof. intros (t & Hr & _ & <- & _). by eapply rep_nodup. Qed.

Lemma holds_dom s L x : holds s L → x ∈ L → x ∈ dom (nodes s).
Proof. intros (t & Hr & _ & <- & _). by eapply rep_dom. Qed.

Lemma insert_contract compare s L a n L1 M L2 (Q : bool → bst → Prop) :
  holds s L → a ∉ L → nodes s !! a = Some n → rank n = 0 → Z.of_nat (length L) + 1 < 2 ^ 64 →
  L = L1 ++ M ++ L2 → parts compare a L1 M L2 →
  (M ≠ [] → Q false s) →
  (∀ s', M = [] → holds s' (L1 ++ a :: L2) → same_off (a :: L) s s' → Q true s') →
  wp (bst_insert compare a) Q s.
Proof.
  intros (t & Hr & Hw & <- & Hlt) Ha Hn Hrk Hlen HL Hp Q0 Q1. unfold bst_insert.
  wp_step. eapply wp_load; [exact Hn|]. wp_step. apply wp_assert; [by apply Z.eqb_eq|]. do 2 wp_step.
  pose proof (rep_size _ _ Hr).
  eapply (wp_insert_loop _ _ _ _ []); [|exact Hr|exact Hw|done| |exact Hn|exact HL|exact Hp|done|].
  { unfold walk_bound. lia. }
  { by rewrite app_nil_r. }
  intros s' HM (t' & (Hf & HL' & Ho & _) & Hw'). simpl in *. rewrite app_nil_r in *.
  apply Q1; [done| |done]. exists t'. split_and!; try done.
  rewrite HL in Hlen. subst M. rewrite !length_app in *. simpl in *. lia.
Qed.

Lemma delete_contract s L1 a L2 (Q : unit → bst → Prop) :
  holds s (L1 ++ a :: L2) →
  (∀ s' n, holds s' (L1 ++ L2) → same_off (L1 ++ a :: L2) s s' →
    nodes s' !! a = Some n → rank n = 0 → Q tt s') →
  wp (bst_delete a) Q s.
Proof.
  intros (t & Hr & Hw & HL & Hlt) HQ. eapply wp_delete; [exact Hr|exact Hw| |exact HL|].
  { unfold tsize. by rewrite HL. }
  rewrite HL. intros s' [(t' & ? & ? & HL') (n & ? & ? & ?)] Ho. eapply HQ; try done.
  exists t'. split_and!; try done. rewrite !length_app in *. simpl in *. lia.
Qed.

Lemma search_contract {K} (compare : Z → K → outcome Z) q s L L1 M L2 (Q : ptr → bst → Prop) :
  holds s L → L = L1 ++ M ++ L2 → parts compare q L1 M L2 →
  (M = [] → Q None s) → (∀ a, a ∈ M → Q (Some a) s) → wp (bst_search compare q) Q s.
Proof.
  intros (t & Hr & Hw & <- & Hlt) HL Hp Q0 Q1. unfold bst_search.
  pose proof (rep_size _ _ Hr) as Hsz. destruct Hr as (Hroot & Ht & _). simpl in Hroot.
  wp_step. apply wp_gets. do 2 wp_step. rewrite Hroot.
  eapply wp_search_loop; [|exact Ht|exact HL|exact Hp|done|done].
  pose proof (height_elems t). unfold tsize, walk_bound in *. lia.
Qed.

Lemma next_contract s L1 a L2 (Q : ptr → bst → Prop) :
  holds s (L1 ++ a :: L2) → Q (head L2) s → wp (bst_next (Some a)) Q s.
Proof. intros (t & Hr & _ & HL & _). by eapply wp_next. Qed.

Lemma prev_contract s L1 a L2 (Q : ptr → bst → Prop) :
  holds s (L1 ++ a :: L2) → Q (list.last L1) s → wp (bst_prev (Some a)) Q s.
Proof. intros (t & Hr & _ & HL & _). by eapply wp_prev. Qed.

Lemma min_contract s L (Q : ptr → bst → Prop) :
  holds s L → Q (head L) s → wp (bst_min None) Q s.
Proof. intros (t & Hr & _ & <- & _). by eapply wp_min. Qed.

(** ** Example heap: three nodes, and a fourth that is not in the tree *)

Definition tree3 : tree := Node (Node Leaf 10 1 Leaf) 20 2 (Node Leaf 30 1 Leaf).
Definition heap4 : bst := Bst (Some 20) (list_to_map
  [(10, BstNode 1 (Some 20) None None); (20, BstNode 2 None (Some 10) (Some 30));
   (30, BstNode 1 (Some 20) None None); (40, BstNode 0 None None None)]).
Definition by_address (a b : Z) : outcome Z := Done (b - a).

Lemma heap4_rep : rep heap4 tree3.
Proof.
  split; [done|]. split; [by vm_compute; split_and!|].
  apply (bool_decide_unpack (NoDup _)). by vm_compute.
Qed.

Lemma tree3_wavl : wavl tree3.
Proof. simpl. unfold rank_ok. simpl. lia. Qed.

(** ** Properties *)

(** C23: Inserting a node that is not in the tree, with a comparison that puts
    it after the elements L1, before L2 and matches M: the call returns true
    exactly when M is empty.  Then the node stands between L1 and L2 and the tree
    obeys the rank rule again; otherwise nothing has changed.  No assertion
    fails, and no node outside the tree is written. *)
Theorem bst_insert_ok compare s t a n L1 M L2 :
  rep s t → wavl t → tsize t + 1 < 2 ^ 64 →
  a ∉ elems t → nodes s !! a = Some n → rank n = 0 →
  elems t = L1 ++ M ++ L2 → parts compare a L1 M L2 →
  ∃ s', bst_insert compare a s = Done (bool_decide (M = []), s') ∧
    same_off (a :: elems t) s s' ∧
    (M ≠ [] → s' = s) ∧
    (M = [] → ∃ t', rep s' t' ∧ wavl t' ∧ elems t' = L1 ++ a :: L2).
Proof.
  intros Hr Hw Hs Ha Hn Hk HL Hp.
  assert (holds s (elems t)) as Hh by (exists t; unfold tsize in Hs; split_and!; (done || lia)).
  assert (wp (bst_insert compare a) (λ r s', r = bool_decide (M = []) ∧
    same_off (a :: elems t) s s' ∧ (M ≠ [] → s' = s) ∧
    (M = [] → ∃ t', rep s' t' ∧ wavl t' ∧ elems t' = L1 ++ a :: L2)) s) as H.
  { eapply insert_contract; try done.
    - intros HM. rewrite bool_decide_false by done. done.
    - intros s' HM (t' & ? & ? & ? & _) Ho. rewrite bool_decide_true by done.
      split; [done|]. split; [exact Ho|]. split; [done|]. intros _. by exists t'. }
  apply wp_done in H as (r & s' & E & -> & H). exists s'. done.
Qed.

Lemma bst_insert_ok_witness :
  ∃ s', bst_insert by_address 40 heap4 = Done (true, s') ∧
    ∃ t', rep s' t' ∧ wavl t' ∧ elems t' = [10; 20; 30; 40].
Proof.
  destruct (bst_insert_ok by_address heap4 tree3 40 (BstNode 0 None None None) [10; 20; 30] [] [] heap4_rep tree3_wavl)
    as (s' & E & _ & _ & H); try (by vm_compute).
  - vm_compute. set_solver.
  - split_and!; repeat constructor; eexists; by split.
  - exists s'. split; [exact E|]. by apply H.
Defined.

(** C6: Deleting an element of the tree removes exactly it: the other elements
    keep their order, the rank rule holds again, no assertion fails, and the
    deleted node is left with rank 0 and no parent, ready to be inserted again. *)
Theorem bst_delete_ok s t L1 a L2 :
  rep s t → wavl t → tsize t < 2 ^ 64 → elems t = L1 ++ a :: L2 →
  ∃ s', bst_delete a s = Done (tt, s') ∧
    (∃ t', rep s' t' ∧ wavl t' ∧ elems t' = L1 ++ L2) ∧
    (∃ n, nodes s' !! a = Some n ∧ rank n = 0 ∧ parent n = None) ∧
    same_off (elems t) s s'.
Proof.
  intros Hr Hw Hs HL.
  assert (wp (bst_delete a) (λ _ s', deleted a (L1 ++ L2) s' ∧ same_off (elems t) s s') s) as H.
  { eapply wp_delete; try done. }
  apply wp_done in H as ([] & s' & E & [Hd Hn] & Ho). exists s'. done.
Qed.

Lemma bst_delete_ok_witness :
  ∃ s', bst_delete 20 heap4 = Done (tt, s') ∧
    ∃ t', rep s' t' ∧ wavl t' ∧ elems t' = [10; 30].
Proof.
  destruct (bst_delete_ok heap4 tree3 [10] 20 [30] heap4_rep tree3_wavl) as (s' & E & Ht & _); try (by vm_compute).
  - exists s'. by split.
Defined.

(** C35: Searching a valid tree of n nodes compares at most 2 log2 (n + 1) nodes:
    any number of iterations whose power of two exceeds (n + 1) squared is
    enough.  The search returns a matching node if there is one and NULL
    otherwise, and changes nothing. *)
Theorem bst_search_logarithmic {K} (compare : Z → K → outcome Z) q s t L1 M L2 (fuel : nat) :
  rep s t → wavl t → elems t = L1 ++ M ++ L2 → parts compare q L1 M L2 →
  (tsize t + 1) ^ 2 < 2 ^ Z.of_nat fuel →
  ∃ r, search_loop compare fuel (root s) q s = Done (r, s) ∧
    match r with Some a => a ∈ M | None => M = [] end.
Proof.
  intros Hr Hw HL Hp Hf. pose proof (rk_size _ Hw). pose proof (height_rk _ Hw).
  destruct Hr as (Hroot & Ht & _). simpl in Hroot. rewrite Hroot.
  assert (wp (search_loop compare fuel (addr t) q) (λ r s', s' = s ∧
    match r with Some a => a ∈ M | None => M = [] end) s) as H1.
  { eapply wp_search_loop; [|exact Ht|exact HL|exact Hp|done|done].
    assert (rk t < Z.of_nat fuel); [|lia]. apply (Z.pow_lt_mono_r_iff 2); [lia|lia|]. lia. }
  apply wp_done in H1 as (r & s' & E & -> & Hm). by exists r.
Qed.

Lemma bst_search_logarithmic_witness :
  ∃ r, search_loop by_address 5 (root heap4) 30 heap4 = Done (r, heap4) ∧
    match r with Some a => a ∈ [30] | None => [30] = [] end.
Proof.
  apply (bst_search_logarithmic by_address 30 heap4 tree3 [10; 20] [30] [] 5 heap4_rep tree3_wavl); try (by vm_compute).
  - split_and!; repeat constructor; eexists; by split.
Defined.

(** The loop over every entry may delete the entry it is at, as its
    documentation promises: run with deletion as its body over a valid tree, it
    completes, visits all the elements in order, and leaves the empty tree with
    every node out of it at rank 0. *)
Theorem bst_iterate_deleting s t :
  rep s t → wavl t → tsize t < 2 ^ 64 →
  ∃ s', bst_for_every_entry bst_delete s = Done (elems t, s') ∧
    root s' = None ∧
    (∀ a, a ∈ elems t → ∃ n, nodes s' !! a = Some n ∧ rank n = 0).
Proof.
  intros Hr Hw Hs.
  set (I := λ rest s, ∃ pre, elems t = pre ++ rest ∧ holds s rest ∧
    ∀ a, a ∈ pre → ∃ n, nodes s !! a = Some n ∧ rank n = 0).
  pose proof (rep_nodup _ _ Hr) as HN.
  assert (wp (bst_for_every_entry bst_delete) (λ L s', L = elems t ∧ I [] s') s) as H.
  { eapply (wp_for_every_entry _ I); [| |exact Hr| |done].
    - intros a rest s1 P (pre & _ & Hh & _) HP. by eapply (next_contract _ []).
    - intros a rest s1 (pre & E & Hh & Hpre). eapply (delete_contract _ []); [done|].
      intros s2 n Hh2 [Ho _] Hn Hrk. exists (pre ++ [a]). split_and!; [by rewrite <- app_assoc|done|].
      intros b [Hb| ->%list_elem_of_singleton]%list.elem_of_app; [|by exists n].
      rewrite Ho; [by apply Hpre|]. rewrite E in HN. apply list.NoDup_app in HN as (_ & HN & _).
      apply HN, Hb.
    - exists []. split_and!; [done| |by intros ? ?%not_elem_of_nil]. by exists t. }
  apply wp_done in H as (L & s' & E & -> & pre & Ep & (t' & Hr' & _ & Ht' & _) & Hpre).
  exists s'. split_and!; [done| |by rewrite Ep, app_nil_r].
  apply elems_nil in Ht' as ->. by destruct Hr' as (Hroot & _).
Qed.

Lemma bst_iterate_deleting_witness :
  ∃ s', bst_for_every_entry bst_delete heap4 = Done ([10; 20; 30], s') ∧ root s' = None.
Proof.
  destruct (bst_iterate_deleting heap4 tree3 heap4_rep tree3_wavl) as (s' & E & H & _); try (by vm_compute).
  - exists s'. by split.
Defined.

(** ** Emptying a tree *)

(** [bst_for_every_entry_delete] visits every element in order, on a tree that
    need not be balanced, and leaves it empty. *)
Lemma for_every_entry_delete_empties s t :
  rep s t →
  ∃ s', bst_for_every_entry_delete (λ _, mret tt) s = Done (elems t, s') ∧ root s' = None.
Proof.
  intros Hr. set (I := λ rest s, ∃ t', rep s t' ∧ elems t' = rest).
  assert (wp (bst_for_every_entry_delete (λ _, mret tt)) (λ L s', L = elems t ∧ I [] s') s) as H.
  { eapply (wp_for_every_entry _ I); [| |exact Hr|by exists t|done].
    - intros a rest s1 P (t' & Hr' & E) HP. by eapply (wp_next _ _ _ []).
    - intros a rest s1 (t' & Hr' & E). wp_step. eapply wp_delete_all_helper; [done|done|].
      intros s2 t2 Hr2 E2 _. apply wp_ret. by exists t2. }
  apply wp_done in H as (L & s' & E & -> & (t' & Hr' & ->%elems_nil)).
  exists s'. split; [done|]. by destruct Hr' as (Hroot & _).
Qed.

(** The nodes it unlinks keep their rank, so that inserting one of them again
    trips the assertion of [bst_insert] unless it is initialised first. *)
Lemma reinsert_asserts :
  (_ ← bst_for_every_entry_delete (λ _, mret tt); bst_insert by_address 20) heap4 =
  Fault AssertFailed.
Proof. by vm_compute. Qed.
