(* ===== verification/Frames.v ===== *)
(** * Frames: what the page allocator promises to the users of pages.

    The VM objects use physical pages through four operations.  The class states
    them with their laws in terms of reference counts alone; the page allocator of
    [PageAlloc] is an instance. *)

From S2P Require Import Prelude Bits Abi PageAlloc PageFacts PageRuns PageProps.

Class Frames (S : Type) : Type := {
  frames_ok : S → Prop;
  (** The reference count of a page; 0 for a page that is not in use. *)
  refs : S → Z → Z;
  frame_alloc : Z → M S (option Z);
  frame_free : Z → M S unit;
  frame_ref : Z → M S Z;
}.

(** Only the count of [p] changed, to [n]. *)
Definition recount {S} `{Frames S} (p n : Z) (s s' : S) : Prop :=
  frames_ok s' ∧ refs s' p = n ∧ ∀ q, q ≠ p → refs s' q = refs s q.

Class FramesLaws (S : Type) `{Frames S} : Prop := {
  refs_nonneg : ∀ s p, frames_ok s → 0 <= refs s p;
  frame_alloc_ok : ∀ s fl, frames_ok s → has fl PAGE_ALLOC_4GB_LIMIT = false →
    wp (frame_alloc fl) (λ r s',
      match r with
      | None => frames_ok s' ∧ ∀ q, refs s' q = refs s q
      | Some p => refs s p = 0 ∧ recount p 1 s s'
      end) s;
  frame_free_ok : ∀ s p, frames_ok s → 0 < refs s p → refs s p + 1 < 2 ^ 64 →
    wp (frame_free p) (λ _ s', recount p (refs s p - 1) s s') s;
  frame_ref_ok : ∀ s p, frames_ok s → 0 < refs s p → refs s p + 1 < 2 ^ 64 →
    wp (frame_ref p) (λ _ s', recount p (refs s p + 1) s s') s;
}.

(** ** The page allocator as a source of frames *)

Definition page_refs (s : mem) (p : Z) : Z :=
  match page_map s !! p with
  | Some pg => if is_free pg then 0 else ref pg
  | None => 0
  end.

#[export] Instance page_frames : Frames mem := {
  frames_ok := page_inv;
  refs := page_refs;
  frame_alloc := alloc_pages 1;
  frame_free := free_page;
  frame_ref := page_ref;
}.

Section page_frames.
Implicit Types (s : mem) (p : Z).

Lemma page_refs_pos s p :
  page_inv s → 0 < page_refs s p →
  ∃ pg, page_map s !! p = Some pg ∧ is_free pg = false ∧ page_refs s p = ref pg.
Proof.
  intros (ps & Hr & _) H. unfold page_refs in *. destruct (page_map s !! p) as [pg|] eqn:E; [|lia].
  destruct (is_free pg) eqn:Ef; [lia|]. by exists pg.
Qed.

Lemma page_refs_same l s s' q : same_pages l s s' → q ∉ l → page_refs s' q = page_refs s q.
Proof. intros H Hq. unfold page_refs. by rewrite H. Qed.

Lemma page_op_inv s op (Q : option Z → mem → Prop) :
  page_inv s → page_op_pre s op → wp (run_page_op op) Q s →
  wp (run_page_op op) (λ r s', page_inv s' ∧ Q r s') s.
Proof. intros Hi Hp HQ. apply wp_and; [by apply page_op_ok|done]. Qed.

Lemma page_alloc_one s fl :
  page_inv s → has fl PAGE_ALLOC_4GB_LIMIT = false →
  wp (alloc_pages 1 fl) (λ r s',
    match r with
    | None => page_inv s' ∧ ∀ q, page_refs s' q = page_refs s q
    | Some p => page_refs s p = 0 ∧ recount p 1 s s'
    end) s.
Proof.
  intros Hi Hl. assert (page_op_pre s (OpAlloc 1 fl)) as Hpre.
  { split; [done|]. by rewrite andb_false_r. }
  pose proof Hi as (ps & Hr & Hc & _).
  assert (has fl PAGE_ALLOC_CONTIGUOUS && (1 <? 1) = false) as Hcont by by rewrite andb_false_r.
  eapply wp_mono; [apply (page_op_inv s (OpAlloc 1 fl)); [done|done|]; by apply wp_alloc_pages|].
  simpl. intros r s' [Hi' [Hlay Hpost]]. destruct ps as [|p ps]; simpl in Hpost.
  - destruct Hpost as (-> & _ & _ & Hs). split; [done|]. intros q.
    eapply page_refs_same; [done|]. apply not_elem_of_nil.
  - destruct Hpost as (-> & _ & _ & Hch & Hs & _). simpl in *.
    destruct Hch as [(pg' & Hp' & Hf' & Hr' & _) _].
    destruct (rep_in _ _ Hr p) as [pg Hp]; [by left|].
    split; [|split; [done|split]].
    + unfold page_refs. rewrite Hp. rewrite (proj2 (rep_free _ _ Hr _ _ Hp)) by by left. done.
    + simpl. unfold page_refs. by rewrite Hp', Hf'.
    + intros q Hq. eapply page_refs_same; [done|]. set_solver.
Qed.

Lemma page_free_one s p :
  page_inv s → 0 < page_refs s p → page_refs s p + 1 < 2 ^ 64 →
  wp (free_page p) (λ _ s', recount p (page_refs s p - 1) s s') s.
Proof.
  intros Hi Hpos Hb. destruct (page_refs_pos _ _ Hi Hpos) as (pg & Hp & Hf & Hrf).
  assert (page_op_pre s (OpFree p)) as Hpre by (exists pg; split_and!; (done || lia)).
  pose proof (page_op_ok _ _ Hi Hpre) as Hinv. simpl in Hinv. apply wp_bind_inv in Hinv.
  pose proof Hi as (ps & Hr & _).
  eapply wp_mono; [apply wp_and; [exact Hinv|by apply (wp_free_page p pg ps)]|].
  cbn beta. intros [] s' (Hi' & Hlay & Hs & Hpost). split_and!; [exact Hi'| |].
  - simpl. rewrite Hrf. unfold page_refs. destruct (Z.eqb_spec (ref pg) 1) as [E|E].
    + destruct Hpost as [Hr' _]. destruct (rep_in _ _ Hr' p) as [pg' Hp']; [by left|].
      rewrite Hp', (proj2 (rep_free _ _ Hr' _ _ Hp')) by by left. lia.
    + destruct Hpost as (_ & _ & _ & ->). change (is_free (set_ref _ pg)) with (is_free pg).
      by rewrite Hf.
  - intros q Hq. eapply page_refs_same; [done|]. set_solver.
Qed.

Lemma page_ref_one s p :
  page_inv s → 0 < page_refs s p → page_refs s p + 1 < 2 ^ 64 →
  wp (page_ref p) (λ _ s', recount p (page_refs s p + 1) s s') s.
Proof.
  intros Hi Hpos Hb. destruct (page_refs_pos _ _ Hi Hpos) as (pg & Hp & Hf & Hrf).
  assert (page_op_pre s (OpRef p)) as Hpre by (exists pg; split_and!; (done || lia)).
  pose proof (page_op_ok _ _ Hi Hpre) as Hinv. simpl in Hinv. apply wp_bind_inv in Hinv.
  eapply wp_mono; [apply wp_and; [exact Hinv|]|].
  - unfold page_ref. wp_step. eapply wp_page_at; [done|]. wp_steps.
    instantiate (1 := λ _ s', s' = set_page_map <[p := set_ref (u64 (ref pg + 1)) pg]> s). done.
  - cbn beta. intros r s' (Hi' & ->). rewrite u64_small in * by lia.
    split_and!; [exact Hi'| |].
    + simpl. unfold page_refs. simpl. rewrite lookup_insert_eq, Hp.
      change (is_free (set_ref _ pg)) with (is_free pg). by rewrite Hf.
    + intros q Hq. simpl. unfold page_refs. simpl. by rewrite lookup_insert_ne.
Qed.
End page_frames.

#[export] Instance page_frames_laws : FramesLaws mem.
Proof.
  split; simpl.
  - intros s p (ps & Hr & _). unfold page_refs. destruct (page_map s !! p) as [pg|] eqn:E; [|done].
    pose proof (rep_state _ _ Hr _ _ E). destruct (is_free pg); lia.
  - apply page_alloc_one.
  - apply page_free_one.
  - apply page_ref_one.
Qed.
