(* ===== verification/VmObject.v ===== *)
(** * VmObject: VM objects, demand population and copy-on-write.

    [kernel/mm/vm_object.cpp].  A [struct page *] is the number of a frame of a
    page allocator, used through the class [Frames].  Its memory is a map from
    byte offsets to the bytes that are not zero.  A [vm_object *] is a number that
    is never used twice, so that a use of a destroyed object is a fault; the tree
    [vmo->pages] is a map from offsets to pages.  [zalloc] and the allocation of
    tree nodes fail as the list [oom] says; when it is exhausted they succeed.

    The mutexes of an object are taken and released inside each operation, and the
    page tables, which [vm_object::unmap_page] edits, are not part of the state. *)

From stdpp Require Import sorting.
From S2P Require Import Prelude Abi PageAlloc Frames.

Inductive vmo_type : Type := VMO_ANON | VMO_BACKED.
Inductive vmo_status : Type :=
  | VMO_STATUS_OK
  | VMO_STATUS_BUS_ERROR
  | VMO_STATUS_OUT_OF_MEM
  | VMO_STATUS_NON_EXISTENT.

(** [vmo->ops]: null, the anonymous operations of this file, those of private file
    mappings ([mm/vm.cpp]), or those of a file system. *)
Inductive vm_object_ops : Type := no_ops | vmo_phys_ops | vm_private_file_map_ops | other_ops.

Definition VMO_FLAG_LOCK_FUTURE_PAGES : Z := 1.
Definition VMO_GET_MAY_POPULATE : Z := 1.
Definition VMO_GET_MAY_NOT_IMPLICIT_COW : Z := 2.
Definition VMO_TRUNCATE_DONT_PUNCH : Z := 1.
Definition PURGE_SHOULD_FREE : Z := 1.
Definition PURGE_EXCLUDE : Z := 2.

Record vm_object : Type := VmObject {
  vo_type : vmo_type;
  vo_size : Z;
  vo_flags : Z;
  vo_pages : gmap Z Z;
  vo_priv : Z;
  vo_ops : vm_object_ops;
  vo_mappings : list Z;
  cow_clone : option Z;
  vo_ino : option Z;
  vo_refcount : Z;
  forked_from : option Z
}.

Definition set_vsize (n : Z) (o : vm_object) : vm_object :=
  VmObject (vo_type o) n (vo_flags o) (vo_pages o) (vo_priv o) (vo_ops o) (vo_mappings o)
    (cow_clone o) (vo_ino o) (vo_refcount o) (forked_from o).
Definition set_vpages (m : gmap Z Z) (o : vm_object) : vm_object :=
  VmObject (vo_type o) (vo_size o) (vo_flags o) m (vo_priv o) (vo_ops o) (vo_mappings o)
    (cow_clone o) (vo_ino o) (vo_refcount o) (forked_from o).
Definition set_vops (t : vmo_type) (p : vm_object_ops) (o : vm_object) : vm_object :=
  VmObject t (vo_size o) (vo_flags o) (vo_pages o) (vo_priv o) p (vo_mappings o)
    (cow_clone o) (vo_ino o) (vo_refcount o) (forked_from o).
Definition set_vmappings (l : list Z) (o : vm_object) : vm_object :=
  VmObject (vo_type o) (vo_size o) (vo_flags o) (vo_pages o) (vo_priv o) (vo_ops o) l
    (cow_clone o) (vo_ino o) (vo_refcount o) (forked_from o).
Definition set_vcow (c : option Z) (o : vm_object) : vm_object :=
  VmObject (vo_type o) (vo_size o) (vo_flags o) (vo_pages o) (vo_priv o) (vo_ops o)
    (vo_mappings o) c (vo_ino o) (vo_refcount o) (forked_from o).
Definition set_vrefcount (n : Z) (o : vm_object) : vm_object :=
  VmObject (vo_type o) (vo_size o) (vo_flags o) (vo_pages o) (vo_priv o) (vo_ops o)
    (vo_mappings o) (cow_clone o) (vo_ino o) n (forked_from o).

(** [cul::align_up2] and [cul::align_down2] on 64-bit numbers. *)
Definition align_up2 (x alignment : Z) : Z :=
  Z.land (u64 (x + (alignment - 1))) (u64 (- alignment)).
Definition align_down2 (x alignment : Z) : Z := Z.land x (u64 (Z.lnot (alignment - 1))).

(** The offsets of the pages of an object, in the order of the tree. *)
Definition offsets (m : gmap Z Z) : list Z := merge_sort Z.le (map_to_list m).*1.

(** ** The state *)

Record world (FS : Type) : Type := World {
  fs : FS;
  contents : gmap Z (gmap Z Z);
  objs : gmap Z vm_object;
  next_obj : Z;
  oom : list bool
}.
Arguments World {FS} _ _ _ _ _.
Arguments fs {FS} _.
Arguments contents {FS} _.
Arguments objs {FS} _.
Arguments next_obj {FS} _.
Arguments oom {FS} _.

Definition set_fs {FS} (f : FS) (w : world FS) : world FS :=
  World f (contents w) (objs w) (next_obj w) (oom w).
Definition set_contents {FS} (c : gmap Z (gmap Z Z)) (w : world FS) : world FS :=
  World (fs w) c (objs w) (next_obj w) (oom w).
Definition set_objs {FS} (m : gmap Z vm_object) (w : world FS) : world FS :=
  World (fs w) (contents w) m (next_obj w) (oom w).

(** What the memory of a page holds. *)
Definition memory {FS} (w : world FS) (p : Z) : gmap Z Z := default ∅ (contents w !! p).

Section objects.
Context {FS : Type} `{Frames FS}.
Abbreviation W := (M (world FS)).

(** ** Pages *)

(** An operation of the page allocator. *)
Definition in_fs {A} (m : M FS A) : W A := λ w,
  match m (fs w) with
  | Done (a, f) => Done (a, set_fs f w)
  | Fault why => Fault why
  end.

Definition alloc_page (fl : Z) : W (option Z) :=
  r ← in_fs (frame_alloc fl);
  match r with
  | Some p =>
      (if page_should_zero fl then modify (λ w, set_contents (<[p := ∅]> (contents w)) w)
       else mret tt);;
      mret (Some p)
  | None => mret None
  end.
Definition free_page (p : Z) : W unit := in_fs (frame_free p).
Definition page_ref (p : Z) : W unit := in_fs (frame_ref p);; mret tt.
Definition page_pin (p : Z) : W unit := page_ref p.
(** A macro for [free_page]. *)
Definition page_unref (p : Z) : W unit := free_page p.
Definition page_unpin (p : Z) : W unit := page_unref p.
Definition copy_page_to_page (p1 p2 : Z) : W unit :=
  modify (λ w, set_contents (<[p1 := memory w p2]> (contents w)) w).

(** One more allocation of kernel memory: does it succeed? *)
Definition kmalloc : W bool := λ w,
  match oom w with
  | [] => Done (true, w)
  | b :: l => Done (negb b, World (fs w) (contents w) (objs w) (next_obj w) l)
  end.

(** ** Objects and their trees *)

Definition get_obj (vmo : Z) : W vm_object :=
  o ← gets (λ w, objs w !! vmo); from_opt o UseAfterFree.
Definition upd_obj (vmo : Z) (f : vm_object → vm_object) : W unit :=
  o ← get_obj vmo; modify (λ w, set_objs (<[vmo := f o]> (objs w)) w).

(** [rb_tree_insert] and the assignment of the datum. *)
Definition tree_insert (vmo off p : Z) : W bool :=
  o ← get_obj vmo;
  match vo_pages o !! off with
  | Some _ => mret false
  | None =>
      ok ← kmalloc;
      if ok : bool then upd_obj vmo (λ o, set_vpages (<[off := p]> (vo_pages o)) o);; mret true
      else mret false
  end.

Definition new_object (o : vm_object) : W Z :=
  v ← gets next_obj;
  modify (λ w, World (fs w) (contents w) (<[v := o]> (objs w)) (v + 1) (oom w));;
  mret v.

Definition vmo_create (size priv : Z) : W (option Z) :=
  ok ← kmalloc;
  if negb ok then mret None
  else
    tree ← kmalloc;
    if negb tree then mret None
    else
      v ← new_object (VmObject VMO_BACKED (align_up2 size PAGE_SIZE) 0 ∅ priv no_ops []
                        None None 1 None);
      mret (Some v).

Definition vmo_commit_phys_page (vmo off : Z) : W (vmo_status * option Z) :=
  p ← alloc_page 0;
  match p with
  | None => mret (VMO_STATUS_OUT_OF_MEM, None)
  | Some p => mret (VMO_STATUS_OK, Some p)
  end.

Definition vmo_create_phys (size : Z) : W (option Z) :=
  v ← vmo_create size 0;
  match v with
  | None => mret None
  | Some v => upd_obj v (set_vops VMO_ANON vmo_phys_ops);; mret (Some v)
  end.

Definition vmo_ref (vmo : Z) : W unit :=
  upd_obj vmo (λ o, set_vrefcount (u64 (vo_refcount o + 1)) o).

Definition vmo_assign_mapping (vmo region : Z) : W unit :=
  upd_obj vmo (λ o, set_vmappings (vo_mappings o ++ [region]) o).
Definition vmo_remove_mapping (vmo region : Z) : W unit :=
  upd_obj vmo (λ o, set_vmappings (filter (λ r, r ≠ region) (vo_mappings o)) o).

Definition vmo_is_shared (vmo : Z) : W bool :=
  o ← get_obj vmo; mret (negb (vo_refcount o =? 1)).

Definition vmo_do_cow (vmo target : Z) : W unit :=
  o ← get_obj vmo;
  check (bool_decide (cow_clone o = None)) AssertFailed;;
  vmo_ref target;;
  upd_obj vmo (set_vcow (Some target)).

Definition vmo_add_page (off p vmo : Z) : W Z :=
  ok ← tree_insert vmo off p;
  mret (if ok : bool then 0 else -1).

(** Reading the page of a file, and the operations of file systems. *)
Context (commit_other : Z → Z → W (vmo_status * option Z)) (free_other : Z → Z → W unit).

Definition ops_commit (o : vm_object) (vmo off : Z) : W (vmo_status * option Z) :=
  match vo_ops o with
  | no_ops => crash AssertFailed
  | vmo_phys_ops => vmo_commit_phys_page vmo off
  | vm_private_file_map_ops | other_ops => commit_other vmo off
  end.
(** [vmo->ops->free_page] is null for the operations of this kernel part. *)
Definition ops_free_page (o : vm_object) (vmo p : Z) : W unit :=
  match vo_ops o with
  | no_ops => crash NullDeref
  | vmo_phys_ops | vm_private_file_map_ops => free_page p
  | other_ops => free_other vmo p
  end.

Definition vmo_populate (vmo off : Z) : W (vmo_status * option Z) :=
  o ← get_obj vmo;
  '(st, pg) ← ops_commit o vmo off;
  match st with
  | VMO_STATUS_OK =>
      p ← from_opt pg AssertFailed;
      ok ← tree_insert vmo off p;
      if negb ok then free_page p;; mret (VMO_STATUS_OUT_OF_MEM, None)
      else mret (VMO_STATUS_OK, Some p)
  | _ => mret (st, None)
  end.

(** The end of [vmo_get], with the page found so far. *)
Definition get_finish (vmo off flags : Z) (p : option Z) : W (vmo_status * option Z) :=
  '(st, p) ← match p with
             | Some p => mret (VMO_STATUS_OK, Some p)
             | None =>
                 if has flags VMO_GET_MAY_POPULATE then vmo_populate vmo off
                 else mret (VMO_STATUS_NON_EXISTENT, None)
             end;
  match st, p with
  | VMO_STATUS_OK, Some p => page_pin p;; mret (VMO_STATUS_OK, Some p)
  | _, _ => mret (st, None)
  end.

(** The recursion follows [cow_clone]. *)
Fixpoint vmo_get (fuel : nat) (vmo off flags : Z) : W (vmo_status * option Z) :=
  match fuel with
  | O => crash OutOfFuel
  | S fuel =>
      o ← get_obj vmo;
      if vo_size o <=? off then mret (VMO_STATUS_BUS_ERROR, None)
      else
        match vo_pages o !! off, cow_clone o with
        | None, Some clone =>
            if has flags VMO_GET_MAY_NOT_IMPLICIT_COW then get_finish vmo off flags None
            else
              n ← alloc_page PAGE_ALLOC_NO_ZERO;
              match n with
              | None => mret (VMO_STATUS_OUT_OF_MEM, None)
              | Some new_page =>
                  '(st, old) ← vmo_get fuel clone (u64 (off + vo_priv o))
                                 (Z.land flags (Z.lnot VMO_GET_MAY_NOT_IMPLICIT_COW));
                  match st, old with
                  | VMO_STATUS_OK, Some old_page =>
                      copy_page_to_page new_page old_page;;
                      page_unpin old_page;;
                      ok ← tree_insert vmo off new_page;
                      if negb ok then free_page new_page;; mret (VMO_STATUS_OUT_OF_MEM, None)
                      else get_finish vmo off flags (Some new_page)
                  | _, _ => free_page new_page;; mret (st, None)
                  end
              end
        | p, _ => get_finish vmo off flags p
        end
  end.

(** ** Forking *)

(** The loop of [vmo_fork_pages] over the tree of the original object. *)
Fixpoint fork_pages_loop (l : list Z) (old new : gmap Z Z) : W (option (gmap Z Z)) :=
  match l with
  | [] => mret (Some new)
  | off :: l =>
      ok ← kmalloc;
      if negb ok then mret None
      else
        p ← from_opt (old !! off) NullDeref;
        page_ref p;;
        fork_pages_loop l old (<[off := p]> new)
  end.

Definition vm_size_to_pages (size : Z) : Z :=
  Z.shiftr size PAGE_SHIFT + (if has size (PAGE_SIZE - 1) then 1 else 0).

Definition vmo_fork_pages (vmo : Z) : W Z :=
  o ← get_obj vmo;
  if vm_size_to_pages (vo_size o) =? 0 then mret 0
  else
    it ← kmalloc;
    if negb it then mret (-1)
    else
      tree ← kmalloc;
      if negb tree then mret (-1)
      else
        r ← fork_pages_loop (offsets (vo_pages o)) (vo_pages o) ∅;
        match r with
        | None => mret (-1)
        | Some m => upd_obj vmo (set_vpages m);; mret 0
        end.

Definition vmo_fork (vmo : Z) (shared : bool) : W (option Z) :=
  if shared then mret (Some vmo)
  else
    o ← get_obj vmo;
    n ← vmo_create (vo_size o) (vo_priv o);
    match n with
    | None => mret None
    | Some new_vmo =>
        upd_obj new_vmo (λ n,
          VmObject (vo_type o) (vo_size n)
            (Z.land (vo_flags o) (Z.lnot VMO_FLAG_LOCK_FUTURE_PAGES)) (vo_pages o)
            (vo_priv o) (vo_ops o) (vo_mappings n) (cow_clone o) (vo_ino o) (vo_refcount n)
            (Some vmo));;
        match cow_clone o with Some c => vmo_ref c | None => mret tt end;;
        r ← vmo_fork_pages new_vmo;
        if r <? 0 then
          modify (λ w, set_objs (delete new_vmo (objs w)) w);; mret None
        else mret (Some new_vmo)
    end.

(** ** Destruction *)

(** [rb_tree_free] with [vmo_rb_delete_func]. *)
Fixpoint free_pages_of (l : list Z) : W unit :=
  match l with
  | [] => mret tt
  | p :: l => free_page p;; free_pages_of l
  end.

(** [vmo_unref] and [vmo_destroy] call each other along [cow_clone]. *)
Fixpoint vmo_unref (fuel : nat) (vmo : Z) : W bool :=
  match fuel with
  | O => crash OutOfFuel
  | S fuel =>
      upd_obj vmo (λ o, set_vrefcount (u64 (vo_refcount o - 1)) o);;
      o ← get_obj vmo;
      if vo_refcount o =? 0 then
        match cow_clone o with Some c => vmo_unref fuel c;; mret tt | None => mret tt end;;
        free_pages_of (map_to_list (vo_pages o)).*2;;
        modify (λ w, set_objs (delete vmo (objs w)) w);;
        mret true
      else mret false
  end.

Definition vmo_destroy (fuel : nat) (vmo : Z) : W unit :=
  o ← get_obj vmo;
  match cow_clone o with Some c => vmo_unref fuel c;; mret tt | None => mret tt end;;
  free_pages_of (map_to_list (vo_pages o)).*2;;
  modify (λ w, set_objs (delete vmo (objs w)) w).

(** ** Removing pages *)

Definition is_included (lower upper x : Z) : bool := (lower <=? x) && (x <? upper).
Definition is_excluded (lower upper x : Z) : bool := (x <? lower) || (upper <? x).

Fixpoint purge_loop (l : list Z) (lower upper flags : Z) (second : option Z) (vmo : Z) : W unit :=
  match l with
  | [] => mret tt
  | off :: l =>
      o ← get_obj vmo;
      p ← from_opt (vo_pages o !! off) NullDeref;
      (if (if has flags PURGE_EXCLUDE then is_excluded else is_included) lower upper off then
         upd_obj vmo (λ o, set_vpages (delete off (vo_pages o)) o);;
         (if has flags PURGE_SHOULD_FREE then ops_free_page o vmo p else mret tt);;
         match second with
         | Some second => vmo_add_page off p second;; mret tt
         | None => mret tt
         end
       else mret tt);;
      purge_loop l lower upper flags second vmo
  end.

Definition vmo_purge_pages (lower upper flags : Z) (second : option Z) (vmo : Z) : W Z :=
  check (negb (has flags PURGE_SHOULD_FREE && bool_decide (second ≠ None))) AssertFailed;;
  o ← get_obj vmo;
  purge_loop (offsets (vo_pages o)) lower upper flags second vmo;;
  mret 0.

Definition vmo_resize (new_size vmo : Z) : W Z :=
  o ← get_obj vmo;
  upd_obj vmo (set_vsize new_size);;
  (if new_size <? vo_size o
   then vmo_purge_pages 0 new_size (Z.lor PURGE_SHOULD_FREE PURGE_EXCLUDE) None vmo;; mret tt
   else mret tt);;
  mret 0.

Definition vmo_create_copy (vmo : Z) : W (option Z) :=
  o ← get_obj vmo;
  c ← vmo_create (vo_size o) (vo_priv o);
  match c with
  | None => mret None
  | Some copy =>
      upd_obj copy (λ n,
        VmObject (vo_type o) (vo_size n)
          (Z.land (vo_flags o) (Z.lnot VMO_FLAG_LOCK_FUTURE_PAGES)) (vo_pages n) (vo_priv n)
          (vo_ops o) (vo_mappings n) (cow_clone o) (vo_ino o) (vo_refcount n) (forked_from n));;
      match cow_clone o with Some c => vmo_ref c | None => mret tt end;;
      mret (Some copy)
  end.

Definition vmo_split (split_point hole_size vmo : Z) : W (option Z) :=
  c ← vmo_create_copy vmo;
  match c with
  | None => mret None
  | Some second =>
      upd_obj second (λ o, set_vmappings [] (set_vsize (u64 (vo_size o - (split_point + hole_size))) o));;
      let max := u64 (hole_size + split_point) in
      vmo_purge_pages split_point max PURGE_SHOULD_FREE None vmo;;
      o ← get_obj vmo;
      vmo_purge_pages max (vo_size o) 0 (Some second) vmo;;
      s ← get_obj second;
      upd_obj vmo (λ o, set_vsize (u64 (vo_size o - (hole_size + vo_size s))) o);;
      mret (Some second)
  end.

Definition vmo_punch_range (vmo start length : Z) : W Z :=
  vmo_purge_pages start (u64 (start + length)) PURGE_SHOULD_FREE None vmo.

Definition vmo_truncate (vmo size flags : Z) : W Z :=
  let original_size := size in
  let size := align_up2 size PAGE_SIZE in
  o ← get_obj vmo;
  (if negb (has flags VMO_TRUNCATE_DONT_PUNCH) && (size <? vo_size o)
   then vmo_punch_range vmo size (vo_size o - size);; mret tt
   else mret tt);;
  o ← get_obj vmo;
  match vo_pages o !! align_down2 original_size PAGE_SIZE with
  | Some last_page =>
      let page_off := Z.land original_size (PAGE_SIZE - 1) in
      let to_zero := u64 (size - original_size) in
      modify (λ w, set_contents (<[last_page :=
        filter (λ '(i, _), ¬ (page_off <= i < page_off + to_zero)) (memory w last_page)]>
        (contents w)) w)
  | None => mret tt
  end;;
  upd_obj vmo (set_vsize size);;
  mret 0.

(** ** Copy-on-write faults *)

Definition vmo_get_cow_page (fuel : nat) (vmo off : Z) : W (vmo_status * option Z) :=
  o ← get_obj vmo;
  clone ← from_opt (cow_clone o) NullDeref;
  '(st, p) ← vmo_get fuel clone (u64 (vo_priv o + off)) VMO_GET_MAY_POPULATE;
  match st, p with
  | VMO_STATUS_OK, Some p =>
      page_ref p;;
      r ← vmo_add_page off p vmo;
      (if r <? 0 then page_unpin p else mret tt);;
      mret (VMO_STATUS_OK, Some p)
  | _, _ => mret (st, None)
  end.

Definition vmo_cow_on_page (vmo off : Z) : W (option Z) :=
  o ← get_obj vmo;
  old_page ← from_opt (vo_pages o !! off) KernelPanic;
  r ← gets (λ w, refs (fs w) old_page);
  if r =? 1 then page_ref old_page;; mret (Some old_page)
  else
    n ← alloc_page PAGE_ALLOC_NO_ZERO;
    match n with
    | None => mret None
    | Some new_page =>
        copy_page_to_page new_page old_page;;
        upd_obj vmo (λ o, set_vpages (<[off := new_page]> (vo_pages o)) o);;
        page_pin new_page;;
        page_unref old_page;;
        mret (Some new_page)
    end.
End objects.
