(* ===== verification/VmObjectFacts.v ===== *)
(** * VmObjectFacts: reference counts and views of VM objects.

    The invariant [inv pins w] says that the count of every page is the number of
    places in objects that hold it plus the references held elsewhere ([pins]).
    The view of an object at an offset is the page contents that a mapping of it
    shows, whether or not the page exists yet. *)

From stdpp Require Import sorting.
From S2P Require Import Prelude Bits Abi PageAlloc Frames VmObject.

(** ** Sums over maps *)

Definition total {A} (f : A → Z) (m : gmap Z A) : Z := map_fold (λ _ x acc, f x + acc) 0 m.

Section total.
Context {A : Type} (f : A → Z).
Implicit Types (m : gmap Z A).

Lemma total_empty : total f ∅ = 0.
Proof. apply map_fold_empty. Qed.

Lemma total_delete m k x : m !! k = Some x → total f m = f x + total f (delete k m).
Proof. intros H. unfold total. rewrite (map_fold_delete_L _ _ k x); [done|intros; lia|done]. Qed.

Lemma total_insert_new m k x : m !! k = None → total f (<[k := x]> m) = f x + total f m.
Proof. intros H. unfold total. rewrite map_fold_insert_L; [done|intros; lia|done]. Qed.

Lemma total_singleton k x : total f {[k := x]} = f x.
Proof. rewrite <- insert_empty, total_insert_new, total_empty by apply lookup_empty. lia. Qed.

Lemma total_insert m k x y : m !! k = Some x → total f (<[k := y]> m) = total f m - f x + f y.
Proof.
  intros Hm. rewrite (total_delete m k x Hm). rewrite <- insert_delete_eq.
  rewrite total_insert_new by apply lookup_delete_eq. lia.
Qed.

Lemma total_nonneg m : (∀ x, 0 <= f x) → 0 <= total f m.
Proof.
  intros Hf. induction m as [|k x m Hk IH] using map_ind; [by rewrite total_empty|].
  rewrite total_insert_new by done. specialize (Hf x). lia.
Qed.

Lemma total_ge m k x : (∀ x, 0 <= f x) → m !! k = Some x → f x <= total f m.
Proof.
  intros Hf Hm. rewrite (total_delete _ _ _ Hm). pose proof (total_nonneg (delete k m) Hf). lia.
Qed.

Lemma total_zero m : (∀ k x, m !! k = Some x → f x = 0) → total f m = 0.
Proof.
  induction m as [|k x m Hk IH] using map_ind; intros Hz; [apply total_empty|].
  rewrite total_insert_new by done. rewrite (Hz k x) by apply lookup_insert_eq.
  rewrite IH; [done|]. intros j y Hj. apply (Hz j). rewrite lookup_insert_ne; [done|congruence].
Qed.

Lemma total_alter m k g : (∀ x, f (g x) = f x) → total f (alter g k m) = total f m.
Proof.
  intros Hg. destruct (m !! k) as [x|] eqn:E.
  - rewrite (alter_alt_Some _ _ _ _ E), (total_insert _ _ _ _ E), Hg. lia.
  - by rewrite alter_alt, E.
Qed.
End total.

(** The number of offsets that hold page [p]. *)
Definition holds_page (p q : Z) : Z := if q =? p then 1 else 0.
Definition count_in (p : Z) (m : gmap Z Z) : Z := total (holds_page p) m.

Lemma holds_nonneg p q : 0 <= holds_page p q.
Proof. unfold holds_page. case_match; lia. Qed.
#[export] Hint Resolve holds_nonneg : core.

Lemma holds_same p : holds_page p p = 1.
Proof. unfold holds_page. by rewrite Z.eqb_refl. Qed.
Lemma holds_ne p q : q ≠ p → holds_page p q = 0.
Proof. intros. unfold holds_page. by rewrite (proj2 (Z.eqb_neq q p)). Qed.

Lemma count_nonneg p m : 0 <= count_in p m.
Proof. by apply total_nonneg. Qed.
#[export] Hint Resolve count_nonneg : core.

Section facts.
Context {FS : Type} `{FramesLaws FS}.
Implicit Types (w : world FS) (pins : Z → Z) (o : vm_object).

Definition slots (w : world FS) (p : Z) : Z := total (λ o, count_in p (vo_pages o)) (objs w).

Lemma slots_nonneg w p : 0 <= slots w p.
Proof. apply total_nonneg. auto. Qed.

Lemma slots_pos w p v o off :
  objs w !! v = Some o → vo_pages o !! off = Some p → 1 <= slots w p.
Proof.
  intros Hv Hp. pose proof (total_ge (λ o, count_in p (vo_pages o)) _ _ _ (λ o, count_nonneg p _) Hv).
  pose proof (total_ge (holds_page p) _ _ _ (holds_nonneg p) Hp). rewrite holds_same in *.
  unfold slots, count_in in *. lia.
Qed.

(** Two places hold different pages unless the page is held twice. *)
Lemma slots_two w p v o off v' o' off' :
  objs w !! v = Some o → vo_pages o !! off = Some p →
  objs w !! v' = Some o' → vo_pages o' !! off' = Some p →
  (v, off) ≠ (v', off') → 2 <= slots w p.
Proof.
  intros Hv Hp Hv' Hp' Hne. unfold slots. rewrite (total_delete _ _ _ _ Hv).
  assert (1 <= count_in p (vo_pages o)) as H1.
  { unfold count_in. pose proof (total_ge (holds_page p) _ _ _ (holds_nonneg p) Hp) as X.
    by rewrite holds_same in X. }
  destruct (decide (v = v')) as [<-|Hvv].
  - rewrite Hv in Hv'. injection Hv' as <-.
    pose proof (total_nonneg (λ o, count_in p (vo_pages o)) (delete v (objs w)) (λ o, count_nonneg p _)).
    assert (2 <= count_in p (vo_pages o)); [|lia].
    unfold count_in. rewrite (total_delete _ _ _ _ Hp), holds_same.
    assert (delete off (vo_pages o) !! off' = Some p) as Hd by (rewrite lookup_delete_ne; congruence).
    pose proof (total_ge (holds_page p) _ _ _ (holds_nonneg p) Hd) as X.
    rewrite holds_same in X. lia.
  - assert (delete v (objs w) !! v' = Some o') as Hd by by rewrite lookup_delete_ne.
    pose proof (total_ge (λ o, count_in p (vo_pages o)) _ _ _ (λ o, count_nonneg p _) Hd).
    pose proof (total_ge (holds_page p) _ _ _ (holds_nonneg p) Hp') as X.
    rewrite holds_same in X. unfold count_in in *. lia.
Qed.

(** ** The invariant *)

Record inv (pins : Z → Z) (w : world FS) : Prop := Inv {
  inv_frames : frames_ok (fs w);
  inv_refs : ∀ p, refs (fs w) p = slots w p + pins p;
  inv_pins : ∀ p, 0 <= pins p;
  inv_cow : ∀ v o c, objs w !! v = Some o → cow_clone o = Some c →
    ∃ oc, objs w !! c = Some oc ∧ cow_clone oc = None;
  inv_next : ∀ v, is_Some (objs w !! v) → v < next_obj w;
}.

(** One more reference to [p] held outside the objects, or one less. *)
Definition pin (p : Z) (pins : Z → Z) : Z → Z := λ q, pins q + holds_page q p.
Definition unpin (p : Z) (pins : Z → Z) : Z → Z := λ q, pins q - holds_page q p.

Lemma inv_ext pins pins' w : (∀ p, pins p = pins' p) → inv pins w → inv pins' w.
Proof.
  intros E [H1 H2 H3 H4 H5]. split; try done; intros p.
  - by rewrite H2, E.
  - by rewrite <- E.
Qed.

(** ** Views *)

(** The contents of a page that an object without [cow_clone] does not have yet. *)
Context (file_data : Z → Z → gmap Z Z).

Definition backing (v : Z) (o : vm_object) (off : Z) : option (gmap Z Z) :=
  match vo_ops o with
  | no_ops => None
  | vmo_phys_ops => Some ∅
  | vm_private_file_map_ops | other_ops => Some (file_data v off)
  end.

Definition view_plain (w : world FS) (v off : Z) : option (gmap Z Z) :=
  o ← objs w !! v;
  if vo_size o <=? off then None
  else match vo_pages o !! off with
       | Some p => Some (memory w p)
       | None => backing v o off
       end.

Definition view (w : world FS) (v off : Z) : option (gmap Z Z) :=
  o ← objs w !! v;
  if vo_size o <=? off then None
  else match vo_pages o !! off with
       | Some p => Some (memory w p)
       | None => match cow_clone o with
                 | Some c => view_plain w c (u64 (off + vo_priv o))
                 | None => backing v o off
                 end
       end.

Definition same_views (w w' : world FS) : Prop := ∀ v off, view w' v off = view w v off.

Lemma same_views_refl w : same_views w w.
Proof. done. Qed.
Lemma same_views_trans w1 w2 w3 : same_views w1 w2 → same_views w2 w3 → same_views w1 w3.
Proof. intros H1 H2 v off. by rewrite H2. Qed.

Definition cow_ok (w : world FS) : Prop :=
  ∀ v o c, objs w !! v = Some o → cow_clone o = Some c →
    ∃ oc, objs w !! c = Some oc ∧ cow_clone oc = None.

Lemma view_plain_eq w v o off :
  objs w !! v = Some o → cow_clone o = None → view_plain w v off = view w v off.
Proof. intros Hv Hc. unfold view_plain, view. rewrite Hv. simpl. by rewrite Hc. Qed.

(** What a page that is not there yet will hold. *)
Definition expected (w : world FS) (v : Z) (o : vm_object) (off : Z) : option (gmap Z Z) :=
  match cow_clone o with
  | Some c => view w c (u64 (off + vo_priv o))
  | None => backing v o off
  end.

Lemma view_eq w v o off :
  cow_ok w → objs w !! v = Some o →
  view w v off =
    if vo_size o <=? off then None
    else match vo_pages o !! off with
         | Some p => Some (memory w p)
         | None => expected w v o off
         end.
Proof.
  intros Hc Hv. unfold view at 1, expected. rewrite Hv. simpl.
  case_match; [done|]. case_match; [done|]. destruct (cow_clone o) as [c|] eqn:E; [|done].
  destruct (Hc _ _ _ Hv E) as (oc & Hoc & Hn). by eapply view_plain_eq.
Qed.

Lemma view_none w v off : objs w !! v = None → view w v off = None.
Proof. intros Hv. unfold view. by rewrite Hv. Qed.

(** Two objects that differ in their pages only. *)
Definition like (o o' : vm_object) : Prop :=
  vo_size o' = vo_size o ∧ vo_priv o' = vo_priv o ∧ vo_ops o' = vo_ops o ∧
  cow_clone o' = cow_clone o.

(** Pages may appear where they hold what was expected; the others keep their contents. *)
Definition page_like (w w' : world FS) (v : Z) (o o' : vm_object) (off : Z) : Prop :=
  match vo_pages o !! off, vo_pages o' !! off with
  | Some p, Some p' => memory w' p' = memory w p
  | None, None => True
  | None, Some p' => off < vo_size o → expected w v o off = Some (memory w' p')
  | Some p, None => off < vo_size o → expected w v o off = Some (memory w p)
  end.

(** What the objects of [w] show is kept when they stay like they are. *)
Lemma views_kept w w' :
  cow_ok w → cow_ok w' →
  (∀ v o, objs w !! v = Some o → ∃ o', objs w' !! v = Some o' ∧ like o o' ∧
    ∀ off, page_like w w' v o o' off) →
  ∀ v off, is_Some (objs w !! v) → view w' v off = view w v off.
Proof.
  intros Hc Hc' Hall.
  assert (∀ v o o' off, objs w !! v = Some o → objs w' !! v = Some o' →
    expected w' v o' off = expected w v o off → view w' v off = view w v off) as Hstep.
  { intros v o o' off Hv Hv' He. destruct (Hall v o Hv) as (o1 & Hv1 & (Hs & _) & Hpg).
    rewrite Hv' in Hv1. injection Hv1 as <-. specialize (Hpg off). unfold page_like in Hpg.
    rewrite (view_eq _ _ _ _ Hc Hv), (view_eq _ _ _ _ Hc' Hv'), Hs, He.
    destruct (Z.leb_spec (vo_size o) off); [done|].
    destruct (vo_pages o !! off), (vo_pages o' !! off); rewrite ?Hpg; done. }
  assert (∀ v o off, objs w !! v = Some o → cow_clone o = None → view w' v off = view w v off) as Hplain.
  { intros v o off Hv Hn. destruct (Hall v o Hv) as (o' & Hv' & (_ & _ & Ho & Hco) & _).
    apply (Hstep v o o'); [done|done|]. unfold expected, backing. by rewrite Hco, Hn, Ho. }
  intros v off [o Hv]. destruct (Hall v o Hv) as (o' & Hv' & (_ & Hp & Ho & Hco) & _).
  apply (Hstep v o o'); [done|done|]. unfold expected. rewrite Hco, Hp.
  destruct (cow_clone o) as [c|] eqn:E; [|unfold backing; by rewrite Ho].
  destruct (Hc _ _ _ Hv E) as (oc & Hoc & Hn). by eapply Hplain.
Qed.

Lemma same_views_intro w w' :
  cow_ok w → cow_ok w' →
  (∀ v, match objs w !! v, objs w' !! v with
        | Some o, Some o' => like o o' ∧ ∀ off, page_like w w' v o o' off
        | None, None => True
        | _, _ => False
        end) → same_views w w'.
Proof.
  intros Hc Hc' Hall v off. destruct (objs w !! v) as [o|] eqn:Hv.
  - apply views_kept; [done|done| |by exists o]. intros u ou Hu. specialize (Hall u).
    rewrite Hu in Hall. destruct (objs w' !! u) as [ou'|]; [|done]. by exists ou'.
  - specialize (Hall v). rewrite Hv in Hall. destruct (objs w' !! v) eqn:Hv'; [done|].
    by rewrite !view_none.
Qed.

Lemma same_views_memory w w' :
  cow_ok w → objs w' = objs w → (∀ p, 1 <= slots w p → memory w' p = memory w p) → same_views w w'.
Proof.
  intros Hc Ho Hm. apply same_views_intro; [done|unfold cow_ok; by rewrite Ho|].
  intros v. rewrite Ho. destruct (objs w !! v) as [o|] eqn:Hv; [|done].
  split; [done|]. intros off. unfold page_like. destruct (vo_pages o !! off) as [p|] eqn:E; [|done].
  apply Hm. by eapply slots_pos.
Qed.

(** ** Steps of the page allocator *)

Definition room (n : Z) (w : world FS) : Prop := ∀ p, refs (fs w) p + n < 2 ^ 64.

Lemma room_mono n m w : m <= n → room n w → room m w.
Proof. intros Hle Hr p. specialize (Hr p). lia. Qed.

Lemma wp_in_fs {A} (m : M FS A) (Q : A → world FS → Prop) w :
  wp m (λ a f, Q a (set_fs f w)) (fs w) → wp (in_fs m) Q w.
Proof. unfold wp, in_fs. destruct (m (fs w)) as [[a f]|]; done. Qed.

Lemma pin_same p pins : pin p pins p = pins p + 1.
Proof. unfold pin. by rewrite holds_same. Qed.
Lemma pin_ne p q pins : q ≠ p → pin p pins q = pins q.
Proof. intros. unfold pin. rewrite holds_ne by done. lia. Qed.
Lemma unpin_same p pins : unpin p pins p = pins p - 1.
Proof. unfold unpin. by rewrite holds_same. Qed.
Lemma unpin_ne p q pins : q ≠ p → unpin p pins q = pins q.
Proof. intros. unfold unpin. rewrite holds_ne by done. lia. Qed.
Lemma unpin_pin p pins q : unpin p (pin p pins) q = pins q.
Proof. unfold pin, unpin. lia. Qed.

(** The counts of the allocator after one of them changed. *)
Lemma inv_recount pins pins' w f p n :
  inv pins w → recount p n (fs w) f → (∀ q, 0 <= pins' q) →
  pins' p = n - slots w p → (∀ q, q ≠ p → pins' q = pins q) → inv pins' (set_fs f w).
Proof.
  intros [H1 H2 H3 H4 H5] (Hok & Hp & Hq) Hnn Hpp Hpq. split; try done.
  intros q. simpl. change (slots (set_fs f w) q) with (slots w q).
  destruct (decide (q = p)) as [->|Hne]; [lia|].
  rewrite Hq, H2, Hpq by done. done.
Qed.

Lemma wp_ref_frame pins w p n (Q : unit → world FS → Prop) :
  inv pins w → 1 <= slots w p + pins p → room n w → 1 <= n →
  (∀ f, inv (pin p pins) (set_fs f w) → room (n - 1) (set_fs f w) → Q tt (set_fs f w)) →
  wp (page_ref p) Q w.
Proof.
  intros Hi Hp Hr Hn HQ. pose proof (inv_refs _ _ Hi p) as Hrp. specialize (Hr p) as Hrp'.
  unfold page_ref. wp_step. apply wp_in_fs.
  eapply wp_mono; [apply frame_ref_ok; [apply Hi|lia|lia]|].
  intros r f Hf. wp_step. apply HQ.
  - eapply inv_recount; [done|exact Hf| | |].
    + intros q. pose proof (inv_pins _ _ Hi q). unfold pin. pose proof (holds_nonneg q p). lia.
    + rewrite pin_same. lia.
    + intros q Hq. by apply pin_ne.
  - intros q. simpl. destruct Hf as (_ & Hfp & Hfq). destruct (decide (q = p)) as [->|Hne]; [lia|].
    rewrite Hfq by done. specialize (Hr q). lia.
Qed.

Lemma wp_free_frame pins w p n (Q : unit → world FS → Prop) :
  inv pins w → 1 <= pins p → room n w → 1 <= n →
  (∀ f, inv (unpin p pins) (set_fs f w) → room n (set_fs f w) → Q tt (set_fs f w)) →
  wp (free_page p) Q w.
Proof.
  intros Hi Hp Hr Hn HQ. pose proof (inv_refs _ _ Hi p) as Hrp. specialize (Hr p) as Hrp'.
  pose proof (slots_nonneg w p).
  unfold free_page. apply wp_in_fs.
  eapply wp_mono; [apply frame_free_ok; [apply Hi|lia|lia]|].
  intros [] f Hf. apply HQ.
  - eapply inv_recount; [done|exact Hf| | |].
    + intros q. pose proof (inv_pins _ _ Hi q). destruct (decide (q = p)) as [->|];
        [rewrite unpin_same|rewrite unpin_ne by done]; lia.
    + rewrite unpin_same. lia.
    + intros q Hq. by apply unpin_ne.
  - intros q. simpl. destruct Hf as (_ & Hfp & Hfq). destruct (decide (q = p)) as [->|Hne]; [lia|].
    rewrite Hfq by done. specialize (Hr q). lia.
Qed.

(** A new page: nobody had a reference to it. *)
Lemma wp_alloc_frame pins w fl n (Q : option Z → world FS → Prop) :
  inv pins w → has fl PAGE_ALLOC_4GB_LIMIT = false → room n w → 1 <= n → n < 2 ^ 63 →
  (∀ f, inv pins (set_fs f w) → room n (set_fs f w) → Q None (set_fs f w)) →
  (∀ p w', slots w p = 0 → pins p = 0 → inv (pin p pins) w' → room (n - 1) w' →
    objs w' = objs w → next_obj w' = next_obj w → same_views w w' →
    (page_should_zero fl = true → memory w' p = ∅) → Q (Some p) w') →
  wp (alloc_page fl) Q w.
Proof.
  intros Hi Hfl Hr Hn Hlt Q0 Q1. unfold alloc_page. wp_step. apply wp_in_fs.
  eapply wp_mono; [apply frame_alloc_ok; [apply Hi|done]|].
  intros [p|] f; [intros [Hp Hf]|intros [Hok Hf]]; cbn beta iota.
  2: { wp_step. apply Q0.
    - destruct Hi as [I1 I2 I3 I4 I5]. split; try done. intros q. simpl. by rewrite Hf, I2.
    - intros q. simpl. rewrite Hf. apply Hr. }
  pose proof (inv_refs _ _ Hi p) as Hrp. pose proof (slots_nonneg w p). pose proof (inv_pins _ _ Hi p).
  assert (inv (pin p pins) (set_fs f w)) as Hi'.
  { eapply inv_recount; [done|exact Hf| | |].
    - intros q. pose proof (inv_pins _ _ Hi q). unfold pin. pose proof (holds_nonneg q p). lia.
    - rewrite pin_same. lia.
    - intros q Hq. by apply pin_ne. }
  assert (room (n - 1) (set_fs f w)) as Hr'.
  { intros q. simpl. destruct Hf as (_ & Hfp & Hfq). destruct (decide (q = p)) as [->|Hne].
    - lia.
    - rewrite Hfq by done. specialize (Hr q). lia. }
  wp_step. apply wp_if; intros Hz; repeat wp_step; apply Q1; try done; try lia.
  1: { destruct Hi' as [I1 I2 I3 I4 I5]. by split. }
  1: { apply same_views_memory; [exact (inv_cow _ _ Hi)|done|]. intros q Hq. unfold memory. simpl.
       rewrite lookup_insert_ne; [done|]. intros ->. lia. }
  1: { intros _. unfold memory. simpl. by rewrite lookup_insert_eq. }
  intros ?. congruence.
Qed.

(** ** Steps on objects *)

Lemma slots_update w w' v o o' q :
  objs w !! v = Some o → objs w' = <[v := o']> (objs w) →
  slots w' q = slots w q - count_in q (vo_pages o) + count_in q (vo_pages o').
Proof. intros Hv Ho. unfold slots. rewrite Ho. by erewrite total_insert by done. Qed.

Lemma inv_update pins pins' w w' v o o' :
  inv pins w → objs w !! v = Some o → objs w' = <[v := o']> (objs w) →
  fs w' = fs w → next_obj w' = next_obj w → cow_clone o' = cow_clone o →
  (∀ q, pins' q = pins q + count_in q (vo_pages o) - count_in q (vo_pages o')) →
  (∀ q, 0 <= pins' q) → inv pins' w'.
Proof.
  intros [I1 I2 I3 I4 I5] Hv Ho Hfs Hnx Hc Hp Hnn. split.
  - by rewrite Hfs.
  - intros q. rewrite Hfs, I2, (slots_update w w' v o o' q Hv Ho), Hp. lia.
  - done.
  - intros u ou c. rewrite Ho. intros Hu Hcu.
    assert (∃ ou', objs w !! u = Some ou' ∧ cow_clone ou' = Some c) as (ou' & Hu' & Hcu').
    { destruct (decide (u = v)) as [->|].
      - rewrite lookup_insert_eq in Hu. injection Hu as <-. exists o. split; [done|congruence].
      - rewrite lookup_insert_ne in Hu by done. by exists ou. }
    destruct (I4 _ _ _ Hu' Hcu') as (oc & Hoc & Hn).
    destruct (decide (c = v)) as [->|].
    + rewrite lookup_insert_eq. exists o'. split; [done|]. congruence.
    + rewrite lookup_insert_ne by done. by exists oc.
  - intros u. rewrite Ho, Hnx. intros [ou Hu]. apply I5. destruct (decide (u = v)) as [->|].
    + by exists o.
    + rewrite lookup_insert_ne in Hu by done. by exists ou.
Qed.

Lemma count_put q (m : gmap Z Z) off p :
  m !! off = None → count_in q (<[off := p]> m) = count_in q m + holds_page q p.
Proof. intros Hm. unfold count_in. rewrite total_insert_new by done. lia. Qed.

Lemma wp_get_obj w v o (Q : vm_object → world FS → Prop) :
  objs w !! v = Some o → Q o w → wp (get_obj v) Q w.
Proof. intros Hv HQ. unfold get_obj. do 2 wp_step. by eapply wp_from_opt. Qed.

Lemma wp_upd_obj w v o g (Q : unit → world FS → Prop) :
  objs w !! v = Some o → Q tt (set_objs (<[v := g o]> (objs w)) w) → wp (upd_obj v g) Q w.
Proof. intros Hv HQ. unfold upd_obj. wp_step. by eapply wp_get_obj. Qed.

(** States that differ in the outcomes of future allocations only. *)
Definition same_state (w w' : world FS) : Prop :=
  fs w' = fs w ∧ contents w' = contents w ∧ objs w' = objs w ∧ next_obj w' = next_obj w.

Lemma wp_kmalloc w (Q : bool → world FS → Prop) :
  (∀ b w', same_state w w' → Q b w') → wp kmalloc Q w.
Proof. intros HQ. unfold wp, kmalloc. destruct (oom w); by apply HQ. Qed.

Lemma same_state_inv pins w w' : same_state w w' → inv pins w → inv pins w'.
Proof.
  intros (Ef & Ec & Eo & En) [I1 I2 I3 I4 I5]. split; rewrite ?Ef, ?Eo, ?En; try done.
  intros p. rewrite I2. unfold slots. by rewrite Eo.
Qed.

Lemma same_state_views w w' : same_state w w' → same_views w w'.
Proof.
  intros (_ & Ec & Eo & _) v off. unfold view, view_plain, memory. by rewrite Eo, Ec.
Qed.

Lemma same_state_room n w w' : same_state w w' → room n w → room n w'.
Proof. intros (Ef & _) Hr p. by rewrite Ef. Qed.

(** A page moves from the hands of the caller into an object. *)
Lemma wp_tree_insert pins w v o off p n (Q : bool → world FS → Prop) :
  inv pins w → room n w → objs w !! v = Some o → vo_pages o !! off = None → 1 <= pins p →
  (off < vo_size o → expected w v o off = Some (memory w p)) →
  (∀ w', inv pins w' → room n w' → objs w' = objs w → next_obj w' = next_obj w →
    same_views w w' → Q false w') →
  (∀ w', inv (unpin p pins) w' → room n w' → contents w' = contents w →
    objs w' = <[v := set_vpages (<[off := p]> (vo_pages o)) o]> (objs w) →
    next_obj w' = next_obj w → same_views w w' → Q true w') →
  wp (tree_insert v off p) Q w.
Proof.
  intros Hi Hr Hv Hoff Hp He Q0 Q1. unfold tree_insert. wp_step. eapply wp_get_obj; [done|].
  rewrite Hoff. wp_step. apply wp_kmalloc. intros b w1 Hs. pose proof Hs as (Ef & Ec & Eo & En).
  pose proof (same_state_inv _ _ _ Hs Hi) as Hi1. pose proof (same_state_views _ _ Hs) as Hv1.
  pose proof (same_state_room _ _ _ Hs Hr) as Hr1.
  destruct b; cbn beta iota; [|apply wp_ret; by apply Q0].
  wp_step. eapply wp_upd_obj; [by rewrite Eo|]. wp_step.
  assert (inv (unpin p pins) (set_objs (<[v := set_vpages (<[off := p]> (vo_pages o)) o]> (objs w1)) w1)) as Hi2.
  { eapply (inv_update pins _ w1 _ v o); try done; [by rewrite Eo| |].
    - intros q. simpl. rewrite count_put by done. unfold unpin. lia.
    - intros q. destruct (decide (q = p)) as [->|]; [rewrite unpin_same; lia|].
      rewrite unpin_ne by done. apply Hi. }
  apply Q1; try done; [simpl; by rewrite Eo|].
  eapply same_views_trans; [exact Hv1|].
  apply same_views_intro; [exact (inv_cow _ _ Hi1)|exact (inv_cow _ _ Hi2)|].
  intros u. simpl. rewrite Eo. destruct (decide (u = v)) as [->|].
  - rewrite lookup_insert_eq, Hv. split; [done|]. intros x. unfold page_like. simpl.
    destruct (decide (x = off)) as [->|].
    + rewrite Hoff, lookup_insert_eq. intros Hlt. unfold memory. simpl.
      rewrite Ec. fold (memory w p). rewrite <- (He Hlt). unfold expected. destruct (cow_clone o); [apply Hv1|done].
    + rewrite lookup_insert_ne by done. by destruct (vo_pages o !! x).
  - rewrite lookup_insert_ne by done. destruct (objs w !! u) as [ou|]; [|done].
    split; [done|]. intros x. unfold page_like. by destruct (vo_pages ou !! x).
Qed.
End facts.
