(* ===== verification/VmObjectOps.v ===== *)
(** * VmObjectOps: fetching, copying and forking pages of VM objects. *)

From stdpp Require Import sorting.
From S2P Require Import Prelude Bits Abi PageAlloc Frames VmObject VmObjectFacts.

Section ops.
Context {FS : Type} `{FramesLaws FS} (file_data : Z → Z → gmap Z Z).
Implicit Types (w : world FS) (pins : Z → Z) (o : vm_object).

Abbreviation same_views := (same_views file_data).
Abbreviation view := (view file_data).
Abbreviation expected := (expected file_data).

(** Only the pages of the objects [l] changed, and no view. *)
Definition only (l : list Z) (w w' : world FS) : Prop :=
  (∀ u, u ∉ l → objs w' !! u = objs w !! u) ∧
  (∀ u o, objs w !! u = Some o → ∃ m, objs w' !! u = Some (set_vpages m o)) ∧
  next_obj w' = next_obj w ∧ same_views w w'.

Lemma set_vpages_same o : set_vpages (vo_pages o) o = o.
Proof. by destruct o. Qed.

Lemma only_same l w w' :
  objs w' = objs w → next_obj w' = next_obj w → same_views w w' → only l w w'.
Proof.
  intros Ho Hn Hs. split_and!; [by rewrite Ho| |done|done]. intros u o Hv. rewrite Ho.
  exists (vo_pages o). by rewrite set_vpages_same.
Qed.

Lemma only_put v w w' o m :
  objs w !! v = Some o → objs w' = <[v := set_vpages m o]> (objs w) →
  next_obj w' = next_obj w → same_views w w' → only [v] w w'.
Proof.
  intros Hv Ho Hn Hs. split_and!; [|intros u o' Ho'|done|done].
  - intros u Hu. rewrite Ho. apply lookup_insert_ne. set_solver.
  - rewrite Ho. destruct (decide (u = v)) as [->|].
    + rewrite Hv in Ho'. injection Ho' as <-. exists m. apply lookup_insert_eq.
    + rewrite lookup_insert_ne by done. exists (vo_pages o'). by rewrite set_vpages_same.
Qed.

Lemma only_trans l w1 w2 w3 : only l w1 w2 → only l w2 w3 → only l w1 w3.
Proof.
  intros (A1 & A2 & A3 & A4) (B1 & B2 & B3 & B4). split_and!.
  - intros u Hu. by rewrite B1, A1.
  - intros u o Ho. destruct (A2 u o Ho) as [m Hm]. destruct (B2 _ _ Hm) as [m' Hm'].
    exists m'. rewrite Hm'. by destruct o.
  - by rewrite B3.
  - intros u off. by rewrite B4.
Qed.

Lemma only_mono l l' w w' : (∀ x, x ∈ l → x ∈ l') → only l w w' → only l' w w'.
Proof. intros Hl (A1 & A2). split; [|done]. intros u Hu. apply A1. auto. Qed.

Lemma only_views l w w' : only l w w' → same_views w w'.
Proof. intros (_ & _ & _ & ?). done. Qed.

(** Pages in the hands of the caller do not enter or leave an object. *)
Definition steady (pins : Z → Z) (w w' : world FS) : Prop :=
  ∀ q, 1 <= pins q → slots w' q = slots w q.

Lemma steady_same pins w w' : objs w' = objs w → steady pins w w'.
Proof. intros Ho q _. unfold slots. by rewrite Ho. Qed.

Lemma steady_put pins w w' v o off p :
  pins p = 0 → objs w !! v = Some o → vo_pages o !! off = None →
  objs w' = <[v := set_vpages (<[off := p]> (vo_pages o)) o]> (objs w) → steady pins w w'.
Proof.
  intros Hp Hv Hoff Ho q Hq. rewrite (slots_update _ _ _ _ _ q Hv Ho). simpl.
  rewrite count_put by done. rewrite holds_ne; [lia|]. intros ->. lia.
Qed.

(** The page [p] of [v] at [off], pinned for the caller, shows the view. *)
Definition got (pins : Z → Z) (v off p : Z) (n : Z) (w w' : world FS) : Prop :=
  inv (pin p pins) w' ∧ room n w' ∧ view w v off = Some (memory w' p) ∧
  ∃ o, objs w' !! v = Some o ∧ vo_pages o !! off = Some p.

Lemma wp_copy pins w p1 p2 (Q : unit → world FS → Prop) :
  inv pins w → slots w p1 = 0 →
  (∀ w', inv pins w' → fs w' = fs w → objs w' = objs w → next_obj w' = next_obj w →
    same_views w w' → memory w' p1 = memory w p2 → Q tt w') →
  wp (copy_page_to_page p1 p2) Q w.
Proof.
  intros Hi Hs HQ. unfold copy_page_to_page. wp_step. apply HQ; try done.
  - by destruct Hi; split.
  - apply same_views_memory; [exact (inv_cow _ _ Hi)|done|]. intros q Hq. unfold memory. simpl.
    rewrite lookup_insert_ne; [done|]. intros ->. lia.
  - unfold memory. simpl. by rewrite lookup_insert_eq.
Qed.

Context (commit_other : Z → Z → M (world FS) (vmo_status * option Z)).

(** What the [commit] operation of a file system is for: it hands out a new page
    with the data of the object at the offset, or fails and leaves things alone. *)
Definition commits : Prop :=
  ∀ pins w v off n (Q : vmo_status * option Z → world FS → Prop),
    inv pins w → room n w → 1 <= n < 2 ^ 63 →
    (∀ st w', st ≠ VMO_STATUS_OK → inv pins w' → room n w' → objs w' = objs w →
      next_obj w' = next_obj w → same_views w w' → Q (st, None) w') →
    (∀ p w', slots w p = 0 → pins p = 0 → inv (pin p pins) w' → room (n - 1) w' →
      objs w' = objs w → next_obj w' = next_obj w → same_views w w' →
      memory w' p = file_data v off → Q (VMO_STATUS_OK, Some p) w') →
    wp (commit_other v off) Q w.

Context (Hcommit : commits).

(** [vmo_populate] on an object without [cow_clone] that lacks the page. *)
Lemma wp_populate pins w v o off n (Q : vmo_status * option Z → world FS → Prop) :
  inv pins w → room n w → 2 <= n < 2 ^ 63 → objs w !! v = Some o → vo_ops o ≠ no_ops →
  cow_clone o = None → off < vo_size o → vo_pages o !! off = None →
  (∀ st w', st ≠ VMO_STATUS_OK → inv pins w' → room (n - 1) w' → only [v] w w' → steady pins w w' → Q (st, None) w') →
  (∀ p w', inv pins w' → room (n - 1) w' → only [v] w w' → steady pins w w' → view w v off = Some (memory w' p) →
    objs w' !! v = Some (set_vpages (<[off := p]> (vo_pages o)) o) →
    Q (VMO_STATUS_OK, Some p) w') →
  wp (vmo_populate commit_other v off) Q w.
Proof.
  intros Hi Hr Hn Hv Hops Hcow Hlt Hoff Q0 Q1. unfold vmo_populate. wp_step.
  eapply wp_get_obj; [done|].
  assert (view w v off = backing file_data v o off) as Hview.
  { rewrite (view_eq file_data w v o) by (done || exact (inv_cow _ _ Hi)).
    rewrite (proj2 (Z.leb_gt _ _)) by lia. rewrite Hoff. unfold expected. by rewrite Hcow. }
  assert (∀ p w1, slots w p = 0 → pins p = 0 → inv (pin p pins) w1 → room (n - 1) w1 →
    objs w1 = objs w → next_obj w1 = next_obj w → same_views w w1 →
    backing file_data v o off = Some (memory w1 p) →
    wp (p' ← from_opt (Some p) AssertFailed; ok ← tree_insert v off p';
        if negb ok then free_page p';; mret (VMO_STATUS_OUT_OF_MEM, None)
        else mret (VMO_STATUS_OK, Some p')) Q w1) as Hrest.
  { intros p w1 Hsl Hpin Hi1 Hr1 Ho1 Hn1 Hs1 Hb. wp_step. wp_step; [done|]. wp_step.
    eapply wp_tree_insert; [exact Hi1|exact Hr1|by rewrite Ho1|done|rewrite pin_same; lia| | |].
    - intros _. unfold expected. by rewrite Hcow.
    - intros w2 Hi2 Hr2 Ho2 Hn2 Hs2. simpl. wp_step.
      eapply wp_free_frame; [exact Hi2|rewrite pin_same; lia|exact Hr2|lia|].
      intros f Hi3 Hr3. wp_step. apply Q0; [done| |done| |].
      + eapply inv_ext; [|exact Hi3]. apply unpin_pin.
      + apply only_same; simpl; [by rewrite Ho2|by rewrite Hn2|].
        eapply same_views_trans; [exact Hs1|exact Hs2].
      + apply steady_same. simpl. by rewrite Ho2.
    - intros w2 Hi2 Hr2 Hc2 Ho2 Hn2 Hs2. simpl. wp_step. apply Q1; [|done| | | |].
      + eapply inv_ext; [|exact Hi2]. apply unpin_pin.
      + eapply only_put; [exact Hv|by rewrite Ho2, Ho1|by rewrite Hn2|].
        eapply same_views_trans; [exact Hs1|exact Hs2].
      + eapply steady_put; [exact Hpin|exact Hv|exact Hoff|]. by rewrite Ho2, Ho1.
      + rewrite Hview, Hb. unfold memory. by rewrite Hc2.
      + rewrite Ho2. apply lookup_insert_eq. }
  wp_step. unfold ops_commit, backing in *. destruct (vo_ops o); [done| |clear Hops..].
  { unfold vmo_commit_phys_page. wp_step. eapply wp_alloc_frame; [exact Hi|done|exact Hr|lia|lia| |].
    + intros f Hi1 Hr1. wp_step. wp_step. apply Q0; [done|done|by eapply room_mono; [|exact Hr1]; lia| |].
      * by apply only_same.
      * by apply steady_same.
    + intros p w1 Hsl Hpin Hi1 Hr1 Ho1 Hn1 Hs1 Hm. wp_step. apply Hrest; try done. by rewrite Hm. }
  all: apply (Hcommit pins w v off n); [done|done|lia| |intros p w1 ????????; apply Hrest; try done; congruence].
  all: intros st w1 Hst Hi1 Hr1 Ho1 Hn1 Hs1; assert (only [v] w w1) by by apply only_same.
  all: assert (steady pins w w1) by by apply steady_same.
  all: assert (room (n - 1) w1) by (by eapply room_mono; [|exact Hr1]; lia).
  all: destruct st; try done; wp_step; by apply Q0.
Qed.

(** Pinning a page that an object holds. *)
Lemma wp_pin_slot pins w v o off p n (Q : vmo_status * option Z → world FS → Prop) :
  inv pins w → room n w → 1 <= n → objs w !! v = Some o → vo_pages o !! off = Some p →
  (∀ f, inv (pin p pins) (set_fs f w) → room (n - 1) (set_fs f w) →
    Q (VMO_STATUS_OK, Some p) (set_fs f w)) →
  wp (page_pin p;; mret (VMO_STATUS_OK, Some p)) Q w.
Proof.
  intros Hi Hr Hn Hv Hp HQ. wp_step. unfold page_pin.
  eapply wp_ref_frame; [exact Hi| |exact Hr|done|].
  - pose proof (slots_pos _ _ _ _ _ Hv Hp). pose proof (inv_pins _ _ Hi p). lia.
  - intros f Hi' Hr'. wp_step. by apply HQ.
Qed.

Lemma wp_get_finish pins w v o off n (Q : vmo_status * option Z → world FS → Prop) :
  inv pins w → room n w → 3 <= n < 2 ^ 63 → objs w !! v = Some o → vo_ops o ≠ no_ops →
  off < vo_size o → (vo_pages o !! off = None → cow_clone o = None) →
  (∀ st w', st ≠ VMO_STATUS_OK → inv pins w' → room (n - 2) w' → only [v] w w' → steady pins w w' → Q (st, None) w') →
  (∀ p w', got pins v off p (n - 2) w w' → only [v] w w' → steady pins w w' → Q (VMO_STATUS_OK, Some p) w') →
  wp (get_finish commit_other v off VMO_GET_MAY_POPULATE (vo_pages o !! off)) Q w.
Proof.
  intros Hi Hr Hn Hv Hops Hlt Hcow Q0 Q1. unfold get_finish.
  destruct (vo_pages o !! off) as [p|] eqn:Hoff.
  - wp_step. wp_step. eapply wp_pin_slot; [exact Hi|exact Hr|lia|done|done|].
    intros f Hi' Hr'. apply Q1.
    + split_and!; [done|by eapply room_mono; [|exact Hr']; lia| |by exists o].
      rewrite (view_eq file_data w v o) by (done || exact (inv_cow _ _ Hi)).
      rewrite (proj2 (Z.leb_gt _ _)) by lia. by rewrite Hoff.
    + by apply only_same.
    + by apply steady_same.
  - wp_step. eapply wp_populate; [exact Hi|exact Hr|lia|done|done|auto|done|done| |].
    + intros st w1 Hst Hi1 Hr1 Ho1 Hst1. assert (room (n - 2) w1) by (by eapply room_mono; [|exact Hr1]; lia).
      destruct st; try done; wp_step; by apply Q0.
    + intros p w1 Hi1 Hr1 Ho1 Hst1 Hview Hobj.
      eapply wp_pin_slot; [exact Hi1|exact Hr1|lia|exact Hobj|apply lookup_insert_eq|].
      intros f Hi' Hr'. apply Q1.
      * split_and!; [done|by eapply room_mono; [|exact Hr']; lia|done|].
        eexists. split; [exact Hobj|apply lookup_insert_eq].
      * eapply only_trans; [exact Ho1|]. by apply only_same.
      * done.
Qed.

(** An object without [cow_clone]. *)
Lemma wp_get_plain fuel pins w v o off n (Q : vmo_status * option Z → world FS → Prop) :
  inv pins w → room n w → 3 <= n < 2 ^ 63 → objs w !! v = Some o → vo_ops o ≠ no_ops →
  cow_clone o = None →
  (∀ st w', st ≠ VMO_STATUS_OK → inv pins w' → room (n - 2) w' → only [v] w w' → steady pins w w' → Q (st, None) w') →
  (∀ p w', got pins v off p (n - 2) w w' → only [v] w w' → steady pins w w' → Q (VMO_STATUS_OK, Some p) w') →
  wp (vmo_get commit_other (S fuel) v off VMO_GET_MAY_POPULATE) Q w.
Proof.
  intros Hi Hr Hn Hv Hops Hcow Q0 Q1. cbn [vmo_get]. wp_step. eapply wp_get_obj; [done|].
  destruct (Z.leb_spec (vo_size o) off).
  { apply wp_ret, Q0; [done|done|by eapply room_mono; [|exact Hr]; lia|by apply only_same|by apply steady_same]. }
  rewrite Hcow.
  assert (wp (get_finish commit_other v off VMO_GET_MAY_POPULATE (vo_pages o !! off)) Q w) as Hg.
  { eapply wp_get_finish; [exact Hi|exact Hr|..]; done. }
  by destruct (vo_pages o !! off).
Qed.

Definition ready (w : world FS) : Prop := ∀ v o, objs w !! v = Some o → vo_ops o ≠ no_ops.

Definition reach (v : Z) (o : vm_object) : list Z :=
  v :: match cow_clone o with Some c => [c] | None => [] end.

(** The new page [nw] takes over the contents of [old] and becomes a page of [v]. *)
Lemma wp_cow_store pins w v o off nw old n (Q : vmo_status * option Z → world FS → Prop) :
  inv (pin old (pin nw pins)) w → room n w → 3 <= n → slots w nw = 0 →
  (∀ q, 0 <= pins q) → objs w !! v = Some o →
  off < vo_size o → vo_pages o !! off = None → expected w v o off = Some (memory w old) →
  (∀ w', inv pins w' → only [v] w w' → Q (VMO_STATUS_OUT_OF_MEM, None) w') →
  (∀ w', got pins v off nw (n - 2) w w' → only [v] w w' → Q (VMO_STATUS_OK, Some nw) w') →
  wp (copy_page_to_page nw old;; page_unpin old;; ok ← tree_insert v off nw;
      if negb ok then free_page nw;; mret (VMO_STATUS_OUT_OF_MEM, None)
      else get_finish commit_other v off VMO_GET_MAY_POPULATE (Some nw)) Q w.
Proof.
  intros Hi Hr Hn Hsl Hpp Hv Hlt Hoff He Q0 Q1.
  wp_step. eapply wp_copy; [exact Hi|exact Hsl|]. intros w1 Hi1 Hf1 Ho1 Hn1 Hs1 Hm1.
  assert (room n w1) as Hr1 by (intros q; by rewrite Hf1).
  wp_step. unfold page_unpin. eapply wp_free_frame; [exact Hi1| |exact Hr1|lia|].
  { rewrite pin_same. unfold pin. pose proof (Hpp old). pose proof (holds_nonneg old nw). lia. }
  intros f Hi2 Hr2. set (w2 := set_fs f w1) in *.
  assert (inv (pin nw pins) w2) as Hi2' by (eapply inv_ext; [|exact Hi2]; apply unpin_pin).
  assert (only [v] w w2) as Ho02 by by apply only_same.
  assert (expected w2 v o off = Some (memory w2 nw)) as Hexp.
  { change (memory w2 nw) with (memory w1 nw). rewrite Hm1, <- He. unfold expected.
    destruct (cow_clone o); [apply Hs1|done]. }
  wp_step. eapply wp_tree_insert;
    [exact Hi2'|exact Hr2|simpl; by rewrite Ho1|done|rewrite pin_same; pose proof (Hpp nw); lia|done| |].
  - intros w3 Hi3 Hr3 Ho3 Hn3 Hs3. simpl. wp_step.
    eapply wp_free_frame; [exact Hi3|rewrite pin_same; pose proof (Hpp nw); lia|exact Hr3|lia|].
    intros f' Hi4 Hr4. wp_step. apply Q0; [eapply inv_ext; [|exact Hi4]; apply unpin_pin|].
    eapply only_trans; [exact Ho02|]. by apply only_same.
  - intros w3 Hi3 Hr3 Hc3 Ho3 Hn3 Hs3. cbn [negb]. unfold get_finish. wp_step. wp_step.
    assert (objs w3 !! v = Some (set_vpages (<[off := nw]> (vo_pages o)) o)) as Hv3.
    { rewrite Ho3. apply lookup_insert_eq. }
    eapply wp_pin_slot; [exact Hi3|exact Hr3|lia|exact Hv3|apply lookup_insert_eq|].
    intros f' Hi4 Hr4. apply Q1.
    + split_and!; [|by eapply room_mono; [|exact Hr4]; lia| |].
      * eapply inv_ext; [|exact Hi4]. intros q. unfold pin, unpin. lia.
      * rewrite (view_eq file_data w v o) by (done || exact (inv_cow _ _ Hi)).
        rewrite (proj2 (Z.leb_gt _ _)) by lia. rewrite Hoff, He. unfold memory. simpl.
        rewrite Hc3. f_equal. symmetry. exact Hm1.
      * eexists. split; [exact Hv3|apply lookup_insert_eq].
    + eapply only_trans; [exact Ho02|]. eapply (only_put _ _ w3); [|exact Ho3|done|done].
      simpl. by rewrite Ho1.
Qed.

(** The page is copied from the object behind. *)
Lemma wp_get_implicit_cow pins w v o c off n (Q : vmo_status * option Z → world FS → Prop) :
  inv pins w → ready w → room n w → 8 <= n < 2 ^ 63 → objs w !! v = Some o →
  cow_clone o = Some c → off < vo_size o → vo_pages o !! off = None →
  (∀ st w', st ≠ VMO_STATUS_OK → inv pins w' → only [v; c] w w' → Q (st, None) w') →
  (∀ p w', got pins v off p (n - 6) w w' → only [v; c] w w' → Q (VMO_STATUS_OK, Some p) w') →
  wp (vmo_get commit_other 2 v off VMO_GET_MAY_POPULATE) Q w.
Proof.
  intros Hi Hrdy Hr Hn Hv Hc Hlt Hoff Q0 Q1. cbn [vmo_get]. wp_step. eapply wp_get_obj; [done|].
  rewrite (proj2 (Z.leb_gt _ _)) by lia. rewrite Hoff, Hc.
  change (has VMO_GET_MAY_POPULATE VMO_GET_MAY_NOT_IMPLICIT_COW) with false. cbn iota.
  destruct (inv_cow _ _ Hi _ _ _ Hv Hc) as (oc & Hoc & Hnc).
  assert (c ≠ v) as Hcv by (intros ->; congruence).
  wp_step. eapply wp_alloc_frame; [exact Hi|done|exact Hr|lia|lia| |].
  { intros f Hi1 Hr1. wp_step. apply Q0; [done|done|by apply only_same]. }
  intros nw w1 Hsl Hpn Hi1 Hr1 Ho1 Hn1 Hs1 _. cbn iota.
  change (Z.land VMO_GET_MAY_POPULATE (Z.lnot VMO_GET_MAY_NOT_IMPLICIT_COW)) with VMO_GET_MAY_POPULATE.
  assert (∀ w2, only [c] w1 w2 → only [v; c] w w2) as Hon.
  { intros w2 Ho2. eapply only_trans; [by apply (only_same _ w w1)|].
    eapply only_mono; [|exact Ho2]. set_solver. }
  assert (∀ w2 w3, only [v; c] w w2 → only [v] w2 w3 → only [v; c] w w3) as Hon'.
  { intros w2 w3 H2 H3. eapply only_trans; [exact H2|]. eapply only_mono; [|exact H3]. set_solver. }
  wp_step. eapply (wp_get_plain 0); [exact Hi1|exact Hr1|lia|by rewrite Ho1|by eapply Hrdy|done| |].
  { intros st w2 Hst Hi2 Hr2 Ho2 Hst2.
    assert (wp (free_page nw;; mret (st, None)) Q w2); [|by destruct st].
    wp_step. eapply wp_free_frame; [exact Hi2|rewrite pin_same; lia|exact Hr2|lia|].
    intros f Hi3 Hr3. wp_step. apply Q0; [done|eapply inv_ext; [|exact Hi3]; apply unpin_pin|].
    eapply Hon'; [by apply Hon|]. by apply only_same. }
  intros old w2 (Hi2 & Hr2 & Hview & oc2 & Hoc2 & Hold) Ho2 Hst2. cbn iota.
  assert (expected w v o off = Some (memory w2 old)) as He.
  { unfold expected. rewrite Hc, <- Hview. symmetry. apply Hs1. }
  eapply wp_cow_store; [exact Hi2|exact Hr2|lia| |apply Hi| |exact Hlt|exact Hoff| | |].
  - rewrite Hst2 by (rewrite pin_same; lia). unfold slots in *. by rewrite Ho1.
  - destruct Ho2 as (Hu & _). rewrite Hu, Ho1 by set_solver. done.
  - rewrite <- He. unfold expected. rewrite Hc. apply (only_views _ _ _ (Hon _ Ho2)).
  - intros w3 Hi3 Ho3. apply Q0; [done|done|]. eapply Hon'; [by apply Hon|done].
  - intros w3 (Hi3 & Hr3 & Hv3 & Hobj) Ho3. apply Q1; [|eapply Hon'; [by apply Hon|done]].
    split_and!; [done|by eapply room_mono; [|exact Hr3]; lia| |done].
    rewrite <- Hv3. symmetry. apply (only_views _ _ _ (Hon _ Ho2)).
Qed.

(** [vmo_get] with permission to populate, in every case. *)
Lemma wp_get pins w v o off n (Q : vmo_status * option Z → world FS → Prop) :
  inv pins w → ready w → room n w → 8 <= n < 2 ^ 63 → objs w !! v = Some o →
  (∀ st w', st ≠ VMO_STATUS_OK → inv pins w' → only (reach v o) w w' →
    (vo_size o <= off → st = VMO_STATUS_BUS_ERROR) → Q (st, None) w') →
  (∀ p w', got pins v off p (n - 6) w w' → only (reach v o) w w' → Q (VMO_STATUS_OK, Some p) w') →
  wp (vmo_get commit_other 2 v off VMO_GET_MAY_POPULATE) Q w.
Proof.
  intros Hi Hrdy Hr Hn Hv Q0 Q1.
  assert (∀ p w', got pins v off p (n - 2) w w' → got pins v off p (n - 6) w w') as Hgot.
  { intros p w' (? & Hr' & ? & ?). split_and!; try done. eapply room_mono; [|exact Hr']. lia. }
  destruct (Z.le_gt_cases (vo_size o) off) as [Hge|Hlt].
  { cbn [vmo_get]. wp_step. eapply wp_get_obj; [done|]. rewrite (proj2 (Z.leb_le _ _)) by done.
    apply wp_ret, Q0; [done|done|by apply only_same|done]. }
  destruct (cow_clone o) as [c|] eqn:Hc.
  - destruct (vo_pages o !! off) as [p|] eqn:Hoff.
    + cbn [vmo_get]. wp_step. eapply wp_get_obj; [done|]. rewrite (proj2 (Z.leb_gt _ _)) by lia.
      rewrite Hoff, <- Hoff. eapply wp_get_finish; [exact Hi|exact Hr|lia|exact Hv|by eapply Hrdy|lia|congruence| |].
      * intros st w' Hst Hi' _ Ho' _. apply Q0; [done|done| |lia].
        eapply only_mono; [|exact Ho']. unfold reach. set_solver.
      * intros q w' Hg Ho' _. apply Q1; [by apply Hgot|].
        eapply only_mono; [|exact Ho']. unfold reach. set_solver.
    + eapply wp_get_implicit_cow; try done; unfold reach in *; rewrite Hc in *; [|done].
      intros st w' Hst Hi' Ho'. apply Q0; [done|done|done|lia].
  - unfold reach in *. rewrite Hc in *. eapply wp_get_plain; [exact Hi|exact Hr|lia|done|by eapply Hrdy|done| |].
    + intros st w' Hst Hi' _ Ho' _. apply Q0; [done|done|done|lia].
    + intros p w' Hg Ho' _. apply Q1; [by apply Hgot|done].
Qed.
End ops.

(** ** Copy-on-write faults *)

Section cow.
Context {FS : Type} `{FramesLaws FS} (file_data : Z → Z → gmap Z Z).
Implicit Types (w : world FS) (pins : Z → Z) (o : vm_object).

Abbreviation same_views := (same_views file_data).
Abbreviation view := (view file_data).
Abbreviation only := (only file_data).
Abbreviation got := (got file_data).

(** One page of an object is replaced by another one with the same contents. *)
Lemma replace_views w w' v o off old nw :
  cow_ok w → objs w !! v = Some o → vo_pages o !! off = Some old →
  objs w' = <[v := set_vpages (<[off := nw]> (vo_pages o)) o]> (objs w) →
  contents w' = contents w → memory w nw = memory w old → cow_ok w' → same_views w w'.
Proof.
  intros Hc Hv Hoff Ho Hct Hm Hc'. assert (∀ q, memory w' q = memory w q) as Hmem.
  { intros q. unfold memory. by rewrite Hct. }
  apply same_views_intro; [done|done|]. intros u. rewrite Ho. destruct (decide (u = v)) as [->|].
  - rewrite lookup_insert_eq, Hv. split; [done|]. intros x. unfold page_like. simpl.
    destruct (decide (x = off)) as [->|].
    + rewrite Hoff, lookup_insert_eq. by rewrite Hmem.
    + rewrite lookup_insert_ne by done. by destruct (vo_pages o !! x).
  - rewrite lookup_insert_ne by done. destruct (objs w !! u) as [ou|]; [|done].
    split; [done|]. intros x. unfold page_like. by destruct (vo_pages ou !! x).
Qed.

Lemma count_replace q (m : gmap Z Z) off old p :
  m !! off = Some old → count_in q (<[off := p]> m) = count_in q m - holds_page q old + holds_page q p.
Proof. intros Hm. unfold count_in. by erewrite total_insert by done. Qed.

(** The page of the object after a write fault: held by this place and by the caller. *)
Definition owned (pins : Z → Z) (v off p : Z) (w w' : world FS) : Prop :=
  got pins v off p 0 w w' ∧ slots w' p = 1 ∧ pins p = 0.

Lemma view_page pins w v o off p :
  inv pins w → objs w !! v = Some o → off < vo_size o → vo_pages o !! off = Some p →
  view w v off = Some (memory w p).
Proof.
  intros Hi Hv Hlt Hoff. rewrite (view_eq file_data w v o) by (done || exact (inv_cow _ _ Hi)).
  rewrite (proj2 (Z.leb_gt _ _)) by lia. by rewrite Hoff.
Qed.

(** The object holds the new page [nw], which nobody else has, in place of [old]. *)
Lemma wp_cow_replace pins w v o off old nw n (Q : option Z → world FS → Prop) :
  inv (pin nw pins) w → room n w → 2 <= n → objs w !! v = Some o → off < vo_size o →
  vo_pages o !! off = Some old → slots w nw = 0 → pins nw = 0 → (∀ q, 0 <= pins q) →
  (∀ w', owned pins v off nw w w' → only [v] w w' → Q (Some nw) w') →
  wp (copy_page_to_page nw old;;
      upd_obj v (λ o, set_vpages (<[off := nw]> (vo_pages o)) o);;
      page_pin nw;; page_unref old;; mret (Some nw)) Q w.
Proof.
  intros Hi Hr Hn Hv Hlt Hoff Hsl Hpn Hpp HQ.
  pose proof (slots_pos _ _ _ _ _ Hv Hoff) as Hs1. assert (nw ≠ old) as Hne by (intros ->; lia).
  wp_step. eapply wp_copy; [exact Hi|exact Hsl|]. intros w2 Hi2 Hf2 Ho2 Hn2 Hv2 Hm2.
  assert (objs w2 !! v = Some o) as Hobj2 by by rewrite Ho2.
  pose proof (view_page _ _ _ _ _ _ Hi Hv Hlt Hoff) as Hview.
  pose proof (view_page _ _ _ _ _ _ Hi2 Hobj2 Hlt Hoff) as Hview2. rewrite Hv2, Hview in Hview2.
  wp_step. eapply wp_upd_obj; [exact Hobj2|]. set (w3 := set_objs _ w2).
  assert (∀ q, slots w3 q = slots w q - holds_page q old + holds_page q nw) as Hslots.
  { intros q. rewrite (slots_update w w3 v o _ q Hv) by (simpl; by rewrite Ho2).
    simpl. rewrite (count_replace _ _ _ _ _ Hoff). lia. }
  assert (inv (pin old pins) w3) as Hi3.
  { eapply (inv_update _ _ w2 w3 v o); [exact Hi2|done|done|done|done|done| |].
    - intros q. simpl. rewrite (count_replace _ _ _ _ _ Hoff). unfold pin. lia.
    - intros q. unfold pin. pose proof (Hpp q). pose proof (holds_nonneg q old). lia. }
  assert (only [v] w w3) as Ho3.
  { eapply (only_put file_data v w w3); [exact Hv|simpl; by rewrite Ho2|done|].
    eapply same_views_trans; [exact Hv2|].
    eapply (replace_views w2 w3); [exact (inv_cow _ _ Hi2)|exact Hobj2|exact Hoff|done|done|congruence|exact (inv_cow _ _ Hi3)]. }
  assert (slots w3 nw = 1) as Hnw.
  { rewrite Hslots, holds_same, holds_ne by done. lia. }
  wp_step. unfold page_pin.
  eapply (wp_ref_frame _ _ _ n); [exact Hi3|rewrite Hnw, pin_ne by done; lia| |lia|].
  { intros q. simpl. rewrite Hf2. apply Hr. }
  intros f Hi4 Hr4. wp_step. eapply wp_free_frame; [exact Hi4| |exact Hr4|lia|].
  { rewrite pin_ne by done. rewrite pin_same. pose proof (Hpp old). lia. }
  intros f' Hi5 Hr5. wp_step. apply HQ; [|eapply only_trans; [exact Ho3|by apply only_same]].
  split; [|done]. split_and!.
  - eapply inv_ext; [|exact Hi5]. intros q. unfold pin, unpin. lia.
  - eapply room_mono; [|exact Hr5]. lia.
  - rewrite Hview. change (Some (memory w old) = Some (memory w2 nw)). congruence.
  - exists (set_vpages (<[off := nw]> (vo_pages o)) o). simpl. rewrite Ho2.
    split; [apply lookup_insert_eq|apply lookup_insert_eq].
Qed.

Lemma wp_cow_on_page pins w v o off old n (Q : option Z → world FS → Prop) :
  inv pins w → room n w → 3 <= n < 2 ^ 63 → objs w !! v = Some o →
  off < vo_size o → vo_pages o !! off = Some old →
  (∀ w', inv pins w' → only [v] w w' → Q None w') →
  (∀ p w', owned pins v off p w w' → only [v] w w' → Q (Some p) w') →
  wp (vmo_cow_on_page v off) Q w.
Proof.
  intros Hi Hr Hn Hv Hlt Hoff Q0 Q1. unfold vmo_cow_on_page. wp_step. eapply wp_get_obj; [done|].
  wp_step. eapply wp_from_opt; [done|]. wp_step. wp_step.
  pose proof (slots_pos _ _ _ _ _ Hv Hoff) as Hs1. pose proof (inv_pins _ _ Hi old) as Hp1.
  destruct (Z.eqb_spec (refs (fs w) old) 1) as [Hone|Hmany].
  - rewrite (inv_refs _ _ Hi) in Hone. wp_step. eapply wp_ref_frame; [exact Hi|lia|exact Hr|lia|].
    intros f Hi1 Hr1. wp_step. apply Q1; [|by apply only_same].
    split; [|split; [change (slots (set_fs f w) old) with (slots w old)|]; lia].
    split_and!; [done|by eapply room_mono; [|exact Hr1]; lia| |by exists o].
    exact (view_page _ _ _ _ _ _ Hi Hv Hlt Hoff).
  - wp_step. eapply wp_alloc_frame; [exact Hi|done|exact Hr|lia|lia| |].
    { intros f Hi1 Hr1. wp_step. apply Q0; [done|by apply only_same]. }
    intros nw w1 Hsl Hpn Hi1 Hr1 Ho1 Hn1 Hv1 _. cbn iota.
    assert (only [v] w w1) as Ho1' by by apply only_same.
    eapply wp_cow_replace; [exact Hi1|exact Hr1|lia|by rewrite Ho1|done|done| |done|apply Hi|].
    { unfold slots in *. by rewrite Ho1. }
    intros w' [(? & ? & Hvw & ?) ?] Ho'. apply Q1; [|by eapply only_trans].
    split; [|done]. split_and!; try done. rewrite <- Hvw. symmetry. apply Hv1.
Qed.
(** ** Writing to a page *)

Definition page_write (p : Z) (m : gmap Z Z) (w : world FS) : world FS :=
  set_contents (<[p := m]> (contents w)) w.

Lemma memory_write p m w q : memory (page_write p m w) q = if decide (q = p) then m else memory w q.
Proof.
  unfold memory, page_write. simpl. destruct (decide (q = p)) as [->|].
  - by rewrite lookup_insert_eq.
  - by rewrite lookup_insert_ne.
Qed.

Lemma write_inv pins p m w : inv pins w → inv pins (page_write p m w).
Proof. by intros []. Qed.

(** A page that one place holds shows up there only. *)
Lemma write_views w v o off p m :
  objs w !! v = Some o → off < vo_size o → vo_pages o !! off = Some p → slots w p = 1 →
  (∀ x ox, objs w !! x = Some ox → cow_clone ox ≠ Some v) →
  view (page_write p m w) v off = Some m ∧
  ∀ x y, (x, y) ≠ (v, off) → view (page_write p m w) x y = view w x y.
Proof.
  intros Hv Hlt Hoff Hs Hc.
  assert (∀ x ox y q, objs w !! x = Some ox → vo_pages ox !! y = Some q → (x, y) ≠ (v, off) →
    memory (page_write p m w) q = memory w q) as Hm.
  { intros x ox y q Hx Hy Hne. rewrite memory_write. destruct (decide (q = p)) as [->|]; [|done].
    pose proof (slots_two w p x ox y v o off Hx Hy Hv Hoff Hne). lia. }
  split.
  - unfold VmObjectFacts.view. simpl. rewrite Hv. simpl. rewrite (proj2 (Z.leb_gt _ _)) by done.
    rewrite Hoff, memory_write. by rewrite decide_True.
  - intros x y Hne. unfold VmObjectFacts.view. simpl. destruct (objs w !! x) as [ox|] eqn:Hx; [|done]. simpl.
    case_match; [done|]. destruct (vo_pages ox !! y) as [q|] eqn:Hy; [f_equal; by eapply Hm|].
    destruct (cow_clone ox) as [c|] eqn:Hcx; [|done]. unfold view_plain. simpl.
    destruct (objs w !! c) as [oc|] eqn:Hoc; [|done]. simpl. case_match; [done|].
    destruct (vo_pages oc !! _) as [q|] eqn:Hq; [|done]. f_equal. eapply Hm; [done|done|].
    intros [= -> _]. exact (Hc _ _ Hx Hcx).
Qed.
End cow.
