(* ===== verification/VmObjectLife.v ===== *)
(** * VmObjectLife: forking and destroying VM objects.

    Besides the page counts, the count of every object is the number of objects that
    are copies of it plus the references of its owners (mappings and inodes). *)

From stdpp Require Import sorting.
From S2P Require Import Prelude Bits Abi PageAlloc Frames VmObject VmObjectFacts VmObjectOps.

Lemma elem_of_offsets (m : gmap Z Z) off : off ∈ offsets m ↔ is_Some (m !! off).
Proof.
  unfold offsets. rewrite merge_sort_Permutation, list_elem_of_fmap. split.
  - intros ([k p] & -> & Hin). apply elem_of_map_to_list in Hin. by exists p.
  - intros [p Hp]. exists (off, p). split; [done|]. by apply elem_of_map_to_list.
Qed.

Lemma NoDup_offsets (m : gmap Z Z) : NoDup (offsets m).
Proof. unfold offsets. rewrite merge_sort_Permutation. apply NoDup_fst_map_to_list. Qed.

Lemma length_offsets (m : gmap Z Z) : length (offsets m) = size m.
Proof. unfold offsets. by rewrite merge_sort_Permutation, length_fmap, length_map_to_list. Qed.

Section life.
Context {FS : Type} `{FramesLaws FS} (file_data : Z → Z → gmap Z Z).
Implicit Types (w : world FS) (pins own : Z → Z) (o : vm_object).

Abbreviation same_views := (same_views file_data).
Abbreviation view := (view file_data).
Abbreviation expected := (expected file_data).

(** ** Counts of objects *)

Definition clones (v : Z) (o : vm_object) : Z := if bool_decide (cow_clone o = Some v) then 1 else 0.

Definition clone_refs (w : world FS) (v : Z) : Z := total (clones v) (objs w).

Record counted (own : Z → Z) (w : world FS) : Prop := Counted {
  counted_refs : ∀ v o, objs w !! v = Some o → vo_refcount o = clone_refs w v + own v;
  counted_own : ∀ v, 0 <= own v;
  counted_live : ∀ v, 0 < own v → is_Some (objs w !! v);
}.

Lemma clones_nonneg v o : 0 <= clones v o.
Proof. unfold clones. by case_bool_decide. Qed.

(** ** Forking *)

(** Only the page allocator and the outcomes of allocations differ. *)
Definition frames_only (w w' : world FS) : Prop :=
  contents w' = contents w ∧ objs w' = objs w ∧ next_obj w' = next_obj w.

Lemma wp_frame_ref w p (Q : unit → world FS → Prop) :
  frames_ok (fs w) → 0 < refs (fs w) p → refs (fs w) p + 1 < 2 ^ 64 →
  (∀ f, recount p (refs (fs w) p + 1) (fs w) f → Q tt (set_fs f w)) → wp (page_ref p) Q w.
Proof.
  intros Hok Hp Hb HQ. unfold page_ref. wp_step. apply wp_in_fs.
  eapply wp_mono; [by apply frame_ref_ok|]. intros r f Hf. wp_step. by apply HQ.
Qed.

Lemma wp_fork_loop l : ∀ (old new : gmap Z Z) w (Q : option (gmap Z Z) → world FS → Prop),
  frames_ok (fs w) → NoDup l →
  (∀ off, off ∈ l → ∃ p, old !! off = Some p ∧ 0 < refs (fs w) p) →
  (∀ off, off ∈ l → new !! off = None) →
  (∀ q, refs (fs w) q + Z.of_nat (length l) < 2 ^ 64) →
  (∀ w', frames_only w w' → frames_ok (fs w') → (∀ q, refs (fs w) q <= refs (fs w') q) → Q None w') →
  (∀ m w', frames_only w w' → frames_ok (fs w') →
    (∀ q, refs (fs w') q - count_in q m = refs (fs w) q - count_in q new) →
    (∀ off, m !! off = if decide (off ∈ l) then old !! off else new !! off) → Q (Some m) w') →
  wp (fork_pages_loop l old new) Q w.
Proof.
  induction l as [|off l IH]; intros old new w Q Hok Hnd Hl Hnew Hb Q0 Q1; cbn [fork_pages_loop].
  { apply wp_ret, Q1; [done|done|done|]. intros off. by rewrite decide_False by apply not_elem_of_nil. }
  wp_step. apply wp_kmalloc. intros b w1 (Ef & Ec & Eo & En).
  destruct b; cbn [negb]; [|wp_step; apply Q0; [done|by rewrite Ef|intros q; rewrite Ef; lia]].
  destruct (Hl off) as (p & Hp & Hrp); [left|]. rewrite length_cons in Hb.
  wp_step. eapply wp_from_opt; [exact Hp|]. wp_step. pose proof (Hb p).
  apply wp_frame_ref; [by rewrite Ef|by rewrite Ef|rewrite Ef; lia|]. rewrite Ef.
  intros f (Hfok & Hfp & Hfq). apply list.NoDup_cons in Hnd as [Hni Hnd].
  assert (∀ q, refs f q = refs (fs w) q + holds_page q p) as Hf.
  { intros q. destruct (decide (q = p)) as [->|]; [rewrite holds_same; lia|].
    rewrite holds_ne, Hfq by done. lia. }
  apply IH; simpl.
  - done.
  - done.
  - intros x Hx. destruct (Hl x) as (y & Hy & Hry); [by right|]. exists y. split; [done|].
    rewrite Hf. pose proof (holds_nonneg y p). lia.
  - intros x Hx. rewrite lookup_insert_ne by (intros ->; done). apply Hnew. by right.
  - intros q. rewrite Hf. pose proof (Hb q). assert (holds_page q p <= 1) by (unfold holds_page; case_match; lia). lia.
  - intros w2 (Ec2 & Eo2 & En2) Hok2 Hle. apply Q0; [|done|].
    + split_and!; [rewrite Ec2|rewrite Eo2|rewrite En2]; done.
    + intros q. specialize (Hle q). simpl in Hle. rewrite Hf in Hle. pose proof (holds_nonneg q p). lia.
  - intros m w2 (Ec2 & Eo2 & En2) Hok2 Hle Hm. apply Q1; [|done| |].
    + split_and!; [rewrite Ec2|rewrite Eo2|rewrite En2]; done.
    + intros q. specialize (Hle q). simpl in Hle. rewrite Hf in Hle.
      rewrite count_put in Hle by (apply Hnew; left). lia.
    + intros x. rewrite Hm. destruct (decide (x ∈ l)) as [Hx|Hx].
      * by rewrite decide_True by by right.
      * destruct (decide (x = off)) as [->|Hne].
        -- rewrite lookup_insert_eq, decide_True by left. by rewrite Hp.
        -- rewrite lookup_insert_ne by done. rewrite decide_False; [done|]. set_solver.
Qed.

(** The object that [vmo_fork] makes, and one more reference to [c]. *)
Definition forked (v : Z) (o : vm_object) : vm_object :=
  VmObject (vo_type o) (align_up2 (vo_size o) PAGE_SIZE)
    (Z.land (vo_flags o) (Z.lnot VMO_FLAG_LOCK_FUTURE_PAGES)) (vo_pages o)
    (vo_priv o) (vo_ops o) [] (cow_clone o) (vo_ino o) 1 (Some v).

Definition bump (c : option Z) (m : gmap Z vm_object) : gmap Z vm_object :=
  match c with
  | Some c => alter (λ o, set_vrefcount (u64 (vo_refcount o + 1)) o) c m
  | None => m
  end.

Lemma wp_bump w c (Q : unit → world FS → Prop) :
  (∀ v, c = Some v → is_Some (objs w !! v)) → Q tt (set_objs (bump c (objs w)) w) →
  wp (match c with Some c => vmo_ref c | None => mret tt end) Q w.
Proof.
  intros Hc HQ. destruct c as [c|]; simpl in *.
  - destruct (Hc c) as [o Ho]; [done|]. unfold vmo_ref. eapply wp_upd_obj; [done|].
    by rewrite (alter_alt_Some _ _ _ _ Ho) in HQ.
  - apply wp_ret. by destruct w.
Qed.

Lemma bump_lookup c m v o :
  m !! v = Some o → ∃ n, bump c m !! v = Some (set_vrefcount n o) ∧
    n = if bool_decide (c = Some v) then u64 (vo_refcount o + 1) else vo_refcount o.
Proof.
  intros Hv. destruct c as [c|]; simpl; [destruct (decide (c = v)) as [->|Hne]|].
  - rewrite lookup_alter_eq, Hv, bool_decide_true by done. by eexists.
  - rewrite lookup_alter_ne, Hv, bool_decide_false by congruence. eexists. split; [|done]. by destruct o.
  - rewrite Hv. eexists. split; [|done]. by destruct o.
Qed.

Lemma bump_None c m v : bump c m !! v = None ↔ m !! v = None.
Proof. destruct c; [|done]. simpl. apply lookup_alter_None. Qed.

Lemma bump_delete c m u x :
  m !! u = None → c ≠ Some u → delete u (bump c (<[u := x]> m)) = bump c m.
Proof.
  intros Hu Hc. destruct c as [c|]; simpl; [|by apply delete_insert_id].
  rewrite alter_insert_ne by congruence. rewrite delete_insert_id; [done|].
  by apply lookup_alter_None.
Qed.

Definition fresh_object (size priv : Z) : vm_object :=
  VmObject VMO_BACKED (align_up2 size PAGE_SIZE) 0 ∅ priv no_ops [] None None 1 None.

Lemma wp_vmo_create w size priv (Q : option Z → world FS → Prop) :
  (∀ w', same_state w w' → Q None w') →
  (∀ w', fs w' = fs w → contents w' = contents w →
    objs w' = <[next_obj w := fresh_object size priv]> (objs w) →
    next_obj w' = next_obj w + 1 → Q (Some (next_obj w)) w') →
  wp (vmo_create size priv) Q w.
Proof.
  intros Q0 Q1. unfold vmo_create. wp_step. apply wp_kmalloc. intros b w1 (F1 & C1 & O1 & N1).
  destruct b; cbn [negb]; [|by wp_step; apply Q0].
  wp_step. apply wp_kmalloc. intros b w2 (F2 & C2 & O2 & N2).
  destruct b; cbn [negb]; [|wp_step; apply Q0; split_and!; congruence].
  wp_step. unfold new_object. repeat wp_step. rewrite N2, N1. apply Q1; simpl; rewrite ?O2, ?O1; (done || congruence).
Qed.

(** The pages of [u] become references of its own. *)
Lemma wp_fork_pages w u o (Q : Z → world FS → Prop) :
  objs w !! u = Some o → frames_ok (fs w) → vm_size_to_pages (vo_size o) ≠ 0 →
  (∀ off p, vo_pages o !! off = Some p → 0 < refs (fs w) p) →
  (∀ q, refs (fs w) q + Z.of_nat (size (vo_pages o)) < 2 ^ 64) →
  (∀ w', frames_only w w' → frames_ok (fs w') → (∀ q, refs (fs w) q <= refs (fs w') q) → Q (-1) w') →
  (∀ w', frames_only w w' → frames_ok (fs w') →
    (∀ q, refs (fs w') q = refs (fs w) q + count_in q (vo_pages o)) → Q 0 w') →
  wp (vmo_fork_pages u) Q w.
Proof.
  intros Hu Hok Hpg Hpages Hb Q0 Q1. unfold vmo_fork_pages. wp_step. eapply wp_get_obj; [done|].
  rewrite (proj2 (Z.eqb_neq _ _)) by done.
  wp_step. apply wp_kmalloc. intros b w1 (F1 & C1 & O1 & N1).
  destruct b; cbn [negb]; [|wp_step; apply Q0; [done|by rewrite F1|intros q; rewrite F1; lia]].
  wp_step. apply wp_kmalloc. intros b w2 (F2 & C2 & O2 & N2).
  assert (fs w2 = fs w) as Hfs by congruence.
  assert (frames_only w w2) as H02 by (split_and!; congruence).
  destruct b; cbn [negb]; [|wp_step; apply Q0; [done|by rewrite Hfs|intros q; rewrite Hfs; lia]].
  wp_step. apply wp_fork_loop; rewrite ?Hfs; [done|apply NoDup_offsets| |done| | |].
  - intros off [p Hp]%elem_of_offsets. exists p. split; [done|]. by eapply Hpages.
  - intros q. by rewrite length_offsets.
  - intros w3 (E1 & E2 & E3) Hok3 Hle. wp_step. apply Q0; [|done|done]. split_and!; congruence.
  - intros m w3 (E1 & E2 & E3) Hok3 Href Hm. cbn iota.
    assert (m = vo_pages o) as ->.
    { apply map_eq. intros off. rewrite Hm. destruct (decide _) as [Hd|Hd]; [done|].
      rewrite elem_of_offsets in Hd. rewrite lookup_empty. symmetry. by apply eq_None_not_Some. }
    assert (objs w3 !! u = Some o) as Hu3 by congruence.
    wp_step. eapply wp_upd_obj; [exact Hu3|]. apply wp_ret. rewrite set_vpages_same.
    rewrite insert_id by exact Hu3. apply Q1; simpl; [split_and!; simpl; congruence|done|].
    intros q. specialize (Href q). unfold count_in at 2 in Href. rewrite total_empty in Href. lia.
Qed.

(** What [vmo_fork] does to the state, without any assumption on reference counts. *)
Lemma wp_fork_state w v o (Q : option Z → world FS → Prop) :
  objs w !! v = Some o → objs w !! next_obj w = None → frames_ok (fs w) →
  (∀ c, cow_clone o = Some c → is_Some (objs w !! c)) →
  vm_size_to_pages (align_up2 (vo_size o) PAGE_SIZE) ≠ 0 →
  (∀ off p, vo_pages o !! off = Some p → 0 < refs (fs w) p) →
  (∀ q, refs (fs w) q + Z.of_nat (size (vo_pages o)) < 2 ^ 64) →
  (∀ w', contents w' = contents w → next_obj w <= next_obj w' →
    objs w' = objs w ∨ objs w' = bump (cow_clone o) (objs w) →
    frames_ok (fs w') → (∀ q, refs (fs w) q <= refs (fs w') q) → Q None w') →
  (∀ w', contents w' = contents w → next_obj w' = next_obj w + 1 →
    objs w' = bump (cow_clone o) (<[next_obj w := forked v o]> (objs w)) → frames_ok (fs w') →
    (∀ q, refs (fs w') q = refs (fs w) q + count_in q (vo_pages o)) → Q (Some (next_obj w)) w') →
  wp (vmo_fork v false) Q w.
Proof.
  intros Hv Hfresh Hok Hc Hpg Hpages Hb Q0 Q1. set (u := next_obj w) in *.
  assert (cow_clone o ≠ Some u) as Hcu by (intros E; destruct (Hc _ E); congruence).
  unfold vmo_fork. wp_step. eapply wp_get_obj; [done|]. wp_step. apply wp_vmo_create.
  { intros w1 (F1 & C1 & O1 & N1). wp_step. apply Q0; rewrite ?F1; auto; lia. }
  fold u. intros w1 F1 C1 O1 N1. cbn iota.
  wp_step. eapply wp_upd_obj; [rewrite O1; apply lookup_insert_eq|].
  simpl. rewrite O1, insert_insert_eq. fold (forked v o).
  wp_step. apply wp_bump.
  { intros c Ec. simpl. rewrite lookup_insert_ne by congruence. by apply Hc. }
  simpl. set (w2 := set_objs (bump _ _) _).
  assert (objs w2 !! u = Some (forked v o)) as Hu2.
  { destruct (bump_lookup (cow_clone o) (<[u := forked v o]> (objs w)) u (forked v o)) as (n & Hn & ->).
    - apply lookup_insert_eq.
    - rewrite bool_decide_false in Hn by done. exact Hn. }
  assert (fs w2 = fs w) as F2 by done. assert (contents w2 = contents w) as C2 by done.
  assert (next_obj w2 = u + 1) as N2 by done.
  wp_step. eapply wp_fork_pages; rewrite ?F2; [exact Hu2|done|done|done|done| |].
  - intros w' (E1 & E2 & E3) Hok' Hle. cbn [Z.ltb Z.compare]. do 2 wp_step.
    apply Q0; simpl; [congruence|lia| |done|done]. right. rewrite E2. by apply bump_delete.
  - intros w' (E1 & E2 & E3) Hok' Href. apply wp_ret, Q1; congruence || done.
Qed.

Lemma total_bump (f : vm_object → Z) c m :
  (∀ o n, f (set_vrefcount n o) = f o) → total f (bump c m) = total f m.
Proof. intros Hf. destruct c; [|done]. apply total_alter. intros o. apply Hf. Qed.

Lemma bump_inv c m v o :
  bump c m !! v = Some o → ∃ o0 n, m !! v = Some o0 ∧ o = set_vrefcount n o0 ∧
    n = if bool_decide (c = Some v) then u64 (vo_refcount o0 + 1) else vo_refcount o0.
Proof.
  intros Hb. destruct (m !! v) as [o0|] eqn:E.
  - destruct (bump_lookup c m v o0 E) as (n & Hn & En). exists o0, n. split_and!; [done|congruence|done].
  - apply (bump_None c) in E. congruence.
Qed.

(** An object more, or another reference, does not affect what there was. *)
Lemma cow_ok_extend w w' c u ou :
  cow_ok w → objs w !! u = None → objs w' = bump c (<[u := ou]> (objs w)) →
  (∀ c, cow_clone ou = Some c → ∃ oc, objs w !! c = Some oc ∧ cow_clone oc = None) → cow_ok w'.
Proof.
  intros Hc Hu Ho Hou v o d Hv Hd. rewrite Ho in *. apply bump_inv in Hv as (o0 & n & Hv & -> & _).
  assert (∃ od, objs w !! d = Some od ∧ cow_clone od = None) as (od & Hod & Hn).
  { destruct (decide (v = u)) as [->|].
    - rewrite lookup_insert_eq in Hv. injection Hv as <-. by apply Hou.
    - rewrite lookup_insert_ne in Hv by done. by eapply Hc. }
  destruct (bump_lookup c (<[u := ou]> (objs w)) d od) as (k & Hk & _).
  - rewrite lookup_insert_ne by congruence. done.
  - by exists (set_vrefcount k od).
Qed.

Lemma cow_ok_bump w w' c : cow_ok w → objs w' = bump c (objs w) → cow_ok w'.
Proof.
  intros Hc Ho v o d Hv Hd. rewrite Ho in *. apply bump_inv in Hv as (o0 & n & Hv & -> & _).
  destruct (Hc _ _ _ Hv Hd) as (od & Hod & Hn).
  destruct (bump_lookup c (objs w) d od Hod) as (k & Hk & _). by exists (set_vrefcount k od).
Qed.

Lemma like_bump w w' v o n :
  contents w' = contents w →
  like o (set_vrefcount n o) ∧ ∀ off, page_like file_data w w' v o (set_vrefcount n o) off.
Proof.
  intros Hct. split; [done|]. intros off. unfold page_like. simpl.
  destruct (vo_pages o !! off); [|done]. unfold memory. by rewrite Hct.
Qed.

Lemma clone_refs_extend w w' u ou c :
  objs w !! u = None → objs w' = bump c (<[u := ou]> (objs w)) →
  ∀ x, clone_refs w' x = clone_refs w x + clones x ou.
Proof.
  intros Hu Ho x. unfold clone_refs. rewrite Ho, total_bump by done.
  rewrite total_insert_new by done. lia.
Qed.

Lemma slots_fork w w' v o u c :
  objs w !! u = None → objs w' = bump c (<[u := forked v o]> (objs w)) →
  ∀ q, slots w' q = slots w q + count_in q (vo_pages o).
Proof.
  intros Hu Ho q. unfold slots. rewrite Ho, total_bump by done.
  rewrite total_insert_new by done. simpl. lia.
Qed.

(** The new object [u] shows what [v] shows, and shares its pages. *)
Record forks (pins own : Z → Z) (v u : Z) (w w' : world FS) : Prop := Forks {
  forks_inv : inv pins w';
  forks_counted : counted (pin u own) w';
  forks_new : objs w !! u = None;
  forks_view : ∀ off, view w' u off = view w v off;
  forks_others : ∀ x off, x ≠ u → view w' x off = view w x off;
  forks_pages : vo_pages <$> objs w' !! u = vo_pages <$> objs w !! v;
}.

(** A new object [u] with one owner, possibly a copy of [c]. *)
Section extend.
Context (pins own : Z → Z) (w w' : world FS) (u : Z) (ou : vm_object).
Context (Hi : inv pins w) (Hk : counted own w) (Hu : u = next_obj w).
Context (Hc : ∀ c, cow_clone ou = Some c → ∃ oc, objs w !! c = Some oc ∧ cow_clone oc = None).
Context (Hone : vo_refcount ou = 1).
Context (Ho : objs w' = bump (cow_clone ou) (<[u := ou]> (objs w))).

Lemma extend_fresh : objs w !! u = None.
Proof.
  apply eq_None_not_Some. intros Hs. pose proof (inv_next _ _ Hi _ Hs). lia.
Qed.

Lemma extend_not_clone x ox : objs w !! x = Some ox → cow_clone ox ≠ Some u.
Proof.
  intros Hx E. destruct (inv_cow _ _ Hi _ _ _ Hx E) as (oc & Hoc & _).
  pose proof extend_fresh. congruence.
Qed.

Lemma extend_not_self : cow_clone ou ≠ Some u.
Proof. intros E. destruct (Hc _ E) as (oc & Hoc & _). pose proof extend_fresh. congruence. Qed.

Lemma extend_cow_ok : cow_ok w'.
Proof. eapply cow_ok_extend; [exact (inv_cow _ _ Hi)|apply extend_fresh|exact Ho|exact Hc]. Qed.

Lemma extend_new : objs w' !! u = Some ou.
Proof.
  destruct (bump_lookup (cow_clone ou) (<[u := ou]> (objs w)) u ou) as (n & Hn & ->).
  - apply lookup_insert_eq.
  - rewrite bool_decide_false in Hn by exact extend_not_self. rewrite Ho, Hn. by destruct ou.
Qed.

Lemma extend_counted : (∀ x ox, objs w !! x = Some ox → vo_refcount ox + 1 < 2 ^ 64) →
  counted (pin u own) w'.
Proof.
  intros Hb. pose proof extend_fresh as Hf.
  assert (own u = 0) as Hown.
  { pose proof (counted_own _ _ Hk u). destruct (decide (own u = 0)) as [|]; [done|].
    destruct (counted_live _ _ Hk u); [lia|congruence]. }
  split.
  - intros x ox Hx. rewrite (clone_refs_extend w w' u ou _ Hf Ho). rewrite Ho in Hx.
    apply bump_inv in Hx as (o0 & n & Hx & -> & ->). simpl. unfold clones.
    destruct (decide (x = u)) as [->|Hne].
    + rewrite lookup_insert_eq in Hx. injection Hx as <-. rewrite pin_same, Hown.
      rewrite !bool_decide_false by exact extend_not_self. unfold clone_refs.
      rewrite total_zero, Hone; [done|]. intros y oy Hy. unfold clones.
      rewrite bool_decide_false; [done|]. exact (extend_not_clone y oy Hy).
    + rewrite lookup_insert_ne in Hx by done. rewrite pin_ne by done.
      pose proof (counted_refs _ _ Hk _ _ Hx) as Hr. pose proof (Hb _ _ Hx).
      pose proof (total_nonneg (clones x) (objs w) (clones_nonneg x)).
      pose proof (counted_own _ _ Hk x). unfold clone_refs in *.
      destruct (bool_decide (cow_clone ou = Some x)); [|lia]. rewrite u64_small by lia. lia.
  - intros x. pose proof (counted_own _ _ Hk x). unfold pin. pose proof (holds_nonneg x u). lia.
  - intros x Hx. destruct (decide (x = u)) as [->|Hne]; [rewrite extend_new; by eexists|].
    rewrite pin_ne in Hx by done. destruct (counted_live _ _ Hk x Hx) as [ox Hox]. rewrite Ho.
    destruct (bump_lookup (cow_clone ou) (<[u := ou]> (objs w)) x ox) as (n & Hn & _);
      [by rewrite lookup_insert_ne|]. rewrite Hn. by eexists.
Qed.

Lemma extend_next : next_obj w' = u + 1 → ∀ x, is_Some (objs w' !! x) → x < next_obj w'.
Proof.
  intros Hnx x [ox Hx]. rewrite Hnx. rewrite Ho in Hx. apply bump_inv in Hx as (o0 & n & Hx & _ & _).
  destruct (decide (x = u)) as [->|]; [lia|]. rewrite lookup_insert_ne in Hx by done.
  assert (x < next_obj w) by (apply (inv_next _ _ Hi); by exists o0). lia.
Qed.

Lemma extend_others x off : contents w' = contents w → x ≠ u → view w' x off = view w x off.
Proof.
  intros Hct Hx. destruct (objs w !! x) as [ox|] eqn:Hox.
  - apply views_kept; [exact (inv_cow _ _ Hi)|exact extend_cow_ok| |by exists ox].
    intros y oy Hy. destruct (bump_lookup (cow_clone ou) (<[u := ou]> (objs w)) y oy) as (n & Hn & _).
    + rewrite lookup_insert_ne; [done|]. intros <-. pose proof extend_fresh. congruence.
    + exists (set_vrefcount n oy). rewrite Ho. split; [done|]. by apply like_bump.
  - rewrite !view_none; [done|done|]. rewrite Ho. apply bump_None. by rewrite lookup_insert_ne.
Qed.
End extend.

Section fork.
Context (pins own : Z → Z) (w w' : world FS) (v u : Z) (o : vm_object).
Context (Hi : inv pins w) (Hk : counted own w) (Hv : objs w !! v = Some o) (Hu : u = next_obj w).
Context (Hct : contents w' = contents w) (Hnx : next_obj w' = u + 1).
Context (Ho : objs w' = bump (cow_clone o) (<[u := forked v o]> (objs w))).

Lemma fork_clone c : cow_clone (forked v o) = Some c → ∃ oc, objs w !! c = Some oc ∧ cow_clone oc = None.
Proof. exact (inv_cow _ _ Hi v o c Hv). Qed.

Lemma fork_inv : frames_ok (fs w') →
  (∀ q, refs (fs w') q = refs (fs w) q + count_in q (vo_pages o)) → inv pins w'.
Proof.
  intros Hok Href. pose proof (extend_fresh pins w u Hi Hu) as Hf.
  split; [done| |apply Hi| |].
  - intros q. rewrite Href, (inv_refs _ _ Hi), (slots_fork w w' v o u _ Hf Ho). lia.
  - exact (extend_cow_ok pins w w' u _ Hi Hu fork_clone Ho).
  - exact (extend_next pins w w' u _ Hi Hu Ho Hnx).
Qed.

Lemma fork_view off :
  vo_ops o = vmo_phys_ops ∨ cow_clone o ≠ None →
  align_up2 (vo_size o) PAGE_SIZE = vo_size o → view w' u off = view w v off.
Proof.
  intros Hops Hal.
  pose proof (λ x off, extend_others pins w w' u _ Hi Hu fork_clone Ho x off Hct) as Hoth.
  pose proof (extend_not_clone pins w u Hi Hu v o Hv) as Hnc.
  pose proof (extend_cow_ok pins w w' u _ Hi Hu fork_clone Ho) as Hok.
  pose proof (extend_new pins w w' u _ Hi Hu fork_clone eq_refl Ho) as Hnew.
  rewrite (view_eq file_data w' u _ off Hok Hnew).
  rewrite (view_eq file_data w v o off (inv_cow _ _ Hi) Hv). simpl. rewrite Hal.
  case_match; [done|]. destruct (vo_pages o !! off); [unfold memory; by rewrite Hct|].
  unfold expected. simpl. destruct (cow_clone o) as [c|] eqn:Hc;
    [|destruct Hops as [Hops|Hops]; [unfold backing; simpl; by rewrite Hops|done]].
  apply Hoth. congruence.
Qed.
End fork.

Lemma wp_fork pins own w v o (Q : option Z → world FS → Prop) :
  inv pins w → counted own w → objs w !! v = Some o →
  room (Z.of_nat (size (vo_pages o))) w →
  (∀ x ox, objs w !! x = Some ox → vo_refcount ox + 1 < 2 ^ 64) →
  vo_ops o = vmo_phys_ops ∨ cow_clone o ≠ None → align_up2 (vo_size o) PAGE_SIZE = vo_size o →
  vm_size_to_pages (vo_size o) ≠ 0 →
  (∀ pins' w', (∀ q, pins q <= pins' q) → inv pins' w' → same_views w w' → Q None w') →
  (∀ u w', forks pins own v u w w' → Q (Some u) w') →
  wp (vmo_fork v false) Q w.
Proof.
  intros Hi Hk Hv Hr Hb Hops Hal Hsz Q0 Q1.
  apply (wp_fork_state w v o); [done|by eapply extend_fresh|apply Hi| |by rewrite Hal| |exact Hr| |].
  - intros c Hc. destruct (inv_cow _ _ Hi _ _ _ Hv Hc) as (oc & Hoc & _). by exists oc.
  - intros off p Hp. rewrite (inv_refs _ _ Hi). pose proof (slots_pos _ _ _ _ _ Hv Hp).
    pose proof (inv_pins _ _ Hi p). lia.
  - intros w' Hct Hnx Ho Hok Hle.
    assert (∃ c, objs w' = bump c (objs w)) as [c Hc] by (destruct Ho; [by exists None|by eexists]).
    assert (∀ q, slots w' q = slots w q) as Hsl by (intros q; unfold slots; rewrite Hc; by apply total_bump).
    apply (Q0 (λ q, pins q + (refs (fs w') q - refs (fs w) q))).
    + intros q. specialize (Hle q). lia.
    + split; [done| | |by eapply cow_ok_bump; [exact (inv_cow _ _ Hi)|]|].
      * intros q. rewrite Hsl, (inv_refs _ _ Hi q). lia.
      * intros q. specialize (Hle q). pose proof (inv_pins _ _ Hi q). lia.
      * intros x [ox Hx]. rewrite Hc in Hx. apply bump_inv in Hx as (o0 & n & Hx & _).
        assert (x < next_obj w) by (apply (inv_next _ _ Hi); by exists o0). lia.
    + apply same_views_intro; [exact (inv_cow _ _ Hi)|eapply cow_ok_bump; [exact (inv_cow _ _ Hi)|exact Hc]|].
      intros x. rewrite Hc. destruct (objs w !! x) as [ox|] eqn:Hx.
      * destruct (bump_lookup c (objs w) x ox Hx) as (n & -> & _). by apply like_bump.
      * by rewrite (proj2 (bump_None c _ _)).
  - intros w' Hct Hnx Ho Hok Href. apply Q1. split.
    + by eapply fork_inv.
    + exact (extend_counted pins own w w' _ (forked v o) Hi Hk eq_refl (fork_clone pins w v o Hi Hv) eq_refl Ho Hb).
    + by eapply extend_fresh.
    + intros off. by eapply fork_view.
    + intros x off. exact (extend_others pins w w' _ (forked v o) Hi eq_refl (fork_clone pins w v o Hi Hv) Ho x off Hct).
    + rewrite (extend_new pins w w' _ (forked v o) Hi eq_refl (fork_clone pins w v o Hi Hv) eq_refl Ho).
      by rewrite Hv.
Qed.

(** ** Dropping a reference *)

(** All counts at once, on the map of objects alone: [r] are the counts of the pages. *)
Record ledger (r pins own : Z → Z) (m : gmap Z vm_object) : Prop := Ledger {
  ledger_refs : ∀ q, r q = total (λ o, count_in q (vo_pages o)) m + pins q;
  ledger_cow : ∀ v o c, m !! v = Some o → cow_clone o = Some c →
    ∃ oc, m !! c = Some oc ∧ cow_clone oc = None;
  ledger_count : ∀ v o, m !! v = Some o → vo_refcount o = total (clones v) m + own v;
  ledger_own : ∀ v, 0 <= own v;
  ledger_live : ∀ v, 0 < own v → is_Some (m !! v);
}.

(** One reference to [v] less; the last one takes the object away. *)
Definition drop1 (v : Z) (m : gmap Z vm_object) : gmap Z vm_object :=
  match m !! v with
  | Some o =>
      if vo_refcount o =? 1 then delete v m
      else <[v := set_vrefcount (vo_refcount o - 1) o]> m
  | None => m
  end.

Definition when (b : bool) (n : Z) : Z := if b then n else 0.

Lemma clones_self r pins own m v o : ledger r pins own m → m !! v = Some o → clones v o = 0.
Proof.
  intros Hl Hv. unfold clones. case_bool_decide as E; [|done].
  destruct (ledger_cow _ _ _ _ Hl _ _ _ Hv E) as (oc & Hoc & Hn). congruence.
Qed.

(** Nobody is a copy of an object whose only reference is its owner's. *)
Lemma last_not_cloned r pins own m v o :
  ledger r pins own m → m !! v = Some o → 1 <= own v → vo_refcount o = 1 →
  own v = 1 ∧ ∀ x ox, m !! x = Some ox → cow_clone ox ≠ Some v.
Proof.
  intros Hl Hv Hown Hone. pose proof (ledger_count _ _ _ _ Hl _ _ Hv) as Hc.
  pose proof (total_nonneg (clones v) m (clones_nonneg v)). split; [lia|].
  intros x ox Hx E. pose proof (total_ge _ _ _ _ (clones_nonneg v) Hx) as Hge.
  unfold clones at 1 in Hge. rewrite bool_decide_true in Hge by done. lia.
Qed.

Lemma drop_last r pins own m v o :
  ledger r pins own m → m !! v = Some o → 1 <= own v → vo_refcount o = 1 →
  ledger (λ q, r q - count_in q (vo_pages o)) pins (λ x, unpin v own x + clones x o) (delete v m).
Proof.
  intros Hl Hv Hown Hone. destruct (last_not_cloned _ _ _ _ _ _ Hl Hv Hown Hone) as [Ho1 Hno].
  pose proof (clones_self _ _ _ _ _ _ Hl Hv) as Hself. split.
  - intros q. rewrite (ledger_refs _ _ _ _ Hl q), (total_delete _ _ _ _ Hv). lia.
  - intros x ox c [Hne Hx]%lookup_delete_Some Hc.
    destruct (ledger_cow _ _ _ _ Hl _ _ _ Hx Hc) as (oc & Hoc & Hn). exists oc.
    rewrite lookup_delete_ne; [done|]. intros <-. exact (Hno _ _ Hx Hc).
  - intros x ox [Hne Hx]%lookup_delete_Some. rewrite unpin_ne by congruence.
    rewrite (ledger_count _ _ _ _ Hl _ _ Hx), (total_delete _ _ _ _ Hv). lia.
  - intros x. pose proof (ledger_own _ _ _ _ Hl x). pose proof (clones_nonneg x o).
    destruct (decide (x = v)) as [->|]; [rewrite unpin_same|rewrite unpin_ne by done]; lia.
  - intros x Hx. destruct (decide (x = v)) as [->|]; [rewrite unpin_same in Hx; lia|].
    rewrite unpin_ne in Hx by done. rewrite lookup_delete_ne by done. unfold clones in Hx.
    case_bool_decide as E; [|apply (ledger_live _ _ _ _ Hl); lia].
    destruct (ledger_cow _ _ _ _ Hl _ _ _ Hv E) as (oc & Hoc & _). by exists oc.
Qed.

Lemma drop_one r pins own m v o n :
  ledger r pins own m → m !! v = Some o → 1 <= own v → n = vo_refcount o - 1 →
  ledger r pins (unpin v own) (<[v := set_vrefcount n o]> m).
Proof.
  intros Hl Hv Hown ->.
  assert (∀ x, total (clones x) (<[v := set_vrefcount (vo_refcount o - 1) o]> m) = total (clones x) m) as Ht.
  { intros x. rewrite (total_insert _ _ _ _ _ Hv). unfold clones. simpl. lia. }
  split.
  - intros q. rewrite (ledger_refs _ _ _ _ Hl q), (total_insert _ _ _ _ _ Hv). simpl. lia.
  - intros x ox c Hx Hc.
    assert (∃ ox', m !! x = Some ox' ∧ cow_clone ox' = Some c) as (ox' & Hx' & Hc').
    { apply lookup_insert_Some in Hx as [[<- <-]|[_ Hx]]; [by exists o|by exists ox]. }
    destruct (ledger_cow _ _ _ _ Hl _ _ _ Hx' Hc') as (oc & Hoc & Hn).
    destruct (decide (c = v)) as [->|]; [|exists oc; by rewrite lookup_insert_ne].
    rewrite lookup_insert_eq. eexists. split; [done|]. simpl. congruence.
  - intros x ox Hx. rewrite Ht. apply lookup_insert_Some in Hx as [[<- <-]|[Hne Hx]].
    + rewrite unpin_same. simpl. rewrite (ledger_count _ _ _ _ Hl _ _ Hv). lia.
    + rewrite unpin_ne by done. by apply (ledger_count _ _ _ _ Hl).
  - intros x. pose proof (ledger_own _ _ _ _ Hl x).
    destruct (decide (x = v)) as [->|]; [rewrite unpin_same|rewrite unpin_ne by done]; lia.
  - intros x Hx. destruct (decide (x = v)) as [->|]; [rewrite lookup_insert_eq; by eexists|].
    rewrite unpin_ne in Hx by done. rewrite lookup_insert_ne by done. by apply (ledger_live _ _ _ _ Hl).
Qed.

Definition tally (q : Z) (l : list Z) : Z := foldr (λ p n, holds_page q p + n) 0 l.

Lemma page_tally_nonneg q l : 0 <= tally q l.
Proof. induction l as [|p l IH]; simpl; [done|]. pose proof (holds_nonneg q p). lia. Qed.

Lemma tally_pages q (m : gmap Z Z) : tally q (map_to_list m).*2 = count_in q m.
Proof.
  unfold count_in, total. rewrite map_fold_foldr. unfold tally.
  induction (map_to_list m) as [|[k p] l IH]; simpl; [done|]. f_equal. exact IH.
Qed.

Lemma wp_free_pages_of l : ∀ w (Q : unit → world FS → Prop),
  frames_ok (fs w) → (∀ q, tally q l <= refs (fs w) q) → room 1 w →
  (∀ f, frames_ok f → (∀ q, refs f q = refs (fs w) q - tally q l) → Q tt (set_fs f w)) →
  wp (free_pages_of l) Q w.
Proof.
  induction l as [|p l IH]; intros w Q Hok Hle Hr HQ; cbn [free_pages_of].
  { apply wp_ret. destruct w as [f c o n om]. apply (HQ f); [done|]. intros q. simpl. lia. }
  wp_step. unfold free_page. apply wp_in_fs. pose proof (Hle p) as Hp. simpl in Hp.
  rewrite holds_same in Hp. pose proof (page_tally_nonneg p l). pose proof (Hr p).
  eapply wp_mono; [apply frame_free_ok; [done|lia|done]|]. intros [] f (Hfok & Hfp & Hfq).
  assert (∀ q, refs f q = refs (fs w) q - holds_page q p) as Hf.
  { intros q. destruct (decide (q = p)) as [->|]; [rewrite holds_same; lia|].
    rewrite holds_ne, Hfq by done. lia. }
  apply IH; simpl; [done| | |].
  - intros q. rewrite Hf. specialize (Hle q). simpl in Hle. lia.
  - intros q. simpl. rewrite Hf. pose proof (Hr q). pose proof (holds_nonneg q p). lia.
  - intros f' Hok' Hf'. apply (HQ f'); [done|]. intros q. rewrite Hf', Hf. simpl. lia.
Qed.

Lemma when_le b n : 0 <= n → when b n <= n.
Proof. destruct b; simpl; lia. Qed.

(** The state after dropping a reference, when no object behind is involved. *)
Lemma wp_unref_plain fuel w c oc (Q : bool → world FS → Prop) :
  objs w !! c = Some oc → (vo_refcount oc = 1 → cow_clone oc = None) → 1 <= vo_refcount oc < 2 ^ 64 →
  frames_ok (fs w) → (∀ q, count_in q (vo_pages oc) <= refs (fs w) q) → room 1 w →
  (∀ f, frames_ok f →
    (∀ q, refs f q = refs (fs w) q - when (vo_refcount oc =? 1) (count_in q (vo_pages oc))) →
    Q (vo_refcount oc =? 1) (set_objs (drop1 c (objs w)) (set_fs f w))) →
  wp (vmo_unref (S fuel) c) Q w.
Proof.
  intros Hc Hn Hb Hok Hle Hr HQ. cbn [vmo_unref]. wp_step. eapply wp_upd_obj; [done|].
  rewrite u64_small by lia. wp_step. eapply wp_get_obj; [apply lookup_insert_eq|]. simpl.
  unfold drop1, when in HQ. rewrite Hc in HQ.
  destruct (Z.eqb_spec (vo_refcount oc) 1) as [E|E].
  - rewrite E. change (1 - 1 =? 0) with true. cbn iota. rewrite (Hn E). do 3 wp_step.
    apply wp_free_pages_of; simpl; [done| |done|].
    + intros q. by rewrite tally_pages.
    + intros f Hfok Hf. do 2 wp_step. simpl. rewrite delete_insert_eq. apply (HQ f); [done|].
      intros q. by rewrite Hf, tally_pages.
  - rewrite (proj2 (Z.eqb_neq _ _)) by lia. wp_step.
    destruct w as [f ct ob nx om]. apply (HQ f); [done|]. intros q. simpl. lia.
Qed.

Lemma to_ledger pins own w : inv pins w → counted own w → ledger (refs (fs w)) pins own (objs w).
Proof. intros [] []. by split. Qed.

(** References and objects go, nothing else changes. *)
Definition fewer (w w' : world FS) : Prop :=
  (∀ q, refs (fs w') q <= refs (fs w) q) ∧ next_obj w' = next_obj w ∧
  (∀ x ox, objs w' !! x = Some ox →
    ∃ o n, objs w !! x = Some o ∧ ox = set_vrefcount n o ∧ n <= vo_refcount o).

(** Some references fewer, some objects fewer: the rest looks as before. *)
Definition settled (pins own : Z → Z) (w w' : world FS) : Prop :=
  inv pins w' ∧ counted own w' ∧ fewer w w' ∧
  ∀ x off, is_Some (objs w' !! x) → view w' x off = view w x off.

Lemma settle pins own r m f w :
  inv pins w → ledger r pins own m → frames_ok f → (∀ q, refs f q = r q) →
  (∀ q, r q <= refs (fs w) q) →
  (∀ x ox, m !! x = Some ox →
    ∃ o n, objs w !! x = Some o ∧ ox = set_vrefcount n o ∧ n <= vo_refcount o) →
  settled pins own w (set_objs m (set_fs f w)).
Proof.
  intros Hi [L1 L2 L3 L4 L5] Hok Hr Hle Hm.
  assert (inv pins (set_objs m (set_fs f w))) as Hi'.
  { split; simpl; [done| |apply Hi|exact L2|].
    - intros q. by rewrite Hr, L1.
    - intros x [ox Hx]. destruct (Hm _ _ Hx) as (o & n & Ho & _). apply (inv_next _ _ Hi). by exists o. }
  split; [done|split; [by split|split]].
  { split; [|by split]. intros q. simpl. by rewrite Hr. }
  intros x off Hx. symmetry.
  apply views_kept; [exact (inv_cow _ _ Hi')|exact (inv_cow _ _ Hi)| |done].
  intros y oy Hy. destruct (Hm _ _ Hy) as (o & n & Ho & -> & _). exists o. split; [done|]. split; [done|].
  intros z. unfold page_like. simpl. by destruct (vo_pages o !! z).
Qed.

Lemma delete_drop1 v c x m : c ≠ v → delete v (drop1 c (<[v := x]> m)) = drop1 c (delete v m).
Proof.
  intros Hne. unfold drop1. rewrite lookup_insert_ne, lookup_delete_ne by done.
  destruct (m !! c) as [oc|]; [|apply delete_insert_eq]. case_match.
  - by rewrite delete_delete, delete_insert_eq.
  - by rewrite delete_insert_ne, delete_insert_eq by done.
Qed.

Lemma drop1_sub v m x ox :
  drop1 v m !! x = Some ox →
  ∃ o n, m !! x = Some o ∧ ox = set_vrefcount n o ∧ n <= vo_refcount o.
Proof.
  assert (∀ o : vm_object, m !! x = Some o →
    ∃ o' n, m !! x = Some o' ∧ o = set_vrefcount n o' ∧ n <= vo_refcount o') as Hself.
  { intros o Ho. exists o, (vo_refcount o). split_and!; [done|by destruct o|done]. }
  unfold drop1. destruct (m !! v) as [o|] eqn:Hv; [case_match|]; intros Hx.
  - apply lookup_delete_Some in Hx as [_ Hx]. by apply Hself.
  - apply lookup_insert_Some in Hx as [[<- <-]|[_ Hx]]; [|by apply Hself].
    exists o, (vo_refcount o - 1). split_and!; [done|done|lia].
  - by apply Hself.
Qed.

(** The two cases of [drop1] in one. *)
Lemma drop_ledger r pins own m v o :
  ledger r pins own m → m !! v = Some o → 1 <= own v →
  ledger (λ q, r q - when (vo_refcount o =? 1) (count_in q (vo_pages o))) pins
    (λ x, unpin v own x + when (vo_refcount o =? 1) (clones x o)) (drop1 v m).
Proof.
  intros Hl Hv Hown. unfold drop1, when. rewrite Hv. destruct (Z.eqb_spec (vo_refcount o) 1).
  - by apply drop_last.
  - destruct (drop_one r pins own m v o _ Hl Hv Hown eq_refl) as [L1 L2 L3 L4 L5].
    split; intros; rewrite ?Z.sub_0_r, ?Z.add_0_r in *; eauto.
Qed.

Lemma ledger_ext r pins own own' m :
  (∀ x, own x = own' x) → ledger r pins own m → ledger r pins own' m.
Proof.
  intros E [L1 L2 L3 L4 L5]. split; try done; intros *; rewrite <- E; auto.
Qed.

Lemma ledger_pages r pins own m v o q :
  ledger r pins own m → (∀ q, 0 <= pins q) → m !! v = Some o → count_in q (vo_pages o) <= r q.
Proof.
  intros Hl Hp Hv. rewrite (ledger_refs _ _ _ _ Hl).
  pose proof (total_ge (λ o, count_in q (vo_pages o)) _ _ _ (λ o, count_nonneg q _) Hv).
  pose proof (Hp q). simpl in *. lia.
Qed.

(** The last reference to a copy of [c] goes: first [c] loses a reference, then the
    pages and the object itself go. *)
Lemma wp_unref_copy w v o c oc (Q : bool → world FS → Prop) :
  objs w !! v = Some o → vo_refcount o = 1 → cow_clone o = Some c → c ≠ v →
  objs w !! c = Some oc → cow_clone oc = None → 1 <= vo_refcount oc < 2 ^ 64 →
  frames_ok (fs w) → room 1 w →
  (∀ q, count_in q (vo_pages o) + count_in q (vo_pages oc) <= refs (fs w) q) →
  (∀ f, frames_ok f →
    (∀ q, refs f q = refs (fs w) q - count_in q (vo_pages o) -
       when (vo_refcount oc =? 1) (count_in q (vo_pages oc))) →
    Q true (set_objs (drop1 c (delete v (objs w))) (set_fs f w))) →
  wp (vmo_unref 2 v) Q w.
Proof.
  intros Hv Hone Hc Hne Hoc Hn Hb Hok Hr Hle HQ. remember 1%nat as fuel eqn:Hfuel.
  cbn [vmo_unref]. wp_step. eapply wp_upd_obj; [done|]. rewrite Hone, u64_small by lia.
  wp_step. eapply wp_get_obj; [apply lookup_insert_eq|]. cbn [vo_refcount set_vrefcount].
  change (1 - 1 =? 0) with true. cbn iota. cbn [cow_clone set_vrefcount]. rewrite Hc, Hfuel.
  do 2 wp_step. apply (wp_unref_plain 0 _ c oc); simpl; [by rewrite lookup_insert_ne|done|done|done| |exact Hr|].
  { intros q. pose proof (Hle q). pose proof (count_nonneg q (vo_pages o)). lia. }
  intros f Hfok Hf. do 2 wp_step.
  apply wp_free_pages_of; simpl; [done| | |].
  - intros q. rewrite tally_pages, Hf. pose proof (Hle q).
    pose proof (when_le (vo_refcount oc =? 1) (count_in q (vo_pages oc)) (count_nonneg q _)). lia.
  - intros q. simpl. rewrite Hf. pose proof (Hr q). unfold when. case_match; pose proof (count_nonneg q (vo_pages oc)); lia.
  - intros f' Hok' Hf'. do 2 wp_step. simpl. rewrite delete_drop1 by done. apply (HQ f'); [done|].
    intros q. rewrite Hf', Hf, tally_pages. lia.
Qed.

Lemma refcount_pos own w x ox :
  counted own w → objs w !! x = Some ox →
  0 < own x ∨ (∃ y oy, objs w !! y = Some oy ∧ cow_clone oy = Some x) → 1 <= vo_refcount ox.
Proof.
  intros Hk Hx Hw. rewrite (counted_refs _ _ Hk _ _ Hx). pose proof (counted_own _ _ Hk x).
  pose proof (total_nonneg (clones x) (objs w) (clones_nonneg x)). unfold clone_refs.
  destruct Hw as [|(y & oy & Hy & E)]; [lia|].
  pose proof (total_ge _ _ _ _ (clones_nonneg x) Hy) as Hge. unfold clones at 1 in Hge.
  rewrite bool_decide_true in Hge by done. lia.
Qed.

Lemma clones_none x o : cow_clone o = None → clones x o = 0.
Proof. intros E. unfold clones. by rewrite bool_decide_false by congruence. Qed.

Lemma drop1_gone v m o : m !! v = Some o → drop1 v m !! v = None ↔ vo_refcount o = 1.
Proof.
  intros Hv. unfold drop1. rewrite Hv. destruct (Z.eqb_spec (vo_refcount o) 1).
  - by rewrite lookup_delete_eq.
  - rewrite lookup_insert_eq. done.
Qed.

Section unref.
Context (pins own : Z → Z) (w : world FS) (v : Z) (o : vm_object).
Context (Hi : inv pins w) (Hk : counted own w) (Hv : objs w !! v = Some o) (Hown : 1 <= own v).
Context (Hr : room 1 w) (Hb : ∀ x ox, objs w !! x = Some ox → vo_refcount ox < 2 ^ 64).
Context (Q : bool → world FS → Prop).
Context (HQ : ∀ w', settled pins (unpin v own) w w' →
  (objs w' !! v = None ↔ vo_refcount o = 1) → Q (vo_refcount o =? 1) w').

Lemma wp_unref_simple fuel : (vo_refcount o = 1 → cow_clone o = None) → wp (vmo_unref (S fuel) v) Q w.
Proof.
  intros Hc. pose proof (to_ledger _ _ _ Hi Hk) as Hl.
  assert (1 <= vo_refcount o) by (eapply refcount_pos; [done|done|left; lia]).
  eapply wp_unref_plain; [exact Hv|exact Hc|split; [done|by eapply Hb]|apply Hi| |exact Hr|].
  { intros q. eapply ledger_pages; [exact Hl|apply Hi|exact Hv]. }
  intros f Hok Hf. apply HQ; [|simpl; by apply drop1_gone].
  eapply settle; [exact Hi| |done|exact Hf| |apply drop1_sub].
  2: { intros q. unfold when. case_match; pose proof (count_nonneg q (vo_pages o)); lia. }
  eapply ledger_ext; [|by apply drop_ledger]. intros x. cbn beta. unfold when.
  destruct (Z.eqb_spec (vo_refcount o) 1); [rewrite clones_none by auto|]; lia.
Qed.

Lemma wp_unref_last c : vo_refcount o = 1 → cow_clone o = Some c → wp (vmo_unref 2 v) Q w.
Proof.
  intros Hone Hc. pose proof (to_ledger _ _ _ Hi Hk) as Hl.
  destruct (inv_cow _ _ Hi _ _ _ Hv Hc) as (oc & Hoc & Hn). assert (c ≠ v) as Hne by congruence.
  assert (1 <= vo_refcount oc) by (eapply refcount_pos; [done|done|right; by exists v, o]).
  assert (clones c o = 1) as Hcl by (unfold clones; by rewrite bool_decide_true).
  pose proof (drop_last _ _ _ _ _ _ Hl Hv Hown Hone) as Hd.
  assert (delete v (objs w) !! c = Some oc) as Hoc' by by rewrite lookup_delete_ne.
  pose proof (counted_own _ _ Hk c).
  assert (ledger (λ q, refs (fs w) q - count_in q (vo_pages o) -
      when (vo_refcount oc =? 1) (count_in q (vo_pages oc))) pins (unpin v own)
      (drop1 c (delete v (objs w)))) as Hd'.
  { eapply ledger_ext; [|eapply drop_ledger; [exact Hd|done|cbn beta; rewrite unpin_ne by done; lia]].
    intros x. cbn beta. rewrite (clones_none x oc) by done. unfold unpin, clones, holds_page, when.
    rewrite Hc. destruct (Z.eqb_spec c x) as [->|].
    - rewrite bool_decide_true by done. repeat case_match; lia.
    - rewrite bool_decide_false by congruence. repeat case_match; lia. }
  eapply wp_unref_copy; try done; [split; [done|by eapply Hb]|apply Hi| |].
  { intros q. pose proof (ledger_pages _ _ _ _ _ _ q Hd (inv_pins _ _ Hi) Hoc'). simpl in *. lia. }
  intros f Hok Hf. rewrite Hone in HQ. apply HQ.
  - eapply settle; [exact Hi|exact Hd'|done|exact Hf| |].
    { intros q. pose proof (count_nonneg q (vo_pages o)). unfold when.
      case_match; pose proof (count_nonneg q (vo_pages oc)); lia. }
    intros x ox Hx. apply drop1_sub in Hx as (o0 & n & [_ Hx]%lookup_delete_Some & -> & Hle).
    by exists o0, n.
  - split; [done|]. intros _. simpl. unfold drop1. rewrite Hoc'. case_match.
    + rewrite lookup_delete_ne by done. apply lookup_delete_eq.
    + rewrite lookup_insert_ne by done. apply lookup_delete_eq.
Qed.

(** [vmo_unref]: the counts stay exact, and what is left shows what it showed. *)
Lemma wp_unref : wp (vmo_unref 2 v) Q w.
Proof.
  destruct (decide (vo_refcount o = 1)) as [Hone|]; [|by apply (wp_unref_simple 1)].
  destruct (cow_clone o) as [c|] eqn:Hc; [by eapply wp_unref_last|by apply (wp_unref_simple 1)].
Qed.
End unref.
End life.
