(* ===== verification/VmObjectPurge.v ===== *)
(** * VmObjectPurge: removing pages from VM objects, and truncation. *)

From stdpp Require Import sorting.
From S2P Require Import Prelude Bits Abi PageAlloc Frames VmObject VmObjectFacts VmObjectOps VmObjectLife.

Section purge.
Context {FS : Type} `{FramesLaws FS}.
Context (free_other : Z → Z → M (world FS) unit).
Implicit Types (w : world FS) (pins : Z → Z) (o : vm_object).

(** The pages that purging with [flags] removes, and the map that is left. *)
Definition purged (flags lower upper off : Z) : bool :=
  (if has flags PURGE_EXCLUDE then is_excluded else is_included) lower upper off.

Definition keep (P : Z → bool) (m : gmap Z Z) : gmap Z Z := filter (λ '(off, _), P off = false) m.

Lemma lookup_keep P m off : keep P m !! off = if P off then None else m !! off.
Proof.
  unfold keep. destruct (P off) eqn:E; destruct (m !! off) as [p|] eqn:Hm.
  - apply map_lookup_filter_None. right. intros x _. by rewrite E.
  - apply map_lookup_filter_None. by left.
  - by apply map_lookup_filter_Some.
  - apply map_lookup_filter_None. by left.
Qed.

(** The pages of the object are freed by [free_page]. *)
Definition frees_pages (o : vm_object) : Prop :=
  vo_ops o = vmo_phys_ops ∨ vo_ops o = vm_private_file_map_ops.

(** Freeing a page through the operations of the object gives one reference back and
    touches nothing else. *)
Definition releases (ops : vm_object_ops) (v : Z) : Prop :=
  ∀ pins w p n o (Q : unit → world FS → Prop),
    vo_ops o = ops → inv pins w → 1 <= pins p → room n w → 1 <= n →
    (∀ w', inv (unpin p pins) w' → room n w' → objs w' = objs w → contents w' = contents w →
      next_obj w' = next_obj w → Q tt w') →
    wp (ops_free_page free_other o v p) Q w.

Lemma frees_releases o v : frees_pages o → releases (vo_ops o) v.
Proof.
  intros Hf pins w p n o' Q Ho Hi Hp Hr Hn HQ.
  assert (ops_free_page free_other o' v p = free_page p) as ->.
  { unfold ops_free_page. rewrite Ho. by destruct Hf as [-> | ->]. }
  eapply wp_free_frame; [exact Hi|exact Hp|exact Hr|exact Hn|]. intros f Hi' Hr'. by apply HQ.
Qed.

(** What this relies on for file systems. *)
Definition drops : Prop := ∀ v, releases other_ops v.

Lemma drops_releases ops v : drops → ops ≠ no_ops → releases ops v.
Proof.
  intros Hd Hne. destruct ops as [| | |] eqn:E; [done| | |apply Hd].
  - exact (frees_releases (VmObject VMO_ANON 0 0 ∅ 0 vmo_phys_ops [] None None 0 None) v (or_introl eq_refl)).
  - exact (frees_releases (VmObject VMO_ANON 0 0 ∅ 0 vm_private_file_map_ops [] None None 0 None) v (or_intror eq_refl)).
Qed.

(** Only the pages of [v] differ: they are [m] now. *)
Definition repaged (v : Z) (o : vm_object) (m : gmap Z Z) (w w' : world FS) : Prop :=
  objs w' = <[v := set_vpages m o]> (objs w) ∧ contents w' = contents w ∧ next_obj w' = next_obj w.

Lemma wp_purge_loop l : ∀ pins w v o n lower upper flags (Q : unit → world FS → Prop),
  inv pins w → room n w → 1 <= n → objs w !! v = Some o → releases (vo_ops o) v →
  has flags PURGE_SHOULD_FREE = true → NoDup l → (∀ off, off ∈ l → is_Some (vo_pages o !! off)) →
  (∀ w', inv pins w' → room n w' →
    repaged v o (keep (λ off, bool_decide (off ∈ l) && purged flags lower upper off) (vo_pages o)) w w' →
    Q tt w') →
  wp (purge_loop free_other l lower upper flags None v) Q w.
Proof.
  induction l as [|off l IH]; intros pins w v o n lower upper flags Q Hi Hr Hn Hv Hops Hfl Hnd Hl HQ;
    cbn [purge_loop].
  { apply wp_ret, HQ; [done|done|]. split; [|done].
    rewrite insert_id; [done|]. rewrite Hv. f_equal. destruct o as [ty sz fl pg pr op mp cw ino rc ff].
    unfold set_vpages. simpl. f_equal. apply map_eq. intros x. by rewrite lookup_keep. }
  destruct (Hl off) as [p Hp]; [left|]. apply list.NoDup_cons in Hnd as [Hni Hnd].
  wp_step. eapply wp_get_obj; [done|]. wp_step. eapply wp_from_opt; [exact Hp|].
  fold (purged flags lower upper off). rewrite Hfl. destruct (purged flags lower upper off) eqn:Epur.
  - do 2 wp_step. eapply wp_upd_obj; [done|]. wp_step.
    set (w1 := set_objs _ w). set (o1 := set_vpages (delete off (vo_pages o)) o).
    assert (inv (pin p pins) w1) as Hi1.
    { eapply (inv_update pins _ w w1 v o o1); try done.
      - intros q. simpl. unfold pin, count_in. rewrite (total_delete _ _ _ _ Hp). lia.
      - intros q. unfold pin. pose proof (inv_pins _ _ Hi q). pose proof (holds_nonneg q p). lia. }
    eapply (Hops _ _ _ n); [done|exact Hi1|rewrite pin_same; pose proof (inv_pins _ _ Hi p); lia|exact Hr|done|].
    intros w2 Hi2 Hr2 Ho2 Hc2 Hn2. wp_step.
    eapply (IH pins _ v o1 n); [|exact Hr2|done|rewrite Ho2; apply lookup_insert_eq|exact Hops|done|done| |].
    + eapply inv_ext; [|exact Hi2]. apply unpin_pin.
    + intros x Hx. simpl. rewrite lookup_delete_ne by (intros ->; done). apply Hl. by right.
    + intros w3 Hi3 Hr3 (Ho3 & Hc3 & Hn3). apply HQ; [done|done|]. split; [|by rewrite Hc3, Hn3].
      rewrite Ho3, Ho2. simpl. rewrite insert_insert_eq. f_equal. unfold o1, set_vpages. simpl. f_equal.
      apply map_eq. intros x. rewrite !lookup_keep. destruct (decide (x = off)) as [->|Hne].
      * rewrite (bool_decide_true (off ∈ off :: l)) by left. rewrite Epur, lookup_delete_eq. simpl.
        by case_match.
      * rewrite lookup_delete_ne by done. rewrite (bool_decide_ext (x ∈ off :: l) (x ∈ l)); [done|]. set_solver.
  - wp_step. apply wp_ret. eapply (IH pins w v o n); try done; [intros x Hx; apply Hl; by right|].
    intros w3 Hi3 Hr3 (Ho3 & Hc3 & Hn3). apply HQ; [done|done|]. split; [|done]. rewrite Ho3.
    do 2 f_equal. apply map_eq. intros x. rewrite !lookup_keep. destruct (decide (x = off)) as [->|Hne].
    + by rewrite Epur, !andb_false_r.
    + rewrite (bool_decide_ext (x ∈ off :: l) (x ∈ l)); [done|]. set_solver.
Qed.

Lemma wp_purge pins w v o n lower upper flags (Q : Z → world FS → Prop) :
  inv pins w → room n w → 1 <= n → objs w !! v = Some o → releases (vo_ops o) v →
  has flags PURGE_SHOULD_FREE = true →
  (∀ w', inv pins w' → room n w' → repaged v o (keep (purged flags lower upper) (vo_pages o)) w w' →
    Q 0 w') →
  wp (vmo_purge_pages free_other lower upper flags None v) Q w.
Proof.
  intros Hi Hr Hn Hv Hops Hfl HQ. unfold vmo_purge_pages. wp_step. apply wp_check; [by rewrite andb_false_r|].
  wp_step. eapply wp_get_obj; [done|]. wp_step.
  eapply wp_purge_loop; [exact Hi|exact Hr|exact Hn|exact Hv|done|done|apply NoDup_offsets| |].
  { intros off. by rewrite elem_of_offsets. }
  intros w' Hi' Hr' (Ho & Hc & Hx). wp_step. apply HQ; [done|done|]. split; [|done]. rewrite Ho.
  do 2 f_equal. apply map_eq. intros x. rewrite !lookup_keep. destruct (vo_pages o !! x) eqn:E.
  - rewrite bool_decide_true; [done|]. apply elem_of_offsets. by eexists.
  - by destruct (_ && _), (purged _ _ _ _).
Qed.

(** ** Truncation *)

Definition page_of (x : Z) : Z := x - x mod PAGE_SIZE.

Lemma align_down2_page x : 0 <= x < 2 ^ 64 → align_down2 x PAGE_SIZE = page_of x.
Proof.
  intros Hx. unfold align_down2, page_of, PAGE_SIZE.
  change (u64 (Z.lnot (4096 - 1))) with (2 ^ 64 - 4096). by apply land_page_mask.
Qed.

Lemma align_up2_page x : 0 <= x → x + 4095 < 2 ^ 64 → align_up2 x PAGE_SIZE = page_of (x + 4095).
Proof.
  intros Hx Hb. unfold align_up2, page_of, PAGE_SIZE. rewrite u64_small by lia.
  change (u64 (-4096)) with (2 ^ 64 - 4096). apply land_page_mask. lia.
Qed.

Lemma page_of_spec x : page_of x <= x < page_of x + 4096 ∧ page_of x mod 4096 = 0.
Proof.
  unfold page_of, PAGE_SIZE. pose proof (Z.mod_pos_bound x 4096). split; [lia|].
  rewrite Zminus_mod_idemp_r, Z.sub_diag. done.
Qed.

(** The pages of an object lie within it, at multiples of the page size, and no page
    is there twice. *)
Definition tidy (o : vm_object) : Prop :=
  (∀ off p, vo_pages o !! off = Some p → 0 <= off < vo_size o ∧ off mod PAGE_SIZE = 0) ∧
  (∀ off off' p, vo_pages o !! off = Some p → vo_pages o !! off' = Some p → off = off').

(** The object after truncation to [n] bytes. *)
Definition truncated (n : Z) (o : vm_object) : vm_object :=
  set_vsize (page_of (n + 4095)) (set_vpages (keep (λ off, page_of (n + 4095) <=? off) (vo_pages o)) o).

(** Every byte of the page at [off] from byte [n] of the object on is zero. *)
Definition cleared (n off : Z) (m : gmap Z Z) : gmap Z Z := filter (λ '(i, _), off + i < n) m.

(** The contents of the pages after truncation to [n] bytes. *)
Definition clears (n : Z) (o : vm_object) (w w' : world FS) : Prop :=
  ∀ p, memory w' p = match vo_pages (truncated n o) !! page_of n with
                     | Some q => if decide (p = q) then cleared n (page_of n) (memory w p) else memory w p
                     | None => memory w p
                     end.

(** A page has [PAGE_SIZE] bytes. *)
Definition sized (w : world FS) : Prop := ∀ p i, is_Some (memory w p !! i) → 0 <= i < PAGE_SIZE.

Lemma page_up n : page_of (n + 4095) = if n mod 4096 =? 0 then n else page_of n + 4096.
Proof.
  unfold page_of, PAGE_SIZE. pose proof (Z.mod_pos_bound n 4096). pose proof (Z.div_mod n 4096).
  destruct (Z.eqb_spec (n mod 4096) 0) as [E|E].
  - rewrite <- (Z.mod_unique_pos (n + 4095) 4096 (n / 4096) 4095); lia.
  - rewrite <- (Z.mod_unique_pos (n + 4095) 4096 (n / 4096 + 1) (n mod 4096 - 1)); lia.
Qed.

(** Zeroing the rest of the last page. *)
Lemma clear_tail n sz m : 0 <= n → n + 4095 < 2 ^ 64 → sz = page_of (n + 4095) → page_of n < sz →
  (∀ i, is_Some (m !! i) → 0 <= i < PAGE_SIZE) →
  filter (λ '(i, _), ¬ (Z.land n (PAGE_SIZE - 1) <= i < Z.land n (PAGE_SIZE - 1) + u64 (sz - n))) m =
  cleared n (page_of n) (m : gmap Z Z).
Proof.
  intros Hn Hb -> Hlt Hm. rewrite page_up in *. change (PAGE_SIZE - 1) with 4095. rewrite land_low_page.
  unfold page_of, PAGE_SIZE in *. pose proof (Z.mod_pos_bound n 4096).
  destruct (Z.eqb_spec (n mod 4096) 0) as [E|E]; [lia|]. rewrite u64_small by lia.
  apply map_filter_ext. intros i x Hx. assert (0 <= i < 4096) by (apply Hm; by exists x). lia.
Qed.

Lemma wp_truncate_tail pins w w1 v o n (Q : Z → world FS → Prop) :
  inv pins w1 → objs w !! v = Some o → sized w → 0 <= n → n + 4095 < 2 ^ 64 →
  repaged v o (vo_pages (truncated n o)) w w1 →
  (∀ w', inv pins w' → objs w' = <[v := truncated n o]> (objs w) → clears n o w w' → Q 0 w') →
  wp (o ← get_obj v;
      match vo_pages o !! align_down2 n PAGE_SIZE with
      | Some last_page =>
          modify (λ w, set_contents (<[last_page :=
            filter (λ '(i, _), ¬ (Z.land n (PAGE_SIZE - 1) <= i <
                                  Z.land n (PAGE_SIZE - 1) + u64 (page_of (n + 4095) - n)))
              (memory w last_page)]> (contents w)) w)
      | None => mret tt
      end;;
      upd_obj v (set_vsize (page_of (n + 4095)));; mret 0) Q w1.
Proof.
  intros Hi Hv Hsz Hn Hb (Ho & Hc & Hx) HQ.
  assert (objs w1 !! v = Some (set_vpages (vo_pages (truncated n o)) o)) as Hv1.
  { rewrite Ho. apply lookup_insert_eq. }
  assert (∀ p, memory w1 p = memory w p) as Hm by (intros p; unfold memory; by rewrite Hc).
  assert (∀ w2, fs w2 = fs w1 → objs w2 = objs w1 → next_obj w2 = next_obj w1 → clears n o w w2 →
    wp (upd_obj v (set_vsize (page_of (n + 4095)));; mret 0) Q w2) as Hend.
  { intros w2 F2 O2 N2 Hcl. wp_step. eapply wp_upd_obj; [by rewrite O2|]. wp_step. apply HQ.
    - eapply (inv_update pins pins w1 _ v _ (truncated n o)); [exact Hi|exact Hv1|simpl; by rewrite O2|done|done|done| |apply Hi].
      intros q. simpl. lia.
    - simpl. by rewrite O2, Ho, insert_insert_eq.
    - done. }
  wp_step. eapply wp_get_obj; [exact Hv1|]. rewrite align_down2_page by lia.
  change (vo_pages (set_vpages (vo_pages (truncated n o)) o)) with (vo_pages (truncated n o)).
  wp_step. unfold clears in Hend. destruct (vo_pages (truncated n o) !! page_of n) as [q|] eqn:Hq.
  - wp_step. apply Hend; [done|done|done|]. intros p. unfold memory. simpl.
    assert (page_of n < page_of (n + 4095)).
    { simpl in Hq. rewrite lookup_keep in Hq. destruct (Z.leb_spec (page_of (n + 4095)) (page_of n)); [done|lia]. }
    destruct (decide (p = q)) as [->|].
    + rewrite lookup_insert_eq. simpl. rewrite clear_tail; [|done..| ].
      * fold (memory w1 q) (memory w q). by rewrite Hm.
      * fold (memory w1 q). rewrite Hm. apply Hsz.
    + rewrite lookup_insert_ne by done. apply Hm.
  - wp_step. apply Hend; done.
Qed.

Lemma wp_truncate pins w v o n (Q : Z → world FS → Prop) :
  inv pins w → room 1 w → objs w !! v = Some o → frees_pages o → tidy o → sized w →
  0 <= n → n + 4095 < 2 ^ 64 → vo_size o < 2 ^ 64 →
  (∀ w', inv pins w' → objs w' = <[v := truncated n o]> (objs w) → clears n o w w' → Q 0 w') →
  wp (vmo_truncate free_other v n 0) Q w.
Proof.
  intros Hi Hr Hv Hops [Hin _] Hs Hn Hb Hsz HQ. unfold vmo_truncate.
  rewrite align_up2_page by done. change (negb (has 0 VMO_TRUNCATE_DONT_PUNCH)) with true. cbn [andb].
  pose proof (page_of_spec (n + 4095)) as [Hp _]. set (sz := page_of (n + 4095)) in *.
  wp_step. eapply wp_get_obj; [done|]. wp_step.
  destruct (Z.ltb_spec sz (vo_size o)) as [Hlt|Hge].
  - wp_step. unfold vmo_punch_range. replace (u64 (sz + (vo_size o - sz))) with (vo_size o)
      by (rewrite u64_small; lia).
    eapply wp_purge; [exact Hi|exact Hr|done|exact Hv|by apply frees_releases|done|]. intros w1 Hi1 _ (Ho1 & Hc1 & Hn1). wp_step.
    eapply wp_truncate_tail; try done. split; [|done]. rewrite Ho1. do 2 f_equal. apply map_eq. intros x.
    change (vo_pages (truncated n o)) with (keep (λ off, sz <=? off) (vo_pages o)). rewrite !lookup_keep. destruct (vo_pages o !! x) as [p|] eqn:E; [|by destruct (purged _ _ _ _), (_ <=? _)].
    apply Hin in E as [Hx _]. unfold purged. change (has PURGE_SHOULD_FREE PURGE_EXCLUDE) with false.
    unfold is_included. cbn iota. by rewrite (proj2 (Z.ltb_lt x _)), andb_true_r by lia.
  - wp_step. eapply wp_truncate_tail; try done. split; [|done]. rewrite insert_id; [done|].
    rewrite Hv. f_equal. destruct o as [ty osz fl pg pr op mp cw ino rc ff]. unfold set_vpages, truncated. simpl in *. f_equal.
    apply map_eq. intros x. rewrite lookup_keep. case_match eqn:E; [|done]. apply Z.leb_le in E.
    destruct (pg !! x) as [p|] eqn:Ex; [|done]. apply Hin in Ex as [Hx _]. fold sz in E. lia.
Qed.

(** ** Bytes *)

Context (file_data : Z → Z → gmap Z Z).

(** The byte at [x] of an object; 0 beyond its end. *)
Definition byte_at (w : world FS) (v x : Z) : Z :=
  default 0 (m ← view file_data w v (page_of x); m !! (x mod PAGE_SIZE)).

Definition anonymous (o : vm_object) : Prop := vo_ops o = vmo_phys_ops ∧ cow_clone o = None.

Lemma byte_anonymous w v o x :
  cow_ok w → objs w !! v = Some o → anonymous o →
  byte_at w v x =
    match vo_pages o !! page_of x with
    | Some p => if page_of x <? vo_size o then default 0 (memory w p !! (x mod PAGE_SIZE)) else 0
    | None => 0
    end.
Proof.
  intros Hc Hv [Hops Hcow]. unfold byte_at. rewrite (view_eq file_data w v o _ Hc Hv).
  rewrite Z.ltb_antisym. destruct (vo_size o <=? page_of x) eqn:E; simpl.
  - by destruct (vo_pages o !! page_of x).
  - destruct (vo_pages o !! page_of x); [done|]. unfold expected, backing. by rewrite Hcow, Hops.
Qed.

Lemma lookup_cleared n off m i : cleared n off m !! i = if off + i <? n then m !! i else None.
Proof.
  unfold cleared. destruct (Z.ltb_spec (off + i) n); destruct (m !! i) as [x|] eqn:E.
  - by apply map_lookup_filter_Some.
  - apply map_lookup_filter_None. by left.
  - apply map_lookup_filter_None. right. intros y _. lia.
  - apply map_lookup_filter_None. by left.
Qed.

Lemma truncate_bytes w w' v o n x :
  cow_ok w → cow_ok w' → objs w !! v = Some o → anonymous o → tidy o → 0 <= n →
  objs w' = <[v := truncated n o]> (objs w) → clears n o w w' →
  byte_at w' v x = if x <? n then byte_at w v x else 0.
Proof.
  intros Hc Hc' Hv Ha [Hin Hdis] Hn Ho Hcl.
  assert (objs w' !! v = Some (truncated n o)) as Hv' by (rewrite Ho; apply lookup_insert_eq).
  rewrite (byte_anonymous w v o x Hc Hv Ha), (byte_anonymous w' v _ x Hc' Hv' Ha).
  unfold clears in Hcl. simpl in *. rewrite lookup_keep in *. cbn beta in *.
  assert (page_of x + x mod PAGE_SIZE = x) as Hx by (unfold page_of; lia).
  pose proof (page_of_spec x) as [? ?]. pose proof (page_of_spec n) as [? ?].
  pose proof (page_of_spec (n + 4095)) as [? ?].
  destruct (vo_pages o !! page_of x) as [p|] eqn:Hp;
    [|by destruct (page_of (n + 4095) <=? page_of x), (x <? n)].
  pose proof (Hin _ _ Hp) as [[? Hlt] _]. rewrite (proj2 (Z.ltb_lt _ _) Hlt).
  destruct (Z.leb_spec (page_of (n + 4095)) (page_of x)) as [Hge|Hls].
  { destruct (Z.ltb_spec x n); [|done]. unfold page_of, PAGE_SIZE in *. Z.div_mod_to_equations. lia. }
  rewrite (proj2 (Z.ltb_lt _ _) Hls), Hcl.
  destruct (decide (page_of x = page_of n)) as [Heq|Hne].
  - rewrite Heq in *. rewrite (proj2 (Z.leb_gt _ _) Hls), Hp, decide_True by done.
    rewrite lookup_cleared, Hx. by destruct (x <? n).
  - assert (x < n) as Hxn. { unfold page_of, PAGE_SIZE in *. Z.div_mod_to_equations. lia. }
    rewrite (proj2 (Z.ltb_lt _ _) Hxn). destruct (_ <=? page_of n); [done|].
    destruct (vo_pages o !! page_of n) as [q|] eqn:Hq; [|done].
    rewrite decide_False; [done|]. intros <-. by apply Hne, (Hdis _ _ p).
Qed.
End purge.
