(* ===== verification/VmObjectProps.v ===== *)
(** * VmObjectProps: what VM objects promise to the code that maps them. *)

From stdpp Require Import sorting.
From S2P Require Import Prelude Bits Abi PageAlloc PageFacts PageProps Frames.
From S2P Require Import VmObject VmObjectFacts VmObjectOps VmObjectLife VmObjectPurge.

(** ** A state with a file and a private mapping of it *)

(** Page 4 is in use with two references. *)
Definition two_refs : mem :=
  match (alloc_pages 1 0;; PageAlloc.page_ref 4) four_pages with
  | Done (_, s) => s
  | Fault _ => four_pages
  end.

(** Object 1 is a file of two pages whose first page is page 4, object 2 a private copy
    of it that shares the page. *)
Definition file_object : vm_object :=
  VmObject VMO_BACKED 8192 0 {[0 := 4]} 0 other_ops [] None (Some 7) 2 None.
Definition private_object : vm_object :=
  VmObject VMO_ANON 8192 0 {[0 := 4]} 0 vm_private_file_map_ops [] (Some 1) None 1 None.
Definition mapped_file : world mem :=
  World two_refs {[4 := {[0 := 65; 5000 - 4096 := 66]}]} {[1 := file_object; 2 := private_object]} 3 [].

Definition no_pins : Z → Z := λ _, 0.
Definition owners : Z → Z := λ v, holds_page v 1 + holds_page v 2.

(** A file system whose files are all zeroes. *)
Definition zero_file : Z → Z → gmap Z Z := λ _ _, ∅.

Lemma zero_commits : commits zero_file (FS := mem) vmo_commit_phys_page.
Proof.
  intros pins w v off n Q Hi Hr Hn Q0 Q1. unfold vmo_commit_phys_page. wp_step.
  eapply wp_alloc_frame; [exact Hi|done|exact Hr|lia|lia| |].
  - intros f Hi' Hr'. wp_step. by apply Q0.
  - intros p w' Hs Hp Hi' Hr' Ho' Hn' Hv' Hm. wp_step. apply Q1; try done. by apply Hm.
Qed.

(** Page 4 is taken from the free list and referenced again. *)
Lemma two_refs_inv : page_inv two_refs.
Proof.
  apply page_reach_inv.
  apply (reach_step (match alloc_pages 1 0 four_pages with Done (_, s) => s | Fault _ => four_pages end)
           (OpRef 4) (Some 2)).
  - apply (reach_step four_pages (OpAlloc 1 0) (Some 4)); [apply four_pages_reach|by split|].
    vm_compute. reflexivity.
  - eexists. split_and!; [vm_compute; reflexivity|reflexivity|reflexivity].
  - vm_compute. reflexivity.
Qed.

Lemma two_refs_counts q : page_refs two_refs q = 2 * holds_page q 4.
Proof.
  destruct (decide (q = 4)) as [->|Hq]; [vm_compute; reflexivity|]. rewrite holds_ne by done. unfold page_refs.
  assert (map_Forall (λ k pg, k = 4 ∨ is_free pg = true) (page_map two_refs)) as Hall.
  { apply (bool_decide_unpack _). vm_compute. done. }
  destruct (page_map two_refs !! q) as [pg|] eqn:E; [|done].
  destruct (Hall q pg E) as [|Hf]; [done|]. by rewrite Hf.
Qed.

Lemma mapped_file_inv : inv no_pins mapped_file.
Proof.
  split.
  - exact two_refs_inv.
  - intros p. change (page_refs two_refs p = slots mapped_file p + 0). rewrite two_refs_counts.
    unfold slots. simpl. rewrite total_insert_new by done.
    rewrite total_singleton. simpl. unfold count_in. rewrite total_singleton. lia.
  - done.
  - intros v o c Hv Hc. simpl in Hv. apply lookup_insert_Some in Hv as [[<- <-]|[_ Hv]]; [done|].
    apply lookup_singleton_Some in Hv as [<- <-]. injection Hc as <-. by exists file_object.
  - intros v [o Hv]. simpl in Hv. apply lookup_insert_Some in Hv as [[<- _]|[_ Hv]]; [done|].
    by apply lookup_singleton_Some in Hv as [<- _].
Qed.

Lemma mapped_file_counted : VmObjectLife.counted owners mapped_file.
Proof.
  split.
  - intros v o Hv. unfold clone_refs. simpl. rewrite total_insert_new by done. rewrite total_singleton.
    simpl in Hv. apply lookup_insert_Some in Hv as [[<- <-]|[_ Hv]]; [done|].
    by apply lookup_singleton_Some in Hv as [<- <-].
  - intros v. unfold owners. pose proof (holds_nonneg v 1). pose proof (holds_nonneg v 2). lia.
  - intros v Hv. unfold owners, holds_page in Hv.
    destruct (decide (v = 1)) as [->|H1]; [by eexists|]. destruct (decide (v = 2)) as [->|H2]; [by eexists|].
    rewrite (proj2 (Z.eqb_neq 1 v)), (proj2 (Z.eqb_neq 2 v)) in Hv by congruence. lia.
Qed.

Lemma mapped_file_room n : n < 2 ^ 62 → room n mapped_file.
Proof.
  intros Hn p. change (page_refs two_refs p + n < 2 ^ 64). rewrite two_refs_counts.
  unfold holds_page. case_match; lia.
Qed.

Lemma mapped_file_all (P : vm_object → Prop) :
  P file_object → P private_object → ∀ v o, objs mapped_file !! v = Some o → P o.
Proof.
  intros H1 H2 v o Hv. simpl in Hv. apply lookup_insert_Some in Hv as [[_ <-]|[_ Hv]]; [done|].
  by apply lookup_singleton_Some in Hv as [_ <-].
Qed.

(** ** Properties *)

(** C18: A fault on a page: [vmo_get] with permission to populate never faults itself and
    either reports why it has no page, or returns a page of the object whose contents
    are what the object showed at that offset: the page that was there, the zero page
    of anonymous memory, the data of the file, or a copy of the page of the object
    behind.  No view of any object changes, no object but this one and the one behind
    gains pages, and every page count stays exact with one pin for the caller. *)
Theorem vmo_get_ok {FS} `{FramesLaws FS} file_data commit_other pins (w : world FS) v o off n :
  commits file_data commit_other → inv pins w → ready w → room n w → 8 <= n < 2 ^ 63 →
  objs w !! v = Some o →
  wp (vmo_get commit_other 2 v off VMO_GET_MAY_POPULATE) (λ '(st, r) w',
    same_views file_data w w' ∧ (∀ u, u ∉ reach v o → objs w' !! u = objs w !! u) ∧
    match st, r with
    | VMO_STATUS_OK, Some p =>
        off < vo_size o ∧ inv (pin p pins) w' ∧ view file_data w v off = Some (memory w' p) ∧
        ∃ o', objs w' !! v = Some o' ∧ vo_pages o' !! off = Some p
    | VMO_STATUS_OK, None | _, Some _ => False
    | _, None => inv pins w' ∧ (vo_size o <= off → st = VMO_STATUS_BUS_ERROR)
    end) w.
Proof.
  intros Hc Hi Hrdy Hr Hn Hv. eapply wp_get; [exact Hc|exact Hi|exact Hrdy|exact Hr|done|exact Hv| |].
  - intros st w' Hst Hi' (Hu & _ & _ & Hs) Hb. split; [done|]. split; [done|]. by destruct st.
  - intros p w' (Hi' & _ & Hview & Hobj) (Hu & _ & _ & Hs). split; [done|]. split; [done|].
    split; [|done]. rewrite (view_eq _ _ _ _ _ (inv_cow _ _ Hi) Hv) in Hview.
    destruct (Z.leb_spec (vo_size o) off); [done|lia].
Qed.

Lemma vmo_get_ok_witness :
  wp (vmo_get vmo_commit_phys_page 2 2 4096 VMO_GET_MAY_POPULATE) (λ '(st, r) w',
    same_views zero_file mapped_file w') mapped_file.
Proof.
  eapply wp_mono.
  - apply (vmo_get_ok zero_file vmo_commit_phys_page no_pins mapped_file 2 private_object 4096 100).
    + apply zero_commits.
    + apply mapped_file_inv.
    + exact (mapped_file_all (λ o, vo_ops o ≠ no_ops) ltac:(done) ltac:(done)).
    + apply mapped_file_room. done.
    + done.
    + reflexivity.
  - intros [st r] w' [Hs _]. exact Hs.
Defined.

(** C29: Private memory is private: after a write fault, [vmo_cow_on_page] has given the
    object a page that nothing else uses, so that whatever is then written to it shows
    at that offset of that object and nowhere else; when there is no memory for the
    copy nothing changed. *)
Theorem vmo_cow_write_isolated {FS} `{FramesLaws FS} file_data pins (w : world FS) v o off old n m :
  inv pins w → room n w → 3 <= n < 2 ^ 63 → objs w !! v = Some o → off < vo_size o →
  vo_pages o !! off = Some old → (∀ x ox, objs w !! x = Some ox → cow_clone ox ≠ Some v) →
  wp (vmo_cow_on_page v off) (λ r w',
    match r with
    | Some p =>
        inv (pin p pins) w' ∧ same_views file_data w w' ∧
        let w'' := page_write p m w' in
        inv (pin p pins) w'' ∧ view file_data w'' v off = Some m ∧
        ∀ x y, (x, y) ≠ (v, off) → view file_data w'' x y = view file_data w x y
    | None => inv pins w' ∧ same_views file_data w w'
    end) w.
Proof.
  intros Hi Hr Hn Hv Hlt Hoff Hcl.
  eapply (wp_cow_on_page file_data); [exact Hi|exact Hr|done|exact Hv|done|exact Hoff| |].
  - intros w' Hi' (_ & _ & _ & Hs). done.
  - intros p w' [(Hi' & _ & _ & o' & Hv' & Hp) [Hs1 _]] (Hu & Hobj & _ & Hs). split; [done|].
    split; [done|]. split; [by apply write_inv|].
    destruct (Hobj _ _ Hv) as [m' Hm']. rewrite Hv' in Hm'. injection Hm' as ->.
    destruct (write_views file_data w' v _ off p m Hv' Hlt Hp Hs1) as [Ha Hb].
    + intros x ox Hx. destruct (decide (x = v)) as [->|Hne].
      * rewrite Hv' in Hx. injection Hx as <-. exact (Hcl _ _ Hv).
      * rewrite Hu in Hx by set_solver. by eapply Hcl.
    + split; [done|]. intros x y Hxy. rewrite Hb by done. apply Hs.
Qed.

Lemma vmo_cow_write_isolated_witness :
  wp (vmo_cow_on_page 2 0) (λ r w',
    match r with
    | Some p => view zero_file (page_write p {[0 := 90]} w') 2 0 = Some {[0 := 90]} ∧
                view zero_file (page_write p {[0 := 90]} w') 1 0 = view zero_file mapped_file 1 0
    | None => True
    end) mapped_file.
Proof.
  eapply wp_mono.
  - apply (vmo_cow_write_isolated zero_file no_pins mapped_file 2 private_object 0 4 100 {[0 := 90]}).
    + apply mapped_file_inv.
    + apply mapped_file_room. done.
    + done.
    + reflexivity.
    + reflexivity.
    + reflexivity.
    + exact (mapped_file_all (λ o, cow_clone o ≠ Some 2) ltac:(done) ltac:(done)).
  - intros [p|] w'; [|done]. intros (_ & _ & _ & Ha & Hb). split; [exact Ha|apply Hb; congruence].
Defined.

(** C7: Forking: the child shows exactly what the parent shows and shares its pages, no
    other view changes, and every page and object count is exact; so a later write
    fault on either side copies.  When memory runs out nothing shows a difference, but
    references may be lost. *)
Theorem vmo_fork_ok {FS} `{FramesLaws FS} file_data pins own (w : world FS) v o :
  inv pins w → counted own w → objs w !! v = Some o → room (Z.of_nat (size (vo_pages o))) w →
  (∀ x ox, objs w !! x = Some ox → vo_refcount ox + 1 < 2 ^ 64) →
  vo_ops o = vmo_phys_ops ∨ cow_clone o ≠ None → align_up2 (vo_size o) PAGE_SIZE = vo_size o →
  vm_size_to_pages (vo_size o) ≠ 0 →
  wp (vmo_fork v false) (λ r w',
    match r with
    | Some u =>
        objs w !! u = None ∧ inv pins w' ∧ counted (pin u own) w' ∧
        (∀ off, view file_data w' u off = view file_data w v off) ∧
        (∀ x off, x ≠ u → view file_data w' x off = view file_data w x off) ∧
        vo_pages <$> objs w' !! u = Some (vo_pages o)
    | None => same_views file_data w w' ∧ ∃ pins', (∀ q, pins q <= pins' q) ∧ inv pins' w'
    end) w.
Proof.
  intros Hi Hk Hv Hr Hb Hops Hal Hsz. eapply (wp_fork file_data); [exact Hi|exact Hk|exact Hv|done..| |].
  - intros pins' w' Hle Hi' Hs. split; [done|]. by exists pins'.
  - intros u w' [F1 F2 F3 F4 F5 F6]. split_and!; try done. by rewrite F6, Hv.
Qed.

Lemma vmo_fork_ok_witness :
  wp (vmo_fork 2 false) (λ r w',
    match r with
    | Some u => view zero_file w' u 0 = view zero_file mapped_file 2 0
    | None => True
    end) mapped_file.
Proof.
  eapply wp_mono.
  - apply (vmo_fork_ok zero_file no_pins owners mapped_file 2 private_object).
    + apply mapped_file_inv.
    + apply mapped_file_counted.
    + reflexivity.
    + apply mapped_file_room. reflexivity.
    + exact (mapped_file_all (λ o, vo_refcount o + 1 < 2 ^ 64) ltac:(done) ltac:(done)).
    + by right.
    + reflexivity.
    + done.
  - intros [u|] w'; [|done]. intros (_ & _ & _ & Hview & _). apply Hview.
Defined.

(** C31: Dropping a reference: [vmo_unref] frees the object exactly when the reference was
    the last one, along with its page references and its reference to the object
    behind; the counts that are left are exact, nobody is left pointing to a freed
    object, and what remains shows what it showed. *)
Theorem vmo_unref_ok {FS} `{FramesLaws FS} file_data pins own (w : world FS) v o :
  inv pins w → counted own w → objs w !! v = Some o → 1 <= own v → room 1 w →
  (∀ x ox, objs w !! x = Some ox → vo_refcount ox < 2 ^ 64) →
  wp (vmo_unref 2 v) (λ destroyed w',
    (destroyed = true ↔ vo_refcount o = 1) ∧ (objs w' !! v = None ↔ vo_refcount o = 1) ∧
    inv pins w' ∧ counted (unpin v own) w' ∧
    ∀ x off, is_Some (objs w' !! x) → view file_data w' x off = view file_data w x off) w.
Proof.
  intros Hi Hk Hv Hown Hr Hb. eapply (wp_unref file_data); [exact Hi|exact Hk|exact Hv|done..|].
  intros w' (Hi' & Hk' & _ & Hview) Hgone. split; [apply Z.eqb_eq|]. by split_and!.
Qed.

Lemma vmo_unref_ok_witness :
  wp (vmo_unref 2 2) (λ destroyed w', destroyed = true ∧ objs w' !! 2 = None) mapped_file.
Proof.
  eapply wp_mono.
  - apply (vmo_unref_ok zero_file no_pins owners mapped_file 2 private_object).
    + apply mapped_file_inv.
    + apply mapped_file_counted.
    + reflexivity.
    + done.
    + apply mapped_file_room. reflexivity.
    + exact (mapped_file_all (λ o, vo_refcount o < 2 ^ 64) ltac:(done) ltac:(done)).
  - intros b w' (H1 & H2 & _). split; [by apply H1|by apply H2].
Defined.

(** Anonymous memory with one page. *)
Definition anon_object : vm_object :=
  VmObject VMO_ANON 8192 0 {[0 := 4]} 0 vmo_phys_ops [] None None 1 None.
Definition anon_memory : world mem :=
  World two_refs {[4 := {[0 := 65; 900 := 66]}]} {[1 := anon_object]} 2 [].

Lemma anon_memory_inv : inv (holds_page 4) anon_memory.
Proof.
  split.
  - exact two_refs_inv.
  - intros p. change (page_refs two_refs p = slots anon_memory p + holds_page 4 p).
    rewrite two_refs_counts. unfold slots. simpl. rewrite total_singleton. simpl. unfold count_in.
    rewrite total_singleton. unfold holds_page. rewrite (Z.eqb_sym p 4). case_match; lia.
  - auto.
  - intros v o c Hv Hc. simpl in Hv. by apply lookup_singleton_Some in Hv as [<- <-].
  - intros v [o Hv]. simpl in Hv. by apply lookup_singleton_Some in Hv as [<- _].
Qed.

(** Truncating anonymous memory to [n] bytes: the first [n] bytes are what they were,
    every byte from [n] on is zero, also after the object grows again, because no page
    beyond the end is kept; and the pages that go lose exactly one reference each. *)
Theorem vmo_truncate_ok {FS} `{FramesLaws FS} free_other file_data pins (w : world FS) v o n :
  inv pins w → room 1 w → objs w !! v = Some o → anonymous o → tidy o → sized w →
  0 <= n → n + 4095 < 2 ^ 64 → vo_size o < 2 ^ 64 →
  wp (vmo_truncate free_other v n 0) (λ r w',
    r = 0 ∧ inv pins w' ∧
    (∀ x, byte_at file_data w' v x = if x <? n then byte_at file_data w v x else 0) ∧
    ∃ o', objs w' !! v = Some o' ∧ vo_size o' = page_of (n + 4095) ∧
      ∀ off, page_of (n + 4095) <= off → vo_pages o' !! off = None) w.
Proof.
  intros Hi Hr Hv Ha Ht Hs Hn Hb Hsz.
  eapply wp_truncate; [exact Hi|exact Hr|exact Hv|left; apply Ha|done..|]. intros w' Hi' Ho Hcl.
  split; [done|]. split; [done|]. split.
  - intros x. eapply truncate_bytes; try done; [exact (inv_cow _ _ Hi)|exact (inv_cow _ _ Hi')].
  - exists (truncated n o). split; [rewrite Ho; apply lookup_insert_eq|]. split; [done|].
    intros off Hoff. simpl. rewrite lookup_keep. by rewrite (proj2 (Z.leb_le _ _)).
Qed.

Lemma vmo_truncate_ok_witness :
  wp (vmo_truncate (λ _ _, mret tt) 1 100 0) (λ r w',
    byte_at zero_file w' 1 0 = 65 ∧ byte_at zero_file w' 1 900 = 0) anon_memory.
Proof.
  eapply wp_mono.
  - apply (vmo_truncate_ok (λ _ _, mret tt) zero_file (holds_page 4) anon_memory 1 anon_object 100).
    + apply anon_memory_inv.
    + intros p. change (page_refs two_refs p + 1 < 2 ^ 64). rewrite two_refs_counts.
      unfold holds_page. case_match; lia.
    + reflexivity.
    + done.
    + split.
      * intros off p Hp. simpl in Hp. apply lookup_singleton_Some in Hp as [<- <-]. done.
      * intros off off' p Hp Hp'. simpl in Hp, Hp'.
        apply lookup_singleton_Some in Hp as [<- _]. by apply lookup_singleton_Some in Hp' as [<- _].
    + intros p i Hs. unfold memory in Hs. simpl in Hs.
      destruct (decide (p = 4)) as [->|]; [|rewrite lookup_singleton_ne in Hs by done; by destruct Hs].
      rewrite lookup_singleton_eq in Hs. simpl in Hs. destruct Hs as [x Hx].
      apply lookup_insert_Some in Hx as [[<- _]|[_ Hx]]; [done|].
      by apply lookup_singleton_Some in Hx as [<- _].
    + done.
    + done.
    + done.
  - intros r w' (_ & _ & Hx & _). split; rewrite Hx; reflexivity.
Defined.

(** ** Where the code falls short *)

(** Anonymous memory of four pages, the second and the last of which exist. *)
Definition long_object : vm_object :=
  VmObject VMO_ANON 16384 0 {[4096 := 4; 12288 := 4]} 0 vmo_phys_ops [] None None 1 None.
Definition long_memory (l : list bool) : world mem :=
  World two_refs {[4 := {[0 := 65]}]} {[1 := long_object]} 2 l.

(** [vmo_split] hands the pages behind the hole to the second object at the offsets
    they had, beyond the end of that object. *)
Lemma split_keeps_offsets :
  match vmo_split (λ _ _, mret tt) 8192 4096 1 (long_memory []) with
  | Done (Some u, w) =>
      (λ o, (vo_size o, vo_pages o !! 0, vo_pages o !! 12288)) <$> objs w !! u =
        Some (4096, None, Some 4) ∧
      view zero_file w u 12288 = None
  | _ => False
  end.
Proof. vm_compute. done. Qed.

(** [vmo_resize] keeps the page that begins where the object now ends. *)
Lemma resize_keeps_page :
  match vmo_resize (λ _ _, mret tt) 12288 1 (long_memory []) with
  | Done (_, w) => (λ o, (vo_size o, vo_pages o !! 12288)) <$> objs w !! 1 = Some (12288, Some 4)
  | _ => False
  end.
Proof. vm_compute. done. Qed.

(** When the second node cannot be allocated, [vmo_fork] fails and the reference it took
    for the first page stays. *)
Lemma failed_fork_leaks :
  match vmo_fork 1 false (long_memory [false; false; false; false; false; true]) with
  | Done (None, w) => refs (fs w) 4 = 3 ∧ slots w 4 = 2
  | _ => False
  end.
Proof. vm_compute. done. Qed.
