(* ===== verification/VmBacking.v ===== *)
(** * VmBacking: what the regions of an address space need from VM objects.

    [sound own n w] sums up the invariants of the objects for their users: [own] are
    the references held from outside, and [n] more references fit into every counter.
    For every operation that the address space uses there is one contract in terms of
    [sound].

    The second half is about runs in which kernel memory does not run out.  [calm ext w]: no
    allocation of kernel memory is going to fail, and the objects that others are copies of
    are held from outside by [ext].  [lucky ext P m]: run in such a world, [m] leaves it
    calm, and its result satisfies [P]. *)

From stdpp Require Import sorting.
From S2P Require Import Prelude Bits Abi PageAlloc Frames VmObject VmObjectFacts VmObjectOps.
From S2P Require Import VmObjectLife VmObjectPurge.

Section backing.
Context {FS : Type} `{FramesLaws FS}.
Implicit Types (w : world FS) (own : Z → Z) (o : vm_object).

Record sound (own : Z → Z) (n : Z) (w : world FS) : Prop := Sound {
  sound_inv : ∃ pins, inv pins w;
  sound_counted : counted own w;
  sound_room : room n w;
  sound_refs : ∀ x ox, objs w !! x = Some ox → vo_refcount ox + n < 2 ^ 64;
  sound_ready : ready w;
}.

Lemma sound_mono own n m w : m <= n → sound own n w → sound own m w.
Proof.
  intros Hle [S1 S2 S3 S4 S5]. split; try done; [by eapply room_mono|].
  intros x ox Hx. specialize (S4 _ _ Hx). lia.
Qed.

Lemma sound_ext own own' n w : (∀ x, own x = own' x) → sound own n w → sound own' n w.
Proof.
  intros E [S1 [C1 C2 C3] S3 S4 S5]. split; try done. split; intros *; rewrite <- E; auto.
Qed.

Lemma sound_live own n w v : sound own n w → 0 < own v → ∃ o, objs w !! v = Some o ∧ 1 <= vo_refcount o.
Proof.
  intros Hs Hv. destruct (counted_live _ _ (sound_counted _ _ _ Hs) _ Hv) as [o Ho]. exists o.
  split; [done|]. eapply refcount_pos; [apply Hs|done|by left].
Qed.

Lemma clone_refs_update w w' v o o' x :
  objs w !! v = Some o → objs w' = <[v := o']> (objs w) → cow_clone o' = cow_clone o →
  clone_refs w' x = clone_refs w x.
Proof.
  intros Hv Ho Hc. unfold clone_refs. rewrite Ho, (total_insert _ _ _ _ _ Hv). unfold clones.
  rewrite Hc. lia.
Qed.

(** One object changes, but not what it is a copy of; [d] references come to it. *)
Lemma sound_change own own' n m w w' v o o' :
  sound own n w → objs w !! v = Some o → objs w' = <[v := o']> (objs w) →
  (∃ pins, inv pins w') → room m w' → cow_clone o' = cow_clone o → vo_ops o' = vo_ops o →
  vo_refcount o' - own' v = vo_refcount o - own v → (∀ x, x ≠ v → own' x = own x) →
  0 <= own' v → m <= n → vo_refcount o' + m < 2 ^ 64 → sound own' m w'.
Proof.
  intros [S1 [C1 C2 C3] S3 S4 S5] Hv Ho Hi Hr Hc Hops Hrc Hown Hnn Hmn Hb. split; [done| |done| |].
  - split.
    + intros x ox Hx. rewrite (clone_refs_update w w' v o o' x Hv Ho Hc). rewrite Ho in Hx.
      apply lookup_insert_Some in Hx as [[<- <-]|[Hne Hx]]; [pose proof (C1 _ _ Hv); lia|].
      rewrite Hown by done. by apply C1.
    + intros x. destruct (decide (x = v)) as [->|]; [done|]. rewrite Hown by done. apply C2.
    + intros x Hx. rewrite Ho. destruct (decide (x = v)) as [->|].
      * rewrite lookup_insert_eq. by eexists.
      * rewrite lookup_insert_ne by done. apply C3. by rewrite <- Hown.
  - intros x ox Hx. rewrite Ho in Hx. apply lookup_insert_Some in Hx as [[<- <-]|[Hne Hx]]; [done|].
    specialize (S4 _ _ Hx). lia.
  - intros x ox Hx. rewrite Ho in Hx. apply lookup_insert_Some in Hx as [[<- <-]|[Hne Hx]]; [|by eapply S5].
    rewrite Hops. by eapply S5.
Qed.

Lemma sound_same own n w w' : same_state w w' → sound own n w → sound own n w'.
Proof.
  intros Hs [[pins S1] [C1 C2 C3] S3 S4 S5]. pose proof Hs as (Ef & Ec & Eo & En). split.
  - exists pins. by eapply same_state_inv.
  - split; unfold clone_refs in *; rewrite ?Eo; done.
  - by eapply same_state_room.
  - by rewrite Eo.
  - unfold ready in *. by rewrite Eo.
Qed.

(** ** Contracts *)

Lemma use_kmalloc own n w (Q : bool → world FS → Prop) :
  sound own n w → (∀ b w', sound own n w' → Q b w') → wp kmalloc Q w.
Proof. intros Hs HQ. apply wp_kmalloc. intros b w' Hw. eapply HQ, sound_same; done. Qed.

Lemma use_get own n w v (Q : vm_object → world FS → Prop) :
  sound own n w → 0 < own v → (∀ o, objs w !! v = Some o → Q o w) → wp (get_obj v) Q w.
Proof. intros Hs Hv HQ. destruct (sound_live _ _ _ _ Hs Hv) as (o & Ho & _). eapply wp_get_obj; eauto. Qed.

(** Changes of the list of mappings, the size and the like. *)
Lemma use_upd own n w v f (Q : unit → world FS → Prop) :
  sound own n w → 0 < own v →
  (∀ o, vo_pages (f o) = vo_pages o ∧ cow_clone (f o) = cow_clone o ∧ vo_ops (f o) = vo_ops o ∧
    vo_refcount (f o) = vo_refcount o) →
  (∀ w', sound own n w' → Q tt w') → wp (upd_obj v f) Q w.
Proof.
  intros Hs Hv Hf HQ. destruct (sound_live _ _ _ _ Hs Hv) as (o & Ho & _). eapply wp_upd_obj; [done|].
  destruct (Hf o) as (Hp & Hc & Hops & Hrc). destruct (sound_inv _ _ _ Hs) as [pins Hi]. apply HQ.
  eapply (sound_change own own n n w _ v o (f o)); try done; [| |by rewrite Hrc|apply Hs|].
  - exists pins. eapply inv_update; try done; [|apply Hi]. intros q. rewrite Hp. lia.
  - apply Hs.
  - rewrite Hrc. by eapply (sound_refs _ _ _ Hs).
Qed.

Lemma use_ref own n w v (Q : unit → world FS → Prop) :
  sound own n w → 0 < own v → 1 <= n → (∀ w', sound (pin v own) (n - 1) w' → Q tt w') →
  wp (vmo_ref v) Q w.
Proof.
  intros Hs Hv Hn HQ. destruct (sound_live _ _ _ _ Hs Hv) as (o & Ho & Hpos).
  pose proof (sound_refs _ _ _ Hs _ _ Ho). unfold vmo_ref. eapply wp_upd_obj; [done|].
  destruct (sound_inv _ _ _ Hs) as [pins Hi]. rewrite u64_small by lia. apply HQ.
  eapply (sound_change own _ n (n - 1) w _ v o); try done; simpl.
  - exists pins. eapply inv_update; try done; [|apply Hi]. intros q. simpl. lia.
  - intros p. simpl. pose proof (sound_room _ _ _ Hs p). lia.
  - rewrite pin_same. lia.
  - intros x Hx. by apply pin_ne.
  - rewrite pin_same. lia.
  - lia.
  - lia.
Qed.

Lemma use_is_shared own n w v (Q : bool → world FS → Prop) :
  sound own n w → 0 < own v →
  (∀ o, objs w !! v = Some o → Q (negb (vo_refcount o =? 1)) w) → wp (vmo_is_shared v) Q w.
Proof.
  intros Hs Hv HQ. destruct (sound_live _ _ _ _ Hs Hv) as (o & Ho & _). unfold vmo_is_shared.
  wp_step. eapply wp_get_obj; [done|]. apply wp_ret. by apply HQ.
Qed.

(** No page and no object loses room by dropping references. *)
Lemma use_unref own n w v (Q : bool → world FS → Prop) :
  sound own n w → 1 <= own v → 1 <= n → (∀ b w', sound (unpin v own) n w' → Q b w') →
  wp (vmo_unref 2 v) Q w.
Proof.
  intros Hs Hv Hn HQ. destruct (sound_live own n w v Hs) as (o & Ho & _); [lia|].
  destruct (sound_inv _ _ _ Hs) as [pins Hi].
  eapply (wp_unref (λ _ _, ∅)); [exact Hi|apply Hs|exact Ho|lia|eapply room_mono; [|apply Hs]; lia| |].
  { intros x ox Hx. pose proof (sound_refs _ _ _ Hs _ _ Hx). lia. }
  intros w' (Hi' & Hk' & (Hq & _ & Hm) & _) _. apply HQ. split; [by exists pins|done| | |].
  - intros p. pose proof (Hq p). pose proof (sound_room _ _ _ Hs p). lia.
  - intros x ox Hx. destruct (Hm _ _ Hx) as (o' & k & Ho' & -> & Hle). simpl.
    pose proof (sound_refs _ _ _ Hs _ _ Ho'). lia.
  - intros x ox Hx. destruct (Hm _ _ Hx) as (o' & k & Ho' & -> & _). simpl.
    exact (sound_ready _ _ _ Hs _ _ Ho').
Qed.

(** ** Removing pages *)

Context (free_other : Z → Z → M (world FS) unit) (Hdrops : drops free_other).

Lemma sound_repaged own n w w' v o m :
  sound own n w → objs w !! v = Some o → repaged v o m w w' → (∃ pins, inv pins w') → room n w' →
  sound own n w'.
Proof.
  intros Hs Ho (Ho' & _ & _) Hi Hr.
  eapply (sound_change own own n n w w' v o); try done.
  - apply (counted_own _ _ (sound_counted _ _ _ Hs)).
  - exact (sound_refs _ _ _ Hs _ _ Ho).
Qed.

Lemma use_purge own n w v lower upper flags (Q : Z → world FS → Prop) :
  sound own n w → 0 < own v → 1 <= n → has flags PURGE_SHOULD_FREE = true →
  (∀ w', sound own n w' → Q 0 w') →
  wp (vmo_purge_pages free_other lower upper flags None v) Q w.
Proof.
  intros Hs Hv Hn Hfl HQ. destruct (sound_live _ _ _ _ Hs Hv) as (o & Ho & _).
  destruct (sound_inv _ _ _ Hs) as [pins Hi].
  eapply wp_purge; [exact Hi|apply Hs|done|exact Ho| |done|].
  { apply drops_releases; [done|]. exact (sound_ready _ _ _ Hs _ _ Ho). }
  intros w' Hi' Hr' Hrep. apply HQ. eapply sound_repaged; [exact Hs|exact Ho|exact Hrep|by exists pins|done].
Qed.

Lemma use_resize own n w v size (Q : Z → world FS → Prop) :
  sound own n w → 0 < own v → 1 <= n → (∀ w', sound own n w' → Q 0 w') →
  wp (vmo_resize free_other size v) Q w.
Proof.
  intros Hs Hv Hn HQ. unfold vmo_resize. wp_step. eapply use_get; [exact Hs|done|]. intros o Ho.
  wp_step. eapply use_upd; [exact Hs|done|done|]. intros w1 Hs1. wp_step. case_match.
  - wp_step. eapply use_purge; [exact Hs1|done|done|done|]. intros w2 Hs2. do 2 wp_step. by apply HQ.
  - do 2 wp_step. by apply HQ.
Qed.

Lemma sound_contents own n w c : sound own n w → sound own n (set_contents c w).
Proof.
  intros [[pins Hi] [C1 C2 C3] S3 S4 S5]. split; try done. exists pins. by destruct Hi.
Qed.

Lemma use_truncate own n w v size flags (Q : Z → world FS → Prop) :
  sound own n w → 0 < own v → 1 <= n → (∀ w', sound own n w' → Q 0 w') →
  wp (vmo_truncate free_other v size flags) Q w.
Proof.
  intros Hs Hv Hn HQ. unfold vmo_truncate. wp_step. eapply use_get; [exact Hs|done|]. intros o Ho.
  assert (∀ w1, sound own n w1 →
    wp (o ← get_obj v;
        match vo_pages o !! align_down2 size PAGE_SIZE with
        | Some last_page =>
            modify (λ w, set_contents (<[last_page :=
              filter (λ '(i, _), ¬ (Z.land size (PAGE_SIZE - 1) <= i <
                Z.land size (PAGE_SIZE - 1) + u64 (align_up2 size PAGE_SIZE - size)))
                (memory w last_page)]> (contents w)) w)
        | None => mret tt
        end;;
        upd_obj v (set_vsize (align_up2 size PAGE_SIZE));; mret 0) Q w1) as Hrest.
  { intros w1 Hs1. wp_step. eapply use_get; [exact Hs1|done|]. intros o1 Ho1. wp_step.
    case_match; wp_step; wp_step; (eapply use_upd; [|done|done|]);
      [by apply sound_contents| |exact Hs1|]; intros w2 Hs2; wp_step; by apply HQ. }
  wp_step. case_match.
  - wp_step. unfold vmo_punch_range. eapply use_purge; [exact Hs|done|done|done|]. intros w1 Hs1.
    wp_step. by apply Hrest.
  - wp_step. by apply Hrest.
Qed.

(** ** New objects *)

Lemma sound_extend own n w w' u ou :
  sound own n w → 1 <= n < 2 ^ 64 → u = next_obj w → vo_pages ou = ∅ → vo_refcount ou = 1 →
  vo_ops ou ≠ no_ops →
  (∀ c, cow_clone ou = Some c → ∃ oc, objs w !! c = Some oc ∧ cow_clone oc = None) →
  objs w' = bump (cow_clone ou) (<[u := ou]> (objs w)) → fs w' = fs w → next_obj w' = u + 1 →
  sound (pin u own) (n - 1) w' ∧ objs w !! u = None ∧ objs w' !! u = Some ou.
Proof.
  intros Hs Hn Hu Hp Hone Hops Hc Ho Hfs Hnx. destruct (sound_inv _ _ _ Hs) as [pins Hi].
  pose proof (extend_fresh pins w u Hi Hu) as Hf.
  split; [|split; [done|exact (extend_new pins w w' u ou Hi Hu Hc Hone Ho)]]. split.
  - exists pins. split; [rewrite Hfs; apply Hi| |apply Hi| |].
    + intros q. rewrite Hfs, (inv_refs _ _ Hi). unfold slots. rewrite Ho, total_bump by done.
      rewrite total_insert_new by done. rewrite Hp. unfold count_in at 2. rewrite total_empty. lia.
    + exact (extend_cow_ok pins w w' u ou Hi Hu Hc Ho).
    + exact (extend_next pins w w' u ou Hi Hu Ho Hnx).
  - eapply extend_counted; try done; [apply Hs|]. intros x ox Hx. pose proof (sound_refs _ _ _ Hs _ _ Hx). lia.
  - intros p. rewrite Hfs. pose proof (sound_room _ _ _ Hs p). lia.
  - intros x ox Hx. rewrite Ho in Hx. apply bump_inv in Hx as (o0 & k & Hx & -> & ->).
    apply lookup_insert_Some in Hx as [[<- <-]|[Hne Hx]]; simpl.
    + rewrite bool_decide_false by exact (extend_not_self pins w _ ou Hi Hu Hc). lia.
    + pose proof (sound_refs _ _ _ Hs _ _ Hx). case_bool_decide; [|lia].
      unfold u64. pose proof (Z.mod_le (vo_refcount o0 + 1) (2 ^ 64)).
      pose proof (sound_refs _ _ _ Hs _ _ Hx). assert (0 <= vo_refcount o0); [|lia].
      rewrite (counted_refs _ _ (sound_counted _ _ _ Hs) _ _ Hx).
      pose proof (counted_own _ _ (sound_counted _ _ _ Hs) x).
      pose proof (total_nonneg (clones x) (objs w) (clones_nonneg x)). unfold clone_refs. lia.
  - intros x ox Hx. rewrite Ho in Hx. apply bump_inv in Hx as (o0 & k & Hx & -> & _). simpl.
    apply lookup_insert_Some in Hx as [[<- <-]|[_ Hx]]; [done|]. exact (sound_ready _ _ _ Hs _ _ Hx).
Qed.

Lemma use_create_phys own n w size (Q : option Z → world FS → Prop) :
  sound own n w → 1 <= n < 2 ^ 64 →
  (∀ w', sound own n w' → Q None w') →
  (∀ u w', sound (pin u own) (n - 1) w' → objs w !! u = None → Q (Some u) w') →
  wp (vmo_create_phys size) Q w.
Proof.
  intros Hs Hn Q0 Q1. unfold vmo_create_phys. wp_step. apply wp_vmo_create.
  - intros w1 Hsame. wp_step. by eapply Q0, sound_same.
  - intros w1 F1 C1 O1 N1. wp_step. eapply wp_upd_obj; [rewrite O1; apply lookup_insert_eq|]. wp_step.
    set (w2 := set_objs _ w1).
    destruct (sound_extend own n w w2 (next_obj w) (set_vops VMO_ANON vmo_phys_ops (fresh_object size 0)))
      as (Hs' & Hf & _); [exact Hs|done..|simpl; by rewrite O1, insert_insert_eq|exact F1|exact N1|by apply Q1].
Qed.

Lemma use_create_copy own n w v (Q : option Z → world FS → Prop) :
  sound own n w → 0 < own v → 1 <= n < 2 ^ 64 →
  (∀ w', sound own n w' → Q None w') →
  (∀ u w', sound (pin u own) (n - 1) w' → objs w !! u = None → Q (Some u) w') →
  wp (vmo_create_copy v) Q w.
Proof.
  intros Hs Hv Hn Q0 Q1. destruct (sound_inv _ _ _ Hs) as [pins Hi]. unfold vmo_create_copy.
  wp_step. eapply use_get; [exact Hs|done|]. intros o Ho. wp_step. apply wp_vmo_create.
  { intros w1 Hsame. wp_step. by eapply Q0, sound_same. }
  intros w1 F1 C1 O1 N1. cbn iota.
  assert (objs w !! next_obj w = None) as Hf by (by eapply extend_fresh).
  wp_step. eapply wp_upd_obj; [rewrite O1; apply lookup_insert_eq|]. simpl. rewrite O1, insert_insert_eq.
  set (ou := VmObject (vo_type o) _ _ _ _ _ _ _ _ _ _).
  assert (∀ c, cow_clone ou = Some c → ∃ oc, objs w !! c = Some oc ∧ cow_clone oc = None) as Hc
    by (intros c; apply (inv_cow _ _ Hi _ _ _ Ho)).
  wp_step. apply wp_bump.
  { intros c Ec. simpl. destruct (Hc c Ec) as (oc & Hoc & _). rewrite lookup_insert_ne by congruence. by exists oc. }
  wp_step. simpl. set (w2 := set_objs _ _).
  destruct (sound_extend own n w w2 (next_obj w) ou) as (Hs' & _ & _); try done; [|by apply Q1].
  exact (sound_ready _ _ _ Hs _ _ Ho).
Qed.

(** Moving pages from [v] to [u]; a page that cannot be entered there is lost. *)
Lemma use_move_page own n w v u o off p (Q : unit → world FS → Prop) :
  sound own n w → 0 < own u → u ≠ v → objs w !! v = Some o → vo_pages o !! off = Some p →
  (∀ w', sound own n w' → objs w' !! v = Some (set_vpages (delete off (vo_pages o)) o) → Q tt w') →
  wp (upd_obj v (λ o, set_vpages (delete off (vo_pages o)) o);; mret tt;;
      vmo_add_page off p u;; mret tt) Q w.
Proof.
  intros Hs Hu Hne Ho Hp HQ. destruct (sound_inv _ _ _ Hs) as [pins Hi].
  wp_step. eapply wp_upd_obj; [done|]. set (o1 := set_vpages _ o). set (w1 := set_objs _ w).
  assert (inv (pin p pins) w1) as Hi1.
  { eapply (inv_update pins _ w w1 v o o1); try done.
    - intros q. simpl. unfold pin, count_in. rewrite (total_delete _ _ _ _ Hp). lia.
    - intros q. unfold pin. pose proof (inv_pins _ _ Hi q). pose proof (holds_nonneg q p). lia. }
  assert (sound own n w1) as Hs1.
  { eapply (sound_repaged _ _ w w1); [exact Hs|exact Ho|done|by exists (pin p pins)|apply Hs]. }
  assert (objs w1 !! v = Some o1) as Ho1 by apply lookup_insert_eq.
  destruct (sound_live _ _ _ _ Hs1 Hu) as (ou & Hou & _).
  do 2 wp_step. unfold vmo_add_page, tree_insert. do 3 wp_step. eapply wp_get_obj; [exact Hou|].
  destruct (vo_pages ou !! off) eqn:Hoff; [do 3 wp_step; by apply HQ|].
  wp_step. apply wp_kmalloc. intros b w2 Hsame. pose proof Hsame as (Ef & Ec & Eo & En).
  assert (sound own n w2) as Hs2 by by eapply sound_same.
  destruct b; [|do 3 wp_step; apply HQ; [done|by rewrite Eo]].
  wp_step. eapply wp_upd_obj; [by rewrite Eo|]. do 3 wp_step. apply HQ.
  - eapply (sound_repaged _ _ w2); [exact Hs2|by rewrite Eo|done| |apply Hs2].
    exists pins. eapply (inv_update (pin p pins) _ w2 _ u ou); try done.
    + by eapply same_state_inv.
    + by rewrite Eo.
    + intros q. simpl. rewrite count_put by done. unfold pin. lia.
    + apply Hi.
  - simpl. rewrite lookup_insert_ne by done. by rewrite Eo.
Qed.

Lemma use_move_loop own n u v lower upper l : ∀ w o (Q : unit → world FS → Prop),
  sound own n w → 0 < own u → 0 < own v → u ≠ v → objs w !! v = Some o → NoDup l →
  (∀ off, off ∈ l → is_Some (vo_pages o !! off)) → (∀ w', sound own n w' → Q tt w') →
  wp (purge_loop free_other l lower upper 0 (Some u) v) Q w.
Proof.
  induction l as [|off l IH]; intros w o Q Hs Hu Hv Hne Ho Hnd Hl HQ; cbn [purge_loop].
  { apply wp_ret. by apply HQ. }
  destruct (Hl off) as [p Hp]; [left|]. apply list.NoDup_cons in Hnd as [Hni Hnd].
  wp_step. eapply wp_get_obj; [done|]. wp_step. eapply wp_from_opt; [exact Hp|]. wp_step.
  change (has 0 PURGE_EXCLUDE) with false. change (has 0 PURGE_SHOULD_FREE) with false. cbn iota.
  destruct (is_included lower upper off).
  - eapply use_move_page; [exact Hs|done|done|done|done|]. intros w1 Hs1 Ho1.
    eapply IH; [exact Hs1|done|done|done|exact Ho1|done| |done].
    intros x Hx. simpl. rewrite lookup_delete_ne by (intros ->; done). apply Hl. by right.
  - wp_step. eapply IH; try done. intros x Hx. apply Hl. by right.
Qed.

Lemma use_split own n w v split_point hole (Q : option Z → world FS → Prop) :
  sound own n w → 0 < own v → 2 <= n < 2 ^ 64 →
  (∀ w', sound own n w' → Q None w') →
  (∀ u w', sound (pin u own) (n - 1) w' → objs w !! u = None → Q (Some u) w') →
  wp (vmo_split free_other split_point hole v) Q w.
Proof.
  intros Hs Hv Hn Q0 Q1. unfold vmo_split. wp_step. eapply use_create_copy; [exact Hs|done|lia| |].
  { intros w1 Hs1. wp_step. by apply Q0. }
  intros u w1 Hs1 Hf. cbn iota.
  assert (u ≠ v) as Hne. { intros ->. destruct (sound_live _ _ _ _ Hs Hv) as (o & Ho & _). congruence. }
  assert (0 < pin u own u) as Hpu by (rewrite pin_same; pose proof (counted_own _ _ (sound_counted _ _ _ Hs) u); lia).
  assert (0 < pin u own v) as Hpv by (by rewrite pin_ne).
  wp_step. eapply use_upd; [exact Hs1|done|done|]. intros w2 Hs2.
  wp_step. eapply use_purge; [exact Hs2|done|lia|done|]. intros w3 Hs3.
  wp_step. eapply use_get; [exact Hs3|done|]. intros o3 Ho3. wp_step. unfold vmo_purge_pages.
  wp_step. apply wp_check; [done|]. wp_step. eapply wp_get_obj; [exact Ho3|]. wp_step.
  eapply use_move_loop; [exact Hs3|done|done|done|exact Ho3|apply NoDup_offsets| |].
  { intros x. by rewrite elem_of_offsets. }
  intros w4 Hs4. wp_step. wp_step. eapply use_get; [exact Hs4|done|]. intros o4 Ho4.
  wp_step. eapply use_upd; [exact Hs4|done|done|]. intros w5 Hs5. wp_step. by apply Q1.
Qed.
End backing.

(** ** Runs in which no allocation fails *)

Section lucky.
Context {FS : Type} `{Frames FS} (ext : Z → Z).
Implicit Types (w : world FS).

Definition copies_held (o : vm_object) : Prop := ∀ c, cow_clone o = Some c → 0 < ext c.
Definition calm w : Prop := oom w = [] ∧ ∀ x o, objs w !! x = Some o → copies_held o.

Definition lucky {A} (P : A → Prop) (m : M (world FS) A) : Prop :=
  ∀ w a w', calm w → m w = Done (a, w') → calm w' ∧ P a.

Lemma wp_lucky {A} (P : A → Prop) m (Q : A → world FS → Prop) w :
  lucky P m → calm w → wp m (λ a w', calm w' → P a → Q a w') w → wp m Q w.
Proof.
  intros Hl Hc Hw. unfold wp in *. destruct (m w) as [[a w']|] eqn:E; [|done].
  destruct (Hl _ _ _ Hc E). auto.
Qed.

Lemma lucky_ret {A} (P : A → Prop) a : P a → lucky P (mret a).
Proof. intros HP w b w' Ho [= <- <-]. done. Qed.

Lemma lucky_bind {A B} (P : A → Prop) (Q : B → Prop) m (k : A → M (world FS) B) :
  lucky P m → (∀ a, P a → lucky Q (k a)) → lucky Q (m ≫= k).
Proof.
  intros Hm Hk w b w' Ho Hrun. unfold mbind, M_bind in Hrun.
  destruct (m w) as [[a w1]|] eqn:E; [|done]. destruct (Hm _ _ _ Ho E). by eapply Hk.
Qed.

(** When nothing is to be said about the intermediate result. *)
Lemma lucky_seq {A B} (Q : B → Prop) m (k : A → M (world FS) B) :
  lucky (λ _, True) m → (∀ a, lucky Q (k a)) → lucky Q (m ≫= k).
Proof. intros Hm Hk. eapply lucky_bind; [done|auto]. Qed.

Lemma lucky_gets {A} (f : world FS → A) : lucky (λ _, True) (gets f).
Proof. by intros w a w' Ho [= <- <-]. Qed.

Lemma lucky_modify (f : world FS → world FS) : (∀ w, calm w → calm (f w)) → lucky (λ _, True) (modify f).
Proof. intros Hf w a w' Ho [= <- <-]. auto. Qed.

Lemma lucky_check b why : lucky (λ _, True) (check (S := world FS) b why).
Proof. intros w a w' Ho. unfold check. by destruct b; intros [= <- <-]. Qed.

Lemma lucky_from_opt {A} (x : option A) why : lucky (λ _, True) (from_opt (S := world FS) x why).
Proof. intros w a w' Ho. unfold from_opt. by destruct x; intros [= <- <-]. Qed.

Lemma lucky_crash {A} (P : A → Prop) why : lucky P (crash why).
Proof. intros w a w' Ho [=]. Qed.

Lemma lucky_in_fs {A} (m : M FS A) : lucky (λ _, True) (in_fs m).
Proof. intros w a w' Ho. unfold in_fs. destruct (m (fs w)) as [[b f]|]; [|done]. by intros [= <- <-]. Qed.

Lemma lucky_kmalloc : lucky (λ b, b = true) kmalloc.
Proof. intros w a w' Hc. unfold kmalloc. rewrite (proj1 Hc). by intros [= <- <-]. Qed.

Lemma lucky_get_obj v : lucky copies_held (get_obj (FS := FS) v).
Proof.
  intros w a w' Hc. unfold get_obj, mbind, M_bind, gets, from_opt.
  destruct (objs w !! v) eqn:E; [|done]. intros [= <- <-]. split; [done|]. by eapply Hc.
Qed.

Lemma lucky_upd_obj v f :
  (∀ o, copies_held o → copies_held (f o)) → lucky (λ _, True) (upd_obj (FS := FS) v f).
Proof.
  intros Hf. unfold upd_obj. eapply lucky_bind; [apply lucky_get_obj|]. intros o Ho.
  apply lucky_modify. intros w [Hw1 Hw2]. split; [done|]. simpl. intros x ox.
  intros [[<- <-]|[_ Hx]]%lookup_insert_Some; [auto|by eapply Hw2].
Qed.

Lemma lucky_new_object o : copies_held o → lucky (λ _, True) (new_object (FS := FS) o).
Proof.
  intros Ho. unfold new_object. eapply lucky_seq; [apply lucky_gets|]. intros v.
  eapply lucky_seq; [|intros; by apply lucky_ret]. apply lucky_modify. intros w [Hw1 Hw2]. split; [done|]. simpl.
  intros x ox [[<- <-]|[_ Hx]]%lookup_insert_Some; [done|by eapply Hw2].
Qed.

Lemma lucky_delete_obj v : lucky (λ _, True) (modify (λ w : world FS, set_objs (delete v (objs w)) w)).
Proof.
  apply lucky_modify. intros w [Hw1 Hw2]. split; [done|]. simpl. intros x ox [_ Hx]%lookup_delete_Some.
  by eapply Hw2.
Qed.
End lucky.

Create HintDb lucky.
#[export] Hint Resolve lucky_gets lucky_check lucky_from_opt lucky_in_fs lucky_delete_obj : lucky.
#[export] Hint Extern 1 (lucky _ _ (crash _)) => apply lucky_crash : lucky.
#[export] Hint Extern 1 (lucky _ _ (upd_obj _ _)) => apply lucky_upd_obj; solve [auto] : lucky.
#[export] Hint Extern 1 (lucky _ _ (modify _)) => apply lucky_modify; solve [auto] : lucky.

(** Walks through a computation whose allocations have been dealt with. *)
Ltac lucky_walk :=
  repeat first
    [ progress (intros; subst; cbn [negb])
    | solve [eauto 3 with lucky]
    | match goal with
      | |- lucky _ _ (mret _) => apply lucky_ret; done
      | |- lucky _ _ (kmalloc ≫= _) => eapply lucky_bind; [apply lucky_kmalloc|cbn beta]
      | |- lucky _ _ (get_obj _ ≫= _) => eapply lucky_bind; [apply lucky_get_obj|cbn beta]
      | |- lucky _ _ (new_object _ ≫= _) => eapply lucky_seq; [by apply lucky_new_object|]
      | |- lucky _ _ (_ ≫= _) => eapply lucky_seq
      | |- lucky _ _ (if ?b then _ else _) => destruct b
      | |- lucky _ _ (match ?x with _ => _ end) => destruct x
      end ].

Section operations.
Context {FS : Type} `{Frames FS} (ext : Z → Z) (free_other : Z → Z → M (world FS) unit).
Context (Hfree : ∀ v p, lucky ext (λ _, True) (free_other v p)).

Lemma lucky_free_page p : lucky ext (λ _, True) (free_page (FS := FS) p).
Proof. unfold free_page. lucky_walk. Qed.
#[local] Hint Resolve lucky_free_page : lucky.

Lemma lucky_is_shared v : lucky ext (λ _, True) (vmo_is_shared (FS := FS) v).
Proof. unfold vmo_is_shared. lucky_walk. Qed.
Lemma lucky_ref v : lucky ext (λ _, True) (vmo_ref (FS := FS) v).
Proof. unfold vmo_ref. lucky_walk. Qed.
#[local] Hint Resolve lucky_ref : lucky.
Lemma lucky_assign v r : lucky ext (λ _, True) (vmo_assign_mapping (FS := FS) v r).
Proof. unfold vmo_assign_mapping. lucky_walk. Qed.
Lemma lucky_remove v r : lucky ext (λ _, True) (vmo_remove_mapping (FS := FS) v r).
Proof. unfold vmo_remove_mapping. lucky_walk. Qed.

Lemma lucky_free_pages_of l : lucky ext (λ _, True) (free_pages_of (FS := FS) l).
Proof. induction l; cbn [free_pages_of]; lucky_walk. Qed.
#[local] Hint Resolve lucky_free_pages_of : lucky.
Lemma lucky_unref fuel : ∀ v, lucky ext (λ _, True) (vmo_unref (FS := FS) fuel v).
Proof. induction fuel; intros v; cbn [vmo_unref]; lucky_walk. Qed.

Lemma lucky_create size priv : lucky ext (λ r, r ≠ None) (vmo_create (FS := FS) size priv).
Proof. unfold vmo_create. lucky_walk. Qed.
Lemma lucky_create_phys size : lucky ext (λ r, r ≠ None) (vmo_create_phys (FS := FS) size).
Proof.
  unfold vmo_create_phys. eapply lucky_bind; [apply lucky_create|]. intros [v|] Hv; [|done]. lucky_walk.
Qed.

Lemma lucky_ops_free o v p : lucky ext (λ _, True) (ops_free_page free_other o v p).
Proof. unfold ops_free_page. destruct (vo_ops o); eauto with lucky. Qed.
#[local] Hint Resolve lucky_ops_free : lucky.
Lemma lucky_add_page off p v : lucky ext (λ _, True) (vmo_add_page (FS := FS) off p v).
Proof. unfold vmo_add_page, tree_insert. lucky_walk. Qed.
#[local] Hint Resolve lucky_add_page : lucky.
Lemma lucky_purge_loop l : ∀ lower upper flags second v,
  lucky ext (λ _, True) (purge_loop free_other l lower upper flags second v).
Proof. induction l; intros; cbn [purge_loop]; lucky_walk. Qed.
#[local] Hint Resolve lucky_purge_loop : lucky.
Lemma lucky_purge lower upper flags second v :
  lucky ext (λ _, True) (vmo_purge_pages free_other lower upper flags second v).
Proof. unfold vmo_purge_pages. lucky_walk. Qed.
#[local] Hint Resolve lucky_purge : lucky.
Lemma lucky_truncate v size flags : lucky ext (λ _, True) (vmo_truncate free_other v size flags).
Proof. unfold vmo_truncate, vmo_punch_range. lucky_walk. Qed.
Lemma lucky_resize size v : lucky ext (λ _, True) (vmo_resize free_other size v).
Proof. unfold vmo_resize. lucky_walk. Qed.

Lemma lucky_create_copy v : lucky ext (λ r, r ≠ None) (vmo_create_copy (FS := FS) v).
Proof.
  unfold vmo_create_copy. eapply lucky_bind; [apply lucky_get_obj|]. intros o Ho.
  eapply lucky_bind; [apply lucky_create|]. intros [c|] Hc; [|done]. lucky_walk.
Qed.
Lemma lucky_split p h v : lucky ext (λ r, r ≠ None) (vmo_split free_other p h v).
Proof.
  unfold vmo_split. eapply lucky_bind; [apply lucky_create_copy|]. intros [c|] Hc; [|done]. lucky_walk.
Qed.
End operations.
