(* ===== verification/Vm.v ===== *)
(** * Vm: address spaces and their regions.

    [kernel/mm/vm.cpp], for the address space of a process.  A [struct vm_region *]
    is the address of its tree node; regions and nodes live in maps by address, and
    an address is not used twice, so that a use of a freed region is a fault.  The
    tree is the one of [Wavl], the objects behind the regions those of [VmObject].
    [kmem_cache_alloc] fails as [VmObject.kmalloc] says.

    The functions of the source that choose between the kernel's address space and
    that of the process by the address they are given are modelled for addresses of
    the process.  The lock of the address space is taken and released inside each
    call.  The page tables are not part of the state here; [VmDestroy] puts them beside it for the end of
    an address space. *)

From S2P Require Import Prelude Abi PageAlloc Frames VmObject Wavl.

Definition VM_TYPE_REGULAR : Z := 0.
Definition VM_TYPE_SHARED : Z := 2.
Definition VM_TYPE_FILE_BACKED : Z := 5.
Definition VM_WRITE : Z := 1.
Definition VM_EXEC : Z := 2.
Definition VM_USER : Z := 4.
Definition VM_READ : Z := 256.
Definition VM_HIGHER_HALF : Z := 0xffff800000000000.
Definition MAP_SHARED : Z := 1.
Definition MAP_PRIVATE : Z := 2.
Definition MAP_FIXED : Z := 16.
Definition MAP_ANONYMOUS : Z := 32.
Definition PROT_READ : Z := 1.
Definition PROT_WRITE : Z := 2.
Definition PROT_EXEC : Z := 4.

Record vm_region : Type := VmRegion {
  base : Z;
  pages : Z;
  rwx : Z;
  rtype : Z;
  mapping_type : Z;
  fd : option Z;
  offset : Z;
  rflags : Z;
  vmo : option Z
}.

(** A region that is all zeroes. *)
Definition zero_region : vm_region := VmRegion 0 0 0 0 0 None 0 0 None.

Definition set_range (b p : Z) (r : vm_region) : vm_region :=
  VmRegion b p (rwx r) (rtype r) (mapping_type r) (fd r) (offset r) (rflags r) (vmo r).
Definition set_rwx (x : Z) (r : vm_region) : vm_region :=
  VmRegion (base r) (pages r) x (rtype r) (mapping_type r) (fd r) (offset r) (rflags r) (vmo r).
Definition set_rtype (x : Z) (r : vm_region) : vm_region :=
  VmRegion (base r) (pages r) (rwx r) x (mapping_type r) (fd r) (offset r) (rflags r) (vmo r).
Definition set_mapping_type (x : Z) (r : vm_region) : vm_region :=
  VmRegion (base r) (pages r) (rwx r) (rtype r) x (fd r) (offset r) (rflags r) (vmo r).
Definition set_fd (x : option Z) (r : vm_region) : vm_region :=
  VmRegion (base r) (pages r) (rwx r) (rtype r) (mapping_type r) x (offset r) (rflags r) (vmo r).
Definition set_offset (x : Z) (r : vm_region) : vm_region :=
  VmRegion (base r) (pages r) (rwx r) (rtype r) (mapping_type r) (fd r) x (rflags r) (vmo r).
Definition set_rflags (x : Z) (r : vm_region) : vm_region :=
  VmRegion (base r) (pages r) (rwx r) (rtype r) (mapping_type r) (fd r) (offset r) x (vmo r).
Definition set_vmo (x : option Z) (r : vm_region) : vm_region :=
  VmRegion (base r) (pages r) (rwx r) (rtype r) (mapping_type r) (fd r) (offset r) (rflags r) x.

(** [struct mm_address_space], with the memory it lives in: the regions by address, the
    private links of the objects, the references to files, and the objects.  [rlimit_as]
    is the soft limit RLIMIT_AS of the process. *)
Record mm (FS : Type) : Type := Mm {
  region_tree : bst;
  regions : gmap Z vm_region;
  next_region : Z;
  as_start : Z;
  as_end : Z;
  mmap_base : Z;
  brk : Z;
  virtual_memory_size : Z;
  shared_set_size : Z;
  vmo_head : option Z;
  vmo_tail : option Z;
  next_private : gmap Z Z;
  prev_private : gmap Z Z;
  file_refs : gmap Z Z;
  rlimit_as : Z;
  objects : world FS
}.
Arguments Mm {FS} _ _ _ _ _ _ _ _ _ _ _ _ _ _ _ _.
Arguments region_tree {FS} _.
Arguments regions {FS} _.
Arguments next_region {FS} _.
Arguments as_start {FS} _.
Arguments as_end {FS} _.
Arguments mmap_base {FS} _.
Arguments brk {FS} _.
Arguments virtual_memory_size {FS} _.
Arguments shared_set_size {FS} _.
Arguments vmo_head {FS} _.
Arguments vmo_tail {FS} _.
Arguments next_private {FS} _.
Arguments prev_private {FS} _.
Arguments file_refs {FS} _.
Arguments rlimit_as {FS} _.
Arguments objects {FS} _.

(** [check_for_overlap]: closed intervals. *)
Definition check_for_overlap (x1 x2 y1 y2 : Z) : bool := (x1 <=? y2) && (y1 <=? x2).

Definition is_higher_half (address : Z) : bool := VM_HIGHER_HALF <? address.

(** [pages << PAGE_SHIFT], the size of a region in bytes, and its last byte. *)
Definition pages_to_size (n : Z) : Z := u64 (Z.shiftl n PAGE_SHIFT).
Definition region_size (r : vm_region) : Z := pages_to_size (pages r).
Definition region_last (b n : Z) : Z := u64 (b + pages_to_size n - 1).

(** The comparisons the tree is used with.  The one for insertion panics when two
    regions overlap. *)
Definition region_cmp (regs : gmap Z vm_region) (lhs rhs : Z) : outcome Z :=
  match regs !! lhs, regs !! rhs with
  | Some l, Some r =>
      if check_for_overlap (base l) (region_last (base l) (pages l))
           (base r) (region_last (base r) (pages r)) then Fault KernelPanic
      else Done (if base l <? base r then 1 else -1)
  | _, _ => Fault UseAfterFree
  end.

Definition search_cmp (regs : gmap Z vm_region) (lhs : Z) (key : Z * Z) : outcome Z :=
  match regs !! lhs with
  | Some l =>
      let '(b, n) := key in
      if check_for_overlap (base l) (region_last (base l) (pages l)) b (region_last b n) then Done 0
      else Done (if base l <? b then 1 else -1)
  | None => Fault UseAfterFree
  end.

Definition base_cmp (regs : gmap Z vm_region) (lhs min : Z) : outcome Z :=
  match regs !! lhs with
  | Some reg =>
      let last := region_last (base reg) (pages reg) in
      if check_for_overlap (base reg) last min (u64 (min + PAGE_SIZE)) then Done 0
      else Done (if min <=? last then -1 else 1)
  | None => Fault UseAfterFree
  end.

Section vm.
Context {FS : Type} `{Frames FS}.
Abbreviation VM := (M (mm FS)).

(** ** The parts of the state *)

Definition upd_mm (f : mm FS → mm FS) : VM unit := modify f.

Definition with_tree (t : bst) (s : mm FS) : mm FS :=
  Mm t (regions s) (next_region s) (as_start s) (as_end s) (mmap_base s) (brk s)
    (virtual_memory_size s) (shared_set_size s) (vmo_head s) (vmo_tail s) (next_private s)
    (prev_private s) (file_refs s) (rlimit_as s) (objects s).
Definition with_regions (t : bst) (m : gmap Z vm_region) (n : Z) (s : mm FS) : mm FS :=
  Mm t m n (as_start s) (as_end s) (mmap_base s) (brk s)
    (virtual_memory_size s) (shared_set_size s) (vmo_head s) (vmo_tail s) (next_private s)
    (prev_private s) (file_refs s) (rlimit_as s) (objects s).
Definition with_brk (b : Z) (s : mm FS) : mm FS :=
  Mm (region_tree s) (regions s) (next_region s) (as_start s) (as_end s) (mmap_base s) b
    (virtual_memory_size s) (shared_set_size s) (vmo_head s) (vmo_tail s) (next_private s)
    (prev_private s) (file_refs s) (rlimit_as s) (objects s).
Definition with_stats (v sh : Z) (s : mm FS) : mm FS :=
  Mm (region_tree s) (regions s) (next_region s) (as_start s) (as_end s) (mmap_base s) (brk s)
    v sh (vmo_head s) (vmo_tail s) (next_private s)
    (prev_private s) (file_refs s) (rlimit_as s) (objects s).
Definition with_private (h t : option Z) (n p : gmap Z Z) (s : mm FS) : mm FS :=
  Mm (region_tree s) (regions s) (next_region s) (as_start s) (as_end s) (mmap_base s) (brk s)
    (virtual_memory_size s) (shared_set_size s) h t n p (file_refs s) (rlimit_as s) (objects s).
Definition with_files (f : gmap Z Z) (s : mm FS) : mm FS :=
  Mm (region_tree s) (regions s) (next_region s) (as_start s) (as_end s) (mmap_base s) (brk s)
    (virtual_memory_size s) (shared_set_size s) (vmo_head s) (vmo_tail s) (next_private s)
    (prev_private s) f (rlimit_as s) (objects s).
Definition with_objects (w : world FS) (s : mm FS) : mm FS :=
  Mm (region_tree s) (regions s) (next_region s) (as_start s) (as_end s) (mmap_base s) (brk s)
    (virtual_memory_size s) (shared_set_size s) (vmo_head s) (vmo_tail s) (next_private s)
    (prev_private s) (file_refs s) (rlimit_as s) w.

(** An operation of the tree, and one on the objects. *)
Definition in_tree {A} (m : M bst A) : VM A := λ s,
  match m (region_tree s) with
  | Done (a, t) => Done (a, with_tree t s)
  | Fault why => Fault why
  end.
Definition in_objects {A} (m : M (world FS) A) : VM A := λ s,
  match m (objects s) with
  | Done (a, w) => Done (a, with_objects w s)
  | Fault why => Fault why
  end.

Definition get_region (a : Z) : VM vm_region :=
  r ← gets (λ s, regions s !! a); from_opt r UseAfterFree.
Definition upd_region (a : Z) (f : vm_region → vm_region) : VM unit :=
  r ← get_region a;
  modify (λ s, with_regions (region_tree s) (<[a := f r]> (regions s)) (next_region s) s).

(** [fd_get] and [fd_put], as far as the reference count goes. *)
Definition fd_get (f : Z) : VM unit :=
  modify (λ s, with_files (<[f := default 0 (file_refs s !! f) + 1]> (file_refs s)) s).
Definition fd_put (f : Z) : VM unit :=
  modify (λ s, with_files (<[f := default 0 (file_refs s !! f) - 1]> (file_refs s)) s).

Definition increment_virtual (n : Z) : VM unit :=
  modify (λ s, with_stats (u64 (virtual_memory_size s + n)) (shared_set_size s) s).
Definition increment_shared (n : Z) : VM unit :=
  modify (λ s, with_stats (virtual_memory_size s) (u64 (shared_set_size s + n)) s).

(** ** Regions and the tree *)

(** The slab object is handed out zeroed and its node not in a tree; both callers
    overwrite it at once. *)
Definition vm_alloc_vmregion : VM (option Z) :=
  ok ← in_objects kmalloc;
  if negb ok then mret None
  else
    a ← gets next_region;
    modify (λ s, with_regions
      (Bst (root (region_tree s)) (<[a := BstNode 0 None None None]> (nodes (region_tree s))))
      (<[a := zero_region]> (regions s)) (a + 1) s);;
    mret (Some a).
Definition vm_free_vmregion (a : Z) : VM unit :=
  modify (λ s, with_regions
    (Bst (root (region_tree s)) (delete a (nodes (region_tree s))))
    (delete a (regions s)) (next_region s) s).

Definition vm_test_vs_rlimit (diff : Z) : VM bool :=
  if i64 diff <? 0 then mret true
  else s ← gets (λ s, (rlimit_as s, virtual_memory_size s)); mret (u64 (s.2 + diff) <=? s.1).

Definition vm_insert_region (a : Z) : VM bool :=
  regs ← gets regions; in_tree (bst_insert (region_cmp regs) a).

Definition vm_reserve_region (start size : Z) : VM (option Z) :=
  a ← vm_alloc_vmregion;
  match a with
  | None => mret None
  | Some a =>
      upd_region a (λ _, set_range start (vm_size_to_pages size) zero_region);;
      in_tree (bst_node_initialize a);;
      success ← vm_insert_region a;
      if negb success then crash KernelPanic else mret (Some a)
  end.

(** The loop over the gaps between regions. *)
Fixpoint gap_loop (fuel : nat) (min size node : Z) : VM Z :=
  match fuel with
  | O => crash OutOfFuel
  | S fuel =>
      f ← get_region node;
      let last_end := u64 (base f + region_size f) in
      next ← in_tree (bst_next (Some node));
      match next with
      | None => mret last_end
      | Some next =>
          v ← get_region next;
          if (size <=? u64 (base v - last_end)) && (min <=? base v) then mret last_end
          else gap_loop fuel min size next
      end
  end.

Definition vm_allocate_base (min size : Z) : VM Z :=
  start ← gets as_start;
  let min := if min <? start then start else min in
  regs ← gets regions;
  node ← (if negb (min =? start) then in_tree (bst_search (base_cmp regs) min)
          else in_tree (bst_min None));
  last_end ← match node with
             | None => mret min
             | Some a =>
                 f ← get_region a;
                 if size <=? u64 (base f - min) then mret min
                 else bound ← gets (λ s, walk_bound (region_tree s)); gap_loop bound min size a
             end;
  mret (if last_end <? min then min else last_end).

Definition vm_allocate_region (min size : Z) : VM (option Z) :=
  ok ← vm_test_vs_rlimit size;
  if negb ok then mret None
  else
    new_base ← vm_allocate_base min size;
    reg ← vm_reserve_region new_base size;
    match reg with
    | Some a => increment_virtual size;; mret (Some a)
    | None => mret None
    end.

Definition vm_search (addr length : Z) : VM (option Z) :=
  regs ← gets regions;
  in_tree (bst_search (search_cmp regs)
    (Z.land addr (u64 (- PAGE_SIZE)), vm_size_to_pages length)).

Definition vm_region_is_empty (addr length : Z) : VM bool :=
  r ← vm_search addr length; mret (bool_decide (r = None)).

Definition vm_find_region (addr : Z) : VM (option Z) := vm_search addr 2.

(** Every type of region of a process is placed from [mmap_base] on. *)
Definition vm_get_base_address : VM Z := gets mmap_base.

Definition __vm_allocate_virt_region (npages type prot : Z) : VM (option Z) :=
  base_addr ← vm_get_base_address;
  region ← vm_allocate_region base_addr (pages_to_size npages);
  match region with
  | None => mret None
  | Some a =>
      let prot := if has prot (Z.lor VM_WRITE VM_EXEC) then Z.lor prot VM_READ else prot in
      upd_region a (λ r, set_rtype type (set_rwx prot r));;
      mret (Some a)
  end.

Definition __vm_create_region_at (addr npages type prot : Z) : VM (option Z) :=
  empty ← vm_region_is_empty addr (pages_to_size npages);
  if negb empty then mret None
  else
    ok ← vm_test_vs_rlimit (pages_to_size npages);
    if negb ok then mret None
    else
      v ← vm_reserve_region addr (pages_to_size npages);
      match v with
      | None => mret None
      | Some a =>
          increment_virtual (pages_to_size npages);;
          upd_region a (λ r, set_rtype type (set_rwx prot (set_range addr npages r)));;
          mret (Some a)
      end.

Definition vm_remove_region (a : Z) : VM unit := in_tree (bst_delete a).
Definition vm_add_region (a : Z) : VM bool := vm_insert_region a.

Definition is_mapping_shared (r : vm_region) : bool := mapping_type r =? MAP_SHARED.

(** ** The list of private objects *)

Definition add_vmo_to_private_list (v : Z) : VM unit :=
  head ← gets vmo_head;
  match head with
  | None =>
      modify (λ s, with_private (Some v) (Some v) (delete v (next_private s))
                     (delete v (prev_private s)) s)
  | Some _ =>
      tail ← gets vmo_tail;
      old_tail ← from_opt tail NullDeref;
      modify (λ s, with_private (vmo_head s) (Some v)
                     (delete v (<[old_tail := v]> (next_private s)))
                     (<[v := old_tail]> (prev_private s)) s)
  end.

Definition remove_vmo_from_private_list (v : Z) : VM unit :=
  modify (λ s,
    match prev_private s !! v, next_private s !! v with
    | None, None => with_private None None (next_private s) (prev_private s) s
    | None, Some n => with_private (Some n) (vmo_tail s) (next_private s) (delete n (prev_private s)) s
    | Some p, None => with_private (vmo_head s) (Some p) (delete p (next_private s)) (prev_private s) s
    | Some p, Some n => with_private (vmo_head s) (vmo_tail s) (<[p := n]> (next_private s))
                          (<[n := p]> (prev_private s)) s
    end).

(** ** Unmapping *)

(** The [free_page] operation of file systems. *)
Context (free_other : Z → Z → M (world FS) unit).

Definition vm_region_destroy (a : Z) : VM unit :=
  r ← get_region a;
  match fd r with Some f => fd_put f | None => mret tt end;;
  match vmo r with
  | None => mret tt
  | Some v =>
      o ← in_objects (get_obj v);
      (if (vo_refcount o =? 1) && (negb (is_mapping_shared r) && negb (is_higher_half (base r)))
       then remove_vmo_from_private_list v else mret tt);;
      in_objects (vmo_remove_mapping v a);;
      in_objects (vmo_unref 2 v);;
      mret tt
  end;;
  vm_free_vmregion a.

(** The page tables are edited after the assertion; [__vm_unmap_range] calls this. *)
Definition do_vm_unmap (range : Z) : VM unit :=
  entry ← vm_find_region range;
  check (bool_decide (entry ≠ None)) AssertFailed.

(** A hole of [shave] bytes inside region [a], from [offset] on; [rest] bytes are left
    behind it. *)
Definition munmap_hole (a addr offset shave remainder : Z) : VM Z :=
  upd_region a (λ r, set_range (base r) (Z.shiftr offset PAGE_SHIFT) r);;
  n ← vm_reserve_region (u64 (addr + shave)) (u64 (remainder - shave));
  match n with
  | None => mret (- ENOMEM)
  | Some new_region =>
      r ← get_region a;
      upd_region new_region (set_rwx (rwx r));;
      match fd r with
      | Some f => fd_get f;; upd_region new_region (set_fd (Some f))
      | None => mret tt
      end;;
      upd_region new_region (λ n,
        set_rflags (rflags r) (set_offset (i64 (offset + shave))
          (set_mapping_type (mapping_type r) n)));;
      v ← from_opt (vmo r) NullDeref;
      shared ← (if is_mapping_shared r then mret true else in_objects (vmo_is_shared v));
      if negb shared then
        second ← in_objects (vmo_split free_other offset shave v);
        match second with
        | None => vm_remove_region new_region;; mret (- ENOMEM)
        | Some second =>
            add_vmo_to_private_list second;;
            upd_region new_region (set_vmo (Some second));;
            in_objects (vmo_assign_mapping second new_region);;
            upd_region new_region (set_offset 0);;
            mret 0
        end
      else
        in_objects (vmo_assign_mapping v new_region);;
        in_objects (vmo_ref v);;
        upd_region new_region (set_vmo (Some v));;
        mret 0
  end.

(** The end of region [a] goes. *)
Definition munmap_tail (a shave : Z) : VM unit :=
  upd_region a (λ r, set_range (base r) (u64 (pages r - Z.shiftr shave PAGE_SHIFT)) r);;
  r ← get_region a;
  (if is_mapping_shared r then mret tt
   else
     v ← from_opt (vmo r) NullDeref;
     shared ← in_objects (vmo_is_shared v);
     if negb shared then
       o ← in_objects (get_obj v);
       in_objects (vmo_truncate free_other v (u64 (vo_size o - shave)) 0);; mret tt
     else mret tt).

(** One region: what is left of it, an error or 0, and the number of bytes unmapped. *)
Definition munmap_region (a addr size : Z) : VM (Z * Z) :=
  r ← get_region a;
  let rsize := region_size r in
  if base r =? addr then
    let to_shave_off := if size <? rsize then size else rsize in
    (if negb (to_shave_off =? rsize) then
       upd_region a (λ r,
         set_offset (i64 (offset r + to_shave_off))
           (set_range (u64 (base r + to_shave_off))
              (u64 (pages r - Z.shiftr to_shave_off PAGE_SHIFT)) r))
     else vm_remove_region a;; vm_region_destroy a);;
    mret (0, to_shave_off)
  else if base r <? addr then
    let offset := u64 (addr - base r) in
    let remainder := u64 (rsize - offset) in
    let to_shave_off := if size <? remainder then size else remainder in
    if negb (to_shave_off =? remainder)
    then st ← munmap_hole a addr offset to_shave_off remainder; mret (st, to_shave_off)
    else munmap_tail a to_shave_off;; mret (0, to_shave_off)
  else mret (0, 0).

Fixpoint munmap_loop (fuel : nat) (start oldsize limit addr size : Z) : VM Z :=
  match fuel with
  | O => crash OutOfFuel
  | S fuel =>
      if negb (addr <? limit) then mret 0
      else
        region ← vm_search (Z.land start (u64 (- PAGE_SIZE))) oldsize;
        match region with
        | None => mret (- EINVAL)
        | Some a =>
            r ← get_region a;
            do_vm_unmap addr;;
            '(st, to_shave_off) ← munmap_region a addr size;
            if st <? 0 then mret st
            else
              increment_virtual (- to_shave_off);;
              (if is_mapping_shared r then increment_shared (- to_shave_off) else mret tt);;
              munmap_loop fuel start oldsize limit (u64 (addr + to_shave_off))
                (u64 (size - to_shave_off))
        end
  end.

Definition __vm_munmap (addr size : Z) : VM Z :=
  let aligned := align_up2 size PAGE_SIZE in
  bound ← gets (λ s, walk_bound (region_tree s));
  munmap_loop (S bound) addr size (u64 (addr + aligned)) addr aligned.

Fixpoint unmap_range_loop (fuel : nat) (start length limit : Z) : VM unit :=
  match fuel with
  | O => crash OutOfFuel
  | S fuel =>
      reg ← vm_search start length;
      match reg with
      | None => mret tt
      | Some a =>
          r ← get_region a;
          let reg_len := region_size r in
          let reg_addr := if base r <? start then start else base r in
          let to_unmap := if u64 (limit - reg_addr) <? reg_len then u64 (limit - reg_addr) else reg_len in
          if to_unmap =? 0 then mret tt
          else
            st ← __vm_munmap reg_addr to_unmap;
            check (st =? 0) AssertFailed;;
            unmap_range_loop fuel start length limit
      end
  end.

Definition vm_unmap_every_region_in_range (start length : Z) : VM unit :=
  bound ← gets (λ s, walk_bound (region_tree s));
  unmap_range_loop (S bound) start length (u64 (start + length)).

Definition vm_munmap (addr size : Z) : VM Z :=
  s ← gets (λ s, (as_start s, as_end s));
  if (addr <? s.1) || (s.2 <? addr) then mret (- EINVAL)
  else if size =? 0 then mret (- EINVAL)
  else if has addr (PAGE_SIZE - 1) then mret (- EINVAL)
  else vm_unmap_every_region_in_range addr size;; mret 0.

Definition sys_munmap (addr length : Z) : VM Z :=
  if is_higher_half addr then mret (- EINVAL)
  else
    let npages := vm_size_to_pages length in
    if has addr (PAGE_SIZE - 1) then mret (- EINVAL)
    else vm_munmap addr (pages_to_size npages).

(** ** Protection *)

Definition vm_copy_region (source dest : Z) : VM unit :=
  r ← get_region source;
  upd_region dest (set_fd (fd r));;
  match fd r with Some f => fd_get f | None => mret tt end;;
  upd_region dest (λ d,
    set_vmo (vmo r) (set_offset (offset r) (set_mapping_type (mapping_type r)
      (set_rwx (rwx r) (set_rflags (rflags r) d)))));;
  v ← from_opt (vmo r) NullDeref;
  in_objects (vmo_assign_mapping v dest);;
  in_objects (vmo_ref v);;
  upd_region dest (set_rtype (rtype r)).

(** The region that covers exactly the first [size] bytes of region [a] from [addr] on,
    or all of them, and their number. *)
Definition vm_split_region (a addr size : Z) : VM (option Z * Z) :=
  r ← get_region a;
  let rsize := region_size r in
  if base r =? addr then
    let to_shave_off := if size <? rsize then size else rsize in
    if negb (to_shave_off =? rsize) then
      vm_remove_region a;;
      upd_region a (λ r,
        set_offset (i64 (offset r + to_shave_off))
          (set_range (u64 (base r + to_shave_off))
             (u64 (pages r - Z.shiftr to_shave_off PAGE_SHIFT)) r));;
      vm_add_region a;;
      reg ← vm_reserve_region addr to_shave_off;
      match reg with
      | None => mret (None, to_shave_off)
      | Some reg =>
          vm_copy_region a reg;;
          upd_region reg (λ n,
            set_offset (offset r) (set_range addr (Z.shiftr to_shave_off PAGE_SHIFT) n));;
          mret (Some reg, to_shave_off)
      end
    else mret (Some a, to_shave_off)
  else if base r <? addr then
    let off := u64 (addr - base r) in
    let remainder := u64 (rsize - off) in
    let to_shave_off := if size <? remainder then size else remainder in
    if negb (to_shave_off =? remainder) then
      vm_remove_region a;;
      n ← vm_reserve_region (u64 (addr + to_shave_off)) (u64 (remainder - to_shave_off));
      match n with
      | None => mret (None, to_shave_off)
      | Some new_region =>
          vm_copy_region a new_region;;
          upd_region new_region (λ n, set_offset (i64 (offset n + (off + to_shave_off))) n);;
          t ← vm_reserve_region addr to_shave_off;
          match t with
          | None => vm_remove_region new_region;; mret (None, to_shave_off)
          | Some to_ret =>
              vm_copy_region a to_ret;;
              upd_region to_ret (λ t, set_offset (i64 (offset t + off)) t);;
              upd_region a (λ r, set_range (base r) (Z.shiftr off PAGE_SHIFT) r);;
              vm_add_region a;;
              mret (Some to_ret, to_shave_off)
          end
      end
    else
      upd_region a (λ r, set_range (base r) (u64 (pages r - Z.shiftr to_shave_off PAGE_SHIFT)) r);;
      t ← vm_reserve_region addr to_shave_off;
      match t with
      | None => mret (None, to_shave_off)
      | Some to_ret =>
          vm_copy_region a to_ret;;
          upd_region to_ret (λ t, set_offset (i64 (offset t + off)) t);;
          mret (Some to_ret, to_shave_off)
      end
  else crash Unreachable.

(** The protection of the page tables, which [*pprot] carries, is not part of the state. *)
Definition vm_mprotect_in_region (a addr size prot : Z) : VM (Z * Z) :=
  '(n, to_shave_off) ← vm_split_region a addr size;
  match n with
  | None => mret (- ENOMEM, to_shave_off)
  | Some new_region => upd_region new_region (set_rwx prot);; mret (0, to_shave_off)
  end.

(** May the file be written through its descriptor? ([fd_may_access]) *)
Context (fd_may_write : Z → bool).

Fixpoint mprotect_loop (fuel : nat) (start prot limit addr size : Z) : VM Z :=
  match fuel with
  | O => crash OutOfFuel
  | S fuel =>
      if negb (addr <? limit) then mret 0
      else
        region ← vm_search start size;
        match region with
        | None => mret (- EINVAL)
        | Some a =>
            r ← get_region a;
            if is_mapping_shared r &&
               match fd r with Some f => has prot PROT_WRITE && negb (fd_may_write f) | None => false end
            then mret (- EACCES)
            else
              '(st, to_shave_off) ← vm_mprotect_in_region a addr size prot;
              if st <? 0 then mret st
              else mprotect_loop fuel start prot limit (u64 (addr + to_shave_off))
                     (u64 (size - to_shave_off))
        end
  end.

Definition vm_mprotect (fuel : nat) (addr size prot : Z) : VM Z :=
  mprotect_loop fuel addr prot (u64 (addr + size)) addr size.

Definition prot_to_vm (prot : Z) : Z :=
  Z.lor VM_USER (Z.lor (if has prot PROT_WRITE then VM_WRITE else 0)
    (Z.lor (if has prot PROT_EXEC then VM_EXEC else 0) (if has prot PROT_READ then VM_READ else 0))).

Definition sys_mprotect (fuel : nat) (addr len prot : Z) : VM Z :=
  if is_higher_half addr then mret (- EINVAL)
  else
    area ← vm_find_region addr;
    match area with
    | None => mret (- EINVAL)
    | Some _ =>
        if has addr (PAGE_SIZE - 1) then mret (- EINVAL)
        else if has len (PAGE_SIZE - 1) then mret (- EINVAL)
        else
          let vm_prot := prot_to_vm prot in
          let vm_prot := if has prot PROT_WRITE then Z.lor vm_prot VM_READ else vm_prot in
          vm_mprotect fuel addr (pages_to_size (vm_size_to_pages len)) vm_prot
    end.

(** ** Growing regions, and the program break *)

Definition vm_next_region (a : Z) : VM (option Z) := in_tree (bst_next (Some a)).

Definition vm_can_expand (a new_size : Z) : VM bool :=
  r ← get_region a;
  if new_size <? region_size r then mret true
  else
    next ← vm_next_region a;
    match next with
    | None => mret true
    | Some next => n ← get_region next; mret (new_size <=? u64 (base n - base r))
    end.

Definition __vm_expand_mapping (a new_size : Z) : VM Z :=
  r ← get_region a;
  let diff := u64 (new_size - region_size r) in
  ok ← vm_test_vs_rlimit new_size;
  if negb ok then mret (- ENOMEM)
  else
    upd_region a (λ r, set_range (base r) (Z.shiftr new_size PAGE_SHIFT) r);;
    v ← from_opt (vmo r) NullDeref;
    in_objects (vmo_resize free_other new_size v);;
    increment_virtual diff;;
    (if is_mapping_shared r then increment_shared diff else mret tt);;
    mret 0.

Definition vm_expand_mapping (a new_size : Z) : VM Z :=
  ok ← vm_can_expand a new_size;
  if negb ok then mret (-1) else __vm_expand_mapping a new_size.

Definition vm_expand_brk (nr_pages : Z) : VM Z :=
  b ← gets brk;
  r ← vm_find_region b;
  a ← from_opt r AssertFailed;
  reg ← get_region a;
  vm_expand_mapping a (pages_to_size (u64 (pages reg + nr_pages))).

Definition page_align_up (p : Z) : Z := Z.land (u64 (p + PAGE_SIZE - 1)) (u64 (- PAGE_SIZE)).

Definition do_inc_brk (oldbrk newbrk : Z) : VM Z :=
  let npages := u64 (page_align_up newbrk - page_align_up oldbrk) / PAGE_SIZE in
  if 0 <? npages then vm_expand_brk npages else mret 0.

Definition sys_brk (newbrk : Z) : VM Z :=
  old_brk ← gets brk;
  if newbrk =? 0 then mret old_brk
  else if i64 (newbrk - old_brk) <? 0 then modify (with_brk newbrk);; mret newbrk
  else
    st ← do_inc_brk old_brk newbrk;
    if st <? 0 then mret (u64 (- ENOMEM)) else modify (with_brk newbrk);; mret newbrk.

(** ** Creating mappings *)

(** Files, by their inode: the object of its page cache, and the [mmap] operation of a
    device, whose result is an errno or an address. *)
Context (f_ino i_pages : Z → Z) (is_device : Z → bool)
        (device_mmap : Z → option (Z → VM (Z + Z))).

Definition set_vino (i : Z) (o : vm_object) : vm_object :=
  VmObject (vo_type o) (vo_size o) (vo_flags o) (vo_pages o) (vo_priv o) (vo_ops o)
    (vo_mappings o) (cow_clone o) (Some i) (vo_refcount o) (forked_from o).

(** The object for region [a]: a new reference to the page cache, a private copy of it, or
    anonymous memory. *)
Definition backing_object (a npages : Z) (is_file_backed : bool) : VM (option Z) :=
  r ← get_region a;
  if is_file_backed && is_mapping_shared r then
    f ← from_opt (fd r) NullDeref;
    in_objects (vmo_ref (i_pages (f_ino f)));;
    mret (Some (i_pages (f_ino f)))
  else if is_file_backed then
    v ← in_objects (vmo_create (u64 (npages * PAGE_SIZE)) (offset r));
    match v with
    | None => mret None
    | Some v =>
        f ← from_opt (fd r) NullDeref;
        in_objects (upd_obj v (λ o, set_vino (f_ino f) (set_vops (vo_type o) vm_private_file_map_ops o)));;
        in_objects (vmo_do_cow v (i_pages (f_ino f)));;
        upd_region a (set_offset 0);;
        mret (Some v)
    end
  else in_objects (vmo_create_phys (u64 (npages * PAGE_SIZE))).

Definition vm_region_setup_backing (a npages : Z) (is_file_backed : bool) : VM Z :=
  v ← backing_object a npages is_file_backed;
  match v with
  | None => mret (-1)
  | Some v =>
      r ← get_region a;
      in_objects (vmo_assign_mapping v a);;
      (if negb (is_mapping_shared r) && negb (is_higher_half (base r))
       then add_vmo_to_private_list v else mret tt);;
      (if is_mapping_shared r then increment_shared (region_size r) else mret tt);;
      check (bool_decide (vmo r = None)) AssertFailed;;
      upd_region a (set_vmo (Some v));;
      mret 0
  end.

(** The region of a new mapping: where the caller wants it or where there is room. *)
Definition mmap_area (addr npages flags prot : Z) : VM (option Z) :=
  let addr := if is_higher_half addr then 0 else addr in
  if addr =? 0 then __vm_allocate_virt_region npages VM_TYPE_SHARED prot
  else
    (if has flags MAP_FIXED then vm_unmap_every_region_in_range addr (pages_to_size npages) else mret tt);;
    area ← __vm_create_region_at addr npages VM_TYPE_REGULAR prot;
    match area with
    | Some a => mret (Some a)
    | None =>
        if has flags MAP_FIXED then mret None
        else __vm_allocate_virt_region npages VM_TYPE_REGULAR prot
    end.

(** An errno or the address of the mapping.  [vm_may_merge_with_adj] returns false in every
    case, so a new region is never merged with the one before it. *)
Definition vm_mmap (addr length prot flags : Z) (file : option Z) (off : Z) : VM (Z + Z) :=
  if has off (PAGE_SIZE - 1) then mret (inl EINVAL)
  else
    let npages := vm_size_to_pages length in
    let prot := if has prot (Z.lor PROT_WRITE PROT_EXEC) then Z.lor prot PROT_READ else prot in
    if (is_higher_half addr || (addr =? 0)) && has flags MAP_FIXED then mret (inl ENOMEM)
    else
      area ← mmap_area addr npages flags (prot_to_vm prot);
      match area with
      | None => mret (inl ENOMEM)
      | Some a =>
          upd_region a (set_mapping_type (if has flags MAP_SHARED then MAP_SHARED else MAP_PRIVATE));;
          r ← get_region a;
          match file with
          | Some f =>
              upd_region a (λ r, set_fd (Some f) (set_offset off (set_rtype VM_TYPE_FILE_BACKED r)));;
              fd_get f
          | None => mret tt
          end;;
          match (if file is Some f then if is_device (f_ino f) then Some f else None else None) with
          | Some f =>
              match device_mmap (f_ino f) with
              | None =>
                  __vm_munmap (base r) (pages_to_size npages);; mret (inl ENODEV)
              | Some op =>
                  ret ← op a;
                  match ret with
                  | inl e => __vm_munmap (base r) (pages_to_size npages);; mret (inl e)
                  | inr p => mret (inr p)
                  end
              end
          | None =>
              st ← vm_region_setup_backing a npages (negb (has flags MAP_ANONYMOUS));
              if st <? 0 then __vm_munmap (base r) (pages_to_size npages);; mret (inl ENOMEM)
              else mret (inr (base r))
          end
      end.

(** The descriptor table: an errno or a file, to which a reference is taken. *)
Context (get_file_description : Z → Z + Z) (fd_may_read : Z → bool).

Definition sys_mmap (addr length prot flags fdno off : Z) : VM Z :=
  if length =? 0 then mret (u64 (- EINVAL))
  else if negb (has flags MAP_PRIVATE) && negb (has flags MAP_SHARED) then mret (u64 (- EINVAL))
  else if has flags MAP_PRIVATE && has flags MAP_SHARED then mret (u64 (- EINVAL))
  else if negb (Z.rem off PAGE_SIZE =? 0) then mret (u64 (- EINVAL))
  else if negb (has flags MAP_ANONYMOUS) then
    match get_file_description fdno with
    | inl e => mret (u64 (- e))
    | inr f =>
        fd_get f;;
        if negb (fd_may_read f) then fd_put f;; mret (u64 (- EACCES))
        else if negb (fd_may_write f) && (has prot PROT_WRITE && has flags MAP_SHARED)
        then fd_put f;; mret (u64 (- EACCES))
        else
          ret ← vm_mmap addr length prot flags (Some f) off;
          fd_put f;;
          mret (match ret with inl e => u64 (- e) | inr p => p end)
    end
  else
    ret ← vm_mmap addr length prot flags None off;
    mret (match ret with inl e => u64 (- e) | inr p => p end).

(** A new address space, and the first region of the program break. *)
Definition vm_create_brk (brk_base : Z) : VM Z :=
  r ← vm_mmap brk_base (Z.shiftl 1 PAGE_SHIFT) PROT_WRITE
        (Z.lor MAP_PRIVATE (Z.lor MAP_FIXED MAP_ANONYMOUS)) None 0;
  match r with
  | inl _ => modify (with_brk 0);; mret (- ENOMEM)
  | inr b => modify (with_brk b);; mret 0
  end.
End vm.
