(* ===== verification/VmLayout.v ===== *)
(** * VmLayout: the regions of an address space in order.

    [layout t m nx R]: the tree [t] holds the regions [R], which are stored in [m], made
    of whole pages, below the kernel's half, disjoint and in the order of their
    addresses.  One contract per operation on the tree. *)

From stdpp Require Import sorting.
From S2P Require Import Prelude Bits Abi PageAlloc Frames VmObject VmObjectPurge Wavl WavlTree.
From S2P Require Import WavlHeap WavlOps WavlCalls WavlProps Vm.

Abbreviation rlist := (list (Z * vm_region)).

Definition rend (r : vm_region) : Z := base r + PAGE_SIZE * pages r.

Record fits (r : vm_region) : Prop := Fits {
  fits_base : 0 <= base r;
  fits_aligned : base r mod PAGE_SIZE = 0;
  fits_pages : 1 <= pages r;
  fits_end : rend r <= VM_HIGHER_HALF;
}.

Definition before (x y : Z * vm_region) : Prop := rend x.2 <= base y.2.

Record layout (t : bst) (m : gmap Z vm_region) (nx : Z) (R : rlist) : Prop := Layout {
  lay_tree : WavlProps.holds t R.*1;
  lay_regs : ∀ a r, (a, r) ∈ R → m !! a = Some r;
  lay_fits : ∀ a r, (a, r) ∈ R → fits r;
  lay_order : StronglySorted before R;
  lay_fresh : ∀ a, nx <= a → m !! a = None ∧ nodes t !! a = None;
}.

(** The bytes [b] to [e], without [e], and a region have a byte in common. *)
Definition touches (b e : Z) (r : vm_region) : Prop := base r < e ∧ b < rend r.

#[export] Instance touches_dec b e r : Decision (touches b e r).
Proof. apply _. Defined.

(** ** Arithmetic *)

Lemma page_size : PAGE_SIZE = 4096.
Proof. done. Qed.
Lemma higher_half : VM_HIGHER_HALF = 2 ^ 64 - 2 ^ 47.
Proof. done. Qed.

Lemma fits_bounds r : fits r → 0 <= base r ∧ base r + 4096 <= rend r ∧ rend r < 2 ^ 64 ∧
  4096 * pages r = rend r - base r ∧ 1 <= pages r < 2 ^ 52.
Proof. intros [? ? ? He]. unfold rend in *. rewrite page_size in *. rewrite higher_half in He. lia. Qed.

Lemma pages_to_size_small n : 0 <= n < 2 ^ 52 → pages_to_size n = 4096 * n.
Proof.
  intros Hn. unfold pages_to_size, PAGE_SHIFT. rewrite Z.shiftl_mul_pow2 by done.
  rewrite u64_small; lia.
Qed.

Lemma region_size_fits r : fits r → region_size r = rend r - base r.
Proof. intros (? & ? & ? & ? & ?)%fits_bounds. unfold region_size. rewrite pages_to_size_small; lia. Qed.

Lemma region_last_small b n : 0 <= b → 1 <= n → b + 4096 * n <= 2 ^ 64 → region_last b n = b + 4096 * n - 1.
Proof.
  intros ? ? ?. unfold region_last. destruct (decide (n = 2 ^ 52)) as [->|].
  - assert (b = 0) as -> by lia. by vm_compute.
  - rewrite pages_to_size_small by lia. rewrite u64_small; lia.
Qed.

Lemma region_last_fits r : fits r → region_last (base r) (pages r) = rend r - 1.
Proof. intros (? & ? & ? & ? & ?)%fits_bounds. rewrite region_last_small; lia. Qed.

Lemma size_to_pages_mul k : 0 <= k → vm_size_to_pages (4096 * k) = k.
Proof.
  intros ?. unfold vm_size_to_pages, PAGE_SHIFT, has. change (PAGE_SIZE - 1) with 4095.
  rewrite land_low_page, Z.shiftr_div_pow2 by done. change (2 ^ 12) with 4096.
  replace (4096 * k mod 4096) with 0 by (rewrite Z.mul_comm, Z.mod_mul; lia).
  replace (4096 * k / 4096) with k by (rewrite Z.mul_comm, Z.div_mul; lia). simpl. lia.
Qed.

Lemma page_of_aligned x : x mod 4096 = 0 → page_of x = x.
Proof. intros E. unfold page_of, PAGE_SIZE. lia. Qed.

Lemma mask_page x : 0 <= x < 2 ^ 64 → Z.land x (u64 (- PAGE_SIZE)) = page_of x.
Proof. intros ?. change (u64 (- PAGE_SIZE)) with (2 ^ 64 - 4096). by rewrite land_page_mask. Qed.

Lemma mul_page x : x mod 4096 = 0 → ∃ k, x = 4096 * k.
Proof. intros E. exists (x / 4096). pose proof (Z.div_mod x 4096). lia. Qed.

(** ** Lists of regions *)

Lemma elem_mid {A} (l1 : list A) x l2 : x ∈ l1 ++ x :: l2.
Proof. rewrite list.elem_of_app, list.elem_of_cons. auto. Qed.
Lemma elem_mid_inv {A} (l1 : list A) x l2 y : y ∈ l1 ++ x :: l2 → y = x ∨ y ∈ l1 ++ l2.
Proof. rewrite !list.elem_of_app, list.elem_of_cons. tauto. Qed.

Section lists.
Implicit Types (R : rlist) (r : vm_region).

Definition ordered R : Prop := StronglySorted before R ∧ ∀ a r, (a, r) ∈ R → fits r.

Lemma ordered_cons a r R :
  ordered ((a, r) :: R) ↔ fits r ∧ ordered R ∧ ∀ b q, (b, q) ∈ R → rend r <= base q.
Proof.
  unfold ordered. split.
  - intros [[Hs Hf]%StronglySorted_inv Hfit]. split_and!; [by eapply Hfit; left|done|by intros; eapply Hfit; right|].
    intros b q Hq. rewrite list.Forall_forall in Hf. exact (Hf _ Hq).
  - intros (Hr & [Hs Hf] & Hb). split.
    + constructor; [done|]. apply list.Forall_forall. intros [b q] Hq. by eapply Hb.
    + intros b q [[= -> ->]|Hq]%list.elem_of_cons; [done|by eapply Hf].
Qed.

Lemma ordered_app R1 R2 :
  ordered (R1 ++ R2) ↔ ordered R1 ∧ ordered R2 ∧
    ∀ a r b q, (a, r) ∈ R1 → (b, q) ∈ R2 → rend r <= base q.
Proof.
  induction R1 as [|[a r] R1 IH]; simpl.
  - split; [|by intros (_ & ? & _)]. intros HR. split_and!; [split; [constructor|]|done|];
      by intros * ?%not_elem_of_nil.
  - rewrite !ordered_cons, IH. split.
    + intros (Hf & (H1 & H2 & H3) & H4). split_and!; try done.
      * intros b q Hq. eapply H4. apply list.elem_of_app. by left.
      * intros x rx b q [[= -> ->]|Hx]%list.elem_of_cons Hq; [|by eapply H3].
        eapply H4. apply list.elem_of_app. by right.
    + intros ((Hf & H1 & H4) & H2 & H3). split_and!; try done.
      * intros x rx b q Hx. eapply H3. by right.
      * intros b q [Hq|Hq]%list.elem_of_app; [by eapply H4|]. eapply H3; [by left|done].
Qed.

Lemma ordered_mid R1 a r R2 :
  ordered (R1 ++ (a, r) :: R2) ↔ ordered (R1 ++ R2) ∧ fits r ∧
    (∀ b q, (b, q) ∈ R1 → rend q <= base r) ∧ (∀ b q, (b, q) ∈ R2 → rend r <= base q).
Proof.
  rewrite !ordered_app, ordered_cons. split.
  - intros (H1 & (Hf & H2 & H3) & H4). split_and!; try done.
    + intros * Hx Hy. eapply H4; [done|by right].
    + intros b q Hq. eapply H4; [done|by left].
  - intros ((H1 & H2 & H3) & Hf & H4 & H5). split_and!; try done.
    intros x rx b q Hx [[= -> ->]|Hq]%list.elem_of_cons; [by eapply H4|by eapply H3].
Qed.

(** The room regions take: there are fewer than 2^52 of them. *)
Lemma ordered_length R lo : ordered R → 0 <= lo <= VM_HIGHER_HALF → (∀ a r, (a, r) ∈ R → lo <= base r) →
  lo + 4096 * Z.of_nat (length R) <= VM_HIGHER_HALF.
Proof.
  revert lo. induction R as [|[a r] R IH]; intros lo HR Hlo Hb; [simpl; lia|].
  apply ordered_cons in HR as (Hf & HR & Hn). pose proof (fits_bounds _ Hf) as (? & ? & ? & ? & ?).
  pose proof (fits_end _ Hf). pose proof (Hb a r ltac:(by left)).
  specialize (IH (rend r) HR ltac:(lia) Hn). simpl. lia.
Qed.

(** What lies before, within and behind the bytes from [b] to [e]. *)
Lemma ordered_split R b e : ordered R → b <= e →
  ∃ R1 M R2, R = R1 ++ M ++ R2 ∧ (∀ a r, (a, r) ∈ R1 → rend r <= b) ∧
    (∀ a r, (a, r) ∈ M → touches b e r) ∧ (∀ a r, (a, r) ∈ R2 → e <= base r).
Proof.
  intros HR Hbe. induction R as [|[a r] R IH].
  { exists [], [], []. split_and!; [done|..]; by intros * ?%not_elem_of_nil. }
  apply ordered_cons in HR as (Hf & HR & Hn). pose proof (fits_bounds _ Hf).
  destruct (IH HR) as (R1 & M & R2 & -> & H1 & HM & H2).
  destruct (decide (rend r <= b)).
  { exists ((a, r) :: R1), M, R2. split_and!; try done.
    intros x q [[= -> ->]|Hx]%list.elem_of_cons; [done|by eapply H1]. }
  assert (R1 = []) as ->.
  { destruct R1 as [|[x q] R1]; [done|]. exfalso. specialize (H1 x q ltac:(by left)).
    pose proof (Hn x q ltac:(by left)). apply ordered_cons in HR as (Hq & _).
    pose proof (fits_bounds _ Hq). lia. }
  simpl in *. destruct (decide (e <= base r)).
  - exists [], [], ((a, r) :: M ++ R2). split_and!; try done.
    + by intros * ?%not_elem_of_nil.
    + intros x q [[= -> ->]|Hx]%list.elem_of_cons; [done|]. specialize (Hn _ _ Hx). lia.
  - exists [], ((a, r) :: M), R2. split_and!; try done.
    intros x q [[= -> ->]|Hx]%list.elem_of_cons; [unfold touches; lia|by eapply HM].
Qed.
End lists.

(** ** Comparisons *)

Section compare.
Context {t : bst} {m : gmap Z vm_region} {nx : Z} {R : rlist} (HL : layout t m nx R).

Lemma layout_ordered : ordered R.
Proof. destruct HL. by split. Qed.

Lemma layout_nodup : NoDup R.*1.
Proof. eapply holds_nodup, lay_tree, HL. Qed.

Lemma layout_old a r : (a, r) ∈ R → a < nx.
Proof.
  intros Ha. apply Z.nle_gt. intros Hge. destruct (lay_fresh _ _ _ _ HL a Hge) as [E _].
  rewrite (lay_regs _ _ _ _ HL _ _ Ha) in E. done.
Qed.

Lemma layout_length : Z.of_nat (length R.*1) + 1 < 2 ^ 64.
Proof.
  assert (0 + 4096 * Z.of_nat (length R) <= VM_HIGHER_HALF) as Hl.
  { apply ordered_length; [apply layout_ordered|by rewrite higher_half|].
    intros a r Hr. by destruct (lay_fits _ _ _ _ HL _ _ Hr). }
  rewrite higher_half in Hl. rewrite length_fmap. lia.
Qed.

Lemma overlap_spec r b e : fits r →
  check_for_overlap (base r) (region_last (base r) (pages r)) b (e - 1) = bool_decide (touches b e r).
Proof.
  intros Hf. rewrite (region_last_fits _ Hf). unfold check_for_overlap, touches.
  case_bool_decide; lia.
Qed.

Lemma Forall_firsts (P : Z → Prop) (l : rlist) : (∀ a r, (a, r) ∈ l → P a) → Forall P l.*1.
Proof. intros HP. apply Forall_fmap, list.Forall_forall. intros [a r] Ha. by eapply HP. Qed.

Lemma search_parts b n R1 M R2 :
  R = R1 ++ M ++ R2 → 0 <= b → 1 <= n → b + 4096 * n <= 2 ^ 64 →
  (∀ a r, (a, r) ∈ R1 → rend r <= b) → (∀ a r, (a, r) ∈ M → touches b (b + 4096 * n) r) →
  (∀ a r, (a, r) ∈ R2 → b + 4096 * n <= base r) →
  parts (search_cmp m) (b, n) R1.*1 M.*1 R2.*1.
Proof.
  intros HR Hb Hn He H1 HM H2.
  assert (∀ a r, (a, r) ∈ R → search_cmp m a (b, n) = Done (if bool_decide (touches b (b + 4096 * n) r)
    then 0 else if base r <? b then 1 else -1)) as Hcmp.
  { intros a r Ha. unfold search_cmp. rewrite (lay_regs _ _ _ _ HL _ _ Ha), (region_last_small b n) by done.
    rewrite overlap_spec by exact (lay_fits _ _ _ _ HL _ _ Ha). by case_bool_decide. }
  assert (∀ a r, (a, r) ∈ R → fits r) as Hfit by apply HL.
  subst R. split_and!; apply Forall_firsts; intros a r Ha;
    rewrite (Hcmp a r) by (rewrite !list.elem_of_app; tauto);
    pose proof (fits_bounds r (Hfit a r ltac:(rewrite !list.elem_of_app; tauto))).
  - specialize (H1 _ _ Ha). eexists. split; [done|]. rewrite bool_decide_false by (unfold touches; lia).
    rewrite (proj2 (Z.ltb_lt _ _)) by lia. lia.
  - specialize (HM _ _ Ha). by rewrite bool_decide_true.
  - specialize (H2 _ _ Ha). eexists. split; [done|]. rewrite bool_decide_false by (unfold touches; lia).
    rewrite (proj2 (Z.ltb_ge _ _)) by lia. lia.
Qed.

Lemma insert_parts a r R1 R2 :
  R = R1 ++ R2 → m !! a = Some r → fits r →
  (∀ b q, (b, q) ∈ R1 → rend q <= base r) → (∀ b q, (b, q) ∈ R2 → rend r <= base q) →
  parts (region_cmp m) a R1.*1 [] R2.*1.
Proof.
  intros HR Ha Hf H1 H2. pose proof (fits_bounds _ Hf).
  assert (∀ b q, (b, q) ∈ R → ¬ touches (base r) (rend r) q →
    region_cmp m b a = Done (if base q <? base r then 1 else -1)) as Hcmp.
  { intros b q Hb Ht. unfold region_cmp. rewrite (lay_regs _ _ _ _ HL _ _ Hb), Ha, (region_last_fits r) by done.
    rewrite overlap_spec by exact (lay_fits _ _ _ _ HL _ _ Hb). by rewrite bool_decide_false. }
  assert (∀ b q, (b, q) ∈ R → fits q) as Hfit by apply HL.
  subst R. split_and!; [| |]; [|done|]; apply Forall_firsts; intros b q Hb;
    pose proof (fits_bounds q (Hfit b q ltac:(rewrite !list.elem_of_app; tauto)));
    rewrite (Hcmp b q); try (rewrite !list.elem_of_app; tauto).
  - specialize (H1 _ _ Hb). eexists. split; [done|]. rewrite (proj2 (Z.ltb_lt _ _)); lia.
  - specialize (H1 _ _ Hb). unfold touches. lia.
  - specialize (H2 _ _ Hb). eexists. split; [done|]. rewrite (proj2 (Z.ltb_ge _ _)); lia.
  - specialize (H2 _ _ Hb). unfold touches. lia.
Qed.
End compare.

(** ** Changes of a layout *)

Lemma layout_nodes t m nx R a r : layout t m nx R → (a, r) ∈ R → a ∈ dom (nodes t).
Proof.
  intros HL Ha. eapply holds_dom; [apply HL|]. apply list_elem_of_fmap. by exists (a, r).
Qed.

(** The region [a], which is in the tree, becomes [r']. *)
Lemma layout_update t m nx R1 a r r' R2 :
  layout t m nx (R1 ++ (a, r) :: R2) → ordered (R1 ++ (a, r') :: R2) →
  layout t (<[a := r']> m) nx (R1 ++ (a, r') :: R2).
Proof.
  intros HL Ho. pose proof (layout_nodup HL) as HN. destruct Ho as [Hs Hf]. split; try done.
  - pose proof (lay_tree _ _ _ _ HL) as Ht. rewrite fmap_app in *. exact Ht.
  - intros b q Hb. destruct (decide (b = a)) as [->|Hne].
    + rewrite lookup_insert_eq. f_equal. rewrite fmap_app in HN. simpl in HN.
      apply list.NoDup_app in HN as (_ & HN1 & [HN2 _]%list.NoDup_cons).
      apply list.elem_of_app in Hb as [Hb|[[= ->]|Hb]%list.elem_of_cons]; [|done|].
      * destruct (HN1 a); [|by left]. apply list_elem_of_fmap. by exists (a, q).
      * destruct HN2. apply list_elem_of_fmap. by exists (a, q).
    + rewrite lookup_insert_ne by done. eapply (lay_regs _ _ _ _ HL).
      rewrite list.elem_of_app, list.elem_of_cons in *. naive_solver.
  - intros b Hb. destruct (lay_fresh _ _ _ _ HL b Hb). rewrite lookup_insert_ne; [done|].
    intros ->. pose proof (layout_old HL b r ltac:(rewrite list.elem_of_app, list.elem_of_cons; tauto)). lia.
Qed.

(** The region [a], which is not in the tree, becomes [r']. *)
Lemma layout_update_other t m nx R a r' :
  layout t m nx R → a ∉ R.*1 → a < nx → layout t (<[a := r']> m) nx R.
Proof.
  intros HL Ha Hlt. destruct HL as [L1 L2 L3 L4 L5]. split; try done.
  - intros b q Hb. rewrite lookup_insert_ne; [by apply L2|]. intros ->. destruct Ha.
    apply list_elem_of_fmap. by exists (b, q).
  - intros b Hb. rewrite lookup_insert_ne by lia. by apply L5.
Qed.

(** The nodes outside the tree do not matter to it. *)
Lemma holds_frame t t' L :
  holds t L → root t' = root t → (∀ a, a ∈ L → nodes t' !! a = nodes t !! a) → holds t' L.
Proof.
  intros (T & (Hr & Ht & Hn) & Hw & <- & Hl) E Hs. exists T. split_and!; try done.
  split; [simpl in *; congruence|]. split; [|done]. by eapply tree_at_frame.
Qed.

Section ops.
Context {FS : Type} `{Frames FS}.
Implicit Types (s : mm FS) (R : rlist).

Definition laid s R : Prop := layout (region_tree s) (regions s) (next_region s) R.

Lemma with_tree_same s : with_tree (region_tree s) s = s.
Proof. by destruct s. Qed.

Lemma wp_in_tree {A} (m : M bst A) (Q : A → mm FS → Prop) s :
  wp m (λ a t, Q a (with_tree t s)) (region_tree s) → wp (in_tree m) Q s.
Proof. unfold wp, in_tree. by destruct (m (region_tree s)) as [[a t]|]. Qed.

Lemma wp_in_objects {A} (m : M (world FS) A) (Q : A → mm FS → Prop) s :
  wp m (λ a w, Q a (with_objects w s)) (objects s) → wp (in_objects m) Q s.
Proof. unfold wp, in_objects. by destruct (m (objects s)) as [[a t]|]. Qed.

Lemma wp_get_region a r (Q : vm_region → mm FS → Prop) s :
  regions s !! a = Some r → Q r s → wp (get_region a) Q s.
Proof. intros Ha HQ. unfold get_region. do 2 wp_step. by eapply wp_from_opt. Qed.

Lemma wp_upd_region a r f (Q : unit → mm FS → Prop) s :
  regions s !! a = Some r →
  Q tt (with_regions (region_tree s) (<[a := f r]> (regions s)) (next_region s) s) →
  wp (upd_region a f) Q s.
Proof. intros Ha HQ. unfold upd_region. wp_step. eapply wp_get_region; [done|]. by wp_step. Qed.

Lemma wp_vm_search s R addr len b n (Q : option Z → mm FS → Prop) :
  laid s R → 0 <= addr < 2 ^ 64 → b = page_of addr → n = vm_size_to_pages len → 1 <= n →
  b + 4096 * n <= 2 ^ 64 →
  ((∀ a r, (a, r) ∈ R → ¬ touches b (b + 4096 * n) r) → Q None s) →
  (∀ a r, (a, r) ∈ R → touches b (b + 4096 * n) r → Q (Some a) s) →
  wp (vm_search addr len) Q s.
Proof.
  intros HL Ha -> -> Hn He Q0 Q1. set (b := page_of addr) in *. set (n := vm_size_to_pages len) in *.
  pose proof (page_of_spec addr).
  destruct (ordered_split R b (b + 4096 * n) (layout_ordered HL)) as (R1 & M & R2 & HR & H1 & HM & H2); [lia|].
  assert (0 <= b) by (unfold b, page_of, PAGE_SIZE; pose proof (Z.mod_le addr 4096); lia).
  unfold vm_search. rewrite mask_page by done. fold b n. wp_step. wp_step. apply wp_in_tree.
  eapply (search_contract _ _ _ _ R1.*1 M.*1 R2.*1); [exact (lay_tree _ _ _ _ HL)|by rewrite HR, !fmap_app|..].
  - by eapply (search_parts HL).
  - intros ->%fmap_nil_inv. rewrite with_tree_same. apply Q0. intros a r Hr Ht. subst R.
    pose proof (fits_bounds r (lay_fits _ _ _ _ HL _ _ Hr)).
    unfold touches in Ht. rewrite !list.elem_of_app in Hr. destruct Hr as [Hr|[Hr|Hr]];
      [specialize (H1 _ _ Hr)|by apply not_elem_of_nil in Hr|specialize (H2 _ _ Hr)]; lia.
  - intros a ([a' r] & -> & Hr)%list_elem_of_fmap. rewrite with_tree_same. eapply (Q1 _ r); [|by eapply HM].
    subst R. rewrite !list.elem_of_app. tauto.
Qed.

(** Inserting a region that is stored but not in the tree. *)
Lemma wp_vm_insert_region s R a r nd (Q : bool → mm FS → Prop) :
  laid s R → a ∉ R.*1 → regions s !! a = Some r → fits r → nodes (region_tree s) !! a = Some nd → rank nd = 0 →
  (∀ b q, (b, q) ∈ R → ¬ touches (base r) (rend r) q) →
  (∀ t R1 R2, R = R1 ++ R2 → layout t (regions s) (next_region s) (R1 ++ (a, r) :: R2) →
    (∀ b, b ∉ a :: R.*1 → nodes t !! b = nodes (region_tree s) !! b) → Q true (with_tree t s)) →
  wp (vm_insert_region a) Q s.
Proof.
  intros HL Hni Ha Hf Hnd Hrk Hnt HQ. pose proof (fits_bounds _ Hf).
  destruct (ordered_split R (base r) (rend r) (layout_ordered HL)) as (R1 & M & R2 & HR & H1 & HM & H2); [lia|].
  assert (M = []) as ->.
  { destruct M as [|[b q] M]; [done|]. destruct (Hnt b q); [|by eapply HM; left].
    subst R. rewrite !list.elem_of_app, list.elem_of_cons. tauto. }
  simpl in HR. unfold vm_insert_region. wp_step. wp_step. apply wp_in_tree.
  eapply (insert_contract _ _ _ _ _ R1.*1 [] R2.*1); [apply HL|done|exact Hnd|done|exact (layout_length HL)| | | |].
  - subst R. by rewrite fmap_app.
  - by eapply (insert_parts HL).
  - done.
  - intros t _ Hh [Hoff Hdom]. eapply HQ; [done| |done].
    assert (ordered (R1 ++ (a, r) :: R2)) as [Ho1 Ho2].
    { apply ordered_mid. split_and!; try done. rewrite <- HR. exact (layout_ordered HL). }
    split; [by rewrite fmap_app| |done|done|].
    + intros b q. rewrite list.elem_of_app, list.elem_of_cons.
      intros Hb. destruct Hb as [Hb|[[= -> ->]|Hb]]; [|done|]; eapply (lay_regs _ _ _ _ HL); subst R;
        rewrite list.elem_of_app; tauto.
    + intros b Hb. destruct (lay_fresh _ _ _ _ HL b Hb) as [? E]. split; [done|].
      apply not_elem_of_dom in E. apply not_elem_of_dom. by rewrite Hdom.
Qed.

Lemma wp_vm_remove_region s R1 a r R2 (Q : unit → mm FS → Prop) :
  laid s (R1 ++ (a, r) :: R2) →
  (∀ t nd, layout t (regions s) (next_region s) (R1 ++ R2) → nodes t !! a = Some nd → rank nd = 0 →
    Q tt (with_tree t s)) →
  wp (vm_remove_region a) Q s.
Proof.
  intros HL HQ. unfold vm_remove_region. apply wp_in_tree. pose proof (lay_tree _ _ _ _ HL) as Ht.
  rewrite fmap_app in Ht. simpl in Ht. eapply delete_contract; [exact Ht|].
  intros t nd Hh [Hoff Hdom] Hnd Hrk. eapply HQ; [|done..].
  pose proof (layout_ordered HL) as [Ho _]%ordered_mid. destruct Ho as [Ho1 Ho2].
  split; [by rewrite fmap_app| |done|done|].
  - intros b q Hb. eapply (lay_regs _ _ _ _ HL). rewrite !list.elem_of_app, list.elem_of_cons in *. tauto.
  - intros b Hb. destruct (lay_fresh _ _ _ _ HL b Hb) as [? E]. split; [done|].
    apply not_elem_of_dom in E. apply not_elem_of_dom. by rewrite Hdom.
Qed.

Definition new_region (start k : Z) : vm_region := set_range start k zero_region.

Lemma wp_vm_reserve_region s R start k (Q : option Z → mm FS → Prop) :
  laid s R → oom (objects s) = [] → fits (new_region start k) →
  (∀ b q, (b, q) ∈ R → ¬ touches start (start + 4096 * k) q) →
  (∀ t R1 R2 a, a = next_region s → R = R1 ++ R2 →
    layout t (<[a := new_region start k]> (regions s)) (a + 1) (R1 ++ (a, new_region start k) :: R2) →
    (∀ b, b ∉ R.*1 → b ≠ a → nodes t !! b = nodes (region_tree s) !! b) →
    Q (Some a) (with_regions t (<[a := new_region start k]> (regions s)) (a + 1) s)) →
  wp (vm_reserve_region start (4096 * k)) Q s.
Proof.
  intros HL Ho Hf Hnt HQ. set (r := new_region start k). set (a := next_region s).
  destruct (lay_fresh _ _ _ _ HL a) as [Hfa Hfn]; [unfold a; lia|].
  assert (a ∉ R.*1) as Hni.
  { intros ([x q] & Ex & Hx)%list_elem_of_fmap. simpl in Ex. rewrite Ex, (lay_regs _ _ _ _ HL _ _ Hx) in Hfa. done. }
  unfold vm_reserve_region, vm_alloc_vmregion. do 2 wp_step. apply wp_in_objects. unfold kmalloc, wp at 1.
  rewrite Ho. cbn [negb]. 
  assert (with_objects (objects s) s = s) as -> by by destruct s. do 5 wp_step. fold a.
  wp_step. eapply wp_upd_region; [apply lookup_insert_eq|]. simpl. rewrite insert_insert_eq.
  rewrite size_to_pages_mul by (destruct Hf; simpl in *; lia). fold (new_region start k). fold r.
  wp_step. apply wp_in_tree. eapply wp_update; [apply lookup_insert_eq|]. simpl.
  rewrite alter_insert_eq. set (t1 := Bst _ _). unfold with_tree. simpl.
  wp_step. eapply (wp_vm_insert_region _ R a r (BstNode 0 None None None)); simpl.
  - destruct HL as [L1 L2 L3 L4 L5]. split; simpl; [|..|].
    + eapply holds_frame; [exact L1|done|]. intros b Hb. simpl. rewrite lookup_insert_ne; [done|]. by intros <-.
    + intros b q Hb. rewrite lookup_insert_ne; [by apply L2|]. intros <-. destruct Hni. apply list_elem_of_fmap.
      by exists (a, q).
    + done.
    + done.
    + intros b Hb. rewrite !lookup_insert_ne by lia. apply L5. lia.
  - done.
  - apply lookup_insert_eq.
  - done.
  - simpl. apply lookup_insert_eq.
  - done.
  - intros b q Hb. unfold rend. simpl. by eapply Hnt.
  - intros t R1 R2 HR HL' Hoff. simpl. wp_step. eapply HQ; [done..|]. intros b Hb Hne.
    rewrite Hoff by (rewrite list.elem_of_cons; tauto). simpl. by rewrite lookup_insert_ne.
Qed.

Lemma wp_vm_free_vmregion s R a (Q : unit → mm FS → Prop) :
  laid s R → a ∉ R.*1 →
  (∀ t, layout t (delete a (regions s)) (next_region s) R →
    Q tt (with_regions t (delete a (regions s)) (next_region s) s)) →
  wp (vm_free_vmregion a) Q s.
Proof.
  intros [L1 L2 L3 L4 L5] Hni HQ. unfold vm_free_vmregion. wp_step. apply HQ. split; [|..|].
  - eapply holds_frame; [exact L1|done|]. intros b Hb. simpl. rewrite lookup_delete_ne; [done|]. by intros <-.
  - intros b q Hb. rewrite lookup_delete_ne; [by apply L2|]. intros <-. destruct Hni. apply list_elem_of_fmap.
    by exists (a, q).
  - done.
  - done.
  - intros b Hb. simpl. destruct (L5 b Hb). by rewrite !lookup_delete_None; auto.
Qed.

Lemma wp_vm_next_region s R1 a r R2 (Q : option Z → mm FS → Prop) :
  laid s (R1 ++ (a, r) :: R2) → Q (head R2.*1) s → wp (vm_next_region a) Q s.
Proof.
  intros HL HQ. unfold vm_next_region. apply wp_in_tree. pose proof (lay_tree _ _ _ _ HL) as Ht.
  rewrite fmap_app in Ht. eapply next_contract; [exact Ht|]. by rewrite with_tree_same.
Qed.

Lemma laid_size s R : laid s R → (length R <= size (nodes (region_tree s)))%nat.
Proof.
  intros HL. destruct (lay_tree _ _ _ _ HL) as (t & Hr & _ & E & _). pose proof (rep_size _ _ Hr) as Hs.
  by rewrite E, length_fmap in Hs.
Qed.
End ops.
