(* ===== verification/VmPrivate.v ===== *)
(** * VmPrivate: what stands behind the regions of an address space.

    [linked P s]: the list of private objects is [P].  [backed ext n s K]: the regions
    claim the objects [K], each entry an object and whether the mapping is shared; the
    reference counts are exact, the private list holds exactly the objects of private
    mappings, and [n] more references can be taken.  One contract per way of taking and
    dropping a claim. *)

From S2P Require Import Prelude Bits Abi DList PageAlloc Frames VmObject VmObjectFacts VmObjectLife.
From S2P Require Import VmObjectPurge VmBacking VmLayout Vm.

(** ** Sums over lists *)

Section sums.
Context {A : Type}.
Implicit Types (f : A → Z) (l : list A).

Fixpoint sum_of f l : Z := match l with [] => 0 | x :: l => f x + sum_of f l end.

Lemma sum_of_app f l1 l2 : sum_of f (l1 ++ l2) = sum_of f l1 + sum_of f l2.
Proof. induction l1; simpl; lia. Qed.

Lemma sum_of_mid f l1 x l2 : sum_of f (l1 ++ x :: l2) = f x + sum_of f (l1 ++ l2).
Proof. rewrite !sum_of_app. simpl. lia. Qed.

Lemma sum_of_nonneg f l : (∀ x, x ∈ l → 0 <= f x) → 0 <= sum_of f l.
Proof.
  induction l as [|x l IH]; intros Hf; simpl; [done|]. pose proof (Hf x ltac:(by left)).
  assert (0 <= sum_of f l); [|lia]. apply IH. intros y Hy. apply Hf. by right.
Qed.

Lemma sum_of_ge f l x : (∀ x, x ∈ l → 0 <= f x) → x ∈ l → f x <= sum_of f l.
Proof.
  intros Hf (l1 & l2 & ->)%list_elem_of_split. rewrite sum_of_mid.
  assert (0 <= sum_of f (l1 ++ l2)); [|lia]. apply sum_of_nonneg. intros y Hy. apply Hf.
  rewrite list.elem_of_app, list.elem_of_cons in *. tauto.
Qed.

Lemma sum_of_perm f l l' : l ≡ₚ l' → sum_of f l = sum_of f l'.
Proof. induction 1; simpl; lia. Qed.
End sums.

Lemma sum_of_fmap {A B} (g : B → A) (f : A → Z) (k : list B) :
  sum_of f (g <$> k) = sum_of (λ x, f (g x)) k.
Proof. induction k; simpl; [done|]. by f_equal. Qed.

(** ** The list of private objects *)

Section private.
Context {FS : Type} `{FramesLaws FS}.
Implicit Types (s : mm FS) (P : list Z).

Record linked (P : list Z) s : Prop := Linked {
  linked_head : vmo_head s = head P;
  linked_tail : vmo_tail s = list.last P;
  linked_chain : chain (next_private s) (prev_private s) P
}.

(** A state that differs only in its private list. *)
Definition relinked s s' : Prop :=
  s' = with_private (vmo_head s') (vmo_tail s') (next_private s') (prev_private s') s.

Lemma wp_add_private s P v (Q : unit → mm FS → Prop) :
  linked P s → v ∉ P → (∀ s', relinked s s' → linked (P ++ [v]) s' → Q tt s') →
  wp (add_vmo_to_private_list v) Q s.
Proof.
  intros [Hh Ht [Hn Hf Hb]] Hv HQ. unfold add_vmo_to_private_list. wp_step. wp_step. rewrite Hh.
  destruct (exists_last_or P) as [->|(L & t & ->)]; cbn [head].
  { wp_step. apply HQ; [done|]. split; simpl; [done|done|].
    split; [apply NoDup_singleton|apply forward_one, lookup_delete_eq|apply backward_one, lookup_delete_eq]. }
  rewrite last_snoc in Ht. assert (v ≠ t) by (intros ->; apply Hv, list.elem_of_app; right; by left).
  assert (∃ x, head (L ++ [t]) = Some x) as [x ->] by (destruct L; eauto).
  do 3 wp_step. eapply wp_from_opt; [exact Ht|]. wp_step. apply HQ; [done|].
  split; simpl; [by destruct L|by rewrite last_snoc|]. split.
  - apply list.NoDup_app. split_and!; [done| |apply NoDup_singleton]. by intros u Hu ->%list_elem_of_singleton.
  - eapply forward_snoc; [done|done|exact Hf|apply lookup_delete_eq|by rewrite lookup_delete_ne, lookup_insert_eq|].
    intros u Hu. apply list.NoDup_app in Hn as (_ & Hd & _).
    rewrite lookup_delete_ne, lookup_insert_ne; [done| |]; intros ->.
    + by apply (Hd u Hu), list_elem_of_singleton.
    + by apply Hv, list.elem_of_app; left.
  - eapply backward_snoc; [done|exact Hb|apply lookup_insert_eq|]. intros u Hu. apply lookup_insert_ne. by intros ->.
Qed.

Lemma wp_remove_private s L1 v L2 (Q : unit → mm FS → Prop) :
  linked (L1 ++ v :: L2) s → (∀ s', relinked s s' → linked (L1 ++ L2) s' → Q tt s') →
  wp (remove_vmo_from_private_list v) Q s.
Proof.
  intros [Hh Ht [Hn Hf Hb]] HQ. unfold remove_vmo_from_private_list. wp_step.
  rewrite (Hf L1 v L2 eq_refl), (Hb L1 v L2 eq_refl).
  assert (∃ hd tl nx pv,
    match list.last L1, head L2 with
    | None, None => with_private None None (next_private s) (prev_private s) s
    | None, Some n => with_private (Some n) (vmo_tail s) (next_private s) (delete n (prev_private s)) s
    | Some p, None => with_private (vmo_head s) (Some p) (delete p (next_private s)) (prev_private s) s
    | Some p, Some n => with_private (vmo_head s) (vmo_tail s) (<[p:=n]> (next_private s))
                          (<[n:=p]> (prev_private s)) s
    end = with_private hd tl nx pv s ∧ hd = head (L1 ++ L2) ∧ tl = list.last (L1 ++ L2) ∧
    (∀ u, nx !! u = if decide (list.last L1 = Some u) then head L2 else next_private s !! u) ∧
    (∀ u, pv !! u = if decide (head L2 = Some u) then list.last L1 else prev_private s !! u))
    as (hd & tl & nx & pv & -> & Ehd & Etl & Enx & Epv).
  { destruct (list.last L1) as [p|] eqn:El, (head L2) as [n|] eqn:Eh; do 4 eexists; (split; [done|]).
    - split_and!.
      + rewrite Hh. by destruct L1.
      + rewrite Ht. destruct L2; [done|]. by rewrite !last_app_cons.
      + intros u. case_decide; simplify_eq; [by rewrite lookup_insert_eq|rewrite lookup_insert_ne; congruence].
      + intros u. case_decide; simplify_eq; [by rewrite lookup_insert_eq|rewrite lookup_insert_ne; congruence].
    - destruct L2; [|done]. rewrite app_nil_r. split_and!; [rewrite Hh; by destruct L1|done| |by intros].
      intros u. case_decide; simplify_eq; [by rewrite lookup_delete_eq|rewrite lookup_delete_ne; congruence].
    - apply last_None in El as ->. simpl in *. split_and!; [done|by destruct L2|done|].
      intros u. case_decide; simplify_eq; [by rewrite lookup_delete_eq|rewrite lookup_delete_ne; congruence].
    - apply last_None in El as ->. destruct L2; [|done]. by split_and!. }
  apply HQ; [done|]. split; simpl; [done|done|].
  split; [by eapply nodup_remove|by eapply forward_remove|by eapply backward_remove].
Qed.
End private.

(** ** Claims on objects *)

Abbreviation claims := (list (option Z * bool)).

Definition claim (v : Z) (x : option Z * bool) : Z :=
  match x.1 with Some u => holds_page v u | None => 0 end.

Definition owners (ext : Z → Z) (K : claims) (v : Z) : Z := ext v + sum_of (claim v) K.

Lemma claim_nonneg v x : 0 <= claim v x.
Proof. unfold claim. destruct x.1; [apply holds_nonneg|done]. Qed.

Lemma owners_cons ext v sh K x : owners ext ((Some v, sh) :: K) x = pin v (owners ext K) x.
Proof. unfold owners, pin. simpl. unfold claim at 1. simpl. lia. Qed.

Lemma claim_in v sh K : (Some v, sh) ∈ K → 1 <= sum_of (claim v) K.
Proof.
  intros Hv. pose proof (sum_of_ge (claim v) K _ (λ x _, claim_nonneg v x) Hv) as Hge.
  unfold claim at 1 in Hge. simpl in Hge. by rewrite holds_same in Hge.
Qed.

Lemma claim_notin v K : (∀ sh, (Some v, sh) ∉ K) → sum_of (claim v) K = 0.
Proof.
  induction K as [|[[u|] sh] K IH]; intros Hv; simpl; [done|..].
  - rewrite IH by set_solver. unfold claim. simpl. rewrite holds_ne; [done|]. intros <-. apply (Hv sh). by left.
  - rewrite IH by set_solver. done.
Qed.

Section backed.
Context {FS : Type} `{FramesLaws FS} (ext : Z → Z).
Implicit Types (s : mm FS) (K : claims) (w : world FS).

Record backed (n : Z) s (K : claims) : Prop := Backed {
  bk_sound : sound (owners ext K) n (objects s);
  bk_calm : calm ext (objects s);
  bk_some : ∀ v sh, (v, sh) ∈ K → is_Some v;
  bk_kinds : ∀ v sh sh', (v, sh) ∈ K → (v, sh') ∈ K → sh = sh';
  bk_private : ∃ P, linked P s ∧ ∀ v, v ∈ P ↔ (Some v, false) ∈ K;
  bk_held : ∀ v, 0 <= ext v;
  bk_ext : ∀ v, (Some v, false) ∈ K → ext v = 0;
}.

(** [s'] differs from [s] in the objects and the private list only. *)
Definition behind s s' : Prop :=
  s' = with_objects (objects s') (with_private (vmo_head s') (vmo_tail s') (next_private s') (prev_private s') s).

Lemma behind_refl s : behind s s.
Proof. by destruct s. Qed.
Lemma behind_trans s1 s2 s3 : behind s1 s2 → behind s2 s3 → behind s1 s3.
Proof. unfold behind. intros E1 E2. rewrite E2, E1. by destruct s1. Qed.
Lemma behind_objects s w : behind s (with_objects w s).
Proof. by destruct s. Qed.
Lemma behind_relinked s s' : relinked s s' → behind s s'.
Proof. unfold relinked, behind. intros ->. by destruct s. Qed.

Lemma linked_same P s s' :
  linked P s → vmo_head s' = vmo_head s → vmo_tail s' = vmo_tail s →
  next_private s' = next_private s → prev_private s' = prev_private s → linked P s'.
Proof. intros [L1 L2 L3] E1 E2 E3 E4. split; rewrite ?E1, ?E2, ?E3, ?E4; done. Qed.

Lemma backed_mono n m s K : m <= n → backed n s K → backed m s K.
Proof. intros Hle []. split; try done. by eapply sound_mono. Qed.

Lemma backed_perm n s K K' : K ≡ₚ K' → backed n s K → backed n s K'.
Proof.
  intros HP [B1 B2 B3 B4 (P & B5 & B6) B7 B8]. split; try done.
  - eapply sound_ext; [|exact B1]. intros x. unfold owners. by rewrite (sum_of_perm _ _ _ HP).
  - intros v sh. rewrite <- HP. apply B3.
  - intros v sh sh'. rewrite <- HP. apply B4.
  - exists P. split; [done|]. intros v. by rewrite <- HP.
  - intros v. rewrite <- HP. apply B8.
Qed.

(** The same claims, in a world that is as good. *)
Lemma backed_world n s K w :
  backed n s K → sound (owners ext K) n w → calm ext w → backed n (with_objects w s) K.
Proof.
  intros [B1 B2 B3 B4 (P & B5 & B6) B7 B8] Hs Hc. split; try done. exists P. split; [|done].
  by eapply linked_same.
Qed.

Lemma backed_owner n s K v sh : backed n s K → (Some v, sh) ∈ K → 0 < owners ext K v.
Proof.
  intros HB Hv. pose proof (claim_in _ _ _ Hv). pose proof (bk_held _ _ _ HB v). unfold owners. lia.
Qed.

(** The number of references to an object that is mapped privately. *)
Lemma private_refs n s K v o :
  backed n s K → (Some v, false) ∈ K → objs (objects s) !! v = Some o → vo_refcount o = sum_of (claim v) K.
Proof.
  intros HB Hv Ho. rewrite (counted_refs _ _ (sound_counted _ _ _ (bk_sound _ _ _ HB)) _ _ Ho).
  unfold owners. rewrite (bk_ext _ _ _ HB v Hv).
  assert (clone_refs (objects s) v = 0); [|lia]. apply total_zero. intros x ox Hx. unfold clones.
  rewrite bool_decide_false; [done|]. intros Hc.
  pose proof (proj2 (bk_calm _ _ _ HB) _ _ Hx _ Hc). rewrite (bk_ext _ _ _ HB v Hv) in *. lia.
Qed.

(** An operation on the objects that keeps the claims. *)
Lemma backed_op {A} n s K (P : A → Prop) (m : M (world FS) A) (Q : A → mm FS → Prop) :
  backed n s K → lucky ext P m →
  wp m (λ a w', calm ext w' → P a → Q a (with_objects w' s)) (objects s) → wp (in_objects m) Q s.
Proof. intros HB Hl Hw. apply wp_in_objects. eapply wp_lucky; [exact Hl|apply HB|done]. Qed.

Lemma bk_get n s K v sh (Q : vm_object → mm FS → Prop) :
  backed n s K → (Some v, sh) ∈ K → (∀ o, objs (objects s) !! v = Some o → Q o s) →
  wp (in_objects (get_obj v)) Q s.
Proof.
  intros HB Hv HQ. apply wp_in_objects. eapply use_get; [apply HB|by eapply backed_owner|].
  intros o Ho. assert (with_objects (objects s) s = s) as -> by by destruct s. by apply HQ.
Qed.

Lemma bk_is_shared n s K v sh (Q : bool → mm FS → Prop) :
  backed n s K → (Some v, sh) ∈ K → (∀ b, Q b s) → wp (in_objects (vmo_is_shared v)) Q s.
Proof.
  intros HB Hv HQ. apply wp_in_objects. eapply use_is_shared; [apply HB|by eapply backed_owner|].
  intros o Ho. assert (with_objects (objects s) s = s) as -> by by destruct s. by apply HQ.
Qed.

(** A new object [u], claimed but perhaps not in the private list yet. *)
Record pending (n : Z) s (u : Z) (sh : bool) (K : claims) : Prop := Pending {
  pd_sound : sound (owners ext ((Some u, sh) :: K)) n (objects s);
  pd_calm : calm ext (objects s);
  pd_some : ∀ v sh, (v, sh) ∈ K → is_Some v;
  pd_kinds : ∀ v sh sh', (v, sh) ∈ K → (v, sh') ∈ K → sh = sh';
  pd_private : ∃ P, linked P s ∧ ∀ v, v ∈ P ↔ (Some v, false) ∈ K;
  pd_held : ∀ v, 0 <= ext v;
  pd_ext : ∀ v, (Some v, false) ∈ (Some u, false) :: K → ext v = 0;
  pd_new : ∀ sh, (Some u, sh) ∉ K;
}.

Lemma pending_new n m s K u sh w :
  backed n s K → objs (objects s) !! u = None → sound (pin u (owners ext K)) m w → calm ext w →
  pending m (with_objects w s) u sh K.
Proof.
  intros [B1 B2 B3 B4 (P & B5 & B6) B7 B8] Hu Hs Hc.
  assert (owners ext K u <= 0) as Hz.
  { apply Z.nlt_ge. intros Hlt. destruct (counted_live _ _ (sound_counted _ _ _ B1) u Hlt). congruence. }
  pose proof (B7 u). pose proof (sum_of_nonneg (claim u) K (λ x _, claim_nonneg u x)).
  unfold owners in Hz. split; try done.
  - eapply sound_ext; [|exact Hs]. intros x. by rewrite owners_cons.
  - exists P. split; [by eapply linked_same|done].
  - intros v [[= ->]|Hv]%list.elem_of_cons; [lia|by apply B8].
  - intros sh' Hin. pose proof (claim_in _ _ _ Hin). lia.
Qed.

Lemma pending_kinds n s u sh K : pending n s u sh K →
  (∀ v b, (v, b) ∈ (Some u, sh) :: K → is_Some v) ∧
  (∀ v b b', (v, b) ∈ (Some u, sh) :: K → (v, b') ∈ (Some u, sh) :: K → b = b').
Proof.
  intros [P1 P2 P3 P4 P5 P6 P7 P8]. split.
  - intros v b [[= -> ->]|Hv]%list.elem_of_cons; [by eexists|by eapply P3].
  - intros v b b'. rewrite !list.elem_of_cons. intros [E|Hv] [E'|Hv']; simplify_eq;
      [done|by destruct (P8 b')|by destruct (P8 b)|by eapply P4].
Qed.

Lemma pending_shared n s u K : pending n s u true K → backed n s ((Some u, true) :: K).
Proof.
  intros HP. destruct (pending_kinds _ _ _ _ _ HP) as [Hs Hk].
  destruct HP as [P1 P2 P3 P4 (P & P5 & P5') P6 P7 P8]. split; try done.
  - exists P. split; [done|]. intros v. rewrite P5', list.elem_of_cons. naive_solver.
  - intros v [[=]|Hv]%list.elem_of_cons. apply P7. by right.
Qed.

Lemma pending_add n s u K (Q : unit → mm FS → Prop) :
  pending n s u false K →
  (∀ s', behind s s' → backed n s' ((Some u, false) :: K) → Q tt s') →
  wp (add_vmo_to_private_list u) Q s.
Proof.
  intros HP HQ. destruct (pending_kinds _ _ _ _ _ HP) as [Hs Hk].
  destruct HP as [P1 P2 P3 P4 (P & P5 & P5') P6 P7 P8].
  eapply wp_add_private; [exact P5|by rewrite P5'|]. intros s' Hr Hl.
  apply HQ; [by apply behind_relinked|]. unfold relinked in Hr.
  assert (objects s' = objects s) as Eo by (by rewrite Hr).
  split; rewrite ?Eo; try done. exists (P ++ [u]). split; [done|]. intros v.
  rewrite list.elem_of_app, list_elem_of_singleton, P5', list.elem_of_cons. naive_solver.
Qed.

Lemma bk_assign n s K v sh a (Q : unit → mm FS → Prop) :
  backed n s K → (Some v, sh) ∈ K →
  (∀ s', behind s s' → backed n s' K → Q tt s') → wp (in_objects (vmo_assign_mapping v a)) Q s.
Proof.
  intros HB Hv HQ. eapply backed_op; [exact HB|apply lucky_assign|].
  eapply use_upd; [apply HB|by eapply backed_owner|done|]. intros w' Hs Hc _.
  apply HQ; [apply behind_objects|by apply backed_world].
Qed.

Lemma bk_ref n s K v sh (Q : unit → mm FS → Prop) :
  backed n s K → (Some v, sh) ∈ K → 1 <= n →
  (∀ s', behind s s' → backed (n - 1) s' ((Some v, sh) :: K) → Q tt s') → wp (in_objects (vmo_ref v)) Q s.
Proof.
  intros HB Hv Hn HQ. eapply backed_op; [exact HB|apply lucky_ref|].
  eapply use_ref; [apply HB|by eapply backed_owner|done|]. intros w' Hs Hc _.
  apply HQ; [apply behind_objects|]. destruct HB as [B1 B2 B3 B4 (P & B5 & B6) B7 B8]. split; try done; simpl.
  - eapply sound_ext; [|exact Hs]. intros x. by rewrite owners_cons.
  - intros x b. rewrite list.elem_of_cons. intros [[= -> ->]|Hx]; eapply B3; done.
  - intros x b b'. rewrite !list.elem_of_cons. naive_solver.
  - exists P. split; [by eapply linked_same|]. intros x. rewrite B6, list.elem_of_cons. naive_solver.
  - intros x. rewrite list.elem_of_cons. intros [[= -> <-]|Hx]; apply B8; done.
Qed.
End backed.

Section release.
Context {FS : Type} `{FramesLaws FS} (ext : Z → Z).
Context (free_other : Z → Z → M (world FS) unit) (Hdrops : drops free_other)
        (Hfree : ∀ v p, lucky ext (λ _, True) (free_other v p)).
Implicit Types (s : mm FS) (K : claims).

(** Dropping a claim: the last one on a private object takes it off the list. *)
Lemma bk_drop n s K v (sh : bool) a (Q : unit → mm FS → Prop) :
  backed ext n s ((Some v, sh) :: K) → 1 <= n →
  (∀ s', behind s s' → backed ext n s' K → Q tt s') →
  wp (o ← in_objects (get_obj v);
      (if (vo_refcount o =? 1) && (negb sh && true)
       then remove_vmo_from_private_list v else mret tt);;
      in_objects (vmo_remove_mapping v a);;
      in_objects (vmo_unref 2 v);;
      mret tt) Q s.
Proof.
  intros HB Hn HQ. assert ((Some v, sh) ∈ (Some v, sh) :: K) as Hin by by left.
  assert (0 < owners ext ((Some v, sh) :: K) v) as Hown by by eapply backed_owner.
  wp_step. eapply bk_get; [exact HB|done|]. intros o Ho.
  assert (∀ s1 P, behind s s1 → objects s1 = objects s → linked P s1 → (∀ x, x ∈ P ↔ (Some x, false) ∈ K) →
    wp (in_objects (vmo_remove_mapping v a);; in_objects (vmo_unref 2 v);; mret tt) Q s1) as Hrest.
  { intros s1 P Hb Eo Hl HP. destruct HB as [B1 B2 B3 B4 _ B7 B8].
    wp_step. apply wp_in_objects. rewrite Eo. eapply wp_lucky; [apply lucky_remove|exact B2|].
    eapply use_upd; [exact B1|done|done|]. intros w1 S1 C1 _.
    wp_step. apply wp_in_objects. cbn [objects with_objects]. eapply wp_lucky; [apply lucky_unref|exact C1|].
    eapply use_unref; [exact S1|lia|done|]. intros b w2 S2 C2 _. wp_step.
    apply HQ; [eapply behind_trans; [exact Hb|by destruct s1]|]. split; simpl; try done.
    - eapply sound_ext; [|exact S2]. intros x. unfold unpin. rewrite owners_cons. unfold pin. lia.
    - intros x c Hx. eapply B3. by right.
    - intros x c c' Hx Hx'. eapply B4; by right.
    - exists P. split; [by eapply linked_same|done].
    - intros x Hx. apply B8. by right. }
  destruct (bk_private _ _ _ _ HB) as (P & Hl & HP).
  assert (sh = false → vo_refcount o = 1 + sum_of (claim v) K) as Hrc.
  { intros ->. rewrite (private_refs _ _ _ _ _ _ HB Hin Ho). simpl. unfold claim at 1. simpl. by rewrite holds_same. }
  wp_step. apply wp_if; intros Hif.
  - assert (sh = false) as -> by (destruct sh; [lia|done]). specialize (Hrc eq_refl).
    assert (∀ b, (Some v, b) ∉ K) as Hni by (intros b Hb; pose proof (claim_in _ _ _ Hb); lia).
    destruct (list_elem_of_split P v) as (L1 & L2 & ->); [by apply HP|].
    eapply wp_remove_private; [exact Hl|]. intros s1 Hr Hl1.
    eapply Hrest; [by apply behind_relinked|by rewrite Hr|exact Hl1|]. intros x.
    pose proof (HP x) as HPx. rewrite list.elem_of_app, !list.elem_of_cons in *.
    pose proof (chain_nodup _ _ _ (linked_chain _ _ Hl)) as (_ & Hd & [Hd2 _]%list.NoDup_cons)%list.NoDup_app.
    destruct (decide (x = v)) as [->|Hne]; [|naive_solver]. split; [|by intros ?%Hni].
    intros [Hx|Hx]; [destruct (Hd v Hx); by left|done].
  - wp_step. eapply (Hrest s P); [apply behind_refl|done|exact Hl|]. intros x. rewrite HP, list.elem_of_cons.
    split; [|by right]. intros [[= -> <-]|Hx]; [|done]. specialize (Hrc eq_refl).
    destruct (decide ((Some v, false) ∈ K)) as [|Hni]; [done|]. exfalso.
    rewrite (claim_notin v K) in Hrc; [lia|]. intros b Hb.
    rewrite (bk_kinds _ _ _ _ HB (Some v) false b) in Hni; [done|by left|by right].
Qed.

Lemma bk_truncate n s K v sh size flags (Q : Z → mm FS → Prop) :
  backed ext n s K → (Some v, sh) ∈ K → 1 <= n →
  (∀ s', behind s s' → backed ext n s' K → Q 0 s') →
  wp (in_objects (vmo_truncate free_other v size flags)) Q s.
Proof.
  intros HB Hv Hn HQ. eapply backed_op; [exact HB|by apply lucky_truncate|].
  eapply use_truncate; [exact Hdrops|apply HB|by eapply backed_owner|done|]. intros w' Hs Hc _.
  apply HQ; [apply behind_objects|by apply backed_world].
Qed.

Lemma bk_resize n s K v sh size (Q : Z → mm FS → Prop) :
  backed ext n s K → (Some v, sh) ∈ K → 1 <= n →
  (∀ s', behind s s' → backed ext n s' K → Q 0 s') →
  wp (in_objects (vmo_resize free_other size v)) Q s.
Proof.
  intros HB Hv Hn HQ. eapply backed_op; [exact HB|by apply lucky_resize|].
  eapply use_resize; [exact Hdrops|apply HB|by eapply backed_owner|done|]. intros w' Hs Hc _.
  apply HQ; [apply behind_objects|by apply backed_world].
Qed.

Lemma bk_split n s K v sh b p h (Q : option Z → mm FS → Prop) :
  backed ext n s K → (Some v, sh) ∈ K → 2 <= n < 2 ^ 64 →
  (∀ u s', behind s s' → pending ext (n - 1) s' u b K → Q (Some u) s') →
  wp (in_objects (vmo_split free_other p h v)) Q s.
Proof.
  intros HB Hv Hn HQ. eapply backed_op; [exact HB|by apply lucky_split|].
  eapply use_split; [exact Hdrops|apply HB|by eapply backed_owner|done| |].
  - intros w' Hs Hc. done.
  - intros u w' Hs Hu Hc _. apply HQ; [apply behind_objects|by eapply pending_new].
Qed.

Lemma bk_create_phys n s K b size (Q : option Z → mm FS → Prop) :
  backed ext n s K → 1 <= n < 2 ^ 64 →
  (∀ u s', behind s s' → pending ext (n - 1) s' u b K → Q (Some u) s') →
  wp (in_objects (vmo_create_phys size)) Q s.
Proof.
  intros HB Hn HQ. eapply backed_op; [exact HB|by apply lucky_create_phys|].
  eapply use_create_phys; [apply HB|done| |].
  - intros w' Hs Hc. done.
  - intros u w' Hs Hu Hc _. apply HQ; [apply behind_objects|by eapply pending_new].
Qed.

Lemma pd_assign n s u b K a (Q : unit → mm FS → Prop) :
  pending ext n s u b K → (∀ s', behind s s' → pending ext n s' u b K → Q tt s') →
  wp (in_objects (vmo_assign_mapping u a)) Q s.
Proof.
  intros HP HQ. pose proof HP as [P1 P2 P3 P4 (P & P5 & P5') P6 P7 P8].
  apply wp_in_objects. eapply wp_lucky; [apply lucky_assign|exact P2|].
  eapply use_upd; [exact P1| |done|].
  { pose proof (P6 u). pose proof (claim_in u b ((Some u, b) :: K) ltac:(by left)). unfold owners. lia. }
  intros w' Hs Hc _. apply HQ; [apply behind_objects|]. split; try done. exists P. split; [by eapply linked_same|done].
Qed.
End release.
