(* ===== verification/VmSpace.v ===== *)
(** * VmSpace: the invariant of an address space.

    [space ext fx n s R]: the regions of [s] are [R]; its two size counters are the sums
    over the regions; every region has an object, and the reference counts of objects and
    files are the references from outside, [ext] and [fx], plus those of the regions.
    [stage] is the same with all the parts independent, for the inside of operations. *)

From stdpp Require Import sorting.
From S2P Require Import Prelude Bits Abi PageAlloc Frames VmObject VmObjectFacts VmObjectLife.
From S2P Require Import VmObjectPurge VmBacking Wavl WavlProps Vm VmLayout VmPrivate.

Definition rsize (r : vm_region) : Z := rend r - base r.
Definition shared_size (r : vm_region) : Z := if is_mapping_shared r then rsize r else 0.
Definition file_claim (f : Z) (r : vm_region) : Z := if bool_decide (fd r = Some f) then 1 else 0.
Definition claim_of (r : vm_region) : option Z * bool := (vmo r, is_mapping_shared r).

Definition over (g : vm_region → Z) (R : rlist) : Z := sum_of (λ x, g x.2) R.
Definition claims_of (R : rlist) : claims := (λ x, claim_of x.2) <$> R.

(** Byte [x] is mapped with protection [p]. *)
Definition mapped (R : rlist) (x p : Z) : Prop :=
  ∃ a r, (a, r) ∈ R ∧ base r <= x < rend r ∧ rwx r = p.

Lemma over_mid g R1 a r R2 : over g (R1 ++ (a, r) :: R2) = g r + over g (R1 ++ R2).
Proof. unfold over. by rewrite sum_of_mid. Qed.

Lemma claims_mid R1 a r R2 : claims_of (R1 ++ (a, r) :: R2) ≡ₚ claim_of r :: claims_of (R1 ++ R2).
Proof. unfold claims_of. rewrite !fmap_app. simpl. by rewrite Permutation_middle. Qed.

Lemma claims_in R1 a r R2 : claim_of r ∈ claims_of (R1 ++ (a, r) :: R2).
Proof. unfold claims_of. rewrite fmap_app. simpl. set_solver. Qed.

Lemma mapped_app R1 R2 x p : mapped (R1 ++ R2) x p ↔ mapped R1 x p ∨ mapped R2 x p.
Proof.
  split.
  - intros (a & r & [Hr|Hr]%list.elem_of_app & Hx & Hp); [left|right]; by exists a, r.
  - intros [(a & r & Hr & Hx & Hp)|(a & r & Hr & Hx & Hp)]; exists a, r; rewrite list.elem_of_app; auto.
Qed.
Lemma mapped_cons a r R x p : mapped ((a, r) :: R) x p ↔ (base r <= x < rend r ∧ rwx r = p) ∨ mapped R x p.
Proof.
  split.
  - intros (b & q & [[= -> ->]|Hq]%list.elem_of_cons & Hx & Hp); [by left|right; by exists b, q].
  - intros [[Hx Hp]|(b & q & Hq & Hx & Hp)]; [exists a, r; by split; [left|]|exists b, q; by split; [right|]].
Qed.
Lemma mapped_nil x p : mapped [] x p ↔ False.
Proof. split; [|done]. by intros (a & r & ?%not_elem_of_nil & _). Qed.
Lemma mapped_mid R1 a r R2 x p :
  mapped (R1 ++ (a, r) :: R2) x p ↔ (base r <= x < rend r ∧ rwx r = p) ∨ mapped (R1 ++ R2) x p.
Proof. rewrite !mapped_app, mapped_cons. tauto. Qed.

Section space.
Context {FS : Type} `{FramesLaws FS} (ext fx : Z → Z).
Implicit Types (s : mm FS) (R : rlist) (K : claims) (F : Z → Z).

(** The fields that the operations on regions leave alone. *)
Definition settings s : Z * Z * Z * Z * Z := (as_start s, as_end s, mmap_base s, brk s, rlimit_as s).

Record stage (n : Z) R K (V S : Z) F (c : Z * Z * Z * Z * Z) s : Prop := Stage {
  st_laid : laid s R;
  st_backed : backed ext n s K;
  st_virtual : virtual_memory_size s = u64 V;
  st_shared : shared_set_size s = u64 S;
  st_files : ∀ f, default 0 (file_refs s !! f) = F f;
  st_settings : settings s = c;
}.

Definition space (n : Z) s R : Prop :=
  stage n R (claims_of R) (over rsize R) (over shared_size R) (λ f, fx f + over (file_claim f) R) (settings s) s ∧
  ∀ a r, (a, r) ∈ R → is_Some (vmo r).

Lemma stage_eq n R K K' V V' S S' F F' c s :
  stage n R K V S F c s → K ≡ₚ K' → V = V' → S = S' → (∀ f, F f = F' f) → stage n R K' V' S' F' c s.
Proof.
  intros [S1 S2 S3 S4 S5 S6] HK -> -> HF. split; try done; [by eapply backed_perm|].
  intros f. by rewrite <- HF.
Qed.

Lemma backed_same n s s' K :
  backed ext n s K → objects s' = objects s → vmo_head s' = vmo_head s → vmo_tail s' = vmo_tail s →
  next_private s' = next_private s → prev_private s' = prev_private s → backed ext n s' K.
Proof.
  intros [B1 B2 B3 B4 (P & B5 & B6) B7 B8] E1 E2 E3 E4 E5. split; rewrite ?E1; try done.
  exists P. split; [by eapply linked_same|done].
Qed.

(** The node and the contents of region [a], which is not in the tree. *)
Definition parked (a : Z) (r : vm_region) s : Prop :=
  regions s !! a = Some r ∧ a < next_region s ∧ ∃ nd, nodes (region_tree s) !! a = Some nd ∧ rank nd = 0.

Section steps.
Context {n : Z} {R : rlist} {K : claims} {V S : Z} {F : Z → Z} {c : Z * Z * Z * Z * Z} {s : mm FS}
        (HS : stage n R K V S F c s).

Lemma stage_regions t m nx R' :
  layout t m nx R' → stage n R' K V S F c (with_regions t m nx s).
Proof. intros HL. destruct HS as [S1 S2 S3 S4 S5 S6]. split; try done. by eapply backed_same. Qed.

Lemma stage_behind n' K' s' : behind s s' → backed ext n' s' K' → stage n' R K' V S F c s'.
Proof.
  unfold behind. intros E HB. destruct HS as [S1 S2 S3 S4 S5 S6]. unfold laid, settings in *.
  rewrite E in *. by split.
Qed.

Lemma stage_get a r (Q : vm_region → mm FS → Prop) : (a, r) ∈ R → Q r s → wp (get_region a) Q s.
Proof. intros Ha. apply wp_get_region. exact (lay_regs _ _ _ _ (st_laid _ _ _ _ _ _ _ _ HS) _ _ Ha). Qed.

Lemma stage_upd R1 a r R2 f (Q : unit → mm FS → Prop) :
  R = R1 ++ (a, r) :: R2 → ordered (R1 ++ (a, f r) :: R2) →
  (∀ s', stage n (R1 ++ (a, f r) :: R2) K V S F c s' → Q tt s') → wp (upd_region a f) Q s.
Proof.
  intros HR Ho HQ. pose proof (st_laid _ _ _ _ _ _ _ _ HS) as HL. unfold laid in HL. rewrite HR in HL.
  eapply wp_upd_region; [|apply HQ; apply stage_regions; by eapply layout_update].
  eapply (lay_regs _ _ _ _ HL). apply elem_mid.
Qed.

Lemma stage_reserve start k (Q : option Z → mm FS → Prop) :
  fits (new_region start k) → (∀ b q, (b, q) ∈ R → ¬ touches start (start + 4096 * k) q) →
  (∀ a R1 R2 s', R = R1 ++ R2 → (∀ r, (a, r) ∉ R) →
    (∀ b q, b ∉ R.*1 → parked b q s → parked b q s' ∧ b ≠ a) →
    stage n (R1 ++ (a, new_region start k) :: R2) K V S F c s' → Q (Some a) s') →
  wp (vm_reserve_region start (4096 * k)) Q s.
Proof.
  intros Hf Hnt HQ. pose proof (st_laid _ _ _ _ _ _ _ _ HS) as HL.
  eapply wp_vm_reserve_region; [exact HL|apply (bk_calm _ _ _ _ (st_backed _ _ _ _ _ _ _ _ HS))|done|exact Hnt|].
  intros t R1 R2 a -> HR HL' Hoff. eapply HQ; [done| | |by apply stage_regions].
  - intros r Hr. pose proof (layout_old HL _ _ Hr). lia.
  - intros b q Hb (Hq & Hlt & nd & Hnd & Hrk). unfold parked. simpl. split; [|lia].
    rewrite lookup_insert_ne by lia. split_and!; [done|lia|]. exists nd. by rewrite Hoff by (done || lia).
Qed.

Lemma stage_fd_get f (Q : unit → mm FS → Prop) :
  (∀ s', stage n R K V S (λ g, F g + holds_page g f) c s' → Q tt s') → wp (fd_get f) Q s.
Proof.
  intros HQ. unfold fd_get. wp_step. apply HQ. destruct HS as [S1 S2 S3 S4 S5 S6]. split; try done.
  - by eapply backed_same.
  - intros g. simpl. destruct (decide (g = f)) as [->|].
    + rewrite lookup_insert_eq, holds_same. simpl. by rewrite S5.
    + rewrite lookup_insert_ne, holds_ne, S5 by done. lia.
Qed.

Lemma stage_fd_put f (Q : unit → mm FS → Prop) :
  (∀ s', stage n R K V S (λ g, F g - holds_page g f) c s' → Q tt s') → wp (fd_put f) Q s.
Proof.
  intros HQ. unfold fd_put. wp_step. apply HQ. destruct HS as [S1 S2 S3 S4 S5 S6]. split; try done.
  - by eapply backed_same.
  - intros g. simpl. destruct (decide (g = f)) as [->|].
    + rewrite lookup_insert_eq, holds_same. simpl. by rewrite S5.
    + rewrite lookup_insert_ne, holds_ne, S5 by done. lia.
Qed.

Lemma u64_add_l x y : u64 (u64 x + y) = u64 (x + y).
Proof. unfold u64. apply Z.add_mod_idemp_l. lia. Qed.

Lemma stage_add_virtual d (Q : unit → mm FS → Prop) :
  (∀ s', stage n R K (V + d) S F c s' → Q tt s') → wp (increment_virtual d) Q s.
Proof.
  intros HQ. unfold increment_virtual. wp_step. apply HQ. destruct HS as [S1 S2 S3 S4 S5 S6]. split; try done.
  - by eapply backed_same.
  - simpl. rewrite S3. apply u64_add_l.
Qed.

Lemma stage_add_shared d (Q : unit → mm FS → Prop) :
  (∀ s', stage n R K V (S + d) F c s' → Q tt s') → wp (increment_shared d) Q s.
Proof.
  intros HQ. unfold increment_shared. wp_step. apply HQ. destruct HS as [S1 S2 S3 S4 S5 S6]. split; try done.
  - by eapply backed_same.
  - simpl. rewrite S4. apply u64_add_l.
Qed.
End steps.
End space.

Section removal.
Context {FS : Type} `{FramesLaws FS} {ext : Z → Z} {n : Z} {R : rlist} {K : claims} {V S : Z} {F : Z → Z}
        {c : Z * Z * Z * Z * Z} {s : mm FS} (HS : stage ext n R K V S F c s).

Lemma stage_remove R1 a r R2 (Q : unit → mm FS → Prop) :
  R = R1 ++ (a, r) :: R2 →
  (∀ s', stage ext n (R1 ++ R2) K V S F c s' → parked a r s' → Q tt s') →
  wp (vm_remove_region a) Q s.
Proof.
  intros HR HQ. pose proof (st_laid _ _ _ _ _ _ _ _ _ HS) as HL. rewrite HR in HL.
  assert ((a, r) ∈ R1 ++ (a, r) :: R2) as Hin by apply elem_mid.
  eapply wp_vm_remove_region; [exact HL|]. intros t nd HL' Hnd Hrk.
  apply HQ; [exact (stage_regions _ HS _ _ _ _ HL')|]. split_and!; simpl.
  - exact (lay_regs _ _ _ _ HL _ _ Hin).
  - exact (layout_old HL _ _ Hin).
  - by exists nd.
Qed.

Lemma file_claim_alt f r : file_claim f r = match fd r with Some g => holds_page f g | None => 0 end.
Proof.
  unfold file_claim. destruct (fd r) as [g|]; [|by rewrite bool_decide_false].
  case_bool_decide; simplify_eq; [by rewrite holds_same|rewrite holds_ne; congruence].
Qed.

Lemma stage_destroy a r v K' (Q : unit → mm FS → Prop) :
  regions s !! a = Some r → a ∉ R.*1 → is_higher_half (base r) = false → vmo r = Some v →
  K ≡ₚ claim_of r :: K' → 1 <= n →
  (∀ s', stage ext n R K' V S (λ f, F f - file_claim f r) c s' → Q tt s') →
  wp (vm_region_destroy a) Q s.
Proof.
  intros Ha Hni Hhh Hv HK Hn HQ. unfold vm_region_destroy. wp_step. eapply wp_get_region; [done|].
  assert (∀ s1, stage ext n R K V S (λ f, F f - file_claim f r) c s1 → regions s1 !! a = Some r →
    wp (match vmo r with
        | None => mret tt
        | Some v =>
            o ← in_objects (get_obj v);
            (if (vo_refcount o =? 1) && (negb (is_mapping_shared r) && negb (is_higher_half (base r)))
             then remove_vmo_from_private_list v else mret tt);;
            in_objects (vmo_remove_mapping v a);;
            in_objects (vmo_unref 2 v);;
            mret tt
        end;; vm_free_vmregion a) Q s1) as Hrest.
  { intros s1 HS1 Ha1. rewrite Hv, Hhh. wp_step.
    pose proof (st_backed _ _ _ _ _ _ _ _ _ HS1) as HB. apply (backed_perm _ _ _ _ _ HK) in HB.
    unfold claim_of in HB. rewrite Hv in HB.
    eapply (bk_drop ext n s1 K' v (is_mapping_shared r)); [exact HB|done|]. intros s2 Hb HB2.
    pose proof (stage_behind _ HS1 _ _ _ Hb HB2) as HS2.
    eapply wp_vm_free_vmregion; [exact (st_laid _ _ _ _ _ _ _ _ _ HS2)|done|]. intros t HL.
    apply HQ. exact (stage_regions _ HS2 _ _ _ _ HL). }
  wp_step. assert (∀ f, F f - file_claim f r = F f - match fd r with Some g => holds_page f g | None => 0 end) as HF
    by (intros; by rewrite file_claim_alt).
  destruct (fd r) as [g|] eqn:Hg.
  - unfold fd_put. wp_step. eapply Hrest; [|done].
    assert (wp (fd_put g) (λ _ s', stage ext n R K V S (λ f, F f - file_claim f r) c s') s) as Hp; [|exact Hp].
    eapply (stage_fd_put _ HS). intros s' HS'. eapply stage_eq; [exact HS'|done..|].
    intros f. by rewrite HF.
  - wp_step. apply Hrest; [|done]. eapply stage_eq; [exact HS|done..|]. intros f. rewrite HF. lia.
Qed.
End removal.
