(* ===== verification/VmUnmap.v ===== *)
(** * VmUnmap: taking memory out of an address space.

    The pieces that are left of a region when a range of whole pages inside it goes, and
    the loops that unmap region by region. *)

From stdpp Require Import sorting.
From S2P Require Import Prelude Bits Abi PageAlloc Frames VmObject VmObjectFacts VmObjectLife.
From S2P Require Import VmObjectPurge VmBacking Wavl WavlProps Vm VmLayout VmPrivate.
From S2P Require Import VmSpace.

(** ** Lists of regions under change *)

Lemma fits_mono r q : fits r → base q mod 4096 = 0 → base r <= base q → 1 <= pages q → rend q <= rend r → fits q.
Proof. intros [? ? ? ?] ? ? ? ?. split; try lia. by rewrite page_size. Qed.

Lemma ordered_shrink R1 a r q R2 : ordered (R1 ++ (a, r) :: R2) → fits q → base r <= base q → rend q <= rend r →
  ordered (R1 ++ (a, q) :: R2).
Proof.
  rewrite !ordered_mid. intros (HR & Hf & H1 & H2) Hq Hb He. split_and!; try done.
  - intros b x Hx. specialize (H1 _ _ Hx). lia.
  - intros b x Hx. specialize (H2 _ _ Hx). lia.
Qed.

Lemma ordered_same R1 a r q R2 : ordered (R1 ++ (a, r) :: R2) → base q = base r → pages q = pages r →
  ordered (R1 ++ (a, q) :: R2).
Proof.
  intros Ho Eb Ep. assert (rend q = rend r) as Ee by (unfold rend; by rewrite Eb, Ep).
  eapply ordered_shrink; [exact Ho| |lia|lia].
  apply ordered_mid in Ho as (_ & [? ? ? ?] & _). split; rewrite ?Eb, ?Ep, ?Ee; done.
Qed.

(** A region is disjoint from the rest. *)
Lemma ordered_apart R1 a r R2 b q : ordered (R1 ++ (a, r) :: R2) → (b, q) ∈ R1 ++ R2 → ¬ touches (base r) (rend r) q.
Proof.
  rewrite ordered_mid, list.elem_of_app. intros (HR & Hf & H1 & H2) [Hq|Hq]; unfold touches.
  - specialize (H1 _ _ Hq). lia.
  - specialize (H2 _ _ Hq). lia.
Qed.

Lemma over_perm g R R' : R ≡ₚ R' → over g R = over g R'.
Proof. apply sum_of_perm. Qed.
Lemma mapped_perm R R' x p : R ≡ₚ R' → mapped R x p ↔ mapped R' x p.
Proof. intros E. unfold mapped. by setoid_rewrite E. Qed.
Lemma claims_perm R R' : R ≡ₚ R' → claims_of R ≡ₚ claims_of R'.
Proof. intros E. unfold claims_of. by rewrite E. Qed.

(** The pieces [P] of region [r] without the bytes from [b] to [e]. *)
Record cut (b e : Z) (r : vm_region) (P : rlist) : Prop := Cut {
  cut_mapped : ∀ x p, mapped P x p ↔ base r <= x < rend r ∧ rwx r = p ∧ ¬ (b <= x < e);
  cut_apart : ∀ a q, (a, q) ∈ P → rend q <= b ∨ e <= base q;
  cut_within : ∀ a q, (a, q) ∈ P → base r <= base q ∧ rend q <= rend r;
  cut_backed : ∀ a q, (a, q) ∈ P → is_Some (vmo q);
  cut_size : over rsize P = rsize r - (e - b);
  cut_shared : over shared_size P = shared_size r - (if is_mapping_shared r then e - b else 0);
}.

(** Region [r] from its page [j] on, [k] pages long. *)
Lemma shiftr_page k : Z.shiftr (4096 * k) PAGE_SHIFT = k.
Proof. unfold PAGE_SHIFT. rewrite Z.shiftr_div_pow2 by done. change (2 ^ 12) with 4096. rewrite Z.mul_comm. apply Z.div_mul. lia. Qed.

Section unmap.
Context {FS : Type} `{FramesLaws FS} (ext fx : Z → Z).
Context (free_other : Z → Z → M (world FS) unit) (Hdrops : drops free_other)
        (Hfree : ∀ v p, lucky ext (λ _, True) (free_other v p)).
Implicit Types (s : mm FS) (R : rlist).

Abbreviation files R := (λ f, fx f + over (file_claim f) R).

(** A change of a region that leaves its range alone. *)
Lemma stage_set n R K V S F c s (HS : stage ext n R K V S F c s) R1 a r R2 f (Q : unit → mm FS → Prop) :
  R = R1 ++ (a, r) :: R2 → base (f r) = base r → pages (f r) = pages r →
  (∀ s', stage ext n (R1 ++ (a, f r) :: R2) K V S F c s' → Q tt s') → wp (upd_region a f) Q s.
Proof.
  intros HR Eb Ep HQ. eapply (stage_upd _ HS R1 a r R2); [done| |done].
  eapply ordered_same; [|exact Eb|exact Ep]. rewrite <- HR. eapply layout_ordered, HS.
Qed.

Section one_region.
Context (n : Z) (s : mm FS) (R1 : rlist) (a : Z) (r : vm_region) (R2 : rlist) (j k l : Z).
Abbreviation R := (R1 ++ (a, r) :: R2).
Context (HS : space ext fx n s R) (Hn : 2 <= n < 2 ^ 64) (Hj : 0 <= j) (Hk : 1 <= k) (Hl : 0 <= l)
        (Hp : pages r = j + k + l).
Abbreviation addr := (base r + 4096 * j).

Lemma reg_facts : fits r ∧ base r mod 4096 = 0 ∧ ordered R ∧ 0 <= base r ∧ rend r = base r + 4096 * (j + k + l) ∧
  rend r <= VM_HIGHER_HALF ∧ is_Some (vmo r) ∧ region_size r = 4096 * (j + k + l).
Proof.
  destruct HS as [[HL _ _ _ _ _] Hv]. assert ((a, r) ∈ R) as Hin by apply elem_mid.
  assert (fits r) as Hf by exact (lay_fits _ _ _ _ HL _ _ Hin). pose proof Hf as [? ? ? ?].
  split_and!; try done.
  - exact (layout_ordered HL).
  - unfold rend. by rewrite Hp.
  - by eapply Hv.
  - rewrite region_size_fits by done. unfold rend. rewrite Hp, page_size. lia.
Qed.

(** What the operation leaves: pieces of the region in place of it, and the counters as
    they were. *)
Definition cut_post (m : Z) (Q : Z * Z → mm FS → Prop) : Prop := ∀ s' P R',
  R' ≡ₚ P ++ R1 ++ R2 → cut addr (addr + 4096 * k) r P →
  stage ext m R' (claims_of R') (over rsize R) (over shared_size R) (files R') (settings s) s' →
  Q (0, 4096 * k) s'.

Lemma cut_all Q : j = 0 → l = 0 → cut_post n Q → wp (munmap_region free_other a addr (4096 * k)) Q s.
Proof.
  intros Ej El HQ. destruct reg_facts as (Hf & Hal & Ho & Hb & He & Hh & [v Hv] & Hsz). pose proof HS as [HS0 Hbk].
  unfold munmap_region. wp_step. eapply (stage_get _ HS0); [apply elem_mid|]. rewrite Hsz.
  rewrite (proj2 (Z.eqb_eq _ _)) by lia. rewrite (proj2 (Z.ltb_ge _ _)) by lia.
  rewrite (proj2 (Z.eqb_eq (4096 * (j + k + l)) _)) by lia. cbn [negb].
  wp_step. wp_step. eapply (stage_remove HS0); [done|]. intros s1 HS1 [Ha1 _].
  assert (NoDup R.*1) as HN by (eapply layout_nodup, HS0). rewrite fmap_app in HN. simpl in HN.
  eapply (stage_destroy HS1 a r v (claims_of (R1 ++ R2))); [done| | |done|apply claims_mid|lia|].
  { rewrite fmap_app. apply list.NoDup_app in HN as (_ & H1 & [H2 _]%list.NoDup_cons).
    intros [Hx|Hx]%list.elem_of_app; [destruct (H1 a Hx); by left|done]. }
  { unfold is_higher_half. rewrite higher_half in *. lia. }
  intros s2 HS2. wp_step. replace (4096 * (j + k + l)) with (4096 * k) by lia.
  eapply (HQ s2 [] (R1 ++ R2)); [done| |].
  - split; try (by intros * ?%not_elem_of_nil).
    + intros x p. rewrite mapped_nil. lia.
    + unfold over, rsize. simpl. lia.
    + unfold over, shared_size, rsize. simpl. destruct (is_mapping_shared r); lia.
  - eapply stage_eq; [exact HS2|done..|]. intros f. simpl. rewrite over_mid. lia.
Qed.

(** One piece is left, the region with another range. *)
Lemma one_piece q : rwx q = rwx r → vmo q = vmo r → mapping_type q = mapping_type r →
  (base q = base r ∧ rend q = addr ∧ l = 0 ∧ 0 < j) ∨ (base q = addr + 4096 * k ∧ rend q = rend r ∧ j = 0 ∧ 0 < l) →
  cut addr (addr + 4096 * k) r [(a, q)].
Proof.
  intros Ew Ev Em Hq. destruct reg_facts as (Hf & Hal & Ho & Hb & He & Hh & Hv & Hsz).
  assert (is_mapping_shared q = is_mapping_shared r) as Es by (unfold is_mapping_shared; by rewrite Em).
  split.
  - intros x p. rewrite mapped_cons, mapped_nil, Ew. lia.
  - intros b y [[= -> ->]|?%not_elem_of_nil]%list.elem_of_cons; [lia|done].
  - intros b y [[= -> ->]|?%not_elem_of_nil]%list.elem_of_cons; [lia|done].
  - intros b y [[= -> ->]|?%not_elem_of_nil]%list.elem_of_cons; [by rewrite Ev|done].
  - unfold over, rsize. simpl. lia.
  - unfold over, shared_size, rsize. simpl. rewrite Es. destruct (is_mapping_shared r); lia.
Qed.

(** The state after that piece has taken the place of the region. *)
Lemma one_piece_stage q s' : vmo q = vmo r → mapping_type q = mapping_type r → fd q = fd r →
  stage ext n (R1 ++ (a, q) :: R2) (claims_of R) (over rsize R) (over shared_size R) (files R) (settings s) s' →
  stage ext n (R1 ++ (a, q) :: R2) (claims_of (R1 ++ (a, q) :: R2)) (over rsize R) (over shared_size R)
    (files (R1 ++ (a, q) :: R2)) (settings s) s'.
Proof.
  intros Ev Em Ef [T1 T2 T3 T4 T5 T6].
  assert (claim_of q = claim_of r) as Ec by (unfold claim_of, is_mapping_shared; by rewrite Ev, Em).
  split; try done.
  - eapply backed_perm; [|exact T2]. by rewrite !claims_mid, Ec.
  - intros f. rewrite T5, !over_mid. unfold file_claim at 1 3. by rewrite Ef.
Qed.

Lemma cut_front Q : j = 0 → 1 <= l → cut_post n Q → wp (munmap_region free_other a addr (4096 * k)) Q s.
Proof.
  intros Ej El HQ. destruct reg_facts as (Hf & Hal & Ho & Hb & He & Hh & Hv & Hsz). pose proof HS as [HS0 Hbk].
  rewrite higher_half in Hh.
  unfold munmap_region. wp_step. eapply (stage_get _ HS0); [apply elem_mid|]. rewrite Hsz.
  rewrite (proj2 (Z.eqb_eq _ _)) by lia. rewrite (proj2 (Z.ltb_lt _ _)) by lia.
  rewrite (proj2 (Z.eqb_neq (4096 * k) _)) by lia. cbn [negb]. rewrite shiftr_page.
  set (q := set_offset (i64 (offset r + 4096 * k)) (set_range (base r + 4096 * k) l r)).
  assert (set_offset (i64 (offset r + 4096 * k)) (set_range (u64 (base r + 4096 * k)) (u64 (pages r - k)) r) = q) as Eq
    by (rewrite !u64_small by lia; unfold q; do 2 f_equal; lia).
  assert (rend q = rend r) by (unfold rend in *; simpl; rewrite page_size in *; lia).
  wp_step. eapply (stage_upd _ HS0 R1 a r R2); [done| |]; rewrite Eq.
  - eapply ordered_shrink; [exact Ho| |simpl; lia|lia]. eapply fits_mono; [exact Hf| |simpl; lia|done|lia].
    simpl. rewrite Z.mul_comm, Z.mod_add; lia.
  - intros s' HS'. wp_step. eapply (HQ s' [(a, q)] (R1 ++ (a, q) :: R2)).
    + simpl. by rewrite Permutation_middle.
    + apply one_piece; try done. right. simpl. lia.
    + by apply one_piece_stage.
Qed.

Lemma cut_tail Q : 1 <= j → l = 0 → cut_post n Q → wp (munmap_region free_other a addr (4096 * k)) Q s.
Proof.
  intros Ej El HQ. destruct reg_facts as (Hf & Hal & Ho & Hb & He & Hh & [v Hv] & Hsz). pose proof HS as [HS0 Hbk].
  rewrite higher_half in Hh. set (q := set_range (base r) j r).
  assert (set_range (base r) (u64 (pages r - k)) r = q) as Eq by (rewrite u64_small by lia; unfold q; f_equal; lia).
  assert (rend q = addr) by (unfold rend; simpl; rewrite page_size in *; lia).
  unfold munmap_region, munmap_tail. wp_step. eapply (stage_get _ HS0); [apply elem_mid|]. rewrite Hsz.
  rewrite (proj2 (Z.eqb_neq _ _)) by lia. rewrite (proj2 (Z.ltb_lt (base r) _)) by lia.
  rewrite (u64_small (addr - base r)), (u64_small (_ - _)) by lia. rewrite (proj2 (Z.ltb_ge _ _)) by lia.
  replace (4096 * (j + k + l) - (addr - base r)) with (4096 * k) by lia. rewrite Z.eqb_refl. cbn [negb].
  rewrite shiftr_page. do 2 wp_step. eapply (stage_upd _ HS0 R1 a r R2); [done| |]; rewrite Eq.
  { eapply ordered_shrink; [exact Ho| |simpl; lia|lia]. eapply fits_mono; [exact Hf|done|simpl; lia|simpl; lia|lia]. }
  intros s1 HS1. wp_step. eapply (stage_get _ HS1); [apply elem_mid|].
  assert (∀ s', stage ext n (R1 ++ (a, q) :: R2) (claims_of R) (over rsize R) (over shared_size R) (files R) (settings s) s' →
    Q (0, 4096 * k) s') as Hend.
  { intros s' HS'. eapply (HQ s' [(a, q)] (R1 ++ (a, q) :: R2)).
    - simpl. by rewrite Permutation_middle.
    - apply one_piece; try done. left. simpl. lia.
    - by apply one_piece_stage. }
  assert ((Some v, is_mapping_shared r) ∈ claims_of R) as Hin.
  { pose proof (claims_in R1 a r R2) as Hin. unfold claim_of in Hin. by rewrite Hv in Hin. }
  wp_step; [do 2 wp_step; by apply Hend|].
  wp_step. eapply wp_from_opt; [exact Hv|]. wp_step. pose proof (st_backed _ _ _ _ _ _ _ _ _ HS1) as HB.
  eapply bk_is_shared; [exact HB|exact Hin|]. intros b. wp_step; [|do 2 wp_step; by apply Hend].
  wp_step. eapply bk_get; [exact HB|exact Hin|]. intros o Ho1. wp_step.
  eapply (bk_truncate ext free_other Hdrops Hfree); [exact HB|exact Hin|lia|]. intros s2 Hbe HB2. do 2 wp_step.
  apply Hend. exact (stage_behind _ HS1 _ _ _ Hbe HB2).
Qed.

(** Two pieces are left. *)
Lemma two_pieces q a' q' : rwx q = rwx r → vmo q = vmo r → mapping_type q = mapping_type r →
  rwx q' = rwx r → is_Some (vmo q') → mapping_type q' = mapping_type r →
  base q = base r → rend q = addr → base q' = addr + 4096 * k → rend q' = rend r → 0 < l →
  cut addr (addr + 4096 * k) r [(a, q); (a', q')].
Proof.
  intros Ew Ev Em Ew' Ev' Em' H1 H2 H3 H4 Hl0.
  destruct reg_facts as (Hf & Hal & Ho & Hb & He & Hh & Hv & Hsz).
  assert (is_mapping_shared q = is_mapping_shared r) as Es by (unfold is_mapping_shared; by rewrite Em).
  assert (is_mapping_shared q' = is_mapping_shared r) as Es' by (unfold is_mapping_shared; by rewrite Em').
  assert (∀ b y, (b, y) ∈ [(a, q); (a', q')] → y = q ∨ y = q') as Hin.
  { intros b y. rewrite !list.elem_of_cons, elem_of_nil. naive_solver. }
  split.
  - intros x p. rewrite !mapped_cons, mapped_nil, Ew, Ew'. lia.
  - intros b y [-> | ->]%Hin; lia.
  - intros b y [-> | ->]%Hin; lia.
  - intros b y [-> | ->]%Hin; [by rewrite Ev|done].
  - unfold over, rsize. simpl. lia.
  - unfold over, shared_size, rsize. simpl. rewrite Es, Es'. destruct (is_mapping_shared r); lia.
Qed.

Lemma two_pieces_stage m q L1 L2 a' q' s' : L1 ++ L2 = R1 ++ (a, q) :: R2 →
  vmo q = vmo r → mapping_type q = mapping_type r → fd q = fd r → fd q' = fd r → n - 1 <= m →
  stage ext m (L1 ++ (a', q') :: L2) (claim_of q' :: claims_of R) (over rsize R) (over shared_size R)
    (λ f, files R f + file_claim f q') (settings s) s' →
  stage ext (n - 1) (L1 ++ (a', q') :: L2) (claims_of (L1 ++ (a', q') :: L2)) (over rsize R) (over shared_size R)
    (files (L1 ++ (a', q') :: L2)) (settings s) s'.
Proof.
  intros EL Ev Em Ef Ef' Hm [T1 T2 T3 T4 T5 T6].
  assert (claim_of q = claim_of r) as Ec by (unfold claim_of, is_mapping_shared; by rewrite Ev, Em).
  split; try done.
  - eapply backed_mono; [|eapply backed_perm; [|exact T2]]; [lia|]. by rewrite (claims_mid L1), EL, !claims_mid, Ec.
  - intros f. rewrite T5, (over_mid _ L1), EL, !over_mid. unfold file_claim. rewrite Ef. lia.
Qed.

(** The first part of making a hole: the region is cut, and the part behind the hole is a
    region [a'] with the attributes of the old one, all but its object. *)
Lemma hole_region off (Q : Z → mm FS → Prop) q L1 L2 a' s1 (m : M (mm FS) Z) :
  q = set_range (base r) j r → L1 ++ L2 = R1 ++ (a, q) :: R2 → a' ≠ a →
  stage ext n (L1 ++ (a', new_region (addr + 4096 * k) l) :: L2) (claims_of R) (over rsize R) (over shared_size R)
    (files R) (settings s) s1 →
  (∀ s2 q', vmo q' = None → rwx q' = rwx r → mapping_type q' = mapping_type r → fd q' = fd r →
    base q' = addr + 4096 * k → pages q' = l →
    stage ext n (L1 ++ (a', q') :: L2) (claims_of R) (over rsize R) (over shared_size R)
      (λ f, files R f + file_claim f q') (settings s) s2 → wp m Q s2) →
  wp (upd_region a' (set_rwx (rwx q));;
      match fd q with
      | Some f => fd_get f;; upd_region a' (set_fd (Some f))
      | None => mret tt
      end;;
      upd_region a' (λ n, set_rflags (rflags q) (set_offset off (set_mapping_type (mapping_type q) n)));;
      m) Q s1.
Proof.
  intros -> EL Hne HS1 HQ. cbn [rwx fd rflags mapping_type set_range]. wp_step.
  eapply (stage_set _ _ _ _ _ _ _ _ HS1); [done..|]. intros s2 HS2. wp_step.
  assert (∀ s3 q3, vmo q3 = None → rwx q3 = rwx r → fd q3 = fd r → base q3 = addr + 4096 * k → pages q3 = l →
    stage ext n (L1 ++ (a', q3) :: L2) (claims_of R) (over rsize R) (over shared_size R)
      (λ f, files R f + file_claim f q3) (settings s) s3 →
    wp (upd_region a' (λ n, set_rflags (rflags r) (set_offset off (set_mapping_type (mapping_type r) n)));; m) Q s3)
    as Hrest.
  { intros s3 q3 Ev Ew Ef Eb Ep HS3. wp_step. eapply (stage_set _ _ _ _ _ _ _ _ HS3); [done..|].
    intros s4 HS4. by eapply HQ; [..|exact HS4]. }
  destruct (fd r) as [f|] eqn:Ef.
  - wp_step. eapply (stage_fd_get _ HS2). intros s3 HS3.
    eapply (stage_set _ _ _ _ _ _ _ _ HS3); [done..|]. intros s4 HS4.
    eapply Hrest; [..|eapply stage_eq; [exact HS4|done..|]]; try done.
    intros g. rewrite (file_claim_alt g (set_fd _ _)). done.
  - wp_step. eapply Hrest; [..|eapply stage_eq; [exact HS2|done..|]]; try done.
    intros g. rewrite (file_claim_alt g (set_rwx _ _)). simpl. lia.
Qed.

(** The second part: the object of the part behind the hole. *)
Lemma hole_object (Q : Z → mm FS → Prop) v L1 L2 a' q' s1 :
  vmo r = Some v → vmo q' = None → is_mapping_shared q' = is_mapping_shared r →
  stage ext n (L1 ++ (a', q') :: L2) (claims_of R) (over rsize R) (over shared_size R)
    (λ f, files R f + file_claim f q') (settings s) s1 →
  (∀ s2 q2, is_Some (vmo q2) → rwx q2 = rwx q' → mapping_type q2 = mapping_type q' → fd q2 = fd q' →
    base q2 = base q' → pages q2 = pages q' →
    stage ext (n - 1) (L1 ++ (a', q2) :: L2) (claim_of q2 :: claims_of R) (over rsize R) (over shared_size R)
      (λ f, files R f + file_claim f q2) (settings s) s2 → Q 0 s2) →
  wp (shared ← (if is_mapping_shared r then mret true else in_objects (vmo_is_shared v));
      if negb shared then
        second ← in_objects (vmo_split free_other (4096 * j) (4096 * k) v);
        match second with
        | None => vm_remove_region a';; mret (- ENOMEM)
        | Some second =>
            add_vmo_to_private_list second;;
            upd_region a' (set_vmo (Some second));;
            in_objects (vmo_assign_mapping second a');;
            upd_region a' (set_offset 0);;
            mret 0
        end
      else
        in_objects (vmo_assign_mapping v a');;
        in_objects (vmo_ref v);;
        upd_region a' (set_vmo (Some v));;
        mret 0) Q s1.
Proof.
  intros Hv Hv' Hsh HS1 HQ. pose proof (st_backed _ _ _ _ _ _ _ _ _ HS1) as HB.
  assert ((Some v, is_mapping_shared r) ∈ claims_of R) as Hin.
  { pose proof (claims_in R1 a r R2) as Hin. unfold claim_of in Hin. by rewrite Hv in Hin. }
  assert (∀ q2 : vm_region, mapping_type q2 = mapping_type q' → is_mapping_shared q2 = is_mapping_shared r) as Hm.
  { intros q2 E. rewrite <- Hsh. unfold is_mapping_shared. by rewrite E. }
  assert (wp (in_objects (vmo_assign_mapping v a');; in_objects (vmo_ref v);; upd_region a' (set_vmo (Some v));; mret 0) Q s1)
    as Hshared.
  { wp_step. eapply bk_assign; [exact HB|exact Hin|]. intros s2 Hb2 HB2.
    pose proof (stage_behind _ HS1 _ _ _ Hb2 HB2) as HS2. wp_step. eapply bk_ref; [exact HB2|exact Hin|lia|].
    intros s3 Hb3 HB3. pose proof (stage_behind _ HS2 _ _ _ Hb3 HB3) as HS3. wp_step.
    eapply (stage_set _ _ _ _ _ _ _ _ HS3); [done..|]. intros s4 HS4. wp_step.
    eapply HQ; [..|eapply stage_eq; [exact HS4|..]]; try done.
    unfold claim_of at 1. by rewrite (Hm (set_vmo (Some v) q')). }
  destruct (is_mapping_shared r) eqn:Er; wp_step; [wp_step; exact Hshared|].
  eapply bk_is_shared; [exact HB|exact Hin|]. intros b. wp_step; [|exact Hshared].
  wp_step. eapply (bk_split ext free_other Hdrops Hfree n s1 _ v false false); [exact HB|exact Hin|lia|].
  intros u s2 Hb2 HP2. cbn iota. wp_step. eapply pending_add; [exact HP2|]. intros s3 Hb3 HB3.
  pose proof (stage_behind _ HS1 _ _ _ (behind_trans _ _ _ Hb2 Hb3) HB3) as HS3. wp_step.
  eapply (stage_set _ _ _ _ _ _ _ _ HS3); [done..|]. intros s4 HS4. wp_step.
  eapply (bk_assign ext (n - 1) s4 _ u false); [apply HS4|by left|]. intros s5 Hb5 HB5.
  pose proof (stage_behind _ HS4 _ _ _ Hb5 HB5) as HS5. wp_step.
  eapply (stage_set _ _ _ _ _ _ _ _ HS5); [done..|]. intros s6 HS6. wp_step.
  eapply HQ; [..|eapply stage_eq; [exact HS6|..]]; try done.
  unfold claim_of at 1. by rewrite (Hm (set_offset 0 (set_vmo (Some u) q'))).
Qed.

Lemma cut_hole Q : 1 <= j → 1 <= l → cut_post (n - 1) Q → wp (munmap_region free_other a addr (4096 * k)) Q s.
Proof.
  intros Ej El HQ. destruct reg_facts as (Hf & Hal & Ho & Hb & He & Hh & [v Hv] & Hsz). pose proof HS as [HS0 Hbk].
  pose proof Hh as Hh'. rewrite higher_half in Hh'. set (q := set_range (base r) j r).
  assert (rend q = addr) as Eq by (unfold rend; simpl; rewrite page_size in *; lia).
  unfold munmap_region, munmap_hole. wp_step. eapply (stage_get _ HS0); [apply elem_mid|]. rewrite Hsz.
  rewrite (proj2 (Z.eqb_neq _ _)) by lia. rewrite (proj2 (Z.ltb_lt (base r) _)) by lia.
  rewrite (u64_small (addr - base r)), (u64_small (_ - _)) by lia.
  replace (addr - base r) with (4096 * j) by lia. rewrite (proj2 (Z.ltb_lt (4096 * k) _)) by lia.
  rewrite (proj2 (Z.eqb_neq _ _)) by lia. cbn [negb]. rewrite shiftr_page.
  rewrite (u64_small (addr + _)), (u64_small (_ - _)) by lia.
  replace (4096 * (j + k + l) - 4096 * j - 4096 * k) with (4096 * l) by lia.
  do 2 wp_step. eapply (stage_upd _ HS0 R1 a r R2); [done| |]; fold q.
  { eapply ordered_shrink; [exact Ho| |simpl; lia|lia]. eapply fits_mono; [exact Hf|done|simpl; lia|simpl; lia|lia]. }
  intros s1 HS1. wp_step. eapply (stage_reserve _ HS1).
  { eapply fits_mono; [exact Hf| |simpl; lia|simpl; lia|unfold rend; simpl; rewrite page_size in *; lia].
    simpl. replace (base r + 4096 * j + 4096 * k) with (base r + (j + k) * 4096) by lia. rewrite Z.mod_add; lia. }
  { intros b y Hy Ht. unfold touches in Ht. rewrite list.elem_of_app, list.elem_of_cons in Hy.
    assert (y = q ∨ (b, y) ∈ R1 ++ R2) as [->|Hy'] by (rewrite list.elem_of_app; naive_solver); [lia|].
    apply (ordered_apart _ _ _ _ _ _ Ho Hy'). unfold touches. lia. }
  intros a' L1 L2 s2 EL Hnew _ HS2. cbn iota. symmetry in EL.
  assert (a' ≠ a) as Hne. { intros ->. apply (Hnew q). apply elem_mid. }
  assert ((a, q) ∈ L1 ++ (a', new_region (addr + 4096 * k) l) :: L2) as Hq.
  { pose proof (elem_mid R1 (a, q) R2) as Hq. rewrite <- EL in Hq.
    rewrite list.elem_of_app, list.elem_of_cons in *. naive_solver. }
  wp_step. eapply (stage_get _ HS2); [exact Hq|].
  eapply (hole_region _ _ q L1 L2); [done|done|done|exact HS2|]. intros s3 q' Ev' Ew' Em' Ef' Eb' Ep' HS3.
  wp_step. eapply wp_from_opt; [exact Hv|].
  eapply (hole_object _ v L1 L2); [done|done|unfold is_mapping_shared; by rewrite Em'|exact HS3|].
  intros s4 q2 Ev2 Ew2 Em2 Ef2 Eb2 Ep2 HS4. wp_step. eapply (HQ s4 [(a, q); (a', q2)] (L1 ++ (a', q2) :: L2)).
  - rewrite <- (Permutation_middle L1), EL, <- (Permutation_middle R1). apply perm_swap.
  - apply two_pieces; try done; try congruence; [|lia]. unfold rend. rewrite Eb2, Ep2, Eb', Ep'. unfold rend in He. rewrite page_size in *. lia.
  - eapply (two_pieces_stage (n - 1) q); [done|done|done|done|congruence|lia|exact HS4].
Qed.
End one_region.

(** ** One call of munmap inside one region *)

Lemma over_app g R R' : over g (R ++ R') = over g R + over g R'.
Proof. apply sum_of_app. Qed.

Lemma wp_munmap_region n s R1 a r R2 addr k (Q : Z * Z → mm FS → Prop) :
  space ext fx n s (R1 ++ (a, r) :: R2) → 2 <= n < 2 ^ 64 → addr mod 4096 = 0 → 1 <= k →
  base r <= addr → addr + 4096 * k <= rend r →
  (∀ s' P R' m, R' ≡ₚ P ++ R1 ++ R2 → cut addr (addr + 4096 * k) r P →
    m = n ∨ (m = n - 1 ∧ base r < addr ∧ addr + 4096 * k < rend r) →
    stage ext m R' (claims_of R') (over rsize (R1 ++ (a, r) :: R2)) (over shared_size (R1 ++ (a, r) :: R2))
      (files R') (settings s) s' → Q (0, 4096 * k) s') →
  wp (munmap_region free_other a addr (4096 * k)) Q s.
Proof.
  intros HS Hn Hal Hk Hb He HQ. pose proof HS as [HS0 _].
  assert (fits r) as Hf by exact (lay_fits _ _ _ _ (st_laid _ _ _ _ _ _ _ _ _ HS0) _ _ (elem_mid _ _ _)).
  pose proof (fits_aligned _ Hf) as Hal'. rewrite page_size in Hal'.
  assert (∃ j, addr = base r + 4096 * j) as [j ->].
  { exists (addr / 4096 - base r / 4096). pose proof (Z.div_mod addr 4096). pose proof (Z.div_mod (base r) 4096). lia. }
  set (l := pages r - j - k). unfold rend in He. rewrite page_size in He.
  assert (0 <= l) by lia. assert (pages r = j + k + l) by lia.
  destruct (decide (j = 0)), (decide (l = 0)).
  - eapply (cut_all n s R1 a r R2 j k l); try done; [lia..|]. intros s' P R' HR Hc Hs. eapply HQ; try done. by left.
  - eapply (cut_front n s R1 a r R2 j k l); try done; [lia..|]. intros s' P R' HR Hc Hs. eapply HQ; try done. by left.
  - eapply (cut_tail n s R1 a r R2 j k l); try done; [lia..|]. intros s' P R' HR Hc Hs. eapply HQ; try done. by left.
  - eapply (cut_hole n s R1 a r R2 j k l); try done; [lia..|]. intros s' P R' HR Hc Hs. eapply HQ; try done.
    right. unfold rend. rewrite page_size. lia.
Qed.

Lemma space_done n s R' R1 a r R2 P b e V S c :
  R' ≡ₚ P ++ R1 ++ R2 → cut b e r P → (∀ x q, (x, q) ∈ R1 ++ R2 → is_Some (vmo q)) →
  V = over rsize (R1 ++ (a, r) :: R2) - (e - b) →
  S = over shared_size (R1 ++ (a, r) :: R2) - (if is_mapping_shared r then e - b else 0) →
  stage ext n R' (claims_of R') V S (files R') c s → space ext fx n s R' ∧ settings s = c.
Proof.
  intros HR [C1 C2 C3 C4 C5 C6] Hbk -> -> HS. pose proof (st_settings _ _ _ _ _ _ _ _ _ HS) as Ec.
  split; [|done]. split.
  - rewrite Ec. eapply stage_eq; [exact HS|done| | |done]; rewrite over_mid, (over_perm _ _ _ HR), !over_app; lia.
  - intros x q. rewrite HR, list.elem_of_app. intros [Hq|Hq]; [by eapply C4|by eapply Hbk].
Qed.

Lemma search_only n s R1 a r R2 addr len k (Q : option Z → mm FS → Prop) :
  space ext fx n s (R1 ++ (a, r) :: R2) → addr mod 4096 = 0 → 1 <= k → vm_size_to_pages len = k →
  base r <= addr → addr + 4096 * k <= rend r → Q (Some a) s → wp (vm_search addr len) Q s.
Proof.
  intros [HS _] Hal Hk Hlen Hb He HQ. pose proof (st_laid _ _ _ _ _ _ _ _ _ HS) as HL.
  pose proof (fits_bounds _ (lay_fits _ _ _ _ HL _ _ (elem_mid _ _ _))).
  eapply (wp_vm_search _ _ _ _ addr k); [exact HL|lia|by rewrite page_of_aligned|done|done|lia| |].
  - intros Hno. destruct (Hno _ _ (elem_mid R1 (a, r) R2)). unfold touches. lia.
  - intros b q Hq Ht. apply elem_mid_inv in Hq as [[= -> ->]|Hq]; [done|].
    destruct (ordered_apart _ _ _ _ _ _ (layout_ordered HL) Hq). unfold touches in *. lia.
Qed.

Lemma wp___vm_munmap n s R1 a r R2 addr k (Q : Z → mm FS → Prop) :
  space ext fx n s (R1 ++ (a, r) :: R2) → 2 <= n < 2 ^ 64 → addr mod 4096 = 0 → 1 <= k →
  base r <= addr → addr + 4096 * k <= rend r →
  (∀ s' P R' m, R' ≡ₚ P ++ R1 ++ R2 → cut addr (addr + 4096 * k) r P →
    m = n ∨ (m = n - 1 ∧ base r < addr ∧ addr + 4096 * k < rend r) → space ext fx m s' R' →
    settings s' = settings s → Q 0 s') →
  wp (__vm_munmap free_other addr (4096 * k)) Q s.
Proof.
  intros HS Hn Hal Hk Hb He HQ. pose proof HS as [HS0 Hbk].
  assert (fits r) as Hf by exact (lay_fits _ _ _ _ (st_laid _ _ _ _ _ _ _ _ _ HS0) _ _ (elem_mid _ _ _)).
  pose proof (fits_bounds _ Hf). pose proof (fits_end _ Hf) as Hh. rewrite higher_half in Hh.
  unfold __vm_munmap. rewrite align_up2_page by lia.
  assert (page_of (4096 * k + 4095) = 4096 * k) as ->.
  { unfold page_of, PAGE_SIZE. rewrite (Z.add_comm (4096 * k)), (Z.mul_comm 4096 k), Z.mod_add by lia. change (4095 mod 4096) with 4095. lia. }
  rewrite (u64_small (addr + _)) by lia. wp_step. wp_step. set (bound := walk_bound _).
  cbn [munmap_loop]. rewrite (proj2 (Z.ltb_lt _ _)) by lia. cbn [negb]. wp_step.
  rewrite mask_page, page_of_aligned by lia. eapply search_only; [exact HS|done|exact Hk|apply size_to_pages_mul; lia|done|done|].
  wp_step. eapply (stage_get _ HS0); [apply elem_mid|]. wp_step. unfold do_vm_unmap, vm_find_region. wp_step.
  eapply (search_only _ _ _ _ _ _ _ _ 1); [exact HS|done|lia|done|done|lia|]. wp_step; [done|].
  wp_step. eapply wp_munmap_region; [exact HS|done|done|done|done|done|]. intros s1 P R' m HR Hcut Hm HS1. cbn beta iota.
  change (0 <? 0) with false. cbn iota. wp_step. eapply (stage_add_virtual _ HS1). intros s2 HS2. wp_step.
  assert (∀ s3, space ext fx m s3 R' ∧ settings s3 = settings s →
    wp (munmap_loop free_other bound addr (4096 * k) (addr + 4096 * k) (u64 (addr + 4096 * k))
         (u64 (4096 * k - 4096 * k))) Q s3) as Hend.
  { intros s3 [HS3 Hc3]. unfold bound, walk_bound. cbn [munmap_loop]. rewrite u64_small, (proj2 (Z.ltb_ge _ _)) by lia. cbn [negb]. wp_step.
    by eapply HQ. }
  assert (∀ x q, (x, q) ∈ R1 ++ R2 → is_Some (vmo q)) as Hbk'.
  { intros x q Hq. eapply (Hbk x). rewrite list.elem_of_app, list.elem_of_cons in *. tauto. }
  destruct (is_mapping_shared r) eqn:Er.
  - eapply (stage_add_shared _ HS2). intros s3 HS3. apply Hend.
    eapply (space_done _ _ _ _ a r _ _ _ _ _ _ _ HR Hcut Hbk'); [| |exact HS3]; rewrite ?Er; lia.
  - wp_step. apply Hend.
    eapply (space_done _ _ _ _ a r _ _ _ _ _ _ _ HR Hcut Hbk'); [| |exact HS2]; rewrite ?Er; lia.
Qed.

(** ** Unmapping a range *)

Section range.
Context (b k : Z) (Hb : 0 <= b) (Hal : b mod 4096 = 0) (Hk : 1 <= k) (Hend : b + 4096 * k <= VM_HIGHER_HALF).
Abbreviation e := (b + 4096 * k).

Definition touching R : nat := length (filter (λ x, touches b e x.2) R).

(** No region reaches into the range from below and ends inside it. *)
Definition no_straddle R : Prop := ∀ a r, (a, r) ∈ R → base r < b → b < rend r → e <= rend r.

Lemma touching_perm R R' : R ≡ₚ R' → touching R = touching R'.
Proof. intros E. unfold touching. by rewrite E. Qed.

Lemma touching_in R a r : (a, r) ∈ R → touches b e r → (1 <= touching R)%nat.
Proof.
  intros Hin Ht. unfold touching. destruct (filter _ R) eqn:E; simpl; [|lia].
  assert ((a, r) ∈ filter (λ x : Z * vm_region, touches b e x.2) R) as Hf by by apply list_elem_of_filter.
  rewrite E in Hf. by apply not_elem_of_nil in Hf.
Qed.

Lemma touching_none R : (∀ a r, (a, r) ∈ R → ¬ touches b e r) → touching R = 0%nat.
Proof.
  induction R as [|[a r] R IH]; intros Hno; [done|]. unfold touching. rewrite filter_cons, decide_False.
  - apply IH. intros x q Hq. eapply Hno. by right.
  - eapply Hno. by left.
Qed.

Lemma loop_stop n s R fuel len (Q : unit → mm FS → Prop) :
  space ext fx n s R → (∀ a r, (a, r) ∈ R → ¬ touches b e r) → len = 4096 * k → Q tt s →
  wp (unmap_range_loop free_other (Datatypes.S fuel) b len e) Q s.
Proof.
  intros [HS _] Hno -> HQ. rewrite higher_half in Hend. cbn [unmap_range_loop]. wp_step.
  eapply (wp_vm_search _ _ _ _ b k); [apply HS|lia|by rewrite page_of_aligned|rewrite size_to_pages_mul; lia|done|lia| |].
  - intros _. by wp_step.
  - intros a r Hr Ht. by destruct (Hno a r Hr).
Qed.

(** The part of a region in the range, as the loop computes it. *)
Lemma loop_part r : fits r → touches b e r → (base r < b → e <= rend r) →
  ∃ addr k', 1 <= k' ∧ addr mod 4096 = 0 ∧ base r <= addr ∧ addr + 4096 * k' <= rend r ∧
    (∀ x, base r <= x < rend r → addr <= x < addr + 4096 * k' ↔ b <= x < e) ∧
    (if base r <? b then b else base r) = addr ∧
    (if u64 (e - addr) <? region_size r then u64 (e - addr) else region_size r) = 4096 * k' ∧
    (base r < addr ∧ addr + 4096 * k' < rend r → base r < b ∧ e < rend r).
Proof.
  intros Hf Ht Hst. pose proof (fits_bounds _ Hf). rewrite (region_size_fits _ Hf). rewrite higher_half in Hend.
  pose proof (fits_aligned _ Hf) as Hal'. rewrite page_size in Hal'. unfold touches in Ht.
  pose proof (Z.div_mod b 4096). pose proof (Z.div_mod (base r) 4096).
  destruct (Z.ltb_spec (base r) b).
  - exists b, k. rewrite u64_small by lia. rewrite (proj2 (Z.ltb_lt _ _)) by lia. split_and!; try done; try lia.
  - destruct (Z.ltb_spec (e - base r) (rend r - base r)).
    + exists (base r), (k - (base r / 4096 - b / 4096)). rewrite u64_small by lia.
      rewrite (proj2 (Z.ltb_lt _ _)) by lia. split_and!; try done; lia.
    + exists (base r), (pages r). rewrite u64_small by lia.
      rewrite (proj2 (Z.ltb_ge _ _)) by lia. split_and!; try done; lia.
Qed.

(** What is left of a region after the part has gone is outside of the range. *)
Lemma pieces_apart r P addr e' a q : cut addr e' r P → fits r → fits q → (a, q) ∈ P →
  (∀ x, base r <= x < rend r → addr <= x < e' ↔ b <= x < e) → addr < e' → base r <= addr → e' <= rend r →
  touches b e r → ¬ touches b e q.
Proof.
  intros [_ C2 C3 _ _ _] Hf Hq Hin Hx Hlt H1 H2 Ht Htq. destruct (C3 _ _ Hin). pose proof (fits_bounds _ Hq).
  unfold touches in *. destruct (C2 _ _ Hin).
  - destruct (Hx (Z.max b (base q))) as [_ Hx1]; lia.
  - destruct (Hx (Z.max b (base q))) as [_ Hx1]; lia.
Qed.

Lemma wp_unmap_range_loop fuel : ∀ n s R (Q : unit → mm FS → Prop),
  space ext fx n s R → 2 <= n < 2 ^ 64 → no_straddle R → (touching R < fuel)%nat →
  (∀ s' R' m, n - 1 <= m <= n → space ext fx m s' R' → settings s' = settings s →
    (∀ x p, mapped R' x p ↔ mapped R x p ∧ ¬ (b <= x < e)) → Q tt s') →
  wp (unmap_range_loop free_other fuel b (4096 * k) e) Q s.
Proof.
  induction fuel as [|fuel IH]; intros n s R Q HS Hn Hst Hfuel HQ; [lia|].
  pose proof HS as [HS0 Hbk]. pose proof (st_laid _ _ _ _ _ _ _ _ _ HS0) as HL. pose proof Hend as Hend'.
  rewrite higher_half in Hend'. cbn [unmap_range_loop]. wp_step.
  eapply (wp_vm_search _ _ _ _ b k); [exact HL|lia|by rewrite page_of_aligned|rewrite size_to_pages_mul; lia|done|lia| |].
  { intros Hno. wp_step. eapply (HQ s R n); [lia|done|done|]. intros x p. split; [|tauto].
    intros (a & r & Hr & Hx & Hp). split; [by exists a, r|]. intros Hin. apply (Hno _ _ Hr). unfold touches. lia. }
  intros a r Hr Ht. wp_step. eapply (stage_get _ HS0); [exact Hr|].
  assert (fits r) as Hf by exact (lay_fits _ _ _ _ HL _ _ Hr).
  destruct (loop_part r Hf Ht) as (addr & k' & Hk' & Hal' & H1 & H2 & Hx & -> & -> & Hhole).
  { intros Hlt. eapply Hst; [done|done|apply Ht]. }
  rewrite (proj2 (Z.eqb_neq _ _)) by lia. pose proof Hr as (R1 & R2 & ->)%list_elem_of_split.
  wp_step. eapply wp___vm_munmap; [exact HS|done|done|done|done|done|].
  intros s1 P R' m HR Hcut Hm HS1 Hset1. wp_step. wp_step; [done|].
  pose proof HS1 as [HS1' _]. pose proof (st_laid _ _ _ _ _ _ _ _ _ HS1') as HL1.
  assert (∀ x q, (x, q) ∈ P → ¬ touches b e q) as HP.
  { intros x q Hq. eapply pieces_apart; [exact Hcut|done| |exact Hq|exact Hx|lia|done|done|done].
    eapply (lay_fits _ _ _ _ HL1 x). rewrite HR, list.elem_of_app. by left. }
  assert (∀ x p, mapped R' x p ↔ (base r <= x < rend r ∧ rwx r = p ∧ ¬ (b <= x < e)) ∨ mapped (R1 ++ R2) x p) as Hmap.
  { intros x p. rewrite (mapped_perm _ _ _ _ HR), mapped_app, (cut_mapped _ _ _ _ Hcut).
    split; (intros [(Hin & Hp & Hno)|Hin]; [left|by right]); (split; [exact Hin|split; [exact Hp|]]); intros Hc; apply Hno; by apply Hx. }
  assert (touching R' = touching (R1 ++ R2) ∧ touching (R1 ++ (a, r) :: R2) = Datatypes.S (touching (R1 ++ R2))) as [Ht1 Ht2].
  { split.
    - rewrite (touching_perm _ _ HR). unfold touching at 1. rewrite list.filter_app, length_app.
      change (length (filter _ P)) with (touching P). by rewrite (touching_none P HP).
    - rewrite <- (touching_perm ((a, r) :: R1 ++ R2)) by apply Permutation_middle.
      unfold touching at 1. by rewrite filter_cons, decide_True. }
  assert (∀ s' R'', (∀ x p, mapped R'' x p ↔ mapped R' x p ∧ ¬ (b <= x < e)) →
    ∀ x p, mapped R'' x p ↔ mapped (R1 ++ (a, r) :: R2) x p ∧ ¬ (b <= x < e)) as Hcomp.
  { intros s' R'' HR'' x p. rewrite HR'', Hmap, mapped_mid. tauto. }
  destruct Hm as [->|(-> & Hlo & Hhi)].
  - eapply (IH n s1 R'); [exact HS1|done| |lia|].
    + intros x q. rewrite HR, list.elem_of_app. intros [Hq|Hq] Hlt Hgt.
      * destruct (HP _ _ Hq). unfold touches in *. lia.
      * eapply (Hst x q); [|done|done]. rewrite list.elem_of_app, list.elem_of_cons in *. tauto.
    + intros s' R'' m Hm HS' Hset' Hmap'. eapply (HQ s' R'' m); [done|done|congruence|]. by eapply Hcomp.
  - destruct (Hhole (conj Hlo Hhi)) as [Hlo' Hhi'].
    assert (∀ x q, (x, q) ∈ R' → ¬ touches b e q) as Hno.
    { intros x q. rewrite HR, list.elem_of_app. intros [Hq|Hq]; [by eapply HP|]. intros Htq.
      apply (ordered_apart _ _ _ _ _ _ (layout_ordered HL) Hq). unfold touches in *. lia. }
    destruct fuel as [|fuel]; [lia|]. eapply loop_stop; [exact HS1|exact Hno|done|].
    eapply (HQ s1 R' (n - 1)); [lia|done|done|]. apply (Hcomp s1). intros x p. split; [|tauto].
    intros (y & q & Hq & Hxq & Hpq). split; [by exists y, q|]. intros Hin. apply (Hno _ _ Hq). unfold touches. lia.
Qed.

Lemma touching_length R : (touching R <= length R)%nat.
Proof. apply length_filter. Qed.

Lemma wp_vm_unmap_every n s R (Q : unit → mm FS → Prop) :
  space ext fx n s R → 2 <= n < 2 ^ 64 → no_straddle R →
  (∀ s' R' m, n - 1 <= m <= n → space ext fx m s' R' → settings s' = settings s →
    (∀ x p, mapped R' x p ↔ mapped R x p ∧ ¬ (b <= x < e)) → Q tt s') →
  wp (vm_unmap_every_region_in_range free_other b (4096 * k)) Q s.
Proof.
  intros HS Hn Hst HQ. pose proof Hend as Hend'. rewrite higher_half in Hend'.
  unfold vm_unmap_every_region_in_range. rewrite u64_small by lia. wp_step. wp_step.
  eapply wp_unmap_range_loop; [exact HS|done|done| |done].
  destruct HS as [HS _]. pose proof (laid_size _ _ (st_laid _ _ _ _ _ _ _ _ _ HS)). pose proof (touching_length R).
  unfold walk_bound. lia.
Qed.
End range.
End unmap.
