(* ===== verification/VmProtect.v ===== *)
(** * VmProtect: splitting regions and changing their protection. *)

From stdpp Require Import sorting.
From S2P Require Import Prelude Bits Abi PageAlloc Frames VmObject VmObjectFacts VmObjectLife.
From S2P Require Import VmObjectPurge VmBacking Wavl WavlProps Vm VmLayout VmPrivate.
From S2P Require Import VmSpace VmUnmap.

(** ** Computations that leave the tree and a region alone *)

Section keeps.
Context {FS : Type} `{Frames FS}.
Implicit Types (s : mm FS).

Definition keeps {A} (a : Z) (m : M (mm FS) A) : Prop := ∀ s x s', m s = Done (x, s') →
  regions s' !! a = regions s !! a ∧ region_tree s' = region_tree s ∧ next_region s' = next_region s.

Lemma keeps_ret {A} a (x : A) : keeps a (mret x).
Proof. by intros s y s' [= <- <-]. Qed.
Lemma keeps_bind {A B} a (m : M (mm FS) A) (k : A → M (mm FS) B) :
  keeps a m → (∀ x, keeps a (k x)) → keeps a (m ≫= k).
Proof.
  intros Hm Hk s y s' Hrun. unfold mbind, M_bind in Hrun. destruct (m s) as [[x s1]|] eqn:E; [|done].
  destruct (Hm _ _ _ E) as (E1 & E2 & E3). destruct (Hk _ _ _ _ Hrun) as (F1 & F2 & F3). by rewrite F1, F2, F3.
Qed.
Lemma keeps_in_objects {A} a (m : M (world FS) A) : keeps a (in_objects m).
Proof. intros s y s'. unfold in_objects. destruct (m (objects s)) as [[x w]|]; [|done]. by intros [= <- <-]. Qed.
Lemma keeps_from_opt {A} a (x : option A) why : keeps a (from_opt x why).
Proof. intros s y s'. unfold from_opt. destruct x; [|done]. by intros [= <- <-]. Qed.
Lemma keeps_get_region a b : keeps a (get_region (FS := FS) b).
Proof. intros s y s'. unfold get_region, mbind, M_bind, gets, from_opt. destruct (regions s !! b); [|done]. by intros [= <- <-]. Qed.
Lemma keeps_upd_region a b f : b ≠ a → keeps a (upd_region (FS := FS) b f).
Proof.
  intros Hne s y s'. unfold upd_region, get_region, mbind, M_bind, gets, from_opt, modify.
  destruct (regions s !! b); [|done]. intros [= <- <-]. simpl. by rewrite lookup_insert_ne.
Qed.
Lemma keeps_fd_get a f : keeps a (fd_get (FS := FS) f).
Proof. by intros s y s' [= <- <-]. Qed.

Lemma wp_keeps {A} a (m : M (mm FS) A) (Q : A → mm FS → Prop) s :
  keeps a m → wp m (λ x s', (∀ r, parked a r s → parked a r s') → Q x s') s → wp m Q s.
Proof.
  intros Hk Hw. unfold wp in *. destruct (m s) as [[x s']|] eqn:E; [|done]. apply Hw.
  destruct (Hk _ _ _ E) as (E1 & E2 & E3). intros r. unfold parked. by rewrite E1, E2, E3.
Qed.
End keeps.

Section protect.
Context {FS : Type} `{FramesLaws FS} (ext fx : Z → Z).
Implicit Types (s : mm FS) (R : rlist).

Lemma keeps_copy a source dest : dest ≠ a → keeps a (vm_copy_region (FS := FS) source dest).
Proof.
  intros Hne. unfold vm_copy_region.
  repeat first [ apply keeps_upd_region; done | apply keeps_get_region | apply keeps_in_objects
               | apply keeps_from_opt | apply keeps_fd_get | apply keeps_ret | apply keeps_bind; [|intros]
               | case_match ].
Qed.

(** The new region takes over everything but its range. *)
Lemma wp_vm_copy_region n R K V S F c s (HS : stage ext n R K V S F c s) L1 d q L2 a r v (Q : unit → mm FS → Prop) :
  R = L1 ++ (d, q) :: L2 → regions s !! a = Some r → vmo r = Some v → claim_of r ∈ K → 1 <= n →
  (∀ s', stage ext (n - 1) (L1 ++ (d, set_range (base q) (pages q) r) :: L2) (claim_of r :: K) V S
     (λ f, F f + file_claim f r) c s' → Q tt s') →
  wp (vm_copy_region a d) Q s.
Proof.
  intros HR Ha Hv HK Hn HQ. unfold vm_copy_region. wp_step. eapply wp_get_region; [exact Ha|]. wp_step.
  eapply (stage_set _ _ _ _ _ _ _ _ _ HS); [done..|]. intros s1 HS1. wp_step.
  assert (∀ s2, stage ext n (L1 ++ (d, set_fd (fd r) q) :: L2) K V S (λ f, F f + file_claim f r) c s2 →
    wp (upd_region d (λ d, set_vmo (vmo r) (set_offset (offset r) (set_mapping_type (mapping_type r)
          (set_rwx (rwx r) (set_rflags (rflags r) d)))));;
        v ← from_opt (vmo r) NullDeref;
        in_objects (vmo_assign_mapping v d);;
        in_objects (vmo_ref v);;
        upd_region d (set_rtype (rtype r))) Q s2) as Hrest.
  { intros s2 HS2. wp_step. eapply (stage_set _ _ _ _ _ _ _ _ _ HS2); [done..|]. intros s3 HS3.
    wp_step. eapply wp_from_opt; [exact Hv|]. unfold claim_of in HK. rewrite Hv in HK.
    wp_step. eapply bk_assign; [apply HS3|exact HK|]. intros s4 Hb4 HB4.
    pose proof (stage_behind _ HS3 _ _ _ Hb4 HB4) as HS4. wp_step. eapply bk_ref; [exact HB4|exact HK|done|].
    intros s5 Hb5 HB5. pose proof (stage_behind _ HS4 _ _ _ Hb5 HB5) as HS5.
    eapply (stage_set _ _ _ _ _ _ _ _ _ HS5); [done..|]. intros s6 HS6. apply HQ.
    unfold claim_of. rewrite Hv. rewrite Hv in HS6. unfold set_range. rewrite Hv. exact HS6. }
  destruct (fd r) as [f|] eqn:Ef.
  - eapply (stage_fd_get _ HS1). intros s2 HS2. apply Hrest. eapply stage_eq; [exact HS2|done..|].
    intros g. by rewrite file_claim_alt, Ef.
  - wp_step. apply Hrest. eapply stage_eq; [exact HS1|done..|]. intros g. rewrite file_claim_alt, Ef. lia.
Qed.

(** [q] is the region [r] up to range, offset and flags. *)
Record like (r q : vm_region) : Prop := Like {
  like_rwx : rwx q = rwx r;
  like_vmo : vmo q = vmo r;
  like_mapping : mapping_type q = mapping_type r;
  like_fd : fd q = fd r;
}.

Lemma like_claim r q : like r q → claim_of q = claim_of r.
Proof. intros [_ E1 E2 _]. unfold claim_of, is_mapping_shared. by rewrite E1, E2. Qed.
Lemma like_file r q f : like r q → file_claim f q = file_claim f r.
Proof. intros [_ _ _ E]. unfold file_claim. by rewrite E. Qed.

(** Region [a] is [r], in the tree or on its own. *)
Definition stored a r R s : Prop := (a, r) ∈ R ∨ ((a ∉ R.*1) ∧ parked a r s).

Lemma stage_stored n R K V S F c s a r : stage ext n R K V S F c s → stored a r R s → regions s !! a = Some r.
Proof. intros HS [Hr|[_ [Hr _]]]; [exact (lay_regs _ _ _ _ (st_laid _ _ _ _ _ _ _ _ _ HS) _ _ Hr)|done]. Qed.

(** A new region that takes over a part of region [a]. *)
Lemma new_part {X} n R K V S F c s (HS : stage ext n R K V S F c s) a r v start k g m0
    (m : Z → M (mm FS) X) (Q : X → mm FS → Prop) :
  stored a r R s → vmo r = Some v → claim_of r ∈ K → 1 <= n → fits (new_region start k) →
  (∀ b q, (b, q) ∈ R → ¬ touches start (start + 4096 * k) q) →
  (∀ q, base q = start → pages q = k → base (g q) = start ∧ pages (g q) = k ∧ like q (g q)) →
  (∀ d q L1 L2 s', R = L1 ++ L2 → like r q → base q = start → pages q = k → d ≠ a →
    stored a r (L1 ++ (d, q) :: L2) s' → (∀ x, (d, x) ∉ R) →
    stage ext (n - 1) (L1 ++ (d, q) :: L2) (claim_of r :: K) V S (λ f, F f + file_claim f r) c s' →
    wp (m d) Q s') →
  wp (t ← vm_reserve_region start (4096 * k);
      match t with None => m0 | Some d => vm_copy_region a d;; upd_region d g;; m d end) Q s.
Proof.
  intros Hst Hv HK Hn Hf Hno Hg HQ. wp_step. eapply (stage_reserve _ HS); [done|exact Hno|].
  intros d L1 L2 s1 HR Hnew Hpark HS1. cbn iota.
  assert (d ≠ a ∧ ∀ q, stored a r (L1 ++ (d, q) :: L2) s1) as [Hne Hst1].
  { destruct Hst as [Hin|[Hni Hp]].
    - split; [intros ->; by destruct (Hnew r)|]. intros q. left. rewrite HR in Hin.
      rewrite list.elem_of_app, list.elem_of_cons in *. tauto.
    - destruct (Hpark _ _ Hni Hp) as [Hp1 Hne]. split; [done|]. intros q. right. split; [|done].
      rewrite HR in Hni. rewrite fmap_app in *. rewrite list.elem_of_app in *. simpl. rewrite list.elem_of_cons. tauto. }
  assert (∀ s2 q q', stored a r (L1 ++ (d, q) :: L2) s1 → (parked a r s1 → parked a r s2) →
    stored a r (L1 ++ (d, q') :: L2) s2) as Hkeep.
  { intros s2 q q' [Hin|[Hni Hp]] Hpp; [left|right; split; [by rewrite fmap_app in *|by apply Hpp]].
    apply elem_mid_inv in Hin as [[= ? ?]|Hin]; [done|]. rewrite list.elem_of_app, list.elem_of_cons in *. tauto. }
  wp_step. eapply (wp_keeps a); [by apply keeps_copy|].
  eapply (wp_vm_copy_region _ _ _ _ _ _ _ _ HS1 L1 d _ L2 a r v);
    [done|exact (stage_stored _ _ _ _ _ _ _ _ _ _ HS1 (Hst1 _))|done|done|done|].
  intros s2 HS2 Hp2. wp_step. cbn [base pages new_region set_range] in HS2.
  set (q2 := set_range start k r) in *. destruct (Hg q2 eq_refl eq_refl) as (Eb & Ep & Hl).
  eapply (wp_keeps a); [by apply keeps_upd_region|].
  eapply (stage_set _ _ _ _ _ _ _ _ _ HS2); [done|by rewrite Eb|by rewrite Ep|]. intros s3 HS3 Hp3.
  eapply HQ; [exact HR| |exact Eb|exact Ep|exact Hne| |exact Hnew|exact HS3].
  - destruct Hl as [? ? ? ?]. by split.
  - eapply Hkeep; [exact (Hst1 _)|]. intros Hp. by apply Hp3, Hp2.
Unshelve. exact r.
Qed.

(** A region that is not in the tree changes, and returns to it. *)
Lemma parked_upd n R K V S F c s (HS : stage ext n R K V S F c s) a r f (Q : unit → mm FS → Prop) :
  a ∉ R.*1 → parked a r s →
  (∀ s', stage ext n R K V S F c s' → parked a (f r) s' → Q tt s') → wp (upd_region a f) Q s.
Proof.
  intros Hni (Hr & Hlt & nd & Hnd & Hrk) HQ. eapply wp_upd_region; [done|]. apply HQ.
  - apply (stage_regions _ HS). apply layout_update_other; [apply HS|done|done].
  - split_and!; simpl; [apply lookup_insert_eq|done|by exists nd].
Qed.

Lemma parked_add n R K V S F c s (HS : stage ext n R K V S F c s) a r (Q : bool → mm FS → Prop) :
  a ∉ R.*1 → parked a r s → fits r → (∀ b q, (b, q) ∈ R → ¬ touches (base r) (rend r) q) →
  (∀ s' L1 L2, R = L1 ++ L2 → stage ext n (L1 ++ (a, r) :: L2) K V S F c s' → Q true s') →
  wp (vm_add_region a) Q s.
Proof.
  intros Hni (Hr & Hlt & nd & Hnd & Hrk) Hf Hno HQ. unfold vm_add_region.
  eapply wp_vm_insert_region; [apply HS|done|exact Hr|done|exact Hnd|done|exact Hno|].
  intros t L1 L2 HR HL _. eapply HQ; [done|]. exact (stage_regions _ HS _ _ _ _ HL).
Qed.

Section split.
Context (n : Z) (s : mm FS) (R1 : rlist) (a : Z) (r : vm_region) (R2 : rlist) (j k l : Z).
Abbreviation R := (R1 ++ (a, r) :: R2).
Context (HS : space ext fx n s R) (Hn : 2 <= n < 2 ^ 64) (Hj : 0 <= j) (Hk : 1 <= k) (Hl : 0 <= l)
        (Hp : pages r = j + k + l).
Abbreviation addr := (base r + 4096 * j).
Abbreviation e := (base r + 4096 * j + 4096 * k).
Abbreviation files R := (λ f, fx f + over (file_claim f) R).
Abbreviation facts := (reg_facts ext fx n s R1 a r R2 j k l HS Hp).

(** Region [d] is the part from [addr] to [e], and [P] is the rest. *)
Definition split_post (Q : option Z * Z → mm FS → Prop) : Prop := ∀ s' P d q R',
  R' ≡ₚ (d, q) :: P ++ R1 ++ R2 → cut addr e r P → like r q → base q = addr → pages q = k →
  stage ext (n - 2) R' (claims_of R') (over rsize R) (over shared_size R) (files R') (settings s) s' →
  Q (Some d, 4096 * k) s'.

Lemma part_fits i m : 0 <= i → 1 <= m → i + m <= j + k + l → fits (new_region (base r + 4096 * i) m).
Proof.
  intros ? ? ?. destruct facts as (Hf & Hal & Ho & Hb & He & Hh & Hv & Hsz).
  eapply fits_mono; [exact Hf| |simpl; lia|done|unfold rend in *; simpl; rewrite page_size in *; lia].
  simpl. rewrite Z.mul_comm, Z.mod_add; lia.
Qed.

Lemma part_apart i m b q : 0 <= i → i + m <= j + k + l → (b, q) ∈ R1 ++ R2 →
  ¬ touches (base r + 4096 * i) (base r + 4096 * i + 4096 * m) q.
Proof.
  intros ? ? Hq Ht. destruct facts as (Hf & Hal & Ho & Hb & He & Hh & Hv & Hsz).
  apply (ordered_apart _ _ _ _ _ _ Ho Hq). unfold touches in *. lia.
Qed.

Lemma not_self : a ∉ (R1 ++ R2).*1.
Proof.
  assert (NoDup R.*1) as HN by (eapply layout_nodup, HS). rewrite fmap_app in *. simpl in HN.
  apply list.NoDup_app in HN as (_ & H1 & [H2 _]%list.NoDup_cons).
  intros [Hx|Hx]%list.elem_of_app; [destruct (H1 a Hx); by left|done].
Qed.

(** The counters after the parts have taken the place of the region. *)
Lemma parts_stage m P d q R' s' K F : n - 2 <= m → R' ≡ₚ (d, q) :: P ++ R1 ++ R2 →
  K ≡ₚ claims_of ((d, q) :: P ++ R1 ++ R2) →
  (∀ f, F f = fx f + over (file_claim f) ((d, q) :: P ++ R1 ++ R2)) →
  stage ext m R' K (over rsize R) (over shared_size R) F (settings s) s' →
  stage ext (n - 2) R' (claims_of R') (over rsize R) (over shared_size R) (files R') (settings s) s'.
Proof.
  intros Hm HR HK HF [T1 T2 T3 T4 T5 T6]. split; try done.
  - eapply backed_mono; [exact Hm|]. eapply backed_perm; [|exact T2]. by rewrite HK, (claims_perm _ _ HR).
  - intros f. by rewrite T5, HF, (over_perm _ _ _ HR).
Qed.

Lemma split_none Q : j = 0 → l = 0 → split_post Q → wp (vm_split_region a addr (4096 * k)) Q s.
Proof.
  intros Ej El HQ. destruct facts as (Hf & Hal & Ho & Hb & He & Hh & [v Hv] & Hsz). pose proof HS as [HS0 Hbk].
  unfold vm_split_region. wp_step. eapply (stage_get _ HS0); [apply elem_mid|]. rewrite Hsz.
  rewrite (proj2 (Z.eqb_eq _ _)) by lia. rewrite (proj2 (Z.ltb_ge _ _)) by lia. rewrite Z.eqb_refl. cbn [negb].
  wp_step. replace (4096 * (j + k + l)) with (4096 * k) by lia.
  assert (R ≡ₚ (a, r) :: [] ++ R1 ++ R2) as HR by (by rewrite <- Permutation_middle).
  eapply (HQ s [] a r R); [done| |done|lia|lia|].
  - split; try (by intros * ?%not_elem_of_nil).
    + intros x p. rewrite mapped_nil. lia.
    + unfold over, rsize. simpl. lia.
    + unfold over, shared_size, rsize. simpl. destruct (is_mapping_shared r); lia.
  - eapply (parts_stage n [] a r); [lia|done|by apply claims_perm| |exact HS0]. intros f. cbn beta. by rewrite (over_perm _ _ _ HR).
Qed.

(** The region has kept one part, [q1], and [d] has the other. *)
Lemma with_piece Q q1 d q R' s' : split_post Q → like r q1 →
  (base q1 = base r ∧ rend q1 = addr ∧ l = 0 ∧ 0 < j) ∨ (base q1 = e ∧ rend q1 = rend r ∧ j = 0 ∧ 0 < l) →
  like q1 q → base q = addr → pages q = k → R' ≡ₚ (d, q) :: [(a, q1)] ++ R1 ++ R2 →
  stage ext (n - 1) R' (claim_of q1 :: claims_of R) (over rsize R) (over shared_size R)
    (λ f, files R f + file_claim f q1) (settings s) s' →
  Q (Some d, 4096 * k) s'.
Proof.
  intros HQ Hl1 Hq1 Hlq Eb Ep HR HS4. pose proof Hl1 as [? ? ? ?].
  eapply (HQ s' [(a, q1)] d q); [exact HR| |destruct Hlq as [? ? ? ?]; split; congruence|done|done|].
  - by eapply (one_piece ext fx n s R1 a r R2 j k l HS).
  - eapply (parts_stage (n - 1) [(a, q1)] d q); [lia|exact HR| | |exact HS4].
    + simpl. by rewrite (like_claim _ _ Hlq), (like_claim _ _ Hl1), claims_mid.
    + intros f. cbn beta. rewrite over_mid. unfold over. simpl.
      rewrite (like_file _ _ f Hlq), (like_file _ _ f Hl1). lia.
Qed.

(** The part at the front becomes a region of its own. *)
Lemma split_front Q : j = 0 → 1 <= l → split_post Q → wp (vm_split_region a addr (4096 * k)) Q s.
Proof.
  intros Ej El HQ. destruct facts as (Hf & Hal & Ho & Hb & He & Hh & [v Hv] & Hsz). pose proof HS as [HS0 Hbk].
  pose proof Hh as Hh'. rewrite higher_half in Hh'.
  set (q1 := set_offset (i64 (offset r + 4096 * k)) (set_range (base r + 4096 * k) l r)).
  assert (set_offset (i64 (offset r + 4096 * k)) (set_range (u64 (base r + 4096 * k)) (u64 (pages r - k)) r) = q1) as Eq
    by (rewrite !u64_small by lia; unfold q1; do 2 f_equal; lia).
  assert (rend q1 = rend r) as Er by (unfold rend in *; simpl; rewrite page_size in *; lia).
  assert (fits q1) as Hf1.
  { pose proof (part_fits k l ltac:(lia) El ltac:(lia)) as [? ? ? ?]. by split. }
  unfold vm_split_region. wp_step. eapply (stage_get _ HS0); [apply elem_mid|]. rewrite Hsz.
  rewrite (proj2 (Z.eqb_eq _ _)) by lia. rewrite (proj2 (Z.ltb_lt _ _)) by lia.
  rewrite (proj2 (Z.eqb_neq (4096 * k) _)) by lia. cbn [negb]. rewrite !shiftr_page.
  wp_step. eapply (stage_remove HS0); [done|]. intros s1 HS1 Hp1.
  wp_step. eapply (parked_upd _ _ _ _ _ _ _ _ HS1); [exact not_self|exact Hp1|]. rewrite Eq. intros s2 HS2 Hp2.
  wp_step. eapply (parked_add _ _ _ _ _ _ _ _ HS2); [exact not_self|exact Hp2|done| |].
  { intros b x Hx. rewrite Er. simpl. replace (rend r) with (base r + 4096 * k + 4096 * l) by lia.
    apply (part_apart k l _ _ ltac:(lia) ltac:(lia) Hx). }
  intros s3 L1 L2 EL HS3.
  assert (claim_of q1 = claim_of r) as Ec by done.
  eapply (new_part _ _ _ _ _ _ _ _ HS3 a q1 v _ k); [left; apply elem_mid|done|rewrite Ec; apply claims_in|lia|apply part_fits; lia| | |].
  - intros b x Hx Ht. apply elem_mid_inv in Hx as [[= -> ->]|Hx]; [unfold touches in Ht; simpl in Ht; lia|].
    rewrite <- EL in Hx. exact (part_apart j k _ _ ltac:(lia) ltac:(lia) Hx Ht).
  - intros q Eb Ep. simpl. by split_and!.
  - intros d q M1 M2 s4 EM Hlq Eb Ep Hne _ _ HS4. wp_step.
    eapply (with_piece _ q1 d q); [exact HQ|by split|right; simpl; lia|exact Hlq|done|done| |exact HS4].
    rewrite <- Permutation_middle, <- EM, <- Permutation_middle, <- EL. done.
Qed.

(** The part at the end becomes a region of its own. *)
Lemma split_end Q : 1 <= j → l = 0 → split_post Q → wp (vm_split_region a addr (4096 * k)) Q s.
Proof.
  intros Ej El HQ. destruct facts as (Hf & Hal & Ho & Hb & He & Hh & [v Hv] & Hsz). pose proof HS as [HS0 Hbk].
  pose proof Hh as Hh'. rewrite higher_half in Hh'. set (q1 := set_range (base r) j r).
  assert (set_range (base r) (u64 (pages r - k)) r = q1) as Eq by (rewrite u64_small by lia; unfold q1; f_equal; lia).
  assert (rend q1 = addr) as Er by (unfold rend; simpl; rewrite page_size in *; lia).
  unfold vm_split_region. wp_step. eapply (stage_get _ HS0); [apply elem_mid|]. rewrite Hsz.
  rewrite (proj2 (Z.eqb_neq _ _)) by lia. rewrite (proj2 (Z.ltb_lt (base r) _)) by lia.
  rewrite (u64_small (addr - base r)), (u64_small (_ - _)) by lia. rewrite (proj2 (Z.ltb_ge _ _)) by lia.
  rewrite Z.eqb_refl. cbn [negb].
  replace (4096 * (j + k + l) - (addr - base r)) with (4096 * k) by lia. rewrite shiftr_page.
  wp_step. eapply (stage_upd _ HS0 R1 a r R2); [done| |]; rewrite Eq.
  { eapply ordered_shrink; [exact Ho| |simpl; lia|lia].
    eapply fits_mono; [exact Hf|done|simpl; lia|simpl; lia|lia]. }
  intros s1 HS1. assert (claim_of q1 = claim_of r) as Ec by done.
  eapply (new_part _ _ _ _ _ _ _ _ HS1 a q1 v _ k); [left; apply elem_mid|done|rewrite Ec; apply claims_in|lia|apply part_fits; lia| | |].
  - intros b x Hx Ht. apply elem_mid_inv in Hx as [[= -> ->]|Hx]; [unfold touches in Ht; simpl in Ht; lia|].
    exact (part_apart j k _ _ ltac:(lia) ltac:(lia) Hx Ht).
  - intros q Eb Ep. simpl. by split_and!.
  - intros d q M1 M2 s4 EM Hlq Eb Ep Hne _ _ HS4. wp_step.
    eapply (with_piece _ q1 d q); [exact HQ|by split|left; simpl; lia|exact Hlq|done|done| |exact HS4].
    rewrite <- Permutation_middle, <- EM, <- Permutation_middle. done.
Qed.

(** The parts in the middle and at the end become regions of their own. *)
Lemma split_middle Q : 1 <= j → 1 <= l → split_post Q → wp (vm_split_region a addr (4096 * k)) Q s.
Proof.
  intros Ej El HQ. destruct facts as (Hf & Hal & Ho & Hb & He & Hh & [v Hv] & Hsz). pose proof HS as [HS0 Hbk].
  pose proof Hh as Hh'. rewrite higher_half in Hh'. set (q1 := set_range (base r) j r).
  assert (rend q1 = addr) as Er by (unfold rend; simpl; rewrite page_size in *; lia).
  unfold vm_split_region. wp_step. eapply (stage_get _ HS0); [apply elem_mid|]. rewrite Hsz.
  rewrite (proj2 (Z.eqb_neq _ _)) by lia. rewrite (proj2 (Z.ltb_lt (base r) _)) by lia.
  rewrite (u64_small (addr - base r)), (u64_small (_ - _)) by lia.
  replace (addr - base r) with (4096 * j) by lia. rewrite (proj2 (Z.ltb_lt (4096 * k) _)) by lia.
  rewrite (proj2 (Z.eqb_neq _ _)) by lia. cbn [negb]. rewrite shiftr_page.
  rewrite (u64_small (addr + _)), (u64_small (_ - _)) by lia.
  replace (4096 * (j + k + l) - 4096 * j - 4096 * k) with (4096 * l) by lia.
  replace (addr + 4096 * k) with (base r + 4096 * (j + k)) by lia.
  wp_step. eapply (stage_remove HS0); [done|]. intros s1 HS1 Hp1.
  eapply (new_part _ _ _ _ _ _ _ _ HS1 a r v _ l);
    [right; split; [exact not_self|done]|done|apply claims_in|lia|apply part_fits; lia| |by intros q <- <-|].
  { intros b x Hx. exact (part_apart (j + k) l _ _ ltac:(lia) ltac:(lia) Hx). }
  intros d1 x1 L1 L2 s2 EL Hl1 Eb1 Ep1 Hne1 Hst2 Hnew1 HS2.
  eapply (new_part _ _ _ _ _ _ _ _ HS2 a r v _ k); [exact Hst2|done|left|lia|apply part_fits; lia| |by intros q <- <-|].
  { intros b x Hx Ht. apply elem_mid_inv in Hx as [[= -> ->]|Hx]; [unfold touches in Ht; lia|].
    rewrite <- EL in Hx. exact (part_apart j k _ _ ltac:(lia) ltac:(lia) Hx Ht). }
  intros d2 x2 M1 M2 s3 EM Hl2 Eb2 Ep2 Hne2 Hst3 Hnew2 HS3.
  assert (M1 ++ (d2, x2) :: M2 ≡ₚ (d2, x2) :: (d1, x1) :: R1 ++ R2) as HP3
    by (rewrite <- Permutation_middle, <- EM, <- Permutation_middle, <- EL; done).
  assert (a ∉ (M1 ++ (d2, x2) :: M2).*1) as Hni.
  { rewrite HP3. simpl. rewrite !list.elem_of_cons. pose proof not_self. naive_solver. }
  destruct Hst3 as [Hin|[_ Hp3]]; [destruct Hni; apply list_elem_of_fmap; by exists (a, r)|].
  wp_step. eapply (parked_upd _ _ _ _ _ _ _ _ HS3); [done|exact Hp3|]. fold q1. intros s4 HS4 Hp4.
  wp_step. eapply (parked_add _ _ _ _ _ _ _ _ HS4); [done|exact Hp4| | |].
  { pose proof (part_fits 0 j ltac:(lia) Ej ltac:(lia)) as [? ? ? ?]. split; simpl in *; rewrite ?Z.add_0_r in *; done. }
  { intros b x. rewrite HP3, !list.elem_of_cons, Er. intros [[= -> ->]|[[= -> ->]|Hx]]; [unfold touches; simpl; lia..|].
    pose proof (part_apart 0 j _ _ ltac:(lia) ltac:(lia) Hx). simpl. by replace (base r + 4096 * 0) with (base r) in * by lia. }
  intros s5 N1 N2 EN HS5. wp_step.
  assert (N1 ++ (a, q1) :: N2 ≡ₚ (d2, x2) :: [(a, q1); (d1, x1)] ++ R1 ++ R2) as HR.
  { rewrite <- Permutation_middle, <- EN, HP3. simpl. apply perm_swap. }
  eapply (HQ s5 [(a, q1); (d1, x1)] d2 x2); [exact HR| |done|done|done|].
  - pose proof Hl1 as [? Ev1 ? ?]. eapply (two_pieces ext fx n s R1 a r R2 j k l HS); try done; try lia.
    + by rewrite Ev1, Hv.
    + unfold rend. rewrite Eb1, Ep1. rewrite page_size. lia.
  - eapply (parts_stage (n - 1 - 1) [(a, q1); (d1, x1)] d2 x2); [lia|exact HR| | |exact HS5].
    + simpl. rewrite (like_claim _ _ Hl2), (like_claim _ _ Hl1), claims_mid. done.
    + intros f. cbn beta. rewrite over_mid. unfold over. simpl. rewrite (like_file _ _ f Hl2), (like_file _ _ f Hl1).
      change (file_claim f q1) with (file_claim f r). lia.
Qed.
End split.

(** ** Changing the protection of pages of one region *)

(** The caller may not give this protection to the region. *)
Definition denied (fd_may_write : Z → bool) (prot : Z) (r : vm_region) : bool :=
  is_mapping_shared r &&
  match fd r with Some f => has prot PROT_WRITE && negb (fd_may_write f) | None => false end.

Lemma wp_vm_split_region n s R1 a r R2 addr k (Q : option Z * Z → mm FS → Prop) :
  space ext fx n s (R1 ++ (a, r) :: R2) → 2 <= n < 2 ^ 64 → addr mod 4096 = 0 → 1 <= k →
  base r <= addr → addr + 4096 * k <= rend r →
  (∀ s' P d q R', R' ≡ₚ (d, q) :: P ++ R1 ++ R2 → cut addr (addr + 4096 * k) r P → like r q →
    base q = addr → pages q = k →
    stage ext (n - 2) R' (claims_of R') (over rsize (R1 ++ (a, r) :: R2)) (over shared_size (R1 ++ (a, r) :: R2))
      (λ f, fx f + over (file_claim f) R') (settings s) s' → Q (Some d, 4096 * k) s') →
  wp (vm_split_region a addr (4096 * k)) Q s.
Proof.
  intros HS Hn Hal Hk Hb He HQ. pose proof HS as [HS0 _].
  assert (fits r) as Hf by exact (lay_fits _ _ _ _ (st_laid _ _ _ _ _ _ _ _ _ HS0) _ _ (elem_mid _ _ _)).
  pose proof (fits_aligned _ Hf) as Hal'. rewrite page_size in Hal'.
  assert (∃ j, addr = base r + 4096 * j) as [j ->].
  { exists (addr / 4096 - base r / 4096). pose proof (Z.div_mod addr 4096). pose proof (Z.div_mod (base r) 4096). lia. }
  set (l := pages r - j - k). unfold rend in He. rewrite page_size in He.
  assert (0 <= l) by lia. assert (pages r = j + k + l) by lia.
  destruct (decide (j = 0)), (decide (l = 0)).
  - eapply (split_none n s R1 a r R2 j k l); try done; lia.
  - eapply (split_front n s R1 a r R2 j k l); try done; lia.
  - eapply (split_end n s R1 a r R2 j k l); try done; lia.
  - eapply (split_middle n s R1 a r R2 j k l); try done; lia.
Qed.

Lemma wp_vm_mprotect fd_may_write fuel n s R1 a r R2 addr k prot (Q : Z → mm FS → Prop) :
  space ext fx n s (R1 ++ (a, r) :: R2) → 2 <= n < 2 ^ 64 → addr mod 4096 = 0 → 1 <= k →
  base r <= addr → addr + 4096 * k <= rend r → (2 <= fuel)%nat →
  (denied fd_may_write prot r = true → Q (- EACCES) s) →
  (∀ s' R', denied fd_may_write prot r = false → space ext fx (n - 2) s' R' → settings s' = settings s →
    (∀ x p, mapped R' x p ↔ if decide (addr <= x < addr + 4096 * k) then p = prot
                            else mapped (R1 ++ (a, r) :: R2) x p) → Q 0 s') →
  wp (vm_mprotect fd_may_write fuel addr (4096 * k) prot) Q s.
Proof.
  intros HS Hn Hal Hk Hb He Hfuel Qd Q0. pose proof HS as [HS0 Hbk].
  pose proof (layout_ordered (st_laid _ _ _ _ _ _ _ _ _ HS0)) as Ho.
  assert (fits r) as Hf by exact (lay_fits _ _ _ _ (st_laid _ _ _ _ _ _ _ _ _ HS0) _ _ (elem_mid _ _ _)).
  pose proof (fits_bounds _ Hf). unfold vm_mprotect. rewrite (u64_small (addr + _)) by lia.
  destruct fuel as [|[|fuel]]; [lia..|]. set (fuel' := Datatypes.S fuel). cbn [mprotect_loop].
  rewrite (proj2 (Z.ltb_lt _ _)) by lia. cbn [negb]. wp_step.
  eapply search_only; [exact HS|done|exact Hk|apply size_to_pages_mul; lia|done|done|].
  wp_step. eapply (stage_get _ HS0); [apply elem_mid|]. fold (denied fd_may_write prot r).
  destruct (denied fd_may_write prot r) eqn:Hd; [wp_step; by apply Qd|].
  unfold vm_mprotect_in_region. do 2 wp_step. eapply wp_vm_split_region; [exact HS|done..|].
  intros s1 P d q R' HR Hcut Hlq Eb Ep HS1. cbn beta iota.
  assert ((d, q) ∈ R') as Hin by (rewrite HR; by left).
  pose proof Hin as (M1 & M2 & EM)%list_elem_of_split.
  wp_step. eapply (stage_set _ _ _ _ _ _ _ _ _ HS1); [exact EM|done|done|]. intros s2 HS2. wp_step.
  change (0 <? 0) with false. cbn iota. unfold fuel'. cbn [mprotect_loop].
  rewrite (u64_small (addr + _)), (proj2 (Z.ltb_ge _ _)) by lia. cbn [negb]. wp_step.
  assert (M1 ++ M2 ≡ₚ P ++ R1 ++ R2) as HM.
  { apply (Permutation_cons_inv (a := (d, q))). by rewrite <- HR, EM, <- Permutation_middle. }
  pose proof Hcut as [C1 C2 C3 C4 C5 C6]. pose proof Hlq as [Lw Lv Lm Lf].
  assert (rend q = addr + 4096 * k) as Eq by (unfold rend; rewrite Eb, Ep, page_size; lia).
  assert (is_mapping_shared q = is_mapping_shared r) as Es by (unfold is_mapping_shared; by rewrite Lm).
  assert (∀ g, (∀ x, g (set_rwx prot x) = g x) → over g (M1 ++ (d, set_rwx prot q) :: M2) = over g R') as Hov.
  { intros g Hg. by rewrite EM, !over_mid, Hg. }
  eapply (Q0 s2 (M1 ++ (d, set_rwx prot q) :: M2)); [done| |exact (st_settings _ _ _ _ _ _ _ _ _ HS2)|].
  - split.
    + rewrite (st_settings _ _ _ _ _ _ _ _ _ HS2). eapply stage_eq; [exact HS2|by rewrite EM, !claims_mid| | |].
      * rewrite !over_mid, (over_perm _ _ _ HM), (over_app _ P), C5. unfold rsize, rend in *. simpl. lia.
      * rewrite !over_mid, (over_perm _ _ _ HM), (over_app _ P), C6. unfold shared_size, rsize, rend, is_mapping_shared in *. simpl.
        rewrite Lm. destruct (mapping_type r =? MAP_SHARED); lia.
      * intros f. by rewrite Hov.
    + intros b x [[= -> ->]|Hx]%elem_mid_inv; [simpl; rewrite Lv; eapply (Hbk a), elem_mid|].
      rewrite HM, list.elem_of_app in Hx. destruct Hx as [Hx|Hx]; [by eapply C4|]. eapply (Hbk b).
      rewrite list.elem_of_app, list.elem_of_cons in *. tauto.
  - intros x p. rewrite !mapped_mid, (mapped_perm _ _ _ _ HM), mapped_app, C1.
    change (base (set_rwx prot q)) with (base q). change (rend (set_rwx prot q)) with (rend q).
    change (rwx (set_rwx prot q)) with prot. rewrite Eb, Eq.
    assert (mapped (R1 ++ R2) x p → ¬ (base r <= x < rend r)) as Hap.
    { intros (b & y & Hy & Hxy & _) Hxr. apply (ordered_apart _ _ _ _ _ _ Ho Hy). unfold touches. lia. }
    case_decide as Hx.
    + split; [|intros ->; by left; split].
      intros [[_ Hpp]|[(_ & _ & Hno)|Hm]]; [done|by destruct Hno|]. destruct (Hap Hm). lia.
    + rewrite mapped_mid. split; [intros [[? _]|[(? & ? & _)|Hm]]; [done|by left|by right]|].
      intros [[? ?]|Hm]; [right; left; (split; [done|]); by split|by right; right].
Qed.
End protect.
