(* ===== verification/VmMap.v ===== *)
(** * VmMap: adding memory to an address space.

    Where [vm_allocate_base] finds room and that the room is free, new regions with their
    objects, and the program break. *)

From stdpp Require Import sorting.
From S2P Require Import Prelude Bits Abi PageAlloc Frames VmObject VmObjectFacts VmObjectLife.
From S2P Require Import VmObjectPurge VmBacking Wavl WavlCalls WavlProps Vm VmLayout.
From S2P Require Import VmPrivate VmSpace VmUnmap.

Section map.
Context {FS : Type} `{FramesLaws FS}.
Implicit Types (s : mm FS) (R : rlist).

(** The range of [k] pages from [b] on is free and belongs to the process. *)
Record free_range (b k : Z) R : Prop := FreeRange {
  free_fits : fits (new_region b k);
  free_apart : ∀ a r, (a, r) ∈ R → ¬ touches b (b + 4096 * k) r;
}.

(** There are [k] pages left behind every region. *)
Definition headroom (k : Z) R : Prop := ∀ a r, (a, r) ∈ R → rend r + 4096 * k <= VM_HIGHER_HALF.

Lemma new_fits b k : 0 <= b → b mod 4096 = 0 → 1 <= k → b + 4096 * k <= VM_HIGHER_HALF → fits (new_region b k).
Proof. intros. by split. Qed.

Lemma rend_aligned r : fits r → rend r mod 4096 = 0.
Proof.
  intros Hf. pose proof (fits_aligned _ Hf) as Ha. rewrite page_size in Ha. unfold rend. rewrite page_size.
  rewrite (Z.mul_comm 4096), Z.mod_add; lia.
Qed.

(** Behind the regions up to [r], before those of [R2]. *)
Lemma free_between R1 a r R2 b k :
  ordered (R1 ++ (a, r) :: R2) → headroom k (R1 ++ (a, r) :: R2) → 1 <= k → rend r = b →
  (∀ x q, (x, q) ∈ R2 → b + 4096 * k <= base q) → free_range b k (R1 ++ (a, r) :: R2).
Proof.
  intros Ho Hh Hk Eb H2. pose proof Ho as (_ & Hf & H1 & _)%ordered_mid. pose proof (fits_bounds _ Hf).
  split.
  - apply new_fits; [lia|subst b; by apply rend_aligned|done|]. subst b. eapply (Hh a), elem_mid.
  - intros x q Hx. unfold touches. apply list.elem_of_app in Hx as [Hx|[[= -> ->]|Hx]%list.elem_of_cons].
    + specialize (H1 _ _ Hx). lia.
    + lia.
    + specialize (H2 _ _ Hx). lia.
Qed.

Lemma wp_gap_loop fuel : ∀ s R1 a r R2 min k (Q : Z → mm FS → Prop),
  laid s (R1 ++ (a, r) :: R2) → headroom k (R1 ++ (a, r) :: R2) → 1 <= k → (length R2 < fuel)%nat →
  (∀ b, rend r <= b → free_range b k (R1 ++ (a, r) :: R2) → Q b s) →
  wp (gap_loop fuel min (4096 * k) a) Q s.
Proof.
  induction fuel as [|fuel IH]; intros s R1 a r R2 min k Q HL Hh Hk Hfuel HQ; [lia|].
  pose proof (layout_ordered HL) as Ho. pose proof (lay_fits _ _ _ _ HL _ _ (elem_mid R1 (a, r) R2)) as Hf.
  pose proof (fits_bounds _ Hf). pose proof (Hh a r (elem_mid _ _ _)) as Hha. rewrite higher_half in Hha.
  cbn [gap_loop]. wp_step. eapply wp_get_region; [exact (lay_regs _ _ _ _ HL _ _ (elem_mid R1 (a, r) R2))|].
  rewrite (region_size_fits _ Hf), (u64_small (base r + _)) by lia.
  replace (base r + (rend r - base r)) with (rend r) by lia.
  wp_step. eapply (wp_vm_next_region _ _ _ _ _ _ HL). destruct R2 as [|[a2 r2] R2]; cbn [head fmap list_fmap].
  { wp_step. apply HQ; [lia|]. eapply free_between; try done. by intros * ?%not_elem_of_nil. }
  simpl. assert ((a2, r2) ∈ R1 ++ (a, r) :: (a2, r2) :: R2) as H2 by (rewrite list.elem_of_app, !list.elem_of_cons; tauto).
  pose proof (fits_bounds _ (lay_fits _ _ _ _ HL _ _ H2)).
  pose proof Ho as (_ & _ & _ & Hn)%ordered_mid. pose proof (Hn a2 r2 ltac:(by left)).
  wp_step. eapply wp_get_region; [exact (lay_regs _ _ _ _ HL _ _ H2)|]. rewrite u64_small by lia.
  destruct ((4096 * k <=? base r2 - rend r) && (min <=? base r2)) eqn:Eg.
  - wp_step. apply HQ; [lia|]. eapply free_between; try done. intros x q [[= -> ->]|Hx]%list.elem_of_cons; [lia|].
    apply ordered_app in Ho as (_ & (_ & (_ & _ & Ho)%ordered_cons & _)%ordered_cons & _).
    specialize (Ho _ _ Hx). pose proof (fits_bounds _ (lay_fits _ _ _ _ HL _ _ H2)). lia.
  - replace (R1 ++ (a, r) :: (a2, r2) :: R2) with ((R1 ++ [(a, r)]) ++ (a2, r2) :: R2) in * by by rewrite <- app_assoc.
    eapply IH; [exact HL|done|done|simpl in Hfuel; lia|]. intros b Hb Hfree. apply HQ; [lia|done].
Qed.

(** ** vm_allocate_base *)

(** Where the search for room starts: at the beginning of the address space, or at an
    address with no region around it but one that starts there. *)
Definition good_start (min k : Z) s R : Prop :=
  (min = as_start s ∧ ∀ a r, (a, r) ∈ R → min <= base r) ∨
  (as_start s < min ∧ (∀ a r, (a, r) ∈ R → touches min (min + 4097) r → base r = min) ∧
    ((∀ a r, (a, r) ∈ R → base r ≠ min) → ∀ a r, (a, r) ∈ R → ¬ touches min (min + 4096 * k) r)).

Lemma base_parts t m nx R min R1 M R2 :
  layout t m nx R → R = R1 ++ M ++ R2 → 0 <= min → min + 4096 < 2 ^ 64 →
  (∀ a r, (a, r) ∈ R1 → rend r <= min) → (∀ a r, (a, r) ∈ M → touches min (min + 4097) r) →
  (∀ a r, (a, r) ∈ R2 → min + 4097 <= base r) →
  parts (base_cmp m) min R1.*1 M.*1 R2.*1.
Proof.
  intros HL HR Hb He H1 HM H2.
  assert (∀ a r, (a, r) ∈ R → base_cmp m a min = Done (if bool_decide (touches min (min + 4097) r)
    then 0 else if min <=? rend r - 1 then -1 else 1)) as Hcmp.
  { intros a r Ha. unfold base_cmp. rewrite (lay_regs _ _ _ _ HL _ _ Ha), page_size, (u64_small (min + _)) by lia.
    replace (min + 4096) with (min + 4097 - 1) by lia.
    rewrite overlap_spec by exact (lay_fits _ _ _ _ HL _ _ Ha).
    rewrite (region_last_fits r) by exact (lay_fits _ _ _ _ HL _ _ Ha). by case_bool_decide. }
  assert (∀ a r, (a, r) ∈ R → fits r) as Hfit by apply HL.
  subst R. split_and!; apply Forall_firsts; intros a r Ha;
    rewrite (Hcmp a r) by (rewrite !list.elem_of_app; tauto);
    pose proof (fits_bounds r (Hfit a r ltac:(rewrite !list.elem_of_app; tauto))).
  - specialize (H1 _ _ Ha). eexists. split; [done|]. rewrite bool_decide_false by (unfold touches; lia).
    rewrite (proj2 (Z.leb_gt _ _)) by lia. lia.
  - specialize (HM _ _ Ha). by rewrite bool_decide_true.
  - specialize (H2 _ _ Ha). eexists. split; [done|]. rewrite bool_decide_false by (unfold touches; lia).
    rewrite (proj2 (Z.leb_le _ _)) by lia. lia.
Qed.

Lemma wp_vm_allocate_base s R min k (Q : Z → mm FS → Prop) :
  laid s R → good_start min k s R → headroom k R → 0 <= min → min mod 4096 = 0 → 1 <= k →
  min + 4096 * k <= VM_HIGHER_HALF →
  (∀ b, min <= b → free_range b k R → Q b s) → wp (vm_allocate_base min (4096 * k)) Q s.
Proof.
  intros HL Hg Hh Hmin Hal Hk Hend HQ. pose proof Hend as Hend'. rewrite higher_half in Hend'.
  assert (as_start s <= min) as Hst by (unfold good_start in Hg; lia).
  unfold vm_allocate_base. wp_step. wp_step. rewrite (proj2 (Z.ltb_ge _ _)) by done. wp_step. wp_step.
  assert (∀ b, min <= b → free_range b k R → wp (mret (if b <? min then min else b)) Q s) as Hret.
  { intros b Hb Hfree. wp_step. rewrite (proj2 (Z.ltb_ge _ _)) by lia. by apply HQ. }
  assert (∀ node, (node = None ∧ free_range min k R) ∨
    (∃ a r, node = Some a ∧ (a, r) ∈ R ∧ min <= base r ∧ (min + 4096 * k <= base r → free_range min k R)) →
    wp (last_end ← match node with
                   | None => mret min
                   | Some a =>
                       f ← get_region a;
                       if 4096 * k <=? u64 (base f - min) then mret min
                       else bound ← gets (λ s, walk_bound (region_tree s)); gap_loop bound min (4096 * k) a
                   end; mret (if last_end <? min then min else last_end)) Q s) as Hrest.
  { intros node [[-> Hf]|(a & r & -> & Hr & Hb & Hf)]; wp_step; [wp_step; apply Hret; [lia|done]|].
    pose proof (fits_bounds _ (lay_fits _ _ _ _ HL _ _ Hr)).
    wp_step. eapply wp_get_region; [exact (lay_regs _ _ _ _ HL _ _ Hr)|]. rewrite u64_small by lia.
    destruct (Z.leb_spec (4096 * k) (base r - min)); [wp_step; apply Hret; [lia|apply Hf; lia]|].
    wp_step. wp_step. pose proof (laid_size _ _ HL) as Hlen. pose proof Hr as (R1 & R2 & ->)%list_elem_of_split.
    eapply wp_gap_loop; [exact HL|done|done| |].
    - rewrite length_app in Hlen. simpl in Hlen. unfold walk_bound. lia.
    - intros b Hb' Hfree. apply Hret; [lia|done]. }
  destruct Hg as [[-> Hall]|(Hlt & HA & HB)].
  - rewrite Z.eqb_refl. cbn [negb]. wp_step. apply wp_in_tree. eapply min_contract; [exact (lay_tree _ _ _ _ HL)|].
    rewrite with_tree_same. apply Hrest. destruct R as [|[a r] R']; cbn; [left|right].
    + split; [done|]. split; [by apply new_fits|]. by intros * ?%not_elem_of_nil.
    + exists a, r. split_and!; [done|by left|by eapply Hall; left|]. intros Hge. split; [by apply new_fits|].
      intros x q Hx. pose proof (layout_ordered HL) as (Hfr & _ & Hn)%ordered_cons.
      pose proof (fits_bounds _ Hfr). unfold touches.
      apply list.elem_of_cons in Hx as [[= -> ->]|Hx]; [lia|]. specialize (Hn _ _ Hx). lia.
  - rewrite (proj2 (Z.eqb_neq _ _)) by lia. cbn [negb]. wp_step. apply wp_in_tree.
    destruct (ordered_split R min (min + 4097) (layout_ordered HL)) as (R1 & M & R2 & HR & H1 & HM & H2); [lia|].
    eapply (search_contract _ _ _ _ R1.*1 M.*1 R2.*1); [exact (lay_tree _ _ _ _ HL)|by rewrite HR, !fmap_app|..].
    + eapply base_parts; [exact HL|exact HR|done|lia|done|done|done].
    + intros ->%fmap_nil_inv. rewrite with_tree_same. apply (Hrest None). left. split; [done|].
      split; [by apply new_fits|]. apply HB. intros x q Hx Hq. pose proof (fits_bounds _ (lay_fits _ _ _ _ HL _ _ Hx)).
      subst R. rewrite !list.elem_of_app in Hx. destruct Hx as [Hx|[Hx|Hx]];
        [specialize (H1 _ _ Hx)|by apply not_elem_of_nil in Hx|specialize (H2 _ _ Hx)]; lia.
    + intros a ([a' r] & -> & Hr)%list_elem_of_fmap. rewrite with_tree_same. apply (Hrest (Some a')). right. exists a', r.
      assert ((a', r) ∈ R) as Hin by (subst R; rewrite !list.elem_of_app; tauto).
      pose proof (HA _ _ Hin (HM _ _ Hr)). split_and!; [done|done|lia|lia].
Qed.
End map.

(** ** Sizes and limits *)

Lemma ordered_size R lo : ordered R → 0 <= lo <= VM_HIGHER_HALF → (∀ a r, (a, r) ∈ R → lo <= base r) →
  lo + over rsize R <= VM_HIGHER_HALF ∧ 0 <= over rsize R.
Proof.
  revert lo. induction R as [|[a r] R IH]; intros lo HR Hlo Hb; [unfold over; simpl; lia|].
  apply ordered_cons in HR as (Hf & HR & Hn). pose proof (fits_bounds _ Hf) as (? & ? & ? & ? & ?).
  pose proof (fits_end _ Hf). pose proof (Hb a r ltac:(by left)).
  destruct (IH (rend r) HR ltac:(lia) Hn). change (over rsize ((a, r) :: R)) with (rsize r + over rsize R).
  unfold rsize at 1 3. lia.
Qed.

Section areas.
Context {FS : Type} `{FramesLaws FS} (ext fx : Z → Z).
Implicit Types (s : mm FS) (R : rlist).
Abbreviation files R := (λ f, fx f + over (file_claim f) R).

Lemma space_virtual n s R : space ext fx n s R → virtual_memory_size s = over rsize R ∧ 0 <= over rsize R <= VM_HIGHER_HALF.
Proof.
  intros [HS _]. destruct (ordered_size R 0) as [H1 H2].
  - exact (layout_ordered (st_laid _ _ _ _ _ _ _ _ _ HS)).
  - by rewrite higher_half.
  - intros a r Hr. apply (fits_base _ (lay_fits _ _ _ _ (st_laid _ _ _ _ _ _ _ _ _ HS) _ _ Hr)).
  - rewrite (st_virtual _ _ _ _ _ _ _ _ _ HS). rewrite higher_half in *. rewrite u64_small; lia.
Qed.

Lemma wp_vm_test_vs_rlimit n s R k (Q : bool → mm FS → Prop) :
  space ext fx n s R → 0 <= 4096 * k < 2 ^ 47 → Q (over rsize R + 4096 * k <=? rlimit_as s) s →
  wp (vm_test_vs_rlimit (4096 * k)) Q s.
Proof.
  intros HS Hk HQ. destruct (space_virtual _ _ _ HS) as [Ev Hv]. rewrite higher_half in Hv.
  unfold vm_test_vs_rlimit. assert (i64 (4096 * k) = 4096 * k) as ->.
  { unfold i64. rewrite Z.mod_small; lia. }
  rewrite (proj2 (Z.ltb_ge _ _)) by lia. wp_step. wp_step. wp_step. simpl. rewrite Ev, u64_small by lia. exact HQ.
Qed.

(** The new region [a], of [k] pages at [b], before it has an object. *)
Definition reserved n s R b k prot (Q : option Z → mm FS → Prop) : Prop := ∀ s' a q L1 L2,
  R = L1 ++ L2 → base q = b → pages q = k → rwx q = prot → mapping_type q = 0 → fd q = None → vmo q = None →
  (∀ x, (a, x) ∉ R) → fits q →
  stage ext n (L1 ++ (a, q) :: L2) (claims_of R) (over rsize R + 4096 * k) (over shared_size R) (files R) (settings s) s' →
  Q (Some a) s'.

(** A new region is entered, counted and given its protection. *)
Lemma wp_reserved n s R b k prot f (m : Z → M (mm FS) (option Z)) (Q : option Z → mm FS → Prop) :
  space ext fx n s R → free_range b k R → reserved n s R b k prot Q →
  (∀ r, base r = b → pages r = k → vmo r = None → mapping_type r = 0 → fd r = None →
    base (f r) = b ∧ pages (f r) = k ∧ rwx (f r) = prot ∧ vmo (f r) = None ∧ mapping_type (f r) = 0 ∧ fd (f r) = None) →
  (∀ a s1, wp (increment_virtual (4096 * k);; upd_region a f;; mret (Some a)) Q s1 → wp (m a) Q s1) →
  wp (vm_reserve_region b (4096 * k)) (λ reg, wp (match reg with None => mret None | Some a => m a end) Q) s.
Proof.
  intros HS Hfree HQ Hf Hm. pose proof HS as [HS0 _].
  eapply (stage_reserve _ HS0); [apply Hfree|apply Hfree|]. intros a L1 L2 s1 HR Hnew _ HS1. cbn iota. apply Hm.
  wp_step. eapply (stage_add_virtual _ HS1). intros s2 HS2.
  destruct (Hf (new_region b k)) as (F1 & F2 & F3 & F4 & F5 & F6); [done..|].
  wp_step. eapply (stage_set _ _ _ _ _ _ _ _ _ HS2); [done..|]. intros s3 HS3. wp_step.
  eapply (HQ s3 a (f (new_region b k)) L1 L2); try done.
  pose proof (free_fits _ _ _ Hfree) as [? ? ? ?]. split; rewrite ?F1, ?F2; try done. unfold rend. by rewrite F1, F2.
Qed.

Lemma wp_allocate_virt_region n s R k type prot (Q : option Z → mm FS → Prop) :
  space ext fx n s R → good_start (mmap_base s) k s R → headroom k R → 0 <= mmap_base s →
  mmap_base s mod 4096 = 0 → 1 <= k → mmap_base s + 4096 * k <= VM_HIGHER_HALF → 4096 * k < 2 ^ 47 →
  (has prot (Z.lor VM_WRITE VM_EXEC) = true → Z.lor prot VM_READ = prot) →
  (rlimit_as s < over rsize R + 4096 * k → Q None s) →
  (∀ b, over rsize R + 4096 * k <= rlimit_as s → mmap_base s <= b → free_range b k R → reserved n s R b k prot Q) →
  wp (__vm_allocate_virt_region k type prot) Q s.
Proof.
  intros HS Hg Hh Hb Hal Hk Hend Hsz Hprot Q0 Q1. pose proof HS as [HS0 _].
  unfold __vm_allocate_virt_region, vm_get_base_address, vm_allocate_region. wp_step. wp_step.
  rewrite pages_to_size_small by lia. do 2 wp_step. eapply wp_vm_test_vs_rlimit; [exact HS|lia|].
  destruct (Z.leb_spec (over rsize R + 4096 * k) (rlimit_as s)); cbn [negb]; [|do 2 wp_step; apply Q0; lia].
  wp_step. eapply wp_vm_allocate_base; [exact (st_laid _ _ _ _ _ _ _ _ _ HS0)|done..|]. intros b Hmb Hfree.
  wp_step. eapply wp_mono.
  { eapply (wp_reserved n s R b k prot (λ r, set_rtype type (set_rwx prot r))); [exact HS|exact Hfree|by apply Q1|done|].
    intros a s1 Hm. exact Hm. }
  intros [a|] s1 Hw; [|by do 2 wp_step].
  cbn iota in *. wp_step. eapply wp_mono; [apply wp_bind_inv in Hw; exact Hw|]. intros [] s2 Hw2. wp_step.
  assert ((if has prot (Z.lor VM_WRITE VM_EXEC) then Z.lor prot VM_READ else prot) = prot) as ->
    by (destruct (has prot _); auto).
  exact Hw2.
Qed.

Lemma wp_create_region_at n s R b k type prot (Q : option Z → mm FS → Prop) :
  space ext fx n s R → free_range b k R → 4096 * k < 2 ^ 47 →
  (rlimit_as s < over rsize R + 4096 * k → Q None s) →
  (over rsize R + 4096 * k <= rlimit_as s → reserved n s R b k prot Q) →
  wp (__vm_create_region_at b k type prot) Q s.
Proof.
  intros HS Hfree Hsz Q0 Q1. pose proof HS as [HS0 _]. pose proof (free_fits _ _ _ Hfree) as Hf.
  pose proof (fits_bounds _ Hf) as (Hb & _ & Hlt & _ & Hk & _). pose proof (fits_aligned _ Hf) as Hal.
  pose proof (fits_end _ Hf) as He. rewrite higher_half in He. unfold rend in He, Hlt. simpl in Hb, Hal, He, Hk, Hlt.
  rewrite page_size in *. unfold __vm_create_region_at, vm_region_is_empty. rewrite pages_to_size_small by lia.
  do 2 wp_step. eapply (wp_vm_search _ _ _ _ b k); [exact (st_laid _ _ _ _ _ _ _ _ _ HS0)|lia|by rewrite page_of_aligned|rewrite size_to_pages_mul; lia|done|lia| |].
  - intros _. wp_step. rewrite bool_decide_true by done. cbn [negb]. wp_step. eapply wp_vm_test_vs_rlimit; [exact HS|lia|].
    destruct (Z.leb_spec (over rsize R + 4096 * k) (rlimit_as s)); cbn [negb]; [|wp_step; apply Q0; lia].
    wp_step. eapply (wp_reserved n s R b k prot (λ r, set_rtype type (set_rwx prot (set_range b k r))));
      [exact HS|exact Hfree|by apply Q1|done|]. by intros a s1 Hm.
  - intros a r Hr Ht. by destruct (free_apart _ _ _ Hfree a r Hr).
Qed.

(** ** Anonymous mappings *)

Lemma rsize_pages q : rsize q = 4096 * pages q.
Proof. unfold rsize, rend. rewrite page_size. lia. Qed.

Lemma wp_setup_anonymous f_ino i_pages n s R K L1 a q L2 V S F c npages (Q : Z → mm FS → Prop) :
  stage ext n R K V S F c s → R = L1 ++ (a, q) :: L2 → vmo q = None → fits q → 1 <= n < 2 ^ 64 →
  (∀ u s', stage ext (n - 1) (L1 ++ (a, set_vmo (Some u) q) :: L2) (claim_of (set_vmo (Some u) q) :: K)
      V (S + shared_size q) F c s' → Q 0 s') →
  wp (vm_region_setup_backing f_ino i_pages a npages false) Q s.
Proof.
  intros HS HR Hv Hf Hn HQ. assert ((a, q) ∈ R) as Hin by (rewrite HR; apply elem_mid).
  assert (is_higher_half (base q) = false) as Hhh.
  { pose proof (fits_bounds _ Hf). pose proof (fits_end _ Hf). unfold is_higher_half. rewrite higher_half in *. lia. }
  assert (∀ u s', stage ext (n - 1) R ((Some u, is_mapping_shared q) :: K) V (S + shared_size q) F c s' →
    wp (check (bool_decide (vmo q = None)) AssertFailed;; upd_region a (set_vmo (Some u));; mret 0) Q s') as Hend.
  { intros u s' HS'. wp_step. wp_step; [by rewrite bool_decide_true|]. wp_step.
    eapply (stage_set _ _ _ _ _ _ _ _ _ HS'); [exact HR|done|done|]. intros s2 HS2. wp_step. eapply HQ. exact HS2. }
  unfold vm_region_setup_backing, backing_object. do 2 wp_step. eapply (stage_get _ HS); [exact Hin|]. cbn [andb].
  eapply (bk_create_phys ext n s K (is_mapping_shared q)); [apply HS|lia|]. intros u s1 Hb1 HP1. cbn iota.
  assert (∀ K' s', behind s1 s' → backed ext (n - 1) s' K' → stage ext (n - 1) R K' V S F c s') as Hst.
  { intros K' s' Hb HB. eapply (stage_behind _ HS); [by eapply behind_trans|done]. }
  wp_step. assert (regions s1 !! a = Some q) as Ha.
  { rewrite Hb1. exact (lay_regs _ _ _ _ (st_laid _ _ _ _ _ _ _ _ _ HS) _ _ Hin). }
  eapply wp_get_region; [exact Ha|]. rewrite Hhh. cbn [negb]. wp_step. eapply pd_assign; [exact HP1|].
  intros s2 Hb2 HP2. unfold shared_size in Hend, HQ. destruct (is_mapping_shared q) eqn:Es; cbn [negb andb].
  - do 2 wp_step. wp_step. pose proof (pending_shared _ _ _ _ _ HP2) as HB2.
    eapply (stage_add_shared _ (Hst _ _ Hb2 HB2)). intros s3 HS3. apply Hend.
    eapply stage_eq; [exact HS3|done..| |done]. rewrite (region_size_fits _ Hf). done.
  - wp_step. eapply pending_add; [exact HP2|]. intros s3 Hb3 HB3. do 2 wp_step. apply Hend.
    eapply stage_eq; [exact (Hst _ _ (behind_trans _ _ _ Hb2 Hb3) HB3)|done..| |done]. lia.
Qed.
End areas.

(** ** mmap without a file *)

(** The protection of a new mapping: what may be written or executed may be read. *)
Definition mmap_prot (prot : Z) : Z :=
  prot_to_vm (if has prot (Z.lor PROT_WRITE PROT_EXEC) then Z.lor prot PROT_READ else prot).

Lemma has_lor x y m : has (Z.lor x y) m = has x m || has y m.
Proof.
  unfold has, truthy. rewrite Z.land_lor_distr_l. pose proof (Z.lor_eq_0_iff (Z.land x m) (Z.land y m)).
  destruct (Z.eqb_spec (Z.land x m) 0), (Z.eqb_spec (Z.land y m) 0),
    (Z.eqb_spec (Z.lor (Z.land x m) (Z.land y m)) 0); simpl; first [done | tauto].
Qed.

Lemma has_lor_r x m m' : has x (Z.lor m m') = has x m || has x m'.
Proof. unfold has. rewrite (Z.land_comm x), (Z.land_comm x m), (Z.land_comm x m'). exact (has_lor m m' x). Qed.

Lemma mmap_prot_readable prot :
  has (mmap_prot prot) (Z.lor VM_WRITE VM_EXEC) = true → Z.lor (mmap_prot prot) VM_READ = mmap_prot prot.
Proof.
  unfold mmap_prot, prot_to_vm. rewrite has_lor_r. rewrite (has_lor_r prot).
  destruct (has prot PROT_WRITE) eqn:Ew, (has prot PROT_EXEC) eqn:Ex, (has prot PROT_READ) eqn:Er; cbn [orb];
    rewrite ?has_lor, ?Ew, ?Ex, ?Er; by vm_compute.
Qed.

Section mmap.
Context {FS : Type} `{FramesLaws FS} (ext fx : Z → Z).
Context (free_other : Z → Z → M (world FS) unit) (Hdrops : drops free_other)
        (Hfree : ∀ v p, lucky ext (λ _, True) (free_other v p)).
Context (f_ino i_pages : Z → Z) (is_device : Z → bool) (device_mmap : Z → option (Z → M (mm FS) (Z + Z))).
Implicit Types (s : mm FS) (R : rlist).

(** [R'] is [R] with [k] more pages at [b]. *)
Definition extended R R' b k prot : Prop :=
  ∀ x p, mapped R' x p ↔ mapped R x p ∨ (b <= x < b + 4096 * k ∧ p = prot).

Lemma wp_mmap_finish n s R b k prot flags npages psz (Q : Z + Z → mm FS → Prop) :
  space ext fx n s R → 1 <= n < 2 ^ 64 → has flags MAP_ANONYMOUS = true →
  (∀ s' R', space ext fx (n - 1) s' R' → settings s' = settings s → extended R R' b k prot → Q (inr b) s') →
  reserved ext fx n s R b k prot (λ area, wp
      match area with
      | None => mret (inl ENOMEM)
      | Some a =>
          upd_region a (set_mapping_type (if has flags MAP_SHARED then MAP_SHARED else MAP_PRIVATE));;
          r ← get_region a;
          mret tt;;
          st ← vm_region_setup_backing f_ino i_pages a npages (negb (has flags MAP_ANONYMOUS));
          if st <? 0 then __vm_munmap free_other (base r) psz;; mret (inl ENOMEM)
          else mret (inr (base r))
      end Q).
Proof.
  intros HS Hn Han HQ s1 a q L1 L2 HR Eb Ep Ew Em Ef Ev Hnew Hf HS1. pose proof HS as [_ Hbk].
  wp_step. eapply (stage_set _ _ _ _ _ _ _ _ _ HS1); [done..|].
  set (q1 := set_mapping_type _ q). intros s2 HS2. wp_step.
  eapply (stage_get _ HS2); [apply elem_mid|]. do 2 wp_step. rewrite Han. cbn [negb]. wp_step.
  assert (fits q1) as Hf1 by (by destruct Hf; split).
  eapply wp_setup_anonymous; [exact HS2|done|exact Ev|exact Hf1|done|]. intros u s3 HS3.
  set (q2 := set_vmo (Some u) q1) in *. change (0 <? 0) with false. cbn iota. wp_step. change (base q1) with (base q). rewrite Eb.
  eapply (HQ s3 (L1 ++ (a, q2) :: L2)); [|exact (st_settings _ _ _ _ _ _ _ _ _ HS3)|].
  - split.
    + rewrite (st_settings _ _ _ _ _ _ _ _ _ HS3). eapply stage_eq; [exact HS3|by rewrite claims_mid, HR|..].
      * rewrite over_mid, HR, rsize_pages. change (pages q2) with (pages q). lia.
      * rewrite over_mid, HR. change (shared_size q2) with (shared_size q1). lia.
      * intros f. rewrite over_mid, HR. unfold file_claim at 2. change (fd q2) with (fd q). rewrite Ef. simpl. lia.
    + intros x y [[= -> ->]|Hx]%elem_mid_inv; [by eexists|]. eapply (Hbk x). by rewrite HR.
  - intros x p. rewrite mapped_mid, HR. unfold rend. change (base q2) with (base q).
    change (pages q2) with (pages q). change (rwx q2) with (rwx q). rewrite Eb, Ep, Ew, page_size.
    split; [intros [[? <-]|?]; [by right|by left]|intros [?|[? ->]]; [by right|by left]].
Qed.

Abbreviation vm_mmap := (vm_mmap free_other f_ino i_pages is_device device_mmap).

(** The kernel chooses the address. *)
Lemma wp_vm_mmap_anywhere n s R len k prot flags off (Q : Z + Z → mm FS → Prop) :
  space ext fx n s R → 1 <= n < 2 ^ 64 → good_start (mmap_base s) k s R → headroom k R → 0 <= mmap_base s →
  mmap_base s mod 4096 = 0 → mmap_base s + 4096 * k <= VM_HIGHER_HALF → 4096 * k < 2 ^ 47 →
  vm_size_to_pages len = k → 1 <= k → has off (PAGE_SIZE - 1) = false →
  has flags MAP_ANONYMOUS = true → has flags MAP_FIXED = false →
  (rlimit_as s < over rsize R + 4096 * k → Q (inl ENOMEM) s) →
  (∀ b s' R', over rsize R + 4096 * k <= rlimit_as s → mmap_base s <= b → free_range b k R →
    space ext fx (n - 1) s' R' → settings s' = settings s → extended R R' b k (mmap_prot prot) → Q (inr b) s') →
  wp (vm_mmap 0 len prot flags None off) Q s.
Proof.
  intros HS Hn Hg Hh Hb Hal Hend Hsz Hlen Hk Hoff Han Hfx Q0 Q1. unfold Vm.vm_mmap. rewrite Hoff, Hlen, Hfx, andb_false_r.
  fold (mmap_prot prot). unfold mmap_area. change (is_higher_half 0) with false. change (0 =? 0) with true. cbn iota.
  wp_step. eapply (wp_allocate_virt_region ext fx n s R k); [done..|apply mmap_prot_readable| |].
  - intros Hlim. wp_step. by apply Q0.
  - intros b Hlim Hmb Hfr. apply (wp_mmap_finish n s R b k (mmap_prot prot) flags k (pages_to_size k)); [done..|].
    intros s' R' HS' Hset Hext. by eapply Q1.
Qed.

(** The caller chooses it, and what was there goes. *)
Lemma wp_vm_mmap_fixed n s R addr len k prot flags off (Q : Z + Z → mm FS → Prop) :
  space ext fx n s R → 3 <= n < 2 ^ 64 → 0 < addr → addr mod 4096 = 0 → addr + 4096 * k <= VM_HIGHER_HALF →
  4096 * k < 2 ^ 47 → no_straddle addr k R →
  vm_size_to_pages len = k → 1 <= k → has off (PAGE_SIZE - 1) = false →
  has flags MAP_ANONYMOUS = true → has flags MAP_FIXED = true →
  (∀ s' R', rlimit_as s < over rsize R' + 4096 * k → space ext fx (n - 1) s' R' → settings s' = settings s →
    (∀ x p, mapped R' x p ↔ mapped R x p ∧ ¬ (addr <= x < addr + 4096 * k)) → Q (inl ENOMEM) s') →
  (∀ s' R', space ext fx (n - 2) s' R' → settings s' = settings s →
    (∀ x p, mapped R' x p ↔ (addr <= x < addr + 4096 * k ∧ p = mmap_prot prot) ∨
       (mapped R x p ∧ ¬ (addr <= x < addr + 4096 * k))) → Q (inr addr) s') →
  wp (vm_mmap addr len prot flags None off) Q s.
Proof.
  intros HS Hn Hpos Hal Hend Hsz Hns Hlen Hk Hoff Han Hfx Q0 Q1. pose proof Hend as Hend'. rewrite higher_half in Hend'.
  unfold Vm.vm_mmap. rewrite Hoff, Hlen, Hfx. fold (mmap_prot prot).
  assert (is_higher_half addr = false) as Hhh by (unfold is_higher_half; rewrite higher_half; lia).
  unfold mmap_area. rewrite Hhh, (proj2 (Z.eqb_neq addr 0)) by lia. cbn [orb andb]. rewrite Hfx, pages_to_size_small by lia.
  do 2 wp_step. eapply wp_vm_unmap_every; [done|done|lia|done|done|done|exact HS|lia|done|].
  intros s1 R1 m Hm HS1 Hset1 Hmap1.
  assert (free_range addr k R1) as Hfr.
  { split; [by apply new_fits; [lia|..]|]. intros a r Hr Ht. destruct HS1 as [HS1 _].
    pose proof (fits_bounds _ (lay_fits _ _ _ _ (st_laid _ _ _ _ _ _ _ _ _ HS1) _ _ Hr)). unfold touches in Ht.
    destruct (Hmap1 (Z.max addr (base r)) (rwx r)) as [Hm1 _].
    destruct Hm1 as [_ Hno]; [exists a, r; split; [done|lia]|]. lia. }
  assert (rlimit_as s1 = rlimit_as s) as Erl by (by injection Hset1).
  wp_step. eapply (wp_create_region_at ext fx m s1 R1 addr k); [done..| |].
  - intros Hlim. do 2 wp_step. rewrite Erl in Hlim. eapply Q0; [exact Hlim| |done|done].
    destruct HS1 as [HS1 Hbk1]. split; [|done]. destruct HS1. split; try done. by eapply backed_mono; [|done]; lia.
  - intros Hlim. intros s2 a q L1 L2 HR Eb Ep Ew Em Ef Ev Hnew Hf HS2. cbn iota. wp_step.
    refine (wp_mmap_finish m s1 R1 addr k (mmap_prot prot) flags k (4096 * k) Q HS1 _ Han _ s2 a q L1 L2 HR Eb Ep Ew Em Ef Ev Hnew Hf HS2); [lia|].
    intros s' R' HS' Hset' Hext. eapply Q1.
    + destruct HS' as [HS' Hbk']. split; [|done]. destruct HS'. split; try done. by eapply backed_mono; [|done]; lia.
    + congruence.
    + intros x p. pose proof (Hext x p). pose proof (Hmap1 x p). tauto.
Qed.
End mmap.
