(* ===== verification/VmLife.v ===== *)
(** * VmLife: the program break, and the end of an address space. *)

From stdpp Require Import sorting.
From S2P Require Import Prelude Bits Abi PageAlloc Frames VmObject VmObjectFacts VmObjectLife.
From S2P Require Import VmObjectPurge VmBacking Wavl WavlTree WavlHeap WavlOps WavlCalls.
From S2P Require Import WavlProps Vm VmLayout VmPrivate VmSpace VmUnmap VmMap.

Definition page_up (x : Z) : Z := page_of (x + 4095).

Lemma page_align_up_page x : 0 <= x → x + 4095 < 2 ^ 64 → page_align_up x = page_up x.
Proof.
  intros. unfold page_align_up, page_up. rewrite page_size. rewrite u64_small by lia.
  replace (x + 4096 - 1) with (x + 4095) by lia. change 4096 with PAGE_SIZE. apply mask_page. lia.
Qed.

Lemma page_up_spec x : x <= page_up x < x + 4096 ∧ page_up x mod 4096 = 0.
Proof. unfold page_up. pose proof (page_of_spec (x + 4095)). lia. Qed.

Section brk.
Context {FS : Type} `{FramesLaws FS} (ext fx : Z → Z).
Context (free_other : Z → Z → M (world FS) unit) (Hdrops : drops free_other)
        (Hfree : ∀ v p, lucky ext (λ _, True) (free_other v p)).
Implicit Types (s : mm FS) (R : rlist).

(** The break lies in region [r], with a page to spare. *)
Definition heap_ok (brk : Z) (r : vm_region) : Prop := base r <= brk ∧ page_up brk + 4096 <= rend r.

(** The region cannot get [np] more pages: another is in the way, or the limit is. *)
Definition no_growth s R (r : vm_region) (np : Z) : Prop :=
  (∃ b q, (b, q) ∈ R ∧ rend r <= base q < rend r + 4096 * np) ∨
  rlimit_as s < over rsize R + rsize r + 4096 * np.

Section grow.
Context (n : Z) (s : mm FS) (R1 : rlist) (a : Z) (r : vm_region) (R2 : rlist) (np : Z).
Abbreviation R := (R1 ++ (a, r) :: R2).
Context (HS : space ext fx n s R) (Hn : 1 <= n) (Hnp : 1 <= np) (Hend : rend r + 4096 * np <= VM_HIGHER_HALF)
        (Hsz : rsize r + 4096 * np < 2 ^ 47).
Abbreviation r' := (set_range (base r) (pages r + np) r).

Lemma grow_can (Q : bool → mm FS → Prop) :
  ((∀ b q, (b, q) ∈ R2 → rend r + 4096 * np <= base q) → Q true s) →
  ((∃ b q, (b, q) ∈ R ∧ rend r <= base q < rend r + 4096 * np) → Q false s) →
  wp (vm_can_expand a (4096 * (pages r + np))) Q s.
Proof.
  intros Q1 Q0. pose proof HS as [HS0 _]. pose proof (st_laid _ _ _ _ _ _ _ _ _ HS0) as HL.
  assert (fits r) as Hf by exact (lay_fits _ _ _ _ HL _ _ (elem_mid R1 (a, r) R2)). pose proof (fits_bounds _ Hf).
  pose proof (layout_ordered HL) as Ho. pose proof Ho as (_ & _ & _ & Hn2)%ordered_mid.
  unfold vm_can_expand. wp_step. eapply (stage_get _ HS0); [apply elem_mid|].
  rewrite (region_size_fits _ Hf), (proj2 (Z.ltb_ge _ _)) by lia.
  wp_step. eapply wp_vm_next_region; [exact HL|]. destruct R2 as [|[b q] R2']; simpl.
  { wp_step. apply Q1. by intros * ?%not_elem_of_nil. }
  assert ((b, q) ∈ R1 ++ (a, r) :: (b, q) :: R2') as Hq by (rewrite list.elem_of_app, !list.elem_of_cons; tauto).
  pose proof (fits_bounds _ (lay_fits _ _ _ _ HL _ _ Hq)). pose proof (Hn2 b q ltac:(by left)).
  wp_step. eapply (stage_get _ HS0); [exact Hq|]. wp_step. rewrite u64_small by lia.
  destruct (Z.leb_spec (4096 * (pages r + np)) (base q - base r)).
  - apply Q1. intros x y [[= -> ->]|Hx]%list.elem_of_cons; [lia|].
    apply ordered_app in Ho as (_ & (_ & (_ & _ & Ho)%ordered_cons & _)%ordered_cons & _).
    specialize (Ho _ _ Hx). lia.
  - apply Q0. exists b, q. split; [done|lia].
Qed.

Lemma grow_mapping (Q : Z → mm FS → Prop) :
  (no_growth s R r np → ∀ st, st < 0 → Q st s) →
  (∀ s', space ext fx n s' (R1 ++ (a, r') :: R2) → settings s' = settings s → Q 0 s') →
  wp (vm_expand_mapping free_other a (4096 * (pages r + np))) Q s.
Proof.
  intros Q0 Q1. pose proof HS as [HS0 Hbk]. pose proof (st_laid _ _ _ _ _ _ _ _ _ HS0) as HL.
  assert (fits r) as Hf by exact (lay_fits _ _ _ _ HL _ _ (elem_mid R1 (a, r) R2)). pose proof (fits_bounds _ Hf).
  destruct (Hbk a r (elem_mid _ _ _)) as [v Hv].
  unfold vm_expand_mapping. wp_step. apply grow_can; [|intros Hblk; cbn [negb]; wp_step; apply Q0; [by left|lia]].
  intros Hroom. cbn [negb]. unfold __vm_expand_mapping. wp_step. eapply (stage_get _ HS0); [apply elem_mid|].
  wp_step. unfold rsize in Hsz. eapply wp_vm_test_vs_rlimit; [exact HS|lia|].
  destruct (Z.leb_spec (over rsize R + 4096 * (pages r + np)) (rlimit_as s)) as [Hlim|Hlim]; cbn [negb].
  2:{ wp_step. apply Q0; [right; rewrite rsize_pages; lia|done]. }
  rewrite (region_size_fits _ Hf), (u64_small (_ - _)), shiftr_page by lia.
  replace (4096 * (pages r + np) - (rend r - base r)) with (4096 * np) by lia.
  assert (rend r' = rend r + 4096 * np) as Er by (unfold rend; simpl; rewrite page_size; lia).
  wp_step. eapply (stage_upd _ HS0 R1 a r R2); [done| |].
  { pose proof (layout_ordered HL) as (Ho & _ & Hb1 & _)%ordered_mid. apply ordered_mid. split_and!; [done| |done|].
    - destruct Hf. split; try done; simpl; lia.
    - intros b q Hq. rewrite Er. by eapply Hroom. }
  intros s1 HS1. wp_step. eapply wp_from_opt; [exact Hv|]. wp_step.
  assert ((Some v, is_mapping_shared r) ∈ claims_of R) as Hin.
  { pose proof (claims_in R1 a r R2) as Hin. unfold claim_of in Hin. by rewrite Hv in Hin. }
  eapply (bk_resize ext free_other Hdrops Hfree); [apply HS1|exact Hin|lia|]. intros s2 Hb2 HB2.
  pose proof (stage_behind _ HS1 _ _ _ Hb2 HB2) as HS2. wp_step. eapply (stage_add_virtual _ HS2). intros s3 HS3. wp_step.
  assert (∀ s', stage ext n (R1 ++ (a, r') :: R2) (claims_of R) (over rsize R + 4096 * np)
    (over shared_size R + (if is_mapping_shared r then 4096 * np else 0)) (λ f, fx f + over (file_claim f) R) (settings s) s' →
    wp (mret 0) Q s') as Hdone.
  { intros s' HS'. wp_step. apply Q1; [|exact (st_settings _ _ _ _ _ _ _ _ _ HS')]. split.
    - rewrite (st_settings _ _ _ _ _ _ _ _ _ HS').
      eapply stage_eq; [exact HS'|by rewrite !claims_mid| | |intros f; by rewrite !over_mid]; rewrite !over_mid.
      + rewrite (rsize_pages r'), rsize_pages. simpl. lia.
      + unfold shared_size at 1 3. change (is_mapping_shared r') with (is_mapping_shared r).
        rewrite (rsize_pages r'), rsize_pages. simpl. destruct (is_mapping_shared r); lia.
    - intros b q [[= -> ->]|Hq]%elem_mid_inv; [simpl; by rewrite Hv|]. eapply (Hbk b).
      rewrite list.elem_of_app, list.elem_of_cons in *. tauto. }
  destruct (is_mapping_shared r) eqn:Es.
  - eapply (stage_add_shared _ HS3). intros s4 HS4. by apply Hdone.
  - wp_step. apply Hdone. eapply stage_eq; [exact HS3|done..| |done]. lia.
Qed.
End grow.

Lemma space_brk n s R b : space ext fx n s R → space ext fx n (with_brk b s) R.
Proof. intros [[S1 S2 S3 S4 S5 S6] Hbk]. split; [|done]. split; try done. by eapply backed_same. Qed.

(** What a call that grows the heap does to the mapped bytes. *)
Definition grown R R' (r : vm_region) (np : Z) : Prop :=
  ∀ x p, mapped R' x p ↔ mapped R x p ∨ (rend r <= x < rend r + 4096 * np ∧ p = rwx r).

Lemma wp_sys_brk_grow n s R1 a r R2 newbrk np (Q : Z → mm FS → Prop) :
  space ext fx n s (R1 ++ (a, r) :: R2) → 1 <= n → heap_ok (brk s) r → 0 < newbrk → brk s <= newbrk →
  page_up newbrk = page_up (brk s) + 4096 * np → rend r + 4096 * np <= VM_HIGHER_HALF →
  rsize r + 4096 * np < 2 ^ 47 →
  (no_growth s (R1 ++ (a, r) :: R2) r np → Q (u64 (- ENOMEM)) s) →
  (∀ s' r', space ext fx n s' (R1 ++ (a, r') :: R2) → brk s' = newbrk → heap_ok newbrk r' →
    grown (R1 ++ (a, r) :: R2) (R1 ++ (a, r') :: R2) r np → Q newbrk s') →
  wp (sys_brk free_other newbrk) Q s.
Proof.
  intros HS Hn [Hh1 Hh2] Hpos Hle Hnp Hend Hsz Q0 Q1. pose proof HS as [HS0 _].
  pose proof (st_laid _ _ _ _ _ _ _ _ _ HS0) as HL.
  assert (fits r) as Hf by exact (lay_fits _ _ _ _ HL _ _ (elem_mid R1 (a, r) R2)). pose proof (fits_bounds _ Hf).
  pose proof (page_up_spec (brk s)). pose proof (page_up_spec newbrk). pose proof Hend as Hend'. rewrite higher_half in Hend'.
  assert (page_up newbrk + 4096 <= rend r + 4096 * np) by lia.
  unfold sys_brk, do_inc_brk. wp_step. wp_step. rewrite (proj2 (Z.eqb_neq newbrk 0)) by lia.
  assert (0 <= newbrk - brk s < 2 ^ 47).
  { unfold rsize in Hsz. lia. }
  assert (i64 (newbrk - brk s) = newbrk - brk s) as -> by (unfold i64; rewrite Z.mod_small; lia).
  rewrite (proj2 (Z.ltb_ge _ _)) by lia. rewrite !page_align_up_page, Hnp by lia.
  replace (page_up (brk s) + 4096 * np - page_up (brk s)) with (np * 4096) by lia.
  pose proof (rsize_pages r). rewrite (u64_small (np * 4096)), page_size, Z.div_mul by lia. wp_step.
  destruct (Z.ltb_spec 0 np) as [Hlt|Hge].
  - unfold vm_expand_brk. do 2 wp_step. unfold vm_find_region. wp_step.
    eapply (wp_vm_search _ _ _ _ (page_of (brk s)) 1); [exact HL|lia|done|done|lia| | |].
    { pose proof (page_of_spec (brk s)). lia. }
    { intros Hno. destruct (Hno a r (elem_mid _ _ _)). pose proof (page_of_spec (brk s)). unfold touches. lia. }
    intros b q Hq Ht.
    assert ((b, q) = (a, r)) as [= -> ->].
    { apply elem_mid_inv in Hq as [Hq|Hq]; [done|]. exfalso. apply (ordered_apart _ _ _ _ _ _ (layout_ordered HL) Hq).
      pose proof (page_of_spec (brk s)). pose proof (page_of_spec (base r)).
      pose proof (fits_aligned _ Hf) as Hal. rewrite page_size in Hal.
      assert (base r <= page_of (brk s)).
      { unfold page_of, PAGE_SIZE in *. pose proof (Z.div_mod (base r) 4096). pose proof (Z.div_mod (brk s) 4096).
        pose proof (Z.div_le_mono (base r) (brk s) 4096). lia. }
      unfold touches in *. lia. }
    wp_step. wp_step; [done|]. wp_step. eapply (stage_get _ HS0); [apply elem_mid|].
    unfold rsize in Hsz. rewrite u64_small, pages_to_size_small by lia.
    eapply grow_mapping; [exact HS|lia|lia|done|done| |].
    + intros Hno st Hst. cbn iota. rewrite (proj2 (Z.ltb_lt _ _)) by lia. wp_step. by apply Q0.
    + intros s' HS' _. change (0 <? 0) with false. cbn iota. wp_step. wp_step. wp_step.
      eapply Q1; [by apply space_brk|done| |].
      * split; simpl; [lia|]. unfold rend. simpl. unfold rend in *. rewrite page_size in *. lia.
      * intros x p. rewrite !mapped_mid. unfold rend. simpl. unfold rend in *. rewrite page_size in *.
        split; [intros [[Hx <-]|Hx]; [destruct (decide (x < base r + 4096 * pages r)); [left; left|right]; (split; [lia|done])|by left; right]|].
        intros [[[Hx <-]|Hx]|[Hx ->]]; [left; (split; [lia|done])|by right|left; (split; [lia|done])].
  - assert (np = 0) as -> by (pose proof (page_up_spec (brk s)); lia). wp_step. change (0 <? 0) with false. cbn iota.
    wp_step. wp_step. wp_step. eapply (Q1 _ r); [by apply space_brk|done|split; lia|]. intros x p. split; [by left|].
    intros [Hx|[Hx _]]; [done|lia].
Qed.
End brk.

(** ** The end of an address space *)

Section destroy.
Context {FS : Type} `{FramesLaws FS} (ext fx : Z → Z).
Implicit Types (s : mm FS) (R : rlist).

(** The state while the regions are taken away, first to last: the tree need not be
    balanced any more. *)
Record ending (n : Z) s R : Prop := Ending {
  en_tree : ∃ t, rep (region_tree s) t ∧ elems t = R.*1;
  en_regs : ∀ a r, (a, r) ∈ R → regions s !! a = Some r;
  en_fits : ∀ a r, (a, r) ∈ R → fits r;
  en_some : ∀ a r, (a, r) ∈ R → is_Some (vmo r);
  en_backed : backed ext n s (claims_of R);
  en_virtual : virtual_memory_size s = u64 (over rsize R);
  en_shared : shared_set_size s = u64 (over shared_size R);
  en_files : ∀ f, default 0 (file_refs s !! f) = fx f + over (file_claim f) R;
}.

Lemma space_ending n s R : space ext fx n s R → ending n s R.
Proof.
  intros [[[(t & Hr & _ & HL & _) L2 L3 L4 L5] S2 S3 S4 S5 S6] Hbk]. split; try done. by exists t.
Qed.

Lemma rep_frame t t' T :
  rep t T → root t' = root t → (∀ a, a ∈ elems T → nodes t' !! a = nodes t !! a) → rep t' T.
Proof. intros (Hr & Ht & Hn) E Hs. split; [simpl in *; congruence|]. split; [|done]. by eapply tree_at_frame. Qed.

Lemma over_cons g a r R : over g ((a, r) :: R) = g r + over g R.
Proof. done. Qed.

(** The first region goes; its node is out of the tree [T] already. *)
Section first.
Context (n : Z) (s0 : mm FS) (a : Z) (r : vm_region) (R : rlist) (T : bst).
Context (HE : ending n s0 ((a, r) :: R)) (Hni : a ∉ R.*1) (Hn : 1 <= n)
        (HT : ∃ t, rep T t ∧ elems t = R.*1).

Lemma first_facts : regions s0 !! a = Some r ∧ fits r ∧ is_Some (vmo r) ∧ is_higher_half (base r) = false.
Proof.
  assert ((a, r) ∈ (a, r) :: R) as Hin by by left. pose proof (en_fits _ _ _ HE _ _ Hin) as Hf.
  split_and!; [exact (en_regs _ _ _ HE _ _ Hin)|done|exact (en_some _ _ _ HE _ _ Hin)|].
  pose proof (fits_bounds _ Hf). pose proof (fits_end _ Hf). unfold is_higher_half. rewrite higher_half in *. lia.
Qed.

(** The counters are right already; [F] files are still held. *)
Record partway (F : Z → Z) s : Prop := Partway {
  pw_regs : regions s = regions s0;
  pw_tree : region_tree s = T;
  pw_backed : backed ext n s (claims_of ((a, r) :: R));
  pw_virtual : virtual_memory_size s = u64 (over rsize R);
  pw_shared : shared_set_size s = u64 (over shared_size R);
  pw_files : ∀ f, default 0 (file_refs s !! f) = fx f + F f;
}.

Lemma first_object s (Q : unit → mm FS → Prop) :
  partway (λ f, over (file_claim f) R) s →
  (∀ s', ending n s' R → regions s' = delete a (regions s0) → Q tt s') →
  wp (match vmo r with
      | None => mret tt
      | Some v =>
          o ← in_objects (get_obj v);
          (if (vo_refcount o =? 1) && (negb (is_mapping_shared r) && negb (is_higher_half (base r)))
           then remove_vmo_from_private_list v else mret tt);;
          in_objects (vmo_remove_mapping v a);;
          in_objects (vmo_unref 2 v);;
          mret tt
      end;; vm_free_vmregion a) Q s.
Proof.
  intros [R3 T3 B3 V3 S3 F3] HQ. destruct first_facts as (Ha & Hf & [v Hv] & Hhh). rewrite Hv, Hhh. wp_step.
  change (claims_of ((a, r) :: R)) with (claim_of r :: claims_of R) in B3. unfold claim_of in B3. rewrite Hv in B3.
  eapply (bk_drop ext n s (claims_of R) v (is_mapping_shared r)); [exact B3|done|]. intros s4 Hb HB4.
  unfold vm_free_vmregion. wp_step.
  assert (region_tree s4 = T ∧ regions s4 = regions s0 ∧ virtual_memory_size s4 = virtual_memory_size s ∧
    shared_set_size s4 = shared_set_size s ∧ file_refs s4 = file_refs s) as (T4 & R4 & V4 & S4 & F4).
  { unfold behind in Hb. rewrite Hb. simpl. by rewrite R3, T3. }
  destruct HE as [_ E2 E3 E4 _ _ _ _]. destruct HT as (t & Hr & Ht).
  apply HQ; [|simpl; by rewrite R4]. split; simpl; rewrite ?R4, ?V4, ?S4, ?F4; try done.
  - exists t. split; [|done]. eapply rep_frame; [exact Hr|simpl; by rewrite T4|]. intros b Hb'. simpl. rewrite T4.
    rewrite lookup_delete_ne; [done|]. intros <-. by rewrite Ht in Hb'.
  - intros b q Hq. rewrite lookup_delete_ne; [by apply E2; right|]. intros <-. destruct Hni. apply list_elem_of_fmap.
    by exists (a, q).
  - intros b q Hq. eapply E3. by right.
  - intros b q Hq. eapply E4. by right.
  - by eapply backed_same.
Qed.

Lemma first_destroy s (Q : unit → mm FS → Prop) :
  partway (λ f, over (file_claim f) ((a, r) :: R)) s →
  (∀ s', ending n s' R → regions s' = delete a (regions s0) → Q tt s') →
  wp (vm_region_destroy a) Q s.
Proof.
  intros [R2 T2 B2 V2 S2 F2] HQ. destruct first_facts as (Ha & Hf & Hv & Hhh). unfold vm_region_destroy. wp_step.
  eapply wp_get_region; [by rewrite R2|]. wp_step. destruct (fd r) as [g|] eqn:Hg.
  - unfold fd_put. wp_step. apply first_object; [|done]. split; try done; [by eapply backed_same|]. intros f. simpl.
    specialize (F2 f). rewrite over_cons, file_claim_alt, Hg in F2. destruct (decide (f = g)) as [->|].
    + rewrite lookup_insert_eq, holds_same in *. simpl. lia.
    + rewrite lookup_insert_ne, holds_ne in * by done. lia.
  - wp_step. apply first_object; [|done]. split; try done. intros f. rewrite F2, over_cons, file_claim_alt, Hg. lia.
Qed.

(** What [vm_destroy_area] does once the pages are unmapped. *)
Lemma first_area (Q : unit → mm FS → Prop) :
  (∀ s', ending n s' R → regions s' = delete a (regions s0) → Q tt s') →
  wp (increment_virtual (- region_size r);;
      (if is_mapping_shared r then increment_shared (- region_size r) else mret tt);;
      vm_region_destroy a) Q (with_tree T s0).
Proof.
  intros HQ. destruct first_facts as (Ha & Hf & Hv & Hhh). pose proof HE as [_ _ _ _ E5 E6 E7 E8].
  rewrite over_cons in E6, E7. unfold shared_size at 1 in E7. unfold rsize in E6 at 1.
  rewrite (region_size_fits _ Hf).
  unfold increment_virtual, increment_shared. do 3 wp_step. destruct (is_mapping_shared r) eqn:Es; wp_step.
  - apply first_destroy; [|done]. split; simpl; try done.
    + by eapply backed_same.
    + rewrite E6, u64_add_l. f_equal. lia.
    + rewrite E7, u64_add_l. f_equal. unfold rsize. lia.
  - apply first_destroy; [|done]. split; simpl; try done.
    + by eapply backed_same.
    + rewrite E6, u64_add_l. f_equal. lia.
Qed.
End first.
End destroy.
