(* ===== verification/VmProps.v ===== *)
(** * VmProps: what the system calls on memory do to an address space.

    Each theorem starts from any address space that satisfies the invariant [space] and
    says which bytes are mapped afterwards, with which protection, and that the invariant
    (sizes, object and file references, private list) holds again.  Kernel memory does not
    run out. *)

From S2P Require Import Prelude Bits Abi DList PageAlloc PageProps Frames VmObject VmObjectFacts.
From S2P Require Import VmObjectLife VmObjectPurge VmObjectProps VmBacking Wavl WavlHeap.
From S2P Require Import WavlCalls WavlProps Vm VmLayout VmPrivate VmSpace VmUnmap VmProtect.
From S2P Require Import VmMap VmLife.

(** What the address space relies on for the [free_page] operation of file systems. *)
Record file_frees {FS} `{Frames FS} (ext : Z → Z) (free_other : Z → Z → M (world FS) unit) : Prop := FileFrees {
  ff_drops : drops free_other;
  ff_calm : ∀ v p, lucky ext (λ _, True) (free_other v p);
}.

(** ** An address space with nothing in it *)

Definition start_world : world mem := World two_refs ∅ ∅ 1 [].
Definition start_space : mm mem :=
  Mm (Bst None ∅) ∅ 1 4096 (2 ^ 47) 65536 0 0 0 None None ∅ ∅ ∅ (2 ^ 40) start_world.
Definition nothing : Z → Z := λ _, 0.
Definition drop_page : Z → Z → M (world mem) unit := λ _ p, free_page p.

Lemma drop_page_frees : file_frees nothing drop_page.
Proof.
  split.
  - intros v pins w p n o Q Ho Hi Hp Hr Hn HQ. unfold ops_free_page. rewrite Ho.
    eapply wp_free_frame; [exact Hi|exact Hp|exact Hr|exact Hn|]. intros f Hi' Hr'. by apply HQ.
  - intros v p. apply lucky_free_page.
Qed.

Lemma start_sound n : n < 2 ^ 62 → sound nothing n start_world.
Proof.
  intros Hn. split.
  - exists (λ q, 2 * holds_page q 4). split.
    + exact two_refs_inv.
    + intros p. change (page_refs two_refs p = slots start_world p + 2 * holds_page p 4).
      rewrite two_refs_counts. unfold slots. simpl. rewrite total_empty. lia.
    + intros p. pose proof (holds_nonneg p 4). lia.
    + intros v o c Hv. simpl in Hv. by rewrite lookup_empty in Hv.
    + intros v [o Hv]. simpl in Hv. by rewrite lookup_empty in Hv.
  - split; intros *; simpl; rewrite ?lookup_empty; unfold nothing; try done; lia.
  - intros p. change (page_refs two_refs p + n < 2 ^ 64). rewrite two_refs_counts. unfold holds_page. case_match; lia.
  - intros x ox Hx. simpl in Hx. by rewrite lookup_empty in Hx.
  - intros x ox Hx. simpl in Hx. by rewrite lookup_empty in Hx.
Qed.

Lemma start_ok n : n < 2 ^ 62 → space nothing nothing n start_space [].
Proof.
  intros Hn. split; [|by intros * ?%not_elem_of_nil]. split; try done.
  - split; simpl; try (by intros * ?%not_elem_of_nil).
    + exists WavlTree.Leaf. split_and!; try done. split; [done|]. split; [done|]. apply NoDup_nil_2.
    + constructor.
    + done.
  - split; simpl; try done.
    + eapply sound_ext; [|by apply start_sound]. done.
    + by intros * ?%not_elem_of_nil.
    + by intros * ?%not_elem_of_nil.
    + exists []. split; [|intros v; by rewrite !elem_of_nil]. split; [done..|].
      split; [apply NoDup_nil_2|by intros [|] v L2..].
Qed.

(** ** Helpers *)

Lemma aligned_ok x : x mod 4096 = 0 → has x (PAGE_SIZE - 1) = false.
Proof. intros E. unfold has, truthy. change (PAGE_SIZE - 1) with 4095. by rewrite land_low_page, E. Qed.

Lemma low_half x k : 1 <= k → x + 4096 * k <= VM_HIGHER_HALF → is_higher_half x = false.
Proof. intros ? ?. unfold is_higher_half. lia. Qed.

Lemma space_mono {FS} `{FramesLaws FS} ext fx n m (s : mm FS) R : m <= n → space ext fx n s R → space ext fx m s R.
Proof. intros Hle [[] Hbk]. split; [|done]. split; try done. by eapply backed_mono. Qed.

(** Regions are told by their bytes: none straddles an address below which nothing is mapped. *)
Lemma no_straddle_below {FS} `{FramesLaws FS} ext fx n (s : mm FS) R b k :
  space ext fx n s R → (∀ x p, mapped R x p → b <= x) → no_straddle b k R.
Proof.
  intros [HS _] Hb a r Hr Hlt _. pose proof (fits_bounds _ (lay_fits _ _ _ _ (st_laid _ _ _ _ _ _ _ _ _ HS) _ _ Hr)).
  specialize (Hb (base r) (rwx r)). exfalso. assert (b <= base r); [|lia]. apply Hb. exists a, r. split_and!; try done; lia.
Qed.

(** A call of mmap without a file goes straight to [vm_mmap]. *)
Lemma wp_sys_mmap_anonymous {FS} `{FramesLaws FS} free_other f_ino i_pages is_device device_mmap
    fd_may_write get_file fd_may_read (s : mm FS) addr len prot flags fdno off (Q : Z → mm FS → Prop) :
  len ≠ 0 → off mod 4096 = 0 → 0 <= off → has flags MAP_ANONYMOUS = true →
  has flags MAP_PRIVATE = negb (has flags MAP_SHARED) →
  wp (vm_mmap free_other f_ino i_pages is_device device_mmap addr len prot flags None off)
    (λ ret, Q (match ret with inl e => u64 (- e) | inr p => p end)) s →
  wp (sys_mmap free_other fd_may_write f_ino i_pages is_device device_mmap get_file fd_may_read
    addr len prot flags fdno off) Q s.
Proof.
  intros Hl Hoff Hoff0 Han Hps Hw. unfold sys_mmap. rewrite (proj2 (Z.eqb_neq _ _)) by done.
  rewrite Hps, Han, negb_involutive, Z.rem_mod_nonneg, page_size, Hoff by (done || lia).
  destruct (has flags MAP_SHARED); cbn [negb andb Z.eqb]; wp_step; exact Hw.
Qed.

(** ** Properties *)



(** Anonymous mmap with MAP_FIXED replaces what was mapped in the range: afterwards the
    bytes of the range have the new protection and all others what they had; if only the
    limit on the size of the address space is in the way, the range is left unmapped and
    the call returns -ENOMEM. *)
Theorem mmap_fixed_exact {FS} `{FramesLaws FS} ext fx free_other f_ino i_pages is_device device_mmap
    fd_may_write get_file fd_may_read n (s : mm FS) R addr len k prot flags fdno off :
  file_frees ext free_other → space ext fx n s R → 3 <= n < 2 ^ 64 →
  0 < addr → addr mod 4096 = 0 → addr + 4096 * k <= VM_HIGHER_HALF → 4096 * k < 2 ^ 47 → no_straddle addr k R →
  vm_size_to_pages len = k → 1 <= k → len ≠ 0 → off mod 4096 = 0 → 0 <= off →
  has flags MAP_ANONYMOUS = true → has flags MAP_FIXED = true →
  has flags MAP_PRIVATE = negb (has flags MAP_SHARED) →
  ∃ b s' R', sys_mmap free_other fd_may_write f_ino i_pages is_device device_mmap get_file fd_may_read
      addr len prot flags fdno off s = Done (b, s') ∧
    space ext fx (n - 2) s' R' ∧ settings s' = settings s ∧
    (∀ x p, ¬ (addr <= x < addr + 4096 * k) → mapped R' x p ↔ mapped R x p) ∧
    (∀ x p, addr <= x < addr + 4096 * k → mapped R' x p ↔ b = addr ∧ p = mmap_prot prot) ∧
    (b = addr ∨ (b = u64 (- ENOMEM) ∧ rlimit_as s < over rsize R' + 4096 * k)).
Proof.
  intros [Hd Hc] HS Hn Hpos Hal Hend Hsz Hns Hlen Hk Hl0 Hoff Hoff0 Han Hfx Hps.
  pose proof Hend as Hend'. rewrite higher_half in Hend'.
  assert (addr ≠ u64 (- ENOMEM)) as Hne by (change (u64 (- ENOMEM)) with (2 ^ 64 - 12); lia).
  assert (wp (sys_mmap free_other fd_may_write f_ino i_pages is_device device_mmap get_file fd_may_read
    addr len prot flags fdno off) (λ b s', ∃ R', space ext fx (n - 2) s' R' ∧ settings s' = settings s ∧
    (∀ x p, ¬ (addr <= x < addr + 4096 * k) → mapped R' x p ↔ mapped R x p) ∧
    (∀ x p, addr <= x < addr + 4096 * k → mapped R' x p ↔ b = addr ∧ p = mmap_prot prot) ∧
    (b = addr ∨ (b = u64 (- ENOMEM) ∧ rlimit_as s < over rsize R' + 4096 * k))) s) as Hw.
  { apply wp_sys_mmap_anonymous; [done..|].
    eapply (wp_vm_mmap_fixed ext fx free_other Hd Hc f_ino i_pages is_device device_mmap n s R addr len k);
      [done..|by apply aligned_ok|done|done| |].
    - intros s' R' Hlim HS' Hset Hmap. exists R'.
      split_and!; [by eapply space_mono; [|done]; lia|done|intros x p Hx; rewrite Hmap; tauto| |by right].
      intros x p Hx; rewrite Hmap; naive_solver.
    - intros s' R' HS' Hset Hmap. exists R'. split_and!; [done|done|intros x p Hx; rewrite Hmap; tauto| |by left].
      intros x p Hx; rewrite Hmap; naive_solver. }
  apply wp_done in Hw as (b & s' & E & R' & Hs). by exists b, s', R'.
Qed.

(** The protection that mprotect gives pages. *)
Definition mprotect_prot (prot : Z) : Z :=
  if has prot PROT_WRITE then Z.lor (prot_to_vm prot) VM_READ else prot_to_vm prot.


(** Growing the program break by brk: when the pages behind the heap region are free and
    the limit allows it, the call returns the new break, and exactly the pages needed for
    it are added behind the region, with its protection; otherwise it returns -ENOMEM and
    changes nothing.  The break stays inside the heap region, with a page to spare. *)
Theorem brk_grows {FS} `{FramesLaws FS} ext fx free_other n (s : mm FS) R1 a r R2 newbrk np :
  file_frees ext free_other → space ext fx n s (R1 ++ (a, r) :: R2) → 1 <= n →
  heap_ok (brk s) r → 0 < newbrk → brk s <= newbrk → page_up newbrk = page_up (brk s) + 4096 * np →
  rend r + 4096 * np <= VM_HIGHER_HALF → rsize r + 4096 * np < 2 ^ 47 →
  (no_growth s (R1 ++ (a, r) :: R2) r np ∧ sys_brk free_other newbrk s = Done (u64 (- ENOMEM), s)) ∨
  (∃ s' r', sys_brk free_other newbrk s = Done (newbrk, s') ∧ brk s' = newbrk ∧ heap_ok newbrk r' ∧
    space ext fx n s' (R1 ++ (a, r') :: R2) ∧ grown (R1 ++ (a, r) :: R2) (R1 ++ (a, r') :: R2) r np).
Proof.
  intros [Hd Hc] HS Hn Hh Hpos Hle Hnp Hend Hsz.
  assert (wp (sys_brk free_other newbrk) (λ v s',
    (no_growth s (R1 ++ (a, r) :: R2) r np ∧ v = u64 (- ENOMEM) ∧ s' = s) ∨
    (v = newbrk ∧ ∃ r', brk s' = newbrk ∧ heap_ok newbrk r' ∧ space ext fx n s' (R1 ++ (a, r') :: R2) ∧
      grown (R1 ++ (a, r) :: R2) (R1 ++ (a, r') :: R2) r np)) s) as Hw.
  { eapply wp_sys_brk_grow; [exact Hd|exact Hc|exact HS|done..| |].
    - intros Hno. by left.
    - intros s' r' HS' Hb Hh' Hg. right. split; [done|]. by exists r'. }
  apply wp_done in Hw as (v & s' & E & [(Hno & -> & ->)|(-> & r' & Hr)]); [by left|right]. by exists s', r'.
Qed.

(** ** The properties at work *)

(** Four pages of memory that can be read and written, in an otherwise empty space. *)
Definition mmap_at (addr flags : Z) : M (mm mem) Z :=
  sys_mmap drop_page (λ _, true) (λ _, 0) (λ _, 0) (λ _, false) (λ _, None)
    (λ _, inl EBADF) (λ _, true) addr 16384 3 (Z.lor MAP_PRIVATE (Z.lor MAP_ANONYMOUS flags)) 0 0.

Lemma one_mapping : ∃ s R, mmap_at 0 0 start_space = Done (65536, s) ∧ space nothing nothing (2 ^ 40) s R ∧
  settings s = settings start_space ∧ ∀ x p, mapped R x p ↔ 65536 <= x < 81920 ∧ p = mmap_prot 3.
Proof.
  assert (wp (mmap_at 0 0) (λ b s, ∃ R, space nothing nothing (2 ^ 40) s R ∧ settings s = settings start_space ∧
    extended [] R b 4 (mmap_prot 3)) start_space) as Hw.
  { apply wp_sys_mmap_anonymous; [done..|].
    eapply (wp_vm_mmap_anywhere nothing nothing drop_page _ _ _ _ (2 ^ 40 + 1) start_space [] 16384 4);
      [by apply start_ok|done| |by intros a r ?%not_elem_of_nil|done..| |].
    - right. split_and!; [done|by intros a r ?%not_elem_of_nil|]. intros _. by intros a r ?%not_elem_of_nil.
    - intros Hlim. exfalso. unfold over in Hlim. simpl in Hlim. lia.
    - intros b s' R' _ _ _ HS' Hset Hext. by exists R'. }
  apply wp_done in Hw as (b & s & E & R & HS & Hset & Hext). exists s, R.
  assert (b = 65536) as ->.
  { assert (match mmap_at 0 0 start_space with Done (b, _) => b | _ => 0 end = 65536) as Eb by by vm_compute.
    by rewrite E in Eb. }
  split_and!; [exact E|done|done|]. intros x p. rewrite (Hext x p), mapped_nil.
  replace (65536 + 4096 * 4) with 81920 by lia. tauto.
Qed.

(** The region of the first byte. *)
Lemma one_region s R : space nothing nothing (2 ^ 40) s R → (∀ x p, mapped R x p ↔ 65536 <= x < 81920 ∧ p = mmap_prot 3) →
  ∃ a r, (a, r) ∈ R ∧ fits r ∧ base r = 65536 ∧ 69632 <= rend r <= 81920.
Proof.
  intros [HS _] Hmap. destruct (proj2 (Hmap 65536 (mmap_prot 3))) as (a & r & Hr & Hx & Hp); [split; [lia|done]|].
  pose proof (lay_fits _ _ _ _ (st_laid _ _ _ _ _ _ _ _ _ HS) _ _ Hr) as Hf. pose proof (fits_bounds _ Hf).
  exists a, r. destruct (proj1 (Hmap (base r) (rwx r))) as [H1 _]; [by exists a, r; split_and!; [|lia..|]|].
  destruct (proj1 (Hmap (rend r - 1) (rwx r))) as [H2 _]; [by exists a, r; split_and!; [|lia..|]|].
  split_and!; [done|done|lia| |lia]. lia.
Qed.



Lemma mmap_fixed_exact_witness : ∃ s b s' R', mmap_at 0 0 start_space = Done (65536, s) ∧
  mmap_at 65536 MAP_FIXED s = Done (b, s') ∧ ∀ p, mapped R' 70000 p ↔ b = 65536 ∧ p = mmap_prot 3.
Proof.
  destruct one_mapping as (s & R & E & HS & Hset & Hmap). exists s.
  destruct (mmap_fixed_exact nothing nothing drop_page (λ _, 0) (λ _, 0) (λ _, false) (λ _, None) (λ _, true)
    (λ _, inl EBADF) (λ _, true) (2 ^ 40) s R 65536 16384 4 3 (Z.lor MAP_PRIVATE (Z.lor MAP_ANONYMOUS MAP_FIXED)) 0 0
    drop_page_frees HS) as (b & s' & R' & E' & _ & _ & _ & Hin & _); try done.
  - eapply no_straddle_below; [exact HS|]. intros x p [Hx _]%Hmap. lia.
  - exists b, s', R'. split_and!; [done|exact E'|]. intros p. apply Hin. lia.
Defined.


Lemma brk_grows_witness : ∃ s, mmap_at 0 0 start_space = Done (65536, s) ∧
  ∃ v s', sys_brk drop_page 65537 (with_brk 65536 s) = Done (v, s').
Proof.
  destruct one_mapping as (s & R & E & HS & Hset & Hmap). exists s. split; [done|].
  destruct (one_region s R HS Hmap) as (a & r & Hr & Hf & Hb & He).
  apply list_elem_of_split in Hr as (R1 & R2 & ->).
  destruct (brk_grows nothing nothing drop_page (2 ^ 40) (with_brk 65536 s) R1 a r R2 65537 1 drop_page_frees
    (space_brk _ _ _ _ _ 65536 HS)) as [[_ Hd]|(s' & r' & Hd & _)]; try done.
  - split; [simpl; lia|]. change (page_up (brk (with_brk 65536 s))) with 65536. lia.
  - rewrite higher_half. lia.
  - unfold rsize. lia.
  - by eexists _, _.
  - by eexists _, _.
Defined.

(** ** Where the code falls short *)

Definition mmap_len (addr len flags : Z) : M (mm mem) Z :=
  sys_mmap drop_page (λ _, true) (λ _, 0) (λ _, 0) (λ _, false) (λ _, None)
    (λ _, inl EBADF) (λ _, true) addr len 3 (Z.lor MAP_ANONYMOUS flags) 0 0.

(** munmap of a range that starts inside a region and ends behind it asks for more bytes
    than the region has, and the kernel asserts. *)
Lemma munmap_past_end_asserts :
  (_ ← mmap_at 0 0; sys_munmap drop_page 77824 8192) start_space = Fault AssertFailed.
Proof. by vm_compute. Qed.

(** A region around the base for mappings makes the next mmap return the base itself,
    which is taken: the kernel panics. *)
Lemma mmap_around_base_panics :
  (_ ← mmap_at 61440 MAP_FIXED; mmap_at 0 0) start_space = Fault KernelPanic.
Proof. by vm_compute. Qed.

(** So do four mappings of one page each. *)
Lemma four_pages_panic :
  (_ ← mmap_len 0 4096 MAP_PRIVATE; _ ← mmap_len 0 4096 MAP_PRIVATE; _ ← mmap_len 0 4096 MAP_PRIVATE;
   mmap_len 0 4096 MAP_PRIVATE) start_space = Fault KernelPanic.
Proof. by vm_compute. Qed.

(** mprotect over two neighbouring mappings finds the first one again for the second part
    and makes no progress, entering an empty region each time round. *)
Lemma mprotect_two_stuck :
  (_ ← mmap_at 0 0; _ ← mmap_at 0 0; sys_mprotect (λ _, true) 64 65536 32768 PROT_READ) start_space =
  Fault OutOfFuel.
Proof. by vm_compute. Qed.

(** The break may be moved below the heap; growing it afterwards asserts. *)
Lemma brk_below_heap_asserts :
  (_ ← vm_create_brk drop_page (λ _, 0) (λ _, 0) (λ _, false) (λ _, None) 1048576;
   _ ← sys_brk drop_page 1; sys_brk drop_page 8192) start_space = Fault AssertFailed.
Proof. by vm_compute. Qed.

(** The check of mprotect on shared mappings of files looks for PROT_WRITE among the flags
    of the VM, where that bit means something else: a file that was opened for reading
    becomes writable in memory. *)
Definition file_space : mm mem :=
  with_objects (World two_refs ∅ {[1 := set_vops VMO_BACKED other_ops file_object]} 2 []) start_space.

Lemma mprotect_read_only_file :
  match (_ ← sys_mmap drop_page (λ _, false) (λ _, 7) (λ _, 1) (λ _, false) (λ _, None) (λ _, inr 5) (λ _, true)
           0 4096 PROT_READ MAP_SHARED 3 0;
         sys_mprotect (λ _, false) 8 65536 4096 (Z.lor PROT_READ PROT_WRITE)) file_space with
  | Done (v, s) => v = 0 ∧ (λ r, (fd r, has (rwx r) VM_WRITE)) <$> (regions s !! 1) = Some (Some 5, true)
  | Fault _ => False
  end.
Proof. by vm_compute. Qed.
