(* ===== verification/PageTable.v ===== *)
(** * PageTable: the page tables of an address space on x86-64

    [arch/x86_64/mmu.cpp] with [arch/x86_64/pat.cpp]: mapping a page, changing its
    protection and unmapping a range in four levels of tables, with the accounting of
    resident pages and of tables, and the ranges the TLB is told to forget.  A table is a
    page of memory with 512 entries, at its physical address; the pages for new tables come
    from a supply, which stands for [alloc_page].  The page-table lock is held throughout. *)

From S2P Require Import Prelude Abi Bits PageAlloc Vm.

Definition VM_NOCACHE : Z := 8.
Definition VM_WRITETHROUGH : Z := 16.
Definition VM_WC : Z := 32.
Definition VM_WP : Z := 64.
Definition VM_DONT_MAP_OVER : Z := 128.

Definition x86_paging_levels : nat := 4.
Definition PAGE_TABLE_ENTRIES : Z := 512.
Definition X86_PAGING_PRESENT : Z := 1.
Definition X86_PAGING_WRITE : Z := 2.
Definition X86_PAGING_USER : Z := 4.
Definition X86_PAGING_WRITETHROUGH : Z := 8.
Definition X86_PAGING_PCD : Z := 16.
Definition X86_PAGING_ACCESSED : Z := 32.
Definition X86_PAGING_DIRTY : Z := 64.
Definition X86_PAGING_PAT : Z := 128.
Definition X86_PAGING_HUGE : Z := 128.
Definition X86_PAGING_GLOBAL : Z := 256.
Definition X86_PAGING_NX : Z := 2 ^ 63.

Definition PML_EXTRACT_ADDRESS (n : Z) : Z := Z.land n 0x0FFFFFFFFFFFF000.
Definition X86_CACHING_BITS (index : Z) : Z :=
  Z.lor (Z.shiftl (Z.land index 3) 3) (Z.shiftl (Z.land (Z.shiftr index 2) 1) 7).

(** ** The state of an address space *)

Record ptables : Type := PTables {
  pt_mem : gmap Z (list Z);
  cr3 : Z;
  resident_set_size : Z;
  page_tables_size : Z;
  supply : list Z;
  allocated_page_tables : Z;
  invalidated : list (Z * Z)
}.
Abbreviation PT := (M ptables).

Definition set_pt_mem (m : gmap Z (list Z)) (x : ptables) : ptables :=
  PTables m (cr3 x) (resident_set_size x) (page_tables_size x) (supply x) (allocated_page_tables x) (invalidated x).
Definition set_resident (n : Z) (x : ptables) : ptables :=
  PTables (pt_mem x) (cr3 x) n (page_tables_size x) (supply x) (allocated_page_tables x) (invalidated x).
Definition set_tables_size (n : Z) (x : ptables) : ptables :=
  PTables (pt_mem x) (cr3 x) (resident_set_size x) n (supply x) (allocated_page_tables x) (invalidated x).
Definition set_supply (m : gmap Z (list Z)) (l : list Z) (n : Z) (x : ptables) : ptables :=
  PTables m (cr3 x) (resident_set_size x) (page_tables_size x) l n (invalidated x).
Definition add_invalidated (r : Z * Z) (x : ptables) : ptables :=
  PTables (pt_mem x) (cr3 x) (resident_set_size x) (page_tables_size x) (supply x) (allocated_page_tables x)
    (invalidated x ++ [r]).

(** An entry of a table. *)
Definition read_entry (table i : Z) : PT Z :=
  m ← gets pt_mem;
  es ← from_opt (m !! table) UseAfterFree;
  from_opt (aget es i) OutOfBounds.

Definition write_entry (table i e : Z) : PT unit :=
  m ← gets pt_mem;
  es ← from_opt (m !! table) UseAfterFree;
  es ← from_opt (aset es i e) OutOfBounds;
  modify (set_pt_mem (<[table := es]> m)).

Definition add_resident (n : Z) : PT unit := modify (λ x, set_resident (u64 (resident_set_size x + n)) x).
Definition add_tables_size (n : Z) : PT unit := modify (λ x, set_tables_size (u64 (page_tables_size x + n)) x).

Definition x86_pte_empty (pte : Z) : bool := pte =? 0.

(** A page of zeroes, if there is memory. *)
Definition alloc_pt : PT (option Z) :=
  x ← gets id;
  match supply x with
  | [] => mret None
  | page :: rest =>
      modify (set_supply (<[page := replicate 512 0]> (pt_mem x)) rest (u64 (allocated_page_tables x + 1)));;
      mret (Some page)
  end.

(** [free_page] of the page of a table, with the count of tables. *)
Definition free_pt (page : Z) : PT unit :=
  modify (λ x, set_supply (delete page (pt_mem x)) (page :: supply x) (u64 (allocated_page_tables x - 1)) x).

(** ** Walking down *)

Definition addr_get_index (virt : Z) (pt_level : nat) : Z :=
  Z.land (Z.shiftr (Z.shiftr virt 12) (Z.of_nat pt_level * 9)) 0x1ff.

(** [x86_get_pt_entry]: the table of the last level, and the index in it.  [n] levels are left. *)
Fixpoint get_pt_entry_from (n : nat) (virt pml : Z) : PT (option (Z * Z)) :=
  match n with
  | O => mret (Some (pml, addr_get_index virt 0))
  | S n' =>
      entry ← read_entry pml (addr_get_index virt n);
      if has entry X86_PAGING_PRESENT then get_pt_entry_from n' virt (PML_EXTRACT_ADDRESS entry)
      else mret None
  end.

Definition x86_get_pt_entry (addr : Z) : PT (option (Z * Z)) :=
  pml ← gets cr3;
  get_pt_entry_from (x86_paging_levels - 1) addr pml.

(** ** Protection *)

Definition vm_prot_to_cache_type (prot : Z) : Z :=
  if has prot VM_NOCACHE then 1
  else if has prot VM_WRITETHROUGH then 2
  else if has prot VM_WC then 3
  else if has prot VM_WP then 4
  else 0.

(** The table before and after [update_translation_table]. *)
Definition translation_table (pat : bool) : list Z :=
  if pat then [0; 2; 1; 4; 5; 3; 0; 0] else [0; 2; 1; 0; 0; 3; 0; 0].

Definition cache_to_paging_bits (pat : bool) (type : Z) : Z := default 0 (aget (translation_table pat) type).

(** The bits of an entry, as [paging_map_phys_to_virt] and [vm_mmu_mprotect_page] compute them. *)
Definition page_prots (pat : bool) (prot : Z) : Z :=
  let noexec := negb (has prot VM_EXEC) in
  let global := negb (has prot VM_USER) in
  let user := has prot VM_USER in
  let write := has prot VM_WRITE in
  let readable := has prot (Z.lor VM_READ VM_WRITE) || negb noexec in
  let caching_bits := cache_to_paging_bits pat (vm_prot_to_cache_type prot) in
  Z.lor (Z.lor (Z.lor (Z.lor (Z.lor (if noexec then X86_PAGING_NX else 0) (if global then X86_PAGING_GLOBAL else 0))
    (if user then X86_PAGING_USER else 0)) (if write then X86_PAGING_WRITE else 0))
    (X86_CACHING_BITS caching_bits)) (if readable then X86_PAGING_PRESENT else 0).

(** ** Mapping a page *)

(** The tables down to the last level, made where they are missing. *)
Fixpoint map_walk (n : nat) (virt page_table_flags pml : Z) : PT (option Z) :=
  match n with
  | O => mret (Some pml)
  | S n' =>
      entry ← read_entry pml (addr_get_index virt n);
      if has entry X86_PAGING_PRESENT then map_walk n' virt page_table_flags (PML_EXTRACT_ADDRESS entry)
      else
        check (entry =? 0) AssertFailed;;
        page ← alloc_pt;
        match page with
        | None => mret None
        | Some page =>
            add_tables_size 4096;;
            write_entry pml (addr_get_index virt n) (Z.lor page page_table_flags);;
            map_walk n' virt page_table_flags page
        end
  end.

(** [None] is the null pointer. *)
Definition paging_map_phys_to_virt (pat : bool) (virt phys prot : Z) : PT (option Z) :=
  let page_table_flags :=
    Z.lor (Z.lor X86_PAGING_PRESENT X86_PAGING_WRITE) (if has prot VM_USER then X86_PAGING_USER else 0) in
  pml ← gets cr3;
  last ← map_walk (x86_paging_levels - 1) virt page_table_flags pml;
  match last with
  | None => mret None
  | Some pml =>
      old ← read_entry pml (addr_get_index virt 0);
      if has prot VM_DONT_MAP_OVER && has old X86_PAGING_PRESENT then mret (Some virt)
      else
        write_entry pml (addr_get_index virt 0) (Z.lor phys (page_prots pat prot));;
        (if x86_pte_empty old then add_resident 4096 else mret tt);;
        mret (Some virt)
  end.

Definition vm_map_page := paging_map_phys_to_virt.

(** ** Changing the protection of a page *)

Definition paging_write_protect (addr : Z) : PT bool :=
  loc ← x86_get_pt_entry addr;
  match loc with
  | None => mret false
  | Some (pml, i) =>
      pte ← read_entry pml i;
      write_entry pml i (Z.ldiff pte X86_PAGING_WRITE);;
      mret true
  end.

Definition vm_mmu_mprotect_page (pat : bool) (addr old_prots new_prots : Z) : PT unit :=
  loc ← x86_get_pt_entry addr;
  match loc with
  | None => mret tt
  | Some (pml, i) =>
      pte ← read_entry pml i;
      if pte =? 0 then mret tt
      else
        let is_wp_page := negb (has pte X86_PAGING_WRITE) && has old_prots VM_WRITE in
        let new_prots := if is_wp_page then Z.ldiff new_prots VM_WRITE else new_prots in
        write_entry pml i (Z.lor (PML_EXTRACT_ADDRESS pte) (page_prots pat new_prots))
  end.

(** ** Unmapping a range *)

Record page_table_iterator : Type := Iterator {
  curr_addr_ : Z;
  length_ : Z
}.

Definition adjust_length (size : Z) (it : page_table_iterator) : page_table_iterator :=
  if length_ it <? size then Iterator (curr_addr_ it + 0) 0
  else Iterator (u64 (curr_addr_ it + size)) (length_ it - size).

Record tlb_invalidation_tracker : Type := Tracker {
  virt_start : Z;
  virt_end : Z;
  is_started : bool;
  is_flushed : bool
}.

Definition new_tracker : tlb_invalidation_tracker := Tracker 0 0 false false.

Definition tracker_flush (tr : tlb_invalidation_tracker) : PT tlb_invalidation_tracker :=
  if negb (is_started tr) then mret tr
  else
    modify (add_invalidated (virt_start tr, Z.shiftr (u64 (virt_end tr - virt_start tr)) 12));;
    mret (Tracker 0xDEADDAD 0xB0 false false).

Definition add_page (vaddr size : Z) (tr : tlb_invalidation_tracker) : PT tlb_invalidation_tracker :=
  if is_started tr && (virt_end tr =? vaddr)
  then mret (Tracker (virt_start tr) (u64 (vaddr + size)) (is_started tr) (is_flushed tr))
  else tracker_flush tr;; mret (Tracker vaddr (u64 (vaddr + size)) true false).

(** The destructor. *)
Definition tracker_end (tr : tlb_invalidation_tracker) : PT unit :=
  if is_started tr && negb (is_flushed tr) then tracker_flush tr;; mret tt else mret tt.

Definition PT_LEVEL : nat := 0.
Definition PD_LEVEL : nat := 1.
Definition PDPT_LEVEL : nat := 2.

Definition is_huge_page_level (pt_level : nat) : bool := (pt_level =? PDPT_LEVEL)%nat || (pt_level =? PD_LEVEL)%nat.
Definition level_to_entry_shift (level : nat) : Z := Z.of_nat level * 9 + 12.
Definition level_to_entry_size (level : nat) : Z := Z.shiftl 1 (level_to_entry_shift level).

Definition MMU_UNMAP_CAN_FREE_PML : Z := 1.
Definition MMU_UNMAP_OK : Z := 0.

Definition pml_is_empty (es : list Z) : bool := forallb (λ e, e =? 0) es.

Section unmap.
(** The call for the tables one level down. *)
Context (next_level : Z → page_table_iterator → PT (Z * page_table_iterator)).

(** One turn of the loop. *)
Definition unmap_entry (pt_level : nat) (table i : Z) (it : page_table_iterator) (tr : tlb_invalidation_tracker)
    : PT (page_table_iterator * tlb_invalidation_tracker) :=
  let entry_size := level_to_entry_size pt_level in
  pt_entry ← read_entry table i;
  if x86_pte_empty pt_entry then
    let to_skip := entry_size - Z.land (curr_addr_ it) (entry_size - 1) in
    mret (adjust_length to_skip it, tr)
  else if (pt_level =? PT_LEVEL)%nat || (is_huge_page_level pt_level && has pt_entry X86_PAGING_HUGE) then
    write_entry table i 0;;
    tr ← (if has pt_entry X86_PAGING_ACCESSED then add_page (curr_addr_ it) entry_size tr else mret tr);
    add_resident (- entry_size);;
    mret (adjust_length entry_size it, tr)
  else
    check (has pt_entry X86_PAGING_PRESENT) AssertFailed;;
    '(st, it) ← next_level (PML_EXTRACT_ADDRESS pt_entry) it;
    (if st =? MMU_UNMAP_CAN_FREE_PML then
       write_entry table i 0;;
       free_pt (PML_EXTRACT_ADDRESS pt_entry);;
       add_tables_size (- 4096)
     else mret tt);;
    mret (it, tr).

(** The turns for the entries from [i] on, [n] of them at most. *)
Fixpoint unmap_loop (n : nat) (pt_level : nat) (table i : Z) (it : page_table_iterator) (tr : tlb_invalidation_tracker)
    : PT (Z * page_table_iterator * tlb_invalidation_tracker) :=
  match n with
  | O => mret (i, it, tr)
  | S n =>
      if length_ it =? 0 then mret (i, it, tr)
      else
        '(it, tr) ← unmap_entry pt_level table i it tr;
        unmap_loop n pt_level table (i + 1) it tr
  end.
End unmap.

Fixpoint x86_mmu_unmap (pt_level : nat) (table : Z) (it : page_table_iterator) : PT (Z * page_table_iterator) :=
  let next_level := match pt_level with O => λ _ _, crash Unreachable | S l => x86_mmu_unmap l end in
  let index := addr_get_index (curr_addr_ it) pt_level in
  '(i, it, tr) ← unmap_loop next_level (Z.to_nat (PAGE_TABLE_ENTRIES - index)) pt_level table index it new_tracker;
  let unmapped_whole_table := (index =? 0) && (i =? PAGE_TABLE_ENTRIES) in
  m ← gets pt_mem;
  es ← from_opt (m !! table) UseAfterFree;
  tracker_end tr;;
  if negb (pt_level =? x86_paging_levels - 1)%nat && (unmapped_whole_table || pml_is_empty es)
  then mret (MMU_UNMAP_CAN_FREE_PML, it)
  else mret (MMU_UNMAP_OK, it).

Definition vm_mmu_unmap (addr pages : Z) : PT Z :=
  let size := u64 (Z.shiftl pages 12) in
  pml ← gets cr3;
  '(_, it) ← x86_mmu_unmap (x86_paging_levels - 1) pml (Iterator addr size);
  check (length_ it =? 0) AssertFailed;;
  mret 0.

(** The table at the root is given back; the count of tables stays. *)
Definition vm_free_arch_mmu (root : Z) : PT unit :=
  modify (λ x, set_supply (delete root (pt_mem x)) (root :: supply x) (allocated_page_tables x) x).
