(* ===== verification/PageTableFacts.v ===== *)
(** * PageTableFacts: trees of page tables

    The tables of an address space, by their level and the part of the address space they
    are for, and what one change to an entry does to them.  Then the walks down the tables: [x86_get_pt_entry] finds the
    entry of every page that is mapped, and [map_walk] makes the tables that are missing without a
    change to what the others map. *)

From S2P Require Import Prelude Abi Bits PageAlloc Vm PageTable.

(** ** Indices and addresses *)

(** The pages an entry of a table of level [l] is for. *)
Definition span (l : nat) : Z := 512 ^ Z.of_nat l.

Lemma span_0 : span 0 = 1.
Proof. done. Qed.
Lemma span_S l : span (S l) = 512 * span l.
Proof. unfold span. rewrite Nat2Z.inj_succ, Z.pow_succ_r by lia. done. Qed.
Lemma span_pos l : 0 < span l.
Proof. unfold span. apply Z.pow_pos_nonneg; lia. Qed.

Lemma index_of virt l : 0 <= virt → addr_get_index virt l = (virt / 4096 / span l) mod 512.
Proof.
  intros Hv. unfold addr_get_index, span. change 0x1ff with (Z.ones 9). rewrite Z.land_ones by lia.
  rewrite !Z.shiftr_div_pow2 by lia. change (2 ^ 12) with 4096. change (2 ^ 9) with 512.
  rewrite Z.mul_comm, Z.pow_mul_r by lia. done.
Qed.

Lemma entry_size_eq l : level_to_entry_size l = 4096 * span l.
Proof.
  unfold level_to_entry_size, level_to_entry_shift, span. rewrite Z.shiftl_1_l, Z.pow_add_r by lia.
  rewrite Z.mul_comm with (n := Z.of_nat l), Z.pow_mul_r by lia. change (2 ^ 9) with 512. change (2 ^ 12) with 4096. lia.
Qed.

Lemma land_entry_size addr l : Z.land addr (level_to_entry_size l - 1) = addr mod level_to_entry_size l.
Proof.
  unfold level_to_entry_size. rewrite Z.shiftl_1_l. rewrite <-Z.land_ones by (unfold level_to_entry_shift; lia).
  by rewrite Z.ones_equiv.
Qed.

Lemma div_span p l m : p / span l / span m = p / span (l + m).
Proof.
  unfold span. rewrite Z.div_div by (try apply Z.pow_pos_nonneg; lia). rewrite <-Z.pow_add_r by lia. do 2 f_equal. lia.
Qed.

(** The address in an entry. *)
Lemma extract_address f flags : f mod 4096 = 0 → 0 <= f < 2 ^ 52 → 0 <= flags < 4096 → PML_EXTRACT_ADDRESS (Z.lor f flags) = f.
Proof.
  intros Hm Hf Hfl. unfold PML_EXTRACT_ADDRESS. apply Z.bits_inj'. intros n Hn. rewrite Z.land_spec, Z.lor_spec.
  replace 0x0FFFFFFFFFFFF000 with (Z.shiftl (Z.ones 48) 12) by done.
  rewrite Z.shiftl_spec by done. assert (Hlow : n < 12 → Z.testbit f n = false).
  { intros Hlt. rewrite <-(Z.mod_pow2_bits_low f 12 n) by lia. change (2 ^ 12) with 4096. rewrite Hm. apply Z.bits_0. }
  assert (Hhigh : 52 <= n → Z.testbit f n = false).
  { intros Hge. rewrite <-(Z.mod_small f (2 ^ 52)) by lia. apply Z.mod_pow2_bits_high. lia. }
  assert (Hfhigh : 12 <= n → Z.testbit flags n = false).
  { intros Hge. rewrite <-(Z.mod_small flags (2 ^ 12)) by lia. apply Z.mod_pow2_bits_high. lia. }
  destruct (decide (n < 12)) as [Hlt|Hge].
  - rewrite Hlow by done. rewrite (Z.testbit_neg_r _ (n - 12)) by lia. apply andb_false_r.
  - rewrite Hfhigh, orb_false_r by lia. destruct (decide (n < 60)).
    + rewrite Z.ones_spec_low, andb_true_r by lia. done.
    + rewrite Hhigh by lia. done.
Qed.

(** An entry that points to a table. *)
Lemma table_entry f flags : f mod 4096 = 0 → 0 < f < 2 ^ 52 → 0 <= flags < 128 → Z.testbit flags 0 = true →
  Z.lor f flags ≠ 0 ∧ has (Z.lor f flags) X86_PAGING_PRESENT = true ∧ has (Z.lor f flags) X86_PAGING_HUGE = false ∧
  PML_EXTRACT_ADDRESS (Z.lor f flags) = f.
Proof.
  intros Hm Hf Hfl Hp. pose proof (extract_address f flags Hm ltac:(lia) ltac:(lia)) as He.
  assert (Hbit : ∀ k, 0 <= k < 12 → Z.testbit f k = false).
  { intros k Hk. rewrite <-(Z.mod_pow2_bits_low f 12 k) by lia. change (2 ^ 12) with 4096. rewrite Hm. apply Z.bits_0. }
  split_and!; [intros E; rewrite E in He; unfold PML_EXTRACT_ADDRESS in He; rewrite Z.land_0_l in He; lia| | |done].
  - change X86_PAGING_PRESENT with (2 ^ 0). by rewrite has_pow2, Z.lor_spec, Hp, orb_true_r by lia.
  - change X86_PAGING_HUGE with (2 ^ 7). rewrite has_pow2, Z.lor_spec, Hbit by lia.
    rewrite <-(Z.mod_small flags (2 ^ 7)) by lia. apply Z.mod_pow2_bits_high. lia.
Qed.

(** ** Entries *)

Definition ent (x : ptables) (a j : Z) : option Z := es ← pt_mem x !! a; aget es j.

Lemma wp_read_entry a j e (Q : Z → ptables → Prop) x : ent x a j = Some e → Q e x → wp (read_entry a j) Q x.
Proof.
  unfold ent, read_entry. intros He HQ. destruct (pt_mem x !! a) as [es|] eqn:E; [|done]. cbn in He.
  wp_step. wp_step. wp_step. eapply wp_from_opt; [done|]. by eapply wp_from_opt.
Qed.

(** Entry [j] of table [a] has become [e']; the counters may differ. *)
Record wrote (a j e' : Z) (x x' : ptables) : Prop := {
  wr_ent : ∀ b k, ent x' b k = if decide (b = a ∧ k = j) then Some e' else ent x b k;
  wr_mem : ∀ b, match pt_mem x' !! b, pt_mem x !! b with
    | Some es', Some es => length es' = length es
    | None, None => True
    | _, _ => False
    end;
  wr_cr3 : cr3 x' = cr3 x;
  wr_supply : supply x' = supply x
}.

Lemma wp_write_entry a j e e' (Q : unit → ptables → Prop) x : ent x a j = Some e →
  (∀ m', wrote a j e' x (set_pt_mem m' x) → Q tt (set_pt_mem m' x)) → wp (write_entry a j e') Q x.
Proof.
  unfold ent, write_entry. intros He HQ. destruct (pt_mem x !! a) as [es|] eqn:E; [|done]. cbn in He.
  pose proof (aget_Some_lt _ _ _ He) as Hlt. pose proof (aset_is_Some es j e' Hlt) as Es. set (es' := <[_ := _]> es) in Es.
  do 3 wp_step. eapply wp_from_opt; [done|]. wp_step. eapply wp_from_opt; [done|]. wp_step. apply HQ. split; [| |done|done].
  - intros b k. unfold ent. cbn [pt_mem set_pt_mem]. destruct (decide (b = a)) as [->|Hb].
    + rewrite lookup_insert_eq. cbn. rewrite (aget_aset _ _ _ _ _ Es), E. cbn. destruct (decide (j = k)) as [->|]; [by rewrite decide_True|].
      by rewrite decide_False by (intros []; congruence).
    + rewrite lookup_insert_ne by done. by rewrite decide_False by tauto.
  - intros b. cbn [pt_mem set_pt_mem]. destruct (decide (b = a)) as [->|Hb]; [rewrite lookup_insert_eq, E; by eapply length_aset|].
    rewrite lookup_insert_ne by done. by destruct (pt_mem x !! b).
Qed.

(** ** The tree

    [own] says of which level each table is, and which part of the address space it is for:
    a table of level [l] for part [v] is for the pages from [v * span (S l)] on.  The upper half
    of the table at the root belongs to the kernel. *)

Abbreviation owned := (gmap Z (nat * Z)).

Definition top : nat := 3.
(** The entries of a table that belong to the address space. *)
Definition lower (l : nat) (j : Z) : Prop := l = top → j < 256.

Record tables_ok (own : owned) (x : ptables) : Prop := {
  to_root : own !! cr3 x = Some (top, 0);
  to_level : ∀ a l v, own !! a = Some (l, v) → (l <= top)%nat ∧ 0 <= v ∧ (l = top → v = 0);
  to_table : ∀ a l v, own !! a = Some (l, v) → ∃ es, pt_mem x !! a = Some es ∧ length es = 512%nat;
  to_unique : ∀ a b l v, own !! a = Some (l, v) → own !! b = Some (l, v) → a = b;
  to_child : ∀ a l v j e, own !! a = Some (S l, v) → ent x a j = Some e → e ≠ 0 → lower (S l) j →
    has e X86_PAGING_PRESENT = true ∧ has e X86_PAGING_HUGE = false ∧
    own !! PML_EXTRACT_ADDRESS e = Some (l, 512 * v + j);
  to_parent : ∀ c l v, own !! c = Some (l, v) → (l < top)%nat → ∃ a e,
    own !! a = Some (S l, v / 512) ∧ ent x a (v mod 512) = Some e ∧ e ≠ 0 ∧
    PML_EXTRACT_ADDRESS e = c ∧ lower (S l) (v mod 512)
}.

(** Page [q] is mapped by entry [e] of a table of the last level. *)
Definition maps (own : owned) (x : ptables) (q e : Z) : Prop :=
  e ≠ 0 ∧ ∃ a, own !! a = Some (0%nat, q / 512) ∧ ent x a (q mod 512) = Some e.

Section tree.
Context (own : owned) (x : ptables) (Hok : tables_ok own x).

Lemma ent_Some a l v j : own !! a = Some (l, v) → 0 <= j < 512 → ∃ e, ent x a j = Some e.
Proof.
  intros Ha Hj. destruct (to_table _ _ Hok a l v Ha) as (es & He & Hl). unfold ent. rewrite He. cbn.
  apply aget_is_Some. lia.
Qed.

Lemma ent_range a l v j e : own !! a = Some (l, v) → ent x a j = Some e → 0 <= j < 512.
Proof.
  intros Ha He. destruct (to_table _ _ Hok a l v Ha) as (es & Hes & Hl). unfold ent in He. rewrite Hes in He. cbn in He.
  apply aget_Some_lt in He. lia.
Qed.

(** The table of level [l + n] above a table, and its entry on the way down. *)
Lemma chain_up c l v n : own !! c = Some (l, v) → (l + S n <= top)%nat → ∃ a e,
  own !! a = Some ((l + S n)%nat, v / span (S n)) ∧ ent x a ((v / span n) mod 512) = Some e ∧ e ≠ 0 ∧ lower (l + S n) ((v / span n) mod 512).
Proof.
  intros Hc. induction n as [|n IH]; intros Hn.
  - destruct (to_parent _ _ Hok c l v Hc ltac:(unfold top in *; lia)) as (a & e & Ha & He & H0 & _ & Hlow). exists a, e.
    rewrite Nat.add_1_r, span_0, Z.div_1_r. by rewrite span_S, span_0, Z.mul_1_r.
  - destruct IH as (b & _ & Hb & _); [lia|].
    destruct (to_parent _ _ Hok b _ _ Hb ltac:(lia)) as (a & e & Ha & He & H0 & _ & Hlow). exists a, e.
    replace (l + S (S n))%nat with (S (l + S n)) by lia. rewrite (span_S (S n)), (Z.mul_comm 512), <-Z.div_div by (pose proof (span_pos (S n)); lia).
    done.
Qed.

(** A page that is mapped has its tables at every level. *)
Lemma maps_entry q e a l v : maps own x q e → own !! a = Some (S l, v) → q / span (S (S l)) = v →
  ∃ e', ent x a ((q / span (S l)) mod 512) = Some e' ∧ e' ≠ 0 ∧ lower (S l) ((q / span (S l)) mod 512).
Proof.
  intros (_ & c & Hc & _) Ha Hq. destruct (to_level _ _ Hok _ _ _ Ha) as [Hl _].
  destruct (chain_up c 0 (q / 512) l Hc ltac:(lia)) as (b & e' & Hb & He' & H0 & Hlow).
  replace (q / 512) with (q / span 1) in * by done. rewrite div_span in Hb, He', Hlow. cbn [Nat.add] in *.
  assert (b = a) as -> by (eapply (to_unique _ _ Hok); [exact Hb|]; by rewrite Hq). eauto.
Qed.
End tree.

(** ** Counts *)

Record counts (own : owned) (x : ptables) : Prop := {
  ct_resident : ∃ D : gset Z, (∀ q, q ∈ D ↔ ∃ e, maps own x q e) ∧ resident_set_size x = 4096 * Z.of_nat (size D);
  ct_tables : page_tables_size x = 4096 * Z.of_nat (size own);
  ct_few : Z.of_nat (size own) + Z.of_nat (length (supply x)) < 2 ^ 50
}.

(** Pages that can be made tables. *)
Record supply_ok (x : ptables) : Prop := {
  su_nodup : NoDup (supply x);
  su_page : ∀ f, f ∈ supply x → f mod 4096 = 0 ∧ 0 < f < 2 ^ 52 ∧ pt_mem x !! f = None
}.

Record pt_inv (own : owned) (x : ptables) : Prop := {
  pi_tables : tables_ok own x;
  pi_counts : counts own x;
  pi_supply : supply_ok x;
  pi_address : ∀ a lv, own !! a = Some lv → a mod 4096 = 0 ∧ 0 < a < 2 ^ 52
}.

(** ** Changes *)

Implicit Types (own : owned).

Lemma wrote_table own a j e' x x' : wrote a j e' x x' →
  (∀ b l v, own !! b = Some (l, v) → ∃ es, pt_mem x !! b = Some es ∧ length es = 512%nat) →
  ∀ b l v, own !! b = Some (l, v) → ∃ es, pt_mem x' !! b = Some es ∧ length es = 512%nat.
Proof.
  intros Hw Ht b l v Hb. destruct (Ht b l v Hb) as (es & He & Hl). pose proof (wr_mem _ _ _ _ _ Hw b) as Hm. rewrite He in Hm.
  destruct (pt_mem x' !! b) as [es'|]; [|done]. exists es'. split; [done|]. lia.
Qed.

(** An entry of a table of the last level, or one that is not of the address space. *)
Lemma tables_ok_leaf own a w j e' x x' : tables_ok own x → own !! a = Some (0%nat, w) → wrote a j e' x x' → tables_ok own x'.
Proof.
  intros [H1 H2 H3 H4 H5 H6] Ha Hw. pose proof (wrote_table own a j e' x x' Hw H3) as H3'. destruct Hw as [He Hm Hc _].
  assert (Hne : ∀ b l v k, own !! b = Some (S l, v) → ent x' b k = ent x b k).
  { intros b l v k Hb. rewrite He, decide_False; [done|]. intros [-> _]. congruence. }
  split; [by rewrite Hc|done|done|done| |].
  - intros b l v k e Hb. rewrite (Hne _ _ _ _ Hb). eauto.
  - intros c l v Hcc Hl. destruct (H6 c l v Hcc Hl) as (b & e & Hb & Hbe & ?). exists b, e. by rewrite (Hne _ _ _ _ Hb).
Qed.

Lemma maps_leaf own a w j e' x x' q e : tables_ok own x → own !! a = Some (0%nat, w) → 0 <= j < 512 → wrote a j e' x x' →
  maps own x' q e ↔ if decide (q = 512 * w + j) then e = e' ∧ e ≠ 0 else maps own x q e.
Proof.
  intros Hok Ha Hj Hw. unfold maps. case_decide as Hq.
  - assert (q / 512 = w ∧ q mod 512 = j) as [-> ->] by (subst q; Z.to_euclidean_division_equations; lia). split.
    + intros (H0 & b & Hb & He). assert (b = a) as -> by by eapply (to_unique _ _ Hok). rewrite (wr_ent _ _ _ _ _ Hw), decide_True in He by done.
      split; [congruence|done].
    + intros [-> H0]. split; [done|]. exists a. by rewrite (wr_ent _ _ _ _ _ Hw), decide_True.
  - assert (Hne : ∀ b, own !! b = Some (0%nat, q / 512) → ent x' b (q mod 512) = ent x b (q mod 512)).
    { intros b Hb. rewrite (wr_ent _ _ _ _ _ Hw), decide_False; [done|]. intros [-> Hm]. assert (w = q / 512) by congruence.
      Z.to_euclidean_division_equations; lia. }
    split; (intros (H0 & b & Hb & He); split; [done|]; exists b; split; [done|]); [by rewrite <-Hne|by rewrite Hne].
Qed.

(** A table without entries is taken out. *)
Lemma tables_ok_free own a l v j c x x1 x' : tables_ok own x → own !! a = Some (S l, v) → own !! c = Some (l, 512 * v + j) →
  0 <= j < 512 → (∀ k e, ent x c k = Some e → e = 0) → wrote a j 0 x x1 →
  cr3 x' = cr3 x1 → (∀ b, b ≠ c → pt_mem x' !! b = pt_mem x1 !! b) → tables_ok (delete c own) x'.
Proof.
  intros [H1 H2 H3 H4 H5 H6] Ha Hc Hj Hz Hw Hcr Hm. pose proof (wrote_table own a j 0 x x1 Hw H3) as H3'.
  destruct Hw as [He _ Hcr1 _]. assert (Hac : a ≠ c) by (intros ->; rewrite Ha in Hc; injection Hc; lia).
  assert (Hent : ∀ b k, b ≠ c → ent x' b k = ent x1 b k) by (intros b k Hb; unfold ent; by rewrite Hm).
  split.
  - rewrite Hcr, Hcr1. rewrite lookup_delete_ne; [done|]. intros ->. rewrite H1 in Hc. injection Hc as <- _.
    destruct (H2 _ _ _ Ha). unfold top in *. lia.
  - intros b l' v' [_ Hb]%lookup_delete_Some. by apply H2 with b.
  - intros b l' v' [Hne Hb]%lookup_delete_Some. rewrite Hm by done. by eapply H3'.
  - intros b b' l' v' [_ Hb]%lookup_delete_Some [_ Hb']%lookup_delete_Some. by eapply H4.
  - intros b l' v' k e [Hne Hb]%lookup_delete_Some. rewrite Hent, He by done. case_decide as Hd; [intros [= <-]; done|].
    intros Hbe H0 Hlow. destruct (H5 b l' v' k e Hb Hbe H0 Hlow) as (? & ? & Hown). split_and!; [done..|].
    rewrite lookup_delete_ne; [done|]. intros Ec. rewrite <-Ec in Hown. rewrite Hc in Hown. injection Hown as <- Hv'.
    apply Hd. assert (0 <= k < 512) by (unfold ent in Hbe; destruct (H3 _ _ _ Hb) as (es & Hes & Hl); rewrite Hes in Hbe; cbn in Hbe; apply aget_Some_lt in Hbe; lia).
    assert (v' = v ∧ k = j) as [-> ->] by lia. split; [|done]. by eapply H4.
  - intros b l' v' [Hne Hb]%lookup_delete_Some Hl. destruct (H6 b l' v' Hb Hl) as (p & e & Hp & Hpe & H0 & Hex & Hlow).
    assert (Hpc : p ≠ c) by (intros ->; by apply Hz in Hpe). exists p, e. rewrite lookup_delete_ne, Hent, He by done.
    rewrite decide_False; [done|]. intros [-> Hk]. rewrite Ha in Hp. injection Hp as -> ->.
    assert (Hcv : own !! b = Some (l', 512 * (v' / 512) + j)) by (rewrite Hb; do 2 f_equal; rewrite <-Hk; Z.to_euclidean_division_equations; lia).
    by apply Hne, (H4 c b l' (512 * (v' / 512) + j)).
Qed.

Lemma maps_free own c l w x x' : own !! c = Some (l, w) → (∀ k e, ent x c k = Some e → e = 0) →
  (∀ b q, b ≠ c → own !! b = Some (0%nat, q / 512) → ent x' b (q mod 512) = ent x b (q mod 512)) →
  ∀ q e, maps (delete c own) x' q e ↔ maps own x q e.
Proof.
  intros Hc Hz He q e. unfold maps. split; intros (H0 & b & Hb & Hbe); (split; [done|]); exists b.
  - apply lookup_delete_Some in Hb as [Hne Hb]. split; [done|]. by rewrite <-He.
  - assert (b ≠ c) by (intros ->; by apply Hz in Hbe). rewrite lookup_delete_ne by done. split; [done|]. by rewrite He.
Qed.

(** ** The invariant and its parts *)

Lemma maps_range own x q e : tables_ok own x → maps own x q e → 0 <= q < 2 ^ 35.
Proof.
  intros Hok (_ & c & Hc & _). destruct (to_level _ _ Hok _ _ _ Hc) as (_ & H0 & _).
  destruct (chain_up own x Hok c 0 (q / 512) 2 Hc ltac:(unfold top; lia)) as (a & _ & Ha & _ & _ & Hlow).
  destruct (to_level _ _ Hok _ _ _ Ha) as (_ & _ & Hz). specialize (Hz eq_refl). specialize (Hlow eq_refl).
  change (span 3) with 134217728 in Hz. change (span 2) with 262144 in Hlow. clear - H0 Hz Hlow.
  assert (q / 512 / 262144 / 512 = 0) as Hz' by (rewrite Z.div_div by lia; exact Hz).
  set (w := q / 512 / 262144) in *. assert (0 <= w) by (unfold w; apply Z.div_pos; lia).
  assert (w < 512) by (apply Z.div_small_iff in Hz'; lia). rewrite Z.mod_small in Hlow by lia.
  unfold w in *. Z.to_euclidean_division_equations; lia.
Qed.

Lemma resident_small own x (D : gset Z) : tables_ok own x → (∀ q, q ∈ D ↔ ∃ e, maps own x q e) → Z.of_nat (size D) <= 2 ^ 35.
Proof.
  intros Hok HD. pose proof (size_range D 0 (2 ^ 35)) as Hs. cbn in Hs. apply Hs. intros q Hq. apply HD in Hq as [e He].
  by eapply maps_range.
Qed.

Lemma supply_wrote a j e' x x' : wrote a j e' x x' → supply_ok x → supply_ok x'.
Proof.
  intros [_ Hm _ Hs] [Hn Hp]. split; rewrite Hs; [done|]. intros f Hf. destruct (Hp f Hf) as (? & ? & E). split_and!; [lia..|].
  specialize (Hm f). rewrite E in Hm. by destruct (pt_mem x' !! f).
Qed.

(** A page of the last level becomes unmapped. *)
Lemma pt_inv_clear own a w j e x x' : pt_inv own x → own !! a = Some (0%nat, w) → ent x a j = Some e → e ≠ 0 →
  wrote a j 0 x x' → resident_set_size x' = u64 (resident_set_size x - 4096) → page_tables_size x' = page_tables_size x →
  pt_inv own x' ∧ ∀ q e, maps own x' q e ↔ maps own x q e ∧ q ≠ 512 * w + j.
Proof.
  intros [Ht [(D & HD & Hr) Hts Hf] Hs Had] Ha He H0 Hw Hrs Hps. pose proof (ent_range own x Ht _ _ _ _ _ Ha He) as Hj.
  assert (Hmaps : ∀ q e, maps own x' q e ↔ maps own x q e ∧ q ≠ 512 * w + j).
  { intros q e1. rewrite (maps_leaf own a w j 0 x x' q e1 Ht Ha Hj Hw). case_decide; [split; [by intros [-> ?]|tauto]|tauto]. }
  split; [|done]. split; [by eapply tables_ok_leaf|split|by eapply supply_wrote|done].
  - assert (Hin : 512 * w + j ∈ D).
    { apply HD. exists e. split; [done|]. exists a. assert ((512 * w + j) / 512 = w ∧ (512 * w + j) mod 512 = j) as [-> ->] by (Z.to_euclidean_division_equations; lia). done. }
    exists (D ∖ {[512 * w + j]}). split.
    + intros q. rewrite elem_of_difference, HD, elem_of_singleton. setoid_rewrite Hmaps. naive_solver.
    + rewrite Hrs, Hr. pose proof (resident_small own x D Ht HD). rewrite size_difference by set_solver. rewrite size_singleton.
      assert (size D ≠ 0)%nat by (apply size_non_empty_iff; set_solver). rewrite u64_small by lia. lia.
  - by rewrite Hps.
  - by rewrite (wr_supply _ _ _ _ _ Hw).
Qed.

(** A table without entries goes back to the supply. *)
Lemma pt_inv_free own a l v j c x x1 x' : pt_inv own x → own !! a = Some (S l, v) → own !! c = Some (l, 512 * v + j) →
  0 <= j < 512 → (∀ k e, ent x c k = Some e → e = 0) → wrote a j 0 x x1 →
  cr3 x' = cr3 x1 → pt_mem x' = delete c (pt_mem x1) → supply x' = c :: supply x1 →
  resident_set_size x' = resident_set_size x → page_tables_size x' = u64 (page_tables_size x - 4096) →
  pt_inv (delete c own) x' ∧ (∀ q e, maps (delete c own) x' q e ↔ maps own x q e) ∧
  ∀ b k, b ≠ c → ent x' b k = if decide (b = a ∧ k = j) then Some 0 else ent x b k.
Proof.
  intros [Ht [(D & HD & Hr) Hts Hf] Hs Had] Ha Hc Hj Hz Hw Hcr Hm Hsu Hrs Hps.
  assert (Hent : ∀ b k, b ≠ c → ent x' b k = if decide (b = a ∧ k = j) then Some 0 else ent x b k).
  { intros b k Hb. rewrite <-(wr_ent _ _ _ _ _ Hw). unfold ent. by rewrite Hm, lookup_delete_ne. }
  assert (Hmaps : ∀ q e, maps (delete c own) x' q e ↔ maps own x q e).
  { eapply maps_free; [done..|]. intros b q Hb Hbo. rewrite Hent, decide_False; [done| |done]. intros [-> _]. congruence. }
  split; [|done]. split.
  - eapply tables_ok_free; [done..|]. intros b Hb. by rewrite Hm, lookup_delete_ne.
  - pose proof (map_size_delete_Some c own (ex_intro _ _ Hc)) as Hsz. assert (size own ≠ 0)%nat by (apply map_size_non_empty_iff; intros ->; by rewrite lookup_empty in Hc). split.
    + exists D. split; [intros q; rewrite HD; by setoid_rewrite Hmaps|congruence].
    + rewrite Hps, Hts, u64_small by lia. lia.
    + rewrite Hsu. cbn [length]. rewrite (wr_supply _ _ _ _ _ Hw). lia.
  - destruct (supply_wrote _ _ _ _ _ Hw Hs) as [Hn Hp]. destruct (Had c _ Hc). destruct (to_table _ _ Ht c _ _ Hc) as (es & Hes & _).
    pose proof (wr_mem _ _ _ _ _ Hw c) as Hmc. rewrite Hes in Hmc.
    split; rewrite Hsu.
    + apply list.NoDup_cons. split; [|done]. intros Hin. destruct (Hp c Hin) as (_ & _ & E). by rewrite E in Hmc.
    + intros f [->|Hin]%elem_of_cons; [split_and!; [lia..|]; by rewrite Hm, lookup_delete_eq|].
      destruct (Hp f Hin) as (? & ? & E). split_and!; [lia..|]. rewrite Hm. by apply lookup_delete_None; right.
  - intros b lv [_ Hb]%lookup_delete_Some. by eapply Had.
Qed.

(** ** Walks *)

Implicit Types (x : ptables).

(** ** The entry of a page *)

(** The entry of page [p], or 0 when there is no table for it. *)
Definition page_entry (p : Z) : PT Z :=
  loc ← x86_get_pt_entry (4096 * p);
  match loc with
  | None => mret 0
  | Some (pml, i) => read_entry pml i
  end.

Definition entry_of x (p : Z) : Z := match page_entry p x with Done (e, _) => e | Fault _ => -1 end.

Lemma index_page p l : 0 <= p → addr_get_index (4096 * p) l = (p / span l) mod 512.
Proof. intros. rewrite index_of by lia. by rewrite (Z.mul_comm 4096), Z.div_mul by lia. Qed.

Lemma lower_index p l : 0 <= p < 2 ^ 35 → lower l ((p / span l) mod 512).
Proof.
  intros Hp ->. change (span top) with (2 ^ 27). assert (0 <= p / 2 ^ 27 < 256) by (Z.to_euclidean_division_equations; lia).
  rewrite Z.mod_small by lia. lia.
Qed.

Lemma part_child p l : 0 <= p → p / span l = 512 * (p / span (S l)) + (p / span l) mod 512.
Proof.
  intros Hp. replace (p / span (S l)) with (p / span l / 512); [apply Z.div_mod; lia|].
  rewrite Z.div_div by (pose proof (span_pos l); lia). f_equal. rewrite span_S. lia.
Qed.

Section walk.
Context (own : owned) (x : ptables) (Ht : tables_ok own x) (p : Z) (Hp : 0 <= p < 2 ^ 35).

Lemma wp_get_pt_entry_from n : ∀ a, own !! a = Some (n, p / span (S n)) →
  wp (get_pt_entry_from n (4096 * p) a) (λ r x', x' = x ∧
    match r with
    | None => ∀ e, ¬ maps own x p e
    | Some (t, i) => own !! t = Some (0%nat, p / 512) ∧ i = p mod 512
    end) x.
Proof.
  induction n as [|n IH]; intros a Ha; cbn [get_pt_entry_from].
  - wp_step. split; [done|]. rewrite index_page, span_0, Z.div_1_r by lia. done.
  - rewrite index_page by lia. destruct (ent_Some own x Ht a (S n) _ ((p / span (S n)) mod 512) Ha) as [e He]; [apply Z.mod_pos_bound; lia|].
    wp_step. eapply wp_read_entry; [done|]. destruct (decide (e = 0)) as [->|Hne].
    + change (has 0 X86_PAGING_PRESENT) with false. cbn iota. wp_step. split; [done|]. intros e Hm.
      destruct (maps_entry own x Ht p e a n _ Hm Ha eq_refl) as (e' & He' & ? & _). congruence.
    + destruct (to_child _ _ Ht a n _ _ e Ha He Hne (lower_index p (S n) Hp)) as (-> & _ & Hc).
      rewrite <-part_child in Hc by lia. by apply IH.
Qed.

Lemma root_of_page : own !! cr3 x = Some (top, p / span (S top)).
Proof. rewrite (to_root _ _ Ht). do 2 f_equal. symmetry. apply Z.div_small. change (span (S top)) with (2 ^ 36). lia. Qed.

Lemma wp_x86_get_pt_entry (Q : option (Z * Z) → ptables → Prop) :
  ((∀ e, ¬ maps own x p e) → Q None x) → (∀ t, own !! t = Some (0%nat, p / 512) → Q (Some (t, p mod 512)) x) →
  wp (x86_get_pt_entry (4096 * p)) Q x.
Proof.
  intros Hnone Hsome. unfold x86_get_pt_entry. wp_step. wp_step. eapply wp_mono; [apply wp_get_pt_entry_from, root_of_page|].
  intros [[t i]|] x' (-> & Hr); [destruct Hr as [? ->]; auto|auto].
Qed.

Lemma entry_of_cases : (entry_of x p = 0 ∧ ∀ e, ¬ maps own x p e) ∨ maps own x p (entry_of x p).
Proof.
  unfold entry_of. assert (wp (page_entry p) (λ e _, (e = 0 ∧ ∀ e, ¬ maps own x p e) ∨ maps own x p e) x) as Hw; [|unfold wp in Hw; by destruct (page_entry p x) as [[e x']|]].
  unfold page_entry. wp_step. apply wp_x86_get_pt_entry.
  - intros Hn. wp_step. by left.
  - intros t Htab. destruct (ent_Some own x Ht t 0 _ (p mod 512) Htab) as [e He]; [apply Z.mod_pos_bound; lia|].
    eapply wp_read_entry; [done|]. destruct (decide (e = 0)) as [->|]; [left|right; split; eauto]. split; [done|].
    intros e (Hne & t' & Ht' & He'). assert (t' = t) as -> by by eapply (to_unique _ _ Ht). congruence.
Qed.

Lemma maps_unique q e e' : maps own x q e → maps own x q e' → e = e'.
Proof. intros (_ & t & Hta & He) (_ & t' & Hta' & He'). assert (t' = t) as -> by by eapply (to_unique _ _ Ht). congruence. Qed.

Lemma entry_of_maps e : e ≠ 0 → entry_of x p = e ↔ maps own x p e.
Proof.
  intros Hne. destruct entry_of_cases as [[-> Hn]|Hm]; [split; [congruence|intros Hm; by destruct (Hn e)]|].
  split; [by intros <-|intros Hm']. by eapply maps_unique.
Qed.

Lemma entry_of_none : entry_of x p = 0 ↔ ∀ e, ¬ maps own x p e.
Proof. destruct entry_of_cases as [[-> Hn]|Hm]; [done|]. split; [intros E; rewrite E in Hm; by destruct Hm|intros Hn; by destruct (Hn _ Hm)]. Qed.
End walk.

(** Two trees that map the same are the same for whoever reads them. *)
Lemma entry_of_ext own x own' x' p : tables_ok own x → tables_ok own' x' → 0 <= p < 2 ^ 35 →
  (∀ e, maps own' x' p e ↔ maps own x p e) → entry_of x' p = entry_of x p.
Proof.
  intros Ht Ht' Hp Hm. destruct (entry_of_cases own x Ht p Hp) as [[-> Hn]|Hmm].
  - apply (entry_of_none own' x' Ht' p Hp). intros e. by rewrite Hm.
  - apply (entry_of_maps own' x' Ht' p Hp); [apply Hmm|by apply Hm].
Qed.

(** ** A new table *)

Section table.
Context (own : owned) (a : Z) (l : nat) (v j c flags : Z) (rest : list Z) (x x1 x' : ptables).
Context (HI : pt_inv own x) (Ha : own !! a = Some (S l, v)) (Hj : 0 <= j < 512) (He : ent x a j = Some 0) (Hlow : lower (S l) j).
Context (Hsup : supply x = c :: rest) (Hfl : 0 <= flags < 128) (Hpr : Z.testbit flags 0 = true).
Context (Hmem1 : pt_mem x1 = <[c := replicate 512 0]> (pt_mem x)) (Hsup1 : supply x1 = rest) (Hcr1 : cr3 x1 = cr3 x).
Context (Hw : wrote a j (Z.lor c flags) x1 x').
Let own' : owned := <[c := (l, 512 * v + j)]> own.

Lemma new_page : c mod 4096 = 0 ∧ 0 < c < 2 ^ 52 ∧ pt_mem x !! c = None ∧ own !! c = None.
Proof.
  destruct (su_page _ (pi_supply _ _ HI) c) as (? & ? & Hn); [rewrite Hsup; by left|]. split_and!; try done; try lia.
  destruct (own !! c) as [[l' v']|] eqn:E; [|done]. destruct (to_table _ _ (pi_tables _ _ HI) _ _ _ E) as (es & Hes & _). congruence.
Qed.

Lemma new_ent b k : ent x' b k = if decide (b = a ∧ k = j) then Some (Z.lor c flags) else
  if decide (b = c) then (if decide (0 <= k < 512) then Some 0 else None) else ent x b k.
Proof.
  rewrite (wr_ent _ _ _ _ _ Hw). case_decide; [done|]. unfold ent. rewrite Hmem1. case_decide as Hb.
  - rewrite Hb, lookup_insert_eq. cbn [mbind option_bind]. case_decide; [apply aget_replicate; lia|].
    destruct (aget _ k) eqn:E; [|done]. apply aget_Some_lt in E. rewrite length_replicate in E. lia.
  - by rewrite lookup_insert_ne.
Qed.

Lemma new_owned b lv : own' !! b = Some lv ↔ (b = c ∧ lv = (l, 512 * v + j)) ∨ (b ≠ c ∧ own !! b = Some lv).
Proof. unfold own'. rewrite lookup_insert_Some. naive_solver. Qed.

Lemma new_alone b : own !! b = Some (l, 512 * v + j) → False.
Proof.
  intros Hb. destruct HI as [Ht _ _ _]. destruct (to_level _ _ Ht _ _ _ Ha) as [Hl _].
  destruct (to_parent _ _ Ht b _ _ Hb ltac:(lia)) as (a' & e & Ha' & He' & Hne & _).
  assert ((512 * v + j) / 512 = v ∧ (512 * v + j) mod 512 = j) as [Hd Hm] by (Z.to_euclidean_division_equations; lia).
  rewrite Hd in Ha'. rewrite Hm in He'. assert (a' = a) as -> by by eapply (to_unique _ _ Ht). congruence.
Qed.

Lemma new_tables : tables_ok own' x'.
Proof.
  destruct new_page as (Hc0 & Hc1 & Hc2 & Hc3). destruct (table_entry c flags Hc0 Hc1 Hfl Hpr) as (Hne & Hp & Hh & Hex).
  assert (Hac : a ≠ c) by congruence. pose proof (pi_tables _ _ HI) as [H1 H2 H3 H4 H5 H6]. destruct (H2 _ _ _ Ha) as (Hl & Hv & _). split.
  - rewrite (wr_cr3 _ _ _ _ _ Hw), Hcr1. apply new_owned. right. split; [congruence|done].
  - intros b l' v' [[-> [= -> ->]]|[_ Hb]]%new_owned; [|by apply H2 with b]. split_and!; lia.
  - intros b l' v' Hb. pose proof (wr_mem _ _ _ _ _ Hw b) as Hm. rewrite Hmem1 in Hm. apply new_owned in Hb as [[-> _]|[Hb Hb']].
    + rewrite lookup_insert_eq in Hm. destruct (pt_mem x' !! c) as [es|]; [|done]. exists es. by rewrite length_replicate in Hm.
    + rewrite lookup_insert_ne in Hm by done. destruct (H3 _ _ _ Hb') as (es & Hes & Hlen). rewrite Hes in Hm.
      destruct (pt_mem x' !! b) as [es'|]; [|done]. exists es'. split; [done|lia].
  - intros b b' l' v' [[-> [= -> ->]]|[_ Hb]]%new_owned [[-> E]|[_ Hb']]%new_owned; try done.
    + by destruct (new_alone b').
    + injection E as -> ->. by destruct (new_alone b).
    + by eapply H4.
  - intros b l' v' k e Hb Hk Hnz Hlo. rewrite new_ent in Hk. apply new_owned in Hb as [[-> Hb]|[Hbc Hb]].
    + rewrite decide_False, decide_True in Hk by (try done; intros []; congruence). case_decide; [by injection Hk as <-|done].
    + case_decide as Hd.
      * destruct Hd as [-> ->]. injection Hk as <-. rewrite Ha in Hb. injection Hb as <- <-. rewrite Hex. split_and!; [done..|]. apply new_owned. by left.
      * rewrite decide_False in Hk by done. destruct (H5 b l' v' k e Hb Hk Hnz Hlo) as (? & ? & Ho). split_and!; [done..|].
        apply new_owned. right. split; [congruence|done].
  - intros b l' v' [[-> [= -> ->]]|[Hbc Hb]]%new_owned Hlt.
    + assert ((512 * v + j) / 512 = v ∧ (512 * v + j) mod 512 = j) as [Hd Hm] by (Z.to_euclidean_division_equations; lia). rewrite Hd, Hm.
      exists a, (Z.lor c flags). split_and!; [apply new_owned; by right|by rewrite new_ent, decide_True|done..].
    + destruct (H6 b l' v' Hb Hlt) as (q & e & Hq & Hqe & Hnz & Hex' & Hlo). exists q, e.
      split_and!; [apply new_owned; right; split; [congruence|done]| |done..].
      rewrite new_ent, decide_False, decide_False; [done|congruence|]. intros [-> Hk]. rewrite Hk, He in Hqe. congruence.
Qed.

Lemma new_maps q e : maps own' x' q e ↔ maps own x q e.
Proof.
  destruct new_page as (_ & _ & _ & Hc3). unfold maps. split; intros (Hne & b & Hb & Hbe); (split; [done|]); exists b; rewrite new_ent in *.
  - assert (Hbc : b ≠ c).
    { intros ->. case_decide as Hd; [destruct Hd; congruence|]. rewrite decide_True in Hbe by done. case_decide; [by injection Hbe as <-|done]. }
    apply new_owned in Hb as [[? _]|[_ Hb]]; [done|]. rewrite decide_False, decide_False in Hbe by (try done; intros [-> _]; congruence). done.
  - split; [apply new_owned; right; split; [congruence|done]|]. rewrite decide_False, decide_False; [done|congruence|intros [-> _]; congruence].
Qed.

Lemma pt_inv_new : resident_set_size x' = resident_set_size x → page_tables_size x' = u64 (page_tables_size x + 4096) → pt_inv own' x'.
Proof.
  intros Hrs Hps. destruct new_page as (Hc0 & Hc1 & Hc2 & Hc3). pose proof HI as [Ht [(D & HD & Hr) Hts Hf] Hs Had].
  assert (Hsz : size own' = S (size own)) by by apply map_size_insert_None.
  assert (Hsl : length (supply x) = S (length rest)) by by rewrite Hsup. assert (Hsup' : supply x' = rest) by by rewrite (wr_supply _ _ _ _ _ Hw).
  destruct Hs as [Hn Hp]. rewrite Hsup in Hn. apply list.NoDup_cons in Hn as [Hni Hn]. split; [apply new_tables|split|split|].
  - exists D. split; [|congruence]. intros q. rewrite HD. by setoid_rewrite new_maps.
  - rewrite Hps, Hts, u64_small by lia. lia.
  - rewrite Hsup'. lia.
  - by rewrite Hsup'.
  - rewrite Hsup'. intros f Hin. destruct (Hp f) as (? & ? & E); [rewrite Hsup; by right|]. split_and!; [lia..|].
    pose proof (wr_mem _ _ _ _ _ Hw f) as Hm. rewrite Hmem1, lookup_insert_ne, E in Hm by (intros ->; done). by destruct (pt_mem x' !! f).
  - intros b lv [[-> _]|[_ Hb]]%new_owned; [lia|by eapply Had].
Qed.
End table.

(** ** The walk that makes tables *)

Record walked (p : Z) own x own' x' : Prop := {
  wk_inv : pt_inv own' x';
  wk_maps : ∀ q e, maps own' x' q e ↔ maps own x q e;
  wk_cr3 : cr3 x' = cr3 x;
  wk_old : ∀ b lv, own !! b = Some lv → own' !! b = Some lv;
  wk_new : ∀ b l v, own' !! b = Some (l, v) → own !! b = Some (l, v) ∨ p / span (S l) = v;
  wk_kept : ∀ b lv k e, own !! b = Some lv → ent x b k = Some e → e ≠ 0 → ent x' b k = Some e
}.

Lemma walked_refl p own x : pt_inv own x → walked p own x own x.
Proof. by split; auto. Qed.

Lemma walked_trans p own x own1 x1 own2 x2 : walked p own x own1 x1 → walked p own1 x1 own2 x2 → walked p own x own2 x2.
Proof.
  intros [I1 M1 C1 O1 N1 K1] [I2 M2 C2 O2 N2 K2]. split; [done|intros; by rewrite M2, M1|congruence|by eauto| |by eauto].
  intros b l v [Hb|?]%N2; [by apply N1|by right].
Qed.

Lemma wp_map_walk p flags n : 0 <= p < 2 ^ 35 → 0 <= flags < 128 → Z.testbit flags 0 = true →
  ∀ own x a, pt_inv own x → own !! a = Some (n, p / span (S n)) →
  wp (map_walk n (4096 * p) flags a) (λ r x', ∃ own', walked p own x own' x' ∧
    match r with
    | None => (length (supply x) < n)%nat ∧ ∀ e, ¬ maps own x p e
    | Some t => own' !! t = Some (0%nat, p / 512)
    end) x.
Proof.
  intros Hp Hfl Hpr. induction n as [|n IH]; intros own x a HI Ha; cbn [map_walk].
  { wp_step. exists own. split; [by apply walked_refl|done]. }
  pose proof (pi_tables _ _ HI) as Ht. rewrite index_page by lia. set (j := (p / span (S n)) mod 512).
  assert (Hj : 0 <= j < 512) by (apply Z.mod_pos_bound; lia). destruct (ent_Some own x Ht a (S n) _ j Ha Hj) as [e He].
  pose proof (part_child p (S n) ltac:(lia)) as Hpart. fold j in Hpart.
  wp_step. eapply wp_read_entry; [done|]. destruct (decide (e = 0)) as [->|Hne].
  - change (has 0 X86_PAGING_PRESENT) with false. cbn iota. wp_step. wp_step; [done|]. wp_step.
    unfold alloc_pt. wp_step. wp_step. cbn [id]. destruct (supply x) as [|c rest] eqn:Hsup.
    + wp_step. wp_step. exists own. split; [by apply walked_refl|]. cbn. split; [lia|]. intros e Hm.
      destruct (maps_entry own x Ht p e a n _ Hm Ha eq_refl) as (e' & He' & ? & _). fold j in He'. congruence.
    + wp_step. wp_step. unfold add_tables_size. wp_step. wp_step. do 2 wp_step. set (x1 := set_tables_size _ _).
      destruct (new_page own c rest x HI Hsup) as (_ & _ & Hfresh & Hfo). assert (Hac : a ≠ c) by congruence.
      eapply (wp_write_entry a j 0). { unfold ent. cbn. rewrite lookup_insert_ne by done. exact He. }
      intros m' Hw. pose proof (pt_inv_new own a n _ j c flags rest x x1 _ HI Ha Hj He (lower_index p (S n) Hp) Hsup Hfl Hpr eq_refl eq_refl eq_refl Hw eq_refl eq_refl) as HI'.
      eapply wp_mono; [apply (IH (<[c := (n, 512 * (p / span (S (S n))) + j)]> own) _ c HI'); by rewrite lookup_insert_eq, Hpart|].
      intros r x' (own' & Hwk & Hr). exists own'. split.
      * eapply walked_trans; [|exact Hwk]. split; [done| |done| | |].
        -- by eapply (new_maps own a n _ j c flags rest x x1).
        -- intros b lv Hb. rewrite lookup_insert_ne; [done|]. congruence.
        -- intros b l v [[-> [= <- <-]]|[_ Hb]]%lookup_insert_Some; [right; congruence|by left].
        -- intros b lv k e Hb Hk Hnz. rewrite (new_ent a j c flags x x1 _ eq_refl Hw), decide_False, decide_False; [done|congruence|]. intros [-> ->]. congruence.
      * destruct r as [t|]; [done|]. destruct Hr as [Hlen Hnm]. cbn in Hlen. split; [cbn; lia|]. intros e Hm. apply (Hnm e).
        by eapply (new_maps own a n _ j c flags rest x x1).
  - destruct (to_child _ _ Ht a n _ _ e Ha He Hne (lower_index p (S n) Hp)) as (-> & _ & Hc). fold j in Hc. rewrite <-Hpart in Hc.
    eapply wp_mono; [by apply IH|]. intros r x' (own' & Hwk & Hr). exists own'. split; [done|]. destruct r; [done|]. destruct Hr. split; [lia|done].
Qed.
