(* ===== verification/PageTableUnmap.v ===== *)
(** * PageTableUnmap: unmapping a range of pages

    What [x86_mmu_unmap] does to a tree of tables, for one entry, for the entries of a table
    and, by recursion on the level, for a table with all the tables below it. *)

From S2P Require Import Prelude Abi Bits PageAlloc Vm PageTable PageTableFacts.

Implicit Types (own : owned) (x : ptables) (tr : tlb_invalidation_tracker) (it : page_table_iterator).

(** ** What has been unmapped *)

(** Table [b], of level [l] at most, is for some page of the range. *)
Definition touched own (l : nat) (p q b : Z) : Prop :=
  ∃ l' v r, own !! b = Some (l', v) ∧ (l' <= l)%nat ∧ p <= r < q ∧ r / span (S l') = v.

(** The TLB has been told to forget page [r], or will be at the end of the call. *)
Definition forgotten x (r : Z) : Prop := ∃ s n, (s, n) ∈ invalidated x ∧ s <= 4096 * r ∧ 4096 * (r + 1) <= s + 4096 * n.
Definition covered x tr (r : Z) : Prop :=
  forgotten x r ∨ (is_started tr = true ∧ virt_start tr <= 4096 * r ∧ 4096 * (r + 1) <= virt_end tr).

Definition tracker_ok tr : Prop := is_flushed tr = false ∧ (is_started tr = true → ∃ s e, virt_start tr = 4096 * s ∧ virt_end tr = 4096 * e ∧ 0 <= s <= e ∧ e <= 2 ^ 35).

Record unmapped (l : nat) (p q : Z) own x tr own' x' tr' : Prop := {
  um_inv : pt_inv own' x';
  um_maps : ∀ r e, maps own' x' r e ↔ maps own x r e ∧ ¬ (p <= r < q);
  um_ent : ∀ b k, ent x' b k = ent x b k ∨ touched own l p q b;
  um_own : ∀ b lv, own' !! b = Some lv → own !! b = Some lv;
  um_kept : ∀ b l' v, own !! b = Some (l', v) → own' !! b = None → (l' < l)%nat ∧ touched own l p q b;
  um_full : ∀ b l' v, own' !! b = Some (l', v) → (l' < l)%nat → touched own l p q b → ∃ k e, ent x' b k = Some e ∧ e ≠ 0;
  um_cr3 : cr3 x' = cr3 x;
  um_tlb : ∀ r e, maps own x r e → p <= r < q → has e X86_PAGING_ACCESSED = true → covered x' tr' r;
  um_log : ∀ r, covered x tr r → covered x' tr' r;
  um_tracker : tracker_ok tr';
  um_pages : (size own' + length (supply x') = size own + length (supply x))%nat
}.

Lemma touched_mono own own1 l p q p' q' b : touched own1 l p q b → (∀ b lv, own1 !! b = Some lv → own !! b = Some lv) →
  p' <= p → q <= q' → touched own l p' q' b.
Proof. intros (l' & v & r & Hb & ? & ? & ?) Ho ? ?. exists l', v, r. split_and!; auto; lia. Qed.

Lemma unmapped_trans l p q r own x tr own1 x1 tr1 own2 x2 tr2 : p <= q <= r →
  unmapped l p q own x tr own1 x1 tr1 → unmapped l q r own1 x1 tr1 own2 x2 tr2 → unmapped l p r own x tr own2 x2 tr2.
Proof.
  intros Hpq [I1 M1 E1 O1 K1 F1 C1 T1 L1 R1 P1] [I2 M2 E2 O2 K2 F2 C2 T2 L2 R2 P2]. split; [done| | |by eauto| | |congruence| |by eauto|done|lia].
  - intros s e. rewrite M2, M1. intuition lia.
  - intros b k. destruct (E2 b k) as [->|Ht]; [|right; by eapply touched_mono; [exact Ht|done|lia..]].
    destruct (E1 b k) as [->|Ht]; [by left|right; eapply touched_mono; [exact Ht|done|lia..]].
  - intros b l' v Hb Hn. destruct (own1 !! b) as [lv|] eqn:Hb1.
    + pose proof (O1 _ _ Hb1) as Hb'. rewrite Hb in Hb'. injection Hb' as <-. destruct (K2 _ _ _ Hb1 Hn) as [? Ht].
      split; [done|]. by eapply touched_mono; [exact Ht|done|lia..].
    + destruct (K1 _ _ _ Hb Hb1) as [? Ht]. split; [done|]. by eapply touched_mono; [exact Ht|done|lia..].
  - intros b l' v Hb Hl (l2 & v2 & s & Hb0 & Hl2 & Hs & Hv). pose proof (O2 _ _ Hb) as Hb1. pose proof (O1 _ _ Hb1) as Hb0'.
    rewrite Hb0 in Hb0'. injection Hb0' as <- <-. destruct (decide (s < q)) as [Hlt|Hge].
    + destruct (F1 b l2 v2 Hb1 Hl) as (k & e & He & H0); [exists l2, v2, s; split_and!; auto; lia|].
      destruct (E2 b k) as [Hk|Ht]; [exists k, e; by rewrite Hk|by eapply F2].
    + eapply F2; [done..|]. exists l2, v2, s. split_and!; auto; lia.
  - intros s e Hm Hs Ha. destruct (decide (s < q)); [by eapply L2, T1; [..|lia|]|].
    eapply T2; [apply M1; split; [done|lia]|lia|done].
Qed.

Lemma unmapped_none l p q own x tr : pt_inv own x → tracker_ok tr → (∀ r e, maps own x r e → ¬ (p <= r < q)) →
  (∀ b l' v r, own !! b = Some (l', v) → (l' < l)%nat → p <= r < q → r / span (S l') ≠ v) → unmapped l p q own x tr own x tr.
Proof.
  intros HI Htr Hm Hn. split; try done; [|by left|by intros b l' v ->| |].
  - intros r e. split; [intros H; split; [done|by eapply Hm]|tauto].
  - intros b l' v Hb Hl (l2 & v2 & r & Hb2 & _ & Hr & Hv). rewrite Hb in Hb2. injection Hb2 as <- <-. by destruct (Hn b l' v r).
  - intros r e H Hr. by destruct (Hm r e H).
Qed.

(** ** The iterator *)

(** The iterator is at page [p] of a range that ends before page [E]. *)
Definition at_page it (p E : Z) : Prop := length_ it = 4096 * Z.max 0 (E - p) ∧ (p < E → curr_addr_ it = 4096 * p).

Lemma at_page_adjust it p E n : at_page it p E → 0 <= p < E → E <= 2 ^ 35 → 0 <= n → at_page (adjust_length (4096 * n) it) (p + n) E.
Proof.
  intros [Hl Hc] HpE HE Hn. specialize (Hc (proj2 HpE)). unfold adjust_length. rewrite Hl.
  destruct (Z.ltb_spec (4096 * Z.max 0 (E - p)) (4096 * n)); (split; cbn; [lia|]); intros Hlt; rewrite ?u64_small by lia; lia.
Qed.

Lemma at_page_done it p p' E : at_page it p E → E <= p → E <= p' → at_page it p' E.
Proof. intros [Hl _] ? ?. split; lia. Qed.

(** ** The tracker *)

Lemma forgotten_add x y r : forgotten x r → forgotten (add_invalidated y x) r.
Proof. intros (s & n & Hin & ? & ?). exists s, n. split_and!; [|done..]. cbn. apply elem_of_app. by left. Qed.

Lemma wp_tracker_flush tr (Q : tlb_invalidation_tracker → ptables → Prop) x : tracker_ok tr →
  (∀ l tr', (∀ r, covered x tr r → forgotten (PTables (pt_mem x) (cr3 x) (resident_set_size x) (page_tables_size x) (supply x) (allocated_page_tables x) l) r) →
    is_started tr' = false → is_flushed tr' = false →
    Q tr' (PTables (pt_mem x) (cr3 x) (resident_set_size x) (page_tables_size x) (supply x) (allocated_page_tables x) l)) →
  wp (tracker_flush tr) Q x.
Proof.
  intros [Hfl Hst] HQ. unfold tracker_flush. destruct (is_started tr) eqn:Hs; cbn [negb].
  - wp_step. wp_step. wp_step. apply HQ; [|done..]. intros r [Hf|(_ & H1 & H2)]; [by apply (forgotten_add x)|].
    destruct (Hst eq_refl) as (s & e & Hs' & He' & Hle). exists (virt_start tr), (Z.shiftr (u64 (virt_end tr - virt_start tr)) 12). split.
    + cbn. apply elem_of_app. right. by left.
    + rewrite Z.shiftr_div_pow2 by lia. change (2 ^ 12) with 4096. rewrite Hs', He' in *.
      rewrite u64_small by lia. replace (4096 * e - 4096 * s) with ((e - s) * 4096) by lia. rewrite Z.div_mul by lia. lia.
  - wp_step. destruct x. apply HQ; [|done..]. intros r [Hf|[? _]]; [exact Hf|congruence].
Qed.

(** ** One entry *)

(** The pages of entry [j] of the table of level [l] for part [v]. *)
Definition first_page (l : nat) (v j : Z) : Z := v * span (S l) + j * span l.

Lemma first_page_next l v j : first_page l v (j + 1) = first_page l v j + span l.
Proof. unfold first_page. lia. Qed.
Lemma first_page_child l v j : first_page (S l) v j = first_page l (512 * v + j) 0 ∧ first_page (S l) v (j + 1) = first_page l (512 * v + j) 512.
Proof. unfold first_page. rewrite !span_S. lia. Qed.

Lemma in_entry l v j r : first_page l v j <= r < first_page l v (j + 1) → 0 <= j < 512 →
  r / span l = 512 * v + j ∧ r / span (S l) = v ∧ (r / span l) mod 512 = j.
Proof.
  unfold first_page. rewrite span_S. pose proof (span_pos l) as Hs. intros Hr Hj.
  assert (Hd : r / span l = 512 * v + j) by (symmetry; apply (Z.div_unique_pos r (span l) (512 * v + j) (r - (512 * v + j) * span l)); lia).
  split_and!; [done| |rewrite Hd; Z.to_euclidean_division_equations; lia].
  rewrite (Z.mul_comm 512), <-Z.div_div, Hd by lia. Z.to_euclidean_division_equations; lia.
Qed.

Lemma index_in_entry l v j p : 0 <= p → first_page l v j <= p < first_page l v (j + 1) → 0 <= j < 512 → addr_get_index (4096 * p) l = j.
Proof.
  intros H0 Hp Hj. rewrite index_of by lia. rewrite (Z.mul_comm 4096), Z.div_mul by lia. by apply (in_entry l v j p).
Qed.

Section entry.
Context (own : owned) (x : ptables) (HI : pt_inv own x) (a : Z) (l : nat) (v : Z) (Ha : own !! a = Some (l, v)).

(** A table below this one, or a mapped page, is behind an entry that is not empty. *)
Lemma under_entry b l' w r : own !! b = Some (l', w) → (l' < l)%nat → r / span (S l') = w → r / span (S l) = v →
  ∃ e, ent x a ((r / span l) mod 512) = Some e ∧ e ≠ 0.
Proof.
  intros Hb Hl Hw Hv. pose proof (pi_tables _ _ HI) as Ht. destruct (to_level _ _ Ht _ _ _ Ha) as [Htop _].
  destruct (chain_up own x Ht b l' w (l - l' - 1) Hb ltac:(lia)) as (a' & e & Ha' & He & H0 & _).
  replace (l' + S (l - l' - 1))%nat with l in Ha' by lia. rewrite <-Hw, div_span in Ha', He.
  replace (S l' + S (l - l' - 1))%nat with (S l) in Ha' by lia. replace (S l' + (l - l' - 1))%nat with l in He by lia.
  assert (a' = a) as -> by (eapply (to_unique _ _ Ht); [exact Ha'|by rewrite Hv]). eauto.
Qed.

Lemma mapped_entry r e : maps own x r e → r / span (S l) = v → ∃ e', ent x a ((r / span l) mod 512) = Some e' ∧ e' ≠ 0.
Proof.
  intros Hm Hv. pose proof (pi_tables _ _ HI) as Ht. destruct l as [|l0] eqn:El.
  - destruct Hm as (H0 & c & Hc & He). assert (c = a) as -> by (eapply (to_unique _ _ Ht); [exact Hc|by rewrite Ha, <-Hv]).
    rewrite span_0, Z.div_1_r. eauto.
  - destruct (maps_entry own x Ht r e a l0 v Hm Ha Hv) as (e' & ? & ? & _). eauto.
Qed.

Context (j p q : Z) (Hj : 0 <= j < 512) (Hp : first_page l v j <= p) (Hq : q <= first_page l v (j + 1)).

Lemma unmapped_empty tr : tracker_ok tr → ent x a j = Some 0 → unmapped l p q own x tr own x tr.
Proof.
  intros Htr H0. apply unmapped_none; [done|done| |].
  - intros r e Hm Hr. destruct (in_entry l v j r ltac:(lia) Hj) as (_ & Hv & Hi). destruct (mapped_entry r e Hm Hv) as (e' & He & Hne).
    rewrite Hi in He. congruence.
  - intros b l' w r Hb Hl Hr Hw. destruct (in_entry l v j r ltac:(lia) Hj) as (_ & Hv & Hi).
    destruct (under_entry b l' w r Hb Hl Hw Hv) as (e & He & Hne). rewrite Hi in He. congruence.
Qed.
End entry.

Lemma unmapped_leaf own a w j e x tr x' tr' : pt_inv own x → own !! a = Some (0%nat, w) → ent x a j = Some e → e ≠ 0 →
  wrote a j 0 x x' → resident_set_size x' = u64 (resident_set_size x - 4096) → page_tables_size x' = page_tables_size x →
  tracker_ok tr' → (∀ r, covered x tr r → covered x' tr' r) → (has e X86_PAGING_ACCESSED = true → covered x' tr' (512 * w + j)) →
  unmapped 0 (512 * w + j) (512 * w + j + 1) own x tr own x' tr'.
Proof.
  intros HI Ha He H0 Hw Hr Hts Htr Hlog Hacc. pose proof (pi_tables _ _ HI) as Ht. pose proof (ent_range own x Ht _ _ _ _ _ Ha He) as Hj.
  assert (Hdm : (512 * w + j) / 512 = w ∧ (512 * w + j) mod 512 = j) by (Z.to_euclidean_division_equations; lia).
  destruct (pt_inv_clear own a w j e x x' HI Ha He H0 Hw Hr Hts) as [HI' Hm]. split; try done; [| | | |apply Hw| |].
  - intros r e1. rewrite Hm. intuition lia.
  - intros b k. rewrite (wr_ent _ _ _ _ _ Hw). case_decide as Hd; [|by left]. right. destruct Hd as [-> _].
    exists 0%nat, w, (512 * w + j). split_and!; [done|lia..|]. exact (proj1 Hdm).
  - intros b l' v' Hb Hn. congruence.
  - intros b l' v' _ Hl. lia.
  - intros r e1 (_ & b & Hb & Hbe) Hin Hac. assert (r = 512 * w + j) as -> by lia. destruct Hdm as [Hd Hmod]. rewrite Hd in Hb. rewrite Hmod in Hbe.
    assert (b = a) as -> by by eapply (to_unique _ _ Ht). apply Hacc. congruence.
  - by rewrite (wr_supply _ _ _ _ _ Hw).
Qed.

Lemma touched_level own l l' p q b v : touched own l p q b → own !! b = Some (l', v) → ∀ m, (l' <= m)%nat → touched own m p q b.
Proof. intros (l2 & v2 & r & Hb & _ & Hr & Hv) Hb' m Hm. rewrite Hb in Hb'. injection Hb' as <- <-. by exists l2, v2, r. Qed.

Lemma touched_up own l p q b : touched own l p q b → touched own (S l) p q b.
Proof. intros (l2 & v2 & r & Hb & ? & Hr & Hv). exists l2, v2, r. split_and!; auto; lia. Qed.

(** The table [c] one level down has been through. *)
Section child.
Context (own : owned) (x : ptables) (own1 : owned) (x1 : ptables) (HI : pt_inv own x) (l : nat) (p q : Z).
Context (Hu : unmapped l p q own x new_tracker own1 x1 new_tracker) (c w : Z) (Hc : own !! c = Some (l, w)).
Context (Hp : first_page l w 0 <= p) (Hpq : p < q) (Hq : q <= first_page l w 512) (tr : tlb_invalidation_tracker) (Htr : tracker_ok tr).

Lemma child_only b v : own !! b = Some (l, v) → touched own l p q b → b = c.
Proof.
  intros Hb (l2 & v2 & r & Hb' & _ & Hr & Hv). rewrite Hb in Hb'. injection Hb' as <- <-. rewrite <-Hv in Hb.
  eapply (to_unique _ _ (pi_tables _ _ HI)); [exact Hb|]. rewrite Hc. do 2 f_equal.
  apply (Z.div_unique_pos r (span (S l)) w (r - w * span (S l))); unfold first_page in *; rewrite span_S in *; lia.
Qed.

Lemma child_log r : covered x tr r → covered x1 tr r.
Proof. intros [Hf|Hpend]; [|by right]. destruct (um_log _ _ _ _ _ _ _ _ _ Hu r (or_introl Hf)) as [?|[? _]]; [by left|done]. Qed.

Lemma child_tlb r e : maps own x r e → p <= r < q → has e X86_PAGING_ACCESSED = true → forgotten x1 r.
Proof. intros Hm Hr Ha. by destruct (um_tlb _ _ _ _ _ _ _ _ _ Hu r e Hm Hr Ha) as [?|[? _]]. Qed.

Lemma unmapped_child_kept : (∃ k e, ent x1 c k = Some e ∧ e ≠ 0) → unmapped (S l) p q own x tr own1 x1 tr.
Proof.
  intros Hfull. pose proof Hu as [I1 M1 E1 O1 K1 F1 C1 _ _ _ P1]. split; try done.
  - intros b k. destruct (E1 b k) as [->|Ht]; [by left|right; by apply touched_up].
  - intros b l' v Hb Hn. destruct (K1 b l' v Hb Hn). split; [lia|by apply touched_up].
  - intros b l' v Hb Hl Ht. pose proof (touched_level _ _ _ _ _ _ _ Ht (O1 _ _ Hb) l ltac:(lia)) as Ht'.
    destruct (decide (l' = l)) as [->|Hne]; [|by eapply F1; [done|lia|]].
    by rewrite (child_only b v (O1 _ _ Hb) Ht').
  - intros r e Hm Hr Ha. left. by eapply child_tlb.
  - apply child_log.
Qed.

Lemma unmapped_child_freed a v j x2 x' : own !! a = Some (S l, v) → w = 512 * v + j → 0 <= j < 512 → (∀ k e, ent x1 c k = Some e → e = 0) →
  wrote a j 0 x1 x2 → cr3 x' = cr3 x2 → pt_mem x' = delete c (pt_mem x2) → supply x' = c :: supply x2 →
  resident_set_size x' = resident_set_size x1 → page_tables_size x' = u64 (page_tables_size x1 - 4096) → invalidated x' = invalidated x1 →
  unmapped (S l) p q own x tr (delete c own1) x' tr ∧ ∀ k, ent x' a k = if decide (k = j) then Some 0 else ent x1 a k.
Proof.
  intros Ha Hw Hj Hz Hwr Hcr Hm Hsu Hrs Hps Hinv. pose proof Hu as [I1 M1 E1 O1 K1 F1 C1 _ _ _ P1].
  assert (Ha1 : own1 !! a = Some (S l, v)) by (destruct (own1 !! a) as [lv|] eqn:E; [rewrite <-Ha; symmetry; by apply O1|destruct (K1 a _ _ Ha E); lia]).
  assert (Hc1 : own1 !! c = Some (l, 512 * v + j)).
  { rewrite <-Hw. destruct (own1 !! c) as [lv|] eqn:E; [rewrite <-Hc; symmetry; by apply O1|destruct (K1 c _ _ Hc E); lia]. }
  destruct (pt_inv_free own1 a l v j c x1 x2 x' I1 Ha1 Hc1 Hj Hz Hwr Hcr Hm Hsu Hrs Hps) as (HI' & Hmaps & Hent).
  assert (Hac : a ≠ c) by (intros ->; rewrite Ha in Hc; injection Hc; lia).
  assert (Hcov : ∀ r, forgotten x1 r → forgotten x' r) by (unfold forgotten; by rewrite Hinv).
  assert (Hct : touched own (S l) p q c) by (exists l, w, p; split_and!; [done|lia..|]; destruct (in_entry (S l) v j p) as (Hd & _); [|done|rewrite Hd; lia];
    pose proof (first_page_child l v j); subst w; lia).
  split; [|intros k; rewrite Hent by done; case_decide as Hd; case_decide; naive_solver].
  split.
  - done.
  - intros r e. by rewrite Hmaps, M1.
  - intros b k. destruct (decide (b = c)) as [->|Hb]; [by right|]. rewrite Hent by done. case_decide as Hd.
    + right. destruct Hd as [-> _]. exists (S l), v, p. split_and!; [done|lia..|]. pose proof (first_page_child l v j). subst w. apply (in_entry (S l) v j p); lia.
    + destruct (E1 b k) as [->|Ht]; [by left|right; by apply touched_up].
  - intros b lv [_ Hb]%lookup_delete_Some. by apply O1.
  - intros b l' v' Hb Hn. apply lookup_delete_None in Hn as [<-|Hn]; [rewrite Hc in Hb; injection Hb as <- <-; split; [lia|done]|].
    destruct (K1 b l' v' Hb Hn). split; [lia|by apply touched_up].
  - intros b l' v' [Hne Hb]%lookup_delete_Some Hl Ht. pose proof (touched_level _ _ _ _ _ _ _ Ht (O1 _ _ Hb) l ltac:(lia)) as Ht'.
    destruct (decide (l' = l)) as [->|Hl']; [by destruct Hne; rewrite (child_only b v' (O1 _ _ Hb) Ht')|].
    destruct (F1 b l' v' Hb ltac:(lia) Ht') as (k & e & He & H0). exists k, e. rewrite Hent, decide_False; [done| |done].
    intros [-> _]. rewrite Ha1 in Hb. injection Hb; lia.
  - by rewrite Hcr, (wr_cr3 _ _ _ _ _ Hwr).
  - intros r e Hmr Hr Hac'. left. apply Hcov. by eapply child_tlb.
  - intros r [Hf|Hpend]%child_log; [left; by apply Hcov|by right].
  - done.
  - rewrite Hsu, (wr_supply _ _ _ _ _ Hwr). cbn [length]. pose proof (map_size_delete_Some c own1 (ex_intro _ _ Hc1)).
    assert (size own1 ≠ 0)%nat by (apply map_size_non_empty_iff; intros E; by rewrite E, lookup_empty in Hc1). lia.
Qed.
End child.

(** ** The entries of a table *)

(** Where the walk enters a table: at the start of the range, or at the start of the table. *)
Definition enters (b p start : Z) : Prop := p = b ∨ (p = start ∧ b <= p).

Definition all_zero x (a : Z) : Prop := ∀ k e, ent x a k = Some e → e = 0.
Definition some_entry x (a : Z) : Prop := ∃ k e, ent x a k = Some e ∧ e ≠ 0.

(** What the call for a table of level [l] does, in the course of unmapping the pages from [b] to [E]. *)
Definition call_spec (l : nat) (b E : Z) (f : Z → page_table_iterator → PT (Z * page_table_iterator)) : Prop :=
  ∀ own x a v p it, pt_inv own x → own !! a = Some (l, v) → 0 <= p → first_page l v 0 <= p < first_page l v 512 → p < E →
    enters b p (first_page l v 0) → at_page it p E →
  wp (f a it) (λ r x', ∃ own', unmapped l p (Z.min E (first_page l v 512)) own x new_tracker own' x' new_tracker ∧
    at_page r.2 (first_page l v 512) E ∧
    ((l < top)%nat → (r.1 = MMU_UNMAP_CAN_FREE_PML ∧ all_zero x' a) ∨
      (r.1 = MMU_UNMAP_OK ∧ some_entry x' a ∧ ¬ (p = first_page l v 0 ∧ first_page l v 512 <= E)))) x.

Lemma own_kept l own x tr own' x' tr' p q a v : unmapped l p q own x tr own' x' tr' → own !! a = Some (l, v) → own' !! a = Some (l, v).
Proof.
  intros Hu Ha. destruct (own' !! a) as [lv|] eqn:Ea; [rewrite <-Ha; symmetry; by apply (um_own _ _ _ _ _ _ _ _ _ Hu)|].
  destruct (um_kept _ _ _ _ _ _ _ _ _ Hu a l v Ha Ea). lia.
Qed.

(** What one turn of the loop does. *)
Definition turn_post (E : Z) (l : nat) own x tr a v j p (r : page_table_iterator * tlb_invalidation_tracker) x' : Prop :=
  ∃ own', unmapped l p (Z.min E (first_page l v (j + 1))) own x tr own' x' r.2 ∧ at_page r.1 (first_page l v (j + 1)) E ∧
    (∀ k, k ≠ j → ent x' a k = ent x a k) ∧ (ent x' a j = ent x a j ∨ ent x' a j = Some 0) ∧
    (p = first_page l v j → first_page l v (j + 1) <= E → ent x' a j = Some 0).

Lemma wp_unmap_child b E l' next own x a v j p it tr e : call_spec l' b E next → pt_inv own x → own !! a = Some (S l', v) → 0 <= j < 512 → 0 <= p →
  first_page (S l') v j <= p < first_page (S l') v (j + 1) → p < E → enters b p (first_page (S l') v j) → at_page it p E → tracker_ok tr →
  ent x a j = Some e → e ≠ 0 → own !! PML_EXTRACT_ADDRESS e = Some (l', 512 * v + j) →
  wp ('(st, it) ← next (PML_EXTRACT_ADDRESS e) it;
      (if st =? MMU_UNMAP_CAN_FREE_PML then
         write_entry a j 0;; free_pt (PML_EXTRACT_ADDRESS e);; add_tables_size (- 4096)
       else mret tt);;
      mret (it, tr)) (turn_post E (S l') own x tr a v j p) x.
Proof.
  intros Hnext HI Ha Hj H0 Hp HpE Hen Hit Htr He Hne Hc. set (c := PML_EXTRACT_ADDRESS e) in *.
  destruct (first_page_child l' v j) as [Hf0 Hf1]. assert (Hl' : (l' < top)%nat) by (destruct (to_level _ _ (pi_tables _ _ HI) _ _ _ Ha); lia).
  wp_step. eapply wp_mono; [apply (Hnext own x c (512 * v + j) p it); [done|done|done|lia|done|by rewrite <-Hf0|done]|].
  intros [st it'] x1 (own1 & Hu & Hit' & Hst). cbn [fst snd] in *. rewrite <-Hf0, <-Hf1 in *.
  assert (Hsame : ∀ k, ent x1 a k = ent x a k).
  { intros k. destruct (um_ent _ _ _ _ _ _ _ _ _ Hu a k) as [?|(l2 & v2 & r & Ha2 & Hl2 & _)]; [done|]. rewrite Ha in Ha2. injection Ha2; lia. }
  destruct (Hst Hl') as [[-> Hz]|(-> & Hfull & Hpart)].
  - change (MMU_UNMAP_CAN_FREE_PML =? MMU_UNMAP_CAN_FREE_PML) with true. cbn iota. wp_step. wp_step. eapply (wp_write_entry a j e); [by rewrite Hsame|]. intros m' Hw. wp_step. unfold free_pt. wp_step.
    unfold add_tables_size. wp_step. wp_step.
    destruct (unmapped_child_freed own x own1 x1 HI l' p _ Hu c _ Hc ltac:(lia) ltac:(lia) ltac:(lia) tr Htr a v j (set_pt_mem m' x1)
      (set_tables_size (u64 (page_tables_size x1 + -4096)) (set_supply (delete c m') (c :: supply x1) (u64 (allocated_page_tables x1 - 1)) (set_pt_mem m' x1))))
      as [Hu' Hent]; [done..|].
    exists (delete c own1). split_and!; [exact Hu'|done| | |].
    + intros k Hk. rewrite <-Hsame, <-(decide_False (P := k = j) (Some 0) (ent x1 a k)) by done. apply Hent.
    + right. etrans; [apply (Hent j)|by rewrite decide_True].
    + intros _ _. etrans; [apply (Hent j)|by rewrite decide_True].
  - change (MMU_UNMAP_OK =? MMU_UNMAP_CAN_FREE_PML) with false. cbn iota. wp_step. wp_step. wp_step. exists own1. split_and!; [eapply (unmapped_child_kept own x own1 x1 HI l' p _ Hu c _ Hc); [lia|lia|done|done]|done|by intros; apply Hsame|left; apply Hsame|].
    intros -> Hle. by destruct Hpart.
Qed.

Definition with_invalidated (log : list (Z * Z)) x : ptables :=
  PTables (pt_mem x) (cr3 x) (resident_set_size x) (page_tables_size x) (supply x) (allocated_page_tables x) log.

Lemma wp_add_page p tr (Q : tlb_invalidation_tracker → ptables → Prop) x : tracker_ok tr → 0 <= p < 2 ^ 35 →
  (∀ log tr', tracker_ok tr' → (∀ r, covered x tr r → covered (with_invalidated log x) tr' r) → covered (with_invalidated log x) tr' p →
    Q tr' (with_invalidated log x)) →
  wp (add_page (4096 * p) 4096 tr) Q x.
Proof.
  intros Htr Hp HQ. unfold add_page. rewrite (u64_small (4096 * p + 4096)) by lia. destruct (is_started tr && (virt_end tr =? 4096 * p)) eqn:Ec.
  - apply andb_true_iff in Ec as [Hs Hend%Z.eqb_eq]. wp_step. destruct Htr as [Hfl Hse]. destruct (Hse Hs) as (s & e & Hs' & He' & Hle).
    replace x with (with_invalidated (invalidated x) x) at 1 by by destruct x. apply HQ.
    + split; [done|]. intros _. exists s, (p + 1). cbn. lia.
    + intros r [Hf|(_ & ? & ?)]; [by left|right]. cbn. rewrite Hs. split; [done|]. lia.
    + right. cbn. rewrite Hs. split; [done|]. lia.
  - wp_step. apply wp_tracker_flush; [done|]. intros log tr' Hlog _ _. wp_step. fold (with_invalidated log x). apply HQ.
    + split; [done|]. intros _. exists p, (p + 1). cbn. lia.
    + intros r Hr. left. by apply Hlog.
    + right. cbn. split; [done|]. lia.
Qed.

Lemma covered_wrote x x' tr r : invalidated x' = invalidated x → covered x tr r → covered x' tr r.
Proof. unfold covered, forgotten. by intros ->. Qed.

Lemma lower_page own x a l v j p E : tables_ok own x → own !! a = Some (l, v) → first_page l v j <= p → p < E → E <= 2 ^ 35 → lower l j.
Proof.
  intros Ht Ha Hp HpE HE ->. destruct (to_level _ _ Ht _ _ _ Ha) as (_ & _ & Hv). rewrite (Hv eq_refl) in Hp.
  unfold first_page in Hp. change (span top) with (2 ^ 27) in Hp. lia.
Qed.

Lemma wp_unmap_entry b E next own x a l v j p it tr : (∀ l', l = S l' → call_spec l' b E next) → pt_inv own x → own !! a = Some (l, v) → 0 <= j < 512 →
  0 <= p → first_page l v j <= p < first_page l v (j + 1) → p < E → E <= 2 ^ 35 → enters b p (first_page l v j) → at_page it p E → tracker_ok tr →
  wp (unmap_entry next l a j it tr) (turn_post E l own x tr a v j p) x.
Proof.
  intros Hnext HI Ha Hj H0 Hp HpE HE Hen Hit Htr. pose proof (pi_tables _ _ HI) as Ht. destruct (ent_Some own x Ht a l v j Ha Hj) as [e He].
  unfold unmap_entry, x86_pte_empty. wp_step. eapply wp_read_entry; [done|]. destruct (Z.eqb_spec e 0) as [->|Hne].
  - wp_step. exists own. split_and!; [by eapply unmapped_empty; try done; lia| |done|by left|done].
    cbn [fst]. rewrite land_entry_size, entry_size_eq, (proj2 Hit HpE), Z.mul_mod_distr_l by (pose proof (span_pos l); lia).
    replace (4096 * span l - 4096 * (p mod span l)) with (4096 * (span l - p mod span l)) by lia.
    pose proof (Z.mod_pos_bound p (span l) (span_pos l)). destruct (in_entry l v j p Hp Hj) as (Hd & _).
    replace (first_page l v (j + 1)) with (p + (span l - p mod span l)).
    2:{ pose proof (Z.div_mod p (span l) ltac:(pose proof (span_pos l); lia)) as Hdm. rewrite Hd in Hdm. unfold first_page. rewrite span_S. lia. }
    apply at_page_adjust; [done|lia|done|lia].
  - pose proof (lower_page own x a l v j p E Ht Ha ltac:(lia) HpE HE) as Hlow. destruct l as [|l'].
    + cbn [Nat.eqb PT_LEVEL orb]. wp_step. eapply wp_write_entry; [done|]. intros m' Hw.
      unfold first_page in Hp. rewrite span_S, span_0 in Hp. assert (p = 512 * v + j) as -> by lia. 
      assert (Hpost : ∀ log tr', tracker_ok tr' → (∀ r, covered x tr r → covered (with_invalidated log (set_pt_mem m' x)) tr' r) →
        (has e X86_PAGING_ACCESSED = true → covered (with_invalidated log (set_pt_mem m' x)) tr' (512 * v + j)) →
        wp (add_resident (- level_to_entry_size 0);; mret (adjust_length (level_to_entry_size 0) it, tr'))
          (turn_post E 0 own x tr a v j (512 * v + j)) (with_invalidated log (set_pt_mem m' x))).
      { intros log tr' Htr' Hlog Hacc. change (level_to_entry_size 0) with (4096 * 1). unfold add_resident. wp_step. wp_step.
        assert (Hfp : first_page 0 v (j + 1) = 512 * v + j + 1) by (unfold first_page; rewrite span_S, span_0; lia).
        exists own. rewrite Hfp, Z.min_r by lia. split_and!.
        - apply (unmapped_leaf own a v j e); try done. destruct Hw as [W1 W2 W3 W4]. by split.
        - cbn [fst]. apply at_page_adjust; [done|lia|done|lia].
        - intros k Hk. etrans; [apply (wr_ent _ _ _ _ _ Hw)|]. rewrite decide_False; [done|]. intros []; congruence.
        - right. etrans; [apply (wr_ent _ _ _ _ _ Hw)|]. by rewrite decide_True.
        - intros _ _. etrans; [apply (wr_ent _ _ _ _ _ Hw)|]. by rewrite decide_True. }
      wp_step. destruct (has e X86_PAGING_ACCESSED) eqn:Hacc.
      * change (level_to_entry_size 0) with 4096 at 1. rewrite (proj2 Hit HpE). apply wp_add_page; [done|lia|]. intros log tr' Htr' Hlog Hcov. apply Hpost; [done|exact Hlog|done].
      * wp_step. apply (Hpost (invalidated x)); [done| |done]. intros r. by apply covered_wrote.
    + destruct (to_child _ _ Ht a l' v j e Ha He Hne Hlow) as (Hpr & Hhu & Hc). rewrite Hhu, andb_false_r. cbn [Nat.eqb PT_LEVEL orb].
      rewrite Hpr. wp_step. cbn [check]. wp_step. by eapply wp_unmap_child; try done; apply Hnext.
Qed.

(** ** The loop over the entries *)

Definition loop_post (E : Z) (l : nat) own x tr a v j p (r : Z * page_table_iterator * tlb_invalidation_tracker) x' : Prop :=
  ∃ own', unmapped l (Z.min E p) (Z.min E (first_page l v 512)) own x tr own' x' r.2 ∧ at_page r.1.2 (first_page l v 512) E ∧
    (r.1.1 = 512 → j = 512 ∨ first_page l v 511 < E) ∧
    (∀ k, ent x' a k = ent x a k ∨ ent x' a k = Some 0) ∧
    (∀ k, j <= k < 512 → p <= first_page l v k → first_page l v (k + 1) <= E → ent x' a k = Some 0).

Lemma first_page_mono l v j k : j <= k → first_page l v j <= first_page l v k.
Proof. intros. unfold first_page. pose proof (span_pos l). nia. Qed.

Lemma wp_unmap_loop b E next l v a n : (∀ l', l = S l' → call_spec l' b E next) → E <= 2 ^ 35 →
  ∀ j p own x it tr, n = Z.to_nat (512 - j) → 0 <= j <= 512 → pt_inv own x → own !! a = Some (l, v) → tracker_ok tr → at_page it p E →
  0 <= p → b <= p → first_page l v j <= p → (j = 512 → p = first_page l v 512) → (j < 512 → p < first_page l v (j + 1)) →
  enters b p (first_page l v j) →
  wp (unmap_loop next n l a j it tr) (loop_post E l own x tr a v j p) x.
Proof.
  intros Hnext HE. induction n as [|n IH]; intros j p own x it tr Hn Hj HI Ha Htr Hit H0 Hb Hp Hlast Hin Hen; cbn [unmap_loop].
  - assert (j = 512) as -> by lia. rewrite (Hlast eq_refl). wp_step. exists own. cbn [fst snd].
    split_and!; [apply unmapped_none; [done..|intros; lia|intros; lia]|by rewrite <-(Hlast eq_refl)|by left|by left|intros; lia].
  - assert (Hj' : j < 512) by lia. specialize (Hin Hj'). pose proof (first_page_mono l v (j + 1) 512 ltac:(lia)) as Hmono.
    destruct (Z.eqb_spec (length_ it) 0) as [Hz|Hnz].
    + assert (E <= p) by (destruct Hit; lia). wp_step. exists own. cbn [fst snd]. rewrite !Z.min_l by lia.
      split_and!; [apply unmapped_none; [done..|intros; lia|intros; lia]|eapply at_page_done; [done|lia..]|lia|by left|].
      intros k Hk. pose proof (first_page_next l v k). pose proof (span_pos l). lia.
    + assert (HpE : p < E) by (destruct Hit; lia). wp_step. eapply wp_mono; [eapply wp_unmap_entry; try done; lia|].
      intros [it' tr'] x1 (own1 & Hu & Hit' & Hoth & Hsame & Hfull). cbn [fst snd] in *.
      eapply wp_mono; [eapply (IH (j + 1) (first_page l v (j + 1)) own1 x1); try done; try lia|].
      * apply (um_inv _ _ _ _ _ _ _ _ _ Hu).
      * by eapply own_kept.
      * apply (um_tracker _ _ _ _ _ _ _ _ _ Hu).
      * by intros ->.
      * intros. apply (first_page_next l v (j + 1)) || (rewrite (first_page_next l v (j + 1)); pose proof (span_pos l); lia).
      * right. split; [done|lia].
      * intros [[i it2] tr2] x2 (own2 & Hu2 & Hit2 & Hi & Hs2 & Hf2). cbn [fst snd] in *. exists own2. cbn [fst snd]. rewrite (Z.min_r E p) by lia. split_and!.
        -- eapply unmapped_trans; [|exact Hu|exact Hu2]. lia.
        -- done.
        -- intros Hi'. right. destruct (Hi Hi') as [Hj1|?]; [|done]. assert (j = 511) as -> by lia. lia.
        -- intros k. destruct (Hs2 k) as [->|?]; [|by right]. destruct (decide (k = j)) as [->|]; [done|]. left. by apply Hoth.
        -- intros k Hk Hpk HkE. destruct (decide (k = j)) as [->|]; [|apply Hf2; [lia| |done]; apply first_page_mono; lia].
           destruct (Hs2 j) as [->|?]; [|done]. apply Hfull; [lia|done].
Qed.

(** ** A table and the tables below it *)

Lemma unmapped_end l p q own x tr own' x' tr' log : unmapped l p q own x tr own' x' tr' →
  (∀ r, covered x' tr' r → forgotten (with_invalidated log x') r) → unmapped l p q own x tr own' (with_invalidated log x') new_tracker.
Proof.
  intros [[[I1 I2 I3 I4 I5 I6] [I7 I8 I9] [I10 I11] I12] M1 E1 O1 K1 F1 C1 T1 L1 R1 P1] Hlog. split; try done; try (by split).
  - intros r e Hm Hr Ha. left. by eapply Hlog, T1.
  - intros r Hr. left. by apply Hlog, L1.
Qed.

Lemma wp_tracker_end tr (Q : unit → ptables → Prop) x : tracker_ok tr →
  (∀ log, (∀ r, covered x tr r → forgotten (with_invalidated log x) r) → Q tt (with_invalidated log x)) → wp (tracker_end tr) Q x.
Proof.
  intros Htr HQ. unfold tracker_end. destruct (is_started tr) eqn:Hs; cbn [andb].
  - rewrite (proj1 Htr). cbn [negb]. wp_step. apply wp_tracker_flush; [done|]. intros log tr' Hlog _ _. wp_step. by apply HQ.
  - wp_step. replace x with (with_invalidated (invalidated x) x) at 1 by by destruct x. apply HQ. intros r [Hf|[? _]]; [done|congruence].
Qed.

Lemma pml_is_empty_spec x a es : pt_mem x !! a = Some es → if pml_is_empty es then all_zero x a else some_entry x a.
Proof.
  intros Hes. unfold all_zero, some_entry, ent. rewrite Hes. cbn [mbind option_bind]. clear Hes. induction es as [|e es IH].
  - intros k e Hk. apply aget_Some_lt in Hk. cbn in Hk. lia.
  - cbn [pml_is_empty forallb]. destruct (Z.eqb_spec e 0) as [->|Hne]; cbn [andb].
    + fold (pml_is_empty es). destruct (pml_is_empty es).
      * intros k e Hk. pose proof (aget_Some_lt _ _ _ Hk). destruct (decide (k = 0)) as [->|]; [by injection Hk|].
        apply (IH (k - 1)). rewrite <-Hk. symmetry. apply (aget_app_r [0] es k). cbn. lia.
      * destruct IH as (k & e & Hk & ?). exists (k + 1), e. split; [|done]. pose proof (aget_Some_lt _ _ _ Hk). rewrite <-Hk.
        etrans; [apply (aget_app_r [0] es (k + 1)); cbn; lia|]. f_equal. cbn. lia.
    + by exists 0, e.
Qed.

(** A range with pages behind both the first and the last entry of a table of level one or two has
    all the pages of that table. *)
Definition whole_tables (b E : Z) : Prop := ∀ l v, (0 < l < top)%nat →
  b < first_page l v 1 → first_page l v 511 < E → b <= first_page l v 0 ∧ first_page l v 512 <= E.

Lemma whole_table b E l v p : whole_tables b E → (l < top)%nat → first_page l v 0 <= p < first_page l v 1 → b <= p →
  enters b p (first_page l v 0) → first_page l v 511 < E → p = first_page l v 0 ∧ first_page l v 512 <= E.
Proof.
  intros Hwt Hl Hp Hb Hen HE. destruct l as [|l].
  - unfold first_page in *. rewrite span_S, span_0 in *. lia.
  - destruct (Hwt (S l) v ltac:(lia) ltac:(lia) HE) as [Hb0 HE']. split; [|done]. destruct Hen as [->|[? _]]; lia.
Qed.

Lemma index_entry l v p : 0 <= p → first_page l v 0 <= p < first_page l v 512 →
  0 <= addr_get_index (4096 * p) l < 512 ∧ first_page l v (addr_get_index (4096 * p) l) <= p < first_page l v (addr_get_index (4096 * p) l + 1).
Proof.
  intros H0 Hp. rewrite index_of by lia. rewrite (Z.mul_comm 4096), Z.div_mul by lia. unfold first_page in *. rewrite span_S in *.
  pose proof (span_pos l) as Hs. pose proof (Z.div_mod p (span l) ltac:(lia)) as Hdm. pose proof (Z.mod_pos_bound p (span l) Hs).
  set (d := p / span l) in *. assert (512 * v <= d < 512 * v + 512) by nia.
  replace (d mod 512) with (d - 512 * v) by (Z.to_euclidean_division_equations; lia). nia.
Qed.

Lemma all_zero_log x a log : all_zero x a → all_zero (with_invalidated log x) a.
Proof. done. Qed.

Lemma wp_unmap_call b E l next : (∀ l', l = S l' → call_spec l' b E next) → E <= 2 ^ 35 → whole_tables b E →
  call_spec l b E (λ a it,
    let index := addr_get_index (curr_addr_ it) l in
    '(i, it, tr) ← unmap_loop next (Z.to_nat (PAGE_TABLE_ENTRIES - index)) l a index it new_tracker;
    let unmapped_whole_table := (index =? 0) && (i =? PAGE_TABLE_ENTRIES) in
    m ← gets pt_mem;
    es ← from_opt (m !! a) UseAfterFree;
    tracker_end tr;;
    if negb (l =? x86_paging_levels - 1)%nat && (unmapped_whole_table || pml_is_empty es)
    then mret (MMU_UNMAP_CAN_FREE_PML, it)
    else mret (MMU_UNMAP_OK, it)).
Proof.
  intros Hnext HE Hwt own x a v p it HI Ha H0 Hp HpE Hen Hit. rewrite (proj2 Hit HpE). cbn zeta.
  destruct (index_entry l v p H0 Hp) as [Hj Hpj]. set (j := addr_get_index (4096 * p) l) in *.
  assert (Hb : b <= p) by (destruct Hen; lia). pose proof (first_page_mono l v 0 j ltac:(lia)) as Hm0.
  wp_step. eapply wp_mono; [eapply (wp_unmap_loop b E next l v a _ Hnext HE j p); try done; try lia|].
  { destruct Hen as [->|[Hps _]]; [by left|right]. lia. }
  intros [[i it'] tr'] x1 (own1 & Hu & Hit' & Hi & Hsame & Hfull). cbn [fst snd] in *. rewrite (Z.min_r E p) in Hu by lia.
  assert (Ha1 : own1 !! a = Some (l, v)) by by eapply own_kept. pose proof (um_inv _ _ _ _ _ _ _ _ _ Hu) as HI1.
  destruct (to_table _ _ (pi_tables _ _ HI1) _ _ _ Ha1) as (es & Hes & Hlen). do 3 wp_step. eapply wp_from_opt; [done|]. wp_step.
  apply wp_tracker_end; [apply (um_tracker _ _ _ _ _ _ _ _ _ Hu)|]. intros log Hlog.
  pose proof (unmapped_end _ _ _ _ _ _ _ _ _ log Hu Hlog) as Hu'. pose proof (pml_is_empty_spec x1 a es Hes) as Hemp.
  assert (Hcov : p = first_page l v 0 → first_page l v 512 <= E → all_zero x1 a).
  { intros Hp0 HE' k e Hk. pose proof (ent_range own1 x1 (pi_tables _ _ HI1) a l v k e Ha1 Hk) as Hkr.
    assert (j = 0) as Ej by (unfold first_page in *; nia). rewrite Hfull in Hk; [by injection Hk|lia| |].
    - rewrite Hp0. apply first_page_mono. lia.
    - etrans; [apply (first_page_mono l v (k + 1) 512); lia|done]. }
  destruct (negb _ && _) eqn:Hc; wp_step; (exists own1; split; [exact Hu'|split; [exact Hit'|]]); intros Hl; cbn [fst].
  - left. split; [done|]. apply all_zero_log. apply andb_true_iff in Hc as [_ [Hwh|Hemp']%orb_true_iff]; [|by rewrite Hemp' in Hemp].
    apply andb_true_iff in Hwh as [Hj0%Z.eqb_eq Hi0%Z.eqb_eq]. destruct (Hi Hi0) as [?|H511]; [lia|]. rewrite Hj0 in Hpj. change (0 + 1) with 1 in Hpj.
    destruct (whole_table b E l v p Hwt Hl ltac:(lia) Hb Hen H511). by apply Hcov.
  - right. assert (Hlt : negb (l =? x86_paging_levels - 1)%nat = true) by (apply negb_true_iff, Nat.eqb_neq; unfold x86_paging_levels, top in *; lia).
    rewrite Hlt in Hc. cbn [andb] in Hc. apply orb_false_iff in Hc as [_ Hc]. rewrite Hc in Hemp. split_and!; [done|done|].
    intros [Hp0 HE']. destruct Hemp as (k & e & Hk & Hne). by apply Hne, (Hcov Hp0 HE' k e).
Qed.

Theorem x86_mmu_unmap_spec b E l : E <= 2 ^ 35 → whole_tables b E → call_spec l b E (x86_mmu_unmap l).
Proof.
  intros HE Hwt. induction l as [|l IH]; cbn [x86_mmu_unmap]; apply wp_unmap_call; try done.
  by intros l' [= <-].
Qed.
