(* ===== verification/PageTableProps.v ===== *)
(** * PageTableProps: what mapping, protecting and unmapping pages do

    The tables of an address space map pages of its regions only, and no table is there
    without an entry or a region it is for.  Mapping a page sets the entry of that page and
    no other; changing its protection keeps a page that is write-protected so; unmapping a range takes
    the pages of the range out and no others, with the tables that become empty. *)

From S2P Require Import Prelude Abi Bits PageAlloc Vm PageTable PageTableFacts PageTableUnmap.

Implicit Types (own : owned) (x : ptables) (R : list (Z * Z)).

(** ** Tables and regions *)

(** Page [p] is of one of the regions, each the number of its first page and its size. *)
Definition in_regions R (p : Z) : Prop := ∃ b n, (b, n) ∈ R ∧ b <= p < b + n.

Record mmu_ok R own x : Prop := {
  mk_inv : pt_inv own x;
  mk_in : ∀ p e, maps own x p e → in_regions R p;
  mk_live : ∀ a l v, own !! a = Some (l, v) → (l < top)%nat → some_entry x a ∨ ∃ p, in_regions R p ∧ p / span (S l) = v
}.

(** An entry of the last level is set. *)
Lemma pt_inv_set own a w j e e' x x' : pt_inv own x → own !! a = Some (0%nat, w) → ent x a j = Some e → e' ≠ 0 →
  wrote a j e' x x' → resident_set_size x' = (if e =? 0 then u64 (resident_set_size x + 4096) else resident_set_size x) →
  page_tables_size x' = page_tables_size x →
  pt_inv own x' ∧ ∀ q e1, maps own x' q e1 ↔ if decide (q = 512 * w + j) then e1 = e' else maps own x q e1.
Proof.
  intros [Ht [(D & HD & Hr) Hts Hf] Hs Had] Ha He H0 Hw Hrs Hps. pose proof (ent_range own x Ht _ _ _ _ _ Ha He) as Hj.
  assert (Hmaps : ∀ q e1, maps own x' q e1 ↔ if decide (q = 512 * w + j) then e1 = e' else maps own x q e1).
  { intros q e1. rewrite (maps_leaf own a w j e' x x' q e1 Ht Ha Hj Hw). case_decide; [|done]. naive_solver. }
  assert (Hdm : (512 * w + j) / 512 = w ∧ (512 * w + j) mod 512 = j) by (Z.to_euclidean_division_equations; lia).
  split; [|done]. split; [by eapply tables_ok_leaf|split|by eapply supply_wrote|done].
  - exists (D ∪ {[512 * w + j]}). split.
    + intros q. rewrite elem_of_union, HD, elem_of_singleton. setoid_rewrite Hmaps. case_decide; naive_solver.
    + rewrite Hrs, Hr. pose proof (resident_small own x D Ht HD). destruct (Z.eqb_spec e 0) as [->|Hne].
      * rewrite size_union, size_singleton, u64_small by (try lia; apply disjoint_singleton_r; rewrite HD;
          intros (e1 & Hne & t & Hta & Hte); rewrite (proj1 Hdm) in Hta; rewrite (proj2 Hdm) in Hte;
          assert (t = a) as -> by (by eapply (to_unique _ _ Ht)); congruence). lia.
      * replace (D ∪ {[512 * w + j]}) with D; [done|]. apply leibniz_equiv. assert (512 * w + j ∈ D); [|set_solver]. apply HD. exists e.
        split; [done|]. exists a. by rewrite (proj1 Hdm), (proj2 Hdm).
  - by rewrite Hps.
  - by rewrite (wr_supply _ _ _ _ _ Hw).
Qed.

Lemma wrote_some a j e' x x' b : wrote a j e' x x' → e' ≠ 0 → some_entry x b → some_entry x' b.
Proof.
  intros Hw He' (k & e & Hk & Hne). exists k. rewrite (wr_ent _ _ _ _ _ Hw). case_decide; [by exists e'|by exists e].
Qed.

Lemma wrote_resident a j e' x x' n : wrote a j e' x x' → wrote a j e' x (set_resident n x').
Proof. intros [H1 H2 H3 H4]. by split. Qed.

(** The entry [e'] for page [p] of one of the regions. *)
Lemma mmu_ok_set R own a p e e' x x' : mmu_ok R own x → in_regions R p → 0 <= p < 2 ^ 35 →
  own !! a = Some (0%nat, p / 512) → ent x a (p mod 512) = Some e → e' ≠ 0 →
  wrote a (p mod 512) e' x x' → resident_set_size x' = (if e =? 0 then u64 (resident_set_size x + 4096) else resident_set_size x) →
  page_tables_size x' = page_tables_size x →
  mmu_ok R own x' ∧ entry_of x' p = e' ∧ ∀ q, 0 <= q < 2 ^ 35 → q ≠ p → entry_of x' q = entry_of x q.
Proof.
  intros [HI Hin Hl] HpR Hp Ha He Hne Hw Hrs Hps. destruct (pt_inv_set own a _ _ e e' x x' HI Ha He Hne Hw Hrs Hps) as [HI' Hm].
  pose proof (Z.div_mod p 512 ltac:(lia)) as Hdm. rewrite <-Hdm in Hm. split_and!.
  - split; [done| |].
    + intros q e1 Hq%Hm. case_decide; [by subst|by eapply Hin].
    + intros b l v Hb Hlt. destruct (Hl b l v Hb Hlt); [left; by eapply wrote_some|by right].
  - apply (entry_of_maps own x' (pi_tables _ _ HI') p Hp e' Hne), Hm. by rewrite decide_True.
  - intros q Hq Hqp. apply (entry_of_ext own x own x' q (pi_tables _ _ HI) (pi_tables _ _ HI') Hq). intros e1. by rewrite Hm, decide_False.
Qed.

(** ** Mapping *)

Lemma mmu_ok_walked R p own x own' x' : mmu_ok R own x → in_regions R p → walked p own x own' x' → mmu_ok R own' x'.
Proof.
  intros [HI Hin Hl] HpR [I1 M1 C1 O1 N1 K1]. split; [done|intros q e Hq%M1; by eapply Hin|].
  intros b l v Hb Hlt. destruct (N1 b l v Hb) as [Hb'|<-]; [|right; by exists p].
  destruct (Hl b l v Hb' Hlt) as [(k & e & Hk & Hne)|?]; [left|by right]. exists k, e. split; [|done]. by eapply K1.
Qed.

Lemma page_prots_ne pat prot : page_prots pat prot ≠ 0.
Proof.
  unfold page_prots. destruct (has prot VM_EXEC); cbn [negb orb].
  - rewrite orb_true_r. by intros [_ ?]%Z.lor_eq_0_iff.
  - intros H. by repeat match goal with H : Z.lor _ _ = 0 |- _ => apply Z.lor_eq_0_iff in H as [? ?] end.
Qed.

Lemma wp_map_page R pat own x p phys prot : mmu_ok R own x → in_regions R p → 0 <= p < 2 ^ 35 →
  wp (vm_map_page pat (4096 * p) phys prot) (λ r x', ∃ own', mmu_ok R own' x' ∧ (∀ q, 0 <= q < 2 ^ 35 → q ≠ p → entry_of x' q = entry_of x q) ∧
    match r with
    | None => (length (supply x) < 3)%nat ∧ entry_of x p = 0 ∧ entry_of x' p = 0
    | Some virt => virt = 4096 * p ∧ entry_of x' p =
        if has prot VM_DONT_MAP_OVER && has (entry_of x p) X86_PAGING_PRESENT then entry_of x p else Z.lor phys (page_prots pat prot)
    end) x.
Proof.
  intros HM HpR Hp. unfold vm_map_page, paging_map_phys_to_virt. pose proof (pi_tables _ _ (mk_inv _ _ _ HM)) as Ht. do 3 wp_step.
  eapply wp_mono; [apply (wp_map_walk p _ 3 Hp); [by destruct (has prot VM_USER)|by destruct (has prot VM_USER)|apply HM|by apply root_of_page]|].
  intros r x1 (own1 & Hwk & Hr). pose proof (mmu_ok_walked _ _ _ _ _ _ HM HpR Hwk) as HM1. pose proof (pi_tables _ _ (mk_inv _ _ _ HM1)) as Ht1.
  assert (Hsame : ∀ q, 0 <= q < 2 ^ 35 → entry_of x1 q = entry_of x q).
  { intros q Hq. apply (entry_of_ext own x own1 x1 q Ht Ht1 Hq). intros e. apply (wk_maps _ _ _ _ _ Hwk). }
  destruct r as [t|]; [|wp_step; exists own1; split_and!; [done|auto|apply Hr| |]].
  2:{ apply (entry_of_none own x Ht p Hp). apply Hr. }
  2:{ rewrite Hsame by done. apply (entry_of_none own x Ht p Hp). apply Hr. }
  rewrite index_page, span_0, Z.div_1_r by lia. destruct (ent_Some own1 x1 Ht1 t 0 _ (p mod 512) Hr) as [e He]; [apply Z.mod_pos_bound; lia|].
  assert (Hold : entry_of x p = e).
  { rewrite <-Hsame by done. destruct (decide (e = 0)) as [->|]; [|by apply (entry_of_maps own1 x1 Ht1 p Hp); [done|split; eauto]].
    apply (entry_of_none own1 x1 Ht1 p Hp). intros e (Hne & t' & Ht' & He'). assert (t' = t) as -> by by eapply (to_unique _ _ Ht1). congruence. }
  wp_step. eapply wp_read_entry; [done|]. destruct (has prot VM_DONT_MAP_OVER && has e X86_PAGING_PRESENT) eqn:Hover.
  { wp_step. exists own1. rewrite Hold, Hover. split_and!; [done|auto|done|by rewrite Hsame]. }
  wp_step. eapply wp_write_entry; [done|]. intros m' Hw.
  assert (Hne : Z.lor phys (page_prots pat prot) ≠ 0) by (intros [_ E]%Z.lor_eq_0_iff; by apply page_prots_ne in E).
  unfold x86_pte_empty, add_resident. wp_step. destruct (e =? 0) eqn:E0; wp_step; wp_step; exists own1; rewrite Hold, Hover.
  - destruct (mmu_ok_set R own1 t p e _ x1 _ HM1 HpR Hp Hr He Hne (wrote_resident _ _ _ _ _ _ Hw) ltac:(by rewrite E0) eq_refl) as (? & ? & Hq).
    split_and!; [done|intros; rewrite Hq; auto|done..].
  - destruct (mmu_ok_set R own1 t p e _ x1 _ HM1 HpR Hp Hr He Hne Hw ltac:(by rewrite E0) eq_refl) as (? & ? & Hq).
    split_and!; [done|intros; rewrite Hq; auto|done..].
Qed.

(** ** Unmapping *)

Lemma mmu_ok_unmapped R R' b q own x own' x' : mmu_ok R own x → unmapped top b q own x new_tracker own' x' new_tracker →
  (∀ p, in_regions R p → b <= p < q ∨ in_regions R' p) → mmu_ok R' own' x'.
Proof.
  intros [HI Hin Hl] [I1 M1 E1 O1 K1 F1 C1 T1 L1 R1 P1] HR. split; [done| |].
  - intros p e [Hm Hp]%M1. by destruct (HR p (Hin p e Hm)).
  - intros a l v Ha Hlt. pose proof (O1 _ _ Ha) as Ha0. assert (Hdec : touched own top b q a ∨ ¬ ∃ r, b <= r < q ∧ r / span (S l) = v).
    { destruct (decide (v * span (S l) < q ∧ b < (v + 1) * span (S l) ∧ b < q)) as [(H1 & H2 & H3)|Hn]; [left|right].
      - pose proof (span_pos (S l)) as Hs. exists l, v, (Z.max b (v * span (S l))). split_and!; [done|lia..|].
        symmetry. apply (Z.div_unique_pos _ _ _ (Z.max b (v * span (S l)) - v * span (S l))); lia.
      - intros (r & Hr & <-). pose proof (span_pos (S l)) as Hs. pose proof (Z.div_mod r (span (S l)) ltac:(lia)). pose proof (Z.mod_pos_bound r (span (S l)) Hs). lia. }
    destruct Hdec as [Ht|Hn]; [left; by eapply F1|]. assert (Hsame : ∀ k, ent x' a k = ent x a k).
    { intros k. destruct (E1 a k) as [?|(l2 & v2 & r & Ha2 & _ & Hr & Hv)]; [done|]. rewrite Ha0 in Ha2. injection Ha2 as <- <-. destruct Hn. by exists r. }
    destruct (Hl a l v Ha0 Hlt) as [(k & e & Hk & ?)|(p & Hp & Hv)]; [left; exists k, e; by rewrite Hsame|].
    destruct (HR p Hp) as [?|?]; [destruct Hn; by exists p|right; by exists p].
Qed.

Lemma wp_mmu_unmap R R' own x b n : mmu_ok R own x → (∀ p, in_regions R p → b <= p < b + n ∨ in_regions R' p) →
  0 <= b → 0 < n → b + n <= 2 ^ 35 → whole_tables b (b + n) →
  wp (vm_mmu_unmap (4096 * b) n) (λ r x', r = 0 ∧ cr3 x' = cr3 x ∧ ∃ own', mmu_ok R' own' x' ∧
    (size own' + length (supply x') = size own + length (supply x))%nat ∧
    (∀ p, 0 <= p < 2 ^ 35 → entry_of x' p = if decide (b <= p < b + n) then 0 else entry_of x p) ∧
    (∀ p, b <= p < b + n → has (entry_of x p) X86_PAGING_ACCESSED = true → forgotten x' p) ∧
    (∀ a l v, own' !! a = Some (l, v) → (l < top)%nat → touched own top b (b + n) a → some_entry x' a)) x.
Proof.
  intros HM HR Hb Hn HE Hwt. pose proof (mk_inv _ _ _ HM) as HI. pose proof (pi_tables _ _ HI) as Ht. unfold vm_mmu_unmap.
  assert (Hsz : u64 (Z.shiftl n 12) = 4096 * n) by (rewrite Z.shiftl_mul_pow2, u64_small by lia; lia). rewrite Hsz.
  assert (Hf : first_page top 0 0 = 0 ∧ first_page top 0 512 = 2 ^ 36) by done. do 3 wp_step.
  eapply wp_mono; [apply (x86_mmu_unmap_spec b (b + n) top HE Hwt own x (cr3 x) 0 b); [done|apply (to_root _ _ Ht)|done|lia|lia|by left|split; cbn; lia]|].
  intros [st it] x' (own' & Hu & Hit & _). cbn [snd] in *. rewrite Z.min_l in Hu by lia.
  pose proof (mmu_ok_unmapped _ _ _ _ _ _ _ _ HM Hu HR) as HM'. pose proof (pi_tables _ _ (mk_inv _ _ _ HM')) as Ht'. destruct Hu as [I1 M1 E1 O1 K1 F1 C1 T1 L1 R1 P1].
  assert (Hlen : length_ it = 0) by (destruct Hit; lia). wp_step. wp_step; [by apply Z.eqb_eq|]. wp_step. split_and!; [done..|]. exists own'. split_and!; [done|done| | |].
  - intros p Hp. case_decide as Hd.
    + apply (entry_of_none own' x' Ht' p Hp). intros e [_ ?]%M1. tauto.
    + apply (entry_of_ext own x own' x' p Ht Ht' Hp). intros e. rewrite M1. tauto.
  - intros p Hp Ha. destruct (entry_of_cases own x Ht p ltac:(lia)) as [[E _]|Hm]; [by rewrite E in Ha|].
    by destruct (T1 p _ Hm Hp Ha) as [?|[? _]].
  - intros a l v Ha Hl Htou. by eapply F1.
Qed.

(** ** Protecting *)

Lemma wp_mprotect_page R pat own x p old_prots new_prots : mmu_ok R own x → 0 <= p < 2 ^ 35 →
  wp (vm_mmu_mprotect_page pat (4096 * p) old_prots new_prots) (λ _ x', mmu_ok R own x' ∧
    (∀ q, 0 <= q < 2 ^ 35 → q ≠ p → entry_of x' q = entry_of x q) ∧
    entry_of x' p = if entry_of x p =? 0 then 0 else
      Z.lor (PML_EXTRACT_ADDRESS (entry_of x p))
        (page_prots pat (if negb (has (entry_of x p) X86_PAGING_WRITE) && has old_prots VM_WRITE then Z.ldiff new_prots VM_WRITE else new_prots))) x.
Proof.
  intros HM Hp. pose proof (pi_tables _ _ (mk_inv _ _ _ HM)) as Ht. unfold vm_mmu_mprotect_page. wp_step. apply (wp_x86_get_pt_entry own x Ht p Hp).
  - intros Hn%(entry_of_none own x Ht p Hp). wp_step. by rewrite Hn.
  - intros t Hta. destruct (ent_Some own x Ht t 0 _ (p mod 512) Hta) as [e He]; [apply Z.mod_pos_bound; lia|].
    wp_step. eapply wp_read_entry; [done|]. destruct (Z.eqb_spec e 0) as [->|Hne].
    + wp_step. replace (entry_of x p) with 0; [done|]. symmetry. apply (entry_of_none own x Ht p Hp).
      intros e (Hne & t' & Ht' & He'). assert (t' = t) as -> by by eapply (to_unique _ _ Ht). congruence.
    + assert (Hm : maps own x p e) by (split; eauto). rewrite (proj2 (entry_of_maps own x Ht p Hp e Hne) Hm), (proj2 (Z.eqb_neq e 0)) by done.
      eapply wp_write_entry; [done|]. intros m' Hw.
      set (e' := Z.lor _ _) in *. assert (Hne' : e' ≠ 0) by (intros [_ E]%Z.lor_eq_0_iff; by apply page_prots_ne in E).
      destruct (mmu_ok_set R own t p e e' x _ HM ltac:(by eapply mk_in) Hp Hta He Hne' Hw) as (? & ? & Hq); [by rewrite (proj2 (Z.eqb_neq e 0))|done|].
      done.
Qed.

Lemma prots_write pat prot : has (page_prots pat prot) X86_PAGING_WRITE = has prot VM_WRITE.
Proof.
  assert (Hc : ∀ type, Z.testbit (X86_CACHING_BITS (cache_to_paging_bits pat type)) 1 = false).
  { intros type. unfold X86_CACHING_BITS. rewrite Z.lor_spec, !Z.shiftl_spec by lia. by rewrite !Z.testbit_neg_r by lia. }
  change X86_PAGING_WRITE with (2 ^ 1). rewrite has_pow2 by lia. unfold page_prots. rewrite !Z.lor_spec, Hc.
  destruct (has prot VM_EXEC), (has prot VM_USER), (has prot VM_WRITE), (has prot (Z.lor VM_READ VM_WRITE)); done.
Qed.

Lemma address_write e : Z.testbit (PML_EXTRACT_ADDRESS e) 1 = false.
Proof. unfold PML_EXTRACT_ADDRESS. rewrite Z.land_spec. apply andb_false_r. Qed.

Lemma entry_write pat e prot : has (Z.lor (PML_EXTRACT_ADDRESS e) (page_prots pat prot)) X86_PAGING_WRITE = has prot VM_WRITE.
Proof.
  rewrite <-(prots_write pat prot). change X86_PAGING_WRITE with (2 ^ 1). by rewrite !has_pow2, Z.lor_spec, address_write by lia.
Qed.

(** ** Properties *)

(** Mapping a page of a region.  [vm_map_page] returns the null pointer only when there
    are fewer than three pages for new tables and the page was not mapped, and then no page's
    entry has changed; otherwise the page's entry becomes the physical page with the bits for
    its protection, unless it was present and [VM_DONT_MAP_OVER] is asked for.  No other page's
    entry changes.  The tables stay a tree that maps pages of the regions only, with every
    table in use or for a page of a region, the resident size the number of pages mapped
    and the size of the tables the number of tables. *)
Theorem vm_map_page_exact R pat own x p phys prot : mmu_ok R own x → in_regions R p → 0 <= p < 2 ^ 35 →
  ∃ r x' own', vm_map_page pat (4096 * p) phys prot x = Done (r, x') ∧ mmu_ok R own' x' ∧
    (∀ q, 0 <= q < 2 ^ 35 → q ≠ p → entry_of x' q = entry_of x q) ∧
    match r with
    | None => (length (supply x) < 3)%nat ∧ entry_of x p = 0 ∧ entry_of x' p = 0
    | Some virt => virt = 4096 * p ∧ entry_of x' p =
        if has prot VM_DONT_MAP_OVER && has (entry_of x p) X86_PAGING_PRESENT then entry_of x p else Z.lor phys (page_prots pat prot)
    end.
Proof.
  intros HM HpR Hp. destruct (proj1 (wp_done _ _ _) (wp_map_page R pat own x p phys prot HM HpR Hp)) as (r & x' & E & own' & H1 & H2 & H3).
  by exists r, x', own'.
Qed.

(** C3: unmapping a range of pages of the lower half which, if it has pages behind both the first and the
    last entry of a page directory or of the table above, has all the pages of that table (ranges of
    up to 1020 MiB are so).  [vm_mmu_unmap] succeeds; the pages of the range have no entry
    afterwards and the others have the one they had; the TLB is told to forget every page of the range
    that was accessed; a table for a page of the range is kept only if it has entries left, and the pages of the
    tables that go are free again.  The tables stay as they have to be for the regions that
    are left, the counters of resident pages and of tables included. *)
Theorem vm_mmu_unmap_exact R R' own x b n : mmu_ok R own x → (∀ p, in_regions R p → b <= p < b + n ∨ in_regions R' p) →
  0 <= b → 0 < n → b + n <= 2 ^ 35 → whole_tables b (b + n) →
  ∃ x' own', vm_mmu_unmap (4096 * b) n x = Done (0, x') ∧ mmu_ok R' own' x' ∧
    (size own' + length (supply x') = size own + length (supply x))%nat ∧
    (∀ p, 0 <= p < 2 ^ 35 → entry_of x' p = if decide (b <= p < b + n) then 0 else entry_of x p) ∧
    (∀ p, b <= p < b + n → has (entry_of x p) X86_PAGING_ACCESSED = true → forgotten x' p) ∧
    (∀ a l v, own' !! a = Some (l, v) → (l < top)%nat → touched own top b (b + n) a → some_entry x' a).
Proof.
  intros HM HR Hb Hn HE Hwt. destruct (proj1 (wp_done _ _ _) (wp_mmu_unmap R R' own x b n HM HR Hb Hn HE Hwt)) as (r & x' & E & -> & _ & own' & H1 & H2 & H3 & H4 & H5).
  by exists x', own'.
Qed.

(** Changing the protection of a page.  [vm_mmu_mprotect_page] changes the entry of that page only, and only if
    it has one: the address stays and the bits become those of the new protection, but a page
    that is write-protected in a region that was writable, because it is to be copied on write, is not made
    writable; a page that is not write-protected becomes writable exactly when the new protection says so. *)
Theorem vm_mmu_mprotect_keeps_cow R pat own x p old_prots new_prots : mmu_ok R own x → 0 <= p < 2 ^ 35 →
  ∃ x', vm_mmu_mprotect_page pat (4096 * p) old_prots new_prots x = Done (tt, x') ∧ mmu_ok R own x' ∧
    (∀ q, 0 <= q < 2 ^ 35 → q ≠ p → entry_of x' q = entry_of x q) ∧ (entry_of x' p = 0 ↔ entry_of x p = 0) ∧
    (entry_of x p ≠ 0 →
      let cow := negb (has (entry_of x p) X86_PAGING_WRITE) && has old_prots VM_WRITE in
      entry_of x' p = Z.lor (PML_EXTRACT_ADDRESS (entry_of x p)) (page_prots pat (if cow then Z.ldiff new_prots VM_WRITE else new_prots)) ∧
      has (entry_of x' p) X86_PAGING_WRITE =
        has new_prots VM_WRITE && negb cow).
Proof.
  intros HM Hp. destruct (proj1 (wp_done _ _ _) (wp_mprotect_page R pat own x p old_prots new_prots HM Hp)) as ([] & x' & E & H1 & H2 & H3).
  exists x'. destruct (Z.eqb_spec (entry_of x p) 0) as [->|Hne]; [by rewrite H3|]. rewrite H3. split_and!; [done..| |].
  - split; [intros [_ E']%Z.lor_eq_0_iff; by apply page_prots_ne in E'|done].
  - intros _ cow. split; [done|]. rewrite entry_write. subst cow. destruct (has (entry_of x p) X86_PAGING_WRITE), (has old_prots VM_WRITE); cbn [negb andb orb];
      rewrite ?andb_true_r, ?andb_false_r; try done. change VM_WRITE with (2 ^ 0). by rewrite has_pow2, Z.ldiff_spec, Z.pow2_bits_true, andb_false_r by lia.
Qed.

(** ** A concrete address space *)

(** A region of four pages from page 16 on, nothing mapped yet, and pages for seven tables. *)
Definition demo_tables : ptables := PTables {[4096 := replicate 512 0]} 4096 0 4096 ((λ k, 4096 * k) <$> seqZ 2 7) 1 [].
Definition demo_own : owned := {[4096 := (top, 0)]}.
Definition demo_regions : list (Z * Z) := [(16, 4)].

Lemma demo_ent a j e : ent demo_tables a j = Some e → e = 0.
Proof.
  unfold ent. cbn [pt_mem demo_tables]. destruct (decide (a = 4096)) as [->|Hne]; [|by rewrite lookup_singleton_ne].
  rewrite lookup_singleton_eq. cbn [mbind option_bind]. intros H. pose proof (aget_Some_lt _ _ _ H) as Hl. rewrite length_replicate in Hl.
  rewrite aget_replicate in H by lia. by injection H.
Qed.

Lemma demo_only a lv : demo_own !! a = Some lv → a = 4096 ∧ lv = (top, 0).
Proof. unfold demo_own. by intros [<- <-]%lookup_singleton_Some. Qed.

Lemma demo_maps p e : ¬ maps demo_own demo_tables p e.
Proof. intros (_ & a & [_ Ha]%demo_only & _). done. Qed.

Lemma demo_ok : mmu_ok demo_regions demo_own demo_tables.
Proof.
  split; [split; [split|split|split|]| |].
  - done.
  - intros a l v [-> [= -> ->]]%demo_only. split_and!; [done|lia|done].
  - intros a l v [-> _]%demo_only. exists (replicate 512 0). by rewrite length_replicate.
  - by intros a b l v [-> _]%demo_only [-> _]%demo_only.
  - intros a l v j e _ He. by apply demo_ent in He.
  - intros c l v [-> [= -> ->]]%demo_only ?. lia.
  - exists ∅. split; [|done]. intros q. split; [set_solver|]. intros [e He]. by apply demo_maps in He.
  - done.
  - done.
  - apply (bool_decide_unpack _). by vm_compute.
  - intros f Hf. apply list_elem_of_fmap in Hf as (k & -> & Hk%elem_of_seqZ). split_and!; [|lia..|].
    + rewrite Z.mul_comm. apply Z.mod_mul. lia.
    + cbn [pt_mem demo_tables]. apply lookup_singleton_ne. lia.
  - intros a lv [-> _]%demo_only. done.
  - intros p e Hm. by apply demo_maps in Hm.
  - intros a l v [-> [= -> ->]]%demo_only ?. lia.
Qed.

Lemma demo_in : in_regions demo_regions 17.
Proof. exists 16, 4. split; [by left|lia]. Qed.

Lemma demo_supply : length (supply demo_tables) = 7%nat.
Proof. done. Qed.

Definition user_prot : Z := Z.lor VM_READ (Z.lor VM_WRITE VM_USER).

Lemma vm_map_page_exact_witness : ∃ x' own', vm_map_page true (4096 * 17) 0x5000 user_prot demo_tables = Done (Some 0x11000, x') ∧
  mmu_ok demo_regions own' x' ∧ entry_of x' 17 = Z.lor 0x5000 (page_prots true user_prot) ∧ entry_of x' 18 = 0.
Proof.
  destruct (vm_map_page_exact demo_regions true demo_own demo_tables 17 0x5000 user_prot demo_ok demo_in ltac:(lia)) as (r & x' & own' & E & HM & Hq & Hr).
  destruct r as [virt|]; [|destruct Hr as [Hl _]; rewrite demo_supply in Hl; lia]. destruct Hr as [-> Hr]. exists x', own'.
  split_and!; [exact E|done|rewrite Hr; by vm_compute|rewrite Hq by lia; by vm_compute].
Defined.

(** Ranges of up to a gigabyte, less four megabytes, have no table of which they have a part of both ends only. *)
Lemma whole_tables_small b n : n <= 510 * 512 + 1 → whole_tables b (b + n).
Proof.
  intros Hn l v Hl H1 H2. exfalso. unfold first_page in *. assert (512 <= span l); [|lia].
  destruct l as [|l]; [lia|]. rewrite span_S. pose proof (span_pos l). lia.
Qed.

Lemma demo_mapped prot : ∃ x own, vm_map_page true (4096 * 17) 0x5000 prot demo_tables = Done (Some 0x11000, x) ∧
  mmu_ok demo_regions own x ∧ entry_of x 17 = Z.lor 0x5000 (page_prots true prot).
Proof.
  destruct (proj1 (wp_done _ _ _) (wp_map_page demo_regions true demo_own demo_tables 17 0x5000 prot demo_ok demo_in ltac:(lia)))
    as (r & x & E & own & HM & _ & Hr).
  destruct r as [virt|]; [|destruct Hr as [Hl _]; rewrite demo_supply in Hl; lia]. destruct Hr as [-> Hr]. exists x, own.
  split_and!; [exact E|done|]. rewrite Hr. change (entry_of demo_tables 17) with 0. by rewrite andb_false_r.
Qed.

Lemma vm_mmu_unmap_exact_witness : ∃ x x' own', vm_map_page true (4096 * 17) 0x5000 user_prot demo_tables = Done (Some 0x11000, x) ∧
  entry_of x 17 ≠ 0 ∧ vm_mmu_unmap (4096 * 16) 2 x = Done (0, x') ∧ mmu_ok [(18, 2)] own' x' ∧ entry_of x' 17 = 0.
Proof.
  destruct (demo_mapped user_prot) as (x & own & E & HM & He).
  destruct (vm_mmu_unmap_exact demo_regions [(18, 2)] own x 16 2 HM) as (x' & own' & E' & HM' & _ & Hp & _); try lia.
  - intros p (b & n & Hin & Hp). apply list_elem_of_singleton in Hin as [= -> ->]. destruct (decide (p < 18)); [left; lia|right].
    exists 18, 2. split; [by left|lia].
  - apply whole_tables_small. lia.
  - exists x, x', own'. split_and!; [exact E|rewrite He; by vm_compute|exact E'|done|]. by rewrite Hp by lia.
Defined.

(** A page of a writable region, mapped for reading until it is copied: it is not made writable. *)
Lemma vm_mmu_mprotect_keeps_cow_witness : ∃ x x', vm_map_page true (4096 * 17) 0x5000 (Z.lor VM_READ VM_USER) demo_tables = Done (Some 0x11000, x) ∧
  vm_mmu_mprotect_page true (4096 * 17) user_prot user_prot x = Done (tt, x') ∧ entry_of x' 17 ≠ 0 ∧ has (entry_of x' 17) X86_PAGING_WRITE = false.
Proof.
  destruct (demo_mapped (Z.lor VM_READ VM_USER)) as (x & own & E & HM & He).
  destruct (vm_mmu_mprotect_keeps_cow demo_regions true own x 17 user_prot user_prot HM ltac:(lia)) as (x' & E' & _ & _ & Hz & Hne).
  assert (Hnz : entry_of x 17 ≠ 0) by (rewrite He; by vm_compute). exists x, x'. split_and!; [exact E|exact E'|by rewrite Hz|].
  destruct (Hne Hnz) as [_ ->]. rewrite He. by vm_compute.
Defined.

(** ** Where the code falls short *)

(** A table that has been gone through from its first to its last entry is taken to be empty, but the
    range may have begun inside the first entry: unmapping pages 1 to 261632 also takes page 0 away, whose
    table and resident size are never given back. *)
Lemma partial_table_freed :
  match (_ ← vm_map_page true 0 0x5000 user_prot; before ← page_entry 0; vm_mmu_unmap 4096 261632;; after ← page_entry 0;
         mret (before =? 0, after)) demo_tables with
  | Done (r, x) => r = (false, 0) ∧ resident_set_size x = 4096 ∧ page_tables_size x = 8192
  | Fault _ => False
  end.
Proof. by vm_compute. Qed.
