(* ===== verification/VmDestroy.v ===== *)
(** * VmDestroy: the end of an address space

    [vm_destroy_addr_space] of [kernel/mm/vm.cpp], on the regions of [Vm] and the page tables
    of [PageTable] together: each region's pages are unmapped and the region is destroyed, the
    four counters are checked, and the table at the root is given back unless it is the
    kernel's own.  Every region and every page table goes, so that the assertions on the counters hold and
    all references to objects, files and pages for tables are given back. *)

From stdpp Require Import sorting.
From S2P Require Import Prelude Abi PageAlloc Frames VmObject Wavl Vm PageTable Bits DList.
From S2P Require Import VmObjectFacts VmObjectProps VmBacking WavlTree WavlHeap WavlOps.
From S2P Require Import WavlCalls WavlProps VmLayout VmPrivate VmSpace VmMap VmLife VmProps.
From S2P Require Import PageTableFacts PageTableUnmap PageTableProps.

Section destroy.
Context {FS : Type} `{Frames FS}.

(** The regions with their objects, and the page tables. *)
Abbreviation MM := (M (mm FS * ptables)).

Definition in_mm {A} (m : M (mm FS) A) : MM A := λ s,
  match m s.1 with
  | Done (a, s') => Done (a, (s', s.2))
  | Fault why => Fault why
  end.
Definition in_mmu {A} (m : M ptables A) : MM A := λ s,
  match m s.2 with
  | Done (a, x) => Done (a, (s.1, x))
  | Fault why => Fault why
  end.

Definition vm_destroy_area (a : Z) : MM unit :=
  r ← in_mm (get_region a);
  in_mmu (vm_mmu_unmap (base r) (pages r));;
  in_mm (increment_virtual (- region_size r);;
         (if is_mapping_shared r then increment_shared (- region_size r) else mret tt);;
         vm_region_destroy a).

(** [bst_for_every_entry_delete] over the tree, with [vm_destroy_area] as the body. *)
Fixpoint destroy_areas_loop (fuel : nat) (cursor : option Z) : MM unit :=
  match fuel with
  | O => crash OutOfFuel
  | S fuel =>
      match cursor with
      | None => mret tt
      | Some entry =>
          next ← in_mm (in_tree (bst_next (Some entry)));
          in_mm (in_tree (bst_delete_all_helper entry));;
          vm_destroy_area entry;;
          destroy_areas_loop fuel next
      end
  end.

Definition vm_destroy_addr_space (fallback_pgd : Z) : MM unit :=
  first ← in_mm (in_tree (bst_next None));
  bound ← in_mm (gets (λ s, walk_bound (region_tree s)));
  destroy_areas_loop bound first;;
  rss ← in_mmu (gets resident_set_size);
  check (rss =? 0) AssertFailed;;
  shared ← in_mm (gets shared_set_size);
  check (shared =? 0) AssertFailed;;
  virt ← in_mm (gets virtual_memory_size);
  check (virt =? 0) AssertFailed;;
  tables ← in_mmu (gets page_tables_size);
  check (tables =? PAGE_SIZE) AssertFailed;;
  own_addrspace ← in_mmu (gets cr3);
  if own_addrspace =? fallback_pgd then mret tt
  else in_mmu (vm_free_arch_mmu own_addrspace).
End destroy.

(** ** Theory *)

(** ** Tables without regions *)

Implicit Types (own : owned) (x : ptables).

Section bare.
Context (own : owned) (x : ptables) (HM : mmu_ok [] own x).

Lemma bare_unmapped p e : ¬ maps own x p e.
Proof. intros Hm%(mk_in _ _ _ HM). destruct Hm as (b & n & Hin & _). by apply not_elem_of_nil in Hin. Qed.

Lemma bare_tables l : (l < top)%nat → ∀ a v, own !! a = Some (l, v) → False.
Proof.
  pose proof (pi_tables _ _ (mk_inv _ _ _ HM)) as Ht. induction l as [|l IH]; intros Hl a v Ha;
    (destruct (mk_live _ _ _ HM a _ v Ha Hl) as [(k & e & Hk & Hne)|(p & (b & n & Hin & _) & _)]; [|by apply not_elem_of_nil in Hin]).
  - pose proof (ent_range own x Ht _ _ _ _ _ Ha Hk). apply (bare_unmapped (512 * v + k) e). split; [done|]. exists a.
    assert ((512 * v + k) / 512 = v ∧ (512 * v + k) mod 512 = k) as [-> ->] by (Z.to_euclidean_division_equations; lia). done.
  - destruct (to_child _ _ Ht a l v k e Ha Hk Hne ltac:(intros Htop; lia)) as (_ & _ & Hc). eapply IH; [lia|exact Hc].
Qed.

Lemma bare_own : own = {[cr3 x := (top, 0)]}.
Proof.
  pose proof (pi_tables _ _ (mk_inv _ _ _ HM)) as Ht. apply map_eq. intros a. destruct (own !! a) as [[l v]|] eqn:Ha.
  - destruct (to_level _ _ Ht a l v Ha) as (Hl & _ & Hv). destruct (decide (l = top)) as [->|]; [|destruct (bare_tables l ltac:(lia) a v Ha)].
    specialize (Hv eq_refl) as ->. assert (a = cr3 x) as -> by by eapply (to_unique _ _ Ht), (to_root _ _ Ht). by rewrite lookup_singleton_eq.
  - symmetry. apply lookup_singleton_ne. intros <-. rewrite (to_root _ _ Ht) in Ha. done.
Qed.

Lemma bare_counters : resident_set_size x = 0 ∧ page_tables_size x = 4096 ∧ size own = 1%nat.
Proof.
  assert (Hs : size own = 1%nat) by (rewrite bare_own; apply map_size_singleton). destruct (pi_counts _ _ (mk_inv _ _ _ HM)) as [(D & HD & ->) -> _].
  rewrite Hs. split_and!; [|done..]. assert (D = ∅) as ->; [|done]. apply leibniz_equiv. intros q. rewrite HD. split; [|set_solver].
  intros [e He]. by apply bare_unmapped in He.
Qed.
End bare.

(** ** The regions, one after the other *)

(** The regions as the page tables see them: the first page and the number of pages. *)
Definition page_regions (R : rlist) : list (Z * Z) := (λ y, (base y.2 / 4096, pages y.2)) <$> R.

(** A region of the lower half whose pages can be unmapped in one call. *)
Definition unmappable (r : vm_region) : Prop := rend r <= 2 ^ 47 ∧ whole_tables (base r / 4096) (base r / 4096 + pages r).

Lemma fits_page r : fits r → base r = 4096 * (base r / 4096) ∧ 0 <= base r / 4096 ∧ 0 < pages r.
Proof. intros [H1 H2 H3 _]. change PAGE_SIZE with 4096 in *. Z.to_euclidean_division_equations; lia. Qed.

Section destroy.
Context {FS : Type} `{FramesLaws FS} (ext fx : Z → Z).
Implicit Types (s : mm FS) (R : rlist).

Lemma wp_in_mm {A} (m : M (mm FS) A) (Q : A → mm FS * ptables → Prop) s x : wp m (λ a s', Q a (s', x)) s → wp (in_mm m) Q (s, x).
Proof. unfold wp, in_mm. cbn. by destruct (m s) as [[a s']|]. Qed.
Lemma wp_in_mmu {A} (m : M ptables A) (Q : A → mm FS * ptables → Prop) s x : wp m (λ a x', Q a (s, x')) x → wp (in_mmu m) Q (s, x).
Proof. unfold wp, in_mmu. cbn. by destruct (m x) as [[a x']|]. Qed.

Lemma wp_destroy_area n s a r R T own x (Q : unit → mm FS * ptables → Prop) :
  ending ext fx n s ((a, r) :: R) → a ∉ R.*1 → 1 <= n → (∃ t, rep T t ∧ elems t = R.*1) → unmappable r →
  mmu_ok (page_regions ((a, r) :: R)) own x →
  (∀ s' x' own', ending ext fx n s' R → regions s' = delete a (regions s) → mmu_ok (page_regions R) own' x' → cr3 x' = cr3 x →
    (size own' + length (supply x') = size own + length (supply x))%nat → Q tt (s', x')) →
  wp (vm_destroy_area a) Q (with_tree T s, x).
Proof.
  intros HE Hni Hn HT [Hhi Hwt] HM HQ. destruct (first_facts ext fx n s a r R HE) as (Ha & Hf & _). destruct (fits_page r Hf) as (Hb & Hb0 & Hp).
  unfold vm_destroy_area. wp_step. apply wp_in_mm. eapply wp_get_region; [exact Ha|]. wp_step. apply wp_in_mmu. rewrite Hb.
  eapply wp_mono; [apply (wp_mmu_unmap _ (page_regions R) own x _ _ HM)|].
  - intros p (b & k & [[= -> ->]|Hin]%list.elem_of_cons & Hr); [by left|right]. by exists b, k.
  - done.
  - done.
  - unfold rend in Hhi. change PAGE_SIZE with 4096 in Hhi. lia.
  - done.
  - intros ret x' (-> & Hcr & own' & HM' & Hsz & _). apply wp_in_mm. eapply (first_area ext fx n s a r R T); [done..|]. intros s' HE' Hregs.
    by eapply HQ.
Qed.

Lemma wp_destroy_areas_loop fuel : ∀ n s R own x (Q : unit → mm FS * ptables → Prop),
  ending ext fx n s R → 1 <= n → (length R < fuel)%nat → (∀ a r, (a, r) ∈ R → unmappable r) → mmu_ok (page_regions R) own x →
  (∀ s' x' own', ending ext fx n s' [] → (∀ a, regions s' !! a = if decide (a ∈ R.*1) then None else regions s !! a) →
    mmu_ok [] own' x' → cr3 x' = cr3 x → (size own' + length (supply x') = size own + length (supply x))%nat → Q tt (s', x')) →
  wp (destroy_areas_loop fuel (head R.*1)) Q (s, x).
Proof.
  induction fuel as [|fuel IH]; intros n s R own x Q HE Hn Hfuel Hun HM HQ; [lia|].
  destruct R as [|[a r] R]; cbn [destroy_areas_loop head fmap list_fmap]; simpl.
  { wp_step. by apply (HQ s x own). }
  destruct (en_tree _ _ _ _ _ HE) as (t & Hr & Ht). pose proof (rep_nodup _ _ Hr) as HN. rewrite Ht in HN.
  apply list.NoDup_cons in HN as [Hni _].
  wp_step. apply wp_in_mm, wp_in_tree. eapply (wp_next _ _ _ []); [exact Hr|exact Ht|]. rewrite with_tree_same.
  wp_step. apply wp_in_mm, wp_in_tree. eapply wp_delete_all_helper; [exact Hr|exact Ht|]. intros T t' Hr' Ht' _.
  wp_step. eapply (wp_destroy_area n s a r R T own x); [done..|by exists t'|eapply Hun; by left|done|]. intros s' x' own' HE' Hregs HM' Hcr Hsz.
  eapply (IH n s' R own' x'); [exact HE'|done|simpl in Hfuel; lia|intros b q Hin; eapply Hun; by right|done|]. intros s2 x2 own2 HE2 Hnone HM2 Hcr2 Hsz2.
  eapply (HQ s2 x2 own2); [done| |done|congruence|lia].
  intros b. rewrite Hnone, Hregs. destruct (decide (b = a)) as [->|Hne].
  - rewrite lookup_delete_eq. transitivity (None : option vm_region); [by case_decide|]. by rewrite decide_True by by left.
  - rewrite lookup_delete_ne by done. apply decide_ext. simpl. rewrite list.elem_of_cons. naive_solver.
Qed.

Lemma wp_vm_destroy_addr_space fallback n s R own x (Q : unit → mm FS * ptables → Prop) :
  space ext fx n s R → 1 <= n → (∀ a r, (a, r) ∈ R → unmappable r) → mmu_ok (page_regions R) own x →
  (∀ s' x', ending ext fx n s' [] → (∀ a, regions s' !! a = if decide (a ∈ R.*1) then None else regions s !! a) →
    mmu_ok [] {[cr3 x := (top, 0)]} x' → cr3 x' = cr3 x → (S (length (supply x')) = size own + length (supply x))%nat →
    Q tt (s', if cr3 x =? fallback then x' else
      set_supply (delete (cr3 x) (pt_mem x')) (cr3 x :: supply x') (allocated_page_tables x') x')) →
  wp (vm_destroy_addr_space fallback) Q (s, x).
Proof.
  intros HS Hn Hun HM HQ. pose proof (space_ending _ _ _ _ _ HS) as HE. destruct HS as [HS _].
  pose proof (laid_size _ _ (st_laid _ _ _ _ _ _ _ _ _ HS)) as Hlen.
  destruct (en_tree _ _ _ _ _ HE) as (t & Hr & Ht). unfold vm_destroy_addr_space. wp_step. apply wp_in_mm, wp_in_tree.
  eapply wp_first; [exact Hr|]. rewrite with_tree_same, Ht. wp_step. apply wp_in_mm. wp_step. wp_step.
  eapply wp_destroy_areas_loop; [exact HE|done|unfold walk_bound; lia|done|exact HM|]. intros s' x' own' HE' Hregs HM' Hcr Hsz.
  pose proof (bare_own _ _ HM') as ->. destruct (bare_counters _ _ HM') as (Hrss & Hts & H1). rewrite H1 in Hsz. rewrite Hcr in HM'.
  wp_step. apply wp_in_mmu. wp_step. wp_step. wp_step; [by rewrite Hrss|]. wp_step. apply wp_in_mm. wp_step. wp_step.
  wp_step; [by rewrite (en_shared _ _ _ _ _ HE')|]. wp_step. apply wp_in_mm. wp_step. wp_step.
  wp_step; [by rewrite (en_virtual _ _ _ _ _ HE')|]. wp_step. apply wp_in_mmu. wp_step. wp_step. wp_step; [by rewrite Hts|].
  wp_step. apply wp_in_mmu. wp_step. rewrite Hcr. specialize (HQ s' x' HE' Hregs HM' Hcr Hsz). destruct (cr3 x =? fallback).
  - by wp_step.
  - apply wp_in_mmu. unfold vm_free_arch_mmu. by wp_step.
Qed.
End destroy.


(** ** The property at work *)

Lemma mmu_ok_regions R R' own x : (∀ p, in_regions R p → in_regions R' p) → mmu_ok R own x → mmu_ok R' own x.
Proof.
  intros HR [HI Hin Hl]. split; [done|by eauto|]. intros a l v Ha Hlt. destruct (Hl a l v Ha Hlt) as [?|(p & Hp & Hv)]; [by left|right]. eauto.
Qed.


(** ** Where the code falls short *)

(** A shared mapping that fails for want of memory leaves the counter of shared bytes
    short, and the end of the process asserts. *)
Definition tight_space : mm mem :=
  with_objects (World two_refs ∅ ∅ 1 [false; true]) start_space.

Lemma failed_shared_mmap_asserts :
  (_ ← in_mm (mmap_len 0 4096 MAP_SHARED); vm_destroy_addr_space 0) (tight_space, demo_tables) = Fault AssertFailed ∧
  match (r ← mmap_len 0 4096 MAP_SHARED; v ← gets shared_set_size; mret (r, v)) tight_space with
  | Done (rv, _) => rv = (u64 (- ENOMEM), 2 ^ 64 - 4096)
  | Fault _ => False
  end.
Proof. split; by vm_compute. Qed.
