(* ===== verification/Mutex.v ===== *)
(** * Mutex: sleeping mutual exclusion

    [kernel/sched/mutex.cpp] and [include/onyx/mutex.h].  Threads are the addresses of
    their control blocks.  A thread is at one of the accesses to shared memory of
    [mutex_lock] or [mutex_unlock] ([point]); [mutex_act] is what it does there.  A thread
    that finds the spinlock taken, or that has yielded and is not runnable, is blocked. *)

From S2P Require Import Prelude Abi Interleave.

Definition THREAD_RUNNABLE : Z := 0.
Definition THREAD_INTERRUPTIBLE : Z := 1.
Definition THREAD_UNINTERRUPTIBLE : Z := 5.

(** The mutex, and the status of the threads ([THREAD_RUNNABLE] where there is no entry). *)
Record mutex : Type := Mutex {
  llock : option Z;
  thread_list : list Z;
  counter : Z;
  status : gmap Z Z
}.

Definition thread_status (m : mutex) (t : Z) : Z := default THREAD_RUNNABLE (status m !! t).

Definition set_llock (l : option Z) (m : mutex) : mutex :=
  Mutex l (thread_list m) (counter m) (status m).
Definition set_thread_list (l : list Z) (m : mutex) : mutex :=
  Mutex (llock m) l (counter m) (status m).
Definition set_counter (c : Z) (m : mutex) : mutex :=
  Mutex (llock m) (thread_list m) c (status m).
Definition set_state (t x : Z) (m : mutex) : mutex :=
  Mutex (llock m) (thread_list m) (counter m) (<[t := x]> (status m)).

Definition mutex_init : mutex := Mutex None [] 0 ∅.

Definition thread_to_lock_word (t : Z) : Z := Z.lxor t 1.
Definition lock_word_to_thread (word : Z) : Z := Z.lxor word 1.
Definition mutex_owner (m : mutex) : Z :=
  if counter m =? 0 then 0 else lock_word_to_thread (counter m).

(** [mutex_holds_lock], asked by thread [t]. *)
Definition mutex_holds_lock (t : Z) (m : mutex) : bool :=
  negb (counter m =? 0) && (mutex_owner m =? t).

(** ** Program points *)

Inductive point : Type :=
  | Idle
  | Trylock (* __mutex_trylock in mutex_trylock *)
  | Spin (i : nat) (last_thread : Z) (* the loop of mutex_optimistic_spin *)
  | SpinTrylock
  | PrepareLock | PrepareState | PrepareAdd | PrepareUnlock (* mutex_prepare_sleep *)
  | Signals | Owner | Sleep (* the body of the loop in mutex_lock_slow_path *)
  | DequeueLock | DequeueRemove | DequeueUnlock (* mutex_dequeue_thread in the loop *)
  | LeaveState | LeaveLock | LeaveRemove | LeaveUnlock (* the end of the slow path *)
  | Critical
  | UnlockStore | UnlockLock | UnlockWake | UnlockUnlock. (* mutex_unlock *)

(** A thread: its point, and the locals of [__mutex_lock] and [mutex_lock_slow_path]. *)
Record caller : Type := Caller {
  pt : point;
  state : Z;
  slow : bool;
  ret : Z
}.

Definition idle : caller := Caller Idle THREAD_RUNNABLE false 0.
Definition goto (p : point) (c : caller) : caller := Caller p (state c) (slow c) (ret c).

(** What happens at a turn: a thread begins a call, or goes on; whether a signal is pending
    and whether the owner of the mutex runs on the same processor is up to the world.  A
    signal may also wake a thread that sleeps interruptibly. *)
Inductive event : Type :=
  | CallLock (interruptible : bool)
  | CallUnlock
  | Signalled
  | Go (signal_pending same_cpu : bool).

(** [mutex_lock_interruptible] or [mutex_lock]. *)
Definition lock_state (interruptible : bool) : Z :=
  if interruptible then THREAD_INTERRUPTIBLE else THREAD_UNINTERRUPTIBLE.

(** [mutex_trylock] returned false. *)
Definition trylock_failed (c : caller) : caller :=
  if slow c then goto Signals c else Caller PrepareLock (state c) true (ret c).

Definition trylock_done (c : caller) : caller :=
  if slow c then Caller LeaveState (state c) true 0 else goto Critical c.

Definition __mutex_trylock (t : Z) (c : caller) (failed : caller) (m : mutex) : turn caller mutex :=
  if counter m =? 0 then Next (trylock_done c) (set_counter (thread_to_lock_word t) m)
  else Next failed m.

(** One turn of the loop of [mutex_optimistic_spin], [i] turns from its end. *)
Definition mutex_optimistic_spin (same_cpu : bool) (i : nat) (last_thread : Z) (c : caller) (m : mutex)
    : turn caller mutex :=
  match i with
  | O => Next (trylock_failed c) m
  | S i =>
      let thread := mutex_owner m in
      if thread =? 0 then Next (goto SpinTrylock c) m
      else if negb (last_thread =? 0) && negb (thread =? last_thread) then Next (trylock_failed c) m
      else if same_cpu then Next (trylock_failed c) m
      else Next (goto (Spin i thread) c) m
  end.

(** [spin_lock]: spinning changes nothing. *)
Definition acquire (t : Z) (p : point) (c : caller) (m : mutex) : turn caller mutex :=
  match llock m with
  | None => Next (goto p c) (set_llock (Some t) m)
  | Some _ => Blocked
  end.

(** [list_remove] of the thread's link. *)
Definition unlink_thread (t : Z) (m : mutex) : mutex :=
  set_thread_list (filter (λ u, u ≠ t) (thread_list m)) m.

Definition mutex_prepare_sleep (t : Z) (c : caller) (m : mutex) : turn caller mutex :=
  match pt c with
  | PrepareLock => acquire t PrepareState c m
  | PrepareState => Next (goto PrepareAdd c) (set_state t (state c) m)
  | PrepareAdd => Next (goto PrepareUnlock c) (set_thread_list (thread_list m ++ [t]) m)
  | _ => Next (goto Trylock c) (set_llock None m)
  end.

(** The loop and the end of [mutex_lock_slow_path]; [commit_sleep] yields. *)
Definition mutex_lock_slow_path (sig : bool) (t : Z) (c : caller) (m : mutex) : turn caller mutex :=
  match pt c with
  | Signals =>
      if (state c =? THREAD_INTERRUPTIBLE) && sig
      then Next (Caller LeaveState (state c) true (- EINTR)) m
      else Next (goto Owner c) m
  | Owner => if mutex_owner m =? t then Crash AssertFailed else Next (goto Sleep c) m
  | Sleep => if thread_status m t =? THREAD_RUNNABLE then Next (goto DequeueLock c) m else Blocked
  | DequeueLock => acquire t DequeueRemove c m
  | DequeueRemove => Next (goto DequeueUnlock c) (unlink_thread t m)
  | DequeueUnlock => Next (goto PrepareLock c) (set_llock None m)
  | LeaveState => Next (goto LeaveLock c) (set_state t THREAD_RUNNABLE m)
  | LeaveLock => acquire t LeaveRemove c m
  | LeaveRemove => Next (goto LeaveUnlock c) (unlink_thread t m)
  | _ => Next (if ret c =? 0 then goto Critical c else idle) (set_llock None m)
  end.

(** [thread_wake_up] makes the first thread of the list runnable. *)
Definition mutex_unlock (t : Z) (c : caller) (m : mutex) : turn caller mutex :=
  match pt c with
  | UnlockStore => Next (goto UnlockLock c) (set_counter 0 m)
  | UnlockLock => acquire t UnlockWake c m
  | UnlockWake =>
      Next (goto UnlockUnlock c)
        (match thread_list m with u :: _ => set_state u THREAD_RUNNABLE m | [] => m end)
  | _ => Next idle (set_llock None m)
  end.

Definition mutex_act (e : event) (t : Z) (c : caller) (m : mutex) : turn caller mutex :=
  match e with
  | CallLock i =>
      match pt c with Idle => Next (Caller Trylock (lock_state i) false 0) m | _ => Blocked end
  | CallUnlock =>
      match pt c with Critical => Next (goto UnlockStore c) m | _ => Blocked end
  | Signalled =>
      if thread_status m t =? THREAD_INTERRUPTIBLE
      then Next c (set_state t THREAD_RUNNABLE m) else Blocked
  | Go sig same_cpu =>
      match pt c with
      | Idle | Critical => Blocked
      | Trylock => __mutex_trylock t c (goto (Spin 500 0) c) m
      | Spin i last => mutex_optimistic_spin same_cpu i last c m
      | SpinTrylock => __mutex_trylock t c (trylock_failed c) m
      | PrepareLock | PrepareState | PrepareAdd | PrepareUnlock => mutex_prepare_sleep t c m
      | UnlockStore | UnlockLock | UnlockWake | UnlockUnlock => mutex_unlock t c m
      | _ => mutex_lock_slow_path sig t c m
      end
  end.
