(* ===== verification/MutexProps.v ===== *)
(** * MutexProps: mutual exclusion, and who is woken *)

From S2P Require Import Prelude Abi Interleave Mutex.

(** ** What the point of a thread says about the mutex *)

(** The thread owns the mutex. *)
Definition holds (c : caller) : bool :=
  match pt c with
  | Critical | UnlockStore => true
  | LeaveState | LeaveLock | LeaveRemove | LeaveUnlock => ret c =? 0
  | _ => false
  end.

(** The thread is inside the spinlock. *)
Definition in_spin (p : point) : bool :=
  match p with
  | PrepareState | PrepareAdd | PrepareUnlock | DequeueRemove | DequeueUnlock
  | LeaveRemove | LeaveUnlock | UnlockWake | UnlockUnlock => true
  | _ => false
  end.

(** The thread is in the list of waiters. *)
Definition queued (c : caller) : bool :=
  match pt c with
  | Trylock | Spin _ _ | SpinTrylock => slow c
  | PrepareUnlock | Signals | Owner | Sleep | DequeueLock | DequeueRemove
  | LeaveState | LeaveLock | LeaveRemove => true
  | _ => false
  end.

Definition on_slow_path (p : point) : bool :=
  match p with
  | Idle | Trylock | Spin _ _ | SpinTrylock | Critical
  | UnlockStore | UnlockLock | UnlockWake | UnlockUnlock => false
  | _ => true
  end.

Record fits (m : mutex) (t : Z) (c : caller) : Prop := {
  f_addr : t ≠ 0 ∧ t ≠ 1;
  f_held : holds c = true ↔ counter m = thread_to_lock_word t;
  f_spin : in_spin (pt c) = true ↔ llock m = Some t;
  f_list : queued c = true ↔ t ∈ thread_list m;
  f_slow : on_slow_path (pt c) = true → slow c = true
}.

(** The mutex is free or held by a thread; the spinlock and the list name threads. *)
Record whole (m : mutex) (pts : gmap Z caller) : Prop := {
  w_owner : counter m = 0 ∨ ∃ t, is_Some (pts !! t) ∧ counter m = thread_to_lock_word t;
  w_spin : ∀ t, llock m = Some t → is_Some (pts !! t);
  w_list : ∀ t, t ∈ thread_list m → is_Some (pts !! t);
  w_nodup : NoDup (thread_list m)
}.

Definition inv (s : system caller mutex) : Prop :=
  (∀ t c, points s !! t = Some c → fits (shared s) t c) ∧ whole (shared s) (points s).

Lemma word_inj t u : thread_to_lock_word t = thread_to_lock_word u → t = u.
Proof.
  unfold thread_to_lock_word. intros E. rewrite <-(Z.lxor_0_r t), <-(Z.lxor_0_r u).
  by rewrite <-(Z.lxor_nilpotent 1), <-!Z.lxor_assoc, E.
Qed.

Lemma word_nonzero t : t ≠ 1 → thread_to_lock_word t ≠ 0.
Proof. unfold thread_to_lock_word. by intros ? ?%Z.lxor_eq. Qed.

Lemma owner_word m t : t ≠ 0 → t ≠ 1 → mutex_owner m = t ↔ counter m = thread_to_lock_word t.
Proof.
  intros Ht0 Ht1. unfold mutex_owner, lock_word_to_thread, thread_to_lock_word. case_match eqn:E.
  - apply Z.eqb_eq in E. rewrite E. split; [lia|]. intros H%eq_sym%Z.lxor_eq. lia.
  - split; [intros <-|intros ->]; by rewrite Z.lxor_assoc, Z.lxor_nilpotent, Z.lxor_0_r.
Qed.

Lemma owner_null m : (∃ t, t ≠ 0 ∧ counter m = thread_to_lock_word t) ∨ counter m = 0 → mutex_owner m = 0 ↔ counter m = 0.
Proof.
  unfold mutex_owner, lock_word_to_thread, thread_to_lock_word. intros [(t & Ht & ->)| ->]; [|done].
  case_match eqn:E; [by apply Z.eqb_eq in E; rewrite E|]. apply Z.eqb_neq in E.
  rewrite Z.lxor_assoc, Z.lxor_nilpotent, Z.lxor_0_r. lia.
Qed.

(** ** How the changes to the mutex look to the other threads *)

Section others.
Context (m : mutex) (t : Z) (c : caller) (Ht : fits m t c) (u : Z) (d : caller) (Hu : fits m u d) (Hne : u ≠ t).

Lemma other_state v x : fits (set_state v x m) u d.
Proof. by destruct Hu. Qed.

Lemma other_release : llock m = Some t → fits (set_llock None m) u d.
Proof. destruct Hu. intros E. split; simpl; try done. rewrite f_spin0, E. split; congruence. Qed.

Lemma other_acquire : llock m = None → fits (set_llock (Some t) m) u d.
Proof. destruct Hu. intros E. split; simpl; try done. rewrite f_spin0, E. split; congruence. Qed.

Lemma other_take : counter m = 0 → fits (set_counter (thread_to_lock_word t) m) u d.
Proof.
  destruct Hu. intros E. split; simpl; try done. rewrite f_held0, E.
  pose proof (word_nonzero u (proj2 f_addr0)). split; [lia|]. intros ?%word_inj. congruence.
Qed.

Lemma other_give : counter m = thread_to_lock_word t → fits (set_counter 0 m) u d.
Proof.
  destruct Hu. intros E. split; simpl; try done. rewrite f_held0, E.
  pose proof (word_nonzero u (proj2 f_addr0)). split; [intros ?%word_inj; congruence|lia].
Qed.

Lemma other_add : fits (set_thread_list (thread_list m ++ [t]) m) u d.
Proof. destruct Hu. split; simpl; try done. rewrite f_list0, list.elem_of_app, list_elem_of_singleton. tauto. Qed.

Lemma other_unlink : fits (unlink_thread t m) u d.
Proof. destruct Hu. split; simpl; try done. rewrite f_list0, list_elem_of_filter. tauto. Qed.
End others.

(** ** Every turn keeps the invariant *)

Lemma inv_move m pts t c m' c' :
  inv (System m pts) → pts !! t = Some c →
  (fits m t c → fits m' t c') → (∀ u d, fits m t c → fits m u d → u ≠ t → fits m' u d) →
  (whole m pts → fits m t c → whole m' pts) →
  inv (System m' (<[t := c']> pts)).
Proof.
  intros [Hf Hw] Ht Hc Ho Hg. pose proof (Hf t c Ht) as Hfc. split; simpl.
  - intros u d. destruct (decide (u = t)) as [->|Hne].
    + rewrite lookup_insert_eq. intros [= <-]. auto.
    + rewrite lookup_insert_ne by done. intros Hu. eapply Ho; eauto.
  - specialize (Hg Hw Hfc). assert (∀ u, is_Some (pts !! u) → is_Some (<[t := c']> pts !! u)) as Hs.
    { intros u Hu. destruct (decide (u = t)) as [->|]; [rewrite lookup_insert_eq; eauto|by rewrite lookup_insert_ne]. }
    destruct Hg as [Hown Hsp Hl Hn]. split; eauto. destruct Hown as [?|(u & ? & ?)]; eauto.
Qed.

(** The thread's own part, by computation on its point. *)
Ltac own_part :=
  let H := fresh in intros H; destruct H; unfold holds, queued, goto, unlink_thread in *; simpl in *;
  repeat match goal with H : true = true → _ |- _ => specialize (H eq_refl) end; subst;
  split; unfold holds, queued; simpl; try done; rewrite ?list.elem_of_app, ?list_elem_of_singleton, ?list_elem_of_filter; intuition congruence.

Ltac whole_part :=
  let H := fresh in intros H ?; destruct H; split; simpl in *; try done; try by eauto.

Lemma move_nothing m pts t c c' :
  inv (System m pts) → pts !! t = Some c → (fits m t c → fits m t c') → inv (System m (<[t := c']> pts)).
Proof. intros HI Ht Hc. eapply inv_move; eauto. Qed.

Lemma move_acquire m pts t c p :
  inv (System m pts) → pts !! t = Some c →
  (fits m t c → llock m = None → fits (set_llock (Some t) m) t (goto p c)) →
  match acquire t p c m with
  | Blocked => True
  | Next c' m' => inv (System m' (<[t := c']> pts))
  | Crash _ => False
  end.
Proof.
  intros HI Ht Hc. unfold acquire. destruct (llock m) eqn:E; [done|].
  eapply inv_move; [done|done|eauto|intros; eapply other_acquire; eauto|].
  whole_part. intros u [= <-]. eauto.
Qed.

Lemma move_release m pts t c c' :
  inv (System m pts) → pts !! t = Some c → in_spin (pt c) = true →
  (fits m t c → fits (set_llock None m) t c') → inv (System (set_llock None m) (<[t := c']> pts)).
Proof.
  intros HI Ht Hs Hc. eapply inv_move; [done|done|exact Hc| |whole_part].
  intros u d Hf Hu Hne. eapply other_release; eauto. by apply (f_spin _ _ _ Hf).
Qed.

Lemma move_unlink m pts t c p :
  inv (System m pts) → pts !! t = Some c →
  (fits m t c → fits (unlink_thread t m) t (goto p c)) → inv (System (unlink_thread t m) (<[t := goto p c]> pts)).
Proof.
  intros HI Ht Hc. eapply inv_move; [done|done|exact Hc|intros; eapply other_unlink; eauto|].
  whole_part.
  - intros u [_ ?]%list_elem_of_filter. eauto.
  - by apply list.NoDup_filter.
Qed.

Lemma move_trylock m pts t c failed :
  inv (System m pts) → pts !! t = Some c → holds c = false → in_spin (pt c) = false →
  (pt c = Trylock ∨ pt c = SpinTrylock) → (fits m t c → fits m t failed) →
  match __mutex_trylock t c failed m with
  | Blocked => True
  | Next c' m' => inv (System m' (<[t := c']> pts))
  | Crash _ => False
  end.
Proof.
  intros HI Ht Hh Hs Hp Hc. unfold __mutex_trylock. destruct (counter m =? 0) eqn:E; [|eapply move_nothing; eauto].
  apply Z.eqb_eq in E. eapply inv_move; [done|done| |intros; eapply other_take; eauto|].
  - intros []. destruct c as [p st sl r]. unfold trylock_done. simpl in *.
    destruct sl, Hp as [-> | ->]; split; simpl; try done.
  - whole_part.
Qed.

Lemma mutex_act_inv m pts t e c :
  inv (System m pts) → pts !! t = Some c →
  match mutex_act e t c m with
  | Blocked => True
  | Next c' m' => inv (System m' (<[t := c']> pts))
  | Crash _ => False
  end.
Proof.
  intros HI Ht. pose proof (proj1 HI t c Ht) as Hf. simpl in Hf.
  destruct c as [p st sl r]. unfold mutex_act. destruct e as [i| | |sig same]; simpl.
  - destruct p; try done. eapply move_nothing; [done..|own_part].
  - destruct p; try done. eapply move_nothing; [done..|own_part].
  - destruct (_ =? _); [|done]. eapply inv_move; [done|done|intros; eapply other_state; eauto..|].
    intros [] _. by split.
  - destruct p; try done; unfold mutex_prepare_sleep, mutex_lock_slow_path, mutex_unlock; simpl.
    + eapply move_trylock; try done; [by left|own_part].
    + unfold mutex_optimistic_spin, trylock_failed. simpl.
      destruct i; split_ifs; (eapply move_nothing; [done..|own_part]).
    + unfold trylock_failed. eapply move_trylock; try done; [by right|]. destruct sl; own_part.
    + eapply move_acquire; try done. own_part.
    + eapply inv_move; [done|done|own_part|intros; eapply other_state; eauto|whole_part].
    + eapply inv_move; [done|done|own_part|intros; eapply other_add; eauto|].
      whole_part.
      * intros u [?| ->%list_elem_of_singleton]%list.elem_of_app; eauto.
      * apply list.NoDup_app. split_and!; [done| |apply NoDup_singleton].
        intros u Hu ->%list_elem_of_singleton. by apply (f_list _ _ _ Hf) in Hu.
    + eapply move_release; try done; own_part.
    + split_ifs; (eapply move_nothing; [done..|own_part]).
    + destruct (mutex_owner m =? t) eqn:E; [|eapply move_nothing; [done..|own_part]].
      apply Z.eqb_eq, owner_word in E; [|by apply Hf..]. by apply (f_held _ _ _ Hf) in E.
    + destruct (_ =? _); [|done]. eapply move_nothing; [done..|own_part].
    + eapply move_acquire; try done. own_part.
    + eapply move_unlink; try done. own_part.
    + eapply move_release; try done; own_part.
    + eapply inv_move; [done|done|own_part|intros; eapply other_state; eauto|whole_part].
    + eapply move_acquire; try done. own_part.
    + eapply move_unlink; try done. own_part.
    + eapply move_release; try done. destruct (r =? 0) eqn:E; own_part.
    + pose proof (proj1 (f_held _ _ _ Hf) eq_refl) as E. pose proof (word_nonzero t (proj2 (f_addr _ _ _ Hf))).
      eapply inv_move; [done|done| |intros; by eapply other_give|whole_part; by left].
      intros [? [] ? ? ?]. split; try done.
    + eapply move_acquire; try done. own_part.
    + destruct (thread_list m) as [|u l]; [eapply move_nothing; [done..|own_part]|].
      eapply inv_move; [done|done|own_part|intros; by eapply other_state|whole_part].
    + eapply move_release; try done; own_part.
Qed.

(** ** Nobody sleeps at a free mutex for good

    A thread gives [hope] if it is on its way to wake a waiter or to try the mutex again. *)

Definition hope (m : mutex) (t : Z) (c : caller) : bool :=
  match pt c with
  | UnlockLock | UnlockWake => true
  | Trylock | SpinTrylock => slow c
  | Spin (S _) _ => slow c
  | PrepareLock | PrepareState | PrepareAdd | PrepareUnlock => true
  | DequeueLock | DequeueRemove | DequeueUnlock => true
  | Spin O _ => slow c && (thread_status m t =? THREAD_RUNNABLE)
  | Signals | Owner | Sleep => thread_status m t =? THREAD_RUNNABLE
  | _ => false
  end.

(** No waiter is interruptible. *)
Definition patient (c : caller) : Prop := state c ≠ THREAD_INTERRUPTIBLE ∧ ret c = 0.

Definition hopeful (s : system caller mutex) : Prop :=
  counter (shared s) = 0 → thread_list (shared s) ≠ [] →
  ∃ t c, points s !! t = Some c ∧ hope (shared s) t c = true.

Lemma hope_mono m m' t c :
  thread_status m' t = thread_status m t ∨ thread_status m' t = THREAD_RUNNABLE →
  hope m t c = true → hope m' t c = true.
Proof.
  unfold hope. intros Hs. destruct (pt c) as [| |[] ?| | | | | | | | | | | | | | | | | | | |]; try done;
    destruct Hs as [-> | ->]; try done; intros [? _]%andb_true_iff; by apply andb_true_iff.
Qed.

Lemma hopeful_move m pts t c m' c' :
  hopeful (System m pts) → pts !! t = Some c →
  (∀ u, u ≠ t → thread_status m' u = thread_status m u ∨ thread_status m' u = THREAD_RUNNABLE) →
  (counter m' = 0 → thread_list m' ≠ [] →
    hope m' t c' = true ∨ (counter m = 0 ∧ thread_list m ≠ [] ∧ hope m t c = false)) →
  hopeful (System m' (<[t := c']> pts)).
Proof.
  intros HI Ht Hs Hc H0 Hl. simpl in *. destruct (Hc H0 Hl) as [Hy|(H0' & Hl' & Hn)].
  - exists t, c'. by rewrite lookup_insert_eq.
  - destruct (HI H0' Hl') as (u & d & Hu & Hd). simpl in *. exists u, d.
    assert (u ≠ t) by (intros ->; congruence). rewrite lookup_insert_ne by done.
    split; [done|]. eapply hope_mono; [|exact Hd]. auto.
Qed.

Lemma status_set t x m u : u ≠ t → thread_status (set_state t x m) u = thread_status m u.
Proof. intros. unfold thread_status. simpl. by rewrite lookup_insert_ne. Qed.

Lemma status_set_eq t x m : thread_status (set_state t x m) t = x.
Proof. unfold thread_status. simpl. by rewrite lookup_insert_eq. Qed.

(** The thread that is woken has the chance to take the mutex. *)
Lemma woken_hope m t c :
  fits m t c → patient c → t ∈ thread_list m → counter m = 0 →
  hope (set_state t THREAD_RUNNABLE m) t c = true.
Proof.
  intros [Ha Hh _ Hl Hs] [_ Hr] Hin H0. pose proof (word_nonzero t (proj2 Ha)).
  apply Hl in Hin. unfold queued in Hin. unfold holds in Hh. unfold hope. rewrite Hr in Hh.
  destruct (pt c) as [| |[] ?| | | | | | | | | | | | | | | | | | | |]; try done; rewrite ?status_set_eq, ?Hin; try done;
    simpl in Hh; destruct Hh as [Hh _]; specialize (Hh eq_refl); lia.
Qed.

Lemma patient_act m t e c :
  patient c → e ≠ CallLock true →
  match mutex_act e t c m with Next c' _ => patient c' | _ => True end.
Proof.
  intros [Hs Hr] He. unfold patient, mutex_act, __mutex_trylock, mutex_optimistic_spin, mutex_prepare_sleep,
    mutex_lock_slow_path, mutex_unlock, acquire, trylock_done, trylock_failed.
  destruct e as [[]| | |sig same]; try done; destruct c as [p st sl r]; simpl in *; destruct p; simpl; try done;
    split_ifs; try destruct (llock m); try destruct i; simpl; split_ifs; simpl; try done;
    apply andb_true_iff in Heqb as [->%Z.eqb_eq _]; done.
Qed.

Lemma hopeful_acquire m pts t c p :
  hopeful (System m pts) → pts !! t = Some c → (∀ m m', hope m t c = hope m' t (goto p c)) →
  match acquire t p c m with
  | Next c' m' => hopeful (System m' (<[t := c']> pts))
  | _ => True
  end.
Proof.
  intros HI Ht Hh. unfold acquire. destruct (llock m); [done|].
  eapply hopeful_move; [done|done|by left|]. simpl. rewrite (Hh m (set_llock (Some t) m)).
  destruct (hope _ t (goto p c)); auto.
Qed.

Lemma hopeful_trylock m pts t c failed :
  hopeful (System m pts) → pts !! t = Some c → t ≠ 1 →
  match __mutex_trylock t c failed m with
  | Next c' m' => hopeful (System m' (<[t := c']> pts))
  | _ => True
  end.
Proof.
  intros HI Ht Ht1. unfold __mutex_trylock. destruct (counter m =? 0) eqn:E;
    (eapply hopeful_move; [done|done|by left|]); simpl.
  - by intros ?%word_nonzero.
  - apply Z.eqb_neq in E. done.
Qed.

Lemma owner_free m pts : inv (System m pts) → counter m = 0 ↔ mutex_owner m = 0.
Proof.
  intros [Hf [Hw _ _ _]]. simpl in *. symmetry. apply owner_null.
  destruct Hw as [?|(t & [c Hc] & Hw)]; [by right|left]. exists t. split; [|done]. by apply (Hf t c).
Qed.

(** A turn that hands the mutex to nobody new and leaves the thread as hopeful as it was. *)
Lemma hopeful_same m pts t c c' l :
  hopeful (System m pts) → pts !! t = Some c → (hope m t c = true → hope (set_llock l m) t c' = true) →
  hopeful (System (set_llock l m) (<[t := c']> pts)).
Proof.
  intros HI Ht Hh. eapply hopeful_move; [done|done|by left|]. simpl.
  destruct (hope m t c); auto.
Qed.

Lemma hopeful_spin m pts t i last st sl r same :
  inv (System m pts) → hopeful (System m pts) → pts !! t = Some (Caller (Spin i last) st sl r) →
  match mutex_optimistic_spin same i last (Caller (Spin i last) st sl r) m with
  | Next c' m' => hopeful (System m' (<[t := c']> pts))
  | _ => True
  end.
Proof.
  intros HI HH Ht. pose proof (owner_free m pts HI) as Ho. unfold mutex_optimistic_spin, trylock_failed.
  assert (∀ d, (counter m = 0 → hope m t d = true ∨ sl = false) → i ≠ O → hopeful (System m (<[t := d]> pts))) as Hn.
  { intros d Hd Hi. eapply hopeful_move; [done|done|by left|]. intros H0 Hl.
    destruct (Hd H0) as [?| ->]; [by left|right]. destruct i; done. }
  destruct i as [|i]; simpl.
  - eapply hopeful_move; [done|done|by left|]. unfold hope. simpl.
    destruct sl; simpl; [|by left]. destruct (_ =? _); auto.
  - destruct (mutex_owner m =? 0) eqn:E; [apply Hn; [|done]; intros _; unfold hope; destruct sl; auto|].
    apply Z.eqb_neq in E. destruct (negb _ && negb _); [apply Hn; [|done]; intros H0; tauto|].
    destruct same; apply Hn; try done; intros; tauto.
Qed.

(** A thread on its way out of the slow path owns the mutex. *)
Lemma leaving_owns m t p st sl :
  fits m t (Caller p st sl 0) → holds (Caller p st sl 0) = true → counter m ≠ 0.
Proof. intros [Ha Hh _ _ _] E. apply Hh in E as ->. apply word_nonzero, Ha. Qed.

Lemma mutex_act_hopeful m pts t e c :
  inv (System m pts) → (∀ u d, pts !! u = Some d → patient d) → hopeful (System m pts) →
  pts !! t = Some c →
  match mutex_act e t c m with
  | Next c' m' => hopeful (System m' (<[t := c']> pts))
  | _ => True
  end.
Proof.
  intros HI HP HH Ht. pose proof (proj1 HI t c Ht) as Hf. simpl in Hf. pose proof (HP t c Ht) as [Hst Hr].
  destruct (f_addr _ _ _ Hf) as [_ Ht1].
  destruct c as [p st sl r]. unfold mutex_act. simpl in Hr. subst r.
  destruct e as [i| | |sig same]; simpl in *.
  - destruct p; try done. eapply hopeful_move; [done|done|by left|]. by right.
  - destruct p; try done. eapply hopeful_move; [done|done|by left|]. by right.
  - destruct (_ =? _); [|done]. eapply hopeful_move; [done|done|left; by apply status_set|]. intros H0 Hl.
    destruct (hope m t _) eqn:E; [left|by right]. eapply hope_mono; [|exact E]. right. apply status_set_eq.
  - destruct p; try done; unfold mutex_prepare_sleep, mutex_lock_slow_path, mutex_unlock; simpl;
      try (by apply hopeful_trylock); try (by apply hopeful_acquire); try (by eapply hopeful_spin);
      try (by eapply hopeful_same).
    + eapply hopeful_move; [done|done|left; by apply status_set|]. by left.
    + eapply hopeful_move; [done|done|by left|]. by left.
    + eapply hopeful_same; [done..|]. intros _. unfold hope. simpl. by apply (f_slow _ _ _ Hf).
    + destruct (_ && sig) eqn:E; [by apply andb_true_iff in E as [->%Z.eqb_eq _]|].
      destruct m. by eapply hopeful_same.
    + destruct (mutex_owner m =? t); [done|]. destruct m. by eapply hopeful_same.
    + destruct (_ =? _); [|done]. destruct m. by eapply hopeful_same.
    + eapply hopeful_move; [done|done|by left|]. by left.
    + eapply hopeful_move; [done|done|left; by apply status_set|]. intros ?. by apply leaving_owns in Hf.
    + eapply hopeful_move; [done|done|by left|]. intros ?. by apply leaving_owns in Hf.
    + eapply hopeful_move; [done|done|by left|]. by left.
    + destruct (thread_list m) as [|u l] eqn:El.
      { intros ? Hl. simpl in Hl. done. }
      assert (u ∈ thread_list m) as Hu by (rewrite El; by left).
      destruct (w_list _ _ (proj2 HI) u Hu) as [d Hd]. simpl in Hd. intros H0 _. exists u, d. split; simpl.
      * rewrite lookup_insert_ne; [done|]. intros ->. by apply (f_list _ _ _ Hf) in Hu.
      * apply woken_hope; [by apply (proj1 HI)|by eapply HP|done|done].
Qed.

(** ** The theorems *)

(** Threads that have not called anything yet, at aligned addresses. *)
Definition fresh (pts : gmap Z caller) : Prop :=
  ∀ t c, pts !! t = Some c → c = idle ∧ t ≠ 0 ∧ t mod 8 = 0.

Lemma fresh_inv pts : fresh pts → inv (System mutex_init pts).
Proof.
  intros Hp. split; simpl.
  - intros t c (-> & H0 & H8)%Hp. assert (t ≠ 1) as H1 by (by intros ->).
    split; simpl; try done; [|by split; [|intros ?%not_elem_of_nil]].
    split; [done|]. intros E. by apply (word_nonzero t) in H1.
  - split; simpl; [by left|done| |apply NoDup_nil_2]. by intros t ?%not_elem_of_nil.
Qed.

Lemma mutex_execute sched pts r :
  fresh pts → execute mutex_act sched (System mutex_init pts) = Some r → ∃ s, r = Done s ∧ inv s.
Proof.
  intros Hp. eapply execute_always; [|by apply fresh_inv].
  intros [m qs] t e l HI Hl. by apply mutex_act_inv.
Qed.

(** C11: Mutual exclusion.  In every execution, whoever calls what and in whatever order
    the threads run, at most one thread is between its lock and its unlock, the mutex
    names it as its owner, and no assertion fails. *)
Theorem mutex_exclusion sched pts r :
  fresh pts → execute mutex_act sched (System mutex_init pts) = Some r →
  ∃ s, r = Done s ∧
    (∀ t c, points s !! t = Some c → pt c = Critical → mutex_holds_lock t (shared s) = true) ∧
    (∀ t u c d, points s !! t = Some c → points s !! u = Some d →
      pt c = Critical → pt d = Critical → t = u).
Proof.
  intros Hp He. destruct (mutex_execute _ _ _ Hp He) as (s & -> & [Hf Hw]). exists s.
  assert (∀ t c, points s !! t = Some c → pt c = Critical → counter (shared s) = thread_to_lock_word t) as Hc.
  { intros t c Ht Hpt. apply (f_held _ _ _ (Hf t c Ht)). unfold holds. by rewrite Hpt. }
  split_and!; [done| |].
  - intros t c Ht Hpt. destruct (f_addr _ _ _ (Hf t c Ht)) as [H0 H1]. unfold mutex_holds_lock.
    pose proof (Hc t c Ht Hpt) as E. rewrite (proj2 (owner_word _ _ H0 H1) E), Z.eqb_refl, E.
    by rewrite (proj2 (Z.eqb_neq _ _)) by by apply word_nonzero.
  - intros t u c d Ht Hu Hpt Hpu. apply word_inj. by rewrite <-(Hc t c), <-(Hc u d).
Qed.

(** Where a thread can be when it cannot go on. *)
Lemma stuck_at s t c :
  inv s → points s !! t = Some c → (∀ u sig same, move mutex_act u (Go sig same) s = None) →
  pt c = Idle ∨ pt c = Critical ∨ (pt c = Sleep ∧ thread_status (shared s) t ≠ THREAD_RUNNABLE).
Proof.
  intros HI Ht Hstuck. assert (llock (shared s) = None) as Hl.
  { destruct (llock (shared s)) as [u|] eqn:E; [|done].
    destruct (w_spin _ _ (proj2 HI) u E) as [d Hd]. apply (f_spin _ _ _ (proj1 HI u d Hd)) in E.
    specialize (Hstuck u false false). unfold move in Hstuck. rewrite Hd in Hstuck. destruct d as [p st sl r].
    simpl in E. by destruct p. }
  specialize (Hstuck t false false). unfold move in Hstuck. rewrite Ht in Hstuck. destruct c as [p st sl r].
  unfold mutex_act, __mutex_trylock, mutex_optimistic_spin, mutex_prepare_sleep, mutex_lock_slow_path, mutex_unlock,
    acquire in Hstuck; simpl in Hstuck; rewrite ?Hl in Hstuck.
  destruct p; simpl in *; auto; repeat case_match; try done.
  right. right. split; [done|]. by apply Z.eqb_neq.
Qed.

(** C4: No wake-up is lost among callers of the uninterruptible [mutex_lock].  When no thread
    can go on, a thread that waits for the mutex waits for one that is in its critical
    section. *)
Theorem mutex_no_lost_wakeup sched pts r :
  fresh pts → Forall (λ e, e ≠ CallLock true) sched.*2 →
  execute mutex_act sched (System mutex_init pts) = Some r →
  ∃ s, r = Done s ∧
    ((∀ u sig same, move mutex_act u (Go sig same) s = None) →
     ∀ t c, points s !! t = Some c → pt c ≠ Idle → pt c ≠ Critical →
     ∃ u d, points s !! u = Some d ∧ pt d = Critical).
Proof.
  intros Hp Hs He.
  destruct (execute_inv mutex_act (λ e, e ≠ CallLock true) (λ s, inv s ∧ (∀ u d, points s !! u = Some d → patient d) ∧
    hopeful s) sched (System mutex_init pts) r) as (s & -> & HI & HP & HH); [|done| |done|].
  - intros [m qs] t e c Hok (HI & HP & HH) Hc. pose proof (mutex_act_inv m qs t e c HI Hc) as H1.
    pose proof (mutex_act_hopeful m qs t e c HI HP HH Hc) as H2.
    pose proof (patient_act m t e c (HP t c Hc) Hok) as H3. simpl in *.
    destruct (mutex_act e t c m) as [|c' m'|]; try done. split_and!; try done. simpl.
    intros u d. destruct (decide (u = t)) as [->|]; [rewrite lookup_insert_eq; by intros [= <-]|].
    rewrite lookup_insert_ne by done. apply HP.
  - split_and!; [by apply fresh_inv|by intros u d (-> & _)%Hp|]. by intros _ [].

  - exists s. split; [done|]. intros Hstuck t c Ht Hni Hnc.
    destruct (stuck_at s t c HI Ht Hstuck) as [?|[?|[Hsl Hst]]]; [done..|].
    destruct HI as [Hf Hw]. destruct (w_owner _ _ Hw) as [H0|(u & [d Hd] & E)].
    + destruct (HH H0) as (u & d & Hd & Hh).
      { intros E. assert (t ∈ thread_list (shared s)) as Hin; [|by rewrite E in Hin; apply not_elem_of_nil in Hin].
        apply (f_list _ _ _ (Hf t c Ht)). unfold queued. by rewrite Hsl. }
      unfold hope in Hh. destruct (stuck_at s u d (conj Hf Hw) Hd Hstuck) as [E|[E|[E Hn]]]; rewrite E in Hh; try done.
      by apply Z.eqb_eq in Hh.
    + exists u, d. split; [done|]. apply (f_held _ _ _ (Hf u d Hd)) in E. unfold holds in E.
      by destruct (stuck_at s u d (conj Hf Hw) Hd Hstuck) as [Ep|[?|[Ep _]]]; [rewrite Ep in E| |rewrite Ep in E].
Qed.

(** ** Executions *)

Definition three_threads : gmap Z caller := list_to_map [(8, idle); (16, idle); (24, idle)].

Lemma three_fresh : fresh three_threads.
Proof.
  intros t c Hc. apply elem_of_list_to_map_2 in Hc.
  repeat (apply list.elem_of_cons in Hc as [[= -> ->]|Hc]; [split_and!; done|]). by apply not_elem_of_nil in Hc.
Qed.

(** Thread [t] goes on [n] times. *)
Definition goes (t : Z) (sig same : bool) (n : nat) : list (Z * event) := replicate n (t, Go sig same).

(** The first thread takes the mutex; the other two ask for it, one of them interruptibly,
    and find it taken. *)
Definition contention (interruptible : bool) : list (Z * event) :=
  (8, CallLock false) :: goes 8 false false 1 ++
  (16, CallLock interruptible) :: goes 16 false true 8 ++
  (24, CallLock false) :: goes 24 false true 10.

Lemma mutex_exclusion_witness :
  ∃ s, execute mutex_act (contention true) (System mutex_init three_threads) = Some (Done s) ∧
    mutex_holds_lock 8 (shared s) = true.
Proof.
  destruct (execute mutex_act (contention true) (System mutex_init three_threads)) as [r|] eqn:E; [|by vm_compute in E].
  pose proof (mutex_exclusion _ _ _ three_fresh E) as (s & -> & H & _). exists s. split; [done|].
  eapply (H 8 (Caller Critical THREAD_UNINTERRUPTIBLE false 0)); [|done]. vm_compute in E. injection E as <-. reflexivity.
Defined.

(** Nobody can go on: checked thread by thread. *)
Definition blocked_here (m : mutex) (p : Z * caller) : bool :=
  forallb (λ b, match mutex_act (Go b.1 b.2) p.1 p.2 m with Blocked => true | _ => false end)
    [(false, false); (false, true); (true, false); (true, true)].

Lemma blocked_everywhere s :
  forallb (blocked_here (shared s)) (map_to_list (points s)) = true →
  ∀ u sig same, move mutex_act u (Go sig same) s = None.
Proof.
  intros H u sig same. unfold move. destruct (points s !! u) as [c|] eqn:E; [|done].
  apply elem_of_map_to_list, list_elem_of_In in E. eapply forallb_forall in H; [|exact E].
  eapply forallb_forall in H; [|by instantiate (1 := (sig, same)); destruct sig, same; simpl; auto].
  cbn [fst snd] in H. by destruct (mutex_act _ _ _ _).
Qed.

Lemma mutex_no_lost_wakeup_witness :
  ∃ s, execute mutex_act (contention false ++ goes 16 false true 2) (System mutex_init three_threads) = Some (Done s) ∧
    pt <$> points s !! 24 = Some Sleep ∧ ∃ u d, points s !! u = Some d ∧ pt d = Critical.
Proof.
  destruct (execute mutex_act (contention false ++ goes 16 false true 2) (System mutex_init three_threads))
    as [r|] eqn:E; [|by vm_compute in E].
  pose proof E as E'. apply (mutex_no_lost_wakeup _ _ _ three_fresh) in E as (s & -> & Hs);
    [|vm_compute; repeat (constructor; [done|]); constructor].
  exists s. split; [done|]. vm_compute in E'. injection E' as <-. split; [reflexivity|].
  eapply (Hs ltac:(apply blocked_everywhere; vm_compute; reflexivity) 24); [reflexivity|done|done].
Defined.

(** The waiter that is woken may leave because of a signal without passing the wake-up on:
    the mutex is free, nobody is about to unlock it, and the third thread sleeps. *)
Lemma interrupted_waiter_keeps_wakeup :
  ∃ s, execute mutex_act (contention true ++ (8, CallUnlock) :: goes 8 false false 4 ++ goes 16 true false 5)
         (System mutex_init three_threads) = Some (Done s) ∧
    counter (shared s) = 0 ∧ pt <$> points s !! 24 = Some Sleep ∧ thread_status (shared s) 24 = THREAD_UNINTERRUPTIBLE ∧
    points s !! 8 = Some idle ∧ points s !! 16 = Some idle.
Proof. eexists. vm_compute. split_and!; reflexivity. Qed.
