(* ===== verification/Rwlock.v ===== *)
(** * Rwlock: sleeping locks for many readers or one writer

    [kernel/sched/rwlock.cpp] and [include/onyx/rwlock.h].  Threads are the addresses of
    their control blocks; a thread is at one of the accesses to shared memory of the calls,
    and [rw_act] is what it does there, as in [Mutex]. *)

From S2P Require Import Prelude Abi Interleave Mutex.

Definition RDWR_LOCK_WRITE : Z := 2 ^ 63 - 1.

Record rwlock : Type := Rwlock {
  lock : Z;
  waiting_list : list Z;
  rw_llock : option Z;
  rw_status : gmap Z Z
}.

Definition rwlock_init : rwlock := Rwlock 0 [] None ∅.

Definition rw_thread_status (m : rwlock) (t : Z) : Z := default THREAD_RUNNABLE (rw_status m !! t).

Definition set_lock_word (l : Z) (m : rwlock) : rwlock :=
  Rwlock l (waiting_list m) (rw_llock m) (rw_status m).
Definition set_waiting_list (l : list Z) (m : rwlock) : rwlock :=
  Rwlock (lock m) l (rw_llock m) (rw_status m).
Definition set_rw_llock (l : option Z) (m : rwlock) : rwlock :=
  Rwlock (lock m) (waiting_list m) l (rw_status m).
Definition set_rw_state (t x : Z) (m : rwlock) : rwlock :=
  Rwlock (lock m) (waiting_list m) (rw_llock m) (<[t := x]> (rw_status m)).

(** ** Program points *)

Inductive rwpoint : Type :=
  | RwIdle
  | ReadLoad | ReadExchange (l : Z) (* rw_lock_tryread *)
  | WriteExchange (* rw_lock_trywrite *)
  | SlowLock | SlowState | SlowAdd (* spin_lock and rwlock_prepare_sleep *)
  | RwSignals | RwRelease | RwSleep | RwRelock | RwState (* the loop *)
  | OutRemove | OutState | OutRelease (* the end of the slow path *)
  | Reading | Writing
  | UnlockRead | UnlockWrite
  | WakeLock (all : bool) | WakeStart (all : bool) | Waking (rest : list Z).

(** A thread: its point, whether it asks for the lock to write, and the locals of
    [__rw_lock_read] and [__rw_lock_write]. *)
Record rwcaller : Type := RwCaller {
  rw_pt : rwpoint;
  rw_write : bool;
  rw_state : Z;
  rw_slow : bool;
  rw_ret : Z
}.

Definition rw_idle : rwcaller := RwCaller RwIdle false THREAD_RUNNABLE false 0.
Definition rw_goto (p : rwpoint) (c : rwcaller) : rwcaller :=
  RwCaller p (rw_write c) (rw_state c) (rw_slow c) (rw_ret c).

Inductive rwevent : Type :=
  | CallRead (interruptible : bool)
  | CallWrite (interruptible : bool)
  | CallRwUnlock
  | RwSignalled
  | RwGo (signal_pending : bool).

(** Where a caller tries the lock, in the fast or in the slow path. *)
Definition first_try (c : rwcaller) : rwpoint := if rw_write c then WriteExchange else ReadLoad.

Definition try_failed (c : rwcaller) : rwcaller :=
  if rw_slow c then rw_goto RwSignals c
  else RwCaller SlowLock (rw_write c) (rw_state c) true (rw_ret c).

Definition holding (c : rwcaller) : rwpoint := if rw_write c then Writing else Reading.

Definition try_done (c : rwcaller) : rwcaller :=
  if rw_slow c then RwCaller OutRemove (rw_write c) (rw_state c) true 0 else rw_goto (holding c) c.

Definition rw_lock_tryread (c : rwcaller) (m : rwlock) : turn rwcaller rwlock :=
  match rw_pt c with
  | ReadLoad =>
      if lock m =? RDWR_LOCK_WRITE - 1 then Next (try_failed c) m
      else if lock m =? RDWR_LOCK_WRITE then Next (try_failed c) m
      else Next (rw_goto (ReadExchange (lock m)) c) m
  | ReadExchange l =>
      if lock m =? l then Next (try_done c) (set_lock_word (u64 (l + 1)) m)
      else Next (rw_goto ReadLoad c) m
  | _ => Blocked
  end.

Definition rw_lock_trywrite (c : rwcaller) (m : rwlock) : turn rwcaller rwlock :=
  if lock m =? 0 then Next (try_done c) (set_lock_word RDWR_LOCK_WRITE m)
  else Next (try_failed c) m.

Definition rw_acquire (t : Z) (p : rwpoint) (c : rwcaller) (m : rwlock) : turn rwcaller rwlock :=
  match rw_llock m with
  | None => Next (rw_goto p c) (set_rw_llock (Some t) m)
  | Some _ => Blocked
  end.

(** The slow paths of [__rw_lock_read] and [__rw_lock_write], which differ in the try. *)
Definition rw_slow_path (sig : bool) (t : Z) (c : rwcaller) (m : rwlock) : turn rwcaller rwlock :=
  match rw_pt c with
  | SlowLock => rw_acquire t SlowState c m
  | SlowState => Next (rw_goto SlowAdd c) (set_rw_state t (rw_state c) m)
  | SlowAdd => Next (rw_goto (first_try c) c) (set_waiting_list (waiting_list m ++ [t]) m)
  | RwSignals =>
      if (rw_state c =? THREAD_INTERRUPTIBLE) && sig
      then Next (RwCaller OutRemove (rw_write c) (rw_state c) true (- EINTR)) m
      else Next (rw_goto RwRelease c) m
  | RwRelease => Next (rw_goto RwSleep c) (set_rw_llock None m)
  | RwSleep =>
      if rw_thread_status m t =? THREAD_RUNNABLE then Next (rw_goto RwRelock c) m else Blocked
  | RwRelock => rw_acquire t RwState c m
  | RwState => Next (rw_goto (first_try c) c) (set_rw_state t (rw_state c) m)
  | OutRemove =>
      Next (rw_goto OutState c) (set_waiting_list (filter (λ u, u ≠ t) (waiting_list m)) m)
  | OutState => Next (rw_goto OutRelease c) (set_rw_state t THREAD_RUNNABLE m)
  | _ => Next (if rw_ret c =? 0 then rw_goto (holding c) c else rw_idle) (set_rw_llock None m)
  end.

(** [list_first_element]: the head of the list itself, [None], if there is nothing else. *)
Definition first_waiting (m : rwlock) : option Z := head (waiting_list m).

(** [rw_unlock_read] and [rw_unlock_write], with [rw_lock_wake_up_thread] (the first of the
    list) and [rw_lock_wake_up_threads] (all of it). *)
Definition rw_unlock (t : Z) (c : rwcaller) (m : rwlock) : turn rwcaller rwlock :=
  match rw_pt c with
  | UnlockRead =>
      let l := u64 (lock m - 1) in
      Next (if l =? 0 then rw_goto (WakeLock false) c else rw_idle) (set_lock_word l m)
  | UnlockWrite => Next (rw_goto (WakeLock true) c) (set_lock_word 0 m)
  | WakeLock all => rw_acquire t (WakeStart all) c m
  | WakeStart true => Next (rw_goto (Waking (waiting_list m)) c) m
  | WakeStart false =>
      if bool_decide (waiting_list m = []) then Next (rw_goto (Waking []) c) m
      else
        match first_waiting m with
        | None => Crash AssertFailed
        | Some u => Next (rw_goto (Waking [u]) c) m
        end
  | Waking (u :: rest) => Next (rw_goto (Waking rest) c) (set_rw_state u THREAD_RUNNABLE m)
  | _ => Next rw_idle (set_rw_llock None m)
  end.

Definition rw_act (e : rwevent) (t : Z) (c : rwcaller) (m : rwlock) : turn rwcaller rwlock :=
  match e with
  | CallRead i =>
      match rw_pt c with
      | RwIdle => Next (RwCaller ReadLoad false (lock_state i) false 0) m | _ => Blocked end
  | CallWrite i =>
      match rw_pt c with
      | RwIdle => Next (RwCaller WriteExchange true (lock_state i) false 0) m | _ => Blocked end
  | CallRwUnlock =>
      match rw_pt c with
      | Reading => Next (rw_goto UnlockRead c) m
      | Writing => Next (rw_goto UnlockWrite c) m
      | _ => Blocked
      end
  | RwSignalled =>
      if rw_thread_status m t =? THREAD_INTERRUPTIBLE
      then Next c (set_rw_state t THREAD_RUNNABLE m) else Blocked
  | RwGo sig =>
      match rw_pt c with
      | RwIdle | Reading | Writing => Blocked
      | ReadLoad | ReadExchange _ => rw_lock_tryread c m
      | WriteExchange => rw_lock_trywrite c m
      | UnlockRead | UnlockWrite | WakeLock _ | WakeStart _ | Waking _ => rw_unlock t c m
      | _ => rw_slow_path sig t c m
      end
  end.
