(* ===== verification/RwlockProps.v ===== *)
(** * RwlockProps: readers and writers exclude each other, and nobody is forgotten *)

From S2P Require Import Prelude Bits Abi Interleave Mutex Rwlock.

(** ** What the point of a thread says about the lock *)

Definition reads (t : Z) (c : rwcaller) : bool :=
  match rw_pt c with
  | Reading | UnlockRead => true
  | OutRemove | OutState | OutRelease => (rw_ret c =? 0) && negb (rw_write c)
  | _ => false
  end.

Definition writes (t : Z) (c : rwcaller) : bool :=
  match rw_pt c with
  | Writing | UnlockWrite => true
  | OutRemove | OutState | OutRelease => (rw_ret c =? 0) && rw_write c
  | _ => false
  end.

Definition in_llock (c : rwcaller) : bool :=
  match rw_pt c with
  | ReadLoad | ReadExchange _ | WriteExchange => rw_slow c
  | SlowState | SlowAdd | RwSignals | RwRelease | RwState | OutRemove | OutState | OutRelease
  | WakeStart _ | Waking _ => true
  | _ => false
  end.

Definition in_waiting (c : rwcaller) : bool :=
  match rw_pt c with
  | ReadLoad | ReadExchange _ | WriteExchange => rw_slow c
  | RwSignals | RwRelease | RwSleep | RwRelock | RwState | OutRemove => true
  | _ => false
  end.

(** The locals agree with the point. *)
Definition coherent (c : rwcaller) : Prop :=
  match rw_pt c with
  | RwIdle | WakeLock _ | WakeStart _ | Waking _ => True
  | ReadLoad | Reading | UnlockRead => rw_write c = false
  | ReadExchange l => rw_write c = false ∧ l ≠ RDWR_LOCK_WRITE ∧ l ≠ RDWR_LOCK_WRITE - 1
  | WriteExchange | Writing | UnlockWrite => rw_write c = true
  | _ => rw_slow c = true
  end.

Record rwfits (m : rwlock) (t : Z) (c : rwcaller) : Prop := {
  g_spin : in_llock c = true ↔ rw_llock m = Some t;
  g_list : in_waiting c = true ↔ t ∈ waiting_list m;
  g_local : coherent c;
  g_rest : match rw_pt c with Waking rest => ∀ u, u ∈ rest → u ∈ waiting_list m | _ => True end
}.

Record rwwhole (m : rwlock) (pts : gmap Z rwcaller) : Prop := {
  v_spin : ∀ t, rw_llock m = Some t → is_Some (pts !! t);
  v_list : ∀ t, t ∈ waiting_list m → is_Some (pts !! t);
  v_nodup : NoDup (waiting_list m)
}.

(** The lock word counts the readers, or says that there is a writer. *)
Definition counted (l : Z) (pts : gmap Z rwcaller) : Prop :=
  (tally writes pts = 1 ∧ tally reads pts = 0 ∧ l = RDWR_LOCK_WRITE) ∨
  (tally writes pts = 0 ∧ l = tally reads pts).

Record rwinv (s : system rwcaller rwlock) : Prop := {
  r_fits : ∀ t c, points s !! t = Some c → rwfits (shared s) t c;
  r_whole : rwwhole (shared s) (points s);
  r_counted : counted (lock (shared s)) (points s);
  r_few : Z.of_nat (size (points s)) < RDWR_LOCK_WRITE - 1
}.

(** ** How the changes look to the other threads *)

Section rw_others.
Context (m : rwlock) (t : Z) (c : rwcaller) (Ht : rwfits m t c) (u : Z) (d : rwcaller) (Hu : rwfits m u d)
  (Hne : u ≠ t).

Lemma rw_other_state v x : rwfits (set_rw_state v x m) u d.
Proof. by destruct Hu. Qed.

Lemma rw_other_word l : rwfits (set_lock_word l m) u d.
Proof. by destruct Hu. Qed.

Lemma rw_other_release : in_llock c = true → rwfits (set_rw_llock None m) u d.
Proof.
  destruct Hu. intros E%(g_spin _ _ _ Ht). split; simpl; try done. rewrite g_spin0, E. split; congruence.
Qed.

Lemma rw_other_acquire : rw_llock m = None → rwfits (set_rw_llock (Some t) m) u d.
Proof. destruct Hu. intros E. split; simpl; try done. rewrite g_spin0, E. split; congruence. Qed.

(** Under the spinlock nobody else walks over the list. *)
Lemma rw_other_list l :
  in_llock c = true → (∀ v, v ≠ t → v ∈ l ↔ v ∈ waiting_list m) → rwfits (set_waiting_list l m) u d.
Proof.
  destruct Hu. intros E%(g_spin _ _ _ Ht) Hl. split; simpl; try done; [by rewrite g_list0, Hl|].
  destruct (rw_pt d) eqn:Ed; try done. exfalso. assert (in_llock d = true) as E'%g_spin0; [|congruence].
  unfold in_llock. by rewrite Ed.
Qed.
End rw_others.

(** ** Every turn keeps the invariant *)

Lemma rw_move m pts t c m' c' :
  rwinv (System m pts) → pts !! t = Some c →
  (rwfits m t c → rwfits m' t c') → (∀ u d, rwfits m t c → rwfits m u d → u ≠ t → rwfits m' u d) →
  (rwwhole m pts → rwfits m t c → rwwhole m' pts) →
  (counted (lock m) pts → counted (lock m') (<[t := c']> pts)) →
  rwinv (System m' (<[t := c']> pts)).
Proof.
  intros [Hf Hw Hc Hn] Ht Hown Ho Hg Hcnt. simpl in *. pose proof (Hf t c Ht) as Hfc.
  assert (∀ u, is_Some (pts !! u) → is_Some (<[t := c']> pts !! u)) as Hs.
  { intros u Hu. destruct (decide (u = t)) as [->|]; [rewrite lookup_insert_eq; eauto|by rewrite lookup_insert_ne]. }
  split; simpl.
  - intros u d. destruct (decide (u = t)) as [->|Hne].
    + rewrite lookup_insert_eq. intros [= <-]. auto.
    + rewrite lookup_insert_ne by done. intros Hu. eapply Ho; eauto.
  - destruct (Hg Hw Hfc). split; eauto.
  - auto.
  - by rewrite map_size_insert_Some by eauto.
Qed.

Lemma rw_counted_same l pts t c c' :
  pts !! t = Some c → reads t c' = reads t c → writes t c' = writes t c → counted l pts → counted l (<[t := c']> pts).
Proof.
  intros Ht Hr Hw. unfold counted. rewrite !(tally_insert _ _ _ _ _ Ht), Hr, Hw.
  by rewrite !Z.sub_add.
Qed.

(** A turn of a thread that changes its own point only. *)
Lemma rw_move_self m pts t c c' :
  rwinv (System m pts) → pts !! t = Some c → reads t c' = reads t c → writes t c' = writes t c →
  (rwfits m t c → rwfits m t c') → rwinv (System m (<[t := c']> pts)).
Proof. intros HI Ht Hr Hw Hown. eapply rw_move; [done|done|exact Hown|done|done|by eapply rw_counted_same]. Qed.

Lemma rw_move_status m pts t c c' v x :
  rwinv (System m pts) → pts !! t = Some c → reads t c' = reads t c → writes t c' = writes t c →
  (rwfits m t c → rwfits m t c') → rwinv (System (set_rw_state v x m) (<[t := c']> pts)).
Proof.
  intros HI Ht Hr Hw Hown. eapply rw_move; [done|done| |by intros; eapply rw_other_state| |by eapply rw_counted_same].
  - intros Hf. eapply rw_other_state. auto.
  - by intros [].
Qed.

Ltac rw_own :=
  let H := fresh in intros H; destruct H; unfold in_llock, in_waiting, coherent, rw_goto, try_failed, try_done, holding in *;
  simpl in *; subst; split; unfold in_llock, in_waiting, coherent; simpl; try done; split_ifs; simpl in *;
  rewrite ?list.elem_of_app, ?list_elem_of_singleton, ?list_elem_of_filter; intuition congruence.

Lemma rw_move_acquire m pts t c p :
  rwinv (System m pts) → pts !! t = Some c → reads t (rw_goto p c) = reads t c → writes t (rw_goto p c) = writes t c →
  (rwfits m t c → rw_llock m = None → rwfits (set_rw_llock (Some t) m) t (rw_goto p c)) →
  match rw_acquire t p c m with
  | Blocked => True
  | Next c' m' => rwinv (System m' (<[t := c']> pts))
  | Crash _ => False
  end.
Proof.
  intros HI Ht Hr Hw Hown. unfold rw_acquire. destruct (rw_llock m) eqn:E; [done|].
  eapply rw_move; [done|done|eauto|by intros; eapply rw_other_acquire| |by eapply rw_counted_same].
  intros [] _. split; simpl; try done. intros u [= <-]. eauto.
Qed.

Lemma rw_move_release m pts t c c' :
  rwinv (System m pts) → pts !! t = Some c → in_llock c = true → reads t c' = reads t c → writes t c' = writes t c →
  (rwfits m t c → rwfits (set_rw_llock None m) t c') →
  rwinv (System (set_rw_llock None m) (<[t := c']> pts)).
Proof.
  intros HI Ht Hin Hr Hw Hown.
  eapply rw_move; [done|done|exact Hown|by intros; eapply (rw_other_release m t c)| |by eapply rw_counted_same].
  intros [] _. by split.
Qed.

Lemma rw_move_list m pts t c c' l :
  rwinv (System m pts) → pts !! t = Some c → in_llock c = true → reads t c' = reads t c → writes t c' = writes t c →
  (∀ v, v ≠ t → v ∈ l ↔ v ∈ waiting_list m) → NoDup l →
  (rwfits m t c → rwfits (set_waiting_list l m) t c') →
  rwinv (System (set_waiting_list l m) (<[t := c']> pts)).
Proof.
  intros HI Ht Hin Hr Hw Hl Hn Hown.
  eapply rw_move; [done|done|exact Hown|by intros; eapply (rw_other_list m t c)| |by eapply rw_counted_same].
  intros [] _. split; simpl; try done. intros u Hu. destruct (decide (u = t)) as [->|]; [eauto|].
  apply v_list0. by apply Hl.
Qed.

Lemma rw_move_trywrite m pts t c :
  rwinv (System m pts) → pts !! t = Some c → rw_pt c = WriteExchange →
  match rw_lock_trywrite c m with
  | Blocked => True
  | Next c' m' => rwinv (System m' (<[t := c']> pts))
  | Crash _ => False
  end.
Proof.
  intros HI Ht Hp. destruct c as [p wr st sl r]. simpl in Hp. subst p. unfold rw_lock_trywrite.
  destruct (lock m =? 0) eqn:E.
  - apply Z.eqb_eq in E. pose proof (g_local _ _ _ (r_fits _ HI t _ Ht)) as Hwr. simpl in Hwr. unfold coherent in Hwr. simpl in Hwr. subst wr.
    eapply rw_move; [done|done|rw_own|by intros; eapply rw_other_word|by intros []|].
    rewrite E. unfold counted. rewrite !(tally_insert _ _ _ _ _ Ht). unfold try_done. simpl.
    pose proof (tally_nonneg reads pts). unfold RDWR_LOCK_WRITE. destruct sl; simpl; intros [?|?]; left; lia.
  - unfold try_failed. destruct sl; (eapply rw_move_self; [done|done|done|done|rw_own]).
Qed.

Lemma rw_move_tryread m pts t c :
  rwinv (System m pts) → pts !! t = Some c → (rw_pt c = ReadLoad ∨ ∃ l, rw_pt c = ReadExchange l) →
  match rw_lock_tryread c m with
  | Blocked => True
  | Next c' m' => rwinv (System m' (<[t := c']> pts))
  | Crash _ => False
  end.
Proof.
  intros HI Ht Hp. destruct c as [p wr st sl r]. simpl in Hp. unfold rw_lock_tryread.
  pose proof (g_local _ _ _ (r_fits _ HI t _ Ht)) as Hwr. unfold coherent in Hwr. simpl in Hwr.
  destruct Hp as [->|[l ->]]; simpl.
  - subst wr. destruct (lock m =? _ - 1) eqn:E1; [|destruct (lock m =? RDWR_LOCK_WRITE) eqn:E2]; unfold try_failed; simpl;
      [destruct sl; (eapply rw_move_self; [done|done|done|done|rw_own])..|].
    apply Z.eqb_neq in E1, E2. eapply rw_move_self; [done|done|done|done|rw_own].
  - destruct Hwr as (-> & Hl & Hl'). destruct (lock m =? l) eqn:E.
    + apply Z.eqb_eq in E. subst l.
      eapply rw_move; [done|done|rw_own|by intros; eapply rw_other_word|by intros []|].
      pose proof (r_few _ HI) as Hn. simpl in Hn. pose proof (tally_size reads pts). pose proof (tally_nonneg reads pts).
      unfold counted. rewrite !(tally_insert _ _ _ _ _ Ht). unfold try_done. simpl.
      intros [?|[? El]]; [tauto|]. rewrite u64_small by (unfold RDWR_LOCK_WRITE in *; lia).
      destruct sl; simpl; right; lia.
    + eapply rw_move_self; [done|done|done|done|rw_own].
Qed.

Lemma rw_slow_inv m pts t sig c :
  rwinv (System m pts) → pts !! t = Some c →
  match rw_pt c with
  | SlowLock | SlowState | SlowAdd | RwSignals | RwRelease | RwSleep | RwRelock | RwState
  | OutRemove | OutState | OutRelease => True
  | _ => False
  end →
  match rw_slow_path sig t c m with
  | Blocked => True
  | Next c' m' => rwinv (System m' (<[t := c']> pts))
  | Crash _ => False
  end.
Proof.
  intros HI Ht Hp. destruct c as [p wr st sl r]. simpl in Hp. unfold rw_slow_path, first_try, holding. simpl.
  pose proof (r_fits _ HI t _ Ht) as Hf. simpl in Hf. pose proof (v_nodup _ _ (r_whole _ HI)) as Hnd. simpl in Hnd.
  assert (sl = true) as -> by (pose proof (g_local _ _ _ Hf) as Hl; unfold coherent in Hl; by destruct p).
  destruct p; try done.
  - eapply rw_move_acquire; [done..|rw_own].
  - eapply rw_move_status; [done..|rw_own].
  - eapply rw_move_list; [done|done|done|by destruct wr..| | |].
    + intros v Hv. rewrite list.elem_of_app, list_elem_of_singleton. tauto.
    + apply list.NoDup_app. split_and!; [done| |apply NoDup_singleton].
      intros u Hu ->%list_elem_of_singleton. by apply (g_list _ _ _ Hf) in Hu.
    + destruct wr; rw_own.
  - destruct (_ && sig); (eapply rw_move_self; [done..|rw_own]).
  - eapply rw_move_release; [done..|rw_own].
  - destruct (_ =? _); [|done]. eapply rw_move_self; [done..|rw_own].
  - eapply rw_move_acquire; [done..|rw_own].
  - eapply rw_move_status; [done|done|by destruct wr..|destruct wr; rw_own].
  - eapply rw_move_list; [done|done|done|done|done| | |rw_own].
    + intros v Hv. rewrite list_elem_of_filter. tauto.
    + by apply list.NoDup_filter.
  - eapply rw_move_status; [done..|rw_own].
  - eapply rw_move_release; [done..| | |].
    + unfold reads, rw_goto. simpl. destruct (r =? 0), wr; done.
    + unfold writes, rw_goto. simpl. destruct (r =? 0), wr; done.
    + destruct (r =? 0), wr; rw_own.
Qed.

Lemma rw_unlock_inv m pts t c :
  rwinv (System m pts) → pts !! t = Some c →
  match rw_pt c with UnlockRead | UnlockWrite | WakeLock _ | WakeStart _ | Waking _ => True | _ => False end →
  match rw_unlock t c m with
  | Blocked => True
  | Next c' m' => rwinv (System m' (<[t := c']> pts))
  | Crash _ => False
  end.
Proof.
  intros HI Ht Hp. destruct c as [p wr st sl r]. simpl in Hp. unfold rw_unlock. simpl.
  pose proof (tally_nonneg reads pts) as H0. pose proof (tally_size reads pts) as H1.
  pose proof (r_few _ HI) as H2. simpl in H2.
  destruct p as [| | | | | | | | | | | | | | | | | | |all|all|rest]; try done.
  - eapply rw_move; [done|done|split_ifs; rw_own|by intros; eapply rw_other_word|by intros []|].
    unfold counted. simpl. assert (1 <= tally reads pts) by (pose proof (proj2 (tally_pos reads pts)) as Hpos;
      assert (0 < tally reads pts) by (apply Hpos; eauto); lia).
    intros [?|[Hw ->]]; [lia|]. unfold RDWR_LOCK_WRITE in H2. right.
    rewrite u64_small by lia. rewrite !(tally_insert _ _ _ _ _ Ht).
    destruct (_ =? 0); simpl; lia.
  - eapply rw_move; [done|done|rw_own|by intros; eapply rw_other_word|by intros []|].
    assert (0 < tally writes pts) by (apply tally_pos; eauto).
    unfold counted. rewrite !(tally_insert _ _ _ _ _ Ht). simpl. intros [?|?]; [right|]; lia.
  - eapply rw_move_acquire; [done..|rw_own].
  - unfold first_waiting. destruct all; [|destruct (waiting_list m) as [|v l] eqn:El; simpl];
      (eapply rw_move_self; [done..|]); intros [Hs Hl Hc _]; split; try done; simpl; intros u; rewrite ?El; set_solver.
  - destruct rest as [|u rest].
    + eapply rw_move_release; [done..|rw_own].
    + eapply rw_move_status; [done..|]. intros [Hs Hl Hc Hr]. split; try done. simpl in *.
      intros v Hv. apply Hr. by right.
Qed.

Lemma rw_act_inv m pts t e c :
  rwinv (System m pts) → pts !! t = Some c →
  match rw_act e t c m with
  | Blocked => True
  | Next c' m' => rwinv (System m' (<[t := c']> pts))
  | Crash _ => False
  end.
Proof.
  intros HI Ht. destruct c as [p wr st sl r]. unfold rw_act.
  destruct e as [i|i| | |sig]; simpl.
  - destruct p; try done. eapply rw_move_self; [done..|rw_own].
  - destruct p; try done. eapply rw_move_self; [done..|rw_own].
  - destruct p; try done; (eapply rw_move_self; [done..|rw_own]).
  - destruct (_ =? _); [|done]. eapply rw_move_status; [done..|auto].
  - destruct p; try done;
      try (by eapply rw_slow_inv); try (by eapply rw_unlock_inv); try (by eapply rw_move_trywrite);
      eapply rw_move_tryread; eauto.
Qed.

(** ** Who is woken

    A thread gives [rw_hope] if it is on its way to wake a waiter or to try the lock again. *)

Definition rw_hope (m : rwlock) (t : Z) (c : rwcaller) : bool :=
  match rw_pt c with
  | WakeLock _ | WakeStart _ | Waking (_ :: _) => true
  | ReadLoad | ReadExchange _ | WriteExchange => rw_slow c
  | SlowState | SlowAdd | RwRelock | RwState => true
  | RwSleep => rw_thread_status m t =? THREAD_RUNNABLE
  | _ => false
  end.

Definition rw_hopeful (s : system rwcaller rwlock) : Prop :=
  lock (shared s) = 0 → waiting_list (shared s) ≠ [] →
  ∃ t c, points s !! t = Some c ∧ rw_hope (shared s) t c = true.

(** A reader that has found the lock taken. *)
Definition waits_read (m : rwlock) (t : Z) (c : rwcaller) : bool :=
  negb (rw_write c) &&
  match rw_pt c with
  | RwSignals | RwRelease => true
  | RwSleep => negb (rw_thread_status m t =? THREAD_RUNNABLE)
  | _ => false
  end.

(** The thread will wake reader [t]. *)
Definition promises (t : Z) (c : rwcaller) : Prop :=
  match rw_pt c with
  | WakeLock true | WakeStart true => True
  | Waking rest => t ∈ rest
  | _ => False
  end.

Definition promising (s : system rwcaller rwlock) : Prop :=
  ∀ t c, points s !! t = Some c → waits_read (shared s) t c = true →
  lock (shared s) = RDWR_LOCK_WRITE ∨ ∃ u d, points s !! u = Some d ∧ promises t d.

Definition woken_only (t : Z) (m m' : rwlock) : Prop :=
  ∀ u, u ≠ t → rw_thread_status m' u = rw_thread_status m u ∨ rw_thread_status m' u = THREAD_RUNNABLE.

Lemma rw_status_set t x m : woken_only t m (set_rw_state t x m).
Proof. intros u Hu. left. unfold rw_thread_status. simpl. by rewrite lookup_insert_ne. Qed.

Lemma rw_status_wake t u m : woken_only t m (set_rw_state u THREAD_RUNNABLE m).
Proof.
  intros v Hv. unfold rw_thread_status. simpl. destruct (decide (v = u)) as [->|].
  - right. by rewrite lookup_insert_eq.
  - left. by rewrite lookup_insert_ne.
Qed.

Lemma rw_hope_mono t m m' u c :
  woken_only t m m' → u ≠ t → rw_hope m u c = true → rw_hope m' u c = true.
Proof.
  intros Hs Hu. unfold rw_hope. destruct (rw_pt c); try done.
  destruct (Hs u Hu) as [-> | ->]; done.
Qed.

Lemma waits_read_mono t m m' u c :
  woken_only t m m' → u ≠ t → waits_read m' u c = true → waits_read m u c = true.
Proof.
  intros Hs Hu. unfold waits_read. destruct (rw_pt c); try done.
  destruct (Hs u Hu) as [-> | ->]; [done|]. by rewrite andb_false_r.
Qed.

Lemma rw_hopeful_move m pts t c m' c' :
  rw_hopeful (System m pts) → pts !! t = Some c → woken_only t m m' →
  (lock m' = 0 → waiting_list m' ≠ [] →
    rw_hope m' t c' = true ∨ (lock m = 0 ∧ waiting_list m ≠ [] ∧ rw_hope m t c = false)) →
  rw_hopeful (System m' (<[t := c']> pts)).
Proof.
  intros HI Ht Hs Hc H0 Hl. simpl in *. destruct (Hc H0 Hl) as [Hy|(H0' & Hl' & Hn)].
  - exists t, c'. by rewrite lookup_insert_eq.
  - destruct (HI H0' Hl') as (u & d & Hu & Hd). simpl in *. exists u, d.
    assert (u ≠ t) by (intros ->; congruence). rewrite lookup_insert_ne by done.
    split; [done|]. by eapply rw_hope_mono.
Qed.

Lemma promising_move m pts t c m' c' :
  promising (System m pts) → pts !! t = Some c → woken_only t m m' →
  (waits_read m' t c' = true → lock m' = RDWR_LOCK_WRITE ∨ waits_read m t c = true) →
  (lock m = RDWR_LOCK_WRITE → lock m' = RDWR_LOCK_WRITE ∨ ∀ u, promises u c') →
  (∀ u d, pts !! u = Some d → u ≠ t → promises u c → waits_read m' u d = true → promises u c') →
  (∀ u, ¬ (waits_read m t c = true ∧ promises u c)) →
  promising (System m' (<[t := c']> pts)).
Proof.
  intros HP Ht Hs Hself Hw Hpr Hno u d Hu Hwait. simpl in *.
  assert (lock m' = RDWR_LOCK_WRITE ∨ ∃ d0, pts !! u = Some d0 ∧ waits_read m u d0 = true ∧ (u ≠ t → d0 = d)) as [?|(d0 & Hd0 & Hw0 & Heq)].
  { destruct (decide (u = t)) as [->|Hne].
    - rewrite lookup_insert_eq in Hu. injection Hu as <-. destruct (Hself Hwait); [by left|right; by exists c].
    - rewrite lookup_insert_ne in Hu by done. right. exists d. split_and!; try done. by eapply waits_read_mono. }
  { by left. }
  destruct (HP u d0 Hd0 Hw0) as [E|(v & e & Hv & He)]; simpl in *.
  - destruct (Hw E) as [?|Hall]; [by left|right]. exists t, c'. by rewrite lookup_insert_eq.
  - right. destruct (decide (v = t)) as [->|Hvt].
    + assert (e = c) as -> by congruence. exists t, c'. rewrite lookup_insert_eq. split; [done|].
      destruct (decide (u = t)) as [->|Hne]; [exfalso; eapply Hno; split; [|exact He]; congruence|].
      rewrite (Heq Hne) in Hd0. by eapply Hpr.
    + exists v, e. by rewrite lookup_insert_ne by done.
Qed.

Definition rw_live (s : system rwcaller rwlock) : Prop := rw_hopeful s ∧ promising s.

(** A turn that changes neither the lock word nor the list. *)
Lemma rw_live_quiet m pts t c m' c' :
  rw_live (System m pts) → pts !! t = Some c → woken_only t m m' →
  lock m' = lock m → waiting_list m' = waiting_list m →
  (lock m = 0 → rw_hope m t c = true → rw_hope m' t c' = true) →
  (waits_read m' t c' = true → lock m = RDWR_LOCK_WRITE ∨ waits_read m t c = true) →
  (∀ u d, pts !! u = Some d → u ≠ t → promises u c → waits_read m' u d = true → promises u c') →
  rw_live (System m' (<[t := c']> pts)).
Proof.
  intros [HH HP] Ht Hs Hl Hw Hhope Hself Hpr. split.
  - eapply rw_hopeful_move; [done|done|done|]. rewrite Hl, Hw. intros H0 Hn.
    destruct (rw_hope m t c); [left; auto|right; auto].
  - eapply promising_move; [done|done|done| |by rewrite Hl; left|done|].
    + rewrite Hl. done.
    + intros u [Hw' Hp]. unfold waits_read, promises in *. destruct (rw_pt c); try done; by rewrite andb_false_r in Hw'.
Qed.

Lemma rw_live_word m pts t c l c' :
  rw_live (System m pts) → pts !! t = Some c →
  (l = 0 → rw_hope m t c' = true) → waits_read m t c' = false → (∀ u, ¬ promises u c) →
  (lock m = RDWR_LOCK_WRITE → l = RDWR_LOCK_WRITE ∨ ∀ u, promises u c') →
  rw_live (System (set_lock_word l m) (<[t := c']> pts)).
Proof.
  intros [HH HP] Ht H0 Hw Hn Hl. split.
  - eapply rw_hopeful_move; [done|done|by left|]. simpl. intros E _. left. by apply H0.
  - eapply promising_move; [done|done|by left| |done| |].
    + intros E. exfalso. change (waits_read (set_lock_word l m) t c') with (waits_read m t c') in E. congruence.
    + intros u d _ _ Hp. by apply Hn in Hp.
    + intros u [_ Hp]. by apply Hn in Hp.
Qed.

Lemma rw_live_list m pts t c l c' :
  rw_live (System m pts) → pts !! t = Some c →
  (l ≠ [] → rw_hope m t c' = true ∨ (waiting_list m ≠ [] ∧ rw_hope m t c = false)) →
  waits_read m t c' = false → (∀ u, ¬ promises u c) →
  rw_live (System (set_waiting_list l m) (<[t := c']> pts)).
Proof.
  intros [HH HP] Ht H0 Hw Hn. split.
  - eapply rw_hopeful_move; [done|done|by left|]. simpl. intros E Hl.
    destruct (H0 Hl) as [?|[? ?]]; [by left|by right].
  - eapply promising_move; [done|done|by left| |by left| |].
    + intros E. exfalso. change (waits_read (set_waiting_list l m) t c') with (waits_read m t c') in E. congruence.
    + intros u d _ _ Hp. by apply Hn in Hp.
    + intros u [_ Hp]. by apply Hn in Hp.
Qed.

Lemma rw_live_acquire m pts t c p :
  rw_live (System m pts) → pts !! t = Some c →
  (rw_hope m t c = true → rw_hope m t (rw_goto p c) = true) → waits_read m t (rw_goto p c) = false →
  (∀ u, promises u c → promises u (rw_goto p c)) →
  match rw_acquire t p c m with
  | Next c' m' => rw_live (System m' (<[t := c']> pts))
  | _ => True
  end.
Proof.
  intros HL Ht Hh Hw Hp. unfold rw_acquire. destruct (rw_llock m); [done|].
  eapply rw_live_quiet; [done|done|by left|done|done| | |].
  - intros _. exact Hh.
  - intros E. exfalso. change (waits_read (set_rw_llock (Some t) m) t (rw_goto p c)) with (waits_read m t (rw_goto p c)) in E.
    congruence.
  - intros u d _ _ Hu _. by apply Hp.
Qed.

(** Turns on a point that neither waits nor wakes. *)
Ltac rw_quiet := (eapply rw_live_quiet; [done|done|first [by left|apply rw_status_set]|done|done|try done..]).

Lemma rw_slow_live m pts t sig c :
  rwinv (System m pts) → rw_live (System m pts) → pts !! t = Some c →
  match rw_pt c with
  | SlowLock | SlowState | SlowAdd | RwSignals | RwRelease | RwSleep | RwRelock | RwState
  | OutRemove | OutState | OutRelease => True
  | _ => False
  end →
  match rw_slow_path sig t c m with
  | Next c' m' => rw_live (System m' (<[t := c']> pts))
  | _ => True
  end.
Proof.
  intros HI HL Ht Hp. destruct c as [p wr st sl r]. simpl in Hp. unfold rw_slow_path, first_try. simpl.
  pose proof (r_fits _ HI t _ Ht) as Hf. simpl in Hf.
  assert (sl = true) as -> by (pose proof (g_local _ _ _ Hf) as Hl; unfold coherent in Hl; by destruct p).
  destruct p; try done.
  - eapply rw_live_acquire; try done. by unfold waits_read; simpl; rewrite andb_false_r.
  - rw_quiet. by unfold waits_read; simpl; rewrite andb_false_r.
  - eapply rw_live_list; [done|done|left; by destruct wr| |by intros u []].
    unfold waits_read. destruct wr; done.
  - destruct (_ && sig); rw_quiet; [by unfold waits_read; simpl; rewrite andb_false_r|by right].
  - rw_quiet. unfold waits_read. simpl. destruct wr; [done|by right].
  - destruct (_ =? _); [|done]. rw_quiet. by unfold waits_read; simpl; rewrite andb_false_r.
  - eapply rw_live_acquire; try done. by unfold waits_read; simpl; rewrite andb_false_r.
  - rw_quiet; [intros; by destruct wr|unfold waits_read; destruct wr; done].
  - eapply rw_live_list; [done|done| |by unfold waits_read; simpl; rewrite andb_false_r|by intros u []].
    intros Hn. right. split; [|done]. intros E. apply Hn. by rewrite E.
  - rw_quiet. by unfold waits_read; simpl; rewrite andb_false_r.
  - rw_quiet. unfold waits_read. destruct (r =? 0); simpl; [unfold holding; destruct wr|]; done.
Qed.

(** Without a writer the word is below the two special values. *)
Lemma word_read m pts : rwinv (System m pts) → lock m ≠ RDWR_LOCK_WRITE - 1.
Proof.
  intros [_ _ Hc Hn]. simpl in *. pose proof (tally_size reads pts).
  destruct Hc as [(_ & _ & ->)|[_ ->]]; unfold RDWR_LOCK_WRITE in *; lia.
Qed.

Lemma rw_try_live m pts t c :
  rwinv (System m pts) → rw_live (System m pts) → pts !! t = Some c →
  match rw_pt c with
  | ReadLoad | ReadExchange _ => match rw_lock_tryread c m with
      | Next c' m' => rw_live (System m' (<[t := c']> pts)) | _ => True end
  | WriteExchange => match rw_lock_trywrite c m with
      | Next c' m' => rw_live (System m' (<[t := c']> pts)) | _ => True end
  | _ => True
  end.
Proof.
  intros HI HL Ht. pose proof (word_read m pts HI) as Hr. destruct c as [p wr st sl r].
  pose proof (g_local _ _ _ (r_fits _ HI t _ Ht)) as Hc. unfold coherent in Hc. simpl in *.
  unfold rw_lock_tryread, rw_lock_trywrite, try_failed, try_done. destruct p; try done; simpl.
  - subst wr. rewrite (proj2 (Z.eqb_neq _ _) Hr). destruct (lock m =? RDWR_LOCK_WRITE) eqn:E.
    + apply Z.eqb_eq in E. destruct sl; rw_quiet; [by rewrite E|by left].
    + rw_quiet.
  - destruct Hc as (-> & Hl & _). destruct (lock m =? l) eqn:E; [|rw_quiet].
    apply Z.eqb_eq in E. subst l. pose proof (r_counted _ HI) as Hcnt. simpl in Hcnt.
    destruct Hcnt as [?|[_ Hcnt]]; [tauto|]. pose proof (tally_nonneg reads pts). pose proof (tally_size reads pts).
    pose proof (r_few _ HI) as Hn. simpl in Hn. unfold RDWR_LOCK_WRITE in Hn.
    eapply rw_live_word; [done|done| |by destruct sl|by intros u []|by intros ?%Hl].
    rewrite u64_small by lia. lia.
  - subst wr. destruct (lock m =? 0) eqn:E.
    + eapply rw_live_word; [done|done|done|by destruct sl|by intros u []|by left].
    + apply Z.eqb_neq in E. destruct sl; rw_quiet.
Qed.

(** A thread that is being woken sleeps, or is about to take the spinlock. *)
Lemma woken_rw_hope m pts t c u rest :
  rwinv (System m pts) → pts !! t = Some c → rw_pt c = Waking (u :: rest) →
  ∃ d, pts !! u = Some d ∧ u ≠ t ∧ rw_hope (set_rw_state u THREAD_RUNNABLE m) u d = true ∧
    waits_read (set_rw_state u THREAD_RUNNABLE m) u d = false.
Proof.
  intros HI Ht Hp. pose proof (r_fits _ HI t _ Ht) as Hf. simpl in Hf.
  pose proof (g_rest _ _ _ Hf) as Hr. rewrite Hp in Hr. assert (u ∈ waiting_list m) as Hu by (apply Hr; by left).
  destruct (v_list _ _ (r_whole _ HI) u Hu) as [d Hd]. simpl in Hd. exists d.
  assert (u ≠ t) as Hne. { intros ->. apply (g_list _ _ _ Hf) in Hu. unfold in_waiting in Hu. by rewrite Hp in Hu. }
  pose proof (r_fits _ HI u _ Hd) as Hfu. simpl in Hfu. apply (g_list _ _ _ Hfu) in Hu.
  assert (rw_llock m = Some t) as Hl. { apply (g_spin _ _ _ Hf). unfold in_llock. by rewrite Hp. }
  assert (in_llock d = false) as Hn.
  { destruct (in_llock d) eqn:E; [|done]. apply (g_spin _ _ _ Hfu) in E. congruence. }
  split_and!; try done; unfold rw_hope, waits_read, in_llock, in_waiting in *;
    destruct (rw_pt d); try done; try congruence;
    unfold rw_thread_status; simpl; rewrite ?lookup_insert_eq; simpl; by rewrite ?andb_false_r.
Qed.

Lemma rw_unlock_live m pts t c :
  rwinv (System m pts) → rw_live (System m pts) → pts !! t = Some c →
  match rw_pt c with UnlockRead | UnlockWrite | WakeLock _ | WakeStart _ | Waking _ => True | _ => False end →
  match rw_unlock t c m with
  | Next c' m' => rw_live (System m' (<[t := c']> pts))
  | _ => True
  end.
Proof.
  intros HI HL Ht Hp. destruct c as [p wr st sl r]. simpl in Hp. unfold rw_unlock. simpl.
  destruct p as [| | | | | | | | | | | | | | | | | | |all|all|[|u rest]]; try done.
  - eapply rw_live_word; [done|done| | |by intros u []|].
    + intros ->. done.
    + unfold waits_read. destruct (_ =? 0); simpl; by rewrite ?andb_false_r.
    + intros E. exfalso. assert (0 < tally reads pts) by (apply tally_pos; eauto).
      pose proof (tally_size reads pts). pose proof (r_few _ HI) as Hn. simpl in Hn.
      destruct (r_counted _ HI) as [?|[_ Hc]]; simpl in *; lia.
  - eapply rw_live_word; [done|done|done|by unfold waits_read; simpl; rewrite andb_false_r|by intros u []|by right].
  - eapply rw_live_acquire; try done. by unfold waits_read; simpl; rewrite andb_false_r.
  - assert (∀ rest, (waiting_list m ≠ [] → rest ≠ []) → (all = true → rest = waiting_list m) →
      rw_live (System m (<[t := RwCaller (Waking rest) wr st sl r]> pts))) as Hstart.
    { intros rest Hne Hall. destruct HL as [HH HP]. split.
      - eapply rw_hopeful_move; [done|done|by left|]. intros H0 Hl. left. unfold rw_hope. simpl.
        destruct rest; [by apply Hne in Hl|done].
      - eapply promising_move; [done|done|by left| |by left| |].
        + unfold waits_read. simpl. by rewrite andb_false_r.
        + intros u d Hu Hnet Hpr Hw. unfold promises in *. simpl in *. destruct all; [|done]. rewrite (Hall eq_refl).
          apply (g_list _ _ _ (r_fits _ HI u d Hu)). unfold waits_read, in_waiting in *.
          destruct (rw_pt d); try done; by rewrite andb_false_r in Hw.
        + intros u [E _]. unfold waits_read in E. simpl in E. by rewrite andb_false_r in E. }
    unfold first_waiting, rw_goto. simpl. destruct all; [by apply Hstart|].
    destruct (waiting_list m) as [|v l] eqn:El; simpl; by apply Hstart.
  - rw_quiet. intros u d _ _ Hu. unfold promises in Hu. simpl in Hu. by apply not_elem_of_nil in Hu.
  - destruct (woken_rw_hope m pts t _ u rest HI Ht eq_refl) as (d & Hd & Hne & Hh & Hw).
    destruct HL as [HH HP]. split.
    + intros _ _. exists u, d. simpl. by rewrite lookup_insert_ne.
    + eapply promising_move; [done|done|apply rw_status_wake| |by left| |].
      * unfold waits_read. simpl. by rewrite andb_false_r.
      * intros v e He Hne' Hpr Hwv. unfold promises in *. simpl in *.
        apply list.elem_of_cons in Hpr as [->|?]; [|done]. congruence.
      * intros v [E _]. unfold waits_read in E. simpl in E. by rewrite andb_false_r in E.
Qed.

Lemma rw_act_live m pts t e c :
  rwinv (System m pts) → rw_live (System m pts) → pts !! t = Some c →
  match rw_act e t c m with
  | Next c' m' => rw_live (System m' (<[t := c']> pts))
  | _ => True
  end.
Proof.
  intros HI HL Ht. pose proof (rw_try_live m pts t c HI HL Ht) as Htry.
  destruct c as [p wr st sl r]. unfold rw_act. destruct e as [i|i| | |sig]; simpl in *.
  - destruct p; try done. rw_quiet.
  - destruct p; try done. rw_quiet.
  - destruct p; try done; rw_quiet; unfold waits_read; simpl; by rewrite andb_false_r.
  - destruct (_ =? _); [|done]. rw_quiet.
    + intros _. unfold rw_hope. simpl. destruct p; try done. intros _. unfold rw_thread_status. simpl. by rewrite lookup_insert_eq.
    + unfold waits_read. simpl. destruct p; simpl; try (by rewrite ?andb_false_r); auto.
      unfold rw_thread_status. simpl. rewrite lookup_insert_eq. simpl. by rewrite andb_false_r.
  - destruct p; try done; try (by eapply rw_slow_live); by eapply rw_unlock_live.
Qed.

(** ** The theorems *)

Definition rw_fresh (pts : gmap Z rwcaller) : Prop :=
  (∀ t c, pts !! t = Some c → c = rw_idle) ∧ Z.of_nat (size pts) < RDWR_LOCK_WRITE - 1.

Lemma rw_fresh_inv pts : rw_fresh pts → rwinv (System rwlock_init pts) ∧ rw_live (System rwlock_init pts).
Proof.
  intros [Hp Hn]. split.
  - split; simpl; [|split; simpl; [done|by intros t ?%not_elem_of_nil|apply NoDup_nil_2]| |done].
    + intros t c ->%Hp. split; simpl; try done. split; [done|]. by intros ?%not_elem_of_nil.
    + right. split; [|symmetry]; apply tally_zero; by intros t c ->%Hp.
  - split; [by intros _ []|]. by intros t c ->%Hp.
Qed.

Lemma rw_execute sched pts r :
  rw_fresh pts → execute rw_act sched (System rwlock_init pts) = Some r →
  ∃ s, r = Done s ∧ rwinv s ∧ rw_live s.
Proof.
  intros Hp. eapply (execute_always rw_act (λ s, rwinv s ∧ rw_live s)); [|by apply rw_fresh_inv].
  intros [m qs] t e l [HI HL] Hl. pose proof (rw_act_inv m qs t e l HI Hl).
  pose proof (rw_act_live m qs t e l HI HL Hl). simpl in *. by destruct (rw_act e t l m).
Qed.

Lemma writer_alone s t u c d :
  rwinv s → points s !! t = Some c → points s !! u = Some d → writes t c = true →
  writes u d || reads u d = true → t = u.
Proof.
  intros HI Ht Hu Hc Hd. destruct (decide (t = u)) as [|Hne]; [done|exfalso].
  assert (points (System (shared s) (delete t (points s))) !! u = Some d) as Hu' by (simpl; by rewrite lookup_delete_ne).
  simpl in Hu'. pose proof (tally_delete writes _ _ _ Ht) as E. rewrite Hc in E.
  pose proof (tally_delete reads _ _ _ Ht) as E'. pose proof (tally_nonneg reads (delete t (points s))) as H0.
  pose proof (tally_nonneg writes (delete t (points s))) as H1.
  assert (0 < tally writes (delete t (points s)) ∨ 0 < tally reads (delete t (points s))) as Hpos.
  { apply orb_true_iff in Hd as [Hd|Hd]; [left|right]; apply tally_pos; eauto. }
  assert (0 <= (if reads t c then 1 else 0)) by (destruct (reads t c); lia).
  destruct (r_counted _ HI) as [?|?]; lia.
Qed.

(** C25: A writer is alone.  In every execution of fewer than 2^63 - 2 threads the assertion
    of [rw_lock_wake_up_thread] does not fail; while a thread is between locking for writing
    and unlocking, no other thread holds the lock in either way; and the lock word is the
    number of threads that hold the lock to read, or says that there is one writer. *)
Theorem rwlock_exclusion sched pts r :
  rw_fresh pts → execute rw_act sched (System rwlock_init pts) = Some r →
  ∃ s, r = Done s ∧ counted (lock (shared s)) (points s) ∧
    ∀ t u c d, points s !! t = Some c → points s !! u = Some d →
    rw_pt c = Writing → rw_pt d = Writing ∨ rw_pt d = Reading → t = u.
Proof.
  intros Hp He. destruct (rw_execute _ _ _ Hp He) as (s & -> & HI & _). exists s. split; [done|]. split; [apply HI|].
  intros t u c d Ht Hu Hc Hd. eapply writer_alone; [done|done|done|unfold writes; by rewrite Hc|].
  unfold writes, reads. by destruct Hd as [-> | ->].
Qed.

Lemma rw_stuck_at s t c :
  rwinv s → points s !! t = Some c → (∀ u sig, move rw_act u (RwGo sig) s = None) →
  rw_pt c = RwIdle ∨ rw_pt c = Reading ∨ rw_pt c = Writing ∨
  (rw_pt c = RwSleep ∧ rw_thread_status (shared s) t ≠ THREAD_RUNNABLE).
Proof.
  intros HI Ht Hstuck. assert (rw_llock (shared s) = None) as Hl.
  { destruct (rw_llock (shared s)) as [u|] eqn:E; [|done].
    destruct (v_spin _ _ (r_whole _ HI) u E) as [d Hd]. apply (g_spin _ _ _ (r_fits _ HI u d Hd)) in E.
    specialize (Hstuck u false). unfold move in Hstuck. rewrite Hd in Hstuck. destruct d as [p wr st sl r].
    unfold in_llock in E. unfold rw_act, rw_lock_tryread, rw_lock_trywrite, rw_slow_path, rw_unlock, rw_acquire in Hstuck.
    simpl in *. destruct p; try done; repeat case_match; done. }
  specialize (Hstuck t false). unfold move in Hstuck. rewrite Ht in Hstuck. destruct c as [p wr st sl r].
  unfold rw_act, rw_lock_tryread, rw_lock_trywrite, rw_slow_path, rw_unlock, rw_acquire in Hstuck.
  simpl in *. rewrite ?Hl in Hstuck. destruct p; auto; repeat case_match; try done.
  do 3 right. split; [done|]. by apply Z.eqb_neq.
Qed.

(** C34: No wake-up is lost, signals or not.  When no thread can go on, a thread that waits
    to write waits for threads that hold the lock, and one that waits to read waits for
    one that holds it to write. *)
Theorem rwlock_no_lost_wakeup sched pts r :
  rw_fresh pts → execute rw_act sched (System rwlock_init pts) = Some r →
  ∃ s, r = Done s ∧
    ((∀ u sig, move rw_act u (RwGo sig) s = None) →
     ∀ t c, points s !! t = Some c → rw_pt c ≠ RwIdle → rw_pt c ≠ Reading → rw_pt c ≠ Writing →
     ∃ u d, points s !! u = Some d ∧ (rw_pt d = Writing ∨ (rw_write c = true ∧ rw_pt d = Reading))).
Proof.
  intros Hp He. destruct (rw_execute _ _ _ Hp He) as (s & -> & HI & HH & HP). exists s. split; [done|].
  intros Hstuck t c Ht Hni Hnr Hnw. pose proof (λ t c H, rw_stuck_at s t c HI H Hstuck) as Hat.
  destruct (Hat t c Ht) as [?|[?|[?|[Hsl Hst]]]]; [done..|].
  assert (lock (shared s) ≠ 0) as Hl.
  { intros H0. destruct (HH H0) as (u & d & Hd & Hh).
    { intros E. assert (t ∈ waiting_list (shared s)) as Hin; [|by rewrite E in Hin; apply not_elem_of_nil in Hin].
      apply (g_list _ _ _ (r_fits _ HI t c Ht)). unfold in_waiting. by rewrite Hsl. }
    unfold rw_hope in Hh. destruct (Hat u d Hd) as [E|[E|[E|[E Hn]]]]; rewrite E in Hh; try done. by apply Z.eqb_eq in Hh. }
  assert (∀ u d, points s !! u = Some d → writes u d = true → rw_pt d = Writing) as Hwr.
  { intros u d Hd E. unfold writes in E. destruct (Hat u d Hd) as [Ep|[Ep|[?|[Ep _]]]]; try done; by rewrite Ep in E. }
  destruct (r_counted _ HI) as [(Hw1 & _ & Hlw)|[Hw0 Hlr]].
  - assert (0 < tally writes (points s)) as (u & d & Hd & E)%tally_pos by lia.
    exists u, d. split; [done|]. left. by eapply Hwr.
  - assert (0 < tally reads (points s)) as (u & d & Hd & E)%tally_pos
      by (pose proof (tally_nonneg reads (points s)); lia).
    exists u, d. split; [done|]. right. split.
    + destruct (rw_write c) eqn:Ew; [done|]. exfalso. destruct (HP t c Ht) as [Hlw|(v & e & Hv & Hpr)].
      * unfold waits_read. rewrite Ew, Hsl. by rewrite (proj2 (Z.eqb_neq _ _) Hst).
      * pose proof (tally_size reads (points s)). pose proof (r_few _ HI). lia.
      * unfold promises in Hpr. destruct (Hat v e Hv) as [Ep|[Ep|[Ep|[Ep _]]]]; by rewrite Ep in Hpr.
    + unfold reads in E. destruct (Hat u d Hd) as [Ep|[?|[Ep|[Ep _]]]]; try done; by rewrite Ep in E.
Qed.

(** ** Executions *)

Definition rw_three : gmap Z rwcaller := list_to_map [(8, rw_idle); (16, rw_idle); (24, rw_idle)].

Lemma rw_three_fresh : rw_fresh rw_three.
Proof.
  split; [|done]. intros t c Hc. apply elem_of_list_to_map_2 in Hc.
  repeat (apply list.elem_of_cons in Hc as [[= -> ->]|Hc]; [done|]). by apply not_elem_of_nil in Hc.
Qed.

(** One thread reads, another waits to write, a third reads as well. *)
Definition rw_contention : list (Z * rwevent) :=
  (8, CallRead false) :: replicate 2 (8, RwGo false) ++
  (16, CallWrite true) :: replicate 7 (16, RwGo false) ++
  (24, CallRead false) :: replicate 2 (24, RwGo false).

Definition rw_blocked_here (m : rwlock) (p : Z * rwcaller) : bool :=
  forallb (λ b, match rw_act (RwGo b) p.1 p.2 m with Blocked => true | _ => false end) [false; true].

Lemma rw_blocked_everywhere s :
  forallb (rw_blocked_here (shared s)) (map_to_list (points s)) = true →
  ∀ u sig, move rw_act u (RwGo sig) s = None.
Proof.
  intros H u sig. unfold move. destruct (points s !! u) as [c|] eqn:E; [|done].
  apply elem_of_map_to_list, list_elem_of_In in E. eapply forallb_forall in H; [|exact E].
  eapply forallb_forall in H; [|by instantiate (1 := sig); destruct sig; simpl; auto].
  cbn [fst snd] in H. by destruct (rw_act _ _ _ _).
Qed.

Lemma rwlock_exclusion_witness :
  ∃ s, execute rw_act rw_contention (System rwlock_init rw_three) = Some (Done s) ∧
    lock (shared s) = 2 ∧ tally reads (points s) = 2 ∧ ∀ t c, points s !! t = Some c → rw_pt c ≠ Writing.
Proof.
  destruct (execute rw_act rw_contention (System rwlock_init rw_three)) as [r|] eqn:E; [|by vm_compute in E].
  pose proof (rwlock_exclusion _ _ _ rw_three_fresh E) as (s & -> & Hcnt & H). exists s. split; [done|].
  assert (lock (shared s) = 2) as Hl by (vm_compute in E; by injection E as <-). split; [done|]. split.
  - destruct Hcnt as [(_ & _ & Hw)|[_ <-]]; [by rewrite Hl in Hw|done].
  - intros t c Ht Hc. assert (∀ u, u = 8 ∨ u = 24 → t = u) as Hu; [|pose proof (Hu 8); pose proof (Hu 24); lia].
    intros u Hu. eapply (H t u c (RwCaller Reading false THREAD_UNINTERRUPTIBLE false 0)); [done| |done|by right].
    vm_compute in E. injection E as <-. destruct Hu as [-> | ->]; reflexivity.
Defined.

Lemma rwlock_no_lost_wakeup_witness :
  ∃ s, execute rw_act rw_contention (System rwlock_init rw_three) = Some (Done s) ∧
    rw_pt <$> points s !! 16 = Some RwSleep ∧
    ∃ u d, points s !! u = Some d ∧ (rw_pt d = Writing ∨ (true = true ∧ rw_pt d = Reading)).
Proof.
  destruct (execute rw_act rw_contention (System rwlock_init rw_three)) as [r|] eqn:E; [|by vm_compute in E].
  pose proof (rwlock_no_lost_wakeup _ _ _ rw_three_fresh E) as (s & -> & Hs).
  exists s. split; [done|]. vm_compute in E. injection E as <-. split; [reflexivity|].
  eapply (Hs ltac:(apply rw_blocked_everywhere; vm_compute; reflexivity) 16
    (RwCaller RwSleep true THREAD_INTERRUPTIBLE true 0)); [reflexivity|done|done|done].
Defined.
