(* ===== verification/Semaphore.v ===== *)
(** * Semaphore: counting semaphores and the queue of their waiters

    [sem_wait] and [sem_signal] of [kernel/sched/scheduler.cpp] with the thread queue of
    [kernel/sched/primitive_generic.h] and the blocking of a thread on itself
    ([sched_block_self]).  Threads are the addresses of their control blocks; a thread is
    at one of the accesses to shared memory of the calls, as in [Mutex].  The waiter holds
    its scheduler lock from before it is queued until it is marked as sleeping, and
    [thread_wake_up] needs that lock. *)

From S2P Require Import Prelude Abi Bits Interleave Mutex.

(** ** The queue of threads: [enqueue_thread_generic] and [dequeue_thread_generic] *)

Record tqueue : Type := Tqueue {
  q_head : option Z;
  q_tail : option Z;
  sem_next : gmap Z Z;
  sem_prev : gmap Z Z
}.

Definition enqueue_thread (thread : Z) (q : tqueue) : outcome tqueue :=
  match q_head q with
  | None =>
      Done (Tqueue (Some thread) (Some thread) (delete thread (sem_next q)) (delete thread (sem_prev q)))
  | Some h =>
      match q_tail q with
      | None => Fault NullDeref
      | Some t =>
          Done (Tqueue (Some h) (Some thread) (delete thread (<[t := thread]> (sem_next q)))
            (<[thread := t]> (sem_prev q)))
      end
  end.

(** A link that is set to a pointer, which may be null. *)
Definition set_link (a : Z) (x : option Z) (m : gmap Z Z) : gmap Z Z := partial_alter (λ _, x) a m.

Definition dequeue_thread (thread : Z) (q : tqueue) : tqueue :=
  let next := sem_next q !! thread in
  let prev := sem_prev q !! thread in
  let q1 :=
    if bool_decide (q_head q = Some thread) then
      Tqueue next (q_tail q) (sem_next q)
        (match next with Some n => delete n (sem_prev q) | None => sem_prev q end)
    else
      Tqueue (q_head q)
        (match next with Some _ => q_tail q | None => prev end)
        (match prev with Some p => set_link p next (sem_next q) | None => sem_next q end)
        (match next with Some n => set_link n prev (sem_prev q) | None => sem_prev q end) in
  Tqueue (q_head q1)
    (if bool_decide (q_tail q1 = Some thread) then sem_prev q1 !! thread else q_tail q1)
    (delete thread (sem_next q1)) (delete thread (sem_prev q1)).

(** ** The semaphore and its threads

    [given] and [taken] count the signals and the waits that are through. *)

Record semaphore : Type := Semaphore {
  sem_queue : tqueue;
  sem_lock : option Z;
  sem_counter : Z;
  sem_status : gmap Z Z;
  sched_locked : gset Z;
  given : Z;
  taken : Z
}.

Definition sem_thread_status (m : semaphore) (t : Z) : Z := default THREAD_RUNNABLE (sem_status m !! t).

Definition set_queue (q : tqueue) (m : semaphore) : semaphore :=
  Semaphore q (sem_lock m) (sem_counter m) (sem_status m) (sched_locked m) (given m) (taken m).
Definition set_sem_lock (l : option Z) (m : semaphore) : semaphore :=
  Semaphore (sem_queue m) l (sem_counter m) (sem_status m) (sched_locked m) (given m) (taken m).
Definition set_sem_state (t x : Z) (m : semaphore) : semaphore :=
  Semaphore (sem_queue m) (sem_lock m) (sem_counter m) (<[t := x]> (sem_status m)) (sched_locked m) (given m) (taken m).
Definition set_sched_locked (x : gset Z) (m : semaphore) : semaphore :=
  Semaphore (sem_queue m) (sem_lock m) (sem_counter m) (sem_status m) x (given m) (taken m).
Definition count_up (m : semaphore) : semaphore :=
  Semaphore (sem_queue m) (sem_lock m) (i64 (sem_counter m + 1)) (sem_status m) (sched_locked m) (given m + 1) (taken m).
Definition count_down (m : semaphore) : semaphore :=
  Semaphore (sem_queue m) (sem_lock m) (i64 (sem_counter m - 1)) (sem_status m) (sched_locked m) (given m) (taken m + 1).

(** [sem_init] ignores the count it is given. *)
Definition sem_init (counter : Z) : semaphore :=
  Semaphore (Tqueue None None ∅ ∅) None 0 ∅ ∅ 0 0.

Inductive sempoint : Type :=
  | SemIdle
  | WaitLock | WaitCheck | WaitTake | WaitUnlock (* sem_wait *)
  | PathCheck | PathSched | PathEnqueue | PathUnlock (* sem_do_slow_path *)
  | BlockState | BlockUnlock | BlockYield (* sched_block_self *)
  | PathLock
  | SignalAdd | SignalLock | SignalHead | SignalWake (target : Z) | SignalUnlock. (* sem_signal *)

Inductive semevent : Type :=
  | CallWait
  | CallSignal
  | SemGo.

Definition sem_acquire (t : Z) (p : sempoint) (m : semaphore) : turn sempoint semaphore :=
  match sem_lock m with
  | None => Next p (set_sem_lock (Some t) m)
  | Some _ => Blocked
  end.

Definition sem_wait (t : Z) (p : sempoint) (m : semaphore) : turn sempoint semaphore :=
  match p with
  | WaitLock => sem_acquire t WaitCheck m
  | WaitCheck => Next (if 0 <? sem_counter m then WaitTake else PathCheck) m
  | WaitTake => Next WaitUnlock (count_down m)
  | WaitUnlock => Next SemIdle (set_sem_lock None m)
  | _ => Blocked
  end.

Definition sem_do_slow_path (t : Z) (p : sempoint) (m : semaphore) : turn sempoint semaphore :=
  match p with
  | PathCheck => Next (if sem_counter m =? 0 then PathSched else WaitCheck) m
  | PathSched =>
      if bool_decide (t ∈ sched_locked m) then Blocked
      else Next PathEnqueue (set_sched_locked ({[t]} ∪ sched_locked m) m)
  | PathEnqueue =>
      match enqueue_thread t (sem_queue m) with
      | Done q => Next PathUnlock (set_queue q m)
      | Fault why => Crash why
      end
  | PathUnlock => Next BlockState (set_sem_lock None m)
  | BlockState => Next BlockUnlock (set_sem_state t THREAD_UNINTERRUPTIBLE m)
  | BlockUnlock => Next BlockYield (set_sched_locked (sched_locked m ∖ {[t]}) m)
  | BlockYield => if sem_thread_status m t =? THREAD_RUNNABLE then Next PathLock m else Blocked
  | PathLock => sem_acquire t PathCheck m
  | _ => Blocked
  end.

Definition sem_signal (t : Z) (p : sempoint) (m : semaphore) : turn sempoint semaphore :=
  match p with
  | SignalAdd => Next SignalLock (count_up m)
  | SignalLock => sem_acquire t SignalHead m
  | SignalHead =>
      match q_head (sem_queue m) with
      | Some target => Next (SignalWake target) (set_queue (dequeue_thread target (sem_queue m)) m)
      | None => Next SignalUnlock m
      end
  | SignalWake target =>
      if bool_decide (target ∈ sched_locked m) then Blocked
      else Next SignalUnlock (set_sem_state target THREAD_RUNNABLE m)
  | SignalUnlock => Next SemIdle (set_sem_lock None m)
  | _ => Blocked
  end.

Definition sem_act (e : semevent) (t : Z) (p : sempoint) (m : semaphore) : turn sempoint semaphore :=
  match e with
  | CallWait => match p with SemIdle => Next WaitLock m | _ => Blocked end
  | CallSignal => match p with SemIdle => Next SignalAdd m | _ => Blocked end
  | SemGo =>
      match p with
      | SemIdle => Blocked
      | WaitLock | WaitCheck | WaitTake | WaitUnlock => sem_wait t p m
      | SignalAdd | SignalLock | SignalHead | SignalWake _ | SignalUnlock => sem_signal t p m
      | _ => sem_do_slow_path t p m
      end
  end.
