(* ===== verification/SemaphoreProps.v ===== *)
(** * SemaphoreProps: signals and waits balance, and nobody is forgotten *)

From S2P Require Import Prelude Abi Bits Interleave DList Mutex Semaphore.

(** ** The queue *)

Record holds_queue (q : tqueue) (l : list Z) : Prop := {
  hq_head : q_head q = head l;
  hq_tail : q_tail q = list.last l;
  hq_chain : chain (sem_next q) (sem_prev q) l
}.

Lemma sem_enqueue_ok q l t :
  holds_queue q l → t ∉ l → ∃ q', enqueue_thread t q = Done q' ∧ holds_queue q' (l ++ [t]).
Proof.
  intros [Hh Ht [Hn Hf Hb]] Hv. unfold enqueue_thread. rewrite Hh, Ht.
  destruct (exists_last_or l) as [->|(k & x & ->)]; simpl.
  { eexists. split; [done|]. split; simpl; [done|done|].
    split; [apply NoDup_singleton|apply forward_one, lookup_delete_eq|apply backward_one, lookup_delete_eq]. }
  rewrite last_snoc. assert (∃ y, head (k ++ [x]) = Some y) as [y Ey] by (destruct k; eauto). rewrite Ey.
  assert (t ≠ x) by (intros ->; apply Hv, list.elem_of_app; right; by left).
  eexists. split; [done|]. split; simpl; [by destruct k|by rewrite last_snoc|]. split.
  - apply list.NoDup_app. split_and!; [done| |apply NoDup_singleton]. by intros u Hu ->%list_elem_of_singleton.
  - eapply forward_snoc; [done|done|exact Hf|apply lookup_delete_eq|by rewrite lookup_delete_ne, lookup_insert_eq|].
    intros u Hu. apply list.NoDup_app in Hn as (_ & Hd & _).
    rewrite lookup_delete_ne, lookup_insert_ne; [done| |]; intros ->.
    + by apply (Hd u Hu), list_elem_of_singleton.
    + by apply Hv, list.elem_of_app; left.
  - eapply backward_snoc; [done|exact Hb|apply lookup_insert_eq|]. intros u Hu. apply lookup_insert_ne. by intros ->.
Qed.

Lemma lookup_set_link a x m u : set_link a x m !! u = if decide (u = a) then x else m !! u.
Proof.
  unfold set_link. case_decide as E; [subst; apply lookup_partial_alter_eq|by apply lookup_partial_alter_ne].
Qed.

Lemma dequeue_ok q L1 t L2 : holds_queue q (L1 ++ t :: L2) → holds_queue (dequeue_thread t q) (L1 ++ L2).
Proof.
  intros [Hh Ht [Hn Hf Hb]]. unfold dequeue_thread.
  rewrite (Hf L1 t L2 eq_refl), (Hb L1 t L2 eq_refl).
  assert ((t ∉ L1) ∧ (t ∉ L2)) as [Ht1 Ht2].
  { apply list.NoDup_app in Hn as (_ & Hd & [Hn _]%list.NoDup_cons). split; [|done].
    intros H1. apply (Hd t H1). by left. }
  assert (∀ u, u ∈ L1 ++ L2 → u ≠ t) as Hne.
  { intros u [?|?]%list.elem_of_app ->; done. }
  destruct L1 as [|x L1].
  - simpl in Hh. rewrite bool_decide_true by done. simpl. split; simpl; [done| |].
    + destruct L2 as [|y L2]; simpl in *; rewrite Ht.
      * rewrite bool_decide_true by done. by rewrite (Hb [] t [] eq_refl).
      * rewrite bool_decide_false; [done|]. change (list.last (y :: L2) ≠ Some t). by intros ?%last_Some_elem_of.
    + split; [by apply list.NoDup_cons in Hn as []| |].
      * eapply (forward_remove _ _ [] t L2); [done|exact Hf|]. intros u Hu.
        rewrite decide_False by done. by rewrite lookup_delete_ne by by intros ->; apply (Hne _ Hu).
      * eapply (backward_remove _ _ [] t L2); [done|exact Hb|]. intros u Hu.
        rewrite lookup_delete_ne by by intros ->; apply (Hne _ Hu).
        destruct L2 as [|y L2]; simpl; [done|]. case_decide as E; [|by rewrite lookup_delete_ne; [|congruence]].
        injection E as ->. by rewrite lookup_delete_eq.
  - simpl in Hh. assert (x ≠ t) by (intros ->; apply Ht1; by left).
    rewrite bool_decide_false by (rewrite Hh; congruence).
    destruct (list.last (x :: L1)) as [p|] eqn:Ep; [|by apply last_None in Ep].
    split; simpl; [done| |split].
    + destruct L2 as [|y L2]; simpl.
      * rewrite bool_decide_false; [by rewrite app_nil_r|]. intros [= ->]. by apply last_Some_elem_of in Ep.
      * rewrite Ht. rewrite app_comm_cons, last_app_cons. change (list.last (t :: y :: L2)) with (list.last (y :: L2)).
        rewrite bool_decide_false; [by rewrite last_app_cons|]. by intros ?%last_Some_elem_of.
    + by apply (nodup_remove (x :: L1) L2 t).
    + eapply (forward_remove _ _ (x :: L1) t L2); [done|exact Hf|]. intros u Hu.
      rewrite lookup_delete_ne by by intros ->; apply (Hne _ Hu). rewrite lookup_set_link, Ep.
      by do 2 case_decide; simplify_eq.
    + eapply (backward_remove _ _ (x :: L1) t L2); [done|exact Hb|]. intros u Hu.
      rewrite lookup_delete_ne by by intros ->; apply (Hne _ Hu). rewrite Ep.
      destruct L2 as [|y L2]; simpl; [done|]. rewrite lookup_set_link. by do 2 case_decide; simplify_eq.
Qed.

(** ** What the point of a thread says about the semaphore *)

Definition in_sem (p : sempoint) : bool :=
  match p with
  | WaitCheck | WaitTake | WaitUnlock | PathCheck | PathSched | PathEnqueue | PathUnlock
  | SignalHead | SignalWake _ | SignalUnlock => true
  | _ => false
  end.

Definition in_sched (p : sempoint) : bool :=
  match p with PathEnqueue | PathUnlock | BlockState | BlockUnlock => true | _ => false end.

(** The thread sleeps, or is committed to. *)
Definition asleep (m : semaphore) (t : Z) (p : sempoint) : bool :=
  match p with
  | PathUnlock | BlockState | BlockUnlock => true
  | BlockYield => negb (sem_thread_status m t =? THREAD_RUNNABLE)
  | _ => false
  end.

(** [l] are the threads in the queue, [w] the one that is about to be woken. *)
Record semfits (m : semaphore) (l : list Z) (w : option Z) (t : Z) (p : sempoint) : Prop := {
  h_lock : in_sem p = true ↔ sem_lock m = Some t;
  h_sched : in_sched p = true ↔ t ∈ sched_locked m;
  h_asleep : asleep m t p = true ↔ t ∈ l ∨ w = Some t;
  h_state : p = BlockUnlock → sem_thread_status m t = THREAD_UNINTERRUPTIBLE;
  h_take : p = WaitTake → 0 < sem_counter m;
  h_wake : ∀ v, p = SignalWake v → w = Some v
}.

(** The thread will look at the counter, or wake one that will. *)
Definition chance (m : semaphore) (t : Z) (p : sempoint) : bool :=
  match p with
  | SignalLock | SignalHead | SignalWake _ | PathLock | PathCheck | WaitCheck | WaitTake => true
  | BlockYield => sem_thread_status m t =? THREAD_RUNNABLE
  | _ => false
  end.

(** The thread has found the counter at zero. *)
Definition resigned (t : Z) (p : sempoint) : bool :=
  match p with PathSched | PathEnqueue => true | _ => false end.

Definition balanced (m : semaphore) (l : list Z) (pts : gmap Z sempoint) : Prop :=
  l ≠ [] ∨ 0 < tally resigned pts → sem_counter m <= tally (chance m) pts.

(** [n] more turns cannot overflow the counter. *)
Record semwhole (n : Z) (m : semaphore) (l : list Z) (w : option Z) (pts : gmap Z sempoint) : Prop := {
  z_queue : holds_queue (sem_queue m) l;
  z_list : ∀ t, t ∈ l → is_Some (pts !! t);
  z_lock : ∀ t, sem_lock m = Some t → is_Some (pts !! t);
  z_target : ∀ v, w = Some v → (v ∉ l) ∧ is_Some (pts !! v) ∧ ∃ u, pts !! u = Some (SignalWake v);
  z_count : sem_counter m = given m - taken m ∧ 0 <= sem_counter m ∧ sem_counter m + n < 2 ^ 63;
  z_balanced : balanced m l pts
}.

Definition seminv (n : Z) (s : system sempoint semaphore) : Prop :=
  ∃ l w, (∀ t p, points s !! t = Some p → semfits (shared s) l w t p) ∧
    semwhole n (shared s) l w (points s).

(** Who else can be inside the semaphore. *)
Lemma alone n m l w pts t u p q :
  (∀ t p, pts !! t = Some p → semfits m l w t p) → semwhole n m l w pts →
  pts !! t = Some p → pts !! u = Some q → in_sem p = true → in_sem q = true → u = t.
Proof.
  intros Hf _ Ht Hu Hp%(h_lock _ _ _ _ _ (Hf t p Ht)) Hq%(h_lock _ _ _ _ _ (Hf u q Hu)). congruence.
Qed.

(** What a thread needs to know of the changes made by another. *)
Lemma semfits_other m m' l w l' w' u q :
  semfits m l w u q →
  (sem_lock m = Some u ↔ sem_lock m' = Some u) → (u ∈ sched_locked m ↔ u ∈ sched_locked m') →
  sem_thread_status m' u = sem_thread_status m u → (u ∈ l ∨ w = Some u ↔ u ∈ l' ∨ w' = Some u) →
  (q = WaitTake → sem_counter m <= sem_counter m') → (∀ v, q = SignalWake v → w' = w) →
  semfits m' l' w' u q.
Proof.
  intros [] H1 H2 H3 H4 H5 H6. split.
  - by rewrite <-H1.
  - by rewrite <-H2.
  - rewrite <-H4, <-h_asleep0. unfold asleep. by rewrite H3.
  - rewrite H3. done.
  - intros E. specialize (h_take0 E). specialize (H5 E). lia.
  - intros v E. rewrite (H6 v E). auto.
Qed.

Lemma sem_move n m l w pts t p m' l' w' p' :
  (∀ u q, pts !! u = Some q → semfits m l w u q) → semwhole n m l w pts → pts !! t = Some p →
  semfits m' l' w' t p' →
  (∀ u q, u ≠ t → pts !! u = Some q → semfits m l w u q → semfits m' l' w' u q) →
  holds_queue (sem_queue m') l' → (∀ u, u ∈ l' → u ∈ l ∨ u = t) →
  (sem_lock m' = sem_lock m ∨ sem_lock m' = None ∨ sem_lock m' = Some t) →
  (w' = w ∧ l' = l ∧ (∀ v, p ≠ SignalWake v) ∨
    ∀ v, w' = Some v → (v ∉ l') ∧ is_Some (pts !! v) ∧ p' = SignalWake v) →
  (sem_counter m' = given m' - taken m' ∧ 0 <= sem_counter m' ∧ sem_counter m' + (n - 1) < 2 ^ 63) →
  balanced m' l' (<[t := p']> pts) →
  seminv (n - 1) (System m' (<[t := p']> pts)).
Proof.
  intros Hf Hw Ht Hown Ho Hq Hl Hlk Htg Hc Hb. exists l', w'.
  assert (∀ u, is_Some (pts !! u) → is_Some (<[t := p']> pts !! u)) as Hs.
  { intros u Hu. destruct (decide (u = t)) as [->|]; [rewrite lookup_insert_eq; eauto|by rewrite lookup_insert_ne]. }
  split; simpl.
  - intros u q. destruct (decide (u = t)) as [->|Hne].
    + rewrite lookup_insert_eq. by intros [= <-].
    + rewrite lookup_insert_ne by done. intros Hu. eapply Ho; eauto.
  - destruct Hw. split; try done.
    + intros u [?| ->]%Hl; apply Hs; eauto.
    + intros u E. apply Hs. destruct Hlk as [Hlk|[Hlk|Hlk]]; rewrite Hlk in E; simplify_eq; eauto.
    + intros v E. destruct Htg as [(-> & -> & Hp)|Htg].
      * destruct (z_target0 v E) as (? & ? & u & Hu). split_and!; auto. exists u.
        rewrite lookup_insert_ne; [done|]. intros <-. rewrite Ht in Hu. injection Hu as ->. by eapply Hp.
      * destruct (Htg v E) as (? & ? & ->). split_and!; auto. exists t. apply lookup_insert_eq.
Qed.

Definition one (b : bool) : Z := if b then 1 else 0.

Lemma chance_move m m' pts t p p' :
  pts !! t = Some p → (∀ u, u ≠ t → sem_thread_status m' u = sem_thread_status m u) →
  tally (chance m') (<[t := p']> pts) = tally (chance m) pts - one (chance m t p) + one (chance m' t p').
Proof.
  intros Ht Hs. rewrite (tally_insert _ _ _ _ _ Ht). unfold one.
  rewrite (tally_change (chance m) (chance m') pts t p Ht); [lia|].
  intros u q Hu. unfold chance. by rewrite Hs.
Qed.

(** The balance after a turn that wakes nobody. *)
Lemma balanced_move m l pts t p m' l' p' :
  balanced m l pts → pts !! t = Some p → (∀ u, u ≠ t → sem_thread_status m' u = sem_thread_status m u) →
  (l' = [] ∨ l' = l ∨ resigned t p = true) → (resigned t p = true ∨ resigned t p' = false) →
  sem_counter m' + one (chance m t p) <= sem_counter m + one (chance m' t p') →
  balanced m' l' (<[t := p']> pts).
Proof.
  intros Hb Ht Hs Hl Hr Hc Hpr. rewrite (chance_move m m' pts t p) by done.
  assert (sem_counter m <= tally (chance m) pts); [|lia].
  apply Hb. rewrite (tally_insert _ _ _ _ _ Ht) in Hpr.
  destruct (resigned t p) eqn:E.
  - right. apply tally_pos. eauto.
  - destruct Hr as [?|Hr]; [done|]. rewrite Hr in Hpr.
    destruct Hl as [->|[->|?]]; [destruct Hpr; [done|right; lia]|destruct Hpr; [by left|right; lia]|done].
Qed.

(** A turn that leaves the queue, the counter and the states of the threads alone. *)
Lemma sem_move_quiet n m l w pts t p m' p' :
  (∀ u q, pts !! u = Some q → semfits m l w u q) → semwhole n m l w pts → pts !! t = Some p →
  sem_queue m' = sem_queue m → sem_counter m' = sem_counter m → given m' = given m → taken m' = taken m →
  (∀ u, sem_thread_status m' u = sem_thread_status m u) →
  (∀ u, u ≠ t → u ∈ sched_locked m ↔ u ∈ sched_locked m') →
  (sem_lock m' = sem_lock m ∨ sem_lock m' = None ∧ sem_lock m = Some t ∨ sem_lock m' = Some t ∧ sem_lock m = None) →
  (∀ v, p ≠ SignalWake v) → (∀ v, p' ≠ SignalWake v) →
  (in_sem p' = true ↔ sem_lock m' = Some t) → (in_sched p' = true ↔ t ∈ sched_locked m') →
  asleep m t p' = asleep m t p → p' ≠ BlockUnlock → (p' = WaitTake → 0 < sem_counter m) →
  balanced m' l (<[t := p']> pts) →
  seminv (n - 1) (System m' (<[t := p']> pts)).
Proof.
  intros Hf Hw Ht Eq Ec Eg Et Es Esc Elk Hp Hp' Hl Hsc Has Hbl Htk Hb. pose proof (Hf t p Ht) as Hft.
  eapply (sem_move n m l w pts t p m' l w); try done.
  - destruct Hft. split; try done.
    + rewrite <-h_asleep0, <-Has. unfold asleep. by rewrite Es.
    + by rewrite Ec.
    + intros v E. by apply Hp' in E.
  - intros u q Hne Hu Hfu. eapply semfits_other; [done| |by auto|done|done|rewrite Ec; lia|done].
    destruct Elk as [->|[[-> ->]|[-> ->]]]; [done|split; congruence..].
  - rewrite Eq. apply Hw.
  - auto.
  - destruct Elk as [?|[[? _]|[? _]]]; auto.
  - left. auto.
  - rewrite Ec, Eg, Et. destruct (z_count _ _ _ _ _ Hw). split; [done|]. lia.
Qed.

(** The lock of the semaphore. *)
Lemma sem_move_acquire n m l w pts t p p' :
  (∀ u q, pts !! u = Some q → semfits m l w u q) → semwhole n m l w pts → pts !! t = Some p →
  (∀ v, p ≠ SignalWake v) → (∀ v, p' ≠ SignalWake v) → in_sem p' = true → in_sched p = in_sched p' →
  asleep m t p' = asleep m t p → p' ≠ BlockUnlock → p' ≠ WaitTake → resigned t p' = false →
  (chance m t p = true → chance m t p' = true) →
  match sem_acquire t p' m with
  | Blocked => True
  | Next q m' => seminv (n - 1) (System m' (<[t := q]> pts))
  | Crash _ => False
  end.
Proof.
  intros Hf Hw Ht Hp Hp' Hin Hsc Has Hbl Htk Hr Hch. unfold sem_acquire. destruct (sem_lock m) eqn:E; [done|].
  eapply sem_move_quiet; try done; simpl.
  - right. right. done.
  - rewrite <-Hsc. apply (Hf t p Ht).
  - eapply (balanced_move m l); [apply Hw|done|done|auto|auto|]. simpl.
    change (chance _ t p') with (chance m t p'). unfold one.
    destruct (chance m t p); [rewrite Hch by done; lia|destruct (chance m t p'); lia].
Qed.

Lemma sem_move_release n m l w pts t p p' :
  (∀ u q, pts !! u = Some q → semfits m l w u q) → semwhole n m l w pts → pts !! t = Some p →
  (∀ v, p ≠ SignalWake v) → (∀ v, p' ≠ SignalWake v) → in_sem p = true → in_sem p' = false →
  in_sched p = in_sched p' → asleep m t p' = asleep m t p → p' ≠ BlockUnlock → resigned t p' = false →
  (chance m t p = true → chance m t p' = true) →
  seminv (n - 1) (System (set_sem_lock None m) (<[t := p']> pts)).
Proof.
  intros Hf Hw Ht Hp Hp' Hin Hout Hsc Has Hbl Hr Hch. apply (h_lock _ _ _ _ _ (Hf t p Ht)) in Hin.
  eapply sem_move_quiet; try done; simpl.
  - right. left. done.
  - rewrite Hout. by split.
  - rewrite <-Hsc. apply (Hf t p Ht).
  - intros ->. done.
  - eapply (balanced_move m l); [apply Hw|done|done|auto|auto|]. simpl.
    change (chance _ t p') with (chance m t p'). unfold one.
    destruct (chance m t p); [rewrite Hch by done; lia|destruct (chance m t p'); lia].
Qed.

(** A turn on which only the point of the thread changes. *)
Lemma sem_move_self n m l w pts t p p' :
  (∀ u q, pts !! u = Some q → semfits m l w u q) → semwhole n m l w pts → pts !! t = Some p →
  (∀ v, p ≠ SignalWake v) → (∀ v, p' ≠ SignalWake v) → in_sem p = in_sem p' → in_sched p = in_sched p' →
  asleep m t p' = asleep m t p → p' ≠ BlockUnlock → (p' = WaitTake → 0 < sem_counter m) →
  balanced m l (<[t := p']> pts) →
  seminv (n - 1) (System m (<[t := p']> pts)).
Proof.
  intros Hf Hw Ht Hp Hp' Hin Hsc Has Hbl Htk Hb.
  eapply sem_move_quiet; try done; simpl; [by left|rewrite <-Hin; apply (Hf t p Ht)|rewrite <-Hsc; apply (Hf t p Ht)].
Qed.

Lemma count_ok n m l w pts : semwhole n m l w pts → 0 <= sem_counter m ∧ sem_counter m + n < 2 ^ 63.
Proof. intros []. lia. Qed.

Lemma sem_wait_inv n m pts t p :
  0 < n → seminv n (System m pts) → pts !! t = Some p →
  match sem_wait t p m with
  | Blocked => True
  | Next q m' => seminv (n - 1) (System m' (<[t := q]> pts))
  | Crash _ => False
  end.
Proof.
  intros Hn (l & w & Hf & Hw) Ht. simpl in *. destruct (count_ok _ _ _ _ _ Hw) as [H0 H1].
  destruct p; try done; simpl.
  - by eapply sem_move_acquire.
  - destruct (0 <? sem_counter m) eqn:E; (eapply sem_move_self; try done); [lia|..];
      (eapply (balanced_move m l); [apply Hw|done|done|auto|auto|simpl; lia]).
  - pose proof (h_take _ _ _ _ _ (Hf t _ Ht) eq_refl) as Hpos. pose proof (Hf t _ Ht) as Hft.
    eapply (sem_move n m l w pts t WaitTake (count_down m) l w); try done.
    + destruct Hft. by split.
    + intros u q Hne Hu Hfu. eapply semfits_other; try done. simpl. intros ->.
      exfalso. apply Hne. by eapply alone.
    + apply Hw.
    + auto.
    + by left.
    + by left.
    + simpl. destruct (z_count _ _ _ _ _ Hw). rewrite i64_small; lia.
    + eapply (balanced_move m l); [apply Hw|done|done|auto|auto|]. simpl. rewrite i64_small; lia.
  - by eapply sem_move_release.
Qed.

Lemma sem_path_inv n m pts t p :
  0 < n → seminv n (System m pts) → pts !! t = Some p →
  match sem_do_slow_path t p m with
  | Blocked => True
  | Next q m' => seminv (n - 1) (System m' (<[t := q]> pts))
  | Crash _ => False
  end.
Proof.
  intros Hn (l & w & Hf & Hw) Ht. simpl in *. destruct (count_ok _ _ _ _ _ Hw) as [H0 H1].
  pose proof (Hf t _ Ht) as Hft. destruct p; try done; simpl.
  - destruct (sem_counter m =? 0) eqn:E; (eapply sem_move_self; try done).
    + intros _. apply Z.eqb_eq in E. rewrite E. apply tally_nonneg.
    + eapply (balanced_move m l); [apply Hw|done|done|auto|auto|simpl; lia].
  - destruct (bool_decide _); [done|]. eapply sem_move_quiet; try done; simpl.
    + intros u Hu. set_solver.
    + by left.
    + apply Hft.
    + split; [set_solver|done].
    + eapply (balanced_move m l); [apply Hw|done|done|auto|auto|simpl; lia].
  - assert (t ∉ l) as Htl. { intros Hin. assert (asleep m t PathEnqueue = true) by (apply (h_asleep _ _ _ _ _ Hft); by left). done. }
    destruct (sem_enqueue_ok _ _ t (z_queue _ _ _ _ _ Hw) Htl) as (q & -> & Hq).
    eapply (sem_move n m l w pts t PathEnqueue (set_queue q m) (l ++ [t]) w); try done.
    + destruct Hft. split; try done. simpl. split; [|done]. intros _. left. apply list.elem_of_app. right. by left.
    + intros u k Hne Hu Hfu. eapply semfits_other; try done. rewrite list.elem_of_app, list_elem_of_singleton. tauto.
    + intros u [?| ->%list_elem_of_singleton]%list.elem_of_app; auto.
    + by left.
    + right. intros v ->. exfalso. destruct (z_target _ _ _ _ _ Hw v eq_refl) as (_ & _ & u & Hu).
      assert (u = t) as -> by by eapply (alone n m l (Some v)). congruence.
    + destruct (z_count _ _ _ _ _ Hw). simpl. lia.
    + eapply (balanced_move m l); [apply Hw|done|done|auto|auto|simpl; lia].
  - by eapply sem_move_release.
  - eapply (sem_move n m l w pts t BlockState _ l w); try done.
    + destruct Hft. split; try done. intros _. unfold sem_thread_status. simpl. by rewrite lookup_insert_eq.
    + intros u k Hne Hu Hfu. eapply semfits_other; try done. unfold sem_thread_status. simpl. by rewrite lookup_insert_ne.
    + apply Hw.
    + auto.
    + by left.
    + by left.
    + destruct (z_count _ _ _ _ _ Hw). simpl. lia.
    + eapply (balanced_move m l); [apply Hw|done| |auto|auto|simpl; lia].
      intros u Hu. unfold sem_thread_status. simpl. by rewrite lookup_insert_ne.
  - eapply sem_move_quiet; try done; simpl.
    + intros u Hu. set_solver.
    + by left.
    + apply Hft.
    + split; [done|set_solver].
    + by rewrite (h_state _ _ _ _ _ Hft eq_refl).
    + eapply (balanced_move m l); [apply Hw|done|done|auto|auto|simpl].
      unfold one. destruct (_ =? _); lia.
  - destruct (_ =? _) eqn:E; [|done]. eapply sem_move_self; try done; simpl.
    + by rewrite E.
    + eapply (balanced_move m l); [apply Hw|done|done|auto|auto|simpl]. rewrite E. simpl. lia.
  - by eapply sem_move_acquire.
Qed.

Lemma sem_signal_inv n m pts t p :
  0 < n → seminv n (System m pts) → pts !! t = Some p →
  match sem_signal t p m with
  | Blocked => True
  | Next q m' => seminv (n - 1) (System m' (<[t := q]> pts))
  | Crash _ => False
  end.
Proof.
  intros Hn (l & w & Hf & Hw) Ht. simpl in *. destruct (count_ok _ _ _ _ _ Hw) as [H0 H1].
  pose proof (Hf t _ Ht) as Hft. destruct p as [| | | | | | | | | | | | | | | |v|]; try done; simpl.
  - eapply (sem_move n m l w pts t SignalAdd (count_up m) l w); try done.
    + destruct Hft. by split.
    + intros u k Hne Hu Hfu. eapply semfits_other; try done. simpl. rewrite i64_small; lia.
    + apply Hw.
    + auto.
    + by left.
    + by left.
    + destruct (z_count _ _ _ _ _ Hw). simpl. rewrite i64_small; lia.
    + eapply (balanced_move m l); [apply Hw|done|done|auto|auto|simpl]. rewrite i64_small; lia.
  - by eapply sem_move_acquire.
  - pose proof (z_queue _ _ _ _ _ Hw) as Hq. rewrite (hq_head _ _ Hq). destruct l as [|v l]; simpl.
    + eapply sem_move_self; try done. intros [?|Hpos]; [done|exfalso].
      apply tally_pos in Hpos as (u & k & Hu & Hk).
      destruct (decide (u = t)) as [->|Hne].
      * rewrite lookup_insert_eq in Hu. by injection Hu as <-.
      * rewrite lookup_insert_ne in Hu by done. apply Hne. eapply alone; [exact Hf|exact Hw|exact Ht|exact Hu|done|].
        by destruct k.
    + assert (w = None) as ->.
      { destruct w as [x|]; [|done]. destruct (z_target _ _ _ _ _ Hw x eq_refl) as (_ & _ & u & Hu).
        assert (u = t) as -> by by eapply (alone n m (v :: l) (Some x)). congruence. }
      pose proof (chain_nodup _ _ _ (hq_chain _ _ Hq)) as [Hv _]%list.NoDup_cons.
      assert (v ≠ t) as Hvt.
      { intros ->. assert (asleep m t SignalHead = true) by (apply (h_asleep _ _ _ _ _ Hft); left; by left). done. }
      eapply (sem_move n m (v :: l) None pts t SignalHead _ l (Some v)); try done.
      * destruct Hft. split; try done; [|by intros u [= ->]]. simpl. split; [done|].
        intros [Hin|[= ->]]; [|done]. apply h_asleep0. left. by right.
      * intros u k Hne Hu Hfu. eapply semfits_other; try done.
        -- rewrite list.elem_of_cons. split; [intros [[->|?]|?]; [by right|by left|done]|].
           intros [?|[= ->]]; left; [by right|by left].
        -- intros x ->. exfalso. apply Hne. by eapply (alone n m (v :: l) None).
      * by apply (dequeue_ok _ []).
      * intros u Hu. left. by right.
      * by left.
      * right. intros x [= <-]. split_and!; [done|apply Hw; by left|done].
      * destruct (z_count _ _ _ _ _ Hw). simpl. lia.
      * intros _. rewrite (chance_move m _ pts t SignalHead) by done. simpl.
        rewrite Z.sub_add. apply (z_balanced _ _ _ _ _ Hw). by left.
  - destruct (bool_decide (v ∈ sched_locked m)) eqn:E; [done|]. apply bool_decide_eq_false in E.
    pose proof (h_wake _ _ _ _ _ Hft v eq_refl) as ->.
    destruct (z_target _ _ _ _ _ Hw v eq_refl) as (Hvl & [q Hv] & _).
    pose proof (Hf v q Hv) as Hfv. assert (asleep m v q = true) as Has by (apply (h_asleep _ _ _ _ _ Hfv); by right).
    assert (q = BlockYield) as ->.
    { destruct q; try done; exfalso; by apply E, (h_sched _ _ _ _ _ Hfv). }
    assert (v ≠ t) as Hvt by (intros ->; congruence).
    assert (∀ u, u ≠ v → sem_thread_status (set_sem_state v THREAD_RUNNABLE m) u = sem_thread_status m u) as Hst.
    { intros u Hu. unfold sem_thread_status. simpl. by rewrite lookup_insert_ne. }
    assert (sem_thread_status (set_sem_state v THREAD_RUNNABLE m) v = THREAD_RUNNABLE) as Hsv.
    { unfold sem_thread_status. simpl. by rewrite lookup_insert_eq. }
    eapply (sem_move n m l (Some v) pts t (SignalWake v) _ l None); try done.
    + destruct Hft. split; try done. simpl. simpl in h_asleep0. rewrite h_asleep0. naive_solver.
    + intros u k Hne Hu Hfu. destruct (decide (u = v)) as [->|Huv].
      * assert (k = BlockYield) as -> by congruence. destruct Hfv. split; try done. simpl. rewrite Hsv. simpl. naive_solver.
      * eapply semfits_other; try done; [by apply Hst|naive_solver|].
        intros x ->. exfalso. apply Hne. by eapply (alone n m l (Some v)).
    + apply Hw.
    + auto.
    + by left.
    + by right.
    + destruct (z_count _ _ _ _ _ Hw). simpl. lia.
    + intros Hpr. assert (sem_counter m <= tally (chance m) pts) as Hb.
      { apply (z_balanced _ _ _ _ _ Hw). rewrite (tally_insert _ _ _ _ _ Ht) in Hpr. simpl in Hpr.
        destruct Hpr; [by left|right; lia]. }
      simpl. rewrite (tally_insert _ _ _ _ _ Ht). simpl.
      rewrite (tally_change (chance m) _ pts v BlockYield Hv).
      * simpl. rewrite Hsv. simpl in Has. apply negb_true_iff in Has. rewrite Has. simpl. lia.
      * intros u k Hu. unfold chance. by rewrite Hst.
  - by eapply sem_move_release.
Qed.

Lemma sem_act_inv n m pts t e p :
  0 < n → seminv n (System m pts) → pts !! t = Some p →
  match sem_act e t p m with
  | Blocked => True
  | Next q m' => seminv (n - 1) (System m' (<[t := q]> pts))
  | Crash _ => False
  end.
Proof.
  intros Hn HI Ht. destruct e; simpl.
  - destruct HI as (l & w & Hf & Hw). destruct p; try done. eapply sem_move_self; try done.
    eapply (balanced_move m l); [apply Hw|done|done|auto|auto|simpl; lia].
  - destruct HI as (l & w & Hf & Hw). destruct p; try done. eapply sem_move_self; try done.
    eapply (balanced_move m l); [apply Hw|done|done|auto|auto|simpl; lia].
  - destruct p; try done; first [by apply sem_wait_inv|by apply sem_path_inv|by apply sem_signal_inv].
Qed.

(** ** The theorem *)

Lemma sem_start_inv n c pts :
  (∀ t p, pts !! t = Some p → p = SemIdle) → n < 2 ^ 63 → seminv n (System (sem_init c) pts).
Proof.
  intros Hp Hn. exists [], None. split; simpl.
  - intros t p ->%Hp. split; try done; simpl. split; [done|]. by intros [?%not_elem_of_nil|?].
  - split; simpl; try done; try (by intros t ?%not_elem_of_nil).
    + split; [done..|]. split; [apply NoDup_nil_2|by intros [|]..].
    + intros [?|Hpos]; [done|]. apply tally_pos in Hpos as (t & p & Ht & Hr). by rewrite (Hp t p Ht) in Hr.
Qed.

Lemma sem_stuck_at n s t p :
  seminv n s → points s !! t = Some p → (∀ u, move sem_act u SemGo s = None) →
  p = SemIdle ∨ (p = BlockYield ∧ sem_thread_status (shared s) t ≠ THREAD_RUNNABLE).
Proof.
  intros (l & w & Hf & Hw) Ht Hstuck.
  assert (∀ u k, points s !! u = Some k → in_sched k = true → in_sem k = false → False) as Hsc.
  { intros u k Hu Hk Hk'. specialize (Hstuck u). unfold move in Hstuck. rewrite Hu in Hstuck. by destruct k. }
  assert (sem_lock (shared s) = None) as Hl.
  { destruct (sem_lock (shared s)) as [u|] eqn:E; [|done].
    destruct (z_lock _ _ _ _ _ Hw u E) as [k Hk]. pose proof (Hf u k Hk) as Hfu.
    pose proof (Hstuck u) as Hu. unfold move in Hu. rewrite Hk in Hu. apply (h_lock _ _ _ _ _ Hfu) in E.
    exfalso. unfold sem_act, sem_wait, sem_do_slow_path, sem_signal in Hu. destruct k as [| | | | | | | | | | | | | | | |v|]; try done.
    - destruct (bool_decide _) eqn:Ed; [|done]. by apply bool_decide_eq_true, (h_sched _ _ _ _ _ Hfu) in Ed.
    - destruct (sem_enqueue_ok _ _ u (z_queue _ _ _ _ _ Hw)) as (q & Eq & _); [|by rewrite Eq in Hu].
      intros Hin. assert (asleep (shared s) u PathEnqueue = true) by (apply (h_asleep _ _ _ _ _ Hfu); by left). done.
    - by destruct (q_head _).
    - destruct (bool_decide _) eqn:Ed; [|done]. apply bool_decide_eq_true in Ed.
      pose proof (h_wake _ _ _ _ _ Hfu v eq_refl) as ->. destruct (z_target _ _ _ _ _ Hw v eq_refl) as (_ & [k Hv] & _).
      apply (h_sched _ _ _ _ _ (Hf v k Hv)) in Ed. destruct (decide (in_sem k = true)) as [Hin|Hin].
      + assert (v = u) as -> by by eapply (alone n (shared s) l (Some v)). assert (k = SignalWake u) as -> by congruence. done.
      + eapply Hsc; [exact Hv|done|by destruct (in_sem k)]. }
  specialize (Hstuck t). unfold move in Hstuck. rewrite Ht in Hstuck. pose proof (Hf t p Ht) as Hft.
  assert (in_sem p = false) as Hp. { destruct (in_sem p) eqn:E; [|done]. apply (h_lock _ _ _ _ _ Hft) in E. congruence. }
  unfold sem_act, sem_wait, sem_do_slow_path, sem_signal, sem_acquire in Hstuck. rewrite Hl in Hstuck.
  destruct p; try done; auto. right. split; [done|]. destruct (_ =? _) eqn:E; [done|]. by apply Z.eqb_neq.
Qed.

(** C22: Semaphores.  In every execution of fewer than 2^63 turns the counter is the number
    of signals less the number of waits that got through, and never negative; the queue is
    a doubly linked list from its head to its tail, without repetition, of threads that
    sleep or are about to; and no wake-up is lost: when no thread can go on, threads wait
    only if the counter is 0. *)
Theorem semaphore_sound sched c pts r :
  (∀ t p, pts !! t = Some p → p = SemIdle) → Z.of_nat (length sched) < 2 ^ 63 →
  execute sem_act sched (System (sem_init c) pts) = Some r →
  ∃ s, r = Done s ∧ sem_counter (shared s) = given (shared s) - taken (shared s) ∧
    taken (shared s) <= given (shared s) ∧
    (∃ l, holds_queue (sem_queue (shared s)) l ∧
       ∀ t, t ∈ l → ∃ p, points s !! t = Some p ∧ asleep (shared s) t p = true) ∧
    ((∀ u, move sem_act u SemGo s = None) →
     ∀ t p, points s !! t = Some p → p ≠ SemIdle → sem_counter (shared s) = 0).
Proof.
  intros Hp Hn He. destruct (execute_count sem_act seminv sched (2 ^ 63 - 1) (System (sem_init c) pts) r)
    as (s & -> & HI); [|lia|by apply sem_start_inv|done|].
  { intros n [m qs] t e p Hpos HI Ht. by apply sem_act_inv. }
  exists s. pose proof HI as (l & w & Hf & Hw). destruct (z_count _ _ _ _ _ Hw) as (E & H0 & _).
  split_and!; [done|done|lia| |].
  { exists l. split; [apply Hw|]. intros t Ht. destruct (z_list _ _ _ _ _ Hw t Ht) as [p Hpt].
    exists p. split; [done|]. apply (h_asleep _ _ _ _ _ (Hf t p Hpt)). by left. }
  intros Hstuck t p Ht Hni.
  destruct (sem_stuck_at _ s t p HI Ht Hstuck) as [?|[-> Hst]]; [done|].
  assert (sem_counter (shared s) <= tally (chance (shared s)) (points s)) as Hb.
  { apply (z_balanced _ _ _ _ _ Hw). left. intros ->.
    destruct (proj1 (h_asleep _ _ _ _ _ (Hf t _ Ht))) as [?%not_elem_of_nil| ->]; [|done|].
    - simpl. by rewrite (proj2 (Z.eqb_neq _ _) Hst).
    - destruct (z_target _ _ _ _ _ Hw t eq_refl) as (_ & _ & u & Hu).
      by destruct (sem_stuck_at _ s u _ HI Hu Hstuck) as [?|[? _]]. }
  assert (tally (chance (shared s)) (points s) = 0); [|lia]. apply tally_zero. intros u q Hu.
  destruct (sem_stuck_at _ s u q HI Hu Hstuck) as [->|[-> Hq]]; [done|]. simpl. by apply Z.eqb_neq.
Qed.

(** ** Executions *)

Definition sem_two : gmap Z sempoint := list_to_map [(8, SemIdle); (16, SemIdle)].

Lemma sem_two_idle t p : sem_two !! t = Some p → p = SemIdle.
Proof.
  intros Hc. apply elem_of_list_to_map_2 in Hc.
  repeat (apply list.elem_of_cons in Hc as [[= -> ->]|Hc]; [done|]). by apply not_elem_of_nil in Hc.
Qed.

(** One thread waits and goes to sleep; another signals twice. *)
Definition sem_trace : list (Z * semevent) :=
  (8, CallWait) :: replicate 8 (8, SemGo) ++ (16, CallSignal) :: replicate 5 (16, SemGo) ++
  (16, CallSignal) :: replicate 4 (16, SemGo) ++ replicate 5 (8, SemGo).

Lemma semaphore_sound_witness :
  ∃ s, execute sem_act sem_trace (System (sem_init 0) sem_two) = Some (Done s) ∧
    sem_counter (shared s) = 1 ∧ given (shared s) = 2 ∧ taken (shared s) = 1 ∧ taken (shared s) <= given (shared s).
Proof.
  destruct (execute sem_act sem_trace (System (sem_init 0) sem_two)) as [r|] eqn:E; [|by vm_compute in E].
  pose proof E as E'. apply semaphore_sound in E as (s & -> & H1 & H2 & _); [|exact sem_two_idle|reflexivity].
  exists s. split; [done|]. vm_compute in E'. injection E' as <-. split_and!; try reflexivity. exact H2.
Defined.

(** The count a semaphore is created with is lost. *)
Lemma sem_init_ignores_count c : sem_counter (sem_init c) = 0.
Proof. done. Qed.
