(* ===== verification/Sched.v ===== *)
(** * Sched: the run queues of a processor

    The queues of [kernel/sched/scheduler.cpp]: one list of runnable threads per priority,
    linked through the threads, with the functions that append to, take from and search
    them.  The scheduler lock of the processor is held during each of them.  Threads are
    the addresses of their control blocks. *)

From S2P Require Import Prelude Abi Mutex.

Definition NUM_PRIO : Z := 40.
Definition SCHED_PRIO_NORMAL : Z := 20.
Definition THREAD_DEAD : Z := 4.
Definition THREAD_NEEDS_RESCHED : Z := 2.
Definition THREAD_IS_DYING : Z := 4.
Definition THREAD_ACTIVE : Z := 16.
Definition SCHED_QUANTUM : Z := 10.
Definition SCHED_NO_CPU_PREFERENCE : Z := u32 (-1).

(** [thread_queues_head], the running thread, the fields of the threads (flags are 0 where
    there is no entry) and the counters of the processor. *)
Record runq : Type := Runq {
  thread_queues : list (option Z);
  current_thread : option Z;
  th_status : gmap Z Z;
  th_priority : gmap Z Z;
  next_prio : gmap Z Z;
  prev_prio : gmap Z Z;
  th_flags : gmap Z Z;
  sched_quantum : Z;
  preemption_counter : Z
}.

Definition with_heads (h : list (option Z)) (s : runq) : runq :=
  Runq h (current_thread s) (th_status s) (th_priority s) (next_prio s) (prev_prio s)
    (th_flags s) (sched_quantum s) (preemption_counter s).
Definition with_current (c : option Z) (s : runq) : runq :=
  Runq (thread_queues s) c (th_status s) (th_priority s) (next_prio s) (prev_prio s)
    (th_flags s) (sched_quantum s) (preemption_counter s).
Definition with_status (m : gmap Z Z) (s : runq) : runq :=
  Runq (thread_queues s) (current_thread s) m (th_priority s) (next_prio s) (prev_prio s)
    (th_flags s) (sched_quantum s) (preemption_counter s).
Definition with_links (n p : gmap Z Z) (s : runq) : runq :=
  Runq (thread_queues s) (current_thread s) (th_status s) (th_priority s) n p
    (th_flags s) (sched_quantum s) (preemption_counter s).
Definition with_flags (m : gmap Z Z) (s : runq) : runq :=
  Runq (thread_queues s) (current_thread s) (th_status s) (th_priority s) (next_prio s) (prev_prio s)
    m (sched_quantum s) (preemption_counter s).
Definition with_quantum (q : Z) (s : runq) : runq :=
  Runq (thread_queues s) (current_thread s) (th_status s) (th_priority s) (next_prio s) (prev_prio s)
    (th_flags s) q (preemption_counter s).

Definition get_status (t : Z) : M runq Z :=
  x ← gets (λ s, th_status s !! t); from_opt x UseAfterFree.
Definition get_priority (t : Z) : M runq Z :=
  x ← gets (λ s, th_priority s !! t); from_opt x UseAfterFree.
Definition get_head (p : Z) : M runq (option Z) :=
  x ← gets (λ s, aget (thread_queues s) p); from_opt x OutOfBounds.
Definition set_head (p : Z) (x : option Z) : M runq unit :=
  h ← gets (λ s, aset (thread_queues s) p x);
  h ← from_opt h OutOfBounds;
  modify (with_heads h).

(** To the end of a queue, which must not meet [thread] on its way. *)
Fixpoint queue_end (fuel : nat) (thread queue : Z) : M runq Z :=
  match fuel with
  | O => crash OutOfFuel
  | S fuel =>
      n ← gets (λ s, next_prio s !! queue);
      match n with
      | None => mret queue
      | Some n =>
          check (negb (queue =? thread)) AssertFailed;;
          check (negb (queue =? n)) AssertFailed;;
          queue_end fuel thread n
      end
  end.

Definition __sched_append_to_queue (priority thread : Z) : M runq unit :=
  st ← get_status thread;
  check (st =? THREAD_RUNNABLE) AssertFailed;;
  queue ← get_head priority;
  match queue with
  | None => set_head priority (Some thread)
  | Some queue =>
      fuel ← gets (λ s, size (th_status s));
      queue ← queue_end (S fuel) thread queue;
      check (negb (queue =? thread)) AssertFailed;;
      modify (λ s, with_links (<[queue := thread]> (next_prio s)) (<[thread := queue]> (prev_prio s)) s)
  end.

(** The queues from priority [i - 1] down to 0. *)
Fixpoint find_queue (i : nat) : M runq (option Z) :=
  match i with
  | O => mret None
  | S i =>
      h ← get_head (Z.of_nat i);
      match h with
      | None => find_queue i
      | Some ret =>
          n ← gets (λ s, next_prio s !! ret);
          set_head (Z.of_nat i) n;;
          modify (λ s, with_links (delete ret (next_prio s))
            (match n with Some _ => delete ret (prev_prio s) | None => prev_prio s end) s);;
          mret (Some ret)
      end
  end.

Definition __sched_find_next : M runq (option Z) :=
  cur ← gets current_thread;
  match cur with
  | None => mret tt
  | Some t =>
      st ← get_status t;
      if st =? THREAD_RUNNABLE
      then p ← get_priority t; __sched_append_to_queue p t
      else mret tt
  end;;
  find_queue (Z.to_nat NUM_PRIO).

Definition sched_find_runnable : M runq Z :=
  t ← __sched_find_next;
  from_opt t KernelPanic.

(** ** Flags and quantum *)

Definition flags_of (s : runq) (t : Z) : Z := default 0 (th_flags s !! t).
Definition set_flag (f t : Z) (s : runq) : runq :=
  with_flags (<[t := Z.lor (flags_of s t) f]> (th_flags s)) s.
Definition clear_flag (f t : Z) (s : runq) : runq :=
  with_flags (<[t := Z.ldiff (flags_of s t) f]> (th_flags s)) s.

Definition sched_is_preemption_disabled (s : runq) : bool := 0 <? preemption_counter s.

(** The tick of the scheduler's timer. *)
Definition sched_decrease_quantum : M runq unit :=
  modify (λ s, with_quantum (u32 (sched_quantum s - 1)) s);;
  q ← gets sched_quantum;
  cur ← gets current_thread;
  if q =? 0 then
    match cur with
    | Some t => modify (set_flag THREAD_NEEDS_RESCHED t)
    | None => crash NullDeref
    end
  else mret tt.

(** ** Switching *)

(** Registers, page tables and accounting are not part of the state. *)
Definition sched_load_thread (t : Z) : M runq unit :=
  modify (λ s, with_quantum SCHED_QUANTUM (with_current (Some t) s)).

Definition sched_load_finish (prev_thread : option Z) (next_thread : Z) : M runq unit :=
  sched_load_thread next_thread;;
  match prev_thread with
  | None => mret tt
  | Some p =>
      st ← get_status p;
      f ← gets (λ s, flags_of s p);
      if (st =? THREAD_DEAD) && has f THREAD_IS_DYING
      then modify (clear_flag THREAD_IS_DYING p) else mret tt
  end.

(** [sched_schedule], from the choice of the next thread on. *)
Definition sched_switch : M runq Z :=
  source_thread ← gets current_thread;
  t ← sched_find_runnable;
  match source_thread with Some _ => mret tt | None => crash NullDeref end;; (* source_thread->owner *)
  sched_load_finish source_thread t;;
  mret t.

Definition is_blocked (st : Z) : bool := (st =? THREAD_INTERRUPTIBLE) || (st =? THREAD_UNINTERRUPTIBLE).

(** [None]: the caller's stack is returned, and the running thread goes on. *)
Definition sched_schedule : M runq (option Z) :=
  disabled ← gets sched_is_preemption_disabled;
  if (disabled : bool) then modify (λ s, with_quantum (u32 (sched_quantum s + 1)) s);; mret None
  else
    cur ← gets current_thread;
    stay ← match cur with
           | None => mret false
           | Some t =>
               st ← get_status t;
               f ← gets (λ s, flags_of s t);
               if is_blocked st && has f THREAD_ACTIVE
               then modify (with_quantum 1);; modify (clear_flag THREAD_ACTIVE t);; mret true
               else modify (clear_flag THREAD_ACTIVE t);; mret false
           end;
    if (stay : bool) then mret None else t ← sched_switch; mret (Some t).

(** What an interrupt does when a reschedule is due; behind a switch, it is another thread
    that goes on. *)
Definition sched_preempt_thread : M runq (option Z) :=
  cur ← gets current_thread;
  match cur with Some t => modify (set_flag THREAD_ACTIVE t) | None => mret tt end;;
  r ← sched_schedule;
  match r, cur with
  | None, Some t => modify (clear_flag THREAD_ACTIVE t);; mret r
  | _, _ => mret r
  end.

Fixpoint remove_walk (fuel : nat) (thread : Z) (t : option Z) : M runq Z :=
  match fuel with
  | O => crash OutOfFuel
  | S fuel =>
      match t with
      | None => mret (-1)
      | Some t =>
          n ← gets (λ s, next_prio s !! t);
          if t =? thread then
            pv ← gets (λ s, prev_prio s !! t);
            match pv with
            | Some p =>
                modify (λ s, with_links (partial_alter (λ _, n) p (next_prio s)) (prev_prio s) s)
            | None => p ← get_priority thread; set_head p n
            end;;
            match n with
            | Some n => modify (λ s, with_links (next_prio s) (partial_alter (λ _, pv) n (prev_prio s)) s)
            | None => mret tt
            end;;
            modify (λ s, with_links (delete t (next_prio s)) (delete t (prev_prio s)) s);;
            mret 0
          else remove_walk fuel thread n
      end
  end.

Definition __sched_remove_thread_from_execution (thread : Z) : M runq Z :=
  p ← get_priority thread;
  h ← get_head p;
  fuel ← gets (λ s, size (th_status s));
  remove_walk (S (S fuel)) thread h.

(** [thread_set_state]. *)
Definition thread_set_state (thread state : Z) : M runq unit :=
  st ← get_status thread;
  if st =? state then mret tt
  else modify (λ s, with_status (<[thread := state]> (th_status s)) s).

Definition sched_remove_thread (thread : Z) : M runq unit :=
  __sched_remove_thread_from_execution thread;;
  thread_set_state thread THREAD_DEAD.

(** The requests to reschedule that follow are not part of the state. *)
Definition __thread_wake_up (thread : Z) : M runq unit :=
  cur ← gets current_thread;
  st ← get_status thread;
  if bool_decide (cur = Some thread)
  then modify (λ s, with_status (<[thread := THREAD_RUNNABLE]> (th_status s)) s)
  else if st =? THREAD_RUNNABLE then mret tt
  else
    modify (λ s, with_status (<[thread := THREAD_RUNNABLE]> (th_status s)) s);;
    p ← get_priority thread;
    __sched_append_to_queue p thread.

(** [sched_allocate_processor], over the number of active threads of each processor. *)
Fixpoint least_loaded (i : Z) (dest min : Z) (active : list Z) : Z :=
  match active with
  | [] => dest
  | n :: active =>
      if n <? min then least_loaded (i + 1) i n active else least_loaded (i + 1) dest min active
  end.

Definition sched_allocate_processor (active_threads : list Z) : Z :=
  least_loaded 0 (u32 (-1)) ULONG_MAX active_threads.

(** The processor that [thread_add] starts a thread on. *)
Definition thread_add_cpu (cpu_num : Z) (active_threads : list Z) : Z :=
  if (cpu_num =? SCHED_NO_CPU_PREFERENCE) || (Z.of_nat (length active_threads) <? cpu_num)
  then sched_allocate_processor active_threads else cpu_num.
