(* ===== verification/SchedProps.v ===== *)
(** * SchedProps: runnable threads take turns by priority *)

From S2P Require Import Prelude Abi DList Mutex Sched.

(** ** What the queues hold

    [Q p] are the threads of priority [p], first to last. *)

Record queues (s : runq) (Q : Z → list Z) : Prop := {
  q_len : length (thread_queues s) = Z.to_nat NUM_PRIO;
  q_heads : ∀ p, 0 <= p < NUM_PRIO → aget (thread_queues s) p = Some (head (Q p));
  q_links : ∀ p, forward (next_prio s) (Q p);
  q_nodup : ∀ p, NoDup (Q p);
  q_member : ∀ p t, t ∈ Q p → th_status s !! t = Some THREAD_RUNNABLE ∧ th_priority s !! t = Some p;
  q_free : ∀ p t, th_priority s !! t = Some p → t ∉ Q p → next_prio s !! t = None;
  q_prio : ∀ t x, th_status s !! t = Some x → ∃ p, th_priority s !! t = Some p ∧ 0 <= p < NUM_PRIO
}.

(** All runnable threads are queued, but for the one that runs. *)
Record ready (s : runq) (Q : Z → list Z) : Prop := {
  y_queues : queues s Q;
  y_all : ∀ t p, th_status s !! t = Some THREAD_RUNNABLE → th_priority s !! t = Some p →
    current_thread s ≠ Some t → t ∈ Q p;
  y_cur : ∀ t, current_thread s = Some t → is_Some (th_status s !! t) ∧ ∀ p, t ∉ Q p
}.

(** [s'] has the threads and the running thread of [s]. *)
Definition requeued (s s' : runq) : Prop :=
  current_thread s' = current_thread s ∧ th_status s' = th_status s ∧ th_priority s' = th_priority s ∧
    preemption_counter s' = preemption_counter s.

(** The flags and the counters do not matter to the queues. *)
Lemma ready_ext s s' Q :
  ready s Q → thread_queues s' = thread_queues s → requeued s s' → next_prio s' = next_prio s → ready s' Q.
Proof.
  intros [[] Hall Hcur] Eh (Ec & Es & Ep & _) En.
  split; [split|..]; rewrite ?Eh, ?Ec, ?Es, ?Ep, ?En; done.
Qed.

Lemma queue_short s Q p : queues s Q → (length (Q p) <= size (th_status s))%nat.
Proof.
  intros HQ. rewrite <-size_dom. rewrite <-(size_list_to_set (C := gset Z)) by apply HQ.
  apply subseteq_size. intros t Ht%elem_of_list_to_set. apply elem_of_dom.
  destruct (q_member _ _ HQ p t Ht) as [E _]. eauto.
Qed.

Lemma wp_queue_end fuel l L1 q L2 t s (P : Z → runq → Prop) :
  forward (next_prio s) l → NoDup l → t ∉ l → l = L1 ++ q :: L2 → (length L2 < fuel)%nat →
  (∀ e k, l = k ++ [e] → P e s) → wp (queue_end fuel t q) P s.
Proof.
  intros Hf Hn Ht. revert L1 q L2. induction fuel as [|fuel IH]; intros L1 q L2 E Hl HP; [lia|].
  simpl. wp_step. wp_step. rewrite (Hf _ _ _ E). destruct L2 as [|n L2]; simpl.
  - wp_step. by eapply HP.
  - assert (q ≠ t) by (intros ->; apply Ht; rewrite E; apply list.elem_of_app; right; by left).
    assert (q ≠ n). { intros ->. rewrite E in Hn. apply list.NoDup_app in Hn as (_ & _ & [Hn _]%list.NoDup_cons). apply Hn. by left. }
    wp_step. wp_step; [by apply negb_true_iff, Z.eqb_neq|]. wp_step. wp_step; [by apply negb_true_iff, Z.eqb_neq|].
    apply (IH (L1 ++ [q]) n L2); [|simpl in Hl; lia|done]. by rewrite <-app_assoc.
Qed.

Lemma aget_length {A} (l : list A) i n : length l = Z.to_nat n → 0 <= i < n → is_Some (aget l i).
Proof. intros. apply aget_is_Some. lia. Qed.

Lemma wp_get_head s Q p (P : option Z → runq → Prop) :
  queues s Q → 0 <= p < NUM_PRIO → P (head (Q p)) s → wp (get_head p) P s.
Proof. intros HQ Hp HP. unfold get_head. wp_step. wp_step. eapply wp_from_opt; [by apply HQ|done]. Qed.

Lemma wp_set_head s p x (P : unit → runq → Prop) :
  length (thread_queues s) = Z.to_nat NUM_PRIO → 0 <= p < NUM_PRIO →
  (∀ h, length h = Z.to_nat NUM_PRIO → (∀ i, aget h i = if decide (p = i) then Some x else aget (thread_queues s) i) →
    P tt (with_heads h s)) → wp (set_head p x) P s.
Proof.
  intros Hl Hp HP. unfold set_head. wp_step. wp_step.
  assert (aset (thread_queues s) p x = Some (<[Z.to_nat p := x]> (thread_queues s))) as E by (apply aset_is_Some; lia).
  wp_step. eapply wp_from_opt; [exact E|]. wp_step. apply HP; [by rewrite length_insert|].
  intros i. by apply aget_aset.
Qed.

(** The queues when one of them changes. *)
Definition updq (p : Z) (l : list Z) (Q : Z → list Z) : Z → list Z := λ i, if decide (i = p) then l else Q i.

Lemma updq_eq p l Q : updq p l Q p = l.
Proof. unfold updq. by rewrite decide_True. Qed.
Lemma updq_ne p l Q i : i ≠ p → updq p l Q i = Q i.
Proof. intros. unfold updq. by rewrite decide_False. Qed.

(** Queues of different priority share no thread. *)
Lemma queues_apart s Q p i t : queues s Q → t ∈ Q i → th_priority s !! t = Some p → i = p.
Proof. intros HQ Ht Hp. destruct (q_member _ _ HQ i t Ht). congruence. Qed.

Lemma queues_update s Q p l h n pv :
  queues s Q → 0 <= p < NUM_PRIO → length h = Z.to_nat NUM_PRIO →
  (∀ i, 0 <= i < NUM_PRIO → aget h i = if decide (p = i) then Some (head l) else aget (thread_queues s) i) →
  forward n l → NoDup l →
  (∀ t, t ∈ l → th_status s !! t = Some THREAD_RUNNABLE ∧ th_priority s !! t = Some p) →
  (∀ t, th_priority s !! t = Some p → t ∉ l → n !! t = None) →
  (∀ t, th_priority s !! t ≠ Some p → n !! t = next_prio s !! t) →
  queues (Runq h (current_thread s) (th_status s) (th_priority s) n pv
    (th_flags s) (sched_quantum s) (preemption_counter s)) (updq p l Q).
Proof.
  intros HQ Hp Hh Hhead Hf Hn Hm Hfree Hsame. split; simpl; [done|..].
  - intros i Hi. rewrite Hhead by done. case_decide; [subst; by rewrite updq_eq|]. rewrite updq_ne by done. by apply HQ.
  - intros i. destruct (decide (i = p)) as [->|Hne]; [by rewrite updq_eq|]. rewrite updq_ne by done.
    eapply forward_ext; [|apply HQ]. intros t Ht. apply Hsame. intros E. apply Hne. by eapply queues_apart.
  - intros i. destruct (decide (i = p)) as [->|Hne]; [by rewrite updq_eq|]. rewrite updq_ne by done. apply HQ.
  - intros i t. destruct (decide (i = p)) as [->|Hne]; [rewrite updq_eq; auto|]. rewrite updq_ne by done. apply HQ.
  - intros i t Ht. destruct (decide (i = p)) as [->|Hne]; [rewrite updq_eq; auto|]. rewrite updq_ne by done. intros Hi.
    rewrite Hsame by congruence. by eapply (q_free _ _ HQ).
  - apply HQ.
Qed.

Lemma wp_append s Q p t (P : unit → runq → Prop) :
  queues s Q → th_status s !! t = Some THREAD_RUNNABLE → th_priority s !! t = Some p → 0 <= p < NUM_PRIO → t ∉ Q p →
  (∀ s', requeued s s' → queues s' (updq p (Q p ++ [t]) Q) → P tt s') →
  wp (__sched_append_to_queue p t) P s.
Proof.
  intros HQ Hst Hpr Hp Ht HP. unfold __sched_append_to_queue, get_status. do 3 wp_step.
  eapply wp_from_opt; [done|]. wp_step. wp_step; [done|]. wp_step. eapply wp_get_head; [done|done|].
  pose proof (q_free _ _ HQ p t Hpr Ht) as Hnone. pose proof (queue_short s Q p HQ) as Hlen.
  assert (∀ u, u ∈ Q p ++ [t] → th_status s !! u = Some THREAD_RUNNABLE ∧ th_priority s !! u = Some p) as Hm.
  { intros u [?| ->%list_elem_of_singleton]%list.elem_of_app; [by apply HQ|done]. }
  assert (NoDup (Q p ++ [t])) as Hnd.
  { apply list.NoDup_app. split_and!; [apply HQ| |apply NoDup_singleton]. by intros u Hu ->%list_elem_of_singleton. }
  destruct (Q p) as [|q l] eqn:El; cbn [head].
  - eapply wp_set_head; [apply HQ|done|]. intros h Hh Hget. apply HP; [done|]. unfold with_heads.
    apply (queues_update s Q); try done; [by apply forward_one|].
    intros u Hu Hne. apply (q_free _ _ HQ p u Hu). rewrite El. apply not_elem_of_nil.
  - wp_step. wp_step. wp_step. eapply (wp_queue_end _ (q :: l) [] q l); [rewrite <-El; apply HQ|rewrite <-El; apply HQ|done|done|simpl in Hlen; lia|].
    intros e k Ek. assert (e ≠ t) as Het. { intros ->. rewrite Ek in Ht. apply Ht, list.elem_of_app. right. by left. }
    wp_step. wp_step; [by apply negb_true_iff, Z.eqb_neq|]. wp_step. apply HP; [done|].
    assert (e ∈ Q p) as Hein by (rewrite El, Ek; apply list.elem_of_app; right; by left).
    apply (queues_update s Q); try done.
    + apply HQ.
    + intros i Hi. case_decide; [|done]. subst i. rewrite (q_heads _ _ HQ p Hp), El. done.
    + pose proof (q_links _ _ HQ p) as Hf. pose proof (q_nodup _ _ HQ p) as Hn. rewrite El, Ek in *.
      eapply forward_snoc; [done|done|exact Hf|by rewrite lookup_insert_ne|apply lookup_insert_eq|].
      intros u Hu. apply lookup_insert_ne. intros ->. apply list.NoDup_app in Hn as (_ & Hd & _).
      by apply (Hd u Hu), list_elem_of_singleton.
    + intros u Hu Hn. rewrite lookup_insert_ne; [apply (q_free _ _ HQ p u Hu); rewrite El; intros Hin; apply Hn, list.elem_of_app; by left|].
      intros ->. apply Hn, list.elem_of_app. left. by rewrite <-El.
    + intros u Hu. apply lookup_insert_ne. intros ->. apply Hu. by apply HQ.
Qed.

Lemma wp_find_queue i s Q (P : option Z → runq → Prop) :
  queues s Q → Z.of_nat i <= NUM_PRIO →
  ((∀ j, 0 <= j < Z.of_nat i → Q j = []) → P None s) →
  (∀ p t l s', 0 <= p < Z.of_nat i → Q p = t :: l → (∀ j, p < j < Z.of_nat i → Q j = []) →
    requeued s s' → queues s' (updq p l Q) → P (Some t) s') →
  wp (find_queue i) P s.
Proof.
  intros HQ. induction i as [|i IH]; intros Hi HN HS; simpl.
  { wp_step. apply HN. lia. }
  wp_step. eapply wp_get_head; [done|unfold NUM_PRIO in *; lia|].
  destruct (Q (Z.of_nat i)) as [|t l] eqn:El; cbn [head].
  - apply IH; [lia| |].
    + intros Hn. apply HN. intros j Hj. destruct (decide (j = Z.of_nat i)) as [->|]; [done|]. apply Hn. lia.
    + intros p t l s' Hp E Hup. apply HS; [lia|done|]. intros j Hj.
      destruct (decide (j = Z.of_nat i)) as [->|]; [done|]. apply Hup. lia.
  - wp_step. wp_step. wp_step. pose proof (q_links _ _ HQ (Z.of_nat i)) as Hf. rewrite El in Hf.
    apply forward_cons in Hf as [Ehd Hf]. pose proof (q_nodup _ _ HQ (Z.of_nat i)) as Hn. rewrite El in Hn.
    apply list.NoDup_cons in Hn as [Htl Hn].
    assert (t ∈ Q (Z.of_nat i)) as [Hst Hpr]%(q_member _ _ HQ) by (rewrite El; by left).
    eapply wp_set_head; [apply HQ|unfold NUM_PRIO in *; lia|]. intros h Hh Hget. do 3 wp_step.
    eapply (HS (Z.of_nat i) t l); [lia|done|lia|done|].
    apply (queues_update s Q); [done|unfold NUM_PRIO in *; lia|done|by intros; rewrite Hget, Ehd| |done|..].
    + eapply forward_ext; [|exact Hf]. intros u Hu. apply lookup_delete_ne. by intros ->.
    + intros u Hu. apply HQ. rewrite El. by right.
    + intros u Hu Hnu. destruct (decide (u = t)) as [->|]; [apply lookup_delete_eq|].
      rewrite lookup_delete_ne by done. apply (q_free _ _ HQ _ _ Hu). rewrite El. by intros [->|?]%list.elem_of_cons.
    + intros u Hu. apply lookup_delete_ne. congruence.
Qed.

(** The queues with the running thread at the end of its own, if it can go on. *)
Definition with_running (s : runq) (Q : Z → list Z) (Q1 : Z → list Z) : Prop :=
  match current_thread s with
  | Some c => if decide (th_status s !! c = Some THREAD_RUNNABLE)
      then ∃ p, th_priority s !! c = Some p ∧ Q1 = updq p (Q p ++ [c]) Q else Q1 = Q
  | None => Q1 = Q
  end.

Lemma wp_load_finish c t s (P : unit → runq → Prop) :
  is_Some (th_status s !! c) →
  (∀ s', thread_queues s' = thread_queues s → requeued (with_current (Some t) s) s' → next_prio s' = next_prio s →
    P tt s') →
  wp (sched_load_finish (Some c) t) P s.
Proof.
  intros [x Hx] HP. unfold sched_load_finish, sched_load_thread, get_status. do 5 wp_step.
  eapply wp_from_opt; [exact Hx|]. wp_step. wp_step. destruct (_ && _); wp_step; by apply HP.
Qed.

(** A runnable thread is queued once the running one is. *)
Lemma with_running_all s Q Q1 t p :
  ready s Q → with_running s Q Q1 → th_status s !! t = Some THREAD_RUNNABLE → th_priority s !! t = Some p → t ∈ Q1 p.
Proof.
  intros [_ Hall _] Hrun Ht Hp. unfold with_running in Hrun.
  destruct (current_thread s) as [c|] eqn:Ec; [|subst; by apply Hall].
  destruct (decide (t = c)) as [->|Htc].
  - rewrite decide_True in Hrun by done. destruct Hrun as (q & Hq & ->). assert (q = p) as -> by congruence.
    rewrite updq_eq. apply list.elem_of_app. right. by left.
  - assert (t ∈ Q p) as Hin by (apply Hall; [done|done|congruence]). case_decide; [|by subst].
    destruct Hrun as (q & Hq & ->). destruct (decide (p = q)) as [->|]; [|by rewrite updq_ne].
    rewrite updq_eq. apply list.elem_of_app. by left.
Qed.

(** The first thread of a queue leaves it and runs. *)
Lemma ready_load s Q1 p t l s1 s' :
  queues s Q1 → Q1 p = t :: l → requeued s s1 → queues s1 (updq p l Q1) →
  (∀ u q, th_status s !! u = Some THREAD_RUNNABLE → th_priority s !! u = Some q → u ∈ Q1 q) →
  thread_queues s' = thread_queues s1 → requeued (with_current (Some t) s1) s' → next_prio s' = next_prio s1 →
  ready s' (updq p l Q1).
Proof.
  intros HQ El (E1 & E2 & E3 & _) HQ1 Hall Eh Hreq En.
  assert (t ∈ Q1 p) as Htp by (rewrite El; by left). destruct (q_member _ _ HQ p t Htp) as [Hts Htpr].
  pose proof (q_nodup _ _ HQ p) as Hnd. rewrite El in Hnd. apply list.NoDup_cons in Hnd as [Htl Hnd].
  eapply (ready_ext (with_current (Some t) s1)); [|done|done|done]. split; simpl.
  - destruct HQ1. by split.
  - intros u q Hu Hq Hut. rewrite E2 in Hu. rewrite E3 in Hq. pose proof (Hall u q Hu Hq) as Hin.
    destruct (decide (q = p)) as [->|]; [|by rewrite updq_ne]. rewrite updq_eq. rewrite El in Hin.
    apply list.elem_of_cons in Hin as [->|?]; done.
  - intros u [= <-]. rewrite E2, Hts. split; [done|]. intros q.
    destruct (decide (q = p)) as [->|Hqp]; [by rewrite updq_eq|]. rewrite updq_ne by done. intros Hin.
    apply Hqp. exact (queues_apart _ _ _ _ _ HQ Hin Htpr).
Qed.

Lemma wp_switch s Q Q1 (P : Z → runq → Prop) :
  ready s Q → with_running s Q Q1 → is_Some (current_thread s) → (∃ p, 0 <= p < NUM_PRIO ∧ Q1 p ≠ []) →
  (∀ p t l s', 0 <= p < NUM_PRIO → Q1 p = t :: l → (∀ j, p < j < NUM_PRIO → Q1 j = []) →
    requeued (with_current (Some t) s) s' → ready s' (updq p l Q1) → P t s') →
  wp sched_switch P s.
Proof.
  intros Hready Hrun [c Ec] (p0 & Hp0 & Hne) HP. pose proof Hready as [HQ Hall Hcur].
  unfold sched_switch, sched_find_runnable, __sched_find_next. destruct (Hcur c Ec) as [[x Hx] Hnot].
  assert (∀ s1, requeued s s1 → queues s1 Q1 → wp (find_queue (Z.to_nat NUM_PRIO))
    (λ t, wp (from_opt t KernelPanic) (λ t, wp (mret tt;; sched_load_finish (Some c) t;; mret t) P)) s1) as Hfind.
  { intros s1 Hs1 HQ1. pose proof Hs1 as (E1 & E2 & E3 & E4). eapply wp_find_queue; [done|done| |].
    - intros Hn. by rewrite Hn in Hne.
    - intros p t l s2 Hp El Hup Hs2 HQ2. pose proof Hs2 as (F1 & F2 & F3 & F4). wp_step; [done|]. do 3 wp_step.
      eapply wp_load_finish; [rewrite F2, E2; eauto|]. intros s' Eh Hs' En. wp_step. pose proof Hs' as (G1 & G2 & G3 & G4).
      apply (HP p t l); [done|done|done|split_and!; simpl in *; congruence|].
      eapply (ready_load s1 Q1); [done|done|done|done| |done|done|done].
      intros u q Hu Hq. rewrite E2 in Hu. rewrite E3 in Hq. by eapply with_running_all. }
  unfold with_running in Hrun. do 6 wp_step. rewrite Ec in Hrun |- *. do 2 wp_step. unfold get_status. wp_step. wp_step.
  eapply wp_from_opt; [done|]. destruct (x =? THREAD_RUNNABLE) eqn:Ex.
  - apply Z.eqb_eq in Ex as ->. rewrite decide_True in Hrun by done. destruct Hrun as (p & Hpr & ->).
    destruct (q_prio _ _ HQ c _ Hx) as (p' & Hp' & Hr). assert (p' = p) as -> by congruence.
    wp_step. unfold get_priority. wp_step. wp_step. eapply wp_from_opt; [done|].
    eapply wp_append; [done|done|done|done|apply Hnot|]. intros s1 Hs1 HQ1. by apply Hfind.
  - rewrite decide_False in Hrun by (intros E; apply Z.eqb_neq in Ex; congruence). subst Q1.
    wp_step. by apply Hfind.
Qed.

(** ** Taking turns *)

(** The thread that runs can go on, nothing of higher priority is queued, and [l] waits at
    its own priority. *)
Record turns (s : runq) (Q : Z → list Z) (p c : Z) (l : list Z) : Prop := {
  n_ready : ready s Q;
  n_enabled : preemption_counter s = 0;
  n_cur : current_thread s = Some c;
  n_run : th_status s !! c = Some THREAD_RUNNABLE;
  n_prio : th_priority s !! c = Some p;
  n_queue : Q p = l;
  n_top : ∀ j, p < j < NUM_PRIO → Q j = []
}.

(** A thread that is not about to sleep is switched away from. *)
Lemma wp_schedule s Q c x (P : option Z → runq → Prop) :
  ready s Q → preemption_counter s = 0 → current_thread s = Some c → th_status s !! c = Some x →
  is_blocked x && has (flags_of s c) THREAD_ACTIVE = false →
  (∀ s', ready s' Q → requeued s s' → wp sched_switch (λ t, P (Some t)) s') →
  wp sched_schedule P s.
Proof.
  intros Hr Hp Hc Hx Hb HP. unfold sched_schedule, sched_is_preemption_disabled. wp_step. wp_step.
  rewrite Hp. change (0 <? 0) with false. cbv iota. wp_step. wp_step. rewrite Hc. wp_step. wp_step. unfold get_status. wp_step. wp_step.
  eapply wp_from_opt; [exact Hx|]. wp_step. wp_step. rewrite Hb. wp_step. wp_step. wp_step.
  assert (ready (clear_flag THREAD_ACTIVE c s) Q) as Hr' by by eapply (ready_ext s).
  wp_step. eapply wp_mono; [by apply (HP _ Hr')|]. intros t s' Hs'. by wp_step.
Qed.

Lemma wp_turn s Q p c x l (P : option Z → runq → Prop) :
  turns s Q p c (x :: l) →
  (∀ s' Q', turns s' Q' p x (l ++ [c]) → P (Some x) s') → wp sched_schedule P s.
Proof.
  intros [Hr He Hc Hs Hp Hq Ht] HP. eapply wp_schedule; [done|done|done|done|done|]. clear Hr. intros s1 Hr (E1 & E2 & E3 & E4).
  pose proof (y_queues _ _ Hr) as HQ. rewrite <-E1 in Hc. rewrite <-E2 in Hs. rewrite <-E3 in Hp. rewrite <-E4 in He.
  destruct (q_prio _ _ HQ c _ Hs) as (p' & Hp' & Hrange). assert (p' = p) as -> by congruence.
  eapply (wp_switch s1 Q (updq p ((x :: l) ++ [c]) Q)); [done| |by rewrite Hc| |].
  - unfold with_running. rewrite Hc, decide_True by done. exists p. by rewrite Hq.
  - exists p. by rewrite updq_eq.
  - intros i t k s' Hi Ei Hup (F1 & F2 & F3 & F4) Hr'. simpl in *.
    assert (i = p) as ->.
    { destruct (decide (i < p)) as [Hlt|Hge].
      - specialize (Hup p). rewrite updq_eq in Hup. by specialize (Hup ltac:(lia)).
      - destruct (decide (i = p)); [done|]. rewrite updq_ne in Ei by done. rewrite Ht in Ei by lia. done. }
    rewrite updq_eq in Ei. injection Ei as <- <-.
    assert (x ∈ Q p) as Hx by (rewrite Hq; by left). destruct (q_member _ _ HQ p x Hx).
    eapply HP. split; [exact Hr'|congruence|done|by rewrite F2|by rewrite F3|by rewrite updq_eq|].
    intros j Hj. rewrite !updq_ne by lia. by apply Ht.
Qed.

Fixpoint switches (n : nat) : M runq unit :=
  match n with O => mret tt | S n => sched_schedule;; switches n end.

Lemma wp_switches a s Q p c t b (P : unit → runq → Prop) :
  turns s Q p c (a ++ t :: b) →
  (∀ s' Q', turns s' Q' p t (b ++ c :: a) → P tt s') → wp (switches (S (length a))) P s.
Proof.
  revert s Q c b. induction a as [|x a IH]; intros s Q c b HT HP; simpl.
  - wp_step. eapply wp_turn; [exact HT|]. intros s' Q' HT'. wp_step. by eapply HP.
  - change ((x :: a) ++ t :: b) with (x :: (a ++ t :: b)) in HT. wp_step. eapply wp_turn; [exact HT|]. intros s1 Q1 HT1.
    replace ((a ++ t :: b) ++ [c]) with (a ++ t :: (b ++ [c])) in HT1 by by rewrite <-app_assoc.
    eapply IH; [exact HT1|]. intros s' Q' HT'. eapply HP. by rewrite <-app_assoc in HT'.
Qed.

(** C27: Round robin.  Among the runnable threads of the highest priority, each gets to run
    after at most as many switches as there are others: no thread is passed over, the
    queues lose none, and no assertion of the scheduler fails. *)
Theorem sched_round_robin s Q p c l t :
  turns s Q p c l → t ∈ c :: l →
  ∃ n s', (n <= length l)%nat ∧ switches n s = Done (tt, s') ∧ current_thread s' = Some t ∧
    ∃ Q' l', turns s' Q' p t l' ∧ t :: l' ≡ₚ c :: l.
Proof.
  intros HT [->|(a & b & ->)%list_elem_of_split]%list.elem_of_cons.
  - exists O, s. split_and!; [lia|done|apply HT|]. exists Q, l. done.
  - assert (wp (switches (S (length a))) (λ _ s', current_thread s' = Some t ∧
      ∃ Q' l', turns s' Q' p t l' ∧ t :: l' ≡ₚ c :: a ++ t :: b) s) as Hw.
    { eapply wp_switches; [exact HT|]. intros s' Q' HT'. split; [apply HT'|]. exists Q', (b ++ c :: a). split; [done|].
      rewrite <-!Permutation_middle. rewrite Permutation_swap. do 2 f_equiv. by rewrite Permutation_app_comm. }
    apply wp_done in Hw as ([] & s' & E & Hc & HQ). exists (S (length a)), s'.
    split_and!; try done. rewrite length_app. simpl. lia.
Qed.

(** ** Preemption *)

(** An interrupt that finds the running thread between the change of its state and the
    switch that puts it to sleep leaves it running: what it has queued itself on is not
    waited for without it. *)
Lemma wp_preempt_sleeper s Q c x (P : option Z → runq → Prop) :
  ready s Q → current_thread s = Some c → th_status s !! c = Some x → is_blocked x = true →
  (∀ s', ready s' Q → requeued s s' → P None s') → wp sched_preempt_thread P s.
Proof.
  intros Hr Hc Hx Hb HP. unfold sched_preempt_thread, sched_schedule. wp_step. wp_step. rewrite Hc.
  do 5 wp_step. unfold sched_is_preemption_disabled. simpl preemption_counter. destruct (0 <? _).
  - do 3 wp_step. wp_step. wp_step. apply HP; [by eapply (ready_ext s)|done].
  - wp_step. wp_step. simpl current_thread. rewrite Hc. wp_step. wp_step. unfold get_status. wp_step. wp_step.
    eapply wp_from_opt; [exact Hx|]. wp_step. wp_step.
    replace (has (flags_of (set_flag THREAD_ACTIVE c s) c) THREAD_ACTIVE) with true.
    2:{ unfold flags_of at 1, set_flag. simpl. rewrite lookup_insert_eq. simpl. symmetry. unfold has, truthy.
      rewrite Z.land_lor_distr_l, Z.land_diag. apply negb_true_iff, Z.eqb_neq. by intros [_ ?]%Z.lor_eq_0_iff. }
    rewrite Hb. simpl. do 8 wp_step. apply HP; [by eapply (ready_ext s)|done].
Qed.

(** ** Waking *)

Lemma queues_status s Q t x :
  queues s Q → is_Some (th_status s !! t) → (x = THREAD_RUNNABLE ∨ ∀ p, t ∉ Q p) →
  queues (with_status (<[t := x]> (th_status s)) s) Q.
Proof.
  intros [] [y Hy] Hx. split; simpl; try done.
  - intros p u Hu. destruct (q_member0 p u Hu) as [Hs Hp]. split; [|done].
    destruct (decide (u = t)) as [->|]; [|by rewrite lookup_insert_ne].
    rewrite lookup_insert_eq. destruct Hx as [->|Hx]; [done|]. by apply Hx in Hu.
  - intros u z. destruct (decide (u = t)) as [->|]; [eauto|]. rewrite lookup_insert_ne by done. eauto.
Qed.

(** A woken thread is runnable, and queued unless it runs; the others keep their places. *)
Lemma wp_thread_wake_up s Q t p (P : unit → runq → Prop) :
  ready s Q → is_Some (th_status s !! t) → th_priority s !! t = Some p →
  (∀ s' Q', ready s' Q' → th_status s' = <[t := THREAD_RUNNABLE]> (th_status s) →
    (Q' = Q ∧ (current_thread s = Some t ∨ t ∈ Q p)) ∨ Q' = updq p (Q p ++ [t]) Q → P tt s') →
  wp (__thread_wake_up t) P s.
Proof.
  intros [HQ Hall Hcur] [x Hx] Hp HP. unfold __thread_wake_up, get_status. wp_step. wp_step. do 3 wp_step.
  eapply wp_from_opt; [done|]. destruct (q_prio _ _ HQ t x Hx) as (p' & Hp' & Hr). assert (p' = p) as -> by congruence.
  destruct (decide (current_thread s = Some t)) as [Hc|Hc].
  - rewrite bool_decide_true by done. wp_step. destruct (Hcur t Hc) as [_ Hn]. eapply (HP _ Q); [|done|by auto].
    split; simpl; [by apply queues_status; eauto| |].
    + intros u q Hu Hq Hne. apply Hall; [|done|done]. destruct (decide (u = t)) as [->|]; [done|].
      by rewrite lookup_insert_ne in Hu.
    + intros u E. split; [|by apply Hcur]. assert (u = t) as -> by congruence. rewrite lookup_insert_eq. eauto.
  - rewrite bool_decide_false by done. destruct (x =? THREAD_RUNNABLE) eqn:Ex.
    + apply Z.eqb_eq in Ex as ->. wp_step. eapply (HP _ Q); [by split|by rewrite insert_id|]. left. split; [done|].
      right. by apply Hall.
    + apply Z.eqb_neq in Ex. assert (∀ q, t ∉ Q q) as Hn.
      { intros q Hin. destruct (q_member _ _ HQ q t Hin). congruence. }
      wp_step. wp_step. unfold get_priority. do 3 wp_step. eapply wp_from_opt; [done|].
      eapply (wp_append _ Q); [apply queues_status; eauto|simpl; by rewrite lookup_insert_eq|done|done|done|].
      intros s' (E1 & E2 & E3 & _) HQ'. simpl in *. eapply HP; [|done|by right]. split; [done|..].
      * intros u q Hu Hq Hne. rewrite E1 in Hne. rewrite E2 in Hu. rewrite E3 in Hq. destruct (decide (u = t)) as [->|Hut].
        -- assert (q = p) as -> by congruence. rewrite updq_eq. apply list.elem_of_app. right. by left.
        -- rewrite lookup_insert_ne in Hu by done. pose proof (Hall u q Hu Hq Hne) as Hin.
           destruct (decide (q = p)) as [->|]; [rewrite updq_eq; apply list.elem_of_app; by left|by rewrite updq_ne].
      * intros u Hu. rewrite E1 in Hu. rewrite E2. destruct (Hcur u Hu) as [Hs Hnq]. assert (u ≠ t) by congruence.
        rewrite lookup_insert_ne by done. split; [done|]. intros q. destruct (decide (q = p)) as [->|].
        -- rewrite updq_eq. intros [?| ->%list_elem_of_singleton]%list.elem_of_app; [by eapply Hnq|done].
        -- rewrite updq_ne by done. apply Hnq.
Qed.

(** ** A processor with three threads *)

Definition three_queued : runq :=
  Runq (<[20%nat := Some 16]> (replicate 40 None)) (Some 8)
    (list_to_map [(8, THREAD_RUNNABLE); (16, THREAD_RUNNABLE); (24, THREAD_RUNNABLE)])
    (list_to_map [(8, 20); (16, 20); (24, 20)]) {[16 := 24]} {[24 := 16]} ∅ SCHED_QUANTUM 0.

Lemma three_turns : turns three_queued (updq 20 [16; 24] (λ _, [])) 20 8 [16; 24].
Proof.
  assert (∀ {A} t (x a b c : A), (list_to_map [(8, a); (16, b); (24, c)] : gmap Z A) !! t = Some x →
    (t = 8 ∧ x = a) ∨ (t = 16 ∧ x = b) ∨ (t = 24 ∧ x = c)) as Hmap.
  { intros A t x a b c Hc. apply elem_of_list_to_map_2 in Hc.
    repeat (apply list.elem_of_cons in Hc as [[= -> ->]|Hc]; [tauto|]). by apply not_elem_of_nil in Hc. }
  assert (∀ p t, t ∈ updq 20 [16; 24] (λ _, []) p → p = 20 ∧ (t = 16 ∨ t = 24)) as Hin.
  { intros p t. unfold updq. case_decide; [|by intros ?%not_elem_of_nil].
    intros [->|[->|?%not_elem_of_nil]%list.elem_of_cons]%list.elem_of_cons; auto. done. }
  split; try done; [|intros j Hj; apply updq_ne; lia]. split; [split|..]; try done.
  - intros p Hp. unfold updq. case_decide; [by subst|]. unfold aget, three_queued. cbn [thread_queues head].
    rewrite (proj2 (Z.leb_le _ _)) by lia. rewrite list_lookup_insert_ne by lia. apply lookup_replicate_2. unfold NUM_PRIO in Hp. lia.
  - intros p. unfold updq. case_decide; [|apply forward_nil]. apply forward_cons. split; [done|]. by apply forward_one.
  - intros p. unfold updq. case_decide; [|apply NoDup_nil_2]. apply list.NoDup_cons. split; [|apply NoDup_singleton].
    by intros ?%list_elem_of_singleton.
  - intros p t (-> & [-> | ->])%Hin; done.
  - intros p t [[-> ->]|[[-> ->]|[-> ->]]]%Hmap Ht; try done. exfalso. apply Ht. by left.
  - intros t x [[-> ->]|[[-> ->]|[-> ->]]]%Hmap; exists 20; by vm_compute.
  - intros t p [[-> _]|[[-> _]|[-> _]]]%Hmap E Hne; try done; vm_compute in E; injection E as <-; by repeat constructor.
  - intros t [= <-]. split; [by eexists|]. by intros p (_ & [? | ?])%Hin.
Qed.

Lemma sched_round_robin_witness :
  ∃ n s', (n <= 2)%nat ∧ switches n three_queued = Done (tt, s') ∧ current_thread s' = Some 24.
Proof.
  destruct (sched_round_robin _ _ _ _ _ 24 three_turns) as (n & s' & Hn & E & Hc & _).
  - right. right. by left.
  - exists n, s'. split_and!; done.
Defined.

(** A thread that has become the first of its queue keeps its link to the one before it, so
    removing it leaves it at the head: a thread marked as dead is chosen to run. *)
Lemma removed_thread_runs :
  ∃ s, (sched_schedule;; sched_remove_thread 24;; sched_schedule) three_queued = Done (Some 24, s) ∧
    th_status s !! 24 = Some THREAD_DEAD.
Proof. eexists. split; vm_compute; reflexivity. Qed.

(** The processor with the fewest threads is chosen. *)
Lemma least_loaded_ok active i dest min :
  let r := least_loaded i dest min active in
  (r = dest ∧ Forall (λ n, min <= n) active) ∨
  (∃ k n, r = i + Z.of_nat k ∧ active !! k = Some n ∧ n < min ∧ Forall (λ m, n <= m) active).
Proof.
  revert i dest min. induction active as [|a active IH]; intros i dest min; simpl; [by left|].
  destruct (a <? min) eqn:E.
  - apply Z.ltb_lt in E. right. destruct (IH (i + 1) i a) as [[-> HF]|(k & n & -> & Hk & Hn & HF)].
    + exists O, a. split_and!; [lia|done|done|by constructor; [lia|]].
    + exists (S k), n. split_and!; [lia|done|lia|constructor; [lia|done]].
  - apply Z.ltb_ge in E. destruct (IH (i + 1) dest min) as [[-> HF]|(k & n & -> & Hk & Hn & HF)].
    + left. split; [done|]. by constructor.
    + right. exists (S k), n. split_and!; [lia|done|done|constructor; [lia|done]].
Qed.

(** [thread_add] takes the number of processors itself for one of them. *)
Lemma thread_add_past_end active :
  0 < Z.of_nat (length active) < 2 ^ 32 - 1 →
  thread_add_cpu (Z.of_nat (length active)) active = Z.of_nat (length active).
Proof.
  intros H. unfold thread_add_cpu, SCHED_NO_CPU_PREFERENCE. change (u32 (-1)) with (2 ^ 32 - 1).
  by rewrite (proj2 (Z.eqb_neq _ _)), Z.ltb_irrefl by lia.
Qed.
