(* ===== verification/Futex.v ===== *)
(** * Futex: waiting on words of user memory

    [kernel/futex.cpp], with the hash of [include/onyx/fnv.h], the table of
    [include/onyx/hashtable.hpp], the wait macros of [include/onyx/wait_queue.h] and
    [sched_sleep].  Threads are the addresses of their control blocks.  A thread that waits
    has a [futex_queue] on its stack, which is known by the thread here.  Threads take turns
    as in [Mutex]; the locks of the buckets are explicit, and so are the cursors of a walk
    over a bucket. *)

From S2P Require Import Prelude Abi Interleave Mutex.

Definition ETIMEDOUT : Z := 110.
Definition ENOSYS : Z := 38.
Definition FUTEX_OFFSET_SHARED : Z := 1.
Definition FUTEX_OFFSET_PRIVATE : Z := 2.
Definition FUTEX_WAIT : Z := 0.
Definition FUTEX_WAKE : Z := 1.
Definition FUTEX_REQUEUE : Z := 3.
Definition FUTEX_CMP_REQUEUE : Z := 4.
Definition FUTEX_PRIVATE_FLAG : Z := 128.
Definition FUTEX_CLOCK_REALTIME : Z := 256.
Definition futex_hashtable_buckets : Z := 1024.

(** ** Keys and their hash *)

(** The union, seen as [both]: the two words hold the address space and the pointer, or the
    object and the offset of the page. *)
Record futex_key : Type := FutexKey {
  data0 : Z;
  data1 : Z;
  key_offset : Z
}.

Definition key_eqb (k k' : futex_key) : bool :=
  if negb (key_offset k =? key_offset k') then false
  else (data0 k =? data0 k') && (data1 k =? data1 k').

(** The [n] low bytes of a word, lowest first. *)
Fixpoint le_bytes (n : nat) (x : Z) : list Z :=
  match n with O => [] | S n => Z.land x 255 :: le_bytes n (Z.shiftr x 8) end.

(** The bytes of [both], with its padding. *)
Definition key_bytes (k : futex_key) : list Z :=
  le_bytes 8 (data0 k) ++ le_bytes 8 (data1 k) ++ le_bytes 4 (key_offset k) ++ le_bytes 4 0.

Definition FNV_PRIME : Z := 16777619.
Definition FNV_OFFSET_BASIS : Z := 2166136261.

Fixpoint fnv_hash_cont (data : list Z) (hash : Z) : Z :=
  match data with
  | [] => hash
  | b :: data => fnv_hash_cont data (Z.lxor (u32 (hash * FNV_PRIME)) b)
  end.
Definition fnv_hash (data : list Z) : Z := fnv_hash_cont data FNV_OFFSET_BASIS.

(** [__futex_hash] and [get_hashtable_index]. *)
Definition key_index (k : futex_key) : Z := fnv_hash (key_bytes k) mod futex_hashtable_buckets.

(** ** System calls, up to the locks *)

(** What [get_phys_pages] finds at the address: no access, or a page, whether the mapping is
    shared, and the object and offset of the page cache it belongs to, if any. *)
Inductive user_page : Type :=
  | NoAccess
  | UserPage (shared : bool) (cache : option (Z * Z)).

Definition private_key (as_ uaddr : Z) : futex_key :=
  FutexKey as_ uaddr (Z.lor (Z.land uaddr 4095) FUTEX_OFFSET_PRIVATE).

Definition NS_PER_SEC : Z := 1000000000.

Definition timespec_valid (ts : Z * Z) (may_be_negative : bool) : bool :=
  if NS_PER_SEC <=? ts.2 then false
  else if may_be_negative then true
  else if ts.1 <? 0 then false
  else if ts.2 <? 0 then false
  else true.

Definition calculate_key (as_ uaddr flags : Z) (page : user_page) : Z + futex_key :=
  if has flags FUTEX_PRIVATE_FLAG then inr (private_key as_ uaddr)
  else
    match page with
    | NoAccess => inl (- EFAULT)
    | UserPage true (Some (vmo, page_offset)) =>
        inr (FutexKey vmo page_offset (Z.lor (Z.land uaddr 4095) FUTEX_OFFSET_SHARED))
    | UserPage _ _ => inr (private_key as_ uaddr)
    end.

Inductive futex_call : Type :=
  | Wait (uaddr val : Z) (timed : bool) (key : futex_key)
  | Wake (key : futex_key) (to_wake : Z)
  | Requeue (uaddr : Z) (val3 : option Z) (key1 key2 : futex_key) (to_wake to_requeue : Z).

(** [ts]: what [copy_from_user] yields from a pointer that is not null. *)
Definition wait (as_ uaddr val flags utimespec : Z) (ts : option (Z * Z)) (page : user_page) : Z + futex_call :=
  let has_timeout := truthy utimespec in
  let st :=
    if has_timeout then
      match ts with
      | None => - EFAULT
      | Some ts => if timespec_valid ts false then 0 else - EINVAL
      end
    else 0 in
  if st <? 0 then inl st
  else
    match calculate_key as_ uaddr flags page with
    | inl e => inl e
    | inr key => inr (Wait uaddr val has_timeout key)
    end.

Definition wake (as_ uaddr flags to_wake : Z) (page : user_page) : Z + futex_call :=
  if to_wake <? 0 then inl (- EINVAL)
  else
    match calculate_key as_ uaddr flags page with
    | inl e => inl e
    | inr key => inr (Wake key to_wake)
    end.

(** [requeue] is [cmp_requeue] without [val3]. *)
Definition cmp_requeue (as_ uaddr flags to_wake to_requeue uaddr2 : Z) (val3 : option Z)
    (page page2 : user_page) : Z + futex_call :=
  if (to_wake <? 0) || (to_requeue <? 0) then inl (- EINVAL)
  else
    match calculate_key as_ uaddr flags page with
    | inl e => inl e
    | inr key1 =>
        match calculate_key as_ uaddr2 flags page2 with
        | inl e => inl e
        | inr key2 => inr (Requeue uaddr val3 key1 key2 to_wake to_requeue)
        end
    end.

Definition futex_wake (as_ uaddr nr_waiters : Z) (page : user_page) : Z + futex_call :=
  if has uaddr 3 then inl (- EINVAL) else wake as_ uaddr 0 nr_waiters page.

Definition FUTEX_OP_MASK : Z := Z.lnot (Z.lor FUTEX_PRIVATE_FLAG FUTEX_CLOCK_REALTIME).
Definition get_val2 (t : Z) : Z := i32 t.

Definition sys_futex (as_ uaddr futex_op val timeout uaddr2 val3 : Z) (ts : option (Z * Z))
    (page page2 : user_page) : Z + futex_call :=
  let flags := Z.land futex_op (Z.lnot FUTEX_OP_MASK) in
  let op := Z.land futex_op FUTEX_OP_MASK in
  if has flags (Z.lnot FUTEX_PRIVATE_FLAG) then inl (- EINVAL)
  else if has uaddr 3 then inl (- EINVAL)
  else if op =? FUTEX_WAIT then wait as_ uaddr val flags timeout ts page
  else if op =? FUTEX_WAKE then wake as_ uaddr flags val page
  else if op =? FUTEX_CMP_REQUEUE then
    cmp_requeue as_ uaddr flags val (get_val2 timeout) uaddr2 (Some val3) page page2
  else if op =? FUTEX_REQUEUE then
    cmp_requeue as_ uaddr flags val (get_val2 timeout) uaddr2 None page page2
  else inl (- ENOSYS).

(** ** The table *)

(** [fq_token]: the token of the thread is in the wait queue of its entry. *)
Record futex_queue : Type := FutexQueue {
  fq_key : futex_key;
  awaken : bool;
  fq_token : bool
}.

(** The buckets and the holders of their locks, by index; the entries, by thread; the words
    of user memory, where there is memory; the status of the threads. *)
Record futexes : Type := Futexes {
  buckets : gmap Z (list Z);
  bucket_locks : gmap Z Z;
  entries : gmap Z futex_queue;
  user_words : gmap Z Z;
  fu_status : gmap Z Z
}.

Definition bucket (i : Z) (m : futexes) : list Z := default [] (buckets m !! i).
Definition fu_thread_status (m : futexes) (t : Z) : Z := default THREAD_RUNNABLE (fu_status m !! t).

Definition set_bucket (i : Z) (l : list Z) (m : futexes) : futexes :=
  Futexes (<[i := l]> (buckets m)) (bucket_locks m) (entries m) (user_words m) (fu_status m).
Definition set_bucket_locks (x : gmap Z Z) (m : futexes) : futexes :=
  Futexes (buckets m) x (entries m) (user_words m) (fu_status m).
Definition set_entries (x : gmap Z futex_queue) (m : futexes) : futexes :=
  Futexes (buckets m) (bucket_locks m) x (user_words m) (fu_status m).
Definition set_entry (t : Z) (q : futex_queue) (m : futexes) : futexes :=
  set_entries (<[t := q]> (entries m)) m.
Definition set_user_word (a v : Z) (m : futexes) : futexes :=
  Futexes (buckets m) (bucket_locks m) (entries m) (<[a := v]> (user_words m)) (fu_status m).
Definition set_fu_state (t x : Z) (m : futexes) : futexes :=
  Futexes (buckets m) (bucket_locks m) (entries m) (user_words m) (<[t := x]> (fu_status m)).

(** [list_remove] of the entry of a thread, whatever list it is in. *)
Definition unlink_entry (t : Z) (m : futexes) : futexes :=
  Futexes (filter (λ u, u ≠ t) <$> buckets m) (bucket_locks m) (entries m) (user_words m) (fu_status m).

Definition set_token (b : bool) (q : futex_queue) : futex_queue := FutexQueue (fq_key q) (awaken q) b.
Definition set_awaken (q : futex_queue) : futex_queue := FutexQueue (fq_key q) true (fq_token q).
Definition set_key (k : futex_key) (q : futex_queue) : futex_queue := FutexQueue k (awaken q) (fq_token q).

(** ** Program points *)

(** The locks of a call, in the order in which [get_hashtable] or [lock_two_hashes] takes
    them. *)
Definition locks_of (c : futex_call) : list Z :=
  match c with
  | Wait _ _ _ key | Wake key _ => [key_index key]
  | Requeue _ _ key1 key2 _ _ =>
      let index1 := key_index key1 in
      let index2 := key_index key2 in
      if index1 <? index2 then [index1; index2]
      else if index2 <? index1 then [index2; index1]
      else [index1]
  end.

(** The key whose bucket a call works on. *)
Definition call_key (c : futex_call) : futex_key :=
  match c with Wait _ _ _ key | Wake key _ | Requeue _ _ key _ _ _ => key end.

(** The walk over a bucket: the entry it is at and the one that follows ([None]: the end),
    how many are left to wake and to requeue, and how many have been. *)
Record walk : Type := Walk {
  w_cur : option Z;
  w_next : option Z;
  w_wake : Z;
  w_requeue : Z;
  w_woken : Z;
  w_requeued : Z
}.

(** In the wait macro: before the loop; its body, with [sched_sleep] at [AtArm], [AtCheck]
    and [AtSleep]; its end; and the end of [wait]. *)
Inductive waitpoint : Type :=
  | AtState
  | AtAdd | AtCond | AtDrop
  | AtArm | AtCheck | AtSleep
  | AtRetake (timeout_is_0 : bool)
  | AtRemove
  | AtOut (st : Z) | AtRunnable (st : Z)
  | AtLeave (st : Z).

Inductive fupoint : Type :=
  | FuIdle (ret : Z)
  | FuLock (c : futex_call) (held todo : list Z)
  | FuEnter (c : futex_call)
  | Waiting (i : Z) (timed : bool) (p : waitpoint)
  | FuWalk (c : futex_call) (w : walk)
  | FuWakeAll (c : futex_call) (w : walk) (t : Z)
  | FuUnlock (held : list Z) (st : Z).

Definition take_lock (t i : Z) (p : fupoint) (m : futexes) : turn fupoint futexes :=
  match bucket_locks m !! i with
  | None => Next p (set_bucket_locks (<[i := t]> (bucket_locks m)) m)
  | Some _ => Blocked
  end.

(** The end of a call: [spin_unlock] or [unlock_two_hashes], last lock first. *)
Definition unlock_hashes (held : list Z) (st : Z) (m : futexes) : turn fupoint futexes :=
  match held with
  | [] => Next (FuIdle st) m
  | i :: held => Next (FuUnlock held st) (set_bucket_locks (delete i (bucket_locks m)) m)
  end.

(** ** Under the locks *)

Definition start_walk (l : list Z) (to_wake to_requeue : Z) : walk :=
  Walk (head l) (head (tail l)) to_wake to_requeue 0 0.

(** The word is compared, and the call begins. *)
Definition futex_enter (t : Z) (c : futex_call) (m : futexes) : turn fupoint futexes :=
  let i := key_index (call_key c) in
  let out st := Next (FuUnlock (rev (locks_of c)) st) m in
  match c with
  | Wait uaddr val timed key =>
      match user_words m !! uaddr with
      | None => out (- EFAULT)
      | Some curr_val =>
          if negb (curr_val =? u32 val) then out (- EAGAIN)
          else
            Next (Waiting i timed AtState)
              (set_bucket i (bucket i m ++ [t]) (set_entry t (FutexQueue key false false) m))
      end
  | Wake key to_wake => Next (FuWalk c (start_walk (bucket i m) to_wake 0)) m
  | Requeue uaddr None key1 key2 to_wake to_requeue =>
      Next (FuWalk c (start_walk (bucket i m) to_wake to_requeue)) m
  | Requeue uaddr (Some val3) key1 key2 to_wake to_requeue =>
      match user_words m !! uaddr with
      | None => out (- EFAULT)
      | Some on_uaddr =>
          if negb (on_uaddr =? u32 val3) then out (- EAGAIN)
          else Next (FuWalk c (start_walk (bucket i m) to_wake to_requeue)) m
      end
  end.

(** The entry behind [t] in a list; nothing if [t] is not there. *)
Fixpoint successor (t : Z) (l : list Z) : option (option Z) :=
  match l with
  | [] => None
  | u :: l => if u =? t then Some (head l) else successor t l
  end.

(** The step of [list_for_every_safe]. *)
Definition advance (c : futex_call) (w : walk) (m : futexes) : turn fupoint futexes :=
  let go n := Next (FuWalk c (Walk (w_next w) n (w_wake w) (w_requeue w) (w_woken w) (w_requeued w))) m in
  match w_next w with
  | None => go None
  | Some u =>
      match successor u (bucket (key_index (call_key c)) m) with
      | Some n => go n
      | None => Crash UseAfterFree
      end
  end.

Definition walk_result (c : futex_call) (w : walk) : Z :=
  match c with
  | Requeue _ (Some _) _ _ _ _ => w_woken w + w_requeued w
  | _ => w_woken w
  end.

(** One turn of the loop of [wake] or [cmp_requeue].  [futex_queue::wake] unlinks the entry,
    marks it and then wakes its wait queue; [futex_queue::requeue] moves it to the front. *)
Definition futex_walk (c : futex_call) (w : walk) (m : futexes) : turn fupoint futexes :=
  let out := Next (FuUnlock (rev (locks_of c)) (walk_result c w)) m in
  match w_cur w with
  | None => out
  | Some t =>
      if (w_wake w =? 0) && (w_requeue w =? 0) then out
      else
        match entries m !! t with
        | None => Crash UseAfterFree
        | Some q =>
            if negb (key_eqb (fq_key q) (call_key c)) then advance c w m
            else if 0 <? w_wake w then
              Next (FuWakeAll c
                     (Walk (w_cur w) (w_next w) (w_wake w - 1) (w_requeue w) (w_woken w + 1) (w_requeued w)) t)
                (set_entry t (set_awaken q) (unlink_entry t m))
            else
              match c with
              | Requeue _ _ _ key2 _ _ =>
                  let m1 := unlink_entry t (set_entry t (set_key key2 q) m) in
                  advance c
                    (Walk (w_cur w) (w_next w) (w_wake w) (w_requeue w - 1) (w_woken w) (w_requeued w + 1))
                    (set_bucket (key_index key2) (t :: bucket (key_index key2) m1) m1)
              | _ => Crash Unreachable
              end
        end
  end.

(** [wait_queue_wake_all] on the entry of [t], and the step of the loop. *)
Definition wake_entry (c : futex_call) (w : walk) (t : Z) (m : futexes) : turn fupoint futexes :=
  match entries m !! t with
  | None => Crash UseAfterFree
  | Some q =>
      advance c w
        (if fq_token q then set_fu_state t THREAD_RUNNABLE (set_entry t (set_token false q) m) else m)
  end.

(** ** Waiting *)

(** [futex_queue::wait] and the end of [wait]: the entry is gone after the last turn. *)
Definition futex_wait (sig expired : bool) (t i : Z) (timed : bool) (p : waitpoint) (m : futexes)
    : turn fupoint futexes :=
  let go p := Waiting i timed p in
  match entries m !! t with
  | None => Crash UseAfterFree
  | Some q =>
      match p with
      | AtState =>
          if awaken q then Next (go (AtLeave 0)) m
          else Next (go AtAdd) (set_fu_state t THREAD_INTERRUPTIBLE m)
      | AtAdd => Next (go AtCond) (set_entry t (set_token true q) m)
      | AtCond =>
          if awaken q then Next (go (AtOut 0)) m
          else if sig then Next (go (AtOut (- EINTR))) m
          else Next (go AtDrop) m
      | AtDrop =>
          Next (go (if timed then AtArm else AtSleep)) (set_bucket_locks (delete i (bucket_locks m)) m)
      | AtArm =>
          Next (go AtCheck)
            (if fu_thread_status m t =? THREAD_RUNNABLE then set_fu_state t THREAD_INTERRUPTIBLE m else m)
      | AtCheck =>
          Next (go (if negb (fu_thread_status m t =? THREAD_INTERRUPTIBLE) || negb sig
                    then AtSleep else AtRetake expired)) m
      | AtSleep =>
          if fu_thread_status m t =? THREAD_RUNNABLE then Next (go (AtRetake (timed && expired))) m
          else Blocked
      | AtRetake timeout_is_0 =>
          take_lock t i (go (if timeout_is_0 then AtOut (- ETIMEDOUT) else AtRemove)) m
      | AtRemove => Next (go AtAdd) (set_entry t (set_token false q) m)
      | AtOut st => Next (go (AtRunnable st)) (set_entry t (set_token false q) m)
      | AtRunnable st => Next (go (AtLeave st)) (set_fu_state t THREAD_RUNNABLE m)
      | AtLeave st =>
          let m1 := if awaken q then m else unlink_entry t m in
          Next (FuUnlock [i] st) (set_entries (delete t (entries m1)) m1)
      end
  end.

(** What happens at a turn: a call by a thread of address space [as_], [futex_wake] of the
    kernel, a store by a program, or a thread going on; whether a signal is pending and
    whether the time is over is up to the world.  A signal or a timer may wake a thread that
    sleeps. *)
Inductive fuevent : Type :=
  | CallFutex (as_ uaddr futex_op val timeout uaddr2 val3 : Z) (ts : option (Z * Z)) (page page2 : user_page)
  | CallFutexWake (as_ uaddr nr_waiters : Z) (page : user_page)
  | Store (uaddr v : Z)
  | Disturb
  | FuGo (signal_pending expired : bool).

Definition begin_call (r : Z + futex_call) (p : fupoint) (m : futexes) : turn fupoint futexes :=
  match p with
  | FuIdle _ =>
      match r with
      | inl e => Next (FuIdle e) m
      | inr c => Next (FuLock c [] (locks_of c)) m
      end
  | _ => Blocked
  end.

Definition futex_act (e : fuevent) (t : Z) (p : fupoint) (m : futexes) : turn fupoint futexes :=
  match e with
  | CallFutex as_ uaddr op val timeout uaddr2 val3 ts page page2 =>
      begin_call (sys_futex as_ uaddr op val timeout uaddr2 val3 ts page page2) p m
  | CallFutexWake as_ uaddr nr page => begin_call (futex_wake as_ uaddr nr page) p m
  | Store uaddr v =>
      match p with FuIdle _ => Next p (set_user_word uaddr (u32 v) m) | _ => Blocked end
  | Disturb =>
      if fu_thread_status m t =? THREAD_INTERRUPTIBLE
      then Next p (set_fu_state t THREAD_RUNNABLE m) else Blocked
  | FuGo sig expired =>
      match p with
      | FuIdle _ => Blocked
      | FuLock c held [] => Next (FuEnter c) m
      | FuLock c held (i :: todo) => take_lock t i (FuLock c (i :: held) todo) m
      | FuEnter c => futex_enter t c m
      | Waiting i timed p => futex_wait sig expired t i timed p m
      | FuWalk c w => futex_walk c w m
      | FuWakeAll c w u => wake_entry c w u m
      | FuUnlock held st => unlock_hashes held st m
      end
  end.
