(* ===== verification/FutexProps.v ===== *)
(** * FutexProps: the bucket locks, and who is woken *)

From Stdlib Require Import Sorted.
From S2P Require Import Prelude Abi Interleave Mutex Futex.

#[local] Opaque key_index.

(** ** The locks of the buckets *)

(** The thread is in a critical section of [wait]. *)
Definition inside (p : waitpoint) : bool :=
  match p with AtArm | AtCheck | AtSleep | AtRetake _ => false | _ => true end.

Definition held (p : fupoint) : list Z :=
  match p with
  | FuIdle _ => []
  | FuLock _ h _ | FuUnlock h _ => h
  | Waiting i _ p => if inside p then [i] else []
  | FuEnter c | FuWalk c _ | FuWakeAll c _ _ => locks_of c
  end.

Definition lock_shape (p : fupoint) : Prop :=
  match p with
  | FuLock c h todo => rev h ++ todo = locks_of c
  | FuUnlock h _ => NoDup h
  | _ => True
  end.

Record locked (s : system fupoint futexes) : Prop := {
  k_held : ∀ t p i, points s !! t = Some p → bucket_locks (shared s) !! i = Some t ↔ i ∈ held p;
  k_shape : ∀ t p, points s !! t = Some p → lock_shape p;
  k_known : ∀ i t, bucket_locks (shared s) !! i = Some t → is_Some (points s !! t)
}.

(** Two threads never hold the same lock. *)
Lemma locked_exclusive s t u p d i :
  locked s → points s !! t = Some p → points s !! u = Some d → i ∈ held p → i ∈ held d → t = u.
Proof.
  intros HL Ht Hu Hi Hj. apply (k_held _ HL t p i Ht) in Hi. apply (k_held _ HL u d i Hu) in Hj. congruence.
Qed.

Lemma locks_of_sorted c : StronglySorted Z.lt (locks_of c).
Proof.
  destruct c as [| |? ? key1 key2]; simpl; [by repeat constructor..|].
  destruct (key_index key1 <? key_index key2) eqn:E1; [apply Z.ltb_lt in E1; by repeat constructor|].
  destruct (key_index key2 <? key_index key1) eqn:E2; [apply Z.ltb_lt in E2|]; by repeat constructor.
Qed.

Lemma sorted_nodup l : StronglySorted Z.lt l → NoDup l.
Proof.
  induction 1 as [|x l _ IH Hx]; constructor; [|done].
  rewrite list.Forall_forall in Hx. intros Hin%Hx. lia.
Qed.

Lemma nodup_locks_rev c : NoDup (rev (locks_of c)).
Proof.
  pose proof (sorted_nodup _ (locks_of_sorted c)) as Hn. apply NoDup_ListNoDup, List.NoDup_rev, NoDup_ListNoDup, Hn.
Qed.

Lemma elem_of_rev_iff {A} (x : A) l : x ∈ rev l ↔ x ∈ l.
Proof. rewrite !list_elem_of_In. symmetry. apply List.in_rev. Qed.

(** A turn that leaves the locks alone. *)
Lemma locked_same s t p m' p' :
  locked s → points s !! t = Some p → bucket_locks m' = bucket_locks (shared s) →
  (∀ i, i ∈ held p' ↔ i ∈ held p) → lock_shape p' →
  locked (System m' (<[t := p']> (points s))).
Proof.
  intros HL Ht Em Eh Hs. split; simpl.
  - intros u d i [[<- <-]|[Hne Hu]]%lookup_insert_Some; rewrite Em.
    + rewrite Eh. by apply HL.
    + by apply HL.
  - intros u d [[<- <-]|[Hne Hu]]%lookup_insert_Some; [done|]. by eapply HL.
  - intros i u Hi. rewrite Em in Hi. apply HL in Hi. apply lookup_insert_is_Some'. tauto.
Qed.

Lemma locked_take s t p m' p' i :
  locked s → points s !! t = Some p → bucket_locks (shared s) !! i = None →
  bucket_locks m' = <[i := t]> (bucket_locks (shared s)) →
  (∀ j, j ∈ held p' ↔ j = i ∨ j ∈ held p) → lock_shape p' →
  locked (System m' (<[t := p']> (points s))).
Proof.
  intros HL Ht Hi Em Eh Hs. split; simpl.
  - intros u d j [[<- <-]|[Hne Hu]]%lookup_insert_Some; rewrite Em, lookup_insert_Some.
    + rewrite Eh, <-(k_held _ HL t p j Ht). split; [by intros [[<- _]|[_ ?]]; auto|].
      intros [->|Hj]; [by left|]. right. split; [congruence|done].
    + rewrite <-(k_held _ HL u d j Hu). split; [intros [[_ ?]|[_ ?]]; done|]. intros Hj. right. split; [congruence|done].
  - intros u d [[<- <-]|[Hne Hu]]%lookup_insert_Some; [done|]. by eapply HL.
  - intros j u. rewrite Em. intros [[<- <-]|[_ Hj]]%lookup_insert_Some; apply lookup_insert_is_Some'; [by left|].
    apply HL in Hj. tauto.
Qed.

Lemma locked_drop s t p m' p' i :
  locked s → points s !! t = Some p → i ∈ held p →
  bucket_locks m' = delete i (bucket_locks (shared s)) →
  (∀ j, j ∈ held p' ↔ j ≠ i ∧ j ∈ held p) → lock_shape p' →
  locked (System m' (<[t := p']> (points s))).
Proof.
  intros HL Ht Hi Em Eh Hs. apply (k_held _ HL t p i Ht) in Hi. split; simpl.
  - intros u d j [[<- <-]|[Hne Hu]]%lookup_insert_Some; rewrite Em, lookup_delete_Some.
    + rewrite Eh, <-(k_held _ HL t p j Ht). split; intros [? ?]; by split; [congruence|].
    + rewrite <-(k_held _ HL u d j Hu). split; [by intros [_ ?]|]. intros Hj. split; [congruence|done].
  - intros u d [[<- <-]|[Hne Hu]]%lookup_insert_Some; [done|]. by eapply HL.
  - intros j u. rewrite Em. intros [_ Hj]%lookup_delete_Some. apply lookup_insert_is_Some'. apply HL in Hj. tauto.
Qed.

Lemma advance_next c w m p' m' :
  advance c w m = Next p' m' → m' = m ∧ ∃ w', p' = FuWalk c w'.
Proof. unfold advance. intros E. repeat case_match; try done; injection E as <- <-; eauto. Qed.

Lemma take_lock_next t i p m p' m' :
  take_lock t i p m = Next p' m' →
  p' = p ∧ bucket_locks m !! i = None ∧ m' = set_bucket_locks (<[i := t]> (bucket_locks m)) m.
Proof. unfold take_lock. case_match; intros E; [done|]. by injection E as <- <-. Qed.

(** What a turn of a waiting thread does to the locks. *)
Lemma futex_wait_locked s t i timed wp sig ex p' m' :
  locked s → points s !! t = Some (Waiting i timed wp) →
  futex_wait sig ex t i timed wp (shared s) = Next p' m' →
  locked (System m' (<[t := p']> (points s))).
Proof.
  intros HL Ht. unfold futex_wait. destruct (entries (shared s) !! t) as [q|]; [|done].
  destruct wp; intros E; try (repeat case_match; try done; injection E as <- <-; by eapply locked_same).
  - injection E as <- <-. destruct timed; eapply locked_drop; [done|exact Ht|by left|done| |done|done|exact Ht|by left|done| |done];
      intros j; simpl; rewrite list_elem_of_singleton; split; [by intros ?%not_elem_of_nil|tauto|by intros ?%not_elem_of_nil|tauto].
  - apply take_lock_next in E as (-> & Hi & ->). eapply locked_take; [done|exact Ht|exact Hi|done| |done].
    intros j. simpl. destruct timeout_is_0; simpl;
      (split; [intros ->%list_elem_of_singleton; by left|intros [->|?%not_elem_of_nil]; [by left|done]]).
  - injection E as <- <-. eapply locked_same; [done|exact Ht|by destruct (awaken q)|done|apply NoDup_singleton].
Qed.

Lemma locked_step e s t p p' m' :
  locked s → points s !! t = Some p → futex_act e t p (shared s) = Next p' m' →
  locked (System m' (<[t := p']> (points s))).
Proof.
  intros HL Ht E. destruct e as [| | | |sig ex]; simpl in E.
  1,2: unfold begin_call in E; destruct p; try done; case_match; injection E as <- <-; by eapply locked_same.
  1: destruct p; try done; injection E as <- <-; by eapply locked_same.
  1: case_match; [|done]; injection E as <- <-; eapply locked_same; [done|exact Ht|done|done|]; by eapply HL.
  pose proof (k_shape _ HL t p Ht) as Hs. destruct p as [|c h [|i todo]|c|i timed wp|c w|c w u|h st]; simpl in Hs.
  - done.
  - injection E as <- <-. eapply locked_same; [done|exact Ht|done| |done]. intros j. simpl.
    rewrite app_nil_r in Hs. by rewrite <-Hs, elem_of_rev_iff.
  - apply take_lock_next in E as (-> & Hi & ->). eapply locked_take; [done|exact Ht|exact Hi|done| |].
    + intros j. simpl. by rewrite list.elem_of_cons.
    + simpl. by rewrite <-app_assoc.
  - assert (bucket_locks m' = bucket_locks (shared s) ∧ (∀ j, j ∈ held p' ↔ j ∈ locks_of c) ∧ lock_shape p') as (Hm & Hh & Hp).
    { unfold futex_enter in E. pose proof (nodup_locks_rev c). pose proof (λ j, elem_of_rev_iff j (locks_of c)).
      repeat case_match; injection E as <- <-; done. }
    by eapply locked_same.
  - by eapply futex_wait_locked.
  - assert (bucket_locks m' = bucket_locks (shared s) ∧ (∀ j, j ∈ held p' ↔ j ∈ locks_of c) ∧ lock_shape p') as (Hm & Hh & Hp).
    { unfold futex_walk in E. pose proof (nodup_locks_rev c). pose proof (λ j, elem_of_rev_iff j (locks_of c)).
      repeat case_match; try done; try (apply advance_next in E as (-> & w' & ->); done); injection E as <- <-; done. }
    by eapply locked_same.
  - unfold wake_entry in E. destruct (entries (shared s) !! u) as [q|]; [|done].
    apply advance_next in E as (-> & w' & ->). eapply locked_same; [done|exact Ht|by destruct (fq_token q)|done|done].
  - destruct h as [|i h]; injection E as <- <-; [by eapply locked_same|].
    apply list.NoDup_cons in Hs as [Hi Hn]. eapply locked_drop; [done|exact Ht|by left|done| |done].
    intros j. simpl. rewrite list.elem_of_cons. split; [|tauto]. intros Hj. split; [|by right]. by intros ->.
Qed.

Definition fu_start (words : gmap Z Z) (pts : gmap Z fupoint) : system fupoint futexes :=
  System (Futexes ∅ ∅ ∅ words ∅) pts.

(** All threads are outside. *)
Definition all_idle (pts : gmap Z fupoint) : Prop := ∀ t p, pts !! t = Some p → ∃ r, p = FuIdle r.

Lemma locked_start words pts : all_idle pts → locked (fu_start words pts).
Proof.
  intros Hi. split; simpl.
  - intros t p i (r & ->)%Hi. split; [done|by intros ?%not_elem_of_nil].
  - by intros t p (r & ->)%Hi.
  - done.
Qed.

(** A state in which no thread can go on, whatever the world does. *)
Definition fu_stuck (s : system fupoint futexes) : Prop :=
  ∀ t p sig ex, points s !! t = Some p → futex_act (FuGo sig ex) t p (shared s) = Blocked.

Lemma execute_locked sched s s' : locked s → execute futex_act sched s = Some (Done s') → locked s'.
Proof.
  revert s. induction sched as [|[t e] sched IH]; simpl; intros s HL; [by intros [= <-]|].
  unfold move. destruct (points s !! t) as [p|] eqn:Ht; [|done].
  destruct (futex_act e t p (shared s)) as [|p' m'|] eqn:E; [done| |done].
  apply IH. by eapply locked_step.
Qed.

(** The largest key of a map. *)
Lemma map_largest {A} (m : gmap Z A) :
  m = ∅ ∨ ∃ i x, m !! i = Some x ∧ ∀ j y, m !! j = Some y → j <= i.
Proof.
  induction m as [|k x m Hk IH] using map_ind; [by left|]. right. destruct IH as [->|(i & y & Hi & Hmax)].
  - exists k, x. split; [apply lookup_insert_eq|]. intros j z [[-> _]|[_ ?]]%lookup_insert_Some; [lia|done].
  - destruct (decide (i <= k)).
    + exists k, x. split; [apply lookup_insert_eq|]. intros j z [[-> _]|[_ Hj]]%lookup_insert_Some; [lia|].
      apply Hmax in Hj. lia.
    + exists i, y. split; [rewrite lookup_insert_ne; [done|lia]|].
      intros j z [[-> _]|[_ Hj]]%lookup_insert_Some; [lia|]. by apply Hmax in Hj.
Qed.

Lemma sorted_before l1 x l2 y : StronglySorted Z.lt (l1 ++ x :: l2) → y ∈ l1 → y < x.
Proof.
  induction l1 as [|z l1 IH]; simpl; [by intros _ ?%not_elem_of_nil|].
  intros [Hs Hz]%StronglySorted_inv [->|Hy]%list.elem_of_cons; [|by apply IH].
  rewrite list.Forall_forall in Hz. apply Hz, list.elem_of_app. right. by left.
Qed.

(** A thread that is stuck waits for a lock that is taken, or sleeps. *)
Lemma stuck_point t p m :
  (∀ sig ex, futex_act (FuGo sig ex) t p m = Blocked) →
  (∃ r, p = FuIdle r) ∨
  (∃ c h j todo, p = FuLock c h (j :: todo) ∧ is_Some (bucket_locks m !! j)) ∨
  (∃ i timed b, p = Waiting i timed (AtRetake b) ∧ is_Some (bucket_locks m !! i)) ∨
  (∃ i timed, p = Waiting i timed AtSleep ∧ fu_thread_status m t ≠ THREAD_RUNNABLE).
Proof.
  intros E. specialize (E false false). destruct p as [r|c h [|j todo]|c|i timed wp|c w|c w u|h st]; simpl in E.
  - eauto.
  - done.
  - right. left. exists c, h, j, todo. split; [done|]. unfold take_lock in E. by case_match.
  - unfold futex_enter in E. by repeat case_match.
  - unfold futex_wait in E. destruct (entries m !! t) as [q|]; [|done].
    destruct wp; try (by repeat case_match).
    + do 3 right. exists i, timed. split; [done|]. case_match eqn:Es; [done|]. by apply Z.eqb_neq in Es.
    + do 2 right. left. eexists i, timed, _. split; [done|]. unfold take_lock in E. by case_match.
  - unfold futex_walk, advance in E. by repeat case_match.
  - unfold wake_entry, advance in E. by repeat case_match.
  - by destruct h.
Qed.

(** C26: The locks of the buckets cannot deadlock, whatever calls are made, requeueing
    included: where nobody can go on, no lock is taken, and every thread is outside or
    asleep waiting to be woken. *)
Theorem futex_locks_live words pts sched s :
  all_idle pts → execute futex_act sched (fu_start words pts) = Some (Done s) → fu_stuck s →
  bucket_locks (shared s) = ∅ ∧
  ∀ t p, points s !! t = Some p →
    (∃ r, p = FuIdle r) ∨
    (∃ i timed, p = Waiting i timed AtSleep ∧ fu_thread_status (shared s) t ≠ THREAD_RUNNABLE).
Proof.
  intros Hidle He Hst. assert (locked s) as HL by (eapply execute_locked; [by apply locked_start|exact He]).
  assert (bucket_locks (shared s) = ∅) as E0.
  { destruct (map_largest (bucket_locks (shared s))) as [?|(i & t & Hi & Hmax)]; [done|].
    destruct (k_known _ HL i t Hi) as [p Hp]. pose proof (proj1 (k_held _ HL t p i Hp) Hi) as Hin.
    destruct (stuck_point t p (shared s)) as [[r ->]|[(c & h & j & todo & -> & [u Hj])|[(k & td & b & -> & _)|(k & td & -> & _)]]];
      [by intros; apply Hst|by apply not_elem_of_nil in Hin| |by apply not_elem_of_nil in Hin..].
    pose proof (k_shape _ HL t _ Hp) as Hsh. simpl in Hsh, Hin. pose proof (locks_of_sorted c) as Hso. rewrite <-Hsh in Hso.
    apply elem_of_rev_iff in Hin. pose proof (sorted_before _ _ _ _ Hso Hin). apply Hmax in Hj. lia. }
  split; [done|]. intros t p Hp.
  destruct (stuck_point t p (shared s)) as [?|[(c & h & j & todo & -> & Hj)|[(k & td & b & -> & Hj)|?]]]; [by intros; apply Hst|auto| |by rewrite E0 in Hj; destruct Hj|auto].
  rewrite E0 in Hj. by destruct Hj.
Qed.

(** ** Without requeueing *)

(** [k] is the key of the entry of [x]. *)
Definition has_key (m : futexes) (k : futex_key) (x : Z) : bool :=
  match entries m !! x with Some q => key_eqb (fq_key q) k | None => false end.

Definition runnable (m : futexes) (t : Z) : Prop := fu_thread_status m t = THREAD_RUNNABLE.

Definition wait_ok (m : futexes) (t : Z) (timed : bool) (p : waitpoint) (q : futex_queue) : Prop :=
  match p with
  | AtState => awaken q = false
  | AtCond => fq_token q = true
  | AtDrop => fq_token q = true ∧ awaken q = false
  | AtArm | AtCheck => timed = true
  | AtSleep => timed = true ∨ fq_token q = true ∨ runnable m t
  | _ => True
  end.

(** The calls that do not move entries. *)
Definition simple (c : futex_call) : Prop :=
  match c with Requeue _ _ _ _ _ _ => False | _ => True end.

(** The walk stands at an entry and has passed no entry with the key, or is between two. *)
Definition walk_at (c : futex_call) (w : walk) (m : futexes) : Prop :=
  match w_cur w with
  | None => w_next w = None ∧ ∀ x, x ∈ bucket (key_index (call_key c)) m → has_key m (call_key c) x = false
  | Some x => ∃ pre post, bucket (key_index (call_key c)) m = pre ++ x :: post ∧ w_next w = head post ∧
      ∀ y, y ∈ pre → has_key m (call_key c) y = false
  end.
Definition walk_past (c : futex_call) (w : walk) (m : futexes) : Prop :=
  ∃ pre post, bucket (key_index (call_key c)) m = pre ++ post ∧ w_next w = head post ∧
    ∀ y, y ∈ pre → has_key m (call_key c) y = false.

Definition walk_counts (c : futex_call) (w : walk) : Prop :=
  match c with
  | Wake _ n => w_requeue w = 0 ∧ w_requeued w = 0 ∧ 0 <= w_wake w ∧ w_woken w + w_wake w = n
  | _ => False
  end.

(** The entry of [x] has been taken out to be woken, under the lock of [k]. *)
Definition marked (m : futexes) (k : futex_key) (x : Z) : Prop :=
  ∃ q, entries m !! x = Some q ∧ awaken q = true ∧ key_index (fq_key q) = key_index k.

Definition point_ok (m : futexes) (t : Z) (p : fupoint) : Prop :=
  match p with
  | FuIdle _ | FuUnlock _ _ => entries m !! t = None
  | FuLock c _ _ | FuEnter c => entries m !! t = None ∧ simple c ∧ match c with Wake _ n => 0 <= n | _ => True end
  | Waiting i timed p => ∃ q, entries m !! t = Some q ∧ key_index (fq_key q) = i ∧ wait_ok m t timed p q
  | FuWalk c w => entries m !! t = None ∧ walk_counts c w ∧ walk_at c w m
  | FuWakeAll c w x => entries m !! t = None ∧ walk_counts c w ∧ walk_past c w m ∧ marked m (call_key c) x
  end.

(** A bucket holds those who wait for its keys and have not been taken out. *)
Record shelved (m : futexes) : Prop := {
  b_in : ∀ i x, x ∈ bucket i m ↔ ∃ q, entries m !! x = Some q ∧ awaken q = false ∧ key_index (fq_key q) = i;
  b_nodup : ∀ i, NoDup (bucket i m)
}.

(** Whoever has been taken out and sleeps without a timeout is about to be woken. *)
Definition to_be_woken (m : futexes) (pts : gmap Z fupoint) (t : Z) : Prop :=
  runnable m t ∨ ∃ u c w, pts !! u = Some (FuWakeAll c w t).
Definition none_lost (m : futexes) (pts : gmap Z fupoint) : Prop :=
  ∀ t i q, pts !! t = Some (Waiting i false AtSleep) → entries m !! t = Some q → awaken q = true →
    to_be_woken m pts t.

Record tidy (s : system fupoint futexes) : Prop := {
  t_locked : locked s;
  t_points : ∀ t p, points s !! t = Some p → point_ok (shared s) t p;
  t_known : ∀ t q, entries (shared s) !! t = Some q → is_Some (points s !! t);
  t_shelved : shelved (shared s);
  t_woken : none_lost (shared s) (points s)
}.

(** ** How the changes look to the other threads *)

Lemma bucket_set i l m j : bucket j (set_bucket i l m) = if decide (i = j) then l else bucket j m.
Proof.
  unfold bucket. simpl. case_decide as E; [subst; by rewrite lookup_insert_eq|by rewrite lookup_insert_ne].
Qed.

Lemma bucket_unlink t m j : bucket j (unlink_entry t m) = filter (λ u, u ≠ t) (bucket j m).
Proof. unfold bucket. simpl. rewrite lookup_fmap. by destruct (buckets m !! j). Qed.

(** The bucket of a walk and the keys of its entries are as before. *)
Definition untouched (i : Z) (m m' : futexes) : Prop :=
  bucket i m' = bucket i m ∧ ∀ x, x ∈ bucket i m → fq_key <$> entries m' !! x = fq_key <$> entries m !! x.

Lemma untouched_key i m m' k x : untouched i m m' → x ∈ bucket i m → has_key m' k x = has_key m k x.
Proof.
  intros [_ Hk] Hx. apply Hk in Hx. unfold has_key.
  destruct (entries m' !! x), (entries m !! x); simplify_eq/=; congruence.
Qed.

Lemma walk_at_other c w m m' : untouched (key_index (call_key c)) m m' → walk_at c w m → walk_at c w m'.
Proof.
  intros HU. pose proof (proj1 HU) as Eb. unfold walk_at. rewrite Eb. destruct (w_cur w) as [x|].
  - intros (pre & post & El & Hn & Hp). exists pre, post. split_and!; [done|done|]. intros y Hy.
    rewrite (untouched_key _ _ _ _ _ HU); [by apply Hp|]. rewrite El. apply list.elem_of_app. by left.
  - intros [Hn Hp]. split; [done|]. intros y Hy. rewrite (untouched_key _ _ _ _ _ HU); [by apply Hp|done].
Qed.

Lemma walk_past_other c w m m' : untouched (key_index (call_key c)) m m' → walk_past c w m → walk_past c w m'.
Proof.
  intros HU (pre & post & El & Hn & Hp). exists pre, post. rewrite (proj1 HU). split_and!; [done|done|]. intros y Hy.
  rewrite (untouched_key _ _ _ _ _ HU); [by apply Hp|]. rewrite El. apply list.elem_of_app. by left.
Qed.

(** What one thread may do while another is at [d]: leave the entry and the status of that
    thread alone, its bucket if it walks, and what it is about to wake. *)
Record keeps (m m' : futexes) (u : Z) (d : fupoint) : Prop := {
  p_entry : entries m' !! u = entries m !! u;
  p_status : runnable m u → runnable m' u;
  p_walk : ∀ i, i ∈ held d → untouched i m m';
  p_mark : ∀ k x, key_index k ∈ held d → marked m k x → marked m' k x
}.

Lemma point_other m m' u d : keeps m m' u d → point_ok m u d → point_ok m' u d.
Proof.
  intros [He Hr Hw Hm]. destruct d as [r|c h todo|c|i timed p|c w|c w x|h st]; simpl in *; rewrite He; try done.
  - intros (q & Hq & Hi & Hok). exists q. split_and!; [done|done|]. destruct p; try done. simpl in *. tauto.
  - intros (? & Hc & Hat). split_and!; [done|done|]. eapply walk_at_other; [|done]. apply Hw. destruct c; [done| |done]. by left.
  - intros (? & Hc & Hat & Hmk). destruct c; [done| |done]. split_and!; [done|done| |].
    + eapply walk_past_other; [|done]. apply Hw. by left.
    + apply Hm; [|done]. by left.
Qed.

(** What a thread at [p] does to its own entry, its own status and the buckets it has locked. *)
Record own (t : Z) (p : fupoint) (m m' : futexes) : Prop := {
  o_entries : ∀ x, x ≠ t → entries m' !! x = entries m !! x;
  o_status : ∀ x, x ≠ t → runnable m x → runnable m' x;
  o_walk : ∀ i, i ∉ held p → untouched i m m';
  o_mark : ∀ k, key_index k ∉ held p → marked m k t → marked m' k t
}.

Lemma own_keeps s t p m' u d :
  tidy s → points s !! t = Some p → own t p (shared s) m' → points s !! u = Some d → u ≠ t → keeps (shared s) m' u d.
Proof.
  intros HT Ht [He Hs Hw Hm] Hu Hne.
  assert (∀ i, i ∈ held d → i ∉ held p) as Hx.
  { intros i Hi Hp. apply Hne. symmetry. by eapply locked_exclusive; [apply HT|..]. }
  split; [by apply He|by apply Hs|intros i Hi; by apply Hw, Hx|].
  intros k x Hk Hmk. destruct (decide (x = t)) as [->|Hxt]; [apply Hm; [by apply Hx|done]|].
  destruct Hmk as (q & Hq & ?). exists q. by rewrite He.
Qed.

Lemma tidy_own s t p m' p' :
  tidy s → points s !! t = Some p → locked (System m' (<[t := p']> (points s))) → own t p (shared s) m' →
  (∀ c w x, p ≠ FuWakeAll c w x) → point_ok m' t p' → shelved m' →
  (∀ i q, p' = Waiting i false AtSleep → entries m' !! t = Some q → awaken q = true → to_be_woken m' (<[t := p']> (points s)) t) →
  tidy (System m' (<[t := p']> (points s))).
Proof.
  intros HT Ht HL Hown Hnw Hp Hsh Hsl. split; simpl; [done| | |done|].
  - intros u d [[<- <-]|[Hne Hu]]%lookup_insert_Some; [done|].
    eapply point_other; [|by apply (t_points _ HT)]. eapply own_keeps; [done|exact Ht|done|exact Hu|congruence].
  - intros u q Hq. apply lookup_insert_is_Some'. destruct (decide (u = t)); [by left|]. right.
    rewrite (o_entries _ _ _ _ Hown) in Hq by done. by eapply t_known.
  - intros u i q [[<- ->]|[Hne Hu]]%lookup_insert_Some Hq Ha; [by eapply Hsl|].
    rewrite (o_entries _ _ _ _ Hown) in Hq by done.
    destruct (t_woken _ HT u i q Hu Hq Ha) as [Hr|(v & c & w & Hv)]; [left; by apply Hown|].
    right. exists v, c, w. apply lookup_insert_Some. right. split; [|done]. intros <-. rewrite Ht in Hv. injection Hv as ->. by eapply Hnw.
Qed.

(** The table does not change. *)
Definition same_table (m m' : futexes) : Prop := buckets m' = buckets m ∧ entries m' = entries m.

Lemma own_same t p m m' : same_table m m' → (∀ x, x ≠ t → runnable m x → runnable m' x) → own t p m m'.
Proof.
  intros [Eb Ee] Hs. split; [by rewrite Ee|done|unfold untouched, bucket; by rewrite Eb, Ee|].
  intros k Hk. unfold marked. by rewrite Ee.
Qed.

Lemma shelved_same m m' : same_table m m' → shelved m → shelved m'.
Proof. intros [Eb Ee] [Hin Hn]. split; unfold bucket in *; [by rewrite Eb, Ee|by rewrite Eb]. Qed.

Lemma set_state_own t x m y : y ≠ t → runnable m y → runnable (set_fu_state t x m) y.
Proof. intros Hy. unfold runnable, fu_thread_status. simpl. by rewrite lookup_insert_ne. Qed.

(** The entry changes in nothing but its token. *)
Lemma own_token t p m q b : entries m !! t = Some q → own t p m (set_entry t (set_token b q) m).
Proof.
  intros Hq. split; [intros x Hx; by apply lookup_insert_ne|done| |].
  - intros i _. split; [done|]. intros x Hx. simpl. destruct (decide (x = t)) as [->|]; [|by rewrite lookup_insert_ne].
    by rewrite lookup_insert_eq, Hq.
  - intros k _ (q' & Hq' & Ha & Hi). exists (set_token b q). simpl. rewrite lookup_insert_eq.
    split; [done|]. by simplify_eq.
Qed.

Lemma shelved_token t m q b : entries m !! t = Some q → shelved m → shelved (set_entry t (set_token b q) m).
Proof.
  intros Hq [Hin Hn]. split; [|exact Hn]. intros i x. change (bucket i _) with (bucket i m). rewrite Hin. simpl.
  destruct (decide (x = t)) as [->|]; [|by rewrite lookup_insert_ne]. rewrite lookup_insert_eq, Hq.
  split; intros (q' & [= <-] & ? & ?); by eexists.
Qed.

(** The entry leaves, under the lock of its bucket. *)
Definition leave (t : Z) (q : futex_queue) (m : futexes) : futexes :=
  let m1 := if awaken q then m else unlink_entry t m in set_entries (delete t (entries m1)) m1.

Lemma filter_absent (t : Z) (l : list Z) : t ∉ l → filter (λ u, u ≠ t) l = l.
Proof.
  induction l as [|x l IH]; [done|]. intros [Hx Hl]%not_elem_of_cons. rewrite filter_cons_True by congruence.
  by rewrite IH.
Qed.

Lemma entries_leave t q m : entries (leave t q m) = delete t (entries m).
Proof. unfold leave. by destruct (awaken q). Qed.

Lemma shelved_key m t q i : shelved m → entries m !! t = Some q → t ∈ bucket i m → awaken q = false ∧ key_index (fq_key q) = i.
Proof. intros HS Hq (q' & Hq' & ? & ?)%(b_in _ HS). by simplify_eq. Qed.

Lemma bucket_leave t q m j :
  shelved m → entries m !! t = Some q → bucket j (leave t q m) = filter (λ u, u ≠ t) (bucket j m).
Proof.
  intros HS Hq. unfold leave. destruct (awaken q) eqn:Ea; [|apply bucket_unlink].
  symmetry. apply filter_absent. intros Hin. destruct (shelved_key _ _ _ _ HS Hq Hin). congruence.
Qed.

Lemma own_leave t timed st m q :
  shelved m → entries m !! t = Some q →
  own t (Waiting (key_index (fq_key q)) timed (AtLeave st)) m (leave t q m).
Proof.
  intros HS Hq. split.
  - intros x Hx. rewrite entries_leave. by apply lookup_delete_ne.
  - intros x _. unfold leave. by destruct (awaken q).
  - intros j Hj. assert (t ∉ bucket j m) as Hn.
    { intros Hin. destruct (shelved_key _ _ _ _ HS Hq Hin) as [_ <-]. apply Hj. by left. }
    split; [by rewrite (bucket_leave t q m j HS Hq), filter_absent|].
    intros x Hx. rewrite entries_leave, lookup_delete_ne; [done|]. by intros ->.
  - intros k Hk (q' & Hq' & _ & E). simplify_eq. exfalso. apply Hk. rewrite <-E. by left.
Qed.

Lemma shelved_leave t q m : shelved m → entries m !! t = Some q → shelved (leave t q m).
Proof.
  intros HS Hq. split; intros i.
  - intros x. rewrite (bucket_leave t q m i HS Hq), list_elem_of_filter, (b_in _ HS), entries_leave.
    setoid_rewrite lookup_delete_Some. split.
    + intros (Hx & q' & ? & ?). exists q'. split; [split; [congruence|done]|done].
    + intros (q' & (? & ?) & ?). split; [congruence|]. by exists q'.
  - rewrite (bucket_leave t q m i HS Hq). apply list.NoDup_filter, HS.
Qed.

(** ** Every turn keeps order *)

Definition good (s : system fupoint futexes) (t : Z) (r : turn fupoint futexes) : Prop :=
  match r with
  | Blocked => True
  | Next p' m' => locked (System m' (<[t := p']> (points s))) → tidy (System m' (<[t := p']> (points s)))
  | Crash _ => False
  end.

Definition asleep (p : fupoint) : bool :=
  match p with Waiting _ timed AtSleep => negb timed | _ => false end.

Lemma tidy_same s t p m' p' :
  tidy s → points s !! t = Some p → locked (System m' (<[t := p']> (points s))) → same_table (shared s) m' →
  (∀ x, x ≠ t → runnable (shared s) x → runnable m' x) → (∀ c w x, p ≠ FuWakeAll c w x) →
  point_ok m' t p' → asleep p' = false → tidy (System m' (<[t := p']> (points s))).
Proof.
  intros HT Ht HL Hm Hs Hp Hp' Ha. eapply tidy_own; try done; [by apply own_same|eapply shelved_same; [done|apply HT]|].
  by intros i q ->.
Qed.

Lemma good_wait s t i timed wp sig ex :
  tidy s → points s !! t = Some (Waiting i timed wp) → good s t (futex_wait sig ex t i timed wp (shared s)).
Proof.
  intros HT Ht. destruct (t_points _ HT _ _ Ht) as (q & Hq & Hi & Hok). unfold futex_wait. rewrite Hq.
  pose proof (own_token t (Waiting i timed wp) (shared s) q) as Hown.
  pose proof (shelved_token t (shared s) q) as Hsh. pose proof (t_shelved _ HT) as HS.
  assert (∀ b wp', asleep (Waiting i timed wp') = false → wait_ok (shared s) t timed wp' (set_token b q) →
    good s t (Next (Waiting i timed wp') (set_entry t (set_token b q) (shared s)))) as Htoken.
  { intros b wp' Ha Hw HL. eapply tidy_own; [done|exact Ht|done|by apply Hown|done| |by apply Hsh|intros ? ? E; by rewrite E in Ha].
    exists (set_token b q). simpl. by rewrite lookup_insert_eq. }
  assert (∀ m' wp', same_table (shared s) m' → (∀ x, x ≠ t → runnable (shared s) x → runnable m' x) →
    asleep (Waiting i timed wp') = false → wait_ok m' t timed wp' q → good s t (Next (Waiting i timed wp') m')) as Hplain.
  { intros m' wp' Hm Hs Ha Hw HL. eapply tidy_same; [done|exact Ht|done|done|done|done| |done].
    exists q. destruct Hm as [_ ->]. done. }
  destruct wp; simpl in Hok.
  - rewrite Hok. apply Hplain; try done. by apply set_state_own.
  - by apply Htoken.
  - destruct (awaken q) eqn:Ea; [by apply Hplain|]. destruct sig; by apply Hplain.
  - intros HL. destruct Hok as [Htk Ha]. destruct timed; [by apply Hplain|].
    eapply tidy_own; [done|exact Ht|done|by apply own_same|done| |by eapply shelved_same; [|exact HS]|].
    + exists q. split_and!; [done|done|]. right. by left.
    + intros j q' _ Hq' Ha'. simpl in Hq'. congruence.
  - destruct (_ =? _); apply Hplain; try done. by apply set_state_own.
  - intros HL. destruct (_ || _).
    + eapply tidy_same; [done|exact Ht|done|done|done|done| |by rewrite Hok]. exists q. split_and!; [done|done|by left].
    + by apply Hplain.
  - destruct (_ =? _); [|done]. by apply Hplain.
  - unfold take_lock. destruct (bucket_locks _ !! i); [done|]. destruct timeout_is_0; by apply Hplain.
  - by apply Htoken.
  - by apply Htoken.
  - apply Hplain; try done. by apply set_state_own.
  - intros HL. rewrite <-Hi in Ht, HL |- *. eapply tidy_own; [done|exact Ht|done|by apply own_leave|done| |by apply shelved_leave|done].
    simpl. apply lookup_delete_eq.
Qed.

(** An entry is added at the end of its bucket, under the lock. *)
Definition enqueue (t : Z) (key : futex_key) (m : futexes) : futexes :=
  let i := key_index key in set_bucket i (bucket i m ++ [t]) (set_entry t (FutexQueue key false false) m).

Lemma bucket_enqueue t key m j :
  bucket j (enqueue t key m) = if decide (key_index key = j) then bucket (key_index key) m ++ [t] else bucket j m.
Proof. unfold enqueue. by rewrite bucket_set. Qed.

Lemma own_enqueue t key m p :
  shelved m → entries m !! t = None → held p = [key_index key] → own t p m (enqueue t key m).
Proof.
  intros HS Hn Hh. split.
  - intros x Hx. by apply lookup_insert_ne.
  - done.
  - intros j Hj. rewrite Hh in Hj. split.
    + rewrite bucket_enqueue, decide_False; [done|]. intros <-. apply Hj. by left.
    + intros x Hx. simpl. rewrite lookup_insert_ne; [done|]. intros <-.
      apply (b_in _ HS) in Hx as (q & Hq & _). congruence.
  - intros k _ (q & Hq & _). congruence.
Qed.

Lemma shelved_enqueue t key m : shelved m → entries m !! t = None → shelved (enqueue t key m).
Proof.
  intros HS Hn. assert (∀ j, t ∉ bucket j m) as Hout.
  { intros j Hin. apply (b_in _ HS) in Hin as (q & Hq & _). congruence. }
  split; intros j.
  - intros x. rewrite bucket_enqueue. simpl. destruct (decide (x = t)) as [->|Hxt].
    + rewrite lookup_insert_eq. split.
      * case_decide as E; [|by intros ?%Hout]. intros _. eexists. split; [done|]. done.
      * intros (q & [= <-] & _ & E). simpl in E. rewrite decide_True by done. apply list.elem_of_app. right. by left.
    + rewrite lookup_insert_ne by congruence. rewrite <-(b_in _ HS). case_decide as E; [subst|done].
      rewrite list.elem_of_app, list_elem_of_singleton. tauto.
  - rewrite bucket_enqueue. case_decide; [|by apply HS]. apply list.NoDup_app.
    split_and!; [by apply HS| |apply NoDup_singleton]. intros x Hx ->%list_elem_of_singleton. by apply Hout in Hx.
Qed.

Lemma good_enter s t c :
  tidy s → points s !! t = Some (FuEnter c) → good s t (futex_enter t c (shared s)).
Proof.
  intros HT Ht. destruct (t_points _ HT _ _ Ht) as (Hn & Hc & Hpos). pose proof (t_shelved _ HT) as HS.
  assert (∀ st, good s t (Next (FuUnlock (rev (locks_of c)) st) (shared s))) as Hout.
  { intros st HL. by eapply tidy_same; [..|exact Hn|]. }
  unfold futex_enter. destruct c as [uaddr val timed key|key n|]; [| |done]; cbn [call_key].
  - destruct (user_words (shared s) !! uaddr) as [v|]; [|apply Hout]. destruct (negb _); [apply Hout|]. intros HL.
    eapply (tidy_own s t _ (enqueue t key (shared s))); [done|exact Ht|done|by apply own_enqueue|done| |by apply shelved_enqueue|done].
    eexists. simpl. rewrite lookup_insert_eq. split_and!; done.
  - intros HL. eapply tidy_same; [done|exact Ht|done|done|done|done| |done]. split_and!; [done|by split_and!|].
    unfold walk_at, start_walk. simpl. destruct (bucket _ _) as [|x l] eqn:El; simpl.
    + split; [done|]. by intros ? ?%not_elem_of_nil.
    + exists [], l. split_and!; [done|done|]. by intros ? ?%not_elem_of_nil.
Qed.

(** ** Walking *)

Lemma successor_app pre x post : x ∉ pre → successor x (pre ++ x :: post) = Some (head post).
Proof.
  induction pre as [|y pre IH]; simpl; [by rewrite Z.eqb_refl|]. intros [Hxy Hx]%not_elem_of_cons.
  rewrite (proj2 (Z.eqb_neq _ _)) by congruence. by apply IH.
Qed.

Lemma advance_ok c w m :
  walk_past c w m → shelved m → walk_counts c w →
  ∃ w', advance c w m = Next (FuWalk c w') m ∧ walk_at c w' m ∧ walk_counts c w' ∧ w_woken w' = w_woken w.
Proof.
  intros (pre & post & El & Hn & Hp) HS Hc. unfold advance. rewrite Hn. destruct post as [|x post]; cbn [head].
  - eexists. split; [done|]. split; [|by destruct c]. unfold walk_at. cbn [w_cur]. split; [done|].
    by rewrite El, app_nil_r.
  - pose proof (b_nodup _ HS (key_index (call_key c))) as Hnd. rewrite El in Hnd |- *.
    apply list.NoDup_app in Hnd as (_ & Hd & _). rewrite successor_app.
    + eexists. split; [done|]. split; [|by destruct c]. unfold walk_at. cbn [w_cur]. by exists pre, post.
    + intros Hx. apply (Hd x Hx). by left.
Qed.

(** An entry that the thread stands at is passed. *)
Lemma walk_pass c w m x :
  w_cur w = Some x → walk_at c w m → has_key m (call_key c) x = false → walk_past c w m.
Proof.
  intros Hx. unfold walk_at. rewrite Hx. intros (pre & post & El & Hn & Hp) Hk. exists (pre ++ [x]), post.
  split_and!; [by rewrite <-app_assoc|done|]. intros y [?| ->%list_elem_of_singleton]%list.elem_of_app; auto.
Qed.

(** The entry of [x] is taken out and marked. *)
Definition take_out (x : Z) (q : futex_queue) (m : futexes) : futexes :=
  set_entry x (set_awaken q) (unlink_entry x m).

Section take_out.
Context (m : futexes) (x i : Z) (q : futex_queue) (HS : shelved m).
Context (Hq : entries m !! x = Some q) (Ha : awaken q = false) (Hi : key_index (fq_key q) = i).

Lemma bucket_take_out j : bucket j (take_out x q m) = filter (λ u, u ≠ x) (bucket j m).
Proof. apply bucket_unlink. Qed.

Lemma untouched_take_out j : j ≠ i → untouched j m (take_out x q m).
Proof.
  intros Hj. split.
  - rewrite bucket_take_out. apply filter_absent. intros Hin. destruct (shelved_key _ _ _ _ HS Hq Hin). congruence.
  - intros y _. simpl. destruct (decide (y = x)) as [->|]; [by rewrite lookup_insert_eq, Hq|by rewrite lookup_insert_ne].
Qed.

Lemma shelved_take_out : shelved (take_out x q m).
Proof.
  split; intros j; [|rewrite bucket_take_out; apply list.NoDup_filter, HS]. intros y.
  rewrite bucket_take_out, list_elem_of_filter, (b_in _ HS). simpl. destruct (decide (y = x)) as [->|Hne].
  - rewrite lookup_insert_eq. split; [by intros [? _]|]. by intros (q' & [= <-] & ? & _).
  - rewrite lookup_insert_ne by done. tauto.
Qed.

Lemma has_key_take_out k y : has_key (take_out x q m) k y = has_key m k y.
Proof.
  unfold has_key. simpl. destruct (decide (y = x)) as [->|]; [by rewrite lookup_insert_eq, Hq|by rewrite lookup_insert_ne].
Qed.

Lemma bucket_take_out_at j pre post : bucket j m = pre ++ x :: post → bucket j (take_out x q m) = pre ++ post.
Proof.
  intros El. rewrite bucket_take_out. pose proof (b_nodup _ HS j) as Hnd. rewrite El in Hnd |- *.
  apply list.NoDup_app in Hnd as (_ & Hd & [Hxp _]%list.NoDup_cons).
  rewrite list.filter_app, filter_cons_False by tauto. rewrite !filter_absent; [done|done|].
  intros Hin. apply (Hd x Hin). by left.
Qed.

Lemma walk_take_out c w w' :
  key_index (call_key c) = i → w_cur w = Some x → w_next w' = w_next w →
  walk_at c w m → walk_past c w' (take_out x q m).
Proof.
  intros Hk Hx Hn. unfold walk_at, walk_past. rewrite Hx, Hn. intros (pre & post & El & Hh & Hp).
  exists pre, post. rewrite (bucket_take_out_at _ _ _ El). split_and!; [done|done|].
  intros y Hy. rewrite has_key_take_out. by apply Hp.
Qed.

Lemma keeps_take_out u d : u ≠ x → i ∉ held d → keeps m (take_out x q m) u d.
Proof.
  intros Hu Hd. split; [by apply lookup_insert_ne|done|intros j Hj; apply untouched_take_out; by intros ->|].
  intros k y _ (q' & Hq' & Ha' & Hk). exists q'. simpl. rewrite lookup_insert_ne; [done|]. intros <-. congruence.
Qed.
End take_out.

(** Whoever has an entry is in [wait]. *)
Lemma entry_waits s x q :
  tidy s → entries (shared s) !! x = Some q → ∃ timed wp, points s !! x = Some (Waiting (key_index (fq_key q)) timed wp) ∧
    wait_ok (shared s) x timed wp q.
Proof.
  intros HT Hq. destruct (t_known _ HT x q Hq) as [d Hd]. pose proof (t_points _ HT x d Hd) as Hok.
  destruct d; simpl in Hok; try (by rewrite Hq in Hok); try (by destruct Hok as [Hn _]; rewrite Hq in Hn).
  destruct Hok as (q' & Hq' & <- & Hw). simplify_eq. eauto.
Qed.

(** ... and outside its critical sections when another thread has locked the bucket. *)
Lemma entry_outside s t p x q timed wp :
  tidy s → points s !! t = Some p → x ≠ t → key_index (fq_key q) ∈ held p →
  points s !! x = Some (Waiting (key_index (fq_key q)) timed wp) → inside wp = false.
Proof.
  intros HT Ht Hx Hi Hw. destruct (inside wp) eqn:E; [|done]. exfalso. apply Hx.
  eapply (locked_exclusive s x t); [apply HT|exact Hw|exact Ht| |exact Hi]. simpl. rewrite E. by left.
Qed.

Lemma tidy_take_out s t n k w w' x q :
  tidy s → points s !! t = Some (FuWalk (Wake k n) w) → w_cur w = Some x → entries (shared s) !! x = Some q →
  awaken q = false → key_index (fq_key q) = key_index k → w_next w' = w_next w → walk_counts (Wake k n) w' →
  locked (System (take_out x q (shared s)) (<[t := FuWakeAll (Wake k n) w' x]> (points s))) →
  tidy (System (take_out x q (shared s)) (<[t := FuWakeAll (Wake k n) w' x]> (points s))).
Proof.
  intros HT Ht Hx Hq Ha Hi Hn Hc HL. destruct (t_points _ HT _ _ Ht) as (Hnone & _ & Hat).
  assert (x ≠ t) as Hxt by congruence. pose proof (t_shelved _ HT) as HS. set (m := shared s) in *.
  assert (key_index (fq_key q) ∈ held (FuWalk (Wake k n) w)) as Hheld by (rewrite Hi; by left).
  destruct (entry_waits s x q HT Hq) as (timed & wp & Hw & Hok).
  pose proof (entry_outside s t _ x q timed wp HT Ht Hxt Hheld Hw) as Hout.
  split; simpl; [done| | |by apply shelved_take_out|].
  - intros u d [[<- <-]|[Hne Hu]]%lookup_insert_Some.
    + split_and!; [simpl; by rewrite lookup_insert_ne|done|by eapply walk_take_out|].
      exists (set_awaken q). simpl. by rewrite lookup_insert_eq.
    + destruct (decide (u = x)) as [->|Hux].
      * rewrite Hw in Hu. injection Hu as <-. exists (set_awaken q). simpl. rewrite lookup_insert_eq.
        split_and!; [done|done|]. by destruct wp.
      * eapply point_other; [|by apply HT]. eapply (keeps_take_out m x (key_index k)); try done. intros Hd. apply Hne.
        eapply (locked_exclusive s t u); [apply HT|exact Ht|exact Hu|by left|done].
  - intros u q' Hu. apply lookup_insert_is_Some'. right. destruct (decide (u = x)) as [->|]; [by rewrite Hw|].
    rewrite lookup_insert_ne in Hu by done. by apply (t_known _ HT u q').
  - intros u j q' [[<- E]|[Hne Hu]]%lookup_insert_Some Hq' Ha'; [done|]. destruct (decide (u = x)) as [->|Hux].
    + right. exists t, (Wake k n), w'. apply lookup_insert_eq.
    + simpl in Hq'. rewrite lookup_insert_ne in Hq' by done.
      destruct (t_woken _ HT u j q' Hu Hq' Ha') as [?|(v & c & w0 & Hv)]; [by left|]. right. exists v, c, w0.
      rewrite lookup_insert_ne; [done|]. intros <-. congruence.
Qed.

Lemma good_walk s t c w :
  tidy s → points s !! t = Some (FuWalk c w) → good s t (futex_walk c w (shared s)).
Proof.
  intros HT Ht. destruct (t_points _ HT _ _ Ht) as (Hn & Hc & Hat). pose proof (t_shelved _ HT) as HS.
  assert (∀ st, good s t (Next (FuUnlock (rev (locks_of c)) st) (shared s))) as Hout.
  { intros st HL. by eapply tidy_same; [..|exact Hn|]. }
  unfold futex_walk. destruct (w_cur w) as [x|] eqn:Hx; [|apply Hout]. destruct (_ && _) eqn:E0; [apply Hout|].
  destruct c as [|k n|]; [done| |done]. destruct Hc as (Hr & Hr' & Hw & Hn').
  assert (x ∈ bucket (key_index k) (shared s)) as Hin.
  { unfold walk_at in Hat. rewrite Hx in Hat. destruct Hat as (pre & post & El & _). simpl in El. rewrite El.
    apply list.elem_of_app. right. by left. }
  apply (b_in _ HS) in Hin as (q & Hq & Ha & Hi). rewrite Hq. cbn [call_key]. destruct (key_eqb (fq_key q) k) eqn:Ek; simpl negb.
  - destruct (0 <? w_wake w) eqn:E1.
    + apply Z.ltb_lt in E1. intros HL. rewrite <-Hx in HL |- *. eapply tidy_take_out; try done. simpl. lia.
    + apply Z.ltb_ge in E1. assert (w_wake w = 0) as E2 by lia. rewrite E2, Hr in E0. done.
  - destruct (advance_ok (Wake k n) w (shared s)) as (w' & -> & Hat' & Hc' & Hwk); [|done|by split_and!|].
    + eapply walk_pass; [done|done|]. unfold has_key. by rewrite Hq.
    + intros HL. by eapply tidy_same; [done|exact Ht|..].
Qed.

(** The wait queue of an entry is woken. *)
Definition wake_token (x : Z) (q : futex_queue) (m : futexes) : futexes :=
  if fq_token q then set_fu_state x THREAD_RUNNABLE (set_entry x (set_token false q) m) else m.

Section wake_token.
Context (m : futexes) (x : Z) (q : futex_queue) (Hq : entries m !! x = Some q).

Lemma entries_wake y : ∃ b, entries (wake_token x q m) !! y = set_token b <$> entries m !! y ∧ (y ≠ x → entries (wake_token x q m) !! y = entries m !! y).
Proof.
  unfold wake_token. destruct (fq_token q) eqn:Et; simpl.
  - exists (if decide (y = x) then false else default false (fq_token <$> entries m !! y)). case_decide as E.
    + subst. rewrite lookup_insert_eq, Hq. done.
    + rewrite lookup_insert_ne by done. split; [|done]. by destruct (entries m !! y) as [[]|].
  - exists (default false (fq_token <$> entries m !! y)). split; [|done]. by destruct (entries m !! y) as [[]|].
Qed.

Lemma runnable_wake y : runnable m y → runnable (wake_token x q m) y.
Proof.
  unfold wake_token, runnable, fu_thread_status. destruct (fq_token q); simpl; [|done].
  destruct (decide (y = x)) as [->|]; [by rewrite lookup_insert_eq|by rewrite lookup_insert_ne].
Qed.

Lemma bucket_wake j : bucket j (wake_token x q m) = bucket j m.
Proof. unfold wake_token. by destruct (fq_token q). Qed.

Lemma marked_wake k y : marked m k y → marked (wake_token x q m) k y.
Proof.
  intros (q' & Hq' & Ha & Hk). destruct (entries_wake y) as (b & E & _). rewrite Hq' in E. by eexists.
Qed.

Lemma untouched_wake j : untouched j m (wake_token x q m).
Proof.
  split; [apply bucket_wake|]. intros y _. destruct (entries_wake y) as (b & -> & _). by destruct (entries m !! y).
Qed.

Lemma shelved_wake : shelved m → shelved (wake_token x q m).
Proof.
  intros [Hin Hn]. split; intros j; rewrite bucket_wake; [|done]. intros y. rewrite Hin.
  destruct (entries_wake y) as (b & E & _). rewrite E. destruct (entries m !! y) as [q'|]; simpl.
  - split; intros (? & [= <-] & ? & ?); by eexists.
  - split; by intros (? & ? & _).
Qed.
End wake_token.

Lemma good_wake_entry s t c w x :
  tidy s → points s !! t = Some (FuWakeAll c w x) → good s t (wake_entry c w x (shared s)).
Proof.
  intros HT Ht. destruct (t_points _ HT _ _ Ht) as (Hnone & Hc & Hpast & q & Hq & Ha & Hi).
  pose proof (t_shelved _ HT) as HS. set (m := shared s) in *. assert (x ≠ t) as Hxt by congruence.
  unfold wake_entry. rewrite Hq. change (if fq_token q then _ else _) with (wake_token x q m).
  assert (key_index (fq_key q) ∈ held (FuWakeAll c w x)) as Hheld by (rewrite Hi; destruct c; [done|by left|done]).
  destruct (entry_waits s x q HT Hq) as (timed & wp & Hw & Hok).
  pose proof (entry_outside s t _ x q timed wp HT Ht Hxt Hheld Hw) as Hout.
  destruct (advance_ok c w (wake_token x q m)) as (w' & -> & Hat & Hc' & _); [|by apply shelved_wake|done|].
  { eapply walk_past_other; [by apply untouched_wake|done]. }
  assert (timed = false → wp = AtSleep → runnable (wake_token x q m) x) as Hrun.
  { intros -> ->. destruct Hok as [?|[Htk|?]]; [done| |by apply runnable_wake].
    unfold wake_token. rewrite Htk. unfold runnable, fu_thread_status. simpl. by rewrite lookup_insert_eq. }
  intros HL. split; simpl; [done| | |by apply shelved_wake|].
  - intros u d [[<- <-]|[Hne Hu]]%lookup_insert_Some.
    + split_and!; [|done|done]. destruct (entries_wake m x q Hq t) as (b & -> & _). by rewrite Hnone.
    + destruct (decide (u = x)) as [->|Hux].
      * rewrite Hw in Hu. injection Hu as <-. destruct (entries_wake m x q Hq x) as (b & E & _). rewrite Hq in E.
        exists (set_token b q). split_and!; [done|done|]. destruct wp; try done. simpl in *.
        destruct timed; [by left|]. right. right. by apply Hrun.
      * eapply point_other; [|by apply HT]. destruct (entries_wake m x q Hq u) as (b & _ & E).
        split; [by apply E|by apply runnable_wake|intros; by apply untouched_wake|intros; by apply marked_wake].
  - intros u q' Hu. apply lookup_insert_is_Some'. right. destruct (entries_wake m x q Hq u) as (b & E & _). rewrite E in Hu.
    destruct (entries m !! u) as [q0|] eqn:E0; [|done]. by apply (t_known _ HT u q0).
  - intros u j q' [[<- E]|[Hne Hu]]%lookup_insert_Some Hq' Ha'; [done|]. destruct (decide (u = x)) as [->|Hux].
    + left. rewrite Hw in Hu. injection Hu as _ -> ->. by apply Hrun.
    + destruct (entries_wake m x q Hq u) as (b & _ & E). rewrite E in Hq' by done.
      destruct (t_woken _ HT u j q' Hu Hq' Ha') as [?|(v & c' & w0 & Hv)]; [left; by apply runnable_wake|]. right.
      exists v, c', w0. rewrite lookup_insert_ne; [done|]. intros <-. congruence.
Qed.

(** The events without requeueing. *)
Definition no_requeue (e : fuevent) : Prop :=
  match e with
  | CallFutex _ _ op _ _ _ _ _ _ _ =>
      Z.land op FUTEX_OP_MASK ≠ FUTEX_REQUEUE ∧ Z.land op FUTEX_OP_MASK ≠ FUTEX_CMP_REQUEUE
  | _ => True
  end.

Definition plain_call (r : Z + futex_call) : Prop :=
  match r with inr c => simple c ∧ match c with Wake _ n => 0 <= n | _ => True end | inl _ => True end.

Lemma wake_plain as_ uaddr flags n page : plain_call (wake as_ uaddr flags n page).
Proof. unfold wake. destruct (n <? 0) eqn:E; [done|]. apply Z.ltb_ge in E. by destruct (calculate_key _ _ _ _). Qed.

Lemma sys_futex_plain as_ uaddr op val timeout uaddr2 val3 ts page page2 :
  no_requeue (CallFutex as_ uaddr op val timeout uaddr2 val3 ts page page2) →
  plain_call (sys_futex as_ uaddr op val timeout uaddr2 val3 ts page page2).
Proof.
  intros [H1 H2]. unfold sys_futex. destruct (has _ _); [done|]. destruct (has _ _); [done|].
  destruct (_ =? FUTEX_WAIT).
  { unfold wait. destruct (_ <? 0); [done|]. by destruct (calculate_key _ _ _ _). }
  destruct (_ =? FUTEX_WAKE); [apply wake_plain|].
  by rewrite (proj2 (Z.eqb_neq _ _) H1), (proj2 (Z.eqb_neq _ _) H2).
Qed.

Lemma good_begin s t p r : tidy s → points s !! t = Some p → plain_call r → good s t (begin_call r p (shared s)).
Proof.
  intros HT Ht Hr. unfold begin_call. destruct p; try done. pose proof (t_points _ HT _ _ Ht) as Hn. simpl in Hn.
  destruct r as [e|c]; intros HL; by eapply tidy_same; [done|exact Ht|..].
Qed.

(** A thread is woken from outside. *)
Lemma tidy_disturb s t p :
  tidy s → points s !! t = Some p → locked (System (set_fu_state t THREAD_RUNNABLE (shared s)) (<[t := p]> (points s))) →
  tidy (System (set_fu_state t THREAD_RUNNABLE (shared s)) (<[t := p]> (points s))).
Proof.
  intros HT Ht HL. rewrite insert_id in HL |- * by done.
  assert (∀ u, runnable (shared s) u → runnable (set_fu_state t THREAD_RUNNABLE (shared s)) u) as Hr.
  { intros u. unfold runnable, fu_thread_status. simpl.
    destruct (decide (u = t)) as [->|]; [by rewrite lookup_insert_eq|by rewrite lookup_insert_ne]. }
  split; simpl; [done| |apply HT| |].
  - intros u d Hu. eapply point_other; [|by apply HT]. by split; [|apply Hr| |].
  - by eapply shelved_same; [|apply HT].
  - intros u i q Hu Hq Ha. destruct (t_woken _ HT u i q Hu Hq Ha) as [?|?]; [left; by apply Hr|by right].
Qed.

Lemma tidy_step e s t p :
  no_requeue e → tidy s → points s !! t = Some p →
  match futex_act e t p (shared s) with
  | Blocked => True
  | Next p' m' => tidy (System m' (<[t := p']> (points s)))
  | Crash _ => False
  end.
Proof.
  intros He HT Ht. assert (good s t (futex_act e t p (shared s))) as Hg.
  { destruct e as [| |uaddr v| |sig ex]; cbn [futex_act].
    - apply good_begin; [done|done|]. by apply sys_futex_plain.
    - apply good_begin; [done|done|]. unfold futex_wake. destruct (has _ _); [done|]. apply wake_plain.
    - destruct p; try done. intros HL. eapply tidy_same; try done. by apply (t_points _ HT _ _ Ht).
    - destruct (_ =? _); [|done]. intros HL. by apply tidy_disturb.
    - pose proof (t_points _ HT _ _ Ht) as Hp. destruct p as [|c h [|i todo]|c|i timed wp|c w|c w u|h st].
      + done.
      + intros HL. by eapply tidy_same; [done|exact Ht|..].
      + unfold take_lock. destruct (bucket_locks _ !! i); [done|]. intros HL. by apply (tidy_same s t _ _ _ HT Ht HL).
      + by apply good_enter.
      + by apply good_wait.
      + by apply good_walk.
      + by apply good_wake_entry.
      + destruct h; intros HL; by eapply tidy_same; [done|exact Ht|..]. }
  destruct (futex_act e t p (shared s)) as [|p' m'|] eqn:E; [done| |done]. apply Hg. eapply locked_step; [apply HT|exact Ht|exact E].
Qed.

Lemma tidy_start words pts : all_idle pts → tidy (fu_start words pts).
Proof.
  intros Hi. split; simpl.
  - by apply locked_start.
  - by intros t p (r & ->)%Hi.
  - done.
  - split; intros i; [|apply NoDup_nil_2]. intros x. split; [by intros ?%not_elem_of_nil|by intros (q & ? & _)].
  - by intros t i q Ht%Hi.
Qed.

Lemma execute_tidy words pts sched r :
  all_idle pts → Forall no_requeue sched.*2 → execute futex_act sched (fu_start words pts) = Some r →
  ∃ s, r = Done s ∧ tidy s.
Proof.
  intros Hi Hok. eapply execute_inv; [|exact Hok|by apply tidy_start]. intros s t e p. apply tidy_step.
Qed.

(** C10: No wake-up is lost.  Without requeueing, no interleaving of waits, wakes, stores,
    signals and timeouts uses an entry that is gone; and whoever sleeps without a timeout is
    in the bucket of its key, where the next wake finds it, unless it has been taken out, and
    then it is runnable or somebody is just about to make it so. *)
Theorem futex_no_lost_wakeup words pts sched r :
  all_idle pts → Forall no_requeue sched.*2 → execute futex_act sched (fu_start words pts) = Some r →
  ∃ s, r = Done s ∧ ∀ t i, points s !! t = Some (Waiting i false AtSleep) →
    ∃ q, entries (shared s) !! t = Some q ∧ key_index (fq_key q) = i ∧
      (t ∈ bucket i (shared s) ∨ to_be_woken (shared s) (points s) t).
Proof.
  intros Hi Hok He. destruct (execute_tidy _ _ _ _ Hi Hok He) as (s & -> & HT). exists s. split; [done|].
  intros t i Ht. destruct (t_points _ HT _ _ Ht) as (q & Hq & Hk & _). exists q. split_and!; [done|done|].
  destruct (awaken q) eqn:Ea; [right; by eapply t_woken|]. left. apply (b_in _ (t_shelved _ HT)). by exists q.
Qed.

(** The threads that wait for a key, first come first. *)
Definition waiters (k : futex_key) (m : futexes) : list Z :=
  filter (λ x, has_key m k x = true) (bucket (key_index k) m).

Lemma waiters_app k m pre l :
  bucket (key_index k) m = pre ++ l → (∀ y, y ∈ pre → has_key m k y = false) →
  waiters k m = filter (λ x, has_key m k x = true) l.
Proof.
  intros El Hp. unfold waiters. rewrite El, list.filter_app. replace (filter _ pre) with (@nil Z); [done|].
  clear El. induction pre as [|y pre IH]; [done|]. rewrite filter_cons_False by (rewrite Hp; [done|by left]).
  apply IH. intros z Hz. apply Hp. by right.
Qed.

(** First come, first served.  Each turn of a wake takes out the first of the threads
    that wait for its key, or nobody; when it ends it reports how many it has taken out, and
    that is as many as were asked for unless nobody waits for the key any more. *)
Theorem futex_wake_fifo words pts sched s t k n w sig ex p' m' :
  all_idle pts → Forall no_requeue sched.*2 → execute futex_act sched (fu_start words pts) = Some (Done s) →
  points s !! t = Some (FuWalk (Wake k n) w) →
  futex_act (FuGo sig ex) t (FuWalk (Wake k n) w) (shared s) = Next p' m' →
  match p' with
  | FuWakeAll _ w' x => waiters k (shared s) = x :: waiters k m' ∧ w_woken w' = w_woken w + 1 ∧ w_woken w' <= n
  | FuWalk _ w' => waiters k m' = waiters k (shared s) ∧ w_woken w' = w_woken w
  | FuUnlock _ st => m' = shared s ∧ st = w_woken w ∧ (st = n ∨ waiters k (shared s) = [])
  | _ => False
  end.
Proof.
  intros Hi Hok He Ht. destruct (execute_tidy _ _ _ _ Hi Hok He) as (s' & [= <-] & HT). simpl. unfold futex_walk.
  destruct (t_points _ HT _ _ Ht) as (Hnone & (Hr & Hr' & Hw & Hsum) & Hat). pose proof (t_shelved _ HT) as HS.
  unfold walk_at in Hat. simpl call_key in *. destruct (w_cur w) as [x|] eqn:Hx.
  2:{ intros E. injection E as <- <-. split_and!; [done|done|]. right. destruct Hat as [_ Hnone'].
      rewrite (waiters_app k _ (bucket (key_index k) (shared s)) []); [done|by rewrite app_nil_r|done]. }
  destruct Hat as (pre & post & El & Hn & Hp). destruct (_ && _) eqn:E0.
  { intros E. injection E as <- <-. split_and!; [done|done|]. left. apply andb_prop in E0 as [E0 _]. simpl. lia. }
  destruct (entries (shared s) !! x) as [q|] eqn:Hq; [|done].
  rewrite (waiters_app k _ pre (x :: post) El Hp).
  assert (has_key (shared s) k x = key_eqb (fq_key q) k) as Hk by (unfold has_key; by rewrite Hq).
  destruct (key_eqb (fq_key q) k) eqn:Ek; simpl negb; cbv iota.
  - rewrite filter_cons_True by done. destruct (0 <? w_wake w) eqn:E1.
    + apply Z.ltb_lt in E1. intros E. injection E as <- <-. simpl. split; [|lia]. f_equal.
      change (set_entry x _ _) with (take_out x q (shared s)).
      rewrite (waiters_app k _ pre post); [|by apply bucket_take_out_at|intros y Hy; rewrite has_key_take_out by done; by apply Hp].
      apply list_filter_iff. intros y. by rewrite has_key_take_out.
    + apply Z.ltb_ge in E1. assert (w_wake w = 0) as E2 by lia. by rewrite E2, Hr in E0.
  - rewrite filter_cons_False by by rewrite Hk.
    destruct (advance_ok (Wake k n) w (shared s)) as (w' & -> & Hat' & Hc' & Hwk); [|done|by split_and!|].
    + exists (pre ++ [x]), post. simpl. split_and!; [by rewrite <-app_assoc|done|].
      intros y [?| ->%list_elem_of_singleton]%list.elem_of_app; auto.
    + intros E. injection E as <- <-. split; [|done].
      by rewrite (waiters_app k _ pre (x :: post) El Hp), filter_cons_False by by rewrite Hk.
Qed.

(** ** Three threads on two words *)

Definition fu_three : gmap Z fupoint := list_to_map [(8, FuIdle 0); (16, FuIdle 0); (24, FuIdle 0)].
Definition fu_words : gmap Z Z := list_to_map [(4096, 0); (8192, 0)].
Definition go_on (t : Z) (n : nat) : list (Z * fuevent) := replicate n (t, FuGo false false).

Definition call_wait (t uaddr timeout : Z) : list (Z * fuevent) :=
  (t, CallFutex 1 uaddr (FUTEX_PRIVATE_FLAG + FUTEX_WAIT) 0 timeout 0 0 (Some (1, 0)) NoAccess NoAccess) :: go_on t 7.
Definition call_wake (t uaddr n : Z) (steps : nat) : list (Z * fuevent) :=
  (t, CallFutex 1 uaddr (FUTEX_PRIVATE_FLAG + FUTEX_WAKE) n 0 0 0 None NoAccess NoAccess) :: go_on t steps.
Definition call_requeue (t uaddr uaddr2 : Z) : list (Z * fuevent) :=
  (t, CallFutex 1 uaddr (FUTEX_PRIVATE_FLAG + FUTEX_REQUEUE) 0 1 uaddr2 0 None NoAccess NoAccess) :: go_on t 9.

Lemma fu_three_idle : all_idle fu_three.
Proof.
  intros t p Hp. apply elem_of_list_to_map_2 in Hp.
  repeat (apply list.elem_of_cons in Hp as [[= -> ->]|Hp]; [by eexists|]). by apply not_elem_of_nil in Hp.
Qed.

Definition fu_blocked_here (m : futexes) (p : Z * fupoint) : bool :=
  forallb (λ b, match futex_act (FuGo b.1 b.2) p.1 p.2 m with Blocked => true | _ => false end)
    [(false, false); (false, true); (true, false); (true, true)].

Lemma fu_blocked_everywhere s :
  forallb (fu_blocked_here (shared s)) (map_to_list (points s)) = true → fu_stuck s.
Proof.
  intros H t p sig ex E. apply elem_of_map_to_list, list_elem_of_In in E. eapply forallb_forall in H; [|exact E].
  eapply forallb_forall in H; [|by instantiate (1 := (sig, ex)); destruct sig, ex; simpl; auto].
  cbn [fst snd] in H. by destruct (futex_act _ _ _ _).
Qed.

Lemma futex_locks_live_witness :
  ∃ s, execute futex_act (call_wait 8 4096 0 ++ call_requeue 16 4096 8192) (fu_start fu_words fu_three) = Some (Done s) ∧
    bucket_locks (shared s) = ∅.
Proof.
  destruct (execute futex_act _ (fu_start fu_words fu_three)) as [[s|]|] eqn:E; [|by vm_compute in E..].
  exists s. split; [done|]. pose proof E as E'. vm_compute in E'. injection E' as <-.
  apply (futex_locks_live _ _ _ _ fu_three_idle E). apply fu_blocked_everywhere. vm_compute. reflexivity.
Defined.

(** Two threads sleep on the first word, and the third wakes one of them. *)
Definition two_wait (n : nat) : list (Z * fuevent) :=
  call_wait 8 4096 0 ++ call_wait 16 4096 0 ++ call_wake 24 4096 1 n.

Lemma two_wait_plain n : Forall no_requeue (two_wait n).*2.
Proof.
  assert (∀ t k, Forall no_requeue (go_on t k).*2) as Hgo by (intros t k; induction k; by constructor).
  unfold two_wait. rewrite !fmap_app, !Forall_app. split_and!; (constructor; [by vm_compute|apply Hgo]).
Qed.

Lemma futex_no_lost_wakeup_witness :
  ∃ s, execute futex_act (two_wait 4) (fu_start fu_words fu_three) = Some (Done s) ∧
    to_be_woken (shared s) (points s) 8.
Proof.
  destruct (execute futex_act _ (fu_start fu_words fu_three)) as [r|] eqn:E; [|by vm_compute in E].
  pose proof (futex_no_lost_wakeup _ _ _ _ fu_three_idle (two_wait_plain _) E) as (s & -> & Hs).
  exists s. split; [done|]. vm_compute in E. injection E as <-.
  edestruct (Hs 8) as (q & _ & _ & [Hin|Hw]); [vm_compute; reflexivity| |exact Hw].
  vm_compute in Hin. by apply list_elem_of_singleton in Hin.
Defined.

Lemma futex_wake_fifo_witness :
  ∃ s w, execute futex_act (two_wait 3) (fu_start fu_words fu_three) = Some (Done s) ∧
    points s !! 24 = Some (FuWalk (Wake (private_key 1 4096) 1) w) ∧ waiters (private_key 1 4096) (shared s) = [8; 16].
Proof.
  destruct (execute futex_act _ (fu_start fu_words fu_three)) as [[s|]|] eqn:E; [|by vm_compute in E..].
  pose proof (λ w p' m', futex_wake_fifo _ _ _ s 24 (private_key 1 4096) 1 w false false p' m' fu_three_idle (two_wait_plain _) E) as Hs.
  vm_compute in E. injection E as <-. eexists _, _. split; [vm_compute; reflexivity|]. split; [vm_compute; reflexivity|].
  epose proof (Hs _ _ _ ltac:(vm_compute; reflexivity) ltac:(vm_compute; reflexivity)) as (Hw & _).
  etransitivity; [exact Hw|vm_compute; reflexivity].
Defined.

(** A thread that is woken between its release of the bucket and [sched_sleep] goes to sleep
    all the same, until its time is over. *)
Lemma timed_wake_is_late :
  ∃ s, execute futex_act (call_wait 8 4096 1 ++ call_wake 16 4096 1 8 ++ go_on 8 2) (fu_start fu_words fu_three) = Some (Done s) ∧
    points s !! 16 = Some (FuIdle 1) ∧ fu_stuck s ∧
    ∃ i, points s !! 8 = Some (Waiting i true AtSleep) ∧ fu_thread_status (shared s) 8 = THREAD_INTERRUPTIBLE.
Proof.
  eexists. split; [vm_compute; reflexivity|]. split; [reflexivity|]. split; [|by eexists].
  apply fu_blocked_everywhere. vm_compute. reflexivity.
Qed.

(** A waiter that has been requeued still takes the lock of its first bucket, so that it can
    return while it is being woken through the second: its entry is used after it is gone. *)
Lemma requeued_entry_used_after_return :
  execute futex_act (call_wait 8 4096 0 ++ call_requeue 16 4096 8192 ++ call_wake 24 8192 1 4 ++
      (8, Disturb) :: go_on 8 8 ++ go_on 24 1) (fu_start fu_words fu_three) = Some (Fault UseAfterFree).
Proof. vm_compute. reflexivity. Qed.
