(* ===== verification/Checksum.v ===== *)
(** * Checksum: the Internet checksum

    [kernel/net/checksum.cpp] and [include/onyx/net/inet_csum.h].  A buffer is its address
    and its bytes; the words in it are little-endian, and the additions with carry are those
    of the x86-64 instructions.  The theory shows that the result is the one's complement sum of
    16-bit words. *)

From S2P Require Import Prelude Abi.


(** The first [n] bytes of a buffer as a little-endian word; nothing if it is too short. *)
Fixpoint load (n : nat) (buf : list Z) : option Z :=
  match n, buf with
  | O, _ => Some 0
  | S n, b :: buf => x ← load n buf; Some (b + Z.shiftl x 8)
  | S _, [] => None
  end.

Definition IS_BUFFER_ALIGNED_TO (buf boundary : Z) : bool := has buf boundary.

(** [add] of [w]-bit registers: the sum and the carry. *)
Definition add_carry (w a b carry : Z) : Z * Z :=
  let s := a + b + carry in (s mod 2 ^ w, Z.shiftr s w).

(** [addq] and [adcq] of the words of [n] 8-byte blocks, the carry from one to the next. *)
Fixpoint add_words (n : nat) (buf : list Z) (acc : Z * Z) : option (Z * Z) :=
  match n with
  | O => Some acc
  | S n => x ← load 8 buf; add_words n (drop 8 buf) (add_carry 64 acc.1 x acc.2)
  end.

Definition ADD_CARRY_64_BYTES (buf : list Z) (result : Z) : option Z :=
  '(r, c) ← add_words 8 buf (result, 0); Some (add_carry 64 r 0 c).1.

Definition ADD_CARRY_64BIT (buf : list Z) (result : Z) : option Z :=
  '(r, c) ← add_words 1 buf (result, 0); Some (add_carry 64 r 0 c).1.

Definition addcarry32 (a b : Z) : Z :=
  let '(r, c) := add_carry 32 a b 0 in (add_carry 32 r 0 c).1.

(** [b] is [a >> 16]; the low half of [a] is added. *)
Definition fold32_to_16 (a : Z) : Z :=
  let '(r, c) := add_carry 16 (u16 (Z.shiftr a 16)) (u16 a) 0 in (add_carry 16 r 0 c).1.

(** The two loops: what is left of the buffer, and the sum. *)
Fixpoint sum_64_bytes (nr_blocks : nat) (buf : list Z) (sum : Z) : option (list Z * Z) :=
  match nr_blocks with
  | O => Some (buf, sum)
  | S n => sum ← ADD_CARRY_64_BYTES buf sum; sum_64_bytes n (drop 64 buf) sum
  end.

Fixpoint sum_8_bytes (nr_8b_blocks : nat) (buf : list Z) (sum : Z) : option (list Z * Z) :=
  match nr_8b_blocks with
  | O => Some (buf, sum)
  | S n => sum ← ADD_CARRY_64BIT buf sum; sum_8_bytes n (drop 8 buf) sum
  end.

(** [sum] and the next [n] bytes. *)
Definition add_load (n : nat) (buf : list Z) (sum : Z) : option (list Z * Z) :=
  x ← load n buf; Some (drop n buf, u64 (sum + x)).

(** The part for whole 32-bit words, [nr_blocks] of them, of [length] bytes at [addr]. *)
Definition checksum_words (addr : Z) (buf : list Z) (length nr_blocks sum : Z) : option (list Z * Z * Z) :=
  '(buf, length, nr_blocks, sum) ←
    (if IS_BUFFER_ALIGNED_TO addr 4
     then '(buf, sum) ← add_load 4 buf sum; Some (buf, length - 4, nr_blocks - 1, sum)
     else Some (buf, length, nr_blocks, sum));
  let nr_8b_blocks := Z.shiftr nr_blocks 1 in
  '(buf, sum) ← sum_64_bytes (Z.to_nat (Z.shiftr nr_blocks 4)) buf sum;
  '(buf, sum) ← sum_8_bytes (Z.to_nat (nr_8b_blocks mod 8)) buf sum;
  let sum := addcarry32 (Z.land sum 0xffffffff) (Z.shiftr sum 32) in
  '(buf, sum) ← (if has length 4 then add_load 4 buf sum else Some (buf, sum));
  Some (buf, length, sum).

(** The part for whole 16-bit words, [nr_blocks] of them. *)
Definition checksum_halves (addr : Z) (buf : list Z) (length nr_blocks sum : Z) : option (list Z * Z * Z) :=
  '(addr, buf, length, nr_blocks, sum) ←
    (if IS_BUFFER_ALIGNED_TO addr 2
     then '(buf, sum) ← add_load 2 buf sum; Some (addr + 2, buf, length - 2, nr_blocks - 1, sum)
     else Some (addr, buf, length, nr_blocks, sum));
  let nr_blocks := Z.shiftr nr_blocks 1 in
  '(buf, length, sum) ←
    (if truthy nr_blocks then checksum_words addr buf length nr_blocks sum else Some (buf, length, sum));
  '(buf, sum) ← (if has length 2 then add_load 2 buf sum else Some (buf, sum));
  Some (buf, length, sum).

Definition do_checksum (addr : Z) (buf : list Z) : option Z :=
  let length := Z.of_nat (length buf) in
  if length =? 0 then Some 0
  else
    '(addr, buf, length, sum) ←
      (if IS_BUFFER_ALIGNED_TO addr 1
       then x ← load 1 buf; Some (addr + 1, drop 1 buf, length - 1, Z.shiftl x 8)
       else Some (addr, buf, length, 0));
    let nr_blocks := Z.shiftr length 1 in
    '(buf, length, sum) ←
      (if truthy nr_blocks then checksum_halves addr buf length nr_blocks sum else Some (buf, length, sum));
    '(buf, sum) ← (if has length 1 then add_load 1 buf sum else Some (buf, sum));
    Some (addcarry32 (Z.shiftr sum 32) (Z.land sum 0xffffffff)).

Definition __ipsum_unfolded (addr : Z) (buf : list Z) (starting_csum : Z) : option Z :=
  x ← do_checksum addr buf; Some (addcarry32 starting_csum x).
Definition ipsum_unfolded (addr : Z) (buf : list Z) : option Z := do_checksum addr buf.
Definition ipsum_fold (cs : Z) : Z := u16 (Z.lnot (fold32_to_16 cs)).
Definition ipsum (addr : Z) (buf : list Z) : option Z :=
  x ← ipsum_unfolded addr buf; Some (ipsum_fold x).

(** ** Theory *)

(** ** The reference *)

(** The 16-bit words of a buffer, little-endian, a byte that is left over in the low half. *)
Fixpoint words (buf : list Z) : list Z :=
  match buf with
  | [] => []
  | [a] => [a]
  | a :: b :: buf => a + 256 * b :: words buf
  end.

(** One's complement addition: the carry comes in at the other end. *)
Definition onec_add (x y : Z) : Z := let s := x + y in if s <? 2 ^ 16 then s else s - 2 ^ 16 + 1.

Definition rfc1071 (buf : list Z) : Z := foldl onec_add 0 (words buf).

Definition bytes (buf : list Z) : Prop := Forall (λ b, 0 <= b < 256) buf.

Definition sum16 (buf : list Z) : Z := foldr Z.add 0 (words buf).

(** ** Sums up to the end-around carry

    [s] stands for the sum [t]: the same modulo 65535, and zero only if [t] is. *)
Definition stands (s t : Z) : Prop := 0 <= s ∧ 0 <= t ∧ s mod 65535 = t mod 65535 ∧ (s = 0 ↔ t = 0).

Lemma stands_refl s : 0 <= s → stands s s.
Proof. done. Qed.

Lemma stands_add s t x y : stands s t → stands x y → stands (s + x) (t + y).
Proof.
  intros (H1 & H2 & H3 & H4) (G1 & G2 & G3 & G4). split_and!; [lia|lia| |lia].
  by rewrite Z.add_mod, H3, G3, <-Z.add_mod.
Qed.

Lemma stands_trans s t u : stands s t → stands t u → stands s u.
Proof. intros (? & ? & ? & ?) (? & ? & ? & ?). split_and!; [done|done|congruence|lia]. Qed.

Lemma stands_diff s t k : 0 <= s → 0 <= t → s = t - 65535 * k → (s = 0 ↔ t = 0) → stands s t.
Proof.
  intros ? ? -> ?. split_and!; [done|done| |done].
  replace (t - 65535 * k) with (t + (- k) * 65535) by lia. by rewrite Z_mod_plus_full.
Qed.

(** A sum below [2 ^ 16] that stands for [t] is determined by [t]. *)
Lemma stands_unique x y t : stands x t → stands y t → x < 2 ^ 16 → y < 2 ^ 16 → x = y.
Proof.
  intros (? & _ & Ex & Zx) (? & _ & Ey & Zy) ? ?. rewrite <-Ex in Ey. clear Ex.
  destruct (decide (x = 65535)) as [->|]; destruct (decide (y = 65535)) as [->|]; try lia.
  - change (65535 mod 65535) with 0 in Ey. rewrite Z.mod_small in Ey by lia. lia.
  - change (65535 mod 65535) with 0 in Ey. rewrite Z.mod_small in Ey by lia. lia.
  - rewrite !Z.mod_small in Ey by lia. lia.
Qed.

(** ** Addition with carry *)

(** [w] is the width of a register; the sum and the carry out together. *)
Lemma add_carry_ok w k r c x :
  0 < w → 2 ^ w - 1 = 65535 * k → 0 <= r → 0 <= c <= 1 → r + c < 2 ^ w → 0 <= x < 2 ^ w →
  let '(r', c') := add_carry w r x c in
  0 <= r' ∧ 0 <= c' <= 1 ∧ r' + c' < 2 ^ w ∧ stands (r' + c') (r + c + x).
Proof.
  intros Hw Hk Hr Hc Hrc Hx. unfold add_carry. rewrite Z.shiftr_div_pow2 by lia.
  pose proof (Z.pow_pos_nonneg 2 w ltac:(lia) ltac:(lia)) as Hp. set (M := 2 ^ w) in *.
  pose proof (Z.div_mod (r + x + c) M ltac:(lia)) as E. pose proof (Z.mod_pos_bound (r + x + c) M ltac:(lia)).
  set (q := (r + x + c) / M) in *. set (l := (r + x + c) mod M) in *. assert (0 <= q <= 1) by nia.
  split_and!; [lia|lia|lia|nia|]. apply (stands_diff _ _ (k * q)); nia.
Qed.

(** The carry of the last addition comes back in. *)
Lemma end_around_ok w k r c :
  0 < w → 2 ^ w - 1 = 65535 * k → 0 <= r → 0 <= c <= 1 → r + c < 2 ^ w → (add_carry w r 0 c).1 = r + c.
Proof. intros. unfold add_carry. simpl. rewrite Z.add_0_r. apply Z.mod_small. lia. Qed.

Lemma addcarry32_ok a b :
  0 <= a < 2 ^ 32 → 0 <= b < 2 ^ 32 → 0 <= addcarry32 a b < 2 ^ 32 ∧ stands (addcarry32 a b) (a + b).
Proof.
  intros Ha Hb. unfold addcarry32. pose proof (add_carry_ok 32 65537 a 0 b) as H.
  destruct (add_carry 32 a b 0) as [r c]. destruct H as (? & ? & ? & Hs); try lia.
  rewrite (end_around_ok 32 65537) by lia. rewrite Z.add_0_r in Hs. split; [lia|done].
Qed.

Lemma fold32_to_16_ok a : 0 <= a < 2 ^ 32 → 0 <= fold32_to_16 a < 2 ^ 16 ∧ stands (fold32_to_16 a) a.
Proof.
  intros Ha. unfold fold32_to_16, u16. rewrite Z.shiftr_div_pow2 by lia.
  pose proof (Z.div_mod a (2 ^ 16) ltac:(lia)) as E. pose proof (Z.mod_pos_bound a (2 ^ 16) ltac:(lia)).
  assert (0 <= a / 2 ^ 16 < 2 ^ 16) by (split; [apply Z.div_pos|apply Z.div_lt_upper_bound]; lia).
  rewrite (Z.mod_small (a / 2 ^ 16)) by lia.
  pose proof (add_carry_ok 16 1 (a / 2 ^ 16) 0 (a mod 2 ^ 16)) as H'.
  destruct (add_carry 16 _ _ 0) as [r c]. destruct H' as (? & ? & ? & Hs); try lia.
  rewrite (end_around_ok 16 1) by lia. split; [lia|]. eapply stands_trans; [exact Hs|].
  apply (stands_diff _ _ (a / 2 ^ 16)); lia.
Qed.

(** ** Words in a buffer *)

Lemma words_app a b : Nat.Even (length a) → words (a ++ b) = words a ++ words b.
Proof.
  intros [n Hn]. revert a Hn. induction n as [|n IH]; intros a Hn.
  - by destruct a.
  - destruct a as [|x [|y a]]; simpl in *; try lia. f_equal. apply IH. lia.
Qed.

Lemma sum16_app a b : Nat.Even (length a) → sum16 (a ++ b) = sum16 a + sum16 b.
Proof.
  intros Ha. unfold sum16. rewrite words_app by done. induction (words a) as [|x l IH]; simpl; [done|]. lia.
Qed.

Lemma sum16_drop n buf :
  Nat.Even n → (n <= length buf)%nat → sum16 buf = sum16 (take n buf) + sum16 (drop n buf).
Proof. intros. rewrite <-(take_drop n buf) at 1. apply sum16_app. by rewrite length_take_le. Qed.

Lemma load_ok k buf :
  bytes buf → (2 * k <= length buf)%nat →
  ∃ x, load (2 * k) buf = Some x ∧ 0 <= x < 2 ^ (16 * Z.of_nat k) ∧ stands x (sum16 (take (2 * k) buf)).
Proof.
  revert buf. induction k as [|k IH]; intros buf Hb Hl; [by exists 0|].
  destruct buf as [|a [|b buf]]; simpl in Hl; try lia.
  apply list.Forall_cons in Hb as [Ha [Hb Hbuf]%list.Forall_cons].
  destruct (IH buf Hbuf) as (x & Ex & Hx & Hs); [lia|]. replace (2 * S k)%nat with (S (S (2 * k))) by lia.
  cbn [load]. rewrite Ex. exists (a + Z.shiftl (b + Z.shiftl x 8) 8). split; [done|]. rewrite !Z.shiftl_mul_pow2 by lia.
  replace (16 * Z.of_nat (S k)) with (16 + 16 * Z.of_nat k) by lia. rewrite Z.pow_add_r by lia. split; [lia|].
  change (take (S (S _)) (a :: b :: buf)) with ([a; b] ++ take (2 * k) buf). rewrite sum16_app by by exists 1%nat.
  replace (a + (b + x * 2 ^ 8) * 2 ^ 8) with (a + 256 * b + x * 2 ^ 16) by lia. apply stands_add.
  - unfold sum16. simpl. rewrite Z.add_0_r. apply stands_refl. lia.
  - eapply stands_trans; [|exact Hs]. apply (stands_diff _ _ (- x)); lia.
Qed.

(** [buf] is what is left of a buffer whose words add up to [t], and [sum] stands for the
    rest. *)
Record partial (t : Z) (buf : list Z) (sum : Z) : Prop := {
  s_bytes : bytes buf;
  s_sum : ∃ u, stands sum u ∧ t = u + sum16 buf
}.

Lemma partial_step t buf sum n x sum' :
  partial t buf sum → Nat.Even n → (n <= length buf)%nat → stands x (sum16 (take n buf)) →
  stands sum' (sum + x) → partial t (drop n buf) sum'.
Proof.
  intros [Hb (u & Hu & ->)] Hn Hl Hx Hs. split; [by apply Forall_drop|]. exists (u + sum16 (take n buf)). split.
  - eapply stands_trans; [exact Hs|]. by apply stands_add.
  - rewrite (sum16_drop n buf) by done. lia.
Qed.

Lemma partial_same t buf sum sum' : partial t buf sum → stands sum' sum → partial t buf sum'.
Proof. intros [Hb (u & Hu & ->)] Hs. split; [done|]. exists u. split; [by eapply stands_trans|done]. Qed.

Lemma add_load_ok k t buf sum :
  partial t buf sum → (2 * k <= length buf)%nat → 0 <= sum → sum + 2 ^ (16 * Z.of_nat k) <= 2 ^ 64 →
  ∃ sum', add_load (2 * k) buf sum = Some (drop (2 * k) buf, sum') ∧ partial t (drop (2 * k) buf) sum' ∧
    0 <= sum' < sum + 2 ^ (16 * Z.of_nat k).
Proof.
  intros HP Hl H0 Hs. destruct (load_ok k buf (s_bytes _ _ _ HP) Hl) as (x & Ex & Hx & Hst).
  unfold add_load. rewrite Ex. exists (sum + x). split; [|split; [|lia]].
  - unfold u64. cbn. by rewrite Z.mod_small by lia.
  - eapply partial_step; [done|by exists k|done|exact Hst|]. apply stands_refl. lia.
Qed.

Lemma add_words_ok n t buf r c :
  partial t buf (r + c) → (8 * n <= length buf)%nat → 0 <= r → 0 <= c <= 1 → r + c < 2 ^ 64 →
  ∃ r' c', add_words n buf (r, c) = Some (r', c') ∧ partial t (drop (8 * n) buf) (r' + c') ∧
    0 <= r' ∧ 0 <= c' <= 1 ∧ r' + c' < 2 ^ 64.
Proof.
  revert buf r c. induction n as [|n IH]; intros buf r c HP Hl Hr Hc Hrc; [by exists r, c|].
  destruct (load_ok 4 buf (s_bytes _ _ _ HP)) as (x & Ex & Hx & Hst); [lia|]. change (2 * 4)%nat with 8%nat in *.
  cbn [add_words]. rewrite Ex. change (16 * Z.of_nat 4) with 64 in Hx.
  pose proof (add_carry_ok 64 281479271743489 r c x ltac:(lia) ltac:(lia) Hr Hc Hrc Hx) as H'.
  cbn [mbind option_bind fst snd]. destruct (add_carry 64 r x c) as [r' c']. destruct H' as (? & ? & ? & Hs).
  destruct (IH (drop 8 buf) r' c') as (r1 & c1 & E & HP' & ?); [|rewrite length_drop; lia|done|done|done|].
  { eapply partial_step; [done|by exists 4%nat|lia|exact Hst|exact Hs]. }
  exists r1, c1. split; [done|]. rewrite drop_drop in HP'. by replace (8 * S n)%nat with (8 + 8 * n)%nat by lia.
Qed.

(** Both macros: [n] blocks, and the last carry comes back in. *)
Lemma add_blocks_ok n t buf sum :
  partial t buf sum → (8 * n <= length buf)%nat → 0 <= sum < 2 ^ 64 →
  ∃ sum', ('(r, c) ← add_words n buf (sum, 0); Some (add_carry 64 r 0 c).1) = Some sum' ∧
    partial t (drop (8 * n) buf) sum' ∧ 0 <= sum' < 2 ^ 64.
Proof.
  intros HP Hl Hs. destruct (add_words_ok n t buf sum 0) as (r & c & -> & HP' & ? & ? & ?); rewrite ?Z.add_0_r; try done; try lia.
  cbn [mbind option_bind]. rewrite (end_around_ok 64 281479271743489) by lia. exists (r + c). split_and!; [done|done|lia|done].
Qed.

Lemma sum_64_bytes_ok n t buf sum :
  partial t buf sum → (64 * n <= length buf)%nat → 0 <= sum < 2 ^ 64 →
  ∃ sum', sum_64_bytes n buf sum = Some (drop (64 * n) buf, sum') ∧ partial t (drop (64 * n) buf) sum' ∧ 0 <= sum' < 2 ^ 64.
Proof.
  revert buf sum. induction n as [|n IH]; intros buf sum HP Hl Hs; [by exists sum|]. cbn [sum_64_bytes].
  unfold ADD_CARRY_64_BYTES. destruct (add_blocks_ok 8 t buf sum HP) as (sum1 & -> & HP1 & Hs1); [lia|done|].
  change (8 * 8)%nat with 64%nat in HP1. cbn [mbind option_bind].
  destruct (IH _ _ HP1) as (sum2 & -> & HP2 & Hs2); [rewrite length_drop; lia|done|]. rewrite drop_drop in HP2 |- *.
  replace (64 * S n)%nat with (64 + 64 * n)%nat by lia. by exists sum2.
Qed.

Lemma sum_8_bytes_ok n t buf sum :
  partial t buf sum → (8 * n <= length buf)%nat → 0 <= sum < 2 ^ 64 →
  ∃ sum', sum_8_bytes n buf sum = Some (drop (8 * n) buf, sum') ∧ partial t (drop (8 * n) buf) sum' ∧ 0 <= sum' < 2 ^ 64.
Proof.
  revert buf sum. induction n as [|n IH]; intros buf sum HP Hl Hs; [by exists sum|]. cbn [sum_8_bytes].
  unfold ADD_CARRY_64BIT. destruct (add_blocks_ok 1 t buf sum HP) as (sum1 & -> & HP1 & Hs1); [lia|done|].
  change (8 * 1)%nat with 8%nat in HP1. cbn [mbind option_bind].
  destruct (IH _ _ HP1) as (sum2 & -> & HP2 & Hs2); [rewrite length_drop; lia|done|]. rewrite drop_drop in HP2 |- *.
  replace (8 * S n)%nat with (8 + 8 * n)%nat by lia. by exists sum2.
Qed.

(** ** The whole function *)

Lemma has_bit x k : 0 <= k → has x (2 ^ k) = Z.testbit x k.
Proof.
  intros Hk. unfold has, truthy. destruct (Z.testbit x k) eqn:E.
  - apply negb_true_iff, Z.eqb_neq. intros H. apply (f_equal (λ y, Z.testbit y k)) in H.
    by rewrite Z.land_spec, Z.pow2_bits_true, E, Z.bits_0 in H.
  - apply negb_false_iff, Z.eqb_eq. apply Z.bits_inj'. intros i Hi. rewrite Z.land_spec, Z.pow2_bits_eqb, Z.bits_0 by lia.
    destruct (Z.eqb_spec k i) as [->|]; [by rewrite E|apply andb_false_r].
Qed.

Lemma has_low x k m : 0 <= k → m = 2 ^ k → (has x m = true ↔ (x / m) mod 2 = 1).
Proof. intros Hk ->. rewrite has_bit by done. by apply Z.testbit_true. Qed.

(** [n] bytes are added if the length says so. *)
Lemma add_rest_ok k t buf sum L m :
  partial t buf sum → (1 <= k)%nat → m = 2 * Z.of_nat k → (m = 2 ∨ m = 4) →
  Z.of_nat (length buf) = L mod (2 * m) → 0 <= sum → sum + 2 ^ (16 * Z.of_nat k) <= 2 ^ 64 →
  ∃ buf' sum', (if has L m then add_load (2 * k) buf sum else Some (buf, sum)) = Some (buf', sum') ∧
    partial t buf' sum' ∧ Z.of_nat (length buf') = L mod m ∧ 0 <= sum' < sum + 2 ^ (16 * Z.of_nat k).
Proof.
  intros HP Hk Em Hm Hl H0 Hs. assert (∃ j, 0 <= j ∧ m = 2 ^ j) as (j & Hj & Ej).
  { destruct Hm as [->| ->]; [by exists 1|by exists 2]. }
  pose proof (has_low L j m Hj Ej) as Hb.
  assert ((L / m) mod 2 = 1 ∧ L mod (2 * m) = m + L mod m ∨ (L / m) mod 2 ≠ 1 ∧ L mod (2 * m) = L mod m) as Hcase.
  { destruct Hm as [->| ->]; Z.to_euclidean_division_equations; lia. }
  pose proof (Z.mod_pos_bound L m ltac:(lia)). destruct (has L m).
  - assert ((2 * k <= length buf)%nat) as Hle by lia.
    destruct (add_load_ok k t buf sum HP Hle H0 Hs) as (sum' & -> & HP' & Hs'). exists (drop (2 * k) buf), sum'.
    split_and!; [done|done|rewrite length_drop; lia|lia|lia].
  - exists buf, sum. pose proof (Z.pow_pos_nonneg 2 (16 * Z.of_nat k) ltac:(lia) ltac:(lia)).
    split_and!; [done|done| |lia|lia]. rewrite Hl. destruct Hcase as [[Hc _]|[_ ?]]; [|done]. by apply Hb in Hc.
Qed.

(** The part behind the alignment to 8 bytes, whether it was needed or not. *)
Lemma checksum_blocks_ok t buf sum L nr :
  partial t buf sum → L = Z.of_nat (length buf) → nr = L / 4 → 0 <= sum < 2 ^ 64 →
  ∃ buf' sum',
    ('(buf, sum) ← sum_64_bytes (Z.to_nat (Z.shiftr nr 4)) buf sum;
     '(buf, sum) ← sum_8_bytes (Z.to_nat (Z.shiftr nr 1 mod 8)) buf sum;
     let sum := addcarry32 (Z.land sum 0xffffffff) (Z.shiftr sum 32) in
     '(buf, sum) ← (if has L 4 then add_load 4 buf sum else Some (buf, sum));
     Some (buf, L, sum)) = Some (buf', L, sum') ∧
    partial t buf' sum' ∧ Z.of_nat (length buf') = L mod 4 ∧ 0 <= sum' < 2 ^ 33.
Proof.
  intros HP EL Enr Hs. rewrite !Z.shiftr_div_pow2 by lia. change (2 ^ 4) with 16. change (2 ^ 1) with 2.
  assert (0 <= L) by lia. destruct (sum_64_bytes_ok (Z.to_nat (nr / 16)) t buf sum HP) as (sum1 & -> & HP1 & Hs1);
    [Z.to_euclidean_division_equations; lia|done|]. cbn [mbind option_bind]. set (buf1 := drop _ buf) in *.
  assert (Z.of_nat (length buf1) = L - 64 * (nr / 16)) as El1.
  { unfold buf1. rewrite length_drop. Z.to_euclidean_division_equations; lia. }
  destruct (sum_8_bytes_ok (Z.to_nat ((nr / 2) mod 8)) t buf1 sum1 HP1) as (sum2 & -> & HP2 & Hs2);
    [Z.to_euclidean_division_equations; lia|done|]. cbn [mbind option_bind]. set (buf2 := drop _ buf1) in *.
  assert (Z.of_nat (length buf2) = L mod (2 * 4)) as El2.
  { unfold buf2. rewrite length_drop. Z.to_euclidean_division_equations; lia. }
  change 0xffffffff with (Z.ones 32). rewrite Z.land_ones, Z.shiftr_div_pow2 by lia. cbv zeta.
  pose proof (Z.mod_pos_bound sum2 (2 ^ 32) ltac:(lia)). pose proof (Z.div_mod sum2 (2 ^ 32) ltac:(lia)).
  assert (0 <= sum2 / 2 ^ 32 < 2 ^ 32) by (split; [apply Z.div_pos|apply Z.div_lt_upper_bound]; lia).
  destruct (addcarry32_ok (sum2 mod 2 ^ 32) (sum2 / 2 ^ 32)) as [Hr Hst]; [lia|lia|].
  destruct (add_rest_ok 2 t buf2 (addcarry32 (sum2 mod 2 ^ 32) (sum2 / 2 ^ 32)) L 4) as (buf3 & sum3 & E & HP3 & Hl3 & Hs3);
    [|lia|done|by right|done|lia|lia|].
  { eapply partial_same; [exact HP2|]. eapply stands_trans; [exact Hst|].
    apply (stands_diff _ _ (65537 * (sum2 / 2 ^ 32))); lia. }
  change (2 * 2)%nat with 4%nat in E. rewrite E. exists buf3, sum3. split_and!; [done|done|done|lia|lia].
Qed.

Lemma checksum_words_ok t addr buf sum L nr :
  partial t buf sum → L = Z.of_nat (length buf) → nr = L / 4 → nr ≠ 0 → 0 <= sum < 2 ^ 33 →
  ∃ buf' L' sum', checksum_words addr buf L nr sum = Some (buf', L', sum') ∧ partial t buf' sum' ∧
    Z.of_nat (length buf') = L' mod 4 ∧ L' mod 4 = L mod 4 ∧ 0 <= sum' < 2 ^ 33.
Proof.
  intros HP EL Enr Hne Hs. unfold checksum_words. destruct (IS_BUFFER_ALIGNED_TO addr 4).
  - assert (2 * 2 <= length buf)%nat as Hle by (Z.to_euclidean_division_equations; lia).
    destruct (add_load_ok 2 t buf sum HP Hle) as (sum1 & E & HP1 & Hs1); [lia|lia|].
    change (2 * 2)%nat with 4%nat in *. rewrite E. cbn [mbind option_bind].
    destruct (checksum_blocks_ok t (drop 4 buf) sum1 (L - 4) (nr - 1) HP1) as (buf2 & sum2 & E2 & HP2 & Hl2 & Hs2).
    + rewrite length_drop. lia.
    + Z.to_euclidean_division_equations; lia.
    + lia.
    + exists buf2, (L - 4), sum2. split_and!; [exact E2|done|done|Z.to_euclidean_division_equations; lia|lia|lia].
  - cbn [mbind option_bind].
    destruct (checksum_blocks_ok t buf sum L nr HP EL Enr) as (buf2 & sum2 & E2 & HP2 & Hl2 & Hs2); [lia|].
    exists buf2, L, sum2. split_and!; [exact E2|done|done|done|lia|lia].
Qed.

Lemma checksum_halves_ok t addr buf sum L nr :
  partial t buf sum → L = Z.of_nat (length buf) → nr = L / 2 → nr ≠ 0 → 0 <= sum < 2 ^ 16 →
  ∃ buf' L' sum', checksum_halves addr buf L nr sum = Some (buf', L', sum') ∧ partial t buf' sum' ∧
    Z.of_nat (length buf') = L' mod 2 ∧ L' mod 2 = L mod 2 ∧ 0 <= sum' < 2 ^ 34.
Proof.
  intros HP EL Enr Hne Hs. unfold checksum_halves.
  assert (∀ addr1 buf1 sum1 L1 nr1, partial t buf1 sum1 → L1 = Z.of_nat (length buf1) → nr1 = L1 / 2 → 0 <= sum1 < 2 ^ 17 →
    ∃ buf' L' sum',
      ('(buf, length, sum) ←
         (if truthy (Z.shiftr nr1 1) then checksum_words addr1 buf1 L1 (Z.shiftr nr1 1) sum1 else Some (buf1, L1, sum1));
       '(buf, sum) ← (if has length 2 then add_load 2 buf sum else Some (buf, sum));
       Some (buf, length, sum)) = Some (buf', L', sum') ∧
      partial t buf' sum' ∧ Z.of_nat (length buf') = L' mod 2 ∧ L' mod 2 = L1 mod 2 ∧ 0 <= sum' < 2 ^ 34) as Hrest.
  { intros addr1 buf1 sum1 L1 nr1 HP1 EL1 Enr1 Hs1. rewrite Z.shiftr_div_pow2 by lia. change (2 ^ 1) with 2.
    assert (∃ buf2 L2 sum2,
      (if truthy (nr1 / 2) then checksum_words addr1 buf1 L1 (nr1 / 2) sum1 else Some (buf1, L1, sum1)) = Some (buf2, L2, sum2) ∧
      partial t buf2 sum2 ∧ Z.of_nat (length buf2) = L2 mod 4 ∧ L2 mod 4 = L1 mod 4 ∧ 0 <= sum2 < 2 ^ 33) as
      (buf2 & L2 & sum2 & -> & HP2 & Hl2 & HL2 & Hs2).
    { destruct (truthy (nr1 / 2)) eqn:Et; unfold truthy in Et.
      - apply negb_true_iff, Z.eqb_neq in Et.
        apply checksum_words_ok; [done|done|Z.to_euclidean_division_equations; lia|done|lia].
      - apply negb_false_iff, Z.eqb_eq in Et. exists buf1, L1, sum1.
        split_and!; [done|done|Z.to_euclidean_division_equations; lia|done|lia|lia]. }
    cbn [mbind option_bind].
    destruct (add_rest_ok 1 t buf2 sum2 L2 2 HP2) as (buf3 & sum3 & E & HP3 & Hl3 & Hs3); [lia|done|by left|done|lia|lia|].
    change (2 * 1)%nat with 2%nat in E. rewrite E. exists buf3, L2, sum3.
    split_and!; [done|done|done|Z.to_euclidean_division_equations; lia|lia|lia]. }
  destruct (IS_BUFFER_ALIGNED_TO addr 2); [|by apply Hrest; [..|lia]].
  assert (2 * 1 <= length buf)%nat as Hle by (Z.to_euclidean_division_equations; lia).
  destruct (add_load_ok 1 t buf sum HP Hle) as (sum1 & E & HP1 & Hs1); [lia|lia|].
  change (2 * 1)%nat with 2%nat in *. rewrite E. cbn [mbind option_bind].
  destruct (Hrest (addr + 2) (drop 2 buf) sum1 (L - 2) (nr - 1) HP1) as (buf' & L' & sum' & E' & HP' & Hl' & HL' & Hs').
  - rewrite length_drop. lia.
  - Z.to_euclidean_division_equations; lia.
  - lia.
  - exists buf', L', sum'. split_and!; [exact E'|done|done|Z.to_euclidean_division_equations; lia|lia|lia].
Qed.

(** The same with the bytes of each word exchanged. *)
Fixpoint swapped_words (buf : list Z) : list Z :=
  match buf with
  | [] => []
  | [a] => [256 * a]
  | a :: b :: buf => 256 * a + b :: swapped_words buf
  end.

Lemma swapped_cons a buf : foldr Z.add 0 (swapped_words (a :: buf)) = 256 * a + sum16 buf.
Proof.
  assert (∀ n a buf, (length buf < n)%nat → foldr Z.add 0 (swapped_words (a :: buf)) = 256 * a + sum16 buf) as H.
  { clear. induction n as [|n IH]; intros a buf Hn; [lia|]. destruct buf as [|b [|c buf]]; unfold sum16 in *; simpl in *; [lia|lia|].
    rewrite (IH c buf) by lia. lia. }
  apply (H (S (length buf))). lia.
Qed.

(** What [do_checksum] adds up, depending on the address. *)
Definition checksum_total (addr : Z) (buf : list Z) : Z :=
  if has addr 1 then foldr Z.add 0 (swapped_words buf) else sum16 buf.

Lemma last_byte_ok t buf sum L :
  partial t buf sum → Z.of_nat (length buf) = L mod 2 → 0 <= sum < 2 ^ 34 →
  ∃ buf' sum', (if has L 1 then add_load 1 buf sum else Some (buf, sum)) = Some (buf', sum') ∧
    stands sum' t ∧ 0 <= sum' < 2 ^ 35.
Proof.
  intros [Hb (u & Hu & ->)] Hl Hs. pose proof (has_low L 0 1 ltac:(lia) eq_refl) as Hbit. rewrite Z.div_1_r in Hbit.
  destruct (has L 1).
  - assert (L mod 2 = 1) as E by by apply Hbit. destruct buf as [|b [|c buf]]; simpl in Hl; try lia.
    apply list.Forall_cons in Hb as [Hb _]. exists [], (sum + b). split; [|split; [|lia]].
    + unfold add_load. simpl. rewrite Z.add_0_r. unfold u64. by rewrite Z.mod_small by lia.
    + apply stands_add; [done|]. unfold sum16. simpl. rewrite Z.add_0_r. apply stands_refl. lia.
  - assert (L mod 2 ≠ 1) by (intros E; by apply Hbit in E). destruct buf as [|b buf].
    + exists [], sum. split_and!; [done|by rewrite Z.add_0_r|lia|lia].
    + simpl in Hl. Z.to_euclidean_division_equations; lia.
Qed.

Lemma do_checksum_ok addr buf :
  bytes buf → ∃ r, do_checksum addr buf = Some r ∧ 0 <= r < 2 ^ 32 ∧ stands r (checksum_total addr buf).
Proof.
  intros Hb. unfold do_checksum, checksum_total. destruct (Z.eqb_spec (Z.of_nat (length buf)) 0) as [E0|Hne].
  { destruct buf; [|simpl in E0; lia]. exists 0. by destruct (has addr 1). }
  assert (∀ addr1 buf1 L1 sum1 t, partial t buf1 sum1 → L1 = Z.of_nat (length buf1) → 0 <= sum1 < 2 ^ 16 →
    ∃ r,
      ('(buf, length, sum) ←
        (if truthy (Z.shiftr L1 1) then checksum_halves addr1 buf1 L1 (Z.shiftr L1 1) sum1 else Some (buf1, L1, sum1));
      '(buf, sum) ← (if has length 1 then add_load 1 buf sum else Some (buf, sum));
      Some (addcarry32 (Z.shiftr sum 32) (Z.land sum 0xffffffff))) = Some r ∧ 0 <= r < 2 ^ 32 ∧ stands r t) as Hrest.
  { intros addr1 buf1 L1 sum1 t HP EL Hs. rewrite Z.shiftr_div_pow2 by lia. change (2 ^ 1) with 2.
    assert (∃ buf2 L2 sum2,
      (if truthy (L1 / 2) then checksum_halves addr1 buf1 L1 (L1 / 2) sum1 else Some (buf1, L1, sum1)) = Some (buf2, L2, sum2) ∧
      partial t buf2 sum2 ∧ Z.of_nat (length buf2) = L2 mod 2 ∧ 0 <= sum2 < 2 ^ 34) as (buf2 & L2 & sum2 & -> & HP2 & Hl2 & Hs2).
    { destruct (truthy (L1 / 2)) eqn:Et; unfold truthy in Et.
      - apply negb_true_iff, Z.eqb_neq in Et.
        destruct (checksum_halves_ok t addr1 buf1 sum1 L1 (L1 / 2) HP EL eq_refl Et Hs) as (b2 & L2 & s2 & ? & ? & ? & _ & ?).
        by exists b2, L2, s2.
      - apply negb_false_iff, Z.eqb_eq in Et. exists buf1, L1, sum1.
        split_and!; [done|done|Z.to_euclidean_division_equations; lia|lia|lia]. }
    cbn [mbind option_bind]. destruct (last_byte_ok t buf2 sum2 L2 HP2 Hl2 Hs2) as (buf3 & sum3 & -> & Hst & Hs3).
    cbn [mbind option_bind]. change 0xffffffff with (Z.ones 32). rewrite Z.land_ones, Z.shiftr_div_pow2 by lia.
    pose proof (Z.mod_pos_bound sum3 (2 ^ 32) ltac:(lia)). pose proof (Z.div_mod sum3 (2 ^ 32) ltac:(lia)).
    assert (0 <= sum3 / 2 ^ 32 < 2 ^ 32) by (split; [apply Z.div_pos|apply Z.div_lt_upper_bound]; lia).
    destruct (addcarry32_ok (sum3 / 2 ^ 32) (sum3 mod 2 ^ 32)) as [Hr Hst']; [lia|lia|].
    eexists. split_and!; [done|lia|lia|]. eapply stands_trans; [exact Hst'|]. eapply stands_trans; [|exact Hst].
    apply (stands_diff _ _ (65537 * (sum3 / 2 ^ 32))); lia. }
  unfold IS_BUFFER_ALIGNED_TO. destruct (has addr 1).
  - destruct buf as [|a buf]; [done|]. rewrite swapped_cons. apply list.Forall_cons in Hb as [Ha Hb].
    change (drop 1 (a :: buf)) with buf. cbn [load mbind option_bind]. rewrite Z.shiftl_0_l, Z.add_0_r, Z.shiftl_mul_pow2 by lia.
    apply Hrest; [|cbn [length]; lia|lia]. split; [done|]. exists (256 * a). split; [|done].
    replace (a * 2 ^ 8) with (256 * a) by lia. apply stands_refl. lia.
  - cbn [mbind option_bind]. apply Hrest; [|done|lia]. split; [done|]. by exists 0.
Qed.

Lemma words_range buf : bytes buf → Forall (λ x, 0 <= x < 2 ^ 16) (words buf).
Proof.
  assert (∀ n buf, (length buf < n)%nat → bytes buf → Forall (λ x, 0 <= x < 2 ^ 16) (words buf)) as H.
  { clear. induction n as [|n IH]; intros buf Hn Hb; [lia|]. destruct buf as [|a [|b buf]]; simpl in *; [done| |].
    - apply list.Forall_cons in Hb as [Ha _]. constructor; [lia|done].
    - apply list.Forall_cons in Hb as [Ha [Hb Hbuf]%list.Forall_cons]. constructor; [lia|]. apply IH; [lia|done]. }
  intros Hb. apply (H (S (length buf))); [lia|done].
Qed.

Lemma rfc1071_ok buf : bytes buf → 0 <= rfc1071 buf < 2 ^ 16 ∧ stands (rfc1071 buf) (sum16 buf).
Proof.
  intros Hb%words_range. unfold rfc1071, sum16.
  assert (∀ l acc, Forall (λ x, 0 <= x < 2 ^ 16) l → 0 <= acc < 2 ^ 16 →
    0 <= foldl onec_add acc l < 2 ^ 16 ∧ stands (foldl onec_add acc l) (acc + foldr Z.add 0 l)) as H.
  { clear. induction l as [|x l IH]; intros acc Hl Ha; simpl.
    - rewrite Z.add_0_r. split; [lia|]. apply stands_refl. lia.
    - apply list.Forall_cons in Hl as [Hx Hl].
      assert (0 <= onec_add acc x < 2 ^ 16 ∧ stands (onec_add acc x) (acc + x)) as [Hr Hs].
      { unfold onec_add. destruct (Z.ltb_spec (acc + x) (2 ^ 16)); [split; [lia|apply stands_refl; lia]|].
        split; [lia|]. apply (stands_diff _ _ 1); lia. }
      destruct (IH (onec_add acc x) Hl Hr) as [? Hs']. split; [done|]. eapply stands_trans; [exact Hs'|].
      rewrite Z.add_assoc. apply stands_add; [done|]. apply stands_refl.
      clear -Hl. induction Hl; simpl; lia. }
  apply (H _ 0); [done|lia].
Qed.

Lemma complement16 x : 0 <= x < 2 ^ 16 → u16 (Z.lnot x) = 2 ^ 16 - 1 - x.
Proof. intros. unfold u16, Z.lnot. symmetry. apply (Z.mod_unique _ _ (-1)); lia. Qed.

Lemma ipsum_total addr buf v :
  bytes buf → stands v (checksum_total addr buf) → v < 2 ^ 16 → ipsum addr buf = Some (2 ^ 16 - 1 - v).
Proof.
  intros Hb Hv Hlt. destruct (do_checksum_ok addr buf Hb) as (r & E & Hr & Hs).
  unfold ipsum, ipsum_unfolded. rewrite E. cbn [mbind option_bind]. f_equal. unfold ipsum_fold.
  destruct (fold32_to_16_ok r Hr) as [Hf Hfs]. rewrite complement16 by done.
  by rewrite (stands_unique (fold32_to_16 r) v (checksum_total addr buf)); [|eapply stands_trans|..|]; [|done..|lia|done].
Qed.

Lemma ipsum_even addr buf :
  bytes buf → has addr 1 = false → ipsum addr buf = Some (2 ^ 16 - 1 - rfc1071 buf).
Proof.
  intros Hb Ha. destruct (rfc1071_ok buf Hb) as [Hr Hs]. apply ipsum_total; [done| |lia].
  unfold checksum_total. by rewrite Ha.
Qed.

(** C21: The fast checksum equals its definition.  For any bytes at an even address, with all
    its steps for alignment, blocks and leftovers, [ipsum] reads nothing outside the buffer and
    returns the complement of the one's complement sum of the 16-bit words. *)
Theorem ipsum_is_rfc1071 addr buf :
  bytes buf → has addr 1 = false → ipsum addr buf = Some (2 ^ 16 - 1 - rfc1071 buf).
Proof.
  apply ipsum_even.
Qed.

Lemma ipsum_is_rfc1071_witness : ipsum 0x1002 [0x45; 0; 0; 0x54; 7] = Some (2 ^ 16 - 1 - rfc1071 [0x45; 0; 0; 0x54; 7]).
Proof. apply ipsum_is_rfc1071; [repeat constructor; lia|reflexivity]. Defined.

(** What the sender fills in, the receiver accepts.  With the checksum of the packet, whose
    field was zero, stored in the field, the checksum of the whole packet is zero. *)
Theorem checksum_verifies addr addr' pre post c :
  bytes pre → bytes post → Nat.Even (length pre) → has addr 1 = false → has addr' 1 = false →
  ipsum addr (pre ++ [0; 0] ++ post) = Some c →
  ipsum addr' (pre ++ [c mod 256; c / 256] ++ post) = Some 0.
Proof.
  intros Hpre Hpost Hev Ha Ha' E.
  assert (bytes (pre ++ [0; 0] ++ post)) as Hb by (repeat apply Forall_app_2; [done|by repeat constructor; lia|done]).
  destruct (rfc1071_ok _ Hb) as [Hr Hs]. rewrite (ipsum_even _ _ Hb Ha) in E. injection E as <-.
  set (r := rfc1071 _) in *. set (c := 2 ^ 16 - 1 - r).
  replace (Some 0) with (Some (2 ^ 16 - 1 - 65535)) by done.
  assert (0 <= c / 256 < 256) by (split; [apply Z.div_pos|apply Z.div_lt_upper_bound]; lia).
  pose proof (Z.mod_pos_bound c 256 ltac:(lia)). pose proof (Z.div_mod c 256 ltac:(lia)).
  apply ipsum_total; [| |lia].
  { repeat apply Forall_app_2; [done|repeat constructor; lia|done]. }
  unfold checksum_total. rewrite Ha'. rewrite sum16_app in Hs |- * by done.
  rewrite (sum16_app [0; 0]) in Hs by by exists 1%nat. rewrite (sum16_app [_; _]) by by exists 1%nat.
  replace 65535 with (r + c) by (unfold c; lia).
  replace (sum16 pre + (sum16 [c mod 256; c / 256] + sum16 post)) with ((sum16 pre + (sum16 [0; 0] + sum16 post)) + c)
    by (unfold sum16; simpl; lia).
  apply stands_add; [done|]. apply stands_refl. lia.
Qed.

Lemma checksum_verifies_witness :
  ipsum 0 ([0x45; 0] ++ [0; 0] ++ [1; 2; 3]) = Some 0xfdb6 ∧ ipsum 8 ([0x45; 0] ++ [0xb6; 0xfd] ++ [1; 2; 3]) = Some 0.
Proof.
  split; [reflexivity|]. apply (checksum_verifies 0 8 [0x45; 0] [1; 2; 3] 0xfdb6); try reflexivity.
  - repeat constructor; lia.
  - repeat constructor; lia.
  - by exists 1%nat.
Defined.

(** Pieces of even length may be summed one after the other, wherever they are. *)
Lemma ipsum_pieces addr addr' a b r r' :
  bytes a → bytes b → Nat.Even (length a) → has addr 1 = false → has addr' 1 = false →
  __ipsum_unfolded addr a 0 = Some r → __ipsum_unfolded addr' b r = Some r' →
  ipsum_fold r' = 2 ^ 16 - 1 - rfc1071 (a ++ b).
Proof.
  intros Ha Hb Hev Hx Hy. unfold __ipsum_unfolded.
  destruct (do_checksum_ok addr a Ha) as (x & -> & Hxr & Hxs). destruct (do_checksum_ok addr' b Hb) as (y & -> & Hyr & Hys).
  unfold checksum_total in *. rewrite Hx in Hxs. rewrite Hy in Hys. cbn [mbind option_bind]. intros [= <-] [= <-].
  destruct (addcarry32_ok 0 x) as [Hr1 Hs1]; [lia|done|]. destruct (addcarry32_ok (addcarry32 0 x) y Hr1 Hyr) as [Hr2 Hs2].
  destruct (fold32_to_16_ok _ Hr2) as [Hf Hfs]. unfold ipsum_fold. rewrite complement16 by done.
  destruct (rfc1071_ok (a ++ b)) as [Hr Hs]; [by apply Forall_app_2|]. rewrite sum16_app in Hs by done. f_equal.
  eapply stands_unique; [|exact Hs|lia|lia]. eapply stands_trans; [exact Hfs|]. eapply stands_trans; [exact Hs2|].
  apply stands_add; [|done]. eapply stands_trans; [exact Hs1|done].
Qed.

(** At an odd address the bytes of the sum are exchanged, and nothing exchanges them back. *)
Lemma odd_address_swaps : ipsum 1 [0x45; 0] = Some (2 ^ 16 - 1 - 0x4500) ∧ ipsum 0 [0x45; 0] = Some (2 ^ 16 - 1 - 0x45).
Proof. split; reflexivity. Qed.
