(* ===== verification/Qsort.v ===== *)
(** * Qsort: sorting

    [lib/libk/stdlib/qsort.c].  An array is a list of elements of any type, and a part of it
    is given by the index of its first element and its length; [memswap] exchanges two whole
    elements.  Going out of bounds yields nothing.  The theory shows that it sorts. *)

From Stdlib Require Import Sorted.
From S2P Require Import Prelude.

Section qsort.
Context {A : Type} (compare : A → A → Z).

Definition memswap (a b : Z) (arr : list A) : option (list A) :=
  x ← aget arr a;
  y ← aget arr b;
  arr ← aset arr a y;
  aset arr b x.

Definition array_index (base index : Z) : Z := base + index.

(** The loop of [partition], with [n] turns left. *)
Fixpoint partition_loop (n : nat) (base pivot_index i store_index : Z) (arr : list A) : option (Z * list A) :=
  match n with
  | O => Some (store_index, arr)
  | S n =>
      pivot ← aget arr (array_index base pivot_index);
      value ← aget arr (array_index base i);
      if compare value pivot <=? 0 then
        arr ← (if i =? store_index then Some arr
               else memswap (array_index base i) (array_index base store_index) arr);
        partition_loop n base pivot_index (i + 1) (store_index + 1) arr
      else partition_loop n base pivot_index (i + 1) store_index arr
  end.

Definition partition (base num_elements pivot_index : Z) (arr : list A) : option (Z * list A) :=
  arr ← (if pivot_index =? num_elements - 1 then Some arr
         else memswap (array_index base pivot_index) (array_index base (num_elements - 1)) arr);
  let pivot_index := num_elements - 1 in
  '(store_index, arr) ← partition_loop (Z.to_nat (num_elements - 1)) base pivot_index 0 0 arr;
  arr ← memswap (array_index base pivot_index) (array_index base store_index) arr;
  Some (store_index, arr).

(** Elements of size 0 are not sorted. *)
Fixpoint qsort_r (fuel : nat) (base num_elements element_size : Z) (arr : list A) : option (list A) :=
  match fuel with
  | O => None
  | S fuel =>
      if (element_size =? 0) || (num_elements <? 2) then Some arr
      else
        let pivot_index := num_elements / 2 in
        '(pivot_index, arr) ← partition base num_elements pivot_index arr;
        arr ← (if 2 <=? pivot_index then qsort_r fuel base pivot_index element_size arr else Some arr);
        if 2 <=? num_elements - (pivot_index + 1) then
          qsort_r fuel (array_index base (pivot_index + 1)) (num_elements - (pivot_index + 1)) element_size arr
        else Some arr
  end.

(** A recursion is on fewer elements, so it is no deeper than their number. *)
Definition qsort (num_elements element_size : Z) (arr : list A) : option (list A) :=
  qsort_r (S (Z.to_nat num_elements)) 0 num_elements element_size arr.
End qsort.

(** ** Theory *)

Section arrays.
Context {A : Type}.
Implicit Types (a b c : list A) (x y : A).

Lemma aget_middle a x b i : i = Z.of_nat (length a) → aget (a ++ x :: b) i = Some x.
Proof. intros ->. rewrite aget_app_r by lia. by rewrite Z.sub_diag. Qed.

Lemma aset_middle a x b i y : i = Z.of_nat (length a) → aset (a ++ x :: b) i y = Some (a ++ y :: b).
Proof.
  intros ->. rewrite aset_is_Some by (rewrite length_app; simpl; lia).
  rewrite Nat2Z.id, insert_app_r_alt, Nat.sub_diag by lia. done.
Qed.

(** Two elements change places, whichever is named first. *)
Lemma memswap_ok a x b y c i j :
  i = Z.of_nat (length a) → j = Z.of_nat (length a) + 1 + Z.of_nat (length b) →
  memswap i j (a ++ x :: b ++ y :: c) = Some (a ++ y :: b ++ x :: c) ∧
  memswap j i (a ++ x :: b ++ y :: c) = Some (a ++ y :: b ++ x :: c).
Proof.
  intros Hi Hj. assert (∀ u v, a ++ u :: b ++ v :: c = (a ++ u :: b) ++ v :: c) as E by (intros; by rewrite <-app_assoc).
  assert (∀ u, j = Z.of_nat (length (a ++ u :: b))) as Hj' by (intros; rewrite length_app; cbn [length]; lia).
  assert (∀ u v, aget (a ++ u :: b ++ v :: c) i = Some u) as G1 by (intros; by apply aget_middle).
  assert (∀ u v, aget (a ++ u :: b ++ v :: c) j = Some v) as G2 by (intros; rewrite E; by apply aget_middle).
  assert (∀ u v w, aset (a ++ u :: b ++ v :: c) i w = Some (a ++ w :: b ++ v :: c)) as S1 by (intros; by apply aset_middle).
  assert (∀ u v w, aset (a ++ u :: b ++ v :: c) j w = Some (a ++ u :: b ++ w :: c)) as S2
    by (intros; rewrite !E; by apply aset_middle).
  unfold memswap. rewrite !G1, !G2. cbn [mbind option_bind]. rewrite S1, S2. cbn [mbind option_bind]. by rewrite S1, S2.
Qed.

Lemma memswap_same a x b i : i = Z.of_nat (length a) → memswap i i (a ++ x :: b) = Some (a ++ x :: b).
Proof.
  intros Hi. unfold memswap. rewrite aget_middle by done. cbn [mbind option_bind].
  rewrite aset_middle by done. cbn [mbind option_bind]. by apply aset_middle.
Qed.
End arrays.

Section qsort.
Context {A : Type} (compare : A → A → Z).
Implicit Types (l m h r pre post : list A) (p x : A).

Definition below p l : Prop := Forall (λ x, compare x p <= 0) l.
Definition above p l : Prop := Forall (λ x, 0 < compare x p) l.

(** The loop: [l] holds what is not above the pivot, [h] what is, [r] is still to come. *)
Lemma partition_loop_ok pre l h r p post base :
  base = Z.of_nat (length pre) → below p l → above p h →
  ∃ l' h', partition_loop compare (length r) base (Z.of_nat (length (l ++ h ++ r)))
      (Z.of_nat (length (l ++ h))) (Z.of_nat (length l)) (pre ++ (l ++ h ++ r) ++ p :: post) =
    Some (Z.of_nat (length l'), pre ++ (l' ++ h') ++ p :: post) ∧
    l' ++ h' ≡ₚ l ++ h ++ r ∧ below p l' ∧ above p h'.
Proof.
  intros Hbase. unfold array_index. revert l h. induction r as [|x r IH]; intros l h Hl Hh.
  { exists l, h. by rewrite app_nil_r. }
  cbn [partition_loop length]. unfold array_index.
  assert (aget (pre ++ (l ++ h ++ x :: r) ++ p :: post) (base + Z.of_nat (length (l ++ h ++ x :: r))) = Some p) as ->.
  { rewrite app_assoc. apply aget_middle. rewrite !length_app. lia. }
  assert (aget (pre ++ (l ++ h ++ x :: r) ++ p :: post) (base + Z.of_nat (length (l ++ h))) = Some x) as ->.
  { replace (pre ++ (l ++ h ++ x :: r) ++ p :: post) with ((pre ++ l ++ h) ++ x :: r ++ p :: post) by by rewrite <-!app_assoc.
    apply aget_middle. rewrite !length_app. lia. }
  cbn [mbind option_bind]. destruct (Z.leb_spec (compare x p) 0) as [Hc|Hc].
  - destruct h as [|y h].
    + rewrite app_nil_r, Z.eqb_refl. cbn [mbind option_bind].
      destruct (IH (l ++ [x]) []) as (l' & h' & E & HP & Hl' & Hh'); [apply Forall_app_2; [done|by repeat constructor]|done|].
      exists l', h'. split_and!; [|rewrite HP; by rewrite <-!app_assoc|done|done].
      rewrite <-E. rewrite <-!app_assoc. simpl. f_equal; rewrite !length_app; cbn [length]; lia.
    + rewrite (proj2 (Z.eqb_neq _ _)) by (rewrite length_app; simpl; lia).
      replace (pre ++ (l ++ (y :: h) ++ x :: r) ++ p :: post) with ((pre ++ l) ++ y :: h ++ x :: (r ++ p :: post))
        by by rewrite <-!app_assoc.
      destruct (memswap_ok (pre ++ l) y h x (r ++ p :: post) (base + Z.of_nat (length l)) (base + Z.of_nat (length (l ++ y :: h))))
        as [_ ->]; [rewrite length_app; lia|rewrite !length_app; cbn [length]; lia|]. cbn [mbind option_bind].
      apply list.Forall_cons in Hh as [Hy Hh].
      destruct (IH (l ++ [x]) (h ++ [y])) as (l' & h' & E & HP & Hl' & Hh');
        [apply Forall_app_2; [done|by repeat constructor]|apply Forall_app_2; [done|by repeat constructor]|].
      exists l', h'. split_and!; [|rewrite HP|done|done].
      * rewrite <-E. rewrite <-!app_assoc. simpl. f_equal; rewrite !length_app; cbn [length]; rewrite ?length_app; cbn [length]; lia.
      * rewrite <-!app_assoc. simpl. f_equiv. rewrite <-!Permutation_middle. apply perm_swap.
  - destruct (IH l (h ++ [x])) as (l' & h' & E & HP & Hl' & Hh'); [done|apply Forall_app_2; [done|by repeat constructor]|].
    exists l', h'. rewrite <-!app_assoc in E, HP. simpl in E, HP. split_and!; [|done|done|done].
    rewrite <-E, <-!app_assoc. f_equal. rewrite !length_app. simpl. lia.
Qed.

Lemma partition_ok pre m post base n k :
  base = Z.of_nat (length pre) → n = Z.of_nat (length m) → 0 <= k < n →
  ∃ l p h, partition compare base n k (pre ++ m ++ post) = Some (Z.of_nat (length l), pre ++ (l ++ p :: h) ++ post) ∧
    l ++ p :: h ≡ₚ m ∧ below p l ∧ above p h.
Proof.
  intros Hbase Hn Hk. unfold partition, array_index.
  assert (∃ m' p, (if k =? n - 1 then Some (pre ++ m ++ post) else memswap (base + k) (base + (n - 1)) (pre ++ m ++ post)) =
    Some (pre ++ (m' ++ [p]) ++ post) ∧ m' ++ [p] ≡ₚ m) as (m' & p & -> & HP).
  { destruct (exists_last (l := m)) as (m0 & z & ->); [by intros ->; simpl in Hn; lia|]. rewrite length_app in Hn. simpl in Hn.
    destruct (Z.eqb_spec k (n - 1)) as [->|Hne]; [by exists m0, z|].
    destruct (lookup_lt_is_Some_2 m0 (Z.to_nat k)) as [y Hy]; [lia|]. apply list_elem_of_split_length in Hy as (a & b & -> & Hka).
    exists (a ++ z :: b), y. replace (pre ++ ((a ++ y :: b) ++ [z]) ++ post) with ((pre ++ a) ++ y :: b ++ z :: post)
      by by rewrite <-!app_assoc. rewrite length_app in Hn. cbn [length] in Hn.
    destruct (memswap_ok (pre ++ a) y b z post (base + k) (base + (n - 1))) as [-> _];
      [rewrite length_app; lia|rewrite length_app; lia|]. split; [by rewrite <-!app_assoc|].
    rewrite <-!app_assoc. simpl. f_equiv. rewrite <-!Permutation_middle. apply perm_swap. }
  cbn [mbind option_bind]. assert (n - 1 = Z.of_nat (length m')) as ->.
  { apply Permutation_length in HP. rewrite length_app in HP. simpl in HP. lia. }
  destruct (partition_loop_ok pre [] [] m' p post base Hbase) as (l & h & E & HP' & Hl & Hh); [constructor|constructor|].
  rewrite !app_nil_l in *. rewrite Nat2Z.id. rewrite <-app_assoc. simpl in *. change (Z.of_nat 0) with 0 in E. rewrite E. cbn [mbind option_bind].
  destruct h as [|y h].
  - rewrite app_nil_r in *. assert (Z.of_nat (length m') = Z.of_nat (length l)) as -> by (f_equal; by rewrite HP').
    rewrite (app_assoc pre l), memswap_same by (rewrite length_app; lia). cbn [mbind option_bind].
    exists l, p, []. rewrite <-!app_assoc. split_and!; [done| |done|constructor]. by rewrite HP', HP.
  - replace (pre ++ (l ++ y :: h) ++ p :: post) with ((pre ++ l) ++ y :: h ++ p :: post) by by rewrite <-!app_assoc.
    apply list.Forall_cons in Hh as [Hy Hh].
    destruct (memswap_ok (pre ++ l) y h p post (base + Z.of_nat (length l)) (base + Z.of_nat (length m'))) as [_ ->].
    + rewrite length_app. lia.
    + apply Permutation_length in HP'. rewrite length_app in HP' |- *. simpl in HP'. lia.
    + cbn [mbind option_bind]. exists l, p, (h ++ [y]). rewrite <-!app_assoc. simpl. rewrite <-!app_assoc.
      split_and!; [done| |done|apply Forall_app_2; [done|by repeat constructor]].
      rewrite <-HP, <-HP'. solve_Permutation.
Qed.

(** [compare] orders the elements. *)
Record total_order : Prop := {
  cmp_total : ∀ x y, compare x y <= 0 ∨ compare y x <= 0;
  cmp_sign : ∀ x y, 0 < compare x y → compare y x <= 0;
  cmp_trans : ∀ x y z, compare x y <= 0 → compare y z <= 0 → compare x z <= 0
}.

Definition sorted (l : list A) : Prop := StronglySorted (λ x y, compare x y <= 0) l.

Lemma sorted_join l p h :
  total_order → sorted l → sorted h → below p l → above p h → sorted (l ++ p :: h).
Proof.
  intros HO Hl Hh Hb Ha. induction Hl as [|x l Hl IH Hx]; simpl.
  - constructor; [done|]. eapply list.Forall_impl; [exact Ha|]. intros y. apply (cmp_sign HO).
  - apply list.Forall_cons in Hb as [Hxp Hb]. constructor; [by apply IH|].
    apply Forall_app_2; [done|]. constructor; [done|]. eapply list.Forall_impl; [exact Ha|].
    intros y Hy. eapply (cmp_trans HO); [exact Hxp|]. by apply (cmp_sign HO).
Qed.

Lemma sorted_small l : (length l < 2)%nat → sorted l.
Proof. destruct l as [|x [|y l]]; simpl; intros; [constructor|by repeat constructor|lia]. Qed.

Lemma qsort_r_ok fuel pre m post base n size :
  base = Z.of_nat (length pre) → n = Z.of_nat (length m) → (length m < fuel)%nat → size ≠ 0 →
  ∃ m', qsort_r compare fuel base n size (pre ++ m ++ post) = Some (pre ++ m' ++ post) ∧ m' ≡ₚ m ∧
    (total_order → sorted m').
Proof.
  intros Hbase Hn Hf Hs. revert pre m post base n Hbase Hn Hf. induction fuel as [|fuel IH]; intros pre m post base n Hbase Hn Hf; [lia|].
  cbn [qsort_r]. rewrite (proj2 (Z.eqb_neq _ _) Hs). simpl orb. destruct (Z.ltb_spec n 2) as [Hlt|Hge].
  { exists m. split_and!; [done|done|]. intros _. apply sorted_small. lia. }
  destruct (partition_ok pre m post base n (n / 2)) as (l & p & h & -> & HP & Hl & Hh);
    [done|done|Z.to_euclidean_division_equations; lia|]. cbn [mbind option_bind].
  assert (length m = length l + S (length h))%nat as Hlen by by rewrite <-HP, length_app.
  assert (∀ pre' m1 post' base', base' = Z.of_nat (length pre') → (length m1 < fuel)%nat →
    ∃ m', (if 2 <=? Z.of_nat (length m1) then qsort_r compare fuel base' (Z.of_nat (length m1)) size (pre' ++ m1 ++ post')
           else Some (pre' ++ m1 ++ post')) = Some (pre' ++ m' ++ post') ∧ m' ≡ₚ m1 ∧ (total_order → sorted m')) as Hrec.
  { intros pre' m1 post' base' Hb' Hf'. destruct (Z.leb_spec 2 (Z.of_nat (length m1))); [by apply IH|].
    exists m1. split_and!; [done|done|]. intros _. apply sorted_small. lia. }
  replace (pre ++ (l ++ p :: h) ++ post) with (pre ++ l ++ (p :: h ++ post)) by by rewrite <-!app_assoc.
  destruct (Hrec pre l (p :: h ++ post) base Hbase) as (l' & -> & HPl & Hsl); [lia|]. cbn [mbind option_bind].
  replace (pre ++ l' ++ p :: h ++ post) with ((pre ++ l' ++ [p]) ++ h ++ post) by by rewrite <-!app_assoc.
  replace (n - (Z.of_nat (length l) + 1)) with (Z.of_nat (length h)) by lia. unfold array_index.
  destruct (Hrec (pre ++ l' ++ [p]) h post (base + (Z.of_nat (length l) + 1))) as (h' & -> & HPh & Hsh).
  - rewrite !length_app, HPl. simpl. lia.
  - lia.
  - exists (l' ++ p :: h'). split_and!; [by rewrite <-!app_assoc|by rewrite HPl, HPh|]. intros HO.
    apply sorted_join; [done|by apply Hsl|by apply Hsh|unfold below; by rewrite HPl|unfold above; by rewrite HPh].
Qed.
End qsort.

(** C37: [qsort] sorts.  It returns, without an access outside the array, a permutation of the
    elements whatever the comparison function answers, and if that orders the elements the
    result is sorted. *)
Theorem qsort_sorts {A} (compare : A → A → Z) arr size :
  size ≠ 0 →
  ∃ arr', qsort compare (Z.of_nat (length arr)) size arr = Some arr' ∧ arr' ≡ₚ arr ∧
    (total_order compare → sorted compare arr').
Proof.
  intros Hs. unfold qsort. rewrite Nat2Z.id.
  destruct (qsort_r_ok compare (S (length arr)) [] arr [] 0 (Z.of_nat (length arr)) size) as (m & E & HP & Hm); try done; [lia|].
  simpl in E. rewrite !app_nil_r in E. by exists m.
Qed.

Lemma qsort_sorts_witness :
  ∃ arr, qsort Z.sub 5 8 [3; 1; 2; 3; 0] = Some arr ∧ sorted Z.sub arr.
Proof.
  destruct (qsort_sorts Z.sub [3; 1; 2; 3; 0] 8) as (arr & E & _ & H); [done|]. exists arr. split; [exact E|].
  apply H. split; lia.
Defined.
