(* ===== verification/Cstring.v ===== *)
(** * Cstring: the kernel's string functions

    [lib/libk/string] and [lib/libk/ctype].  Memory maps addresses to bytes; reading or writing
    where there is none is a fault.  A loop that goes through memory ends or faults before it
    has been round once for each byte there is, which is the fuel of all of them ([bound]). *)

From S2P Require Import Prelude Abi Bits.

Abbreviation memory := (gmap Z Z).

Definition rd (p : Z) : M memory Z :=
  x ← gets (λ m, m !! p); from_opt x OutOfBounds.
Definition wr (p b : Z) : M memory unit :=
  rd p;; modify (λ m, <[p := b mod 256]> m).
Definition bound : M memory nat := gets (λ m, S (size m)).

(** [char] is signed. *)
Definition char (b : Z) : Z := if b <? 128 then b else b - 256.

(** [n] bytes from [p] on, as a little-endian word. *)
Fixpoint rd_word (n : nat) (p : Z) : M memory Z :=
  match n with
  | O => mret 0
  | S n => b ← rd p; x ← rd_word n (p + 1); mret (b + 256 * x)
  end.

Fixpoint wr_word (n : nat) (p x : Z) : M memory unit :=
  match n with
  | O => mret tt
  | S n => wr p (x mod 256);; wr_word n (p + 1) (x / 256)
  end.

(** ** Length *)

Definition CONST1 : Z := 0x0101010101010101.
Definition CONST2 : Z := 0x8080808080808080.
Definition HASZERO (v : Z) : Z := Z.land (Z.land (u64 (v - CONST1)) (Z.lnot v)) CONST2.
Definition ALIGNED (x : Z) : bool := negb (has x 7).

(** To the terminator or to the first aligned address. *)
Fixpoint strlen_head (fuel : nat) (s : Z) : M memory (bool * Z) :=
  match fuel with
  | O => crash OutOfFuel
  | S fuel =>
      if ALIGNED s then mret (false, s)
      else b ← rd s; if b =? 0 then mret (true, s) else strlen_head fuel (s + 1)
  end.

Fixpoint strlen_words (fuel : nat) (ptr : Z) : M memory Z :=
  match fuel with
  | O => crash OutOfFuel
  | S fuel => w ← rd_word 8 ptr; if HASZERO w =? 0 then strlen_words fuel (ptr + 8) else mret ptr
  end.

Fixpoint find_end (fuel : nat) (s : Z) : M memory Z :=
  match fuel with
  | O => crash OutOfFuel
  | S fuel => b ← rd s; if b =? 0 then mret s else find_end fuel (s + 1)
  end.

Definition strlen (s : Z) : M memory Z :=
  fuel ← bound;
  '(found, p) ← strlen_head fuel s;
  if (found : bool) then mret (p - s)
  else p ← strlen_words fuel p; p ← find_end fuel p; mret (p - s).

Fixpoint strnlen (maxlen : nat) (s : Z) : M memory Z :=
  match maxlen with
  | O => mret 0
  | S n => b ← rd s; if b =? 0 then mret 0 else x ← strnlen n (s + 1); mret (x + 1)
  end.

(** ** Blocks of memory *)

Fixpoint copy_up (n : nat) (d s : Z) : M memory unit :=
  match n with
  | O => mret tt
  | S n => b ← rd s; wr d b;; copy_up n (d + 1) (s + 1)
  end.

(** From the last byte to the first. *)
Fixpoint copy_down (i : nat) (d s : Z) : M memory unit :=
  match i with
  | O => mret tt
  | S i => b ← rd (s + Z.of_nat i); wr (d + Z.of_nat i) b;; copy_down i d s
  end.

Definition memcpy (dstptr srcptr size : Z) : M memory Z :=
  copy_up (Z.to_nat size) dstptr srcptr;; mret dstptr.

Definition memmove (dstptr srcptr size : Z) : M memory Z :=
  (if dstptr <? srcptr then copy_up (Z.to_nat size) dstptr srcptr
   else copy_down (Z.to_nat size) dstptr srcptr);;
  mret dstptr.

Fixpoint memset_loop (n : nat) (b value : Z) : M memory unit :=
  match n with O => mret tt | S n => wr b value;; memset_loop n (b + 1) value end.
Definition memset (bufptr value size : Z) : M memory Z :=
  memset_loop (Z.to_nat size) bufptr value;; mret bufptr.

Fixpoint memcmp (size : nat) (aptr bptr : Z) : M memory Z :=
  match size with
  | O => mret 0
  | S n =>
      a ← rd aptr; b ← rd bptr;
      if a <? b then mret (-1) else if b <? a then mret 1 else memcmp n (aptr + 1) (bptr + 1)
  end.

(** [*string == c]: the byte is a [char], [c] an [int]. *)
Fixpoint memchr (n : nat) (str c : Z) : M memory Z :=
  match n with
  | O => mret 0
  | S n => b ← rd str; if char b =? c then mret str else memchr n (str + 1) c
  end.

(** [*srcptr - 1 == c], after the pointer has moved on. *)
Fixpoint memccpy (n : nat) (s1 s2 c : Z) : M memory Z :=
  match n with
  | O => mret 0
  | S n =>
      b ← rd s2; wr s1 b;;
      b' ← rd (s2 + 1);
      if b' - 1 =? c mod 256 then mret (s1 + 1) else memccpy n (s1 + 1) (s2 + 1) c
  end.

(** ** Comparing *)

Fixpoint strcmp_loop (fuel : nat) (s t : Z) : M memory Z :=
  match fuel with
  | O => crash OutOfFuel
  | S fuel =>
      a ← rd s; b ← rd t;
      if a =? b then if a =? 0 then mret 0 else strcmp_loop fuel (s + 1) (t + 1)
      else mret (char a - char b)
  end.
Definition strcmp (s t : Z) : M memory Z := fuel ← bound; strcmp_loop fuel s t.

(** [n] is the number of characters after this one. *)
Fixpoint strncmp_loop (n : nat) (l r : Z) : M memory Z :=
  a ← rd l; b ← rd r;
  match n with
  | O => mret (a - b)
  | S n =>
      if negb (a =? 0) && negb (b =? 0) && (a =? b) then strncmp_loop n (l + 1) (r + 1)
      else mret (a - b)
  end.
Definition strncmp (l r n : Z) : M memory Z :=
  if n =? 0 then mret 0 else strncmp_loop (Z.to_nat (n - 1)) l r.

(** ** Copying strings *)

(** [while ( *src != '\0' ) *dest++ = *src++] and the terminator. *)
Fixpoint copy_string (fuel : nat) (dest src : Z) : M memory unit :=
  match fuel with
  | O => crash OutOfFuel
  | S fuel =>
      b ← rd src;
      if b =? 0 then wr dest 0 else wr dest b;; copy_string fuel (dest + 1) (src + 1)
  end.
Definition strcpy (dest src : Z) : M memory Z :=
  fuel ← bound; copy_string fuel dest src;; mret dest.

Fixpoint strncpy_loop (count : nat) (dest src : Z) : M memory unit :=
  match count with
  | O => mret tt
  | S n =>
      b ← rd src;
      if b =? 0 then wr dest 0;; strncpy_loop n (dest + 1) src
      else wr dest b;; strncpy_loop n (dest + 1) (src + 1)
  end.
Definition strncpy (dest src count : Z) : M memory Z :=
  strncpy_loop (Z.to_nat count) dest src;; mret dest.

Definition strcat (dest src : Z) : M memory Z :=
  fuel ← bound;
  e ← find_end fuel dest;
  copy_string fuel e src;;
  mret dest.

Fixpoint strncat_loop (n : nat) (dest src : Z) : M memory unit :=
  b ← rd src;
  if b =? 0 then wr dest 0
  else match n with O => wr dest 0 | S n => wr dest b;; strncat_loop n (dest + 1) (src + 1) end.
Definition strncat (dest src n : Z) : M memory Z :=
  dst_len ← strlen dest;
  strncat_loop (Z.to_nat n) (dest + dst_len) src;;
  mret dest.

(** [do *dst++ = *src++; while ( *src != '\0' )]: no terminator is written. *)
Fixpoint stpcpy_loop (fuel : nat) (dst src : Z) : M memory Z :=
  match fuel with
  | O => crash OutOfFuel
  | S fuel =>
      b ← rd src; wr dst b;;
      b' ← rd (src + 1);
      if b' =? 0 then mret dst else stpcpy_loop fuel (dst + 1) (src + 1)
  end.
Definition stpcpy (s1 s2 : Z) : M memory Z := fuel ← bound; stpcpy_loop fuel s1 s2.

(** The loop of [strlcpy] by bytes while [more], then where it stopped: the bytes left, the
    two pointers and the last byte copied. *)
Fixpoint strlcpy_bytes (stop : Z → bool) (n : nat) (d s : Z) : M memory (nat * Z * Z) :=
  if stop s then mret (n, d, s)
  else
    match n with
    | O => mret (O, d, s)
    | S n' => b ← rd s; wr d b;; if b =? 0 then mret (n, d, s) else strlcpy_bytes stop n' (d + 1) (s + 1)
    end.

Fixpoint strlcpy_words (fuel : nat) (n : nat) (d s : Z) : M memory (nat * Z * Z) :=
  match fuel with
  | O => crash OutOfFuel
  | S fuel =>
      if (n <? 8)%nat then mret (n, d, s)
      else
        w ← rd_word 8 s;
        if HASZERO w =? 0 then wr_word 8 d w;; strlcpy_words fuel (n - 8) (d + 8) (s + 8)
        else mret (n, d, s)
  end.

Definition strlcpy (d0 s0 n0 : Z) : M memory Z :=
  if n0 =? 0 then l ← strlen s0; mret l
  else
    fuel ← bound;
    '(n, d, s) ←
      (if Z.land s0 7 =? Z.land d0 7 then
         '(n, d, s) ← strlcpy_bytes ALIGNED (Z.to_nat (n0 - 1)) d0 s0;
         match n with
         | O => mret (n, d, s)
         | _ => b ← rd s; if b =? 0 then mret (n, d, s) else strlcpy_words fuel n d s
         end
       else mret (Z.to_nat (n0 - 1), d0, s0));
    '(n, d, s) ← strlcpy_bytes (λ _, false) n d s;
    wr d 0;;
    l ← strlen s;
    mret (d - d0 + l).

(** ** Searching *)

Fixpoint strchr_loop (fuel : nat) (s c : Z) : M memory Z :=
  match fuel with
  | O => crash OutOfFuel
  | S fuel =>
      b ← rd s;
      if negb (char b =? c) && negb (b =? 0) then strchr_loop fuel (s + 1) c
      else if b =? 0 then mret 0 else mret s
  end.
Definition strchr (s c : Z) : M memory Z := fuel ← bound; strchr_loop fuel s c.

(** The byte is looked at before [len] is. *)
Fixpoint strnchr (len : nat) (s c : Z) : M memory Z :=
  b ← rd s;
  match len with
  | O => mret 0
  | S n =>
      if negb (char b =? c) && negb (b =? 0) then strnchr n (s + 1) c
      else if b =? 0 then mret 0 else mret s
  end.

(** [while (len--) ... s--]. *)
Fixpoint strrchr_loop (len : nat) (s c : Z) : M memory Z :=
  match len with
  | O => mret 0
  | S n => b ← rd s; if char b =? c then mret s else strrchr_loop n (s - 1) c
  end.
Definition strrchr (s c : Z) : M memory Z := len ← strlen s; strrchr_loop (Z.to_nat len) s c.

(** Up to the character or the end, or the first aligned address. *)
Fixpoint chrnul_head (fuel : nat) (s c : Z) : M memory (bool * Z) :=
  match fuel with
  | O => crash OutOfFuel
  | S fuel =>
      if ALIGNED s then mret (false, s)
      else b ← rd s; if (b =? 0) || (b =? c) then mret (true, s) else chrnul_head fuel (s + 1) c
  end.

Fixpoint chrnul_words (fuel : nat) (w k : Z) : M memory Z :=
  match fuel with
  | O => crash OutOfFuel
  | S fuel =>
      x ← rd_word 8 w;
      if (HASZERO x =? 0) && (HASZERO (Z.lxor x k) =? 0) then chrnul_words fuel (w + 8) k else mret w
  end.

Fixpoint chrnul_bytes (fuel : nat) (s c : Z) : M memory Z :=
  match fuel with
  | O => crash OutOfFuel
  | S fuel => b ← rd s; if negb (b =? 0) && negb (b =? c) then chrnul_bytes fuel (s + 1) c else mret s
  end.

Definition __strchrnul (s c : Z) : M memory Z :=
  let c := c mod 256 in
  if c =? 0 then l ← strlen s; mret (s + l)
  else
    fuel ← bound;
    '(found, p) ← chrnul_head fuel s c;
    if (found : bool) then mret p
    else w ← chrnul_words fuel p (u64 (CONST1 * c)); chrnul_bytes fuel w c.

(** ** Sets of characters: four words of 64 bits *)

Definition byteset := list Z.

Fixpoint collect (fuel : nat) (c : Z) (set : byteset) : M memory byteset :=
  match fuel with
  | O => crash OutOfFuel
  | S fuel =>
      b ← rd c;
      if b =? 0 then mret set
      else set ← from_opt (bit_set set b) OutOfBounds; collect fuel (c + 1) set
  end.

(** To the terminator, or to the first character whose membership is not [inside]. *)
Fixpoint span (fuel : nat) (s : Z) (set : byteset) (inside : bool) : M memory Z :=
  match fuel with
  | O => crash OutOfFuel
  | S fuel =>
      b ← rd s;
      if b =? 0 then mret s
      else
        x ← from_opt (bit_get set b) OutOfBounds;
        if Bool.eqb x inside then span fuel (s + 1) set inside else mret s
  end.

(** [for (; *s == *c; s++)]. *)
Fixpoint span_one (fuel : nat) (s c : Z) : M memory Z :=
  match fuel with
  | O => crash OutOfFuel
  | S fuel => b ← rd s; if b =? c then span_one fuel (s + 1) c else mret s
  end.

Definition strspn (s c : Z) : M memory Z :=
  fuel ← bound;
  c0 ← rd c;
  if c0 =? 0 then mret 0
  else
    c1 ← rd (c + 1);
    if c1 =? 0 then e ← span_one fuel s c0; mret (e - s)
    else set ← collect fuel c [0; 0; 0; 0]; e ← span fuel s set true; mret (e - s).

Definition strcspn (s c : Z) : M memory Z :=
  fuel ← bound;
  c0 ← rd c;
  short ← (if c0 =? 0 then mret true else c1 ← rd (c + 1); mret (c1 =? 0));
  if (short : bool) then e ← __strchrnul s (char c0); mret (e - s)
  else set ← collect fuel c [0; 0; 0; 0]; e ← span fuel s set false; mret (e - s).

(** [p]: the state kept between calls; returns the token and the new state. *)
Definition strtok_r (s sep p : Z) : M memory (Z * Z) :=
  let s := if s =? 0 then p else s in
  if s =? 0 then mret (0, p)
  else
    n ← strspn s sep;
    let s := s + n in
    b ← rd s;
    if b =? 0 then mret (0, 0)
    else
      n ← strcspn s sep;
      let p := s + n in
      b ← rd p;
      if b =? 0 then mret (s, 0) else wr p 0;; mret (s, p + 1).

(** ** Numbers *)

Definition isspace (c : Z) : bool := (c =? 32) || (u32 (c - 9) <? 5).
Definition tolower (c : Z) : Z := if (c <? 91) && (64 <? c) then c + 32 else c.
Definition toupper (c : Z) : Z := if (96 <? c) && (c <? 123) then c - 32 else c.
Definition isnum (c : Z) : bool := (48 <=? c) && (c <=? 57).
Definition isalpha (c : Z) : bool := u32 (Z.lor (u32 c) 32 - 97) <? 26.
Definition isalnum (c : Z) : bool := isnum c || isalpha c.
Definition isprint (c : Z) : bool := u32 (c - 32) <? 95.

Fixpoint skip_space (fuel : nat) (nptr : Z) : M memory Z :=
  match fuel with
  | O => crash OutOfFuel
  | S fuel => b ← rd nptr; if isspace (char b) then skip_space fuel (nptr + 1) else mret nptr
  end.

Definition digit_value (c : Z) : Z :=
  if (65 <=? c) && (c <=? 90) then c - 65 + 10
  else if (97 <=? c) && (c <=? 122) then c - 97 + 10
  else if (48 <=? c) && (c <=? 57) then c - 48
  else -1.

(** One more digit, sticking at the largest number. *)
Definition accumulate (ret base v : Z) : Z :=
  let new_ret := u64 (ret * base) in
  if negb (new_ret / base =? ret) || (u64 (new_ret + v) <? new_ret) || (ret =? ULONG_MAX)
  then ULONG_MAX else u64 (new_ret + v).

(** The value and where it ends. *)
Fixpoint digits (fuel : nat) (nptr base ret : Z) : M memory (Z * Z) :=
  match fuel with
  | O => crash OutOfFuel
  | S fuel =>
      b ← rd nptr;
      let v := digit_value (char b) in
      if (v <? 0) || (base <=? v) then mret (ret, nptr)
      else digits fuel (nptr + 1) base (accumulate ret base v)
  end.

(** The base the digits are in, and where they start. *)
Definition strtoul_prefix (base nptr : Z) : M memory (Z * Z) :=
  b0 ← rd nptr;
  hex ← (if ((base =? 0) || (base =? 16)) && (b0 =? 48) then b1 ← rd (nptr + 1); mret (b1 =? 120)
         else mret false);
  mret (if (hex : bool) then (16, nptr + 2)
        else if (base =? 0) && (b0 =? 48) then (8, nptr + 1)
        else if base =? 0 then (10, nptr)
        else (base, nptr)).

(** The number, and [*endptr] where it is set. *)
Definition strtoul (nptr base : Z) : M memory (Z * option Z) :=
  if (base <? 0) || (base =? 1) || (36 <? base) then mret (0, None)
  else
    fuel ← bound;
    nptr ← skip_space fuel nptr;
    b ← rd nptr;
    let neg := b =? 45 in
    let nptr := if (b =? 43) || (b =? 45) then nptr + 1 else nptr in
    '(base, nptr) ← strtoul_prefix base nptr;
    '(ret, nptr) ← digits fuel nptr base 0;
    mret (if neg && negb (ret =? ULONG_MAX) then u64 (- ret) else ret, Some nptr).

(** ** Names of files: a literal of the code, or a place in the string *)

Inductive name :=
  | Dot
  | Slash
  | At (p : Z).

(** [for (; i && s[i] == '/'; i--) s[i] = 0]. *)
Fixpoint strip_slashes (i : nat) (s : Z) : M memory nat :=
  match i with
  | O => mret O
  | S i' => b ← rd (s + Z.of_nat i); if b =? 47 then wr (s + Z.of_nat i) 0;; strip_slashes i' s else mret i
  end.

(** [for (; i && s[i - 1] != '/'; i--)]. *)
Fixpoint component_start (i : nat) (s : Z) : M memory nat :=
  match i with
  | O => mret O
  | S i' => b ← rd (s + Z.of_nat i'); if b =? 47 then mret i else component_start i' s
  end.

Definition basename (s : Z) : M memory name :=
  if s =? 0 then mret Dot
  else
    b ← rd s;
    if b =? 0 then mret Dot
    else
      l ← strlen s;
      i ← strip_slashes (Z.to_nat (l - 1)) s;
      i ← component_start i s;
      mret (At (s + Z.of_nat i)).

(** [for (; (s[i] == '/') == slash; i--) if (!i) return ...]. *)
Fixpoint back_while (i : nat) (s : Z) (slash : bool) : M memory (option nat) :=
  b ← rd (s + Z.of_nat i);
  if Bool.eqb (b =? 47) slash then
    match i with O => mret None | S i => back_while i s slash end
  else mret (Some i).

Definition dirname (s : Z) : M memory name :=
  if s =? 0 then mret Dot
  else
    b ← rd s;
    if b =? 0 then mret Dot
    else
      l ← strlen s;
      i ← back_while (Z.to_nat (l - 1)) s true;
      match i with
      | None => mret Slash
      | Some i =>
          i ← back_while i s false;
          match i with
          | None => mret Dot
          | Some i =>
              i ← back_while i s true;
              match i with
              | None => mret Slash
              | Some i => wr (s + Z.of_nat (S i)) 0;; mret (At s)
              end
          end
      end.
