(* ===== verification/CstringProps.v ===== *)
(** * CstringProps: the string functions do what their names say

    Strings lie in memory as their bytes followed by a zero byte; the routines that look at
    eight bytes at a time read past the end of a string, inside its last word, which
    [words] says is there. *)

From S2P Require Import Prelude Abi Bits Bytes Cstring.

(** ** Bytes in memory *)

Fixpoint holds (m : memory) (p : Z) (l : list Z) : Prop :=
  match l with [] => True | b :: l => m !! p = Some b ∧ holds m (p + 1) l end.

Definition letter (b : Z) : Prop := 1 <= b < 256.

(** A string at [p]. *)
Definition cstr (m : memory) (p : Z) (s : list Z) : Prop :=
  holds m p (s ++ [0]) ∧ Forall letter s.

(** Memory comes in whole words of bytes. *)
Definition words (m : memory) : Prop :=
  map_Forall (λ _, byte) m ∧
  ∀ p q, p / 8 = q / 8 → is_Some (m !! p) → is_Some (m !! q).

Lemma holds_app m p l l' :
  holds m p (l ++ l') ↔ holds m p l ∧ holds m (p + Z.of_nat (length l)) l'.
Proof.
  revert p; induction l as [|b l IH]; intros p; cbn [holds app length].
  - rewrite Z.add_0_r. naive_solver.
  - rewrite IH. replace (p + 1 + Z.of_nat (length l)) with (p + Z.of_nat (S (length l))) by lia. naive_solver.
Qed.

Lemma holds_lookup m p l :
  holds m p l ↔ ∀ i b, l !! i = Some b → m !! (p + Z.of_nat i) = Some b.
Proof.
  revert p; induction l as [|b l IH]; intros p; cbn [holds]; [naive_solver|].
  rewrite IH. split.
  - intros [Hb Hl] [|i] c Hc; simplify_eq/=; [by rewrite Z.add_0_r|].
    rewrite <-(Hl _ _ Hc). f_equal. lia.
  - intros H. split; [rewrite <-(H 0%nat b eq_refl); f_equal; lia|].
    intros i c Hc. rewrite <-(H (S i) c Hc). f_equal. lia.
Qed.

(** What lies in memory is no longer than memory. *)
Lemma holds_size m p l : holds m p l → (length l <= size m)%nat.
Proof.
  intros H. rewrite holds_lookup in H.
  assert (Hs : list_to_set (C := gset Z) (seqZ p (Z.of_nat (length l))) ⊆ dom m).
  { intros x. rewrite elem_of_list_to_set, elem_of_seqZ, elem_of_dom. intros Hx.
    destruct (lookup_lt_is_Some_2 l (Z.to_nat (x - p))) as [b Hb]; [lia|].
    exists b. rewrite <-(H _ _ Hb). f_equal. lia. }
  apply subseteq_size in Hs. rewrite size_list_to_set, length_seqZ in Hs by apply NoDup_seqZ.
  rewrite size_dom in Hs. lia.
Qed.

Lemma cstr_cons m p b s : cstr m p (b :: s) ↔ m !! p = Some b ∧ letter b ∧ cstr m (p + 1) s.
Proof. unfold cstr. cbn [holds app]. rewrite list.Forall_cons. naive_solver. Qed.

Lemma cstr_nil m p : cstr m p [] ↔ m !! p = Some 0.
Proof. unfold cstr. cbn. naive_solver. Qed.

Lemma cstr_app m p s s' :
  cstr m p (s ++ s') → holds m p s ∧ cstr m (p + Z.of_nat (length s)) s'.
Proof.
  intros [H Hs]. rewrite <-app_assoc, holds_app in H. apply list.Forall_app in Hs.
  by destruct H, Hs.
Qed.

Lemma cstr_size m p s : cstr m p s → (length s < size m)%nat.
Proof. intros [H _]. apply holds_size in H. rewrite length_app in H. cbn in H. lia. Qed.

(** ** Reading and writing *)

Lemma wp_rd p b (Q : Z → memory → Prop) m : m !! p = Some b → Q b m → wp (rd p) Q m.
Proof. intros H HQ. unfold rd. wp_steps; done. Qed.

Lemma wp_wr p b (Q : unit → memory → Prop) m :
  is_Some (m !! p) → Q tt (<[p := b mod 256]> m) → wp (wr p b) Q m.
Proof. intros [x H] HQ. unfold wr. wp_step. eapply wp_rd; [done|]. by wp_step. Qed.

Ltac cstep :=
  lazymatch goal with
  | |- wp (rd _) _ _ => eapply wp_rd; [eassumption|]
  | |- wp (wr _ _) _ _ => eapply wp_wr
  | |- wp bound _ _ => unfold bound; apply wp_gets
  | |- _ => wp_step
  end; cbn beta iota.
Ltac csteps := repeat cstep.

(** ** Looking for a zero byte in a word *)

(** The mask of [n] bytes, over the integers. *)
Definition zeros (l : list Z) : Z :=
  Z.land (Z.land (word l - word (replicate (length l) 1)) (Z.lnot (word l)))
    (word (replicate (length l) 128)).

Lemma small_mask b : letter b → Z.land (Z.land (b - 1) (255 - b)) 128 = 0.
Proof.
  intros Hb. assert (H : Forall (λ b, Z.land (Z.land (b - 1) (255 - b)) 128 = 0) (seqZ 1 255)).
  { vm_compute. repeat constructor. }
  rewrite list.Forall_forall in H. apply H, elem_of_seqZ. unfold letter in Hb. lia.
Qed.

Lemma zeros_cons b l : byte b →
  zeros (b :: l) = if b =? 0 then 128 + 256 * Z.land (Z.land (word l - word (replicate (length l) 1) - 1)
    (Z.lnot (word l))) (word (replicate (length l) 128)) else 256 * zeros l.
Proof.
  intros Hb. unfold zeros. cbn [length replicate word].
  set (x := word l). set (o := word _). set (h := word _).
  assert (Hn : Z.lnot (b + 256 * x) = (255 - b) + 256 * Z.lnot x) by (unfold Z.lnot; lia).
  assert (byte (255 - b)) by (unfold byte in *; lia). rewrite Hn.
  destruct (Z.eqb_spec b 0) as [->|Hz].
  - replace (0 + 256 * x - (1 + 256 * o)) with (255 + 256 * (x - o - 1)) by lia.
    rewrite !land_byte; done.
  - replace (b + 256 * x - (1 + 256 * o)) with ((b - 1) + 256 * (x - o)) by lia.
    assert (byte (b - 1)) by (unfold byte in *; lia).
    assert (byte (Z.land (b - 1) (255 - b))).
    { apply byte_bits. intros i Hi. by rewrite Z.land_spec, (proj1 (byte_bits (b - 1))). }
    rewrite !land_byte by done. rewrite small_mask; [lia|]. unfold letter, byte in *. lia.
Qed.

Lemma zeros_spec l : Forall byte l → zeros l = 0 ↔ 0 ∉ l.
Proof.
  induction 1 as [|b l Hb Hl IH]; [split; [intros _; apply not_elem_of_nil|done]|].
  rewrite zeros_cons, list.not_elem_of_cons by done.
  destruct (Z.eqb_spec b 0) as [->|Hz]; [|rewrite <-IH; lia].
  split; [|by intros []]. intros H. exfalso.
  assert (0 <= word (replicate (length l) 128)).
  { apply word_nonneg, list.Forall_forall. intros x Hx. apply elem_of_replicate in Hx as [-> _]. done. }
  set (y := Z.land _ _) in H. assert (0 <= y) by (apply Z.land_nonneg; auto). lia.
Qed.

(** [HASZERO] tells whether one of the eight bytes is zero. *)
Lemma HASZERO_spec l : Forall byte l → length l = 8%nat → HASZERO (word l) = 0 ↔ 0 ∉ l.
Proof.
  intros Hl Hn. rewrite <-zeros_spec by done. unfold HASZERO, zeros. rewrite Hn.
  replace (word (replicate 8 1)) with CONST1 by done. replace (word (replicate 8 128)) with CONST2 by done.
  assert (He : Z.land (Z.land (u64 (word l - CONST1)) (Z.lnot (word l))) CONST2 =
               Z.land (Z.land (word l - CONST1) (Z.lnot (word l))) CONST2); [|by rewrite He].
  apply Z.bits_inj'. intros i Hi. rewrite !Z.land_spec, testbit_u64.
  destruct (Z.ltb_spec i 64); [done|].
  rewrite (is_u64_high CONST2 i), !andb_false_r; [done| |done]. split; vm_compute; done.
Qed.

(** ** Words in memory *)

Lemma wp_rd_word n p l (Q : Z → memory → Prop) m :
  holds m p l → length l = n → Q (word l) m → wp (rd_word n p) Q m.
Proof.
  revert p l Q; induction n as [|n IH]; intros p [|b l] Q Hl Hn HQ; try done; cbn [rd_word].
  destruct Hl as [Hb Hl]. injection Hn as Hn. csteps. eapply IH; [done..|]. by csteps.
Qed.

Lemma bytes_there m p n :
  words m → (∀ i, 0 <= i < Z.of_nat n → is_Some (m !! (p + i))) →
  ∃ l, holds m p l ∧ length l = n ∧ Forall byte l.
Proof.
  intros [Hb _]. revert p; induction n as [|n IH]; intros p H; [by exists []|].
  destruct (IH (p + 1)) as (l & Hl & Hn & Hf).
  { intros i Hi. replace (p + 1 + i) with (p + (i + 1)) by lia. apply H. lia. }
  destruct (H 0) as [b Hp]; [lia|]. rewrite Z.add_0_r in Hp.
  exists (b :: l). split_and!; [done|cbn; congruence|]. constructor; [by eapply Hb|done].
Qed.

(** The word at an aligned address of which the first byte is there. *)
Lemma word_there m p : words m → p mod 8 = 0 → is_Some (m !! p) →
  ∃ l, holds m p l ∧ length l = 8%nat ∧ Forall byte l.
Proof.
  intros Hm Ha Hp. apply bytes_there; [done|]. intros i Hi. destruct Hm as [_ Hm]. eapply (Hm p); [|done].
  Z.to_euclidean_division_equations; lia.
Qed.

Lemma holds_agree m p l l' : holds m p l → holds m p l' → (length l <= length l')%nat → l `prefix_of` l'.
Proof.
  revert p l'; induction l as [|b l IH]; intros p l' H H' Hn; [apply prefix_nil|].
  destruct l' as [|b' l']; cbn in Hn; [lia|]. destruct H as [Hb H], H' as [Hb' H']. simplify_eq.
  apply prefix_cons, (IH (p + 1)); [done..|lia].
Qed.

(** A word without a zero byte is all inside the string. *)
Lemma word_inside m p l s : holds m p l → 0 ∉ l → cstr m p s →
  ∃ s', s = l ++ s' ∧ cstr m (p + Z.of_nat (length l)) s'.
Proof.
  intros Hl Hz Hs. destruct (decide (length l <= length s)%nat) as [Hn|Hn].
  - assert (Hp : l `prefix_of` s).
    { destruct Hs as [Hh _]. apply holds_app in Hh as [Hh _]. by eapply holds_agree. }
    destruct Hp as [s' ->]. exists s'. split; [done|]. by eapply cstr_app.
  - destruct Hs as [Hh _]. assert (Hp : s ++ [0] `prefix_of` l).
    { eapply holds_agree; [done..|]. rewrite length_app. cbn. lia. }
    destruct Hp as [k ->]. destruct Hz. rewrite !list.elem_of_app, list_elem_of_singleton. auto.
Qed.

Lemma cstr_first m p s : cstr m p s → is_Some (m !! p).
Proof. destruct s; [rewrite cstr_nil|rewrite cstr_cons]; naive_solver. Qed.

Lemma aligned_spec p : ALIGNED p = true ↔ p mod 8 = 0.
Proof.
  unfold ALIGNED, has, truthy. change 7 with (Z.ones 3). rewrite Z.land_ones by lia. change (2 ^ 3) with 8.
  rewrite negb_involutive, Z.eqb_eq. done.
Qed.

(** ** Length *)

(** [q] lies in the string [s] at [p], with [s'] left from there. *)
Definition within (m : memory) (p : Z) (s : list Z) (q : Z) (s' : list Z) : Prop :=
  ∃ k, s = k ++ s' ∧ q = p + Z.of_nat (length k) ∧ cstr m q s'.

Lemma within_refl m p s : cstr m p s → within m p s p s.
Proof. exists []. split_and!; [done|cbn; lia|done]. Qed.

Lemma within_trans m p s q s' r s'' : within m p s q s' → within m q s' r s'' → within m p s r s''.
Proof.
  intros (k & -> & -> & _) (k' & -> & -> & H). exists (k ++ k').
  rewrite <-app_assoc, length_app. split_and!; [done|lia|done].
Qed.

Lemma within_next m p b s : cstr m p (b :: s) → within m p (b :: s) (p + 1) s.
Proof. rewrite cstr_cons. intros (_ & _ & H). by exists [b]. Qed.

Lemma wp_strlen_head fuel m p s : cstr m p s → (length s < fuel)%nat →
  wp (strlen_head fuel p) (λ '(found, q) m', m' = m ∧ ∃ s', within m p s q s' ∧
    if (found : bool) then s' = [] else q mod 8 = 0) m.
Proof.
  revert p s; induction fuel as [|fuel IH]; intros p s Hs Hf; [lia|]. cbn [strlen_head].
  destruct (ALIGNED p) eqn:Ha.
  { wp_step. split; [done|]. exists s. split; [by apply within_refl|by apply aligned_spec]. }
  destruct s as [|b s].
  - pose proof Hs as H0. rewrite cstr_nil in H0. csteps; [|done].
    split; [done|]. exists []. split; [by apply within_refl|done].
  - pose proof (within_next _ _ _ _ Hs) as Hw. rewrite cstr_cons in Hs. destruct Hs as (Hb & Hl & Hs).
    cbn in Hf. csteps; [unfold letter in Hl; lia|].
    eapply wp_mono; [apply (IH _ s); [done|lia]|]. intros [found q] m' (-> & s' & Hq & Ht).
    split; [done|]. exists s'. split; [by eapply within_trans|done].
Qed.

Lemma wp_strlen_words fuel m p s :
  words m → cstr m p s → p mod 8 = 0 → (length s < fuel)%nat →
  wp (strlen_words fuel p) (λ q m', m' = m ∧ ∃ s', within m p s q s') m.
Proof.
  intros Hm. revert p s; induction fuel as [|fuel IH]; intros p s Hs Ha Hf; [lia|]. cbn [strlen_words].
  destruct (word_there m p) as (l & Hl & Hn & Hb); [done..|by eapply cstr_first|].
  wp_step. eapply wp_rd_word; [done..|]. csteps; [|by split; [|eexists; apply within_refl]].
  apply Z.eqb_eq, HASZERO_spec in H; [|done..].
  destruct (word_inside _ _ _ _ Hl H Hs) as (s' & -> & Hs'). rewrite length_app in Hf.
  rewrite Hn in *. eapply wp_mono; [apply (IH _ s'); [done|by rewrite Z.add_mod, Ha by done|lia]|].
  intros q m' (-> & s'' & Hq). split; [done|]. exists s''. eapply within_trans; [|done].
  exists l. by rewrite Hn.
Qed.

Lemma wp_find_end fuel m p s : cstr m p s → (length s < fuel)%nat →
  wp (find_end fuel p) (λ q m', m' = m ∧ q = p + Z.of_nat (length s)) m.
Proof.
  revert p s; induction fuel as [|fuel IH]; intros p s Hs Hf; [lia|]. cbn [find_end].
  destruct s as [|b s].
  - rewrite cstr_nil in Hs. csteps; [|done]. split; [done|cbn; lia].
  - rewrite cstr_cons in Hs. destruct Hs as (Hb & Hl & Hs). cbn in Hf.
    csteps; [unfold letter in Hl; lia|].
    eapply wp_mono; [apply (IH _ s); [done|lia]|]. intros q m' [-> ->]. cbn [length]. split; [done|lia].
Qed.

Lemma within_length m p s q s' : within m p s q s' →
  cstr m q s' ∧ (length s' <= length s)%nat ∧ q - p = Z.of_nat (length s) - Z.of_nat (length s').
Proof. intros (k & -> & -> & H). rewrite length_app. split_and!; [done|lia|lia]. Qed.

Lemma wp_strlen m p s (Q : Z → memory → Prop) :
  words m → cstr m p s → Q (Z.of_nat (length s)) m → wp (strlen p) Q m.
Proof.
  intros Hm Hs HQ. unfold strlen. pose proof (cstr_size _ _ _ Hs) as Hsz. do 2 cstep. wp_step.
  eapply wp_mono; [eapply wp_strlen_head; [done|lia]|]. intros [found q] ? (-> & s' & Hw & Hf).
  destruct (within_length _ _ _ _ _ Hw) as (Hs' & Hn & Hq). destruct found.
  - subst s'. cbn in Hq. wp_step. by replace (q - p) with (Z.of_nat (length s)) by lia.
  - wp_step. eapply wp_mono; [eapply wp_strlen_words; [done..|lia]|]. intros r ? (-> & s'' & Hw').
    destruct (within_length _ _ _ _ _ Hw') as (Hs'' & Hn' & Hr). wp_step.
    eapply wp_mono; [eapply wp_find_end; [done|lia]|]. intros e ? [-> ->]. wp_step.
    by replace (r + Z.of_nat (length s'') - p) with (Z.of_nat (length s)) by lia.
Qed.

(** ** Blocks of memory *)

(** Memory with [l] written from [p] on. *)
Fixpoint put (m : memory) (p : Z) (l : list Z) : memory :=
  match l with [] => m | b :: l => <[p := b]> (put m (p + 1) l) end.

(** [n] bytes from [p] on are there. *)
Definition room (m : memory) (p : Z) (n : nat) : Prop :=
  ∀ i, 0 <= i < Z.of_nat n → is_Some (m !! (p + i)).

Lemma lookup_put m p l q :
  put m p l !! q = if decide (p <= q < p + Z.of_nat (length l)) then l !! Z.to_nat (q - p) else m !! q.
Proof.
  revert p; induction l as [|b l IH]; intros p; cbn [put length].
  { rewrite decide_False by lia. done. }
  destruct (decide (q = p)) as [->|Hq].
  - rewrite lookup_insert_eq, decide_True, Z.sub_diag by lia. done.
  - rewrite lookup_insert_ne, IH by done. repeat case_decide; try lia; [|done].
    by replace (Z.to_nat (q - p)) with (S (Z.to_nat (q - (p + 1)))) by lia.
Qed.

Lemma lookup_put_out m p l q : ¬ p <= q < p + Z.of_nat (length l) → put m p l !! q = m !! q.
Proof. intros H. rewrite lookup_put. by rewrite decide_False. Qed.

Lemma put_app m p l l' : put m p (l ++ l') = put (put m p l) (p + Z.of_nat (length l)) l'.
Proof.
  apply map_eq. intros q. rewrite !lookup_put, length_app.
  repeat case_decide; try lia; [|by rewrite lookup_app_l by lia|done].
  rewrite lookup_app_r by lia. f_equal. lia.
Qed.

Lemma put_snoc m p l b : put m p (l ++ [b]) = <[p + Z.of_nat (length l) := b]> (put m p l).
Proof. by rewrite put_app. Qed.

Lemma put_front m p b l : put m p (b :: l) = put (<[p := b]> m) (p + 1) l.
Proof. apply (put_app m p [b] l). Qed.

Lemma room_put m p l q n : room m q n → room (put m p l) q n.
Proof.
  intros H i Hi. rewrite lookup_put. case_decide; [|by apply H]. apply lookup_lt_is_Some_2. lia.
Qed.

Lemma room_insert m p b q n : room m q n → room (<[p := b]> m) q n.
Proof. apply (room_put m p [b]). Qed.

Lemma room_first m p n : room m p (S n) → is_Some (m !! p).
Proof. intros H. rewrite <-(Z.add_0_r p). apply H. lia. Qed.

Lemma room_tail m p n : room m p (S n) → room m (p + 1) n.
Proof. intros H i Hi. replace (p + 1 + i) with (p + (1 + i)) by lia. apply H. lia. Qed.

Lemma holds_put_out m p l q k :
  q + Z.of_nat (length k) <= p ∨ p + Z.of_nat (length l) <= q → holds m q k → holds (put m p l) q k.
Proof.
  rewrite !holds_lookup. intros Hd H i b Hb. rewrite lookup_put_out; [by apply H|].
  apply lookup_lt_Some in Hb. lia.
Qed.

Lemma holds_put m p l : holds (put m p l) p l.
Proof.
  apply holds_lookup. intros i b Hb. pose proof (lookup_lt_Some _ _ _ Hb). rewrite lookup_put, decide_True by lia.
  rewrite <-Hb. f_equal. lia.
Qed.

Lemma byte_mod b : byte b → b mod 256 = b.
Proof. unfold byte. intros. apply Z.mod_small. lia. Qed.

(** Copying upwards is right unless the target starts inside the source. *)
Lemma wp_copy_up l m d s (Q : unit → memory → Prop) :
  holds m s l → Forall byte l → room m d (length l) → d <= s ∨ s + Z.of_nat (length l) <= d →
  Q tt (put m d l) → wp (copy_up (length l) d s) Q m.
Proof.
  revert m d s; induction l as [|b l IH]; intros m d s Hl Hf Hr Hd HQ; cbn [length copy_up]; [done|].
  destruct Hl as [Hb Hl]. inversion_clear Hf as [|? ? Hy Hf']. cbn [length] in Hd. csteps; [by eapply room_first|].
  rewrite byte_mod by done. rewrite put_front in HQ. apply IH; [|done|by apply room_insert, room_tail|lia|done].
  destruct (decide (d = s)) as [->|].
  - apply (holds_put_out m s [b]); [cbn; lia|done].
  - apply (holds_put_out m d [b]); [cbn; lia|done].
Qed.

(** Copying downwards, unless the source starts inside the target. *)
Lemma wp_copy_down i l m d s (Q : unit → memory → Prop) :
  holds m s l → Forall byte l → room m d (length l) → s <= d → (i <= length l)%nat →
  Q tt (put m d l) → wp (copy_down i d s) Q (put m (d + Z.of_nat i) (drop i l)).
Proof.
  intros Hl Hf Hr Hd. induction i as [|i IH]; intros Hi HQ; cbn [copy_down].
  { wp_step. by rewrite Z.add_0_r. }
  destruct (lookup_lt_is_Some_2 l i) as [b Hb]; [lia|].
  assert (Hs : put m (d + Z.of_nat (S i)) (drop (S i) l) !! (s + Z.of_nat i) = Some b).
  { rewrite lookup_put_out by lia. rewrite holds_lookup in Hl. by apply Hl. }
  csteps; [apply room_put with (n := length l); [done|lia]|].
  assert (Hb' : byte b) by (rewrite list.Forall_forall in Hf; eapply Hf, list_elem_of_lookup_2; done).
  rewrite byte_mod by done. replace (<[_ := b]> _) with (put m (d + Z.of_nat i) (drop i l)); [apply IH; [lia|done]|].
  rewrite (drop_S l b i) by done. cbn [put]. do 2 f_equal. lia.
Qed.

(** The bytes are copied whether or not the two blocks overlap: afterwards the target holds
    what the source held, and no other byte has changed. *)
Theorem memmove_copies (m : memory) (d s : Z) (l : list Z) :
  holds m s l → Forall byte l → room m d (length l) →
  wp (memmove d s (Z.of_nat (length l)))
    (λ r m', r = d ∧ holds m' d l ∧ ∀ q, ¬ d <= q < d + Z.of_nat (length l) → m' !! q = m !! q) m.
Proof.
  intros Hl Hf Hr. unfold memmove. rewrite Nat2Z.id.
  assert (HQ : d = d ∧ holds (put m d l) d l ∧
    ∀ q, ¬ d <= q < d + Z.of_nat (length l) → put m d l !! q = m !! q).
  { split_and!; [done|apply holds_put|]. intros q Hq. by apply lookup_put_out. }
  wp_step. destruct (Z.ltb_spec d s).
  - apply wp_copy_up; [done..|lia|by wp_step].
  - pose proof (wp_copy_down (length l) l m d s) as H'. rewrite drop_all in H'.
    apply H'; [done..|]. by wp_step.
Qed.

(** Five bytes moved up by two inside a block of seven. *)
Definition block : memory := put ∅ 100 [1; 2; 3; 4; 5; 6; 7].

Lemma memmove_copies_witness :
  holds block 100 [1; 2; 3; 4; 5] ∧
  wp (memmove 102 100 5) (λ r m', r = 102 ∧ holds m' 102 [1; 2; 3; 4; 5] ∧
    ∀ q, ¬ 102 <= q < 107 → m' !! q = block !! q) block.
Proof.
  split; [vm_compute; tauto|].
  apply (memmove_copies block 102 100 [1; 2; 3; 4; 5]); [vm_compute; tauto|repeat constructor; lia|].
  intros i Hi. cbn in Hi.
  assert (i = 0 ∨ i = 1 ∨ i = 2 ∨ i = 3 ∨ i = 4) as [->|[->|[->|[->| ->]]]] by lia; by eexists.
Defined.

(** ** Copying strings with a bound *)

Lemma words_put m p l : words m → Forall byte l → room m p (length l) → words (put m p l).
Proof.
  intros [Hb Hw] Hl Hr. split.
  - intros q b. rewrite lookup_put. case_decide; [|apply Hb].
    intros H'. rewrite list.Forall_forall in Hl. by eapply Hl, list_elem_of_lookup_2.
  - assert (Hd : ∀ q, is_Some (put m p l !! q) ↔ is_Some (m !! q)).
    { intros q. rewrite lookup_put. case_decide as Hq; [|done]. split; intros _.
      - replace q with (p + (q - p)) by lia. apply Hr. lia.
      - apply lookup_lt_is_Some_2. lia. }
    intros q r Hqr. rewrite !Hd. by apply Hw.
Qed.

Lemma cstr_put_out m p l q s :
  q + Z.of_nat (length s) < p ∨ p + Z.of_nat (length l) <= q → cstr m q s → cstr (put m p l) q s.
Proof.
  intros Hd [H Hs]. split; [|done]. apply holds_put_out; [|done]. rewrite length_app. cbn. lia.
Qed.

Lemma wp_wr_word n l m p (Q : unit → memory → Prop) :
  length l = n → Forall byte l → room m p n → Q tt (put m p l) → wp (wr_word n p (word l)) Q m.
Proof.
  intros <-. revert m p; induction l as [|b l IH]; intros m p Hf Hr HQ; cbn [length wr_word word]; [done|].
  inversion_clear Hf as [|? ? Hy Hf']. csteps; [by eapply room_first|].
  assert (Hm : (b + 256 * word l) mod 256 = b) by (unfold byte in Hy; Z.to_euclidean_division_equations; lia).
  assert (Hd : (b + 256 * word l) / 256 = word l) by (unfold byte in Hy; Z.to_euclidean_division_equations; lia).
  rewrite Hm, Hd, byte_mod by done. rewrite put_front in HQ.
  apply IH; [done|by apply room_insert, room_tail|done].
Qed.

Section strlcpy.
Context (m0 : memory) (d0 s0 : Z) (str : list Z) (n0 : nat).
Hypothesis Hwords : words m0.
Hypothesis Hstr : cstr m0 s0 str.
Hypothesis Hroom : room m0 d0 n0.
(** The string, its terminator included, and the buffer are apart. *)
Hypothesis Hapart : s0 + Z.of_nat (length str) < d0 ∨ d0 + Z.of_nat n0 <= s0.

(** The bytes [k] have been copied and [n] may follow; the next byte of the target may have
    been written. *)
Definition copied (k rest : list Z) (n : nat) (m : memory) : Prop :=
  str = k ++ rest ∧ (length k + n < n0)%nat ∧
  (∀ q, ¬ d0 <= q < d0 + Z.of_nat n0 → m !! q = m0 !! q) ∧
  words m ∧ room m d0 n0 ∧
  <[d0 + Z.of_nat (length k) := 0]> m = put m0 d0 (k ++ [0]).

Lemma copied_source k rest n m : copied k rest n m → cstr m (s0 + Z.of_nat (length k)) rest.
Proof.
  intros (Hs & _ & Ho & _). pose proof Hstr as Hc. rewrite Hs in Hc. apply cstr_app in Hc as [_ Hc].
  destruct Hc as [Hh Hl]. split; [|done]. rewrite holds_lookup in Hh |- *. intros i b Hb.
  rewrite Ho; [by apply Hh|]. apply lookup_lt_Some in Hb. rewrite length_app in Hb. cbn in Hb.
  rewrite Hs, length_app in Hapart. lia.
Qed.

Lemma copied_letters k rest n m : copied k rest n m → Forall byte rest.
Proof.
  intros (Hs & _). destruct Hstr as [_ Hl]. rewrite Hs in Hl. apply list.Forall_app in Hl as [_ Hl].
  eapply list.Forall_impl; [done|]. unfold letter, byte. lia.
Qed.

Lemma copied_step k l rest n m :
  copied k (l ++ rest) (length l + n) m → copied (k ++ l) rest n (put m (d0 + Z.of_nat (length k)) l).
Proof.
  intros Hc. pose proof (copied_letters _ _ _ _ Hc) as Hl. apply list.Forall_app in Hl as [Hl _].
  destruct Hc as (Hs & Hn & Ho & Hw & Hr & He). unfold copied. rewrite length_app.
  assert (Hr' : room m (d0 + Z.of_nat (length k)) (length l)).
  { intros i Hi. rewrite <-Z.add_assoc. apply Hr. lia. }
  split_and!; [by rewrite <-app_assoc|lia| |by apply words_put|by apply room_put|].
  - intros q Hq. rewrite lookup_put_out by lia. by apply Ho.
  - rewrite <-app_assoc. apply map_eq. intros q.
    assert (Hq : (<[d0 + Z.of_nat (length k) := 0]> m : memory) !! q = put m0 d0 (k ++ [0]) !! q) by by rewrite He.
    destruct (decide (q = d0 + Z.of_nat (length k + length l))) as [->|Hne].
    { rewrite lookup_insert_eq, lookup_put, decide_True by (rewrite !length_app; cbn; lia).
      rewrite lookup_app_r, lookup_app_r by lia. replace (_ - _ - _)%nat with 0%nat by lia. done. }
    rewrite lookup_insert_ne, !lookup_put, !length_app by done. cbn [length].
    repeat case_decide; try lia.
    + rewrite lookup_app_r, lookup_app_l by lia. f_equal. lia.
    + rewrite lookup_insert_ne, lookup_put, decide_True in Hq by (rewrite ?length_app; cbn; lia).
      rewrite Hq. by rewrite !lookup_app_l by lia.
    + rewrite lookup_insert_ne, lookup_put, decide_False in Hq by (rewrite ?length_app; cbn; lia). done.
Qed.

Lemma copied_room k rest n m : copied k rest n m → is_Some (m !! (d0 + Z.of_nat (length k))).
Proof. intros (_ & Hn & _ & _ & Hr & _). apply Hr. lia. Qed.

Lemma copied_end k n m : copied k [] n m → copied k [] n (<[d0 + Z.of_nat (length k) := 0]> m).
Proof.
  intros (Hs & Hn & Ho & Hw & Hr & He). unfold copied. split_and!; [done..| | | |].
  - intros q Hq. rewrite lookup_insert_ne by lia. by apply Ho.
  - apply (words_put m _ [0]); [done|by repeat constructor|]. intros i Hi. cbn in Hi.
    rewrite <-Z.add_assoc. apply Hr. lia.
  - by apply room_insert.
  - by rewrite insert_insert_eq.
Qed.

(** Where a loop has stopped: [n] bytes are left, or the string has ended. *)
Definition stopped (fin : nat → list Z → Z → Prop) (k rest : list Z) (n : nat) : (nat * Z * Z) → memory → Prop :=
  λ '(n', d', s') m', ∃ l rest', rest = l ++ rest' ∧ n = (length l + n')%nat ∧
    d' = d0 + Z.of_nat (length (k ++ l)) ∧ s' = s0 + Z.of_nat (length (k ++ l)) ∧
    copied (k ++ l) rest' n' m' ∧ fin n' rest' s'.

Lemma stopped_here (fin : nat → list Z → Z → Prop) k rest n m :
  copied k rest n m → fin n rest (s0 + Z.of_nat (length k)) →
  stopped fin k rest n (n, d0 + Z.of_nat (length k), s0 + Z.of_nat (length k)) m.
Proof. exists [], rest. rewrite app_nil_r. done. Qed.

Lemma stopped_later fin k l rest n r m :
  stopped fin (k ++ l) rest n r m → stopped fin k (l ++ rest) (length l + n) r m.
Proof.
  destruct r as [[n' d'] s']. intros (l' & rest' & -> & -> & -> & -> & Hc & Hf).
  exists (l ++ l'), rest'. rewrite <-!app_assoc in *. rewrite !length_app in *. split_and!; [done|lia|done..].
Qed.

Lemma wp_strlcpy_bytes stop k rest n m : copied k rest n m →
  wp (strlcpy_bytes stop n (d0 + Z.of_nat (length k)) (s0 + Z.of_nat (length k)))
    (stopped (λ n' rest' s', stop s' = true ∨ n' = O ∨ rest' = []) k rest n) m.
Proof.
  revert k rest m; induction n as [|n IH]; intros k rest m Hc; cbn [strlcpy_bytes].
  all: apply wp_if; intros Hst; [wp_step; apply stopped_here; auto|].
  { wp_step. apply stopped_here; auto. }
  pose proof (copied_source _ _ _ _ Hc) as Hs. pose proof (copied_room _ _ _ _ Hc) as Hrm.
  destruct rest as [|b rest].
  - rewrite cstr_nil in Hs. csteps; [done| |done]. apply stopped_here; [by apply copied_end|auto].
  - pose proof (copied_letters _ _ _ _ Hc) as Hy. inversion_clear Hy as [|? ? Hy' _].
    rewrite cstr_cons in Hs. destruct Hs as (Hb & Hl & Hs).
    csteps; [done|unfold letter in Hl; lia|]. rewrite byte_mod by done.
    pose proof (copied_step k [b] rest n m Hc) as Hc'. specialize (IH _ _ _ Hc').
    rewrite length_app, Nat2Z.inj_add, !Z.add_assoc in IH.
    eapply wp_mono; [apply IH|]. intros r m'. apply (stopped_later _ k [b]).
Qed.

Lemma wp_strlcpy_words fuel k rest n m :
  copied k rest n m → (s0 + Z.of_nat (length k)) mod 8 = 0 → (length rest < fuel)%nat →
  wp (strlcpy_words fuel n (d0 + Z.of_nat (length k)) (s0 + Z.of_nat (length k)))
    (stopped (λ _ _ _, True) k rest n) m.
Proof.
  revert k rest n m; induction fuel as [|fuel IH]; intros k rest n m Hc Ha Hf; [lia|]. cbn [strlcpy_words].
  apply wp_if; intros Hn; [wp_step; by apply stopped_here|]. apply Nat.ltb_ge in Hn.
  pose proof (copied_source _ _ _ _ Hc) as Hs. assert (Hm : words m) by apply Hc.
  destruct (word_there _ _ Hm Ha) as (l & Hl & Hn8 & Hb); [by eapply cstr_first|].
  wp_step. eapply wp_rd_word; [done..|]. apply wp_if; intros Hz; [|wp_step; by apply stopped_here].
  apply Z.eqb_eq, HASZERO_spec in Hz; [|done..].
  destruct (word_inside _ _ _ _ Hl Hz Hs) as (rest' & -> & _).
  replace n with (length l + (n - 8))%nat in Hc |- * by lia. pose proof (copied_step _ _ _ _ _ Hc) as Hc'.
  wp_step. apply wp_wr_word; [done..| |].
  { intros i Hi. rewrite <-Z.add_assoc. apply Hc. destruct Hc as (_ & Hk & _). lia. }
  replace (length l + (n - 8) - 8)%nat with (n - 8)%nat by lia.
  specialize (IH _ _ _ _ Hc'). rewrite !length_app, !Nat2Z.inj_add, !Z.add_assoc, Hn8 in IH. rewrite length_app in Hf.
  eapply wp_mono; [apply IH; [by rewrite Z.add_mod, Ha by done|lia]|].
  intros r m'. apply stopped_later.
Qed.

(** The first phase: to an aligned address, then by words. *)
Lemma wp_strlcpy_fast fuel n : copied [] str n m0 → (length str < fuel)%nat →
  wp ('(n, d, s) ← strlcpy_bytes ALIGNED n d0 s0;
      match n with
      | O => mret (n, d, s)
      | _ => b ← rd s; if b =? 0 then mret (n, d, s) else strlcpy_words fuel n d s
      end) (stopped (λ _ _ _, True) [] str n) m0.
Proof.
  intros Hc Hf. wp_step. pose proof (wp_strlcpy_bytes ALIGNED _ _ _ _ Hc) as H.
  cbn [length Z.of_nat] in H. rewrite !Z.add_0_r in H.
  eapply wp_mono; [exact H|]. intros [[n' d] s] m (l & rest & Hs & -> & -> & -> & Hc' & Hfin).
  assert (Hst : stopped (λ _ _ _, True) [] str (length l + n')
    (n', d0 + Z.of_nat (length ([] ++ l)), s0 + Z.of_nat (length ([] ++ l))) m) by (exists l, rest; done).
  destruct n' as [|n']; [by wp_step|]. cbn [app] in *.
  pose proof (copied_source _ _ _ _ Hc') as Hr. destruct rest as [|b rest].
  { rewrite cstr_nil in Hr. csteps; done. }
  rewrite cstr_cons in Hr. destruct Hr as (Hb & Hl & _). csteps; [unfold letter in Hl; lia|].
  destruct Hfin as [Ha|[?|?]]; [|done..].
  eapply wp_mono; [apply (wp_strlcpy_words fuel l); [done|by apply aligned_spec|]|].
  { rewrite Hs, length_app in Hf. lia. }
  intros r m'. rewrite Hs. apply (stopped_later _ [] l).
Qed.

Lemma wp_strlcpy (Q : Z → memory → Prop) :
  n0 ≠ O → Q (Z.of_nat (length str)) (put m0 d0 (take (n0 - 1) str ++ [0])) →
  wp (strlcpy d0 s0 (Z.of_nat n0)) Q m0.
Proof.
  intros Hn0 HQ. unfold strlcpy. rewrite (proj2 (Z.eqb_neq (Z.of_nat n0) 0)) by lia.
  replace (Z.to_nat (Z.of_nat n0 - 1)) with (n0 - 1)%nat by lia. set (n := (n0 - 1)%nat) in *.
  assert (Hc : copied [] str n m0).
  { unfold copied. cbn [length app put]. rewrite Z.add_0_r. split_and!; [done|lia|done..]. }
  pose proof (cstr_size _ _ _ Hstr) as Hsz. do 2 cstep. wp_step.
  apply (wp_mono _ (stopped (λ _ _ _, True) [] str n)).
  { apply wp_if; intros _; [apply wp_strlcpy_fast; [done|lia]|wp_step].
    pose proof (stopped_here (λ _ _ _, True) _ _ _ _ Hc I) as H. cbn in H. by rewrite !Z.add_0_r in H. }
  intros [[n1 d1] s1] m1 (l1 & rest1 & Hs1 & Hn1 & -> & -> & Hc1 & _). cbn [app] in *. wp_step.
  eapply wp_mono; [by apply wp_strlcpy_bytes|].
  intros [[n2 d2] s2] m2 (l2 & rest2 & -> & -> & -> & -> & Hc2 & Hfin).
  pose proof (copied_room _ _ _ _ Hc2) as Hr. wp_step. apply wp_wr; [done|].
  assert (Ht : l1 ++ l2 = take n str).
  { rewrite Hs1, Hn1. destruct Hfin as [?|[->| ->]]; [done| |].
    - rewrite app_assoc, take_app_length' by (rewrite length_app; lia). done.
    - rewrite app_nil_r, firstn_all2 by (rewrite length_app; lia). done. }
  assert (Hs2 : cstr (put m0 d0 ((l1 ++ l2) ++ [0])) (s0 + Z.of_nat (length (l1 ++ l2))) rest2).
  { pose proof Hstr as Hh. rewrite Hs1, app_assoc in Hh. apply cstr_app in Hh as [_ Hh].
    apply cstr_put_out; [|done]. destruct Hc2 as (_ & Hk & _). rewrite Hs1, !length_app in Hapart.
    rewrite !length_app in *. cbn [length]. lia. }
  assert (Hw2 : words (put m0 d0 ((l1 ++ l2) ++ [0]))).
  { destruct Hc2 as (_ & _ & _ & Hw & Hrm & He). rewrite <-He. apply (words_put m2 _ [0]); [done|by repeat constructor|].
    intros i Hi. cbn in Hi. by replace i with 0 by lia; rewrite Z.add_0_r. }
  destruct Hc2 as (_ & _ & _ & _ & _ & He). rewrite byte_mod, He by done. wp_step.
  eapply wp_strlen; [done..|]. wp_step.
  assert (Hlen : length str = (length (l1 ++ l2) + length rest2)%nat) by (rewrite Hs1, !length_app; lia).
  replace (_ - d0 + _) with (Z.of_nat (length str)) by lia. by rewrite Ht.
Qed.
End strlcpy.

(** C33: [strlcpy] into a buffer of [n] bytes that is apart from the string returns the length of
    the string; the buffer then holds as much of it as fits in front of a terminator, which is
    always written when there is room for one, and no other byte of memory has changed, however
    the two pointers are aligned. *)
Theorem strlcpy_truncates (m : memory) (d s : Z) (str : list Z) (n : nat) :
  words m → cstr m s str → room m d n →
  s + Z.of_nat (length str) < d ∨ d + Z.of_nat n <= s →
  wp (strlcpy d s (Z.of_nat n))
    (λ r m', r = Z.of_nat (length str) ∧
      m' = if (n =? 0)%nat then m else put m d (take (n - 1) str ++ [0])) m.
Proof.
  intros Hw Hs Hr Ha. destruct (Nat.eqb_spec n 0) as [->|Hn].
  - unfold strlcpy. wp_steps; [|done]. by eapply wp_strlen.
  - by eapply wp_strlcpy.
Qed.

Lemma lookup_empty_put p l q : is_Some (put ∅ p l !! q) ↔ p <= q < p + Z.of_nat (length l).
Proof.
  rewrite lookup_put. case_decide; split; try done.
  - intros _. apply lookup_lt_is_Some_2. lia.
  - by intros [? ?].
Qed.

Lemma words_block p l : p mod 8 = 0 → Z.of_nat (length l) mod 8 = 0 → Forall byte l → words (put ∅ p l).
Proof.
  intros Hp Hn Hl. split.
  - intros q b. rewrite lookup_put. case_decide; [|done]. intros H'.
    rewrite list.Forall_forall in Hl. by eapply Hl, list_elem_of_lookup_2.
  - intros q r Hqr. rewrite !lookup_empty_put. Z.to_euclidean_division_equations; lia.
Qed.

(** Eleven letters from 104 on, among 40 bytes. *)
Definition page : memory :=
  put ∅ 96 (replicate 8 255 ++ [104; 101; 108; 108; 111; 32; 119; 111; 114; 108; 100; 0] ++ replicate 20 0).

Lemma strlcpy_truncates_witness :
  cstr page 104 [104; 101; 108; 108; 111; 32; 119; 111; 114; 108; 100] ∧
  wp (strlcpy 120 104 10) (λ r m', r = 11 ∧
    m' = put page 120 [104; 101; 108; 108; 111; 32; 119; 111; 114; 0]) page.
Proof.
  assert (Hs : cstr page 104 [104; 101; 108; 108; 111; 32; 119; 111; 114; 108; 100]).
  { split; [vm_compute; tauto|repeat constructor; lia]. }
  split; [exact Hs|]. eapply wp_mono.
  - apply (strlcpy_truncates page 120 104 [104; 101; 108; 108; 111; 32; 119; 111; 114; 108; 100] 10); [|exact Hs| |].
    + apply words_block; [done..|repeat constructor; lia].
    + intros i Hi. apply lookup_empty_put. cbn. lia.
    + left. cbn. lia.
  - intros r m' [-> ->]. split; [done|]. reflexivity.
Defined.

(** ** Numbers *)

Lemma wp_skip_space fuel sp b t m p (Q : Z → memory → Prop) :
  holds m p (sp ++ b :: t) → Forall (λ b, isspace (char b) = true) sp → isspace (char b) = false →
  (length sp < fuel)%nat → Q (p + Z.of_nat (length sp)) m → wp (skip_space fuel p) Q m.
Proof.
  revert sp p; induction fuel as [|fuel IH]; intros sp p Ht Hsp Hb Hf HQ; [lia|]. cbn [skip_space].
  destruct sp as [|c sp]; destruct Ht as [Hc Ht]; csteps; try congruence.
  - by rewrite Z.add_0_r in HQ.
  - inversion_clear Hsp. cbn in Hf. apply (IH sp); [done..|lia|].
    by replace (p + 1 + _) with (p + Z.of_nat (S (length sp))) by lia.
  - inversion_clear Hsp. congruence.
Qed.

(** The number that digits stand for, the most significant first. *)
Definition numeral (base : Z) (ds : list Z) : Z :=
  fold_left (λ acc d, acc * base + digit_value (char d)) ds 0.

Definition is_digit (base d : Z) : Prop := 0 <= digit_value (char d) < base.

Lemma accumulate_spec v base d : 0 <= v → 2 <= base <= 36 → 0 <= d < base →
  accumulate (v `min` ULONG_MAX) base d = (v * base + d) `min` ULONG_MAX.
Proof.
  intros Hv Hb Hd. unfold accumulate, u64. change ULONG_MAX with (2 ^ 64 - 1). change (2 ^ 64) with 18446744073709551616.
  destruct (Z.leb_spec (18446744073709551616 - 1) v) as [H|H].
  - rewrite Z.min_r by lia. rewrite Z.eqb_refl, orb_true_r. nia.
  - rewrite Z.min_l by lia. destruct (Z.leb_spec 18446744073709551616 (v * base)) as [H2|H2].
    + assert (Hne : ((v * base) mod 18446744073709551616) / base ≠ v).
      { intros He. assert ((v * base) mod 18446744073709551616 < v * base) by (Z.to_euclidean_division_equations; nia).
        assert ((v * base) mod 18446744073709551616 / base < v) by (apply Z.div_lt_upper_bound; lia). lia. }
      rewrite (proj2 (Z.eqb_neq _ _) Hne). cbn [negb orb]. lia.
    + rewrite (Z.mod_small (v * base)) by nia. rewrite Z.div_mul, Z.eqb_refl by lia. cbn [negb orb].
      rewrite (proj2 (Z.eqb_neq v _)) by lia. rewrite orb_false_r.
      destruct (Z.ltb_spec ((v * base + d) mod 18446744073709551616) (v * base));
        Z.to_euclidean_division_equations; nia.
Qed.

Lemma wp_digits fuel ds c m p base v (Q : Z * Z → memory → Prop) :
  holds m p (ds ++ [c]) → 2 <= base <= 36 → 0 <= v →
  Forall (is_digit base) ds → ¬ is_digit base c → (length ds < fuel)%nat →
  Q (fold_left (λ acc d, acc * base + digit_value (char d)) ds v `min` ULONG_MAX, p + Z.of_nat (length ds)) m →
  wp (digits fuel p base (v `min` ULONG_MAX)) Q m.
Proof.
  intros Ht Hbase. revert ds p v Ht; induction fuel as [|fuel IH]; intros ds p v Ht Hv Hds Hc Hf HQ; [lia|].
  cbn [digits]. destruct ds as [|d ds]; destruct Ht as [Hd Ht]; csteps.
  - by rewrite Z.add_0_r in HQ.
  - destruct Hc. unfold is_digit. lia.
  - inversion_clear Hds as [|? ? Hd' _]. unfold is_digit in Hd'. lia.
  - inversion_clear Hds as [|? ? Hd' Hds']. unfold is_digit in Hd'. cbn in Hf.
    rewrite accumulate_spec by done. apply (IH ds); [done|nia|done..|lia|].
    by replace (p + 1 + _) with (p + Z.of_nat (S (length ds))) by lia.
Qed.

(** The prefix that stands in front of the digits, and the base they are in, for the base asked
    for; [t] is what follows the prefix. *)
Inductive radix : Z → list Z → list Z → Z → Prop :=
  | radix_hex base t : base = 0 ∨ base = 16 → radix base [48; 120] t 16
  | radix_octal t : head t ≠ Some 120 → radix 0 [48] t 8
  | radix_decimal t : head t ≠ Some 48 → radix 0 [] t 10
  | radix_given base t : 2 <= base <= 36 → (base = 16 → take 2 t ≠ [48; 120]) → radix base [] t base.

(** What [strtoul] makes of the number. *)
Definition saturated (neg : bool) (v : Z) : Z :=
  if ULONG_MAX <=? v then ULONG_MAX else if neg then u64 (- v) else v.

Lemma saturated_min neg v :
  (if neg && negb (v `min` ULONG_MAX =? ULONG_MAX) then u64 (- (v `min` ULONG_MAX)) else v `min` ULONG_MAX) =
  saturated neg v.
Proof.
  unfold saturated. destruct (Z.leb_spec ULONG_MAX v).
  - rewrite Z.min_r, Z.eqb_refl, andb_false_r by done. done.
  - rewrite Z.min_l, (proj2 (Z.eqb_neq v _)) by lia. by destruct neg.
Qed.

Inductive sign : list Z → bool → Prop :=
  | sign_none : sign [] false
  | sign_plus : sign [43] false
  | sign_minus : sign [45] true.

Lemma radix_range base pre t base' : radix base pre t base' → 2 <= base' <= 36 ∧ (base = 0 ∨ 2 <= base <= 36).
Proof. inversion 1; lia. Qed.

Lemma wp_strtoul_prefix base pre t base' m p (Q : Z * Z → memory → Prop) :
  radix base pre t base' → holds m p (pre ++ t) → t ≠ [] → t ≠ [48] →
  Q (base', p + Z.of_nat (length pre)) m → wp (strtoul_prefix base p) Q m.
Proof.
  intros Hr Ht Hne Hn0 HQ. unfold strtoul_prefix.
  destruct Hr as [base t Hb|t Hh|t Hh|base t Hb Hh].
  - destruct Ht as (H0 & H1 & _). csteps; [|lia..]. done.
  - destruct t as [|b1 t]; [done|]. destruct Ht as (H0 & H1 & _). csteps; [|done..].
    rewrite (proj2 (Z.eqb_neq b1 120)) by (cbn in Hh; congruence). done.
  - destruct t as [|b t]; [done|]. destruct Ht as (H0 & _). csteps.
    { cbn in Hh. destruct (Z.eqb_spec b 48); [congruence|done]. }
    rewrite (proj2 (Z.eqb_neq b 48)) by (cbn in Hh; congruence). by rewrite Z.add_0_r in HQ.
  - destruct t as [|b t]; [done|]. destruct Ht as (H0 & Ht). rewrite Z.add_0_r in HQ.
    assert (Hb0 : (base =? 0) = false) by lia. do 2 cstep. wp_step. rewrite Hb0 in *. cbn [orb andb].
    apply wp_if; intros Hx; [|csteps; done].
    destruct t as [|b1 t]; [destruct Hn0; f_equal; lia|]. destruct Ht as (H1 & _). csteps.
    destruct (Z.eqb_spec b1 120) as [->|]; [|done]. destruct Hh; [lia|]. cbn. repeat f_equal; lia.
Qed.

(** C36: [strtoul] skips spaces, takes a sign, finds the base that the prefix and the caller ask
    for and reads all the digits of that base: the result is the number they stand for, the
    largest there is if it does not fit, and modulo 2^64 the negative number after a minus
    sign, and the end pointer is at the first character that is not part of it. *)
Theorem strtoul_value (m : memory) (p base base' : Z) (sp sg pre ds : list Z) (neg : bool) (c : Z) :
  holds m p (sp ++ sg ++ pre ++ ds ++ [c]) →
  Forall (λ b, isspace (char b) = true) sp → sign sg neg →
  (∀ b, head (pre ++ ds ++ [c]) = Some b → sg = [] → isspace (char b) = false ∧ b ≠ 43 ∧ b ≠ 45) →
  radix base pre (ds ++ [c]) base' → Forall (is_digit base') ds → ¬ is_digit base' c →
  wp (strtoul p base)
    (λ r m', r = (saturated neg (numeral base' ds), Some (p + Z.of_nat (length (sp ++ sg ++ pre ++ ds)))) ∧
             m' = m) m.
Proof.
  intros Ht Hsp Hsg Hfirst Hr Hds Hc. pose proof (radix_range _ _ _ _ Hr) as [Hb' Hb].
  pose proof (holds_size _ _ _ Ht) as Hsz. rewrite !length_app in Hsz. cbn in Hsz.
  unfold strtoul. wp_step; [lia|]. do 2 cstep. wp_step.
  destruct (sg ++ pre ++ ds ++ [c]) as [|b t] eqn:Et; [by destruct sg, pre, ds|].
  assert (Hbs : isspace (char b) = false ∧ (b = 43 ∨ b = 45 → sg = [b]) ∧ (sg = [] ∨ sg = [b])).
  { destruct Hsg; simplify_eq/=; [|auto..]. destruct (Hfirst b) as (? & ? & ?); [by rewrite Et|done|].
    split_and!; [done|naive_solver|auto]. }
  destruct Hbs as (Hbs & Hbg & Hsg').
  pose proof Ht as Ht'. rewrite holds_app in Ht'. destruct Ht' as [_ Ht'].
  eapply (wp_skip_space _ sp b t); [done..|lia|]. assert (Hb1 : m !! (p + Z.of_nat (length sp)) = Some b) by apply Ht'.
  cstep. cstep. wp_step. rewrite <-Et, holds_app in Ht'. destruct Ht' as [_ Ht'].
  assert (Hq : (if (b =? 43) || (b =? 45) then p + Z.of_nat (length sp) + 1 else p + Z.of_nat (length sp)) =
    p + Z.of_nat (length sp) + Z.of_nat (length sg)).
  { destruct ((b =? 43) || (b =? 45)) eqn:E; [rewrite Hbg by lia; done|].
    destruct Hsg; [cbn; lia|simplify_eq/=..]. }
  assert (Hneg : (b =? 45) = neg).
  { destruct Hsg; simplify_eq/=; [|done..]. apply Z.eqb_neq. intros ->. by specialize (Hbg (or_intror eq_refl)). }
  rewrite Hq, Hneg. eapply wp_strtoul_prefix; [done..|by destruct ds| |].
  { intros H'. destruct ds as [|? []]; simplify_eq/=. apply Hc. unfold is_digit. change (digit_value (char 48)) with 0. lia. }
  rewrite holds_app in Ht'. destruct Ht' as [_ Ht']. wp_step.
  eapply (wp_digits _ ds c _ _ base' 0); [done..|lia|].
  wp_step. split; [|done]. fold (numeral base' ds). f_equal; [by apply saturated_min|].
  f_equal. rewrite !length_app. lia.
Qed.


(** "  -0x1F" and a line feed. *)
Definition hexadecimal : memory := put ∅ 64 [32; 32; 45; 48; 120; 49; 70; 10].

Lemma strtoul_value_witness :
  holds hexadecimal 64 [32; 32; 45; 48; 120; 49; 70; 10] ∧
  wp (strtoul 64 0) (λ r m', r = (2 ^ 64 - 31, Some 71) ∧ m' = hexadecimal) hexadecimal.
Proof.
  split; [apply holds_put|].
  apply (strtoul_value hexadecimal 64 0 16 [32; 32] [45] [48; 120] [49; 70] true 10);
    [apply holds_put|by repeat constructor|constructor|done|constructor; lia|by repeat constructor|].
  intros [H _]. by vm_compute in H.
Defined.

(** ** Searching *)

(** How many elements from the front on are so. *)
Fixpoint prefix_while (P : Z → bool) (l : list Z) : nat :=
  match l with [] => O | b :: l => if P b then S (prefix_while P l) else O end.

Definition member (set : list Z) (b : Z) : bool := bool_decide (b ∈ set).

(** A loop that goes through a string while [P] holds, of which each turn reads one byte. *)
Lemma wp_forward (loop : nat → Z → M memory Z) (P : Z → bool) m :
  (∀ fuel p b (Q : Z → memory → Prop), m !! p = Some b → byte b →
    (if negb (b =? 0) && P b then wp (loop fuel (p + 1)) Q m else Q p m) → wp (loop (S fuel) p) Q m) →
  ∀ str fuel p (Q : Z → memory → Prop), cstr m p str → (length str < fuel)%nat →
  Q (p + Z.of_nat (prefix_while P str)) m → wp (loop fuel p) Q m.
Proof.
  intros Hloop. induction str as [|b str IH]; intros [|fuel] p Q Hs Hf HQ; try (cbn in Hf; lia).
  - rewrite cstr_nil in Hs. eapply Hloop; [done..|]. cbn in *. by rewrite Z.add_0_r in HQ.
  - rewrite cstr_cons in Hs. destruct Hs as (Hb & Hl & Hs). unfold letter in Hl. cbn in HQ, Hf.
    eapply Hloop; [done|unfold byte; lia|]. rewrite (proj2 (Z.eqb_neq b 0)) by lia. cbn [negb andb].
    destruct (P b); [|by rewrite Z.add_0_r in HQ]. apply IH; [done|lia|].
    by replace (p + 1 + _) with (p + Z.of_nat (S (prefix_while P str))) by lia.
Qed.

Lemma wp_collect fuel m c str set (Q : byteset → memory → Prop) :
  cstr m c str → (length str < fuel)%nat → words_ok set → length set = 4%nat →
  (∀ set', words_ok set' → length set' = 4%nat →
    (∀ b, bit_at set' b = member str b || bit_at set b) → Q set' m) →
  wp (collect fuel c set) Q m.
Proof.
  revert c str set; induction fuel as [|fuel IH]; intros c str set Hc Hf Hok Hn HQ; [lia|]. cbn [collect].
  destruct str as [|b str].
  - rewrite cstr_nil in Hc. do 2 cstep. apply wp_if; [intros _; wp_step|done]. apply HQ; [done..|]. intros b.
    unfold member. by rewrite bool_decide_eq_false_2 by apply not_elem_of_nil.
  - rewrite cstr_cons in Hc. destruct Hc as (Hb & Hl & Hc). unfold letter in Hl. cbn in Hf.
    destruct (bit_set_spec set Hok b) as (set' & Hset & Hn' & Hok' & Hbits); [rewrite Hn; lia|].
    csteps; [lia|exact Hset|]. eapply IH; [done|lia|done|congruence|].
    intros set'' Hok'' Hn'' Hb''. apply HQ; [done..|]. intros j. rewrite Hb'', Hbits. unfold member.
    rewrite (bool_decide_ext (j ∈ b :: str) (j = b ∨ j ∈ str)) by apply list.elem_of_cons.
    rewrite bool_decide_or. by repeat case_bool_decide; destruct (Z.eqb_spec j b).
Qed.

Lemma wp_span fuel m s str set inside P (Q : Z → memory → Prop) :
  words_ok set → length set = 4%nat → (∀ b, byte b → Bool.eqb (bit_at set b) inside = P b) →
  cstr m s str → (length str < fuel)%nat → Q (s + Z.of_nat (prefix_while P str)) m →
  wp (span fuel s set inside) Q m.
Proof.
  intros Hok Hn HP. revert fuel s Q. intros fuel s Q Hs Hf HQ.
  apply (wp_forward (λ fuel s, span fuel s set inside) P) with (str := str); [|done..].
  clear -Hok Hn HP. intros fuel p b Q Hb Hy H. cbn [span]. csteps.
  - by rewrite H0 in H.
  - rewrite bit_get_Some by (unfold byte in Hy; rewrite Hn; lia). reflexivity.
  - rewrite HP in H1 by done. by rewrite H0, H1 in H.
  - rewrite HP in H1 by done. by rewrite H0, H1 in H.
Qed.

Lemma prefix_while_app P k s : Forall (λ b, P b = true) k → prefix_while P (k ++ s) = (length k + prefix_while P s)%nat.
Proof. induction 1 as [|b k Hb _ IH]; [done|]. cbn. by rewrite Hb, IH. Qed.

Lemma prefix_while_length P s : (prefix_while P s <= length s)%nat.
Proof. induction s as [|b s IH]; cbn; [lia|]. case_match; lia. Qed.

Lemma lxor_word l c : Forall byte l → byte c →
  Z.lxor (word l) (word (replicate (length l) c)) = word (map (λ b, Z.lxor b c) l).
Proof.
  intros Hl Hc. induction Hl as [|b l Hb _ IH]; [done|]. cbn [length replicate word map].
  by rewrite lxor_byte, IH by done.
Qed.

(** [HASZERO] of a word and the repeated character tells whether the character is there. *)
Lemma HASZERO_char l c : Forall byte l → length l = 8%nat → byte c →
  HASZERO (Z.lxor (word l) (u64 (CONST1 * c))) = 0 ↔ c ∉ l.
Proof.
  intros Hl Hn Hc. assert (Hk : u64 (CONST1 * c) = word (replicate (length l) c)).
  { rewrite Hn, u64_small by (unfold byte, CONST1 in *; lia). cbn [replicate word]. unfold CONST1. lia. }
  rewrite Hk, lxor_word by done. rewrite HASZERO_spec; [| |by rewrite length_map].
  - rewrite list_elem_of_fmap. split.
    + intros H Hin. apply H. exists c. by rewrite Z.lxor_nilpotent.
    + intros H (b & Hb & Hin). symmetry in Hb. apply Z.lxor_eq in Hb as ->. done.
  - apply list.Forall_forall. intros x Hx. apply list_elem_of_fmap in Hx as (b & -> & Hin).
    rewrite list.Forall_forall in Hl. specialize (Hl b Hin). apply byte_bits. intros i Hi.
    by rewrite Z.lxor_spec, (proj1 (byte_bits b)), (proj1 (byte_bits c)).
Qed.

Definition other (c b : Z) : bool := negb (b =? c).

Lemma wp_chrnul_head fuel m p str c : cstr m p str → (length str < fuel)%nat →
  wp (chrnul_head fuel p c) (λ '(found, q) m', m' = m ∧
    if (found : bool) then q = p + Z.of_nat (prefix_while (other c) str)
    else q mod 8 = 0 ∧ ∃ k str', str = k ++ str' ∧ Forall (λ b, other c b = true) k ∧ q = p + Z.of_nat (length k)) m.
Proof.
  revert p str; induction fuel as [|fuel IH]; intros p str Hs Hf; [lia|]. cbn [chrnul_head].
  apply wp_if; intros Ha.
  { wp_step. split; [done|]. split; [by apply aligned_spec|]. exists [], str. split_and!; [done..|cbn; lia]. }
  destruct str as [|b str].
  - rewrite cstr_nil in Hs. csteps; [split; [done|cbn; lia]|done].
  - rewrite cstr_cons in Hs. destruct Hs as (Hb & Hl & Hs). unfold letter in Hl. cbn in Hf.
    assert (Ho : other c b = negb ((b =? 0) || (b =? c))).
    { unfold other. by rewrite (proj2 (Z.eqb_neq b 0)) by lia. }
    csteps; cbn [prefix_while].
    { rewrite Ho, H. cbn. split; [done|lia]. }
    rewrite H in Ho. cbn [negb] in Ho. rewrite Ho.
    eapply wp_mono; [apply IH; [done|lia]|]. intros [[] q] m' [-> Hq]; (split; [done|]); [lia|].
    destruct Hq as (Hq & k & str' & -> & Hk & ->). split; [done|]. exists (b :: k), str'.
    split_and!; [done|by constructor|cbn [length]; lia].
Qed.

Lemma wp_chrnul_words fuel m p str c : words m → byte c → cstr m p str → p mod 8 = 0 → (length str < fuel)%nat →
  wp (chrnul_words fuel p (u64 (CONST1 * c))) (λ q m', m' = m ∧
    ∃ k str', str = k ++ str' ∧ Forall (λ b, other c b = true) k ∧ q = p + Z.of_nat (length k)) m.
Proof.
  intros Hm Hc. revert p str; induction fuel as [|fuel IH]; intros p str Hs Ha Hf; [lia|]. cbn [chrnul_words].
  destruct (word_there m p) as (l & Hl & Hn & Hb); [done..|by eapply cstr_first|].
  wp_step. eapply wp_rd_word; [done..|]. apply wp_if; intros Hz; wp_steps.
  2:{ split; [done|]. exists [], str. split_and!; [done..|cbn; lia]. }
  apply andb_true_iff in Hz as [Hz0 Hzc]. apply Z.eqb_eq, HASZERO_spec in Hz0; [|done..].
  apply Z.eqb_eq, HASZERO_char in Hzc; [|done..].
  destruct (word_inside _ _ _ _ Hl Hz0 Hs) as (str' & -> & Hs'). rewrite length_app in Hf. rewrite Hn in *.
  eapply wp_mono; [apply (IH _ str'); [done|by rewrite Z.add_mod, Ha by done|lia]|].
  intros q m' (-> & k & str'' & -> & Hk & ->). split; [done|]. exists (l ++ k), str''.
  split_and!; [by rewrite app_assoc| |rewrite length_app, Hn; lia]. apply list.Forall_app. split; [|done].
  apply list.Forall_forall. intros b Hin. unfold other. apply negb_true_iff, Z.eqb_neq. congruence.
Qed.

Lemma prefix_while_all P s : (∀ b, b ∈ s → P b = true) → prefix_while P s = length s.
Proof.
  intros H. rewrite <-(app_nil_r s) at 1. rewrite prefix_while_app; [cbn; lia|].
  apply list.Forall_forall. auto.
Qed.

Lemma wp_strchrnul m p str c (Q : Z → memory → Prop) : words m → cstr m p str →
  Q (p + Z.of_nat (prefix_while (other (c mod 256)) str)) m → wp (__strchrnul p c) Q m.
Proof.
  intros Hm Hs HQ. unfold __strchrnul. pose proof (cstr_size _ _ _ Hs) as Hsz.
  assert (Hc : byte (c mod 256)) by (apply Z.mod_pos_bound; lia). set (c' := c mod 256) in *.
  apply wp_if; intros Hz.
  { wp_step. eapply wp_strlen; [done..|]. wp_step. rewrite prefix_while_all in HQ; [done|].
    destruct Hs as [_ Hl]. rewrite list.Forall_forall in Hl. intros b Hb. specialize (Hl b Hb).
    unfold letter in Hl. unfold other. lia. }
  do 2 cstep. wp_step. eapply wp_mono; [apply wp_chrnul_head; [done|lia]|].
  intros [[] q] m' [-> Hq]; [wp_step; by rewrite Hq|].
  destruct Hq as (Ha & k & str' & -> & Hk & ->). apply cstr_app in Hs as [_ Hs]. rewrite length_app in Hsz.
  wp_step. eapply wp_mono; [apply (wp_chrnul_words _ _ _ str'); [done..|lia]|].
  intros q m' (-> & k' & str'' & -> & Hk' & ->). apply cstr_app in Hs as [_ Hs]. rewrite length_app in Hsz.
  eapply (wp_forward (λ fuel p, chrnul_bytes fuel p c') (other c')); [|exact Hs|lia|].
  - intros fuel p' b Q' Hb _ H. unfold other in H. cbn [chrnul_bytes]. csteps; by rewrite H0 in H.
  - rewrite !prefix_while_app in HQ by done.
    by replace (_ + _) with (p + Z.of_nat (length k + (length k' + prefix_while (other c') str''))) by lia.
Qed.

Lemma prefix_while_ext P P' s : (∀ b, b ∈ s → P b = P' b) → prefix_while P s = prefix_while P' s.
Proof.
  induction s as [|b s IH]; intros H; [done|]. cbn. rewrite (H b), IH; [done| |].
  - intros b' Hb'. apply H. by right.
  - by left.
Qed.

Lemma cstr_zero_pos m p s : cstr m p s → m !! p = Some 0 → s = [].
Proof. destruct s; [done|]. rewrite cstr_cons. intros (? & Hl & _) ?. simplify_eq. unfold letter in Hl. lia. Qed.

Lemma member_single c b : member [c] b = (b =? c).
Proof.
  unfold member. destruct (Z.eqb_spec b c) as [->|H]; [apply bool_decide_eq_true_2; by left|].
  apply bool_decide_eq_false_2. by rewrite list_elem_of_singleton.
Qed.

(** The set built from the separators. *)
Lemma wp_collected m c set (Q : byteset → memory → Prop) fuel :
  cstr m c set → (length set < fuel)%nat →
  (∀ bits, words_ok bits → length bits = 4%nat → (∀ b, bit_at bits b = member set b) → Q bits m) →
  wp (collect fuel c [0; 0; 0; 0]) Q m.
Proof.
  intros Hc Hf HQ. eapply wp_collect; [done|done|repeat constructor; lia|done|].
  intros bits Hok Hn Hb. apply HQ; [done..|]. intros b. rewrite Hb.
  change [0; 0; 0; 0] with (replicate 4 0). by rewrite bit_at_replicate_0, orb_false_r.
Qed.

Lemma wp_strspn m s str c set (Q : Z → memory → Prop) : cstr m s str → cstr m c set →
  Q (Z.of_nat (prefix_while (member set) str)) m → wp (strspn s c) Q m.
Proof.
  intros Hs Hc HQ. unfold strspn. pose proof (cstr_size _ _ _ Hs). pose proof (cstr_size _ _ _ Hc).
  do 2 cstep. destruct set as [|c0 set].
  { pose proof Hc as H0'. rewrite cstr_nil in H0'. do 2 cstep. apply wp_if; [intros _; wp_step|done].
    replace (prefix_while (member []) str) with O in HQ; [done|]. by destruct str. }
  pose proof Hc as Hc'. rewrite cstr_cons in Hc'. destruct Hc' as (H0' & Hl & Hc'). unfold letter in Hl.
  do 2 cstep. apply wp_if; intros Hz; [lia|]. destruct set as [|c1 set].
  - rewrite cstr_nil in Hc'. do 2 cstep. apply wp_if; [intros _|done]. wp_step.
    eapply (wp_forward (λ fuel p, span_one fuel p c0) (member [c0])); [|exact Hs|lia|].
    + intros fuel p b Q' Hb _ H'. cbn [span_one]. rewrite member_single in H'.
      do 2 cstep. apply wp_if; intros He; rewrite He, ?andb_true_r, ?andb_false_r in H'; [|by wp_step].
      by rewrite (proj2 (Z.eqb_neq b 0)) in H' by lia.
    + wp_step. by replace (_ - s) with (Z.of_nat (prefix_while (member [c0]) str)) by lia.
  - rewrite cstr_cons in Hc'. destruct Hc' as (H1' & Hl1 & _). unfold letter in Hl1.
    do 2 cstep. apply wp_if; intros Hz1; [lia|]. wp_step. eapply wp_collected; [done|lia|].
    intros bits Hok Hn Hbits. wp_step. eapply (wp_span _ _ _ str _ _ (member (c0 :: c1 :: set))); [done..| |done|lia|].
    + intros b _. rewrite Hbits. by destruct (member _ b).
    + wp_step. by replace (_ - s) with (Z.of_nat (prefix_while (member (c0 :: c1 :: set)) str)) by lia.
Qed.

Lemma wp_strcspn m s str c set (Q : Z → memory → Prop) : words m → cstr m s str → cstr m c set →
  Q (Z.of_nat (prefix_while (λ b, negb (member set b)) str)) m → wp (strcspn s c) Q m.
Proof.
  intros Hm Hs Hc HQ. unfold strcspn. pose proof (cstr_size _ _ _ Hs). pose proof (cstr_size _ _ _ Hc).
  assert (Hl : ∀ b, b ∈ str → letter b).
  { destruct Hs as [_ Hl]. by rewrite list.Forall_forall in Hl. }
  (* one character or none: the search for it *)
  assert (Hshort : ∀ c0, byte c0 → (∀ b, letter b → member set b = (b =? c0)) →
    wp (e ← __strchrnul s (char c0); mret (e - s)) Q m).
  { intros c0 Hc0 Hset. wp_step. eapply wp_strchrnul; [done..|]. wp_step.
    replace (char c0 mod 256) with c0 by (unfold char, byte in *; case_match; Z.to_euclidean_division_equations; lia).
    rewrite (prefix_while_ext _ (other c0)) in HQ; [|intros b Hb; unfold other; by rewrite Hset by auto].
    by replace (_ - s) with (Z.of_nat (prefix_while (other c0) str)) by lia. }
  do 2 cstep. destruct set as [|c0 set].
  { pose proof Hc as H0'. rewrite cstr_nil in H0'. do 2 cstep. wp_step. apply wp_if; [intros _; wp_step|done].
    apply Hshort; [done|]. intros b Hb. unfold letter in Hb.
    unfold member. rewrite bool_decide_eq_false_2 by apply not_elem_of_nil. lia. }
  pose proof Hc as Hc'. rewrite cstr_cons in Hc'. destruct Hc' as (H0' & Hl0 & Hc'). unfold letter in Hl0.
  do 2 cstep. wp_step. apply wp_if; intros Hz; [lia|]. destruct set as [|c1 set].
  - rewrite cstr_nil in Hc'. do 2 cstep. wp_step. apply Hshort; [unfold byte; lia|].
    intros b _. apply member_single.
  - rewrite cstr_cons in Hc'. destruct Hc' as (H1' & Hl1 & _). unfold letter in Hl1.
    do 2 cstep. wp_step. rewrite (proj2 (Z.eqb_neq c1 0)) by lia. wp_step. eapply wp_collected; [done|lia|].
    intros bits Hok Hn Hbits. wp_step.
    eapply (wp_span _ _ _ str _ _ (λ b, negb (member (c0 :: c1 :: set) b))); [done..| |done|lia|].
    + intros b _. rewrite Hbits. by destruct (member _ b).
    + wp_step. set (n := prefix_while _ str) in *. by replace (_ - s) with (Z.of_nat n) by lia.
Qed.

(** ** Tokens *)

(** The fields between separators that are not empty; [cur] is the field being read. *)
Fixpoint fields (P : Z → bool) (cur s : list Z) : list (list Z) :=
  let emit := match cur with [] => [] | _ => [cur] end in
  match s with
  | [] => emit
  | b :: s => if P b then emit ++ fields P [] s else fields P (cur ++ [b]) s
  end.

Lemma fields_skip P k s : Forall (λ b, P b = true) k → fields P [] (k ++ s) = fields P [] s.
Proof. induction 1 as [|b k Hb _ IH]; [done|]. cbn. by rewrite Hb, IH. Qed.

Lemma fields_token P cur t s :
  Forall (λ b, P b = false) t → fields P cur (t ++ s) = fields P (cur ++ t) s.
Proof.
  intros H. revert cur. induction H as [|b t Hb _ IH]; intros cur; cbn; [by rewrite app_nil_r|].
  rewrite Hb, IH. by rewrite <-app_assoc.
Qed.

(** A string is its separators in front, a token and the rest. *)
Lemma prefix_while_split P s : ∃ k s', s = k ++ s' ∧ length k = prefix_while P s ∧
  Forall (λ b, P b = true) k ∧ ∀ b, head s' = Some b → P b = false.
Proof.
  induction s as [|b s (k & s' & -> & Hn & Hk & Hh)]; [by exists [], []|]. cbn. destruct (P b) eqn:E.
  - exists (b :: k), s'. split_and!; [done|cbn; congruence|by constructor|done].
  - exists [], (b :: k ++ s'). split_and!; [done..|]. by intros ? [= <-].
Qed.

(** One call: [str] is what is left of the string. *)
Lemma wp_strtok_r m s str c set p a (Q : Z * Z → memory → Prop) :
  words m → cstr m s str → cstr m c set → s ≠ 0 → (if a =? 0 then p else a) = s →
  (fields (member set) [] str = [] → Q (0, 0) m) →
  (∀ k t r, str = k ++ t ++ r → t ≠ [] → fields (member set) [] str = t :: fields (member set) [] (tail r) →
    let q := s + Z.of_nat (length k) in let e := q + Z.of_nat (length t) in
    match r with [] => Q (q, 0) m | _ => Q (q, e + 1) (<[e := 0]> m) end) →
  wp (strtok_r a c p) Q m.
Proof.
  intros Hm Hs Hc Hne Ha Hend Htok. unfold strtok_r. rewrite Ha, (proj2 (Z.eqb_neq s 0)) by done.
  wp_step. eapply wp_strspn; [done..|].
  destruct (prefix_while_split (member set) str) as (k & u & -> & Hk & Hkall & Hu). rewrite <-Hk.
  apply cstr_app in Hs as [_ Hs]. rewrite fields_skip in * by done. destruct u as [|b u].
  { rewrite cstr_nil in Hs. do 2 cstep. apply wp_if; [intros _; wp_step|done]. by apply Hend. }
  pose proof Hs as Hs'. rewrite cstr_cons in Hs'. destruct Hs' as (Hb & Hl & _). unfold letter in Hl.
  do 2 cstep. apply wp_if; intros Hz; [lia|]. wp_step. eapply wp_strcspn; [done..|].
  destruct (prefix_while_split (λ b, negb (member set b)) (b :: u)) as (t & r & Ht & Hn & Htall & Hr).
  rewrite <-Hn, Ht in *. apply cstr_app in Hs as [_ Hs].
  assert (Htne : t ≠ []).
  { intros ->. cbn in Ht. subst r. specialize (Hu b eq_refl). specialize (Hr b eq_refl).
    by rewrite Hu in Hr. }
  assert (Hf : fields (member set) [] (t ++ r) = t :: fields (member set) [] (tail r)).
  { rewrite fields_token; [|eapply list.Forall_impl; [done|]; intros x Hx; by apply negb_true_iff].
    destruct t as [|x t]; [done|]. destruct r as [|b' r]; [done|]. cbn [app fields tail].
    specialize (Hr b' eq_refl). apply negb_false_iff in Hr. by rewrite Hr. }
  specialize (Htok k t r eq_refl Htne Hf). cbn zeta in Htok. destruct r as [|b' r].
  - rewrite cstr_nil in Hs. do 2 cstep. by apply wp_if; [intros _; wp_step|].
  - rewrite cstr_cons in Hs. destruct Hs as (Hb' & Hl' & _). unfold letter in Hl'.
    do 2 cstep. apply wp_if; intros Hz'; [lia|]. wp_step. apply wp_wr; [done|]. by wp_step.
Qed.

(** A caller that asks for tokens until there are none: the string once, then [NULL]. *)
Fixpoint all_tokens (calls : nat) (a sep p : Z) : M memory (list Z) :=
  match calls with
  | O => crash OutOfFuel
  | S n =>
      '(t, p) ← strtok_r a sep p;
      if t =? 0 then mret [] else ts ← all_tokens n 0 sep p; mret (t :: ts)
  end.

(** Memory is the same outside of the string. *)
Definition same_outside (m m' : memory) (p : Z) (s : list Z) : Prop :=
  ∀ q, q < p ∨ p + Z.of_nat (length s) < q → m' !! q = m !! q.

Lemma cstr_same m m' p s : (∀ q, p <= q <= p + Z.of_nat (length s) → m' !! q = m !! q) → cstr m p s → cstr m' p s.
Proof.
  intros H [Hh Hl]. split; [|done]. rewrite holds_lookup in Hh |- *. intros i b Hb.
  rewrite H; [by apply Hh|]. apply lookup_lt_Some in Hb. rewrite length_app in Hb. cbn in Hb. lia.
Qed.

Lemma cstr_cut m p t b r : cstr m p (t ++ b :: r) →
  let e := p + Z.of_nat (length t) in
  cstr (<[e := 0]> m) p t ∧ cstr (<[e := 0]> m) (e + 1) r.
Proof.
  intros Hs e. pose proof (cstr_app _ _ _ _ Hs) as [Hh Ht]. rewrite cstr_cons in Ht. destruct Ht as (_ & _ & Hr).
  split.
  - destruct Hs as [_ Hl]. apply list.Forall_app in Hl as [Hl _]. split; [|done]. apply holds_app. split.
    + apply (holds_put_out m e [0]); [unfold e; lia|done].
    + cbn. split; [by rewrite lookup_insert_eq|done].
  - apply (cstr_put_out m e [0]); [cbn; lia|done].
Qed.

Lemma wp_all_tokens n m s str c set a p : words m → cstr m s str → cstr m c set → 0 < s →
  (if a =? 0 then p else a) = s → c + Z.of_nat (length set) < s ∨ s + Z.of_nat (length str) < c →
  (length str < n)%nat →
  wp (all_tokens n a c p) (λ ps m', Forall2 (cstr m') ps (fields (member set) [] str) ∧
    same_outside m m' s str) m.
Proof.
  revert m s str a p; induction n as [|n IH]; intros m s str a p Hm Hs Hc Hpos Ha Hap Hn; [lia|].
  cbn [all_tokens]. wp_step. eapply (wp_strtok_r _ s str _ set); [done..|lia|done| |].
  { intros Hf. wp_step; [|done]. wp_step. rewrite Hf. by split. }
  intros k t r -> Ht Hf. cbn zeta. set (q := s + Z.of_nat (length k)). set (e := q + Z.of_nat (length t)).
  assert (Hq : (q =? 0) = false) by lia. rewrite Hf. apply cstr_app in Hs as [_ Hs].
  destruct t as [|x t]; [done|]. rewrite !length_app in *. cbn [length] in *. destruct r as [|b r]; rewrite Hq; wp_step.
  - destruct n as [|n]; [lia|]. cbn. split; [|done]. constructor; [|constructor]. by rewrite app_nil_r in Hs.
  - pose proof (cstr_app _ _ (x :: t) _ Hs) as [_ He]. apply cstr_first in He.
    apply cstr_cut in Hs as [Hst Hsr]. fold q e in Hst, Hsr. cbn [length] in Hn, Hap.
    eapply wp_mono; [apply (IH _ (e + 1) r)|].
    + apply (words_put m e [0]); [done|by repeat constructor|]. intros i Hi. cbn in Hi.
      replace (e + i) with e by lia. done.
    + done.
    + apply (cstr_put_out m e [0]); [cbn; lia|done].
    + lia.
    + done.
    + lia.
    + lia.
    + intros ps m' [Hps Hout]. wp_step. split.
      * constructor; [|done]. eapply cstr_same; [|exact Hst]. intros y Hy. apply Hout. cbn [length] in Hy. lia.
      * intros y Hy. rewrite !length_app in Hy. cbn [length] in Hy. rewrite Hout by lia. by rewrite lookup_insert_ne by lia.
Qed.

(** C38: asking [strtok_r] for tokens until it returns [NULL] takes at most one call for each
    character and one more, and gives the fields between the separators that are not empty, in
    their order, each a string of its own at the address returned; nothing outside of the
    string has been written. *)
Theorem strtok_splits (m : memory) (s c : Z) (str set : list Z) :
  words m → cstr m s str → cstr m c set → 0 < s →
  c + Z.of_nat (length set) < s ∨ s + Z.of_nat (length str) < c →
  wp (all_tokens (S (length str)) s c 0)
    (λ ps m', Forall2 (cstr m') ps (fields (member set) [] str) ∧ same_outside m m' s str) m.
Proof.
  intros Hm Hs Hc Hpos Hap. apply wp_all_tokens; [done..| |done|lia].
  by rewrite (proj2 (Z.eqb_neq s 0)) by lia.
Qed.

(** "a b::c" at 64, separated by " :" at 80. *)
Definition text : memory := put ∅ 64 ([97; 32; 98; 58; 58; 99; 0] ++ replicate 9 0 ++ [32; 58; 0] ++ replicate 5 0).

Lemma strtok_splits_witness :
  cstr text 64 [97; 32; 98; 58; 58; 99] ∧
  wp (all_tokens 7 64 80 0) (λ ps m', Forall2 (cstr m') ps [[97]; [98]; [99]] ∧
    same_outside text m' 64 [97; 32; 98; 58; 58; 99]) text.
Proof.
  assert (Hs : cstr text 64 [97; 32; 98; 58; 58; 99]) by (split; [vm_compute; tauto|repeat constructor; lia]).
  split; [exact Hs|].
  apply (strtok_splits text 64 80 [97; 32; 98; 58; 58; 99] [32; 58]); [|exact Hs| |lia|cbn; lia].
  - apply words_block; [done..|repeat constructor; lia].
  - split; [vm_compute; tauto|repeat constructor; lia].
Defined.


(** ** Comparing and copying *)

Lemma wp_strcmp_loop fuel m s t a b : cstr m s a → cstr m t b → (length a < fuel)%nat →
  wp (strcmp_loop fuel s t) (λ r m', m' = m ∧ (r = 0 ↔ a = b)) m.
Proof.
  assert (Hchar : ∀ x y, byte x → byte y → x ≠ y → char x - char y ≠ 0).
  { unfold char, byte. intros x y Hx Hy Hne. repeat case_match; lia. }
  revert s t a b; induction fuel as [|fuel IH]; intros s t a b Ha Hb Hf; [lia|]. cbn [strcmp_loop].
  destruct a as [|x a], b as [|y b]; rewrite ?cstr_nil, ?cstr_cons in Ha; rewrite ?cstr_nil, ?cstr_cons in Hb;
    repeat match goal with H : _ ∧ _ |- _ => destruct H end; unfold letter in *; csteps; try done; try lia;
    try (split; [done|]; split; [|done]; intros He; exfalso; revert He; apply Hchar; unfold byte; lia).
  - assert (x = y) as -> by lia. cbn in Hf. eapply wp_mono; [apply (IH _ _ a b); [done..|lia]|].
    intros r m' [-> Hr]. split; [done|]. rewrite Hr. split; congruence.
  - split; [done|]. split; [intros He; exfalso; revert He; apply Hchar; unfold byte; lia|].
    intros [= -> ->]. lia.
Qed.

(** [strcmp] tells whether two strings are the same. *)
Lemma wp_strcmp m s t a b : cstr m s a → cstr m t b →
  wp (strcmp s t) (λ r m', m' = m ∧ (r = 0 ↔ a = b)) m.
Proof.
  intros Ha Hb. unfold strcmp. do 2 cstep. pose proof (cstr_size _ _ _ Ha).
  by apply wp_strcmp_loop; [..|lia].
Qed.

(** [memcmp] orders blocks as lists of bytes. *)
Lemma wp_memcmp n m s t a b : holds m s a → holds m t b → length a = n → length b = n →
  wp (memcmp n s t) (λ r m', m' = m ∧ (r = 0 ↔ a = b)) m.
Proof.
  revert s t a b; induction n as [|n IH]; intros s t [|x a] [|y b] Ha Hb Hna Hnb; try done; cbn [memcmp].
  destruct Ha as [Hx Ha], Hb as [Hy Hb]. csteps; [split; [done|]; split; [lia|intros [= -> ->]; lia]..|].
  assert (x = y) as -> by lia. eapply wp_mono; [apply (IH _ _ a b); [done..|by injection Hna|by injection Hnb]|].
  intros r m' [-> Hr]. split; [done|]. rewrite Hr. split; congruence.
Qed.

Lemma wp_copy_string fuel m d s str (Q : unit → memory → Prop) :
  cstr m s str → room m d (S (length str)) → (length str < fuel)%nat →
  s + Z.of_nat (length str) < d ∨ d < s →
  Q tt (put m d (str ++ [0])) → wp (copy_string fuel d s) Q m.
Proof.
  revert m d s str; induction fuel as [|fuel IH]; intros m d s str Hs Hr Hf Hap HQ; [lia|]. cbn [copy_string].
  destruct str as [|b str]; cbn [app] in HQ.
  - rewrite cstr_nil in Hs. do 2 cstep. apply wp_if; [intros _|done]. apply wp_wr; [by eapply room_first|done].
  - pose proof Hs as Hs'. rewrite cstr_cons in Hs. destruct Hs as (Hb & Hl & Hs). unfold letter in Hl. cbn in Hf, Hap.
    do 2 cstep. apply wp_if; intros Hz; [lia|]. wp_step. apply wp_wr; [by eapply room_first|].
    rewrite byte_mod by (unfold byte; lia). rewrite put_front in HQ.
    eapply IH; [|by apply room_insert, room_tail|lia| |done]; [|lia].
    apply (cstr_put_out m d [b]); [cbn; lia|done].
Qed.

(** [strcpy] to a place before the string or after it. *)
Lemma wp_strcpy m d s str (Q : Z → memory → Prop) :
  cstr m s str → room m d (S (length str)) → s + Z.of_nat (length str) < d ∨ d < s →
  Q d (put m d (str ++ [0])) → wp (strcpy d s) Q m.
Proof.
  intros Hs Hr Hap HQ. unfold strcpy. pose proof (cstr_size _ _ _ Hs). do 2 cstep. wp_step.
  apply (wp_copy_string _ _ _ _ str); [done..|lia|done|]. by wp_step.
Qed.

(** ** Where the functions are not what C asks for *)

(** [strrchr] walks from the start of the string towards lower addresses: the last "o" of
    "hello world" is not found, and the bytes in front of the string are read. *)
Lemma strrchr_walks_backwards : strrchr 104 111 page = Fault OutOfBounds.
Proof. vm_compute. reflexivity. Qed.

(** [stpcpy] writes no terminator and returns the address of the last character. *)
Lemma stpcpy_unterminated :
  stpcpy 70 64 (put ∅ 64 [97; 98; 0; 7; 7; 7; 9; 9; 9]) = Done (71, put ∅ 64 [97; 98; 0; 7; 7; 7; 97; 98; 9]).
Proof. vm_compute. reflexivity. Qed.

(** [memccpy] looks for the byte after the character. *)
Lemma memccpy_misses : ∃ m', memccpy 4 70 64 98 (put ∅ 64 [97; 98; 0; 7; 7; 7; 9; 9; 9; 9]) = Done (0, m').
Proof. eexists. vm_compute. reflexivity. Qed.

(** [strchr] does not find the terminator. *)
Lemma strchr_no_terminator : strchr 104 0 page = Done (0, page).
Proof. vm_compute. reflexivity. Qed.

(** [memchr] does not find a byte of 128 or more given as an [unsigned char]. *)
Lemma memchr_high_byte : memchr 4 64 200 (put ∅ 64 [200; 200; 200; 200]) = Done (0, put ∅ 64 [200; 200; 200; 200]).
Proof. vm_compute. reflexivity. Qed.
