(* ===== verification/Ext2.v ===== *)
(** * Ext2: the second extended file system

    [kernel/fs/ext2]: block groups with their bitmaps ([block_groups.cpp], [alloc.cpp]), the
    table of inodes ([ext2_ll.cpp]), the tree of blocks of a file and its truncation
    ([inode.cpp]).  The disk is what the buffer cache shows of it: the bytes of each block that
    can be read.  A block that is not there is one whose reading fails. *)

From S2P Require Import Prelude Abi Bits Bytes.

(** ** The file system *)

Record bgd := Bgd {
  block_usage_addr : Z;
  inode_usage_addr : Z;
  inode_table_addr : Z;
  unallocated_blocks_in_group : Z;
  unallocated_inodes_in_group : Z;
  used_dirs_count : Z }.

(** An inode in memory: the copy of the bytes on disk, and what the VFS keeps. *)
Record node := Node {
  i_raw : list Z;
  i_blocks : Z;
  i_size : Z }.

Record ext2 := Ext2 {
  disk : gmap Z (list Z);
  block_groups : list bgd;
  s_free_blocks_count : Z;
  s_free_inodes_count : Z;
  s_state : Z;
  nodes : gmap Z node;
  errno : Z }.

(** What the superblock says of the disk and never changes. *)
Record geometry := Geometry {
  s_r_blocks_count : Z;
  s_def_resuid : Z;
  s_def_resgid : Z;
  s_errors : Z;
  s_first_data_block : Z;
  block_size : Z;
  block_size_shift : Z;
  entry_shift : Z;
  blocks_per_block_group : Z;
  inodes_per_block_group : Z;
  inode_size : Z }.

Definition EXT2_ERROR_FS : Z := 2.
Definition EXT2_ERRORS_PANIC : Z := 3.
Definition EXT2_ERR_INV_BLOCK : Z := 0.
Definition EXT2_FILE_HOLE_BLOCK : Z := 0.

Definition set_disk d (x : ext2) := Ext2 d (block_groups x) (s_free_blocks_count x) (s_free_inodes_count x) (s_state x) (nodes x) (errno x).
Definition set_groups g (x : ext2) := Ext2 (disk x) g (s_free_blocks_count x) (s_free_inodes_count x) (s_state x) (nodes x) (errno x).
Definition set_free_blocks n (x : ext2) := Ext2 (disk x) (block_groups x) n (s_free_inodes_count x) (s_state x) (nodes x) (errno x).
Definition set_free_inodes n (x : ext2) := Ext2 (disk x) (block_groups x) (s_free_blocks_count x) n (s_state x) (nodes x) (errno x).
Definition set_fs_state n (x : ext2) := Ext2 (disk x) (block_groups x) (s_free_blocks_count x) (s_free_inodes_count x) n (nodes x) (errno x).
Definition set_nodes n (x : ext2) := Ext2 (disk x) (block_groups x) (s_free_blocks_count x) (s_free_inodes_count x) (s_state x) n (errno x).

Definition set_unallocated_blocks n (g : bgd) :=
  Bgd (block_usage_addr g) (inode_usage_addr g) (inode_table_addr g) n (unallocated_inodes_in_group g) (used_dirs_count g).
Definition set_unallocated_inodes n (g : bgd) :=
  Bgd (block_usage_addr g) (inode_usage_addr g) (inode_table_addr g) (unallocated_blocks_in_group g) n (used_dirs_count g).
Definition set_used_dirs n (g : bgd) :=
  Bgd (block_usage_addr g) (inode_usage_addr g) (inode_table_addr g) (unallocated_blocks_in_group g) (unallocated_inodes_in_group g) n.

Section ext2.
Context (G : geometry).

Definition sb_read_block (b : Z) : M ext2 (option (list Z)) := gets (λ x, disk x !! b).
Definition set_block (b : Z) (buf : list Z) : M ext2 unit := modify (λ x, set_disk (<[b := buf]> (disk x)) x).

Definition get_group (nr : Z) : M ext2 bgd :=
  o ← gets (λ x, aget (block_groups x) nr); from_opt o OutOfBounds.
Definition upd_group (nr : Z) (f : bgd → bgd) : M ext2 unit :=
  g ← get_group nr;
  modify (λ x, set_groups (<[Z.to_nat nr := f g]> (block_groups x)) x).
Definition number_of_block_groups : M ext2 Z := gets (λ x, Z.of_nat (length (block_groups x))).

(** [ext2_superblock::error]. *)
Definition error : M ext2 unit :=
  modify (set_fs_state EXT2_ERROR_FS);;
  if s_errors G =? EXT2_ERRORS_PANIC then crash KernelPanic else mret tt.

(** ** Bitmaps *)

(** [n] words from word [i] on; [None] is [SCAN_ZERO_NOT_FOUND]. *)
Fixpoint scan_words (n i : nat) (bitmap : list Z) : M ext2 (option Z) :=
  match n with
  | O => mret None
  | S n =>
      w ← from_opt (get_le 8 (8 * i) bitmap) OutOfBounds;
      if w =? ULONG_MAX then scan_words n (S i) bitmap
      else if w =? 0 then mret (Some (64 * Z.of_nat i))
      else mret (Some (64 * Z.of_nat i + ctzl (u64 (Z.lnot w))))
  end.
Definition ext2_scan_zero (bitmap : list Z) (size : Z) : M ext2 (option Z) :=
  scan_words (Z.to_nat (size / 8)) 0 bitmap.

(** [bitmap[bit / 64] |= 1UL << (bit % 64)]. *)
Definition bitmap_set (bitmap : list Z) (bit : Z) : M ext2 (list Z) :=
  let off := Z.to_nat (8 * (bit / 64)) in
  w ← from_opt (get_le 8 off bitmap) OutOfBounds;
  from_opt (put_le 8 off (word_set w (bit mod 64)) bitmap) OutOfBounds.

(** [bitmap[bit / 8] & (1 << (bit % 8))], by bytes. *)
Definition bitmap_test (bitmap : list Z) (bit : Z) : M ext2 bool :=
  b ← from_opt (aget bitmap (bit / 8)) OutOfBounds;
  mret (has b (Z.shiftl 1 (bit mod 8))).
(** [bitmap[bit / 8] &= ~(1 << (bit % 8))]. *)
Definition bitmap_clear (bitmap : list Z) (bit : Z) : M ext2 (list Z) :=
  b ← from_opt (aget bitmap (bit / 8)) OutOfBounds;
  from_opt (aset bitmap (bit / 8) (Z.land b (Z.lnot (Z.shiftl 1 (bit mod 8))) mod 256)) OutOfBounds.

(** ** Block groups *)

(** An error is a negative number on the right. *)
Abbreviation expected A := (A + Z)%type.

Definition dec_unallocated_inodes nr := upd_group nr (λ g, set_unallocated_inodes (u16 (unallocated_inodes_in_group g - 1)) g).
Definition inc_unallocated_inodes nr := upd_group nr (λ g, set_unallocated_inodes (u16 (unallocated_inodes_in_group g + 1)) g).
Definition dec_unallocated_blocks nr := upd_group nr (λ g, set_unallocated_blocks (u16 (unallocated_blocks_in_group g - 1)) g).
Definition inc_unallocated_blocks nr := upd_group nr (λ g, set_unallocated_blocks (u16 (unallocated_blocks_in_group g + 1)) g).
Definition dec_used_dirs nr := upd_group nr (λ g, set_used_dirs (u16 (used_dirs_count g - 1)) g).
Definition inc_used_dirs nr := upd_group nr (λ g, set_used_dirs (u16 (used_dirs_count g + 1)) g).

(** [ext2_block_group::allocate_inode]. *)
Definition bg_allocate_inode (nr : Z) : M ext2 (expected Z) :=
  g ← get_group nr;
  buf ← sb_read_block (inode_usage_addr g);
  match buf with
  | None => error;; mret (inr (- EIO))
  | Some bitmap =>
      bit ← ext2_scan_zero bitmap (block_size G);
      match bit with
      | None => mret (inr (- ENOSPC))
      | Some bit =>
          bitmap ← bitmap_set bitmap bit;
          set_block (inode_usage_addr g) bitmap;;
          dec_unallocated_inodes nr;;
          modify (λ x, set_free_inodes (u32 (s_free_inodes_count x - 1)) x);;
          mret (inl (u32 (u32 (nr * inodes_per_block_group G) + bit + 1)))
      end
  end.

(** [ext2_block_group::allocate_block]. *)
Definition bg_allocate_block (nr : Z) : M ext2 (expected Z) :=
  g ← get_group nr;
  buf ← sb_read_block (block_usage_addr g);
  match buf with
  | None => error;; mret (inr (- EIO))
  | Some bitmap =>
      bit ← ext2_scan_zero bitmap (block_size G);
      match bit with
      | None => mret (inr (- ENOSPC))
      | Some bit =>
          bitmap ← bitmap_set bitmap bit;
          set_block (block_usage_addr g) bitmap;;
          bit' ← ext2_scan_zero bitmap (block_size G);
          check (negb (bool_decide (bit' = Some bit))) AssertFailed;;
          dec_unallocated_blocks nr;;
          modify (λ x, set_free_blocks (u32 (s_free_blocks_count x - 1)) x);;
          mret (inl (u32 (u32 (nr * blocks_per_block_group G) + bit + s_first_data_block G)))
      end
  end.

(** [ext2_block_group::free_block]. *)
Definition bg_free_block (nr block : Z) : M ext2 unit :=
  g ← get_group nr;
  buf ← sb_read_block (block_usage_addr g);
  match buf with
  | None => error
  | Some bitmap =>
      let bit := u32 (block - s_first_data_block G) mod blocks_per_block_group G in
      used ← bitmap_test bitmap bit;
      if negb used then error
      else
        bitmap ← bitmap_clear bitmap bit;
        set_block (block_usage_addr g) bitmap;;
        inc_unallocated_blocks nr;;
        modify (λ x, set_free_blocks (u32 (s_free_blocks_count x + 1)) x)
  end.

(** [ext2_block_group::free_inode]. *)
Definition bg_free_inode (nr inode : Z) : M ext2 unit :=
  g ← get_group nr;
  buf ← sb_read_block (inode_usage_addr g);
  match buf with
  | None => error
  | Some bitmap =>
      let bit := u32 (inode - 1) mod inodes_per_block_group G in
      used ← bitmap_test bitmap bit;
      if negb used then error
      else
        bitmap ← bitmap_clear bitmap bit;
        set_block (inode_usage_addr g) bitmap;;
        inc_unallocated_inodes nr;;
        modify (λ x, set_free_inodes (u32 (s_free_inodes_count x + 1)) x)
  end.

(** ** Allocation of blocks over all groups *)

Definition try_allocate_block_from_bg (nr : Z) : M ext2 Z :=
  n ← number_of_block_groups;
  check (nr <? n) KernelPanic;;
  g ← get_group nr;
  if unallocated_blocks_in_group g =? 0 then mret EXT2_ERR_INV_BLOCK
  else
    r ← bg_allocate_block nr;
    mret (match r with inl b => b | inr _ => EXT2_ERR_INV_BLOCK end).

(** The rounds from [dist] on, [n] of them. *)
Fixpoint allocate_rounds (n : nat) (preferred dist dist_start dist_end : Z) : M ext2 Z :=
  match n with
  | O => mret EXT2_ERR_INV_BLOCK
  | S n =>
      block ← (if negb (dist =? 0) && (0 <=? dist_start) then try_allocate_block_from_bg (u32 (preferred - dist))
               else mret EXT2_ERR_INV_BLOCK);
      if negb (block =? EXT2_ERR_INV_BLOCK) then mret block
      else
        block ← (if 0 <=? dist_end then try_allocate_block_from_bg (u32 (preferred + dist))
                 else mret EXT2_ERR_INV_BLOCK);
        if negb (block =? EXT2_ERR_INV_BLOCK) then mret block
        else allocate_rounds n preferred (dist + 1) (dist_start - 1) (dist_end - 1)
  end.

(** [preferred] is -1 for none; [euid] and [egid] are the caller's. *)
Definition allocate_block (euid egid preferred : Z) : M ext2 Z :=
  free ← gets s_free_blocks_count;
  if free =? 0 then mret EXT2_ERR_INV_BLOCK
  else if (free <=? s_r_blocks_count G) && negb ((euid =? s_def_resuid G) || (egid =? s_def_resgid G))
  then mret EXT2_ERR_INV_BLOCK
  else
    n ← number_of_block_groups;
    let preferred := if preferred =? u32 (-1) then 0 else preferred in
    let max_block_group := u32 (n - 1) in
    let dist_start := i32 preferred in
    let dist_end := i32 (max_block_group - preferred) in
    let max_distance := Z.max dist_start dist_end in
    allocate_rounds (Z.to_nat (max_distance + 1)) preferred 0 dist_start dist_end.

Definition free_block (block : Z) : M ext2 unit :=
  check (negb (block =? EXT2_ERR_INV_BLOCK)) AssertFailed;;
  let block_group := u32 (block - s_first_data_block G) / blocks_per_block_group G in
  n ← number_of_block_groups;
  check (block_group <? n) AssertFailed;;
  bg_free_block block_group block.

(** ** The inode table *)

Definition ext2_inode_number_to_bg (no : Z) : Z := u32 (no - 1) / inodes_per_block_group G.

(** The group, the block of its table and the offset in that block. *)
Definition inode_place (inode : Z) : Z * Z * Z :=
  let index := u32 (inode - 1) mod inodes_per_block_group G in
  let inodes_per_block := block_size G / inode_size G in
  (ext2_inode_number_to_bg inode, index / inodes_per_block, (index mod inodes_per_block) * inode_size G).

Definition get_inode_table (g : bgd) (off : Z) : M ext2 (option (list Z)) :=
  sb_read_block (u32 (inode_table_addr g + off)).

(** [mem]: is there memory for the copy? *)
Definition get_inode (mem : bool) (inode : Z) : M ext2 (option (list Z)) :=
  let '(bg_no, block, off) := inode_place inode in
  n ← number_of_block_groups;
  check (bg_no <? n) AssertFailed;;
  g ← get_group bg_no;
  buf ← get_inode_table g block;
  match buf with
  | None => error;; mret None
  | Some buf =>
      if negb mem then mret None
      else
        check (off + inode_size G <=? Z.of_nat (length buf)) OutOfBounds;;
        mret (Some (take (Z.to_nat (inode_size G)) (drop (Z.to_nat off) buf)))
  end.

Definition update_inode (ino : list Z) (inode_no : Z) : M ext2 unit :=
  check (negb (inode_no =? 0)) AssertFailed;;
  let '(bg_no, block, off) := inode_place inode_no in
  n ← number_of_block_groups;
  check (bg_no <? n) AssertFailed;;
  g ← get_group bg_no;
  buf ← get_inode_table g block;
  match buf with
  | None => error
  | Some buf =>
      check (off + inode_size G <=? Z.of_nat (length buf)) OutOfBounds;;
      set_block (u32 (inode_table_addr g + block))
        (take (Z.to_nat off) buf ++ take (Z.to_nat (inode_size G)) ino ++ drop (Z.to_nat (off + inode_size G)) buf)
  end.

(** Over the groups from [nr] on, [n] of them. *)
Fixpoint allocate_inode_from (mem : bool) (n : nat) (nr : Z) : M ext2 (expected (Z * list Z)) :=
  match n with
  | O => mret (inr (- ENOSPC))
  | S n =>
      g ← get_group nr;
      if unallocated_inodes_in_group g <=? 0 then allocate_inode_from mem n (nr + 1)
      else
        res ← bg_allocate_inode nr;
        match res with
        | inr _ => allocate_inode_from mem n (nr + 1)
        | inl inode =>
            ino ← get_inode mem inode;
            match ino with
            | None => bg_free_inode nr inode;; e ← gets errno; mret (inr (- e))
            | Some _ =>
                let ino := replicate (Z.to_nat (inode_size G)) 0 in
                update_inode ino inode;;
                mret (inl (inode, ino))
            end
        end
  end.

Definition allocate_inode (mem : bool) : M ext2 (expected (Z * list Z)) :=
  free ← gets s_free_inodes_count;
  if free =? 0 then mret (inr (- ENOSPC))
  else n ← number_of_block_groups; allocate_inode_from mem (Z.to_nat n) 0.

(** The assertion allows for one group too many. *)
Definition free_inode (inode : Z) : M ext2 unit :=
  let bg_no := ext2_inode_number_to_bg inode in
  n ← number_of_block_groups;
  check (bg_no <=? n) AssertFailed;;
  bg_free_inode bg_no inode.

(** ** The blocks of a file *)

Definition EXT2_IND_BLOCK : Z := 12.
Definition EXT2_DIND_BLOCK : Z := 13.
Definition EXT2_TIND_BLOCK : Z := 14.
Definition EXT2_NR_BLOCKS : Z := 15.
Definition direct_block_count : Z := 12.

Definition entries : Z := block_size G / 4.
Definition min_doubly_block : Z := u32 (entries + direct_block_count).
Definition min_trebly_block : Z := u32 (entries * entries + entries + direct_block_count).

(** How many tables are between the inode and the block. *)
Definition ext2_detect_block_type (block : Z) : Z :=
  if block <? direct_block_count then 0
  else if block <? min_doubly_block then 1
  else if block <? min_trebly_block then 2
  else 3.

Definition ext2_get_block_path (block_nr : Z) : list Z :=
  let type := ext2_detect_block_type block_nr in
  if type =? 0 then [block_nr]
  else if type =? 1 then [EXT2_IND_BLOCK; u32 (block_nr - direct_block_count)]
  else if type =? 2 then
    let block_nr := u32 (block_nr - min_doubly_block) in
    [EXT2_DIND_BLOCK; Z.shiftr block_nr (entry_shift G); Z.land block_nr (entries - 1)]
  else
    let block_nr := u32 (block_nr - min_trebly_block) in
    [EXT2_TIND_BLOCK; Z.shiftr block_nr (entry_shift G * 2);
     Z.land (Z.shiftr block_nr (entry_shift G)) (entries - 1); Z.land block_nr (entries - 1)].

(** Where a table is: in the inode, from byte 40 on, or in a block of its own. *)
Inductive table :=
  | InInode
  | InBlock (b : Z).

Definition get_node (ino : Z) : M ext2 node :=
  o ← gets (λ x, nodes x !! ino); from_opt o NullDeref.
Definition upd_node (ino : Z) (f : node → node) : M ext2 unit :=
  n ← get_node ino; modify (λ x, set_nodes (<[ino := f n]> (nodes x)) x).

Definition i_data_offset : Z := 40.

(** The entries of the table in [ino]. *)
Definition raw_entry (raw : list Z) (off : Z) : option Z :=
  if (0 <=? off) && (off <? EXT2_NR_BLOCKS) then get_le 4 (Z.to_nat (i_data_offset + 4 * off)) raw else None.
Definition block_entry (buf : list Z) (off : Z) : option Z :=
  if 0 <=? off then get_le 4 (Z.to_nat (4 * off)) buf else None.

Definition get_entry (ino : Z) (t : table) (off : Z) : M ext2 Z :=
  match t with
  | InInode => n ← get_node ino; from_opt (raw_entry (i_raw n) off) OutOfBounds
  | InBlock b =>
      buf ← sb_read_block b; buf ← from_opt buf NullDeref; from_opt (block_entry buf off) OutOfBounds
  end.

Definition set_entry (ino : Z) (t : table) (off v : Z) : M ext2 unit :=
  match t with
  | InInode =>
      n ← get_node ino;
      raw ← from_opt (put_le 4 (Z.to_nat (i_data_offset + 4 * off)) v (i_raw n)) OutOfBounds;
      upd_node ino (λ n, Node raw (i_blocks n) (i_size n))
  | InBlock b =>
      buf ← sb_read_block b; buf ← from_opt buf NullDeref;
      buf ← from_opt (put_le 4 (Z.to_nat (4 * off)) v buf) OutOfBounds;
      set_block b buf
  end.

(** [ext2_get_block_from_inode] from table [t] on; a hole is block 0. *)
Fixpoint follow_path (ino : Z) (t : table) (path : list Z) : M ext2 (expected Z) :=
  match path with
  | [] => mret (inl 0)
  | [off] => b ← get_entry ino t off; mret (inl b)
  | off :: path =>
      b ← get_entry ino t off;
      if b =? EXT2_ERR_INV_BLOCK then mret (inl EXT2_ERR_INV_BLOCK)
      else
        buf ← sb_read_block b;
        match buf with
        | None => e ← gets errno; mret (inr (- e))
        | Some _ => follow_path ino (InBlock b) path
        end
  end.
Definition ext2_get_block_from_inode (ino block : Z) : M ext2 (expected Z) :=
  follow_path ino InInode (ext2_get_block_path block).

Definition add_blocks (ino n : Z) : M ext2 unit :=
  upd_node ino (λ x, Node (i_raw x) (i64 (i_blocks x + n)) (i_size x)).
Definition sectors_per_block : Z := Z.shiftr (block_size G) 9.

(** [ext2_create_path] from table [t] on. *)
Fixpoint create_path_from (euid egid ino preferred : Z) (t : table) (path : list Z) : M ext2 (expected Z) :=
  match path with
  | [] => mret (inl 0)
  | [off] =>
      b ← get_entry ino t off;
      if b =? EXT2_FILE_HOLE_BLOCK then
        block ← allocate_block euid egid (u32 (-1));
        if block =? EXT2_ERR_INV_BLOCK then mret (inr (- ENOSPC))
        else set_entry ino t off block;; add_blocks ino sectors_per_block;; mret (inl block)
      else mret (inl b)
  | off :: path =>
      b ← get_entry ino t off;
      b' ← (if b =? EXT2_ERR_INV_BLOCK then
              block ← allocate_block euid egid preferred;
              if block =? EXT2_ERR_INV_BLOCK then mret None
              else set_entry ino t off block;; add_blocks ino sectors_per_block;; mret (Some block)
            else mret (Some b));
      match b' with
      | None => mret (inr (- ENOSPC))
      | Some b' =>
          buf ← sb_read_block b';
          match buf with
          | None => e ← gets errno; mret (inr (- e))
          | Some _ =>
              (if b =? EXT2_ERR_INV_BLOCK then set_block b' (replicate (Z.to_nat (block_size G)) 0) else mret tt);;
              create_path_from euid egid ino preferred (InBlock b') path
          end
      end
  end.
Definition ext2_create_path (euid egid ino block : Z) : M ext2 (expected Z) :=
  create_path_from euid egid ino (ext2_inode_number_to_bg ino) InInode (ext2_get_block_path block).

(** ** Truncation *)

Record ext2_block_coords := Coords { coords : list Z; coords_size : Z }.

(** [operator==]: the size is not compared. *)
Definition coords_eqb (a b : ext2_block_coords) : bool := bool_decide (coords a = coords b).

Definition set_coord (c : ext2_block_coords) (level : nat) (i : Z) : ext2_block_coords :=
  Coords (<[level := i]> (coords c)) (coords_size c).

(** The offset in the file that coordinates are taken to stand for. *)
Definition to_offset (c : ext2_block_coords) : Z :=
  let at_ i := default 0 (coords c !! i) in
  let es := entry_shift G in
  if coords_size c =? 1 then u32 (Z.shiftl (at_ 0%nat) (block_size_shift G))
  else if coords_size c =? 2 then u32 (Z.shiftl (u32 (at_ 1%nat + direct_block_count)) es)
  else if coords_size c =? 3 then
    u32 (Z.shiftl (u32 (Z.lor (u32 (Z.shiftl (at_ 2%nat) es)) (at_ 1%nat) + min_doubly_block)) es)
  else
    u32 (Z.shiftl (u32 (Z.lor (Z.lor (u32 (Z.shiftl (at_ 3%nat) (es * 2)))
                                     (Z.land (u32 (Z.shiftl (at_ 2%nat) es)) (entries - 1)))
                              (Z.land (at_ 1%nat) (entries - 1)) + min_trebly_block)) es).

(** Either an error, or whether to stop and the coordinates reached. *)
Definition truncated := expected (bool * ext2_block_coords).

(** The entries of the table in block [b] from [n - 1] down to 0; [below] truncates what an
    entry of a table of tables refers to. *)
Fixpoint trunc_entries (below : Z → ext2_block_coords → M ext2 truncated) (level : nat) (n : nat)
    (ino b : Z) (boundary curr : ext2_block_coords) : M ext2 truncated :=
  match n with
  | O => mret (inl (false, curr))
  | S n =>
      let i := Z.of_nat n in
      let curr := set_coord curr level i in
      if coords_eqb curr boundary then mret (inl (true, curr))
      else
        e ← get_entry ino (InBlock b) i;
        if e =? EXT2_FILE_HOLE_BLOCK then trunc_entries below level n ino b boundary curr
        else
          r ← (if (level =? 1)%nat then mret (inl (false, curr)) else below e curr);
          match r with
          | inl (false, curr) =>
              free_block e;;
              add_blocks ino (- sectors_per_block);;
              set_entry ino (InBlock b) i 0;;
              trunc_entries below level n ino b boundary curr
          | r => mret r
          end
  end.

Fixpoint ext2_trunc_indirect_block (level : nat) (ino block : Z) (boundary curr : ext2_block_coords)
    : M ext2 truncated :=
  match level with
  | O => mret (inl (coords_eqb curr boundary, curr))
  | S below =>
      buf ← sb_read_block block;
      match buf with
      | None => error;; mret (inr (- EIO))
      | Some _ =>
          trunc_entries (λ e curr, ext2_trunc_indirect_block below ino e boundary curr)
            level (Z.to_nat entries) ino block boundary curr
      end
  end.

Definition indirection_level (i : Z) : nat :=
  if i <? EXT2_IND_BLOCK then 0 else if i =? EXT2_IND_BLOCK then 1 else if i =? EXT2_DIND_BLOCK then 2 else 3.

(** The entries of the inode from [n] down to 1. *)
Fixpoint free_space_loop (n : nat) (ino : Z) (boundary : ext2_block_coords) : M ext2 Z :=
  match n with
  | O => mret 0
  | S n' =>
      let i := Z.of_nat n in
      let level := indirection_level i in
      let curr := Coords [i; 0; 0; 0] (Z.of_nat level + 1) in
      if coords_eqb curr boundary then mret 0
      else
        block ← get_entry ino InInode i;
        if block =? EXT2_FILE_HOLE_BLOCK then free_space_loop n' ino boundary
        else
          r ← ext2_trunc_indirect_block level ino block boundary curr;
          match r with
          | inr e => error;; mret e
          | inl (true, _) => mret 0
          | inl (false, _) =>
              free_block block;;
              add_blocks ino (- sectors_per_block);;
              set_entry ino InInode i EXT2_FILE_HOLE_BLOCK;;
              free_space_loop n' ino boundary
          end
  end.

(** Does the inode have blocks of data, besides its extended attributes? *)
Definition ext2_has_data_blocks (n : node) : option bool :=
  acl ← get_le 4 104 (i_raw n);
  Some (negb (i_blocks n - (if acl =? 0 then 0 else sectors_per_block) =? 0)).

Definition path_coords (block : Z) : ext2_block_coords :=
  let path := ext2_get_block_path block in
  Coords (take 4 (path ++ [0; 0; 0; 0])) (Z.of_nat (length path)).

(** The page cache is not part of the model, so neither is its truncation. *)
Definition ext2_free_space (ino new_len : Z) : M ext2 Z :=
  n ← get_node ino;
  data ← from_opt (ext2_has_data_blocks n) OutOfBounds;
  if negb data then mret 0
  else
    let last := u64 (new_len - 1) in
    let boundary_block := if new_len =? 0 then 0 else Z.shiftr (last - last mod block_size G) (block_size_shift G) in
    st ← free_space_loop (Z.to_nat (EXT2_NR_BLOCKS - 1)) ino (path_coords (u32 boundary_block));
    if st <? 0 then mret st
    else
      b ← get_entry ino InInode 0;
      if (new_len =? 0) && negb (b =? 0) then
        free_block b;;
        upd_node ino (λ x, Node (i_raw x) 0 (i_size x));;
        set_entry ino InInode 0 0;;
        mret 0
      else mret 0.

Definition ext2_truncate (ino len : Z) : M ext2 Z :=
  n ← get_node ino;
  st ← (if len <? i_size n then ext2_free_space ino len else mret 0);
  if st <? 0 then mret st
  else upd_node ino (λ x, Node (i_raw x) (i_blocks x) len);; mret st.

Definition ext2_free_inode_space (ino : Z) : M ext2 unit :=
  ext2_free_space ino 0;;
  n ← get_node ino;
  check (i_blocks n =? 0) AssertFailed.

Definition set_raw (ino : Z) (n off : nat) (v : Z) : M ext2 unit :=
  x ← get_node ino;
  raw ← from_opt (put_le n off v (i_raw x)) OutOfBounds;
  upd_node ino (λ x, Node raw (i_blocks x) (i_size x)).

(** [S_ISDIR] of the mode on disk. *)
Definition raw_is_dir (raw : list Z) : bool :=
  match get_le 2 0 raw with Some mode => Z.land mode 0xf000 =? 0x4000 | None => false end.

Definition ext2_delete_inode (now ino : Z) : M ext2 unit :=
  set_raw ino 4 20 (u32 now);;
  ext2_free_inode_space ino;;
  set_raw ino 2 26 0;;
  n ← get_node ino;
  update_inode (i_raw n) ino;;
  let block_group := ext2_inode_number_to_bg ino in
  (if raw_is_dir (i_raw n) then dec_used_dirs block_group else mret tt);;
  free_inode ino.
End ext2.
