(* ===== verification/Ext2Facts.v ===== *)
(** * Ext2Facts: bitmaps, the state of an ext2 file system, and allocation

    The bits of a bitmap block under scanning, setting and clearing; what is true of a file
    system between calls ([ext2_ok]); and the specifications of allocating and freeing
    blocks. *)

From S2P Require Import Prelude Abi Bits Bytes Ext2.

(** ** Bitmap blocks *)

Section bitmaps.
Context (bm : list Z) (Hbytes : Forall byte bm).

Lemma get_word_range off w : get_le 8 off bm = Some w → is_u64 w.
Proof.
  unfold get_le. case_match eqn:E; [|done]. intros [= <-]. apply Nat.leb_le in E.
  pose proof (word_nonneg (take 8 (drop off bm)) ltac:(by apply Forall_take, Forall_drop)) as H.
  rewrite length_take, length_drop in H. replace (8 `min` _)%nat with 8%nat in H by lia. exact H.
Qed.

(** What a scan of the bits from [a] to [b] finds. *)
Definition first_zero (a b : Z) (r : option Z) : Prop :=
  match r with
  | None => ∀ j, a <= j < b → bit_of bm j = true
  | Some i => a <= i < b ∧ bit_of bm i = false ∧ ∀ j, a <= j < i → bit_of bm j = true
  end.

Lemma wp_scan_words n i (x : ext2) : (8 * (i + n) <= length bm)%nat →
  wp (scan_words n i bm) (λ r x', x' = x ∧ first_zero (64 * Z.of_nat i) (64 * Z.of_nat (i + n)) r) x.
Proof.
  revert i; induction n as [|n IH]; intros i Hn; cbn [scan_words].
  { wp_step. split; [done|]. intros j Hj. lia. }
  pose proof (get_le_Some 8 (8 * i) bm ltac:(lia)) as Hw. set (w := word _) in Hw. clearbody w.
  pose proof (get_word_range _ _ Hw) as Hr. pose proof (λ j, word_bits _ _ _ j Hbytes Hw) as Hbits.
  wp_step. eapply wp_from_opt; [done|]. apply wp_if; intros Hm.
  - apply Z.eqb_eq in Hm as ->. eapply wp_mono; [apply IH; lia|]. intros r x' [-> Hf]. split; [done|].
    replace (S i + n)%nat with (i + S n)%nat in Hf by lia.
    assert (Hones : ∀ j, 64 * Z.of_nat i <= j < 64 * Z.of_nat (S i) → bit_of bm j = true).
    { intros j Hj. replace j with (64 * Z.of_nat i + (j - 64 * Z.of_nat i)) by lia.
      rewrite <-Hbits by lia. change ULONG_MAX with (Z.ones 64). by apply Z.ones_spec_low; lia. }
    unfold first_zero in *. destruct r as [b|].
    + destruct Hf as (Hb & Hz & Hf). split; [lia|]. split; [done|]. intros j Hj.
      destruct (decide (j < 64 * Z.of_nat (S i))); [apply Hones|apply Hf]; lia.
    + intros j Hj. destruct (decide (j < 64 * Z.of_nat (S i))); [apply Hones|apply Hf]; lia.
  - apply Z.eqb_neq in Hm. destruct (ctzl_lnot_spec w Hr Hm) as (Hc & Hz & Hlow).
    assert (Hf : first_zero (64 * Z.of_nat i) (64 * Z.of_nat (i + S n))
                   (Some (64 * Z.of_nat i + ctzl (u64 (Z.lnot w))))).
    { cbn [first_zero]. rewrite <-Hbits by done. split; [lia|]. split; [done|]. intros j Hj.
      replace j with (64 * Z.of_nat i + (j - 64 * Z.of_nat i)) by lia. rewrite <-Hbits by lia. apply Hlow. lia. }
    wp_steps; split; try done. apply Z.eqb_eq in H as ->.
    assert (He : Some (64 * Z.of_nat i) = Some (64 * Z.of_nat i + ctzl (u64 (Z.lnot 0)))); [|by rewrite He].
    f_equal. assert (ctzl (u64 (Z.lnot 0)) = 0) as -> by (vm_compute; done). lia.
Qed.

Lemma wp_ext2_scan_zero size (x : ext2) : Z.of_nat (length bm) = size → size mod 8 = 0 →
  wp (ext2_scan_zero bm size) (λ r x', x' = x ∧ first_zero 0 (8 * size) r) x.
Proof.
  intros Hl Hm. unfold ext2_scan_zero.
  assert (Hs : size = 8 * (size / 8)) by (Z.to_euclidean_division_equations; lia).
  eapply wp_mono; [apply wp_scan_words; lia|]. intros r x' [-> Hf]. split; [done|].
  by replace (8 * size) with (64 * Z.of_nat (0 + Z.to_nat (size / 8))) by lia.
Qed.

Lemma bit_of_range j : 0 <= j → bit_of bm j = true → j < 8 * Z.of_nat (length bm).
Proof.
  unfold bit_of. intros Hj. destruct (aget bm (j / 8)) eqn:E; [|done]. apply aget_Some_lt in E.
  Z.to_euclidean_division_equations; lia.
Qed.

Lemma wp_bitmap_set bit (x : ext2) (Q : list Z → ext2 → Prop) :
  Z.of_nat (length bm) mod 8 = 0 → 0 <= bit < 8 * Z.of_nat (length bm) →
  (∀ bm', length bm' = length bm → Forall byte bm' →
    (∀ j, 0 <= j → bit_of bm' j = (j =? bit) || bit_of bm j) → Q bm' x) →
  wp (bitmap_set bm bit) Q x.
Proof.
  intros Hm Hb HQ. unfold bitmap_set. set (i := Z.to_nat (bit / 64)).
  assert (0 <= bit / 64) by (apply Z.div_pos; lia).
  assert (Hoff : Z.to_nat (8 * (bit / 64)) = (8 * i)%nat) by lia. rewrite Hoff.
  assert (Hlen : (8 * i + 8 <= length bm)%nat).
  { apply Nat2Z.inj_le. unfold i.
    Z.to_euclidean_division_equations; lia. }
  pose proof (get_le_Some 8 (8 * i) bm Hlen) as Hw. set (w := word _) in Hw. clearbody w.
  pose proof (get_word_range _ _ Hw) as Hr. assert (Hbm : 0 <= bit mod 64 < 64) by (apply Z.mod_pos_bound; lia).
  destruct (put_le 8 (8 * i) (word_set w (bit mod 64)) bm) as [bm'|] eqn:Hp;
    [|by rewrite put_le_Some in Hp].
  wp_step. eapply wp_from_opt; [done|]. eapply wp_from_opt; [done|].
  pose proof (put_le_bytes _ _ _ _ _ Hp Hbytes) as Hb'. pose proof (length_put_le _ _ _ _ _ Hp) as Hl'.
  apply HQ; [done..|]. intros j Hj. destruct (decide (j / 64 = bit / 64)) as [Hjw|Hjw].
  - pose proof (get_put_le _ _ _ _ _ Hp (word_set_range w (bit mod 64) Hr Hbm)) as Hw'.
    assert (Hjm : 0 <= j mod 64 < 64) by (apply Z.mod_pos_bound; lia).
    assert (Hje : j = 64 * Z.of_nat i + j mod 64) by (unfold i; Z.to_euclidean_division_equations; lia).
    rewrite Hje at 1. rewrite <-(word_bits bm' i _ (j mod 64) Hb' Hw') by done.
    rewrite testbit_word_set by (done || lia). rewrite (word_bits bm i w) by done. rewrite <-Hje. f_equal.
    destruct (Z.eqb_spec j bit) as [->|Hne]; [apply Z.eqb_refl|].
    apply Z.eqb_neq. Z.to_euclidean_division_equations; lia.
  - rewrite (proj2 (Z.eqb_neq j bit)) by congruence. cbn [orb]. unfold bit_of, aget.
    rewrite (lookup_put_le _ _ _ _ _ (Z.to_nat (j / 8)) Hp); [done|].
    unfold i. Z.to_euclidean_division_equations; lia.
Qed.

Lemma wp_bitmap_test bit (x : ext2) (Q : bool → ext2 → Prop) :
  0 <= bit < 8 * Z.of_nat (length bm) → Q (bit_of bm bit) x → wp (bitmap_test bm bit) Q x.
Proof.
  intros Hb HQ. unfold bitmap_test, bit_of in *.
  destruct (aget_is_Some bm (bit / 8)) as [b E]; [Z.to_euclidean_division_equations; lia|]. rewrite E in HQ.
  wp_step. eapply wp_from_opt; [done|]. wp_step.
  assert (0 <= bit mod 8 < 8) by (apply Z.mod_pos_bound; lia).
  unfold has, truthy. rewrite Z.shiftl_1_l. destruct (Z.testbit b (bit mod 8)) eqn:Eb.
  - rewrite (proj2 (Z.eqb_neq _ _)); [done|]. intros H0. apply (f_equal (λ z, Z.testbit z (bit mod 8))) in H0.
    by rewrite Z.land_spec, Eb, Z.pow2_bits_true, Z.testbit_0_l in H0 by lia.
  - rewrite (proj2 (Z.eqb_eq _ _)); [done|]. apply Z.bits_inj'. intros i Hi. rewrite Z.land_spec, Z.testbit_0_l.
    destruct (decide (i = bit mod 8)) as [->|Hne]; [by rewrite Eb|]. by rewrite Z.pow2_bits_false, andb_false_r by lia.
Qed.

Lemma wp_bitmap_clear bit (x : ext2) (Q : list Z → ext2 → Prop) :
  0 <= bit < 8 * Z.of_nat (length bm) →
  (∀ bm', length bm' = length bm → Forall byte bm' →
    (∀ j, 0 <= j → bit_of bm' j = negb (j =? bit) && bit_of bm j) → Q bm' x) →
  wp (bitmap_clear bm bit) Q x.
Proof.
  intros Hb HQ. unfold bitmap_clear.
  assert (Hi : 0 <= bit / 8 < Z.of_nat (length bm)) by (Z.to_euclidean_division_equations; lia).
  destruct (aget_is_Some bm (bit / 8)) as [b E]; [done|]. set (v := Z.land b (Z.lnot (Z.shiftl 1 (bit mod 8))) mod 256).
  destruct (aset bm (bit / 8) v) as [bm'|] eqn:Ea; [|by rewrite aset_is_Some in Ea].
  wp_step. eapply wp_from_opt; [done|]. eapply wp_from_opt; [done|].
  assert (byte v) by (apply Z.mod_pos_bound; done).
  apply HQ; [by eapply length_aset| |].
  - unfold aset in Ea. case_match; [|done]. injection Ea as <-. by apply Forall_insert.
  - intros j Hj. unfold bit_of. rewrite (aget_aset _ _ _ _ _ Ea). case_decide as Hd.
    + rewrite Hd in E. rewrite E. assert (0 <= bit mod 8 < 8) by (apply Z.mod_pos_bound; lia).
      assert (0 <= j mod 8 < 8) by (apply Z.mod_pos_bound; lia). unfold v. change 256 with (2 ^ 8).
      rewrite Z.mod_pow2_bits_low, Z.land_spec, Z.lnot_spec, Z.shiftl_1_l, Z.pow2_bits_eqb by lia.
      rewrite andb_comm. do 2 f_equal. destruct (Z.eqb_spec j bit) as [->|Hne]; [apply Z.eqb_refl|].
      apply Z.eqb_neq. Z.to_euclidean_division_equations; lia.
    + destruct (Z.eqb_spec j bit) as [->|]; [done|]. done.
Qed.
End bitmaps.

(** ** Counting clear bits *)

Lemma filter_flip (P Q : Z → Prop) `{∀ x, Decision (P x), ∀ x, Decision (Q x)} (l : list Z) a :
  NoDup l → a ∈ l → P a → ¬ Q a → (∀ y, y ∈ l → y ≠ a → P y ↔ Q y) →
  length (filter P l) = S (length (filter Q l)).
Proof.
  intros Hnd Ha HP HQ. revert Hnd Ha. induction l as [|y l IH]; intros Hnd Ha Hext; [by apply not_elem_of_nil in Ha|].
  apply list.NoDup_cons in Hnd as [Hy Hnd]. destruct (decide (y = a)) as [->|Hne].
  - rewrite filter_cons_True, filter_cons_False by done. cbn. do 2 f_equal.
    clear IH Ha. induction l as [|z l IH]; [done|]. apply not_elem_of_cons in Hy as [Hz Hy].
    apply list.NoDup_cons in Hnd as [_ Hnd]. rewrite !filter_cons, IH; [|done|done|].
    + specialize (Hext z ltac:(right; left) ltac:(congruence)). repeat case_decide; tauto.
    + intros w Hw. apply Hext. apply list.elem_of_cons in Hw as [->|Hw]; [left|by right; right].
  - apply list.elem_of_cons in Ha as [->|Ha]; [done|].
    assert (IH' : length (filter P l) = S (length (filter Q l))) by (apply IH; [done..|intros z Hz; apply Hext; by right]).
    specialize (Hext y ltac:(left) Hne). rewrite !filter_cons. repeat case_decide; cbn; rewrite ?IH'; tauto || lia.
Qed.

Lemma filter_no (P : Z → Prop) `{∀ x, Decision (P x)} (l : list Z) : (∀ y, y ∈ l → ¬ P y) → filter P l = [].
Proof.
  induction l as [|y l IH]; intros Hl; [done|]. rewrite filter_cons_False by (apply Hl; by left).
  apply IH. intros z Hz. apply Hl. by right.
Qed.

Definition nzeros (bm : list Z) : nat :=
  length (filter (λ i, bit_of bm i = false) (seqZ 0 (8 * Z.of_nat (length bm)))).

Lemma nzeros_flip bm bm' bit : length bm' = length bm → 0 <= bit < 8 * Z.of_nat (length bm) →
  bit_of bm bit = false → bit_of bm' bit = true →
  (∀ j, 0 <= j → j ≠ bit → bit_of bm' j = bit_of bm j) → nzeros bm = S (nzeros bm').
Proof.
  intros Hl Hb Hz Ho Hj. unfold nzeros. rewrite Hl. apply filter_flip with bit.
  - apply NoDup_seqZ.
  - apply elem_of_seqZ. lia.
  - done.
  - by rewrite Ho.
  - intros j Hin Hne. apply elem_of_seqZ in Hin. by rewrite Hj by lia.
Qed.

Lemma nzeros_zero bm : nzeros bm = O → ∀ i, 0 <= i < 8 * Z.of_nat (length bm) → bit_of bm i = true.
Proof.
  intros H i Hi. destruct (bit_of bm i) eqn:E; [done|]. apply nil_length_inv in H.
  assert (Hin : i ∈ filter (λ i, bit_of bm i = false) (seqZ 0 (8 * Z.of_nat (length bm)))).
  { apply list_elem_of_filter. split; [done|]. apply elem_of_seqZ. lia. }
  rewrite H in Hin. by apply not_elem_of_nil in Hin.
Qed.

(** ** The state between calls *)

(** A disk with blocks of 1, 2 or 4 KiB; a bitmap is one block. *)
Record geometry_ok (G : geometry) : Prop := {
  go_shift : 10 <= block_size_shift G <= 12;
  go_size : block_size G = 2 ^ block_size_shift G;
  go_entry : entry_shift G = block_size_shift G - 2;
  go_blocks : 2 <= blocks_per_block_group G <= 8 * block_size G;
  go_inodes : 0 < inodes_per_block_group G <= 8 * block_size G;
  go_first : 0 <= s_first_data_block G;
  go_inode : 128 <= inode_size G <= block_size G }.

(** Blocks and inodes are counted alike: [true] for blocks. *)
Section kinds.
Context (k : bool).
Definition usage_addr (g : bgd) : Z := if k then block_usage_addr g else inode_usage_addr g.
Definition unallocated (g : bgd) : Z := if k then unallocated_blocks_in_group g else unallocated_inodes_in_group g.
Definition set_unallocated (n : Z) (g : bgd) : bgd := if k then set_unallocated_blocks n g else set_unallocated_inodes n g.
Definition free_count (x : ext2) : Z := if k then s_free_blocks_count x else s_free_inodes_count x.
Definition set_free_count (n : Z) (x : ext2) : ext2 := if k then set_free_blocks n x else set_free_inodes n x.
Definition per_group (G : geometry) : Z := if k then blocks_per_block_group G else inodes_per_block_group G.

(** Is the bit in a group's bitmap clear? *)
Definition bit_free (x : ext2) (nr : nat) (i : Z) : bool :=
  match block_groups x !! nr with
  | Some g => match disk x !! usage_addr g with Some bm => negb (bit_of bm i) | None => false end
  | None => false
  end.
End kinds.

Fixpoint zsum (f : bgd → Z) (l : list bgd) : Z := match l with [] => 0 | g :: l => f g + zsum f l end.

Definition block_free (G : geometry) (x : ext2) (b : Z) : bool :=
  let i := b - s_first_data_block G in
  (0 <=? i) && bit_free true x (Z.to_nat (i / blocks_per_block_group G)) (i mod blocks_per_block_group G).

(** The number of the block of a bit. *)
Definition block_number (G : geometry) (nr : nat) (i : Z) : Z :=
  Z.of_nat nr * blocks_per_block_group G + i + s_first_data_block G.

(** How many blocks the inode table of a group has. *)
Definition table_blocks (G : geometry) : Z :=
  (inodes_per_block_group G - 1) / (block_size G / inode_size G) + 1.

Definition in_table (G : geometry) (x : ext2) (a : Z) : Prop :=
  ∃ nr g, block_groups x !! nr = Some g ∧ inode_table_addr g <= a < inode_table_addr g + table_blocks G.
Definition is_bitmap (x : ext2) (a : Z) : Prop :=
  ∃ k nr g, block_groups x !! nr = Some g ∧ a = usage_addr k g.

Record ext2_ok (G : geometry) (x : ext2) : Prop := {
  eo_disk : map_Forall (λ _ b, Forall byte b ∧ Z.of_nat (length b) = block_size G) (disk x);
  eo_size : 0 < Z.of_nat (length (block_groups x)) ∧
    ∀ k, Z.of_nat (length (block_groups x)) * per_group k G + s_first_data_block G < 2 ^ 32;
  eo_bitmap : ∀ k nr g, block_groups x !! nr = Some g → ∃ bm,
    disk x !! usage_addr k g = Some bm ∧ unallocated k g = Z.of_nat (nzeros bm) ∧
    ∀ i, per_group k G <= i < 8 * block_size G → bit_of bm i = true;
  eo_count : ∀ k, free_count k x = zsum (unallocated k) (block_groups x);
  eo_apart : ∀ k k' nr nr' g g', block_groups x !! nr = Some g → block_groups x !! nr' = Some g' →
    usage_addr k g = usage_addr k' g' → k = k' ∧ nr = nr';
  eo_tables : ∀ a, in_table G x a → 0 <= a < 2 ^ 32 ∧ is_Some (disk x !! a) ∧ ¬ is_bitmap x a;
  eo_reserved : ∀ a, a = 0 ∨ is_bitmap x a ∨ in_table G x a → block_free G x a = false;
  eo_readable : ∀ b, block_free G x b = true → is_Some (disk x !! b) }.

(** ** Changing one bit *)

(** The bitmap [bm'] and the counters changed by [d] in group [nr]. *)
Definition change (k : bool) (nr : nat) (g : bgd) (bm' : list Z) (d : Z) (x : ext2) : ext2 :=
  set_free_count k (free_count k x + d)
    (set_groups (<[nr := set_unallocated k (unallocated k g + d) g]> (block_groups x))
      (set_disk (<[usage_addr k g := bm']> (disk x)) x)).

Lemma zsum_insert f l nr g g' : l !! nr = Some g → zsum f (<[nr := g']> l) = zsum f l - f g + f g'.
Proof.
  revert nr; induction l as [|h l IH]; intros [|nr] H; simplify_eq/=; [lia|]. rewrite IH by done. lia.
Qed.

Lemma nzeros_bound bm : (nzeros bm <= 8 * length bm)%nat.
Proof.
  unfold nzeros. etrans; [apply length_filter|]. rewrite length_seqZ. lia.
Qed.

Section numbers.
Context (G : geometry) (HG : geometry_ok G).

Lemma block_number_split b : 0 <= b - s_first_data_block G →
  b = block_number G (Z.to_nat ((b - s_first_data_block G) / blocks_per_block_group G))
        ((b - s_first_data_block G) mod blocks_per_block_group G).
Proof.
  intros Hb. unfold block_number. pose proof (go_blocks _ HG).
  rewrite Z2Nat.id by (apply Z.div_pos; lia). pose proof (Z.div_mod (b - s_first_data_block G) (blocks_per_block_group G)). lia.
Qed.

Lemma block_number_inj n m i j : 0 <= i < blocks_per_block_group G → 0 <= j < blocks_per_block_group G →
  block_number G n i = block_number G m j → n = m ∧ i = j.
Proof.
  unfold block_number. intros Hi Hj E.
  destruct (Z.div_mod_unique (blocks_per_block_group G) (Z.of_nat n) (Z.of_nat m) i j) as [Hn ->]; [lia..|].
  split; [lia|done].
Qed.

Lemma block_free_number x n i : 0 <= i < blocks_per_block_group G → block_free G x (block_number G n i) = bit_free true x n i.
Proof.
  intros Hi. unfold block_free, block_number. pose proof (go_first _ HG).
  replace (_ - s_first_data_block G) with (i + Z.of_nat n * blocks_per_block_group G) by lia.
  rewrite (proj2 (Z.leb_le _ _)) by nia. cbn [andb].
  by rewrite Z.div_add, Z_mod_plus_full, Z.div_small, Z.mod_small, Z.add_0_l, Nat2Z.id by lia.
Qed.

End numbers.

Section change.
Context (G : geometry) (HG : geometry_ok G) (x : ext2) (Hok : ext2_ok G x).
Context (k : bool) (nr : nat) (g : bgd) (bm bm' : list Z) (bit : Z) (v : bool).
Hypothesis Hg : block_groups x !! nr = Some g.
Hypothesis Hbm : disk x !! usage_addr k g = Some bm.
Hypothesis Hlen : length bm' = length bm.
Hypothesis Hbytes' : Forall byte bm'.
Hypothesis Hbit : 0 <= bit < per_group k G.
Hypothesis Hold : bit_of bm bit = negb v.
Hypothesis Hnew : ∀ j, 0 <= j → bit_of bm' j = if j =? bit then v else bit_of bm j.

Abbreviation d := (if v then -1 else 1).
Abbreviation x' := (change k nr g bm' d x).

Lemma change_groups : block_groups x' = <[nr := set_unallocated k (unallocated k g + d) g]> (block_groups x).
Proof. by destruct k. Qed.

Lemma change_disk : disk x' = <[usage_addr k g := bm']> (disk x).
Proof. by destruct k. Qed.

Lemma usage_set_unallocated k1 k2 n h : usage_addr k1 (set_unallocated k2 n h) = usage_addr k1 h.
Proof. by destruct k1, k2. Qed.

Lemma table_set_unallocated n h : inode_table_addr (set_unallocated k n h) = inode_table_addr h.
Proof. by destruct k. Qed.

(** The groups after the change, as they were before. *)
Lemma change_lookup nr' h' : block_groups x' !! nr' = Some h' →
  ∃ h, block_groups x !! nr' = Some h ∧ (∀ k', usage_addr k' h' = usage_addr k' h) ∧
    inode_table_addr h' = inode_table_addr h.
Proof.
  rewrite change_groups. intros H. apply list_lookup_insert_Some in H as [(<- & <- & _)|(Hne & H)].
  - exists g. split; [done|]. split; [intros k'; apply usage_set_unallocated|apply table_set_unallocated].
  - by exists h'.
Qed.

Lemma change_lookup_back nr' h : block_groups x !! nr' = Some h →
  ∃ h', block_groups x' !! nr' = Some h' ∧ (∀ k', usage_addr k' h' = usage_addr k' h) ∧
    inode_table_addr h' = inode_table_addr h.
Proof.
  rewrite change_groups. intros H. destruct (decide (nr = nr')) as [<-|Hne].
  - simplify_eq. eexists. rewrite list_lookup_insert_eq by (by eapply lookup_lt_Some).
    split; [done|]. split; [intros k'; apply usage_set_unallocated|apply table_set_unallocated].
  - exists h. by rewrite list_lookup_insert_ne.
Qed.

Lemma change_bitmap a : is_bitmap x' a ↔ is_bitmap x a.
Proof.
  split; intros (k' & nr' & h & Hh & ->).
  - destruct (change_lookup _ _ Hh) as (h' & Hh' & Hu & _). exists k', nr', h'. by rewrite Hu.
  - destruct (change_lookup_back _ _ Hh) as (h' & Hh' & Hu & _). exists k', nr', h'. by rewrite Hu.
Qed.

Lemma change_table a : in_table G x' a ↔ in_table G x a.
Proof.
  split; intros (nr' & h & Hh & Ha).
  - destruct (change_lookup _ _ Hh) as (h' & Hh' & _ & Hu). exists nr', h'. by rewrite <-Hu.
  - destruct (change_lookup_back _ _ Hh) as (h' & Hh' & _ & Hu). exists nr', h'. by rewrite Hu.
Qed.

Lemma change_bit_free k' nr' j : 0 <= j →
  bit_free k' x' nr' j = if bool_decide (k' = k ∧ nr' = nr) && (j =? bit) then negb v else bit_free k' x nr' j.
Proof.
  intros Hj. unfold bit_free.
  destruct (block_groups x' !! nr') as [h'|] eqn:Eh'.
  - destruct (change_lookup _ _ Eh') as (h & Hh & Hu & _). rewrite Hh, Hu, change_disk.
    destruct (decide (usage_addr k' h = usage_addr k g)) as [He|Hne].
    + destruct (eo_apart _ _ Hok _ _ _ _ _ _ Hh Hg He) as [-> ->]. simplify_eq.
      rewrite lookup_insert_eq, bool_decide_eq_true_2 by done. rewrite Hbm, Hnew by done. by destruct (j =? bit).
    + rewrite lookup_insert_ne by congruence. rewrite bool_decide_eq_false_2; [done|].
      intros [-> ->]. simplify_eq.
  - destruct (block_groups x !! nr') as [h|] eqn:Eh.
    { destruct (change_lookup_back _ _ Eh) as (? & ? & _). congruence. }
    rewrite bool_decide_eq_false_2; [done|]. intros [_ ->]. congruence.
Qed.

Lemma change_block_free b :
  block_free G x' b = if k && (b =? block_number G nr bit) then negb v else block_free G x b.
Proof.
  pose proof (go_blocks _ HG) as Hbpg.
  unfold block_free. destruct (Z.leb_spec 0 (b - s_first_data_block G)) as [Hb|Hb]; cbn [andb].
  - rewrite change_bit_free by (apply Z.mod_pos_bound; lia).
    assert (He : bool_decide (true = k ∧ Z.to_nat ((b - s_first_data_block G) / blocks_per_block_group G) = nr) &&
      ((b - s_first_data_block G) mod blocks_per_block_group G =? bit) = k && (b =? block_number G nr bit)); [|by rewrite He].
    pose proof (block_number_split G HG b Hb) as Hs. destruct k; [|by rewrite bool_decide_eq_false_2 by naive_solver].
    set (n := Z.to_nat _) in *. set (i := _ mod _) in *. cbn [andb].
    assert (0 <= i < blocks_per_block_group G) by (apply Z.mod_pos_bound; lia).
    destruct (Z.eqb_spec b (block_number G nr bit)) as [E|E].
    + assert (n = nr ∧ i = bit) as [-> ->]; [|by rewrite bool_decide_eq_true_2, Z.eqb_refl].
      apply (block_number_inj G); [done..|congruence].
    + destruct (Z.eqb_spec i bit) as [->|]; [|by rewrite andb_false_r].
      rewrite bool_decide_eq_false_2; [done|]. intros [_ ->]. done.
  - destruct k; [|done]. rewrite (proj2 (Z.eqb_neq _ _)); [done|].
    unfold block_number. cbn [per_group] in Hbit. nia.
Qed.

Lemma change_ok :
  (v = false → k = true → ∀ a, a = block_number G nr bit → a ≠ 0 ∧ ¬ is_bitmap x a ∧ ¬ in_table G x a ∧ is_Some (disk x !! a)) →
  ext2_ok G x'.
Proof.
  intros Hfreed. pose proof (lookup_lt_Some _ _ _ Hg) as Hnr. destruct (eo_bitmap _ _ Hok k nr g Hg) as (bm0 & Hbm0 & Hcnt & Hpad).
  simplify_eq. assert (Hl : Z.of_nat (length bm) = block_size G) by (by eapply (eo_disk _ _ Hok)).
  assert (Hbs : 0 <= bit < 8 * block_size G).
  { destruct (go_blocks _ HG), (go_inodes _ HG). unfold per_group in Hbit. destruct k; lia. }
  assert (Hcnt' : unallocated k g + d = Z.of_nat (nzeros bm')).
  { rewrite Hcnt. destruct v; cbn [negb] in Hold.
    - rewrite (nzeros_flip bm bm' bit); [lia|done|lia|done|by rewrite Hnew, Z.eqb_refl by lia|].
      intros j Hj Hne. by rewrite Hnew, (proj2 (Z.eqb_neq j bit)) by done.
    - rewrite (nzeros_flip bm' bm bit); [lia|done|lia|by rewrite Hnew, Z.eqb_refl by lia|done|].
      intros j Hj Hne. by rewrite Hnew, (proj2 (Z.eqb_neq j bit)) by done. }
  assert (Hdisk : ∀ a, is_Some (disk x !! a) → is_Some (disk x' !! a)).
  { intros a Ha. rewrite change_disk, lookup_insert_is_Some'. auto. }
  split.
  - rewrite change_disk. apply map_Forall_insert_2; [|apply Hok]. by rewrite Hlen.
  - rewrite change_groups, length_insert. apply Hok.
  - intros k' nr' h' Hh'. destruct (change_lookup _ _ Hh') as (h & Hh & Hu & _).
    rewrite Hu, change_disk. destruct (decide (usage_addr k' h = usage_addr k g)) as [He|Hne].
    + destruct (eo_apart _ _ Hok _ _ _ _ _ _ Hh Hg He) as [-> ->]. simplify_eq.
      exists bm'. rewrite lookup_insert_eq. split_and!; [done| |].
      * rewrite change_groups, list_lookup_insert_eq in Hh' by done. injection Hh' as <-. rewrite <-Hcnt'. by destruct k.
      * intros i Hi. rewrite Hnew by lia. rewrite (proj2 (Z.eqb_neq i bit)) by lia. by apply Hpad.
    + destruct (eo_bitmap _ _ Hok k' nr' h Hh) as (bmh & Hbmh & Hch & Hph). exists bmh.
      rewrite lookup_insert_ne by congruence. split_and!; [done| |done]. rewrite <-Hch.
      rewrite change_groups in Hh'. apply list_lookup_insert_Some in Hh' as [(<- & <- & _)|(_ & Hh')]; [|congruence].
      simplify_eq. by destruct k, k'.
  - intros k'. rewrite change_groups, (zsum_insert _ _ _ g) by done. rewrite <-(eo_count _ _ Hok k').
    destruct k, k'; cbn; lia.
  - intros k1 k2 n1 n2 h1 h2 H1 H2 He.
    destruct (change_lookup _ _ H1) as (h1' & H1' & Hu1 & _). destruct (change_lookup _ _ H2) as (h2' & H2' & Hu2 & _).
    eapply (eo_apart _ _ Hok); [done..|]. by rewrite <-Hu1, <-Hu2.
  - intros a Ha. rewrite change_table in Ha. rewrite change_bitmap.
    destruct (eo_tables _ _ Hok a Ha) as (? & ? & ?). auto.
  - intros a Ha. rewrite change_bitmap, change_table in Ha. rewrite change_block_free.
    destruct k; cbn [andb]; [|by apply Hok]. destruct (Z.eqb_spec a (block_number G nr bit)) as [->|]; [|by apply Hok].
    destruct v; [done|]. destruct (Hfreed eq_refl eq_refl _ eq_refl) as (? & ? & ? & _). tauto.
  - intros b Hb. rewrite change_block_free in Hb. apply Hdisk.
    destruct k; cbn [andb] in Hb; [|by apply (eo_readable _ _ Hok)]. destruct (Z.eqb_spec b (block_number G nr bit)) as [E|]; [|by apply (eo_readable _ _ Hok)].
    destruct v; [done|]. by destruct (Hfreed eq_refl eq_refl _ E) as (_ & _ & _ & ?).
Qed.
End change.

(** ** Allocating and freeing a block *)

(** What a change of one kind of bitmaps leaves alone. *)
Record frame (k : bool) (x x' : ext2) : Prop := {
  fr_groups : set_unallocated k 0 <$> block_groups x' = set_unallocated k 0 <$> block_groups x;
  fr_count : free_count (negb k) x' = free_count (negb k) x;
  fr_disk : ∀ a, ¬ is_bitmap x a → disk x' !! a = disk x !! a;
  fr_there : ∀ a, is_Some (disk x !! a) → is_Some (disk x' !! a);
  fr_nodes : nodes x' = nodes x;
  fr_errno : errno x' = errno x;
  fr_state : s_state x' = s_state x }.

Lemma frame_refl k x : frame k x x.
Proof. by split. Qed.

Lemma frame_change k nr g bm' d x : block_groups x !! nr = Some g → frame k x (change k nr g bm' d x).
Proof.
  intros Hg. split; try by destruct k.
  - replace (block_groups (change k nr g bm' d x)) with (<[nr := set_unallocated k (unallocated k g + d) g]> (block_groups x))
      by by destruct k.
    rewrite list_fmap_insert, list_insert_id; [done|]. rewrite list_lookup_fmap, Hg. by destruct k.
  - intros a Ha. replace (disk (change k nr g bm' d x)) with (<[usage_addr k g := bm']> (disk x)) by by destruct k.
    rewrite lookup_insert_ne; [done|]. intros <-. apply Ha. by exists k, nr, g.
  - intros a Ha. replace (disk (change k nr g bm' d x)) with (<[usage_addr k g := bm']> (disk x)) by by destruct k.
    rewrite lookup_insert_is_Some'. auto.
Qed.

(** Block [b] has been taken. *)
Record took (G : geometry) (x : ext2) (b : Z) (x' : ext2) : Prop := {
  tk_ok : ext2_ok G x';
  tk_free : block_free G x b = true;
  tk_after : ∀ b', block_free G x' b' = block_free G x b' && negb (b' =? b);
  tk_count : s_free_blocks_count x' = s_free_blocks_count x - 1;
  tk_frame : frame true x x' }.

(** Block [b] has been given back. *)
Record gave (G : geometry) (x : ext2) (b : Z) (x' : ext2) : Prop := {
  gv_ok : ext2_ok G x';
  gv_after : ∀ b', block_free G x' b' = block_free G x b' || (b' =? b);
  gv_count : s_free_blocks_count x' = s_free_blocks_count x + 1;
  gv_frame : frame true x x' }.

Section allocation.
Context (G : geometry) (HG : geometry_ok G).

Lemma block_size_facts : block_size G mod 8 = 0 ∧ 1024 <= block_size G <= 4096 ∧ block_size G mod 4 = 0.
Proof.
  pose proof (go_size _ HG). pose proof (go_shift _ HG).
  assert (block_size_shift G = 10 ∨ block_size_shift G = 11 ∨ block_size_shift G = 12) as [E|[E|E]] by lia;
    rewrite E in *; rewrite H; done.
Qed.

Lemma zsum_nonneg f l : (∀ g, g ∈ l → 0 <= f g) → 0 <= zsum f l.
Proof.
  induction l as [|g l IH]; intros H; cbn; [lia|].
  assert (0 <= f g) by (apply H; by left). assert (0 <= zsum f l); [|lia]. apply IH. intros h Hh. apply H. by right.
Qed.

Lemma zsum_ge f l nr g : (∀ g, g ∈ l → 0 <= f g) → l !! nr = Some g → f g <= zsum f l.
Proof.
  revert nr; induction l as [|h l IH]; intros [|nr] H Hg; simplify_eq/=.
  - assert (0 <= zsum f l); [|lia]. apply zsum_nonneg. intros h Hh. apply H. by right.
  - assert (0 <= f h) by (apply H; by left). assert (f g <= zsum f l); [|lia]. apply (IH nr); [|done].
    intros g' Hg'. apply H. by right.
Qed.

Lemma zsum_le f l m : (∀ g, g ∈ l → f g <= m) → zsum f l <= Z.of_nat (length l) * m.
Proof.
  induction l as [|g l IH]; intros H; cbn [zsum length]; [lia|].
  assert (f g <= m) by (apply H; by left). assert (zsum f l <= Z.of_nat (length l) * m); [|lia].
  apply IH. intros h Hh. apply H. by right.
Qed.

Context (x : ext2) (Hok : ext2_ok G x).

Lemma group_counts k g : g ∈ block_groups x → 0 <= unallocated k g <= per_group k G.
Proof.
  intros Hin. apply list_elem_of_lookup in Hin as [nr Hg]. destruct (eo_bitmap _ _ Hok k nr g Hg) as (bm & Hbm & -> & Hpad).
  destruct (eo_disk _ _ Hok _ _ Hbm) as [_ Hl]. split; [lia|]. unfold nzeros.
  assert (Hper : 0 < per_group k G <= 8 * block_size G) by (pose proof (go_blocks _ HG); pose proof (go_inodes _ HG); destruct k; cbn; lia).
  rewrite Hl. replace (8 * block_size G) with (per_group k G + (8 * block_size G - per_group k G)) by lia.
  rewrite seqZ_app by lia. rewrite list.filter_app, length_app.
  assert (Hnil : filter (λ i, bit_of bm i = false) (seqZ (0 + per_group k G) (8 * block_size G - per_group k G)) = []).
  { apply filter_no. intros i Hi. apply elem_of_seqZ in Hi. rewrite Hpad by lia. done. }
  rewrite Hnil. cbn [length].
  pose proof (length_filter (λ i, bit_of bm i = false) (seqZ 0 (per_group k G))) as Hf. rewrite length_seqZ in Hf. lia.
Qed.

Lemma free_count_range k : 0 <= free_count k x < 2 ^ 32.
Proof.
  rewrite (eo_count _ _ Hok). destruct (eo_size _ _ Hok) as [Hn Hcap]. specialize (Hcap k).
  assert (Hle : zsum (unallocated k) (block_groups x) <= Z.of_nat (length (block_groups x)) * per_group k G).
  { apply zsum_le. intros g Hg. by apply group_counts. }
  assert (0 <= zsum (unallocated k) (block_groups x)) by (apply zsum_nonneg; intros g Hg; by apply group_counts).
  pose proof (go_first _ HG). lia.
Qed.

Lemma wp_get_group nr g (Q : bgd → ext2 → Prop) : block_groups x !! nr = Some g → Q g x → wp (get_group (Z.of_nat nr)) Q x.
Proof.
  intros Hg HQ. unfold get_group. wp_step. wp_step. eapply wp_from_opt; [|done].
  unfold aget. rewrite (proj2 (Z.leb_le _ _)), Nat2Z.id by lia. done.
Qed.

Lemma wp_upd_group nr g f (Q : unit → ext2 → Prop) : block_groups x !! nr = Some g →
  Q tt (set_groups (<[nr := f g]> (block_groups x)) x) → wp (upd_group (Z.of_nat nr) f) Q x.
Proof.
  intros Hg HQ. unfold upd_group. wp_step. eapply wp_get_group; [done|]. wp_step. by rewrite Nat2Z.id.
Qed.
End allocation.


Section allocation_specs.
Context (G : geometry) (HG : geometry_ok G) (x : ext2) (Hok : ext2_ok G x).

(** The bitmap of a group. *)
Lemma group_bitmap k nr g : block_groups x !! nr = Some g → ∃ bm,
  disk x !! usage_addr k g = Some bm ∧ Forall byte bm ∧ Z.of_nat (length bm) = block_size G ∧
  unallocated k g = Z.of_nat (nzeros bm) ∧ ∀ i, per_group k G <= i < 8 * block_size G → bit_of bm i = true.
Proof.
  intros Hg. destruct (eo_bitmap _ _ Hok k nr g Hg) as (bm & Hbm & Hc & Hp). exists bm.
  by destruct (eo_disk _ _ Hok _ _ Hbm).
Qed.

Lemma group_number nr g i : block_groups x !! nr = Some g → 0 <= i < blocks_per_block_group G →
  u32 (u32 (Z.of_nat nr * blocks_per_block_group G) + i + s_first_data_block G) = block_number G nr i ∧
  0 <= block_number G nr i < 2 ^ 32.
Proof.
  intros Hg Hi. apply lookup_lt_Some in Hg. destruct (eo_size _ _ Hok) as [_ Hcap]. specialize (Hcap true).
  cbn [per_group] in Hcap. pose proof (go_first _ HG). pose proof (go_blocks _ HG). unfold block_number.
  rewrite (u32_small (_ * _)) by nia. rewrite u32_small by nia. nia.
Qed.

Lemma took_change nr g bm bm' bit :
  block_groups x !! nr = Some g → disk x !! block_usage_addr g = Some bm → length bm' = length bm → Forall byte bm' →
  0 <= bit < blocks_per_block_group G → bit_of bm bit = false →
  (∀ j, 0 <= j → bit_of bm' j = (j =? bit) || bit_of bm j) →
  took G x (block_number G nr bit) (change true nr g bm' (-1) x).
Proof.
  intros Hg Hbm Hl Hby Hbit Hz Hbits.
  assert (Hnew : ∀ j, 0 <= j → bit_of bm' j = if j =? bit then true else bit_of bm j).
  { intros j Hj. rewrite Hbits by done. by destruct (j =? bit). }
  split.
  - by eapply (change_ok G HG x Hok true nr g bm bm' bit true).
  - rewrite (block_free_number G HG x) by done. unfold bit_free. cbn. by rewrite Hg, Hbm, Hz.
  - intros b'. rewrite (change_block_free G HG x Hok true nr g bm bm' bit true) by done. cbn [andb negb].
    destruct (b' =? block_number G nr bit); [by rewrite andb_false_r|by rewrite andb_true_r].
  - done.
  - by apply frame_change.
Qed.

Lemma gave_change nr g bm bm' bit :
  block_groups x !! nr = Some g → disk x !! block_usage_addr g = Some bm → length bm' = length bm → Forall byte bm' →
  0 <= bit < blocks_per_block_group G → bit_of bm bit = true →
  (∀ j, 0 <= j → bit_of bm' j = negb (j =? bit) && bit_of bm j) →
  (let b := block_number G nr bit in b ≠ 0 ∧ ¬ is_bitmap x b ∧ ¬ in_table G x b ∧ is_Some (disk x !! b)) →
  gave G x (block_number G nr bit) (change true nr g bm' 1 x).
Proof.
  intros Hg Hbm Hl Hby Hbit Hz Hbits Hb.
  assert (Hnew : ∀ j, 0 <= j → bit_of bm' j = if j =? bit then false else bit_of bm j).
  { intros j Hj. rewrite Hbits by done. by destruct (j =? bit). }
  split.
  - eapply (change_ok G HG x Hok true nr g bm bm' bit false); try done. intros _ _ a ->. exact Hb.
  - intros b'. rewrite (change_block_free G HG x Hok true nr g bm bm' bit false) by done. cbn [andb negb].
    destruct (b' =? block_number G nr bit); [by rewrite orb_true_r|by rewrite orb_false_r].
  - done.
  - by apply frame_change.
Qed.

(** A group that has a block gives one. *)
Lemma wp_bg_allocate_block nr g : block_groups x !! nr = Some g → unallocated_blocks_in_group g ≠ 0 →
  wp (bg_allocate_block G (Z.of_nat nr)) (λ r x', ∃ b, r = inl b ∧ took G x b x') x.
Proof.
  intros Hg Hu. destruct (group_bitmap true nr g Hg) as (bm & Hbm & Hby & Hl & Hc & Hp). cbn in Hbm, Hc, Hp.
  destruct (block_size_facts _ HG) as (Hm8 & Hbs & _). pose proof (go_blocks _ HG) as Hbpg.
  unfold bg_allocate_block. wp_step. eapply wp_get_group; [done|]. unfold sb_read_block. do 2 wp_step. rewrite Hbm.
  wp_step. eapply wp_mono; [by apply wp_ext2_scan_zero|]. intros r ? [-> Hr]. destruct r as [bit|]; cbn in Hr.
  2:{ exfalso. apply Hu. rewrite Hc. unfold nzeros. rewrite filter_no; [done|].
      intros i Hi. apply elem_of_seqZ in Hi. rewrite Hr by lia. done. }
  destruct Hr as (Hb & Hz & _).
  assert (Hbit : 0 <= bit < blocks_per_block_group G).
  { split; [lia|]. destruct (Z.lt_ge_cases bit (blocks_per_block_group G)) as [|Hge]; [done|]. rewrite Hp in Hz by lia. done. }
  wp_step. apply wp_bitmap_set; [done|by rewrite Hl|lia|]. intros bm' Hl' Hby' Hbits.
  wp_step. unfold set_block. do 2 wp_step. eapply wp_mono; [apply wp_ext2_scan_zero; [done|by rewrite Hl'|done]|].
  intros r' ? [-> Hr']. wp_step. wp_step.
  { apply negb_true_iff, bool_decide_eq_false_2. intros ->. cbn in Hr'. destruct Hr' as (_ & Hz' & _).
    rewrite Hbits, Z.eqb_refl in Hz' by lia. done. }
  wp_step. unfold dec_unallocated_blocks. eapply wp_upd_group; [exact Hg|]. wp_steps.
  assert (Hcnt : 0 < unallocated_blocks_in_group g < 2 ^ 16).
  { pose proof (nzeros_bound bm). lia. }
  assert (Hfree : 0 < s_free_blocks_count x < 2 ^ 32).
  { pose proof (free_count_range G HG x Hok true) as Hf. cbn in Hf. split; [|lia].
    pose proof (eo_count _ _ Hok true) as He. cbn in He. rewrite He.
    pose proof (zsum_ge (unallocated true) (block_groups x) nr g) as Hge. cbn in Hge.
    assert (unallocated_blocks_in_group g <= zsum (unallocated true) (block_groups x)); [|cbn in *; lia].
    apply Hge; [|done]. intros h Hh. by apply (group_counts G HG x Hok true). }
  destruct (group_number nr g bit Hg Hbit) as [Hnum _]. rewrite Hnum.
  exists (block_number G nr bit). split; [done|].
  rewrite (u16_small (_ - 1)), (u32_small (s_free_blocks_count _ - 1)) by (cbn; lia).
  by apply (took_change nr g bm bm' bit).
Qed.

(** Freeing a block in use. *)
Lemma wp_bg_free_block nr g bm bit : block_groups x !! nr = Some g → disk x !! block_usage_addr g = Some bm →
  0 <= bit < blocks_per_block_group G → bit_of bm bit = true →
  (let b := block_number G nr bit in b ≠ 0 ∧ ¬ is_bitmap x b ∧ ¬ in_table G x b ∧ is_Some (disk x !! b)) →
  wp (bg_free_block G (Z.of_nat nr) (block_number G nr bit)) (λ _ x', gave G x (block_number G nr bit) x') x.
Proof.
  intros Hg Hbm Hbit Hz Hb. destruct (group_bitmap true nr g Hg) as (bm0 & Hbm0 & Hby & Hl & Hc & Hp). cbn in Hbm0, Hc, Hp.
  rewrite Hbm in Hbm0. injection Hbm0 as <-. destruct (block_size_facts _ HG) as (Hm8 & Hbs & _).
  pose proof (go_blocks _ HG) as Hbpg. destruct (group_number nr g bit Hg Hbit) as [_ Hnum].
  unfold bg_free_block. wp_step. eapply wp_get_group; [done|]. unfold sb_read_block. do 2 wp_step. rewrite Hbm.
  assert (Hmod : u32 (block_number G nr bit - s_first_data_block G) mod blocks_per_block_group G = bit).
  { pose proof (go_first _ HG). rewrite u32_small by (unfold block_number in *; nia). unfold block_number.
    replace (_ - s_first_data_block G) with (bit + Z.of_nat nr * blocks_per_block_group G) by lia.
    rewrite Z_mod_plus_full. by apply Z.mod_small. }
  rewrite Hmod. wp_step. apply wp_bitmap_test; [lia|]. rewrite Hz. cbn [negb].
  wp_step. apply wp_bitmap_clear; [done|lia|]. intros bm' Hl' Hby' Hbits.
  wp_step. unfold set_block. do 2 wp_step. unfold inc_unallocated_blocks. eapply wp_upd_group; [exact Hg|]. wp_steps.
  assert (Hcnt : unallocated_blocks_in_group g + 1 < 2 ^ 16) by (pose proof (nzeros_bound bm); lia).
  pose proof (gave_change nr g bm bm' bit Hg Hbm Hl' Hby' Hbit Hz Hbits Hb) as Hgave.
  pose proof (free_count_range G HG _ (gv_ok _ _ _ _ Hgave) true) as Hf. cbn in Hf.
  pose proof (free_count_range G HG _ Hok true) as Hf0. cbn in Hf0.
  rewrite (u16_small (_ + 1)), (u32_small (s_free_blocks_count _ + 1)) by (cbn; lia). exact Hgave.
Qed.

Lemma took_nonzero b x' : took G x b x' → b ≠ 0.
Proof.
  intros Ht ->. pose proof (tk_free _ _ _ _ Ht) as Hf. rewrite (eo_reserved _ _ Hok) in Hf; auto. done.
Qed.

Lemma wp_number_of_groups (Q : Z → ext2 → Prop) (y : ext2) :
  Q (Z.of_nat (length (block_groups y))) y → wp number_of_block_groups Q y.
Proof. done. Qed.

Lemma wp_try_allocate nr g : block_groups x !! nr = Some g →
  wp (try_allocate_block_from_bg G (Z.of_nat nr)) (λ b x',
    if unallocated_blocks_in_group g =? 0 then b = 0 ∧ x' = x else took G x b x') x.
Proof.
  intros Hg. pose proof (lookup_lt_Some _ _ _ Hg). unfold try_allocate_block_from_bg. wp_step.
  apply wp_number_of_groups. wp_step. wp_step; [lia|]. wp_step. eapply wp_get_group; [done|].
  destruct (Z.eqb_spec (unallocated_blocks_in_group g) 0) as [E|E]; [by wp_step|].
  wp_step. eapply wp_mono; [by eapply wp_bg_allocate_block|]. intros r x' (b & -> & Ht). by wp_step.
Qed.

(** One try of a round: none of the groups given, or a block. *)
Lemma wp_try c nr (Q : Z → ext2 → Prop) : (c = true → 0 <= nr < Z.of_nat (length (block_groups x))) →
  (∀ b x', took G x b x' → b ≠ 0 → Q b x') →
  ((c = true → ∀ g, block_groups x !! Z.to_nat nr = Some g → unallocated_blocks_in_group g = 0) → Q 0 x) →
  wp (if c then try_allocate_block_from_bg G (u32 nr) else mret EXT2_ERR_INV_BLOCK) Q x.
Proof.
  intros Hc Ht H0. destruct c; [|by wp_step; apply H0]. specialize (Hc eq_refl).
  destruct (eo_size _ _ Hok) as [_ Hcap]. specialize (Hcap true). cbn [per_group] in Hcap.
  pose proof (go_blocks _ HG). pose proof (go_first _ HG). rewrite u32_small by nia.
  destruct (lookup_lt_is_Some_2 (block_groups x) (Z.to_nat nr)) as [g Hg]; [lia|].
  rewrite <-(Z2Nat.id nr) at 1 by lia. eapply wp_mono; [by eapply wp_try_allocate|]. cbn beta. intros b x' Hb.
  destruct (Z.eqb_spec (unallocated_blocks_in_group g) 0).
  - destruct Hb as [-> ->]. apply H0. intros _ g' Hg'. congruence.
  - eapply Ht; [done|]. by eapply took_nonzero.
Qed.

(** Groups at a distance of [d] or more, and less than [e], from the preferred one have no block. *)
Definition exhausted (p d e : Z) : Prop :=
  ∀ nr g, block_groups x !! nr = Some g → d <= Z.abs (Z.of_nat nr - p) < e → unallocated_blocks_in_group g = 0.

Lemma wp_allocate_rounds n p dist : 0 <= p < Z.of_nat (length (block_groups x)) → 0 <= dist →
  wp (allocate_rounds G n p dist (p - dist) (Z.of_nat (length (block_groups x)) - 1 - p - dist))
    (λ b x', (b ≠ 0 ∧ took G x b x') ∨ (b = 0 ∧ x' = x ∧ exhausted p dist (dist + Z.of_nat n))) x.
Proof.
  intros Hp. revert dist; induction n as [|n IH]; intros dist Hd; cbn [allocate_rounds].
  { wp_step. right. split_and!; [done..|]. intros nr g _ Ha. lia. }
  wp_step. apply wp_try; [lia| |].
  { intros b x' Ht Hb. rewrite (proj2 (Z.eqb_neq b _)) by done. cbn [negb]. wp_step. auto. }
  intros Hlow. cbn [Z.eqb EXT2_ERR_INV_BLOCK negb]. wp_step. apply wp_try; [lia| |].
  { intros b x' Ht Hb. rewrite (proj2 (Z.eqb_neq b _)) by done. cbn [negb]. wp_step. auto. }
  intros Hhigh. cbn [Z.eqb EXT2_ERR_INV_BLOCK negb].
  replace (p - dist - 1) with (p - (dist + 1)) by lia.
  replace (_ - p - dist - 1) with (Z.of_nat (length (block_groups x)) - 1 - p - (dist + 1)) by lia.
  eapply wp_mono; [apply IH; lia|]. intros b x' [?|(-> & -> & He)]; [by left|]. right. split_and!; [done..|].
  intros nr g Hg Ha. destruct (decide (Z.abs (Z.of_nat nr - p) = dist)) as [E|E]; [|apply (He nr g Hg); lia].
  pose proof (lookup_lt_Some _ _ _ Hg). destruct (decide (Z.of_nat nr = p + dist)) as [E'|E'].
  - apply (Hhigh ltac:(lia)). by rewrite <-E', Nat2Z.id.
  - apply (Hlow ltac:(lia)). by replace (p - dist) with (Z.of_nat nr) by lia; rewrite Nat2Z.id.
Qed.

(** May the caller take one of the last blocks? *)
Definition may_allocate (euid egid : Z) : bool :=
  negb (s_free_blocks_count x =? 0) &&
  negb ((s_free_blocks_count x <=? s_r_blocks_count G) && negb ((euid =? s_def_resuid G) || (egid =? s_def_resgid G))).

Lemma wp_allocate_block euid egid preferred :
  preferred = u32 (-1) ∨ 0 <= preferred < Z.of_nat (length (block_groups x)) →
  wp (allocate_block G euid egid preferred)
    (λ b x', if may_allocate euid egid then b ≠ 0 ∧ took G x b x' else b = 0 ∧ x' = x) x.
Proof.
  intros Hpref. unfold allocate_block, may_allocate. do 2 wp_step. set (f := s_free_blocks_count x).
  destruct (Z.eqb_spec f 0) as [Ef|Ef]; [by wp_step|]. cbn [negb andb].
  destruct ((f <=? s_r_blocks_count G) && _); [by wp_step|]. cbn [negb].
  wp_step. apply wp_number_of_groups. set (N := Z.of_nat (length (block_groups x))) in *.
  set (p := if preferred =? u32 (-1) then 0 else preferred).
  assert (Hn : 0 < N ∧ N * 2 <= 2 ^ 32).
  { destruct (eo_size _ _ Hok) as [H1 H2]. specialize (H2 true). cbn [per_group] in H2.
    pose proof (go_blocks _ HG). pose proof (go_first _ HG). fold N in H1, H2. nia. }
  assert (Hp : 0 <= p < N).
  { unfold p. destruct (Z.eqb_spec preferred (u32 (-1))); [lia|]. destruct Hpref; [done|lia]. }
  rewrite (u32_small (N - 1)) by lia.
  assert (Hi : ∀ z, - 2 ^ 31 <= z < 2 ^ 31 → i32 z = z).
  { intros z Hz. unfold i32. rewrite Z.mod_small by lia. lia. }
  rewrite (Hi p), (Hi (N - 1 - p)) by lia.
  pose proof (wp_allocate_rounds (Z.to_nat (Z.max p (N - 1 - p) + 1)) p 0 Hp ltac:(lia)) as Hw.
  fold N in Hw. rewrite !Z.sub_0_r in Hw. eapply wp_mono; [exact Hw|].
  intros b x' [Ht|(-> & -> & He)]; [done|]. exfalso. apply Ef. unfold f.
  pose proof (eo_count _ _ Hok true) as Hc. cbn in Hc. rewrite Hc.
  assert (Hz : zsum (unallocated true) (block_groups x) <= Z.of_nat (length (block_groups x)) * 0).
  { apply zsum_le. intros g Hg. apply list_elem_of_lookup in Hg as [nr Hg]. pose proof (lookup_lt_Some _ _ _ Hg).
    cbn. rewrite (He nr g Hg); [done|]. unfold N in *. lia. }
  assert (0 <= zsum (unallocated true) (block_groups x)).
  { apply zsum_nonneg. intros g Hg. by apply (group_counts G HG x Hok true). }
  cbn in *. lia.
Qed.

(** A block of a file: in the range of the bitmaps, in use, and none of the file system's own. *)
Definition data_block (b : Z) : Prop :=
  s_first_data_block G <= b < s_first_data_block G + Z.of_nat (length (block_groups x)) * blocks_per_block_group G ∧
  block_free G x b = false ∧ b ≠ 0 ∧ ¬ is_bitmap x b ∧ ¬ in_table G x b ∧ is_Some (disk x !! b).

Lemma wp_free_block b : data_block b → wp (free_block G b) (λ _ x', gave G x b x') x.
Proof.
  intros (Hr & Hf & Hb & Hbm & Ht & Hd). pose proof (go_blocks _ HG) as Hbpg. pose proof (go_first _ HG).
  unfold free_block. wp_step. wp_step; [by rewrite (proj2 (Z.eqb_neq b _))|].
  destruct (eo_size _ _ Hok) as [_ Hcap]. specialize (Hcap true). cbn [per_group] in Hcap.
  rewrite (u32_small (b - _)) by lia. set (nr := (b - s_first_data_block G) / blocks_per_block_group G).
  assert (Hnr : 0 <= nr < Z.of_nat (length (block_groups x))).
  { split; [apply Z.div_pos; lia|]. apply Z.div_lt_upper_bound; lia. }
  wp_step. apply wp_number_of_groups. wp_step. wp_step; [lia|].
  pose proof (block_number_split G HG b ltac:(lia)) as Hs. fold nr in Hs. set (bit := _ mod _) in Hs.
  assert (Hbit : 0 <= bit < blocks_per_block_group G) by (apply Z.mod_pos_bound; lia).
  destruct (lookup_lt_is_Some_2 (block_groups x) (Z.to_nat nr)) as [g Hg]; [lia|].
  destruct (group_bitmap true _ _ Hg) as (bm & Hbm' & _). cbn in Hbm'.
  rewrite <-(Z2Nat.id nr) at 1 by lia. rewrite Hs in *. eapply wp_bg_free_block; [done..| |done].
  rewrite block_free_number in Hf by done. unfold bit_free in Hf. cbn in Hf. rewrite Hg, Hbm' in Hf.
  by destruct (bit_of bm bit).
Qed.
End allocation_specs.
