(* ===== verification/Ext2Tree.v ===== *)
(** * Ext2Tree: the blocks of a file as a tree

    The tables of block numbers below an inode, with the set of blocks they are made of;
    creating the path to a block changes the mapping of that block alone, and takes only
    blocks that were free. *)

From S2P Require Import Prelude Abi Bits Bytes Ext2 Ext2Facts.

(** ** Tables *)

Section tables.
Context (G : geometry) (HG : geometry_ok G).
Abbreviation E := (entries G).

Lemma entries_facts : E = 2 ^ entry_shift G ∧ 8 <= entry_shift G <= 10 ∧ block_size G = 4 * E ∧ 256 <= E <= 1024.
Proof.
  pose proof (go_size _ HG). pose proof (go_shift _ HG). pose proof (go_entry _ HG). unfold entries.
  assert (block_size_shift G = 10 ∨ block_size_shift G = 11 ∨ block_size_shift G = 12) as [Eq|[Eq|Eq]] by lia;
    rewrite Eq in *; rewrite H, H1; done.
Qed.

(** A block as it is on disk. *)
Definition is_block (buf : list Z) : Prop := Forall byte buf ∧ Z.of_nat (length buf) = block_size G.

Lemma block_entry_Some buf i : is_block buf → 0 <= i < E → ∃ e, block_entry buf i = Some e ∧ 0 <= e < 2 ^ 32.
Proof.
  intros [Hb Hl] Hi. destruct entries_facts as (_ & _ & Hbs & _). unfold block_entry.
  rewrite (proj2 (Z.leb_le 0 i)) by lia. rewrite get_le_Some by lia. eexists. split; [done|].
  pose proof (word_nonneg (take 4 (drop (Z.to_nat (4 * i)) buf)) ltac:(by apply Forall_take, Forall_drop)) as Hw.
  rewrite length_take, length_drop in Hw. replace (4 `min` _)%nat with 4%nat in Hw by lia. exact Hw.
Qed.

Lemma put_entry buf i v : is_block buf → 0 <= i < E → 0 <= v < 2 ^ 32 → ∃ buf',
  put_le 4 (Z.to_nat (4 * i)) v buf = Some buf' ∧ is_block buf' ∧ block_entry buf' i = Some v ∧
  ∀ j, j ≠ i → block_entry buf' j = block_entry buf j.
Proof.
  intros [Hb Hl] Hi Hv. destruct entries_facts as (_ & _ & Hbs & _).
  destruct (put_le 4 (Z.to_nat (4 * i)) v buf) as [buf'|] eqn:Hp; [|by rewrite put_le_Some in Hp by lia].
  exists buf'. split; [done|]. split; [|split].
  - split; [by eapply put_le_bytes|]. by rewrite (length_put_le _ _ _ _ _ Hp).
  - unfold block_entry. rewrite (proj2 (Z.leb_le 0 i)) by lia. by eapply get_put_le.
  - intros j Hj. unfold block_entry. destruct (Z.leb_spec 0 j); [|done]. eapply get_put_le_ne; [done|].
    destruct (decide (j < i)); [left|right]; lia.
Qed.

Lemma zero_entry i : 0 <= i < E → block_entry (replicate (Z.to_nat (block_size G)) 0) i = Some 0.
Proof.
  intros Hi. destruct entries_facts as (_ & _ & Hbs & _). unfold block_entry. rewrite (proj2 (Z.leb_le 0 i)) by lia.
  rewrite get_le_Some by (rewrite length_replicate; lia). rewrite drop_replicate, take_replicate.
  replace (4 `min` _)%nat with 4%nat by lia. done.
Qed.

Lemma zero_block : is_block (replicate (Z.to_nat (block_size G)) 0).
Proof.
  destruct entries_facts as (_ & _ & Hbs & ?). split; [|rewrite length_replicate; lia].
  apply Forall_replicate. unfold byte. lia.
Qed.

(** ** Trees *)

Abbreviation disk_t := (gmap Z (list Z)).

(** The blocks [S] make up what block [b] refers to, [level] tables deep; 0 is a hole. *)
Fixpoint tree (d : disk_t) (level : nat) (b : Z) (S : gset Z) : Prop :=
  if decide (b = 0) then S = ∅ else
  match level with
  | O => S = {[b]}
  | Datatypes.S level => ∃ buf (fp : Z → gset Z), d !! b = Some buf ∧ is_block buf ∧
      (∀ i, 0 <= i < E → ∃ e, block_entry buf i = Some e ∧ tree d level e (fp i)) ∧
      (∀ i j, 0 <= i < E → 0 <= j < E → i ≠ j → fp i ## fp j) ∧
      (∀ i, 0 <= i < E → b ∉ fp i) ∧
      (∀ a, a ∈ S ↔ a = b ∨ ∃ i, 0 <= i < E ∧ a ∈ fp i)
  end.

(** The block at the end of a path below table [b]. *)
Fixpoint find (d : disk_t) (b : Z) (path : list Z) : option Z :=
  match path with
  | [] => None
  | off :: path =>
      buf ← d !! b; e ← block_entry buf off;
      match path with
      | [] => Some e
      | _ => if e =? 0 then Some 0 else find d e path
      end
  end.

Definition offsets (path : list Z) : Prop := Forall (λ off, 0 <= off < E) path.

Lemma tree_frame d d' level b S : tree d level b S → (∀ a, a ∈ S → d' !! a = d !! a) → tree d' level b S.
Proof.
  revert b S; induction level as [|level IH]; intros b S Ht Hd; cbn [tree] in *; case_decide; try done.
  destruct Ht as (buf & fp & Hb & Hbuf & Hfp & Hdis & Hnb & HS). exists buf, fp.
  split_and!; [|done| |done..].
  - rewrite Hd; [done|]. apply HS. auto.
  - intros i Hi. destruct (Hfp i Hi) as (e & He & Ht). exists e. split; [done|]. apply IH; [done|].
    intros a Ha. apply Hd, HS. eauto.
Qed.

Lemma tree_root d level b S : tree d level b S → b ≠ 0 → b ∈ S.
Proof.
  intros Ht Hb. destruct level as [|level]; cbn [tree] in Ht; case_decide; try done.
  - rewrite Ht. set_solver.
  - destruct Ht as (buf & fp & _ & _ & _ & _ & _ & HS). apply HS. auto.
Qed.

Lemma find_frame d d' level b S path : tree d level b S → b ≠ 0 → length path = level → offsets path →
  (∀ a, a ∈ S → d' !! a = d !! a) → find d' b path = find d b path.
Proof.
  revert b S path; induction level as [|level IH]; intros b S [|off path] Ht Hb Hn Ho Hd; try done.
  injection Hn as Hn. apply list.Forall_cons in Ho as [Hoff Ho]. cbn [tree] in Ht. case_decide; [done|].
  destruct Ht as (buf & fp & Hbuf & _ & Hfp & _ & _ & HS). cbn [find].
  rewrite Hd by (apply HS; auto). rewrite Hbuf. cbn [mbind option_bind].
  destruct (Hfp off Hoff) as (e & -> & He). cbn [mbind option_bind]. destruct path as [|off' path]; [done|].
  destruct (Z.eqb_spec e 0); [done|]. eapply IH; [done..|]. intros a Ha. apply Hd, HS. eauto.
Qed.

(** A table of zeroes. *)
Lemma tree_zeroes d level b : d !! b = Some (replicate (Z.to_nat (block_size G)) 0) → b ≠ 0 →
  tree d (S level) b {[b]}.
Proof.
  intros Hb Hne. cbn [tree]. rewrite decide_False by done. exists (replicate (Z.to_nat (block_size G)) 0), (λ _, ∅).
  split_and!; [done|apply zero_block| |set_solver..].
  intros i Hi. exists 0. split; [by apply zero_entry|]. by destruct level.
Qed.

Lemma find_zeroes d b path : d !! b = Some (replicate (Z.to_nat (block_size G)) 0) → path ≠ [] → offsets path →
  find d b path = Some 0.
Proof.
  intros Hb Hne Ho. destruct path as [|off path]; [done|]. apply list.Forall_cons in Ho as [Hoff _]. cbn [find].
  rewrite Hb. cbn [mbind option_bind]. rewrite zero_entry by done. cbn. by destruct path.
Qed.


(** A table taken apart: its block and the blocks below each entry. *)
Record view (d : disk_t) (level : nat) (b : Z) (S : gset Z) (buf : list Z) (fp : Z → gset Z) : Prop := {
  vw_buf : d !! b = Some buf;
  vw_block : is_block buf;
  vw_below : ∀ i, 0 <= i < E → ∃ e, block_entry buf i = Some e ∧ tree d level e (fp i);
  vw_apart : ∀ i j, 0 <= i < E → 0 <= j < E → i ≠ j → fp i ## fp j;
  vw_self : ∀ i, 0 <= i < E → b ∉ fp i;
  vw_all : ∀ a, a ∈ S ↔ a = b ∨ ∃ i, 0 <= i < E ∧ a ∈ fp i }.

Lemma tree_view d level b S : b ≠ 0 → tree d (Datatypes.S level) b S ↔ ∃ buf fp, view d level b S buf fp.
Proof.
  intros Hb. cbn [tree]. rewrite decide_False by done. split.
  - intros (buf & fp & ? & ? & ? & ? & ? & ?). by exists buf, fp.
  - intros (buf & fp & []). exists buf, fp. split_and!; done.
Qed.

(** Another subtree put below one entry. *)
Lemma view_graft d d' level b S buf fp off buf' e' S1 : b ≠ 0 → 0 <= off < E →
  view d level b S buf fp →
  d' !! b = Some buf' → is_block buf' → block_entry buf' off = Some e' →
  (∀ j, j ≠ off → block_entry buf' j = block_entry buf j) →
  tree d' level e' S1 → (∀ i a, 0 <= i < E → i ≠ off → a ∈ fp i → d' !! a = d !! a ∧ a ∉ S1) → b ∉ S1 →
  fp off ⊆ S1 → tree d' (Datatypes.S level) b (S ∪ S1).
Proof.
  intros Hb Hoff [] Hb' Hblk He' Hother Ht1 Hfp Hb1 Hsub. apply tree_view; [done|].
  exists buf', (λ i, if decide (i = off) then S1 else fp i). split; try done.
  - intros i Hi. case_decide as Hio; [subst; by exists e'|]. rewrite Hother by done.
    destruct (vw_below0 i Hi) as (e & He & Ht). exists e. split; [done|]. eapply tree_frame; [done|].
    intros a Ha. by eapply Hfp.
  - intros i j Hi Hj Hij. repeat case_decide; subst; try done; [| |by apply vw_apart0].
    + intros a Ha Ha'. by eapply (Hfp j a).
    + intros a Ha Ha'. by eapply (Hfp i a).
  - intros i Hi. case_decide; [done|]. by apply vw_self0.
  - intros a. rewrite elem_of_union, vw_all0. split.
    + intros [[->|(i & Hi & Ha)]|Ha]; [by left| |].
      * right. exists i. split; [done|]. case_decide; [subst; by apply Hsub|done].
      * right. exists off. split; [done|]. by rewrite decide_True.
    + intros [->|(i & Hi & Ha)]; [by left; left|]. case_decide; [by right|]. left. right. by exists i.
Qed.
End tables.

(** ** Growing a file *)

Section growth.
Context (G : geometry) (HG : geometry_ok G) (ino : Z).

(** All blocks of [S] are data blocks in use. *)
Definition owned (x : ext2) (S : gset Z) : Prop := ∀ a, a ∈ S → data_block G x a.

(** From [x] to [x'] the blocks of a file grew from [S] to [S']: the new ones were free, nothing
    else was allocated or written, and the inode counts them. *)
Record grew (x : ext2) (S : gset Z) (x' : ext2) (S' : gset Z) : Prop := {
  gw_ok : ext2_ok G x';
  gw_sub : S ⊆ S';
  gw_new : ∀ a, a ∈ S' → a ∉ S → block_free G x a = true;
  gw_free : ∀ a, block_free G x' a = block_free G x a && bool_decide (a ∉ S' ∖ S);
  gw_disk : ∀ a, a ∉ S' → ¬ is_bitmap x a → disk x' !! a = disk x !! a;
  gw_there : ∀ a, is_Some (disk x !! a) → is_Some (disk x' !! a);
  gw_groups : set_unallocated true 0 <$> block_groups x' = set_unallocated true 0 <$> block_groups x;
  gw_count : s_free_blocks_count x' + Z.of_nat (size S') = s_free_blocks_count x + Z.of_nat (size S);
  gw_errno : errno x' = errno x;
  gw_state : s_state x' = s_state x;
  gw_nodes : ∀ i, i ≠ ino → nodes x' !! i = nodes x !! i;
  gw_node : ∀ n, nodes x !! ino = Some n → ∃ n', nodes x' !! ino = Some n' ∧ i_size n' = i_size n ∧
    length (i_raw n') = length (i_raw n) ∧
    (i64 (i_blocks n) = i_blocks n →
     i_blocks n' = i64 (i_blocks n + sectors_per_block G * (Z.of_nat (size S') - Z.of_nat (size S)))) }.

Lemma groups_bitmap x x' : set_unallocated true 0 <$> block_groups x' = set_unallocated true 0 <$> block_groups x →
  ∀ a, is_bitmap x' a → is_bitmap x a.
Proof.
  intros Hg a (k & nr & g & Hl & ->).
  assert (Hl' : (set_unallocated true 0 <$> block_groups x) !! nr = Some (set_unallocated true 0 g)) by (rewrite <-Hg, list_lookup_fmap, Hl; done).
  rewrite list_lookup_fmap in Hl'. destruct (block_groups x !! nr) as [h|] eqn:Eh; [|done]. cbn in Hl'.
  exists k, nr, h. split; [done|]. injection Hl' as ? ? ? ? ?. destruct k; cbn; congruence.
Qed.

Lemma groups_table x x' : set_unallocated true 0 <$> block_groups x' = set_unallocated true 0 <$> block_groups x →
  ∀ a, in_table G x' a → in_table G x a.
Proof.
  intros Hg a (nr & g & Hl & Ha).
  assert (Hl' : (set_unallocated true 0 <$> block_groups x) !! nr = Some (set_unallocated true 0 g)) by (rewrite <-Hg, list_lookup_fmap, Hl; done).
  rewrite list_lookup_fmap in Hl'. destruct (block_groups x !! nr) as [h|] eqn:Eh; [|done]. cbn in Hl'.
  exists nr, h. split; [done|]. injection Hl' as ? ? Ht ? ?. by rewrite Ht.
Qed.

Lemma grew_refl x S : ext2_ok G x → grew x S x S.
Proof.
  intros Hok. split; try done.
  - intros a. rewrite bool_decide_eq_true_2 by set_solver. by rewrite andb_true_r.
  - intros n Hn. exists n. rewrite Z.sub_diag, Z.mul_0_r, Z.add_0_r. split_and!; [done..|]. by intros ->.
Qed.

Lemma grew_trans x S x1 S1 x2 S2 : grew x S x1 S1 → grew x1 S1 x2 S2 → grew x S x2 S2.
Proof.
  intros H1 H2. pose proof (gw_sub _ _ _ _ H1) as Hs1. pose proof (gw_sub _ _ _ _ H2) as Hs2. split.
  - apply H2.
  - set_solver.
  - intros a Ha HaS. destruct (decide (a ∈ S1)) as [Ha1|Ha1]; [by apply (gw_new _ _ _ _ H1)|].
    pose proof (gw_new _ _ _ _ H2 a Ha Ha1) as Hf. rewrite (gw_free _ _ _ _ H1) in Hf.
    by apply andb_true_iff in Hf as [? _].
  - intros a. rewrite (gw_free _ _ _ _ H2), (gw_free _ _ _ _ H1), <-andb_assoc. f_equal.
    repeat case_bool_decide; set_solver.
  - intros a Ha Hbm. rewrite (gw_disk _ _ _ _ H2) by first [done | intros Hb; apply Hbm; by eapply groups_bitmap; [apply H1|]].
    apply (gw_disk _ _ _ _ H1); set_solver.
  - intros a Ha. by apply (gw_there _ _ _ _ H2), (gw_there _ _ _ _ H1).
  - etrans; [apply H2|apply H1].
  - etrans; [apply H2|apply H1].
  - etrans; [apply H2|apply H1].
  - etrans; [apply H2|apply H1].
  - intros i Hi. etrans; [by apply (gw_nodes _ _ _ _ H2)|by apply (gw_nodes _ _ _ _ H1)].
  - intros n Hn. destruct (gw_node _ _ _ _ H1 n Hn) as (n1 & Hn1 & Hsz1 & Hl1 & Hb1).
    destruct (gw_node _ _ _ _ H2 n1 Hn1) as (n2 & Hn2 & Hsz2 & Hl2 & Hb2). exists n2. split; [done|].
    split; [congruence|]. split; [congruence|]. intros Hi. specialize (Hb1 Hi).
    rewrite Hb2 by (rewrite Hb1; apply i64_idem). rewrite (i64_add (i_blocks n1) (i_blocks n + sectors_per_block G * (Z.of_nat (size S1) - Z.of_nat (size S)))).
    + f_equal. lia.
    + rewrite Hb1. apply i64_idem.
Qed.

(** ** Writing data blocks and inodes *)

Lemma block_free_same x x' : block_groups x' = block_groups x →
  (∀ a, is_bitmap x a → disk x' !! a = disk x !! a) → ∀ b, block_free G x' b = block_free G x b.
Proof.
  intros Hg Hd b. unfold block_free, bit_free. rewrite Hg. destruct (block_groups x !! _) as [g|] eqn:E; [|done].
  rewrite Hd; [done|]. by eexists true, _, g.
Qed.

Lemma ok_set_disk x d' : ext2_ok G x → (∀ a, is_Some (d' !! a) ↔ is_Some (disk x !! a)) →
  map_Forall (λ _, is_block G) d' → (∀ a, is_bitmap x a → d' !! a = disk x !! a) →
  ext2_ok G (set_disk d' x) ∧ ∀ b, block_free G (set_disk d' x) b = block_free G x b.
Proof.
  intros [] Hsome Hblk Hbm. pose proof (block_free_same x (set_disk d' x) eq_refl Hbm) as Hfree.
  split; [|done]. split; try done.
  - intros k nr g Hg. cbn [disk set_disk]. rewrite Hbm by (by exists k, nr, g). by eapply eo_bitmap.
  - intros a Ha. cbn [disk set_disk]. rewrite Hsome. by apply eo_tables.
  - intros a Ha. rewrite Hfree. by apply eo_reserved.
  - intros a Ha. rewrite Hfree in Ha. cbn [disk set_disk]. rewrite Hsome. by apply eo_readable.
Qed.

Lemma ok_set_nodes x m : ext2_ok G x → ext2_ok G (set_nodes m x).
Proof. intros []. by split. Qed.

Lemma free_in_range x a : block_free G x a = true →
  s_first_data_block G <= a < s_first_data_block G + Z.of_nat (length (block_groups x)) * blocks_per_block_group G.
Proof.
  unfold block_free. intros H. apply andb_true_iff in H as [H1 H2]. unfold bit_free in H2.
  destruct (block_groups x !! _) as [g|] eqn:Eg; [|done]. apply lookup_lt_Some in Eg. pose proof (go_blocks _ HG).
  set (i := a - s_first_data_block G) in *. assert (i / blocks_per_block_group G < Z.of_nat (length (block_groups x))) by lia.
  pose proof (Z.div_mod i (blocks_per_block_group G)). pose proof (Z.mod_pos_bound i (blocks_per_block_group G)). nia.
Qed.

Lemma groups_length x x' : set_unallocated true 0 <$> block_groups x' = set_unallocated true 0 <$> block_groups x →
  length (block_groups x') = length (block_groups x).
Proof. intros H. apply (f_equal length) in H. by rewrite !length_fmap in H. Qed.

Lemma grew_owned x S x' S' : ext2_ok G x → owned x S → grew x S x' S' → owned x' S'.
Proof.
  intros Hok Ho Hg a Ha. pose proof (groups_length _ _ (gw_groups _ _ _ _ Hg)) as Hlen.
  unfold data_block. rewrite Hlen. pose proof (gw_groups _ _ _ _ Hg) as Hgr.
  rewrite (gw_free _ _ _ _ Hg). destruct (decide (a ∈ S)) as [HS|HS].
  - destruct (Ho a HS) as (? & -> & ? & Hb & Ht & Hd). split_and!; [lia..|done|done| | |by apply (gw_there _ _ _ _ Hg)].
    + intros H'. apply Hb. by eapply groups_bitmap.
    + intros H'. apply Ht. by eapply groups_table.
  - pose proof (gw_new _ _ _ _ Hg a Ha HS) as Hf. pose proof (free_in_range _ _ Hf).
    assert (Hres : ¬ (a = 0 ∨ is_bitmap x a ∨ in_table G x a)).
    { intros Hr. by rewrite (eo_reserved _ _ Hok a Hr) in Hf. }
    rewrite bool_decide_eq_false_2 by set_solver. rewrite andb_false_r.
    split_and!; [lia..|done|tauto| | |].
    + intros H'. apply Hres. right; left. by eapply groups_bitmap.
    + intros H'. apply Hres. right; right. by eapply groups_table.
    + apply (gw_there _ _ _ _ Hg), (eo_readable _ _ Hok). done.
Qed.

Lemma wp_get_node x n (Q : node → ext2 → Prop) : nodes x !! ino = Some n → Q n x → wp (get_node ino) Q x.
Proof. intros Hn HQ. unfold get_node. wp_step. wp_step. by eapply wp_from_opt. Qed.

Lemma wp_upd_node x n f (Q : unit → ext2 → Prop) : nodes x !! ino = Some n →
  Q tt (set_nodes (<[ino := f n]> (nodes x)) x) → wp (upd_node ino f) Q x.
Proof. intros Hn HQ. unfold upd_node. wp_step. eapply wp_get_node; [done|]. by wp_step. Qed.

Lemma wp_get_entry x b buf off e (Q : Z → ext2 → Prop) : disk x !! b = Some buf → block_entry buf off = Some e →
  Q e x → wp (get_entry ino (InBlock b) off) Q x.
Proof.
  intros Hb He HQ. unfold get_entry, sb_read_block. do 2 wp_step. rewrite Hb. wp_step. eapply wp_from_opt; [done|].
  by eapply wp_from_opt.
Qed.

Lemma wp_set_entry x b buf buf' off v (Q : unit → ext2 → Prop) : disk x !! b = Some buf →
  put_le 4 (Z.to_nat (4 * off)) v buf = Some buf' →
  Q tt (set_disk (<[b := buf']> (disk x)) x) → wp (set_entry ino (InBlock b) off v) Q x.
Proof.
  intros Hb He HQ. unfold set_entry, sb_read_block, set_block. do 2 wp_step. rewrite Hb. wp_step. eapply wp_from_opt; [done|].
  wp_step. eapply wp_from_opt; [done|]. by wp_step.
Qed.

Lemma took_data x b x' : ext2_ok G x → took G x b x' → b ≠ 0 ∧ ¬ is_bitmap x b ∧ ¬ in_table G x b ∧ is_Some (disk x !! b).
Proof.
  intros Hok Ht. pose proof (tk_free _ _ _ _ Ht) as Hf.
  assert (Hr : ¬ (b = 0 ∨ is_bitmap x b ∨ in_table G x b)).
  { intros Hr. by rewrite (eo_reserved _ _ Hok b Hr) in Hf. }
  split_and!; [tauto..|]. by apply (eo_readable _ _ Hok).
Qed.

(** A block that was taken, with the data blocks [S] of the file and the block itself written,
    and counted in the inode. *)
Lemma grew_took x x1 nb S d' n n' : ext2_ok G x → owned x S → took G x nb x1 →
  (∀ a, a ∉ S ∪ {[nb]} → d' !! a = disk x1 !! a) → (∀ a, is_Some (d' !! a) ↔ is_Some (disk x1 !! a)) →
  map_Forall (λ _, is_block G) d' →
  nodes x !! ino = Some n → i_size n' = i_size n → length (i_raw n') = length (i_raw n) →
  i_blocks n' = i64 (i_blocks n + sectors_per_block G) →
  grew x S (set_nodes (<[ino := n']> (nodes x1)) (set_disk d' x1)) (S ∪ {[nb]}).
Proof.
  intros Hok Ho Ht Hout Hsome Hblk Hn Hsz Hraw Hblocks.
  destruct (took_data _ _ _ Hok Ht) as (Hnb0 & Hnbm & Hnt & Hnd).
  pose proof (tk_frame _ _ _ _ Ht) as Hfr. pose proof (fr_groups _ _ _ Hfr) as Hgr. cbn in Hgr.
  assert (HnbS : nb ∉ S).
  { intros Hin. destruct (Ho nb Hin) as (_ & Hf & _). by rewrite (tk_free _ _ _ _ Ht) in Hf. }
  assert (Hbm : ∀ a, is_bitmap x1 a → d' !! a = disk x1 !! a).
  { intros a Ha. pose proof (groups_bitmap _ _ Hgr _ Ha) as Ha'. apply Hout. intros [Hin|Hin]%elem_of_union.
    - destruct (Ho a Hin) as (_ & _ & _ & Hb & _). done.
    - apply elem_of_singleton in Hin as ->. done. }
  destruct (ok_set_disk x1 d' (tk_ok _ _ _ _ Ht) Hsome Hblk Hbm) as [Hok2 Hfree].
  split; cbn [disk block_groups nodes errno s_state s_free_blocks_count set_nodes set_disk].
  - by apply ok_set_nodes.
  - set_solver.
  - intros a Ha HaS. assert (a = nb) as -> by set_solver. apply Ht.
  - intros a. trans (block_free G (set_disk d' x1) a); [done|]. rewrite Hfree, (tk_after _ _ _ _ Ht). f_equal.
    destruct (Z.eqb_spec a nb) as [->|]; case_bool_decide; set_solver.
  - intros a Ha Hb. rewrite Hout by done. by apply (fr_disk _ _ _ Hfr).
  - intros a Ha. by apply Hsome, (fr_there _ _ _ Hfr).
  - done.
  - rewrite size_union, size_singleton by set_solver. rewrite (tk_count _ _ _ _ Ht). lia.
  - apply Hfr.
  - apply Hfr.
  - intros i Hi. rewrite lookup_insert_ne by done. by rewrite (fr_nodes _ _ _ Hfr).
  - intros n0 Hn0. exists n'. rewrite lookup_insert_eq. split; [done|]. assert (n0 = n) as -> by congruence.
    split_and!; [done..|]. intros _. rewrite Hblocks, size_union, size_singleton by set_solver. f_equal. lia.
Qed.

(** A part of the file grew, and with it the file. *)
Lemma grew_widen x S0 x' S0' S : grew x S0 x' S0' → S0 ⊆ S → owned x S → grew x S x' (S ∪ S0').
Proof.
  intros Hg Hsub Ho. assert (Hnew : ∀ a, a ∈ S0' → a ∉ S0 → a ∉ S).
  { intros a Ha Ha0 HaS. destruct (Ho a HaS) as (_ & Hf & _). by rewrite (gw_new _ _ _ _ Hg) in Hf. }
  destruct Hg as [? Hs ? Hfree Hdisk ? ? Hcount ? ? ? Hnode].
  assert (Hsize : Z.of_nat (size (S ∪ S0')) = Z.of_nat (size S) + Z.of_nat (size S0') - Z.of_nat (size S0)).
  { assert (S ∪ S0' = S ∪ (S0' ∖ S0)) as ->.
    { apply set_eq. intros a. set_unfold. destruct (decide (a ∈ S0)); naive_solver. }
    rewrite size_union by (set_unfold; naive_solver). rewrite size_difference by done. pose proof (subseteq_size S0 S0' Hs). lia. }
  split; try done.
  - set_solver.
  - intros a Ha HaS. assert (a ∈ S0') by set_solver. auto.
  - intros a. rewrite Hfree. f_equal. apply bool_decide_ext. set_unfold. naive_solver.
  - intros a Ha Hb. apply Hdisk; set_solver.
  - rewrite Hsize. lia.
  - intros n Hn. destruct (Hnode n Hn) as (n' & ? & ? & ? & Hb). exists n'. split_and!; try done. intros Hi. rewrite (Hb Hi), Hsize.
    do 3 f_equal. lia.
Qed.

Context (euid egid preferred : Z).

Definition preferred_ok (x : ext2) : Prop :=
  preferred = u32 (-1) ∨ 0 <= preferred < Z.of_nat (length (block_groups x)).

Lemma grew_preferred x S x' S' : grew x S x' S' → preferred_ok x → preferred_ok x'.
Proof. intros Hg. unfold preferred_ok. by rewrite (groups_length _ _ (gw_groups _ _ _ _ Hg)). Qed.

(** The mapping of other paths stays, that of [path] is what was asked for. *)
Definition mapped (x x' : ext2) (b : Z) (path : list Z) (r : Z + Z) : Prop :=
  (∀ path', offsets G path' → length path' = length path → path' ≠ path →
    find (disk x') b path' = find (disk x) b path') ∧
  match r with
  | inl v => v ≠ 0 ∧ find (disk x') b path = Some v ∧ (find (disk x) b path = Some 0 ∨ find (disk x) b path = Some v)
  | inr e => e = - ENOSPC ∧ find (disk x') b path = Some 0 ∧ find (disk x) b path = Some 0 ∧
      may_allocate G x' euid egid = false
  end.

(** The entries of the inode itself stay. *)
Definition keeps_raw (x x' : ext2) : Prop :=
  ∀ n, nodes x !! ino = Some n → ∃ n', nodes x' !! ino = Some n' ∧ i_raw n' = i_raw n.

Lemma keeps_raw_refl x : keeps_raw x x.
Proof. intros n Hn. by exists n. Qed.

Lemma keeps_raw_trans x x1 x2 : keeps_raw x x1 → keeps_raw x1 x2 → keeps_raw x x2.
Proof.
  intros H1 H2 n Hn. destruct (H1 n Hn) as (n1 & Hn1 & <-). by apply H2.
Qed.

Lemma keeps_raw_insert x n x1 blocks sz : nodes x !! ino = Some n →
  keeps_raw x (set_nodes (<[ino := Node (i_raw n) blocks sz]> (nodes x1)) x1).
Proof. intros Hn n0 Hn0. eexists. cbn. rewrite lookup_insert_eq. split; [done|]. cbn. congruence. Qed.

(** A block is allocated and put into an entry that was a hole. *)
Lemma wp_fill_hole {A} x b S level buf fp off n pref (none : M ext2 A) (some : Z → M ext2 A) (Q : A → ext2 → Prop) :
  ext2_ok G x → owned x S → b ≠ 0 → view G (disk x) level b S buf fp → 0 <= off < entries G →
  block_entry buf off = Some 0 → nodes x !! ino = Some n →
  pref = u32 (-1) ∨ 0 <= pref < Z.of_nat (length (block_groups x)) →
  (may_allocate G x euid egid = false → wp none Q x) →
  (∀ nb x1 buf', took G x nb x1 → nb ≠ 0 → nb ∉ S → nb ≠ b → is_block G buf' → block_entry buf' off = Some nb →
    (∀ j, j ≠ off → block_entry buf' j = block_entry buf j) →
    wp (some nb) Q (set_nodes (<[ino := Node (i_raw n) (i64 (i_blocks n + sectors_per_block G)) (i_size n)]> (nodes x1))
      (set_disk (<[b := buf']> (disk x1)) x1))) →
  wp (block ← allocate_block G euid egid pref;
      if block =? EXT2_ERR_INV_BLOCK then none
      else set_entry ino (InBlock b) off block;; add_blocks ino (sectors_per_block G);; some block) Q x.
Proof.
  intros Hok Ho Hb Hv Hoff He Hn Hp HQ0 HQ. wp_step.
  eapply wp_mono; [by apply (wp_allocate_block G HG x Hok)|]. cbn beta. intros nb x1 Hnb.
  destruct (may_allocate G x euid egid).
  2:{ destruct Hnb as [-> ->]. wp_step; [|done]. auto. }
  destruct Hnb as [Hnb0 Ht]. rewrite (proj2 (Z.eqb_neq nb _)) by done.
  assert (HnbS : nb ∉ S).
  { intros Hin. destruct (Ho nb Hin) as (_ & Hf & _). by rewrite (tk_free _ _ _ _ Ht) in Hf. }
  assert (HbS : b ∈ S) by (apply (vw_all _ _ _ _ _ _ _ Hv); auto).
  destruct (Ho b HbS) as (_ & _ & _ & Hbbm & _). pose proof (tk_frame _ _ _ _ Ht) as Hfr.
  assert (Hbuf1 : disk x1 !! b = Some buf) by (rewrite (fr_disk _ _ _ Hfr) by done; apply Hv).
  assert (Hnbr : 0 <= nb < 2 ^ 32).
  { pose proof (free_in_range _ _ (tk_free _ _ _ _ Ht)). pose proof (go_first _ HG).
    destruct (eo_size _ _ Hok) as [_ Hcap]. specialize (Hcap true). cbn in Hcap. lia. }
  destruct (put_entry G HG buf off nb (vw_block _ _ _ _ _ _ _ Hv) Hoff Hnbr) as (buf' & Hput & Hblk & He' & Hoth).
  wp_step. eapply wp_set_entry; [done..|]. wp_step. unfold add_blocks.
  eapply wp_upd_node; [cbn; by rewrite (fr_nodes _ _ _ Hfr)|]. apply (HQ nb x1 buf'); try done. congruence.
Qed.

(** The tree after a hole of a table was filled with [S1] below block [nb]. *)
Lemma hole_filled x x1 d' b S level buf fp off buf' nb :
  ext2_ok G x → owned x S → b ≠ 0 → view G (disk x) level b S buf fp → 0 <= off < entries G →
  block_entry buf off = Some 0 → took G x nb x1 → nb ≠ b → is_block G buf' → block_entry buf' off = Some nb →
  (∀ j, j ≠ off → block_entry buf' j = block_entry buf j) →
  d' !! b = Some buf' → (∀ a, a ≠ b → a ≠ nb → d' !! a = disk x1 !! a) → tree G d' level nb {[nb]} →
  tree G d' (Datatypes.S level) b (S ∪ {[nb]}).
Proof.
  intros Hok Ho Hb Hv Hoff He Ht Hnbb Hblk He' Hoth Hd'b Hd' Htree.
  pose proof (tk_frame _ _ _ _ Ht) as Hfr.
  assert (Hfp0 : fp off = ∅).
  { destruct (vw_below _ _ _ _ _ _ _ Hv off Hoff) as (e & He0 & Hte). rewrite He in He0. injection He0 as <-. by destruct level. }
  eapply view_graft; [done|exact Hoff|exact Hv|exact Hd'b|done|exact He'|done|done| |set_solver|set_solver].
  intros i a Hi Hio Ha. assert (HaS : a ∈ S) by (apply (vw_all _ _ _ _ _ _ _ Hv); eauto).
  destruct (Ho a HaS) as (_ & Hf & _ & Hbm & _).
  assert (a ≠ nb) by (intros ->; by rewrite (tk_free _ _ _ _ Ht) in Hf).
  assert (a ≠ b) by (intros ->; by eapply (vw_self _ _ _ _ _ _ _ Hv)).
  split; [|set_solver]. rewrite Hd' by done. by apply (fr_disk _ _ _ Hfr).
Qed.

(** The last table: its entry is there or a block is allocated for it. *)
Lemma wp_create_leaf x b S off n : ext2_ok G x → owned x S → b ≠ 0 → tree G (disk x) 1 b S →
  0 <= off < entries G → nodes x !! ino = Some n →
  wp (create_path_from G euid egid ino preferred (InBlock b) [off])
    (λ r x', keeps_raw x x' ∧ ∃ S', grew x S x' S' ∧ tree G (disk x') 1 b S' ∧ mapped x x' b [off] r) x.
Proof.
  intros Hok Ho Hb Htree Hoff Hn. apply tree_view in Htree as (buf & fp & Hv); [|done].
  pose proof (vw_buf _ _ _ _ _ _ _ Hv) as Hbuf. destruct (vw_below _ _ _ _ _ _ _ Hv off Hoff) as (e & He & _).
  assert (Hfind : ∀ d' buf' off', d' !! b = Some buf' → find d' b [off'] = block_entry buf' off').
  { intros d' buf' off' Hd. cbn [find]. rewrite Hd. cbn. by destruct (block_entry buf' off'). }
  assert (Htree : tree G (disk x) 1 b S) by (apply tree_view; eauto).
  cbn [create_path_from]. wp_step. eapply wp_get_entry; [done..|]. apply wp_if; intros Hz.
  2:{ wp_step. split; [apply keeps_raw_refl|]. exists S. split; [by apply grew_refl|]. split; [done|]. split; [done|].
      rewrite (Hfind _ _ _ Hbuf), He. split_and!; [by apply Z.eqb_neq in Hz|done|by right]. }
  apply Z.eqb_eq in Hz as ->. eapply wp_fill_hole; [done..|by left| |].
  - intros Hmay. wp_step. split; [apply keeps_raw_refl|]. exists S. split; [by apply grew_refl|]. split; [done|]. split; [done|].
    by rewrite (Hfind _ _ _ Hbuf), He.
  - intros nb x1 buf' Ht Hnb HnbS Hnbb Hblk He' Hoth. wp_step. split; [by apply (keeps_raw_insert x n (set_disk _ x1))|].
    exists (S ∪ {[nb]}).
    cbn [disk set_nodes set_disk]. pose proof (tk_ok _ _ _ _ Ht) as Hok1. split; [|split].
    + eapply grew_took; try done.
      * intros a Ha. rewrite lookup_insert_ne; [done|]. intros <-. apply Ha. apply elem_of_union_l.
        apply (vw_all _ _ _ _ _ _ _ Hv). auto.
      * intros a. rewrite lookup_insert_is_Some'. split; [intros [<-|?]; [|done]|auto].
        apply (fr_there _ _ _ (tk_frame _ _ _ _ Ht)). eauto.
      * apply map_Forall_insert_2; [done|]. apply Hok1.
    + eapply (hole_filled x x1 _ b S 0 buf fp off buf' nb); try done.
      * by rewrite lookup_insert_eq.
      * intros a Hab _. by rewrite lookup_insert_ne.
      * cbn. by rewrite decide_False.
    + split; cbn [disk set_nodes set_disk].
      * intros [|off' [|]] Hoffs Hlen Hne; try done.
        rewrite (Hfind _ buf' off' (lookup_insert_eq _ _ _)), (Hfind _ _ _ Hbuf). apply Hoth. congruence.
      * rewrite (Hfind _ buf' off (lookup_insert_eq _ _ _)), (Hfind _ _ _ Hbuf), He. auto.
Qed.

(** An entry of a table of tables: the table below it is there or is made, full of holes. *)
Lemma wp_create_table {A} x b S level off n (more : Z → M ext2 (A + Z)) (Q : A + Z → ext2 → Prop) :
  ext2_ok G x → owned x S → b ≠ 0 → tree G (disk x) (Datatypes.S (Datatypes.S level)) b S →
  0 <= off < entries G → nodes x !! ino = Some n → preferred_ok x →
  (may_allocate G x euid egid = false → (∀ p, offsets G p → p ≠ [] → find (disk x) b (off :: p) = Some 0) → Q (inr (- ENOSPC)) x) →
  (∀ e x1 S1 buf1 fp1, e ≠ 0 → keeps_raw x x1 → grew x S x1 S1 → view G (disk x1) (Datatypes.S level) b S1 buf1 fp1 →
    block_entry buf1 off = Some e →
    (∀ p, offsets G p → length p = Datatypes.S (Datatypes.S level) → find (disk x1) b p = find (disk x) b p) →
    wp (more e) Q x1) →
  wp (e ← get_entry ino (InBlock b) off;
      b' ← (if e =? EXT2_ERR_INV_BLOCK then
              block ← allocate_block G euid egid preferred;
              if block =? EXT2_ERR_INV_BLOCK then mret None
              else set_entry ino (InBlock b) off block;; add_blocks ino (sectors_per_block G);; mret (Some block)
            else mret (Some e));
      match b' with
      | None => mret (inr (- ENOSPC))
      | Some b' =>
          buf ← sb_read_block b';
          match buf with
          | None => e ← gets errno; mret (inr (- e))
          | Some _ =>
              (if e =? EXT2_ERR_INV_BLOCK then set_block b' (replicate (Z.to_nat (block_size G)) 0) else mret tt);;
              more b'
          end
      end) Q x.
Proof.
  intros Hok Ho Hb Htree Hoff Hn Hp Hfail Hmore. pose proof Htree as Htree'.
  apply tree_view in Htree' as (buf & fp & Hv); [|done]. pose proof (vw_buf _ _ _ _ _ _ _ Hv) as Hbuf.
  destruct (vw_below _ _ _ _ _ _ _ Hv off Hoff) as (e & He & Hte).
  wp_step. eapply wp_get_entry; [done..|]. wp_step. destruct (Z.eqb_spec e EXT2_ERR_INV_BLOCK) as [->|Hne].
  - (* a hole *)
    assert (Hhole : ∀ p, offsets G p → p ≠ [] → find (disk x) b (off :: p) = Some 0).
    { intros p Hop Hpne. cbn [find]. rewrite Hbuf. cbn [mbind option_bind]. rewrite He. cbn. by destruct p. }
    eapply wp_fill_hole; [done..| |].
    { intros Hmay. do 2 wp_step. auto. }
    intros nb x1 buf' Ht Hnb HnbS Hnbb Hblk He' Hoth. wp_step.
    destruct (took_data _ _ _ Hok Ht) as (_ & Hnbm & _ & Hnd). pose proof (tk_frame _ _ _ _ Ht) as Hfr.
    apply (fr_there _ _ _ Hfr) in Hnd as [bufn Hbufn].
    unfold sb_read_block, set_block. do 2 wp_step. cbn [disk set_nodes set_disk].
    rewrite lookup_insert_ne, Hbufn by done. do 2 wp_step. cbn [disk set_nodes set_disk nodes].
    set (zero := replicate (Z.to_nat (block_size G)) 0). set (d' := <[nb := zero]> (<[b := buf']> (disk x1))).
    set (n' := Node _ _ _).
    assert (Hd'b : d' !! b = Some buf') by (unfold d'; by rewrite lookup_insert_ne, lookup_insert_eq).
    assert (Hd'nb : d' !! nb = Some zero) by (unfold d'; by rewrite lookup_insert_eq).
    assert (Hd' : ∀ a, a ≠ b → a ≠ nb → d' !! a = disk x1 !! a) by (intros a ? ?; unfold d'; by rewrite !lookup_insert_ne).
    assert (Htree' : tree G d' (Datatypes.S (Datatypes.S level)) b (S ∪ {[nb]})).
    { eapply (hole_filled x x1 d' b S (Datatypes.S level) buf fp off buf' nb); try done. by apply tree_zeroes. }
    pose proof Htree' as Hv'. apply tree_view in Hv' as (buf1 & fp1 & Hv'); [|done].
    assert (buf1 = buf') as -> by (pose proof (vw_buf _ _ _ _ _ _ _ Hv'); congruence).
    change (set_disk _ (set_nodes (<[ino:=n']> (nodes x1)) _)) with (set_nodes (<[ino := n']> (nodes x1)) (set_disk d' x1)).
    eapply (Hmore nb _ (S ∪ {[nb]}) buf' fp1); [done|by apply (keeps_raw_insert x n (set_disk d' x1))| |exact Hv'|done|].
    + eapply grew_took; try done.
      * intros a Ha. apply Hd'; [|set_solver]. intros ->. apply Ha. apply elem_of_union_l, (vw_all _ _ _ _ _ _ _ Hv). auto.
      * intros a. unfold d'. rewrite !lookup_insert_is_Some'. split; [intros [<-|[<-|?]]; [by eexists| |done]|auto].
        apply (fr_there _ _ _ Hfr). by eexists.
      * apply map_Forall_insert_2; [apply zero_block; exact HG|]. apply map_Forall_insert_2; [done|]. apply (tk_ok _ _ _ _ Ht).
    + intros [|off' p] Hop Hlen; [done|]. apply list.Forall_cons in Hop as [Hoff' Hop]. injection Hlen as Hlen.
      assert (p ≠ []) by by intros ->. cbn [disk set_nodes set_disk].
      destruct (decide (off' = off)) as [->|Hno].
      * rewrite Hhole by done. cbn [find]. rewrite Hd'b. cbn [mbind option_bind]. rewrite He'. cbn [mbind option_bind].
        destruct p as [|p0 p]; [done|]. rewrite (proj2 (Z.eqb_neq nb 0)) by done. by apply (find_zeroes G).
      * cbn [find]. rewrite Hd'b, Hbuf. cbn [mbind option_bind]. rewrite Hoth by done.
        destruct (vw_below _ _ _ _ _ _ _ Hv off' Hoff') as (e2 & -> & Hte2). cbn [mbind option_bind].
        destruct p as [|p0 p]; [done|]. destruct (Z.eqb_spec e2 0); [done|].
        eapply find_frame; [exact Hte2|done|done|done|]. intros a Ha.
        assert (HaS : a ∈ S) by (apply (vw_all _ _ _ _ _ _ _ Hv); eauto).
        destruct (Ho a HaS) as (_ & Hf & _ & Hbm & _).
        rewrite Hd'; [by apply (fr_disk _ _ _ Hfr)| |].
        -- intros ->. by eapply (vw_self _ _ _ _ _ _ _ Hv off').
        -- intros ->. by rewrite (tk_free _ _ _ _ Ht) in Hf.
  - (* a table *)
    wp_step. unfold sb_read_block. do 2 wp_step.
    assert (Hes : e ∈ S).
    { apply (vw_all _ _ _ _ _ _ _ Hv). right. exists off. split; [done|]. by eapply tree_root. }
    destruct (Ho e Hes) as (_ & _ & _ & _ & _ & [bufe ->]). do 2 wp_step.
    eapply Hmore; [done|apply keeps_raw_refl|by apply grew_refl|done..].
Qed.

(** What lies in other parts of the file, or is the table itself, is not touched. *)
Lemma grew_outside x1 S1 S0 x2 S2 a : owned x1 S1 → grew x1 S0 x2 S2 → a ∈ S1 → a ∉ S0 →
  disk x2 !! a = disk x1 !! a ∧ a ∉ S2.
Proof.
  intros Ho Hg Ha Ha0. destruct (Ho a Ha) as (_ & Hf & _ & Hbm & _).
  assert (a ∉ S2); [|split; [by apply (gw_disk _ _ _ _ Hg)|done]].
  intros Ha2. by rewrite (gw_new _ _ _ _ Hg) in Hf.
Qed.

(** A path below one entry was made: the whole table. *)
Lemma mapped_below x x1 x2 S1 b level buf fp off e S2 p r :
  b ≠ 0 → e ≠ 0 → 0 <= off < entries G → owned x1 S1 → view G (disk x1) level b S1 buf fp →
  block_entry buf off = Some e → length p = level → p ≠ [] → offsets G p →
  (∀ q, offsets G q → length q = S level → find (disk x1) b q = find (disk x) b q) →
  grew x1 (fp off) x2 S2 → tree G (disk x2) level e S2 → mapped x1 x2 e p r →
  tree G (disk x2) (Datatypes.S level) b (S1 ∪ S2) ∧ mapped x x2 b (off :: p) r.
Proof.
  intros Hb He Hoff Ho Hv Hbe Hlen Hp Hop Hsame Hg Htree [Hothers Hr].
  assert (Hb1 : disk x2 !! b = disk x1 !! b ∧ b ∉ S2).
  { eapply grew_outside; [exact Ho|exact Hg|apply (vw_all _ _ _ _ _ _ _ Hv); auto|by apply (vw_self _ _ _ _ _ _ _ Hv)]. }
  rewrite (vw_buf _ _ _ _ _ _ _ Hv) in Hb1. destruct Hb1 as [Hb2 HbS2].
  assert (Hout : ∀ i a, 0 <= i < entries G → i ≠ off → a ∈ fp i → disk x2 !! a = disk x1 !! a ∧ a ∉ S2).
  { intros i a Hi Hio Ha. eapply grew_outside; [exact Ho|exact Hg|apply (vw_all _ _ _ _ _ _ _ Hv); eauto|].
    intros Ha'. by eapply (vw_apart _ _ _ _ _ _ _ Hv i off). }
  assert (Hfind : ∀ d' q, d' !! b = Some buf → q ≠ [] → find d' b (off :: q) = find d' e q).
  { intros d' q Hd Hq. cbn [find]. rewrite Hd. cbn [mbind option_bind]. rewrite Hbe. cbn [mbind option_bind].
    destruct q; [done|]. by rewrite (proj2 (Z.eqb_neq e 0)). }
  assert (Hfp : find (disk x) b (off :: p) = find (disk x1) e p).
  { rewrite <-Hsame by (first [by constructor | by cbn; rewrite Hlen]). apply Hfind; [apply Hv|done]. }
  split; [|split].
  - eapply view_graft; [done|exact Hoff|exact Hv|exact Hb2|apply Hv|exact Hbe|done|done|exact Hout|done|apply Hg].
  - intros [|off' q] Hoq Hlq Hne; [done|]. injection Hlq as Hlq. pose proof Hoq as Hoq'.
    apply list.Forall_cons in Hoq as [Hoff' Hoq]. assert (q ≠ []) by (intros ->; by destruct p).
    rewrite <-Hsame by (done || cbn; congruence). destruct (decide (off' = off)) as [->|Hno].
    + rewrite !Hfind by (done || apply Hv). apply Hothers; [done..|congruence].
    + cbn [find]. rewrite Hb2, (vw_buf _ _ _ _ _ _ _ Hv). cbn [mbind option_bind].
      destruct (vw_below _ _ _ _ _ _ _ Hv off' Hoff') as (e2 & -> & Hte2). cbn [mbind option_bind].
      destruct q as [|q0 q]; [done|]. destruct (Z.eqb_spec e2 0); [done|].
      eapply find_frame; [exact Hte2|done|congruence|done|]. intros a Ha. by eapply Hout.
  - rewrite Hfp, (Hfind (disk x2)) by done. destruct r as [v|er]; [|by destruct Hr as (? & ? & ? & ?)]. done.
Qed.

Lemma wp_create_below level x b S path n : ext2_ok G x → owned x S → b ≠ 0 → tree G (disk x) (Datatypes.S level) b S →
  offsets G path → length path = Datatypes.S level → nodes x !! ino = Some n → preferred_ok x →
  wp (create_path_from G euid egid ino preferred (InBlock b) path)
    (λ r x', keeps_raw x x' ∧ ∃ S', grew x S x' S' ∧ tree G (disk x') (Datatypes.S level) b S' ∧ mapped x x' b path r) x.
Proof.
  revert x b S path n; induction level as [|level IH]; intros x b S path n Hok Ho Hb Htree Hop Hlen Hn Hp.
  { destruct path as [|off [|]]; try done. apply list.Forall_cons in Hop as [Hoff _]. by eapply wp_create_leaf. }
  destruct path as [|off [|off2 p]]; try done. apply list.Forall_cons in Hop as [Hoff Hop]. injection Hlen as Hlen.
  set (path := off2 :: p) in *. assert (length path = Datatypes.S level) by (cbn; congruence).
  apply (wp_create_table x b S level off n (λ b', create_path_from G euid egid ino preferred (InBlock b') path)); try done.
  - intros Hmay Hhole. split; [apply keeps_raw_refl|]. exists S. split; [by apply grew_refl|]. split; [done|]. split; [done|].
    rewrite Hhole by done. done.
  - intros e x1 S1 buf1 fp1 He Hk1 Hg1 Hv1 Hbe Hsame.
    pose proof (grew_owned _ _ _ _ Hok Ho Hg1) as Ho1. destruct (gw_node _ _ _ _ Hg1 n Hn) as (n1 & Hn1 & _).
    assert (Hsub : fp1 off ⊆ S1) by (intros a Ha; apply (vw_all _ _ _ _ _ _ _ Hv1); eauto).
    destruct (vw_below _ _ _ _ _ _ _ Hv1 off Hoff) as (e' & He' & Hte). rewrite Hbe in He'. injection He' as <-.
    eapply wp_mono; [apply (IH x1 e (fp1 off) path n1)|].
    + apply Hg1.
    + intros a Ha. by apply Ho1, Hsub.
    + done.
    + done.
    + done.
    + done.
    + done.
    + by eapply grew_preferred.
    + intros r x2 (Hk2 & S2 & Hg2 & Ht2 & Hm2). split; [by eapply keeps_raw_trans|].
      destruct (mapped_below x x1 x2 S1 b (Datatypes.S level) buf1 fp1 off e S2 path r) as [Htree2 Hmap2]; try done.
      exists (S1 ∪ S2). split; [|done]. eapply grew_trans; [exact Hg1|]. by eapply grew_widen.
Qed.
End growth.
