(* ===== verification/Ext2File.v ===== *)
(** * Ext2File: the blocks of an inode

    The fifteen entries of an inode and the trees below them; the path of a block number; and
    creating a path from the inode on. *)

From S2P Require Import Prelude Abi Bits Bytes Ext2 Ext2Facts Ext2Tree.

Section file.
Context (G : geometry) (HG : geometry_ok G).
Abbreviation E := (entries G).

(** ** Entries of an inode *)

Definition is_raw (raw : list Z) : Prop := Forall byte raw ∧ (128 <= length raw)%nat.

Lemma raw_entry_Some raw i : is_raw raw → 0 <= i < 15 → ∃ e, raw_entry raw i = Some e ∧ 0 <= e < 2 ^ 32.
Proof.
  intros [Hb Hl] Hi. unfold raw_entry, EXT2_NR_BLOCKS, i_data_offset.
  rewrite (proj2 (Z.leb_le 0 i)), (proj2 (Z.ltb_lt i 15)) by lia. cbn [andb]. rewrite get_le_Some by lia. eexists. split; [done|].
  pose proof (word_nonneg (take 4 (drop (Z.to_nat (40 + 4 * i)) raw)) ltac:(by apply Forall_take, Forall_drop)) as Hw.
  rewrite length_take, length_drop in Hw. replace (4 `min` _)%nat with 4%nat in Hw by lia. exact Hw.
Qed.

Lemma put_raw_entry raw i v : is_raw raw → 0 <= i < 15 → 0 <= v < 2 ^ 32 → ∃ raw',
  put_le 4 (Z.to_nat (i_data_offset + 4 * i)) v raw = Some raw' ∧ is_raw raw' ∧ length raw' = length raw ∧
  raw_entry raw' i = Some v ∧ (∀ j, j ≠ i → raw_entry raw' j = raw_entry raw j) ∧
  ∀ n off, (off + n <= 40)%nat ∨ (100 <= off)%nat → get_le n off raw' = get_le n off raw.
Proof.
  intros [Hb Hl] Hi Hv. unfold i_data_offset.
  destruct (put_le 4 (Z.to_nat (40 + 4 * i)) v raw) as [raw'|] eqn:Hp; [|by rewrite put_le_Some in Hp by lia].
  pose proof (length_put_le _ _ _ _ _ Hp) as Hl'.
  exists raw'. split; [done|]. split; [split; [by eapply put_le_bytes|lia]|]. split; [done|]. split; [|split].
  - unfold raw_entry, EXT2_NR_BLOCKS, i_data_offset.
    rewrite (proj2 (Z.leb_le 0 i)), (proj2 (Z.ltb_lt i 15)) by lia. cbn [andb]. by eapply get_put_le.
  - intros j Hj. unfold raw_entry, EXT2_NR_BLOCKS, i_data_offset. destruct ((0 <=? j) && (j <? 15)) eqn:Ej; [|done].
    eapply get_put_le_ne; [done|]. destruct (decide (j < i)); [left|right]; lia.
  - intros n off Hd. eapply get_put_le_ne; [done|]. lia.
Qed.

(** ** The tree of a file *)

Record iview (d : gmap Z (list Z)) (raw : list Z) (S : gset Z) (fp : Z → gset Z) : Prop := {
  iv_below : ∀ i, 0 <= i < 15 → ∃ e, raw_entry raw i = Some e ∧ tree G d (indirection_level i) e (fp i);
  iv_apart : ∀ i j, 0 <= i < 15 → 0 <= j < 15 → i ≠ j → fp i ## fp j;
  iv_all : ∀ a, a ∈ S ↔ ∃ i, 0 <= i < 15 ∧ a ∈ fp i }.

(** The inode [ino] is in memory and its blocks are [S]. *)
Record file_ok (x : ext2) (ino : Z) (n : node) (S : gset Z) : Prop := {
  fo_node : nodes x !! ino = Some n;
  fo_raw : is_raw (i_raw n);
  fo_tree : ∃ fp, iview (disk x) (i_raw n) S fp;
  fo_owned : owned G x S;
  fo_blocks : i_blocks n = sectors_per_block G * Z.of_nat (size S) }.

(** The block at the end of a path from an inode; 0 is a hole. *)
Definition find_file (d : gmap Z (list Z)) (raw : list Z) (path : list Z) : option Z :=
  match path with
  | [] => None
  | off :: path =>
      e ← raw_entry raw off;
      match path with
      | [] => Some e
      | _ => if e =? 0 then Some 0 else find d e path
      end
  end.

(** Paths as [ext2_get_block_path] makes them. *)
Definition is_path (path : list Z) : Prop :=
  ∃ off p, path = off :: p ∧ 0 <= off < 15 ∧ length p = indirection_level off ∧ offsets G p.

Lemma iview_graft d d' raw S fp off raw' e' S1 : 0 <= off < 15 → iview d raw S fp →
  raw_entry raw' off = Some e' → (∀ j, j ≠ off → raw_entry raw' j = raw_entry raw j) →
  tree G d' (indirection_level off) e' S1 →
  (∀ i a, 0 <= i < 15 → i ≠ off → a ∈ fp i → d' !! a = d !! a ∧ a ∉ S1) → fp off ⊆ S1 →
  iview d' raw' (S ∪ S1) (λ i, if decide (i = off) then S1 else fp i).
Proof.
  intros Hoff [] He' Hother Ht1 Hfp Hsub. split.
  - intros i Hi. case_decide as Hio; [subst; by exists e'|]. rewrite Hother by done.
    destruct (iv_below0 i Hi) as (e & He & Ht). exists e. split; [done|]. eapply tree_frame; [done|].
    intros a Ha. by eapply Hfp.
  - intros i j Hi Hj Hij. repeat case_decide; subst; try done; [| |by apply iv_apart0].
    + intros a Ha Ha'. by eapply (Hfp j a).
    + intros a Ha Ha'. by eapply (Hfp i a).
  - intros a. rewrite elem_of_union, iv_all0. split.
    + intros [(i & Hi & Ha)|Ha].
      * exists i. split; [done|]. case_decide; [subst; by apply Hsub|done].
      * exists off. split; [done|]. by rewrite decide_True.
    + intros (i & Hi & Ha). case_decide; [by right|]. left. by exists i.
Qed.

(** ** The path of a block number *)

(** The number of blocks a file can have. *)
Definition max_blocks : Z := 12 + E + E * E + E * E * E.

Lemma land_entries z : Z.land z (E - 1) = z mod E.
Proof.
  destruct (entries_facts G HG) as (HE & Hs & _ & _). replace (E - 1) with (Z.ones (entry_shift G)) by (rewrite Z.ones_equiv, HE; lia).
  rewrite Z.land_ones by lia. by rewrite <-HE.
Qed.

Lemma shiftr_entries z : Z.shiftr z (entry_shift G) = z / E.
Proof.
  destruct (entries_facts G HG) as (HE & Hs & _ & _). rewrite Z.shiftr_div_pow2 by lia. by rewrite <-HE.
Qed.

Lemma shiftr_entries_twice z : Z.shiftr z (entry_shift G * 2) = z / (E * E).
Proof.
  destruct (entries_facts G HG) as (HE & Hs & _ & _). rewrite Z.shiftr_div_pow2 by lia.
  f_equal. rewrite HE, <-Z.pow_add_r by lia. f_equal. lia.
Qed.

(** The path written with divisions. *)
Definition block_path (b : Z) : list Z :=
  if b <? 12 then [b]
  else if b <? 12 + E then [12; b - 12]
  else if b <? 12 + E + E * E then let k := b - 12 - E in [13; k / E; k mod E]
  else let k := b - 12 - E - E * E in [14; k / (E * E); (k / E) mod E; k mod E].

Lemma get_block_path_eq b : 0 <= b < max_blocks → ext2_get_block_path G b = block_path b.
Proof.
  intros Hb. destruct (entries_facts G HG) as (HE & Hs & _ & Hr).
  assert (HEE : E * E <= 2 ^ 20) by nia. assert (max_blocks < 2 ^ 32) by (unfold max_blocks in *; nia).
  unfold ext2_get_block_path, ext2_detect_block_type, block_path, min_doubly_block, min_trebly_block, direct_block_count,
    EXT2_IND_BLOCK, EXT2_DIND_BLOCK, EXT2_TIND_BLOCK.
  rewrite (u32_small (E + 12)), (u32_small (E * E + E + 12)) by nia.
  replace (E + 12) with (12 + E) by lia. replace (E * E + E + 12) with (12 + E + E * E) by lia.
  destruct (Z.ltb_spec b 12); [done|]. destruct (Z.ltb_spec b (12 + E)); [cbn; by rewrite u32_small by lia|].
  destruct (Z.ltb_spec b (12 + E + E * E)); cbn [Z.eqb Pos.eqb].
  - rewrite u32_small by lia. rewrite shiftr_entries, land_entries. by replace (b - (12 + E)) with (b - 12 - E) by lia.
  - rewrite u32_small by lia. rewrite shiftr_entries_twice, shiftr_entries, !land_entries.
    by replace (b - (12 + E + E * E)) with (b - 12 - E - E * E) by lia.
Qed.

Lemma block_path_is_path b : 0 <= b < max_blocks → is_path (block_path b).
Proof.
  intros Hb. destruct (entries_facts G HG) as (_ & _ & _ & Hr). unfold block_path, max_blocks in *.
  destruct (Z.ltb_spec b 12).
  { exists b, []. split_and!; [done|lia..| |constructor]. unfold indirection_level, EXT2_IND_BLOCK. by rewrite (proj2 (Z.ltb_lt b 12)). }
  destruct (Z.ltb_spec b (12 + E)).
  { exists 12, [b - 12]. split_and!; [done..|]. repeat constructor; lia. }
  destruct (Z.ltb_spec b (12 + E + E * E)); cbn zeta.
  - set (k := b - 12 - E). exists 13, [k / E; k mod E]. split_and!; [done..|]. repeat constructor.
    + apply Z.div_pos; lia.
    + apply Z.div_lt_upper_bound; lia.
    + apply Z.mod_pos_bound. lia.
    + apply Z.mod_pos_bound. lia.
  - set (k := b - 12 - E - E * E). exists 14, [k / (E * E); (k / E) mod E; k mod E]. split_and!; [done..|]. repeat constructor.
    + apply Z.div_pos; nia.
    + apply Z.div_lt_upper_bound; nia.
    + apply Z.mod_pos_bound. lia.
    + apply Z.mod_pos_bound. lia.
    + apply Z.mod_pos_bound. lia.
    + apply Z.mod_pos_bound. lia.
Qed.

(** Different blocks have different paths. *)
Lemma block_path_inj b b' : block_path b = block_path b' → b = b'.
Proof.
  destruct (entries_facts G HG) as (_ & _ & _ & Hr).
  assert (Hdm : ∀ k k', k / E = k' / E → k mod E = k' mod E → k = k').
  { intros k k' Hd Hm. rewrite (Z.div_mod k E), (Z.div_mod k' E) by lia. congruence. }
  unfold block_path. destruct (Z.ltb_spec b 12), (Z.ltb_spec b' 12); try (repeat case_match; intros [= ->]; lia).
  destruct (Z.ltb_spec b (12 + E)), (Z.ltb_spec b' (12 + E)); try (repeat case_match; intros [= ?]; lia).
  destruct (Z.ltb_spec b (12 + E + E * E)), (Z.ltb_spec b' (12 + E + E * E)); cbn zeta; try (intros [=]; fail).
  - intros [= Hd Hm]. pose proof (Hdm _ _ Hd Hm). lia.
  - intros [= Hdd Hdm' Hm]. rewrite <-!Z.div_div in Hdd by lia. pose proof (Hdm _ _ (Hdm _ _ Hdd Hdm') Hm). lia.
Qed.

(** ** Creating a path *)

Context (ino euid egid preferred : Z).

Lemma wp_get_raw_entry x n off e (Q : Z → ext2 → Prop) : nodes x !! ino = Some n → raw_entry (i_raw n) off = Some e →
  Q e x → wp (get_entry ino InInode off) Q x.
Proof. intros Hn He HQ. unfold get_entry. wp_step. eapply wp_get_node; [done|]. by eapply wp_from_opt. Qed.

Lemma wp_set_raw_entry x n raw' off v (Q : unit → ext2 → Prop) : nodes x !! ino = Some n →
  put_le 4 (Z.to_nat (i_data_offset + 4 * off)) v (i_raw n) = Some raw' →
  Q tt (set_nodes (<[ino := Node raw' (i_blocks n) (i_size n)]> (nodes x)) x) → wp (set_entry ino InInode off v) Q x.
Proof.
  intros Hn Hp HQ. unfold set_entry. wp_step. eapply wp_get_node; [done|]. wp_step. eapply wp_from_opt; [done|].
  by eapply wp_upd_node.
Qed.

(** Everything of the inode but its entries and the count. *)
Definition same_inode (n n' : node) : Prop :=
  i_size n' = i_size n ∧ length (i_raw n') = length (i_raw n) ∧
  ∀ k off, (off + k <= 40)%nat ∨ (100 <= off)%nat → get_le k off (i_raw n') = get_le k off (i_raw n).

Definition mapped_file (x : ext2) (n : node) (x' : ext2) (n' : node) (path : list Z) (r : Z + Z) : Prop :=
  (∀ path', is_path path' → path' ≠ path → find_file (disk x') (i_raw n') path' = find_file (disk x) (i_raw n) path') ∧
  let old := find_file (disk x) (i_raw n) path in
  let new := find_file (disk x') (i_raw n') path in
  match r with
  | inl v => v ≠ 0 ∧ new = Some v ∧ (old = Some 0 ∨ old = Some v)
  | inr e => e = - ENOSPC ∧ new = Some 0 ∧ old = Some 0 ∧ may_allocate G x' euid egid = false
  end.

(** The state after a call: the file with its new blocks. *)
Definition created (x : ext2) (n : node) (S : gset Z) (path : list Z) (r : Z + Z) (x' : ext2) : Prop :=
  ∃ S' n' fp', grew G ino x S x' S' ∧ nodes x' !! ino = Some n' ∧ is_raw (i_raw n') ∧ same_inode n n' ∧
    iview (disk x') (i_raw n') S' fp' ∧ mapped_file x n x' n' path r.

Lemma created_same x n S fp path r : ext2_ok G x → file_ok x ino n S → iview (disk x) (i_raw n) S fp →
  mapped_file x n x n path r → created x n S path r x.
Proof.
  intros Hok Hf Hv Hm. exists S, n, fp. split_and!; try done; try apply Hf. by apply grew_refl.
Qed.

(** A block is allocated for an entry of the inode that was a hole. *)
Lemma wp_fill_inode {A} x n S off pref (none : M ext2 A) (some : Z → M ext2 A) (Q : A → ext2 → Prop) :
  ext2_ok G x → file_ok x ino n S → 0 <= off < 15 → raw_entry (i_raw n) off = Some 0 →
  pref = u32 (-1) ∨ 0 <= pref < Z.of_nat (length (block_groups x)) →
  (may_allocate G x euid egid = false → wp none Q x) →
  (∀ nb x1 n', took G x nb x1 → nb ≠ 0 → nb ∉ S → is_raw (i_raw n') → same_inode n n' →
    i_blocks n' = i64 (i_blocks n + sectors_per_block G) →
    raw_entry (i_raw n') off = Some nb → (∀ j, j ≠ off → raw_entry (i_raw n') j = raw_entry (i_raw n) j) →
    wp (some nb) Q (set_nodes (<[ino := n']> (nodes x1)) x1)) →
  wp (block ← allocate_block G euid egid pref;
      if block =? EXT2_ERR_INV_BLOCK then none
      else set_entry ino InInode off block;; add_blocks ino (sectors_per_block G);; some block) Q x.
Proof.
  intros Hok Hf Hoff He Hp HQ0 HQ. wp_step.
  eapply wp_mono; [by apply (wp_allocate_block G HG x Hok)|]. cbn beta. intros nb x1 Hnb.
  destruct (may_allocate G x euid egid).
  2:{ destruct Hnb as [-> ->]. wp_step; [|done]. auto. }
  destruct Hnb as [Hnb0 Ht]. rewrite (proj2 (Z.eqb_neq nb _)) by done.
  pose proof (fr_nodes _ _ _ (tk_frame _ _ _ _ Ht)) as Hnodes. pose proof (fo_node _ _ _ _ Hf) as Hn.
  assert (Hnbr : 0 <= nb < 2 ^ 32).
  { pose proof (free_in_range G HG _ _ (tk_free _ _ _ _ Ht)). pose proof (go_first _ HG).
    destruct (eo_size _ _ Hok) as [_ Hcap]. specialize (Hcap true). cbn in Hcap. lia. }
  destruct (put_raw_entry _ _ _ (fo_raw _ _ _ _ Hf) Hoff Hnbr) as (raw' & Hput & Hraw & Hlen & He' & Hoth & Hrest).
  wp_step. eapply wp_set_raw_entry; [by rewrite Hnodes|done|]. wp_step. unfold add_blocks.
  eapply wp_upd_node; [cbn; by rewrite lookup_insert_eq|]. cbn [nodes set_nodes i_raw i_blocks i_size].
  set (n' := Node _ _ _). rewrite insert_insert_eq.
  apply (HQ nb x1 n'); try done.
  - intros Hin. destruct (fo_owned _ _ _ _ Hf nb Hin) as (_ & Hfr & _). by rewrite (tk_free _ _ _ _ Ht) in Hfr.
Qed.

(** The inode after a hole of it was filled with block [nb], whose subtree is itself. *)
Lemma inode_hole_filled x x1 d' n n' S fp off nb : ext2_ok G x → file_ok x ino n S → iview (disk x) (i_raw n) S fp →
  0 <= off < 15 → raw_entry (i_raw n) off = Some 0 → took G x nb x1 →
  raw_entry (i_raw n') off = Some nb → (∀ j, j ≠ off → raw_entry (i_raw n') j = raw_entry (i_raw n) j) →
  (∀ a, a ≠ nb → d' !! a = disk x1 !! a) → tree G d' (indirection_level off) nb {[nb]} →
  iview d' (i_raw n') (S ∪ {[nb]}) (λ i, if decide (i = off) then {[nb]} else fp i) ∧
  ∀ i a, 0 <= i < 15 → i ≠ off → a ∈ fp i → d' !! a = disk x !! a.
Proof.
  intros Hok Hf Hv Hoff He Ht He' Hoth Hd' Htree. pose proof (tk_frame _ _ _ _ Ht) as Hfr.
  assert (Hfp0 : fp off = ∅).
  { destruct (iv_below _ _ _ _ Hv off Hoff) as (e & He0 & Hte). rewrite He in He0. injection He0 as <-.
    by destruct (indirection_level off). }
  assert (Hout : ∀ i a, 0 <= i < 15 → i ≠ off → a ∈ fp i → d' !! a = disk x !! a ∧ a ∉ ({[nb]} : gset Z)).
  { intros i a Hi Hio Ha. assert (HaS : a ∈ S) by (apply (iv_all _ _ _ _ Hv); eauto).
    destruct (fo_owned _ _ _ _ Hf a HaS) as (_ & Hfree & _ & Hbm & _).
    assert (a ≠ nb) by (intros ->; by rewrite (tk_free _ _ _ _ Ht) in Hfree).
    split; [|set_solver]. rewrite Hd' by done. by apply (fr_disk _ _ _ Hfr). }
  split; [|intros; by eapply Hout]. eapply iview_graft; try done. rewrite Hfp0. set_solver.
Qed.

Lemma is_path_direct off : is_path [off] → 0 <= off < 12.
Proof.
  intros (off' & p & [= <- <-] & Hoff & Hlen & _). unfold indirection_level, EXT2_IND_BLOCK, EXT2_DIND_BLOCK in Hlen.
  destruct (Z.ltb_spec off 12); [lia|]. by repeat case_match.
Qed.

(** A path whose first entry is another one. *)
Lemma find_file_other d d' raw raw' S fp off path : iview d raw S fp → is_path path → head path ≠ Some off →
  (∀ j, j ≠ off → raw_entry raw' j = raw_entry raw j) →
  (∀ i a, 0 <= i < 15 → i ≠ off → a ∈ fp i → d' !! a = d !! a) →
  find_file d' raw' path = find_file d raw path.
Proof.
  intros Hv (off' & p & -> & Hoff' & Hlen & Hop) Hne Hoth Hd. cbn [find_file]. cbn in Hne.
  rewrite Hoth by congruence. destruct (iv_below _ _ _ _ Hv off' Hoff') as (e & -> & Hte). cbn [mbind option_bind].
  destruct p as [|p0 p]; [done|]. destruct (Z.eqb_spec e 0); [done|]. eapply find_frame; [exact Hte|done..|].
  intros a Ha. eapply Hd; [exact Hoff'|congruence|done].
Qed.

Lemma wp_create_direct x n S off : ext2_ok G x → file_ok x ino n S → is_path [off] →
  wp (create_path_from G euid egid ino preferred InInode [off]) (λ r x', created x n S [off] r x') x.
Proof.
  intros Hok Hf Hpath. destruct (fo_tree _ _ _ _ Hf) as [fp Hv]. pose proof (is_path_direct _ Hpath) as Hoff12.
  assert (Hoff : 0 <= off < 15) by lia. pose proof (fo_node _ _ _ _ Hf) as Hn.
  assert (Hlvl : indirection_level off = O) by (unfold indirection_level, EXT2_IND_BLOCK; by rewrite (proj2 (Z.ltb_lt off 12)) by lia).
  destruct (iv_below _ _ _ _ Hv off Hoff) as (e & He & _).
  assert (Hfind : ∀ d' raw', find_file d' raw' [off] = raw_entry raw' off).
  { intros. cbn. by destruct (raw_entry raw' off). }
  cbn [create_path_from]. wp_step. eapply wp_get_raw_entry; [done..|]. apply wp_if; intros Hz.
  2:{ wp_step. apply (created_same _ _ _ fp); [done..|]. split; [done|]. cbn zeta. rewrite Hfind, He.
      split_and!; [by apply Z.eqb_neq in Hz|done|by right]. }
  apply Z.eqb_eq in Hz as ->. eapply wp_fill_inode; [done..|by left| |].
  { intros Hmay. wp_step. apply (created_same _ _ _ fp); [done..|]. split; [done|]. cbn zeta. by rewrite Hfind, He. }
  intros nb x1 n' Ht Hnb HnbS Hraw Hsame Hblk He' Hoth. wp_step.
  destruct (inode_hole_filled x x1 (disk x1) n n' S fp off nb) as [Hv' Hd]; try done.
  { rewrite Hlvl. cbn. by rewrite decide_False. }
  exists (S ∪ {[nb]}), n', (λ i, if decide (i = off) then {[nb]} else fp i).
  split_and!; try done; [| |split].
  - replace x1 with (set_disk (disk x1) x1) at 2 by by destruct x1.
    eapply grew_took; try done; [apply Hf|apply (tk_ok _ _ _ _ Ht)|apply Hsame..].
  - cbn. by rewrite lookup_insert_eq.
  - intros path' Hp' Hne. eapply find_file_other; [exact Hv|done| |exact Hoth|exact Hd].
    destruct Hp' as (off' & p' & -> & Hoff' & Hlen & _). cbn. intros [= ->]. rewrite Hlvl in Hlen. by destruct p'.
  - cbn zeta. rewrite !Hfind, He, He'. auto.
Qed.

(** The path below an entry that refers to a table. *)
Lemma wp_create_indirect x n S fp x1 n1 S1 fp1 off e p level :
  ext2_ok G x → file_ok x ino n S → iview (disk x) (i_raw n) S fp → preferred_ok preferred x →
  0 <= off < 15 → indirection_level off = Datatypes.S level → length p = Datatypes.S level → offsets G p → e ≠ 0 →
  grew G ino x S x1 S1 → nodes x1 !! ino = Some n1 → is_raw (i_raw n1) → same_inode n n1 →
  iview (disk x1) (i_raw n1) S1 fp1 → raw_entry (i_raw n1) off = Some e →
  (∀ path', is_path path' → find_file (disk x1) (i_raw n1) path' = find_file (disk x) (i_raw n) path') →
  wp (create_path_from G euid egid ino preferred (InBlock e) p) (λ r x', created x n S (off :: p) r x') x1.
Proof.
  intros Hok Hf Hv Hp Hoff Hlvl Hlen Hop He Hg1 Hn1 Hraw1 Hsame1 Hv1 Hbe Hfinds.
  pose proof (grew_owned G HG ino _ _ _ _ Hok (fo_owned _ _ _ _ Hf) Hg1) as Ho1.
  assert (Hsub : fp1 off ⊆ S1) by (intros a Ha; apply (iv_all _ _ _ _ Hv1); eauto).
  destruct (iv_below _ _ _ _ Hv1 off Hoff) as (e' & He' & Hte). rewrite Hbe in He'. injection He' as <-.
  rewrite Hlvl in Hte.
  eapply wp_mono; [apply (wp_create_below G HG ino euid egid preferred level x1 e (fp1 off) p n1); try done|].
  { apply Hg1. }
  { intros a Ha. by apply Ho1, Hsub. }
  { by eapply grew_preferred. }
  intros r x2 (Hk2 & S2 & Hg2 & Ht2 & Hothers & Hr).
  destruct (gw_node _ _ _ _ _ _ Hg2 n1 Hn1) as (n2 & Hn2 & Hsz2 & Hl2 & _).
  assert (Hraw2 : i_raw n2 = i_raw n1).
  { destruct (Hk2 n1 Hn1) as (n2' & Hn2' & ?). congruence. }
  assert (Hout : ∀ i a, 0 <= i < 15 → i ≠ off → a ∈ fp1 i → disk x2 !! a = disk x1 !! a ∧ a ∉ S2).
  { intros i a Hi Hio Ha. eapply (grew_outside G ino); [exact Ho1|exact Hg2|apply (iv_all _ _ _ _ Hv1); eauto|].
    intros Ha'. by eapply (iv_apart _ _ _ _ Hv1 i off). }
  assert (Hfp : ∀ d' q, q ≠ [] → find_file d' (i_raw n1) (off :: q) = find d' e q).
  { intros d' q Hq. cbn [find_file]. rewrite Hbe. cbn [mbind option_bind]. destruct q; [done|].
    by rewrite (proj2 (Z.eqb_neq e 0)). }
  assert (Hpne : p ≠ []) by by intros ->.
  assert (Hpath : is_path (off :: p)) by (exists off, p; split_and!; [done|lia..|congruence|done]).
  exists (S1 ∪ S2), n2, (λ i, if decide (i = off) then S2 else fp1 i). rewrite Hraw2.
  split_and!; [| |done| | |split].
  - eapply (grew_trans G HG ino); [exact Hg1|]. by eapply (grew_widen G HG ino).
  - done.
  - destruct Hsame1 as (? & ? & ?). unfold same_inode. rewrite Hraw2. split_and!; [congruence|done|done].
  - eapply iview_graft; try done; [by rewrite Hlvl|apply Hg2].
  - intros path' Hp' Hne. rewrite <-Hfinds by done. destruct (decide (head path' = Some off)) as [Hh|Hh].
    + destruct Hp' as (off' & q & -> & _ & Hlq & Hoq). cbn in Hh. injection Hh as ->. rewrite Hlvl in Hlq.
      assert (q ≠ []) by by intros ->. rewrite Hraw2, !Hfp by done. apply Hothers; [done|congruence..].
    + rewrite Hraw2. eapply find_file_other; [exact Hv1|done|exact Hh|done|]. intros i a Hi Hio Ha. by eapply Hout.
  - cbn zeta. rewrite <-(Hfinds (off :: p) Hpath). rewrite Hraw2, !Hfp by done.
    destruct r as [v|er]; [done|]. by destruct Hr as (? & ? & ? & ?).
Qed.

Lemma wp_create_from_inode x n S path : ext2_ok G x → file_ok x ino n S → is_path path → preferred_ok preferred x →
  wp (create_path_from G euid egid ino preferred InInode path) (λ r x', created x n S path r x') x.
Proof.
  intros Hok Hf Hpath Hp. pose proof Hpath as (off & p & -> & Hoff & Hlen & Hop).
  destruct p as [|p0 p]; [by apply wp_create_direct|]. set (q := p0 :: p) in *.
  destruct (indirection_level off) as [|level] eqn:Hlvl; [done|]. assert (Hq : q ≠ []) by done.
  destruct (fo_tree _ _ _ _ Hf) as [fp Hv]. pose proof (fo_node _ _ _ _ Hf) as Hn.
  destruct (iv_below _ _ _ _ Hv off Hoff) as (e & He & Hte). rewrite Hlvl in Hte.
  assert (Hhole : e = 0 → find_file (disk x) (i_raw n) (off :: q) = Some 0).
  { intros ->. cbn [find_file]. by rewrite He. }
  change (create_path_from G euid egid ino preferred InInode (off :: q)) with
    (b ← get_entry ino InInode off;
     b' ← (if b =? EXT2_ERR_INV_BLOCK then
             block ← allocate_block G euid egid preferred;
             if block =? EXT2_ERR_INV_BLOCK then mret None
             else set_entry ino InInode off block;; add_blocks ino (sectors_per_block G);; mret (Some block)
           else mret (Some b));
     match b' with
     | None => mret (inr (- ENOSPC))
     | Some b' =>
         buf ← sb_read_block b';
         match buf with
         | None => e ← gets errno; mret (inr (- e))
         | Some _ =>
             (if b =? EXT2_ERR_INV_BLOCK then set_block b' (replicate (Z.to_nat (block_size G)) 0) else mret tt);;
             create_path_from G euid egid ino preferred (InBlock b') q
         end
     end).
  wp_step. eapply wp_get_raw_entry; [done..|]. wp_step. destruct (Z.eqb_spec e EXT2_ERR_INV_BLOCK) as [->|Hne].
  - eapply wp_fill_inode; [done..| |].
    { intros Hmay. do 2 wp_step. apply (created_same _ _ _ fp); [done..|]. split; [done|]. cbn zeta. by rewrite Hhole. }
    intros nb x1 n1 Ht Hnb HnbS Hraw Hsame Hblk He' Hoth. wp_step.
    destruct (took_data G _ _ _ Hok Ht) as (_ & Hnbm & _ & Hnd). pose proof (tk_frame _ _ _ _ Ht) as Hfr.
    apply (fr_there _ _ _ Hfr) in Hnd as [bufn Hbufn]. unfold sb_read_block, set_block. do 2 wp_step.
    cbn [disk set_nodes]. rewrite Hbufn. do 2 wp_step. cbn [disk set_nodes].
    set (zero := replicate (Z.to_nat (block_size G)) 0). set (d' := <[nb := zero]> (disk x1)).
    assert (Hd'nb : d' !! nb = Some zero) by (unfold d'; by rewrite lookup_insert_eq).
    assert (Hd' : ∀ a, a ≠ nb → d' !! a = disk x1 !! a) by (intros a ?; unfold d'; by rewrite lookup_insert_ne).
    destruct (inode_hole_filled x x1 d' n n1 S fp off nb) as [Hv' Hd]; try done.
    { rewrite Hlvl. by apply tree_zeroes. }
    eapply (wp_create_indirect x n S fp _ n1 (S ∪ {[nb]}) _ off nb q level); try done.
    + change (set_disk d' (set_nodes (<[ino:=n1]> (nodes x1)) x1)) with (set_nodes (<[ino := n1]> (nodes x1)) (set_disk d' x1)).
      eapply grew_took; try done; [apply Hf|intros a Ha; apply Hd'; set_solver| | |apply Hsame..].
      * intros a. unfold d'. rewrite lookup_insert_is_Some'. split; [intros [<-|?]; [by eexists|done]|auto].
      * apply map_Forall_insert_2; [apply zero_block; exact HG|]. apply (tk_ok _ _ _ _ Ht).
    + cbn. by rewrite lookup_insert_eq.
    + intros path' Hp'. cbn [disk set_disk]. destruct (decide (head path' = Some off)) as [Hh|Hh].
      * destruct Hp' as (off' & q' & -> & _ & Hlq & Hoq). cbn in Hh. injection Hh as ->. rewrite Hlvl in Hlq.
        cbn [find_file]. rewrite He, He'. cbn [mbind option_bind]. destruct q' as [|? q']; [done|].
        rewrite (proj2 (Z.eqb_neq nb 0)) by done. by apply (find_zeroes G HG).
      * eapply find_file_other; [exact Hv|done|exact Hh|exact Hoth|exact Hd].
  - wp_step. unfold sb_read_block. do 2 wp_step.
    assert (Hes : e ∈ S).
    { apply (iv_all _ _ _ _ Hv). exists off. split; [done|]. by eapply (tree_root G). }
    destruct (fo_owned _ _ _ _ Hf e Hes) as (_ & _ & _ & _ & _ & [bufe ->]). do 2 wp_step.
    eapply (wp_create_indirect x n S fp x n S fp off e q level); try done; [by apply grew_refl|apply Hf].
Qed.
End file.
