(* ===== verification/Ext2Trunc.v ===== *)
(** * Ext2Trunc: giving the blocks of a file back

    The counterpart of [Ext2Tree]: freeing the blocks below a table one by one, and truncating
    a file to nothing. *)

From S2P Require Import Prelude Abi Bits Bytes Ext2 Ext2Facts Ext2Tree Ext2File.

Section shrink.
Context (G : geometry) (HG : geometry_ok G) (ino : Z).
Abbreviation E := (entries G).

(** From [x] to [x'] the blocks of a file shrank from [S] to [S']: the others are free, nothing
    else was freed or written, and the inode counts what is left. *)
Record shrank (x : ext2) (S : gset Z) (x' : ext2) (S' : gset Z) : Prop := {
  sk_ok : ext2_ok G x';
  sk_sub : S' ⊆ S;
  sk_free : ∀ a, block_free G x' a = block_free G x a || bool_decide (a ∈ S ∖ S');
  sk_disk : ∀ a, a ∉ S → ¬ is_bitmap x a → disk x' !! a = disk x !! a;
  sk_there : ∀ a, is_Some (disk x !! a) → is_Some (disk x' !! a);
  sk_groups : set_unallocated true 0 <$> block_groups x' = set_unallocated true 0 <$> block_groups x;
  sk_count : s_free_blocks_count x' + Z.of_nat (size S') = s_free_blocks_count x + Z.of_nat (size S);
  sk_errno : errno x' = errno x;
  sk_state : s_state x' = s_state x;
  sk_nodes : ∀ i, i ≠ ino → nodes x' !! i = nodes x !! i;
  sk_node : ∀ n, nodes x !! ino = Some n → ∃ n', nodes x' !! ino = Some n' ∧ i_size n' = i_size n ∧
    length (i_raw n') = length (i_raw n) ∧
    (i64 (i_blocks n) = i_blocks n →
     i_blocks n' = i64 (i_blocks n - sectors_per_block G * (Z.of_nat (size S) - Z.of_nat (size S')))) }.

Lemma shrank_refl x S : ext2_ok G x → shrank x S x S.
Proof.
  intros Hok. split; try done.
  - intros a. rewrite bool_decide_eq_false_2 by set_solver. by rewrite orb_false_r.
  - intros n Hn. exists n. rewrite Z.sub_diag, Z.mul_0_r, Z.sub_0_r. split_and!; [done..|]. by intros ->.
Qed.

Lemma shrank_trans x S x1 S1 x2 S2 : shrank x S x1 S1 → shrank x1 S1 x2 S2 → shrank x S x2 S2.
Proof.
  intros H1 H2. pose proof (sk_sub _ _ _ _ H1) as Hs1. pose proof (sk_sub _ _ _ _ H2) as Hs2. split.
  - apply H2.
  - set_solver.
  - intros a. rewrite (sk_free _ _ _ _ H2), (sk_free _ _ _ _ H1), <-orb_assoc. f_equal.
    repeat case_bool_decide; set_solver.
  - intros a Ha Hbm.
    rewrite (sk_disk _ _ _ _ H2) by first [set_solver | intros Hb; apply Hbm; by eapply groups_bitmap; [apply H1|]].
    by apply (sk_disk _ _ _ _ H1).
  - intros a Ha. by apply (sk_there _ _ _ _ H2), (sk_there _ _ _ _ H1).
  - etrans; [apply H2|apply H1].
  - etrans; [apply H2|apply H1].
  - etrans; [apply H2|apply H1].
  - etrans; [apply H2|apply H1].
  - intros i Hi. etrans; [by apply (sk_nodes _ _ _ _ H2)|by apply (sk_nodes _ _ _ _ H1)].
  - intros n Hn. destruct (sk_node _ _ _ _ H1 n Hn) as (n1 & Hn1 & Hsz1 & Hl1 & Hb1).
    destruct (sk_node _ _ _ _ H2 n1 Hn1) as (n2 & Hn2 & Hsz2 & Hl2 & Hb2). exists n2. split; [done|].
    split; [congruence|]. split; [congruence|]. intros Hi. specialize (Hb1 Hi).
    set (k1 := sectors_per_block G * (Z.of_nat (size S) - Z.of_nat (size S1))) in *.
    set (k2 := sectors_per_block G * (Z.of_nat (size S1) - Z.of_nat (size S2))) in *.
    rewrite Hb2 by (rewrite Hb1; apply i64_idem).
    pose proof (i64_add (i_blocks n1) (i_blocks n - k1) (- k2)) as Hadd.
    replace (i_blocks n1 - k2) with (i_blocks n1 + - k2) by lia. rewrite Hadd by (rewrite Hb1; apply i64_idem).
    f_equal. unfold k1, k2. lia.
Qed.

(** A part of the file shrank, and with it the file. *)
Lemma shrank_widen x S0 x' S0' S : shrank x S0 x' S0' → S0 ⊆ S → shrank x S x' (S ∖ (S0 ∖ S0')).
Proof.
  intros [? Hs Hfree Hdisk ? ? Hcount ? ? ? Hnode] Hsub.
  assert (Hsize : Z.of_nat (size (S ∖ (S0 ∖ S0'))) = Z.of_nat (size S) - Z.of_nat (size S0) + Z.of_nat (size S0')).
  { rewrite !size_difference by set_solver. pose proof (subseteq_size S0' S0 Hs). pose proof (subseteq_size S0 S Hsub).
    pose proof (subseteq_size (S0 ∖ S0') S ltac:(set_solver)) as Hle. rewrite size_difference in Hle by done. lia. }
  split; try done.
  - set_solver.
  - intros a. rewrite Hfree. f_equal. apply bool_decide_ext. set_unfold. destruct (decide (a ∈ S0)), (decide (a ∈ S0')); naive_solver.
  - intros a Ha Hb. apply Hdisk; [|done]. set_solver.
  - rewrite Hsize. lia.
  - intros n Hn. destruct (Hnode n Hn) as (n' & ? & ? & ? & Hb). exists n'. split_and!; try done.
    intros Hi. rewrite (Hb Hi), Hsize. do 3 f_equal. lia.
Qed.

Lemma shrank_owned x S x' S' : owned G x S → shrank x S x' S' → owned G x' S'.
Proof.
  intros Ho Hg a Ha. pose proof (groups_length _ _ (sk_groups _ _ _ _ Hg)) as Hlen. pose proof (sk_groups _ _ _ _ Hg) as Hgr.
  pose proof (sk_sub _ _ _ _ Hg a Ha) as HaS. destruct (Ho a HaS) as (? & Hf & ? & Hb & Ht & Hd).
  unfold data_block. rewrite Hlen, (sk_free _ _ _ _ Hg), Hf, bool_decide_eq_false_2 by set_solver.
  split_and!; [lia..|done|done| | |by apply (sk_there _ _ _ _ Hg)].
  - intros H'. apply Hb. by eapply groups_bitmap.
  - intros H'. apply Ht. by eapply groups_table.
Qed.

(** A block of the file is freed, its entry cleared in a table of the file, and the count
    lowered; [d'] is the disk afterwards. *)
Lemma shrank_gave x x1 e S d' n n' : ext2_ok G x → owned G x S → e ∈ S → gave G x e x1 →
  (∀ a, a ∉ S → d' !! a = disk x1 !! a) → (∀ a, is_Some (d' !! a) ↔ is_Some (disk x1 !! a)) →
  map_Forall (λ _, is_block G) d' →
  nodes x !! ino = Some n → i_size n' = i_size n → length (i_raw n') = length (i_raw n) →
  i_blocks n' = i64 (i_blocks n - sectors_per_block G) →
  shrank x S (set_nodes (<[ino := n']> (nodes x1)) (set_disk d' x1)) (S ∖ {[e]}).
Proof.
  intros Hok Ho HeS Ht Hout Hsome Hblk Hn Hsz Hraw Hblocks.
  pose proof (gv_frame _ _ _ _ Ht) as Hfr. pose proof (fr_groups _ _ _ Hfr) as Hgr. cbn in Hgr.
  assert (Hbm : ∀ a, is_bitmap x1 a → d' !! a = disk x1 !! a).
  { intros a Ha. pose proof (groups_bitmap _ _ Hgr _ Ha) as Ha'. apply Hout. intros Hin.
    by destruct (Ho a Hin) as (_ & _ & _ & Hb & _). }
  destruct (ok_set_disk G x1 d' (gv_ok _ _ _ _ Ht) Hsome Hblk Hbm) as [Hok2 Hfree].
  assert (Hsize : Z.of_nat (size (S ∖ {[e]})) = Z.of_nat (size S) - 1).
  { rewrite size_difference, size_singleton by set_solver.
    assert (size S ≠ O) by (intros H0; apply size_empty_inv in H0; set_solver). lia. }
  split; cbn [disk block_groups nodes errno s_state s_free_blocks_count set_nodes set_disk].
  - by apply ok_set_nodes.
  - set_solver.
  - intros a. trans (block_free G (set_disk d' x1) a); [done|]. rewrite Hfree, (gv_after _ _ _ _ Ht). f_equal.
    destruct (Z.eqb_spec a e) as [->|]; case_bool_decide; set_solver.
  - intros a Ha Hb. rewrite Hout by done. by apply (fr_disk _ _ _ Hfr).
  - intros a Ha. by apply Hsome, (fr_there _ _ _ Hfr).
  - done.
  - rewrite Hsize, (gv_count _ _ _ _ Ht). lia.
  - apply Hfr.
  - apply Hfr.
  - intros i Hi. rewrite lookup_insert_ne by done. by rewrite (fr_nodes _ _ _ Hfr).
  - intros n0 Hn0. exists n'. rewrite lookup_insert_eq. split; [done|]. assert (n0 = n) as -> by congruence.
    split_and!; [done..|]. intros _. rewrite Hblocks, Hsize. f_equal. lia.
Qed.

(** ** Clearing a table *)

(** A table with one entry cleared. *)
Lemma view_clear d d' level b S buf fp off buf' : view G d level b S buf fp → 0 <= off < E →
  d' !! b = Some buf' → is_block G buf' → block_entry buf' off = Some 0 →
  (∀ j, j ≠ off → block_entry buf' j = block_entry buf j) →
  (∀ i a, 0 <= i < E → i ≠ off → a ∈ fp i → d' !! a = d !! a) →
  view G d' level b (S ∖ fp off) buf' (λ i, if decide (i = off) then ∅ else fp i).
Proof.
  intros [] Hoff Hb' Hblk He' Hother Hd. split; try done.
  - intros i Hi. case_decide as Hio.
    + subst. exists 0. split; [done|]. by destruct level.
    + rewrite Hother by done. destruct (vw_below i Hi) as (e & He & Ht). exists e. split; [done|].
      eapply tree_frame; [done|]. intros a Ha. by eapply Hd.
  - intros i j Hi Hj Hij. repeat case_decide; [set_solver..|]. by apply vw_apart.
  - intros i Hi. case_decide; [set_solver|]. by apply vw_self.
  - intros a. rewrite elem_of_difference, vw_all. split.
    + intros [[->|(i & Hi & Ha)] Hno]; [by left|]. right. exists i. split; [done|]. case_decide; [|done]. by subst.
    + intros [->|(i & Hi & Ha)]; [split; [by left|by apply vw_self]|]. case_decide; [set_solver|].
      split; [eauto|]. intros Ha'. by eapply (vw_apart i off).
Qed.

(** A table whose entries are all holes is one block. *)
Lemma view_empty d level b S buf fp : view G d level b S buf fp → (∀ i, 0 <= i < E → fp i = ∅) → S = {[b]}.
Proof.
  intros [] Hfp. apply set_eq. intros a. rewrite vw_all, elem_of_singleton. split; [|auto].
  intros [?|(i & Hi & Ha)]; [done|]. rewrite Hfp in Ha by done. set_solver.
Qed.

(** Coordinates inside the file that are not those of its first block. *)
Definition inside (c : ext2_block_coords) : Prop := ∃ i, coords c !! 0%nat = Some i ∧ i ≠ 0.
Definition origin : ext2_block_coords := Coords [0; 0; 0; 0] 1.

Lemma inside_not_origin c : inside c → coords_eqb c origin = false.
Proof.
  intros (i & Hi & Hne). apply bool_decide_eq_false_2. intros He. rewrite He in Hi. by injection Hi.
Qed.

Lemma inside_set_coord c level i : inside c → inside (set_coord c (S level) i).
Proof. intros (j & Hj & Hne). exists j. split; [|done]. cbn. by rewrite list_lookup_insert_ne. Qed.

(** What is below [b] has been given back, [b] itself not yet. *)
Definition cleared (x : ext2) (S : gset Z) (b : Z) (r : truncated) (x' : ext2) : Prop :=
  ∃ c, r = inl (false, c) ∧ inside c ∧ keeps_raw ino x x' ∧ shrank x S x' {[b]}.

(** One entry that is not a hole. *)
Lemma wp_clear_entry {A} x b S level buf fp off e x1 n (more : M ext2 A) (Q : A → ext2 → Prop) :
  ext2_ok G x → owned G x S → b ≠ 0 → view G (disk x) level b S buf fp → 0 <= off < E →
  block_entry buf off = Some e → e ≠ 0 → nodes x !! ino = Some n →
  keeps_raw ino x x1 → shrank x (fp off) x1 {[e]} →
  (∀ x3 buf', keeps_raw ino x x3 → shrank x S x3 (S ∖ fp off) →
    view G (disk x3) level b (S ∖ fp off) buf' (λ i, if decide (i = off) then ∅ else fp i) → wp more Q x3) →
  wp (free_block G e;; add_blocks ino (- sectors_per_block G);; set_entry ino (InBlock b) off 0;; more) Q x1.
Proof.
  intros Hok Ho Hb Hv Hoff He Hene Hn Hk1 Hs1 HQ.
  assert (Hfps : fp off ⊆ S) by (intros a Ha; apply (vw_all _ _ _ _ _ _ _ Hv); eauto).
  assert (Hefp : e ∈ fp off) by (apply (sk_sub _ _ _ _ Hs1); set_solver).
  pose proof (shrank_widen _ _ _ _ _ Hs1 Hfps) as Hw1. set (S1 := S ∖ (fp off ∖ {[e]})) in *.
  pose proof (shrank_owned _ _ _ _ Ho Hw1) as Ho1. assert (HeS1 : e ∈ S1) by set_solver.
  assert (HbS1 : b ∈ S1).
  { apply elem_of_difference. split; [apply (vw_all _ _ _ _ _ _ _ Hv); auto|].
    intros [Hin _]%elem_of_difference. by eapply (vw_self _ _ _ _ _ _ _ Hv off). }
  wp_step. eapply wp_mono; [apply (wp_free_block G HG x1 (sk_ok _ _ _ _ Hs1)); by apply Ho1|]. intros [] x2 Hgave. cbn beta in Hgave.
  pose proof (gv_frame _ _ _ _ Hgave) as Hfr. destruct (Hk1 n Hn) as (n1 & Hn1 & Hraw1).
  assert (Hb1 : disk x1 !! b = Some buf).
  { destruct (Ho b ltac:(set_solver)) as (_ & _ & _ & Hbm & _).
    rewrite (sk_disk _ _ _ _ Hs1 b); [apply Hv|by apply (vw_self _ _ _ _ _ _ _ Hv)|done]. }
  assert (Hb2 : disk x2 !! b = Some buf).
  { destruct (Ho1 b HbS1) as (_ & _ & _ & Hbm & _). by rewrite (fr_disk _ _ _ Hfr) by done. }
  destruct (put_entry G HG buf off 0 (vw_block _ _ _ _ _ _ _ Hv) Hoff) as (buf' & Hput & Hblk & He' & Hoth); [lia|].
  wp_step. unfold add_blocks. eapply wp_upd_node; [by rewrite (fr_nodes _ _ _ Hfr)|].
  wp_step. eapply wp_set_entry; [cbn; done|done|]. cbn [disk set_nodes].
  set (n3 := Node _ _ _). set (d' := <[b := buf']> (disk x2)).
  change (set_disk d' (set_nodes (<[ino := n3]> (nodes x2)) x2)) with (set_nodes (<[ino := n3]> (nodes x2)) (set_disk d' x2)).
  set (x3 := set_nodes _ (set_disk d' x2)).
  assert (HS' : S1 ∖ {[e]} = S ∖ fp off) by (apply set_eq; intros a; set_unfold; destruct (decide (a = e)); naive_solver).
  assert (Hs3 : shrank x1 S1 x3 (S1 ∖ {[e]})).
  { eapply (shrank_gave x1 x2 e S1 d' n1 n3); try done; [apply Hs1| | |].
    - intros a Ha. unfold d'. rewrite lookup_insert_ne; [done|]. by intros ->.
    - intros a. unfold d'. rewrite lookup_insert_is_Some'. split; [intros [<-|?]; [by eexists|done]|auto].
    - apply map_Forall_insert_2; [done|]. apply (gv_ok _ _ _ _ Hgave). }
  rewrite HS' in Hs3. apply (HQ x3 buf').
  - eapply keeps_raw_trans; [exact Hk1|]. intros n0 Hn0. exists n3. cbn. rewrite lookup_insert_eq. split; [done|]. congruence.
  - by eapply shrank_trans.
  - eapply view_clear; try done; [by unfold x3, d'; cbn; rewrite lookup_insert_eq|].
    intros i a Hi Hio Ha. assert (HaS : a ∈ S) by (apply (vw_all _ _ _ _ _ _ _ Hv); eauto).
    assert (Hafp : a ∉ fp off) by (intros Ha'; by eapply (vw_apart _ _ _ _ _ _ _ Hv i off)).
    destruct (Ho a HaS) as (_ & _ & _ & Hbm & _). destruct (Ho1 a ltac:(set_solver)) as (_ & _ & _ & Hbm1 & _).
    unfold x3, d'. cbn. rewrite lookup_insert_ne by (intros ->; by eapply (vw_self _ _ _ _ _ _ _ Hv i)).
    rewrite (fr_disk _ _ _ Hfr) by done. by apply (sk_disk _ _ _ _ Hs1).
Qed.

(** The entries of a table from the last one down. *)
Lemma wp_trunc_entries below k x b S buf fp level c n :
  (∀ e S' x' c' n', level ≠ O → ext2_ok G x' → owned G x' S' → e ≠ 0 → tree G (disk x') level e S' →
    nodes x' !! ino = Some n' → inside c' → wp (below e c') (cleared x' S' e) x') →
  ext2_ok G x → owned G x S → b ≠ 0 → view G (disk x) level b S buf fp → nodes x !! ino = Some n → inside c →
  Z.of_nat k <= E → (∀ i, Z.of_nat k <= i < E → fp i = ∅) →
  wp (trunc_entries G below (Datatypes.S level) k ino b origin c) (cleared x S b) x.
Proof.
  intros Hbelow. revert x S buf fp c n. induction k as [|k IH]; intros x S buf fp c n Hok Ho Hb Hv Hn Hc Hk Hfp.
  { cbn [trunc_entries]. wp_step. exists c. split_and!; [done..|apply keeps_raw_refl|].
    rewrite (view_empty _ _ _ _ _ _ Hv) by (intros; apply Hfp; lia). by apply shrank_refl. }
  cbn [trunc_entries]. set (off := Z.of_nat k). set (c1 := set_coord c _ off).
  assert (Hc1 : inside c1) by by apply inside_set_coord. rewrite inside_not_origin by done.
  assert (Hoff : 0 <= off < E) by lia. destruct (vw_below _ _ _ _ _ _ _ Hv off Hoff) as (e & He & Hte).
  wp_step. eapply wp_get_entry; [apply Hv|done|]. destruct (Z.eqb_spec e EXT2_FILE_HOLE_BLOCK) as [->|Hene].
  { eapply IH; try done; [lia|]. intros i Hi. destruct (decide (i = off)) as [->|]; [|apply Hfp; lia]. by destruct level. }
  assert (Hfps : fp off ⊆ S) by (intros a Ha; apply (vw_all _ _ _ _ _ _ _ Hv); eauto).
  wp_step. apply (wp_mono _ (cleared x (fp off) e)).
  - destruct level as [|level]; cbn [Nat.eqb].
    + wp_step. exists c1. split_and!; [done..|apply keeps_raw_refl|]. cbn in Hte. rewrite decide_False in Hte by done.
      rewrite Hte. by apply shrank_refl.
    + eapply Hbelow; try done. intros a Ha. by apply Ho, Hfps.
  - intros r x1 (c2 & -> & Hc2 & Hk1 & Hs1).
    apply (wp_clear_entry x b S level buf fp off e x1 n); try done. intros x3 buf' Hk3 Hs3 Hv3.
    destruct (Hk3 n Hn) as (n3 & Hn3 & _).
    eapply wp_mono; [eapply IH; try done; [apply Hs3|by eapply shrank_owned|lia|]|].
    { intros i Hi. cbn beta. case_decide; [done|]. apply Hfp. lia. }
    intros r x4 (c4 & -> & Hc4 & Hk4 & Hs4). exists c4. split_and!; [done..|by eapply keeps_raw_trans|by eapply shrank_trans].
Qed.

Lemma wp_trunc_indirect level x b S c n : ext2_ok G x → owned G x S → b ≠ 0 → tree G (disk x) level b S →
  nodes x !! ino = Some n → inside c → wp (ext2_trunc_indirect_block G level ino b origin c) (cleared x S b) x.
Proof.
  revert x b S c n. induction level as [|level IH]; intros x b S c n Hok Ho Hb Ht Hn Hc; cbn [ext2_trunc_indirect_block].
  - wp_step. exists c. rewrite inside_not_origin by done. split_and!; [done..|apply keeps_raw_refl|].
    cbn in Ht. rewrite decide_False in Ht by done. rewrite Ht. by apply shrank_refl.
  - apply tree_view in Ht as (buf & fp & Hv); [|done]. unfold sb_read_block. wp_step. wp_step.
    rewrite (vw_buf _ _ _ _ _ _ _ Hv). destruct (entries_facts G HG) as (_ & _ & _ & HE).
    eapply wp_trunc_entries; try done; try lia. intros e S' x' c' n' ??????. by eapply IH.
Qed.

(** ** Clearing an inode *)

Lemma iview_clear d d' raw S fp off raw' : iview G d raw S fp → 0 <= off < 15 →
  raw_entry raw' off = Some 0 → (∀ j, j ≠ off → raw_entry raw' j = raw_entry raw j) →
  (∀ i a, 0 <= i < 15 → i ≠ off → a ∈ fp i → d' !! a = d !! a) →
  iview G d' raw' (S ∖ fp off) (λ i, if decide (i = off) then ∅ else fp i).
Proof.
  intros [] Hoff He' Hother Hd. split.
  - intros i Hi. case_decide as Hio.
    + subst. exists 0. split; [done|]. by destruct (indirection_level off).
    + rewrite Hother by done. destruct (iv_below i Hi) as (e & He & Ht). exists e. split; [done|].
      eapply tree_frame; [done|]. intros a Ha. by eapply Hd.
  - intros i j Hi Hj Hij. repeat case_decide; [set_solver..|]. by apply iv_apart.
  - intros a. rewrite elem_of_difference, iv_all. split.
    + intros [(i & Hi & Ha) Hno]. exists i. split; [done|]. case_decide; [|done]. by subst.
    + intros (i & Hi & Ha). case_decide; [set_solver|].
      split; [eauto|]. intros Ha'. by eapply (iv_apart i off).
Qed.

Lemma same_inode_trans n n1 n2 : same_inode n n1 → same_inode n1 n2 → same_inode n n2.
Proof.
  intros (? & ? & H1) (? & ? & H2). split_and!; [congruence..|]. intros k off Hk. rewrite H2 by done. by apply H1.
Qed.

(** The inode [ino] has the blocks [S]; the count apart. *)
Record has_blocks (x : ext2) (n : node) (S : gset Z) (fp : Z → gset Z) : Prop := {
  hb_ok : ext2_ok G x;
  hb_node : nodes x !! ino = Some n;
  hb_raw : is_raw (i_raw n);
  hb_view : iview G (disk x) (i_raw n) S fp;
  hb_owned : owned G x S }.

(** One entry that is not a hole; [f] lowers the count. *)
Lemma wp_clear_raw_entry {A} x n S fp off e x1 f (more : M ext2 A) (Q : A → ext2 → Prop) :
  has_blocks x n S fp → 0 <= off < 15 → raw_entry (i_raw n) off = Some e → e ≠ 0 →
  keeps_raw ino x x1 → shrank x (fp off) x1 {[e]} →
  (∀ n1, nodes x1 !! ino = Some n1 → i_raw (f n1) = i_raw n1 ∧ i_size (f n1) = i_size n1 ∧
    i_blocks (f n1) = i64 (i_blocks n1 - sectors_per_block G)) →
  (∀ x3 n3, shrank x S x3 (S ∖ fp off) → same_inode n n3 →
    has_blocks x3 n3 (S ∖ fp off) (λ i, if decide (i = off) then ∅ else fp i) → wp more Q x3) →
  wp (free_block G e;; upd_node ino f;; set_entry ino InInode off EXT2_FILE_HOLE_BLOCK;; more) Q x1.
Proof.
  intros [Hok Hn Hraw Hv Ho] Hoff He Hene Hk1 Hs1 Hf HQ.
  assert (Hfps : fp off ⊆ S) by (intros a Ha; apply (iv_all _ _ _ _ _ Hv); eauto).
  assert (Hefp : e ∈ fp off) by (apply (sk_sub _ _ _ _ Hs1); set_solver).
  pose proof (shrank_widen _ _ _ _ _ Hs1 Hfps) as Hw1. set (S1 := S ∖ (fp off ∖ {[e]})) in *.
  pose proof (shrank_owned _ _ _ _ Ho Hw1) as Ho1. assert (HeS1 : e ∈ S1) by set_solver.
  wp_step. eapply wp_mono; [apply (wp_free_block G HG x1 (sk_ok _ _ _ _ Hs1)); by apply Ho1|]. intros [] x2 Hgave. cbn beta in Hgave.
  pose proof (gv_frame _ _ _ _ Hgave) as Hfr. destruct (Hk1 n Hn) as (n1 & Hn1 & Hraw1).
  destruct (Hf n1 Hn1) as (Hfraw & Hfsz & Hfblk). destruct (sk_node _ _ _ _ Hs1 n Hn) as (n1' & Hn1' & Hsz1 & _ & _).
  assert (n1' = n1) as -> by congruence.
  destruct (put_raw_entry (i_raw n) off 0 Hraw Hoff) as (raw' & Hput & Hraw' & Hlen & He' & Hoth & Hrest); [lia|].
  wp_step. eapply wp_upd_node; [by rewrite (fr_nodes _ _ _ Hfr)|].
  wp_step. eapply (wp_set_raw_entry ino _ (f n1)); [cbn; by rewrite lookup_insert_eq|by rewrite Hfraw, Hraw1|].
  cbn [nodes set_nodes]. rewrite insert_insert_eq. set (n3 := Node _ _ _).
  assert (HS' : S1 ∖ {[e]} = S ∖ fp off) by (apply set_eq; intros a; set_unfold; destruct (decide (a = e)); naive_solver).
  assert (Hs3 : shrank x1 S1 (set_nodes (<[ino := n3]> (nodes x2)) x2) (S1 ∖ {[e]})).
  { replace x2 with (set_disk (disk x2) x2) at 2 by by destruct x2.
    eapply (shrank_gave x1 x2 e S1 (disk x2) n1 n3); try done; [apply Hs1|apply (gv_ok _ _ _ _ Hgave)|].
    cbn. by rewrite Hlen, Hraw1. }
  rewrite HS' in Hs3. pose proof (shrank_trans _ _ _ _ _ _ Hw1 Hs3) as Hs.
  apply (HQ _ n3 Hs); [split_and!; [by cbn; rewrite Hfsz|done..]|].
  split; [apply Hs|cbn; by rewrite lookup_insert_eq|done| |by eapply shrank_owned].
  eapply iview_clear; try done. intros i a Hi Hio Ha. assert (HaS : a ∈ S) by (apply (iv_all _ _ _ _ _ Hv); eauto).
  assert (Hafp : a ∉ fp off) by (intros Ha'; by eapply (iv_apart _ _ _ _ _ Hv i off)).
  destruct (Ho a HaS) as (_ & _ & _ & Hbm & _). destruct (Ho1 a ltac:(set_solver)) as (_ & _ & _ & Hbm1 & _).
  cbn. rewrite (fr_disk _ _ _ Hfr) by done. by apply (sk_disk _ _ _ _ Hs1).
Qed.

(** The entries of the inode from the last one down to 1. *)
Lemma wp_free_space_loop k x n S fp : has_blocks x n S fp → (k < 15)%nat → (∀ i, Z.of_nat k < i < 15 → fp i = ∅) →
  wp (free_space_loop G k ino origin) (λ r x', r = 0 ∧ ∃ n' fp', same_inode n n' ∧
    shrank x S x' (fp 0) ∧ has_blocks x' n' (fp 0) fp' ∧ fp' 0 = fp 0) x.
Proof.
  revert x n S fp. induction k as [|k IH]; intros x n S fp Hh Hk Hfp.
  { cbn [free_space_loop]. wp_step. split; [done|]. exists n, fp.
    assert (S = fp 0) as ->.
    { apply set_eq. intros a. rewrite (iv_all _ _ _ _ _ (hb_view _ _ _ _ Hh)). split; [|intros Ha; exists 0; split; [lia|done]].
      intros (i & Hi & Ha). destruct (decide (i = 0)) as [->|]; [done|]. rewrite Hfp in Ha by lia. set_solver. }
    split_and!; [done..|by apply shrank_refl, Hh|done|done]. }
  cbn [free_space_loop]. set (off := Z.of_nat (Datatypes.S k)). set (c := Coords _ _).
  assert (Hc : inside c) by (exists off; split; [done|lia]). rewrite inside_not_origin by done.
  assert (Hoff : 0 <= off < 15) by lia. pose proof (hb_view _ _ _ _ Hh) as Hv.
  destruct (iv_below _ _ _ _ _ Hv off Hoff) as (e & He & Hte).
  wp_step. eapply wp_get_raw_entry; [apply Hh|done|]. destruct (Z.eqb_spec e EXT2_FILE_HOLE_BLOCK) as [->|Hene].
  { apply IH; [done|lia|]. intros i Hi. destruct (decide (i = off)) as [->|]; [|apply Hfp; lia].
    by destruct (indirection_level off). }
  wp_step. eapply wp_mono.
  { eapply wp_trunc_indirect; [apply Hh| |done|done|apply Hh|done].
    intros a Ha. apply (hb_owned _ _ _ _ Hh), (iv_all _ _ _ _ _ Hv). eauto. }
  intros r x1 (c2 & -> & _ & Hk1 & Hs1). unfold add_blocks. eapply (wp_clear_raw_entry x n S fp off e); try done.
  intros x3 n3 Hs3 Hsame3 Hh3.
  eapply wp_mono; [apply (IH x3 n3 _ _ Hh3); [lia|]|].
  { intros i Hi. cbn beta. case_decide; [done|]. apply Hfp. lia. }
  cbn beta. rewrite decide_False by lia. intros r x4 (-> & n' & fp' & Hsame & Hs & Hh4 & Hfp').
  split; [done|]. exists n', fp'. split_and!; [by eapply same_inode_trans|by eapply shrank_trans|done..].
Qed.

Lemma sectors_facts : 2 <= sectors_per_block G <= 8.
Proof.
  destruct (entries_facts G HG) as (HE & Hs & Hb & HEr). unfold sectors_per_block. rewrite Z.shiftr_div_pow2, Hb by lia.
  Z.to_euclidean_division_equations; lia.
Qed.

Lemma owned_size x S : ext2_ok G x → owned G x S → Z.of_nat (size S) <= 2 ^ 32.
Proof.
  intros Hok Ho. destruct (eo_size _ _ Hok) as [_ Hcap]. specialize (Hcap true). cbn [per_group] in Hcap.
  pose proof (go_first _ HG). etrans; [apply (size_range _ 0 (2 ^ 32))|lia]. intros a Ha. destruct (Ho a Ha) as (? & _). lia.
Qed.

(** The count goes with the blocks. *)
Lemma count_left x S x' S' n n' : shrank x S x' S' → nodes x !! ino = Some n → nodes x' !! ino = Some n' →
  i_blocks n = sectors_per_block G * Z.of_nat (size S) → owned G x S → ext2_ok G x →
  i_blocks n' = sectors_per_block G * Z.of_nat (size S').
Proof.
  intros Hs Hn Hn' Hb Ho Hok. destruct (sk_node _ _ _ _ Hs n Hn) as (n0 & Hn0 & _ & _ & Hblk).
  assert (n0 = n') as -> by congruence. pose proof sectors_facts. pose proof (owned_size _ _ Hok Ho).
  pose proof (subseteq_size _ _ (sk_sub _ _ _ _ Hs)).
  rewrite Hblk by (rewrite Hb; apply i64_small; nia). rewrite Hb, i64_small by nia. lia.
Qed.

Lemma wp_free_space x n S : ext2_ok G x → file_ok G x ino n S → get_le 4 104 (i_raw n) = Some 0 →
  wp (ext2_free_space G ino 0) (λ r x', r = 0 ∧ ∃ n', same_inode n n' ∧ shrank x S x' ∅ ∧ file_ok G x' ino n' ∅) x.
Proof.
  intros Hok [Hn Hraw [fp Hv] Ho Hb] Hacl. pose proof sectors_facts as Hspb. unfold ext2_free_space. wp_step.
  eapply wp_get_node; [done|]. unfold ext2_has_data_blocks. rewrite Hacl. cbn [mbind option_bind]. wp_step.
  eapply wp_from_opt; [done|]. rewrite Z.sub_0_r. destruct (Z.eqb_spec (i_blocks n) 0) as [H0|H0]; cbn [negb].
  { wp_step. rewrite Hb in H0. apply Z.mul_eq_0 in H0 as [H0|H0]; [lia|].
    assert (S = ∅) as -> by (apply leibniz_equiv, size_empty_inv; lia).
    split; [done|]. exists n. split_and!; [done..|by apply shrank_refl|]. split; try done. by exists fp. }
  change (path_coords G _) with origin. wp_step.
  eapply wp_mono; [apply (wp_free_space_loop (Z.to_nat (EXT2_NR_BLOCKS - 1)) x n S fp); [done|unfold EXT2_NR_BLOCKS; lia..]|].
  cbn beta. intros r x1 (-> & n1 & fp1 & Hsame1 & Hs1 & Hh1 & Hfp1). cbn [Z.ltb Z.compare].
  assert (Hb1 : i_blocks n1 = sectors_per_block G * Z.of_nat (size (fp 0))) by (by eapply (count_left x S x1); [..|apply Hh1| | |]).
  destruct (iv_below _ _ _ _ _ (hb_view _ _ _ _ Hh1) 0) as (e & He & Hte); [lia|]. rewrite Hfp1 in Hte. cbn in Hte.
  wp_step. eapply wp_get_raw_entry; [apply Hh1|done|]. cbn [Z.eqb andb].
  destruct (Z.eqb_spec e 0) as [->|Hene]; cbn [negb].
  { wp_step. cbn in Hte. rewrite Hte in *. split; [done|]. exists n1. split_and!; [done..|]. destruct Hh1. split; eauto. }
  rewrite decide_False in Hte by done.
  eapply (wp_clear_raw_entry x1 n1 _ fp1 0 e); [done|lia|done|done|apply keeps_raw_refl| | |].
  - rewrite Hfp1, Hte. apply shrank_refl, Hh1.
  - intros n2 Hn2. assert (n2 = n1) as -> by (pose proof (hb_node _ _ _ _ Hh1); congruence). split_and!; [done..|].
    cbn. rewrite Hb1, Hte, size_singleton. replace (_ - _) with 0 by lia. done.
  - rewrite Hfp1. replace (fp 0 ∖ fp 0) with (∅ : gset Z) by set_solver. intros x3 n3 Hs3 Hsame3 Hh3. wp_step. split; [done|].
    exists n3. pose proof (same_inode_trans _ _ _ Hsame1 Hsame3). pose proof (shrank_trans _ _ _ _ _ _ Hs1 Hs3).
    assert (i_blocks n3 = sectors_per_block G * Z.of_nat (size (∅ : gset Z))) by (by eapply (count_left x S x3); [..|apply Hh3| | |]).
    split_and!; [done..|]. destruct Hh3. split; eauto.
Qed.
End shrink.
