(* ===== verification/Ext2Props.v ===== *)
(** * Ext2Props: allocation, mapping and truncation in ext2

    A block that is allocated was free and is the only one taken; making the path to a block of
    a file changes what that block is mapped to and nothing else; truncating a file to nothing
    gives all its blocks back. *)

From S2P Require Import Prelude Abi Bits Bytes Ext2 Ext2Facts Ext2Tree Ext2File Ext2Trunc.

Section reading.
Context (G : geometry) (HG : geometry_ok G).
Abbreviation E := (entries G).

(** What reading the map of an inode says of one of its blocks; 0 is a hole. *)
Definition reads (x : ext2) (ino b v : Z) : Prop := ext2_get_block_from_inode G ino b x = Done (inl v, x).

Lemma wp_reads x ino b v : wp (ext2_get_block_from_inode G ino b) (λ r x', r = inl v ∧ x' = x) x → reads x ino b v.
Proof. unfold reads, wp. destruct (ext2_get_block_from_inode G ino b x) as [[r x']|]; [|done]. by intros [-> ->]. Qed.

Lemma reads_det x ino b v v' : reads x ino b v → reads x ino b v' → v = v'.
Proof. unfold reads. congruence. Qed.

Lemma wp_follow_below level x ino b S p : owned G x S → b ≠ 0 → tree G (disk x) (Datatypes.S level) b S →
  offsets G p → length p = Datatypes.S level →
  ∃ v, find (disk x) b p = Some v ∧ wp (follow_path ino (InBlock b) p) (λ r x', r = inl v ∧ x' = x) x.
Proof.
  revert b S p. induction level as [|level IH]; intros b S p Ho Hb Ht Hp Hl;
    (destruct p as [|off p]; [done|]; injection Hl as Hl; apply list.Forall_cons in Hp as [Hoff Hp]);
    apply tree_view in Ht as (buf & fp & Hv); try done; pose proof (vw_buf _ _ _ _ _ _ _ Hv) as Hbuf;
    destruct (vw_below _ _ _ _ _ _ _ Hv off Hoff) as (e & He & Hte).
  - destruct p; [|done]. exists e. cbn [find follow_path]. rewrite Hbuf. cbn [mbind option_bind]. rewrite He. split; [done|].
    wp_step. eapply wp_get_entry; [done..|]. by wp_step.
  - destruct p as [|p0 p]; [done|]. set (q := p0 :: p) in *.
    change (find (disk x) b (off :: q)) with
      (buf ← disk x !! b; e ← block_entry buf off; if e =? 0 then Some 0 else find (disk x) e q).
    rewrite Hbuf. cbn [mbind option_bind]. rewrite He. cbn [mbind option_bind].
    change (follow_path ino (InBlock b) (off :: q)) with
      (b ← get_entry ino (InBlock b) off;
       if b =? EXT2_ERR_INV_BLOCK then mret (inl EXT2_ERR_INV_BLOCK)
       else buf ← sb_read_block b;
         match buf with
         | None => e ← gets errno; mret (inr (- e))
         | Some _ => follow_path ino (InBlock b) q
         end).
    destruct (Z.eqb_spec e 0) as [->|Hne].
    { exists 0. split; [done|]. wp_step. eapply wp_get_entry; [done..|]. by wp_step. }
    assert (Hsub : fp off ⊆ S) by (intros a Ha; apply (vw_all _ _ _ _ _ _ _ Hv); eauto).
    destruct (IH e (fp off) q) as (v & Hf & Hw); try done; [intros a Ha; by apply Ho, Hsub|].
    exists v. split; [done|]. wp_step. eapply wp_get_entry; [done..|].
    rewrite (proj2 (Z.eqb_neq e _)) by done. unfold sb_read_block. wp_step. wp_step.
    destruct (Ho e) as (_ & _ & _ & _ & _ & [bufe ->]); [by apply Hsub; eapply (tree_root G)|]. done.
Qed.

(** The map of a file, read by the code and as the tree has it. *)
Lemma reads_find x ino n S b : file_ok G x ino n S → 0 <= b < max_blocks G →
  ∃ v, find_file (disk x) (i_raw n) (block_path G b) = Some v ∧ reads x ino b v.
Proof.
  intros Hf Hb. destruct (fo_tree _ _ _ _ _ Hf) as [fp Hv]. pose proof (fo_node _ _ _ _ _ Hf) as Hn.
  pose proof (get_block_path_eq G HG b Hb) as Hpath. destruct (block_path_is_path G HG b Hb) as (off & p & Hp & Hoff & Hlen & Hop).
  rewrite Hp in *. destruct (iv_below _ _ _ _ _ Hv off Hoff) as (e & He & Hte).
  destruct p as [|p0 p].
  { exists e. cbn [find_file]. rewrite He. split; [done|]. apply wp_reads. unfold ext2_get_block_from_inode. rewrite Hpath.
    cbn [follow_path]. wp_step. eapply wp_get_raw_entry; [done..|]. by wp_step. }
  set (q := p0 :: p) in *. assert (Hfind : find_file (disk x) (i_raw n) (off :: q) = if e =? 0 then Some 0 else find (disk x) e q).
  { cbn [find_file]. by rewrite He. }
  rewrite Hfind. assert (Hw : ∃ v, (if e =? 0 then Some 0 else find (disk x) e q) = Some v ∧
    wp (follow_path ino InInode (off :: q)) (λ r x', r = inl v ∧ x' = x) x).
  2:{ destruct Hw as (v & ? & Hw). exists v. split; [done|]. apply wp_reads. unfold ext2_get_block_from_inode. by rewrite Hpath. }
  change (follow_path ino InInode (off :: q)) with
    (b ← get_entry ino InInode off;
     if b =? EXT2_ERR_INV_BLOCK then mret (inl EXT2_ERR_INV_BLOCK)
     else buf ← sb_read_block b;
       match buf with
       | None => e ← gets errno; mret (inr (- e))
       | Some _ => follow_path ino (InBlock b) q
       end).
  destruct (Z.eqb_spec e 0) as [->|Hne].
  { exists 0. split; [done|]. wp_step. eapply wp_get_raw_entry; [done..|]. by wp_step. }
  assert (Hsub : fp off ⊆ S) by (intros a Ha; apply (iv_all _ _ _ _ _ Hv); eauto). rewrite <-Hlen in Hte.
  destruct (wp_follow_below (length p) x ino e (fp off) q) as (v & Hf' & Hw); try done.
  { intros a Ha. by apply (fo_owned _ _ _ _ _ Hf), Hsub. }
  exists v. split; [done|]. wp_step. eapply wp_get_raw_entry; [done..|].
  rewrite (proj2 (Z.eqb_neq e _)) by done. unfold sb_read_block. wp_step. wp_step.
  destruct (fo_owned _ _ _ _ _ Hf e) as (_ & _ & _ & _ & _ & [bufe ->]); [by apply Hsub; eapply (tree_root G)|]. done.
Qed.

Lemma reads_iff x ino n S b v : file_ok G x ino n S → 0 <= b < max_blocks G →
  reads x ino b v ↔ find_file (disk x) (i_raw n) (block_path G b) = Some v.
Proof.
  intros Hf Hb. destruct (reads_find x ino n S b Hf Hb) as (v' & Hfind & Hr). rewrite Hfind. split.
  - intros Hr'. by rewrite (reads_det _ _ _ _ _ Hr Hr').
  - by intros [= <-].
Qed.

(** A file whose blocks and inode were left alone. *)
Lemma file_frame x x' ino n S : file_ok G x ino n S → nodes x' !! ino = nodes x !! ino →
  (∀ a, a ∈ S → disk x' !! a = disk x !! a) → owned G x' S →
  file_ok G x' ino n S ∧ ∀ b v, 0 <= b < max_blocks G → reads x' ino b v ↔ reads x ino b v.
Proof.
  intros Hf Hn Hd Ho. destruct (fo_tree _ _ _ _ _ Hf) as [fp Hv].
  assert (Hfp : ∀ i a, 0 <= i < 15 → a ∈ fp i → disk x' !! a = disk x !! a).
  { intros i a Hi Ha. apply Hd, (iv_all _ _ _ _ _ Hv). eauto. }
  assert (Hf' : file_ok G x' ino n S).
  { split; try first [done|apply Hf]; [by rewrite Hn; apply Hf|]. exists fp. destruct Hv. split; try done.
    intros i Hi. destruct (iv_below i Hi) as (e & He & Ht). exists e. split; [done|]. eapply tree_frame; eauto. }
  split; [done|]. intros b v Hb. rewrite !reads_iff by done.
  rewrite (find_file_other G (disk x) (disk x') (i_raw n) (i_raw n) S fp (-1)); try done; [by apply block_path_is_path| |].
  - destruct (block_path_is_path G HG b Hb) as (off & p & -> & Hoff & _). cbn. intros [= ->]. lia.
  - intros i a Hi _ Ha. by eapply Hfp.
Qed.

(** A file with no blocks is all holes. *)
Lemma reads_empty x ino n b : file_ok G x ino n ∅ → 0 <= b < max_blocks G → reads x ino b 0.
Proof.
  intros Hf Hb. apply (reads_iff x ino n ∅ b 0 Hf Hb). destruct (fo_tree _ _ _ _ _ Hf) as [fp Hv].
  destruct (block_path_is_path G HG b Hb) as (off & p & -> & Hoff & _). cbn [find_file].
  destruct (iv_below _ _ _ _ _ Hv off Hoff) as (e & He & Ht). rewrite He. cbn [mbind option_bind].
  destruct (decide (e = 0)) as [->|Hne]; [by destruct p|]. pose proof (tree_root G HG _ _ _ _ Ht Hne).
  exfalso. apply (not_elem_of_empty (C := gset Z) e), (iv_all _ _ _ _ _ Hv). eauto.
Qed.

(** The other files after a change that kept to free blocks and those of [S]. *)
Definition others_kept (ino : Z) (x : ext2) (S : gset Z) (x' : ext2) (S' : gset Z) : Prop :=
  ∀ ino2 n2 S2, ino2 ≠ ino → file_ok G x ino2 n2 S2 → S2 ## S →
    file_ok G x' ino2 n2 S2 ∧ S2 ## S' ∧ ∀ b v, 0 <= b < max_blocks G → reads x' ino2 b v ↔ reads x ino2 b v.

Lemma grew_others ino x S x' S' : ext2_ok G x → owned G x S → grew G ino x S x' S' → others_kept ino x S x' S'.
Proof.
  intros Hok Ho Hg ino2 n2 S2 Hne Hf Hdis. pose proof (fo_owned _ _ _ _ _ Hf) as Ho2.
  assert (Ho12 : owned G x (S ∪ S2)) by (intros a [?|?]%elem_of_union; auto).
  assert (Hout : ∀ a, a ∈ S2 → disk x' !! a = disk x !! a ∧ a ∉ S').
  { intros a Ha. eapply (grew_outside G ino x (S ∪ S2) S); [done..|set_solver|set_solver]. }
  pose proof (grew_widen G HG ino _ _ _ _ _ Hg (union_subseteq_l S S2) Ho12) as Hw.
  pose proof (grew_owned G HG ino _ _ _ _ Hok Ho12 Hw) as Ho'.
  destruct (file_frame x x' ino2 n2 S2 Hf) as [Hf' Hr]; [by apply Hg|intros; by apply Hout|intros a Ha; apply Ho'; set_solver|].
  split_and!; [done| |done]. intros a Ha. by apply Hout.
Qed.

Lemma shrank_others ino x S x' S' : owned G x S → shrank G ino x S x' S' → others_kept ino x S x' S'.
Proof.
  intros Ho Hs ino2 n2 S2 Hne Hf Hdis. pose proof (fo_owned _ _ _ _ _ Hf) as Ho2.
  assert (Ho12 : owned G x (S ∪ S2)) by (intros a [?|?]%elem_of_union; auto).
  pose proof (shrank_widen G HG ino _ _ _ _ _ Hs (union_subseteq_l S S2)) as Hw.
  pose proof (shrank_owned G HG ino _ _ _ _ Ho12 Hw) as Ho'. pose proof (sk_sub _ _ _ _ _ _ Hs).
  destruct (file_frame x x' ino2 n2 S2 Hf) as [Hf' Hr]; [by apply Hs| |intros a Ha; apply Ho'; set_solver|].
  - intros a Ha. destruct (Ho2 a Ha) as (_ & _ & _ & Hbm & _). apply (sk_disk _ _ _ _ _ _ Hs); [set_solver|done].
  - split_and!; [done|set_solver|done].
Qed.

Lemma others_kept_trans ino x S x1 S1 x2 S2 : others_kept ino x S x1 S1 → others_kept ino x1 S1 x2 S2 → others_kept ino x S x2 S2.
Proof.
  intros H1 H2 i n Si Hne Hf Hd. destruct (H1 i n Si Hne Hf Hd) as (Hf1 & Hd1 & Hr1).
  destruct (H2 i n Si Hne Hf1 Hd1) as (Hf2 & Hd2 & Hr2). split_and!; [done..|]. intros b v Hb. by rewrite Hr2, Hr1.
Qed.

(** Changing the length kept in an inode. *)
Lemma others_resized ino x n S : others_kept ino x S (set_nodes (<[ino := n]> (nodes x)) x) S.
Proof.
  intros i n2 S2 Hne Hf Hd.
  destruct (file_frame x (set_nodes (<[ino := n]> (nodes x)) x) i n2 S2 Hf) as [? Hr]; [|done|apply Hf|by split_and!].
  cbn. by rewrite lookup_insert_ne.
Qed.

Lemma file_resized x ino n S sz : file_ok G x ino n S →
  file_ok G (set_nodes (<[ino := Node (i_raw n) (i_blocks n) sz]> (nodes x)) x) ino (Node (i_raw n) (i_blocks n) sz) S.
Proof. intros []. split; try done. cbn. by rewrite lookup_insert_eq. Qed.

Lemma grew_count x S x' S' ino n n' : ext2_ok G x → owned G x S → grew G ino x S x' S' → nodes x !! ino = Some n →
  nodes x' !! ino = Some n' → i_blocks n = sectors_per_block G * Z.of_nat (size S) →
  i_blocks n' = sectors_per_block G * Z.of_nat (size S').
Proof.
  intros Hok Ho Hg Hn Hn' Hb. destruct (gw_node _ _ _ _ _ _ Hg n Hn) as (n0 & Hn0 & _ & _ & Hblk).
  assert (n0 = n') as -> by congruence. pose proof (sectors_facts G HG).
  pose proof (owned_size G HG _ _ (gw_ok _ _ _ _ _ _ Hg) (grew_owned G HG ino _ _ _ _ Hok Ho Hg)).
  pose proof (subseteq_size _ _ (gw_sub _ _ _ _ _ _ Hg)).
  rewrite Hblk by (rewrite Hb; apply i64_small; nia). rewrite Hb, i64_small by nia. lia.
Qed.
End reading.

(** ** The theorems *)

(** C32: On a consistent file system, blocks are found for a caller that may have them: the block
    returned was free and is not block 0, it is marked in use and no other block is, and the
    counters follow.  A caller that may not have one, because nothing is free or only what is
    reserved for another, gets block 0 and nothing changes. *)
Theorem ext2_allocate_block_exact G x euid egid preferred :
  geometry_ok G → ext2_ok G x → preferred_ok preferred x →
  wp (allocate_block G euid egid preferred)
    (λ b x', if may_allocate G x euid egid
             then b ≠ 0 ∧ block_free G x b = true ∧ ext2_ok G x' ∧ frame true x x' ∧
               s_free_blocks_count x' = s_free_blocks_count x - 1 ∧
               ∀ b', block_free G x' b' = block_free G x b' && negb (b' =? b)
             else b = EXT2_ERR_INV_BLOCK ∧ x' = x) x.
Proof.
  intros HG Hok Hp. eapply wp_mono; [by apply (wp_allocate_block G HG x Hok)|]. cbn beta. intros b x'.
  destruct (may_allocate G x euid egid); [|done]. intros [? []]. split_and!; done.
Qed.

(** The number of an inode belongs to one of the groups. *)
Lemma inode_group_ok G x ino : geometry_ok G → ext2_ok G x →
  1 <= ino <= Z.of_nat (length (block_groups x)) * inodes_per_block_group G → preferred_ok (ext2_inode_number_to_bg G ino) x.
Proof.
  intros HG Hok Hi. right. unfold ext2_inode_number_to_bg. pose proof (go_inodes _ HG). pose proof (go_first _ HG).
  destruct (eo_size _ _ Hok) as [_ Hcap]. specialize (Hcap false). cbn [per_group] in Hcap. rewrite u32_small by lia.
  split; [apply Z.div_pos; lia|]. apply Z.div_lt_upper_bound; lia.
Qed.

(** C8: Making the path to a block of a file, on a consistent file system whose blocks can be
    read and written: the block is mapped afterwards, to what it was mapped to
    before or to a block that was free, and the call says to which; the only error is that nothing
    is left to allocate, and then the block is still a hole.  The mapping of every other block of
    the file is what it was.  The inode counts exactly the blocks it has, the superblock what is
    free, and no other file is touched. *)
Theorem ext2_create_path_maps G x euid egid ino n S b :
  geometry_ok G → ext2_ok G x → file_ok G x ino n S → 0 <= b < max_blocks G →
  1 <= ino <= Z.of_nat (length (block_groups x)) * inodes_per_block_group G →
  wp (ext2_create_path G euid egid ino b)
    (λ r x', ∃ n' S', ext2_ok G x' ∧ file_ok G x' ino n' S' ∧ grew G ino x S x' S' ∧ same_inode n n' ∧
       others_kept G ino x S x' S' ∧
       (∀ b' v, 0 <= b' < max_blocks G → b' ≠ b → reads G x' ino b' v ↔ reads G x ino b' v) ∧
       match r with
       | inl v => v ≠ 0 ∧ reads G x' ino b v ∧ (reads G x ino b 0 ∨ reads G x ino b v)
       | inr e => e = - ENOSPC ∧ reads G x' ino b 0 ∧ reads G x ino b 0 ∧ may_allocate G x' euid egid = false
       end) x.
Proof.
  intros HG Hok Hf Hb Hino. pose proof (inode_group_ok G x ino HG Hok Hino) as Hp. unfold ext2_create_path.
  rewrite get_block_path_eq by done. eapply wp_mono.
  { eapply (wp_create_from_inode G HG); try done. by apply block_path_is_path. }
  intros r x' (S' & n' & fp' & Hg & Hn' & Hraw' & Hsame & Hv' & Hoth & Hr). exists n', S'.
  pose proof (fo_owned _ _ _ _ _ Hf) as Ho. pose proof (grew_owned G HG ino _ _ _ _ Hok Ho Hg) as Ho'.
  assert (Hf' : file_ok G x' ino n' S').
  { split; [done..|by exists fp'|done|]. eapply (grew_count G HG x S x'); try done; apply Hf. }
  split_and!; [apply Hg|done..|by apply (grew_others G HG)| |].
  - intros b' v Hb' Hne. rewrite (reads_iff G HG x' ino n' S'), (reads_iff G HG x ino n S), Hoth; try done.
    + by apply block_path_is_path.
    + intros Heq. by apply block_path_inj in Heq.
  - cbn zeta in Hr. destruct r; rewrite !(reads_iff G HG x' ino n' S'), !(reads_iff G HG x ino n S) by done; tauto.
Qed.

(** C20: Truncating a file that is not empty and has no block of extended attributes to nothing, on a
    consistent file system whose blocks can be read and written: the call succeeds, every block of the file is
    free afterwards and every other block is as it was, the counts of the inode and of the
    superblock follow, the file is all holes, and no other file is touched. *)
Theorem ext2_truncate_frees G x ino n S :
  geometry_ok G → ext2_ok G x → file_ok G x ino n S → get_le 4 104 (i_raw n) = Some 0 → 0 < i_size n →
  wp (ext2_truncate G ino 0)
    (λ r x', r = 0 ∧ ∃ n', ext2_ok G x' ∧ file_ok G x' ino n' ∅ ∧ i_size n' = 0 ∧ i_blocks n' = 0 ∧
       (∀ a, block_free G x' a = block_free G x a || bool_decide (a ∈ S)) ∧
       s_free_blocks_count x' = s_free_blocks_count x + Z.of_nat (size S) ∧
       (∀ b, 0 <= b < max_blocks G → reads G x' ino b 0) ∧ others_kept G ino x S x' ∅) x.
Proof.
  intros HG Hok Hf Hacl Hsz. unfold ext2_truncate. wp_step. eapply wp_get_node; [apply Hf|].
  rewrite (proj2 (Z.ltb_lt 0 _) Hsz). wp_step. eapply wp_mono; [by eapply (wp_free_space G HG)|].
  intros r x1 (-> & n1 & Hsame & Hs & Hf1). cbn [Z.ltb Z.compare]. wp_step. eapply wp_upd_node; [apply Hf1|]. wp_step.
  split; [done|]. set (n2 := Node _ _ _). set (x2 := set_nodes _ x1). exists n2.
  assert (Hf2 : file_ok G x2 ino n2 ∅) by (by apply (file_resized G x1)).
  split_and!; [apply ok_set_nodes, Hs|done|done| | | | |].
  - cbn. rewrite (fo_blocks _ _ _ _ _ Hf1), size_empty. lia.
  - intros a. trans (block_free G x1 a); [done|]. rewrite (sk_free _ _ _ _ _ _ Hs). f_equal. apply bool_decide_ext. set_solver.
  - cbn. pose proof (sk_count _ _ _ _ _ _ Hs) as Hc. rewrite size_empty in Hc. lia.
  - intros b Hb. by eapply reads_empty.
  - eapply others_kept_trans; [apply (shrank_others G HG); [apply Hf|exact Hs]|]. by apply others_resized.
Qed.

(** ** A small disk *)

Definition G0 : geometry := Geometry 0 0 0 1 1 1024 10 8 16 16 128.
Definition zeroes : list Z := replicate 1024 0.
(** Blocks 1 to 9 are in use: the bitmaps are 3 and 4, the inodes 5 and 6. *)
Definition bitmap0 : list Z := [255; 1] ++ replicate 1022 255.
(** Block 8 is a table with block 9 in it. *)
Definition table0 : list Z := [0; 0; 0; 0; 9] ++ replicate 1019 0.
Definition disk0 : gmap Z (list Z) :=
  <[3 := bitmap0]> (<[4 := bitmap0]> (<[8 := table0]> (list_to_map ((λ b, (b, zeroes)) <$> seqZ 1 16)))).
(** A file with block 7 first and block 8 for its indirect blocks. *)
Definition raw0 : list Z := replicate 40 0 ++ [7] ++ replicate 47 0 ++ [8] ++ replicate 39 0.
Definition node0 : node := Node raw0 6 (14 * 1024).
Definition x0 : ext2 := Ext2 disk0 [Bgd 3 4 5 7 7 1] 7 7 1 {[12 := node0]} 0.
Definition blocks0 : gset Z := {[7; 8; 9]}.

Lemma range_all (P : Z → bool) lo n : forallb P (seqZ lo n) = true → ∀ i, lo <= i < lo + n → P i = true.
Proof. intros H i Hi. eapply forallb_forall in H; [done|]. apply list_elem_of_In, elem_of_seqZ. lia. Qed.

Lemma G0_ok : geometry_ok G0.
Proof. split; cbn; lia. Qed.

Lemma group0 nr g : block_groups x0 !! nr = Some g → nr = O ∧ g = Bgd 3 4 5 7 7 1.
Proof. destruct nr as [|nr]; [|done]. by intros [= <-]. Qed.

Lemma free0 b : block_free G0 x0 b = true → 10 <= b < 17.
Proof.
  intros H. pose proof (free_in_range G0 G0_ok x0 b H) as Hr. cbn in Hr.
  pose proof (range_all (λ b, negb (block_free G0 x0 b) || (10 <=? b)) 1 16 ltac:(vm_compute; done) b ltac:(lia)) as Hb.
  cbn beta in Hb. rewrite H in Hb. cbn in Hb. lia.
Qed.

Lemma x0_ok : ext2_ok G0 x0.
Proof.
  assert (Hbm : ∀ a, is_bitmap x0 a → a = 3 ∨ a = 4).
  { intros a (k & nr & g & Hg & ->). apply group0 in Hg as [-> ->]. destruct k; auto. }
  assert (Htab : ∀ a, in_table G0 x0 a → 5 <= a < 7).
  { intros a (nr & g & Hg & Ha). apply group0 in Hg as [-> ->].
    replace (table_blocks G0) with 2 in Ha by done. cbn in Ha. lia. }
  split.
  - refine (bool_decide_unpack _ _). vm_compute. exact I.
  - split; [cbn; lia|]. intros []; cbn; lia.
  - intros k nr g Hg. apply group0 in Hg as [-> ->]. exists bitmap0.
    split; [by destruct k; vm_compute|]. split; [destruct k; vm_compute; done|].
    intros i Hi. apply (range_all (λ i, bit_of bitmap0 i) 16 8176); [vm_compute; done|]. destruct k; cbn in Hi; lia.
  - by intros [].
  - intros k k' nr nr' g g' Hg Hg'. apply group0 in Hg as [-> ->]. apply group0 in Hg' as [-> ->]. by destruct k, k'.
  - intros a Ha. pose proof (Htab a Ha). split_and!; [lia..| |intros Hb; apply Hbm in Hb; lia].
    assert (a = 5 ∨ a = 6) as [-> | ->] by lia; vm_compute; eauto.
  - intros a Ha. destruct (block_free G0 x0 a) eqn:Hf; [|done]. apply free0 in Hf.
    destruct Ha as [->|[Ha|Ha]]; [lia|apply Hbm in Ha; lia|apply Htab in Ha; lia].
  - intros b Hb. apply free0 in Hb.
    pose proof (range_all (λ b, bool_decide (is_Some (disk x0 !! b))) 10 7 ltac:(vm_compute; done) b ltac:(lia)) as Hd.
    by apply bool_decide_eq_true in Hd.
Qed.

Lemma table0_entry i : 0 <= i < 256 → block_entry table0 i = Some (if i =? 1 then 9 else 0).
Proof.
  intros Hi. assert (H : forallb (λ i, bool_decide (block_entry table0 i = Some (if i =? 1 then 9 else 0))) (seqZ 0 256) = true)
    by by vm_compute.
  pose proof (range_all _ 0 256 H i ltac:(lia)) as He. by apply bool_decide_eq_true in He.
Qed.

Lemma raw0_entry i : 0 <= i < 15 → raw_entry raw0 i = Some (if i =? 0 then 7 else if i =? 12 then 8 else 0).
Proof.
  intros Hi. assert (H : forallb (λ i, bool_decide (raw_entry raw0 i = Some (if i =? 0 then 7 else if i =? 12 then 8 else 0))) (seqZ 0 15) = true)
    by by vm_compute.
  pose proof (range_all _ 0 15 H i ltac:(lia)) as He. by apply bool_decide_eq_true in He.
Qed.

Lemma view0 : view G0 disk0 0 8 {[8; 9]} table0 (λ i, if i =? 1 then {[9]} else ∅).
Proof.
  split.
  - by vm_compute.
  - refine (bool_decide_unpack _ _). vm_compute. exact I.
  - intros i Hi. rewrite table0_entry by done. eexists. split; [done|]. by destruct (i =? 1).
  - intros i j _ _ Hij. destruct (Z.eqb_spec i 1), (Z.eqb_spec j 1); [lia|set_solver..].
  - intros i _. destruct (i =? 1); set_solver.
  - intros a. rewrite elem_of_union, !elem_of_singleton. split.
    + intros [->| ->]; [by left|]. right. exists 1. split; [done|]. set_solver.
    + intros [->|(i & _ & Ha)]; [by left|]. destruct (i =? 1); set_solver.
Qed.

Lemma file0_ok : file_ok G0 x0 12 node0 blocks0.
Proof.
  split.
  - done.
  - refine (bool_decide_unpack _ _). vm_compute. exact I.
  - exists (λ i, if i =? 0 then {[7]} else if i =? 12 then {[8; 9]} else ∅). split.
    + intros i Hi. cbn [i_raw node0]. rewrite raw0_entry by done. eexists. split; [done|].
      destruct (Z.eqb_spec i 0) as [->|]; [done|]. destruct (Z.eqb_spec i 12) as [->|]; [|by destruct (indirection_level i)].
      apply tree_view; [done|]. eexists _, _. exact view0.
    + intros i j _ _ Hij. destruct (Z.eqb_spec i 0), (Z.eqb_spec j 0), (Z.eqb_spec i 12), (Z.eqb_spec j 12); first [lia|set_solver].
    + intros a. unfold blocks0. rewrite !elem_of_union, !elem_of_singleton. split.
      * intros [[->| ->]| ->]; [exists 0|exists 12..]; (split; [done|set_solver]).
      * intros (i & _ & Ha). destruct (i =? 0); [set_solver|]. destruct (i =? 12); set_solver.
  - intros a Ha. unfold blocks0 in Ha. rewrite !elem_of_union, !elem_of_singleton in Ha. assert (Har : 7 <= a < 10) by lia.
    assert (Hbm : ¬ is_bitmap x0 a).
    { intros (k & nr & g & Hg & ->). apply group0 in Hg as [-> ->]. destruct k; cbn in Har; lia. }
    assert (Htab : ¬ in_table G0 x0 a).
    { intros (nr & g & Hg & Hin). apply group0 in Hg as [-> ->]. replace (table_blocks G0) with 2 in Hin by done. cbn in Hin. lia. }
    split_and!; [cbn; lia..| |lia|done|done|].
    + destruct (block_free G0 x0 a) eqn:Hf; [|done]. apply free0 in Hf. lia.
    + assert (a = 7 ∨ a = 8 ∨ a = 9) as [->|[->| ->]] by lia; vm_compute; eauto.
  - done.
Qed.

Lemma max_blocks0 : max_blocks G0 = 16843020.
Proof. by vm_compute. Qed.

Lemma ext2_allocate_block_exact_witness :
  wp (allocate_block G0 0 0 (u32 (-1))) (λ b x', b ≠ 0 ∧ block_free G0 x0 b = true ∧ block_free G0 x' b = false) x0.
Proof.
  eapply wp_mono; [apply (ext2_allocate_block_exact G0 x0 0 0 (u32 (-1)) G0_ok x0_ok); by left|].
  cbn beta. change (may_allocate G0 x0 0 0) with true. intros b x' (? & Hf & _ & _ & _ & Hall).
  split_and!; [done..|]. rewrite Hall, Hf, Z.eqb_refl. done.
Defined.

Lemma ext2_create_path_maps_witness :
  wp (ext2_create_path G0 0 0 12 300) (λ r x', ∃ n' S', file_ok G0 x' 12 n' S' ∧ reads G0 x' 12 13 9) x0.
Proof.
  eapply wp_mono; [apply (ext2_create_path_maps G0 x0 0 0 12 node0 blocks0 300 G0_ok x0_ok file0_ok); [rewrite max_blocks0; lia|cbn; lia]|].
  cbn beta. intros r x' (n' & S' & _ & Hf & _ & _ & _ & Hoth & _). exists n', S'. split; [done|].
  apply Hoth; [rewrite max_blocks0; lia|done|]. vm_compute. reflexivity.
Defined.

Lemma ext2_truncate_frees_witness :
  wp (ext2_truncate G0 12 0) (λ r x', r = 0 ∧ s_free_blocks_count x' = 10 ∧ block_free G0 x' 9 = true) x0.
Proof.
  eapply wp_mono; [apply (ext2_truncate_frees G0 x0 12 node0 blocks0 G0_ok x0_ok file0_ok); [by vm_compute|cbn; lia]|].
  cbn beta. intros r x' (-> & n' & _ & _ & _ & _ & Hfree & Hcount & _). split_and!; [done| |].
  - rewrite Hcount. by vm_compute.
  - rewrite Hfree. apply orb_true_iff. right. by vm_compute.
Defined.

(** Where the last block to keep is the first of a table, the walk stops before that table, and the
    blocks behind it stay allocated and mapped: here block 13 of a file cut to thirteen blocks. *)
Lemma truncate_keeps_table : ∃ x', ext2_truncate G0 12 (13 * 1024) x0 = Done (0, x') ∧
  s_free_blocks_count x' = s_free_blocks_count x0 ∧ reads G0 x' 12 13 9.
Proof. eexists. split; [vm_compute; reflexivity|]. split; vm_compute; reflexivity. Qed.
