(* ===== verification/FileCache.v ===== *)
(** * FileCache: files through the page cache

    [file_read_cache] and [file_write_cache_unlocked] of [kernel/fs/inode.cpp] with the pages
    they work on: the object of an inode is a map from offsets to cached pages, filled on demand
    by [vmo_inode_commit] of [kernel/fs/vfs.cpp].  [VmObject] models such objects themselves. *)

From S2P Require Import Prelude Abi Bits.

Definition FILE_PAGE_SIZE : Z := 4096.

(** A cached page: its bytes, how many of them are the file's, and whether it is to be written
    back. *)
Record page_cache_block := CacheBlock {
  cb_buffer : list Z;
  cb_size : Z;
  cb_dirty : bool }.

(** An inode with the object that holds its pages. *)
Record fcache := FCache {
  pages : gmap Z page_cache_block;
  vmo_size : Z;
  i_size : Z;
  i_dirty : bool;
  f_errno : Z }.

Definition set_pages p (c : fcache) := FCache p (vmo_size c) (i_size c) (i_dirty c) (f_errno c).
Definition set_vmo_size n (c : fcache) := FCache (pages c) n (i_size c) (i_dirty c) (f_errno c).
Definition set_f_errno e (c : fcache) := FCache (pages c) (vmo_size c) (i_size c) (i_dirty c) e.

Definition put_block (off : Z) (b : page_cache_block) : M fcache unit :=
  modify (λ c, set_pages (<[off := b]> (pages c)) c).

Definition align_up (n : Z) : Z := Z.land (u64 (n + FILE_PAGE_SIZE - 1)) (u64 (- FILE_PAGE_SIZE)).

Definition inode_set_size (size : Z) : M fcache unit :=
  modify (λ c, FCache (pages c) (align_up size) size true (f_errno c)).

Inductive vmo_result := VMO_OK (b : page_cache_block) | VMO_BUS_ERROR | VMO_OUT_OF_MEM.
Definition vmo_status_to_errno (st : vmo_result) : Z :=
  match st with VMO_OK _ => 0 | VMO_BUS_ERROR => EIO | VMO_OUT_OF_MEM => ENOMEM end.

Section cache.
(** The file system: reading a page, given the length of the file, returns how much could be read
    (or an error) and the bytes; preparing a write of a part of a page returns a status. *)
Context (readpage : Z → Z → Z * list Z) (prepare_write : Z → Z → Z → Z).
(** Is there memory for the page at an offset?  Can the caller's buffer be accessed there? *)
Context (alloc : Z → bool) (access : Z → bool).

Definition zero_rest_of_page (data : list Z) (to_read : Z) : list Z :=
  take (Z.to_nat to_read) data ++ replicate (Z.to_nat (FILE_PAGE_SIZE - to_read)) 0.

Definition vmo_inode_commit (off : Z) : M fcache vmo_result :=
  if negb (alloc off) then mret VMO_OUT_OF_MEM
  else
    size ← gets i_size;
    let left := u64 (size - off) in
    let to_read := if left <? FILE_PAGE_SIZE then left else FILE_PAGE_SIZE in
    let '(read, data) := readpage off size in
    if read <? to_read then mret VMO_BUS_ERROR
    else mret (VMO_OK (CacheBlock (zero_rest_of_page data to_read) read false)).

(** [vmo_get] with [VMO_GET_MAY_POPULATE], for an object that is no copy of another. *)
Definition vmo_get_page (off : Z) : M fcache vmo_result :=
  size ← gets vmo_size;
  if size <=? off then mret VMO_BUS_ERROR
  else
    o ← gets (λ c, pages c !! off);
    match o with
    | Some b => mret (VMO_OK b)
    | None =>
        st ← vmo_inode_commit off;
        match st with VMO_OK b => put_block off b;; mret st | _ => mret st end
    end.

Definition zero_page : list Z := replicate (Z.to_nat FILE_PAGE_SIZE) 0.

(** [write] is [FILE_CACHING_WRITE]. *)
Definition inode_get_cache_block (off : Z) (write : bool) : M fcache (option page_cache_block) :=
  size ← gets vmo_size;
  if write && (size <=? off) then
    check (Z.land off (FILE_PAGE_SIZE - 1) =? 0) AssertFailed;;
    modify (set_vmo_size (align_up (off + 1)));;
    size ← gets vmo_size;
    check (off <? size) AssertFailed;;
    if negb (alloc off) then mret None
    else
      o ← gets (λ c, pages c !! off);
      match o with
      | Some _ => mret None
      | None => let b := CacheBlock zero_page FILE_PAGE_SIZE false in put_block off b;; mret (Some b)
      end
  else
    st ← vmo_get_page off;
    match st with
    | VMO_OK b => mret (Some b)
    | st => modify (set_f_errno (vmo_status_to_errno st));; mret None
    end.

Definition inode_get_page (offset : Z) (write : bool) : M fcache (option page_cache_block) :=
  inode_get_cache_block (Z.land offset (u64 (- FILE_PAGE_SIZE))) write.

(** Overwriting part of a page. *)
Definition copy_into (data : list Z) (off : Z) (bytes : list Z) : list Z :=
  take (Z.to_nat off) data ++ bytes ++ drop (Z.to_nat off + length bytes) data.

(** The loop, with what is left of the buffer; the result is a count or an error. *)
Fixpoint write_cache_loop (fuel : nat) (buffer : list Z) (offset wrote : Z) : M fcache Z :=
  match fuel with
  | O => crash OutOfFuel
  | S fuel =>
      if Z.of_nat (length buffer) =? 0 then mret wrote
      else
        cache ← inode_get_page offset true;
        match cache with
        | None => e ← gets f_errno; mret (if wrote =? 0 then - e else wrote)
        | Some cache =>
            let cache_off := Z.land offset (FILE_PAGE_SIZE - 1) in
            let rest := FILE_PAGE_SIZE - cache_off in
            let len := Z.of_nat (length buffer) in
            let amount := if len <? rest then len else rest in
            let aligned_off := Z.land offset (u64 (- FILE_PAGE_SIZE)) in
            let st := prepare_write aligned_off cache_off amount in
            if st <? 0 then mret st
            else if negb (access wrote) then mret (- EFAULT)
            else
              put_block aligned_off
                (CacheBlock (copy_into (cb_buffer cache) cache_off (take (Z.to_nat amount) buffer))
                   (Z.max (cb_size cache) (cache_off + amount)) true);;
              size ← gets i_size;
              (if size <? offset + amount then inode_set_size (offset + amount) else mret tt);;
              write_cache_loop fuel (drop (Z.to_nat amount) buffer) (offset + amount) (wrote + amount)
        end
  end.

Definition cache_fuel (len : Z) : nat := S (S (Z.to_nat (len / FILE_PAGE_SIZE + 1))).

Definition file_write_cache_unlocked (buffer : list Z) (offset : Z) : M fcache Z :=
  write_cache_loop (cache_fuel (Z.of_nat (length buffer))) buffer offset 0.

(** The result is a count, or -1 with [errno] set, and the bytes read. *)
Fixpoint read_cache_loop (fuel : nat) (len offset : Z) (acc : list Z) : M fcache (Z * list Z) :=
  match fuel with
  | O => crash OutOfFuel
  | S fuel =>
      let read := Z.of_nat (length acc) in
      if read =? len then mret (read, acc)
      else
        cache ← inode_get_page offset false;
        match cache with
        | None => mret (if read =? 0 then -1 else read, acc)
        | Some cache =>
            let cache_off := offset mod FILE_PAGE_SIZE in
            let rest := FILE_PAGE_SIZE - cache_off in
            check (0 <? rest) AssertFailed;;
            let amount := if len - read <? rest then len - read else rest in
            size ← gets i_size;
            let last := size <? offset + amount in
            let amount := if last then size - offset else amount in
            if negb (access read) then modify (set_f_errno EFAULT);; mret (-1, acc)
            else
              let bytes := take (Z.to_nat amount) (drop (Z.to_nat cache_off) (cb_buffer cache)) in
              if last then mret (read + amount, acc ++ bytes)
              else read_cache_loop fuel len (offset + amount) (acc ++ bytes)
        end
  end.

Definition file_read_cache (len offset : Z) : M fcache (Z * list Z) :=
  size ← gets i_size;
  if size <=? offset then mret (0, []) else read_cache_loop (cache_fuel len) len offset [].
End cache.
