(* ===== verification/FileCacheProps.v ===== *)
(** * FileCacheProps: the page cache shows the file

    Reading and writing through the page cache, page by page and with pages filled on demand, is
    reading and writing a string of bytes. *)

From S2P Require Import Prelude Abi Bits FileCache.

Abbreviation P := FILE_PAGE_SIZE.

Lemma mod_page x : Z.land x (P - 1) = x mod 4096.
Proof. apply land_low_page. Qed.

Lemma page_of_off x : 0 <= x < 2 ^ 64 → Z.land x (u64 (- P)) = x - x mod 4096.
Proof. change (u64 (- P)) with (2 ^ 64 - 4096). apply land_page_mask. Qed.

Lemma align_up_bounds n : 0 <= n < 2 ^ 63 → n <= align_up n < n + 4096 ∧ align_up n mod 4096 = 0.
Proof.
  intros Hn. unfold align_up. rewrite (u64_small (n + P - 1)) by (unfold P, is_u64; lia). rewrite page_of_off by (unfold P; lia).
  unfold P. Z.to_euclidean_division_equations; lia.
Qed.

Lemma pages_apart p q : p mod 4096 = 0 → q mod 4096 = 0 → p ≠ q → p + 4096 <= q ∨ q + 4096 <= p.
Proof. intros. Z.to_euclidean_division_equations; lia. Qed.

Lemma align_up_last i n : 0 <= i < n → n < 2 ^ 63 →
  i - i mod 4096 + 4096 <= align_up n <= n - n mod 4096 + 4096.
Proof. intros Hi Hn. destruct (align_up_bounds n) as [Hb Hm]; [lia|]. Z.to_euclidean_division_equations; lia. Qed.

Lemma page_facts offset : 0 <= offset → let p := offset - offset mod 4096 in p mod 4096 = 0 ∧ 0 <= p ∧ p <= offset < p + 4096.
Proof. intros. unfold p. Z.to_euclidean_division_equations; lia. Qed.

(** Overwriting the bytes of a file from an offset on, past the end too. *)
Abbreviation splice := copy_into.

Lemma splice_nil l off : splice l off [] = l.
Proof. unfold copy_into. cbn. by rewrite Nat.add_0_r, take_drop. Qed.

Lemma length_splice l off bytes : 0 <= off <= Z.of_nat (length l) →
  length (splice l off bytes) = (length l `max` (Z.to_nat off + length bytes))%nat.
Proof. intros H. unfold copy_into. rewrite !length_app, length_take, length_drop. lia. Qed.

Lemma lookup_splice l off bytes (i : nat) : 0 <= off <= Z.of_nat (length l) →
  splice l off bytes !! i = if decide (Z.of_nat i < off) then l !! i
    else if decide (Z.of_nat i < off + Z.of_nat (length bytes)) then bytes !! (i - Z.to_nat off)%nat else l !! i.
Proof.
  intros H. unfold copy_into. assert (Ht : length (take (Z.to_nat off) l) = Z.to_nat off) by (rewrite length_take; lia).
  case_decide; [rewrite lookup_app_l, lookup_take_lt by lia; done|]. rewrite lookup_app_r, Ht by lia.
  case_decide; [by rewrite lookup_app_l by lia|]. rewrite lookup_app_r, lookup_drop by lia. f_equal. lia.
Qed.

Lemma splice_splice l off a b : 0 <= off <= Z.of_nat (length l) →
  splice (splice l off a) (off + Z.of_nat (length a)) b = splice l off (a ++ b).
Proof.
  intros H. apply list_eq. intros i. pose proof (length_splice l off a H).
  rewrite !lookup_splice by lia. rewrite length_app, Nat2Z.inj_add.
  repeat case_decide; try lia; try done.
  - by rewrite lookup_app_l by lia.
  - rewrite lookup_app_r by lia. f_equal. lia.
Qed.

Section cache.
Context (readpage : Z → Z → Z * list Z) (prepare_write : Z → Z → Z → Z).
Context (alloc : Z → bool) (access : Z → bool).
(** What the file system has of the file. *)
Context (store : Z → Z).

(** The bytes of [l] are what the cache and, where a page is missing, the file system show. *)
Record shows (c : fcache) (l : list Z) : Prop := {
  sh_len : Z.of_nat (length l) = i_size c;
  sh_size : i_size c <= vmo_size c <= i_size c - i_size c mod 4096 + 4096;
  sh_max : vmo_size c <= 2 ^ 62;
  sh_errno : 0 <= f_errno c;
  sh_pages : ∀ off b, pages c !! off = Some b → off mod 4096 = 0 ∧ 0 <= off < vmo_size c ∧
    length (cb_buffer b) = 4096%nat ∧
    ∀ i : nat, (i < 4096)%nat → off + Z.of_nat i < i_size c → cb_buffer b !! i = l !! (Z.to_nat off + i)%nat;
  sh_absent : ∀ off, off mod 4096 = 0 → 0 <= off → pages c !! off = None →
    ∀ i : nat, (i < 4096)%nat → off + Z.of_nat i < i_size c → l !! (Z.to_nat off + i)%nat = Some (store (off + Z.of_nat i)) }.

(** Reading a page gives the bytes of the file. *)
Definition reads_store : Prop := ∀ off size, off mod 4096 = 0 → 0 <= off → 
  let '(read, data) := readpage off size in
  length data = 4096%nat ∧ (off < size → Z.min 4096 (size - off) <= read ∧
    ∀ i : nat, (i < 4096)%nat → off + Z.of_nat i < size → data !! i = Some (store (off + Z.of_nat i))).
Context (Hstore : reads_store).

Lemma length_zero_rest data n : length data = 4096%nat → 0 <= n <= 4096 → length (zero_rest_of_page data n) = 4096%nat.
Proof. intros Hd Hn. unfold zero_rest_of_page, P. rewrite length_app, length_take, length_replicate. lia. Qed.

Lemma lookup_zero_rest data n (i : nat) : length data = 4096%nat → Z.of_nat i < n <= 4096 →
  zero_rest_of_page data n !! i = data !! i.
Proof. intros Hd Hn. unfold zero_rest_of_page. rewrite lookup_app_l by (rewrite length_take; lia). by rewrite lookup_take_lt by lia. Qed.

(** Adding a page that agrees with the file. *)
Lemma shows_put c l off b : shows c l → off mod 4096 = 0 → 0 <= off < vmo_size c → length (cb_buffer b) = 4096%nat →
  (∀ i : nat, (i < 4096)%nat → off + Z.of_nat i < i_size c → cb_buffer b !! i = l !! (Z.to_nat off + i)%nat) →
  shows (set_pages (<[off := b]> (pages c)) c) l.
Proof.
  intros [] Hm Hoff Hb Hag. split; cbn; try done.
  - intros off' b' [[<- <-]|[Hne Hl]]%lookup_insert_Some; [done|by apply sh_pages0].
  - intros off' Hm' H0 [? ?]%lookup_insert_None. by apply sh_absent0.
Qed.

Lemma shows_errno c l e : shows c l → 0 <= e → shows (set_f_errno e c) l.
Proof. intros [] He. by split. Qed.

(** A page is found or read in. *)
Lemma wp_vmo_get_page c l off : shows c l → off mod 4096 = 0 → 0 <= off →
  wp (vmo_get_page readpage alloc off) (λ r c', i_size c' = i_size c ∧ vmo_size c' = vmo_size c ∧ shows c' l ∧
    (∀ q, q ≠ off → pages c' !! q = pages c !! q) ∧
    match r with
    | VMO_OK b => pages c' !! off = Some b
    | _ => pages c !! off = None ∧ (alloc off = false ∨ i_size c <= off)
    end) c.
Proof.
  intros Hs Hm Hoff. unfold vmo_get_page. do 2 wp_step. destruct (Z.leb_spec (vmo_size c) off).
  { wp_step. split_and!; try done; [|right; pose proof (sh_size _ _ Hs); lia].
    destruct (pages c !! off) as [b|] eqn:Hb; [|done]. apply (sh_pages _ _ Hs) in Hb as (_ & ? & _). lia. }
  do 2 wp_step. destruct (pages c !! off) as [b|] eqn:Hb; [by wp_step|]. wp_step. unfold vmo_inode_commit.
  destruct (alloc off) eqn:Ha; cbn [negb]; [|by do 2 wp_step; split_and!; auto].
  do 2 wp_step. pose proof (Hstore off (i_size c) Hm Hoff) as Hr. destruct (readpage off (i_size c)) as [read data].
  destruct Hr as [Hlen Hr]. pose proof (sh_size _ _ Hs) as Hsz. pose proof (sh_max _ _ Hs). pose proof (sh_len _ _ Hs) as Hll.
  set (left_ := u64 (i_size c - off)). set (to_read := if left_ <? P then left_ else P).
  assert (Hleft : off <= i_size c → left_ = i_size c - off) by (intros; apply u64_small; unfold is_u64; lia).
  assert (Htr : 0 <= to_read <= 4096) by
    (pose proof (u64_range (i_size c - off)); unfold is_u64, to_read, left_, P in *; destruct (Z.ltb_spec (u64 (i_size c - off)) 4096); lia).
  destruct (Z.ltb_spec read to_read) as [Hlt|Hge].
  { do 2 wp_step. split_and!; try done. right. destruct (decide (off < i_size c)) as [Hin|]; [|lia].
    destruct (Hr Hin) as [Hmin _]. unfold to_read, P in Hlt. rewrite Hleft in Hlt by lia.
    destruct (Z.ltb_spec (i_size c - off) 4096); lia. }
  wp_steps. unfold put_block. wp_steps. cbn [i_size vmo_size set_pages pages].
  split_and!; [done..| | |by rewrite lookup_insert_eq]; [|intros q Hq; by rewrite lookup_insert_ne].
  apply shows_put; [done..|lia|by apply length_zero_rest|]. cbn [cb_buffer].
  intros i Hi Hin. destruct (Hr ltac:(lia)) as [_ Hd]. rewrite lookup_zero_rest, Hd; try done; try lia.
  - symmetry. by apply (sh_absent _ _ Hs).
  - unfold to_read, P. rewrite Hleft by lia. destruct (Z.ltb_spec (i_size c - off) 4096); lia.
Qed.

(** No page is missing behind the end of the file. *)
Definition no_gap (c : fcache) : Prop :=
  ∀ off, off mod 4096 = 0 → i_size c <= off < vmo_size c → is_Some (pages c !! off).

Lemma wp_get_page_read c l offset : shows c l → 0 <= offset < 2 ^ 62 →
  wp (inode_get_page readpage alloc offset false) (λ r c', shows c' l ∧ (no_gap c → no_gap c') ∧
    let p := offset - offset mod 4096 in
    match r with Some b => pages c' !! p = Some b | None => alloc p = false ∨ i_size c <= p end) c.
Proof.
  intros Hs Hoff. unfold inode_get_page. rewrite page_of_off by lia. set (p := offset - offset mod 4096).
  unfold inode_get_cache_block. do 2 wp_step. cbn [andb]. wp_step.
  assert (p mod 4096 = 0 ∧ 0 <= p) as [Hpm Hp0] by (unfold p; Z.to_euclidean_division_equations; lia).
  eapply wp_mono; [by apply (wp_vmo_get_page c l p)|]. cbn beta. intros r c' (Hi & Hv & Hs' & Hq & Hr).
  assert (Hgap : no_gap c → no_gap c').
  { intros Hg q Hqm Hqr. rewrite Hi, Hv in Hqr. destruct (Hg q Hqm Hqr) as [b Hb]. destruct (decide (q = p)) as [->|Hne]; [|by rewrite Hq; eauto].
    destruct r; [by eexists|destruct Hr as [Hr _]; congruence..]. }
  destruct r; wp_steps; try done; (split_and!; [apply shows_errno; [done|cbn; unfold EIO, ENOMEM; lia]|done|by destruct Hr]).
Qed.

Lemma wp_get_page_write c l offset : shows c l → 0 <= offset <= i_size c → i_size c < 2 ^ 61 →
  wp (inode_get_page readpage alloc offset true) (λ r c', shows c' l ∧ i_size c' = i_size c ∧
    let p := offset - offset mod 4096 in
    match r with
    | Some b => pages c' !! p = Some b ∧ (no_gap c → no_gap c')
    | None => no_gap c → alloc p = false
    end) c.
Proof.
  intros Hs Hoff Hmax. unfold inode_get_page. rewrite page_of_off by lia. set (p := offset - offset mod 4096).
  pose proof (sh_size _ _ Hs) as Hsz. pose proof (sh_max _ _ Hs).
  assert (p mod 4096 = 0 ∧ 0 <= p ∧ p <= offset) as (Hpm & Hp0 & Hpo) by (unfold p; Z.to_euclidean_division_equations; lia).
  unfold inode_get_cache_block. do 2 wp_step. destruct (Z.leb_spec (vmo_size c) p) as [Hbig|Hin]; cbn [andb].
  - assert (p = i_size c ∧ vmo_size c = p) as [Hpi Hvp] by lia.
    destruct (align_up_bounds (p + 1)) as [Hab Ham]; [lia|].
    assert (Hau : align_up (p + 1) = p + 4096) by (Z.to_euclidean_division_equations; lia).
    assert (Hno : pages c !! p = None).
    { destruct (pages c !! p) as [b|] eqn:Hb; [|done]. apply (sh_pages _ _ Hs) in Hb as (_ & ? & _). lia. }
    assert (Hs1 : shows (set_vmo_size (p + 4096) c) l).
    { destruct Hs. split; cbn; try done; [rewrite Hpi in *; lia|lia|]. intros off b Hb.
      destruct (sh_pages0 off b Hb) as (? & ? & ? & ?). split_and!; [done|lia..|done]. }
    do 2 wp_step; [rewrite mod_page; lia|]. do 2 wp_step. rewrite Hau. do 2 wp_step. cbn [vmo_size set_vmo_size]. wp_step. wp_step; [lia|].
    destruct (alloc p) eqn:Ha; cbn [negb]; [|by wp_step; split_and!; auto].
    do 2 wp_step. cbn [pages set_vmo_size]. rewrite Hno. unfold put_block. wp_steps.
    cbn [pages set_vmo_size set_pages i_size vmo_size]. split_and!; [|done|by rewrite lookup_insert_eq|].
    + apply (shows_put (set_vmo_size (p + 4096) c)); [done..|cbn; lia|done|]. intros i Hi. cbn. lia.
    + intros Hgap q Hqm Hqr. cbn in Hqr. cbn. destruct (decide (q = p)) as [->|Hqp]; [by rewrite lookup_insert_eq; eexists|].
      pose proof (pages_apart q p Hqm Hpm Hqp). lia.
  - wp_step. eapply wp_mono; [by apply (wp_vmo_get_page c l p)|]. cbn beta. intros r c' (Hi & Hv & Hs' & Hq & Hr).
    assert (Hfail : ∀ st, pages c !! p = None ∧ (alloc p = false ∨ i_size c <= p) → 0 <= vmo_status_to_errno st →
      wp (modify (set_f_errno (vmo_status_to_errno st));; mret None) (λ r c', shows c' l ∧ i_size c' = i_size c ∧
        match r with
        | Some b => pages c' !! p = Some b ∧ (no_gap c → no_gap c')
        | None => no_gap c → alloc p = false
        end) c').
    { intros st [Hno Hor] He. wp_steps. split_and!; [by apply shows_errno|done|]. intros Hgap.
      destruct Hor as [|Hle]; [done|]. destruct (Hgap p) as [b Hb]; [lia..|]. congruence. }
    destruct r; [|by apply Hfail; [|cbn; unfold EIO; lia]|by apply Hfail; [|cbn; unfold ENOMEM; lia]].
    wp_step. split_and!; [done..|]. intros Hgap q Hqm Hqr. destruct (decide (q = p)) as [->|Hqp]; [by eexists|].
    rewrite Hq by done. apply Hgap; [done|lia].
Qed.

(** A chunk has been copied into its page, and the file has grown if it must. *)
Definition written (c : fcache) (p : Z) (b : page_cache_block) (offset : Z) (bytes : list Z) : fcache :=
  let n := offset + Z.of_nat (length bytes) in
  let c1 := set_pages (<[p := b]> (pages c)) c in
  if i_size c <? n then FCache (pages c1) (align_up n) n true (f_errno c) else c1.

Lemma shows_written c l b b' offset bytes : let p := offset - offset mod 4096 in
  shows c l → pages c !! p = Some b → 0 <= offset <= i_size c → bytes ≠ [] →
  offset mod 4096 + Z.of_nat (length bytes) <= 4096 → offset + Z.of_nat (length bytes) < 2 ^ 61 →
  cb_buffer b' = splice (cb_buffer b) (offset mod 4096) bytes →
  shows (written c p b' offset bytes) (splice l offset bytes).
Proof.
  intros p Hs Hb Hoff Hne Hfit Hmax Hb'. destruct (sh_pages _ _ Hs p b Hb) as (Hpm & Hpr & Hlen & Hag).
  pose proof (sh_len _ _ Hs) as Hl. pose proof (sh_size _ _ Hs) as Hsz. pose proof (sh_max _ _ Hs).
  assert (Hn : (0 < length bytes)%nat) by (destruct bytes; [done|cbn; lia]).
  set (n := offset + Z.of_nat (length bytes)) in *. pose proof (Z.mod_pos_bound offset 4096 ltac:(lia)) as Hmo.
  set (size' := Z.max (i_size c) n).
  assert (Hlen' : Z.of_nat (length (splice l offset bytes)) = size') by (rewrite length_splice; lia).
  assert (Hoc : 0 <= offset mod 4096 <= Z.of_nat (length (cb_buffer b))) by lia.
  assert (Hol : 0 <= offset <= Z.of_nat (length l)) by lia.
  (* bytes of the file outside of the chunk *)
  assert (Hout : ∀ i, Z.of_nat i < i_size c → Z.of_nat i < offset ∨ n <= Z.of_nat i → splice l offset bytes !! i = l !! i).
  { intros i Hi Hor. rewrite lookup_splice by done. repeat case_decide; try done. lia. }
  assert (Hpages : ∀ off b0, <[p := b']> (pages c) !! off = Some b0 → off mod 4096 = 0 ∧ 0 <= off < vmo_size c ∧
    length (cb_buffer b0) = 4096%nat ∧
    ∀ i : nat, (i < 4096)%nat → off + Z.of_nat i < size' → cb_buffer b0 !! i = splice l offset bytes !! (Z.to_nat off + i)%nat).
  { intros off b0 [[<- <-]|[Hne' Hb0]]%lookup_insert_Some.
    - split_and!; [done|lia..|rewrite Hb', length_splice; lia|]. intros i Hi Hin. rewrite Hb', !lookup_splice by done.
      assert (p = offset - offset mod 4096) by done. repeat case_decide; try lia.
      + apply Hag; lia.
      + f_equal. lia.
      + apply Hag; lia.
    - destruct (sh_pages _ _ Hs off b0 Hb0) as (Hom & Hor & Hol0 & Hag0). split_and!; [done|lia..|done|].
      intros i Hi Hin. pose proof (pages_apart off p Hom Hpm ltac:(congruence)).
      assert (off + Z.of_nat i < i_size c) by (unfold p, size' in *; lia).
      rewrite Hout by (unfold p in *; lia). by apply Hag0. }
  assert (Habsent : ∀ off, off mod 4096 = 0 → 0 <= off → <[p := b']> (pages c) !! off = None →
    ∀ i : nat, (i < 4096)%nat → off + Z.of_nat i < size' →
    splice l offset bytes !! (Z.to_nat off + i)%nat = Some (store (off + Z.of_nat i))).
  { intros off Hom Ho0 [Hno Hne']%lookup_insert_None i Hi Hin.
    pose proof (pages_apart off p Hom Hpm ltac:(congruence)).
    assert (off + Z.of_nat i < i_size c) by (unfold p, size' in *; lia).
    rewrite Hout by (unfold p in *; lia). by apply (sh_absent _ _ Hs). }
  unfold written. fold n. destruct (Z.ltb_spec (i_size c) n) as [Hgrow|Hin].
  - assert (size' = n) as Es by lia. rewrite Es in *. destruct (align_up_bounds n) as [Hau _]; [lia|].
    pose proof (align_up_last (i_size c) n ltac:(lia) ltac:(lia)).
    split; cbn [i_size vmo_size f_errno pages set_pages]; [done|lia|lia|apply Hs| |done].
    intros off b0 Hb0. destruct (Hpages off b0 Hb0) as (? & ? & ? & ?). split_and!; [done|lia..|done].
  - assert (size' = i_size c) as Es by lia. rewrite Es in *. split; cbn [i_size vmo_size f_errno pages set_pages]; done || apply Hs.
Qed.

Lemma no_gap_written c b p offset bytes : no_gap c →
  0 <= offset + Z.of_nat (length bytes) < 2 ^ 61 → no_gap (written c p b offset bytes).
Proof.
  intros Hgap Hn. unfold written. set (n := offset + _) in *. destruct (Z.ltb_spec (i_size c) n); intros q Hq Hr; cbn in *.
  - destruct (align_up_bounds n) as [Hau Ham]; [lia|]. destruct (decide (q = align_up n)); [lia|].
    pose proof (pages_apart q (align_up n) Hq Ham). lia.
  - destruct (decide (q = p)) as [->|]; [rewrite lookup_insert_eq; by eexists|]. rewrite lookup_insert_ne by done. by apply Hgap.
Qed.

(** There is memory, and the buffer can be accessed; the file system has room. *)
Definition supplied : Prop := (∀ off, alloc off = true) ∧ ∀ n, access n = true.
Definition has_room : Prop := ∀ a b n, 0 <= prepare_write a b n.

(** The turns a loop takes. *)
Definition turns (offset len : Z) : Z := if len =? 0 then 1 else 2 + (offset mod 4096 + len - 1) / 4096.

Lemma turns_pos offset len : 0 <= len → 1 <= turns offset len.
Proof.
  intros Hl. unfold turns. destruct (Z.eqb_spec len 0); [lia|]. pose proof (Z.mod_pos_bound offset 4096 ltac:(lia)).
  assert (0 <= (offset mod 4096 + len - 1) / 4096) by (apply Z.div_pos; lia). lia.
Qed.

Lemma turns_step offset len amount : 0 <= offset → 0 < amount → amount = Z.min len (4096 - offset mod 4096) →
  turns (offset + amount) (len - amount) + 1 <= turns offset len.
Proof.
  intros Ho Ha ->. unfold turns. pose proof (Z.mod_pos_bound offset 4096 ltac:(lia)).
  destruct (Z.eqb_spec len 0); [lia|]. destruct (Z.eqb_spec (len - Z.min len (4096 - offset mod 4096)) 0).
  - assert (0 <= (offset mod 4096 + len - 1) / 4096) by (apply Z.div_pos; lia). lia.
  - rewrite Z.min_r in * by lia. assert ((offset + (4096 - offset mod 4096)) mod 4096 = 0) as ->.
    { pose proof (page_facts offset Ho) as [Hp _]. cbn zeta in Hp.
      replace (offset + (4096 - offset mod 4096)) with ((offset - offset mod 4096) + 1 * 4096) by lia. by rewrite Z.mod_add. }
    replace (offset mod 4096 + len - 1) with ((0 + (len - (4096 - offset mod 4096)) - 1) + 1 * 4096) by lia.
    rewrite Z.div_add by lia. lia.
Qed.

Lemma turns_fuel offset len : 0 <= len → turns offset len <= Z.of_nat (cache_fuel len).
Proof.
  intros Hl. unfold turns, cache_fuel, P. pose proof (Z.mod_pos_bound offset 4096 ltac:(lia)).
  assert (0 <= len / 4096) by (apply Z.div_pos; lia). destruct (Z.eqb_spec len 0); [lia|].
  assert ((offset mod 4096 + len - 1) / 4096 <= len / 4096 + 1); [|lia].
  replace (len / 4096 + 1) with ((len + 1 * 4096) / 4096) by (rewrite Z.div_add; lia). apply Z.div_le_mono; lia.
Qed.

(** ** Writing *)

(** What a write that returned [r] has done: the first [k] bytes of the buffer are in the file. *)
Definition wrote_some (c : fcache) (l buffer : list Z) (offset wrote r : Z) (c' : fcache) : Prop :=
  ∃ k, (k <= length buffer)%nat ∧ (0 <= r → r = wrote + Z.of_nat k) ∧ shows c' (splice l offset (take k buffer)) ∧
    (offset mod 4096 + Z.of_nat (length buffer) <= 4096 → r < 0 → k = O ∧ buffer ≠ []) ∧
    (supplied → no_gap c → no_gap c' ∧ (0 <= r → k = length buffer) ∧ (has_room → 0 <= r)).

Lemma wrote_nothing c l buffer offset wrote r c' : buffer ≠ [] → shows c' l → (0 <= r → r = wrote) →
  (supplied → no_gap c → no_gap c' ∧ r < 0 ∧ ¬ has_room) → wrote_some c l buffer offset wrote r c'.
Proof.
  intros Hne Hs Hr Hb. exists O. split_and!; [lia|lia|by rewrite take_0, splice_nil|done|]. intros H1 H2.
  destruct (Hb H1 H2) as (? & ? & ?). split_and!; [done|lia|done].
Qed.

Lemma wp_write_loop fuel c l buffer offset wrote : shows c l → 0 <= offset <= i_size c → i_size c < 2 ^ 61 →
  offset + Z.of_nat (length buffer) < 2 ^ 61 → 0 <= wrote → turns offset (Z.of_nat (length buffer)) <= Z.of_nat fuel →
  wp (write_cache_loop readpage prepare_write alloc access fuel buffer offset wrote) (wrote_some c l buffer offset wrote) c.
Proof.
  revert c l buffer offset wrote. induction fuel as [|fuel IH]; intros c l buffer offset wrote Hs Hoff Hmax Hfit Hw Hfuel.
  { pose proof (turns_pos offset (Z.of_nat (length buffer)) ltac:(lia)). lia. }
  cbn [write_cache_loop]. destruct (Z.eqb_spec (Z.of_nat (length buffer)) 0) as [H0|H0].
  { wp_step. destruct buffer; [|done]. exists O. cbn [length take]. rewrite splice_nil. split_and!; try done; lia. }
  assert (Hbne : buffer ≠ []) by (by intros ->).
  wp_step. eapply wp_mono; [by apply (wp_get_page_write c l offset)|]. cbn beta zeta.
  set (p := offset - offset mod 4096). intros r c1 (Hs1 & Hi1 & Hr). destruct r as [b|].
  2:{ do 3 wp_step. pose proof (sh_errno _ _ Hs1). apply wrote_nothing; [done|done| |].
      - destruct (Z.eqb_spec wrote 0); lia.
      - intros (Ha & _) Hgap. by rewrite Ha in Hr; specialize (Hr Hgap). }
  destruct Hr as [Hb Hgap1]. rewrite mod_page, page_of_off by lia. fold p. unfold P.
  set (amount := if Z.of_nat (length buffer) <? 4096 - offset mod 4096 then Z.of_nat (length buffer) else 4096 - offset mod 4096).
  pose proof (Z.mod_pos_bound offset 4096 ltac:(lia)) as Hmo.
  assert (Ham : amount = Z.min (Z.of_nat (length buffer)) (4096 - offset mod 4096) ∧ 0 < amount)
    by (unfold amount; destruct (Z.ltb_spec (Z.of_nat (length buffer)) (4096 - offset mod 4096)); lia).
  destruct Ham as [Ham Hapos].
  destruct (Z.ltb_spec (prepare_write p (offset mod 4096) amount) 0) as [Hp|Hp].
  { wp_step. apply wrote_nothing; [done|done|lia|]. intros _ Hgap. split_and!; [auto|lia|]. intros Hok.
    specialize (Hok p (offset mod 4096) amount). lia. }
  destruct (access wrote) eqn:Hacc; cbn [negb].
  2:{ wp_step. apply wrote_nothing; [done|done|unfold EFAULT; lia|]. intros (_ & Hok) _. by rewrite Hok in Hacc. }
  set (bytes := take (Z.to_nat amount) buffer). set (b' := CacheBlock _ _ true).
  assert (Hbl : Z.of_nat (length bytes) = amount) by (unfold bytes; rewrite length_take; lia).
  assert (Hs2 : shows (written c1 p b' offset bytes) (splice l offset bytes)).
  { apply (shows_written c1 l b b' offset bytes); [done|done|lia| |lia..|done]. intros He. rewrite He in Hbl. cbn in Hbl. lia. }
  assert (Hi2 : i_size (written c1 p b' offset bytes) = Z.max (i_size c) (offset + amount)).
  { unfold written. rewrite Hbl, Hi1. destruct (Z.ltb_spec (i_size c) (offset + amount)); cbn; lia. }
  assert (Hnext : wp (write_cache_loop readpage prepare_write alloc access fuel (drop (Z.to_nat amount) buffer) (offset + amount) (wrote + amount))
    (wrote_some c l buffer offset wrote) (written c1 p b' offset bytes)).
  { pose proof (turns_step offset (Z.of_nat (length buffer)) amount ltac:(lia) Hapos Ham).
    assert (Hdl : Z.of_nat (length (drop (Z.to_nat amount) buffer)) = Z.of_nat (length buffer) - amount) by (rewrite length_drop; lia).
    eapply wp_mono; [apply (IH _ _ _ _ _ Hs2); rewrite ?Hi2, ?Hdl; lia|].
    intros r c' (k & Hk & Hr & Hs' & Hone & Hgood). exists (Z.to_nat amount + k)%nat. split_and!; [lia|lia| | |].
    - replace (take (Z.to_nat amount + k) buffer) with (bytes ++ take k (drop (Z.to_nat amount) buffer)) by (unfold bytes; by rewrite take_take_drop).
      rewrite <-splice_splice, Hbl; [done|]. pose proof (sh_len _ _ Hs). lia.
    - intros Hfit1 Hneg. destruct Hone as [_ []]; [rewrite Hdl; pose proof (Z.mod_pos_bound (offset + amount) 4096 ltac:(lia)); lia|done|].
      apply length_zero_iff_nil. lia.
    - intros Hsup Hgap. destruct (Hgood Hsup) as (? & ? & ?); [apply no_gap_written; [auto|lia]|]. split_and!; [done|lia|done]. }
  unfold put_block, inode_set_size. do 4 wp_step. cbn [i_size set_pages]. unfold written in Hnext. rewrite Hbl in Hnext.
  wp_step. destruct (i_size c1 <? offset + amount); wp_step; exact Hnext.
Qed.

Lemma wp_file_write c l buffer offset : shows c l → 0 <= offset <= i_size c → i_size c < 2 ^ 61 →
  offset + Z.of_nat (length buffer) < 2 ^ 61 →
  wp (file_write_cache_unlocked readpage prepare_write alloc access buffer offset) (wrote_some c l buffer offset 0) c.
Proof.
  intros Hs Hoff Hmax Hfit. unfold file_write_cache_unlocked. apply wp_write_loop; try done. apply turns_fuel. lia.
Qed.

(** ** Reading *)

(** What a read has done: it returns -1, or how many bytes it has delivered, and they are the
    file's. *)
Definition read_some (c : fcache) (l : list Z) (len offset : Z) (res : Z * list Z) (c' : fcache) : Prop :=
  let slice := take (Z.to_nat len) (drop (Z.to_nat offset) l) in
  shows c' l ∧ (no_gap c → no_gap c') ∧ (res.1 = -1 ∨ res.1 = Z.of_nat (length res.2)) ∧ res.2 = take (length res.2) slice ∧
  (supplied → res = (Z.of_nat (length slice), slice)).

(** The bytes of a page are those of the file. *)
Lemma page_slice c l b offset n : let p := offset - offset mod 4096 in
  shows c l → pages c !! p = Some b → 0 <= offset → 0 <= n → offset mod 4096 + n <= 4096 → offset + n <= i_size c →
  take (Z.to_nat n) (drop (Z.to_nat (offset mod 4096)) (cb_buffer b)) = take (Z.to_nat n) (drop (Z.to_nat offset) l).
Proof.
  intros p Hs Hb Hoff Hn Hfit Hin. destruct (sh_pages _ _ Hs p b Hb) as (_ & _ & Hlen & Hag).
  pose proof (Z.mod_pos_bound offset 4096 ltac:(lia)) as Hmo. pose proof (page_facts offset Hoff) as Hpf. cbn zeta in Hpf. fold p in Hpf.
  apply list_eq. intros i. destruct (decide (i < Z.to_nat n)%nat) as [Hi|Hi].
  - rewrite !lookup_take_lt, !lookup_drop by lia. rewrite Hag by (unfold p in *; lia). f_equal. unfold p in *. lia.
  - by rewrite !lookup_take_ge by lia.
Qed.

Lemma wp_read_loop fuel c l len off0 acc : shows c l → 0 <= off0 < i_size c → i_size c < 2 ^ 61 → 0 <= len →
  acc = take (length acc) (drop (Z.to_nat off0) l) → Z.of_nat (length acc) <= len →
  turns (off0 + Z.of_nat (length acc)) (len - Z.of_nat (length acc)) <= Z.of_nat fuel →
  wp (read_cache_loop readpage alloc access fuel len (off0 + Z.of_nat (length acc)) acc) (read_some c l len off0) c.
Proof.
  revert c acc. induction fuel as [|fuel IH]; intros c acc Hs Hoff Hmax Hlen Hacc Hle Hfuel.
  { pose proof (turns_pos (off0 + Z.of_nat (length acc)) (len - Z.of_nat (length acc)) ltac:(lia)). lia. }
  cbn [read_cache_loop]. pose proof (sh_len _ _ Hs) as Hl. set (n := Z.of_nat (length acc)) in *.
  assert (Hn : off0 + n <= i_size c) by (apply (f_equal length) in Hacc; rewrite length_take, length_drop in Hacc; lia).
  set (slice := take (Z.to_nat len) (drop (Z.to_nat off0) l)).
  assert (Hpre : acc = take (length acc) slice)
    by (unfold slice; rewrite take_take; by replace (_ `min` _)%nat with (length acc) by lia).
  assert (Hfull : ∀ k, n + k = len ∨ off0 + n + k = i_size c → 0 <= k → n + k <= len →
    take (Z.to_nat (n + k)) (drop (Z.to_nat off0) l) = slice).
  { intros k [Hk|Hk] H0 Hkl; [by rewrite Hk|]. unfold slice. rewrite !take_ge by (rewrite length_drop; lia). done. }
  destruct (Z.eqb_spec n len) as [He|Hne].
  { wp_step. assert (Hs0 : acc = slice) by (rewrite Hacc; specialize (Hfull 0); rewrite Z.add_0_r in Hfull; rewrite <-Hfull by lia; f_equal; lia).
    split_and!; cbn; [done|done|by right|done|]. intros _. unfold n. by rewrite Hs0. }
  wp_step. eapply wp_mono; [apply (wp_get_page_read c l); [done|lia]|]. cbn beta zeta. set (offset := off0 + n) in *.
  set (p := offset - offset mod 4096). intros r c1 (Hs1 & Hgap1 & Hr).
  pose proof (page_facts offset ltac:(lia)) as (_ & Hp0 & Hp1). fold p in Hp0, Hp1.
  destruct r as [b|].
  2:{ wp_step. split_and!; cbn; [done|done|destruct (Z.eqb_spec n 0); auto|done|]. intros (Ha & _). destruct Hr as [Hr|Hr]; [by rewrite Ha in Hr|].
      assert (offset = i_size c) by lia. destruct (Z.eqb_spec n 0); [lia|].
      assert (Hs0 : acc = slice) by (rewrite Hacc; specialize (Hfull 0); rewrite Z.add_0_r in Hfull; rewrite <-Hfull by lia; f_equal; lia).
      unfold n. by rewrite Hs0. }
  pose proof (Z.mod_pos_bound offset 4096 ltac:(lia)) as Hmo. pose proof (sh_len _ _ Hs1) as Hl1.
  change (offset mod P) with (offset mod 4096). unfold P. do 2 wp_step; [lia|]. do 2 wp_step. rewrite <-Hl1, Hl.
  set (amount0 := if len - n <? 4096 - offset mod 4096 then len - n else 4096 - offset mod 4096).
  assert (Ham0 : amount0 = Z.min (len - n) (4096 - offset mod 4096) ∧ 0 < amount0)
    by (unfold amount0; destruct (Z.ltb_spec (len - n) (4096 - offset mod 4096)); lia).
  set (last := i_size c <? offset + amount0). set (amount := if last then i_size c - offset else amount0).
  assert (Ham : 0 <= amount <= amount0 ∧ offset + amount <= i_size c ∧ (last = true → offset + amount = i_size c) ∧ (last = false → amount = amount0))
    by (unfold amount, last; destruct (Z.ltb_spec (i_size c) (offset + amount0)); lia).
  destruct (access n) eqn:Hacc'; cbn [negb].
  2:{ do 2 wp_step. split_and!; cbn; [by apply shows_errno|done|by left|done|]. intros (_ & Hok). by rewrite Hok in Hacc'. }
  rewrite (page_slice c1 l b offset amount) by (done || lia). fold p.
  set (bytes := take (Z.to_nat amount) (drop (Z.to_nat offset) l)).
  assert (Hbl : Z.of_nat (length bytes) = amount) by (unfold bytes; rewrite length_take, length_drop; lia).
  assert (Happ : acc ++ bytes = take (Z.to_nat (n + amount)) (drop (Z.to_nat off0) l)).
  { unfold bytes. replace (drop (Z.to_nat offset) l) with (drop (length acc) (drop (Z.to_nat off0) l))
      by (rewrite drop_drop; f_equal; lia). rewrite Hacc at 1. rewrite take_take_drop. f_equal. lia. }
  assert (Hal : Z.of_nat (length (acc ++ bytes)) = n + amount) by (rewrite length_app; lia).
  destruct last eqn:Hlast.
  - wp_step. assert (Hs0 : acc ++ bytes = slice) by (rewrite Happ; apply Hfull; [right|..]; lia). rewrite Hs0 in Hal |- *.
    split_and!; cbn [fst snd]; [done|done|by right|by rewrite firstn_all|]. intros _. by rewrite <-Hal.
  - pose proof (turns_step offset (len - n) amount0 ltac:(lia) ltac:(lia) ltac:(lia)) as Hts.
    replace (offset + amount) with (off0 + Z.of_nat (length (acc ++ bytes))) by lia.
    eapply wp_mono; [apply IH; [done|lia..| |lia|]|].
    + rewrite Happ at 1. f_equal. lia.
    + rewrite Hal. replace (off0 + (n + amount)) with (offset + amount0) by lia.
      replace (len - (n + amount)) with (len - n - amount0) by lia. lia.
    + intros res c' (? & ? & ?). split; [done|]. split; [auto|done].
Qed.

Lemma wp_file_read c l len offset : shows c l → 0 <= offset → i_size c < 2 ^ 61 → 0 <= len →
  wp (file_read_cache readpage alloc access len offset) (read_some c l len offset) c.
Proof.
  intros Hs Hoff Hmax Hlen. unfold file_read_cache. do 2 wp_step. pose proof (sh_len _ _ Hs).
  destruct (Z.leb_spec (i_size c) offset).
  - wp_step. unfold read_some. rewrite drop_ge by lia. cbn. rewrite take_nil. split_and!; auto.
  - pose proof (wp_read_loop (cache_fuel len) c l len offset []) as Hw. cbn [length] in Hw. rewrite Z.add_0_r, Z.sub_0_r in Hw.
    apply Hw; try done. by apply turns_fuel.
Qed.
End cache.

(** ** The theorems *)


(** A file that is empty, on a file system that reads zeroes. *)
Definition empty_file : fcache := FCache ∅ 0 0 false 0.

Lemma empty_file_shows : shows (λ _, 0) empty_file [].
Proof. split; cbn; try done; try lia. Qed.

Lemma zeroes_read : reads_store (λ _ _, (FILE_PAGE_SIZE, zero_page)) (λ _, 0).
Proof.
  intros off size Hm Hoff. split; [done|]. intros Hin. split; [unfold P; lia|]. intros i Hi _.
  unfold zero_page. apply lookup_replicate_2. unfold P. lia.
Qed.

