(* ===== verification/Ext2Dir.v ===== *)
(** * Ext2Dir: directories of ext2

    The directory half of [kernel/fs/ext2/ext2_ll.cpp]: entries in the blocks of a directory,
    which is read and written through the page cache of [FileCache].  The callers have raised
    the limit on addresses, so that buffers of the kernel can be accessed; references to inodes
    and the freeing of buffers are not part of the state. *)

From S2P Require Import Prelude Abi Bits Bytes FileCache Ext2.

(** The state of the file system in its superblock, and the directories by inode number. *)
Record dirfs := DirFS {
  d_state : Z;
  dirs : gmap Z fcache }.

Definition set_d_state n (x : dirfs) := DirFS n (dirs x).

Definition EXT2_NAME_LEN : Z := 255.
Definition EXT2_MIN_DIR_ENTRY_LEN : Z := 8.
Definition sizeof_dir_entry : Z := 264.
Definition AT_REMOVEDIR : Z := 0x200.
Definition UNLINK_VFS_DONT_TEST_EMPTY : Z := Z.shiftl 1 24.

Definition ext2_calculate_dirent_size (len_name : Z) : Z :=
  let dirent_size := u64 (sizeof_dir_entry - u64 (EXT2_NAME_LEN - len_name)) in
  if dirent_size mod 4 =? 0 then dirent_size else dirent_size + (4 - dirent_size mod 4).

Definition ext2_file_type_to_type_indicator (mode : Z) : Z :=
  let t := Z.land mode 0xf000 in
  if t =? 0x4000 then 2 else if t =? 0x8000 then 1 else if t =? 0x6000 then 4 else if t =? 0x2000 then 3
  else if t =? 0xa000 then 7 else if t =? 0x1000 then 5 else if t =? 0xc000 then 6 else 0.

Section dir.
Context (G : geometry).
(** The file operations by inode number, and whether there is memory for a page of it. *)
Context (readpage : Z → Z → Z → Z * list Z) (prepare_write : Z → Z → Z → Z → Z) (alloc : Z → Z → bool).
Abbreviation bs := (block_size G).

Definition on_dir {A} (ino : Z) (m : M fcache A) : M dirfs A := λ x,
  match dirs x !! ino with
  | None => Fault NullDeref
  | Some c =>
      match m c with
      | Done (a, c') => Done (a, DirFS (d_state x) (<[ino := c']> (dirs x)))
      | Fault why => Fault why
      end
  end.

(** Buffers of the kernel can always be accessed. *)
Definition dir_read (ino len off : Z) : M dirfs (Z * list Z) :=
  on_dir ino (file_read_cache (readpage ino) (alloc ino) (λ _, true) len off).
Definition dir_write (ino : Z) (buf : list Z) (off : Z) : M dirfs Z :=
  on_dir ino (file_write_cache_unlocked (readpage ino) (prepare_write ino) (alloc ino) (λ _, true) buf off).
Definition dir_size (ino : Z) : M dirfs Z := on_dir ino (gets FileCache.i_size).
Definition dir_errno (ino : Z) : M dirfs Z := on_dir ino (gets f_errno).

Definition dir_error : M dirfs unit :=
  modify (set_d_state EXT2_ERROR_FS);;
  if s_errors G =? EXT2_ERRORS_PANIC then crash KernelPanic else mret tt.

(** What is read goes to the start of the buffer. *)
Definition read_into (buf bytes : list Z) : list Z := bytes ++ drop (length bytes) buf.

(** ** Entries in a buffer *)

Definition load (n : nat) (buf : list Z) (off : Z) : M dirfs Z :=
  check (0 <=? off) OutOfBounds;; from_opt (get_le n (Z.to_nat off) buf) OutOfBounds.
Definition store (n : nat) (buf : list Z) (off v : Z) : M dirfs (list Z) :=
  check (0 <=? off) OutOfBounds;; from_opt (put_le n (Z.to_nat off) v buf) OutOfBounds.
(** Copying bytes into a buffer. *)
Definition blit (buf : list Z) (off : Z) (bytes : list Z) : M dirfs (list Z) :=
  check ((0 <=? off) && (off + Z.of_nat (length bytes) <=? Z.of_nat (length buf))) OutOfBounds;;
  mret (copy_into buf off bytes).

Definition de_inode buf i := load 4 buf i.
Definition de_rec_len buf i := load 2 buf (i + 4).
Definition de_name_len buf i := load 1 buf (i + 6).
Definition de_file_type buf i := load 1 buf (i + 7).
Definition de_name (buf : list Z) (i len : Z) : M dirfs (list Z) :=
  check ((0 <=? i) && (i + 8 + len <=? Z.of_nat (length buf))) OutOfBounds;;
  mret (take (Z.to_nat len) (drop (Z.to_nat (i + 8)) buf)).

Definition valid_dirent (buf : list Z) (offset : Z) : M dirfs bool :=
  let remaining_block := bs - offset in
  if remaining_block <? EXT2_MIN_DIR_ENTRY_LEN then mret false
  else
    rec_len ← de_rec_len buf offset;
    if remaining_block <? rec_len then mret false
    else
      name_len ← de_name_len buf offset;
      if rec_len <? name_len + EXT2_MIN_DIR_ENTRY_LEN then mret false
      else mret (rec_len mod 4 =? 0).

(** ** Adding an entry *)

(** The entry on the stack; what was there before is [junk]. *)
Definition stack_name (name junk : list Z) : list Z :=
  let s := take 254 name ++ [0] in s ++ drop (length s) junk.
Definition dir_entry (inum rec_len name_len file_type : Z) (name junk : list Z) : list Z :=
  unword 4 inum ++ unword 2 rec_len ++ unword 1 name_len ++ unword 1 file_type ++ stack_name name junk.

(** The walk over a block from [i] on.  A number is what the caller is told, [None] that the block has
    no room. *)
Fixpoint add_in_block (fuel : nat) (inum file_type : Z) (name junk buf : list Z) (dir off i : Z) : M dirfs (option Z) :=
  match fuel with
  | O => crash OutOfFuel
  | S fuel =>
      if bs <=? i then mret None
      else
        valid ← valid_dirent buf i;
        if negb valid then dir_error;; mret (Some (- EIO))
        else
          let dirent_size := ext2_calculate_dirent_size (Z.of_nat (length name)) in
          name_len ← de_name_len buf i;
          let actual_size := ext2_calculate_dirent_size name_len in
          inode ← de_inode buf i;
          rec_len ← de_rec_len buf i;
          if (inode =? 0) && (dirent_size <=? rec_len) then
            buf ← store 4 buf i inum;
            buf ← store 1 buf (i + 6) (Z.of_nat (length name));
            buf ← blit buf (i + 8) (take 254 name ++ [0]);
            buf ← store 1 buf (i + 7) file_type;
            st ← dir_write dir buf off;
            mret (Some (if st <? 0 then st else 0))
          else if (actual_size <? rec_len) && (dirent_size <=? rec_len - actual_size) then
            buf ← store 2 buf (i + 4) actual_size;
            buf ← blit buf (i + actual_size)
              (take (Z.to_nat dirent_size) (dir_entry inum (rec_len - actual_size) (Z.of_nat (length name)) file_type name junk));
            st ← dir_write dir buf off;
            mret (Some (if st <? 0 then st else 0))
          else add_in_block fuel inum file_type name junk buf dir off (i + rec_len)
  end.

Definition block_fuel : nat := S (Z.to_nat (bs / 8)).

(** The blocks from [off] on. *)
Fixpoint add_from (fuel : nat) (inum file_type : Z) (name junk buf : list Z) (dir off : Z) : M dirfs Z :=
  match fuel with
  | O => crash OutOfFuel
  | S fuel =>
      size ← dir_size dir;
      if off <? size then
        '(st, bytes) ← dir_read dir bs off;
        if st <? 0 then mret st
        else
          let buf := read_into buf bytes in
          r ← add_in_block block_fuel inum file_type name junk buf dir off 0;
          match r with
          | Some st => mret st
          | None => add_from fuel inum file_type name junk buf dir (off + bs)
          end
      else
        let dirent_size := ext2_calculate_dirent_size (Z.of_nat (length name)) in
        buf ← blit buf 0 (take (Z.to_nat dirent_size) (dir_entry inum bs (Z.of_nat (length name)) file_type name junk));
        st ← dir_write dir buf off;
        mret (if st <? 0 then st else 0)
  end.

(** The number of blocks of a directory and one more. *)
Definition dir_fuel (size : Z) : nat := S (S (Z.to_nat (size / bs))).

(** [mem]: is there memory for the buffer?  [mode] is that of the inode [inum]. *)
Definition ext2_add_direntry (mem : bool) (name junk : list Z) (inum mode dir : Z) : M dirfs Z :=
  if negb mem then mret (-1)
  else
    check (negb (inum =? 0)) KernelPanic;;
    size ← dir_size dir;
    add_from (dir_fuel size) inum (ext2_file_type_to_type_indicator mode) name junk (replicate (Z.to_nat bs) 0) dir 0.

(** ** Looking up a name *)

Record ext2_dirent_result := DirentResult { file_off : Z; block_off : Z; res_buf : list Z }.

(** [None]: not in this block. *)
Fixpoint find_in_block (fuel : nat) (name buf : list Z) (i : Z) : M dirfs (option (Z + Z)) :=
  match fuel with
  | O => crash OutOfFuel
  | S fuel =>
      if bs <=? i then mret None
      else
        rec_len ← de_rec_len buf i;
        if rec_len =? 0 then dir_error;; mret (Some (inr (- EIO)))
        else
          inode ← de_inode buf i;
          if inode =? 0 then find_in_block fuel name buf (i + rec_len)
          else
            name_len ← de_name_len buf i;
            found ← (if name_len =? Z.of_nat (length name)
                     then n ← de_name buf i name_len; mret (bool_decide (n = name))
                     else mret false : M dirfs bool);
            if negb found then find_in_block fuel name buf (i + rec_len) else mret (Some (inl i))
  end.

Fixpoint retrieve_from (fuel : nat) (name buf : list Z) (dir off : Z) : M dirfs (ext2_dirent_result + Z) :=
  match fuel with
  | O => crash OutOfFuel
  | S fuel =>
      size ← dir_size dir;
      if negb (off <? size) then mret (inr (- ENOENT))
      else
        '(st, bytes) ← dir_read dir bs off;
        if st <? 0 then e ← dir_errno dir; mret (inr (- e))
        else
          let buf := read_into buf bytes in
          r ← find_in_block block_fuel name buf 0;
          match r with
          | Some (inl i) => mret (inl (DirentResult (off + i) i buf))
          | Some (inr e) => mret (inr e)
          | None => retrieve_from fuel name buf dir (off + bs)
          end
  end.

Definition ext2_retrieve_dirent (mem : bool) (name : list Z) (dir : Z) : M dirfs (ext2_dirent_result + Z) :=
  if negb mem then mret (inr (- ENOMEM))
  else size ← dir_size dir; retrieve_from (dir_fuel size) name (replicate (Z.to_nat bs) 0) dir 0.

Definition ext2_file_present (mem : bool) (name : list Z) (dir : Z) : M dirfs Z :=
  r ← ext2_retrieve_dirent mem name dir;
  mret (match r with
        | inl _ => 1
        | inr e => if e =? - ENOENT then 0 else - EIO
        end).

(** ** Removing an entry *)

(** [before] is the entry in front of it, if there is one. *)
Definition ext2_unlink_dirent (buf : list Z) (before : option Z) (entry : Z) : M dirfs (list Z) :=
  rec_len ← de_rec_len buf entry;
  let next := entry + rec_len in
  buf ← match before with Some b => store 2 buf (b + 4) (u16 (next - b)) | None => mret buf end;
  store 4 buf entry 0.

(** The entry that ends at [block_off]. *)
Fixpoint find_before (fuel : nat) (buf : list Z) (b block_off : Z) : M dirfs (option Z) :=
  match fuel with
  | O => crash OutOfFuel
  | S fuel =>
      if block_off <=? b then mret None
      else
        rec_len ← de_rec_len buf b;
        if b + rec_len =? block_off then mret (Some b) else find_before fuel buf (b + rec_len) block_off
  end.

(** [memcmp] with the string of length [len]; it ends at the first difference. *)
Definition dots (name : list Z) (n : nat) : bool := bool_decide (name = take (length name) (replicate n 46 ++ [0])).
Definition ext2_is_standard_dir_link (name : list Z) : bool := dots name 1 || dots name 2.

(** Is there an entry that is neither unused nor a standard link? *)
Fixpoint used_in_block (fuel : nat) (buf : list Z) (i : Z) : M dirfs bool :=
  match fuel with
  | O => crash OutOfFuel
  | S fuel =>
      if bs <=? i then mret false
      else
        inode ← de_inode buf i;
        used ← (if inode =? 0 then mret false
                else name_len ← de_name_len buf i; name ← de_name buf i name_len; mret (negb (ext2_is_standard_dir_link name)) : M dirfs bool);
        if negb used then rec_len ← de_rec_len buf i; used_in_block fuel buf (i + rec_len)
        else mret true
  end.

Fixpoint dir_empty_from (fuel : nat) (buf : list Z) (dir off : Z) : M dirfs Z :=
  match fuel with
  | O => crash OutOfFuel
  | S fuel =>
      size ← dir_size dir;
      if negb (off <? size) then mret 1
      else
        '(st, bytes) ← dir_read dir bs off;
        if st <? 0 then e ← dir_errno dir; mret (- e)
        else
          let buf := read_into buf bytes in
          used ← used_in_block block_fuel buf 0;
          if negb used then dir_empty_from fuel buf dir (off + bs) else mret 0
  end.

Definition ext2_dir_empty (mem : bool) (dir : Z) : M dirfs Z :=
  if negb mem then mret (- ENOMEM)
  else size ← dir_size dir; dir_empty_from (dir_fuel size) (replicate (Z.to_nat bs) 0) dir 0.

(** [target]: the type of an inode that can be loaded, is it a directory? *)
Definition ext2_unlink (mem : bool) (target : Z → option bool) (name : list Z) (flags dir : Z) : M dirfs Z :=
  r ← ext2_retrieve_dirent mem name dir;
  match r with
  | inr e => mret e
  | inl res =>
      inum ← de_inode (res_buf res) (block_off res);
      match target inum with
      | None => mret (- ENOMEM)
      | Some is_dir =>
          refuse ← (if negb is_dir then mret 0
                    else if negb (has flags AT_REMOVEDIR) then mret (- EISDIR)
                    else if has flags UNLINK_VFS_DONT_TEST_EMPTY then mret 0
                    else e ← ext2_dir_empty mem inum; mret (if e =? 0 then - ENOTEMPTY else 0) : M dirfs Z);
          if refuse <? 0 then mret refuse
          else
            before ← (if block_off res =? 0 then mret None
                      else
                        b ← find_before block_fuel (res_buf res) 0 (block_off res);
                        check (bool_decide (is_Some b)) AssertFailed;; mret b : M dirfs (option Z));
            buf ← ext2_unlink_dirent (res_buf res) before (block_off res);
            st ← dir_write dir buf (file_off res - block_off res);
            mret (if st <? 0 then - EIO else 0)
      end
  end.
End dir.
