(* ===== verification/Ext2DirFacts.v ===== *)
(** * Ext2DirFacts: blocks of directory entries

    A block of a directory is a row of records, each an entry; reading and changing the entries in
    a buffer in terms of the records. *)

From S2P Require Import Prelude Abi Bits Bytes FileCache FileCacheProps Ext2 Ext2Facts Ext2Dir.

(** An entry; inode 0 is an unused one. *)
Record dent := Dent { d_ino : Z; d_name : list Z; d_type : Z }.

(** The bytes of a record hold an entry. *)
Record is_rec (r : list Z) (e : dent) : Prop := {
  ir_bytes : Forall byte r;
  ir_mod : Z.of_nat (length r) mod 4 = 0;
  ir_max : Z.of_nat (length r) < 2 ^ 16;
  ir_fit : (8 + length (d_name e) <= length r)%nat;
  ir_ino : get_le 4 0 r = Some (d_ino e);
  ir_rec : get_le 2 4 r = Some (Z.of_nat (length r));
  ir_name_len : get_le 1 6 r = Some (Z.of_nat (length (d_name e)));
  ir_type : get_le 1 7 r = Some (d_type e);
  ir_name : take (length (d_name e)) (drop 8 r) = d_name e }.

(** ** Words in the middle of a buffer *)

Lemma get_le_mid n pre r post off : (off + n <= length r)%nat →
  get_le n (length pre + off) (pre ++ r ++ post) = get_le n off r.
Proof.
  intros H. rewrite !get_le_Some by (rewrite ?length_app; lia). do 2 f_equal.
  rewrite drop_app_ge by lia. replace (length pre + off - length pre)%nat with off by lia.
  rewrite drop_app_le by lia. rewrite take_app_le; [done|]. rewrite length_drop. lia.
Qed.

Lemma put_le_mid n pre r post off x r' : put_le n off x r = Some r' →
  put_le n (length pre + off) x (pre ++ r ++ post) = Some (pre ++ r' ++ post).
Proof.
  unfold put_le. case_match eqn:E; [|done]. intros [= <-]. apply Nat.leb_le in E.
  rewrite (proj2 (Nat.leb_le _ _)) by (rewrite !length_app; lia). f_equal.
  rewrite take_app_ge, drop_app_ge by lia. replace (length pre + off - length pre)%nat with off by lia.
  replace (length pre + off + n - length pre)%nat with (off + n)%nat by lia.
  rewrite take_app_le, drop_app_le by lia. by rewrite <-!app_assoc.
Qed.

Lemma copy_into_mid pre r post off bytes : 0 <= off → (Z.to_nat off + length bytes <= length r)%nat →
  copy_into (pre ++ r ++ post) (Z.of_nat (length pre) + off) bytes = pre ++ copy_into r off bytes ++ post.
Proof.
  intros H0 H. unfold copy_into. replace (Z.to_nat (Z.of_nat (length pre) + off)) with (length pre + Z.to_nat off)%nat by lia.
  rewrite take_app_ge, drop_app_ge by lia. replace (length pre + Z.to_nat off - length pre)%nat with (Z.to_nat off) by lia.
  replace (length pre + Z.to_nat off + length bytes - length pre)%nat with (Z.to_nat off + length bytes)%nat by lia.
  rewrite take_app_le, drop_app_le by lia. by rewrite <-!app_assoc.
Qed.

(** ** Entries in a buffer *)

(** A check of bounds that holds by arithmetic. *)
Ltac wp_bounds :=
  wp_step; [repeat (apply andb_true_intro; split); first [apply Z.leb_le | apply Z.ltb_lt]; rewrite ?length_app; lia|].

Section entries.
Context (pre r post : list Z) (e : dent) (Hr : is_rec r e).
Abbreviation buf := (pre ++ r ++ post).
Abbreviation i := (Z.of_nat (length pre)).

Lemma wp_load_bytes n off v (Q : Z → dirfs → Prop) x : 0 <= off → (Z.to_nat off + n <= length r)%nat →
  get_le n (Z.to_nat off) r = Some v → Q v x → wp (load n buf (i + off)) Q x.
Proof.
  intros H0 Hl Hg HQ. unfold load. wp_step. wp_bounds. eapply wp_from_opt; [|done].
  replace (Z.to_nat (i + off)) with (length pre + Z.to_nat off)%nat by lia. by rewrite get_le_mid.
Qed.

Lemma rec_length : (8 <= length r)%nat.
Proof. pose proof (ir_fit _ _ Hr). lia. Qed.

Lemma wp_de_inode (Q : Z → dirfs → Prop) x : Q (d_ino e) x → wp (de_inode buf i) Q x.
Proof. intros HQ. unfold de_inode. rewrite <-(Z.add_0_r i). pose proof rec_length. eapply wp_load_bytes; [lia|lia|apply Hr|done]. Qed.
Lemma wp_de_rec_len (Q : Z → dirfs → Prop) x : Q (Z.of_nat (length r)) x → wp (de_rec_len buf i) Q x.
Proof. intros HQ. pose proof rec_length. eapply wp_load_bytes; [lia|lia|apply Hr|done]. Qed.
Lemma wp_de_name_len (Q : Z → dirfs → Prop) x : Q (Z.of_nat (length (d_name e))) x → wp (de_name_len buf i) Q x.
Proof. intros HQ. pose proof rec_length. eapply wp_load_bytes; [lia|lia|apply Hr|done]. Qed.

Lemma wp_de_name (Q : list Z → dirfs → Prop) x : Q (d_name e) x → wp (de_name buf i (Z.of_nat (length (d_name e)))) Q x.
Proof.
  intros HQ. unfold de_name. pose proof (ir_fit _ _ Hr). wp_step. wp_bounds. wp_step.
  replace (take _ (drop _ buf)) with (d_name e); [done|]. rewrite Nat2Z.id.
  replace (Z.to_nat (i + 8)) with (length pre + 8)%nat by lia. rewrite drop_app_ge by lia.
  replace (length pre + 8 - length pre)%nat with 8%nat by lia. rewrite drop_app_le by lia.
  rewrite take_app_le by (rewrite length_drop; lia). symmetry. apply Hr.
Qed.

Lemma wp_store n off v r' (Q : list Z → dirfs → Prop) x : 0 <= off → put_le n (Z.to_nat off) v r = Some r' →
  Q (pre ++ r' ++ post) x → wp (store n buf (i + off) v) Q x.
Proof.
  intros H0 Hp HQ. unfold store. wp_step. wp_bounds. eapply wp_from_opt; [|done].
  replace (Z.to_nat (i + off)) with (length pre + Z.to_nat off)%nat by lia. by apply put_le_mid.
Qed.

Lemma wp_blit off bytes (Q : list Z → dirfs → Prop) x : 0 <= off → (Z.to_nat off + length bytes <= length r)%nat →
  Q (pre ++ copy_into r off bytes ++ post) x → wp (blit buf (i + off) bytes) Q x.
Proof. intros H0 Hl HQ. unfold blit. wp_step. wp_bounds. wp_step. by rewrite copy_into_mid. Qed.

Lemma name_length : (length (d_name e) <= 255)%nat.
Proof.
  pose proof (ir_name_len _ _ Hr) as Hn. pose proof rec_length. rewrite get_le_Some in Hn by lia. injection Hn as Hn.
  assert (Hb : Forall byte (take 1 (drop 6 r))) by (apply Forall_take, Forall_drop, Hr).
  pose proof (word_nonneg _ Hb) as Hw. rewrite length_take, length_drop in Hw. replace (1 `min` _)%nat with 1%nat in Hw by lia.
  change (256 ^ Z.of_nat 1) with 256 in Hw. lia.
Qed.
End entries.

(** ** Making records *)

Lemma dirent_size_bounds len : 0 <= len <= 255 →
  len + 9 <= ext2_calculate_dirent_size len <= len + 12 ∧ ext2_calculate_dirent_size len mod 4 = 0.
Proof.
  intros Hl. unfold ext2_calculate_dirent_size, sizeof_dir_entry, EXT2_NAME_LEN.
  rewrite (u64_small (255 - len)), u64_small by lia. replace (264 - (255 - len)) with (len + 9) by lia.
  destruct (Z.eqb_spec ((len + 9) mod 4) 0); [lia|]. Z.to_euclidean_division_equations; lia.
Qed.

Lemma length_copy_into r off bytes : 0 <= off → (Z.to_nat off + length bytes <= length r)%nat →
  length (copy_into r off bytes) = length r.
Proof. intros H0 H. rewrite length_splice by lia. lia. Qed.

Lemma copy_into_split r a bytes : 0 <= a <= Z.of_nat (length r) →
  copy_into r a bytes = take (Z.to_nat a) r ++ copy_into (drop (Z.to_nat a) r) 0 bytes.
Proof.
  intros Ha. unfold copy_into. change (Z.to_nat 0) with O. rewrite take_0, drop_drop. done.
Qed.

Lemma copy_into_bytes r off bytes : Forall byte r → Forall byte bytes → Forall byte (copy_into r off bytes).
Proof. intros Hr Hb. unfold copy_into. repeat apply Forall_app_2; [by apply Forall_take|done|by apply Forall_drop]. Qed.

Lemma get_le_copy_before r off bytes n k : 0 <= off → (Z.to_nat off + length bytes <= length r)%nat →
  (k + n <= Z.to_nat off)%nat → get_le n k (copy_into r off bytes) = get_le n k r.
Proof.
  intros H0 H Hk. rewrite !get_le_Some by (rewrite ?length_copy_into by done; lia). do 2 f_equal. apply list_eq. intros j.
  destruct (decide (j < n)%nat); [|by rewrite !lookup_take_ge by lia].
  rewrite !lookup_take_lt, !lookup_drop by lia. rewrite lookup_splice by lia. by rewrite decide_True by lia.
Qed.

(** The name in a record after it was copied there. *)
Lemma name_copied r bytes (n : nat) : (n <= length bytes)%nat → (8 + length bytes <= length r)%nat →
  take n (drop 8 (copy_into r 8 bytes)) = take n bytes.
Proof.
  intros Hn Hr. unfold copy_into. change (Z.to_nat 8) with 8%nat. rewrite drop_app_ge by (rewrite length_take; lia).
  rewrite length_take. replace (8 - (8 `min` length r))%nat with O by lia. rewrite drop_0. by rewrite take_app_le.
Qed.

Lemma put_le_total n off x r : (off + n <= length r)%nat → ∃ r', put_le n off x r = Some r' ∧ length r' = length r.
Proof.
  intros H. destruct (put_le n off x r) as [r'|] eqn:E; [|by rewrite put_le_Some in E].
  exists r'. split; [done|]. by eapply length_put_le.
Qed.

(** An entry of a record changed to another inode. *)
Lemma rec_set_ino r e ino r' : is_rec r e → put_le 4 0 ino r = Some r' → 0 <= ino < 2 ^ 32 →
  is_rec r' (Dent ino (d_name e) (d_type e)).
Proof.
  intros [] Hp Hi. pose proof (length_put_le _ _ _ _ _ Hp) as Hl. split; cbn [d_ino d_name d_type]; rewrite ?Hl; try done.
  - by eapply put_le_bytes.
  - by eapply get_put_le.
  - rewrite <-ir_rec0. eapply get_put_le_ne; [done|lia].
  - rewrite <-ir_name_len0. eapply get_put_le_ne; [done|lia].
  - rewrite <-ir_type0. eapply get_put_le_ne; [done|lia].
  - rewrite <-ir_name0 at 2. apply list_eq. intros j. destruct (decide (j < length (d_name e))%nat); [|by rewrite !lookup_take_ge by lia].
    rewrite !lookup_take_lt, !lookup_drop by lia. eapply lookup_put_le; [done|lia].
Qed.

(** Fields lie in the front of a record. *)
Lemma get_le_prefix n off m a b : take m a = take m b → (off + n <= m)%nat → (m <= length a)%nat → (m <= length b)%nat →
  get_le n off a = get_le n off b.
Proof.
  intros He Hm Ha Hb. rewrite !get_le_Some by lia. do 2 f_equal. apply list_eq. intros j.
  destruct (decide (j < n)%nat); [|by rewrite !lookup_take_ge by lia]. rewrite !lookup_take_lt, !lookup_drop by lia.
  rewrite <-(lookup_take_lt a m), <-(lookup_take_lt b m) by lia. by rewrite He.
Qed.

(** A record that was made longer or shorter. *)
Lemma rec_resize r e r' r'' : is_rec r e → put_le 2 4 (Z.of_nat (length r'')) r = Some r' →
  take (8 + length (d_name e)) r'' = take (8 + length (d_name e)) r' → Forall byte r'' →
  Z.of_nat (length r'') mod 4 = 0 → Z.of_nat (length r'') < 2 ^ 16 → (8 + length (d_name e) <= length r'')%nat →
  is_rec r'' e.
Proof.
  intros [] Hp Hpre Hb Hm Hmax Hfit. pose proof (length_put_le _ _ _ _ _ Hp) as Hl.
  assert (Hget : ∀ n off, (off + n <= 8)%nat → get_le n off r'' = get_le n off r').
  { intros n off Ho. eapply get_le_prefix; [done|lia..]. }
  split; try done; rewrite ?Hget by lia.
  - rewrite <-ir_ino0. eapply get_put_le_ne; [done|lia].
  - eapply get_put_le; [done|]. change (256 ^ Z.of_nat 2) with (2 ^ 16). lia.
  - rewrite <-ir_name_len0. eapply get_put_le_ne; [done|lia].
  - rewrite <-ir_type0. eapply get_put_le_ne; [done|lia].
  - rewrite <-ir_name0 at 2. apply list_eq. intros j. destruct (decide (j < length (d_name e))%nat); [|by rewrite !lookup_take_ge by lia].
    rewrite !lookup_take_lt, !lookup_drop by lia. rewrite <-(lookup_take_lt r'' (8 + length (d_name e))), Hpre, lookup_take_lt by lia.
    eapply lookup_put_le; [done|lia].
Qed.

(** What may be added: a name that fits, and numbers that do. *)
Record addable (inum ftype : Z) (name : list Z) : Prop := {
  ad_ino : 0 < inum < 2 ^ 32;
  ad_type : 0 <= ftype < 256;
  ad_name : Forall byte name;
  ad_len : (length name <= 254)%nat }.

(** An unused entry taken into use. *)
Lemma rec_reuse r e inum ftype name r1 r2 r4 : is_rec r e → addable inum ftype name → (9 + length name <= length r)%nat →
  put_le 4 0 inum r = Some r1 → put_le 1 6 (Z.of_nat (length name)) r1 = Some r2 →
  put_le 1 7 ftype (copy_into r2 8 (take 254 name ++ [0])) = Some r4 → is_rec r4 (Dent inum name ftype).
Proof.
  intros Hr [Hi Ht Hnb Hnl] Hfit H1 H2 H4. rewrite take_ge in H4 by lia. set (r3 := copy_into r2 8 (name ++ [0])) in *.
  pose proof (length_put_le _ _ _ _ _ H1) as L1. pose proof (length_put_le _ _ _ _ _ H2) as L2.
  pose proof (length_put_le _ _ _ _ _ H4) as L4.
  assert (Hs : (Z.to_nat 8 + length (name ++ [0%Z]) <= length r2)%nat) by (rewrite length_app; cbn; lia).
  assert (L3 : length r3 = length r2) by (apply length_copy_into; [lia|done]).
  assert (Hg3 : ∀ n k, (k + n <= 8)%nat → get_le n k r3 = get_le n k r2) by (intros; apply get_le_copy_before; [lia|done|lia]).
  split; cbn [d_ino d_name d_type].
  - eapply put_le_bytes; [done|]. apply copy_into_bytes; [|apply Forall_app_2; [done|repeat constructor; unfold byte; lia]].
    eapply put_le_bytes; [done|]. eapply put_le_bytes; [done|]. apply Hr.
  - rewrite L4, L3, L2, L1. apply Hr.
  - rewrite L4, L3, L2, L1. apply Hr.
  - lia.
  - rewrite (get_put_le_ne _ _ _ _ _ _ _ H4), Hg3, (get_put_le_ne _ _ _ _ _ _ _ H2) by lia. eapply get_put_le; [done|cbn; lia].
  - rewrite (get_put_le_ne _ _ _ _ _ _ _ H4), Hg3, (get_put_le_ne _ _ _ _ _ _ _ H2), (get_put_le_ne _ _ _ _ _ _ _ H1) by lia.
    rewrite L4, L3, L2, L1. apply Hr.
  - rewrite (get_put_le_ne _ _ _ _ _ _ _ H4), Hg3 by lia. eapply get_put_le; [done|]. cbn. lia.
  - eapply get_put_le; [done|cbn; lia].
  - transitivity (take (length name) (drop 8 r3)).
    + apply list_eq. intros j. destruct (decide (j < length name)%nat); [|by rewrite !lookup_take_ge by lia].
      rewrite !lookup_take_lt, !lookup_drop by lia. eapply lookup_put_le; [done|lia].
    + unfold r3. rewrite name_copied by (rewrite length_app; cbn; lia). by rewrite take_app_length.
Qed.

(** A word between other bytes. *)
Lemma get_le_unword n off x pre post : length pre = off → 0 <= x < 256 ^ Z.of_nat n →
  get_le n off (pre ++ unword n x ++ post) = Some x.
Proof.
  intros <- Hx. pose proof (get_le_mid n pre (unword n x) post 0) as Hg. rewrite Nat.add_0_r in Hg.
  rewrite Hg by (rewrite length_unword; lia). rewrite get_le_Some by (rewrite length_unword; lia).
  rewrite drop_0, take_ge by (rewrite length_unword; lia). f_equal. by apply word_unword.
Qed.

(** A record written afresh. *)
Lemma rec_fresh r inum ftype name junk : addable inum ftype name → Forall byte junk → length junk = 256%nat →
  Forall byte r → Z.of_nat (length r) mod 4 = 0 → Z.of_nat (length r) < 2 ^ 16 →
  let ds := Z.to_nat (ext2_calculate_dirent_size (Z.of_nat (length name))) in
  (ds <= length r)%nat →
  let entry := take ds (dir_entry inum (Z.of_nat (length r)) (Z.of_nat (length name)) ftype name junk) in
  length entry = ds ∧ is_rec (copy_into r 0 entry) (Dent inum name ftype).
Proof.
  intros [Hi Ht Hnb Hnl] Hjb Hjl Hrb Hrm Hrmax ds Hds entry.
  destruct (dirent_size_bounds (Z.of_nat (length name))) as [Hdb Hdm]; [lia|].
  assert (Hdn : (9 + length name <= ds <= 264)%nat) by (Z.to_euclidean_division_equations; lia).
  unfold entry, dir_entry, stack_name. rewrite (take_ge name) by lia. set (rest := drop _ junk).
  assert (Hrl : (length name + 1 + length rest = 256)%nat) by (unfold rest; rewrite length_drop, length_app, Hjl; cbn [length]; lia).
  set (A := unword 4 inum). set (B := unword 2 (Z.of_nat (length r))). set (C := unword 1 (Z.of_nat (length name))). set (D := unword 1 ftype).
  set (L := A ++ B ++ C ++ D ++ name). assert (HL : length L = (8 + length name)%nat) by (unfold L, A, B, C, D; rewrite !length_app, !length_unword; lia).
  replace (A ++ B ++ C ++ D ++ (name ++ [0]) ++ rest) with (L ++ [0] ++ rest) by (unfold L; by rewrite <-!app_assoc).
  set (X := take ds (L ++ [0] ++ rest)).
  assert (HX : length X = ds) by (unfold X; rewrite length_take, !length_app, HL; cbn [length]; lia). split; [done|].
  set (W := copy_into r 0 X). assert (HW : length W = length r) by (apply length_copy_into; cbn; lia).
  assert (Hpre : take (8 + length name) W = L).
  { unfold W, copy_into. change (take (Z.to_nat 0) r) with (@nil Z). rewrite app_nil_l, take_app_le by lia. unfold X. rewrite take_take.
    replace ((8 + length name) `min` ds)%nat with (length L) by lia. by rewrite take_app_length. }
  assert (Hget : ∀ n off, (off + n <= 8)%nat → get_le n off W = get_le n off L).
  { intros n off Ho. eapply (get_le_prefix _ _ (8 + length name)); [|lia..]. by rewrite Hpre, take_ge by lia. }
  assert (Hbytes : Forall byte X).
  { unfold X, L, A, B, C, D, rest. apply Forall_take. repeat apply Forall_app_2; try apply unword_bytes; try done;
      [repeat constructor; unfold byte; lia|by apply Forall_drop]. }
  split; cbn [d_ino d_name d_type]; rewrite ?HW, ?Hget by lia; try done.
  - by apply copy_into_bytes.
  - lia.
  - apply (get_le_unword 4 0 inum []); [done|cbn; lia].
  - apply (get_le_unword 2 4 _ A); [done|cbn; lia].
  - unfold L. rewrite (app_assoc A). apply (get_le_unword 1 6); [done|cbn; lia].
  - unfold L. rewrite (app_assoc B), (app_assoc A). apply (get_le_unword 1 7); [done|cbn; lia].
  - rewrite take_drop_commute, Hpre. unfold L. rewrite !app_assoc. by rewrite drop_app_length'.
Qed.

(** ** Rows of records *)

Abbreviation row := (list (list Z * dent)).
Definition row_bytes (rs : row) : list Z := concat rs.*1.
Definition row_ok (rs : row) : Prop := Forall (λ p, is_rec p.1 p.2) rs.

(** The entries in use. *)
Definition live (rs : row) : list dent := filter (λ e, d_ino e ≠ 0) rs.*2.

Lemma row_bytes_app a b : row_bytes (a ++ b) = row_bytes a ++ row_bytes b.
Proof. unfold row_bytes. by rewrite fmap_app, concat_app. Qed.

Lemma row_bytes_cons p rs : row_bytes (p :: rs) = p.1 ++ row_bytes rs.
Proof. done. Qed.

Lemma live_app a b : live (a ++ b) = live a ++ live b.
Proof. unfold live. by rewrite fmap_app, list.filter_app. Qed.

Lemma row_length rs : row_ok rs → (8 * length rs <= length (row_bytes rs))%nat.
Proof.
  induction 1 as [|[r e] rs Hr _ IH]; [cbn; lia|]. rewrite row_bytes_cons, length_app. cbn [fst length].
  pose proof (rec_length r e Hr). lia.
Qed.

(** The first entry in use with a name, by its offset. *)
Fixpoint locate (name : list Z) (rs : row) (i : Z) : option (Z * dent) :=
  match rs with
  | [] => None
  | (r, e) :: rs => if decide (d_ino e ≠ 0 ∧ d_name e = name) then Some (i, e) else locate name rs (i + Z.of_nat (length r))
  end.

Lemma locate_None name rs i : locate name rs i = None ↔ ∀ e, e ∈ live rs → d_name e ≠ name.
Proof.
  revert i; induction rs as [|[r e] rs IH]; intros i; cbn [locate]; [split; [intros _ e He; by apply not_elem_of_nil in He|done]|].
  unfold live in *. cbn [fmap list_fmap snd]. case_decide as Hd.
  - split; [done|]. intros H. destruct Hd as [Hi <-]. exfalso. apply (H e); [|done]. rewrite filter_cons_True by done. set_solver.
  - rewrite IH. destruct (decide (d_ino e ≠ 0)) as [Hi|Hi].
    + rewrite filter_cons_True by done. set_solver.
    + by rewrite filter_cons_False.
Qed.

Lemma locate_Some name rs i j e : locate name rs i = Some (j, e) → d_ino e ≠ 0 ∧ d_name e = name ∧
  ∃ rs1 r rs2, rs = rs1 ++ (r, e) :: rs2 ∧ j = i + Z.of_nat (length (row_bytes rs1)).
Proof.
  revert i; induction rs as [|[r e'] rs IH]; intros i; cbn [locate]; [done|]. case_decide as Hd.
  - intros [= -> ->]. destruct Hd. split_and!; [done..|]. exists [], r, rs. split; [done|]. cbn. lia.
  - intros H. apply IH in H as (? & ? & rs1 & r1 & rs2 & -> & ->). split_and!; [done..|].
    exists ((r, e') :: rs1), r1, rs2. split; [done|]. rewrite row_bytes_cons, length_app. cbn [fst]. lia.
Qed.

Lemma live_cons r e rs : live ((r, e) :: rs) = (if decide (d_ino e ≠ 0) then [e] else []) ++ live rs.
Proof. unfold live. cbn [fmap list_fmap snd]. rewrite filter_cons. by case_decide. Qed.

Lemma live_used r e rs : d_ino e ≠ 0 → live ((r, e) :: rs) = e :: live rs.
Proof. intros H. by rewrite live_cons, decide_True. Qed.
Lemma live_unused r e rs : d_ino e = 0 → live ((r, e) :: rs) = live rs.
Proof. intros H. rewrite live_cons, decide_False; [done|]. by intros []. Qed.

Section block.
Context (G : geometry) (HG : geometry_ok G).
Context (readpage : Z → Z → Z → Z * list Z) (prepare_write : Z → Z → Z → Z → Z) (alloc : Z → Z → bool).
Abbreviation bs := (block_size G).

(** A block of a directory. *)
Definition block_ok (rs : row) : Prop := row_ok rs ∧ Z.of_nat (length (row_bytes rs)) = bs.

Lemma block_fuel_ok rs : block_ok rs → (length rs < block_fuel G)%nat.
Proof.
  intros [Hr Hl]. apply row_length in Hr. unfold block_fuel. assert (Z.of_nat (length rs) <= bs / 8) by (apply Z.div_le_lower_bound; lia). lia.
Qed.

Lemma wp_find_in_block fuel name pre rs x (Q : option (Z + Z) → dirfs → Prop) : row_ok rs → (length rs < fuel)%nat →
  Z.of_nat (length pre) + Z.of_nat (length (row_bytes rs)) = bs →
  Q ((λ p, inl p.1) <$> locate name rs (Z.of_nat (length pre))) x →
  wp (find_in_block G fuel name (pre ++ row_bytes rs) (Z.of_nat (length pre))) Q x.
Proof.
  revert fuel pre; induction rs as [|[r e] rs IH]; intros fuel pre Hok Hf Hl HQ; (destruct fuel as [|fuel]; [cbn in Hf; lia|]); cbn [find_in_block].
  { cbn in Hl. rewrite (proj2 (Z.leb_le _ _)) by lia. by wp_step. }
  apply list.Forall_cons in Hok as [Hr Hok]. cbn [fst snd] in Hr. rewrite row_bytes_cons in *. cbn [fst] in *. rewrite length_app in Hl.
  pose proof (rec_length r e Hr) as H8. rewrite (proj2 (Z.leb_gt _ _)) by lia.
  assert (Hnext : locate name ((r, e) :: rs) (Z.of_nat (length pre)) = locate name rs (Z.of_nat (length pre) + Z.of_nat (length r)) →
    wp (find_in_block G fuel name (pre ++ r ++ row_bytes rs) (Z.of_nat (length pre) + Z.of_nat (length r))) Q x).
  { intros He. rewrite He in HQ. rewrite (app_assoc pre r). replace (Z.of_nat (length pre) + Z.of_nat (length r)) with (Z.of_nat (length (pre ++ r))) in * by (rewrite length_app; lia).
    apply IH; [done|cbn in Hf; lia|rewrite length_app; lia|done]. }
  wp_step. eapply wp_de_rec_len; [done|]. rewrite (proj2 (Z.eqb_neq _ _)) by lia.
  wp_step. eapply wp_de_inode; [done|]. cbn [locate] in HQ, Hnext. destruct (Z.eqb_spec (d_ino e) 0) as [H0|H0].
  { apply Hnext. rewrite decide_False; [done|]. tauto. }
  wp_step. eapply wp_de_name_len; [done|]. wp_step. destruct (Z.eqb_spec (Z.of_nat (length (d_name e))) (Z.of_nat (length name))) as [Hlen|Hlen].
  - wp_step. eapply wp_de_name; [done|]. wp_step. case_bool_decide as Hn; cbn [negb].
    + wp_step. by rewrite decide_True in HQ.
    + apply Hnext. rewrite decide_False; [done|]. tauto.
  - wp_step. apply Hnext. rewrite decide_False; [done|]. intros [_ He]. by rewrite He in Hlen.
Qed.

Lemma wp_valid_dirent pre r e post (Q : bool → dirfs → Prop) x : is_rec r e →
  Z.of_nat (length pre) + Z.of_nat (length r) <= bs → Q true x →
  wp (valid_dirent G (pre ++ r ++ post) (Z.of_nat (length pre))) Q x.
Proof.
  intros Hr Hl HQ. pose proof (rec_length r e Hr). pose proof (ir_fit _ _ Hr). unfold valid_dirent, EXT2_MIN_DIR_ENTRY_LEN.
  rewrite (proj2 (Z.ltb_ge _ _)) by lia. wp_step. eapply wp_de_rec_len; [done|]. rewrite (proj2 (Z.ltb_ge _ _)) by lia.
  wp_step. eapply wp_de_name_len; [done|]. rewrite (proj2 (Z.ltb_ge _ _)) by lia. wp_step.
  by rewrite (ir_mod _ _ Hr).
Qed.

(** An entry put into the space that another one does not need. *)
Lemma rec_split r e r' inum ftype name junk : is_rec r e → addable inum ftype name → Forall byte junk → length junk = 256%nat →
  let a := ext2_calculate_dirent_size (Z.of_nat (length (d_name e))) in
  let ds := ext2_calculate_dirent_size (Z.of_nat (length name)) in
  ds <= Z.of_nat (length r) - a → put_le 2 4 a r = Some r' →
  let entry := take (Z.to_nat ds) (dir_entry inum (Z.of_nat (length r) - a) (Z.of_nat (length name)) ftype name junk) in
  Z.of_nat (length entry) = ds ∧ ∃ r1 r2, copy_into r' a entry = r1 ++ r2 ∧ is_rec r1 e ∧ is_rec r2 (Dent inum name ftype) ∧
    length (r1 ++ r2) = length r.
Proof.
  intros Hr Had Hjb Hjl a ds Hfit Hp entry. pose proof (ad_len _ _ _ Had).
  destruct (dirent_size_bounds (Z.of_nat (length (d_name e)))) as [Ha Ham]; [pose proof (name_length r e Hr); lia|]. fold a in Ha, Ham.
  destruct (dirent_size_bounds (Z.of_nat (length name))) as [Hd Hdm]; [lia|]. fold ds in Hd, Hdm.
  pose proof (length_put_le _ _ _ _ _ Hp) as Hl. pose proof (put_le_bytes _ _ _ _ _ Hp (ir_bytes _ _ Hr)) as Hb'.
  set (r1 := take (Z.to_nat a) r'). set (t := drop (Z.to_nat a) r').
  assert (L1 : length r1 = Z.to_nat a) by (unfold r1; rewrite length_take; lia).
  assert (Lt : Z.of_nat (length t) = Z.of_nat (length r) - a) by (unfold t; rewrite length_drop; lia).
  pose proof (ir_mod _ _ Hr) as Hrm. pose proof (ir_max _ _ Hr).
  destruct (rec_fresh t inum ftype name junk) as [Le Hr2]; try done; [by apply Forall_drop|rewrite Lt; Z.to_euclidean_division_equations; lia|lia|lia|].
  rewrite Lt in Le, Hr2. fold ds in Le, Hr2. fold entry in Le, Hr2. split; [lia|].
  exists r1, (copy_into t 0 entry). split_and!.
  - apply copy_into_split. lia.
  - eapply (rec_resize r e r'); [done|by rewrite L1, Z2Nat.id by lia| |by apply Forall_take|rewrite L1, Z2Nat.id; lia|lia|lia].
    unfold r1. rewrite take_take. f_equal. lia.
  - done.
  - rewrite length_app, length_copy_into by lia. lia.
Qed.

(** The walk over a block that looks for room: [rs] is what is ahead of it. *)
Lemma wp_add_in_block fuel inum ftype name junk pre rs dir off x (Q : option Z → dirfs → Prop) :
  addable inum ftype name → Forall byte junk → length junk = 256%nat → row_ok rs → (length rs < fuel)%nat →
  Z.of_nat (length pre) + Z.of_nat (length (row_bytes rs)) = bs →
  (∀ rs', row_ok rs' → length (row_bytes rs') = length (row_bytes rs) → live rs' ≡ₚ Dent inum name ftype :: live rs →
    wp (st ← dir_write readpage prepare_write alloc dir (pre ++ row_bytes rs') off; mret (Some (if st <? 0 then st else 0))) Q x) →
  Q None x →
  wp (add_in_block G readpage prepare_write alloc fuel inum ftype name junk (pre ++ row_bytes rs) dir off (Z.of_nat (length pre))) Q x.
Proof.
  intros Had Hjb Hjl. revert fuel pre; induction rs as [|[r e] rs IH]; intros fuel pre Hok Hf Hl HQ HQ0;
    (destruct fuel as [|fuel]; [cbn in Hf; lia|]); cbn [add_in_block].
  { cbn in Hl. rewrite (proj2 (Z.leb_le _ _)) by lia. by wp_step. }
  apply list.Forall_cons in Hok as [Hr Hok]. cbn [fst snd] in Hr. rewrite row_bytes_cons in *. cbn [fst] in *. rewrite length_app in Hl.
  pose proof (rec_length r e Hr) as H8. rewrite (proj2 (Z.leb_gt _ _)) by lia.
  wp_step. eapply wp_valid_dirent; [done|lia|]. cbn [negb].
  set (ds := ext2_calculate_dirent_size (Z.of_nat (length name))).
  destruct (dirent_size_bounds (Z.of_nat (length name))) as [Hd _]; [pose proof (ad_len _ _ _ Had); lia|]. fold ds in Hd.
  wp_step. eapply wp_de_name_len; [done|]. wp_step. eapply wp_de_inode; [done|]. wp_step. eapply wp_de_rec_len; [done|].
  set (a := ext2_calculate_dirent_size (Z.of_nat (length (d_name e)))).
  destruct (dirent_size_bounds (Z.of_nat (length (d_name e)))) as [Hab _]; [pose proof (name_length r e Hr); lia|]. fold a in Hab.
  pose proof (put_le_total 2 4 a r ltac:(lia)) as (r' & Hp & Lp).
  assert (Hrest : wp (if (a <? Z.of_nat (length r)) && (ds <=? Z.of_nat (length r) - a) then
      buf ← store 2 (pre ++ r ++ row_bytes rs) (Z.of_nat (length pre) + 4) a;
      buf ← blit buf (Z.of_nat (length pre) + a)
        (take (Z.to_nat ds) (dir_entry inum (Z.of_nat (length r) - a) (Z.of_nat (length name)) ftype name junk));
      st ← dir_write readpage prepare_write alloc dir buf off;
      mret (Some (if st <? 0 then st else 0))
    else add_in_block G readpage prepare_write alloc fuel inum ftype name junk (pre ++ r ++ row_bytes rs) dir off
      (Z.of_nat (length pre) + Z.of_nat (length r))) Q x).
  { destruct (Z.ltb_spec a (Z.of_nat (length r))) as [Ha|Ha], (Z.leb_spec ds (Z.of_nat (length r) - a)) as [Hb|Hb]; cbn [andb];
      try (rewrite (app_assoc pre r); replace (Z.of_nat (length pre) + Z.of_nat (length r)) with (Z.of_nat (length (pre ++ r))) by (rewrite length_app; lia);
        apply IH; [done|cbn in Hf; lia|rewrite length_app; lia| |done]; intros rs' Hok' Hl' Hp'; rewrite <-app_assoc;
        apply (HQ ((r, e) :: rs')); [by constructor|rewrite row_bytes_cons, !length_app; cbn; lia|rewrite !live_cons, Hp'; symmetry; apply Permutation_middle]).
    destruct (rec_split r e r' inum ftype name junk) as (Le & r1 & r2 & Hc & Hr1 & Hr2 & L12); try done. fold a ds in Le, Hc.
    wp_step. eapply wp_store; [lia|done|]. wp_step. eapply wp_blit; [lia|lia|]. rewrite Hc, <-app_assoc.
    apply (HQ ((r1, e) :: (r2, Dent inum name ftype) :: rs)).
    - apply list.Forall_cons; split; [done|]. by apply list.Forall_cons.
    - rewrite !row_bytes_cons, !length_app in *. cbn [fst]. lia.
    - rewrite !(live_cons _ e), live_used by (pose proof (ad_ino _ _ _ Had); cbn; lia). symmetry. apply Permutation_middle. }
  destruct (Z.eqb_spec (d_ino e) 0) as [H0|H0], (Z.leb_spec ds (Z.of_nat (length r))) as [Hds|Hds]; cbn [andb].
  - destruct (put_le_total 4 0 inum r) as (r1 & H1 & L1); [lia|].
    destruct (put_le_total 1 6 (Z.of_nat (length name)) r1) as (r2 & H2 & L2); [lia|].
    set (str := take 254 name ++ [0]). assert (Hstr : (length str <= length name + 1)%nat) by (unfold str; rewrite length_app, length_take; cbn [length]; lia).
    destruct (put_le_total 1 7 ftype (copy_into r2 8 str)) as (r4 & H4 & L4); [rewrite length_copy_into; lia|].
    wp_step. rewrite <-(Z.add_0_r (Z.of_nat (length pre))) at 1. eapply wp_store; [lia|done|].
    wp_step. eapply wp_store; [lia|done|]. wp_step. eapply wp_blit; [lia|lia|]. wp_step. eapply wp_store; [lia|done|].
    specialize (HQ ((r4, Dent inum name ftype) :: rs)). rewrite row_bytes_cons in HQ. cbn [fst] in HQ. apply HQ.
    + apply list.Forall_cons. split; [|done]. eapply rec_reuse; [exact Hr|exact Had|lia|exact H1|exact H2|exact H4].
    + rewrite !length_app, L4, length_copy_into by lia. lia.
    + rewrite (live_unused r e) by done. rewrite live_used; [done|]. pose proof (ad_ino _ _ _ Had). cbn. lia.
  - done.
  - done.
  - done.
Qed.
End block.
