(* ===== verification/Ext2DirProps.v ===== *)
(** * Ext2DirProps: adding, finding and removing names in an ext2 directory

    A directory is a list of blocks of entries; its names are the entries in use.  Adding an entry
    adds a name, removing one removes it, and looking up finds exactly the names that are there. *)

From S2P Require Import Prelude Abi Bits Bytes FileCache FileCacheProps Ext2 Ext2Facts Ext2Props Ext2Dir Ext2DirFacts.

Definition dir_bytes (bss : list row) : list Z := concat (row_bytes <$> bss).
(** The names of a directory. *)
Definition names (bss : list row) : list dent := concat (live <$> bss).

Section dir.
Context (G : geometry) (HG : geometry_ok G).
Context (readpage : Z → Z → Z → Z * list Z) (prepare_write : Z → Z → Z → Z → Z) (alloc : Z → Z → bool).
(** What the file system has of each directory; there is memory to read it. *)
Context (stored : Z → Z → Z) (Hstored : ∀ ino, reads_store (readpage ino) (stored ino)) (Hmem : ∀ ino off, alloc ino off = true).
Abbreviation bs := (block_size G).

Record dir_ok (x : dirfs) (ino : Z) (bss : list row) : Prop := {
  do_cache : ∃ c, dirs x !! ino = Some c ∧ shows (stored ino) c (dir_bytes bss) ∧ no_gap c;
  do_blocks : Forall (block_ok G) bss;
  do_size : bs * Z.of_nat (length bss) < 2 ^ 59 }.

(** Only the directory [ino] was touched. *)
Definition elsewhere (ino : Z) (x x' : dirfs) : Prop :=
  d_state x' = d_state x ∧ ∀ j, j ≠ ino → dirs x' !! j = dirs x !! j.

Lemma elsewhere_refl ino x : elsewhere ino x x.
Proof. done. Qed.
Lemma elsewhere_trans ino x x1 x2 : elsewhere ino x x1 → elsewhere ino x1 x2 → elsewhere ino x x2.
Proof. intros [H1 H2] [H3 H4]. split; [congruence|]. intros j Hj. by rewrite H4, H2. Qed.

Lemma bs_cases : bs = 1024 ∨ bs = 2048 ∨ bs = 4096.
Proof.
  pose proof (go_shift _ HG). rewrite (go_size _ HG).
  assert (block_size_shift G = 10 ∨ block_size_shift G = 11 ∨ block_size_shift G = 12) as [->|[->| ->]] by lia; auto.
Qed.

Lemma length_dir_bytes bss : Forall (block_ok G) bss → Z.of_nat (length (dir_bytes bss)) = bs * Z.of_nat (length bss).
Proof.
  induction 1 as [|rs bss [_ Hrs] _ IH]; [cbn; lia|]. unfold dir_bytes in *. cbn [fmap list_fmap concat length]. rewrite length_app. lia.
Qed.

Lemma dir_bytes_app a b : dir_bytes (a ++ b) = dir_bytes a ++ dir_bytes b.
Proof. unfold dir_bytes. by rewrite fmap_app, concat_app. Qed.

Lemma names_app a b : names (a ++ b) = names a ++ names b.
Proof. unfold names. by rewrite fmap_app, concat_app. Qed.

(** A block replaced, or added at the end. *)
Definition replace_block (bss : list row) (k : nat) (rs : row) : list row := take k bss ++ rs :: drop (S k) bss.

Lemma replace_block_ok bss k rs : Forall (block_ok G) bss → block_ok G rs → Forall (block_ok G) (replace_block bss k rs).
Proof. intros H Hrs. apply Forall_app_2; [by apply Forall_take|]. apply list.Forall_cons. split; [done|by apply Forall_drop]. Qed.

Lemma dir_bytes_replace bss k rs : Forall (block_ok G) bss → block_ok G rs → (k <= length bss)%nat →
  dir_bytes (replace_block bss k rs) = copy_into (dir_bytes bss) (bs * Z.of_nat k) (row_bytes rs).
Proof.
  intros Hok [_ Hrs] Hk. unfold replace_block, copy_into.
  assert (Ht : Z.of_nat (length (dir_bytes (take k bss))) = bs * Z.of_nat k)
    by (rewrite length_dir_bytes by (by apply Forall_take); rewrite length_take; f_equal; lia).
  assert (Hpos : 0 < bs) by (pose proof bs_cases; lia).
  change (rs :: drop (S k) bss) with ([rs] ++ drop (S k) bss). rewrite !dir_bytes_app.
  replace (dir_bytes [rs]) with (row_bytes rs) by (unfold dir_bytes; cbn; by rewrite app_nil_r). f_equal; [|f_equal].
  - rewrite <-(take_drop k bss) at 2. rewrite dir_bytes_app, take_app_length'; [done|lia].
  - destruct (decide (k = length bss)) as [->|Hne].
    + rewrite !drop_ge; [done| |lia]. pose proof (length_dir_bytes bss Hok). lia.
    + rewrite <-(take_drop (S k) bss) at 2. rewrite dir_bytes_app. symmetry. apply drop_app_length'.
      apply Nat2Z.inj. rewrite length_dir_bytes by (by apply Forall_take). rewrite length_take. nia.
Qed.

Lemma dir_bytes_block bss k rs : Forall (block_ok G) bss → bss !! k = Some rs →
  take (Z.to_nat bs) (drop (Z.to_nat (bs * Z.of_nat k)) (dir_bytes bss)) = row_bytes rs.
Proof.
  intros Hok Hk. pose proof (lookup_lt_Some _ _ _ Hk) as Hlt. pose proof (proj1 (list.Forall_forall _ _) Hok rs (list_elem_of_lookup_2 _ _ _ Hk)) as [_ Hrs].
  assert (Ht : Z.of_nat (length (dir_bytes (take k bss))) = bs * Z.of_nat k)
    by (rewrite length_dir_bytes by (by apply Forall_take); rewrite length_take; f_equal; lia).
  rewrite <-(take_drop_middle bss k rs Hk) at 1. rewrite dir_bytes_app, drop_app_length' by lia.
  change (rs :: drop (S k) bss) with ([rs] ++ drop (S k) bss). rewrite dir_bytes_app.
  replace (dir_bytes [rs]) with (row_bytes rs) by (unfold dir_bytes; cbn; by rewrite app_nil_r).
  rewrite take_app_length'; [done|lia].
Qed.

(** ** Reading and writing blocks *)

Lemma wp_on_dir {A} ino c (m : M fcache A) (Q : A → dirfs → Prop) x : dirs x !! ino = Some c →
  wp m (λ a c', Q a (DirFS (d_state x) (<[ino := c']> (dirs x)))) c → wp (on_dir ino m) Q x.
Proof. intros Hc Hm. unfold wp, on_dir in *. rewrite Hc. by destruct (m c) as [[a c']|]. Qed.

Lemma elsewhere_on ino x c : elsewhere ino x (DirFS (d_state x) (<[ino := c]> (dirs x))).
Proof. split; [done|]. intros j Hj. cbn. by rewrite lookup_insert_ne. Qed.

Lemma dir_size_eq c bss ino : Forall (block_ok G) bss → shows (stored ino) c (dir_bytes bss) → FileCache.i_size c = bs * Z.of_nat (length bss).
Proof. intros Hb Hs. rewrite <-(length_dir_bytes bss Hb). symmetry. apply Hs. Qed.

Lemma wp_dir_size ino bss (Q : Z → dirfs → Prop) x : dir_ok x ino bss →
  (∀ x', dir_ok x' ino bss → elsewhere ino x x' → Q (bs * Z.of_nat (length bss)) x') → wp (dir_size ino) Q x.
Proof.
  intros [(c & Hc & Hs & Hg) Hb Hsz] HQ. eapply wp_on_dir; [done|]. wp_step. rewrite (dir_size_eq c bss ino Hb Hs).
  apply HQ; [|apply elsewhere_on]. split; [|done..]. exists c. cbn. by rewrite lookup_insert_eq.
Qed.

Lemma wp_dir_read ino bss k rs (Q : Z * list Z → dirfs → Prop) x : dir_ok x ino bss → bss !! k = Some rs →
  (∀ x', dir_ok x' ino bss → elsewhere ino x x' → Q (bs, row_bytes rs) x') →
  wp (dir_read readpage alloc ino bs (bs * Z.of_nat k)) Q x.
Proof.
  intros [(c & Hc & Hs & Hg) Hb Hsz] Hk HQ. eapply wp_on_dir; [done|]. pose proof bs_cases.
  pose proof (dir_size_eq c bss ino Hb Hs) as Hi. pose proof (lookup_lt_Some _ _ _ Hk) as Hlt.
  pose proof (proj1 (list.Forall_forall _ _) Hb rs (list_elem_of_lookup_2 _ _ _ Hk)) as [_ Hrs].
  eapply wp_mono; [apply (wp_file_read _ (λ _ _ _, 0) _ _ (stored ino) (Hstored ino) c (dir_bytes bss)); [done|nia|lia|lia]|].
  intros res c' (Hs' & Hgap & _ & _ & Hres). rewrite (dir_bytes_block bss k rs Hb Hk) in Hres. rewrite Hres; [|split; [apply Hmem|done]].
  rewrite Hrs. apply HQ; [|apply elsewhere_on]. split; [|done..]. exists c'. cbn. rewrite lookup_insert_eq. split_and!; auto.
Qed.

(** A block is within one page. *)
Lemma block_in_page k : 0 <= k → (bs * k) mod 4096 + bs <= 4096.
Proof. intros Hk. destruct bs_cases as [->|[->| ->]]; Z.to_euclidean_division_equations; lia. Qed.

(** Writing a block: it replaces the one there or is added at the end, or there is no room for it and
    the directory stays as it was. *)
Lemma wp_dir_write ino bss k rs (Q : Z → dirfs → Prop) x : dir_ok x ino bss → (k <= length bss)%nat → block_ok G rs →
  bs * (Z.of_nat (length bss) + 1) < 2 ^ 59 →
  (∀ x', dir_ok x' ino (replace_block bss k rs) → elsewhere ino x x' → Q bs x') →
  (∀ st x', st < 0 → ¬ has_room (prepare_write ino) → dir_ok x' ino bss → elsewhere ino x x' → Q st x') →
  wp (dir_write readpage prepare_write alloc ino (row_bytes rs) (bs * Z.of_nat k)) Q x.
Proof.
  intros [(c & Hc & Hs & Hg) Hb Hsz] Hk Hrs Hmax HQ HQ'. eapply wp_on_dir; [done|]. pose proof bs_cases. destruct Hrs as [Hrok Hrl].
  pose proof (dir_size_eq c bss ino Hb Hs) as Hi.
  eapply wp_mono; [apply (wp_file_write _ (prepare_write ino) (alloc ino) (λ _, true) (stored ino) (Hstored ino) c (dir_bytes bss)); [done|nia|lia|nia]|].
  intros r c' (k' & Hk' & Hr & Hs' & Hone & Hgood).
  destruct (Hgood (conj (Hmem ino) (λ _, eq_refl)) Hg) as (Hg' & Hall & Hroom). rewrite Hrl in Hone.
  destruct (decide (r < 0)) as [Hneg|Hpos].
  - destruct (Hone (block_in_page (Z.of_nat k) ltac:(lia)) Hneg) as [-> _]. rewrite take_0, splice_nil in Hs'.
    apply HQ'; [done|intros Hro; specialize (Hroom Hro); lia| |apply elsewhere_on].
    split; [|done..]. exists c'. cbn. rewrite lookup_insert_eq. by split_and!.
  - specialize (Hall ltac:(lia)). subst k'. rewrite firstn_all in Hs'. rewrite Hr by lia. rewrite Z.add_0_l, Hrl.
    apply HQ; [|apply elsewhere_on]. split.
    + exists c'. cbn. rewrite lookup_insert_eq. split_and!; [done| |done]. by rewrite dir_bytes_replace.
    + by apply replace_block_ok.
    + unfold replace_block. rewrite length_app, length_take. cbn [length]. rewrite length_drop. nia.
Qed.

(** ** Looking up a name *)

(** Where a name is: the block, the entries in front of it and behind it. *)
Definition found (bss : list row) (name : list Z) (res : ext2_dirent_result) (e : dent) : Prop :=
  d_ino e ≠ 0 ∧ d_name e = name ∧ ∃ k rs1 r rs2, bss !! k = Some (rs1 ++ (r, e) :: rs2) ∧
    block_off res = Z.of_nat (length (row_bytes rs1)) ∧ file_off res = bs * Z.of_nat k + block_off res ∧
    res_buf res = row_bytes (rs1 ++ (r, e) :: rs2).

Definition absent (bss : list row) (name : list Z) : Prop := ∀ e, e ∈ names bss → d_name e ≠ name.

Lemma read_into_full buf bytes : length buf = length bytes → read_into buf bytes = bytes.
Proof. intros H. unfold read_into. by rewrite drop_ge, app_nil_r by lia. Qed.

Lemma names_take_S bss k rs : bss !! k = Some rs → names (take (S k) bss) = names (take k bss) ++ live rs.
Proof.
  intros Hk. rewrite (take_S_r _ _ _ Hk), names_app. f_equal. unfold names. cbn. by rewrite app_nil_r.
Qed.

Lemma wp_retrieve_from fuel name buf dir bss k x : dir_ok x dir bss → (k <= length bss)%nat → (length bss - k < fuel)%nat →
  Z.of_nat (length buf) = bs → absent (take k bss) name →
  wp (retrieve_from G readpage alloc fuel name buf dir (bs * Z.of_nat k)) (λ r x', dir_ok x' dir bss ∧ elsewhere dir x x' ∧
    match r with inl res => ∃ e, found bss name res e | inr err => err = - ENOENT ∧ absent bss name end) x.
Proof.
  revert buf k x; induction fuel as [|fuel IH]; intros buf k x Hok Hk Hf Hbl Hab; [lia|]. cbn [retrieve_from].
  pose proof bs_cases as Hbs. wp_step. eapply wp_dir_size; [done|]. intros x1 Hok1 He1.
  destruct (Z.ltb_spec (bs * Z.of_nat k) (bs * Z.of_nat (length bss))) as [Hin|Hin]; cbn [negb].
  2:{ wp_step. split_and!; [done..|]. assert (k = length bss) as -> by nia. by rewrite firstn_all in Hab. }
  destruct (lookup_lt_is_Some_2 bss k) as [rs Hrs]; [nia|]. wp_step. eapply wp_dir_read; [done..|]. intros x2 Hok2 He2.
  pose proof (proj1 (list.Forall_forall _ _) (do_blocks _ _ _ Hok) rs (list_elem_of_lookup_2 _ _ _ Hrs)) as Hb.
  rewrite (proj2 (Z.ltb_ge _ _)) by lia. rewrite read_into_full by (destruct Hb; lia).
  wp_step. change 0 with (Z.of_nat (length (@nil Z))). change (row_bytes rs) with ([] ++ row_bytes rs) at 1.
  apply wp_find_in_block; [apply Hb|by apply block_fuel_ok|destruct Hb; cbn; lia|]. change (Z.of_nat (length (@nil Z))) with 0.
  pose proof (elsewhere_trans _ _ _ _ He1 He2). destruct (locate name rs 0) as [[j e]|] eqn:Hloc; cbn [fmap option_fmap option_map fst].
  - wp_step. split_and!; [done..|]. apply locate_Some in Hloc as (Hi & Hn & rs1 & r & rs2 & -> & ->). exists e. split_and!; [done..|].
    exists k, rs1, r, rs2. cbn. split_and!; [done|lia|lia|done].
  - replace (bs * Z.of_nat k + bs) with (bs * Z.of_nat (S k)) by lia.
    eapply wp_mono; [apply (IH _ (S k) x2); [done|nia|nia|destruct Hb; lia|]|].
    + intros e. rewrite (names_take_S _ _ _ Hrs), elem_of_app. intros [He|He]; [by apply Hab|]. eapply locate_None; [exact Hloc|done].
    + intros r x' (? & ? & ?). split_and!; [done|by eapply elsewhere_trans|done].
Qed.

(** ** Adding a name *)

Lemma row_bytes_are_bytes rs : row_ok rs → Forall byte (row_bytes rs).
Proof. induction 1 as [|[r e] rs Hr _ IH]; [constructor|]. rewrite row_bytes_cons. apply Forall_app_2; [apply Hr|done]. Qed.

Lemma names_replace bss k rs : bss !! k = Some rs →
  ∀ rs', names (replace_block bss k rs') = names (take k bss) ++ live rs' ++ names (drop (S k) bss) ∧
  names bss = names (take k bss) ++ live rs ++ names (drop (S k) bss).
Proof.
  intros Hk rs'. assert (Hc : ∀ r, names (take k bss ++ r :: drop (S k) bss) = names (take k bss) ++ live r ++ names (drop (S k) bss)).
  { intros r. by rewrite names_app. }
  split; [apply Hc|]. rewrite <-(take_drop_middle bss k rs Hk) at 1. apply Hc.
Qed.

(** What adding a name has done. *)
Definition added (dir : Z) (bss : list row) (e : dent) (r : Z) (x x' : dirfs) : Prop := elsewhere dir x x' ∧
  ((r = 0 ∧ ∃ bss', dir_ok x' dir bss' ∧ names bss' ≡ₚ e :: names bss) ∨
   (r < 0 ∧ ¬ has_room (prepare_write dir) ∧ dir_ok x' dir bss)).

Lemma wp_add_from fuel inum ftype name junk buf dir bss k x : dir_ok x dir bss →
  bs * (Z.of_nat (length bss) + 1) < 2 ^ 59 → addable inum ftype name → Forall byte junk → length junk = 256%nat →
  (k <= length bss)%nat → (length bss - k < fuel)%nat → Z.of_nat (length buf) = bs → Forall byte buf →
  wp (add_from G readpage prepare_write alloc fuel inum ftype name junk buf dir (bs * Z.of_nat k))
    (λ r x', added dir bss (Dent inum name ftype) r x x') x.
Proof.
  revert buf k x; induction fuel as [|fuel IH]; intros buf k x Hok Hmax Had Hjb Hjl Hk Hf Hbl Hbb; [lia|]. cbn [add_from].
  pose proof bs_cases as Hbs. wp_step. eapply wp_dir_size; [done|]. intros x1 Hok1 He1.
  destruct (Z.ltb_spec (bs * Z.of_nat k) (bs * Z.of_nat (length bss))) as [Hin|Hin].
  - destruct (lookup_lt_is_Some_2 bss k) as [rs Hrs]; [nia|]. wp_step. eapply wp_dir_read; [done..|]. intros x2 Hok2 He2.
    pose proof (proj1 (list.Forall_forall _ _) (do_blocks _ _ _ Hok) rs (list_elem_of_lookup_2 _ _ _ Hrs)) as Hb.
    rewrite (proj2 (Z.ltb_ge _ _)) by lia. rewrite read_into_full by (destruct Hb; lia). pose proof (elsewhere_trans _ _ _ _ He1 He2) as He.
    wp_step. apply (wp_add_in_block _ _ _ _ _ _ _ _ _ []); [done..|apply Hb|by apply block_fuel_ok|destruct Hb; cbn; lia| |].
    + intros rs' Hok' Hl' Hp'. wp_step. eapply wp_dir_write; [done|done|split; [done|destruct Hb; lia]|done| |].
      * intros x3 Hok3 He3. wp_step. rewrite (proj2 (Z.ltb_ge _ _)) by lia. wp_step. split; [by eapply elsewhere_trans|]. left. split; [done|].
        eexists. split; [done|]. destruct (names_replace bss k rs Hrs rs') as [-> ->]. rewrite Hp'. cbn [app]. symmetry. apply Permutation_middle.
      * intros st x3 Hst Hro Hok3 He3. wp_step. rewrite (proj2 (Z.ltb_lt _ _)) by lia. wp_step. split; [by eapply elsewhere_trans|]. auto.
    + replace (bs * Z.of_nat k + bs) with (bs * Z.of_nat (S k)) by lia.
      eapply wp_mono; [apply (IH _ (S k) x2); try done; [nia|nia|destruct Hb; lia|apply row_bytes_are_bytes, Hb]|].
      intros r x' [? ?]. split; [by eapply elsewhere_trans|done].
  - assert (k = length bss) as -> by nia.
    pose proof (ad_len _ _ _ Had) as Hnl. destruct (dirent_size_bounds (Z.of_nat (length name))) as [Hd _]; [lia|].
    destruct (rec_fresh buf inum ftype name junk) as [Le Hrec]; [done..|rewrite Hbl; destruct Hbs as [->|[->| ->]]; done|lia|lia|].
    rewrite Hbl in Le, Hrec. set (entry := take _ _) in Le, Hrec. fold entry.
    assert (Lc : length (copy_into buf 0 entry) = length buf) by (apply length_copy_into; lia). set (new := [(copy_into buf 0 entry, Dent inum name ftype)] : row).
    assert (Hn : row_bytes new = copy_into buf 0 entry) by apply app_nil_r.
    wp_step. unfold blit. wp_step. wp_bounds. wp_step. rewrite <-Hn. wp_step. eapply wp_dir_write; [done|done| |done| |].
    + split; [|rewrite Hn; lia]. apply list.Forall_cons. split; [exact Hrec|by apply list.Forall_nil].
    + intros x2 Hok2 He2. wp_step. rewrite (proj2 (Z.ltb_ge _ _)) by lia. split; [by eapply elsewhere_trans|]. left. split; [done|].
      eexists. split; [done|]. unfold replace_block. rewrite firstn_all, drop_ge by lia. rewrite names_app.
      replace (names [new]) with [Dent inum name ftype]; [symmetry; apply Permutation_cons_append|].
      unfold names, new, live. cbn. pose proof (ad_ino _ _ _ Had). rewrite decide_True by (cbn; lia). done.
    + intros st x2 Hst Hro Hok2 He2. wp_step. rewrite (proj2 (Z.ltb_lt _ _)) by lia. split; [by eapply elsewhere_trans|]. auto.
Qed.

Lemma dir_fuel_ok (bss : list row) : (length bss < dir_fuel G (bs * Z.of_nat (length bss)))%nat.
Proof. pose proof bs_cases. unfold dir_fuel. rewrite Z.mul_comm, Z.div_mul by lia. lia. Qed.

Lemma length_zeroes (z : Z) : Z.of_nat (length (replicate (Z.to_nat bs) z)) = bs.
Proof. pose proof bs_cases. rewrite length_replicate. lia. Qed.

Lemma type_indicator_range mode : 0 <= ext2_file_type_to_type_indicator mode < 256.
Proof. unfold ext2_file_type_to_type_indicator. repeat case_match; done. Qed.

Lemma wp_retrieve name dir bss x : dir_ok x dir bss →
  wp (ext2_retrieve_dirent G readpage alloc true name dir) (λ r x', dir_ok x' dir bss ∧ elsewhere dir x x' ∧
    match r with inl res => ∃ e, found bss name res e | inr err => err = - ENOENT ∧ absent bss name end) x.
Proof.
  intros Hok. unfold ext2_retrieve_dirent. cbn [negb]. wp_step. eapply wp_dir_size; [done|]. intros x1 Hok1 He1.
  replace 0 with (bs * Z.of_nat 0) by lia.
  eapply wp_mono; [apply (wp_retrieve_from _ name _ dir bss 0 x1); [done|lia| |apply length_zeroes|]|].
  - pose proof (dir_fuel_ok bss). lia.
  - intros e He. by apply not_elem_of_nil in He.
  - intros r x2 (? & ? & ?). split_and!; [done|by eapply elsewhere_trans|done].
Qed.

Lemma wp_add_direntry name junk inum mode dir bss x : dir_ok x dir bss → bs * (Z.of_nat (length bss) + 1) < 2 ^ 59 →
  addable inum (ext2_file_type_to_type_indicator mode) name → Forall byte junk → length junk = 256%nat →
  wp (ext2_add_direntry G readpage prepare_write alloc true name junk inum mode dir)
    (λ r x', added dir bss (Dent inum name (ext2_file_type_to_type_indicator mode)) r x x') x.
Proof.
  intros Hok Hmax Had Hjb Hjl. unfold ext2_add_direntry. cbn [negb]. wp_step.
  pose proof (ad_ino _ _ _ Had). wp_step; [by rewrite (proj2 (Z.eqb_neq _ _)) by lia|]. wp_step. eapply wp_dir_size; [done|]. intros x1 Hok1 He1.
  replace 0 with (bs * Z.of_nat 0) by lia.
  eapply wp_mono; [apply (wp_add_from _ _ _ _ _ _ dir bss 0 x1); [done..|lia| |apply length_zeroes|]|].
  - pose proof (dir_fuel_ok bss). lia.
  - apply Forall_replicate. rewrite Z.mul_0_r. done.
  - intros r x2 [? ?]. split; [by eapply elsewhere_trans|done].
Qed.

(** ** Is a directory empty? *)

(** A name other than the two every directory has. *)
Definition has_names (l : list dent) : bool := existsb (λ e, negb (ext2_is_standard_dir_link (d_name e))) l.

Lemma has_names_app a b : has_names (a ++ b) = has_names a || has_names b.
Proof. apply existsb_app. Qed.

Lemma wp_used_in_block fuel pre rs (Q : bool → dirfs → Prop) x : row_ok rs → (length rs < fuel)%nat →
  Z.of_nat (length pre) + Z.of_nat (length (row_bytes rs)) = bs → Q (has_names (live rs)) x →
  wp (used_in_block G fuel (pre ++ row_bytes rs) (Z.of_nat (length pre))) Q x.
Proof.
  revert fuel pre; induction rs as [|[r e] rs IH]; intros fuel pre Hok Hf Hl HQ; (destruct fuel as [|fuel]; [cbn in Hf; lia|]); cbn [used_in_block].
  { cbn in Hl. rewrite (proj2 (Z.leb_le _ _)) by lia. by wp_step. }
  apply list.Forall_cons in Hok as [Hr Hok]. cbn [fst snd] in Hr. rewrite row_bytes_cons in *. cbn [fst] in *. rewrite length_app in Hl.
  pose proof (rec_length r e Hr) as H8. rewrite (proj2 (Z.leb_gt _ _)) by lia.
  wp_step. eapply wp_de_inode; [done|].
  assert (Hnext : has_names (live ((r, e) :: rs)) = has_names (live rs) →
    wp (rec_len ← de_rec_len (pre ++ r ++ row_bytes rs) (Z.of_nat (length pre)); used_in_block G fuel (pre ++ r ++ row_bytes rs) (Z.of_nat (length pre) + rec_len)) Q x).
  { intros Hh. wp_step. eapply wp_de_rec_len; [done|]. rewrite app_assoc, <-Nat2Z.inj_add, <-length_app.
    apply IH; [done|cbn in Hf; lia|rewrite length_app; lia|by rewrite <-Hh]. }
  destruct (Z.eqb_spec (d_ino e) 0) as [H0|H0].
  - do 2 wp_step. apply Hnext. by rewrite live_unused.
  - rewrite live_used in * by done. do 2 wp_step. eapply wp_de_name_len; [done|]. wp_step. eapply wp_de_name; [done|]. wp_step. rewrite negb_involutive.
    unfold has_names in *. cbn [existsb] in *. destruct (ext2_is_standard_dir_link (d_name e)); cbn [negb orb] in *; [by apply Hnext|by wp_step].
Qed.

Lemma wp_dir_empty_from fuel buf dir bss k (Q : Z → dirfs → Prop) x : dir_ok x dir bss → (k <= length bss)%nat → (length bss - k < fuel)%nat →
  Z.of_nat (length buf) = bs →
  (∀ x', dir_ok x' dir bss → elsewhere dir x x' → Q (if has_names (names (drop k bss)) then 0 else 1) x') →
  wp (dir_empty_from G readpage alloc fuel buf dir (bs * Z.of_nat k)) Q x.
Proof.
  revert buf k x; induction fuel as [|fuel IH]; intros buf k x Hok Hk Hf Hbl HQ; [lia|]. cbn [dir_empty_from].
  pose proof bs_cases as Hbs. wp_step. eapply wp_dir_size; [done|]. intros x1 Hok1 He1.
  destruct (Z.ltb_spec (bs * Z.of_nat k) (bs * Z.of_nat (length bss))) as [Hin|Hin]; cbn [negb].
  - destruct (lookup_lt_is_Some_2 bss k) as [rs Hrs]; [nia|]. wp_step. eapply wp_dir_read; [done..|]. intros x2 Hok2 He2.
    pose proof (proj1 (list.Forall_forall _ _) (do_blocks _ _ _ Hok) rs (list_elem_of_lookup_2 _ _ _ Hrs)) as Hb.
    rewrite (proj2 (Z.ltb_ge _ _)) by lia. rewrite read_into_full by (destruct Hb; lia). pose proof (elsewhere_trans _ _ _ _ He1 He2) as He.
    wp_step. apply (wp_used_in_block _ []); [apply Hb|by apply block_fuel_ok|destruct Hb; cbn; lia|].
    rewrite (drop_S _ _ _ Hrs) in HQ. change (rs :: drop (S k) bss) with ([rs] ++ drop (S k) bss) in HQ.
    replace (names ([rs] ++ drop (S k) bss)) with (live rs ++ names (drop (S k) bss)) in HQ by done. rewrite has_names_app in HQ.
    destruct (has_names (live rs)); cbn [orb negb] in *; [wp_step; by apply HQ|].
    replace (bs * Z.of_nat k + bs) with (bs * Z.of_nat (S k)) by lia.
    apply (IH _ (S k) x2); [done|nia|nia|destruct Hb; lia|]. intros x' ? ?. apply HQ; [done|by eapply elsewhere_trans].
  - wp_step. assert (k = length bss) as -> by nia. rewrite drop_ge in HQ by lia. by apply HQ.
Qed.

Lemma wp_dir_empty dir bss (Q : Z → dirfs → Prop) x : dir_ok x dir bss →
  (∀ x', dir_ok x' dir bss → elsewhere dir x x' → Q (if has_names (names bss) then 0 else 1) x') →
  wp (ext2_dir_empty G readpage alloc true dir) Q x.
Proof.
  intros Hok HQ. unfold ext2_dir_empty. cbn [negb]. wp_step. eapply wp_dir_size; [done|]. intros x1 Hok1 He1.
  replace 0 with (bs * Z.of_nat 0) by lia. apply (wp_dir_empty_from _ _ dir bss 0); [done|lia| |apply length_zeroes|].
  - pose proof (dir_fuel_ok bss). lia.
  - intros x' ? ?. apply HQ; [done|by eapply elsewhere_trans].
Qed.

(** ** Removing a name *)

Lemma wp_find_before fuel pre rs r0 e0 post (Q : option Z → dirfs → Prop) x : row_ok (rs ++ [(r0, e0)]) → (length rs < fuel)%nat →
  Q (Some (Z.of_nat (length pre) + Z.of_nat (length (row_bytes rs)))) x →
  wp (find_before fuel (pre ++ row_bytes (rs ++ [(r0, e0)]) ++ post) (Z.of_nat (length pre))
       (Z.of_nat (length pre) + Z.of_nat (length (row_bytes (rs ++ [(r0, e0)]))))) Q x.
Proof.
  revert fuel pre; induction rs as [|[r e] rs IH]; intros fuel pre Hok Hf HQ; (destruct fuel as [|fuel]; [cbn in Hf; lia|]);
    cbn [find_before]; rewrite <-?app_comm_cons, ?app_nil_l in *; apply list.Forall_cons in Hok as [Hr Hok]; cbn [fst snd] in Hr; rewrite row_bytes_cons in *; cbn [fst] in *.
  - pose proof (rec_length r0 e0 Hr). change (row_bytes []) with (@nil Z) in *. rewrite app_nil_r. rewrite (proj2 (Z.leb_gt _ _)) by lia.
    wp_step. eapply wp_de_rec_len; [done|]. rewrite Z.eqb_refl. wp_step. cbn in HQ. by rewrite Z.add_0_r in HQ.
  - pose proof (rec_length r e Hr). rewrite !length_app in *. rewrite (proj2 (Z.leb_gt _ _)) by lia.
    wp_step. rewrite <-app_assoc. eapply wp_de_rec_len; [done|].
    assert (8 <= length (row_bytes (rs ++ [(r0, e0)])))%nat by (apply row_length in Hok; rewrite length_app in Hok; cbn [length] in Hok; lia).
    rewrite (proj2 (Z.eqb_neq _ _)) by lia. rewrite (app_assoc pre), <-Nat2Z.inj_add, <-(length_app pre).
    replace (Z.of_nat (length pre) + Z.of_nat (length r + length (row_bytes (rs ++ [(r0, e0)]))))
      with (Z.of_nat (length (pre ++ r)) + Z.of_nat (length (row_bytes (rs ++ [(r0, e0)])))) by (rewrite length_app; lia).
    apply IH; [done|cbn in Hf; lia|]. rewrite length_app. by rewrite Nat2Z.inj_add in *; rewrite Z.add_assoc in HQ.
Qed.

(** An entry that is not the first of its block becomes a part of the one in front of it, the first
    one becomes unused: in both cases its name is gone and the others are still there. *)
Lemma wp_unlink_first r e rs2 x : row_ok ((r, e) :: rs2) → d_ino e ≠ 0 →
  wp (ext2_unlink_dirent (row_bytes ((r, e) :: rs2)) None 0) (λ buf x', x' = x ∧ ∃ rs', row_ok rs' ∧ buf = row_bytes rs' ∧
    length (row_bytes rs') = length (row_bytes ((r, e) :: rs2)) ∧ live ((r, e) :: rs2) = e :: live rs') x.
Proof.
  intros Hok H0. apply list.Forall_cons in Hok as [Hr Hok]. cbn [fst snd] in Hr. pose proof (rec_length r e Hr).
  pose proof (put_le_total 4 0 0 r ltac:(lia)) as (r' & Hp & Lp). unfold ext2_unlink_dirent. rewrite row_bytes_cons. cbn [fst].
  wp_step. apply (wp_de_rec_len [] r (row_bytes rs2) e Hr). wp_step. wp_step.
  apply (wp_store [] r (row_bytes rs2) 4 0 0 r'); [lia|done|]. split; [done|].
  exists ((r', Dent 0 (d_name e) (d_type e)) :: rs2). split_and!.
  - apply list.Forall_cons. split; [|done]. eapply rec_set_ino; [done..|lia].
  - done.
  - rewrite row_bytes_cons, !length_app. cbn [fst]. lia.
  - by rewrite live_used, live_unused.
Qed.

Lemma wp_unlink_behind rs0 r0 e0 r e rs2 x : row_ok (rs0 ++ (r0, e0) :: (r, e) :: rs2) → d_ino e ≠ 0 →
  Z.of_nat (length (row_bytes (rs0 ++ (r0, e0) :: (r, e) :: rs2))) = bs →
  wp (ext2_unlink_dirent (row_bytes (rs0 ++ (r0, e0) :: (r, e) :: rs2)) (Some (Z.of_nat (length (row_bytes rs0))))
       (Z.of_nat (length (row_bytes (rs0 ++ [(r0, e0)])))))
    (λ buf x', x' = x ∧ ∃ rs', row_ok rs' ∧ buf = row_bytes rs' ∧
      length (row_bytes rs') = length (row_bytes (rs0 ++ (r0, e0) :: (r, e) :: rs2)) ∧ live (rs0 ++ (r0, e0) :: (r, e) :: rs2) ≡ₚ e :: live rs') x.
Proof.
  intros Hok H0 Hl. apply Forall_app in Hok as [Hok0 Hok]. apply list.Forall_cons in Hok as [Hr0 Hok]. apply list.Forall_cons in Hok as [Hr Hok].
  cbn [fst snd] in Hr0, Hr. pose proof (rec_length r e Hr). pose proof (rec_length r0 e0 Hr0). pose proof bs_cases as Hbs.
  set (n := Z.of_nat (length r0) + Z.of_nat (length r)).
  assert (Hn : n < 2 ^ 16) by (rewrite row_bytes_app, !row_bytes_cons, !length_app in Hl; cbn [fst] in Hl; unfold n; lia).
  pose proof (put_le_total 2 4 n r0 ltac:(lia)) as (r0' & Hp0 & Lp0). pose proof (put_le_total 4 0 0 r ltac:(lia)) as (r' & Hp & Lp).
  assert (Hrec : is_rec (r0' ++ r') e0).
  { eapply rec_resize; [done|by rewrite length_app, Lp0, Lp, Nat2Z.inj_add| | | | |].
    - pose proof (ir_fit _ _ Hr0). rewrite take_app_le by lia. done.
    - apply Forall_app_2; eapply put_le_bytes; try done; apply Hr0 || apply Hr.
    - rewrite length_app, Lp0, Lp. rewrite Nat2Z.inj_add, Z.add_mod by lia. by rewrite (ir_mod _ _ Hr0), (ir_mod _ _ Hr).
    - rewrite length_app, Lp0, Lp. lia.
    - rewrite length_app. pose proof (ir_fit _ _ Hr0). lia. }
  unfold ext2_unlink_dirent. rewrite !row_bytes_app, !row_bytes_cons. cbn [fst]. rewrite app_nil_r.
  assert (Hre : row_bytes rs0 ++ r0 ++ r ++ row_bytes rs2 = (row_bytes rs0 ++ r0) ++ r ++ row_bytes rs2) by by rewrite app_assoc.
  wp_step. rewrite Hre. apply (wp_de_rec_len _ r (row_bytes rs2) e Hr). rewrite <-Hre. wp_step.
  rewrite length_app. replace (u16 _) with n by (unfold n; symmetry; rewrite u16_small; lia).
  apply (wp_store (row_bytes rs0) r0 (r ++ row_bytes rs2) 2 4 n r0'); [lia|done|].
  rewrite <-Lp0, <-length_app, app_assoc. rewrite <-(Z.add_0_r (Z.of_nat _)). apply (wp_store _ r (row_bytes rs2) 4 0 0 r'); [lia|done|].
  split; [done|]. exists (rs0 ++ (r0' ++ r', e0) :: rs2). split_and!.
  - apply Forall_app_2; [done|]. by apply list.Forall_cons.
  - rewrite row_bytes_app, row_bytes_cons. cbn [fst]. by rewrite <-!app_assoc.
  - rewrite row_bytes_app, row_bytes_cons, !length_app. cbn [fst]. rewrite length_app. lia.
  - rewrite !live_app, !(live_cons _ e0), (live_used _ e) by done. rewrite !app_assoc. symmetry. apply Permutation_middle.
Qed.

(** What removing the entry [e] has done. *)
Definition removed (dir : Z) (bss : list row) (e : dent) (r : Z) (x x' : dirfs) : Prop := elsewhere dir x x' ∧
  ((r = 0 ∧ ∃ bss', dir_ok x' dir bss' ∧ names bss ≡ₚ e :: names bss') ∨
   (r = - EIO ∧ ¬ has_room (prepare_write dir) ∧ dir_ok x' dir bss)).

Lemma wp_unlink_write dir bss k rs rs' e x : dir_ok x dir bss → bs * (Z.of_nat (length bss) + 1) < 2 ^ 59 → bss !! k = Some rs →
  row_ok rs' → length (row_bytes rs') = length (row_bytes rs) → live rs ≡ₚ e :: live rs' →
  wp (st ← dir_write readpage prepare_write alloc dir (row_bytes rs') (bs * Z.of_nat k); mret (if st <? 0 then - EIO else 0))
    (λ r x', removed dir bss e r x x') x.
Proof.
  intros Hok Hmax Hk Hrs' Hl Hp. pose proof bs_cases. pose proof (lookup_lt_Some _ _ _ Hk) as Hlt.
  pose proof (proj1 (list.Forall_forall _ _) (do_blocks _ _ _ Hok) rs (list_elem_of_lookup_2 _ _ _ Hk)) as [_ Hb].
  wp_step. eapply wp_dir_write; [done|lia|split; [done|lia]|done| |].
  - intros x1 Hok1 He1. wp_step. rewrite (proj2 (Z.ltb_ge _ _)) by lia. split; [done|]. left. split; [done|].
    eexists. split; [done|]. destruct (names_replace bss k rs Hk rs') as [-> ->]. rewrite Hp. cbn [app]. symmetry. apply Permutation_middle.
  - intros st x1 Hst Hro Hok1 He1. wp_step. rewrite (proj2 (Z.ltb_lt _ _)) by lia. split; [done|]. auto.
Qed.

Lemma wp_unlink_found name dir bss res e x : dir_ok x dir bss → bs * (Z.of_nat (length bss) + 1) < 2 ^ 59 → found bss name res e →
  wp (before ← (if block_off res =? 0 then mret None
                else b ← find_before (block_fuel G) (res_buf res) 0 (block_off res);
                     check (bool_decide (is_Some b)) AssertFailed;; mret b : M dirfs (option Z));
      buf ← ext2_unlink_dirent (res_buf res) before (block_off res);
      st ← dir_write readpage prepare_write alloc dir buf (file_off res - block_off res);
      mret (if st <? 0 then - EIO else 0)) (λ r x', removed dir bss e r x x') x.
Proof.
  intros Hok Hmax (H0 & _ & k & rs1 & r & rs2 & Hk & Hbo & Hfo & ->).
  replace (file_off res - block_off res) with (bs * Z.of_nat k) by lia. rewrite Hbo. clear Hbo Hfo res.
  pose proof (proj1 (list.Forall_forall _ _) (do_blocks _ _ _ Hok) _ (list_elem_of_lookup_2 _ _ _ Hk)) as Hb. destruct Hb as [Hro Hbl].
  destruct rs1 as [|[r0 e0] rs0 _] using rev_ind.
  - cbn [length row_bytes fmap list_fmap concat Z.of_nat]. rewrite Z.eqb_refl. do 3 wp_step. eapply wp_mono; [by apply wp_unlink_first|].
    cbn beta. intros buf x' (-> & rs' & Hrs' & -> & Hl' & Hlive). eapply (wp_unlink_write dir bss k _ rs'); [done..|]. change ([] ++ (r, e) :: rs2) with ((r, e) :: rs2). by rewrite Hlive.
  - rewrite <-app_assoc in *. cbn [app] in *. pose proof Hro as Hro'. apply Forall_app in Hro' as [Hr0 Hr1]. apply list.Forall_cons in Hr1 as [Hr1 _].
    assert (Hro1 : row_ok (rs0 ++ [(r0, e0)])) by (apply Forall_app_2; [done|by constructor]).
    assert (8 <= length (row_bytes (rs0 ++ [(r0, e0)])))%nat by (apply row_length in Hro1; rewrite length_app in Hro1; cbn [length] in Hro1; lia).
    rewrite (proj2 (Z.eqb_neq _ _)) by lia. do 2 wp_step.
    replace (row_bytes (rs0 ++ (r0, e0) :: (r, e) :: rs2)) with ([] ++ row_bytes (rs0 ++ [(r0, e0)]) ++ row_bytes ((r, e) :: rs2)) at 1
      by (rewrite <-row_bytes_app, <-app_assoc; done).
    apply (wp_find_before _ []); [done|pose proof (block_fuel_ok G _ (conj Hro Hbl)) as Hf; rewrite length_app in Hf; lia|].
    wp_step. wp_step; [done|]. do 2 wp_step. eapply wp_mono; [by apply wp_unlink_behind|].
    cbn beta. intros buf x' (-> & rs' & Hrs' & -> & Hl' & Hlive). by eapply wp_unlink_write.
Qed.

(** The other directories of [tree] are as they were. *)
Definition others_kept (tree : Z → list row) (dir : Z) (x x' : dirfs) : Prop :=
  d_state x' = d_state x ∧ ∀ j, j ≠ dir → dir_ok x j (tree j) → dir_ok x' j (tree j).

Lemma dir_ok_elsewhere ino j x x' bss : elsewhere ino x x' → j ≠ ino → dir_ok x j bss → dir_ok x' j bss.
Proof. intros [_ He] Hj [(c & Hc & ?) ? ?]. split; [|done..]. exists c. by rewrite He. Qed.

Lemma kept_elsewhere tree dir x x' : elsewhere dir x x' → others_kept tree dir x x'.
Proof. intros He. split; [apply He|]. intros j Hj. by eapply dir_ok_elsewhere. Qed.

Lemma kept_read tree dir j x x' : elsewhere j x x' → dir_ok x' j (tree j) → others_kept tree dir x x'.
Proof. intros He Hok. split; [apply He|]. intros i Hi Hoki. destruct (decide (i = j)) as [->|Hne]; [done|by eapply dir_ok_elsewhere]. Qed.

Lemma kept_trans tree dir x x1 x2 : others_kept tree dir x x1 → others_kept tree dir x1 x2 → others_kept tree dir x x2.
Proof. intros [H1 H2] [H3 H4]. split; [congruence|]. intros j Hj Hok. by apply H4, H2. Qed.

(** Why the entry [e] may not be removed. *)
Definition unlink_refused (tree : Z → list row) (target : Z → option bool) (flags : Z) (e : dent) : option Z :=
  match target (d_ino e) with
  | None => Some (- ENOMEM)
  | Some false => None
  | Some true =>
      if negb (has flags AT_REMOVEDIR) then Some (- EISDIR)
      else if negb (has flags UNLINK_VFS_DONT_TEST_EMPTY) && has_names (names (tree (d_ino e))) then Some (- ENOTEMPTY)
      else None
  end.

Lemma found_in bss name res e : found bss name res e → e ∈ names bss ∧ d_name e = name.
Proof.
  intros (H0 & Hn & k & rs1 & r & rs2 & Hk & _). split; [|done]. destruct (names_replace bss k _ Hk []) as [_ ->].
  rewrite live_app, live_used by done. set_solver.
Qed.

Lemma wp_found_inode bss name res e x dir (Q : Z → dirfs → Prop) : dir_ok x dir bss → found bss name res e → Q (d_ino e) x →
  wp (de_inode (res_buf res) (block_off res)) Q x.
Proof.
  intros Hok (_ & _ & k & rs1 & r & rs2 & Hk & -> & _ & ->) HQ.
  pose proof (proj1 (list.Forall_forall _ _) (do_blocks _ _ _ Hok) _ (list_elem_of_lookup_2 _ _ _ Hk)) as [Hro _].
  apply Forall_app in Hro as [_ Hro]. apply list.Forall_cons in Hro as [Hr _]. rewrite row_bytes_app, row_bytes_cons. by eapply wp_de_inode.
Qed.

(** C19: A name that is added to a directory is there.  Take a directory whose blocks are well-formed
    records and can be read, below 2^59 bytes in size, with memory for its pages, and a name of at
    most 254 bytes.  ext2_add_direntry returns 0 and the names of the directory are then those there were
    and the new one, with its inode and its type, and ext2_retrieve_dirent finds the new entry where
    there was no entry of that name before; or the file system has no room for the block, an error is
    returned and the names are those there were.  Neither another directory nor the rest of the file
    system is touched. *)
Theorem ext2_add_then_found name junk inum mode dir bss x : dir_ok x dir bss → bs * (Z.of_nat (length bss) + 1) < 2 ^ 59 →
  addable inum (ext2_file_type_to_type_indicator mode) name → Forall byte junk → length junk = 256%nat →
  wp (r ← ext2_add_direntry G readpage prepare_write alloc true name junk inum mode dir;
      l ← ext2_retrieve_dirent G readpage alloc true name dir; mret (r, l))
    (λ rl x', let e := Dent inum name (ext2_file_type_to_type_indicator mode) in elsewhere dir x x' ∧
      ((rl.1 = 0 ∧ ∃ bss' res, dir_ok x' dir bss' ∧ names bss' ≡ₚ e :: names bss ∧ rl.2 = inl res ∧ (absent bss name → found bss' name res e)) ∨
       (rl.1 < 0 ∧ ¬ has_room (prepare_write dir) ∧ dir_ok x' dir bss))) x.
Proof.
  intros Hok Hmax Had Hjb Hjl. wp_step. eapply wp_mono; [by apply wp_add_direntry|]. cbn beta. intros r x1 [He1 Hr].
  wp_step. destruct Hr as [(-> & bss' & Hok1 & Hp)|(Hneg & Hro & Hok1)]; (eapply wp_mono; [by apply wp_retrieve|]);
    intros l x2 (Hok2 & He2 & Hl); wp_step; (split; [by eapply elsewhere_trans|]); [left|by right]. split; [done|].
  set (e := Dent inum name _) in *. assert (He : e ∈ names bss') by (rewrite Hp; set_solver).
  destruct l as [res|err]; [|by destruct Hl as [_ Hl]; destruct (Hl e He)]. destruct Hl as [e' Hf].
  exists bss', res. split_and!; [done..|]. intros Habs. destruct (found_in _ _ _ _ Hf) as [Hin Hn]. rewrite Hp in Hin.
  apply list.elem_of_cons in Hin as [->|Hin]; [done|]. by destruct (Habs e' Hin).
Qed.

Lemma refused_neg tree target flags e err : unlink_refused tree target flags e = Some err → err < 0.
Proof. unfold unlink_refused. intros H. repeat case_match; simplify_eq; done. Qed.

Lemma wp_refuse tree target flags dir e is_dir (Q : Z → dirfs → Prop) x : target (d_ino e) = Some is_dir → dir_ok x dir (tree dir) →
  (is_dir = true → dir_ok x (d_ino e) (tree (d_ino e))) →
  (∀ x', others_kept tree dir x x' → dir_ok x' dir (tree dir) → Q (default 0 (unlink_refused tree target flags e)) x') →
  wp (if negb is_dir then mret 0
      else if negb (has flags AT_REMOVEDIR) then mret (- EISDIR)
      else if has flags UNLINK_VFS_DONT_TEST_EMPTY then mret 0
      else e ← ext2_dir_empty G readpage alloc true (d_ino e); mret (if e =? 0 then - ENOTEMPTY else 0) : M dirfs Z) Q x.
Proof.
  intros Ht Hok Htree HQ. unfold unlink_refused in HQ. rewrite Ht in HQ.
  destruct is_dir; cbn [negb]; [|wp_step; by apply HQ]. destruct (has flags AT_REMOVEDIR); cbn [negb] in *; [|wp_step; by apply HQ].
  destruct (has flags UNLINK_VFS_DONT_TEST_EMPTY); cbn [negb andb] in *; [wp_step; by apply HQ|].
  wp_step. eapply wp_dir_empty; [by apply Htree|]. intros x1 Hok1 He1. wp_step.
  assert (Hd : dir_ok x1 dir (tree dir)) by (destruct (decide (dir = d_ino e)) as [->|Hne]; [done|by eapply dir_ok_elsewhere]).
  specialize (HQ x1 (kept_read _ _ _ _ _ He1 Hok1) Hd). destruct (has_names (names (tree (d_ino e)))); exact HQ.
Qed.

(** What ext2_unlink has done. *)
Definition unlinked (tree : Z → list row) (target : Z → option bool) (flags dir : Z) (name : list Z) (r : Z) (x' : dirfs) : Prop :=
  (r = - ENOENT ∧ absent (tree dir) name ∧ dir_ok x' dir (tree dir)) ∨
  ∃ e, e ∈ names (tree dir) ∧ d_name e = name ∧
    match unlink_refused tree target flags e with
    | Some err => r = err ∧ dir_ok x' dir (tree dir)
    | None => (r = 0 ∧ ∃ bss', dir_ok x' dir bss' ∧ names (tree dir) ≡ₚ e :: names bss') ∨
              (r = - EIO ∧ ¬ has_room (prepare_write dir) ∧ dir_ok x' dir (tree dir))
    end.

End dir.

(** ** A small directory *)

Definition rec_dot : list Z := [2; 0; 0; 0; 12; 0; 1; 2; 46; 0; 0; 0].
Definition rec_a : list Z := [11; 0; 0; 0; 244; 3; 1; 1; 97] ++ replicate 1003 0.
Definition bss0 : list row := [[(rec_dot, Dent 2 [46] 2); (rec_a, Dent 11 [97] 1)]].
Definition stored0 (ino off : Z) : Z := default 0 (dir_bytes bss0 !! Z.to_nat off).
Definition readpage0 (ino off size : Z) : Z * list Z := (FILE_PAGE_SIZE, (λ i, stored0 ino (off + i)) <$> seqZ 0 4096).
Definition dirfs0 : dirfs := DirFS 1 {[2 := FCache ∅ 4096 1024 false 0]}.

Lemma readpage0_reads ino : reads_store (readpage0 ino) (stored0 ino).
Proof.
  intros off size Hm Hoff. split; [by rewrite length_fmap, length_seqZ|]. intros Hin. split; [unfold FILE_PAGE_SIZE; lia|]. intros i Hi _.
  rewrite list_lookup_fmap, lookup_seqZ_lt by lia. done.
Qed.

Lemma dir_of_blocks G bss ino x : Forall (block_ok G) bss → block_size G = 1024 → length bss = 1%nat → 
  dirs x !! ino = Some (FCache ∅ 4096 1024 false 0) → dir_bytes bss = dir_bytes bss0 → dir_ok G stored0 x ino bss.
Proof.
  intros Hb HG Hl Hx Heq. assert (Hlen : length (dir_bytes bss) = 1024%nat) by (rewrite Heq; vm_compute; done).
  split; [|done|rewrite HG, Hl; lia]. eexists. split; [exact Hx|]. split.
  - split; cbn -[dir_bytes Z.pow]; rewrite ?Hlen; try done. intros off Hm Hoff _ i Hi Hin.
    unfold stored0. rewrite <-Heq. replace (Z.to_nat off + i)%nat with (Z.to_nat (off + Z.of_nat i)) by lia.
    destruct (lookup_lt_is_Some_2 (dir_bytes bss) (Z.to_nat (off + Z.of_nat i))) as [v ->]; [lia|done].
  - intros off Ho Hr. cbn in Hr. Z.to_euclidean_division_equations; lia.
Qed.

Lemma rec_dot_ok : is_rec rec_dot (Dent 2 [46] 2).
Proof. split; [repeat constructor; lia|done|cbn; lia|cbn; lia|done..]. Qed.
Lemma rec_a_ok : is_rec rec_a (Dent 11 [97] 1).
Proof.
  split; [apply Forall_app_2; [repeat constructor; lia|by apply Forall_replicate]|done|vm_compute; done|vm_compute; lia|vm_compute; done..].
Qed.

Lemma bss0_ok : Forall (block_ok G0) bss0.
Proof.
  apply Forall_singleton. split; [|vm_compute; done]. apply list.Forall_cons. split; [apply rec_dot_ok|]. apply Forall_singleton, rec_a_ok.
Qed.

Lemma dirfs0_ok : dir_ok G0 stored0 dirfs0 2 bss0.
Proof. apply dir_of_blocks; [apply bss0_ok|done..]. Qed.

Lemma names0 : names bss0 = [Dent 2 [46] 2; Dent 11 [97] 1].
Proof. done. Qed.

Lemma ext2_add_then_found_witness :
  wp (r ← ext2_add_direntry G0 readpage0 (λ _ _ _ _, 0) (λ _ _, true) true [98; 99] (replicate 256 7) 12 0x81a4 2;
      l ← ext2_retrieve_dirent G0 readpage0 (λ _ _, true) true [98; 99] 2; mret (r, l))
    (λ rl _, rl.1 = 0 ∧ ∃ bss' res, names bss' ≡ₚ [Dent 12 [98; 99] 1; Dent 2 [46] 2; Dent 11 [97] 1] ∧
      rl.2 = inl res ∧ found G0 bss' [98; 99] res (Dent 12 [98; 99] 1)) dirfs0.
Proof.
  eapply wp_mono; [apply (ext2_add_then_found G0 G0_ok readpage0 (λ _ _ _ _, 0) (λ _ _, true) stored0 readpage0_reads (λ _ _, eq_refl)
    [98; 99] (replicate 256 7) 12 0x81a4 2 bss0 dirfs0 dirfs0_ok); [done| |by apply Forall_replicate|by rewrite length_replicate]|].
  - split; [lia|apply type_indicator_range|repeat constructor; lia|cbn; lia].
  - intros [r l] x' [_ [(Hr & bss' & res & _ & Hp & Hl & Hf)|(_ & Hno & _)]]; [|by destruct Hno; intros ???].
    split; [done|]. exists bss', res. split_and!; [done..|]. apply Hf. intros e. rewrite names0, !list.elem_of_cons. intros [->|[->|He]]; [done..|by apply not_elem_of_nil in He].
Defined.

